(* ===== verification/_CoqProject ===== *)
-Q . S2P
Prelude.v
Request.v
Chunking.v
MicroBatch.v
Capacity.v
KvPool.v
NoEvict.v
MaxUtilization.v
CapacitySpec.v
Unified.v
PyHeapq.v
PyFloat.v
CpConfig.v
RequestQueue.v
WaitingQueue.v
Admission.v
AdpRouter.v
IterStats.v
KvAwareRouter.v
Merge.v
FetchRequests.v
Mapping.v
LifeCycle.v
Bitset.v
SlotAllocator.v
Eviction.v
RadixTree.v
RadixUpdate.v
StorageManager.v
MakeRoom.v
PageLocks.v
LockToGpu.v
KvManagerV2.v
MmChunk.v
SchedulerV2.v
LegacyKvCache.v
Slots.v
HashTrie.v
ServeRouter.v
ConversationRouter.v
NGram.v
