(* ===== verification/Prelude.v ===== *)
(** * Verification of the serving core of TensorRT-LLM

    The development models the path of a request from the
    moment a client enqueues it to the moment it is put in a batch, together
    with the layout of the ranks that serve it, the parts the second KV cache
    manager is built from, the KV cache manager of the engine runtime, and the
    routers in front of several servers.  Sources are under
    [src/tensorrt_llm/]; [scheduler.py], [adp_router.py], [waiting_queue.py]
    and [scheduler_v2.py] are in [_torch/pyexecutor/scheduler/], the other executor files in
    [_torch/pyexecutor/].

    ** The program and its parts

    A server runs one [PyExecutor] per rank, all in lockstep.  In every
    iteration an executor
    - takes what clients put in its [ExecutorRequestQueue], acts on the special
      items (cancel, control, shutdown) and moves the rest to its waiting queue;
    - exchanges rank states with the other ranks, and with them the statistics
      of past iterations;
    - pops as many waiting requests as there is room for, and under attention
      data parallelism (ADP, every rank serving its own requests) routes each
      to one rank;
    - turns its share into requests, splitting long prompts over
      context-parallel ranks;
    - asks the request scheduler which active requests to run: a capacity
      policy decides what fits in the KV cache, a micro-batch scheduler what
      fits in one forward pass.

    The second KV cache manager ([runtime/kv_cache_manager_v2/]) keeps the pages
    of a sequence in slots of pools on several cache levels, drops those no window
    sees any more, evicts the pages nobody uses to the next level, keeps those that
    are held or locked, and finds the blocks a new request can reuse in a radix
    tree.  It comes with a scheduler of its own ([scheduler_v2.py]), which takes
    room in the caches and in the token budget in one loop.

    Around the executors there are smaller managers that hand out slots and blocks by
    number (sequence slots, the blocks of sparse attention, LoRA adapters), the pool
    of n-grams that proposes draft tokens, and the cache manager of the older engine
    runtime ([runtime/kv_cache_manager.py]).  In disaggregated serving a front end
    ([serve/router.py]) sends every request to one of several servers: in turn, by
    load, by the blocks a server has cached, or by conversation.

    ** Files

    - Prelude.v (this file): exceptions as the [result] monad, loops with
      [break], Python division, list and arithmetic lemmas.
    - Request.v: the request object as the schedulers see it; the methods of
      [LlmRequest] are bindings of [llmRequest.h], translated from the C++.
    - Chunking.v, MicroBatch.v: [PyMicroBatchScheduler] of [scheduler.py].
    - Capacity.v: [PyCapacityScheduler] and its policies against the interface
      [KvCacheManager]; KvPool.v: the C++ block pool as its instance
      ([kvCacheManager.cpp]); NoEvict.v and MaxUtilization.v: the invariants of
      the two main policies; CapacitySpec.v: the contract all policies keep.
    - Unified.v: [SimpleScheduler], [SimpleUnifiedScheduler], the batch
      container and its serialized form.
    - PyHeapq.v, PyFloat.v: what is used of Python's [heapq] and of floats.
    - CpConfig.v: the context-parallel settings.
    - RequestQueue.v: [executor_request_queue.py].
    - WaitingQueue.v: [waiting_queue.py], both policies behind one class.
    - Admission.v: special items and admission, from [py_executor.py] and
      [request_utils.py].
    - AdpRouter.v, KvAwareRouter.v: rank states and the two ADP routers of
      [adp_router.py].
    - IterStats.v: [adp_iter_stats.py] and the exchange of statistics.
    - Merge.v: the partitions and merge functions of [request_utils.py].
    - FetchRequests.v: [_fetch_new_requests], [_fetch_and_activate_new_requests]
      and the ADP padding of [py_executor.py], composed from the files above.
    - Mapping.v: [mapping.py].
    - LifeCycle.v: stale and scratch blocks and the registry of life cycles
      ([_life_cycle_registry.py]); Bitset.v: the bit set of [_utils.py];
      SlotAllocator.v: the slots of a pool ([_storage/_core.py]); Eviction.v:
      [_eviction_controller.py]; RadixTree.v, RadixUpdate.v: matching in and
      updates of the tree of [_block_radix_tree.py]; StorageManager.v: pages,
      pools and queues of all levels, migration and eviction between them
      ([_storage_manager.py]), against the interface [SlotPool] of a pool;
      MakeRoom.v: the theorems about making room, and the slot allocator as the
      instance of that interface; PageLocks.v: holders, locks and finalisers of
      pages ([_page.py]); LockToGpu.v: [batched_lock_to_gpu] of [_page.py].  All
      of [runtime/kv_cache_manager_v2/].
    - KvManagerV2.v: the operations of [kv_cache_manager_v2.py] the V2 scheduler
      calls, against the interface [KvCaches] of the caches; MmChunk.v: chunks that
      keep multimodal blocks whole; SchedulerV2.v: [scheduler_v2.py], with a table
      of cache sizes as an instance of that interface.
    - LegacyKvCache.v: [runtime/kv_cache_manager.py] and
      [runtime/memory_pools/].
    - Slots.v: [SlotManager] and [BlockManager] of [resource_manager.py],
      [seq_slot_manager.py], and [_torch/peft/lora/adapter_slot_manager.py].
    - HashTrie.v, ServeRouter.v, ConversationRouter.v: [serve/router.py]: the tree of
      block hashes, the round-robin, load-balancing and cache-aware routers with the
      changes of the server list, and the conversation router built on both.
    - NGram.v: [_torch/speculative/ngram.py].

    ** How code becomes definitions

    Definitions keep the source's names.  A method takes the object's record and
    returns the new one; a Python exception is [Err] of its class; a C++
    [TLLM_CHECK] is [Err TllmException].  Dictionaries are [gmap]s, or
    association lists where the order matters; integers are [Z] (Python's are
    unbounded; where the C++ object has a width it does not exceed, the bound is
    a hypothesis); floats are binary64 with the Standard Library's operations;
    priorities are rationals.  Code outside the sources is a parameter: the
    collectives of the ranks, the clock, the seeded shuffle, the radix tree
    walk, the cache probe, request validation,
    the hash of token blocks, the completion of device events, tokenizers, the
    preparation of a server, and the order in which Python goes through a set.  What a theorem needs of one is a
    named hypothesis, and its witness instantiates it.

    ** What the theorems show

    - Scheduling: the batch stays within the token and batch budgets, chunks are
      aligned and the chunking loops terminate, equal progress ends only when the
      budget is used up or nobody can take another unit, the batch consists of
      schedulable active requests without duplicates
      ([schedule_within_budget], [chunking_respects_budget],
      [equal_progress_maximal], [schedule_provenance], [schedule_groups]).
    - Capacity: requests admitted under GUARANTEED_NO_EVICT can all run to
      completion, the next step of those scheduled under MAX_UTILIZATION fits,
      its loop terminates, and every policy refines one contract
      ([no_evict_runs_to_completion], [max_utilization_next_step_fits],
      [capacity_schedule_sound], [unified_schedule_sound]).
    - Queues: ids are unique, fetching loses nothing, and both waiting queues
      refine a list in service order ([enqueue_ids_unique], [fetch_conserves],
      [waiting_queue_refines], [pop_admits]).
    - Ranks together: both routers place every request on one rank within the
      target, one lockstep fetch distributes exactly the admitted requests and
      leaves the ranks replicas of each other, statistics of rank 0's oldest
      iteration are reported for all ranks or none and within two exchanges ([default_router_balances],
      [kv_router_routes], [fetch_distributes], [fanout_all_or_none],
      [fanout_within_two_exchanges]).
    - Context parallelism and layout: the Helix partition is exact, groups are
      those of the coordinates, layer lookup and placement agree
      ([helix_partition_exact], [groups_by_coordinates], [layers_match_stage]).
    - KV cache V2: the slot allocator refines a set of slots in use, through
      resizes; eviction is all or nothing; a match is the longest prefix whose
      pages suffice and, for text and multimodal tokens, never another request's,
      unless a hash computed for the request is that of another input of the tree; every update keeps the
      tree in the form matching needs, a block that was added is found, and no
      match is lost by adding ([slot_allocator_refines],
      [evict_all_or_nothing], [match_longest], [match_sound],
      [reachable_tree_wf], [added_block_matched], [adding_keeps_matches],
      [scratch_range_safe]).
    - KV cache V2, cache levels: making room leaves the slots asked for, loses no
      page that is held and moves none that is locked, and succeeds where it can;
      new slots are distinct and nobody's; no operation on holders and locks fails
      an assertion, and all keep the table of pages in order; a locked page keeps
      its slot through every run; pages brought to the GPU are there and locked
      ([prepare_makes_room], [prepare_keeps_pages], [prepare_succeeds],
      [new_slots_fresh], [page_operations_ok], [locked_page_stays],
      [pages_locked_on_gpu]).
    - V2 scheduler: when a pass returns, every scheduled request has its cache on
      the GPU with room for its tokens, the paused ones are suspended and nobody is
      listed twice; the pass stays within its budgets but for the draft tokens of
      one last chunk, a chunk does not end inside the multimodal block it was to
      end in, and what a pass may raise is listed ([scheduled_requests_on_gpu],
      [pass_within_budget], [mm_block_kept]).
    - Engine runtime: every block is free or in one place with the right count, and
      the block a new token is written to belongs to one beam, also after the cache
      has wrapped around; layers have their places in the pools ([blocks_accounted],
      [new_token_in_own_block], [layers_placed]).
    - Slots: a prepared batch has slots of its own, or preparation failed at the first
      request that is refused or finds none; whatever calls are made, returned or
      raised, blocks belong to one request and are as many as its tokens need;
      adapters used in a batch keep their slots ([seq_slots_prepared],
      [blocks_for_tokens], [lora_slots_hold]).
    - Drafts: a draft is what followed the longest run the tokens end with
      ([ngram_drafts]).
    - Front end: the counters of a server are those of its requests in flight, less
      what was in flight when it was added, and a request goes to the least of them;
      requests spread evenly and take turns; the cache-aware router sends a request
      where the score in doubles is best; sessions, tree and index of the conversation
      router agree, a request goes where its conversation, its longest match or the
      least load is, and a conversation stays on its server while fewer other sessions
      are used than are kept ([least_load_first], [requests_spread_evenly],
      [round_robin_turns], [common_blocks], [best_match_chosen], [longest_match],
      [conversation_routed], [conversations_stay]).
    - Behaviour that differs from what the code says it does:
      [retry_after_pause_is_skipped], [kv_router_drops_requests],
      [children_break_padding], [dummy_role_never_updated],
      [star_merge_arguments_shifted], [helix_merge_shares],
      [moe_group_misses_rank], [dict_roundtrip], [eviction_stuck],
      [partial_parent_accepted], [mm_rounding_splits_next_run],
      [last_chunk_drafts_over_budget], [no_cross_slot_raises],
      [last_block_not_shared], [second_pool_loses_token], [rewind_leaves_debt],
      [excluded_server_shifts_loads], [returning_server_below_zero],
      [second_match_kept].

    ** Fuel and bounds

    Only loops that are not structural carry fuel, and running out is the value
    [Err OutOfFuel]: the EQUAL_PROGRESS loop of Chunking.v (one round more than
    the sum of the remaining context lengths, since every round that goes on
    hands out a token), the MAX_UTILIZATION loop of Capacity.v (the number of
    requests, since every round shortens the range still to visit) and the
    admission loop of Admission.v (one round more than the requests waiting,
    since every round pops one).  [chunking_respects_budget],
    [max_utilization_terminates] and [pop_admits] show that none runs out.  The
    sifting loops of PyHeapq.v and the block split of Merge.v are bounded by
    the length of their list, which their specifications cover.  The pruning loop
    of RadixTree.v (one round more than the blocks matched, since every round
    that goes on drops one) and the removal loop of RadixUpdate.v (two rounds
    per block) are covered by [match_longest] and [clear_returns_pages], and the eviction loop of
    ConversationRouter.v (one round more than there are sessions, since every round
    drops one) by [conversation_routed].  The walks
    of MmChunk.v and the search for victims of SchedulerV2.v recurse on the
    number of positions their Python loops range over.

    ** Not modelled

    The forward step, sampling, responses, disaggregated transfer and
    speculative decoding other than n-grams are device or network work; so are the
    health checks and the metadata service of the front end; the broadcast of pickled
    requests is the collective parameter of the fetch.  Of the second KV cache
    manager, sequences (the V2 scheduler sees them through [KvCaches]), the copies of
    a migration, cache events and the resizing of levels are not covered; of
    [kv_cache_manager_v2.py], what happens outside the scheduler's calls.  A failed call is an
    exception without a state, so what [batched_lock_to_gpu] and the migration do
    after a failure is not modelled.  Dropping a page from a queue does not
    update the radix tree.  The caches of [KvCaches] say that they cannot be resumed
    or resized and do not raise.  The engine runtime's manager is considered for
    self-attention, where the last context block is not shared.  Recurrent-state windows of the C++ pool and the
    device-mesh topology of [mapping.py] are left out.  Process management, model
    definitions, kernels and the engine builder are out of scope. *)

From stdpp Require Import prelude gmap sorting.
Local Open Scope Z_scope.

(** ** Results: Python exceptions as values *)

(** The exceptions the modelled code can raise.  [TllmException] is what a
    failed [TLLM_CHECK] of the C++ request object surfaces as; [OutOfFuel] is
    not an exception of the program: it marks a fuelled loop that was cut
    short, and every fuelled loop of the development has a theorem that it is
    never produced. *)
Inductive exn :=
  | AssertionError | IndexError | KeyError | ValueError
  | RuntimeError | NotImplementedError | ZeroDivisionError
  | AttributeError | TypeError | OverflowError
  | OutOfPagesError | LogicError | StopIteration
  | NameError | TllmException | OutOfFuel.

Inductive result (A : Type) :=
  | Ok (a : A)
  | Err (e : exn).
Arguments Ok {_} _.
Arguments Err {_} _.

#[export] Instance exn_eq_dec : EqDecision exn.
Proof. solve_decision. Defined.
#[export] Instance result_eq_dec {A} `{EqDecision A} : EqDecision (result A).
Proof. solve_decision. Defined.

#[export] Instance result_ret : MRet result := fun A a => Ok a.
#[export] Instance result_bind : MBind result := fun A B f r =>
  match r with Ok a => f a | Err e => Err e end.
#[export] Instance result_fmap : FMap result := fun A B f r =>
  match r with Ok a => Ok (f a) | Err e => Err e end.

(** [assert b] of Python. *)
Definition py_assert (b : bool) : result unit :=
  if b then Ok tt else Err AssertionError.

(** ** Loops with [break] and [continue] *)

Inductive ctl (S : Type) :=
  | Continue (s : S)
  | Break (s : S).
Arguments Continue {_} _.
Arguments Break {_} _.

Definition ctl_state {S} (c : ctl S) : S :=
  match c with Continue s | Break s => s end.

(** [for x in l: ...] over a state [s]; the body decides between falling
    through to the next element and leaving the loop. *)
Fixpoint for_loop {A S} (body : S -> A -> result (ctl S)) (s : S) (l : list A) : result S :=
  match l with
  | [] => Ok s
  | x :: l' =>
      match body s x with
      | Err e => Err e
      | Ok (Continue s') => for_loop body s' l'
      | Ok (Break s') => Ok s'
      end
  end.

(** A loop whose body never leaves early. *)
Fixpoint for_each {A S} (body : S -> A -> result S) (s : S) (l : list A) : result S :=
  match l with
  | [] => Ok s
  | x :: l' => s' ← body s x; for_each body s' l'
  end.

(** ** Sums, lengths, stable sorting *)

Abbreviation len l := (Z.of_nat (length l)).

Definition zsum {A} (f : A -> Z) (l : list A) : Z := foldr (fun x a => f x + a) 0 l.

(** Python's [list.sort(key=...)] is stable.  Inserting from the right, each
    element in front of the first one that is not smaller, keeps equal
    elements in their original order. *)
Fixpoint insert_by {A} (le : A -> A -> bool) (x : A) (l : list A) : list A :=
  match l with
  | [] => [x]
  | y :: l' => if le x y then x :: y :: l' else y :: insert_by le x l'
  end.

Definition sort_by {A} (le : A -> A -> bool) (l : list A) : list A :=
  foldr (insert_by le) [] l.

(** [a // b] and [a % b] *)
Definition pydiv (a b : Z) : result Z := if b =? 0 then Err ZeroDivisionError else Ok (a / b).
Definition pymod (a b : Z) : result Z := if b =? 0 then Err ZeroDivisionError else Ok (a mod b).

(** [sum(...)], [min], [max] over optional bounds: [None] stands for "no
    limit", as in [max_num_tokens: Optional[int]]. *)
Definition exceeds (n : Z) (limit : option Z) : bool :=
  match limit with None => false | Some m => m <? n end.

(** [x is None] *)
Definition is_none {A} (o : option A) : bool :=
  match o with None => true | Some _ => false end.

(** ** Lists by index

    [l[i]] and [l[i] = x]: a negative index counts from the end, and one out of
    range raises. *)

Definition py_pos (n : nat) (i : Z) : option nat :=
  if (0 <=? i) && (i <? Z.of_nat n) then Some (Z.to_nat i)
  else if (- Z.of_nat n <=? i) && (i <? 0) then Some (Z.to_nat (Z.of_nat n + i))
  else None.

Definition py_get {A} (l : list A) (i : Z) : result A :=
  match py_pos (length l) i ≫= (l !!.) with
  | Some x => Ok x
  | None => Err IndexError
  end.

Definition py_set {A} (l : list A) (i : Z) (x : A) : result (list A) :=
  match py_pos (length l) i with
  | Some k => Ok (<[k := x]> l)
  | None => Err IndexError
  end.

(** ** Dictionaries in insertion order

    The items of a [dict] or an [OrderedDict] whose order matters.  Assigning to a
    key it has leaves the key where it is. *)

Section OrderedDict.
Context {K V : Type} `{EqDecision K}.
Implicit Types (d : list (K * V)) (k : K) (v : V).

Definition od_get d k : option V := snd <$> find (fun p => bool_decide (p.1 = k)) d.
Definition od_del d k : list (K * V) := filter (fun p => p.1 <> k) d.
Definition od_set d k v : list (K * V) :=
  if bool_decide (k ∈ d.*1) then (fun p => if bool_decide (p.1 = k) then (k, v) else p) <$> d else d ++ [(k, v)].

End OrderedDict.

(** ** Automation *)

Create HintDb serving discriminated.

Lemma bind_Ok {A B} (m : result A) (f : A -> result B) b :
  m ≫= f = Ok b <-> exists a, m = Ok a /\ f a = Ok b.
Proof. destruct m as [a|e]; simpl; split; [eauto | by intros (? & [= ->] & ?) | done | by intros (? & ? & ?)]. Qed.

Lemma bind_Err {A B} (m : result A) (f : A -> result B) e :
  m ≫= f = Err e -> m = Err e \/ exists a, m = Ok a /\ f a = Err e.
Proof. destruct m as [a|e']; simpl; [eauto|]. intros [= ->]. by left. Qed.

Lemma assert_Ok b u : py_assert b = Ok u <-> b = true.
Proof. destruct b, u; simpl; naive_solver. Qed.

(** Take every successful monadic computation of the context apart. *)
Ltac inv_ok :=
  repeat match goal with
  | H : _ ≫= _ = Ok _ |- _ =>
      apply bind_Ok in H; let a := fresh "a" in let E := fresh "E" in
      destruct H as (a & E & H)
  | H : py_assert _ = Ok _ |- _ => apply assert_Ok in H
  | H : Ok _ = Ok _ |- _ => injection H as H; try subst
  | H : Err _ = Ok _ |- _ => discriminate H
  | H : mret _ = Ok _ |- _ => injection H as H; try subst
  | H : (_, _) = (_, _) |- _ => injection H as H; try subst
  end.

(** Boolean tests of the code, as propositions for [lia]. *)
Ltac bool_to_prop :=
  repeat match goal with
  | H : _ && _ = true |- _ => apply andb_prop in H; destruct H
  | H : _ || _ = false |- _ => apply orb_false_elim in H; destruct H
  | H : negb _ = true |- _ => apply negb_true_iff in H
  | H : negb _ = false |- _ => apply negb_false_iff in H
  | H : bool_decide _ = true |- _ => apply bool_decide_eq_true in H
  | H : bool_decide _ = false |- _ => apply bool_decide_eq_false in H
  | H : (_ <? _) = true |- _ => apply Z.ltb_lt in H
  | H : (_ <? _) = false |- _ => apply Z.ltb_ge in H
  | H : (_ <=? _) = true |- _ => apply Z.leb_le in H
  | H : (_ <=? _) = false |- _ => apply Z.leb_gt in H
  | H : (_ =? _) = true |- _ => apply Z.eqb_eq in H
  | H : (_ =? _) = false |- _ => apply Z.eqb_neq in H
  end.

(** Split the innermost conditional of the goal or of a hypothesis. *)
Ltac split_if :=
  match goal with
  | |- context [if ?b then _ else _] =>
      lazymatch b with context [if _ then _ else _] => fail | _ => destruct b eqn:? end
  | H : context [if ?b then _ else _] |- _ =>
      lazymatch b with context [if _ then _ else _] => fail | _ => destruct b eqn:? end
  end.

(** ** Loop rules *)

(** Partial correctness, with the elements already processed in sight. *)
Lemma for_loop_prefix_inv {A S} (body : S -> A -> result (ctl S))
    (I : list A -> S -> Prop) (l : list A) s0 s :
  I [] s0 ->
  (forall done x rest s1 c,
      l = done ++ x :: rest -> I done s1 -> body s1 x = Ok c ->
      I (done ++ [x]) (ctl_state c)) ->
  for_loop body s0 l = Ok s ->
  exists done rest, l = done ++ rest /\ I done s.
Proof.
  intros H0 Hstep.
  enough (forall rest done s0, l = done ++ rest -> I done s0 ->
    for_loop body s0 rest = Ok s -> exists done rest, l = done ++ rest /\ I done s)
    by (intros; eapply (H l [] s0); eauto).
  induction rest as [|x rest IH]; intros done s1 -> Hi Hrun; simpl in Hrun.
  - simplify_eq. eauto.
  - destruct (body s1 x) as [[s'|s']|] eqn:E; simplify_eq.
    + apply (IH (done ++ [x]) s'); [by rewrite <- app_assoc | | done].
      apply (Hstep done x rest s1 (Continue s')); auto.
    + exists (done ++ [x]), rest. split; [by rewrite <- app_assoc|].
      apply (Hstep done x rest s1 (Break s)); auto.
Qed.

Lemma for_loop_inv {A S} (body : S -> A -> result (ctl S)) (I : S -> Prop) (l : list A) s0 s :
  I s0 ->
  (forall s1 x c, x ∈ l -> I s1 -> body s1 x = Ok c -> I (ctl_state c)) ->
  for_loop body s0 l = Ok s -> I s.
Proof.
  intros H0 Hstep Hrun.
  destruct (for_loop_prefix_inv body (fun _ => I) l s0 s) as (? & ? & ? & ?); auto.
  intros. eapply Hstep; eauto. set_solver.
Qed.

(** Total correctness with one invariant for the states the loop goes on from
    and another for the states it leaves with; the elements processed so far
    are in sight. *)
Lemma for_loop_rule {A S} (body : S -> A -> result (ctl S))
    (I J : list A -> S -> Prop) (l : list A) s0 :
  I [] s0 ->
  (forall done x rest s,
      l = done ++ x :: rest -> I done s ->
      exists c, body s x = Ok c /\
        match c with Continue s' => I (done ++ [x]) s' | Break s' => J (done ++ [x]) s' end) ->
  (forall s, I l s -> J l s) ->
  exists done rest s, l = done ++ rest /\ for_loop body s0 l = Ok s /\ J done s.
Proof.
  intros H0 Hstep Hend.
  enough (forall rest done s0, l = done ++ rest -> I done s0 ->
    exists done' rest' s, l = done' ++ rest' /\ for_loop body s0 rest = Ok s /\ J done' s)
    as H by (by apply (H l [] s0)).
  induction rest as [|x rest IH]; intros done s1 Hl Hi; simpl.
  - exists l, [], s1. rewrite app_nil_r in *. subst done. eauto.
  - destruct (Hstep done x rest s1 Hl Hi) as ([s'|s'] & -> & Hc).
    + apply (IH (done ++ [x])); [by rewrite <- app_assoc|done].
    + exists (done ++ [x]), rest, s'. by rewrite <- app_assoc.
Qed.

(** Total correctness: the body succeeds under the invariant. *)
Lemma for_loop_total {A S} (body : S -> A -> result (ctl S)) (I : S -> Prop) (l : list A) s0 :
  I s0 ->
  (forall s1 x, x ∈ l -> I s1 -> exists c, body s1 x = Ok c /\ I (ctl_state c)) ->
  exists s, for_loop body s0 l = Ok s /\ I s.
Proof.
  revert s0. induction l as [|x l IH]; intros s0 H0 Hstep; simpl; [eauto|].
  destruct (Hstep s0 x) as (c & -> & Hc); [set_solver|done|].
  destruct c as [s'|s']; [|eauto].
  apply IH; [done|]. intros. apply Hstep; [set_solver|done].
Qed.

(** As [for_loop_rule], for a body that may raise. *)
Lemma for_loop_cases {A S} (body : S -> A -> result (ctl S)) (I : list A -> S -> Prop) (J : S -> Prop) (E : exn -> Prop) (l : list A) s0 :
  I [] s0 ->
  (forall done x rest s, l = done ++ x :: rest -> I done s ->
     match body s x with Ok (Continue s') => I (done ++ [x]) s' | Ok (Break s') => J s' | Err e => E e end) ->
  (forall s, I l s -> J s) ->
  match for_loop body s0 l with Ok s => J s | Err e => E e end.
Proof.
  intros H0 Hstep Hend. enough (H : forall rest done s, l = done ++ rest -> I done s ->
    match for_loop body s rest with Ok s => J s | Err e => E e end) by by apply (H l []).
  induction rest as [|x rest IH]; intros done s Hl Hi; simpl.
  - rewrite app_nil_r in Hl. subst done. by apply Hend.
  - specialize (Hstep done x rest s Hl Hi). destruct (body s x) as [[s'|s']|e]; [|done|done].
    apply (IH (done ++ [x])); [|done]. by rewrite <- app_assoc.
Qed.

(** An exception of a loop is one of its body. *)
Lemma for_loop_err {A S} (body : S -> A -> result (ctl S)) (l : list A) s0 e :
  for_loop body s0 l = Err e -> exists s x, x ∈ l /\ body s x = Err e.
Proof.
  revert s0. induction l as [|x l IH]; intros s0; simpl; [done|].
  destruct (body s0 x) as [[s'|s']|] eqn:E; [|done|].
  - intros (s & y & ? & ?)%IH. exists s, y. split; [by right|done].
  - intros [= <-]. exists s0, x. split; [left|done].
Qed.

Lemma for_each_inv {A S} (body : S -> A -> result S) (I : S -> Prop) (l : list A) s0 s :
  I s0 ->
  (forall s1 x s2, x ∈ l -> I s1 -> body s1 x = Ok s2 -> I s2) ->
  for_each body s0 l = Ok s -> I s.
Proof.
  revert s0. induction l as [|x l IH]; intros s0 H0 Hstep Hrun; simpl in Hrun; inv_ok; [done|].
  eapply IH; [|intros; eapply Hstep; eauto; set_solver|done].
  eapply Hstep; eauto. set_solver.
Qed.

Lemma for_each_app {A S} (body : S -> A -> result S) s l1 l2 :
  for_each body s (l1 ++ l2) = (s' ← for_each body s l1; for_each body s' l2).
Proof.
  revert s. induction l1 as [|x l1 IH]; intros s; [done|]. simpl. destruct (body s x); simpl; [apply IH|done].
Qed.

Lemma for_each_snoc {A S} (body : S -> A -> result S) s l x :
  for_each body s (l ++ [x]) = (s' ← for_each body s l; body s' x).
Proof.
  revert s. induction l as [|y l IH]; intros s; simpl.
  - by destruct (body s x).
  - destruct (body s y); simpl; [by rewrite IH|done].
Qed.

Lemma for_each_total {A S} (body : S -> A -> result S) (I : S -> Prop) (l : list A) s0 :
  I s0 ->
  (forall s1 x, x ∈ l -> I s1 -> exists s2, body s1 x = Ok s2 /\ I s2) ->
  exists s, for_each body s0 l = Ok s /\ I s.
Proof.
  revert s0. induction l as [|x l IH]; intros s0 H0 Hstep; simpl; [eauto|].
  destruct (Hstep s0 x) as (s' & -> & Hc); [set_solver|done|].
  apply IH; [done|]. intros. apply Hstep; [set_solver|done].
Qed.

(** The rule for a body that may raise. *)
Lemma for_each_cases {A S} (body : S -> A -> result S) (I : list A -> S -> Prop) (E : exn -> Prop) (l : list A) s0 :
  I [] s0 ->
  (forall pre x post s, l = pre ++ x :: post -> I pre s -> match body s x with Ok s' => I (pre ++ [x]) s' | Err e => E e end) ->
  match for_each body s0 l with Ok s => I l s | Err e => E e end.
Proof.
  intros H0 Hstep. enough (H : forall post pre s, l = pre ++ post -> I pre s ->
    match for_each body s post with Ok s => I l s | Err e => E e end) by by apply (H l []).
  induction post as [|x post IH]; intros pre s Hl Hi; simpl.
  - rewrite app_nil_r in Hl. by subst pre.
  - specialize (Hstep pre x post s Hl Hi). destruct (body s x) as [s'|e]; [|done].
    apply (IH (pre ++ [x])); [|done]. by rewrite <- app_assoc.
Qed.

(** Total correctness with the elements handled so far. *)
Lemma for_each_prefix_total {A S} (body : S -> A -> result S) (I : list A -> S -> Prop) (l : list A) s0 :
  I [] s0 ->
  (forall pre x post s1, l = pre ++ x :: post -> I pre s1 ->
     exists s2, body s1 x = Ok s2 /\ I (pre ++ [x]) s2) ->
  exists s, for_each body s0 l = Ok s /\ I l s.
Proof.
  intros H0 Hstep. enough (H : forall post pre s1, l = pre ++ post -> I pre s1 ->
    exists s, for_each body s1 post = Ok s /\ I l s) by by apply (H l []).
  induction post as [|x post IH]; intros pre s1 Hl Hi; simpl.
  - rewrite app_nil_r in Hl. subst pre. eauto.
  - destruct (Hstep pre x post s1 Hl Hi) as (s2 & -> & Hi2). apply (IH (pre ++ [x])); [|done].
    by rewrite <- app_assoc.
Qed.

(** The same for a loop that may leave early but never does. *)
Lemma for_loop_prefix_total {A S} (body : S -> A -> result (ctl S)) (I : list A -> S -> Prop) (l : list A) s0 :
  I [] s0 ->
  (forall pre x post s1, l = pre ++ x :: post -> I pre s1 ->
     exists s2, body s1 x = Ok (Continue s2) /\ I (pre ++ [x]) s2) ->
  exists s, for_loop body s0 l = Ok s /\ I l s.
Proof.
  intros H0 Hstep. enough (H : forall post pre s1, l = pre ++ post -> I pre s1 ->
    exists s, for_loop body s1 post = Ok s /\ I l s) by by apply (H l []).
  induction post as [|x post IH]; intros pre s1 Hl Hi; simpl.
  - rewrite app_nil_r in Hl. subst pre. eauto.
  - destruct (Hstep pre x post s1 Hl Hi) as (s2 & -> & Hi2). apply (IH (pre ++ [x])); [|done].
    by rewrite <- app_assoc.
Qed.

(** ** Filters and sublists *)

Lemma filter_all {A} (P : A -> Prop) `{!forall x, Decision (P x)} l : Forall P l -> filter P l = l.
Proof. induction 1; [done|]. rewrite filter_cons_True by done. by f_equal. Qed.

Lemma filter_none {A} (P : A -> Prop) `{!forall x, Decision (P x)} l :
  Forall (fun x => ~ P x) l -> filter P l = [].
Proof. induction 1; [done|]. by rewrite filter_cons_False. Qed.

Lemma NoDup_contained {A} (l k : list A) : l ⊆+ k -> NoDup k -> NoDup l.
Proof. intros [r ->]%submseteq_Permutation [? _]%NoDup_app. done. Qed.

Lemma Forall_filter_sub {A} (P Q : A -> Prop) `{!forall x, Decision (P x)} l :
  Forall Q l -> Forall Q (filter P l).
Proof. rewrite !Forall_forall. intros HQ x [_ Hx]%list_elem_of_filter. auto. Qed.

Lemma exceeds_mono n m limit : n <= m -> exceeds m limit = false -> exceeds n limit = false.
Proof. destruct limit; simpl; [|done]. rewrite !Z.ltb_ge. lia. Qed.

(** ** Sums *)

Lemma zsum_nil {A} (f : A -> Z) : zsum f [] = 0.
Proof. done. Qed.
Lemma zsum_cons {A} (f : A -> Z) x l : zsum f (x :: l) = f x + zsum f l.
Proof. done. Qed.
Lemma zsum_app {A} (f : A -> Z) l1 l2 : zsum f (l1 ++ l2) = zsum f l1 + zsum f l2.
Proof. induction l1; simpl; rewrite ?zsum_cons, ?IHl1; unfold zsum; simpl; lia. Qed.
Lemma zsum_snoc {A} (f : A -> Z) l x : zsum f (l ++ [x]) = zsum f l + f x.
Proof. rewrite zsum_app, zsum_cons, zsum_nil. lia. Qed.
Lemma zsum_ext {A} (f g : A -> Z) l : (forall x, x ∈ l -> f x = g x) -> zsum f l = zsum g l.
Proof.
  induction l as [|x l IH]; intros H; rewrite ?zsum_cons; [done|].
  rewrite (H x), IH; [done|..]; set_solver.
Qed.
Lemma zsum_le {A} (f g : A -> Z) l : (forall x, x ∈ l -> f x <= g x) -> zsum f l <= zsum g l.
Proof.
  induction l as [|x l IH]; intros H; rewrite ?zsum_cons; [done|].
  assert (f x <= g x) by (apply H; set_solver).
  assert (zsum f l <= zsum g l) by (apply IH; set_solver). lia.
Qed.
Lemma zsum_0 {A} (f : A -> Z) l : (forall x, x ∈ l -> f x = 0) -> zsum f l = 0.
Proof.
  induction l as [|x l IH]; intros H; rewrite ?zsum_cons; [done|].
  rewrite (H x), IH; [done|..]; set_solver.
Qed.
Lemma zsum_nonneg {A} (f : A -> Z) l : (forall x, x ∈ l -> 0 <= f x) -> 0 <= zsum f l.
Proof.
  intros H. rewrite <- (zsum_0 (fun _ => 0) l); [|done]. by apply zsum_le.
Qed.
Lemma zsum_perm {A} (f : A -> Z) l1 l2 : l1 ≡ₚ l2 -> zsum f l1 = zsum f l2.
Proof. induction 1; rewrite ?zsum_cons; lia. Qed.
#[export] Instance zsum_proper {A} (f : A -> Z) : Proper ((≡ₚ) ==> eq) (zsum f).
Proof. intros l1 l2. apply zsum_perm. Qed.
Lemma zsum_filter {A} (P : A -> Prop) `{!forall x, Decision (P x)} (f : A -> Z) l :
  zsum f (filter P l) = zsum (fun x => if decide (P x) then f x else 0) l.
Proof.
  induction l as [|x l IH]; [done|].
  rewrite filter_cons, (zsum_cons _ x l). case_decide; rewrite ?zsum_cons, IH; lia.
Qed.
Lemma zsum_fmap {A B} (g : A -> B) (f : B -> Z) l : zsum f (g <$> l) = zsum (fun x => f (g x)) l.
Proof. induction l as [|x l IH]; [done|]. by rewrite fmap_cons, !zsum_cons, IH. Qed.
Lemma zsum_plus {A} (f g : A -> Z) l : zsum (fun x => f x + g x) l = zsum f l + zsum g l.
Proof. induction l as [|x l IH]; [done|]. rewrite !zsum_cons, IH. lia. Qed.
Lemma zsum_const {A} (c : Z) (l : list A) : zsum (fun _ => c) l = c * len l.
Proof. induction l as [|x l IH]; [rewrite zsum_nil; simpl; lia|]. rewrite zsum_cons, IH, length_cons. lia. Qed.

Create Rewrite HintDb zsum.
#[export] Hint Rewrite @zsum_nil @zsum_cons @zsum_snoc @zsum_app : zsum.

(** ** Stable sorting *)

Section sorting.
Context {A : Type} (le : A -> A -> bool).
Context (le_trans : forall x y z, le x y = true -> le y z = true -> le x z = true).
Context (le_total : forall x y, le x y = true \/ le y x = true).

Lemma insert_by_perm x l : insert_by le x l ≡ₚ x :: l.
Proof using Type.
  induction l as [|y l IH]; simpl; [done|].
  destruct (le x y); [done|]. rewrite IH. by constructor.
Qed.

Lemma sort_by_perm l : sort_by le l ≡ₚ l.
Proof using Type. induction l as [|x l IH]; simpl; [done|]. by rewrite insert_by_perm, IH. Qed.

Lemma length_sort_by l : length (sort_by le l) = length l.
Proof using Type. apply Permutation_length, sort_by_perm. Qed.

Lemma insert_by_sorted x l :
  StronglySorted (fun a b => le a b = true) l ->
  StronglySorted (fun a b => le a b = true) (insert_by le x l).
Proof using le_trans le_total.
  induction l as [|y l IH]; intros Hs; simpl; [by repeat constructor|].
  apply StronglySorted_inv in Hs as [Hs Hy].
  destruct (le x y) eqn:E.
  - constructor; [by constructor|]. constructor; [done|].
    eapply List.Forall_impl; [|exact Hy]. simpl; eauto.
  - constructor; [auto|]. rewrite insert_by_perm. constructor; [|done].
    destruct (le_total x y); congruence.
Qed.

Lemma sort_by_sorted l : StronglySorted (fun a b => le a b = true) (sort_by le l).
Proof using le_trans le_total. induction l; simpl; [constructor|]. by apply insert_by_sorted. Qed.

(** Stability: the elements of one equivalence class keep their order. *)
Lemma sort_by_stable k l :
  filter (fun y => le k y = true /\ le y k = true) (sort_by le l)
  = filter (fun y => le k y = true /\ le y k = true) l.
Proof using le_trans.
  induction l as [|x l IH]; simpl; [done|].
  rewrite filter_cons, <- IH. clear IH. generalize (sort_by le l) as s.
  induction s as [|y s IHs]; simpl; [by rewrite filter_cons, filter_nil|].
  destruct (le x y) eqn:E; [by rewrite filter_cons|].
  rewrite !(filter_cons _ y), IHs.
  repeat case_decide; try done. destruct_and!.
  exfalso. assert (le x y = true) by eauto. congruence.
Qed.
End sorting.

(** ** Indexing *)

Lemma py_pos_lt n i k : py_pos n i = Some k -> (k < n)%nat.
Proof. unfold py_pos. repeat case_match; bool_to_prop; intros [= <-]; lia. Qed.

Lemma py_pos_nonneg n i : 0 <= i < Z.of_nat n -> py_pos n i = Some (Z.to_nat i).
Proof.
  intros [H1 H2]. unfold py_pos. by rewrite (proj2 (Z.leb_le _ _) H1), (proj2 (Z.ltb_lt _ _) H2).
Qed.

Lemma py_get_Ok {A} (l : list A) i x :
  py_get l i = Ok x <-> exists k, py_pos (length l) i = Some k /\ l !! k = Some x.
Proof.
  unfold py_get. destruct (py_pos (length l) i) as [k|]; simpl; [|naive_solver].
  destruct (l !! k) eqn:E; naive_solver.
Qed.

Lemma py_get_total {A} (l : list A) i k :
  py_pos (length l) i = Some k -> exists x, l !! k = Some x /\ py_get l i = Ok x.
Proof.
  intros H. destruct (lookup_lt_is_Some_2 l k) as [x Hx]; [by eapply py_pos_lt|].
  exists x. split; [done|]. apply py_get_Ok. eauto.
Qed.

Lemma py_set_Ok {A} (l l' : list A) i x :
  py_set l i x = Ok l' <-> exists k, py_pos (length l) i = Some k /\ l' = <[k := x]> l.
Proof. unfold py_set. destruct (py_pos (length l) i) as [k|]; naive_solver. Qed.

(** In range, counted from the front. *)
Lemma py_get_nat {A} (l : list A) k x : l !! k = Some x -> py_get l (Z.of_nat k) = Ok x.
Proof.
  intros Hk. apply py_get_Ok. exists k. split; [|done]. apply lookup_lt_Some in Hk.
  rewrite py_pos_nonneg by lia. by rewrite Nat2Z.id.
Qed.

Lemma py_set_nat {A} (l : list A) k x :
  (k < length l)%nat -> py_set l (Z.of_nat k) x = Ok (<[k := x]> l).
Proof. intros Hk. unfold py_set. rewrite py_pos_nonneg by lia. by rewrite Nat2Z.id. Qed.

(** ** Lists of results and rows *)

Lemma mapM_cases {A B} (f : A -> result B) xs :
  (exists ys, mapM f xs = Ok ys /\ length ys = length xs /\ forall i x, xs !! i = Some x -> exists y, ys !! i = Some y /\ f x = Ok y)
  \/ (exists i x e, xs !! i = Some x /\ f x = Err e /\ mapM f xs = Err e).
Proof.
  induction xs as [|x xs IH]; [left; by exists []|]. cbn [mapM]. destruct (f x) as [y|e] eqn:Hx.
  2: { right. by exists 0%nat, x, e. }
  destruct IH as [(ys & Hm & Hl & Hys)|(i & x' & e & Hi & He & Hm)]; cbn [mbind result_bind]; rewrite Hm; cbn [mbind result_bind].
  - left. exists (y :: ys). split; [done|]. split; [simpl; lia|]. intros [|i] x' Hi; [injection Hi as <-; eauto|by apply Hys].
  - right. by exists (S i), x', e.
Qed.

Lemma mapM_all_ok {A B} (f : A -> result B) xs ys :
  length ys = length xs -> (forall i x y, xs !! i = Some x -> ys !! i = Some y -> f x = Ok y) -> mapM f xs = Ok ys.
Proof.
  revert ys. induction xs as [|x xs IH]; intros [|y ys] Hlen Hf; try done. cbn [mapM].
  rewrite (Hf 0%nat x y eq_refl eq_refl). cbn [mbind result_bind]. rewrite (IH ys); [done|simpl in Hlen; lia|].
  intros i. apply (Hf (S i)).
Qed.

Lemma mapM_index (l : list Z) n : len l = n -> mapM (py_get l) (seqZ 0 n) = Ok l.
Proof.
  intros <-. apply mapM_all_ok; [rewrite length_seqZ; lia|]. intros i x y Hx Hy.
  apply lookup_seqZ in Hx as [-> _]. by apply py_get_nat.
Qed.

Lemma concat_replicate_nil {A} n : concat (replicate n ([] : list A)) = [].
Proof. by induction n. Qed.

Lemma elem_concat_lookup {A} (ls : list (list A)) x : x ∈ concat ls <-> exists i l, ls !! i = Some l /\ x ∈ l.
Proof.
  rewrite list_elem_of_In, in_concat. split.
  - intros (l & Hl & Hx). apply list_elem_of_In, list_elem_of_lookup_1 in Hl as [i Hi]. exists i, l. by rewrite list_elem_of_In.
  - intros (i & l & Hl & Hx). exists l. rewrite <- !list_elem_of_In. split; [by eapply list_elem_of_lookup_2|done].
Qed.

Lemma lookup_zip4 {A B C D} (a : list A) (b : list B) (c : list C) (d : list D) i x :
  zip (zip a b) (zip c d) !! i = Some x <->
  exists a' b' c' d', x = ((a', b'), (c', d')) /\ a !! i = Some a' /\ b !! i = Some b' /\ c !! i = Some c' /\ d !! i = Some d'.
Proof.
  rewrite lookup_zip_with_Some. split.
  - intros (y & z & -> & Hy & Hz). apply lookup_zip_with_Some in Hy as (a' & b' & -> & ? & ?).
    apply lookup_zip_with_Some in Hz as (c' & d' & -> & ? & ?). by exists a', b', c', d'.
  - intros (a' & b' & c' & d' & -> & Ha & Hb & Hc & Hd). exists (a', b'), (c', d').
    split; [done|]. rewrite !lookup_zip_with_Some. eauto 10.
Qed.

(** [for k in range(n)], with the state after [k] rounds. *)
Lemma for_range {S} (body : S -> Z -> result S) (I : nat -> S -> Prop) (n : nat) s0 :
  I 0%nat s0 ->
  (forall k s, (k < n)%nat -> I k s -> exists s', body s (Z.of_nat k) = Ok s' /\ I (Datatypes.S k) s') ->
  exists s, for_each body s0 (seqZ 0 (Z.of_nat n)) = Ok s /\ I n s.
Proof.
  intros H0 Hstep. destruct (for_each_prefix_total body (fun pre s => I (length pre) s) (seqZ 0 (Z.of_nat n)) s0 H0) as (s & Hs & Hi).
  - intros pre x post s Hl Hi. assert (Hlk : seqZ 0 (Z.of_nat n) !! length pre = Some x) by (rewrite Hl; by apply list_lookup_middle).
    apply lookup_seqZ in Hlk as [-> Hlt]. destruct (Hstep (length pre) s) as (s' & Hb & Hi'); [lia|done|].
    exists s'. rewrite Z.add_0_l, length_app, Nat.add_comm. done.
  - rewrite length_seqZ, Nat2Z.id in Hi. eauto.
Qed.

(** The round [k] raises. *)
Lemma for_range_err {S} (body : S -> Z -> result S) (I : nat -> S -> Prop) (n k : nat) s0 e :
  (k < n)%nat -> I 0%nat s0 ->
  (forall j s, (j < k)%nat -> I j s -> exists s', body s (Z.of_nat j) = Ok s' /\ I (Datatypes.S j) s') ->
  (forall s, I k s -> body s (Z.of_nat k) = Err e) ->
  for_each body s0 (seqZ 0 (Z.of_nat n)) = Err e.
Proof.
  intros Hk H0 Hstep Herr. destruct (for_range body I k s0 H0 Hstep) as (s & Hs & Hi).
  replace (Z.of_nat n) with (Z.of_nat k + (1 + Z.of_nat (n - Datatypes.S k))) by lia. rewrite seqZ_app, for_each_app, Hs by lia.
  cbn [mbind result_bind]. rewrite Z.add_0_l, seqZ_cons by lia. cbn [for_each]. by rewrite Herr.
Qed.

Lemma for_each_index {S} (body : S -> Z -> result S) (body' : S -> Z * Z -> result S) (gs ns : list Z) s :
  length ns = length gs ->
  (forall (i : nat) g n s, gs !! i = Some g -> ns !! i = Some n -> body s (Z.of_nat i) = body' s (g, n)) ->
  for_each body s (seqZ 0 (len gs)) = for_each body' s (zip gs ns).
Proof.
  intros Hlen Hbody. replace (seqZ 0 (len gs)) with (Z.of_nat <$> seq 0 (length gs)).
  2: { unfold seqZ. rewrite Nat2Z.id. apply list_fmap_ext. intros. lia. }
  assert (Hgen : forall k gs' ns' s, length ns' = length gs' ->
    (forall (i : nat) g n s, gs' !! i = Some g -> ns' !! i = Some n -> body s (Z.of_nat (k + i)) = body' s (g, n)) ->
    for_each body s (Z.of_nat <$> seq k (length gs')) = for_each body' s (zip gs' ns')).
  { intros k gs'. revert k. induction gs' as [|g gs' IH]; intros k [|n ns'] s' Hl Hb; try done.
    simpl length. cbn [seq]. rewrite fmap_cons. cbn [zip zip_with for_each].
    rewrite <- (Nat.add_0_r k) at 1. rewrite (Hb 0%nat g n s' eq_refl eq_refl). destruct (body' s' (g, n)) as [s1|e]; [|done].
    cbn [mbind result_bind]. apply IH; [simpl in Hl; lia|]. intros i. rewrite Nat.add_succ_comm. apply (Hb (Datatypes.S i)). }
  by apply Hgen.
Qed.

(** ** Dictionaries in insertion order *)

Section OrderedDictLemmas.
Context {K V : Type} `{EqDecision K}.
Implicit Types (d : list (K * V)) (k : K) (v : V).

Lemma od_get_cons k0 v0 d k : od_get ((k0, v0) :: d) k = if decide (k0 = k) then Some v0 else od_get d k.
Proof. unfold od_get. simpl. by case_bool_decide; case_decide. Qed.

Lemma od_get_Some d k v : NoDup d.*1 -> od_get d k = Some v <-> (k, v) ∈ d.
Proof.
  induction d as [|[k0 v0] d IH]; [by split; [|intros ?%not_elem_of_nil]|]. intros [Hno Hnd]%NoDup_cons. rewrite od_get_cons, elem_of_cons. case_decide as Hd.
  - subst k0. split; [intros [= ->]; by left|]. intros [[= ->]|Hin]; [done|]. destruct Hno. apply list_elem_of_fmap. by exists (k, v).
  - rewrite IH by done. split; [by right|]. intros [[= -> ->]|Hin]; done.
Qed.

Lemma od_get_None d k : od_get d k = None <-> k ∉ d.*1.
Proof.
  induction d as [|[k0 v0] d IH]; [split; [intros _; apply not_elem_of_nil|done]|]. rewrite od_get_cons. simpl. rewrite not_elem_of_cons.
  case_decide; naive_solver.
Qed.

Lemma od_get_is_Some d k : is_Some (od_get d k) <-> k ∈ d.*1.
Proof. rewrite <- not_eq_None_Some, od_get_None. split; [apply dec_stable|auto]. Qed.

Lemma od_get_in d k v : od_get d k = Some v -> (k, v) ∈ d.
Proof. induction d as [|[k0 v0] d IH]; [done|]. rewrite od_get_cons, elem_of_cons. case_decide; [intros [= ->]; subst; by left|auto]. Qed.

Lemma od_get_app d1 d2 k : od_get (d1 ++ d2) k = match od_get d1 k with Some v => Some v | None => od_get d2 k end.
Proof. induction d1 as [|[k0 v0] d1 IH]; [done|]. simpl. rewrite !od_get_cons. by case_decide. Qed.

Lemma elem_of_od_del d k p : p ∈ od_del d k <-> p.1 <> k /\ p ∈ d.
Proof. unfold od_del. by rewrite list_elem_of_filter. Qed.

Lemma od_del_keys d k : NoDup d.*1 -> NoDup (od_del d k).*1.
Proof. intros Hnd. eapply sublist_NoDup; [done|]. apply fmap_sublist, sublist_filter. Qed.

Lemma od_del_not_in d k : k ∉ (od_del d k).*1.
Proof. intros ([k' v] & -> & [? _]%elem_of_od_del)%list_elem_of_fmap. done. Qed.

Lemma elem_of_od_del_keys d k k' : k' ∈ (od_del d k).*1 <-> k' <> k /\ k' ∈ d.*1.
Proof. rewrite !list_elem_of_fmap. setoid_rewrite elem_of_od_del. naive_solver. Qed.

Lemma od_get_del d k k' : od_get (od_del d k) k' = if decide (k' = k) then None else od_get d k'.
Proof.
  induction d as [|[k0 v0] d IH]; [by case_decide|]. unfold od_del in *. rewrite filter_cons. simpl. rewrite (od_get_cons k0 v0 d k').
  destruct (decide (k0 <> k)) as [Hk|Hk]; [rewrite od_get_cons, IH|rewrite IH]; repeat case_decide; subst; done.
Qed.

Lemma od_del_id d k : (k ∉ d.*1) -> od_del d k = d.
Proof.
  intros Hk. apply filter_all, Forall_forall. intros [k' v] Hin. simpl. intros ->. apply Hk, list_elem_of_fmap. by exists (k, v).
Qed.

Lemma od_set_keys d k v : (od_set d k v).*1 = if decide (k ∈ d.*1) then d.*1 else d.*1 ++ [k].
Proof.
  unfold od_set. case_bool_decide as Hk; [rewrite decide_True by done|rewrite decide_False, fmap_app by done; done].
  rewrite <- list_fmap_compose. apply list_fmap_ext. intros i [k' v'] _. simpl. by case_bool_decide.
Qed.

Lemma od_set_nodup d k v : NoDup d.*1 -> NoDup (od_set d k v).*1.
Proof.
  intros Hnd. rewrite od_set_keys. case_decide; [done|]. apply NoDup_app. split; [done|]. split; [|apply NoDup_singleton].
  intros x Hx ->%list_elem_of_singleton. done.
Qed.

Lemma od_get_replace d k v k' :
  od_get ((fun p => if bool_decide (p.1 = k) then (k, v) else p) <$> d) k' = if decide (k' = k) then (fun _ => v) <$> od_get d k else od_get d k'.
Proof.
  induction d as [|[k0 v0] d IH]; [by case_decide|]. rewrite fmap_cons, !od_get_cons. cbn [fst].
  case_bool_decide as H0; rewrite od_get_cons, IH; repeat case_decide; simpl; congruence.
Qed.

Lemma od_get_set d k v k' : od_get (od_set d k v) k' = if decide (k' = k) then Some v else od_get d k'.
Proof.
  unfold od_set. case_bool_decide as Hk.
  - rewrite od_get_replace. apply od_get_is_Some in Hk as [v' Hk]. rewrite Hk. done.
  - rewrite od_get_app, od_get_cons. case_decide as Hd; [subst k'|].
    + rewrite (proj2 (od_get_None d k)) by done. by rewrite decide_True.
    + rewrite decide_False by done. by destruct (od_get d k').
Qed.

End OrderedDictLemmas.
