(* ===== verification/Request.v ===== *)
(** * The request object the schedulers share

    [LlmRequest] of [tensorrt_llm/_torch/pyexecutor/llm_request.py] is a Python
    subclass of the C++ [GenericLlmRequest]
    ([cpp/include/tensorrt_llm/batch_manager/llmRequest.h]); the attributes the
    schedulers read and write are the bindings of its methods
    ([cpp/tensorrt_llm/nanobind/batch_manager/bindings.cpp]).  This file holds
    the fields and methods the modelled schedulers use: the life-cycle states,
    the context (prefill) cursor with its chunk size, the draft tokens, the beam
    width, and the encoder side.

    The C++ object keeps two copies of the cursor, for the target and for the
    draft model, selected by [mUseDraftModel]; the record holds the selected
    one. *)

From stdpp Require Import prelude gmap sorting.
From S2P Require Import Prelude.
Local Open Scope Z_scope.

(** ** Life-cycle states *)

Inductive LlmRequestState :=
  | UNKNOWN | ENCODER_INIT
  | DISAGG_CONTEXT_WAIT_SCHEDULER | DISAGG_GENERATION_INIT
  | DISAGG_GENERATION_TRANS_IN_PROGRESS
  | CONTEXT_INIT | DISAGG_CONTEXT_INIT_AND_TRANS
  | DISAGG_GENERATION_TRANS_COMPLETE | GENERATION_IN_PROGRESS
  | GENERATION_TO_COMPLETE | GENERATION_COMPLETE
  | DISAGG_CONTEXT_TRANS_IN_PROGRESS | DISAGG_CONTEXT_COMPLETE
  | DISAGG_GENERATION_WAIT_TOKENS | DISAGG_TRANS_ERROR.

#[export] Instance LlmRequestState_eq_dec : EqDecision LlmRequestState.
Proof. solve_decision. Defined.

(** The enumerator values; the schedulers compare them as integers. *)
Definition state_val (s : LlmRequestState) : Z :=
  match s with
  | UNKNOWN => 0
  | ENCODER_INIT => 1
  | DISAGG_CONTEXT_WAIT_SCHEDULER => 7
  | DISAGG_GENERATION_INIT => 8
  | DISAGG_GENERATION_TRANS_IN_PROGRESS => 9
  | CONTEXT_INIT => 10
  | DISAGG_CONTEXT_INIT_AND_TRANS => 11
  | DISAGG_GENERATION_TRANS_COMPLETE => 12
  | GENERATION_IN_PROGRESS => 13
  | GENERATION_TO_COMPLETE => 14
  | GENERATION_COMPLETE => 20
  | DISAGG_CONTEXT_TRANS_IN_PROGRESS => 21
  | DISAGG_CONTEXT_COMPLETE => 22
  | DISAGG_GENERATION_WAIT_TOKENS => 23
  | DISAGG_TRANS_ERROR => -1
  end.

(** ** The request *)

Record LlmRequest := mkLlmRequest {
  request_id : Z;
  state : LlmRequestState;
  prompt_len : Z;
  context_current_position : Z;
  prepopulated_prompt_len : Z;
  m_context_chunk_size : Z;
  estimated_reusable_tokens : Z;
  num_tokens : Z;                           (* [get_num_tokens(0)] *)
  draft_tokens : list Z;
  sampling_beam_width : Z;
  beam_width_array : option (list Z);
  decoding_iter : Z;
  opt_encoder_output_len : option Z;
  lora_task_id : option Z;
  encoder_output_ready_event : option bool; (* [Some b]: [query()] returns [b] *)
  unique_tokens : list Z;                   (* [get_unique_tokens(0)] *)
  encoder_unique_tokens : option (list Z);
  max_new_tokens : Z;
}.

#[export] Instance LlmRequest_eq_dec : EqDecision LlmRequest.
Proof. solve_decision. Defined.

Definition state_value (r : LlmRequest) : Z := state_val (state r).

Definition is_encoder_init_state (r : LlmRequest) : bool :=
  bool_decide (state r = ENCODER_INIT).
Definition is_context_init_state (r : LlmRequest) : bool :=
  bool_decide (state r = CONTEXT_INIT) || bool_decide (state r = DISAGG_CONTEXT_INIT_AND_TRANS).
Definition is_generation_in_progress_state (r : LlmRequest) : bool :=
  bool_decide (state r = GENERATION_IN_PROGRESS)
  || bool_decide (state r = GENERATION_TO_COMPLETE)
  || bool_decide (state r = DISAGG_GENERATION_TRANS_COMPLETE).
Definition is_disagg_generation_init_state (r : LlmRequest) : bool :=
  bool_decide (state r = DISAGG_GENERATION_INIT).
Definition is_disagg_generation_transmission_complete (r : LlmRequest) : bool :=
  bool_decide (state r = DISAGG_GENERATION_TRANS_COMPLETE).

(** Field updates. *)
Definition with_chunk (r : LlmRequest) (c : Z) : LlmRequest :=
  mkLlmRequest (request_id r) (state r) (prompt_len r) (context_current_position r)
    (prepopulated_prompt_len r) c (estimated_reusable_tokens r) (num_tokens r)
    (draft_tokens r) (sampling_beam_width r) (beam_width_array r) (decoding_iter r)
    (opt_encoder_output_len r) (lora_task_id r) (encoder_output_ready_event r)
    (unique_tokens r) (encoder_unique_tokens r) (max_new_tokens r).
Definition with_drafts (r : LlmRequest) (d : list Z) : LlmRequest :=
  mkLlmRequest (request_id r) (state r) (prompt_len r) (context_current_position r)
    (prepopulated_prompt_len r) (m_context_chunk_size r) (estimated_reusable_tokens r)
    (num_tokens r) d (sampling_beam_width r) (beam_width_array r) (decoding_iter r)
    (opt_encoder_output_len r) (lora_task_id r) (encoder_output_ready_event r)
    (unique_tokens r) (encoder_unique_tokens r) (max_new_tokens r).
Definition with_cursor (r : LlmRequest) (pos prepop : Z) : LlmRequest :=
  mkLlmRequest (request_id r) (state r) (prompt_len r) pos prepop (m_context_chunk_size r)
    (estimated_reusable_tokens r) (num_tokens r)
    (draft_tokens r) (sampling_beam_width r) (beam_width_array r) (decoding_iter r)
    (opt_encoder_output_len r) (lora_task_id r) (encoder_output_ready_event r)
    (unique_tokens r) (encoder_unique_tokens r) (max_new_tokens r).
Definition with_reusable (r : LlmRequest) (e : Z) : LlmRequest :=
  mkLlmRequest (request_id r) (state r) (prompt_len r) (context_current_position r)
    (prepopulated_prompt_len r) (m_context_chunk_size r) e (num_tokens r)
    (draft_tokens r) (sampling_beam_width r) (beam_width_array r) (decoding_iter r)
    (opt_encoder_output_len r) (lora_task_id r) (encoder_output_ready_event r)
    (unique_tokens r) (encoder_unique_tokens r) (max_new_tokens r).

(** ** The context cursor *)

Definition context_remaining_length (r : LlmRequest) : Z :=
  prompt_len r - context_current_position r.

(** The phases in which the chunk size may be read or written. *)
Definition chunk_phase (r : LlmRequest) : bool :=
  is_context_init_state r || is_disagg_generation_init_state r
  || is_disagg_generation_transmission_complete r.

Definition context_chunk_size (r : LlmRequest) : result Z :=
  if chunk_phase r then Ok (m_context_chunk_size r) else Err TllmException.

Definition set_context_chunk_size (r : LlmRequest) (size : Z) : result LlmRequest :=
  if chunk_phase r then
    if 0 <=? size then Ok (with_chunk r (Z.min size (context_remaining_length r)))
    else Err TllmException
  else Err TllmException.

Definition is_last_context_chunk (r : LlmRequest) : result bool :=
  if is_disagg_generation_init_state r || is_disagg_generation_transmission_complete r
  then Ok true
  else c ← context_chunk_size r; Ok (context_current_position r + c =? prompt_len r).

Definition is_first_context_chunk (r : LlmRequest) : bool :=
  context_current_position r =? prepopulated_prompt_len r.

Definition move_to_next_context_chunk (r : LlmRequest) : result LlmRequest :=
  if is_context_init_state r then
    Ok (with_chunk (with_cursor r (context_current_position r + m_context_chunk_size r)
                                  (prepopulated_prompt_len r)) 0)
  else Err TllmException.

(** The cursor is moved past the prefix found in the cache, and the chunk is
    cut so that it still ends on a block boundary. *)
Definition set_prepopulated_prompt_len (r : LlmRequest) (prepop kv_tokens_per_block : Z)
    : result LlmRequest :=
  if prepop <? prompt_len r then
    if 0 <? prepop then
      size ← context_chunk_size r;
      chunk ← (if prepop + size <? prompt_len r then
                 let c := (prepop + size) `quot` kv_tokens_per_block * kv_tokens_per_block - prepop in
                 if c <=? size then Ok c else Err TllmException
               else Ok size);
      r' ← set_context_chunk_size (with_cursor r prepop prepop) chunk;
      last ← is_last_context_chunk r';
      size' ← context_chunk_size r';
      if (last : bool) then Ok r'
      else if (context_current_position r' + size') `rem` kv_tokens_per_block =? 0
           then Ok r' else Err TllmException
    else Ok (with_cursor r (context_current_position r) prepop)
  else Err TllmException.

(** ** Draft tokens, beam width, encoder side *)

Definition has_draft_tokens (r : LlmRequest) : bool :=
  match draft_tokens r with [] => false | _ => true end.

Definition num_draft_tokens (r : LlmRequest) : Z :=
  if has_draft_tokens r then len (draft_tokens r) else 0.

Definition discard_draft_tokens (r : LlmRequest) (n : Z) : result LlmRequest :=
  if 0 <? n then
    if n <=? num_draft_tokens r
    then Ok (with_drafts r (take (Z.to_nat (num_draft_tokens r - n)) (draft_tokens r)))
    else Err TllmException
  else Err TllmException.

Definition kMaxBeamWidthArrayLength : Z := 8.

(** The beam width of the current iteration; reading past the end of the beam
    width array, undefined in C++, is an error value here. *)
Definition get_beam_width_by_iter (r : LlmRequest) (for_next_iteration : bool) : result Z :=
  match beam_width_array r with
  | None => Ok (sampling_beam_width r)
  | Some arr =>
      let iter := decoding_iter r + (if for_next_iteration then 1 else 0) in
      let index := Z.max (Z.min iter kMaxBeamWidthArrayLength - 1) 0 in
      match arr !! Z.to_nat index with Some w => Ok w | None => Err TllmException end
  end.

Definition encoder_output_len (r : LlmRequest) : result Z :=
  match opt_encoder_output_len r with Some n => Ok n | None => Err TllmException end.

(** ** Well-formed requests *)

(** The cursor stays inside the prompt and the chunk inside what is left of it. *)
Record wf_request (r : LlmRequest) : Prop := {
  wf_pos : 0 <= context_current_position r <= prompt_len r;
  wf_chunk : 0 <= m_context_chunk_size r <= context_remaining_length r;
  wf_reusable : 0 <= estimated_reusable_tokens r;
}.

(** A request as it enters the system: prompt of length [n], nothing computed,
    the whole prompt as its tentative chunk, 32 tokens to generate. *)
Definition new_request (id : Z) (s : LlmRequestState) (n : Z) (drafts : list Z) : LlmRequest :=
  mkLlmRequest id s n 0 0 n 0 n drafts 1 None 0 None None None [] None 32.

(** ** Lemmas *)

Lemma wf_new_request id s n d : 0 <= n -> wf_request (new_request id s n d).
Proof. intros. constructor; unfold context_remaining_length; simpl; lia. Qed.


Lemma num_draft_tokens_len r : num_draft_tokens r = len (draft_tokens r).
Proof. unfold num_draft_tokens, has_draft_tokens. by destruct (draft_tokens r). Qed.

Lemma num_draft_tokens_nonneg r : 0 <= num_draft_tokens r.
Proof. rewrite num_draft_tokens_len. lia. Qed.

Lemma has_draft_tokens_false r : has_draft_tokens r = false -> num_draft_tokens r = 0.
Proof. unfold num_draft_tokens. by intros ->. Qed.

Lemma context_chunk_phase r : is_context_init_state r = true -> chunk_phase r = true.
Proof. unfold chunk_phase. by intros ->. Qed.

Lemma context_not_disagg r :
  is_context_init_state r = true ->
  is_disagg_generation_init_state r = false
  /\ is_disagg_generation_transmission_complete r = false.
Proof.
  unfold is_context_init_state, is_disagg_generation_init_state,
    is_disagg_generation_transmission_complete.
  destruct (state r); simpl; done.
Qed.

Lemma context_chunk_size_ctx r :
  is_context_init_state r = true -> context_chunk_size r = Ok (m_context_chunk_size r).
Proof. intros H. unfold context_chunk_size. by rewrite (context_chunk_phase r H). Qed.

Lemma set_context_chunk_size_ctx r n :
  is_context_init_state r = true -> 0 <= n ->
  set_context_chunk_size r n = Ok (with_chunk r (Z.min n (context_remaining_length r))).
Proof.
  intros H Hn. unfold set_context_chunk_size. rewrite (context_chunk_phase r H).
  by rewrite (proj2 (Z.leb_le 0 n) Hn).
Qed.

Lemma is_last_context_chunk_ctx r :
  is_context_init_state r = true ->
  is_last_context_chunk r = Ok (m_context_chunk_size r =? context_remaining_length r).
Proof.
  intros H. unfold is_last_context_chunk. destruct (context_not_disagg r H) as [-> ->]. simpl.
  rewrite (context_chunk_size_ctx r H). simpl. f_equal. unfold context_remaining_length.
  apply Bool.eq_iff_eq_true. rewrite !Z.eqb_eq. lia.
Qed.

Lemma discard_draft_tokens_spec r n r' :
  discard_draft_tokens r n = Ok r' ->
  num_draft_tokens r' = num_draft_tokens r - n
  /\ r' = with_drafts r (draft_tokens r').
Proof.
  unfold discard_draft_tokens. intros H. repeat split_if; inv_ok; bool_to_prop; try done.
  split; [|done].
  rewrite !num_draft_tokens_len in *. simpl. rewrite length_take. lia.
Qed.

Lemma wf_with_chunk r c :
  wf_request r -> 0 <= c <= context_remaining_length r -> wf_request (with_chunk r c).
Proof. intros [] ?. by constructor. Qed.

Lemma wf_with_drafts r d : wf_request r -> wf_request (with_drafts r d).
Proof. intros []. by constructor. Qed.

Lemma wf_with_reusable r e : wf_request r -> 0 <= e -> wf_request (with_reusable r e).
Proof. intros [] ?. by constructor. Qed.

Lemma wf_set_context_chunk_size r n r' :
  wf_request r -> set_context_chunk_size r n = Ok r' -> wf_request r'.
Proof.
  unfold set_context_chunk_size. intros Hwf H. repeat split_if; inv_ok; bool_to_prop; try done.
  apply wf_with_chunk; [done|]. destruct Hwf. unfold context_remaining_length in *. lia.
Qed.

Lemma wf_discard_draft_tokens r n r' :
  wf_request r -> discard_draft_tokens r n = Ok r' -> wf_request r'.
Proof. intros Hwf H. apply discard_draft_tokens_spec in H as [_ ->]. by apply wf_with_drafts. Qed.

Lemma wf_move_to_next_context_chunk r r' :
  wf_request r -> move_to_next_context_chunk r = Ok r' -> wf_request r'.
Proof.
  unfold move_to_next_context_chunk. intros [] H. split_if; inv_ok; try done.
  unfold context_remaining_length in *.
  constructor; unfold context_remaining_length; simpl in *; lia.
Qed.

Lemma wf_set_prepopulated_prompt_len r p b r' :
  wf_request r -> set_prepopulated_prompt_len r p b = Ok r' -> wf_request r'.
Proof.
  unfold set_prepopulated_prompt_len. intros Hwf H.
  destruct (p <? prompt_len r) eqn:Hp; [|done].
  destruct (0 <? p) eqn:Hp0; inv_ok; bool_to_prop; [|by destruct Hwf; constructor].
  assert (r' = a1) as ->. { repeat split_if; inv_ok; done. }
  unfold set_context_chunk_size in E1. repeat split_if; inv_ok; bool_to_prop; try done.
  all: destruct Hwf; constructor; unfold context_remaining_length in *; simpl in *; lia.
Qed.

#[export] Hint Resolve wf_with_chunk wf_with_drafts wf_with_reusable wf_set_context_chunk_size
  wf_discard_draft_tokens wf_move_to_next_context_chunk wf_set_prepopulated_prompt_len
  num_draft_tokens_nonneg context_chunk_phase : serving.
