(* ===== verification/Chunking.v ===== *)
(** * Context chunking

    The token cost of a context chunk and the three chunking policies of
    [PyMicroBatchScheduler]
    ([tensorrt_llm/_torch/pyexecutor/scheduler/scheduler.py]): how the compute
    budget left in a batch is split among the context requests that do not all
    fit, and how their draft tokens are trimmed to what is left.

    The Python code mutates the request objects; here every routine returns the
    list of the updated requests, in the order of its input. *)

From stdpp Require Import prelude gmap sorting.
From S2P Require Import Prelude Request.
Local Open Scope Z_scope.

Inductive ChunkingPolicy :=
  | EQUAL_PROGRESS | FIRST_COME_FIRST_SERVED | FORCE_CHUNK.

#[export] Instance ChunkingPolicy_eq_dec : EqDecision ChunkingPolicy.
Proof. solve_decision. Defined.

Record ContextChunkingConfig := mkChunkConfig {
  chunking_policy : ChunkingPolicy;
  chunk_unit_size : Z;
}.

(** ** Cost of a chunk *)

Definition reuse_adjusted_compute (chunk_size reusable context_remaining : Z) : Z :=
  if reusable <=? 0 then chunk_size
  else if reusable + chunk_size <? context_remaining then chunk_size
  else Z.max 0 (context_remaining - reusable).

(** [req.estimated_reusable_tokens if req.is_first_context_chunk else 0] *)
Definition reusable_of (r : LlmRequest) : Z :=
  if is_first_context_chunk r then estimated_reusable_tokens r else 0.

(** ... clamped to the remaining context, as the chunking policies do. *)
Definition clamped_reusable (r : LlmRequest) : Z :=
  Z.min (reusable_of r) (context_remaining_length r).

(** ** EQUAL_PROGRESS *)

Section policies.
Context (max_context_length : option Z).

(** One request is offered one more unit: the request, the compute charged and
    the tokens gained. *)
Definition equal_progress_offer (capacity : option Z) (unit_size num_compute_tokens : Z)
    (r : LlmRequest) : result (LlmRequest * Z * Z) :=
  past_size ← context_chunk_size r;
  let remaining_total := context_remaining_length r in
  let suggested_size := Z.min (past_size + unit_size) remaining_total in
  r1 ← set_context_chunk_size r suggested_size;
  actual_size ← context_chunk_size r1;
  let context_remaining := context_remaining_length r1 in
  let reusable := Z.min (reusable_of r1) context_remaining in
  let past_compute := reuse_adjusted_compute past_size reusable context_remaining in
  let actual_compute := reuse_adjusted_compute actual_size reusable context_remaining in
  let compute_increment := actual_compute - past_compute in
  if exceeds (num_compute_tokens + compute_increment) capacity then
    r2 ← set_context_chunk_size r1 past_size; Ok (r2, 0, 0)
  else if exceeds actual_size max_context_length then
    r2 ← set_context_chunk_size r1 past_size; Ok (r2, 0, 0)
  else Ok (r1, compute_increment, actual_size - past_size).

(** The body of the [while] loop: one offer to every request. *)
Fixpoint equal_progress_round (capacity : option Z) (unit_size : Z)
    (num_compute_tokens num_tokens_single_loop : Z) (requests : list LlmRequest)
    : result (Z * Z * list LlmRequest) :=
  match requests with
  | [] => Ok (num_compute_tokens, num_tokens_single_loop, [])
  | r :: rs =>
      '(r', inc, gain) ← equal_progress_offer capacity unit_size num_compute_tokens r;
      '(n, s, rs') ← equal_progress_round capacity unit_size
                        (num_compute_tokens + inc) (num_tokens_single_loop + gain) rs;
      Ok (n, s, r' :: rs')
  end.

Fixpoint equal_progress_loop (fuel : nat) (capacity : option Z) (unit_size : Z)
    (num_compute_tokens num_tokens_single_loop : Z) (requests : list LlmRequest)
    : result (list LlmRequest) :=
  if match capacity with None => true | Some c => num_compute_tokens <? c end
     && (0 <? num_tokens_single_loop) then
    match fuel with
    | O => Err OutOfFuel
    | S fuel' =>
        '(n, s, rs) ← equal_progress_round capacity unit_size num_compute_tokens 0 requests;
        equal_progress_loop fuel' capacity unit_size n s rs
    end
  else Ok requests.

(** Every round that lets the loop go on hands out a token of the remaining
    contexts, so one round more than their sum is enough. *)
Definition equal_progress_fuel (requests : list LlmRequest) : nat :=
  S (Z.to_nat (zsum context_remaining_length requests)).

Definition chunk_equal_progress (requests : list LlmRequest) (capacity : option Z) (unit_size : Z)
    : result (list LlmRequest) :=
  equal_progress_loop (equal_progress_fuel requests) capacity unit_size 0 1 requests.

(** ** FIRST_COME_FIRST_SERVED *)

(** The chunk of one request: the whole remaining context, cut to the compute
    budget and to the maximum context length, and aligned down to the unit when
    it was cut. *)
Definition fcfs_size (current : option Z) (unit_size suggested_size reusable : Z) : result Z :=
  let compute_cost := reuse_adjusted_compute suggested_size reusable suggested_size in
  let actual_size := match current with
    | Some c => if c <? compute_cost then c else suggested_size
    | None => suggested_size
    end in
  let actual_size := match max_context_length with
    | Some m =>
        if m <? reuse_adjusted_compute actual_size reusable suggested_size
        then Z.min m suggested_size else actual_size
    | None => actual_size
    end in
  if actual_size <? suggested_size then
    if unit_size =? 0 then Err ZeroDivisionError
    else Ok (actual_size / unit_size * unit_size)
  else Ok actual_size.

Fixpoint chunk_fcfs (requests : list LlmRequest) (current : option Z) (unit_size : Z)
    : result (list LlmRequest) :=
  match requests with
  | [] => Ok []
  | r :: rs =>
      let suggested_size := context_remaining_length r in
      let reusable := Z.min (reusable_of r) suggested_size in
      actual_size ← fcfs_size current unit_size suggested_size reusable;
      r' ← set_context_chunk_size r actual_size;
      chunk ← context_chunk_size r';
      let actual_model_cost := reuse_adjusted_compute chunk reusable suggested_size in
      rs' ← chunk_fcfs rs ((fun c => c - actual_model_cost) <$> current) unit_size;
      Ok (r' :: rs')
  end.

(** ** FORCE_CHUNK *)

Fixpoint forced_pass (requests : list LlmRequest) (capacity : option Z) (unit_size total_tokens : Z)
    : result (list LlmRequest * Z) :=
  match requests with
  | [] => Ok ([], total_tokens)
  | r :: rs =>
      r1 ← set_context_chunk_size r (Z.min (context_remaining_length r) unit_size);
      c1 ← context_chunk_size r1;
      r2 ← (if exceeds (total_tokens + c1) capacity then set_context_chunk_size r1 0 else Ok r1);
      c2 ← context_chunk_size r2;
      '(rs', t) ← forced_pass rs capacity unit_size (total_tokens + c2);
      Ok (r2 :: rs', t)
  end.

Definition chunk_forced (requests : list LlmRequest) (capacity : option Z) (unit_size : Z)
    : result (list LlmRequest) :=
  if match max_context_length with Some m => m <? unit_size | None => false end
  then Err ValueError
  else
    '(rs, total_tokens) ← forced_pass requests capacity unit_size 0;
    _ ← py_assert (negb (exceeds total_tokens capacity));
    Ok rs.

(** ** Draft tokens *)

Definition model_tokens (r : LlmRequest) : result Z :=
  c ← context_chunk_size r;
  Ok (reuse_adjusted_compute c (clamped_reusable r) (context_remaining_length r)).

Definition fit_draft_one (capacity : option Z) (unit_size num_ctx_tokens : Z) (r : LlmRequest)
    : result (LlmRequest * Z) :=
  last ← is_last_context_chunk r;
  if (last : bool) && has_draft_tokens r then
    c ← context_chunk_size r;
    if unit_size =? 0 then Err ZeroDivisionError else
    let remainder := c mod unit_size in
    let remaining_space := if remainder =? 0 then 0 else unit_size - remainder in
    let remaining_space := match max_context_length with
      | Some m => Z.min remaining_space (m - c)
      | None => remaining_space
      end in
    let remaining_space := Z.max 0 remaining_space in
    let kept_drafts := Z.min (num_draft_tokens r) remaining_space in
    let kept_drafts := match capacity with
      | Some cap => Z.max 0 (Z.min kept_drafts (cap - num_ctx_tokens))
      | None => kept_drafts
      end in
    let num_ctx_tokens := match capacity with
      | Some _ => num_ctx_tokens + kept_drafts
      | None => num_ctx_tokens
      end in
    let draft_discard := num_draft_tokens r - kept_drafts in
    r' ← (if 0 <? draft_discard then discard_draft_tokens r draft_discard else Ok r);
    Ok (r', num_ctx_tokens)
  else Ok (r, num_ctx_tokens).

Fixpoint fit_draft_pass (capacity : option Z) (unit_size num_ctx_tokens : Z)
    (requests : list LlmRequest) : result (list LlmRequest) :=
  match requests with
  | [] => Ok []
  | r :: rs =>
      '(r', n) ← fit_draft_one capacity unit_size num_ctx_tokens r;
      rs' ← fit_draft_pass capacity unit_size n rs;
      Ok (r' :: rs')
  end.

Definition fit_draft_tokens (requests : list LlmRequest) (capacity : option Z) (unit_size : Z)
    : result (list LlmRequest) :=
  costs ← mapM model_tokens requests;
  fit_draft_pass capacity unit_size (zsum id costs) requests.

(** ** Dispatch *)

Definition set_ctx_requests_chunk_size (cfg : ContextChunkingConfig)
    (requests : list LlmRequest) (capacity : option Z) : result (list LlmRequest) :=
  requests ← mapM (fun r => set_context_chunk_size r 0) requests;
  let unit_size := chunk_unit_size cfg in
  requests ← (match chunking_policy cfg with
              | EQUAL_PROGRESS => chunk_equal_progress requests capacity unit_size
              | FIRST_COME_FIRST_SERVED => chunk_fcfs requests capacity unit_size
              | FORCE_CHUNK => chunk_forced requests capacity unit_size
              end);
  fit_draft_tokens requests capacity unit_size.

End policies.

(** ** Specification vocabulary *)

(** What chunking leaves unchanged: everything but the chunk size and the
    draft tokens. *)
Definition erase (r : LlmRequest) : LlmRequest := with_drafts (with_chunk r 0) [].

(** A request in the context phase with a well-formed cursor. *)
Definition ctx_ok (r : LlmRequest) : Prop := is_context_init_state r = true /\ wf_request r.

(** Forward-pass tokens of the chunk a request holds. *)
Definition ctx_compute (r : LlmRequest) : Z :=
  reuse_adjusted_compute (m_context_chunk_size r) (reusable_of r) (context_remaining_length r).

(** Draft tokens run with the last chunk. *)
Definition last_drafts (r : LlmRequest) : Z :=
  if m_context_chunk_size r =? context_remaining_length r then num_draft_tokens r else 0.

(** The chunk ends the context or is a whole number of units. *)
Definition aligned (unit_size : Z) (r : LlmRequest) : Prop :=
  m_context_chunk_size r = context_remaining_length r \/ m_context_chunk_size r mod unit_size = 0.

Definition same_but_chunk (r r' : LlmRequest) : Prop :=
  erase r' = erase r /\ draft_tokens r' = draft_tokens r.

(** The outcome of a chunking policy on a list of requests. *)
Record assigned (unit_size : Z) (rs rs' : list LlmRequest) : Prop := {
  asg_same : Forall2 same_but_chunk rs rs';
  asg_ok : Forall ctx_ok rs';
  asg_aligned : Forall (aligned unit_size) rs -> Forall (aligned unit_size) rs';
}.

(** ** Cost of a chunk *)

Lemma reuse_adjusted_min c u rem :
  0 <= c <= rem -> 0 <= u ->
  reuse_adjusted_compute c u rem = Z.min c (Z.max 0 (rem - u)).
Proof. unfold reuse_adjusted_compute. intros. repeat split_if; bool_to_prop; lia. Qed.

Lemma reuse_adjusted_clamp c u rem :
  0 <= c <= rem -> 0 <= u ->
  reuse_adjusted_compute c (Z.min u rem) rem = reuse_adjusted_compute c u rem.
Proof. intros. rewrite !reuse_adjusted_min by lia. lia. Qed.

Lemma reusable_of_nonneg r : wf_request r -> 0 <= reusable_of r.
Proof. intros []. unfold reusable_of. by split_if. Qed.

Lemma ctx_compute_min r :
  wf_request r ->
  ctx_compute r
  = Z.min (m_context_chunk_size r) (Z.max 0 (context_remaining_length r - reusable_of r)).
Proof.
  intros H. unfold ctx_compute. pose proof (reusable_of_nonneg r H). destruct H.
  by apply reuse_adjusted_min.
Qed.

Lemma ctx_compute_bounds r : wf_request r -> 0 <= ctx_compute r <= m_context_chunk_size r.
Proof. intros H. rewrite ctx_compute_min by done. destruct H. lia. Qed.

(** ** Bookkeeping of the relation [assigned] *)

Lemma erase_remaining r r' :
  erase r' = erase r -> context_remaining_length r' = context_remaining_length r.
Proof.
  intros H. change (context_remaining_length (erase r') = context_remaining_length (erase r)).
  by rewrite H.
Qed.
Lemma erase_state r r' : erase r' = erase r -> state r' = state r.
Proof. intros H. change (state (erase r') = state (erase r)). by rewrite H. Qed.
Lemma erase_id r r' : erase r' = erase r -> request_id r' = request_id r.
Proof. intros H. change (request_id (erase r') = request_id (erase r)). by rewrite H. Qed.
Lemma erase_reusable r r' : erase r' = erase r -> reusable_of r' = reusable_of r.
Proof. intros H. change (reusable_of (erase r') = reusable_of (erase r)). by rewrite H. Qed.

#[export] Hint Resolve erase_remaining erase_state erase_id erase_reusable : serving.

#[export] Instance same_but_chunk_equiv : Equivalence same_but_chunk.
Proof.
  split.
  - by intros r.
  - by intros r s []; split.
  - by intros r s t [H1 H2] [H3 H4]; split; congruence.
Qed.

Lemma same_but_chunk_eq r r' :
  same_but_chunk r r' -> m_context_chunk_size r' = m_context_chunk_size r -> r' = r.
Proof.
  assert (Hre : forall q, q = with_drafts (with_chunk (erase q) (m_context_chunk_size q)) (draft_tokens q))
    by (by intros []).
  intros [He Hd] Hc. rewrite (Hre r), (Hre r'). congruence.
Qed.

Lemma set_chunk_back r s :
  is_context_init_state r = true -> wf_request r ->
  set_context_chunk_size (with_chunk r s) (m_context_chunk_size r) = Ok r.
Proof.
  intros Hctx [Hpos Hch _]. rewrite set_context_chunk_size_ctx by (auto; lia).
  change (context_remaining_length (with_chunk r s)) with (context_remaining_length r).
  rewrite Z.min_l by lia. by destruct r.
Qed.

Lemma assigned_refl u rs : Forall ctx_ok rs -> assigned u rs rs.
Proof. split; auto. reflexivity. Qed.

Lemma assigned_trans u rs1 rs2 rs3 : assigned u rs1 rs2 -> assigned u rs2 rs3 -> assigned u rs1 rs3.
Proof.
  intros [] []. split; auto. by etrans. Qed.

Lemma assigned_cons u r rs r' rs' :
  same_but_chunk r r' -> ctx_ok r' -> (aligned u r -> aligned u r') ->
  assigned u rs rs' -> assigned u (r :: rs) (r' :: rs').
Proof. intros ??? []. split; [by constructor|by constructor|]. rewrite !Forall_cons. by intros [? ?]; auto. Qed.

Lemma assigned_remaining u rs rs' :
  assigned u rs rs' -> zsum context_remaining_length rs' = zsum context_remaining_length rs.
Proof.
  intros [H _ _]. induction H as [|r r' ?? [He _] _ IH]; [done|].
  rewrite !zsum_cons, IH. by rewrite (erase_remaining r r').
Qed.

Lemma ctx_ok_with_chunk r c :
  ctx_ok r -> 0 <= c <= context_remaining_length r -> ctx_ok (with_chunk r c).
Proof. intros [] ?. split; auto with serving. Qed.

Lemma zsum_chunk_le rs :
  Forall ctx_ok rs -> zsum m_context_chunk_size rs <= zsum context_remaining_length rs.
Proof.
  intros H. apply zsum_le. intros r Hr. rewrite Forall_forall in H. destruct (H r Hr) as [_ []]. lia.
Qed.

(** ** EQUAL_PROGRESS: lemmas *)

Section equal_progress.
Context (mcl capacity : option Z) (u : Z) (Hu : 0 <= u).

(** The compute charged so far stays within the budget once it is there. *)
Definition within (n : Z) : Prop := exceeds n capacity = false.

Lemma offer_spec nc r :
  ctx_ok r ->
  exists r' inc gain,
    equal_progress_offer mcl capacity u nc r = Ok (r', inc, gain)
    /\ same_but_chunk r r' /\ ctx_ok r'
    /\ (aligned u r -> aligned u r')
    /\ gain = m_context_chunk_size r' - m_context_chunk_size r
    /\ 0 <= gain
    /\ inc = ctx_compute r' - ctx_compute r
    /\ (within nc -> within (nc + inc))
    /\ (gain = 0 ->
        m_context_chunk_size r = context_remaining_length r
        \/ exceeds (Z.min (m_context_chunk_size r + u) (context_remaining_length r)) mcl = true
        \/ exceeds (nc + (ctx_compute (with_chunk r
              (Z.min (m_context_chunk_size r + u) (context_remaining_length r)))
              - ctx_compute r)) capacity = true
        \/ u = 0).
Proof using Hu.
  intros [Hctx Hwf]. pose proof (reusable_of_nonneg r Hwf) as Hreu.
  pose proof Hwf as [Hpos Hch Hes].
  set (s := Z.min (m_context_chunk_size r + u) (context_remaining_length r)).
  assert (Hs : m_context_chunk_size r <= s <= context_remaining_length r) by lia.
  unfold equal_progress_offer. rewrite (context_chunk_size_ctx r Hctx). simpl.
  fold s. rewrite (set_context_chunk_size_ctx r s Hctx) by lia. simpl.
  rewrite (Z.min_l s) by lia.
  rewrite (context_chunk_size_ctx (with_chunk r s) Hctx). simpl.
  change (context_remaining_length (with_chunk r s)) with (context_remaining_length r).
  change (reusable_of (with_chunk r s)) with (reusable_of r).
  rewrite !reuse_adjusted_clamp by lia.
  change (reuse_adjusted_compute s (reusable_of r) (context_remaining_length r))
    with (ctx_compute (with_chunk r s)).
  change (reuse_adjusted_compute (m_context_chunk_size r) (reusable_of r) (context_remaining_length r))
    with (ctx_compute r).
  rewrite (set_chunk_back r s Hctx Hwf). simpl.
  assert (Hno : forall P : Prop, P ->
    exists r' inc gain, Ok (r, 0, 0) = Ok (r', inc, gain)
    /\ same_but_chunk r r' /\ ctx_ok r' /\ (aligned u r -> aligned u r')
    /\ gain = m_context_chunk_size r' - m_context_chunk_size r /\ 0 <= gain
    /\ inc = ctx_compute r' - ctx_compute r /\ (within nc -> within (nc + inc))
    /\ (gain = 0 -> P)).
  { intros P HP. exists r, 0, 0. repeat (split; [first [done | lia | reflexivity]|]).
    split; [rewrite Z.add_0_r|]; done. }
  destruct (exceeds (nc + _) capacity) eqn:Ecap; [apply Hno; auto|].
  destruct (exceeds s mcl) eqn:Emcl; [apply Hno; auto|].
  exists (with_chunk r s), (ctx_compute (with_chunk r s) - ctx_compute r),
    (s - m_context_chunk_size r).
  split; [done|]. split; [done|]. split; [apply ctx_ok_with_chunk; [done|lia]|].
  split.
  { unfold aligned. change (context_remaining_length (with_chunk r s)) with (context_remaining_length r).
    simpl. destruct (decide (s = context_remaining_length r)) as [->|Hne]; [auto|].
    intros [Hl|Hm]; [lia|]. right. assert (s = m_context_chunk_size r + 1 * u) as -> by lia.
    destruct (decide (u = 0)) as [->|Hu0]; [by rewrite Z.mul_0_r, Z.add_0_r|].
    by rewrite Z.mod_add by lia. }
  simpl. split; [done|]. split; [lia|]. split; [done|]. split; [done|]. intros. lia.
Qed.

(** No request of [rs] can take one more unit when [n] tokens are charged. *)
Definition saturated (n : Z) (r : LlmRequest) : Prop :=
  let s := Z.min (m_context_chunk_size r + u) (context_remaining_length r) in
  m_context_chunk_size r = context_remaining_length r
  \/ exceeds s mcl = true
  \/ exceeds (n + (ctx_compute (with_chunk r s) - ctx_compute r)) capacity = true
  \/ u = 0.

Lemma round_spec nc sl rs :
  Forall ctx_ok rs ->
  exists n s rs',
    equal_progress_round mcl capacity u nc sl rs = Ok (n, s, rs')
    /\ assigned u rs rs'
    /\ s - sl = zsum m_context_chunk_size rs' - zsum m_context_chunk_size rs
    /\ sl <= s
    /\ n - nc = zsum ctx_compute rs' - zsum ctx_compute rs
    /\ (within nc -> within n)
    /\ (s = sl -> rs' = rs /\ Forall (saturated nc) rs).
Proof using Hu.
  revert nc sl. induction rs as [|r rs IH]; intros nc sl Hok; simpl.
  { exists nc, sl, []. split; [done|]. split; [by apply assigned_refl|].
    rewrite !zsum_nil. repeat (split; [first [done|lia]|]). auto. }
  apply Forall_cons in Hok as [Hr Hrs].
  destruct (offer_spec nc r Hr)
    as (r' & inc & gain & -> & Hsame & Hr' & Hal & Hgain & Hpos & Hinc & Hw & Hsat). simpl.
  destruct (IH (nc + inc) (sl + gain) Hrs)
    as (n & s & rs' & -> & Hasg & Hs & Hsl & Hn & Hw' & Hsat'). simpl.
  exists n, s, (r' :: rs'). split; [done|]. split; [by apply assigned_cons|].
  rewrite !zsum_cons. split; [lia|]. split; [lia|]. split; [lia|]. split; [auto|].
  intros ->. assert (gain = 0) by lia. assert (r' = r) as -> by (apply same_but_chunk_eq; [done|lia]).
  destruct Hsat' as [-> Hsat']; [lia|]. split; [done|].
  assert (inc = 0) as -> by lia. rewrite Z.add_0_r in Hsat'. constructor; [|done].
  unfold saturated. auto.
Qed.

Definition more (nc sl : Z) : bool :=
  match capacity with None => true | Some c => nc <? c end && (0 <? sl).

(** What the loop has achieved when it leaves [rs'] charged with [n]. *)
Definition loop_post (nc : Z) (rs rs' : list LlmRequest) : Prop :=
  let n := nc + (zsum ctx_compute rs' - zsum ctx_compute rs) in
  assigned u rs rs' /\ (within nc -> within n)
  /\ (match capacity with Some c => c <= n | None => False end \/ Forall (saturated n) rs').

Lemma loop_stop nc sl rs :
  Forall ctx_ok rs -> (sl = 0 -> Forall (saturated nc) rs) -> 0 <= sl ->
  more nc sl = false -> loop_post nc rs rs.
Proof using Type.
  intros Hok Hsat Hsl Hc. unfold loop_post. rewrite Z.sub_diag, Z.add_0_r.
  split; [by apply assigned_refl|]. split; [done|].
  apply andb_false_iff in Hc as [Hc|Hc].
  - left. destruct capacity; [by apply Z.ltb_ge|done].
  - right. apply Hsat. bool_to_prop. lia.
Qed.

Lemma loop_spec fuel nc sl rs :
  Forall ctx_ok rs ->
  (0 < sl -> zsum context_remaining_length rs - zsum m_context_chunk_size rs < Z.of_nat fuel) ->
  (sl = 0 -> Forall (saturated nc) rs) -> 0 <= sl ->
  exists rs', equal_progress_loop mcl fuel capacity u nc sl rs = Ok rs' /\ loop_post nc rs rs'.
Proof using Hu.
  revert nc sl rs. induction fuel as [|fuel IH]; intros nc sl rs Hok Hfuel Hsat Hsl;
    cbn [equal_progress_loop]; fold (more nc sl);
    destruct (more nc sl) eqn:Hc; [|by eauto using loop_stop| |by eauto using loop_stop].
  all: apply andb_prop in Hc as [_ Hc]; bool_to_prop; specialize (Hfuel Hc);
    pose proof (zsum_chunk_le rs Hok).
  { lia. }
  destruct (round_spec nc 0 rs Hok) as (n & s & rs1 & -> & Hasg & Hs & Hs0 & Hn & Hw & Hst). simpl.
  pose proof (assigned_remaining _ _ _ Hasg) as Hrem.
  destruct (IH n s rs1) as (rs' & -> & Hasg' & Hw' & Hfin).
  { by destruct Hasg. }
  { lia. }
  { intros ->. destruct Hst as [-> Hst]; [done|]. assert (n = nc) as -> by lia. done. }
  { lia. }
  exists rs'. split; [done|]. unfold loop_post.
  assert (nc + (zsum ctx_compute rs' - zsum ctx_compute rs)
          = n + (zsum ctx_compute rs' - zsum ctx_compute rs1)) as -> by lia.
  split; [by eapply assigned_trans|]. auto.
Qed.
End equal_progress.

(** ** FIRST_COME_FIRST_SERVED: lemmas *)

Section fcfs.
Context (mcl : option Z) (u : Z) (Hu : 0 < u).
Context (Hmcl : match mcl with Some m => 0 <= m | None => True end).

Lemma fcfs_size_spec current sug reu :
  0 <= sug -> 0 <= reu ->
  match current with Some c => 0 <= c | None => True end ->
  exists n, fcfs_size mcl current u sug reu = Ok n
    /\ 0 <= n <= sug
    /\ (n = sug \/ n mod u = 0)
    /\ match current with Some c => reuse_adjusted_compute n reu sug <= c | None => True end
    /\ match mcl with Some m => reuse_adjusted_compute n reu sug <= m | None => True end.
Proof using Hu Hmcl.
  intros Hsug Hreu Hcur. unfold fcfs_size.
  set (a1 := match current with Some c => _ | None => _ end).
  assert (H1 : 0 <= a1 <= sug /\
    match current with Some c => reuse_adjusted_compute a1 reu sug <= c | None => True end).
  { subst a1. destruct current as [c|]; [|split; [lia|done]].
    rewrite (reuse_adjusted_min sug) by lia.
    destruct (_ <? _) eqn:E; bool_to_prop; (split; [lia|]); rewrite reuse_adjusted_min by lia; lia. }
  destruct H1 as [Ha1 Hc1]. clearbody a1.
  set (a2 := match mcl with Some m => _ | None => _ end).
  assert (H2 : 0 <= a2 <= a1 /\
    match mcl with Some m => reuse_adjusted_compute a2 reu sug <= m | None => True end).
  { subst a2. destruct mcl as [m|]; [|split; [lia|done]].
    rewrite (reuse_adjusted_min a1) by lia.
    destruct (_ <? _) eqn:E; bool_to_prop; (split; [lia|]); rewrite reuse_adjusted_min by lia; lia. }
  destruct H2 as [Ha2 Hc2]. clearbody a2.
  assert (Hmono : forall n, 0 <= n <= a2 ->
    match current with Some c => reuse_adjusted_compute n reu sug <= c | None => True end
    /\ match mcl with Some m => reuse_adjusted_compute n reu sug <= m | None => True end).
  { intros n Hn. split; [destruct current | destruct mcl]; try done.
    all: rewrite reuse_adjusted_min in * by lia; lia. }
  destruct (a2 <? sug) eqn:E; bool_to_prop.
  - rewrite (proj2 (Z.eqb_neq u 0)) by lia. eexists. split; [done|].
    pose proof (Z.mul_div_le a2 u Hu). pose proof (Z.div_pos a2 u).
    split; [nia|]. split; [right; apply Z.mod_mul; lia|]. apply Hmono. nia.
  - exists a2. split; [done|]. split; [lia|]. split; [left; lia|]. apply Hmono. lia.
Qed.

Lemma chunk_fcfs_spec current rs :
  Forall ctx_ok rs ->
  match current with Some c => 0 <= c | None => True end ->
  exists rs', chunk_fcfs mcl rs current u = Ok rs'
    /\ assigned u rs rs' /\ Forall (aligned u) rs'
    /\ match current with Some c => zsum ctx_compute rs' <= c | None => True end
    /\ match mcl with Some m => Forall (fun r => ctx_compute r <= m) rs' | None => True end.
Proof using Hu Hmcl.
  revert current. induction rs as [|r rs IH]; intros current Hok Hcur; simpl.
  { exists []. split; [done|]. split; [by apply assigned_refl|]. split; [done|].
    rewrite zsum_nil. split; [by destruct current|by destruct mcl]. }
  apply Forall_cons in Hok as [[Hctx Hwf] Hrs].
  pose proof (reusable_of_nonneg r Hwf) as Hreu. pose proof Hwf as [Hpos Hch _].
  destruct (fcfs_size_spec current (context_remaining_length r)
              (Z.min (reusable_of r) (context_remaining_length r)))
    as (n & -> & Hn & Hal & Hcost & Hm); [lia|lia|done|]. simpl.
  rewrite set_context_chunk_size_ctx by (done || lia). simpl.
  rewrite Z.min_l by lia.
  rewrite (context_chunk_size_ctx (with_chunk r n) Hctx). simpl.
  rewrite !reuse_adjusted_clamp in * by lia.
  set (r' := with_chunk r n).
  assert (Hcc : reuse_adjusted_compute n (reusable_of r) (context_remaining_length r) = ctx_compute r')
    by done.
  rewrite Hcc in *.
  destruct (IH ((fun c => c - ctx_compute r') <$> current) Hrs)
    as (rs' & -> & Hasg & Hals & Hc & Hms); [destruct current; simpl; [lia|done]|].
  simpl. exists (r' :: rs'). split; [done|].
  assert (Hr' : aligned u r') by exact Hal.
  split; [apply assigned_cons; try done; by apply ctx_ok_with_chunk|].
  split; [by constructor|]. rewrite zsum_cons.
  split; [destruct current; simpl in *; [lia|done]|].
  destruct mcl; [by constructor|done].
Qed.

(** Every request is served from the front: the first one gets a chunk as
    soon as the budget holds one unit. *)
Lemma chunk_fcfs_head_positive current r rs rs' :
  ctx_ok r -> 0 < context_remaining_length r ->
  match current with Some c => u <= c | None => True end ->
  match mcl with Some m => u <= m | None => True end ->
  chunk_fcfs mcl (r :: rs) current u = Ok rs' ->
  match rs' with r' :: _ => 0 < m_context_chunk_size r' | [] => False end.
Proof using Hu.
  clear Hmcl. intros [Hctx Hwf] Hrem Hc Hm Hrun. simpl in Hrun. inv_ok.
  pose proof (reusable_of_nonneg r Hwf) as Hreu.
  assert (Ha : 0 < a).
  { unfold fcfs_size in E.
    set (a1' := match current with Some c => _ | None => _ end) in E.
    assert (0 < a1' /\ (a1' = context_remaining_length r \/ u <= a1')).
    { unfold a1'. destruct current as [c|]; [split_if|]; lia. }
    set (a2' := match mcl with Some m => _ | None => _ end) in E.
    assert (0 < a2' /\ (u <= a2' \/ a2' >= context_remaining_length r)).
    { unfold a2'. destruct mcl as [m|]; [split_if|]; lia. }
    destruct (a2' <? _) eqn:El; bool_to_prop; [|inv_ok; lia].
    rewrite (proj2 (Z.eqb_neq u 0)) in E by lia. inv_ok.
    assert (1 <= a2' / u) by (apply Z.div_le_lower_bound; lia). nia. }
  rewrite set_context_chunk_size_ctx in E0 by (done || lia). inv_ok. simpl. lia.
Qed.
End fcfs.

(** ** FORCE_CHUNK: lemmas *)

Lemma forced_pass_spec capacity u total rs :
  0 < u -> Forall ctx_ok rs -> exceeds total capacity = false ->
  exists rs' t, forced_pass rs capacity u total = Ok (rs', t)
    /\ assigned u rs rs' /\ Forall (aligned u) rs'
    /\ t = total + zsum m_context_chunk_size rs'
    /\ exceeds t capacity = false
    /\ Forall (fun r => m_context_chunk_size r <= u) rs'.
Proof.
  intros Hu. revert total. induction rs as [|r rs IH]; intros total Hok Ht; simpl.
  { exists [], total. split; [done|]. split; [by apply assigned_refl|].
    rewrite zsum_nil. repeat (split; [first [done|lia]|]). done. }
  apply Forall_cons in Hok as [[Hctx Hwf] Hrs]. pose proof Hwf as [Hpos Hch _].
  rewrite set_context_chunk_size_ctx by (done || lia). simpl.
  rewrite (context_chunk_size_ctx (with_chunk r _) Hctx). simpl.
  set (c := Z.min (Z.min (context_remaining_length r) u) (context_remaining_length r)).
  assert (Hfit : exists d, (if exceeds (total + c) capacity
             then set_context_chunk_size (with_chunk r c) 0 else Ok (with_chunk r c))
             = Ok (with_chunk r d)
          /\ 0 <= d <= context_remaining_length r /\ d <= u
          /\ aligned u (with_chunk r d) /\ exceeds (total + d) capacity = false).
  { destruct (exceeds (total + c) capacity) eqn:E.
    - exists 0. rewrite set_context_chunk_size_ctx by (done || lia).
      change (context_remaining_length (with_chunk r c)) with (context_remaining_length r).
      rewrite Z.min_l by lia. split; [done|]. split; [lia|]. split; [lia|].
      rewrite Z.add_0_r. split; [by right|done].
    - exists c. split; [done|]. split; [lia|]. split; [lia|]. split; [|done].
      unfold aligned. simpl. change (context_remaining_length (with_chunk r c)) with (context_remaining_length r).
      destruct (decide (context_remaining_length r <= u)); [left; lia|right].
      replace c with u by lia. by rewrite Z.mod_same by lia. }
  destruct Hfit as (d & -> & Hd & Hdu & Hal & Hex). simpl.
  rewrite (context_chunk_size_ctx (with_chunk r d) Hctx). simpl.
  destruct (IH (total + d) Hrs Hex) as (rs' & t & -> & Hasg & Hals & -> & Hext & Hus). simpl.
  exists (with_chunk r d :: rs'), (total + d + zsum m_context_chunk_size rs').
  split; [done|]. split; [apply assigned_cons; try done; by apply ctx_ok_with_chunk|].
  split; [by constructor|]. rewrite zsum_cons. split; [simpl; lia|].
  split; [done|]. by constructor.
Qed.

Lemma chunk_forced_spec mcl capacity u rs :
  0 < u -> Forall ctx_ok rs -> exceeds 0 capacity = false ->
  match mcl with Some m => u <= m | None => True end ->
  exists rs', chunk_forced mcl rs capacity u = Ok rs'
    /\ assigned u rs rs' /\ Forall (aligned u) rs'
    /\ exceeds (zsum m_context_chunk_size rs') capacity = false
    /\ Forall (fun r => m_context_chunk_size r <= u) rs'.
Proof.
  intros Hu Hok H0 Hm. unfold chunk_forced.
  replace (match mcl with Some m => m <? u | None => false end) with false
    by (destruct mcl; [symmetry; apply Z.ltb_ge; lia|done]).
  destruct (forced_pass_spec capacity u 0 rs Hu Hok H0) as (rs' & t & -> & Ha & Hal & -> & Hex & Hle).
  simpl in *. rewrite Hex. simpl. eauto 10.
Qed.

(** ** Draft tokens: lemmas *)

(** Trimming drafts touches nothing else, and only shortens them. *)
Definition trimmed (r r' : LlmRequest) : Prop :=
  r' = with_drafts r (draft_tokens r') /\ draft_tokens r' `prefix_of` draft_tokens r.

Lemma discard_trimmed r n r' : discard_draft_tokens r n = Ok r' -> trimmed r r'.
Proof.
  intros H. split; [by apply discard_draft_tokens_spec in H as [_ ?]|].
  unfold discard_draft_tokens in H. repeat split_if; inv_ok; try done.
  simpl. apply prefix_take.
Qed.

Lemma trimmed_refl r : trimmed r r.
Proof. split; [by destruct r|done]. Qed.

Lemma fit_draft_one_spec mcl capacity u n r :
  0 < u -> ctx_ok r ->
  exists r' n', fit_draft_one mcl capacity u n r = Ok (r', n')
    /\ trimmed r r'
    /\ match capacity with
       | Some c => n' = n + last_drafts r' /\ (n <= c -> n' <= c)
       | None => n' = n
       end.
Proof.
  intros Hu [Hctx Hwf]. unfold fit_draft_one. rewrite (is_last_context_chunk_ctx r Hctx). simpl.
  assert (Hskip : last_drafts r = 0 ->
    exists r' n', Ok (r, n) = Ok (r', n') /\ trimmed r r'
    /\ match capacity with
       | Some c => n' = n + last_drafts r' /\ (n <= c -> n' <= c) | None => n' = n end).
  { intros Hl. exists r, n. split; [done|]. split; [apply trimmed_refl|].
    destruct capacity; [rewrite Hl; lia|done]. }
  destruct (m_context_chunk_size r =? context_remaining_length r) eqn:El; simpl;
    [|apply Hskip; unfold last_drafts; by rewrite El].
  destruct (has_draft_tokens r) eqn:Ed; simpl;
    [|apply Hskip; unfold last_drafts; rewrite El; by apply has_draft_tokens_false].
  rewrite (context_chunk_size_ctx r Hctx). simpl. rewrite (proj2 (Z.eqb_neq u 0)) by lia.
  set (space := Z.max 0 _).
  set (kept := match capacity with Some cap => _ | None => Z.min (num_draft_tokens r) space end).
  pose proof (num_draft_tokens_nonneg r).
  assert (Hk : 0 <= kept <= num_draft_tokens r
    /\ match capacity with Some c => n <= c -> n + kept <= c | None => True end)
    by (subst kept; destruct capacity; lia).
  clearbody kept space. destruct Hk as [Hk1 Hk2].
  assert (Hr' : exists r', (if 0 <? num_draft_tokens r - kept
      then discard_draft_tokens r (num_draft_tokens r - kept) else Ok r) = Ok r'
      /\ trimmed r r' /\ num_draft_tokens r' = kept).
  { destruct (0 <? num_draft_tokens r - kept) eqn:E; bool_to_prop.
    - destruct (discard_draft_tokens r (num_draft_tokens r - kept)) as [r'|] eqn:Er.
      + exists r'. split; [done|]. split; [by eapply discard_trimmed|].
        apply discard_draft_tokens_spec in Er as [-> _]. lia.
      + unfold discard_draft_tokens in Er. repeat split_if; bool_to_prop; try done; lia.
    - exists r. split; [done|]. split; [apply trimmed_refl|lia]. }
  destruct Hr' as (r' & -> & Ht & Hn). simpl. eexists _, _. split; [done|]. split; [done|].
  assert (Hld : last_drafts r' = kept).
  { unfold last_drafts. destruct Ht as [Ht _]. rewrite Ht. simpl.
    change (context_remaining_length (with_drafts r (draft_tokens r'))) with (context_remaining_length r).
    rewrite El. rewrite <- Hn. rewrite !num_draft_tokens_len. done. }
  destruct capacity; [rewrite Hld; auto|done].
Qed.

Lemma fit_draft_pass_spec mcl capacity u n rs :
  0 < u -> Forall ctx_ok rs ->
  exists rs', fit_draft_pass mcl capacity u n rs = Ok rs'
    /\ Forall2 trimmed rs rs'
    /\ match capacity with Some c => n <= c -> n + zsum last_drafts rs' <= c | None => True end.
Proof.
  intros Hu. revert n. induction rs as [|r rs IH]; intros n Hok; simpl.
  { exists []. split; [done|]. split; [constructor|]. rewrite zsum_nil. destruct capacity; lia. }
  apply Forall_cons in Hok as [Hr Hrs].
  destruct (fit_draft_one_spec mcl capacity u n r Hu Hr) as (r' & n' & -> & Ht & Hc). simpl.
  destruct (IH n' Hrs) as (rs' & -> & Hts & Hcs). simpl.
  exists (r' :: rs'). split; [done|]. split; [by constructor|].
  rewrite zsum_cons. destruct capacity; [destruct Hc; intros; lia|done].
Qed.

Lemma trimmed_facts r r' :
  trimmed r r' -> ctx_ok r ->
  ctx_ok r' /\ ctx_compute r' = ctx_compute r /\ erase r' = erase r
  /\ m_context_chunk_size r' = m_context_chunk_size r /\ num_draft_tokens r' <= num_draft_tokens r.
Proof.
  intros [Ht Hp] [Hctx Hwf].
  assert (num_draft_tokens r' <= num_draft_tokens r)
    by (rewrite !num_draft_tokens_len; apply prefix_length in Hp; lia).
  revert H. rewrite Ht. intros H. split; [|done]. split; [done|]. auto with serving.
Qed.

Lemma mapM_model_tokens rs :
  Forall ctx_ok rs -> mapM model_tokens rs = Ok (ctx_compute <$> rs).
Proof.
  induction 1 as [|r rs [Hctx Hwf] _ IH]; [done|]. simpl. rewrite IH.
  unfold model_tokens. rewrite (context_chunk_size_ctx r Hctx). simpl.
  unfold clamped_reusable. pose proof (reusable_of_nonneg r Hwf). destruct Hwf.
  by rewrite reuse_adjusted_clamp by lia.
Qed.

(** ** The dispatcher *)

(** What scheduling may do to a request: give it a chunk, drop some of its
    last draft tokens. *)
Definition rechunked (r r' : LlmRequest) : Prop :=
  erase r' = erase r /\ draft_tokens r' `prefix_of` draft_tokens r.

(** Tokens the forward pass spends on a context request. *)
Definition ctx_cost (r : LlmRequest) : Z := ctx_compute r + last_drafts r.

(** The configurations for which a policy is defined: a positive unit, a
    budget and a maximum context length that are not negative, and, for forced
    chunks, a unit no longer than the maximum context length. *)
Definition policy_ok (cfg : ContextChunkingConfig) (mcl capacity : option Z) : Prop :=
  0 < chunk_unit_size cfg
  /\ exceeds 0 capacity = false
  /\ exceeds 0 mcl = false
  /\ (chunking_policy cfg = FORCE_CHUNK -> exceeds (chunk_unit_size cfg) mcl = false).

Definition fresh_chunk (r : LlmRequest) : LlmRequest := with_chunk r 0.

Lemma mapM_reset rs :
  Forall ctx_ok rs -> mapM (fun r => set_context_chunk_size r 0) rs = Ok (fresh_chunk <$> rs).
Proof.
  induction 1 as [|r rs [Hctx Hwf] _ IH]; [done|]. simpl. rewrite IH.
  rewrite set_context_chunk_size_ctx by (done || lia). simpl. destruct Hwf as [? ? ?].
  rewrite Z.min_l by lia. done.
Qed.

Lemma fresh_ok rs : Forall ctx_ok rs -> Forall ctx_ok (fresh_chunk <$> rs).
Proof.
  intros H. rewrite Forall_fmap. eapply Forall_impl; [exact H|]. intros r [Hctx Hwf].
  split; [done|]. apply wf_with_chunk; [done|]. destruct Hwf. lia.
Qed.

Lemma fresh_aligned u rs : Forall (aligned u) (fresh_chunk <$> rs).
Proof. rewrite Forall_fmap. apply Forall_true. intros r. right. apply Zmod_0_l. Qed.

Lemma fresh_compute rs : Forall ctx_ok rs -> zsum ctx_compute (fresh_chunk <$> rs) = 0.
Proof.
  intros H. apply zsum_0. intros r Hr. pose proof (fresh_ok rs H) as Hf.
  rewrite Forall_forall in Hf. destruct (Hf r Hr) as [_ Hwf].
  apply list_elem_of_fmap in Hr as (q & -> & _).
  pose proof (ctx_compute_bounds _ Hwf). simpl in *. lia.
Qed.

(** The fuel of the EQUAL_PROGRESS loop is enough for requests just reset. *)
Lemma fresh_fuel rs :
  Forall ctx_ok rs ->
  zsum context_remaining_length (fresh_chunk <$> rs) - zsum m_context_chunk_size (fresh_chunk <$> rs)
  < Z.of_nat (equal_progress_fuel (fresh_chunk <$> rs)).
Proof.
  intros Hok. unfold equal_progress_fuel.
  assert (0 <= zsum m_context_chunk_size (fresh_chunk <$> rs))
    by (apply zsum_nonneg; intros r (q & -> & _)%list_elem_of_fmap; simpl; lia).
  pose proof (zsum_chunk_le _ (fresh_ok rs Hok)). lia.
Qed.

Lemma policy_spec cfg mcl capacity rs :
  policy_ok cfg mcl capacity -> Forall ctx_ok rs ->
  let u := chunk_unit_size cfg in
  exists rs',
    match chunking_policy cfg with
    | EQUAL_PROGRESS => chunk_equal_progress mcl (fresh_chunk <$> rs) capacity u
    | FIRST_COME_FIRST_SERVED => chunk_fcfs mcl (fresh_chunk <$> rs) capacity u
    | FORCE_CHUNK => chunk_forced mcl (fresh_chunk <$> rs) capacity u
    end = Ok rs'
    /\ assigned u (fresh_chunk <$> rs) rs' /\ Forall (aligned u) rs'
    /\ exceeds (zsum ctx_compute rs') capacity = false.
Proof.
  intros (Hu & Hcap & Hmcl & Hf) Hok u.
  pose proof (fresh_ok rs Hok) as Hok0. pose proof (fresh_aligned u rs) as Hal0.
  pose proof (fresh_compute rs Hok) as Hc0.
  destruct (chunking_policy cfg).
  - unfold chunk_equal_progress.
    destruct (loop_spec mcl capacity u ltac:(lia) (equal_progress_fuel (fresh_chunk <$> rs)) 0 1
                (fresh_chunk <$> rs) Hok0) as (rs' & -> & Hasg & Hw & _); [|lia|lia|].
    { intros _. by apply fresh_fuel. }
    exists rs'. split; [done|]. split; [done|]. split; [by apply Hasg|].
    rewrite Hc0, Z.sub_0_r in Hw. by apply Hw.
  - destruct (chunk_fcfs_spec mcl u Hu ltac:(destruct mcl; [by apply Z.ltb_ge|done]) capacity
                (fresh_chunk <$> rs) Hok0) as (rs' & -> & Hasg & Hal & Hc & _);
      [destruct capacity; [by apply Z.ltb_ge|done]|].
    exists rs'. split; [done|]. split; [done|]. split; [done|].
    destruct capacity; [by apply Z.ltb_ge|done].
  - destruct (chunk_forced_spec mcl capacity u (fresh_chunk <$> rs) Hu Hok0 Hcap)
      as (rs' & -> & Hasg & Hal & Hc & _); [specialize (Hf eq_refl); destruct mcl; [by apply Z.ltb_ge|done]|].
    exists rs'. split; [done|]. split; [done|]. split; [done|].
    eapply exceeds_mono; [|done]. apply zsum_le. intros r Hr.
    destruct Hasg as [_ Hok' _]. rewrite Forall_forall in Hok'. destruct (Hok' r Hr).
    by apply ctx_compute_bounds.
Qed.

Lemma set_ctx_requests_chunk_size_spec cfg mcl capacity rs :
  policy_ok cfg mcl capacity -> Forall ctx_ok rs ->
  exists rs', set_ctx_requests_chunk_size mcl cfg rs capacity = Ok rs'
    /\ Forall2 rechunked rs rs' /\ Forall ctx_ok rs'
    /\ Forall (aligned (chunk_unit_size cfg)) rs'
    /\ exceeds (zsum ctx_cost rs') capacity = false.
Proof.
  intros Hpol Hok. unfold set_ctx_requests_chunk_size. rewrite (mapM_reset rs Hok). simpl.
  destruct (policy_spec cfg mcl capacity rs Hpol Hok) as (rs1 & -> & [Hs Hok1 _] & Hal & Hc). simpl.
  destruct Hpol as [Hu _]. unfold fit_draft_tokens. rewrite (mapM_model_tokens rs1 Hok1). simpl.
  rewrite zsum_fmap. unfold id.
  change (zsum (fun x => ctx_compute x) rs1) with (zsum ctx_compute rs1).
  destruct (fit_draft_pass_spec mcl capacity (chunk_unit_size cfg) (zsum ctx_compute rs1) rs1 Hu Hok1)
    as (rs2 & -> & Ht & Hd).
  assert (Hfacts : Forall2 (fun r r' => ctx_ok r' /\ ctx_compute r' = ctx_compute r
      /\ (aligned (chunk_unit_size cfg) r -> aligned (chunk_unit_size cfg) r')) rs1 rs2).
  { clear Hd Hc Hal Hs. induction Ht as [|r r' ?? Hr _ IH]; [constructor|].
    apply Forall_cons in Hok1 as [Hr1 Hok1]. constructor; [|by apply IH].
    destruct (trimmed_facts r r' Hr Hr1) as (? & ? & He & Hm & _).
    split; [done|]. split; [done|]. unfold aligned. by rewrite Hm, (erase_remaining r r' He). }
  exists rs2. split; [done|]. split; [|split; [|split]].
  - rewrite Forall2_fmap_l in Hs. clear Hal Hc Hd Hfacts.
    revert rs2 Ht. induction Hs as [|r r1 ?? [He Hdr] _ IH]; intros rs2 Ht;
      apply Forall2_cons_inv_l in Ht as (r2 & ? & [Hw Hp] & Ht & ->) || apply Forall2_nil_inv_l in Ht as ->;
      [constructor|].
    apply Forall_cons in Hok1 as [_ Hok1]. constructor; [|by apply IH; [inversion Hok|..]].
    split; [|by rewrite Hdr in Hp]. rewrite Hw. exact He.
  - eapply Forall2_Forall_r; [exact Hfacts|]. apply Forall_true. by intros r r' (? & _).
  - eapply Forall2_Forall_r; [exact Hfacts|]. eapply Forall_impl; [exact Hal|].
    intros r Hr r' (_ & _ & H). auto.
  - assert (zsum ctx_compute rs2 = zsum ctx_compute rs1) as Heq.
    { clear -Hfacts. induction Hfacts as [|???? (_ & Hx & _) _ IH]; [done|].
      by rewrite !zsum_cons, IH, Hx. }
    unfold ctx_cost. rewrite zsum_plus, Heq.
    destruct capacity; simpl in *; [|done]. bool_to_prop. apply Z.ltb_ge. lia.
Qed.

(** ** Properties *)

Lemma new_ctx_ok id n d : 0 <= n -> ctx_ok (new_request id CONTEXT_INIT n d).
Proof. intros. split; [done|]. by apply wf_new_request. Qed.

(** C24. Budget: under every chunking policy, re-chunking returns normally,
    changes nothing of a request but its chunk and its trailing draft tokens,
    and what the forward pass then spends on the context requests (chunks net
    of reusable tokens, plus the drafts run with last chunks) is within the
    compute budget. *)
Theorem chunking_respects_budget cfg mcl c rs :
  policy_ok cfg mcl (Some c) -> Forall ctx_ok rs ->
  exists rs', set_ctx_requests_chunk_size mcl cfg rs (Some c) = Ok rs'
    /\ Forall2 rechunked rs rs' /\ zsum ctx_cost rs' <= c.
Proof.
  intros Hp Hok. destruct (set_ctx_requests_chunk_size_spec cfg mcl (Some c) rs Hp Hok)
    as (rs' & -> & ? & _ & _ & Hc).
  exists rs'. split; [done|]. split; [done|]. by apply Z.ltb_ge.
Qed.

(** Alignment: whatever the policy and the budget, a chunk that does not
    finish its context is a whole number of chunk units, and no chunk runs past
    the end of its context. *)
Theorem chunking_aligned cfg mcl capacity rs :
  policy_ok cfg mcl capacity -> Forall ctx_ok rs ->
  exists rs', set_ctx_requests_chunk_size mcl cfg rs capacity = Ok rs'
    /\ Forall (fun r => 0 <= m_context_chunk_size r <= context_remaining_length r
                        /\ aligned (chunk_unit_size cfg) r) rs'.
Proof.
  intros Hp Hok. destruct (set_ctx_requests_chunk_size_spec cfg mcl capacity rs Hp Hok)
    as (rs' & -> & _ & Hok' & Hal & _).
  exists rs'. split; [done|]. apply Forall_and. split; [|done].
  eapply Forall_impl; [exact Hok'|]. by intros r [_ []].
Qed.

(** C38. EQUAL_PROGRESS terminates, changes only the chunks, which it makes whole numbers
    of units or the rest of a context, and stays within the budget.  It ends when the
    budget is used up, to the token, or when no request can take another unit without
    passing the budget, the maximum context length or the end of its context.  Once the
    budget is used up it stops, even if a unit of cached tokens would cost nothing. *)
Theorem equal_progress_maximal mcl capacity u rs :
  0 <= u -> Forall ctx_ok rs ->
  exists rs', chunk_equal_progress mcl (fresh_chunk <$> rs) capacity u = Ok rs'
    /\ assigned u (fresh_chunk <$> rs) rs'
    /\ match capacity with
       | Some c => 0 <= c -> zsum ctx_compute rs' = c
                     \/ zsum ctx_compute rs' < c /\ Forall (saturated mcl capacity u (zsum ctx_compute rs')) rs'
       | None => Forall (saturated mcl capacity u (zsum ctx_compute rs')) rs'
       end.
Proof.
  intros Hu Hok. pose proof (fresh_ok rs Hok) as Hok0. pose proof (fresh_compute rs Hok) as Hc0.
  destruct (loop_spec mcl capacity u Hu (equal_progress_fuel (fresh_chunk <$> rs)) 0 1
              (fresh_chunk <$> rs) Hok0) as (rs' & Hrun & Hasg & Hw & Hfin); [|lia|lia|].
  { intros _. by apply fresh_fuel. }
  exists rs'. split; [done|]. split; [done|]. rewrite Hc0, Z.sub_0_r in *.
  destruct capacity as [c|]; [|by destruct Hfin]. intros Hc.
  assert (Hle : zsum ctx_compute rs' <= c) by (apply Z.ltb_ge, Hw; by apply Z.ltb_ge).
  destruct Hfin as [Hfin|Hfin]; [left; lia|]. destruct (decide (zsum ctx_compute rs' = c)); [by left|]. right. split; [lia|done].
Qed.

(** FIRST_COME_FIRST_SERVED does not starve the front: if the budget and
    the maximum context length hold one unit, the first unfinished context
    request gets a non-empty chunk. *)
Theorem fcfs_serves_front mcl c u r rs :
  0 < u -> u <= c -> exceeds u mcl = false ->
  Forall ctx_ok (r :: rs) -> 0 < context_remaining_length r ->
  exists r' rs', chunk_fcfs mcl (r :: rs) (Some c) u = Ok (r' :: rs')
    /\ request_id r' = request_id r /\ 0 < m_context_chunk_size r'.
Proof.
  intros Hu Hc Hm Hok Hrem.
  assert (Hm' : match mcl with Some m => u <= m | None => True end)
    by (destruct mcl; [by apply Z.ltb_ge|done]).
  destruct (chunk_fcfs_spec mcl u Hu ltac:(destruct mcl; [lia|done]) (Some c) (r :: rs) Hok
              ltac:(simpl; lia)) as (rs1 & Hrun & [Hs _ _] & _).
  pose proof (chunk_fcfs_head_positive mcl u Hu (Some c) r rs rs1) as Hhd.
  apply Forall2_cons_inv_l in Hs as (r' & rs' & [He _] & _ & ->).
  exists r', rs'. split; [done|]. split; [by apply erase_id|].
  apply Hhd; [by apply Forall_cons in Hok as [? _]|done..].
Qed.

(** The cost model is sound for the C++ request object: when a request at
    the start of its context is later moved past [p] cached tokens, the chunk it
    really executes is no longer than what [_reuse_adjusted_compute] charged
    for [p] reusable tokens. *)
Theorem reuse_adjusted_compute_sound r p tokens_per_block r' :
  wf_request r -> context_current_position r = 0 ->
  set_prepopulated_prompt_len r p tokens_per_block = Ok r' ->
  m_context_chunk_size r'
  <= reuse_adjusted_compute (m_context_chunk_size r) p (context_remaining_length r).
Proof.
  intros [Hpos Hch _] H0 Hrun. unfold set_prepopulated_prompt_len in Hrun.
  destruct (p <? prompt_len r) eqn:Hp; [|done].
  unfold reuse_adjusted_compute, context_remaining_length in *. rewrite H0, Z.sub_0_r in *.
  destruct (0 <? p) eqn:Hp0; bool_to_prop;
    [|inv_ok; simpl; by rewrite (proj2 (Z.leb_le p 0)) by lia].
  rewrite (proj2 (Z.leb_gt p 0)) by lia. inv_ok.
  assert (r' = a1) as -> by (repeat split_if; inv_ok; done).
  unfold set_context_chunk_size, context_chunk_size in *.
  repeat split_if; inv_ok; bool_to_prop; try done; simpl in *;
    unfold context_remaining_length in *; simpl in *; lia.
Qed.

(** *** Witnesses *)

Definition wit_requests : list LlmRequest :=
  [new_request 1 CONTEXT_INIT 100 []; new_request 2 CONTEXT_INIT 30 [7; 8; 9]].
Definition wit_config (p : ChunkingPolicy) : ContextChunkingConfig := mkChunkConfig p 16.

Lemma wit_requests_ok : Forall ctx_ok wit_requests.
Proof. repeat constructor; unfold context_remaining_length; simpl; lia. Qed.

Lemma wit_policy_ok p : policy_ok (wit_config p) (Some 64) (Some 64).
Proof. by repeat split. Qed.

Lemma chunking_respects_budget_witness :
  exists rs', set_ctx_requests_chunk_size (Some 64) (wit_config EQUAL_PROGRESS) wit_requests (Some 64) = Ok rs'
    /\ Forall2 rechunked wit_requests rs' /\ zsum ctx_cost rs' <= 64.
Proof.
  apply (chunking_respects_budget (wit_config EQUAL_PROGRESS) (Some 64) 64 wit_requests).
  - apply wit_policy_ok.
  - apply wit_requests_ok.
Defined.

Lemma chunking_aligned_witness :
  exists rs', set_ctx_requests_chunk_size (Some 64) (wit_config FIRST_COME_FIRST_SERVED)
                wit_requests (Some 64) = Ok rs'
    /\ Forall (fun r => 0 <= m_context_chunk_size r <= context_remaining_length r
                        /\ aligned 16 r) rs'.
Proof.
  apply (chunking_aligned (wit_config FIRST_COME_FIRST_SERVED) (Some 64) (Some 64) wit_requests).
  - apply wit_policy_ok.
  - apply wit_requests_ok.
Defined.

Lemma equal_progress_maximal_witness :
  exists rs', chunk_equal_progress (Some 64) (fresh_chunk <$> wit_requests) (Some 50) 16 = Ok rs'
    /\ (zsum ctx_compute rs' = 50
        \/ zsum ctx_compute rs' < 50 /\ Forall (saturated (Some 64) (Some 50) 16 (zsum ctx_compute rs')) rs').
Proof.
  destruct (equal_progress_maximal (Some 64) (Some 50) 16 wit_requests) as (rs' & Hrun & _ & Hfin).
  - lia.
  - apply wit_requests_ok.
  - exists rs'. split; [exact Hrun|]. apply Hfin. lia.
Defined.

Lemma fcfs_serves_front_witness :
  exists r' rs', chunk_fcfs (Some 64) wit_requests (Some 20) 16 = Ok (r' :: rs')
    /\ request_id r' = 1 /\ 0 < m_context_chunk_size r'.
Proof.
  apply (fcfs_serves_front (Some 64) 20 16 (new_request 1 CONTEXT_INIT 100 [])
           [new_request 2 CONTEXT_INIT 30 [7; 8; 9]]).
  - lia.
  - lia.
  - reflexivity.
  - apply wit_requests_ok.
  - reflexivity.
Defined.

Lemma reuse_adjusted_compute_sound_witness :
  let r := with_chunk (new_request 1 CONTEXT_INIT 100 []) 48 in
  m_context_chunk_size (with_chunk (with_cursor r 64 64) 36)
  <= reuse_adjusted_compute 48 64 (context_remaining_length r).
Proof.
  apply (reuse_adjusted_compute_sound (with_chunk (new_request 1 CONTEXT_INIT 100 []) 48) 64 16).
  - constructor; unfold context_remaining_length; simpl; lia.
  - reflexivity.
  - reflexivity.
Defined.
