(* ===== verification/MicroBatch.v ===== *)
(** * The micro-batch scheduler

    [PyMicroBatchScheduler] of
    [tensorrt_llm/_torch/pyexecutor/scheduler/scheduler.py]: among the requests
    that fit in memory it selects those that fit in one forward pass, within the
    token budget and the batch size, chunking long contexts when it may.

    The Python method mutates the chunk sizes and draft tokens of the requests
    it puts in [contexts_to_be_chunked]; the model returns the final value of
    each of them ([out_rechunked]), scheduled or not, beside the three lists of
    the Python result. *)

From stdpp Require Import prelude gmap sorting.
From S2P Require Import Prelude Request Chunking.
Local Open Scope Z_scope.

(** ** Requests the schedulers set aside *)

Definition is_decoder_context_request_waiting_for_encoder_output (r : LlmRequest) : bool :=
  if negb (is_context_init_state r) then false
  else match encoder_output_ready_event r with
       | None => false
       | Some ready => negb ready
       end.

Definition drop_decoder_context_requests_waiting_for_encoder_output
    (active_requests : list LlmRequest) : list LlmRequest :=
  filter (fun r => is_decoder_context_request_waiting_for_encoder_output r = false) active_requests.

(** Requests without LoRA first, then by LoRA task id. *)
Definition get_lora_task_id (r : LlmRequest) : Z * Z :=
  match lora_task_id r with None => (0, 0) | Some i => (1, i) end.

(** Python's order on pairs. *)
Definition pair_le (a b : Z * Z) : bool :=
  (a.1 <? b.1) || ((a.1 =? b.1) && (a.2 <=? b.2)).

Definition lora_le (r q : LlmRequest) : bool := pair_le (get_lora_task_id r) (get_lora_task_id q).

(** ** The scheduler object *)

Record PyMicroBatchScheduler := mkMicroBatch {
  max_batch_size : Z;
  max_num_tokens : option Z;
  ctx_chunk_config : option ContextChunkingConfig;
  mb_no_schedule_until_state : LlmRequestState;
  mb_no_schedule_after_state : LlmRequestState;
}.

(** The constructor sets [self.max_context_length = max_num_tokens]. *)
Definition max_context_length (sch : PyMicroBatchScheduler) : option Z := max_num_tokens sch.

Definition state_in_range (until after : LlmRequestState) (r : LlmRequest) : bool :=
  (state_val until <=? state_value r) && (state_value r <? state_val after).

Definition mb_can_be_scheduled (sch : PyMicroBatchScheduler) (r : LlmRequest) : bool :=
  if is_decoder_context_request_waiting_for_encoder_output r then false
  else state_in_range (mb_no_schedule_until_state sch) (mb_no_schedule_after_state sch) r.

(** ** The main scheduling loop *)

Record mb_state := mkMbState {
  encoder_requests : list LlmRequest;
  context_requests : list LlmRequest;
  generation_requests : list LlmRequest;
  batch_num_tokens : Z;
  scheduled_req_size : Z;
  scheduled_beam_width : Z;
  contexts_to_be_chunked : list LlmRequest;
  num_chunked_compute_tokens : Z;
  all_context_requests_fit : bool;
}.

Definition mb_init : mb_state := mkMbState [] [] [] 0 0 0 [] 0 true.

(** How one of the three handlers leaves a request: scheduled, passed over
    ([continue]) or as the end of the loop ([break]). *)
Inductive verdict :=
  | Scheduled (s : mb_state)
  | Skipped
  | Stopped.

Definition add_encoder (s : mb_state) (r : LlmRequest) (n : Z) : mb_state :=
  mkMbState (encoder_requests s ++ [r]) (context_requests s) (generation_requests s)
    (batch_num_tokens s + n) (scheduled_req_size s) (scheduled_beam_width s)
    (contexts_to_be_chunked s) (num_chunked_compute_tokens s) (all_context_requests_fit s).
Definition add_context (s : mb_state) (r : LlmRequest) (n : Z) : mb_state :=
  mkMbState (encoder_requests s) (context_requests s ++ [r]) (generation_requests s)
    (batch_num_tokens s + n) (scheduled_req_size s) (scheduled_beam_width s)
    (contexts_to_be_chunked s) (num_chunked_compute_tokens s) (all_context_requests_fit s).
Definition add_generation (s : mb_state) (r : LlmRequest) (n width : Z) : mb_state :=
  mkMbState (encoder_requests s) (context_requests s) (generation_requests s ++ [r])
    (batch_num_tokens s + n) (scheduled_req_size s) width
    (contexts_to_be_chunked s) (num_chunked_compute_tokens s) (all_context_requests_fit s).
Definition add_chunked (s : mb_state) (r : LlmRequest) (n : Z) (fit : bool) : mb_state :=
  mkMbState (encoder_requests s) (context_requests s) (generation_requests s)
    (batch_num_tokens s) (scheduled_req_size s) (scheduled_beam_width s)
    (contexts_to_be_chunked s ++ [r]) (num_chunked_compute_tokens s + n) fit.
Definition count_request (s : mb_state) : mb_state :=
  mkMbState (encoder_requests s) (context_requests s) (generation_requests s)
    (batch_num_tokens s) (scheduled_req_size s + 1) (scheduled_beam_width s)
    (contexts_to_be_chunked s) (num_chunked_compute_tokens s) (all_context_requests_fit s).

Section schedule.
Context (sch : PyMicroBatchScheduler).

(** A. Encoder requests *)
Definition schedule_encoder (s : mb_state) (r : LlmRequest) : result verdict :=
  req_num_tokens ← encoder_output_len r;
  _ ← py_assert (negb (exceeds req_num_tokens (max_context_length sch)));
  if exceeds (batch_num_tokens s + req_num_tokens) (max_num_tokens sch) then Ok Stopped
  else Ok (Scheduled (add_encoder s r req_num_tokens)).

(** Tokens of an unchunked context request. *)
Definition unchunked_compute (r : LlmRequest) : Z :=
  let draft_tokens := if has_draft_tokens r then num_draft_tokens r else 0 in
  let context_compute :=
    reuse_adjusted_compute (num_tokens r) (reusable_of r) (context_remaining_length r) in
  Z.max 1 (context_compute + draft_tokens).

(** B. Context requests: whole, or tentatively whole and left for chunking *)
Definition schedule_context (s : mb_state) (r : LlmRequest) : result verdict :=
  let reusable := reusable_of r in
  match ctx_chunk_config sch with
  | None =>
      let compute_tokens := unchunked_compute r in
      _ ← py_assert (negb (exceeds compute_tokens (max_context_length sch)));
      if exceeds (batch_num_tokens s + compute_tokens) (max_num_tokens sch) then Ok Stopped
      else Ok (Scheduled (add_context s r compute_tokens))
  | Some _ =>
      r1 ← set_context_chunk_size r (context_remaining_length r);
      last ← is_last_context_chunk r1;
      let draft_tokens := if (last : bool) && has_draft_tokens r1 then num_draft_tokens r1 else 0 in
      chunk ← context_chunk_size r1;
      let compute_tokens :=
        reuse_adjusted_compute chunk reusable (context_remaining_length r1) + draft_tokens in
      let too_long := match max_context_length sch with
                      | Some m => m <? compute_tokens | None => false end in
      let compute_tokens := match max_context_length sch with
                            | Some m => if too_long then m else compute_tokens
                            | None => compute_tokens end in
      Ok (Scheduled (add_chunked s r1 compute_tokens
                       (if too_long then false else all_context_requests_fit s)))
  end.

(** C. Generation requests *)
Definition schedule_generation (s : mb_state) (r : LlmRequest) : result verdict :=
  beam_width ← get_beam_width_by_iter r false;
  let req_num_tokens := beam_width + num_draft_tokens r in
  if exceeds (batch_num_tokens s + req_num_tokens) (max_num_tokens sch) then Ok Stopped
  else if scheduled_beam_width s =? 0
       then Ok (Scheduled (add_generation s r req_num_tokens beam_width))
       else if negb (scheduled_beam_width s =? beam_width) then Ok Skipped
       else Ok (Scheduled (add_generation s r req_num_tokens (scheduled_beam_width s))).

Definition dispatch (s : mb_state) (r : LlmRequest) : result verdict :=
  if state_value r =? state_val ENCODER_INIT then schedule_encoder s r
  else if state_value r =? state_val CONTEXT_INIT then schedule_context s r
  else schedule_generation s r.

(** The guards at the head of the loop body: requests passed over. *)
Definition passed_over (inflight : gset Z) (r : LlmRequest) : bool :=
  bool_decide (request_id r ∈ inflight)
  || is_decoder_context_request_waiting_for_encoder_output r
  || negb (state_in_range (mb_no_schedule_until_state sch) (mb_no_schedule_after_state sch) r).

Definition schedule_body (inflight : gset Z) (s : mb_state) (r : LlmRequest) : result (ctl mb_state) :=
  if passed_over inflight r then Ok (Continue s)
  else
    v ← dispatch s r;
    match v with
    | Stopped => Ok (Break s)
    | Skipped => Ok (Continue s)
    | Scheduled s' =>
        let s'' := count_request s' in
        if max_batch_size sch <=? scheduled_req_size s'' then Ok (Break s'') else Ok (Continue s'')
    end.

(** ** Sorting *)

Definition sort_requests (ctx gen : list LlmRequest) (chunks_present : bool)
    : result (list LlmRequest * list LlmRequest) :=
  ctx' ← (if chunks_present then
            lasts ← mapM is_last_context_chunk ctx;
            let tagged := zip ctx lasts in
            let not_last_chunk := (filter (fun p => p.2 = false) tagged).*1 in
            let last_chunk := (filter (fun p => p.2 = true) tagged).*1 in
            Ok (sort_by lora_le not_last_chunk ++ sort_by lora_le last_chunk)
          else Ok (sort_by lora_le ctx));
  Ok (ctx', sort_by lora_le gen).

(** ** The whole method *)

Record mb_output := mkMbOutput {
  out_encoder : list LlmRequest;
  out_context : list LlmRequest;
  out_generation : list LlmRequest;
  out_rechunked : list LlmRequest;
}.

(** 2. and 3.: check that the tentative chunks fit, re-chunk them otherwise. *)
Definition apply_chunking (s : mb_state) : result (list LlmRequest * bool) :=
  let fit := all_context_requests_fit s in
  let fit := match max_num_tokens sch with
             | Some m => if m - batch_num_tokens s <? num_chunked_compute_tokens s then false else fit
             | None => fit end in
  let fit := match ctx_chunk_config sch with
             | Some cfg => if bool_decide (chunking_policy cfg = FORCE_CHUNK) then false else fit
             | None => fit end in
  if negb fit && negb (bool_decide (contexts_to_be_chunked s = [])) then
    match ctx_chunk_config sch with
    | None => Err AssertionError
    | Some cfg =>
        let remaining_capacity := (fun m => m - batch_num_tokens s) <$> max_num_tokens sch in
        rs ← set_ctx_requests_chunk_size (max_context_length sch) cfg (contexts_to_be_chunked s)
               remaining_capacity;
        Ok (rs, fit)
    end
  else Ok (contexts_to_be_chunked s, fit).

(** 4.: the requests that got a chunk join the batch. *)
Definition finalize_chunked (rs : list LlmRequest) : result (list LlmRequest) :=
  sizes ← mapM context_chunk_size rs;
  Ok ((filter (fun p => 0 < p.2) (zip rs sizes)).*1).

Definition schedule (active_requests : list LlmRequest) (inflight : gset Z) : result mb_output :=
  s ← for_loop (schedule_body inflight) mb_init active_requests;
  '(rs, fit) ← apply_chunking s;
  chunked ← finalize_chunked rs;
  '(ctx, gen) ← sort_requests (context_requests s ++ chunked) (generation_requests s) (negb fit);
  Ok (mkMbOutput (sort_by lora_le (encoder_requests s)) ctx gen rs).

End schedule.

(** ** Specification vocabulary *)

Definition enc_cost (r : LlmRequest) : Z := default 0 (opt_encoder_output_len r).
Definition beam_of (r : LlmRequest) : Z :=
  match get_beam_width_by_iter r false with Ok w => w | Err _ => 0 end.
Definition gen_cost (r : LlmRequest) : Z := beam_of r + num_draft_tokens r.

(** The tokens a context request costs in the batch it was put in. *)
Definition batch_ctx_cost (sch : PyMicroBatchScheduler) (r : LlmRequest) : Z :=
  match ctx_chunk_config sch with None => unchunked_compute r | Some _ => ctx_cost r end.

(** Forward-pass tokens of a scheduled batch. *)
Definition batch_cost (sch : PyMicroBatchScheduler) (out : mb_output) : Z :=
  zsum enc_cost (out_encoder out) + zsum (batch_ctx_cost sch) (out_context out)
  + zsum gen_cost (out_generation out).

Definition out_requests (out : mb_output) : list LlmRequest :=
  out_encoder out ++ out_context out ++ out_generation out.

(** A configuration the scheduler accepts. *)
Definition config_ok (sch : PyMicroBatchScheduler) : Prop :=
  exceeds 0 (max_num_tokens sch) = false
  /\ match ctx_chunk_config sch with
     | None => True
     | Some cfg => 0 < chunk_unit_size cfg
         /\ (chunking_policy cfg = FORCE_CHUNK ->
             exceeds (chunk_unit_size cfg) (max_num_tokens sch) = false)
     end.

(** What the scheduler asserts of the requests it does not pass over. *)
Definition admissible (sch : PyMicroBatchScheduler) (r : LlmRequest) : Prop :=
  match state r with
  | ENCODER_INIT => exists n, opt_encoder_output_len r = Some n /\ exceeds n (max_num_tokens sch) = false
  | CONTEXT_INIT => wf_request r
      /\ (ctx_chunk_config sch = None -> exceeds (unchunked_compute r) (max_num_tokens sch) = false)
  | _ => exists w, get_beam_width_by_iter r false = Ok w /\ 1 <= w
  end.

Definition at_last_chunk (r : LlmRequest) : bool := m_context_chunk_size r =? context_remaining_length r.

Definition is_gen_state (s : LlmRequestState) : Prop := s <> ENCODER_INIT /\ s <> CONTEXT_INIT.

(** ** The loop invariant *)

Section invariant.
Context (sch : PyMicroBatchScheduler) (inflight : gset Z).

Definition placed (s : mb_state) : list LlmRequest :=
  encoder_requests s ++ context_requests s ++ generation_requests s ++ contexts_to_be_chunked s.

Record mb_inv (done : list LlmRequest) (s : mb_state) : Prop := {
  inv_tokens : batch_num_tokens s
    = zsum enc_cost (encoder_requests s) + zsum unchunked_compute (context_requests s)
      + zsum gen_cost (generation_requests s);
  inv_budget : exceeds (batch_num_tokens s) (max_num_tokens sch) = false;
  inv_mode : match ctx_chunk_config sch with
    | None => contexts_to_be_chunked s = [] /\ all_context_requests_fit s = true
              /\ num_chunked_compute_tokens s = 0
    | Some _ => context_requests s = [] end;
  inv_chunked : Forall ctx_ok (contexts_to_be_chunked s);
  inv_whole : Forall (fun r => at_last_chunk r = true) (contexts_to_be_chunked s);
  inv_fit : all_context_requests_fit s = true ->
    num_chunked_compute_tokens s = zsum ctx_cost (contexts_to_be_chunked s);
  inv_size : scheduled_req_size s = len (placed s);
  inv_beam : Forall (fun r => beam_of r = scheduled_beam_width s) (generation_requests s)
    /\ (scheduled_beam_width s = 0 -> generation_requests s = []);
  inv_enc : Forall (fun r => state r = ENCODER_INIT) (encoder_requests s);
  inv_ctx : Forall (fun r => state r = CONTEXT_INIT) (context_requests s ++ contexts_to_be_chunked s);
  inv_gen : Forall (fun r => is_gen_state (state r)) (generation_requests s);
  inv_elig : Forall (fun r => passed_over sch inflight r = false) (placed s);
  inv_prov : erase <$> placed s ⊆+ erase <$> done;
}.

Lemma mb_inv_init : exceeds 0 (max_num_tokens sch) = false -> mb_inv [] mb_init.
Proof. intros H. split; simpl; try done; destruct (ctx_chunk_config sch); auto. Qed.

Lemma mb_inv_skip done s r : mb_inv done s -> mb_inv (done ++ [r]) s.
Proof.
  intros []. split; try done. rewrite fmap_app. by apply submseteq_inserts_r.
Qed.

(** The placed requests grow by [r'], which [r] becomes. *)
Lemma placed_grows done s s' r r' :
  placed s' ≡ₚ r' :: placed s -> erase r' = erase r -> mb_inv done s ->
  passed_over sch inflight r' = false ->
  len (placed s') = len (placed s) + 1
  /\ Forall (fun r => passed_over sch inflight r = false) (placed s')
  /\ erase <$> placed s' ⊆+ erase <$> (done ++ [r]).
Proof.
  intros Hp He Hinv Hel. split; [|split].
  - apply Permutation_length in Hp. rewrite Hp. simpl. lia.
  - rewrite Hp. constructor; [done|]. apply Hinv.
  - rewrite Hp, fmap_app, fmap_cons, He. simpl.
    rewrite (Permutation_app_comm (erase <$> done)). simpl.
    apply submseteq_skip. apply Hinv.
Qed.

Lemma mb_inv_encoder done s r n :
  mb_inv done s -> passed_over sch inflight r = false -> state r = ENCODER_INIT ->
  opt_encoder_output_len r = Some n -> exceeds (batch_num_tokens s + n) (max_num_tokens sch) = false ->
  mb_inv (done ++ [r]) (count_request (add_encoder s r n)).
Proof.
  intros Hinv Hel Hst Hn Hb.
  destruct (placed_grows done s (count_request (add_encoder s r n)) r r) as (Hl & Hels & Hpr);
    [unfold placed; simpl; solve_Permutation|done..|].
  destruct Hinv. split; try done; simpl.
  - rewrite zsum_snoc. unfold enc_cost at 2. rewrite Hn. simpl. lia.
  - rewrite Hl. lia.
  - apply Forall_app. by split; [|constructor].
Qed.

Lemma mb_inv_context done s r :
  mb_inv done s -> passed_over sch inflight r = false -> state r = CONTEXT_INIT ->
  ctx_chunk_config sch = None ->
  exceeds (batch_num_tokens s + unchunked_compute r) (max_num_tokens sch) = false ->
  mb_inv (done ++ [r]) (count_request (add_context s r (unchunked_compute r))).
Proof.
  intros Hinv Hel Hst Hcfg Hb.
  destruct (placed_grows done s (count_request (add_context s r (unchunked_compute r))) r r)
    as (Hl & Hels & Hpr); [unfold placed; simpl; solve_Permutation|done..|].
  destruct Hinv. rewrite Hcfg in *. split; try done; simpl; rewrite ?Hcfg; try done.
  - rewrite zsum_snoc. lia.
  - rewrite Hl. lia.
  - rewrite <- app_assoc. apply Forall_app in inv_ctx0 as [? ?].
    apply Forall_app. split; [done|]. by constructor.
Qed.

Lemma mb_inv_chunked done s r n fit :
  mb_inv done s -> passed_over sch inflight r = false -> state r = CONTEXT_INIT ->
  is_Some (ctx_chunk_config sch) -> wf_request r ->
  let r1 := with_chunk r (context_remaining_length r) in
  (fit = true -> all_context_requests_fit s = true /\ n = ctx_cost r1) ->
  mb_inv (done ++ [r]) (count_request (add_chunked s r1 n fit)).
Proof.
  intros Hinv Hel Hst [cfg Hcfg] Hwf r1 Hfit.
  destruct (placed_grows done s (count_request (add_chunked s r1 n fit)) r r1)
    as (Hl & Hels & Hpr); [unfold placed; simpl; solve_Permutation|done..|].
  assert (Hr1 : ctx_ok r1).
  { apply ctx_ok_with_chunk; [split; [|done]|destruct Hwf; lia].
    unfold is_context_init_state. by rewrite Hst. }
  destruct Hinv. rewrite Hcfg in *. split; try done; simpl; rewrite ?Hcfg; try done.
  - apply Forall_app. by split; [|constructor].
  - apply Forall_app. split; [done|]. constructor; [|done]. apply Z.eqb_refl.
  - intros Hf. destruct (Hfit Hf) as [Hs ->]. rewrite zsum_snoc, inv_fit0 by done. lia.
  - rewrite Hl. lia.
  - rewrite app_assoc. apply Forall_app. by split; [|constructor].
Qed.

Lemma mb_inv_generation done s r w :
  mb_inv done s -> passed_over sch inflight r = false -> is_gen_state (state r) ->
  get_beam_width_by_iter r false = Ok w -> w <> 0 ->
  scheduled_beam_width s = 0 \/ scheduled_beam_width s = w ->
  exceeds (batch_num_tokens s + (w + num_draft_tokens r)) (max_num_tokens sch) = false ->
  mb_inv (done ++ [r]) (count_request (add_generation s r (w + num_draft_tokens r) w)).
Proof.
  intros Hinv Hel Hst Hw Hw0 Hbw Hb.
  destruct (placed_grows done s (count_request (add_generation s r (w + num_draft_tokens r) w)) r r)
    as (Hl & Hels & Hpr); [unfold placed; simpl; solve_Permutation|done..|].
  assert (beam_of r = w) by (unfold beam_of; by rewrite Hw).
  destruct Hinv. split; try done; simpl.
  - rewrite zsum_snoc. unfold gen_cost at 2. lia.
  - rewrite Hl. lia.
  - split; [|lia]. apply Forall_app. split; [|by constructor].
    destruct inv_beam0 as [Hall Hnil]. destruct Hbw as [H0|<-]; [|done].
    rewrite (Hnil H0). constructor.
  - apply Forall_app. by split; [|constructor].
Qed.

(** ** One iteration *)

Lemma state_value_eqb r st : (state_value r =? state_val st) = bool_decide (state r = st).
Proof using Type.
  unfold state_value. destruct (bool_decide_reflect (state r = st)) as [->|Hne].
  - apply Z.eqb_refl.
  - apply Z.eqb_neq. by destruct (state r), st.
Qed.

(** The cost charged for a context tentatively scheduled whole. *)
Lemma tentative_cost r :
  reuse_adjusted_compute (m_context_chunk_size r) (reusable_of r) (context_remaining_length r)
  + (if (m_context_chunk_size r =? context_remaining_length r) && has_draft_tokens r
     then num_draft_tokens r else 0) = ctx_cost r.
Proof using Type.
  unfold ctx_cost, ctx_compute, last_drafts, num_draft_tokens.
  by destruct (_ =? _), (has_draft_tokens r).
Qed.

(** What a handler may return from a state that satisfies the invariant. *)
Definition verdict_ok (done : list LlmRequest) (s : mb_state) (r : LlmRequest) (v : verdict) : Prop :=
  match v with
  | Scheduled s' => mb_inv (done ++ [r]) (count_request s')
      /\ scheduled_req_size s' = scheduled_req_size s
  | _ => True
  end.

Lemma dispatch_ok done s r :
  mb_inv done s -> passed_over sch inflight r = false -> admissible sch r ->
  exists v, dispatch sch s r = Ok v /\ verdict_ok done s r v.
Proof.
  intros Hinv Hel Hadm. unfold dispatch. rewrite !state_value_eqb.
  destruct (bool_decide_reflect (state r = ENCODER_INIT)) as [He|He];
    [|destruct (bool_decide_reflect (state r = CONTEXT_INIT)) as [Hc|Hc]].
  - unfold admissible in Hadm. rewrite He in Hadm. destruct Hadm as (n & Hn & Hex).
    unfold schedule_encoder, encoder_output_len, max_context_length. rewrite Hn. simpl.
    rewrite Hex. simpl. destruct (exceeds (_ + n) _) eqn:E; [by exists Stopped|].
    eexists. split; [done|]. split; [by apply mb_inv_encoder|done].
  - unfold admissible in Hadm. rewrite Hc in Hadm. destruct Hadm as [Hwf Hun].
    unfold schedule_context. destruct (ctx_chunk_config sch) as [cfg|] eqn:Ecfg.
    + assert (Hctx : is_context_init_state r = true)
        by (unfold is_context_init_state; by rewrite Hc).
      pose proof Hwf as [? ? ?].
      rewrite set_context_chunk_size_ctx by (done || lia). rewrite Z.min_id. cbn [mbind result_bind].
      set (r1 := with_chunk r (context_remaining_length r)).
      rewrite (is_last_context_chunk_ctx r1 Hctx). cbn [mbind result_bind].
      rewrite (context_chunk_size_ctx r1 Hctx). cbn [mbind result_bind]. cbv zeta.
      change (reusable_of r) with (reusable_of r1). rewrite (tentative_cost r1).
      eexists. split; [done|]. split; [|done]. apply mb_inv_chunked; try done.
      destruct (max_context_length sch) as [m|]; [destruct (m <? ctx_cost r1)|]; done || auto.
    + specialize (Hun eq_refl). unfold max_context_length. rewrite Hun. simpl.
      destruct (exceeds (_ + unchunked_compute r) _) eqn:E; [by exists Stopped|].
      eexists. split; [done|]. split; [by apply mb_inv_context|done].
  - assert (Hg : exists w, get_beam_width_by_iter r false = Ok w /\ 1 <= w)
      by (unfold admissible in Hadm; by destruct (state r)).
    destruct Hg as (w & Hw & Hw1). unfold schedule_generation. rewrite Hw. simpl.
    destruct (exceeds _ _) eqn:E; [by exists Stopped|].
    destruct (scheduled_beam_width s =? 0) eqn:E0; bool_to_prop.
    + eexists. split; [done|]. split; [apply mb_inv_generation; try done; auto; lia|done].
    + destruct (scheduled_beam_width s =? w) eqn:E1; simpl; bool_to_prop; [|by exists Skipped].
      eexists. split; [done|]. rewrite E1.
      split; [apply mb_inv_generation; try done; auto; lia|done].
Qed.

Lemma loop_ok active :
  config_ok sch ->
  Forall (fun r => passed_over sch inflight r = false -> admissible sch r) active ->
  exists done rest s, active = done ++ rest
    /\ for_loop (schedule_body sch inflight) mb_init active = Ok s
    /\ mb_inv done s /\ scheduled_req_size s <= Z.max 1 (max_batch_size sch).
Proof.
  intros [H0 _] Hadm.
  apply (for_loop_rule _
    (fun done s => mb_inv done s /\ scheduled_req_size s < Z.max 1 (max_batch_size sch))
    (fun done s => mb_inv done s /\ scheduled_req_size s <= Z.max 1 (max_batch_size sch))).
  - split; [by apply mb_inv_init|simpl; lia].
  - intros done r rest s -> [Hinv Hsz]. unfold schedule_body.
    apply Forall_app in Hadm as [_ [Hr _]%Forall_cons].
    destruct (passed_over sch inflight r) eqn:Hp.
    + eexists. split; [done|]. split; [by apply mb_inv_skip|done].
    + destruct (dispatch_ok done s r Hinv Hp (Hr eq_refl)) as ([s'| |] & -> & Hv); simpl.
      * destruct Hv as [Hv Hs]. destruct (_ <=? _) eqn:E; bool_to_prop;
          eexists; (split; [done|]); (split; [done|]); simpl; lia.
      * eexists. split; [done|]. split; [by apply mb_inv_skip|done].
      * eexists. split; [done|]. split; [by apply mb_inv_skip|lia].
  - intros s [Hinv Hsz]. split; [done|lia].
Qed.
End invariant.

(** ** After the loop *)

Lemma zip_fmap_filter {A B} (f : A -> B) (P : B -> Prop) `{!forall x, Decision (P x)} (l : list A) :
  (filter (fun p : A * B => P p.2) (zip l (f <$> l))).*1 = filter (fun x => P (f x)) l.
Proof.
  induction l as [|x l IH]; [done|]. simpl. rewrite !filter_cons. simpl.
  case_decide; [simpl; f_equal|]; exact IH.
Qed.

Lemma mapM_pure {A B} (f : A -> result B) (g : A -> B) l :
  (forall x, x ∈ l -> f x = Ok (g x)) -> mapM f l = Ok (g <$> l).
Proof.
  induction l as [|x l IH]; intros H; [done|]. simpl.
  rewrite (H x), IH; [done|..]; set_solver.
Qed.

Lemma finalize_chunked_spec rs :
  Forall ctx_ok rs ->
  finalize_chunked rs = Ok (filter (fun r => 0 < m_context_chunk_size r) rs).
Proof.
  intros Hok. unfold finalize_chunked. rewrite (mapM_pure _ m_context_chunk_size).
  - simpl. by rewrite (zip_fmap_filter m_context_chunk_size (fun n => 0 < n)).
  - rewrite Forall_forall in Hok. intros r Hr. apply context_chunk_size_ctx, Hok, Hr.
Qed.

(** Context requests in their final order: unfinished contexts before those
    at their last chunk when there are chunks, by LoRA task within a group. *)
Definition ordered_contexts (chunks_present : bool) (ctx : list LlmRequest) : list LlmRequest :=
  if chunks_present then
    sort_by lora_le (filter (fun r => at_last_chunk r = false) ctx)
    ++ sort_by lora_le (filter (fun r => at_last_chunk r = true) ctx)
  else sort_by lora_le ctx.

Lemma sort_requests_spec ctx gen b :
  Forall (fun r => state r = CONTEXT_INIT) ctx ->
  sort_requests ctx gen b = Ok (ordered_contexts b ctx, sort_by lora_le gen).
Proof.
  intros Hst. unfold sort_requests, ordered_contexts. destruct b; [|done].
  rewrite (mapM_pure _ at_last_chunk).
  - cbn [mbind result_bind]. cbv zeta.
    do 4 f_equal; [exact (zip_fmap_filter at_last_chunk (fun b => b = false) ctx)
                  |exact (zip_fmap_filter at_last_chunk (fun b => b = true) ctx)].
  - rewrite Forall_forall in Hst. intros r Hr. apply is_last_context_chunk_ctx.
    unfold is_context_init_state. by rewrite (Hst r Hr).
Qed.

Lemma filter_bool_perm {A} (f : A -> bool) l :
  filter (fun x => f x = false) l ++ filter (fun x => f x = true) l ≡ₚ l.
Proof.
  induction l as [|x l IH]; [done|]. rewrite !filter_cons.
  destruct (f x) eqn:E; repeat case_decide; try congruence; simpl.
  - by rewrite <- Permutation_middle, IH.
  - by rewrite IH.
Qed.

Lemma ordered_contexts_perm b ctx : ordered_contexts b ctx ≡ₚ ctx.
Proof.
  unfold ordered_contexts. destruct b; rewrite !sort_by_perm; [|done].
  apply filter_bool_perm.
Qed.

Lemma ctx_cost_nonneg r : wf_request r -> 0 <= ctx_cost r.
Proof.
  intros H. unfold ctx_cost, last_drafts. pose proof (ctx_compute_bounds r H).
  pose proof (num_draft_tokens_nonneg r). split_if; lia.
Qed.

Lemma zsum_filter_le {A} (P : A -> Prop) `{!forall x, Decision (P x)} (f : A -> Z) l :
  (forall x, x ∈ l -> 0 <= f x) -> zsum f (filter P l) <= zsum f l.
Proof.
  intros Hf. rewrite zsum_filter. apply zsum_le. intros x Hx. specialize (Hf x Hx). case_decide; lia.
Qed.

(** The contract of [schedule]. *)
Record mb_spec (sch : PyMicroBatchScheduler) (inflight : gset Z) (active : list LlmRequest)
    (out : mb_output) : Prop := {
  spec_tokens : exceeds (batch_cost sch out) (max_num_tokens sch) = false;
  spec_size : len (out_requests out) <= Z.max 1 (max_batch_size sch);
  spec_beam : exists w, Forall (fun r => beam_of r = w) (out_generation out);
  spec_enc : Forall (fun r => state r = ENCODER_INIT) (out_encoder out);
  spec_ctx : Forall (fun r => state r = CONTEXT_INIT) (out_context out);
  spec_gen : Forall (fun r => is_gen_state (state r)) (out_generation out);
  spec_elig : Forall (fun r => passed_over sch inflight r = false) (out_requests out);
  spec_prov : erase <$> out_requests out ⊆+ erase <$> active;
  spec_chunk : is_Some (ctx_chunk_config sch) ->
    Forall (fun r => ctx_ok r /\ 0 < m_context_chunk_size r) (out_context out);
}.

Section spec.
Context (sch : PyMicroBatchScheduler) (inflight : gset Z).
Context (Hcfg : config_ok sch).

Record chunking_done (s : mb_state) (rs : list LlmRequest) (fit : bool) : Prop := {
  chd_same : Forall2 rechunked (contexts_to_be_chunked s) rs;
  chd_ok : Forall ctx_ok rs;
  chd_budget : exceeds (batch_num_tokens s + zsum ctx_cost rs) (max_num_tokens sch) = false;
  chd_whole : fit = true -> Forall (fun r => at_last_chunk r = true) rs;
}.

Lemma apply_chunking_spec done s :
  mb_inv sch inflight done s ->
  exists rs fit, apply_chunking sch s = Ok (rs, fit) /\ chunking_done s rs fit.
Proof using Hcfg.
  intros Hinv. destruct Hcfg as [H0 Hunit]. pose proof (inv_budget _ _ _ _ Hinv) as Hbud.
  pose proof (inv_mode _ _ _ _ Hinv) as Hmode. unfold apply_chunking.
  set (fit1 := match max_num_tokens sch with Some m => _ | None => _ end).
  set (fit2 := match ctx_chunk_config sch with Some cfg => _ | None => fit1 end).
  assert (Hkeep : fit2 = true \/ contexts_to_be_chunked s = [] ->
    exists rs fit, Ok (contexts_to_be_chunked s, fit2) = Ok (rs, fit) /\ chunking_done s rs fit).
  { intros Hk. eexists _, _. split; [done|].
    split; [by apply Forall_Forall2_diag, Forall_true|apply Hinv| |intros _; apply Hinv].
    destruct Hk as [Hf| ->]; [|by rewrite zsum_nil, Z.add_0_r].
    assert (Hf1 : fit1 = true) by (subst fit2; destruct (ctx_chunk_config sch); [by split_if|done]).
    subst fit1. pose proof (inv_fit _ _ _ _ Hinv) as Hfit.
    destruct (max_num_tokens sch); simpl in *; [|done].
    split_if; [done|]. rewrite <- Hfit by done. bool_to_prop. apply Z.ltb_ge. lia. }
  destruct (negb fit2 && _) eqn:Eb.
  - destruct (ctx_chunk_config sch) as [cfg|] eqn:Ec; simpl in *.
    + destruct Hunit as [Hu Hf].
      destruct (set_ctx_requests_chunk_size_spec cfg (max_context_length sch)
                  ((fun m => m - batch_num_tokens s) <$> max_num_tokens sch)
                  (contexts_to_be_chunked s)) as (rs & -> & Hre & Hok & _ & Hc).
      { unfold policy_ok, max_context_length. split; [done|]. split; [|done].
        destruct (max_num_tokens sch); simpl in *; [|done]. bool_to_prop. apply Z.ltb_ge. lia. }
      { apply Hinv. }
      simpl. eexists _, _. split; [done|]. split; [done|done| |].
      2: { apply andb_prop in Eb as [Eb _]. bool_to_prop. by rewrite Eb. }
      destruct (max_num_tokens sch); simpl in *; [|done]. bool_to_prop. apply Z.ltb_ge. lia.
    + destruct Hmode as [Hnil _]. rewrite Hnil in Eb. simpl in Eb.
      by rewrite andb_false_r in Eb.
  - apply Hkeep. apply andb_false_iff in Eb as [Eb|Eb]; bool_to_prop; auto.
Qed.

Lemma passed_over_erase r r' :
  erase r' = erase r -> passed_over sch inflight r' = passed_over sch inflight r.
Proof using Type.
  intros H. change (passed_over sch inflight (erase r') = passed_over sch inflight (erase r)).
  by rewrite H.
Qed.

Lemma rechunked_erase rs rs' : Forall2 rechunked rs rs' -> erase <$> rs' = erase <$> rs.
Proof using Type. induction 1 as [|???? [He _] _ IH]; [done|]. rewrite !fmap_cons. by rewrite He, IH. Qed.

Lemma Forall_erase (P : LlmRequest -> Prop) rs rs' :
  (forall r r', erase r' = erase r -> P r -> P r') ->
  Forall2 rechunked rs rs' -> Forall P rs -> Forall P rs'.
Proof using Type.
  intros HP. induction 1 as [|???? [He _] _ IH]; [done|]. rewrite !Forall_cons. intros []. eauto.
Qed.

(** The result, given the state [s] the loop ends in and the requests [rs]
    that chunking makes of [contexts_to_be_chunked s]. *)
Definition assemble (s : mb_state) (rs : list LlmRequest) (fit : bool) : mb_output :=
  mkMbOutput (sort_by lora_le (encoder_requests s))
    (ordered_contexts (negb fit)
       (context_requests s ++ filter (fun r => 0 < m_context_chunk_size r) rs))
    (sort_by lora_le (generation_requests s)) rs.

Record assembled (active done rest : list LlmRequest) (s : mb_state) (rs : list LlmRequest)
    (fit : bool) : Prop := {
  asm_split : active = done ++ rest;
  asm_inv : mb_inv sch inflight done s;
  asm_size : scheduled_req_size s <= Z.max 1 (max_batch_size sch);
  asm_chunked : chunking_done s rs fit;
}.

Lemma chunked_contexts s rs :
  Forall2 rechunked (contexts_to_be_chunked s) rs ->
  Forall (fun r => state r = CONTEXT_INIT) (context_requests s ++ contexts_to_be_chunked s) ->
  Forall (fun r => state r = CONTEXT_INIT)
    (context_requests s ++ filter (fun r => 0 < m_context_chunk_size r) rs).
Proof using Type.
  rewrite !Forall_app. intros Hre [? Hc]. split; [done|]. apply Forall_filter_sub.
  eapply Forall_erase; [|exact Hre|exact Hc]. intros r r' He Hr. by rewrite (erase_state r r' He).
Qed.

Lemma schedule_assembles active :
  Forall (fun r => passed_over sch inflight r = false -> admissible sch r) active ->
  exists done rest s rs fit, schedule sch active inflight = Ok (assemble s rs fit)
    /\ assembled active done rest s rs fit.
Proof using Hcfg.
  intros Hadm. unfold schedule.
  destruct (loop_ok sch inflight active Hcfg Hadm) as (done & rest & s & -> & -> & Hinv & Hsz).
  cbn [mbind result_bind].
  destruct (apply_chunking_spec done s Hinv) as (rs & fit & -> & Hch).
  cbn [mbind result_bind]. rewrite (finalize_chunked_spec rs) by apply Hch. cbn [mbind result_bind].
  rewrite sort_requests_spec by (apply chunked_contexts; [apply Hch|apply Hinv]).
  exists done, rest, s, rs, fit. done.
Qed.

Section assembled.
Context {active done rest s rs fit} (H : assembled active done rest s rs fit).
Let out := assemble s rs fit.
Let chunked := filter (fun r => 0 < m_context_chunk_size r) rs.

Lemma out_requests_perm :
  out_requests out
  ≡ₚ encoder_requests s ++ context_requests s ++ generation_requests s ++ chunked.
Proof using Type.
  unfold out_requests, out. simpl. rewrite !sort_by_perm, ordered_contexts_perm.
  fold chunked. solve_Permutation.
Qed.

Lemma out_requests_placed : erase <$> out_requests out ⊆+ erase <$> placed s.
Proof using H.
  rewrite out_requests_perm. unfold placed. destruct H as [_ _ _ [Hre _ _ _]].
  rewrite !fmap_app, <- (rechunked_erase _ _ Hre).
  repeat apply submseteq_skips_l. apply fmap_submseteq, sublist_submseteq, sublist_filter.
Qed.

Lemma assembled_within_budget : exceeds (batch_cost sch out) (max_num_tokens sch) = false.
Proof using H.
  destruct H as [_ Hinv _ [Hre Hok Hbud _]].
  unfold batch_cost, out. simpl. rewrite !sort_by_perm, ordered_contexts_perm, zsum_app. fold chunked.
  pose proof (inv_tokens _ _ _ _ Hinv) as Ht. pose proof (inv_mode _ _ _ _ Hinv) as Hm.
  assert (Hcl : zsum ctx_cost chunked <= zsum ctx_cost rs).
  { apply zsum_filter_le. intros r Hr. rewrite Forall_forall in Hok.
    apply ctx_cost_nonneg, Hok, Hr. }
  eapply exceeds_mono; [|exact Hbud]. rewrite Ht. unfold batch_ctx_cost.
  destruct (ctx_chunk_config sch).
  - rewrite Hm, !zsum_nil.
    change (zsum (fun r => ctx_cost r) chunked) with (zsum ctx_cost chunked). lia.
  - destruct Hm as (Hnil & _). rewrite Hnil in Hre. apply Forall2_nil_inv_l in Hre.
    subst chunked. clear Hbud Hcl. subst rs. rewrite filter_nil, !zsum_nil.
    change (zsum (fun r => unchunked_compute r) (context_requests s))
      with (zsum unchunked_compute (context_requests s)). lia.
Qed.

Lemma assembled_eligible : Forall (fun r => passed_over sch inflight r = false) (out_requests out).
Proof using H.
  destruct H as [_ Hinv _ [Hre _ _ _]].
  rewrite out_requests_perm. pose proof (inv_elig _ _ _ _ Hinv) as He. unfold placed in He.
  rewrite !Forall_app in *. destruct He as (? & ? & ? & Hc). repeat (split; [done|]).
  apply Forall_filter_sub. eapply Forall_erase; [|exact Hre|exact Hc].
  intros r r' Hr. by rewrite (passed_over_erase r r' Hr).
Qed.

Lemma assembled_chunks :
  is_Some (ctx_chunk_config sch) ->
  Forall (fun r => ctx_ok r /\ 0 < m_context_chunk_size r) (out_context out).
Proof using H.
  destruct H as [_ Hinv _ [_ Hok _ _]].
  intros [cfg Hc]. unfold out. simpl. rewrite ordered_contexts_perm.
  pose proof (inv_mode _ _ _ _ Hinv) as Hm. rewrite Hc in Hm. rewrite Hm. simpl.
  apply Forall_forall. intros r Hr. apply list_elem_of_filter in Hr as [? Hr].
  split; [|done]. rewrite Forall_forall in Hok. by apply Hok.
Qed.

Lemma assembled_spec : mb_spec sch inflight active out.
Proof using H.
  pose proof out_requests_placed as Hsub.
  split; try first [apply assembled_within_budget|apply assembled_eligible|apply assembled_chunks];
    destruct H as [-> Hinv Hsz [Hre Hok Hbud _]]; unfold out; simpl.
  - apply submseteq_length in Hsub. rewrite !length_fmap in Hsub.
    pose proof (inv_size _ _ _ _ Hinv). fold out. lia.
  - exists (scheduled_beam_width s). rewrite sort_by_perm. apply Hinv.
  - rewrite sort_by_perm. apply Hinv.
  - rewrite ordered_contexts_perm. apply chunked_contexts; [done|apply Hinv].
  - rewrite sort_by_perm. apply Hinv.
  - etrans; [exact Hsub|]. etrans; [apply Hinv|]. rewrite fmap_app. by apply submseteq_inserts_r.
Qed.
End assembled.

Lemma schedule_spec active :
  Forall (fun r => passed_over sch inflight r = false -> admissible sch r) active ->
  exists out, schedule sch active inflight = Ok out /\ mb_spec sch inflight active out.
Proof using Hcfg.
  intros (done & rest & s & rs & fit & -> & Hasm)%schedule_assembles.
  eexists. split; [done|]. by eapply assembled_spec.
Qed.
End spec.

(** ** The order of the batch *)

Lemma pair_le_trans a b c : pair_le a b = true -> pair_le b c = true -> pair_le a c = true.
Proof.
  unfold pair_le. rewrite !orb_true_iff, !andb_true_iff, !Z.ltb_lt, !Z.eqb_eq, !Z.leb_le. lia.
Qed.

Lemma pair_le_total a b : pair_le a b = true \/ pair_le b a = true.
Proof.
  unfold pair_le. rewrite !orb_true_iff, !andb_true_iff, !Z.ltb_lt, !Z.eqb_eq, !Z.leb_le. lia.
Qed.

Definition lora_sorted : list LlmRequest -> Prop := StronglySorted (fun r q => lora_le r q = true).

Lemma lora_sort_sorted l : lora_sorted (sort_by lora_le l).
Proof.
  apply sort_by_sorted.
  - intros ???. apply pair_le_trans.
  - intros ??. apply pair_le_total.
Qed.

Lemma ordered_contexts_sorted b ctx :
  (b = false -> Forall (fun r => at_last_chunk r = true) ctx) ->
  exists unfinished last, ordered_contexts b ctx = unfinished ++ last
    /\ lora_sorted unfinished /\ lora_sorted last
    /\ Forall (fun r => at_last_chunk r = false) unfinished
    /\ Forall (fun r => at_last_chunk r = true) last.
Proof.
  intros Hb. unfold ordered_contexts. destruct b.
  - eexists _, _. split; [done|]. split; [apply lora_sort_sorted|]. split; [apply lora_sort_sorted|].
    rewrite !sort_by_perm. split; apply Forall_forall; by intros r [? _]%list_elem_of_filter.
  - exists [], (sort_by lora_le ctx). split; [done|]. split; [constructor|].
    split; [apply lora_sort_sorted|]. split; [done|]. rewrite sort_by_perm. auto.
Qed.

Lemma NoDup_erase_ids rs rs' :
  erase <$> rs' ⊆+ erase <$> rs -> NoDup (request_id <$> rs) -> NoDup (request_id <$> rs').
Proof.
  intros Hs. assert (Hf : forall l, request_id <$> l = request_id <$> (erase <$> l))
    by (intros l; rewrite <- list_fmap_compose; done).
  rewrite (Hf rs), (Hf rs'). intros Hnd. eapply NoDup_contained; [apply fmap_submseteq, Hs|done].
Qed.

(** With chunking, the contexts come in two runs, each sorted by LoRA task. *)
Lemma schedule_context_runs sch inflight active :
  config_ok sch -> is_Some (ctx_chunk_config sch) ->
  Forall (fun r => passed_over sch inflight r = false -> admissible sch r) active ->
  exists out unfinished last, schedule sch active inflight = Ok out
    /\ mb_spec sch inflight active out
    /\ out_context out = unfinished ++ last
    /\ Forall (fun r => at_last_chunk r = false) unfinished
    /\ Forall (fun r => at_last_chunk r = true) last
    /\ Forall lora_sorted [out_encoder out; unfinished; last; out_generation out].
Proof.
  intros Hcfg [cfg Hs] (done & rest & s & rs & fit & -> & Hasm)%(schedule_assembles sch inflight Hcfg).
  pose proof Hasm as [_ Hinv _ Hch]. pose proof (inv_mode _ _ _ _ Hinv) as Hm. rewrite Hs in Hm.
  destruct (ordered_contexts_sorted (negb fit)
    (context_requests s ++ filter (fun r => 0 < m_context_chunk_size r) rs))
    as (unf & last & Heq & Hu & Hl & Hlu & Hll).
  { intros Hf%negb_false_iff. rewrite Hm. by apply Forall_filter_sub, (chd_whole _ _ _ _ Hch). }
  eexists _, unf, last. split; [done|]. split; [by eapply assembled_spec|].
  split; [exact Heq|]. split; [done|]. split; [done|].
  repeat constructor; simpl; try done; apply lora_sort_sorted.
Qed.

(** *** Properties *)

(** The micro-batch scheduler never raises on admissible requests, and the
    batch it forms stays within the token budget [max_num_tokens] (encoder
    tokens, context compute tokens after reuse and chunking, beams and draft
    tokens together) and within [max_batch_size] requests. *)
Theorem schedule_within_budget sch inflight active :
  config_ok sch ->
  Forall (fun r => passed_over sch inflight r = false -> admissible sch r) active ->
  exists out, schedule sch active inflight = Ok out
    /\ exceeds (batch_cost sch out) (max_num_tokens sch) = false
    /\ len (out_requests out) <= Z.max 1 (max_batch_size sch).
Proof.
  intros Hcfg (out & -> & [])%(schedule_spec sch inflight Hcfg). eauto.
Qed.

(** Every request lands in the list its state calls for, all generation
    requests of a batch have one beam width, and with chunking every scheduled
    context has a non-empty chunk no longer than what is left of its prompt. *)
Theorem schedule_groups sch inflight active :
  config_ok sch ->
  Forall (fun r => passed_over sch inflight r = false -> admissible sch r) active ->
  exists out w, schedule sch active inflight = Ok out
    /\ Forall (fun r => state r = ENCODER_INIT) (out_encoder out)
    /\ Forall (fun r => state r = CONTEXT_INIT) (out_context out)
    /\ Forall (fun r => is_gen_state (state r) /\ beam_of r = w) (out_generation out)
    /\ (is_Some (ctx_chunk_config sch) ->
        Forall (fun r => 0 < m_context_chunk_size r <= context_remaining_length r) (out_context out)).
Proof.
  intros Hcfg (out & -> & [_ _ [w Hw] He Hc Hg _ _ Hch])%(schedule_spec sch inflight Hcfg).
  exists out, w. split; [done|]. split; [done|]. split; [done|].
  split; [by apply Forall_and|]. intros Hs. eapply Forall_impl; [exact (Hch Hs)|].
  intros r [[_ []] ?]. lia.
Qed.

(** The batch is made of the active requests, none twice, none in flight
    and each in a schedulable state; scheduling changes nothing of a request
    but its chunk size and draft tokens. *)
Theorem schedule_provenance sch inflight active :
  config_ok sch ->
  Forall (fun r => passed_over sch inflight r = false -> admissible sch r) active ->
  NoDup (request_id <$> active) ->
  exists out, schedule sch active inflight = Ok out
    /\ erase <$> out_requests out ⊆+ erase <$> active
    /\ NoDup (request_id <$> out_requests out)
    /\ Forall (fun r => (request_id r ∉ inflight) /\ mb_can_be_scheduled sch r = true) (out_requests out).
Proof.
  intros Hcfg (out & -> & [_ _ _ _ _ _ Hel Hpr _])%(schedule_spec sch inflight Hcfg) Hnd.
  exists out. split; [done|]. split; [done|]. split; [by eapply NoDup_erase_ids|].
  eapply Forall_impl; [exact Hel|]. intros r Hr. unfold passed_over in Hr.
  apply orb_false_elim in Hr as [[Hi Hw]%orb_false_elim Hr]. bool_to_prop.
  split; [done|]. unfold mb_can_be_scheduled. by rewrite Hw.
Qed.

(** With chunking, the context requests of the batch come in two runs:
    those with prompt left after this step, then those at their last chunk,
    and each run, like the encoder and generation requests, is sorted by LoRA
    task. *)
Theorem schedule_order sch inflight active :
  config_ok sch -> is_Some (ctx_chunk_config sch) ->
  Forall (fun r => passed_over sch inflight r = false -> admissible sch r) active ->
  exists out unfinished last, schedule sch active inflight = Ok out
    /\ out_context out = unfinished ++ last
    /\ Forall (fun r => at_last_chunk r = false) unfinished
    /\ Forall (fun r => at_last_chunk r = true) last
    /\ Forall lora_sorted [out_encoder out; unfinished; last; out_generation out].
Proof.
  intros Hcfg Hs Hadm.
  destruct (schedule_context_runs sch inflight active Hcfg Hs Hadm) as (out & u & l & ? & _ & ?).
  by exists out, u, l.
Qed.

(** *** Witnesses *)

Definition wit_active : list LlmRequest :=
  [new_request 3 GENERATION_IN_PROGRESS 20 [5]; new_request 4 GENERATION_COMPLETE 20 [];
   new_request 1 CONTEXT_INIT 100 []; new_request 2 CONTEXT_INIT 30 [7; 8; 9]].
Definition wit_scheduler : PyMicroBatchScheduler :=
  mkMicroBatch 8 (Some 64) (Some (wit_config FIRST_COME_FIRST_SERVED)) CONTEXT_INIT GENERATION_TO_COMPLETE.

Lemma wit_config_ok : config_ok wit_scheduler.
Proof. by repeat split. Qed.

Lemma wit_admissible :
  Forall (fun r => passed_over wit_scheduler ∅ r = false -> admissible wit_scheduler r) wit_active.
Proof.
  repeat apply Forall_cons_2; try apply Forall_nil_2; intros Hp; unfold admissible; simpl.
  - exists 1. split; [reflexivity|lia].
  - vm_compute in Hp. discriminate.
  - split; [by apply wf_new_request|done].
  - split; [by apply wf_new_request|done].
Qed.

Lemma schedule_within_budget_witness :
  exists out, schedule wit_scheduler wit_active ∅ = Ok out
    /\ exceeds (batch_cost wit_scheduler out) (Some 64) = false
    /\ len (out_requests out) <= 8.
Proof.
  apply (schedule_within_budget wit_scheduler ∅ wit_active).
  - apply wit_config_ok.
  - apply wit_admissible.
Defined.

Lemma schedule_groups_witness :
  exists out w, schedule wit_scheduler wit_active ∅ = Ok out
    /\ Forall (fun r => state r = ENCODER_INIT) (out_encoder out)
    /\ Forall (fun r => state r = CONTEXT_INIT) (out_context out)
    /\ Forall (fun r => is_gen_state (state r) /\ beam_of r = w) (out_generation out)
    /\ (is_Some (ctx_chunk_config wit_scheduler) ->
        Forall (fun r => 0 < m_context_chunk_size r <= context_remaining_length r) (out_context out)).
Proof.
  apply (schedule_groups wit_scheduler ∅ wit_active).
  - apply wit_config_ok.
  - apply wit_admissible.
Defined.

Lemma schedule_provenance_witness :
  exists out, schedule wit_scheduler wit_active ∅ = Ok out
    /\ erase <$> out_requests out ⊆+ erase <$> wit_active
    /\ NoDup (request_id <$> out_requests out)
    /\ Forall (fun r => (request_id r ∉ (∅ : gset Z)) /\ mb_can_be_scheduled wit_scheduler r = true)
         (out_requests out).
Proof.
  apply (schedule_provenance wit_scheduler ∅ wit_active).
  - apply wit_config_ok.
  - apply wit_admissible.
  - apply (bool_decide_unpack _). vm_compute. exact I.
Defined.

Lemma schedule_order_witness :
  exists out unfinished last, schedule wit_scheduler wit_active ∅ = Ok out
    /\ out_context out = unfinished ++ last
    /\ Forall (fun r => at_last_chunk r = false) unfinished
    /\ Forall (fun r => at_last_chunk r = true) last
    /\ Forall lora_sorted [out_encoder out; unfinished; last; out_generation out].
Proof.
  apply (schedule_order wit_scheduler ∅ wit_active).
  - apply wit_config_ok.
  - by eexists.
  - apply wit_admissible.
Defined.

(** The scheduled batch of the witness, evaluated: request 4 is complete and
    left out, request 1 gets the whole remaining budget rounded down to units. *)
Example wit_schedule_eval :
  (fun out => (request_id <$> out_generation out,
               (fun r => (request_id r, m_context_chunk_size r)) <$> out_context out))
    <$> schedule wit_scheduler wit_active ∅ = Ok ([3], [(1, 48)]).
Proof. vm_compute. reflexivity. Qed.
