(* ===== verification/Capacity.v ===== *)
(** * The capacity scheduler

    [PyCapacityScheduler] of
    [tensorrt_llm/_torch/pyexecutor/scheduler/scheduler.py] with its policies:
    which active requests fit in memory (KV blocks of the self and cross pools,
    LoRA pages) and which started requests must be paused for them.

    The KV-cache manager is the interface [KvCacheManager]: the operations the
    policies call, on an abstract manager state.  [KvCacheLaws] states what the
    policies rely on; KvPool.v gives the C++ pool as an instance of both.

    The two block queries of the manager write the request's
    [estimated_reusable_tokens]: they return the number of blocks and the
    estimate, and the policies thread the updated request.  A request that ends
    up neither scheduled nor paused is not returned by the policies, so its new
    estimate is dropped; the manager rewrites it before anything reads it. *)

From stdpp Require Import prelude gmap sorting.
From S2P Require Import Prelude Request MicroBatch.
Local Open Scope Z_scope.

(** ** The KV-cache manager interface *)

(** A block key only ever serves as a member of a set: an integer names it. *)
Definition BlockKey : Type := Z.

Record PrefixReuseSummary := mkPrefixReuse {
  reusable_blocks_allocated : Z;
  reusable_blocks_all : Z;
  reusable_tokens : Z;
  first_new_block : option BlockKey;
}.

(** Python dicts from window sizes to block counts, in insertion order. *)
Definition window_blocks : Type := list (Z * Z).

Class KvCacheManager (M : Type) := {
  (** [get_kv_cache_stats().num_free_blocks_per_window_size] *)
  kv_num_free_blocks_per_window_size : M -> window_blocks;
  kv_max_attention_window_vec : M -> list Z;
  kv_is_variable_window : M -> bool;
  kv_enable_block_reuse : M -> bool;
  (** what [inspect.signature] says of the two queries: [None] when it raises,
      otherwise whether they take [cached_summary] *)
  kv_signature : M -> option bool;
  (** blocks, and the estimate written on the request *)
  kv_get_remaining_blocks_to_completion :
    M -> LlmRequest -> Z -> option PrefixReuseSummary -> result (Z * Z);
  kv_get_needed_blocks_one_step :
    M -> LlmRequest -> bool -> Z -> option PrefixReuseSummary -> result (Z * Z);
  kv_analyze_prefix_reuse : M -> list Z -> LlmRequest -> PrefixReuseSummary;
  kv_start_scheduling : M -> M;
  kv_scheduling_has_free_blocks : M -> Z -> Z -> result bool;
  kv_scheduling_remove_sequence : M -> Z -> result M;
}.

(** The PEFT (LoRA) cache manager. *)
Record PeftCacheManager := mkPeft {
  max_device_pages : Z;
  determine_num_pages : LlmRequest -> Z;
}.

Inductive CapacitySchedulerPolicy := MAX_UTILIZATION | GUARANTEED_NO_EVICT | STATIC_BATCH.

Record PyCapacityScheduler (M : Type) := mkCapacity {
  max_num_requests : Z;
  kv_cache_manager : option M;
  peft_cache_manager : option PeftCacheManager;
  scheduler_policy : CapacitySchedulerPolicy;
  cross_kv_cache_manager : option M;
  two_step_lookahead : bool;
  no_schedule_until_state : LlmRequestState;
  no_schedule_after_state : LlmRequestState;
}.
Arguments mkCapacity {_} _ _ _ _ _ _ _ _.
Arguments max_num_requests {_} _.
Arguments kv_cache_manager {_} _.
Arguments peft_cache_manager {_} _.
Arguments scheduler_policy {_} _.
Arguments cross_kv_cache_manager {_} _.
Arguments two_step_lookahead {_} _.
Arguments no_schedule_until_state {_} _.
Arguments no_schedule_after_state {_} _.

Inductive SchedulerPolicy :=
  | MaxRequestsPolicy
  | MaxUtilizationPolicy
  | GuaranteedNoEvictPolicy (static_batch : bool).

(** [_call_with_optional_summary] *)
Definition call_with_optional_summary {A} (signature : option bool)
    (fn : option PrefixReuseSummary -> A) (cached_summary : option PrefixReuseSummary) : A :=
  match cached_summary with
  | None => fn None
  | Some s =>
      match signature with
      | None => fn (Some s)
      | Some false => fn None
      | Some true => fn (Some s)
      end
  end.

(** [d[k] = v] on a dict in insertion order *)
Fixpoint dict_set (d : window_blocks) (k v : Z) : window_blocks :=
  match d with
  | [] => [(k, v)]
  | (k', v') :: d' => if k' =? k then (k', v) :: d' else (k', v') :: dict_set d' k v
  end.

Section capacity.
Context {M : Type} `{KvCacheManager M}.

(** ** Blocks reserved to completion *)

(** [NoEvictScheduledBlocksManager.__init__] *)
Definition no_evict_blocks (m : M) : window_blocks := kv_num_free_blocks_per_window_size m.

Definition decrement_reserved_blocks (m : M) (available : window_blocks) (r : LlmRequest)
    (cached_summary : option PrefixReuseSummary) : result (window_blocks * LlmRequest) :=
  for_each (fun '(acc, r) '(window_size, avail) =>
      '(needed, e) ← call_with_optional_summary (kv_signature m)
                       (kv_get_remaining_blocks_to_completion m r window_size) cached_summary;
      Ok (acc ++ [(window_size, avail - needed)], with_reusable r e))
    ([], r) available.

(** [all(...)] stops at the first window that is short of blocks. *)
Definition enough_available_blocks (m : M) (available : window_blocks) (r : LlmRequest)
    (cached_summary : option PrefixReuseSummary) : result (bool * LlmRequest) :=
  for_loop (fun '(_, r) '(window_size, avail) =>
      '(needed, e) ← call_with_optional_summary (kv_signature m)
                       (kv_get_remaining_blocks_to_completion m r window_size) cached_summary;
      if needed <=? avail then Ok (Continue (true, with_reusable r e))
      else Ok (Break (false, with_reusable r e)))
    (true, r) available.

(** ** Blocks scheduled for one step *)

(** [MaxUtilizationScheduledBlocksManager.__init__]; the order in which Python
    walks the set of windows is not specified. *)
Definition max_utilization_blocks (m : M) : window_blocks :=
  (fun ws => (ws, 0)) <$> remove_dups (kv_max_attention_window_vec m).

Definition prepare_blocks_if_schedulable (m : M) (two_steps_look_ahead : bool)
    (num_scheduled_blocks : window_blocks) (r : LlmRequest)
    (cached_summary : option PrefixReuseSummary) : result (option window_blocks * LlmRequest) :=
  for_loop (fun '(acc, r) '(window_size, num_scheduled) =>
      '(required, e) ← call_with_optional_summary (kv_signature m)
                         (kv_get_needed_blocks_one_step m r two_steps_look_ahead window_size)
                         cached_summary;
      let r := with_reusable r e in
      let scheduled_total := num_scheduled + required in
      has_free ← kv_scheduling_has_free_blocks m scheduled_total window_size;
      if negb has_free
      then Ok (Break (None, r))
      else Ok (Continue ((fun d => dict_set d window_size scheduled_total) <$> acc, r)))
    (Some [], r) num_scheduled_blocks.

Definition update_scheduled_blocks (num_scheduled_blocks blocks : window_blocks)
    : result window_blocks :=
  _ ← py_assert (len blocks =? len num_scheduled_blocks);
  Ok (foldl (fun d '(window_size, n) => dict_set d window_size n) num_scheduled_blocks blocks).

(** ** The scheduler's helpers *)

Definition create_policy (sch : PyCapacityScheduler M) : SchedulerPolicy :=
  match kv_cache_manager sch with
  | None => MaxRequestsPolicy
  | Some _ =>
      match scheduler_policy sch with
      | MAX_UTILIZATION => MaxUtilizationPolicy
      | GUARANTEED_NO_EVICT => GuaranteedNoEvictPolicy false
      | STATIC_BATCH => GuaranteedNoEvictPolicy true
      end
  end.

Definition can_be_scheduled (sch : PyCapacityScheduler M) (r : LlmRequest) : bool :=
  if is_decoder_context_request_waiting_for_encoder_output r then false
  else state_in_range (no_schedule_until_state sch) (no_schedule_after_state sch) r.

Definition can_be_scheduled_with_disagg_exception (sch : PyCapacityScheduler M) (r : LlmRequest) : bool :=
  if is_disagg_generation_init_state r then true else can_be_scheduled sch r.

Definition is_skipping_relevant (sch : PyCapacityScheduler M) : bool :=
  match kv_cache_manager sch with
  | None => false
  | Some m =>
      if kv_is_variable_window m then false
      else match cross_kv_cache_manager sch with
           | Some xm => negb (kv_is_variable_window xm)
           | None => true
           end
  end.

Definition get_max_peft_pages (sch : PyCapacityScheduler M) : Z :=
  match peft_cache_manager sch with None => 2 ^ 31 - 1 | Some p => max_device_pages p end.

Definition get_peft_pages_for_request (sch : PyCapacityScheduler M) (r : LlmRequest) : Z :=
  match peft_cache_manager sch with None => 0 | Some p => determine_num_pages p r end.

Definition get_peft_task_info (sch : PyCapacityScheduler M) (r : LlmRequest) (seen_task_ids : gset Z)
    : option Z * bool * Z :=
  let is_new_task := match lora_task_id r with
                     | None => false
                     | Some i => bool_decide (i ∉ seen_task_ids) end in
  let required_pages := if is_new_task then get_peft_pages_for_request sch r else 0 in
  (lora_task_id r, is_new_task, required_pages).

(** [if is_new_task: seen_task_ids.add(lora_task_id)] *)
Definition note_task (is_new_task : bool) (task : option Z) (seen_task_ids : gset Z) : gset Z :=
  match is_new_task, task with
  | true, Some i => {[i]} ∪ seen_task_ids
  | _, _ => seen_task_ids
  end.

(** *** Prefix reuse: blocks about to be contributed *)

Definition add_first_new (s : PrefixReuseSummary) (blocks : gset BlockKey) : gset BlockKey :=
  match first_new_block s with Some b => {[b]} ∪ blocks | None => blocks end.

Definition prefill_contributed_blocks (m xm : option M)
    (active_requests : list LlmRequest) : gset BlockKey * gset BlockKey :=
  match m with
  | None => (∅, ∅)
  | Some m =>
      let cross_enable_reuse := match xm with Some xm => kv_enable_block_reuse xm | None => false end in
      foldl (fun '(ctx, cross) r =>
          if is_context_init_state r && negb (is_first_context_chunk r) then
            let ctx' := if kv_enable_block_reuse m
                        then add_first_new (kv_analyze_prefix_reuse m (unique_tokens r) r) ctx
                        else ctx in
            let cross' :=
              match xm, encoder_unique_tokens r with
              | Some xm, Some toks =>
                  if cross_enable_reuse
                  then add_first_new (kv_analyze_prefix_reuse xm toks r) cross else cross
              | _, _ => cross
              end in
            (ctx', cross')
          else (ctx, cross))
        (∅, ∅) active_requests
  end.

(** The sets and caches [_beneficial_to_skip] reads and writes; a cache is
    [None] when the caller passes none. *)
Record skip_state := mkSkip {
  contributed : gset BlockKey;
  cross_contributed : gset BlockKey;
  summary_by_req : option (gmap Z PrefixReuseSummary);
  cross_summary_by_req : option (gmap Z PrefixReuseSummary);
}.

Definition cached (cache : option (gmap Z PrefixReuseSummary)) (id : Z) : option PrefixReuseSummary :=
  cache ≫= fun c => c !! id.

Definition remember (cache : option (gmap Z PrefixReuseSummary)) (id : Z) (s : PrefixReuseSummary)
    : option (gmap Z PrefixReuseSummary) :=
  (fun c => <[id := s]> c) <$> cache.

(** The summary one manager has for the request, and the cache after the query. *)
Definition lookup_summary (m : M) (cache : option (gmap Z PrefixReuseSummary)) (tokens : option (list Z))
    (r : LlmRequest) : option PrefixReuseSummary * option (gmap Z PrefixReuseSummary) :=
  match cached cache (request_id r) with
  | Some s => (Some s, cache)
  | None =>
      match tokens with
      | None => (None, cache)
      | Some toks =>
          let s := kv_analyze_prefix_reuse m toks r in
          (Some s, remember cache (request_id r) s)
      end
  end.

Definition new_block_of (s : option PrefixReuseSummary) : option BlockKey := s ≫= first_new_block.

Definition already_contributed (b : option BlockKey) (blocks : gset BlockKey) : bool :=
  match b with Some b => bool_decide (b ∈ blocks) | None => false end.

Definition contribute (b : option BlockKey) (blocks : gset BlockKey) : gset BlockKey :=
  match b with Some b => {[b]} ∪ blocks | None => blocks end.

Definition beneficial_to_skip (m xm : option M) (r : LlmRequest) (st : skip_state) : bool * skip_state :=
  if negb (is_context_init_state r && is_first_context_chunk r) then (false, st)
  else
    let '(ctx, cache) :=
      match m with
      | Some m => if kv_enable_block_reuse m
                  then lookup_summary m (summary_by_req st) (Some (unique_tokens r)) r
                  else (None, summary_by_req st)
      | None => (None, summary_by_req st)
      end in
    let st := mkSkip (contributed st) (cross_contributed st) cache (cross_summary_by_req st) in
    if already_contributed (new_block_of ctx) (contributed st) then (true, st)
    else
      let '(cross, xcache) :=
        match xm with
        | Some xm => if kv_enable_block_reuse xm
                     then lookup_summary xm (cross_summary_by_req st) (encoder_unique_tokens r) r
                     else (None, cross_summary_by_req st)
        | None => (None, cross_summary_by_req st)
        end in
      let st := mkSkip (contributed st) (cross_contributed st) (summary_by_req st) xcache in
      if already_contributed (new_block_of cross) (cross_contributed st) then (true, st)
      else (false, mkSkip (contribute (new_block_of ctx) (contributed st))
                     (contribute (new_block_of cross) (cross_contributed st))
                     (summary_by_req st) (cross_summary_by_req st)).

(** ** MaxRequestsPolicy *)

Definition max_requests_body (sch : PyCapacityScheduler M) (scheduled : list LlmRequest) (r : LlmRequest)
    : result (ctl (list LlmRequest)) :=
  if negb (can_be_scheduled sch r) then Ok (Continue scheduled)
  else if max_num_requests sch <=? len scheduled then Ok (Break scheduled)
  else if is_encoder_init_state r || is_context_init_state r || is_generation_in_progress_state r
       then Ok (Continue (scheduled ++ [r]))
       else Ok (Continue scheduled).

Definition max_requests_schedule (sch : PyCapacityScheduler M) (active_requests : list LlmRequest)
    : result (list LlmRequest) :=
  for_loop (max_requests_body sch) [] active_requests.

(** ** GuaranteedNoEvictPolicy *)

(** [ne_pages] holds [claimed_peft_pages] in the first pass and
    [available_peft_pages] in the second. *)
Record ne_state := mkNe {
  ne_scheduled : list LlmRequest;
  ne_blocks : window_blocks;
  ne_cross_blocks : option window_blocks;
  ne_pages : Z;
  ne_task_ids : gset Z;
  ne_skip : skip_state;
}.

Definition with_skip (st : ne_state) (sk : skip_state) : ne_state :=
  mkNe (ne_scheduled st) (ne_blocks st) (ne_cross_blocks st) (ne_pages st) (ne_task_ids st) sk.

(** [decrement_reserved_blocks] on the self pool and on the cross pool, if any. *)
Definition reserve_to_completion (m : M) (xm : option M) (blocks : window_blocks)
    (xblocks : option window_blocks) (r : LlmRequest) (s xs : option PrefixReuseSummary)
    : result (window_blocks * option window_blocks * LlmRequest) :=
  '(b, r1) ← decrement_reserved_blocks m blocks r s;
  match xm, xblocks with
  | Some xm, Some xb =>
      '(xb', r2) ← decrement_reserved_blocks xm xb r1 xs; Ok (b, Some xb', r2)
  | _, _ => Ok (b, xblocks, r1)
  end.

(** The first pass: requests in generation keep their blocks; the others wait
    in one of the two pending lists. *)
Definition first_pass_body (sch : PyCapacityScheduler M) (m : M)
    (s : ne_state * list LlmRequest * list LlmRequest) (r : LlmRequest)
    : result (ctl (ne_state * list LlmRequest * list LlmRequest)) :=
  let '(st, dis, pend) := s in
  if negb (can_be_scheduled_with_disagg_exception sch r) then Ok (Continue s)
  else if max_num_requests sch <=? len (ne_scheduled st) then Ok (Break s)
  else if is_generation_in_progress_state r then
    '(b, xb, r') ← reserve_to_completion m (cross_kv_cache_manager sch) (ne_blocks st)
                     (ne_cross_blocks st) r None None;
    let '(pages, tasks) :=
      match peft_cache_manager sch with
      | None => (ne_pages st, ne_task_ids st)
      | Some _ =>
          let '(task, is_new_task, peft_pages) := get_peft_task_info sch r' (ne_task_ids st) in
          (if is_new_task then ne_pages st + peft_pages else ne_pages st,
           note_task is_new_task task (ne_task_ids st))
      end in
    Ok (Continue (mkNe (ne_scheduled st ++ [r']) b xb pages tasks (ne_skip st), dis, pend))
  else if is_disagg_generation_init_state r then Ok (Continue (st, dis ++ [r], pend))
  else Ok (Continue (st, dis, pend ++ [r])).

(** The LoRA pages of one pending request: [None] when too few are left. *)
Definition claim_pages (sch : PyCapacityScheduler M) (r : LlmRequest) (available : Z) (tasks : gset Z)
    : option (Z * gset Z) :=
  match peft_cache_manager sch with
  | None => Some (available, tasks)
  | Some _ =>
      let '(task, is_new_task, needed) := get_peft_task_info sch r tasks in
      if available <? needed then None
      else Some (available - needed, note_task is_new_task task tasks)
  end.

(** Encoder admission takes LoRA pages only. *)
Definition admit_encoder (sch : PyCapacityScheduler M) (st : ne_state) (r : LlmRequest) : ctl ne_state :=
  match claim_pages sch r (ne_pages st) (ne_task_ids st) with
  | None => Continue st
  | Some (pages, tasks) =>
      Continue (mkNe (ne_scheduled st ++ [r]) (ne_blocks st) (ne_cross_blocks st) pages tasks (ne_skip st))
  end.

Definition admit_decoder (sch : PyCapacityScheduler M) (m : M) (st : ne_state) (r : LlmRequest)
    : result (ctl ne_state) :=
  let s := cached (summary_by_req (ne_skip st)) (request_id r) in
  let xs := cached (cross_summary_by_req (ne_skip st)) (request_id r) in
  '(enough, r1) ← enough_available_blocks m (ne_blocks st) r s;
  '(xenough, r2) ← match cross_kv_cache_manager sch, ne_cross_blocks st with
                   | Some xm, Some xb => enough_available_blocks xm xb r1 xs
                   | _, _ => Ok (true, r1)
                   end;
  if negb enough || negb xenough then Ok (Break st)
  else match claim_pages sch r2 (ne_pages st) (ne_task_ids st) with
       | None => Ok (Continue st)
       | Some (pages, tasks) =>
           '(b, xb, r3) ← reserve_to_completion m (cross_kv_cache_manager sch) (ne_blocks st)
                            (ne_cross_blocks st) r2 s xs;
           Ok (Continue (mkNe (ne_scheduled st ++ [r3]) b xb pages tasks (ne_skip st)))
       end.

Definition second_pass_body (sch : PyCapacityScheduler M) (static_batch : bool) (m : M)
    (st : ne_state) (r : LlmRequest) : result (ctl ne_state) :=
  if is_encoder_init_state r && is_none (ne_cross_blocks st) then Err RuntimeError
  else
    let '(skip, sk) :=
      if negb static_batch && is_skipping_relevant sch && negb (is_disagg_generation_init_state r)
      then beneficial_to_skip (Some m) (cross_kv_cache_manager sch) r (ne_skip st)
      else (false, ne_skip st) in
    let st := with_skip st sk in
    if skip then Ok (Continue st)
    else if max_num_requests sch <=? len (ne_scheduled st) then Ok (Break st)
    else if is_encoder_init_state r then Ok (admit_encoder sch st r)
    else if is_context_init_state r || is_disagg_generation_init_state r then admit_decoder sch m st r
    else Ok (Continue st).

Definition ne_init (sch : PyCapacityScheduler M) (static_batch : bool) (m : M)
    (active_requests : list LlmRequest) : ne_state :=
  let '(ctx, cross) := if negb static_batch && is_skipping_relevant sch
                       then prefill_contributed_blocks (Some m) (cross_kv_cache_manager sch) active_requests
                       else (∅, ∅) in
  mkNe [] (no_evict_blocks m) (no_evict_blocks <$> cross_kv_cache_manager sch) 0 ∅
    (mkSkip ctx cross (Some ∅) (Some ∅)).

Definition guaranteed_no_evict_schedule (sch : PyCapacityScheduler M) (static_batch : bool) (m : M)
    (active_requests : list LlmRequest) : result (list LlmRequest) :=
  '(st, dis, pend) ← for_loop (first_pass_body sch m) (ne_init sch static_batch m active_requests, [], [])
                       active_requests;
  if negb static_batch || (len (ne_scheduled st) =? 0) then
    let available := match peft_cache_manager sch with
                     | None => 0
                     | Some _ => get_max_peft_pages sch - ne_pages st end in
    let st := mkNe (ne_scheduled st) (ne_blocks st) (ne_cross_blocks st) available (ne_task_ids st)
                (ne_skip st) in
    st ← for_loop (second_pass_body sch static_batch m) st dis;
    st ← for_loop (second_pass_body sch static_batch m) st pend;
    Ok (ne_scheduled st)
  else Ok (ne_scheduled st).

(** ** MaxUtilizationPolicy *)

Record mu_state := mkMu {
  mu_scheduled : list LlmRequest;
  mu_blocks : window_blocks;
  mu_cross_blocks : option window_blocks;
  mu_pages : Z;
  mu_task_ids : gset Z;
}.

(** The LoRA pages of one request: [None] when they exceed the device pages. *)
Definition add_pages (sch : PyCapacityScheduler M) (r : LlmRequest) (st : mu_state) : option (Z * gset Z) :=
  match peft_cache_manager sch with
  | None => Some (mu_pages st, mu_task_ids st)
  | Some _ =>
      let '(task, is_new_task, required) := get_peft_task_info sch r (mu_task_ids st) in
      if get_max_peft_pages sch <? required + mu_pages st then None
      else Some (mu_pages st + required, note_task is_new_task task (mu_task_ids st))
  end.

(** The blocks of the cross pool: [None] when they do not fit, [Some None]
    when there is no cross pool. *)
Definition prepare_cross_blocks (sch : PyCapacityScheduler M) (xm : option M)
    (xblocks : option window_blocks) (r : LlmRequest)
    : result (option (option window_blocks) * LlmRequest) :=
  match xm, xblocks with
  | Some xm, Some xb =>
      '(new, r') ← prepare_blocks_if_schedulable xm (two_step_lookahead sch) xb r None;
      Ok (match new with Some b => Some (Some b) | None => None end, r')
  | _, _ => Ok (Some None, r)
  end.

Definition update_cross_blocks (old new : option window_blocks) : result (option window_blocks) :=
  match old, new with
  | Some old, Some new => b ← update_scheduled_blocks old new; Ok (Some b)
  | _, _ => Ok old
  end.

(** The end of [_try_scheduling_request]: the LoRA check, then the updates. *)
Definition commit_request (sch : PyCapacityScheduler M) (st : mu_state) (r : LlmRequest)
    (blocks xblocks : option window_blocks) : result (option mu_state * LlmRequest) :=
  match add_pages sch r st with
  | None => Ok (None, r)
  | Some (pages, tasks) =>
      b ← match blocks with
          | Some new => update_scheduled_blocks (mu_blocks st) new
          | None => Ok (mu_blocks st) end;
      xb ← update_cross_blocks (mu_cross_blocks st) xblocks;
      Ok (Some (mkMu (mu_scheduled st ++ [r]) b xb pages tasks), r)
  end.

(** The first component is the state after a request was scheduled, [None] when
    it was not: the state is then as before. *)
Definition try_scheduling_request (sch : PyCapacityScheduler M) (m : M) (xm : option M) (st : mu_state)
    (r : LlmRequest) (cached_summary : option PrefixReuseSummary) : result (option mu_state * LlmRequest) :=
  if max_num_requests sch <=? len (mu_scheduled st) then Ok (None, r)
  else if is_encoder_init_state r then commit_request sch st r None None
  else
    '(blocks, r1) ← prepare_blocks_if_schedulable m (two_step_lookahead sch) (mu_blocks st) r cached_summary;
    match blocks with
    | None => Ok (None, r1)
    | Some blocks =>
        '(xblocks, r2) ← prepare_cross_blocks sch xm (mu_cross_blocks st) r1;
        match xblocks with
        | None => Ok (None, r2)
        | Some xblocks => commit_request sch st r2 (Some blocks) xblocks
        end
    end.

Definition is_started_request (sch : PyCapacityScheduler M) (r : LlmRequest) : bool :=
  if negb (can_be_scheduled sch r) then false
  else (is_context_init_state r && negb (is_first_context_chunk r)) || is_generation_in_progress_state r.

(** The largest index in [it, it + n) that holds a started request. *)
Fixpoint last_started (sch : PyCapacityScheduler M) (rs : list LlmRequest) (it n : nat) : option nat :=
  match n with
  | O => None
  | S n' =>
      match rs !! (it + n')%nat with
      | Some r => if is_started_request sch r then Some (it + n')%nat else last_started sch rs it n'
      | None => last_started sch rs it n'
      end
  end.

Record mu_loop := mkLoop {
  lp_requests : list LlmRequest;
  lp_it : nat;
  lp_end : nat;
  lp_core : mu_state;
  lp_paused : list LlmRequest;
  lp_contributed : gset BlockKey;
  lp_summaries : gmap Z PrefixReuseSummary;
  lp_kv : M;
  lp_cross : option M;
}.

Definition advance (lp : mu_loop) (rs : list LlmRequest) (core : mu_state) (ctx : gset BlockKey)
    (cache : gmap Z PrefixReuseSummary) : mu_loop :=
  mkLoop rs (S (lp_it lp)) (lp_end lp) core (lp_paused lp) ctx cache (lp_kv lp) (lp_cross lp).

(** The request could not be scheduled: pause the last started request, or
    leave the loop. *)
Definition pause_last_started (sch : PyCapacityScheduler M) (lp : mu_loop) (rs : list LlmRequest)
    (ctx : gset BlockKey) (cache : gmap Z PrefixReuseSummary) : result (ctl mu_loop) :=
  match last_started sch rs (lp_it lp) (lp_end lp - lp_it lp) with
  | None => Ok (Break (mkLoop rs (lp_it lp) (lp_end lp) (lp_core lp) (lp_paused lp) ctx cache
                         (lp_kv lp) (lp_cross lp)))
  | Some i =>
      match rs !! i with
      | None => Err IndexError
      | Some paused_req =>
          m ← kv_scheduling_remove_sequence (lp_kv lp) (request_id paused_req);
          xm ← match lp_cross lp with
               | None => Ok None
               | Some xm => xm' ← kv_scheduling_remove_sequence xm (request_id paused_req); Ok (Some xm')
               end;
          Ok (Continue (mkLoop rs (lp_it lp) i (lp_core lp) (lp_paused lp ++ [paused_req]) ctx cache m xm))
      end
  end.

(** The skip check of this policy: the cross set is a fresh one at every call
    and there is no cross cache. *)
Definition mu_skip (sch : PyCapacityScheduler M) (lp : mu_loop) (r : LlmRequest)
    : bool * gset BlockKey * gmap Z PrefixReuseSummary :=
  if is_skipping_relevant sch then
    let '(skip, sk) := beneficial_to_skip (Some (lp_kv lp)) (lp_cross lp) r
                         (mkSkip (lp_contributed lp) ∅ (Some (lp_summaries lp)) None) in
    (skip, contributed sk, default ∅ (summary_by_req sk))
  else (false, lp_contributed lp, lp_summaries lp).

Definition mu_step (sch : PyCapacityScheduler M) (lp : mu_loop) : result (ctl mu_loop) :=
  match lp_requests lp !! lp_it lp with
  | None => Err IndexError
  | Some r =>
      if negb (can_be_scheduled_with_disagg_exception sch r) then
        Ok (Continue (advance lp (lp_requests lp) (lp_core lp) (lp_contributed lp) (lp_summaries lp)))
      else if is_encoder_init_state r && is_none (mu_cross_blocks (lp_core lp)) then Err RuntimeError
      else
        let '(skip, ctx, cache) := mu_skip sch lp r in
        if skip then Ok (Continue (advance lp (lp_requests lp) (lp_core lp) ctx cache))
        else
          '(core, r') ← try_scheduling_request sch (lp_kv lp) (lp_cross lp) (lp_core lp) r
                          (cache !! request_id r);
          let rs := <[lp_it lp := r']> (lp_requests lp) in
          match core with
          | Some core => Ok (Continue (advance lp rs core ctx cache))
          | None => pause_last_started sch lp rs ctx cache
          end
  end.

Fixpoint mu_while (sch : PyCapacityScheduler M) (fuel : nat) (lp : mu_loop) : result mu_loop :=
  if (lp_it lp <? lp_end lp)%nat then
    match fuel with
    | O => Err OutOfFuel
    | S fuel' =>
        c ← mu_step sch lp;
        match c with
        | Continue lp' => mu_while sch fuel' lp'
        | Break lp' => Ok lp'
        end
    end
  else Ok lp.

Definition mu_init (sch : PyCapacityScheduler M) (m : M) (active_requests : list LlmRequest) : mu_loop :=
  let m := kv_start_scheduling m in
  let xm := kv_start_scheduling <$> cross_kv_cache_manager sch in
  let '(ctx, _) := prefill_contributed_blocks (Some m) xm active_requests in
  mkLoop active_requests 0 (length active_requests)
    (mkMu [] (max_utilization_blocks m) (max_utilization_blocks <$> xm) 0 ∅) [] ctx ∅ m xm.

(** Each iteration shortens the range [req_it, req_it_end), so the number of
    requests is fuel enough. *)
Definition max_utilization_schedule (sch : PyCapacityScheduler M) (m : M)
    (active_requests : list LlmRequest) : result mu_loop :=
  mu_while sch (length active_requests) (mu_init sch m active_requests).

(** ** The scheduler *)

(** The scheduled and the paused requests, and the managers afterwards. *)
Definition policy_schedule (sch : PyCapacityScheduler M) (active_requests : list LlmRequest)
    : result (list LlmRequest * list LlmRequest * (option M * option M)) :=
  let managers := (kv_cache_manager sch, cross_kv_cache_manager sch) in
  match create_policy sch, kv_cache_manager sch with
  | GuaranteedNoEvictPolicy static_batch, Some m =>
      scheduled ← guaranteed_no_evict_schedule sch static_batch m active_requests;
      Ok (scheduled, [], managers)
  | MaxUtilizationPolicy, Some m =>
      lp ← max_utilization_schedule sch m active_requests;
      Ok (mu_scheduled (lp_core lp), lp_paused lp, (Some (lp_kv lp), lp_cross lp))
  | _, _ =>
      scheduled ← max_requests_schedule sch active_requests;
      Ok (scheduled, [], managers)
  end.

Definition classify_output (scheduled_requests : list LlmRequest) : list LlmRequest * list LlmRequest :=
  (filter (fun r => is_disagg_generation_init_state r = false) scheduled_requests,
   filter (fun r => is_disagg_generation_init_state r = true) scheduled_requests).

Definition cap_schedule_request (sch : PyCapacityScheduler M) (active_requests : list LlmRequest)
    : result (list LlmRequest * list LlmRequest * list LlmRequest * (option M * option M)) :=
  '(scheduled, paused, managers) ← policy_schedule sch active_requests;
  let '(fitting, fitting_disagg_gen_init) := classify_output scheduled in
  Ok (fitting, fitting_disagg_gen_init, paused, managers).

End capacity.

(** ** What the policies rely on *)

(** Requests are compared up to the estimate the queries write. *)
Definition forget (r : LlmRequest) : LlmRequest := with_reusable r 0.

Lemma forget_with_reusable r e : forget (with_reusable r e) = forget r.
Proof. done. Qed.

(** A predicate or a function that does not look at the estimate. *)
Lemma forget_ext {A} (f : LlmRequest -> A) r r' :
  (forall q, f (forget q) = f q) -> forget r = forget r' -> f r = f r'.
Proof. intros Hf Hr. by rewrite <- (Hf r), Hr, (Hf r'). Qed.

(** [kv_rem] and [kv_need] are the block counts the two queries compute,
    [kv_sched_free] the free blocks of the scheduling simulation.  A summary
    handed to a query changes nothing if it is the one the manager would
    compute itself from the tokens it caches for the request. *)
Class KvCacheLaws (M : Type) `{KvCacheManager M} := {
  kv_rem : M -> Z -> LlmRequest -> Z;
  kv_need : M -> bool -> Z -> LlmRequest -> Z;
  kv_sched_free : M -> Z -> Z;
  kv_tokens : M -> LlmRequest -> option (list Z);
  kv_rem_law m r w s n e :
    kv_get_remaining_blocks_to_completion m r w s = Ok (n, e) ->
    (s = None \/ exists toks, kv_tokens m r = Some toks /\ s = Some (kv_analyze_prefix_reuse m toks r)) ->
    n = kv_rem m w r;
  kv_need_law m r b w s n e :
    kv_get_needed_blocks_one_step m r b w s = Ok (n, e) ->
    (s = None \/ exists toks, kv_tokens m r = Some toks /\ s = Some (kv_analyze_prefix_reuse m toks r)) ->
    n = kv_need m b w r;
  kv_rem_forget m w r : kv_rem m w (forget r) = kv_rem m w r;
  kv_need_forget m b w r : kv_need m b w (forget r) = kv_need m b w r;
  kv_tokens_forget m r : kv_tokens m (forget r) = kv_tokens m r;
  kv_analyze_forget m toks r : kv_analyze_prefix_reuse m toks (forget r) = kv_analyze_prefix_reuse m toks r;
  kv_has_free_law m n w b : kv_scheduling_has_free_blocks m n w = Ok b -> b = (n <=? kv_sched_free m w);
  kv_start_tokens m r : kv_tokens (kv_start_scheduling m) r = kv_tokens m r;
  kv_remove_law m id m' : kv_scheduling_remove_sequence m id = Ok m' ->
    (forall w, kv_sched_free m w <= kv_sched_free m' w)
    /\ (forall b w r, kv_need m' b w r = kv_need m b w r)
    /\ (forall r, kv_tokens m' r = kv_tokens m r)
    /\ (forall toks r, kv_analyze_prefix_reuse m' toks r = kv_analyze_prefix_reuse m toks r)
    /\ kv_enable_block_reuse m' = kv_enable_block_reuse m
    /\ kv_max_attention_window_vec m' = kv_max_attention_window_vec m;
}.

(** A summary the manager [m] would compute for [r]. *)
Definition own_summary `{KvCacheLaws M} (m : M) (r : LlmRequest) (s : option PrefixReuseSummary) : Prop :=
  s = None \/ exists toks, kv_tokens m r = Some toks /\ s = Some (kv_analyze_prefix_reuse m toks r).

(** Requests that hold blocks once scheduled. *)
Definition decoders (rs : list LlmRequest) : list LlmRequest :=
  filter (fun r => is_encoder_init_state r = false) rs.

Section block_lemmas.
Context {M : Type} `{KvCacheLaws M}.
Implicit Types (m : M) (r : LlmRequest) (blocks : window_blocks).

Lemma own_summary_forget m r s : own_summary m (forget r) s <-> own_summary m r s.
Proof.
  unfold own_summary. rewrite kv_tokens_forget. setoid_rewrite kv_analyze_forget. done.
Qed.

Lemma own_summary_ext m r r' s : forget r = forget r' -> own_summary m r s -> own_summary m r' s.
Proof. intros Hr. by rewrite <- (own_summary_forget m r), Hr, own_summary_forget. Qed.

Lemma call_own m r s {A} (fn : option PrefixReuseSummary -> A) :
  own_summary m r s ->
  exists s', call_with_optional_summary (kv_signature m) fn s = fn s' /\ own_summary m r s'.
Proof.
  intros Hs. unfold call_with_optional_summary.
  destruct s as [s|]; [|exists None; split; [done|by left]].
  destruct (kv_signature m) as [[]|]; [by exists (Some s)|exists None|by exists (Some s)].
  split; [done|by left].
Qed.

Lemma decrement_spec m blocks r s b r' :
  own_summary m r s -> decrement_reserved_blocks m blocks r s = Ok (b, r') ->
  b = (fun '(w, n) => (w, n - kv_rem m w r)) <$> blocks /\ forget r' = forget r.
Proof.
  intros Hs. unfold decrement_reserved_blocks.
  set (body := fun '(acc, r) '(window_size, avail) => _).
  enough (Hgen : forall acc r0, forget r0 = forget r ->
    for_each body (acc, r0) blocks = Ok (b, r') ->
    b = acc ++ ((fun '(w, n) => (w, n - kv_rem m w r)) <$> blocks) /\ forget r' = forget r)
    by (intros Hrun; by apply (Hgen [] r)).
  induction blocks as [|[w n] blocks IH]; intros acc r0 Hr0 Hrun; simpl in Hrun.
  { inv_ok. by rewrite app_nil_r. }
  destruct (call_own m r0 s (kv_get_remaining_blocks_to_completion m r0 w)) as (s' & Heq & Hs').
  { by eapply own_summary_ext. }
  rewrite Heq in Hrun.
  destruct (kv_get_remaining_blocks_to_completion m r0 w s') as [[k e]|] eqn:E; simpl in Hrun; [|done].
  apply kv_rem_law in E; [|done]. subst k.
  apply IH in Hrun as [-> Hr']; [|by rewrite forget_with_reusable].
  split; [|done]. rewrite <- app_assoc. simpl. do 4 f_equal.
  apply (forget_ext (kv_rem m w)); [apply kv_rem_forget|done].
Qed.

Lemma enough_spec m blocks r s b r' :
  own_summary m r s -> enough_available_blocks m blocks r s = Ok (b, r') ->
  (b = true -> Forall (fun '(w, n) => kv_rem m w r <= n) blocks) /\ forget r' = forget r.
Proof.
  intros Hs. unfold enough_available_blocks.
  set (body := fun '(_, r) '(window_size, avail) => _).
  enough (Hgen : forall r0, forget r0 = forget r ->
    for_loop body (true, r0) blocks = Ok (b, r') ->
    (b = true -> Forall (fun '(w, n) => kv_rem m w r <= n) blocks) /\ forget r' = forget r)
    by (by apply (Hgen r)).
  induction blocks as [|[w n] blocks IH]; intros r0 Hr0 Hrun; simpl in Hrun; [inv_ok; done|].
  destruct (call_own m r0 s (kv_get_remaining_blocks_to_completion m r0 w)) as (s' & Heq & Hs').
  { by eapply own_summary_ext. }
  rewrite Heq in Hrun. destruct (kv_get_remaining_blocks_to_completion m r0 w s') as [[k e]|] eqn:E;
    simpl in Hrun; [|done].
  apply kv_rem_law in E; [|done]. subst k.
  assert (Hk : kv_rem m w r0 = kv_rem m w r) by (apply (forget_ext (kv_rem m w)); [apply kv_rem_forget|done]).
  destruct (kv_rem m w r0 <=? n) eqn:Ele; inv_ok.
  - apply IH in Hrun as [Hb Hr']; [|by rewrite forget_with_reusable]. split; [|done].
    intros Ht. constructor; [bool_to_prop; lia|auto].
  - split; [done|]. by rewrite forget_with_reusable.
Qed.

Lemma dict_set_fresh (d : window_blocks) k v : k ∉ d.*1 -> dict_set d k v = d ++ [(k, v)].
Proof using Type.
  induction d as [|[k' v'] d IH]; simpl; [done|]. rewrite not_elem_of_cons. intros [Hne Hk].
  rewrite (proj2 (Z.eqb_neq k' k)) by done. by rewrite IH.
Qed.

Lemma prepare_spec m two blocks r s b r' :
  own_summary m r s -> NoDup blocks.*1 ->
  prepare_blocks_if_schedulable m two blocks r s = Ok (b, r') ->
  forget r' = forget r
  /\ match b with
     | None => True
     | Some nb => nb = (fun '(w, n) => (w, n + kv_need m two w r)) <$> blocks
                  /\ Forall (fun '(w, n) => n <= kv_sched_free m w) nb
     end.
Proof.
  intros Hs Hnd. unfold prepare_blocks_if_schedulable.
  set (body := fun '(acc, r) '(window_size, num_scheduled) => _).
  enough (Hgen : forall todo acc r0, forget r0 = forget r -> NoDup (acc.*1 ++ todo.*1) ->
    Forall (fun '(w, n) => n <= kv_sched_free m w) acc ->
    for_loop body (Some acc, r0) todo = Ok (b, r') ->
    forget r' = forget r
    /\ match b with
       | None => True
       | Some nb => nb = acc ++ ((fun '(w, n) => (w, n + kv_need m two w r)) <$> todo)
                    /\ Forall (fun '(w, n) => n <= kv_sched_free m w) nb
       end) by (by apply (Hgen blocks [] r)).
  induction todo as [|[w n] todo IH]; intros acc r0 Hr0 Hk Hacc Hrun; simpl in Hrun.
  { inv_ok. split; [done|]. by rewrite app_nil_r. }
  destruct (call_own m r0 s (kv_get_needed_blocks_one_step m r0 two w)) as (s' & Heq & Hs').
  { by eapply own_summary_ext. }
  rewrite Heq in Hrun.
  destruct (kv_get_needed_blocks_one_step m r0 two w s') as [[k e]|] eqn:E; simpl in Hrun; [|done].
  apply kv_need_law in E; [|done]. subst k.
  assert (Hn : kv_need m two w r0 = kv_need m two w r)
    by (apply (forget_ext (kv_need m two w)); [apply kv_need_forget|done]).
  rewrite Hn in Hrun.
  destruct (kv_scheduling_has_free_blocks m _ w) as [hf|] eqn:Ehf; simpl in Hrun; [|done].
  apply kv_has_free_law in Ehf. destruct hf; simpl in Hrun; [|inv_ok; by rewrite forget_with_reusable].
  simpl in Hk. rewrite dict_set_fresh in Hrun
    by (apply NoDup_app in Hk as (_ & Hd & _); intros Hin; apply (Hd w Hin); by left).
  apply IH in Hrun; [|by rewrite forget_with_reusable|..].
  - destruct Hrun as [Hr' Hb]. split; [done|]. destruct b as [nb|]; [|done].
    destruct Hb as [-> Hf]. split; [|done]. by rewrite <- app_assoc.
  - rewrite fmap_app, <- app_assoc. done.
  - apply Forall_app. split; [done|]. constructor; [by apply Z.leb_le|done].
Qed.

Lemma foldl_dict_set_replace (pre old new : window_blocks) :
  old.*1 = new.*1 -> NoDup (pre.*1 ++ old.*1) ->
  foldl (fun d '(w, n) => dict_set d w n) (pre ++ old) new = pre ++ new.
Proof using Type.
  revert pre new. induction old as [|[w n] old IH]; intros pre [|[w' n'] new] Heq Hnd;
    simplify_eq/=; [done|].
  assert (Hset : dict_set (pre ++ (w', n) :: old) w' n' = (pre ++ [(w', n')]) ++ old).
  { apply NoDup_app in Hnd as (_ & Hd & _). clear -Hd. induction pre as [|[k v] pre IH]; simpl.
    - by rewrite Z.eqb_refl.
    - rewrite (proj2 (Z.eqb_neq k w')).
      + f_equal. apply IH. intros x Hx. apply Hd. by right.
      + intros ->. apply (Hd w'); left. }
  rewrite Hset, IH; [by rewrite <- app_assoc|done|].
  rewrite fmap_app, <- app_assoc. done.
Qed.

Lemma update_spec old new b :
  old.*1 = new.*1 -> NoDup old.*1 -> update_scheduled_blocks old new = Ok b -> b = new.
Proof using Type.
  intros Hk Hnd Hrun. unfold update_scheduled_blocks in Hrun. inv_ok.
  apply (foldl_dict_set_replace [] old new Hk Hnd).
Qed.

End block_lemmas.

(** ** Skipping for reuse *)

Section skipping.
Context {M : Type} `{KvCacheLaws M}.
Implicit Types (m : M) (r : LlmRequest).

(** The block a first-chunk context request would be the first to compute. *)
Definition new_block (m : M) (r : LlmRequest) : option BlockKey :=
  if is_context_init_state r && is_first_context_chunk r && kv_enable_block_reuse m
  then first_new_block (kv_analyze_prefix_reuse m (unique_tokens r) r) else None.

Definition new_blocks (m : M) (rs : list LlmRequest) : list BlockKey := omap (new_block m) rs.

(** Every cached summary of a request of [rs] is its own. *)
Definition cache_own (m : M) (rs : list LlmRequest) (cache : option (gmap Z PrefixReuseSummary)) : Prop :=
  forall r, r ∈ rs -> own_summary m r (cached cache (request_id r)).

Lemma new_block_forget m r : new_block m (forget r) = new_block m r.
Proof. unfold new_block. by rewrite kv_analyze_forget. Qed.

Lemma cache_own_empty m rs : cache_own m rs (Some ∅).
Proof. intros r _. left. unfold cached. simpl. by rewrite lookup_empty. Qed.

Lemma same_id_same rs r r' :
  NoDup (request_id <$> rs) -> r ∈ rs -> r' ∈ rs -> request_id r = request_id r' -> r = r'.
Proof using Type.
  intros Hnd [i Hi]%list_elem_of_lookup [j Hj]%list_elem_of_lookup Hid.
  assert (i = j) as ->; [|congruence].
  eapply (NoDup_lookup _ i j (request_id r)); [exact Hnd|..]; rewrite list_lookup_fmap.
  - by rewrite Hi.
  - rewrite Hj, Hid. done.
Qed.

Lemma lookup_summary_spec m rs cache tokens r s cache' :
  NoDup (request_id <$> rs) -> r ∈ rs -> cache_own m rs cache -> kv_tokens m r = tokens ->
  lookup_summary m cache tokens r = (s, cache') ->
  s = (fun toks => kv_analyze_prefix_reuse m toks r) <$> tokens /\ cache_own m rs cache'.
Proof.
  intros Hnd Hr Hown Htok Hrun. unfold lookup_summary in Hrun. pose proof (Hown r Hr) as Hc.
  destruct (cached cache (request_id r)) as [s0|] eqn:Ec.
  - inv_ok. split; [|done]. destruct Hc as [?|(toks & Ht & ->)]; [done|].
    by rewrite Ht.
  - destruct tokens as [toks|]; inv_ok; split; try done.
    intros r' Hr'. destruct cache as [c|]; [|by left]. simpl.
    destruct (decide (request_id r = request_id r')) as [He|He].
    + assert (r = r') as <- by by eapply same_id_same.
      rewrite lookup_insert_eq. right. exists toks. done.
    + rewrite lookup_insert_ne by done. by apply Hown.
Qed.

(** What a call of [_beneficial_to_skip] decides and registers, for a scheduler
    whose self pool is [m] and whose caches hold only own summaries. *)
Record skip_ok (m : M) (xm : option M) (rs : list LlmRequest) (st : skip_state) : Prop := {
  sk_own : cache_own m rs (summary_by_req st);
  sk_cross_own : forall xm', xm = Some xm' -> cache_own xm' rs (cross_summary_by_req st);
}.

Lemma beneficial_to_skip_spec m xm rs r st skip st' :
  (forall q, kv_tokens m q = Some (unique_tokens q)) ->
  (forall xm' q, xm = Some xm' -> kv_tokens xm' q = encoder_unique_tokens q) ->
  NoDup (request_id <$> rs) -> r ∈ rs -> skip_ok m xm rs st ->
  beneficial_to_skip (Some m) xm r st = (skip, st') ->
  skip_ok m xm rs st'
  /\ if skip then contributed st' = contributed st
     else already_contributed (new_block m r) (contributed st) = false
          /\ contributed st' = contribute (new_block m r) (contributed st).
Proof.
  intros Ht Hxt Hnd Hr [Ho Hxo] Hrun. unfold beneficial_to_skip in Hrun.
  destruct (is_context_init_state r && is_first_context_chunk r) eqn:Ef; simpl in Hrun.
  2: { inv_ok. split; [done|]. unfold new_block. by rewrite Ef. }
  destruct (if kv_enable_block_reuse m then _ else _) as [ctx cache] eqn:Ec.
  assert (Hctx : new_block_of ctx = new_block m r /\ cache_own m rs cache).
  { unfold new_block. rewrite Ef. simpl. destruct (kv_enable_block_reuse m); [|by inv_ok].
    eapply lookup_summary_spec in Ec as [-> ?]; eauto. }
  destruct Hctx as [Hnb Hc']. simpl in Hrun. rewrite Hnb in Hrun.
  destruct (already_contributed (new_block m r) (contributed st)) eqn:Ea; [by inv_ok|].
  destruct (match xm with Some _ => _ | None => _ end) as [cross xcache] eqn:Ex.
  assert (Hx' : forall xm', xm = Some xm' -> cache_own xm' rs xcache).
  { intros xm' ->. destruct (kv_enable_block_reuse xm'); [|inv_ok; by apply Hxo].
    eapply lookup_summary_spec in Ex as [_ ?]; eauto. }
  destruct (already_contributed (new_block_of cross) _); inv_ok; done.
Qed.

Lemma new_blocks_snoc m rs r r' :
  forget r' = forget r -> new_blocks m (rs ++ [r']) = new_blocks m rs ++ option_list (new_block m r).
Proof.
  intros Hr. unfold new_blocks. rewrite omap_app. f_equal. simpl.
  rewrite (forget_ext (new_block m) r' r); [|apply new_block_forget|done]. by destruct (new_block m r).
Qed.

(** The caller's cache stays a cache. *)
Lemma beneficial_cache m xm r ctx cache skip st :
  beneficial_to_skip (Some m) xm r (mkSkip ctx ∅ (Some cache) None) = (skip, st) ->
  exists cache', summary_by_req st = Some cache'.
Proof.
  intros Hrun. unfold beneficial_to_skip, lookup_summary, cached, remember in Hrun. simpl in Hrun.
  repeat case_match; simplify_eq/=; eauto.
Qed.

(** Registering a block keeps the registered ones distinct. *)
Lemma contribute_NoDup b (blocks : gset BlockKey) (bs : list BlockKey) :
  already_contributed b blocks = false -> NoDup bs -> (forall x, x ∈ bs -> x ∈ blocks) ->
  NoDup (bs ++ option_list b) /\ forall x, x ∈ bs ++ option_list b -> x ∈ contribute b blocks.
Proof using Type.
  intros Ha Hnd Hsub. destruct b as [b|]; simpl in *; [|by rewrite app_nil_r].
  bool_to_prop. split.
  - apply NoDup_app. split; [done|]. split; [|apply NoDup_singleton].
    intros x Hx ->%list_elem_of_singleton. by apply Ha, Hsub.
  - intros x [Hx| ->%list_elem_of_singleton]%elem_of_app; apply elem_of_union;
      [right; auto|left; by apply elem_of_singleton].
Qed.

End skipping.

(** ** LoRA pages *)

(** The pages a list of requests claims, one claim per LoRA task, and the tasks. *)
Definition peft_account {M} (sch : PyCapacityScheduler M) (rs : list LlmRequest) : Z * gset Z :=
  foldl (fun '(pages, tasks) r =>
           let '(task, is_new_task, required) := get_peft_task_info sch r tasks in
           (pages + required, note_task is_new_task task tasks)) (0, ∅) rs.

Definition peft_pages {M} (sch : PyCapacityScheduler M) (rs : list LlmRequest) : Z :=
  (peft_account sch rs).1.

(** Page counts do not depend on the reuse estimate. *)
Definition peft_stable {M} (sch : PyCapacityScheduler M) : Prop :=
  forall p r, peft_cache_manager sch = Some p -> determine_num_pages p (forget r) = determine_num_pages p r.

Section peft.
Context {M : Type} (sch : PyCapacityScheduler M).

Lemma peft_account_snoc rs r :
  peft_account sch (rs ++ [r])
  = let '(pages, tasks) := peft_account sch rs in
    let '(task, is_new_task, required) := get_peft_task_info sch r tasks in
    (pages + required, note_task is_new_task task tasks).
Proof. unfold peft_account. rewrite foldl_app. simpl. by destruct (foldl _ _ rs). Qed.

Lemma peft_info_forget r r' tasks :
  peft_stable sch -> forget r = forget r' ->
  get_peft_task_info sch r tasks = get_peft_task_info sch r' tasks.
Proof.
  intros Hs Hr. unfold get_peft_task_info, get_peft_pages_for_request.
  assert (lora_task_id r = lora_task_id r') as -> by by apply (forget_ext lora_task_id).
  destruct (peft_cache_manager sch) as [p|] eqn:Ep; [|done].
  assert (determine_num_pages p r = determine_num_pages p r') as ->; [|done].
  apply (forget_ext (determine_num_pages p)); [|done]. intros q. by apply Hs.
Qed.

Lemma peft_account_snoc_forget rs r r' :
  peft_stable sch -> forget r = forget r' ->
  peft_account sch (rs ++ [r]) = peft_account sch (rs ++ [r']).
Proof.
  intros Hs Hr. rewrite !peft_account_snoc. destruct (peft_account sch rs) as [pages tasks].
  by rewrite (peft_info_forget r r' tasks Hs Hr).
Qed.

Lemma new_task_pages r tasks pages :
  (let '(task, is_new_task, required) := get_peft_task_info sch r tasks in
   (if is_new_task then pages + required else pages, note_task is_new_task task tasks))
  = let '(task, is_new_task, required) := get_peft_task_info sch r tasks in
    (pages + required, note_task is_new_task task tasks).
Proof. unfold get_peft_task_info. destruct (lora_task_id r); [case_bool_decide|]; f_equal; lia. Qed.

End peft.

(** ** Lists of scheduled requests *)

Definition eligible {M} (sch : PyCapacityScheduler M) (r : LlmRequest) : Prop := can_be_scheduled_with_disagg_exception sch r = true.

Lemma decoders_snoc rs r : is_encoder_init_state r = false -> decoders (rs ++ [r]) = decoders rs ++ [r].
Proof. intros Hr. unfold decoders. by rewrite filter_app, filter_cons_True. Qed.

Lemma encoders_snoc rs r : is_encoder_init_state r = true -> decoders (rs ++ [r]) = decoders rs.
Proof.
  intros Hr. unfold decoders. rewrite filter_app, filter_cons_False; [by rewrite app_nil_r|congruence].
Qed.

(** The list of requests grows by one that [seen] also gains. *)
Lemma prov_grow (l l' seen : list LlmRequest) r r' :
  l' ≡ₚ r' :: l -> forget r' = forget r -> forget <$> l ⊆+ forget <$> seen ->
  forget <$> l' ⊆+ forget <$> (seen ++ [r]).
Proof.
  intros -> Hr Hl. rewrite fmap_cons, fmap_app, Hr. simpl.
  rewrite (Permutation_app_comm (forget <$> seen)). simpl. by apply submseteq_skip.
Qed.

Lemma prov_skip (l seen : list LlmRequest) r :
  forget <$> l ⊆+ forget <$> seen -> forget <$> l ⊆+ forget <$> (seen ++ [r]).
Proof. intros Hl. rewrite fmap_app. by apply submseteq_inserts_r. Qed.

Lemma eligible_forget {M} (sch : PyCapacityScheduler M) r r' :
  forget r = forget r' -> eligible sch r -> eligible sch r'.
Proof.
  intros Hr He. unfold eligible in *. rewrite <- He. symmetry.
  by apply (forget_ext (can_be_scheduled_with_disagg_exception sch)).
Qed.
