(* ===== verification/KvPool.v ===== *)
(** * The paged KV-cache pool

    The part of the C++ KV-cache manager
    ([cpp/tensorrt_llm/batch_manager/kvCacheManager.cpp]) that the capacity
    scheduler consults: per window the blocks with their reference counts and
    their scheduling shadow, the simulated release of a sequence, and the two
    block queries.  It is the instance of the interface of Capacity.v.

    The radix tree is a parameter of the pool: [pool_analysis] is the walk of
    [analyzePrefixReuse], which depends on the tokens and the LoRA task of the
    request and on its cache salt and multimodal hashes, which are fixed by the
    request's id.  Windows of recurrent (linear-attention) state are not
    modelled: every window is an attention window. *)

From stdpp Require Import prelude gmap sorting.
From S2P Require Import Prelude Request MicroBatch Capacity.
Local Open Scope Z_scope.

(** ** Blocks of one window *)

Record KVCacheBlock := mkBlock {
  ref_count : Z;
  scheduling_ref_count : Z;
  is_placeholder : bool;
}.

Definition block_start_scheduling (b : KVCacheBlock) : KVCacheBlock :=
  mkBlock (ref_count b) (ref_count b) (is_placeholder b).

Definition has_scheduling_refs (b : KVCacheBlock) : bool := 0 <? scheduling_ref_count b.

Definition dec_scheduling_ref_count (b : KVCacheBlock) : result KVCacheBlock :=
  if has_scheduling_refs b
  then Ok (mkBlock (ref_count b) (scheduling_ref_count b - 1) (is_placeholder b))
  else Err TllmException.

(** [free_blocks] is the eviction policy's count for primary memory; the
    blocks of a sequence are listed as often as the sequence references them. *)
Record WindowBlockManager := mkWindow {
  window_size : Z;
  max_token_num : Z;
  free_blocks : Z;
  scheduling_num_free_blocks : Z;
  blocks : gmap Z KVCacheBlock;
  allocated_blocks_per_seq : list (Z * list Z);
}.

Definition with_blocks (w : WindowBlockManager) (free : Z) (bs : gmap Z KVCacheBlock) : WindowBlockManager :=
  mkWindow (window_size w) (max_token_num w) (free_blocks w) free bs (allocated_blocks_per_seq w).

Definition all_allocated (w : WindowBlockManager) : list Z :=
  allocated_blocks_per_seq w ≫= snd.

Definition window_start_scheduling (w : WindowBlockManager) : WindowBlockManager :=
  with_blocks w (free_blocks w)
    (foldl (fun bs id => alter block_start_scheduling id bs) (blocks w) (all_allocated w)).

(** [map.at]: an exception when the key is missing. *)
Fixpoint assoc_at {A} (l : list (Z * A)) (k : Z) : result A :=
  match l with
  | [] => Err IndexError
  | (k', a) :: l' => if k' =? k then Ok a else assoc_at l' k
  end.

Definition release_block (s : Z * gmap Z KVCacheBlock) (id : Z) : result (Z * gmap Z KVCacheBlock) :=
  let '(free, bs) := s in
  match bs !! id with
  | None => Err IndexError
  | Some b =>
      if is_placeholder b then Ok (free, bs)
      else
        b' ← dec_scheduling_ref_count b;
        Ok (if has_scheduling_refs b' then free else free + 1, <[id := b']> bs)
  end.

Definition window_scheduling_release_blocks (w : WindowBlockManager) (request_id : Z)
    : result WindowBlockManager :=
  ids ← assoc_at (allocated_blocks_per_seq w) request_id;
  '(free, bs) ← for_each release_block (scheduling_num_free_blocks w, blocks w) ids;
  Ok (with_blocks w free bs).

(** ** The manager *)

(** What the queries read of a sequence: its tokens, and per window the blocks
    of its first beam and how many of them slid out of the window. *)
Record Sequence := mkSequence {
  seq_num_tokens : Z;
  seq_cache_blocks : list (Z * (Z * Z));
}.

Record KvPool := mkPool {
  pool_windows : list WindowBlockManager;
  pool_window_vec : list Z;
  pool_sequences : list (Z * Sequence);
  tokens_per_block : Z;
  pool_chunk_size : Z;
  sink_bubble_length : Z;
  is_cross_kv : bool;
  pool_enable_block_reuse : bool;
  pool_is_variable_window : bool;
  pool_analysis : list Z -> option Z -> Z -> PrefixReuseSummary;
}.

Definition with_windows (p : KvPool) (ws : list WindowBlockManager) : KvPool :=
  mkPool ws (pool_window_vec p) (pool_sequences p) (tokens_per_block p) (pool_chunk_size p)
    (sink_bubble_length p) (is_cross_kv p) (pool_enable_block_reuse p) (pool_is_variable_window p)
    (pool_analysis p).

Definition start_scheduling (p : KvPool) : KvPool :=
  with_windows p (window_start_scheduling <$> pool_windows p).

Definition scheduling_remove_sequence (p : KvPool) (request_id : Z) : result KvPool :=
  ws ← mapM (fun w => window_scheduling_release_blocks w request_id) (pool_windows p);
  Ok (with_windows p ws).

Definition num_free_blocks_per_window_size (p : KvPool) : window_blocks :=
  (fun w => (window_size w, free_blocks w)) <$> pool_windows p.

Definition window_at (p : KvPool) (ws : Z) : result WindowBlockManager :=
  assoc_at ((fun w => (window_size w, w)) <$> pool_windows p) ws.

Definition scheduling_has_free_blocks (p : KvPool) (n ws : Z) : result bool :=
  w ← window_at p ws; Ok (n <=? scheduling_num_free_blocks w).

Definition analyze_prefix_reuse (p : KvPool) (toks : list Z) (r : LlmRequest) : PrefixReuseSummary :=
  pool_analysis p toks (lora_task_id r) (request_id r).

Definition ceil_div (a b : Z) : Z := (a + b - 1) `quot` b.

(** The prefix-reuse summary a query works with and the estimate it writes. *)
Definition reuse_for_query (p : KvPool) (r : LlmRequest) (applies : bool)
    (cached_summary : option PrefixReuseSummary) : result (option PrefixReuseSummary * Z) :=
  if pool_enable_block_reuse p && is_context_init_state r && is_first_context_chunk r && applies then
    let s := match cached_summary with
             | Some s => s
             | None => analyze_prefix_reuse p (unique_tokens r) r end in
    if 0 <? prompt_len r then
      let max_recoverable := (prompt_len r - 1) `quot` tokens_per_block p * tokens_per_block p in
      Ok (Some s, Z.min (reusable_tokens s) max_recoverable)
    else Err TllmException
  else Ok (None, 0).

Definition needed_for_context (p : KvPool) (r : LlmRequest) (ws : Z) (reuse : option PrefixReuseSummary)
    : result Z :=
  let tpb := tokens_per_block p in
  let max_draft := Z.min (num_draft_tokens r) (max_new_tokens r) in
  input_len ← (if is_cross_kv p then encoder_output_len r else Ok (prompt_len r));
  let cache_len := Z.min (input_len + max_draft) (ws + pool_chunk_size p) + sink_bubble_length p in
  let shared := cache_len `quot` tpb in
  let unshared := ceil_div (cache_len `rem` tpb) tpb * sampling_beam_width r in
  let required := shared + unshared in
  match reuse with
  | Some s =>
      if pool_is_variable_window p then Ok required
      else
        let window_len := Z.min (prompt_len r) (ws + pool_chunk_size p) in
        if 0 <? window_len then
          Ok (required - Z.min (Z.min (reusable_blocks_allocated s) shared) ((window_len - 1) `quot` tpb))
        else Err TllmException
  | None => Ok required
  end.

Definition needed_for_generation (p : KvPool) (r : LlmRequest) (two_steps : bool) (ws : Z) : result Z :=
  if is_cross_kv p then Ok 0
  else
    seq ← assoc_at (pool_sequences p) (request_id r);
    let tpb := tokens_per_block p in
    let curr := seq_num_tokens seq in
    let generated := curr - prompt_len r in
    let max_to_cache := max_new_tokens r - generated in
    let per_step := num_draft_tokens r + 1 in
    let next := curr + Z.min ((if two_steps then 2 else 1) * per_step) max_to_cache in
    w ← window_at p ws;
    if max_token_num w <? next then Ok 0
    else Ok ((ceil_div next tpb - ceil_div curr tpb) * sampling_beam_width r).

Definition get_needed_blocks_one_step (p : KvPool) (r : LlmRequest) (two_steps : bool) (ws : Z)
    (cached_summary : option PrefixReuseSummary) : result (Z * Z) :=
  '(reuse, estimate) ← reuse_for_query p r (negb (is_cross_kv p) && negb (is_disagg_generation_init_state r))
                         cached_summary;
  needed ← (if (is_context_init_state r && is_first_context_chunk r) || is_disagg_generation_init_state r
            then needed_for_context p r ws reuse
            else if is_generation_in_progress_state r then needed_for_generation p r two_steps ws
            else Ok 0);
  Ok (needed, estimate).

(** Blocks the first beam of the sequence holds in the window. *)
Definition allocated_per_beam (p : KvPool) (r : LlmRequest) (ws : Z) : result Z :=
  match assoc_at (pool_sequences p) (request_id r) with
  | Err _ => Ok 0
  | Ok seq => '(ids, removed) ← assoc_at (seq_cache_blocks seq) ws; Ok (ids - removed)
  end.

Definition remaining_for_self (p : KvPool) (r : LlmRequest) (ws : Z) (reuse : option PrefixReuseSummary)
    : result Z :=
  if negb (sink_bubble_length p =? 0) then Err TllmException
  else
    let tpb := tokens_per_block p in
    let limit := ws + pool_chunk_size p in
    let context_blocks := Z.min (prompt_len r) limit `quot` tpb in
    let total_per_beam := ceil_div (Z.min (prompt_len r + max_new_tokens r) limit) tpb in
    let gen_per_beam := total_per_beam - context_blocks in
    alloc ← allocated_per_beam p r ws;
    let reusable :=
      match reuse with
      | Some s =>
          if negb (pool_is_variable_window p) && (alloc =? 0)
          then Z.min (Z.min (reusable_blocks_allocated s) context_blocks) ((prompt_len r - 1) `quot` tpb)
          else 0
      | None => 0
      end in
    let max_len := prompt_len r + max_new_tokens r in
    let current_blocks := ceil_div (num_tokens r) tpb in
    let max_blocks := ceil_div max_len tpb in
    let extra := if (ws <? max_len) && (current_blocks <? max_blocks) && (total_per_beam <? max_blocks)
                 then 1 else 0 in
    let effective_context := context_blocks - reusable in
    if alloc <? effective_context
    then Ok (effective_context - alloc + (gen_per_beam + extra) * sampling_beam_width r)
    else Ok ((total_per_beam - reusable - alloc + extra) * sampling_beam_width r).

Definition get_remaining_blocks_to_completion (p : KvPool) (r : LlmRequest) (ws : Z)
    (cached_summary : option PrefixReuseSummary) : result (Z * Z) :=
  if is_cross_kv p then
    if is_context_init_state r && (context_current_position r =? 0)
    then n ← encoder_output_len r; Ok (ceil_div n (tokens_per_block p), 0)
    else Ok (0, 0)
  else
    '(reuse, estimate) ← reuse_for_query p r true cached_summary;
    n ← remaining_for_self p r ws reuse;
    Ok (n, estimate).

#[export] Instance KvPool_manager : KvCacheManager KvPool := {
  kv_num_free_blocks_per_window_size := num_free_blocks_per_window_size;
  kv_max_attention_window_vec := pool_window_vec;
  kv_is_variable_window := pool_is_variable_window;
  kv_enable_block_reuse := pool_enable_block_reuse;
  kv_signature := fun _ => None;
  kv_get_remaining_blocks_to_completion := get_remaining_blocks_to_completion;
  kv_get_needed_blocks_one_step := get_needed_blocks_one_step;
  kv_analyze_prefix_reuse := analyze_prefix_reuse;
  kv_start_scheduling := start_scheduling;
  kv_scheduling_has_free_blocks := scheduling_has_free_blocks;
  kv_scheduling_remove_sequence := scheduling_remove_sequence;
}.

(** ** The laws *)

Definition ok_fst (d : Z) (x : result (Z * Z)) : Z := match x with Ok (n, _) => n | Err _ => d end.

Definition pool_tokens (p : KvPool) (r : LlmRequest) : option (list Z) :=
  if is_cross_kv p then encoder_unique_tokens r else Some (unique_tokens r).

Definition pool_sched_free (p : KvPool) (ws : Z) : Z :=
  match window_at p ws with Ok w => scheduling_num_free_blocks w | Err _ => 0 end.

(** A summary the pool would compute itself makes no difference. *)
Lemma reuse_for_query_own p r applies s :
  is_cross_kv p = false ->
  s = None \/ (exists toks, pool_tokens p r = Some toks /\ s = Some (analyze_prefix_reuse p toks r)) ->
  reuse_for_query p r applies s = reuse_for_query p r applies None.
Proof.
  intros Hx [->|(toks & Ht & ->)]; [done|]. unfold pool_tokens in Ht. rewrite Hx in Ht. simplify_eq.
  by unfold reuse_for_query.
Qed.

Lemma remaining_law p r ws s :
  s = None \/ (exists toks, pool_tokens p r = Some toks /\ s = Some (analyze_prefix_reuse p toks r)) ->
  get_remaining_blocks_to_completion p r ws s = get_remaining_blocks_to_completion p r ws None.
Proof.
  intros Hs. unfold get_remaining_blocks_to_completion. destruct (is_cross_kv p) eqn:Hx; [done|].
  by rewrite (reuse_for_query_own p r true s Hx Hs).
Qed.

Lemma needed_law p r b ws s :
  s = None \/ (exists toks, pool_tokens p r = Some toks /\ s = Some (analyze_prefix_reuse p toks r)) ->
  get_needed_blocks_one_step p r b ws s = get_needed_blocks_one_step p r b ws None.
Proof.
  intros Hs. unfold get_needed_blocks_one_step. destruct (is_cross_kv p) eqn:Hx; simpl.
  - unfold reuse_for_query. by rewrite !andb_false_r.
  - by rewrite (reuse_for_query_own p r _ s Hx Hs).
Qed.

(** The scheduling simulation changes the blocks and free counts of the
    windows and nothing else. *)
Definition same_shape (w w' : WindowBlockManager) : Prop :=
  window_size w' = window_size w /\ max_token_num w' = max_token_num w /\ free_blocks w' = free_blocks w
  /\ allocated_blocks_per_seq w' = allocated_blocks_per_seq w.

Lemma release_block_grows s id s' : release_block s id = Ok s' -> s.1 <= s'.1.
Proof.
  destruct s as [free bs]. unfold release_block. destruct (bs !! id) as [b|]; [|done].
  destruct (is_placeholder b); intros Hrun; inv_ok; [done|]. simpl. split_if; lia.
Qed.

Lemma window_release_grows w id w' :
  window_scheduling_release_blocks w id = Ok w' ->
  same_shape w w' /\ scheduling_num_free_blocks w <= scheduling_num_free_blocks w'.
Proof.
  intros Hrun. unfold window_scheduling_release_blocks in Hrun.
  apply bind_Ok in Hrun as (ids & _ & Hrun). apply bind_Ok in Hrun as ([free bs] & E & Hrun).
  injection Hrun as <-. split; [done|]. simpl.
  apply (for_each_inv _ (fun s => scheduling_num_free_blocks w <= s.1)) in E; [done|simpl; lia|].
  intros s1 x s2 _ H1 Hb%release_block_grows. lia.
Qed.

Lemma remove_windows p id p' :
  scheduling_remove_sequence p id = Ok p' ->
  exists ws, p' = with_windows p ws
    /\ Forall2 (fun w w' => same_shape w w' /\ scheduling_num_free_blocks w <= scheduling_num_free_blocks w')
         (pool_windows p) ws.
Proof.
  intros Hrun. unfold scheduling_remove_sequence in Hrun. apply bind_Ok in Hrun as (ws & E & Hrun).
  injection Hrun as <-. exists ws. split; [done|]. clear -E. revert ws E.
  induction (pool_windows p) as [|w l IH]; intros ws E; simpl in E; [inv_ok; constructor|].
  apply bind_Ok in E as (w' & Ew & E). apply bind_Ok in E as (ws' & Ews & E). inv_ok.
  constructor; [by eapply window_release_grows|by apply IH].
Qed.

Lemma window_at_related p ws q (R : WindowBlockManager -> WindowBlockManager -> Prop) :
  Forall2 R (pool_windows p) ws -> (forall w w', R w w' -> window_size w' = window_size w) ->
  match window_at p q, window_at (with_windows p ws) q with
  | Ok w, Ok w' => R w w'
  | Err e, Err e' => e = e'
  | _, _ => False
  end.
Proof.
  intros Hf Hs. unfold window_at. simpl. induction Hf as [|w w' l l' Hw _ IH]; simpl; [done|].
  rewrite (Hs _ _ Hw). by destruct (window_size w =? q).
Qed.

Lemma needed_windows p ws r b q s :
  Forall2 same_shape (pool_windows p) ws ->
  get_needed_blocks_one_step (with_windows p ws) r b q s = get_needed_blocks_one_step p r b q s.
Proof.
  intros Hf. unfold get_needed_blocks_one_step.
  assert (Hg : needed_for_generation (with_windows p ws) r b q = needed_for_generation p r b q).
  { unfold needed_for_generation. simpl. destruct (is_cross_kv p); [done|].
    destruct (assoc_at (pool_sequences p) (request_id r)) as [seq|]; simpl; [|done].
    pose proof (window_at_related p ws q _ Hf ltac:(by intros ?? [])) as Hw.
    destruct (window_at p q) as [w|], (window_at (with_windows p ws) q) as [w'|]; simpl; try done.
    - by destruct Hw as (_ & -> & _).
    - by rewrite Hw. }
  by rewrite Hg.
Qed.

Lemma needed_start p r b q s :
  get_needed_blocks_one_step (start_scheduling p) r b q s = get_needed_blocks_one_step p r b q s.
Proof.
  apply needed_windows. apply Forall2_fmap_r, Forall_Forall2_diag, Forall_true. done.
Qed.

Lemma sched_free_grows p ws q :
  Forall2 (fun w w' => same_shape w w' /\ scheduling_num_free_blocks w <= scheduling_num_free_blocks w')
    (pool_windows p) ws ->
  pool_sched_free p q <= pool_sched_free (with_windows p ws) q.
Proof.
  intros Hf. unfold pool_sched_free. pose proof (window_at_related p ws q _ Hf) as Hw.
  specialize (Hw ltac:(by intros ?? [[]])).
  destruct (window_at p q), (window_at (with_windows p ws) q); try done. by destruct Hw.
Qed.

#[export] Program Instance KvPool_laws : KvCacheLaws KvPool := {
  kv_rem p ws r := ok_fst 0 (get_remaining_blocks_to_completion p r ws None);
  kv_need p b ws r := ok_fst 0 (get_needed_blocks_one_step p r b ws None);
  kv_sched_free := pool_sched_free;
  kv_tokens := pool_tokens;
}.
Next Obligation.
  intros p r ws s n e Hrun Hs. simpl in *. rewrite (remaining_law p r ws s Hs) in Hrun. by rewrite Hrun.
Qed.
Next Obligation.
  intros p r b ws s n e Hrun Hs. simpl in *. rewrite (needed_law p r b ws s Hs) in Hrun. by rewrite Hrun.
Qed.
Next Obligation. done. Qed.
Next Obligation. done. Qed.
Next Obligation. done. Qed.
Next Obligation. done. Qed.
Next Obligation.
  intros p n ws b. simpl. unfold scheduling_has_free_blocks, pool_sched_free. intros Hrun.
  destruct (window_at p ws); simpl in Hrun; by inv_ok.
Qed.
Next Obligation. done. Qed.
Next Obligation.
  intros p id p' (ws & -> & Hf)%remove_windows. split; [intros q; by apply sched_free_grows|].
  split; [|done]. intros b q r. rewrite needed_windows; [done|].
  eapply Forall2_impl; [exact Hf|]. by intros ?? [].
Qed.

(** ** Simulated release is exact *)

(** How often [id] occurs in [l]. *)
Definition occ (id : Z) (l : list Z) : Z := zsum (fun x => if decide (x = id) then 1 else 0) l.

Definition seq_blocks (w : WindowBlockManager) (request_id : Z) : list Z :=
  match assoc_at (allocated_blocks_per_seq w) request_id with Ok ids => ids | Err _ => [] end.

(** The blocks whose references all come from the references [rel]. *)
Definition freed_by (w : WindowBlockManager) (rel : list Z) : gset Z :=
  dom (filter (fun '(id, b) => is_placeholder b = false /\ 0 < ref_count b /\ ref_count b = occ id rel)
         (blocks w)).

(** Every block a sequence references exists and counts at least the
    references of the sequences (a pinned block counts more). *)
Record wf_window (w : WindowBlockManager) : Prop := {
  wf_keys : NoDup (allocated_blocks_per_seq w).*1;
  wf_refs id : id ∈ all_allocated w -> exists b, blocks w !! id = Some b
    /\ (is_placeholder b = false -> occ id (all_allocated w) <= ref_count b);
}.

Lemma occ_app id l k : occ id (l ++ k) = occ id l + occ id k.
Proof. apply zsum_app. Qed.

Lemma occ_nonneg id l : 0 <= occ id l.
Proof. apply zsum_nonneg. intros x _. case_decide; lia. Qed.

Lemma occ_submseteq id l k : l ⊆+ k -> occ id l <= occ id k.
Proof.
  intros [r ->]%submseteq_Permutation. rewrite occ_app. pose proof (occ_nonneg id r). lia.
Qed.

Lemma occ_singleton id x : occ id [x] = if decide (x = id) then 1 else 0.
Proof. unfold occ. rewrite zsum_cons, zsum_nil. lia. Qed.

Lemma elem_freed_by w rel id :
  id ∈ freed_by w rel <-> exists b, blocks w !! id = Some b
    /\ is_placeholder b = false /\ 0 < ref_count b /\ ref_count b = occ id rel.
Proof.
  unfold freed_by. rewrite elem_of_dom. split.
  - intros [b [? ?]%map_lookup_filter_Some]. eauto.
  - intros (b & Hb & ?). exists b. by apply map_lookup_filter_Some.
Qed.

(** The state of the simulation after the references [rel] were dropped. *)
Record rel_inv (w : WindowBlockManager) (rel : list Z) (s : Z * gmap Z KVCacheBlock) : Prop := {
  ri_free : s.1 = free_blocks w + Z.of_nat (size (freed_by w rel));
  ri_blocks id b : id ∈ all_allocated w -> blocks w !! id = Some b ->
    exists b', s.2 !! id = Some b' /\ is_placeholder b' = is_placeholder b
      /\ ref_count b' = ref_count b
      /\ (is_placeholder b = false -> scheduling_ref_count b' = ref_count b - occ id rel);
}.

Lemma freed_by_other w rel id :
  (forall b, blocks w !! id = Some b -> is_placeholder b = false -> ref_count b <> occ id rel + 1) ->
  (forall b, blocks w !! id = Some b -> is_placeholder b = false -> ref_count b <> occ id rel) ->
  freed_by w (rel ++ [id]) = freed_by w rel.
Proof.
  intros Hne Hne'. apply set_eq. intros x. rewrite !elem_freed_by.
  setoid_rewrite occ_app. setoid_rewrite occ_singleton.
  destruct (decide (id = x)) as [->|Hx]; [|by setoid_rewrite Z.add_0_r].
  split; intros (b & Hb & Hp & Hr & He); exfalso; [by eapply Hne|by eapply Hne'].
Qed.

Lemma freed_by_last w rel id b :
  blocks w !! id = Some b -> is_placeholder b = false -> ref_count b = occ id rel + 1 ->
  size (freed_by w (rel ++ [id])) = S (size (freed_by w rel)).
Proof.
  intros Hb Hp Hr. pose proof (occ_nonneg id rel).
  assert (freed_by w (rel ++ [id]) = {[id]} ∪ freed_by w rel) as ->.
  { apply set_eq. intros x. rewrite elem_of_union, elem_of_singleton, !elem_freed_by.
    setoid_rewrite occ_app. setoid_rewrite occ_singleton.
    destruct (decide (id = x)) as [->|Hx].
    - split; [by left|]. intros _. exists b. repeat split; [done|done|lia|lia].
    - setoid_rewrite Z.add_0_r. split; [by right|]. intros [->|?]; done. }
  rewrite size_union, size_singleton; [done|].
  intros x ->%elem_of_singleton (b' & Hb' & _ & _ & He)%elem_freed_by. simplify_eq. lia.
Qed.

Lemma release_block_ok w rel s id :
  wf_window w -> rel_inv w rel s -> rel ++ [id] ⊆+ all_allocated w ->
  exists s', release_block s id = Ok s' /\ rel_inv w (rel ++ [id]) s'.
Proof.
  intros Hwf [Hf Hb] Hsub. destruct s as [free bs]. simpl in *.
  assert (Hin : id ∈ all_allocated w).
  { eapply elem_of_submseteq; [|exact Hsub]. apply elem_of_app. right. left. }
  destruct (wf_refs _ Hwf id Hin) as (b & Hid & Href).
  destruct (Hb id b Hin Hid) as (b' & Hb' & Hp & Hr & Hs). unfold release_block. rewrite Hb', Hp.
  assert (Hocc : forall x, occ x (rel ++ [id]) = occ x rel + if decide (id = x) then 1 else 0)
    by (intros x; by rewrite occ_app, occ_singleton).
  destruct (is_placeholder b) eqn:Ep.
  - eexists. split; [done|]. split; simpl.
    + rewrite freed_by_other; [done|..]; intros b0 Hb0; simplify_eq; congruence.
    + intros x bx Hx Hbx. destruct (Hb x bx Hx Hbx) as (bx' & ? & ? & ? & Hsx). exists bx'.
      repeat split; try done. intros Hpx. rewrite Hocc.
      destruct (decide (id = x)) as [->|]; [simplify_eq; congruence|]. rewrite Hsx by done. lia.
  - specialize (Href eq_refl). specialize (Hs eq_refl).
    assert (Hle : occ id rel + 1 <= ref_count b).
    { pose proof (occ_submseteq id _ _ Hsub) as Ho. rewrite Hocc in Ho.
      destruct (decide (id = id)); [lia|done]. }
    unfold dec_scheduling_ref_count, has_scheduling_refs. rewrite Hs, (proj2 (Z.ltb_lt _ _)) by lia. simpl.
    eexists. split; [done|]. split; simpl.
    + destruct (0 <? ref_count b - occ id rel - 1) eqn:E; bool_to_prop.
      * rewrite freed_by_other; [done|..]; intros b0 Hb0 _; simplify_eq; lia.
      * rewrite (freed_by_last w rel id b); [lia|done|done|lia].
    + intros x bx Hx Hbx. rewrite Hocc. destruct (decide (id = x)) as [->|Hne].
      * simplify_eq. rewrite lookup_insert_eq. eexists. split; [done|]. simpl.
        rewrite Hr, Hp. repeat split; [congruence|]. intros _. lia.
      * rewrite lookup_insert_ne by done.
        destruct (Hb x bx Hx Hbx) as (bx' & ? & ? & ? & Hsx). exists bx'.
        repeat split; try done. intros Hpx. rewrite Hsx by done. lia.
Qed.

Lemma release_blocks_ok w ids rel s :
  wf_window w -> rel_inv w rel s -> rel ++ ids ⊆+ all_allocated w ->
  exists s', for_each release_block s ids = Ok s' /\ rel_inv w (rel ++ ids) s'.
Proof.
  intros Hwf. revert rel s. induction ids as [|id ids IH]; intros rel s Hinv Hsub; simpl.
  - exists s. by rewrite app_nil_r.
  - rewrite (cons_middle id rel ids), app_assoc in Hsub.
    destruct (release_block_ok w rel s id) as (s' & -> & Hinv'); [done|done| |].
    { etrans; [|exact Hsub]. by apply submseteq_inserts_r. }
    simpl. destruct (IH (rel ++ [id]) s' Hinv' Hsub) as (s'' & -> & Hinv'').
    exists s''. split; [done|]. by rewrite <- app_assoc in Hinv''.
Qed.

Lemma start_scheduling_inv w :
  wf_window w ->
  rel_inv w [] (scheduling_num_free_blocks (window_start_scheduling w), blocks (window_start_scheduling w)).
Proof.
  intros Hwf. unfold window_start_scheduling. split; simpl.
  - assert (freed_by w [] = ∅) as ->; [|rewrite size_empty; lia].
    apply set_eq. intros x. rewrite elem_freed_by. split; [|by intros ?%elem_of_empty].
    intros (b & _ & _ & ? & He). unfold occ in He. rewrite zsum_nil in He. lia.
  - intros id b Hin Hb. exists (block_start_scheduling b).
    split; [|repeat split; intros _; simpl; lia].
    enough (Hgen : forall l bs, (bs !! id = Some b \/ bs !! id = Some (block_start_scheduling b)) ->
      (id ∈ l \/ bs !! id = Some (block_start_scheduling b)) ->
      foldl (fun bs id => alter block_start_scheduling id bs) bs l !! id = Some (block_start_scheduling b))
      by (apply Hgen; auto).
    induction l as [|x l IH]; intros bs Hbs Hl; simpl.
    + destruct Hl as [Hl|?]; [by apply elem_of_nil in Hl|done].
    + destruct (decide (x = id)) as [->|Hne].
      * assert (alter block_start_scheduling id bs !! id = Some (block_start_scheduling b))
          by (rewrite lookup_alter_eq; by destruct Hbs as [->| ->]).
        apply IH; auto.
      * apply IH; rewrite lookup_alter_ne by done; [done|].
        destruct Hl as [[->|?]%elem_of_cons|?]; [done|by left|by right].
Qed.

(** Sequences *)

Definition blocks_of (w : WindowBlockManager) (ids : list Z) : list Z := ids ≫= seq_blocks w.

Lemma assoc_at_elem {A} (l : list (Z * A)) k a : NoDup l.*1 -> (k, a) ∈ l -> assoc_at l k = Ok a.
Proof.
  induction l as [|[k' a'] l IH]; simpl; intros Hnd Hin; [by apply elem_of_nil in Hin|].
  apply NoDup_cons in Hnd as [Hk Hnd]. apply elem_of_cons in Hin as [[= -> ->]|Hin].
  - by rewrite Z.eqb_refl.
  - rewrite (proj2 (Z.eqb_neq k' k)); [by apply IH|]. intros ->. apply Hk.
    apply list_elem_of_fmap. by exists (k, a).
Qed.

Lemma blocks_of_all w :
  NoDup (allocated_blocks_per_seq w).*1 ->
  blocks_of w (allocated_blocks_per_seq w).*1 = all_allocated w.
Proof.
  intros Hnd. unfold blocks_of, all_allocated.
  assert (Hsub : forall p, p ∈ allocated_blocks_per_seq w -> seq_blocks w p.1 = p.2).
  { intros [k a] Hin. unfold seq_blocks. simpl. by rewrite (assoc_at_elem _ k a Hnd Hin). }
  clear Hnd. revert Hsub. generalize (allocated_blocks_per_seq w).
  induction l as [|p l IH]; intros Hsub; [done|]. simpl.
  rewrite (Hsub p) by left. f_equal. apply IH. intros q Hq. apply Hsub. by right.
Qed.

Lemma blocks_of_contained w ids :
  wf_window w -> NoDup ids -> (forall id, id ∈ ids -> id ∈ (allocated_blocks_per_seq w).*1) ->
  blocks_of w ids ⊆+ all_allocated w.
Proof.
  intros Hwf Hnd Hin. rewrite <- blocks_of_all by apply Hwf. unfold blocks_of.
  apply bind_submseteq, NoDup_submseteq; [done|]. auto.
Qed.

Lemma release_sequences_ok w w0 rel ids :
  wf_window w -> same_shape w w0 ->
  rel_inv w rel (scheduling_num_free_blocks w0, blocks w0) ->
  (forall id, id ∈ ids -> id ∈ (allocated_blocks_per_seq w).*1) ->
  rel ++ blocks_of w ids ⊆+ all_allocated w ->
  exists w', for_each window_scheduling_release_blocks w0 ids = Ok w' /\ same_shape w w'
    /\ rel_inv w (rel ++ blocks_of w ids) (scheduling_num_free_blocks w', blocks w').
Proof.
  intros Hwf. revert w0 rel. induction ids as [|id ids IH]; intros w0 rel Hsh Hinv Hin Hsub; simpl.
  { exists w0. by rewrite app_nil_r. }
  assert (Hat : assoc_at (allocated_blocks_per_seq w) id = Ok (seq_blocks w id)).
  { assert (Hk : id ∈ (allocated_blocks_per_seq w).*1) by (apply Hin; left).
    apply list_elem_of_fmap in Hk as ([k a] & -> & Hk). simpl. unfold seq_blocks.
    by rewrite (assoc_at_elem _ k a (wf_keys _ Hwf) Hk). }
  change (blocks_of w (id :: ids)) with (seq_blocks w id ++ blocks_of w ids) in *.
  rewrite app_assoc in *. destruct Hsh as (? & ? & ? & Hal).
  destruct (release_blocks_ok w (seq_blocks w id) rel _ Hwf Hinv) as ([free bs] & Hrel & Hinv').
  { etrans; [|exact Hsub]. by apply submseteq_inserts_r. }
  assert (window_scheduling_release_blocks w0 id = Ok (with_blocks w0 free bs)) as ->.
  { unfold window_scheduling_release_blocks. rewrite Hal, Hat. simpl. by rewrite Hrel. }
  apply IH; try done. intros k Hk. apply Hin. by right.
Qed.

Lemma release_exact w ids :
  wf_window w -> NoDup ids -> (forall id, id ∈ ids -> id ∈ (allocated_blocks_per_seq w).*1) ->
  exists w', for_each window_scheduling_release_blocks (window_start_scheduling w) ids = Ok w'
    /\ same_shape w w'
    /\ scheduling_num_free_blocks w' = free_blocks w + Z.of_nat (size (freed_by w (blocks_of w ids))).
Proof.
  intros Hwf Hnd Hin.
  destruct (release_sequences_ok w (window_start_scheduling w) [] ids) as (w' & Hrun & Hsh & [Hf _]); try done.
  - by apply start_scheduling_inv.
  - by apply blocks_of_contained.
  - exists w'. done.
Qed.

Lemma assoc_at_key {A} (l : list (Z * A)) k a : assoc_at l k = Ok a -> k ∈ l.*1.
Proof.
  induction l as [|[k' a'] l IH]; simpl; [done|]. destruct (k' =? k) eqn:E; bool_to_prop; intros Hrun.
  - subst. left.
  - right. auto.
Qed.

Lemma released_present w ids w' :
  for_each window_scheduling_release_blocks w ids = Ok w' ->
  forall id, id ∈ ids -> id ∈ (allocated_blocks_per_seq w).*1.
Proof.
  revert w. induction ids as [|id ids IH]; intros w Hrun k Hk; [by apply elem_of_nil in Hk|].
  simpl in Hrun. apply bind_Ok in Hrun as (w1 & E & Hrun).
  pose proof (window_release_grows _ _ _ E) as [(_ & _ & _ & Hal) _].
  apply elem_of_cons in Hk as [->|Hk].
  - unfold window_scheduling_release_blocks in E. apply bind_Ok in E as (l & E & _). by eapply assoc_at_key.
  - rewrite <- Hal. by eapply IH.
Qed.

Lemma released_shape w ids w' :
  for_each window_scheduling_release_blocks w ids = Ok w' -> same_shape w w'.
Proof.
  revert w. induction ids as [|id ids IH]; intros w Hrun; simpl in Hrun; [by injection Hrun as <-|].
  apply bind_Ok in Hrun as (w1 & [(?&?&?&?) _]%window_release_grows & (?&?&?&?)%IH).
  unfold same_shape. repeat split; congruence.
Qed.

Lemma release_then ws ws1 ws2 id ids :
  mapM (fun w => window_scheduling_release_blocks w id) ws = Ok ws1 ->
  Forall2 (fun w w' => for_each window_scheduling_release_blocks w ids = Ok w') ws1 ws2 ->
  Forall2 (fun w w' => for_each window_scheduling_release_blocks w (id :: ids) = Ok w') ws ws2.
Proof.
  revert ws1 ws2. induction ws as [|w ws IH]; intros ws1 ws2 E Hf; simpl in E.
  - injection E as <-. by inversion Hf.
  - apply bind_Ok in E as (w1 & Ew & E). apply bind_Ok in E as (ws1' & Ews & E). injection E as <-.
    inversion Hf as [|? w2 ? ws2' Hw Hf2]; simplify_eq. constructor; [|by eapply IH].
    simpl. by rewrite Ew.
Qed.

(** Removing sequences from the pool removes them from each window. *)
Lemma remove_each p ids p' :
  for_each scheduling_remove_sequence p ids = Ok p' ->
  exists ws, p' = with_windows p ws
    /\ Forall2 (fun w w' => for_each window_scheduling_release_blocks w ids = Ok w') (pool_windows p) ws.
Proof.
  revert p. induction ids as [|id ids IH]; intros p Hrun; simpl in Hrun.
  - injection Hrun as <-. exists (pool_windows p). split; [by destruct p|].
    by apply Forall_Forall2_diag, Forall_true.
  - apply bind_Ok in Hrun as (p1 & E & Hrun). apply IH in Hrun as (ws & -> & Hf).
    unfold scheduling_remove_sequence in E. apply bind_Ok in E as (ws1 & E & [= <-]).
    exists ws. split; [done|]. by eapply release_then.
Qed.

Lemma window_sizes_kept ids ws ws' :
  Forall2 (fun w w' => for_each window_scheduling_release_blocks w ids = Ok w') ws ws' ->
  window_size <$> ws' = window_size <$> ws.
Proof.
  induction 1 as [|w w' ws ws' Hw _ IH]; [done|]. apply released_shape in Hw as (Hs & _).
  rewrite !fmap_cons. by rewrite Hs, IH.
Qed.

(** The free blocks of a window once the sequences [ids] were removed. *)
Lemma pool_sched_free_exact p ids p' w :
  NoDup (window_size <$> pool_windows p) -> w ∈ pool_windows p -> wf_window w -> NoDup ids ->
  for_each scheduling_remove_sequence (start_scheduling p) ids = Ok p' ->
  pool_sched_free p' (window_size w) = free_blocks w + Z.of_nat (size (freed_by w (blocks_of w ids))).
Proof.
  intros Hws Hin Hwf Hnd Hrun. apply remove_each in Hrun as (ws & -> & Hf). simpl in Hf.
  apply list_elem_of_lookup in Hin as [i Hi].
  destruct (Forall2_lookup_l _ _ _ i (window_start_scheduling w) Hf) as (w' & Hw' & Hrel).
  { by rewrite list_lookup_fmap, Hi. }
  destruct (release_exact w ids Hwf Hnd) as (w'' & Hrel' & (Hsz & _) & Hfree).
  { intros id Hid. by apply (released_present _ _ _ Hrel id Hid). }
  assert (w'' = w') as -> by congruence.
  apply window_sizes_kept in Hf. rewrite <- list_fmap_compose in Hf.
  change (window_size <$> ws = window_size <$> pool_windows p) in Hf.
  unfold pool_sched_free, window_at. simpl.
  rewrite (assoc_at_elem _ (window_size w) w'); [done|..].
  - rewrite <- list_fmap_compose. change (NoDup (window_size <$> ws)). by rewrite Hf.
  - rewrite <- Hsz. apply list_elem_of_fmap. exists w'. split; [done|]. by eapply list_elem_of_lookup_2.
Qed.

(** Simulated release is exact: after [startScheduling], releasing any set
    of sequences raises nothing, and the blocks then counted as free are the
    free blocks plus exactly the blocks whose every reference is held by one of
    those sequences (blocks shared with another sequence, pinned blocks and
    placeholders stay). *)
Theorem scheduling_release_exact w ids :
  wf_window w -> NoDup ids -> (forall id, id ∈ ids -> id ∈ (allocated_blocks_per_seq w).*1) ->
  exists w', for_each window_scheduling_release_blocks (window_start_scheduling w) ids = Ok w'
    /\ scheduling_num_free_blocks w' = free_blocks w + Z.of_nat (size (freed_by w (blocks_of w ids))).
Proof.
  intros Hwf Hnd Hin. destruct (release_exact w ids Hwf Hnd Hin) as (w' & Hrun & _ & Hf). eauto.
Qed.

(** *** Witnesses *)

(** Four blocks in use: sequences 3 and 7 share block 11, block 12 is sequence
    3's alone, block 13 sequence 7's, and block 14 is a placeholder. *)
Definition wit_window (free : Z) : WindowBlockManager :=
  mkWindow 1024 1024 free 0
    {[ 11 := mkBlock 2 0 false; 12 := mkBlock 1 0 false; 13 := mkBlock 1 0 false; 14 := mkBlock 0 0 true ]}
    [(3, [11; 12; 14]); (7, [11; 13])].

Lemma wit_window_wf free : wf_window (wit_window free).
Proof.
  split.
  - apply (bool_decide_unpack _). vm_compute. exact I.
  - intros id Hin. apply (bool_decide_pack _) in Hin.
    assert (Hcases : id = 11 \/ id = 12 \/ id = 13 \/ id = 14).
    { apply bool_decide_unpack in Hin. revert Hin. unfold all_allocated. simpl.
      rewrite !elem_of_cons, elem_of_nil. lia. }
    destruct Hcases as [->|[->|[->| ->]]]; eexists; (split; [reflexivity|]); vm_compute; congruence.
Qed.

Lemma scheduling_release_exact_witness :
  exists w', for_each window_scheduling_release_blocks (window_start_scheduling (wit_window 5)) [3] = Ok w'
    /\ scheduling_num_free_blocks w' = 5 + Z.of_nat (size (freed_by (wit_window 5) (blocks_of (wit_window 5) [3]))).
Proof.
  apply (scheduling_release_exact (wit_window 5) [3]).
  - apply wit_window_wf.
  - apply (bool_decide_unpack _). vm_compute. exact I.
  - intros id ->%list_elem_of_singleton. left.
Defined.

(** Only block 12 is freed by pausing sequence 3; both 11 and 13 as well when
    sequence 7 is paused too. *)
Example wit_release_eval :
  (scheduling_num_free_blocks <$> for_each window_scheduling_release_blocks
     (window_start_scheduling (wit_window 5)) [3]) = Ok 6
  /\ (scheduling_num_free_blocks <$> for_each window_scheduling_release_blocks
     (window_start_scheduling (wit_window 5)) [3; 7]) = Ok 8.
Proof. vm_compute. done. Qed.

(** A pool of one window over those blocks, 16 tokens a block: sequence 3 has
    48 tokens, sequence 7 has 32, nothing is cached, and the first token names
    the first block a prompt would add. *)
Definition wit_pool (free : Z) (reuse : bool) : KvPool :=
  mkPool [wit_window free] [1024]
    [(3, mkSequence 48 [(1024, (3, 0))]); (7, mkSequence 32 [(1024, (2, 0))])]
    16 0 0 false reuse false (fun toks _ _ => mkPrefixReuse 0 0 0 (head toks)).

Definition with_unique_tokens (r : LlmRequest) (toks : list Z) : LlmRequest :=
  mkLlmRequest (request_id r) (state r) (prompt_len r) (context_current_position r)
    (prepopulated_prompt_len r) (m_context_chunk_size r) (estimated_reusable_tokens r) (num_tokens r)
    (draft_tokens r) (sampling_beam_width r) (beam_width_array r) (decoding_iter r)
    (opt_encoder_output_len r) (lora_task_id r) (encoder_output_ready_event r)
    toks (encoder_unique_tokens r) (max_new_tokens r).

(** Two new prompts with the same first block, and the two running sequences. *)
Definition wit_new (id n key : Z) : LlmRequest :=
  with_unique_tokens (new_request id CONTEXT_INIT n []) [key].
Definition wit_running (id n : Z) : LlmRequest := new_request id GENERATION_IN_PROGRESS n [].

Definition wit_capacity (policy : CapacitySchedulerPolicy) (free : Z) (reuse : bool)
    : PyCapacityScheduler KvPool :=
  mkCapacity 8 (Some (wit_pool free reuse)) (Some (mkPeft 4 (fun _ => 1))) policy None false
    CONTEXT_INIT GENERATION_COMPLETE.

Definition wit_batch : list LlmRequest := [wit_running 3 38; wit_new 1 40 100; wit_new 2 50 100; wit_running 7 28].
