(* ===== verification/NoEvict.v ===== *)
(** * GUARANTEED_NO_EVICT: every admitted request can run to completion

    Invariants of [GuaranteedNoEvictPolicy.schedule] (Capacity.v): the blocks
    the scheduled requests need to complete, the LoRA pages they claim, the
    blocks they contribute for reuse, and where they come from. *)

From stdpp Require Import prelude gmap sorting.
From S2P Require Import Prelude Request MicroBatch Capacity KvPool.
Local Open Scope Z_scope.

Section no_evict.
Context {M : Type} `{KvCacheLaws M} (sch : PyCapacityScheduler M) (static_batch : bool) (m : M).
Context (active : list LlmRequest).
Context (Hnd : NoDup (request_id <$> active)).
Context (Hself : forall q, kv_tokens m q = Some (unique_tokens q)).
Context (Hcross : forall xm q, cross_kv_cache_manager sch = Some xm -> kv_tokens xm q = encoder_unique_tokens q).
Context (Hpeft : peft_stable sch).

(** What is left of [blocks] when the requests [rs] keep theirs to completion. *)
Definition deduct (m : M) (rs : list LlmRequest) (blocks : window_blocks) : window_blocks :=
  (fun '(w, n) => (w, n - zsum (kv_rem m w) rs)) <$> blocks.

Definition deduct_cross (rs : list LlmRequest) : option window_blocks :=
  (fun xm => deduct xm rs (no_evict_blocks xm)) <$> cross_kv_cache_manager sch.

Definition no_shortage (blocks : window_blocks) : Prop := Forall (fun '(_, n) => 0 <= n) blocks.

Definition fits (st : ne_state) : Prop :=
  no_shortage (ne_blocks st) /\ forall xb, ne_cross_blocks st = Some xb -> no_shortage xb.

Lemma deduct_snoc (m' : M) rs r r' blocks :
  forget r' = forget r ->
  (fun '(w, n) => (w, n - kv_rem m' w r)) <$> deduct m' rs blocks = deduct m' (rs ++ [r']) blocks.
Proof using Type.
  intros Hr. unfold deduct. rewrite <- list_fmap_compose. apply list_fmap_ext.
  intros i [w n] _. simpl. rewrite zsum_snoc. f_equal.
  rewrite (forget_ext (kv_rem m' w) r' r); [lia|apply kv_rem_forget|done].
Qed.

Lemma reserve_spec rs r s xs b xb r' :
  own_summary m r s ->
  (forall xm, cross_kv_cache_manager sch = Some xm -> own_summary xm r xs) ->
  reserve_to_completion m (cross_kv_cache_manager sch) (deduct m rs (no_evict_blocks m))
    (deduct_cross rs) r s xs = Ok (b, xb, r') ->
  b = deduct m (rs ++ [r']) (no_evict_blocks m) /\ xb = deduct_cross (rs ++ [r']) /\ forget r' = forget r.
Proof using Type.
  clear Hcross. intros Hs Hxs Hrun. unfold reserve_to_completion in Hrun.
  destruct (decrement_reserved_blocks m _ r s) as [[b1 r1]|] eqn:E1; simpl in Hrun; [|done].
  apply decrement_spec in E1 as [-> Hr1]; [|done].
  unfold deduct_cross in *. destruct (cross_kv_cache_manager sch) as [xm|]; simpl in *.
  - destruct (decrement_reserved_blocks xm _ r1 xs) as [[b2 r2]|] eqn:E2; simpl in Hrun; [|done].
    apply decrement_spec in E2 as [-> Hr2]; [|apply (own_summary_ext xm r r1); by auto]. inv_ok.
    split; [apply deduct_snoc; congruence|]. split; [|congruence].
    f_equal. by apply deduct_snoc.
  - inv_ok. split; [by apply deduct_snoc|done].
Qed.

Record ne_inv (st : ne_state) : Prop := {
  ni_blocks : ne_blocks st = deduct m (decoders (ne_scheduled st)) (no_evict_blocks m);
  ni_cross : ne_cross_blocks st = deduct_cross (decoders (ne_scheduled st));
  ni_len : len (ne_scheduled st) <= Z.max 0 (max_num_requests sch);
  ni_skip : skip_ok m (cross_kv_cache_manager sch) active (ne_skip st);
  ni_elig : Forall (fun r => can_be_scheduled_with_disagg_exception sch r = true) (ne_scheduled st);
}.

(** [r'] was appended and took its blocks. *)
Lemma ne_inv_decoder st r r' b xb pages tasks sk :
  ne_inv st -> eligible sch r -> forget r' = forget r -> is_encoder_init_state r = false ->
  len (ne_scheduled st) < max_num_requests sch ->
  b = deduct m (decoders (ne_scheduled st) ++ [r']) (no_evict_blocks m) ->
  xb = deduct_cross (decoders (ne_scheduled st) ++ [r']) ->
  skip_ok m (cross_kv_cache_manager sch) active sk ->
  ne_inv (mkNe (ne_scheduled st ++ [r']) b xb pages tasks sk).
Proof using Type.
  intros [] He Hr Henc Hlen -> -> Hsk.
  assert (is_encoder_init_state r' = false) by (rewrite <- Henc; by apply (forget_ext is_encoder_init_state)).
  split; simpl; rewrite ?decoders_snoc by done; try done.
  - rewrite length_app. simpl. lia.
  - apply Forall_app. split; [done|]. constructor; [|done]. by eapply eligible_forget.
Qed.

(** *** First pass *)

Definition in_generation (r : LlmRequest) : Prop := is_generation_in_progress_state r = true.

(** A request that waits for the second pass. *)
Definition waiting (r : LlmRequest) : Prop :=
  r ∈ active /\ eligible sch r /\ is_generation_in_progress_state r = false.

Record fp_inv (seen : list LlmRequest) (s : ne_state * list LlmRequest * list LlmRequest) : Prop := {
  fp_ne : ne_inv s.1.1;
  fp_gen : Forall in_generation (ne_scheduled s.1.1);
  fp_wait : Forall waiting (s.1.2 ++ s.2);
  fp_prov : forget <$> (ne_scheduled s.1.1 ++ s.1.2 ++ s.2) ⊆+ forget <$> seen;
  fp_peft : is_Some (peft_cache_manager sch) ->
    (ne_pages s.1.1, ne_task_ids s.1.1) = peft_account sch (ne_scheduled s.1.1);
  fp_skip : ne_skip s.1.1 = ne_skip (ne_init sch static_batch m active);
}.

Lemma deduct_nil (m' : M) blocks : deduct m' [] blocks = blocks.
Proof using Type.
  unfold deduct. rewrite <- (list_fmap_id blocks) at 2. apply list_fmap_ext.
  intros i [w n] _. rewrite zsum_nil. simpl. f_equal. lia.
Qed.

Lemma fp_init : fp_inv [] (ne_init sch static_batch m active, [], []).
Proof using Type.
  clear Hcross. unfold ne_init.
  destruct (if _ : bool then prefill_contributed_blocks _ _ _ else _) as [ctx cross] eqn:E.
  split; simpl; try done; [split; simpl|].
  - by rewrite deduct_nil.
  - unfold deduct_cross. destruct (cross_kv_cache_manager sch); simpl; [|done]. by rewrite deduct_nil.
  - lia.
  - split; simpl; intros; apply cache_own_empty.
  - done.
  - unfold ne_init. by rewrite E.
Qed.

Lemma fp_step seen r rest s c :
  active = seen ++ r :: rest -> fp_inv seen s -> first_pass_body sch m s r = Ok c ->
  fp_inv (seen ++ [r]) (ctl_state c).
Proof using Type.
  clear Hcross Hpeft. intros Hact Hinv Hrun.
  assert (Hr : r ∈ active) by (rewrite Hact; apply elem_of_app; right; left).
  destruct s as [[st dis] pend]. unfold first_pass_body in Hrun.
  destruct Hinv as [Hne Hgen Hwait Hprov Hpft Hsk]; simpl in *.
  destruct (can_be_scheduled_with_disagg_exception sch r) eqn:Hel; simpl in Hrun.
  2: { inv_ok. split; simpl; try done. by apply prov_skip. }
  destruct (max_num_requests sch <=? _) eqn:Emax; bool_to_prop.
  { inv_ok. split; simpl; try done. by apply prov_skip. }
  destruct (is_generation_in_progress_state r) eqn:Eg.
  - rewrite (ni_blocks _ Hne), (ni_cross _ Hne) in Hrun.
    destruct (reserve_to_completion _ _ _ _ _ _ _) as [[[b xb] r']|] eqn:E; simpl in Hrun; [|done].
    apply reserve_spec in E as (Hb & Hxb & Hr'); [|by left|by left].
    set (acc := match peft_cache_manager sch with None => _ | Some _ => _ end) in Hrun.
    destruct acc as [pages tasks] eqn:Eacc. inv_ok. subst acc. simpl.
    split; simpl; try done.
    + apply (ne_inv_decoder st r); try done; [|apply Hne].
      unfold is_encoder_init_state, is_generation_in_progress_state in *. by destruct (state r).
    + apply Forall_app. split; [done|]. constructor; [|done]. unfold in_generation.
      rewrite <- Eg. by apply (forget_ext is_generation_in_progress_state).
    + eapply prov_grow; [|exact Hr'|exact Hprov]. solve_Permutation.
    + intros Hp. specialize (Hpft Hp). destruct Hp as [p Hp]. rewrite Hp in Eacc.
      rewrite peft_account_snoc, <- Hpft, <- Eacc.
      exact (new_task_pages sch r' (ne_task_ids st) (ne_pages st)).
  - assert (waiting r) by done.
    destruct (is_disagg_generation_init_state r); inv_ok; split; simpl; try done.
    + rewrite <- app_assoc, Forall_app. apply Forall_app in Hwait as [? ?].
      split; [done|]. by constructor.
    + eapply prov_grow; [|reflexivity|exact Hprov]. solve_Permutation.
    + rewrite app_assoc, Forall_app. split; [done|]. by constructor.
    + eapply prov_grow; [|reflexivity|exact Hprov]. solve_Permutation.
Qed.

(** *** Second pass *)

Definition skipping : bool := negb static_batch && is_skipping_relevant sch.

(** [base] and [start] are the requests and the state the pass starts from,
    [seen] the pending requests it has looked at. *)
Record sp_inv (start : ne_state) (seen : list LlmRequest) (st : ne_state) : Prop := {
  sp_ne : ne_inv st;
  sp_gens : filter in_generation (ne_scheduled st) = ne_scheduled start;
  sp_fits : fits start -> fits st;
  sp_prov : forget <$> ne_scheduled st ⊆+ forget <$> (ne_scheduled start ++ seen);
  sp_peft : is_Some (peft_cache_manager sch) ->
    (get_max_peft_pages sch - ne_pages st, ne_task_ids st) = peft_account sch (ne_scheduled st)
    /\ (0 <= ne_pages start -> 0 <= ne_pages st);
  sp_new : skipping = true -> NoDup (new_blocks m (ne_scheduled st))
    /\ (forall b, b ∈ new_blocks m (ne_scheduled st) -> b ∈ contributed (ne_skip st));
}.

Lemma sp_seen start seen st r : sp_inv start seen st -> sp_inv start (seen ++ [r]) st.
Proof using Type. intros []. split; try done. rewrite app_assoc. by apply prov_skip. Qed.

(** The request passed the skip check: its new block is registered, and no
    scheduled request computes it. *)
Definition registered (st : ne_state) (r : LlmRequest) : Prop :=
  skipping = true ->
  NoDup (new_blocks m (ne_scheduled st) ++ option_list (new_block m r))
  /\ forall b, b ∈ new_blocks m (ne_scheduled st) ++ option_list (new_block m r) ->
       b ∈ contributed (ne_skip st).

Lemma skip_check_spec start seen st r skip sk :
  sp_inv start seen st -> r ∈ active ->
  (if skipping && negb (is_disagg_generation_init_state r)
   then beneficial_to_skip (Some m) (cross_kv_cache_manager sch) r (ne_skip st)
   else (false, ne_skip st)) = (skip, sk) ->
  sp_inv start seen (with_skip st sk) /\ (skip = false -> registered (with_skip st sk) r).
Proof using Hnd Hself Hcross.
  intros [Hne Hg Hf Hp Hpf Hnew] Hr Hrun. destruct (skipping && _) eqn:Es.
  - apply andb_prop in Es as [Es _].
    apply (beneficial_to_skip_spec m _ active) in Hrun as [Hok Hc]; [|done..|apply Hne].
    destruct (Hnew Es) as [Hd Hsub]. split.
    + split; simpl; try done.
      * destruct Hne. by split.
      * intros _. split; [done|]. intros b Hb. specialize (Hsub b Hb).
        destruct skip; [by rewrite Hc|]. destruct Hc as [_ ->].
        unfold contribute. destruct (new_block m r); [|done]. apply elem_of_union. by right.
    + intros ->. destruct Hc as [Hno Hc]. intros _. simpl. rewrite Hc. by apply contribute_NoDup.
  - injection Hrun as <- <-. assert (with_skip st (ne_skip st) = st) as -> by by destruct st.
    split; [done|]. intros _ Hsk. rewrite Hsk in Es. simpl in Es. bool_to_prop.
    assert (new_block m r = None) as ->; [|rewrite app_nil_r; by apply Hnew].
    unfold new_block, is_context_init_state, is_disagg_generation_init_state in *.
    by destruct (state r).
Qed.

Lemma claim_pages_spec r avail tasks rs pages' tasks' r' :
  claim_pages sch r avail tasks = Some (pages', tasks') -> forget r' = forget r ->
  is_Some (peft_cache_manager sch) ->
  (get_max_peft_pages sch - avail, tasks) = peft_account sch rs ->
  (get_max_peft_pages sch - pages', tasks') = peft_account sch (rs ++ [r']) /\ (0 <= avail -> 0 <= pages').
Proof using Hpeft.
  clear Hcross. intros Hrun Hr [p Hp] Hacc. unfold claim_pages in Hrun. rewrite Hp in Hrun.
  rewrite (peft_account_snoc_forget sch rs r' r Hpeft Hr), peft_account_snoc, <- Hacc.
  destruct (get_peft_task_info sch r tasks) as [[task is_new] needed].
  destruct (avail <? needed) eqn:E; [done|]. simplify_eq. bool_to_prop.
  split; [f_equal; lia|lia].
Qed.

Lemma sp_admit start seen st r r' b xb pages tasks :
  sp_inv start seen st -> eligible sch r -> is_generation_in_progress_state r = false ->
  forget r' = forget r -> registered st r ->
  claim_pages sch r (ne_pages st) (ne_task_ids st) = Some (pages, tasks) ->
  let st' := mkNe (ne_scheduled st ++ [r']) b xb pages tasks (ne_skip st) in
  ne_inv st' -> (fits st -> fits st') -> sp_inv start (seen ++ [r]) st'.
Proof using Hpeft.
  intros [Hne Hg Hf Hp Hpf Hnew] Hel Hgen Hr Hreg Hcl st' Hne' Hfit. split; try done; simpl.
  - rewrite filter_app, filter_cons_False; [by rewrite app_nil_r|]. unfold in_generation.
    rewrite (forget_ext is_generation_in_progress_state r' r); [congruence|done..].
  - auto.
  - rewrite app_assoc. eapply prov_grow; [|exact Hr|exact Hp]. solve_Permutation.
  - intros Hs. destruct (Hpf Hs) as [Hacc H0'].
    destruct (claim_pages_spec r _ _ (ne_scheduled st) _ _ r' Hcl Hr Hs Hacc). split; [done|auto].
  - intros Hs. rewrite (new_blocks_snoc m _ r r' Hr). by apply Hreg.
Qed.

Lemma admit_encoder_spec start seen st r :
  sp_inv start seen st -> eligible sch r -> is_encoder_init_state r = true -> registered st r ->
  len (ne_scheduled st) < max_num_requests sch ->
  sp_inv start (seen ++ [r]) (ctl_state (admit_encoder sch st r)).
Proof using Hpeft.
  intros Hinv Hel Henc Hreg Hlen. unfold admit_encoder.
  destruct (claim_pages sch r _ _) as [[pages tasks]|] eqn:Ec; [|by apply sp_seen]. simpl.
  eapply sp_admit; try done.
  - unfold is_generation_in_progress_state, is_encoder_init_state in *. by destruct (state r).
  - pose proof (sp_ne _ _ _ Hinv) as []. split; simpl; rewrite ?encoders_snoc by done; try done.
    + rewrite length_app. simpl. lia.
    + apply Forall_app. by split; [|constructor].
Qed.

Lemma deduct_fits (m' : M) rs r r' blocks :
  forget r' = forget r -> Forall (fun '(w, n) => kv_rem m' w r <= n) (deduct m' rs blocks) ->
  no_shortage (deduct m' (rs ++ [r']) blocks).
Proof using Type.
  intros Hr Hf. rewrite <- (deduct_snoc m' rs r r' blocks Hr). unfold no_shortage.
  apply Forall_fmap. eapply Forall_impl; [exact Hf|]. intros [w n]. simpl. lia.
Qed.

Lemma cross_enough_spec rs r xs b r' :
  (forall xm, cross_kv_cache_manager sch = Some xm -> own_summary xm r xs) ->
  match cross_kv_cache_manager sch, deduct_cross rs with
  | Some xm, Some xb => enough_available_blocks xm xb r xs
  | _, _ => Ok (true, r)
  end = Ok (b, r') ->
  forget r' = forget r
  /\ (b = true -> forall q xb, forget q = forget r -> deduct_cross (rs ++ [q]) = Some xb -> no_shortage xb).
Proof using Type.
  clear Hcross. intros Hxs Hrun. unfold deduct_cross in *.
  destruct (cross_kv_cache_manager sch) as [xm|]; simpl in *; [|by inv_ok].
  apply enough_spec in Hrun as [Hb Hr']; [|by apply Hxs]. split; [done|].
  intros Ht q xb Hq [= <-]. eapply deduct_fits; [exact Hq|by apply Hb].
Qed.

Lemma admit_decoder_spec start seen st r c :
  sp_inv start seen st -> r ∈ active -> eligible sch r -> is_generation_in_progress_state r = false ->
  is_encoder_init_state r = false -> registered st r ->
  len (ne_scheduled st) < max_num_requests sch ->
  admit_decoder sch m st r = Ok c -> sp_inv start (seen ++ [r]) (ctl_state c).
Proof using Hpeft.
  intros Hinv Hr Hel Hgen Henc Hreg Hlen Hrun. unfold admit_decoder in Hrun.
  pose proof (sp_ne _ _ _ Hinv) as Hne. destruct (ni_skip _ Hne) as [Hown Hxown].
  specialize (Hown r Hr). assert (Hx := fun xm E => Hxown xm E r Hr). clear Hxown.
  set (s := cached (summary_by_req _) _) in *. set (xs := cached (cross_summary_by_req _) _) in *.
  rewrite (ni_blocks _ Hne), (ni_cross _ Hne) in Hrun.
  set (rs := decoders (ne_scheduled st)) in *.
  destruct (enough_available_blocks m _ r s) as [[ok r1]|] eqn:E1; simpl in Hrun; [|done].
  apply enough_spec in E1 as [Hok Hr1]; [|done].
  assert (Hx1 : forall xm, cross_kv_cache_manager sch = Some xm -> own_summary xm r1 xs)
    by (intros xm E; apply (own_summary_ext xm r r1); auto).
  destruct (match cross_kv_cache_manager sch with Some _ => _ | None => _ end) as [[xok r2]|] eqn:E2;
    simpl in Hrun; [|done].
  apply cross_enough_spec in E2 as [Hr2 Hxok]; [|done].
  destruct ok, xok; simpl in Hrun; try (inv_ok; by apply sp_seen).
  destruct (claim_pages sch r2 _ _) as [[pages tasks]|] eqn:Ec; [|inv_ok; by apply sp_seen].
  destruct (reserve_to_completion _ _ _ _ _ _ _) as [[[b xb] r3]|] eqn:E3; simpl in Hrun; [|done].
  apply reserve_spec in E3 as (-> & -> & Hr3);
    [|apply (own_summary_ext m r r2); congruence
     |intros xm E; apply (own_summary_ext xm r r2); [congruence|auto]].
  inv_ok. simpl. eapply (sp_admit start seen st r r3); try done; [congruence|..].
  - rewrite <- Ec. unfold claim_pages. by rewrite (peft_info_forget sch r r2) by (done || congruence).
  - apply (ne_inv_decoder st r); try done; [congruence|apply Hne].
  - intros _. split; simpl.
    + eapply deduct_fits; [|by apply Hok]. congruence.
    + intros xb Hxb. eapply Hxok; [done| |exact Hxb]. congruence.
Qed.

Lemma sp_step start seen r st c :
  waiting r -> sp_inv start seen st -> second_pass_body sch static_batch m st r = Ok c ->
  sp_inv start (seen ++ [r]) (ctl_state c).
Proof using Hnd Hself Hcross Hpeft.
  intros (Hr & Hel & Hgen) Hinv Hrun. unfold second_pass_body in Hrun.
  destruct (is_encoder_init_state r && _); [done|].
  destruct (if _ : bool then beneficial_to_skip _ _ _ _ else _) as [skip sk] eqn:Esk.
  destruct (skip_check_spec start seen st r skip sk Hinv Hr Esk) as [Hinv' Hreg].
  destruct skip; [inv_ok; by apply sp_seen|]. specialize (Hreg eq_refl).
  destruct (max_num_requests sch <=? _) eqn:Emax; bool_to_prop; [inv_ok; by apply sp_seen|].
  destruct (is_encoder_init_state r) eqn:Eenc; [inv_ok; by apply admit_encoder_spec|].
  destruct (is_context_init_state r || _); [|inv_ok; by apply sp_seen].
  by eapply (admit_decoder_spec start seen _ r).
Qed.

(** *** The whole policy *)

(** The blocks [rs] need to complete are free in every window of every pool. *)
Definition within_free (rs : list LlmRequest) : Prop :=
  (forall w f, (w, f) ∈ no_evict_blocks m -> zsum (kv_rem m w) rs <= f)
  /\ (forall xm w f, cross_kv_cache_manager sch = Some xm -> (w, f) ∈ no_evict_blocks xm ->
        zsum (kv_rem xm w) rs <= f).

Record ne_spec (scheduled : list LlmRequest) : Prop := {
  ns_len : len scheduled <= Z.max 0 (max_num_requests sch);
  ns_elig : Forall (eligible sch) scheduled;
  ns_prov : forget <$> scheduled ⊆+ forget <$> active;
  ns_free : within_free (filter in_generation scheduled) -> within_free (decoders scheduled);
  ns_peft : is_Some (peft_cache_manager sch) ->
    peft_pages sch (filter in_generation scheduled) <= get_max_peft_pages sch ->
    peft_pages sch scheduled <= get_max_peft_pages sch;
  ns_new : skipping = true -> NoDup (new_blocks m scheduled);
}.

Lemma no_shortage_deduct (m' : M) rs blocks :
  no_shortage (deduct m' rs blocks) <-> forall w f, (w, f) ∈ blocks -> zsum (kv_rem m' w) rs <= f.
Proof using Type.
  unfold no_shortage, deduct. rewrite Forall_fmap, Forall_forall. split.
  - intros Hf w f Hin. specialize (Hf (w, f) Hin). simpl in Hf. lia.
  - intros Hf [w f] Hin. specialize (Hf w f Hin). simpl. lia.
Qed.

Lemma fits_within st : ne_inv st -> fits st <-> within_free (decoders (ne_scheduled st)).
Proof using Type.
  clear Hcross. intros []. unfold fits, within_free. rewrite ni_blocks0, ni_cross0, no_shortage_deduct.
  unfold deduct_cross. destruct (cross_kv_cache_manager sch) as [xm|]; simpl.
  - split; intros [Hb Hx]; (split; [done|]).
    + intros xm' w f [= <-]. revert w f. apply no_shortage_deduct. by apply Hx.
    + intros xb [= <-]. apply no_shortage_deduct. intros w f. by apply Hx.
  - split; intros [Hb _]; split; done.
Qed.

Lemma gens_are_decoders rs : Forall in_generation rs -> decoders rs = rs /\ filter in_generation rs = rs.
Proof using Type.
  induction 1 as [|r rs Hr _ [IH1 IH2]]; [done|]. unfold decoders in *.
  rewrite !filter_cons_True, IH1, IH2; try done.
  unfold in_generation, is_generation_in_progress_state, is_encoder_init_state in *. by destruct (state r).
Qed.

Lemma gens_no_new_block rs : Forall in_generation rs -> new_blocks m rs = [].
Proof using Type.
  induction 1 as [|r rs Hr _ IH]; [done|]. unfold new_blocks in *. simpl.
  assert (new_block m r = None) as ->; [|done].
  unfold new_block, in_generation, is_generation_in_progress_state, is_context_init_state in *.
  by destruct (state r).
Qed.

(** The state the second pass starts from. *)
Definition sp_start (st : ne_state) : ne_state :=
  mkNe (ne_scheduled st) (ne_blocks st) (ne_cross_blocks st)
    (match peft_cache_manager sch with None => 0 | Some _ => get_max_peft_pages sch - ne_pages st end)
    (ne_task_ids st) (ne_skip st).

Lemma sp_begin seen st dis pend :
  fp_inv seen (st, dis, pend) -> sp_inv (sp_start st) [] (sp_start st).
Proof using Type.
  clear Hcross. intros [Hne Hg _ _ Hp _]. simpl in *. split; simpl; try done.
  - by destruct Hne.
  - by apply gens_are_decoders.
  - by rewrite app_nil_r.
  - intros Hs. rewrite <- (Hp Hs). destruct Hs as [p ->]. split; [f_equal; lia|done].
  - intros _. rewrite gens_no_new_block by done. split; [constructor|]. intros b Hb. by apply elem_of_nil in Hb.
Qed.

Lemma sp_loop start base rs st st' :
  Forall waiting rs -> sp_inv start base st ->
  for_loop (second_pass_body sch static_batch m) st rs = Ok st' ->
  exists seen, seen ⊆+ rs /\ sp_inv start (base ++ seen) st'.
Proof using Hnd Hself Hcross Hpeft.
  intros Hw Hinv Hrun.
  apply (for_loop_prefix_inv _ (fun seen => sp_inv start (base ++ seen))) in Hrun as (seen & rest & -> & Hi).
  - exists seen. split; [by apply submseteq_inserts_r|done].
  - by rewrite app_nil_r.
  - intros seen r rest s c -> Hi Hb. rewrite app_assoc. eapply sp_step; [|exact Hi|exact Hb].
    by apply Forall_app in Hw as [_ [? _]%Forall_cons].
Qed.

Lemma sp_end seen st dis pend seen' st' :
  fp_inv seen (st, dis, pend) -> seen ⊆+ active -> seen' ⊆+ dis ++ pend ->
  sp_inv (sp_start st) seen' st' -> ne_spec (ne_scheduled st').
Proof using Type.
  intros [Hne Hg _ Hprov Hp _] Hseen Hsub [Hne' Hgens Hfits Hprov' Hpeft' Hnew]. simpl in *.
  destruct (gens_are_decoders _ Hg) as [Hdec _].
  split; try apply Hne'.
  - etrans; [exact Hprov'|]. etrans; [|apply (fmap_submseteq forget), Hseen]. etrans; [|exact Hprov].
    by apply fmap_submseteq, submseteq_skips_l.
  - intros Hf. apply (fits_within st' Hne'), Hfits. rewrite Hgens, <- Hdec in Hf.
    by apply (fits_within st Hne).
  - intros Hs Hle. destruct (Hpeft' Hs) as [Hacc H0'].
    rewrite Hgens in Hle. unfold peft_pages in *. rewrite <- (Hp Hs) in Hle. rewrite <- Hacc. simpl in *.
    destruct Hs as [p Hs]. rewrite Hs in *. lia.
  - intros Hs. by apply Hnew.
Qed.

Lemma guaranteed_no_evict_spec scheduled :
  guaranteed_no_evict_schedule sch static_batch m active = Ok scheduled -> ne_spec scheduled.
Proof using Hnd Hself Hcross Hpeft.
  intros Hrun. unfold guaranteed_no_evict_schedule in Hrun.
  destruct (for_loop (first_pass_body sch m) _ active) as [[[st dis] pend]|] eqn:E1; simpl in Hrun; [|done].
  apply (for_loop_prefix_inv _ fp_inv) in E1 as (seen & rest & Hact & Hfp);
    [|apply fp_init|intros; by eapply fp_step].
  assert (Hseen : seen ⊆+ active) by (rewrite Hact; by apply submseteq_inserts_r).
  destruct (negb static_batch || _); [|inv_ok].
  - apply bind_Ok in Hrun as (st1 & E2 & Hrun). apply bind_Ok in Hrun as (st2 & E3 & Hrun). inv_ok.
    pose proof (fp_wait _ _ Hfp) as Hw. simpl in Hw. apply Forall_app in Hw as [Hwd Hwp].
    apply (sp_loop (sp_start st) []) in E2 as (sd & Hsd & Hi1); [|done|by eapply sp_begin].
    apply (sp_loop (sp_start st) ([] ++ sd)) in E3 as (sp & Hsp & Hi2); [|done..].
    eapply sp_end; [exact Hfp|done| |exact Hi2]. by apply submseteq_app.
  - apply (sp_end seen st dis pend [] (sp_start st) Hfp Hseen); [apply submseteq_nil_l|by eapply sp_begin].
Qed.

End no_evict.

(** *** Properties *)

Section properties.
Context {M : Type} `{KvCacheLaws M} (sch : PyCapacityScheduler M) (static_batch : bool) (m : M).

(** What the policy relies on: distinct request ids, managers that cache the
    tokens the scheduler analyses, LoRA page counts that ignore the estimate. *)
Record policy_premises (active : list LlmRequest) : Prop := {
  pp_ids : NoDup (request_id <$> active);
  pp_self q : kv_tokens m q = Some (unique_tokens q);
  pp_cross xm q : cross_kv_cache_manager sch = Some xm -> kv_tokens xm q = encoder_unique_tokens q;
  pp_peft : peft_stable sch;
}.

(** C2. No eviction is ever needed: if the requests already in generation can
    complete with the free blocks, then in every window of every pool the
    blocks all admitted requests need to run to completion are free. *)
Theorem no_evict_runs_to_completion active scheduled :
  policy_premises active ->
  guaranteed_no_evict_schedule sch static_batch m active = Ok scheduled ->
  within_free sch m (filter in_generation scheduled) ->
  within_free sch m (decoders scheduled).
Proof.
  intros [] Hrun. by apply (guaranteed_no_evict_spec sch static_batch m active) in Hrun as [].
Qed.

(** LoRA pages: if the tasks of the requests in generation fit on the
    device, the tasks of all admitted requests together do, each task counted
    once. *)
Theorem no_evict_lora_pages_fit active scheduled :
  policy_premises active -> is_Some (peft_cache_manager sch) ->
  guaranteed_no_evict_schedule sch static_batch m active = Ok scheduled ->
  peft_pages sch (filter in_generation scheduled) <= get_max_peft_pages sch ->
  peft_pages sch scheduled <= get_max_peft_pages sch.
Proof.
  intros [] Hs Hrun. apply (guaranteed_no_evict_spec sch static_batch m active) in Hrun as []; auto.
Qed.

(** No prefix is computed twice: when skipping for reuse applies, no two
    admitted first-chunk context requests would compute the same new block. *)
Theorem no_evict_distinct_contributions active scheduled :
  policy_premises active -> skipping sch static_batch = true ->
  guaranteed_no_evict_schedule sch static_batch m active = Ok scheduled ->
  NoDup (new_blocks m scheduled).
Proof.
  intros [] Hs Hrun. apply (guaranteed_no_evict_spec sch static_batch m active) in Hrun as []; auto.
Qed.

End properties.

(** *** Witnesses *)

Definition wit_sch : PyCapacityScheduler KvPool := wit_capacity GUARANTEED_NO_EVICT 12 true.

Lemma wit_premises : policy_premises wit_sch (wit_pool 12 true) wit_batch.
Proof.
  split.
  - apply (bool_decide_unpack _). vm_compute. exact I.
  - done.
  - done.
  - intros p r [= <-]. done.
Qed.

(** Request 2 is deferred: request 1 computes the block they share. *)
Definition wit_scheduled : list LlmRequest := [wit_running 3 38; wit_running 7 28; wit_new 1 40 100].

Lemma no_evict_runs_to_completion_witness : within_free wit_sch (wit_pool 12 true) (decoders wit_scheduled).
Proof.
  apply (no_evict_runs_to_completion wit_sch false (wit_pool 12 true) wit_batch wit_scheduled).
  - apply wit_premises.
  - vm_compute. reflexivity.
  - split; [|done]. intros w f [= -> ->]%list_elem_of_singleton. vm_compute. congruence.
Defined.

Lemma no_evict_lora_pages_fit_witness : peft_pages wit_sch wit_scheduled <= 4.
Proof.
  apply (no_evict_lora_pages_fit wit_sch false (wit_pool 12 true) wit_batch wit_scheduled).
  - apply wit_premises.
  - by eexists.
  - vm_compute. reflexivity.
  - vm_compute. congruence.
Defined.

Lemma no_evict_distinct_contributions_witness : NoDup (new_blocks (wit_pool 12 true) wit_scheduled).
Proof.
  apply (no_evict_distinct_contributions wit_sch false (wit_pool 12 true) wit_batch wit_scheduled).
  - apply wit_premises.
  - reflexivity.
  - vm_compute. reflexivity.
Defined.
