(* ===== verification/MaxUtilization.v ===== *)
(** * MAX_UTILIZATION: the next step of every admitted request fits

    Invariants and termination of [MaxUtilizationPolicy.schedule] (Capacity.v):
    the blocks one step of the scheduled requests needs, the requests paused to
    make room for them, LoRA pages, and the behaviour of the skip check when a
    request is tried again after a pause. *)

From stdpp Require Import prelude gmap sorting.
From S2P Require Import Prelude Request MicroBatch Capacity KvPool.
Local Open Scope Z_scope.

(** What scheduling simulation may change of a manager: free blocks grow. *)
Record evolved {M} `{KvCacheLaws M} (m m' : M) : Prop := {
  ev_free w : kv_sched_free m w <= kv_sched_free m' w;
  ev_need b w r : kv_need m' b w r = kv_need m b w r;
  ev_tokens r : kv_tokens m' r = kv_tokens m r;
  ev_analyze toks r : kv_analyze_prefix_reuse m' toks r = kv_analyze_prefix_reuse m toks r;
  ev_reuse : kv_enable_block_reuse m' = kv_enable_block_reuse m;
  ev_windows : kv_max_attention_window_vec m' = kv_max_attention_window_vec m;
}.

#[export] Instance evolved_preorder {M} `{KvCacheLaws M} : PreOrder (evolved (M := M)).
Proof.
  split.
  - intros m. split; done.
  - intros m1 m2 m3 [] []. split; intros; [eapply Z.le_trans; eauto|congruence..].
Qed.

Lemma evolved_remove {M} `{KvCacheLaws M} (m m' : M) id :
  kv_scheduling_remove_sequence m id = Ok m' -> evolved m m'.
Proof. intros (?&?&?&?&?&?)%kv_remove_law. by split. Qed.

Lemma evolved_remove_each {M} `{KvCacheLaws M} (m m' : M) ids :
  for_each kv_scheduling_remove_sequence m ids = Ok m' -> evolved m m'.
Proof.
  revert m. induction ids as [|id ids IH]; intros m Hrun; simpl in Hrun.
  - injection Hrun as <-. reflexivity.
  - apply bind_Ok in Hrun as (m1 & E & Hrun). etrans; [by eapply evolved_remove|by apply IH].
Qed.

Section max_utilization.
Context {M : Type} `{KvCacheLaws M} (sch : PyCapacityScheduler M).
Implicit Types (m : M) (r : LlmRequest).

Lemma own_summary_evolved m m' r s : evolved m m' -> own_summary m r s -> own_summary m' r s.
Proof.
  intros Hev [?|(toks & Ht & ->)]; [by left|]. right. exists toks.
  by rewrite (ev_tokens _ _ Hev), (ev_analyze _ _ Hev).
Qed.

Lemma new_block_evolved m m' r : evolved m m' -> new_block m' r = new_block m r.
Proof. intros Hev. unfold new_block. by rewrite (ev_reuse _ _ Hev), (ev_analyze _ _ Hev). Qed.

(** The blocks the requests [rs] need for their next step, per window. *)
Definition planned (m : M) (rs : list LlmRequest) : window_blocks :=
  (fun w => (w, zsum (kv_need m (two_step_lookahead sch) w) rs))
    <$> remove_dups (kv_max_attention_window_vec m).

(** They are free, counting the blocks of the paused requests. *)
Definition has_room (m : M) (rs : list LlmRequest) : Prop :=
  rs <> [] -> Forall (fun '(w, n) => n <= kv_sched_free m w) (planned m rs).

Lemma planned_keys m rs : (planned m rs).*1 = remove_dups (kv_max_attention_window_vec m).
Proof using Type.
  unfold planned. rewrite <- list_fmap_compose. rewrite <- (list_fmap_id (remove_dups _)) at 2. done.
Qed.

Lemma planned_NoDup m rs : NoDup (planned m rs).*1.
Proof using Type. rewrite planned_keys. apply NoDup_remove_dups. Qed.

Lemma planned_snoc m rs r r' :
  forget r' = forget r ->
  (fun '(w, n) => (w, n + kv_need m (two_step_lookahead sch) w r)) <$> planned m rs = planned m (rs ++ [r']).
Proof using Type.
  intros Hr. unfold planned. rewrite <- list_fmap_compose. apply list_fmap_ext.
  intros i w _. simpl. rewrite zsum_snoc. do 2 f_equal.
  symmetry. apply (forget_ext (kv_need m _ w)); [apply kv_need_forget|done].
Qed.

Lemma planned_evolved m m' rs : evolved m m' -> planned m' rs = planned m rs.
Proof using Type.
  intros Hev. unfold planned. rewrite (ev_windows _ _ Hev). apply list_fmap_ext. intros i w _.
  f_equal. apply zsum_ext. intros r _. apply (ev_need _ _ Hev).
Qed.

Lemma has_room_evolved m m' rs : evolved m m' -> has_room m rs -> has_room m' rs.
Proof using Type.
  intros Hev Hr Hne. rewrite (planned_evolved m m') by done. eapply Forall_impl; [by apply Hr|].
  intros [w n] Hn. pose proof (ev_free _ _ Hev w). lia.
Qed.

(** ** One attempt *)

Record core_inv (m : M) (xm : option M) (st : mu_state) : Prop := {
  ci_blocks : mu_blocks st = planned m (decoders (mu_scheduled st));
  ci_cross : mu_cross_blocks st = (fun xm => planned xm (decoders (mu_scheduled st))) <$> xm;
  ci_room : has_room m (decoders (mu_scheduled st));
  ci_cross_room xm' : xm = Some xm' -> has_room xm' (decoders (mu_scheduled st));
  ci_len : len (mu_scheduled st) <= Z.max 0 (max_num_requests sch);
  ci_elig : Forall (eligible sch) (mu_scheduled st);
  ci_peft : is_Some (peft_cache_manager sch) ->
    (mu_pages st, mu_task_ids st) = peft_account sch (mu_scheduled st)
    /\ (0 <= get_max_peft_pages sch -> mu_pages st <= get_max_peft_pages sch);
}.

Lemma core_inv_evolved m m' xm xm' st :
  evolved m m' -> option_Forall2 evolved xm xm' -> core_inv m xm st -> core_inv m' xm' st.
Proof using Type.
  intros Hev Hxev []. split; try done.
  - by rewrite (planned_evolved m m').
  - rewrite ci_cross0. destruct Hxev as [x x' Hx|]; [|done]. simpl. by rewrite (planned_evolved x x').
  - by eapply has_room_evolved.
  - intros x' ->. inversion Hxev as [x y Hx|]; simplify_eq. eapply has_room_evolved; eauto.
Qed.

Lemma add_pages_spec st r r' pages tasks :
  peft_stable sch -> forget r' = forget r -> add_pages sch r st = Some (pages, tasks) ->
  is_Some (peft_cache_manager sch) ->
  (mu_pages st, mu_task_ids st) = peft_account sch (mu_scheduled st) ->
  (pages, tasks) = peft_account sch (mu_scheduled st ++ [r'])
  /\ (0 <= get_max_peft_pages sch -> pages <= get_max_peft_pages sch).
Proof using Type.
  intros Hst Hr Hrun [p Hp] Hacc. unfold add_pages in Hrun. rewrite Hp in Hrun.
  rewrite (peft_account_snoc_forget sch _ r' r Hst Hr), peft_account_snoc, <- Hacc.
  destruct (get_peft_task_info sch r _) as [[task is_new] required].
  destruct (get_max_peft_pages sch <? _) eqn:E; [done|]. simplify_eq. bool_to_prop.
  split; [done|lia].
Qed.

(** What [prepare_blocks_if_schedulable] returned for a request is the plan with it. *)
Lemma prepare_planned m rs r s b r' :
  own_summary m r s ->
  prepare_blocks_if_schedulable m (two_step_lookahead sch) (planned m rs) r s = Ok (b, r') ->
  forget r' = forget r
  /\ match b with
     | None => True
     | Some nb => forall q, forget q = forget r -> nb = planned m (rs ++ [q]) /\ has_room m (rs ++ [q])
     end.
Proof using Type.
  intros Hs Hrun. apply prepare_spec in Hrun as [Hr Hb]; [|done|apply planned_NoDup].
  split; [done|]. destruct b as [nb|]; [|done]. destruct Hb as [-> Hf]. intros q Hq.
  rewrite (planned_snoc m rs r q) in * by done. split; [done|]. by intros _.
Qed.

Lemma update_planned m rs rs' b :
  update_scheduled_blocks (planned m rs) (planned m rs') = Ok b -> b = planned m rs'.
Proof using Type. apply update_spec; [by rewrite !planned_keys|apply planned_NoDup]. Qed.

Lemma commit_spec m xm st r blocks xblocks st' r' :
  peft_stable sch -> core_inv m xm st -> eligible sch r ->
  len (mu_scheduled st) < max_num_requests sch ->
  (if is_encoder_init_state r then blocks = None /\ xblocks = None
   else blocks = Some (planned m (decoders (mu_scheduled st) ++ [r]))
        /\ has_room m (decoders (mu_scheduled st) ++ [r])
        /\ xblocks = (fun xm => planned xm (decoders (mu_scheduled st) ++ [r])) <$> xm
        /\ forall xm', xm = Some xm' -> has_room xm' (decoders (mu_scheduled st) ++ [r])) ->
  commit_request sch st r blocks xblocks = Ok (st', r') ->
  r' = r /\ match st' with
            | None => True
            | Some st' => core_inv m xm st' /\ mu_scheduled st' = mu_scheduled st ++ [r]
            end.
Proof using Type.
  intros Hst [Hb Hxb Hroom Hxroom Hlen Hel Hp] Her Hmax Hcase Hrun. unfold commit_request in Hrun.
  destruct (add_pages sch r st) as [[pages tasks]|] eqn:Ep; [|by inv_ok].
  apply bind_Ok in Hrun as (b & Eb & Hrun). apply bind_Ok in Hrun as (xb & Exb & Hrun).
  injection Hrun as <- <-. split; [done|]. split; [|done].
  assert (Hlen' : len (mu_scheduled st ++ [r]) <= Z.max 0 (max_num_requests sch))
    by (rewrite length_app; simpl; lia).
  assert (Hel' : Forall (eligible sch) (mu_scheduled st ++ [r]))
    by (apply Forall_app; split; [done|by constructor]).
  assert (Hp' : is_Some (peft_cache_manager sch) ->
    (pages, tasks) = peft_account sch (mu_scheduled st ++ [r])
    /\ (0 <= get_max_peft_pages sch -> pages <= get_max_peft_pages sch))
    by (intros Hs; destruct (Hp Hs); by eapply add_pages_spec).
  destruct (is_encoder_init_state r) eqn:Eenc.
  - destruct Hcase as [-> ->]. inv_ok.
    assert (mu_cross_blocks st = xb) as <-
      by (unfold update_cross_blocks in Exb; destruct (mu_cross_blocks st); by inv_ok).
    split; simpl; rewrite ?encoders_snoc by done; done.
  - destruct Hcase as (-> & Hr1 & -> & Hr2). rewrite Hb in Eb. apply update_planned in Eb as ->.
    rewrite Hxb in Exb.
    assert (xb = (fun xm => planned xm (decoders (mu_scheduled st) ++ [r])) <$> xm) as ->.
    { destruct xm as [x|]; simpl in *; [|by inv_ok].
      apply bind_Ok in Exb as (b' & Eb' & Exb). apply update_planned in Eb' as ->. by inv_ok. }
    split; simpl; rewrite ?decoders_snoc by done; done.
Qed.

Lemma try_spec m xm st r s st' r' :
  peft_stable sch -> core_inv m xm st -> eligible sch r -> own_summary m r s ->
  try_scheduling_request sch m xm st r s = Ok (st', r') ->
  forget r' = forget r
  /\ match st' with
     | None => True
     | Some st' => core_inv m xm st' /\ mu_scheduled st' = mu_scheduled st ++ [r']
     end.
Proof using Type.
  intros Hst Hinv Her Hs Hrun. unfold try_scheduling_request in Hrun.
  destruct (max_num_requests sch <=? _) eqn:Emax; bool_to_prop; [by inv_ok|].
  destruct (is_encoder_init_state r) eqn:Eenc.
  { apply (commit_spec m xm) in Hrun as [-> ?]; [done..|]. by rewrite Eenc. }
  rewrite (ci_blocks _ _ _ Hinv), (ci_cross _ _ _ Hinv) in Hrun.
  destruct (prepare_blocks_if_schedulable _ _ _ _ _) as [[b r1]|] eqn:E1; simpl in Hrun; [|done].
  apply prepare_planned in E1 as [Hr1 Hb]; [|done].
  destruct b as [b|]; [|by inv_ok].
  destruct (prepare_cross_blocks _ _ _ _) as [[xb r2]|] eqn:E2; simpl in Hrun; [|done].
  assert (Hx : forget r2 = forget r1 /\ match xb with
    | None => True
    | Some xb => xb = (fun xm => planned xm (decoders (mu_scheduled st) ++ [r2])) <$> xm
        /\ forall xm', xm = Some xm' -> has_room xm' (decoders (mu_scheduled st) ++ [r2]) end).
  { unfold prepare_cross_blocks in E2. destruct xm as [x|]; simpl in E2; [|by inv_ok].
    destruct (prepare_blocks_if_schedulable x _ _ _ _) as [[nb r3]|] eqn:E3; simpl in E2; [|done]. inv_ok.
    apply prepare_planned in E3 as [Hr3 Hn]; [|by left]. split; [done|].
    destruct nb as [nb|]; [|done]. destruct (Hn r2 Hr3) as [-> ?]. split; [done|]. by intros ? [= <-]. }
  destruct Hx as [Hr2 Hxb]. assert (Hr : forget r2 = forget r) by congruence.
  destruct xb as [xb|]; [|by inv_ok]. destruct (Hb r2 Hr) as [-> Hroom]. destruct Hxb as [-> Hxroom].
  apply (commit_spec m xm) in Hrun as [-> ?]; try done.
  - by apply (eligible_forget sch r).
  - by rewrite (forget_ext is_encoder_init_state r2 r), Eenc.
Qed.

(** ** The loop *)

Section loop.
Context (active : list LlmRequest) (m0 : M).
Context (Hnd : NoDup (request_id <$> active)).
Context (Hpeft : peft_stable sch).

(** The managers of the loop cache the tokens the scheduler analyses. *)
Definition tokens_ok (m : M) (xm : option M) : Prop :=
  (forall q, kv_tokens m q = Some (unique_tokens q))
  /\ (forall xm' q, xm = Some xm' -> kv_tokens xm' q = encoder_unique_tokens q).

Record lp_inv (lp : mu_loop) : Prop := {
  li_list : forget <$> lp_requests lp = forget <$> active;
  li_range : (lp_it lp <= lp_end lp <= length active)%nat;
  li_kv : for_each kv_scheduling_remove_sequence m0 (request_id <$> lp_paused lp) = Ok (lp_kv lp);
  li_tokens : tokens_ok (lp_kv lp) (lp_cross lp);
  li_core : core_inv (lp_kv lp) (lp_cross lp) (lp_core lp);
  li_prov : forget <$> mu_scheduled (lp_core lp) ⊆+ forget <$> take (lp_it lp) active;
  li_paused : forget <$> lp_paused lp ⊆+ forget <$> drop (lp_end lp) active;
  li_started : Forall (fun r => is_started_request sch r = true) (lp_paused lp);
  li_own : cache_own (lp_kv lp) (lp_requests lp) (Some (lp_summaries lp));
  li_new : is_skipping_relevant sch = true ->
    NoDup (new_blocks (lp_kv lp) (mu_scheduled (lp_core lp)))
    /\ forall b, b ∈ new_blocks (lp_kv lp) (mu_scheduled (lp_core lp)) -> b ∈ lp_contributed lp;
}.

Lemma forget_list_ids (rs rs' : list LlmRequest) :
  forget <$> rs = forget <$> rs' -> request_id <$> rs = request_id <$> rs'.
Proof using Type.
  intros Hl. assert (Hf : forall l, request_id <$> l = request_id <$> (forget <$> l))
    by (intros l; rewrite <- list_fmap_compose; done).
  by rewrite (Hf rs), Hl, <- Hf.
Qed.

Lemma cache_own_ext m m' rs rs' cache :
  evolved m m' -> forget <$> rs' = forget <$> rs -> cache_own m rs cache -> cache_own m' rs' cache.
Proof using Type.
  intros Hev Hl Hc r Hr. assert (Hin : forget r ∈ forget <$> rs) by (rewrite <- Hl; by apply list_elem_of_fmap_2).
  apply list_elem_of_fmap in Hin as (q & Hq & Hin).
  apply (own_summary_ext m' q r); [done|]. apply (own_summary_evolved m); [done|].
  rewrite (forget_ext request_id r q) by done. by apply Hc.
Qed.

Lemma new_blocks_evolved m m' rs : evolved m m' -> new_blocks m' rs = new_blocks m rs.
Proof using Type.
  intros Hev. unfold new_blocks. induction rs as [|r rs IH]; [done|]. simpl.
  rewrite (new_block_evolved m m' r Hev). destruct (new_block m r); [f_equal|]; exact IH.
Qed.

(** The skip check of this policy, on a request of the list: what it caches is
    the request's own summary, and a request it lets through is registered. *)
Lemma mu_skip_spec lp r skip ctx cache :
  lp_inv lp -> lp_requests lp !! lp_it lp = Some r -> mu_skip sch lp r = (skip, ctx, cache) ->
  cache_own (lp_kv lp) (lp_requests lp) (Some cache)
  /\ (is_skipping_relevant sch = true ->
       if skip then ctx = lp_contributed lp
       else already_contributed (new_block (lp_kv lp) r) (lp_contributed lp) = false
            /\ ctx = contribute (new_block (lp_kv lp) r) (lp_contributed lp)).
Proof using Hnd.
  intros Hinv Hr Hrun. unfold mu_skip in Hrun.
  destruct (is_skipping_relevant sch) eqn:Es.
  2: { injection Hrun as <- <- <-. split; [apply Hinv|done]. }
  destruct (beneficial_to_skip _ _ _ _) as [sk st] eqn:E. injection Hrun as <- <- <-.
  destruct (li_tokens _ Hinv) as [Ht Hxt]. pose proof (beneficial_cache _ _ _ _ _ _ _ E) as [c Hc].
  apply (beneficial_to_skip_spec _ _ (lp_requests lp)) in E as [[Hown _] Hcon]; try done.
  - rewrite Hc in *. simpl. split; [done|]. by intros _.
  - rewrite (forget_list_ids _ active); [done|apply Hinv].
  - by eapply list_elem_of_lookup_2.
  - split; [apply Hinv|]. intros xm _ q _. by left.
Qed.

Lemma last_started_spec rs it n i :
  last_started sch rs it n = Some i ->
  (it <= i < it + n)%nat /\ exists p, rs !! i = Some p /\ is_started_request sch p = true.
Proof using Type.
  induction n as [|n IH]; simpl; [done|].
  destruct (rs !! (it + n)%nat) as [p|] eqn:Ep; [destruct (is_started_request sch p) eqn:Es|].
  - intros [= <-]. split; [lia|]. by exists p.
  - intros [? ?]%IH. split; [lia|done].
  - intros [? ?]%IH. split; [lia|done].
Qed.

Lemma take_S_prov (l : list LlmRequest) it :
  forget <$> l ⊆+ forget <$> take it active -> forget <$> l ⊆+ forget <$> take (S it) active.
Proof using Type.
  intros Hl. etrans; [exact Hl|]. apply fmap_submseteq, sublist_submseteq.
  destruct (active !! it) as [q|] eqn:E.
  - rewrite (take_S_r _ _ _ E). by apply sublist_inserts_r.
  - apply lookup_ge_None in E. rewrite !take_ge by lia. done.
Qed.

Lemma drop_prov (l : list LlmRequest) i e p q :
  active !! i = Some q -> forget p = forget q -> (i < e)%nat ->
  forget <$> l ⊆+ forget <$> drop e active -> forget <$> (l ++ [p]) ⊆+ forget <$> drop i active.
Proof using Type.
  intros Hq Hp Hlt Hl. rewrite (drop_S _ _ _ Hq), fmap_app, !fmap_cons, <- Hp. simpl.
  rewrite (Permutation_app_comm (forget <$> l)). simpl. apply submseteq_skip.
  etrans; [exact Hl|]. apply fmap_submseteq, sublist_submseteq.
  replace e with (S i + (e - S i))%nat by lia. rewrite <- drop_drop. apply sublist_drop.
Qed.

Lemma insert_forget (rs : list LlmRequest) i r r' :
  rs !! i = Some r -> forget r' = forget r -> forget <$> <[i := r']> rs = forget <$> rs.
Proof using Type.
  intros Hr Hf. rewrite list_fmap_insert, Hf. apply list_insert_id. by rewrite list_lookup_fmap, Hr.
Qed.

Lemma lookup_forget (rs : list LlmRequest) i r :
  forget <$> rs = forget <$> active -> rs !! i = Some r ->
  exists q, active !! i = Some q /\ forget r = forget q.
Proof using Type.
  intros Hl Hr.
  assert (Hf : (forget <$> active) !! i = Some (forget r)) by by rewrite <- Hl, list_lookup_fmap, Hr.
  rewrite list_lookup_fmap in Hf. destruct (active !! i) as [q|]; [|done].
  exists q. split; [done|]. change (Some (forget q) = Some (forget r)) in Hf. congruence.
Qed.

(** The iteration moves past the request without scheduling it. *)
Lemma lp_inv_skip lp ctx cache :
  lp_inv lp -> (lp_it lp < lp_end lp)%nat -> cache_own (lp_kv lp) (lp_requests lp) (Some cache) ->
  lp_contributed lp ⊆ ctx ->
  lp_inv (advance lp (lp_requests lp) (lp_core lp) ctx cache).
Proof using Type.
  intros [] Hlt Hc Hctx. split; simpl; try done; [lia|by apply take_S_prov|].
  intros Hs. destruct (li_new0 Hs) as [? Hsub]. split; [done|]. intros b Hb. by apply Hctx, Hsub.
Qed.

Lemma lp_inv_scheduled lp r r' core ctx cache :
  lp_inv lp -> (lp_it lp < lp_end lp)%nat -> lp_requests lp !! lp_it lp = Some r ->
  forget r' = forget r -> cache_own (lp_kv lp) (lp_requests lp) (Some cache) ->
  core_inv (lp_kv lp) (lp_cross lp) core -> mu_scheduled core = mu_scheduled (lp_core lp) ++ [r'] ->
  (is_skipping_relevant sch = true ->
    already_contributed (new_block (lp_kv lp) r) (lp_contributed lp) = false
    /\ ctx = contribute (new_block (lp_kv lp) r) (lp_contributed lp)) ->
  lp_inv (advance lp (<[lp_it lp := r']> (lp_requests lp)) core ctx cache).
Proof using Type.
  intros [] Hlt Hr Hf Hc Hcore Hsch Hreg.
  assert (Hl : forget <$> <[lp_it lp := r']> (lp_requests lp) = forget <$> lp_requests lp)
    by by eapply insert_forget.
  destruct (lookup_forget _ _ _ li_list0 Hr) as (q & Hq & Hrq).
  split; simpl; try done; [congruence|lia|..].
  - rewrite Hsch, (take_S_r _ _ _ Hq). eapply prov_grow; [|exact (eq_trans Hf Hrq)|exact li_prov0].
    solve_Permutation.
  - eapply cache_own_ext; [reflexivity|exact Hl|done].
  - intros Hs. destruct (Hreg Hs) as [Hno ->]. destruct (li_new0 Hs).
    rewrite Hsch, (new_blocks_snoc _ _ r r' Hf). by apply contribute_NoDup.
Qed.

(** The request could not be scheduled. *)
Lemma lp_inv_pause lp r r' ctx cache c :
  lp_inv lp -> (lp_it lp < lp_end lp)%nat -> lp_requests lp !! lp_it lp = Some r ->
  forget r' = forget r -> cache_own (lp_kv lp) (lp_requests lp) (Some cache) ->
  (is_skipping_relevant sch = true -> lp_contributed lp ⊆ ctx) ->
  pause_last_started sch lp (<[lp_it lp := r']> (lp_requests lp)) ctx cache = Ok c ->
  lp_inv (ctl_state c)
  /\ match c with
     | Continue lp' => lp_it lp' = lp_it lp /\ (lp_end lp' < lp_end lp)%nat
     | Break _ => True
     end.
Proof using Type.
  intros [] Hlt Hr Hf Hc Hctx Hrun.
  assert (Hl : forget <$> <[lp_it lp := r']> (lp_requests lp) = forget <$> lp_requests lp)
    by by eapply insert_forget.
  assert (Hnew : is_skipping_relevant sch = true ->
    NoDup (new_blocks (lp_kv lp) (mu_scheduled (lp_core lp)))
    /\ forall b, b ∈ new_blocks (lp_kv lp) (mu_scheduled (lp_core lp)) -> b ∈ ctx)
    by (intros Hs; destruct (li_new0 Hs); split; [done|]; intros b Hb; apply Hctx; auto).
  unfold pause_last_started in Hrun. destruct (last_started sch _ _ _) as [i|] eqn:Ei.
  - apply last_started_spec in Ei as (Hi & p & Hp & Hst). rewrite Hp in Hrun.
    apply bind_Ok in Hrun as (m' & Em & Hrun). apply bind_Ok in Hrun as (xm' & Exm & Hrun).
    injection Hrun as <-. simpl. pose proof (evolved_remove _ _ _ Em) as Hev.
    destruct (lookup_forget _ _ _ (eq_trans Hl li_list0) Hp) as (q & Hq & Hpq).
    assert (Hx : option_Forall2 evolved (lp_cross lp) xm').
    { destruct (lp_cross lp) as [x|]; [|injection Exm as <-; constructor].
      apply bind_Ok in Exm as (x' & Ex & [= <-]). constructor. by eapply evolved_remove. }
    split; [|lia]. split; simpl; try done.
    + congruence.
    + lia.
    + rewrite fmap_app. simpl. by rewrite for_each_snoc, li_kv0.
    + destruct li_tokens0 as [Ht Hxt]. split; [intros q'; by rewrite (ev_tokens _ _ Hev)|].
      intros x' q' ->. inversion Hx as [x y Hxy|]; simplify_eq. rewrite (ev_tokens _ _ Hxy). by apply Hxt.
    + by eapply core_inv_evolved.
    + eapply drop_prov; [exact Hq|exact Hpq| |exact li_paused0]. lia.
    + apply Forall_app. split; [done|]. by constructor.
    + by eapply cache_own_ext.
    + intros Hs. rewrite (new_blocks_evolved (lp_kv lp) m') by done. by apply Hnew.
  - injection Hrun as <-. split; [|done]. split; simpl; try done; [congruence|].
    eapply cache_own_ext; [reflexivity|exact Hl|done].
Qed.

(** One iteration keeps the invariant and shortens the range. *)
Lemma step_spec lp c :
  lp_inv lp -> (lp_it lp < lp_end lp)%nat -> mu_step sch lp = Ok c -> lp_inv (ctl_state c).
Proof using Hnd Hpeft.
  intros Hinv Hlt Hrun. unfold mu_step in Hrun.
  destruct (lp_requests lp !! lp_it lp) as [r|] eqn:Hr; [|done].
  destruct (can_be_scheduled_with_disagg_exception sch r) eqn:Hel; simpl in Hrun.
  2: { injection Hrun as <-. apply lp_inv_skip; try done. apply Hinv. }
  destruct (is_encoder_init_state r && _); [done|].
  destruct (mu_skip sch lp r) as [[skip ctx] cache] eqn:Esk.
  pose proof (mu_skip_spec lp r skip ctx cache Hinv Hr Esk) as [Hown Hreg].
  assert (Hsub : is_skipping_relevant sch = true -> lp_contributed lp ⊆ ctx).
  { intros Hs. specialize (Hreg Hs). destruct skip; [by subst|]. destruct Hreg as [_ ->].
    unfold contribute. destruct (new_block _ r); [|done]. apply union_subseteq_r. }
  assert (Hsub' : is_skipping_relevant sch = false -> lp_contributed lp ⊆ ctx).
  { intros Hs. unfold mu_skip in Esk. rewrite Hs in Esk. by injection Esk as _ <- _. }
  destruct skip.
  { injection Hrun as <-. apply lp_inv_skip; try done. destruct (is_skipping_relevant sch); auto. }
  apply bind_Ok in Hrun as ([core r'] & Etry & Hrun).
  apply try_spec in Etry as [Hf Hcore]; [|done|apply Hinv|done|].
  2: { apply (Hown r). by eapply list_elem_of_lookup_2. }
  destruct core as [core|].
  - injection Hrun as <-. destruct Hcore as [Hcore Hsch]. by eapply lp_inv_scheduled.
  - by eapply lp_inv_pause.
Qed.

Lemma while_spec fuel lp lp' : lp_inv lp -> mu_while sch fuel lp = Ok lp' -> lp_inv lp'.
Proof using Hnd Hpeft.
  revert lp. induction fuel as [|fuel IH]; intros lp Hinv Hrun; simpl in Hrun;
    destruct (lp_it lp <? lp_end lp)%nat eqn:Elt; try done; try (by injection Hrun as <-).
  apply Nat.ltb_lt in Elt. apply bind_Ok in Hrun as (c & Ec & Hrun).
  pose proof (step_spec lp c Hinv Elt Ec) as Hinv'.
  destruct c as [lp1|lp1]; [by eapply IH|]. by injection Hrun as <-.
Qed.

End loop.

(** *** Termination *)

Lemma step_decreases lp lp' :
  (lp_it lp < lp_end lp)%nat -> mu_step sch lp = Ok (Continue lp') ->
  (lp_end lp' - lp_it lp' < lp_end lp - lp_it lp)%nat.
Proof using Type.
  intros Hlt Hrun. unfold mu_step in Hrun.
  destruct (lp_requests lp !! lp_it lp) as [r|]; [|done].
  destruct (negb _); [injection Hrun as <-; simpl; lia|].
  destruct (is_encoder_init_state r && _); [done|].
  destruct (mu_skip sch lp r) as [[skip ctx] cache].
  destruct skip; [injection Hrun as <-; simpl; lia|].
  apply bind_Ok in Hrun as ([[core|] r'] & _ & Hrun); [injection Hrun as <-; simpl; lia|].
  unfold pause_last_started in Hrun. destruct (last_started sch _ _ _) as [i|] eqn:Ei; [|done].
  apply last_started_spec in Ei as (Hi & p & Hp & _). rewrite Hp in Hrun.
  apply bind_Ok in Hrun as (m' & _ & Hrun). apply bind_Ok in Hrun as (xm' & _ & Hrun).
  injection Hrun as <-. simpl. lia.
Qed.

Lemma while_fuel fuel fuel' lp :
  (lp_end lp - lp_it lp <= fuel)%nat -> (fuel <= fuel')%nat ->
  mu_while sch fuel' lp = mu_while sch fuel lp.
Proof using Type.
  revert fuel' lp. induction fuel as [|fuel IH]; intros fuel' lp Hf Hle; simpl.
  - destruct fuel'; simpl; [done|].
    destruct (lp_it lp <? lp_end lp)%nat eqn:E; [|done]. apply Nat.ltb_lt in E. lia.
  - destruct fuel' as [|fuel']; [lia|]. simpl.
    destruct (lp_it lp <? lp_end lp)%nat eqn:E; [|done]. apply Nat.ltb_lt in E.
    destruct (mu_step sch lp) as [[lp'|lp']|] eqn:Es; simpl; try done.
    apply IH; [|lia]. pose proof (step_decreases lp lp' E Es). lia.
Qed.

(** The exceptions of a manager are exceptions of the program. *)
Definition kv_exceptions_ok : Prop :=
  (forall m r b w s, kv_get_needed_blocks_one_step m r b w s <> Err OutOfFuel)
  /\ (forall m n w, kv_scheduling_has_free_blocks m n w <> Err OutOfFuel)
  /\ (forall m id, kv_scheduling_remove_sequence m id <> Err OutOfFuel).

Lemma prepare_no_fuel m two blocks r s :
  kv_exceptions_ok -> prepare_blocks_if_schedulable m two blocks r s <> Err OutOfFuel.
Proof using Type.
  intros (Hn & Hhf & _) Hrun. unfold prepare_blocks_if_schedulable in Hrun.
  apply for_loop_err in Hrun as ([acc q] & [w n] & _ & Hrun).
  apply bind_Err in Hrun as [Hrun|([k e] & _ & Hrun)].
  - unfold call_with_optional_summary in Hrun. repeat case_match; by apply Hn in Hrun.
  - apply bind_Err in Hrun as [Hrun|(b & _ & Hrun)]; [by apply Hhf in Hrun|by destruct (negb _)].
Qed.

Lemma update_no_fuel old new : update_scheduled_blocks old new <> Err OutOfFuel.
Proof using Type. unfold update_scheduled_blocks, py_assert. by destruct (_ =? _). Qed.

Lemma try_no_fuel m xm st r s :
  kv_exceptions_ok -> try_scheduling_request sch m xm st r s <> Err OutOfFuel.
Proof using Type.
  intros Hok Hrun. unfold try_scheduling_request in Hrun.
  assert (Hcommit : forall r b xb, commit_request sch st r b xb <> Err OutOfFuel).
  { intros q b xb Hc. unfold commit_request in Hc. destruct (add_pages sch q st) as [[]|]; [|done].
    apply bind_Err in Hc as [Hc|(? & _ & Hc)].
    - destruct b; [by apply update_no_fuel in Hc|done].
    - apply bind_Err in Hc as [Hc|(? & _ & Hc)]; [|done]. unfold update_cross_blocks in Hc.
      destruct (mu_cross_blocks st), xb; try done.
      apply bind_Err in Hc as [Hc|(? & _ & Hc)]; [by apply update_no_fuel in Hc|done]. }
  destruct (_ <=? _); [done|]. destruct (is_encoder_init_state r); [by apply Hcommit in Hrun|].
  apply bind_Err in Hrun as [Hrun|([[b|] r1] & _ & Hrun)]; [by apply prepare_no_fuel in Hrun| |done].
  apply bind_Err in Hrun as [Hrun|([[xb|] r2] & _ & Hrun)]; [|by apply Hcommit in Hrun|done].
  unfold prepare_cross_blocks in Hrun. destruct xm, (mu_cross_blocks st); try done.
  apply bind_Err in Hrun as [Hrun|([] & _ & Hrun)]; [by apply prepare_no_fuel in Hrun|done].
Qed.

Lemma step_no_fuel lp : kv_exceptions_ok -> mu_step sch lp <> Err OutOfFuel.
Proof using Type.
  intros Hok Hrun. unfold mu_step in Hrun. destruct (lp_requests lp !! lp_it lp) as [r|]; [|done].
  destruct (negb _); [done|]. destruct (is_encoder_init_state r && _); [done|].
  destruct (mu_skip sch lp r) as [[[] ctx] cache]; [done|].
  apply bind_Err in Hrun as [Hrun|([[core|] r'] & _ & Hrun)]; [by apply try_no_fuel in Hrun|done|].
  unfold pause_last_started in Hrun. destruct (last_started _ _ _ _); [|done].
  destruct (_ !! _); [|done]. destruct Hok as (_ & _ & Hrem).
  apply bind_Err in Hrun as [Hrun|(? & _ & Hrun)]; [by apply Hrem in Hrun|].
  apply bind_Err in Hrun as [Hrun|(? & _ & Hrun)]; [|done]. destruct (lp_cross lp); [|done].
  apply bind_Err in Hrun as [Hrun|(? & _ & Hrun)]; [by apply Hrem in Hrun|done].
Qed.

Lemma while_no_fuel fuel lp :
  kv_exceptions_ok -> (lp_end lp - lp_it lp <= fuel)%nat -> mu_while sch fuel lp <> Err OutOfFuel.
Proof using Type.
  intros Hok. revert lp. induction fuel as [|fuel IH]; intros lp Hf; simpl;
    destruct (lp_it lp <? lp_end lp)%nat eqn:E; try done; apply Nat.ltb_lt in E; [lia|].
  destruct (mu_step sch lp) as [[lp'|lp']|e] eqn:Es; simpl; [|done|].
  - apply IH. pose proof (step_decreases lp lp' E Es). lia.
  - intros [= ->]. by apply step_no_fuel in Es.
Qed.

(** *** The whole policy *)

Lemma init_inv m active :
  tokens_ok m (cross_kv_cache_manager sch) ->
  lp_inv active (kv_start_scheduling m) (mu_init sch m active).
Proof using Type.
  intros [Ht Hxt]. unfold mu_init.
  destruct (prefill_contributed_blocks _ _ _) as [ctx cross] eqn:E.
  split; simpl; try done; [lia|split| |apply submseteq_nil_l|apply cache_own_empty|].
  - intros q. by rewrite kv_start_tokens.
  - intros xm' q Hx. destruct (cross_kv_cache_manager sch) as [xm|]; simplify_eq/=.
    rewrite kv_start_tokens. by apply Hxt.
  - split; simpl; try done; try lia.
    + by intros Hne.
    + intros xm' _. by intros Hne.
  - intros _. split; [constructor|]. intros b Hb. by apply elem_of_nil in Hb.
Qed.

Lemma max_utilization_spec m active lp :
  NoDup (request_id <$> active) -> peft_stable sch -> tokens_ok m (cross_kv_cache_manager sch) ->
  max_utilization_schedule sch m active = Ok lp -> lp_inv active (kv_start_scheduling m) lp.
Proof using Type.
  intros Hnd Hpeft Htok Hrun. eapply while_spec; [done|done| |exact Hrun]. by apply init_inv.
Qed.

(** *** A request that was tried once *)

(** The first attempt leaves the request's summary in the cache and its new
    block among the contributed ones. *)
Lemma mu_skip_registers lp r b ctx cache :
  is_skipping_relevant sch = true -> new_block (lp_kv lp) r = Some b ->
  (forall s, lp_summaries lp !! request_id r = Some s -> first_new_block s = Some b) ->
  mu_skip sch lp r = (false, ctx, cache) ->
  b ∈ ctx /\ exists s, cache !! request_id r = Some s /\ first_new_block s = Some b.
Proof using Type.
  intros Hrel Hnb Hold Hrun. unfold mu_skip in Hrun. rewrite Hrel in Hrun.
  destruct (beneficial_to_skip _ _ _ _) as [sk st] eqn:E. injection Hrun as -> <- <-.
  unfold new_block in Hnb.
  destruct (is_context_init_state r && is_first_context_chunk r && kv_enable_block_reuse (lp_kv lp)) eqn:Ef;
    [|done]. apply andb_prop in Ef as [Ef Ere].
  unfold beneficial_to_skip in E. rewrite Ef, Ere in E. simpl in E.
  destruct (lookup_summary _ _ _ _) as [s c] eqn:El.
  assert (Hs : exists s' c', s = Some s' /\ c = Some c' /\ c' !! request_id r = Some s'
                             /\ first_new_block s' = Some b).
  { unfold lookup_summary in El. simpl in El.
    destruct (lp_summaries lp !! request_id r) as [s0|] eqn:Eo; injection El as <- <-.
    - exists s0, (lp_summaries lp). eauto.
    - eexists _, _. split; [done|]. split; [done|]. split; [apply lookup_insert_eq|done]. }
  destruct Hs as (s' & c' & -> & -> & Hc & Hb). simpl in E. unfold new_block_of at 1 in E. simpl in E.
  rewrite Hb in E. simpl in E. destruct (bool_decide (b ∈ lp_contributed lp)); [done|].
  destruct (match lp_cross lp with Some _ => _ | None => _ end) as [xs xc].
  destruct (already_contributed _ ∅); [done|]. injection E as <-. simpl.
  split; [by apply elem_of_union_l, elem_of_singleton|eauto].
Qed.

Lemma mu_skip_again lp r b s :
  is_skipping_relevant sch = true -> is_context_init_state r && is_first_context_chunk r = true ->
  kv_enable_block_reuse (lp_kv lp) = true -> lp_summaries lp !! request_id r = Some s ->
  first_new_block s = Some b -> b ∈ lp_contributed lp ->
  exists ctx cache, mu_skip sch lp r = (true, ctx, cache).
Proof using Type.
  intros Hrel Hf Hre Hs Hb Hin. unfold mu_skip, beneficial_to_skip, lookup_summary.
  rewrite Hrel, Hf, Hre. simpl. rewrite Hs. simpl. unfold new_block_of. simpl. rewrite Hb. simpl.
  rewrite bool_decide_eq_true_2 by done. eauto.
Qed.

Lemma pause_fields lp rs ctx cache lp' :
  pause_last_started sch lp rs ctx cache = Ok (Continue lp') ->
  lp_requests lp' = rs /\ lp_it lp' = lp_it lp /\ lp_core lp' = lp_core lp
  /\ lp_contributed lp' = ctx /\ lp_summaries lp' = cache /\ evolved (lp_kv lp) (lp_kv lp').
Proof using Type.
  unfold pause_last_started. destruct (last_started sch _ _ _) as [i|]; [|done].
  destruct (rs !! i) as [p|]; [|done]. intros Hrun.
  apply bind_Ok in Hrun as (m' & Em & Hrun). apply bind_Ok in Hrun as (xm' & _ & Hrun).
  injection Hrun as <-. simpl. apply evolved_remove in Em. done.
Qed.

(** MAX_UTILIZATION defeats its own retry: when a first-chunk context
    request with a block of its own to contribute does not fit, and a started
    request is paused to make room for it, the second attempt finds the block
    the first attempt registered and skips the request: the iteration that
    follows the pause schedules nothing. *)
Theorem retry_after_pause_is_skipped active m0 lp lp' r b :
  NoDup (request_id <$> active) -> peft_stable sch -> lp_inv active m0 lp ->
  is_skipping_relevant sch = true -> (lp_it lp < lp_end lp)%nat ->
  lp_requests lp !! lp_it lp = Some r -> new_block (lp_kv lp) r = Some b ->
  mu_step sch lp = Ok (Continue lp') -> lp_it lp' = lp_it lp ->
  exists lp'', mu_step sch lp' = Ok (Continue lp'') /\ lp_it lp'' = S (lp_it lp')
    /\ lp_core lp'' = lp_core lp /\ lp_paused lp'' = lp_paused lp'.
Proof using Type.
  intros Hnd Hpeft Hinv Hrel Hlt Hr Hnb Hstep Hit.
  assert (Hfc : is_context_init_state r && is_first_context_chunk r = true
    /\ kv_enable_block_reuse (lp_kv lp) = true
    /\ first_new_block (kv_analyze_prefix_reuse (lp_kv lp) (unique_tokens r) r) = Some b).
  { unfold new_block in Hnb. destruct (_ && _) eqn:E; [|done]. by apply andb_prop in E as [-> ->]. }
  destruct Hfc as (Hfc & Hre & Hb). unfold mu_step in Hstep. rewrite Hr in Hstep.
  destruct (can_be_scheduled_with_disagg_exception sch r) eqn:Hel; simpl in Hstep;
    [|injection Hstep as <-; simpl in Hit; lia].
  destruct (is_encoder_init_state r && _) eqn:Henc; [done|].
  destruct (mu_skip sch lp r) as [[skip ctx] cache] eqn:Esk.
  destruct skip; [injection Hstep as <-; simpl in Hit; lia|].
  apply bind_Ok in Hstep as ([[core|] r'] & Etry & Hstep); [injection Hstep as <-; simpl in Hit; lia|].
  pose proof (mu_skip_spec active m0 Hnd lp r _ _ _ Hinv Hr Esk) as [Hown _].
  pose proof (list_elem_of_lookup_2 _ _ _ Hr) as Hin.
  apply try_spec in Etry as [Hf _]; [|done|apply Hinv|done|by apply (Hown r Hin)].
  apply (mu_skip_registers lp r b) in Esk as (Hbin & s & Hs & Hsb); [|done|done|].
  2: { intros s Hs. pose proof (li_own _ _ _ Hinv r Hin) as Ho. unfold cached in Ho. simpl in Ho.
       rewrite Hs in Ho. destruct Ho as [?|(toks & Ht & [= ->])]; [done|].
       rewrite (proj1 (li_tokens _ _ _ Hinv)) in Ht. by injection Ht as <-. }
  apply pause_fields in Hstep as (Hrs & _ & Hcore & Hctx & Hcache & Hev).
  unfold mu_step. rewrite Hrs, Hit, list_lookup_insert_eq by by eapply lookup_lt_Some.
  rewrite (forget_ext (can_be_scheduled_with_disagg_exception sch) r' r), Hel by done. simpl.
  assert (Hne : is_encoder_init_state r' = false).
  { rewrite (forget_ext is_encoder_init_state r' r) by done.
    unfold is_encoder_init_state, is_context_init_state in *. by destruct (state r). }
  rewrite Hne. simpl.
  destruct (mu_skip_again lp' r' b s) as (ctx' & cache' & ->); try done.
  - by rewrite <- Hfc, (forget_ext is_context_init_state r' r), (forget_ext is_first_context_chunk r' r).
  - by rewrite (ev_reuse _ _ Hev).
  - by rewrite Hcache, (forget_ext request_id r' r).
  - by rewrite Hctx.
  - eexists. split; [done|]. simpl. by rewrite Hit.
Qed.

End max_utilization.

(** *** Properties *)

(** MAX_UTILIZATION terminates: the loop that tries, skips and pauses
    requests ends within as many iterations as there are requests; with more
    it returns the same, and it never runs out. *)
Theorem max_utilization_terminates {M} `{KvCacheLaws M} (sch : PyCapacityScheduler M) m active fuel :
  kv_exceptions_ok (M := M) -> (length active <= fuel)%nat ->
  mu_while sch fuel (mu_init sch m active) = max_utilization_schedule sch m active
  /\ max_utilization_schedule sch m active <> Err OutOfFuel.
Proof.
  intros Hok Hf. unfold max_utilization_schedule.
  assert (Hr : (lp_end (mu_init sch m active) - lp_it (mu_init sch m active) <= length active)%nat).
  { unfold mu_init. destruct (prefill_contributed_blocks _ _ _). simpl. lia. }
  split; [by apply while_fuel|by apply while_no_fuel].
Qed.

(** C3. On the C++ pool, the next step of every admitted request fits: in every
    window the blocks the scheduled decoder requests need for it are at most
    the free blocks plus the blocks that only the paused sequences hold. *)
Theorem max_utilization_next_step_fits (sch : PyCapacityScheduler KvPool) p active lp w :
  NoDup (request_id <$> active) -> peft_stable sch -> tokens_ok p (cross_kv_cache_manager sch) ->
  NoDup (window_size <$> pool_windows p) -> w ∈ pool_windows p -> wf_window w ->
  window_size w ∈ pool_window_vec p ->
  max_utilization_schedule sch p active = Ok lp ->
  let admitted := decoders (mu_scheduled (lp_core lp)) in
  admitted <> [] ->
  zsum (kv_need p (two_step_lookahead sch) (window_size w)) admitted
  <= free_blocks w + Z.of_nat (size (freed_by w (blocks_of w (request_id <$> lp_paused lp)))).
Proof.
  intros Hnd Hpeft Htok Hws Hin Hwf Hvec Hrun admitted Hne.
  apply max_utilization_spec in Hrun as Hinv; [|done..].
  assert (Hids : NoDup (request_id <$> lp_paused lp)).
  { eapply NoDup_contained; [|exact Hnd]. pose proof (li_paused _ _ _ _ Hinv) as Hp.
    assert (Hf : forall l : list LlmRequest, request_id <$> l = request_id <$> (forget <$> l))
      by (intros l; rewrite <- list_fmap_compose; done).
    rewrite (Hf (lp_paused lp)), (Hf active). apply fmap_submseteq. etrans; [exact Hp|].
    apply fmap_submseteq, sublist_submseteq, sublist_drop. }
  pose proof (li_kv _ _ _ _ Hinv) as Hkv.
  rewrite <- (pool_sched_free_exact p _ (lp_kv lp) w Hws Hin Hwf Hids Hkv).
  pose proof (ci_room _ _ _ _ (li_core _ _ _ _ Hinv) Hne) as Hroom.
  pose proof (evolved_remove_each _ _ _ Hkv) as Hev.
  rewrite (planned_evolved sch _ _ _ Hev), Forall_forall in Hroom.
  apply (Hroom (window_size w, _)). unfold planned. apply list_elem_of_fmap. exists (window_size w).
  split; [|by apply elem_of_remove_dups]. f_equal. apply zsum_ext. intros r _. simpl. by rewrite needed_start.
Qed.

(** *** Witnesses *)

Lemma assoc_at_no_fuel {A} (l : list (Z * A)) k : assoc_at l k <> Err OutOfFuel.
Proof. induction l as [|[k' a] l IH]; simpl; [done|]. by destruct (k' =? k). Qed.

Lemma release_no_fuel w id : window_scheduling_release_blocks w id <> Err OutOfFuel.
Proof.
  intros Hrun. apply bind_Err in Hrun as [Hrun|(ids & _ & Hrun)]; [by apply assoc_at_no_fuel in Hrun|].
  apply bind_Err in Hrun as [Hrun|([] & _ & Hrun)]; [|done].
  revert Hrun. generalize (scheduling_num_free_blocks w, blocks w).
  induction ids as [|x ids IH]; intros s Hrun; simpl in Hrun; [done|].
  apply bind_Err in Hrun as [Hrun|(s' & _ & Hrun)]; [|by eapply IH].
  destruct s as [free bs]. unfold release_block, dec_scheduling_ref_count in Hrun.
  destruct (bs !! x) as [b|]; [|done]. destruct (is_placeholder b); [done|].
  by destruct (has_scheduling_refs b).
Qed.

Lemma pool_exceptions_ok : kv_exceptions_ok (M := KvPool).
Proof.
  split; [|split].
  - intros p r b w s Hrun. apply bind_Err in Hrun as [Hrun|([reuse e] & _ & Hrun)].
    { unfold reuse_for_query in Hrun. destruct (_ && _); [|done]. by destruct (0 <? _). }
    apply bind_Err in Hrun as [Hrun|(n & _ & Hrun)]; [|done].
    destruct (_ || _).
    + apply bind_Err in Hrun as [Hrun|(n & _ & Hrun)].
      * destruct (is_cross_kv p); [|done]. unfold encoder_output_len in Hrun.
        by destruct (opt_encoder_output_len r).
      * destruct reuse as [s0|]; [|done]. destruct (pool_is_variable_window p); [done|].
        cbv zeta in Hrun. by destruct (0 <? _).
    + destruct (is_generation_in_progress_state r); [|done]. unfold needed_for_generation in Hrun.
      destruct (is_cross_kv p); [done|].
      apply bind_Err in Hrun as [Hrun|(q & _ & Hrun)]; [by apply assoc_at_no_fuel in Hrun|].
      apply bind_Err in Hrun as [Hrun|(q' & _ & Hrun)]; [by apply assoc_at_no_fuel in Hrun|].
      by destruct (_ <? _).
  - intros p n w Hrun. apply bind_Err in Hrun as [Hrun|(q & _ & Hrun)]; [by apply assoc_at_no_fuel in Hrun|done].
  - intros p id Hrun. apply bind_Err in Hrun as [Hrun|(ws & _ & Hrun)]; [|done].
    revert Hrun. generalize (pool_windows p). induction l as [|w l IH]; simpl; [done|]. intros Hrun.
    apply bind_Err in Hrun as [Hrun|(w' & _ & Hrun)]; [by apply release_no_fuel in Hrun|].
    apply bind_Err in Hrun as [Hrun|(ws' & _ & Hrun)]; [by apply IH|done].
Qed.

Definition wit_mu : PyCapacityScheduler KvPool := wit_capacity MAX_UTILIZATION 0 true.
Definition wit_mu_pool : KvPool := wit_pool 0 true.
Definition wit_mu_batch : list LlmRequest := [wit_running 3 38; wit_running 7 28].

Lemma max_utilization_terminates_witness :
  mu_while wit_mu 5 (mu_init wit_mu wit_mu_pool wit_mu_batch)
    = max_utilization_schedule wit_mu wit_mu_pool wit_mu_batch
  /\ max_utilization_schedule wit_mu wit_mu_pool wit_mu_batch <> Err OutOfFuel.
Proof.
  apply (max_utilization_terminates wit_mu wit_mu_pool wit_mu_batch 5).
  - apply pool_exceptions_ok.
  - simpl. lia.
Defined.

Lemma wit_mu_peft : peft_stable wit_mu.
Proof. intros p r [= <-]. done. Qed.

Lemma wit_mu_tokens : tokens_ok wit_mu_pool (cross_kv_cache_manager wit_mu).
Proof. done. Qed.

(** Sequence 3 needs a block and none is free: sequence 7 is paused. *)
Definition wit_mu_result : result mu_loop :=
  Eval vm_compute in max_utilization_schedule wit_mu wit_mu_pool wit_mu_batch.

Definition wit_mu_loop : mu_loop :=
  match wit_mu_result with Ok lp => lp | Err _ => mu_init wit_mu wit_mu_pool wit_mu_batch end.

Lemma max_utilization_next_step_fits_witness :
  request_id <$> mu_scheduled (lp_core wit_mu_loop) = [3] /\ request_id <$> lp_paused wit_mu_loop = [7]
  /\ zsum (kv_need wit_mu_pool false 1024) (decoders (mu_scheduled (lp_core wit_mu_loop)))
     <= 0 + Z.of_nat (size (freed_by (wit_window 0) (blocks_of (wit_window 0) [7]))).
Proof.
  split; [reflexivity|]. split; [reflexivity|].
  apply (max_utilization_next_step_fits wit_mu wit_mu_pool wit_mu_batch wit_mu_loop (wit_window 0)).
  - apply (bool_decide_unpack _). vm_compute. exact I.
  - apply wit_mu_peft.
  - apply wit_mu_tokens.
  - apply (bool_decide_unpack _). vm_compute. exact I.
  - left.
  - apply wit_window_wf.
  - left.
  - vm_compute. reflexivity.
  - vm_compute. discriminate.
Defined.

(** A new prompt that needs three blocks in front of a running sequence. *)
Definition wit_retry_batch : list LlmRequest := [wit_new 1 40 100; wit_running 3 38].
Definition wit_retry_loop : mu_loop := mu_init wit_mu wit_mu_pool wit_retry_batch.
Definition wit_retry_after : result (ctl mu_loop) := Eval vm_compute in mu_step wit_mu wit_retry_loop.
Definition wit_retry_loop' : mu_loop :=
  match wit_retry_after with Ok (Continue lp) => lp | _ => wit_retry_loop end.

Lemma retry_after_pause_is_skipped_witness :
  request_id <$> lp_paused wit_retry_loop' = [3]
  /\ exists lp'', mu_step wit_mu wit_retry_loop' = Ok (Continue lp'') /\ lp_it lp'' = 1%nat
    /\ lp_core lp'' = lp_core wit_retry_loop /\ lp_paused lp'' = lp_paused wit_retry_loop'.
Proof.
  split; [reflexivity|].
  apply (retry_after_pause_is_skipped wit_mu wit_retry_batch (start_scheduling wit_mu_pool)
           wit_retry_loop wit_retry_loop' (wit_new 1 40 100) 100).
  - apply (bool_decide_unpack _). vm_compute. exact I.
  - apply wit_mu_peft.
  - exact (init_inv wit_mu wit_mu_pool wit_retry_batch wit_mu_tokens).
  - reflexivity.
  - vm_compute. lia.
  - reflexivity.
  - reflexivity.
  - vm_compute. reflexivity.
  - reflexivity.
Defined.

(** With prefix reuse the pause gains nothing; without it the prompt is
    scheduled after the pause (the pool has two more free blocks here, one too
    few before the pause). *)
Example wit_retry_eval :
  let run reuse := max_utilization_schedule (wit_capacity MAX_UTILIZATION 2 reuse)
                     (wit_pool 2 reuse) wit_retry_batch in
  let ids lp := (request_id <$> mu_scheduled (lp_core lp), request_id <$> lp_paused lp) in
  (ids <$> run true) = Ok ([], [3]) /\ (ids <$> run false) = Ok ([1], [3]).
Proof. vm_compute. done. Qed.
