(* ===== verification/CapacitySpec.v ===== *)
(** * The capacity scheduler as a whole

    What [PyCapacityScheduler.schedule_request] promises its caller under every
    policy (Capacity.v, NoEvict.v, MaxUtilization.v): [capacity_contract], the
    interface the request schedulers of Unified.v rely on. *)

From stdpp Require Import prelude gmap sorting.
From S2P Require Import Prelude Request MicroBatch Capacity KvPool NoEvict MaxUtilization.
Local Open Scope Z_scope.

(** The requests that fit, the generation-init requests of a disaggregated
    server among them, and the requests to pause. *)
Record capacity_contract {M} (sch : PyCapacityScheduler M)
    (active fitting disagg paused : list LlmRequest) : Prop := {
  cc_len : len fitting + len disagg <= Z.max 0 (max_num_requests sch);
  cc_elig : Forall (eligible sch) (fitting ++ disagg);
  cc_fitting : Forall (fun r => is_disagg_generation_init_state r = false) fitting;
  cc_disagg : Forall (fun r => is_disagg_generation_init_state r = true) disagg;
  cc_prov : forget <$> (fitting ++ disagg ++ paused) ⊆+ forget <$> active;
  cc_started : Forall (fun r => is_started_request sch r = true) paused;
}.

Section policies.
Context {M : Type} `{KvCacheLaws M} (sch : PyCapacityScheduler M).

Definition selected (active scheduled paused : list LlmRequest) : Prop :=
  len scheduled <= Z.max 0 (max_num_requests sch)
  /\ Forall (eligible sch) scheduled
  /\ forget <$> (scheduled ++ paused) ⊆+ forget <$> active
  /\ Forall (fun r => is_started_request sch r = true) paused.

Lemma can_be_scheduled_eligible r : can_be_scheduled sch r = true -> eligible sch r.
Proof using Type.
  unfold eligible, can_be_scheduled_with_disagg_exception. by destruct (is_disagg_generation_init_state r).
Qed.

Lemma max_requests_spec active scheduled :
  max_requests_schedule sch active = Ok scheduled -> selected active scheduled [].
Proof using Type.
  intros Hrun. unfold max_requests_schedule in Hrun.
  apply (for_loop_prefix_inv _ (fun seen s => selected seen s [])) in Hrun as (seen & rest & -> & Hs).
  - destruct Hs as (? & ? & Hp & ?). repeat split; try done. etrans; [exact Hp|].
    rewrite fmap_app. by apply submseteq_inserts_r.
  - repeat split; simpl; try done; lia.
  - intros seen r rest s c _ (Hlen & Hel & Hp & _) Hb. rewrite app_nil_r in Hp.
    assert (Hskip : selected (seen ++ [r]) s []).
    { repeat split; try done. rewrite app_nil_r. by apply prov_skip. }
    unfold max_requests_body in Hb.
    destruct (can_be_scheduled sch r) eqn:Ec; simpl in Hb; [|by injection Hb as <-].
    destruct (max_num_requests sch <=? len s) eqn:Em; [by injection Hb as <-|]. bool_to_prop.
    destruct (_ || _); [|by injection Hb as <-]. injection Hb as <-. simpl.
    repeat split; [rewrite length_app; simpl; lia| | |done].
    + apply Forall_app. split; [done|]. constructor; [|done]. by apply can_be_scheduled_eligible.
    + rewrite app_nil_r. eapply prov_grow; [|reflexivity|exact Hp]. solve_Permutation.
Qed.

Lemma no_evict_selected static m active scheduled :
  NoDup (request_id <$> active) -> peft_stable sch -> tokens_ok m (cross_kv_cache_manager sch) ->
  guaranteed_no_evict_schedule sch static m active = Ok scheduled -> selected active scheduled [].
Proof using Type.
  intros Hnd Hpeft [Ht Hxt] Hrun.
  apply (guaranteed_no_evict_spec sch static m active) in Hrun as []; try done.
  repeat split; try done. by rewrite app_nil_r.
Qed.

Lemma max_utilization_selected m active lp :
  NoDup (request_id <$> active) -> peft_stable sch -> tokens_ok m (cross_kv_cache_manager sch) ->
  max_utilization_schedule sch m active = Ok lp ->
  selected active (mu_scheduled (lp_core lp)) (lp_paused lp).
Proof using Type.
  intros Hnd Hpeft Htok Hrun. apply max_utilization_spec in Hrun as Hinv; [|done..].
  pose proof (li_core _ _ _ _ Hinv) as Hc. pose proof (li_range _ _ _ _ Hinv) as Hr.
  repeat split; [apply Hc|apply Hc| |apply Hinv]. rewrite fmap_app.
  etrans; [apply submseteq_app; [apply (li_prov _ _ _ _ Hinv)|apply (li_paused _ _ _ _ Hinv)]|].
  rewrite <- fmap_app. apply fmap_submseteq, sublist_submseteq.
  rewrite <- (take_drop (lp_it lp) active) at 3. apply sublist_app; [done|].
  replace (lp_end lp) with (lp_it lp + (lp_end lp - lp_it lp))%nat by lia.
  rewrite <- drop_drop. apply sublist_drop.
Qed.

Definition managers_ok : Prop :=
  forall m, kv_cache_manager sch = Some m -> tokens_ok m (cross_kv_cache_manager sch).

Lemma policy_selected active scheduled paused managers :
  NoDup (request_id <$> active) -> peft_stable sch -> managers_ok ->
  policy_schedule sch active = Ok (scheduled, paused, managers) -> selected active scheduled paused.
Proof using Type.
  intros Hnd Hpeft Htok Hrun. unfold policy_schedule in Hrun.
  destruct (kv_cache_manager sch) as [m|] eqn:Em; simpl in Hrun.
  - specialize (Htok m Em). unfold create_policy in Hrun. rewrite Em in Hrun.
    destruct (scheduler_policy sch);
      (apply bind_Ok in Hrun as (x & E & Hrun)); injection Hrun as <- <- <-;
      [by eapply max_utilization_selected|by eapply no_evict_selected|by eapply no_evict_selected].
  - unfold create_policy in Hrun. rewrite Em in Hrun.
    apply bind_Ok in Hrun as (x & E & Hrun). injection Hrun as <- <- <-. by apply max_requests_spec.
Qed.

Lemma capacity_contract_holds active fitting disagg paused managers :
  NoDup (request_id <$> active) -> peft_stable sch -> managers_ok ->
  cap_schedule_request sch active = Ok (fitting, disagg, paused, managers) ->
  capacity_contract sch active fitting disagg paused.
Proof using Type.
  intros Hnd Hpeft Htok Hrun. unfold cap_schedule_request in Hrun.
  apply bind_Ok in Hrun as ([[scheduled paused'] managers'] & E & Hrun).
  simpl in Hrun. injection Hrun as <- <- <- <-.
  apply policy_selected in E as (Hlen & Hel & Hp & Hst); [|done..].
  pose proof (filter_bool_perm is_disagg_generation_init_state scheduled) as Hperm.
  split; try done.
  - apply Permutation_length in Hperm. rewrite length_app in Hperm. lia.
  - by rewrite Hperm.
  - apply Forall_forall. by intros r [? _]%list_elem_of_filter.
  - apply Forall_forall. by intros r [? _]%list_elem_of_filter.
  - by rewrite app_assoc, Hperm.
Qed.

End policies.

(** C22. Under every policy, the capacity scheduler admits at most
    [max_num_requests] requests, all in schedulable states; admitted and paused
    requests are disjoint parts of the active ones, up to the reuse estimate;
    disaggregated generation-init requests are returned apart; and only started
    requests are paused. *)
Theorem capacity_schedule_sound {M} `{KvCacheLaws M} (sch : PyCapacityScheduler M)
    active fitting disagg paused managers :
  NoDup (request_id <$> active) -> peft_stable sch -> managers_ok sch ->
  cap_schedule_request sch active = Ok (fitting, disagg, paused, managers) ->
  capacity_contract sch active fitting disagg paused.
Proof. apply capacity_contract_holds. Qed.

Lemma capacity_schedule_sound_witness :
  capacity_contract wit_mu wit_mu_batch (mu_scheduled (lp_core wit_mu_loop)) [] (lp_paused wit_mu_loop).
Proof.
  apply (capacity_schedule_sound wit_mu wit_mu_batch _ _ _ (Some (lp_kv wit_mu_loop), None)).
  - apply (bool_decide_unpack _). vm_compute. exact I.
  - apply wit_mu_peft.
  - intros m [= <-]. apply wit_mu_tokens.
  - vm_compute. reflexivity.
Defined.
