(* ===== verification/Unified.v ===== *)
(** * Request schedulers: capacity, then micro-batch

    The rest of [tensorrt_llm/_torch/pyexecutor/scheduler/scheduler.py]: the
    batch container [ScheduledRequests], its serializable form
    [SerializableSchedulerOutput] that the first pipeline rank sends to the
    others, and the two request schedulers that compose a capacity stage with a
    micro-batch stage.  [SimpleScheduler] takes the stages as objects, here the
    class [Stages] with the contracts [StagesLaws]; [SimpleUnifiedScheduler]
    builds the Python stages of Capacity.v and MicroBatch.v, whose theorems
    discharge the contracts. *)

From stdpp Require Import prelude gmap sorting strings.
From S2P Require Import Prelude Request Chunking MicroBatch Capacity KvPool NoEvict MaxUtilization CapacitySpec.
Local Open Scope Z_scope.

(** ** ScheduledRequests *)

Record ScheduledRequests := mkScheduled {
  sr_encoder_requests : list LlmRequest;
  sr_context_requests_chunking : list LlmRequest;
  sr_context_requests_last_chunk : list LlmRequest;
  sr_generation_requests : list LlmRequest;
  sr_paused_requests : list LlmRequest;
}.

Definition sr_new : ScheduledRequests := mkScheduled [] [] [] [] [].

Definition sr_num_encoder_requests (b : ScheduledRequests) : Z := len (sr_encoder_requests b).
Definition sr_num_context_requests (b : ScheduledRequests) : Z :=
  len (sr_context_requests_chunking b) + len (sr_context_requests_last_chunk b).
Definition sr_num_generation_requests (b : ScheduledRequests) : Z := len (sr_generation_requests b).

Definition sr_is_generation_only (b : ScheduledRequests) : bool :=
  (sr_num_context_requests b =? 0)
  && forallb (fun r => len (draft_tokens r) =? 0) (sr_generation_requests b).
Definition sr_can_run_cuda_graph (b : ScheduledRequests) : bool := sr_num_context_requests b =? 0.
Definition sr_batch_size (b : ScheduledRequests) : Z :=
  sr_num_context_requests b + len (sr_generation_requests b).
Definition sr_context_requests (b : ScheduledRequests) : list LlmRequest :=
  sr_context_requests_chunking b ++ sr_context_requests_last_chunk b.
Definition sr_all_requests (b : ScheduledRequests) : list LlmRequest :=
  sr_context_requests b ++ sr_generation_requests b.

Definition append_encoder_request (b : ScheduledRequests) (r : LlmRequest) : ScheduledRequests :=
  mkScheduled (sr_encoder_requests b ++ [r]) (sr_context_requests_chunking b)
    (sr_context_requests_last_chunk b) (sr_generation_requests b) (sr_paused_requests b).

Definition append_context_request (b : ScheduledRequests) (r : LlmRequest) : result ScheduledRequests :=
  last ← is_last_context_chunk r;
  if (last : bool) then
    Ok (mkScheduled (sr_encoder_requests b) (sr_context_requests_chunking b)
          (sr_context_requests_last_chunk b ++ [r]) (sr_generation_requests b) (sr_paused_requests b))
  else
    Ok (mkScheduled (sr_encoder_requests b) (sr_context_requests_chunking b ++ [r])
          (sr_context_requests_last_chunk b) (sr_generation_requests b) (sr_paused_requests b)).

Definition append_generation_request (b : ScheduledRequests) (r : LlmRequest) : ScheduledRequests :=
  mkScheduled (sr_encoder_requests b) (sr_context_requests_chunking b)
    (sr_context_requests_last_chunk b) (sr_generation_requests b ++ [r]) (sr_paused_requests b).

Definition reset_context_requests (b : ScheduledRequests) (context_requests : option (list LlmRequest))
    : result ScheduledRequests :=
  let rs := match context_requests with Some rs => rs | None => sr_context_requests b end in
  for_each append_context_request
    (mkScheduled (sr_encoder_requests b) [] [] (sr_generation_requests b) (sr_paused_requests b)) rs.

Definition split_encoder_from_decoder_context_requests (requests : list LlmRequest)
    : list LlmRequest * list LlmRequest :=
  foldl (fun '(enc, ctx) r => if is_encoder_init_state r then (enc ++ [r], ctx) else (enc, ctx ++ [r]))
    ([], []) requests.

(** ** The schedule as ids *)

Record SerializableSchedulerOutput := mkSerializable {
  ser_encoder_requests : list Z;
  ser_context_requests_chunking : list Z;
  ser_context_requests_last_chunk : list Z;
  ser_generation_requests : list Z;
  ser_paused_requests : list Z;
  ser_fitting_disagg_gen_init_requests : list Z;
  ser_num_fitting_requests : Z;
}.

Definition from_scheduler_result (b : ScheduledRequests) (disagg : list LlmRequest) (num_fitting : Z)
    : SerializableSchedulerOutput :=
  mkSerializable (request_id <$> sr_encoder_requests b)
    (request_id <$> sr_context_requests_chunking b) (request_id <$> sr_context_requests_last_chunk b)
    (request_id <$> sr_generation_requests b) (request_id <$> sr_paused_requests b)
    (request_id <$> disagg) num_fitting.

(** [{req.request_id: req for req in active_requests}]: a later request with
    the same id replaces an earlier one. *)
Definition id_to_request (active_requests : list LlmRequest) : gmap Z LlmRequest :=
  foldl (fun d r => <[request_id r := r]> d) ∅ active_requests.

Definition lookup_ids (d : gmap Z LlmRequest) (ids : list Z) : result (list LlmRequest) :=
  mapM (fun i => match d !! i with Some r => Ok r | None => Err KeyError end) ids.

Definition to_scheduler_result (s : SerializableSchedulerOutput) (active_requests : list LlmRequest)
    : result (ScheduledRequests * list LlmRequest * Z) :=
  let d := id_to_request active_requests in
  enc ← lookup_ids d (ser_encoder_requests s);
  chunking ← lookup_ids d (ser_context_requests_chunking s);
  last ← lookup_ids d (ser_context_requests_last_chunk s);
  gen ← lookup_ids d (ser_generation_requests s);
  paused ← lookup_ids d (ser_paused_requests s);
  disagg ← lookup_ids d (ser_fitting_disagg_gen_init_requests s);
  Ok (mkScheduled enc chunking last gen paused, disagg, ser_num_fitting_requests s).

(** ** The request schedulers *)

Record SchedulerOutput := mkOutput {
  so_encoder_requests : list LlmRequest;
  so_context_requests : list LlmRequest;
  so_generation_requests : list LlmRequest;
  so_paused_requests : list LlmRequest;
  so_fitting_disagg_gen_init_requests : list LlmRequest;
  so_num_fitting_requests : Z;
}.

(** A capacity scheduler and a micro-batch scheduler, with the state they
    keep between calls. *)
Class Stages (S : Type) := {
  stage_capacity : S -> list LlmRequest ->
    result (list LlmRequest * list LlmRequest * list LlmRequest * S);
  stage_micro_batch : S -> list LlmRequest -> gset Z -> result mb_output;
}.

(** [SimpleScheduler.schedule_request] *)
Definition simple_schedule_request {S} `{Stages S} (s : S) (active_requests : list LlmRequest)
    (inflight_request_ids : gset Z) : result (SchedulerOutput * S) :=
  let active_requests := drop_decoder_context_requests_waiting_for_encoder_output active_requests in
  '(fitting, disagg, paused, s') ← stage_capacity s active_requests;
  out ← stage_micro_batch s' fitting inflight_request_ids;
  Ok (mkOutput (out_encoder out) (out_context out) (out_generation out) paused disagg (len fitting), s').

(** [SimpleScheduler.can_schedule] *)
Definition simple_can_schedule {S} `{Stages S} (s : S) (requests : list LlmRequest) : result (bool * S) :=
  let requests := drop_decoder_context_requests_waiting_for_encoder_output requests in
  '(fitting, _, _, s') ← stage_capacity s requests;
  Ok (len fitting =? len requests, s').

(** *** SimpleUnifiedScheduler *)

Record SimpleUnifiedScheduler (M : Type) := mkUnified {
  un_capacity_scheduler : PyCapacityScheduler M;
  un_micro_batch_scheduler : PyMicroBatchScheduler;
}.
Arguments mkUnified {_} _ _.
Arguments un_capacity_scheduler {_} _.
Arguments un_micro_batch_scheduler {_} _.

(** [sub in s] on strings *)
Fixpoint contains (sub s : string) : bool :=
  String.prefix sub s || match s with EmptyString => false | String _ s' => contains sub s' end.

(** The policy is recognised by its name; any other name means first come,
    first served. *)
Definition chunking_policy_of (input_policy : string) : ChunkingPolicy :=
  if contains "EQUAL_PROGRESS" input_policy then EQUAL_PROGRESS
  else if contains "FORCE_CHUNK" input_policy then FORCE_CHUNK
  else FIRST_COME_FIRST_SERVED.

Definition unified_new {M} (max_batch_size : Z) (max_num_tokens : Z) (kv : option M)
    (peft : option PeftCacheManager) (policy : CapacitySchedulerPolicy)
    (ctx_chunk_config : option (string * Z)) (cross : option M) (two_step : bool)
    (scheduler_capacity : option Z) (until : LlmRequestState) : SimpleUnifiedScheduler M :=
  let capacity := default max_batch_size scheduler_capacity in
  mkUnified
    (mkCapacity capacity kv peft policy cross two_step until GENERATION_COMPLETE)
    (mkMicroBatch max_batch_size (Some max_num_tokens)
       ((fun '(p, u) => mkChunkConfig (chunking_policy_of p) u) <$> ctx_chunk_config)
       until GENERATION_TO_COMPLETE).

Definition with_managers {M} (sch : PyCapacityScheduler M) (managers : option M * option M)
    : PyCapacityScheduler M :=
  mkCapacity (max_num_requests sch) managers.1 (peft_cache_manager sch) (scheduler_policy sch) managers.2
    (two_step_lookahead sch) (no_schedule_until_state sch) (no_schedule_after_state sch).

Definition unified_schedule_request {M} `{KvCacheManager M} (s : SimpleUnifiedScheduler M)
    (active_requests : list LlmRequest) (inflight_request_ids : gset Z)
    : result (SchedulerOutput * SimpleUnifiedScheduler M) :=
  let active_requests := drop_decoder_context_requests_waiting_for_encoder_output active_requests in
  '(fitting, disagg, paused, managers) ← cap_schedule_request (un_capacity_scheduler s) active_requests;
  out ← schedule (un_micro_batch_scheduler s) fitting inflight_request_ids;
  Ok (mkOutput (out_encoder out) (out_context out) (out_generation out) paused disagg (len fitting),
      mkUnified (with_managers (un_capacity_scheduler s) managers) (un_micro_batch_scheduler s)).

Definition unified_can_schedule {M} `{KvCacheManager M} (s : SimpleUnifiedScheduler M)
    (requests : list LlmRequest) : result (bool * SimpleUnifiedScheduler M) :=
  let requests := drop_decoder_context_requests_waiting_for_encoder_output requests in
  '(fitting, _, _, managers) ← cap_schedule_request (un_capacity_scheduler s) requests;
  Ok (len fitting =? len requests,
      mkUnified (with_managers (un_capacity_scheduler s) managers) (un_micro_batch_scheduler s)).

(** ** ScheduledRequests: the split of the contexts *)

Lemma reset_context_requests_spec b rs :
  Forall (fun r => is_context_init_state r = true) rs ->
  reset_context_requests b (Some rs)
  = Ok (mkScheduled (sr_encoder_requests b) (filter (fun r => at_last_chunk r = false) rs)
          (filter (fun r => at_last_chunk r = true) rs) (sr_generation_requests b) (sr_paused_requests b)).
Proof.
  intros Hctx. unfold reset_context_requests.
  enough (Hgen : forall ch la, for_each append_context_request
      (mkScheduled (sr_encoder_requests b) ch la (sr_generation_requests b) (sr_paused_requests b)) rs
    = Ok (mkScheduled (sr_encoder_requests b) (ch ++ filter (fun r => at_last_chunk r = false) rs)
            (la ++ filter (fun r => at_last_chunk r = true) rs) (sr_generation_requests b)
            (sr_paused_requests b))) by apply Hgen.
  induction Hctx as [|r rs Hr _ IH]; intros ch la; simpl; [by rewrite !app_nil_r|].
  unfold append_context_request. rewrite (is_last_context_chunk_ctx r Hr). simpl.
  rewrite !filter_cons. fold (at_last_chunk r). destruct (at_last_chunk r) eqn:E; simpl; rewrite IH.
  - by rewrite <- app_assoc.
  - by rewrite <- app_assoc.
Qed.

(** The container keeps the scheduler's order: splitting the contexts of a
    chunked batch into those in the middle of their prompt and those at their
    last chunk, and listing them again, gives the scheduler's list back. *)
Theorem scheduled_requests_keep_order sch inflight active b :
  config_ok sch -> is_Some (ctx_chunk_config sch) ->
  Forall (fun r => passed_over sch inflight r = false -> admissible sch r) active ->
  exists out b', schedule sch active inflight = Ok out
    /\ reset_context_requests b (Some (out_context out)) = Ok b'
    /\ sr_context_requests b' = out_context out
    /\ sr_num_context_requests b' = len (out_context out).
Proof.
  intros Hcfg Hs Hadm.
  destruct (schedule_context_runs sch inflight active Hcfg Hs Hadm)
    as (out & u & l & Hrun & Hspec & Heq & Hu & Hl & _).
  eexists out, _. split; [done|]. split; [apply reset_context_requests_spec|].
  { eapply Forall_impl; [exact (spec_ctx _ _ _ _ Hspec)|]. intros r Hr. unfold is_context_init_state. by rewrite Hr. }
  assert (Hne : Forall (fun r => at_last_chunk r <> false) l)
    by (eapply Forall_impl; [exact Hl|]; simpl; congruence).
  assert (Hne' : Forall (fun r => at_last_chunk r <> true) u)
    by (eapply Forall_impl; [exact Hu|]; simpl; congruence).
  unfold sr_context_requests, sr_num_context_requests. simpl.
  rewrite Heq, !filter_app, (filter_all _ u Hu), (filter_none _ l Hne), (filter_none _ u Hne'), (filter_all _ l Hl).
  rewrite app_nil_r. split; [done|]. rewrite !length_app. simpl. lia.
Qed.

Lemma scheduled_requests_keep_order_witness :
  exists out b', schedule wit_scheduler wit_active ∅ = Ok out
    /\ reset_context_requests sr_new (Some (out_context out)) = Ok b'
    /\ sr_context_requests b' = out_context out
    /\ sr_num_context_requests b' = len (out_context out).
Proof.
  apply (scheduled_requests_keep_order wit_scheduler ∅ wit_active sr_new).
  - apply wit_config_ok.
  - by eexists.
  - apply wit_admissible.
Defined.

(** ** The schedule as ids: round trip *)

Lemma id_to_request_lookup active r :
  NoDup (request_id <$> active) -> r ∈ active -> id_to_request active !! request_id r = Some r.
Proof.
  intros Hnd Hr. unfold id_to_request.
  enough (Hgen : forall l d, NoDup (request_id <$> l) ->
    (r ∈ l \/ (d !! request_id r = Some r /\ request_id r ∉ request_id <$> l)) ->
    foldl (fun d r => <[request_id r := r]> d) d l !! request_id r = Some r)
    by (apply Hgen; auto).
  induction l as [|x l IH]; intros d Hl Hin; simpl.
  - destruct Hin as [Hin|[? _]]; [by apply elem_of_nil in Hin|done].
  - apply NoDup_cons in Hl as [Hx Hl]. apply IH; [done|].
    destruct Hin as [[->|Hin]%elem_of_cons|[Hd Hni]].
    + right. split; [apply lookup_insert_eq|done].
    + by left.
    + right. apply not_elem_of_cons in Hni as [Hne Hni]. split; [|done]. by rewrite lookup_insert_ne.
Qed.

Lemma lookup_ids_of active rs :
  NoDup (request_id <$> active) -> Forall (fun r => r ∈ active) rs ->
  lookup_ids (id_to_request active) (request_id <$> rs) = Ok rs.
Proof.
  intros Hnd. unfold lookup_ids. induction 1 as [|r rs Hr _ IH]; [done|].
  rewrite fmap_cons. simpl. rewrite (id_to_request_lookup active r Hnd Hr). simpl.
  by rewrite IH.
Qed.

(** What the first pipeline rank sends is the schedule: the ids, looked up
    among active requests with distinct ids, give the same batch, the same
    generation-init requests and the same count back. *)
Theorem scheduler_result_roundtrip active b disagg n :
  NoDup (request_id <$> active) ->
  Forall (fun r => r ∈ active) (sr_encoder_requests b ++ sr_context_requests b ++ sr_generation_requests b
                                ++ sr_paused_requests b ++ disagg) ->
  to_scheduler_result (from_scheduler_result b disagg n) active = Ok (b, disagg, n).
Proof.
  intros Hnd Hall. unfold sr_context_requests in Hall. rewrite !Forall_app in Hall. destruct_and!.
  unfold to_scheduler_result, from_scheduler_result. simpl.
  rewrite !lookup_ids_of by done. simpl. by destruct b.
Qed.

Lemma scheduler_result_roundtrip_witness :
  let b := mkScheduled [] [new_request 1 CONTEXT_INIT 100 []] [] [new_request 3 GENERATION_IN_PROGRESS 20 [5]] [] in
  to_scheduler_result (from_scheduler_result b [] 2) wit_active = Ok (b, [], 2).
Proof.
  apply (scheduler_result_roundtrip wit_active
           (mkScheduled [] [new_request 1 CONTEXT_INIT 100 []] [] [new_request 3 GENERATION_IN_PROGRESS 20 [5]] []) [] 2).
  - apply (bool_decide_unpack _). vm_compute. exact I.
  - repeat apply Forall_cons_2; try apply Forall_nil_2; apply (bool_decide_unpack _); vm_compute; exact I.
Defined.

(** ** The pipeline against the contracts of its stages *)

(** [stage_ok] is what the stages need of their state, [stage_admits] what the
    micro-batch stage needs of the requests that fit. *)
Class StagesLaws (S : Type) `{Stages S} := {
  stage_ok : S -> Prop;
  stage_admits : S -> gset Z -> list LlmRequest -> Prop;
  stage_capacity_law s active fitting disagg paused s' :
    stage_ok s -> NoDup (request_id <$> active) ->
    stage_capacity s active = Ok (fitting, disagg, paused, s') ->
    request_id <$> (fitting ++ disagg ++ paused) ⊆+ request_id <$> active /\ stage_ok s';
  stage_micro_batch_law s inflight fitting :
    stage_admits s inflight fitting ->
    exists out, stage_micro_batch s fitting inflight = Ok out
      /\ request_id <$> out_requests out ⊆+ request_id <$> fitting
      /\ Forall (fun r => request_id r ∉ inflight) (out_requests out);
}.

(** All requests a schedule mentions. *)
Definition so_requests (out : SchedulerOutput) : list LlmRequest :=
  (so_encoder_requests out ++ so_context_requests out ++ so_generation_requests out)
  ++ so_fitting_disagg_gen_init_requests out ++ so_paused_requests out.

Lemma dropped_ids active :
  request_id <$> drop_decoder_context_requests_waiting_for_encoder_output active ⊆+ request_id <$> active.
Proof. apply fmap_submseteq, sublist_submseteq, sublist_filter. Qed.

Lemma simple_schedule_spec {S} `{StagesLaws S} s active inflight fitting disagg paused s' :
  stage_ok s -> NoDup (request_id <$> active) ->
  stage_capacity s (drop_decoder_context_requests_waiting_for_encoder_output active)
    = Ok (fitting, disagg, paused, s') ->
  stage_admits s' inflight fitting ->
  exists out, simple_schedule_request s active inflight = Ok (out, s')
    /\ request_id <$> so_requests out ⊆+ request_id <$> active
    /\ Forall (fun r => request_id r ∉ inflight)
         (so_encoder_requests out ++ so_context_requests out ++ so_generation_requests out).
Proof.
  intros Hok Hnd Hcap Hadm. unfold simple_schedule_request. rewrite Hcap. simpl.
  destruct (stage_micro_batch_law s' inflight fitting Hadm) as (out & -> & Hsub & Hfl). simpl.
  eexists. split; [done|]. split; [|done]. unfold so_requests. simpl.
  apply stage_capacity_law in Hcap as [Hc _]; [|done|by eapply NoDup_contained, Hnd; apply dropped_ids].
  etrans; [|exact (dropped_ids active)]. etrans; [|exact Hc].
  rewrite !(fmap_app request_id), <- !(fmap_app request_id).
  rewrite (fmap_app request_id (out_encoder out ++ _)), (fmap_app request_id fitting).
  by apply submseteq_skips_r.
Qed.

(** Every request scheduler of this shape partitions: whatever the capacity
    and micro-batch stages are, if they keep their contracts then the encoder,
    context, generation, generation-init and paused lists together hold each
    active request at most once, and nothing in flight is scheduled again. *)
Theorem request_scheduler_partitions {S} `{StagesLaws S} s active inflight fitting disagg paused s' :
  stage_ok s -> NoDup (request_id <$> active) ->
  stage_capacity s (drop_decoder_context_requests_waiting_for_encoder_output active)
    = Ok (fitting, disagg, paused, s') ->
  stage_admits s' inflight fitting ->
  exists out, simple_schedule_request s active inflight = Ok (out, s')
    /\ NoDup (request_id <$> so_requests out)
    /\ (forall r, r ∈ so_requests out -> request_id r ∈ request_id <$> active)
    /\ Forall (fun r => request_id r ∉ inflight)
         (so_encoder_requests out ++ so_context_requests out ++ so_generation_requests out).
Proof.
  intros Hok Hnd Hcap Hadm.
  destruct (simple_schedule_spec s active inflight fitting disagg paused s' Hok Hnd Hcap Hadm)
    as (out & Hrun & Hsub & Hfl).
  exists out. split; [done|]. split; [by eapply NoDup_contained|]. split; [|done].
  intros r Hr. eapply elem_of_submseteq; [|exact Hsub]. by apply list_elem_of_fmap_2.
Qed.

(** *** The Python stages *)

Section unified.
Context {M : Type} `{KvCacheLaws M}.

#[export] Instance unified_stages : Stages (SimpleUnifiedScheduler M) := {
  stage_capacity s active :=
    '(fitting, disagg, paused, managers) ← cap_schedule_request (un_capacity_scheduler s) active;
    Ok (fitting, disagg, paused,
        mkUnified (with_managers (un_capacity_scheduler s) managers) (un_micro_batch_scheduler s));
  stage_micro_batch s fitting inflight := schedule (un_micro_batch_scheduler s) fitting inflight;
}.

Definition capacity_ok (s : SimpleUnifiedScheduler M) : Prop :=
  peft_stable (un_capacity_scheduler s) /\ managers_ok (un_capacity_scheduler s).

Definition micro_batch_ok (s : SimpleUnifiedScheduler M) (inflight : gset Z) (fitting : list LlmRequest) : Prop :=
  config_ok (un_micro_batch_scheduler s)
  /\ Forall (fun r => passed_over (un_micro_batch_scheduler s) inflight r = false ->
                      admissible (un_micro_batch_scheduler s) r) fitting.

Lemma ids_forget (l : list LlmRequest) : request_id <$> l = request_id <$> (forget <$> l).
Proof using Type. by rewrite <- list_fmap_compose. Qed.

Lemma ids_erase (l : list LlmRequest) : request_id <$> l = request_id <$> (erase <$> l).
Proof using Type. by rewrite <- list_fmap_compose. Qed.

(** The managers a schedule leaves behind still cache the right tokens. *)
Lemma managers_kept (sch : PyCapacityScheduler M) active scheduled paused managers :
  NoDup (request_id <$> active) -> peft_stable sch -> managers_ok sch ->
  policy_schedule sch active = Ok (scheduled, paused, managers) -> managers_ok (with_managers sch managers).
Proof using Type.
  intros Hnd Hpeft Htok Hrun. unfold policy_schedule, create_policy in Hrun.
  destruct (kv_cache_manager sch) as [m|] eqn:Em; simpl in Hrun.
  - destruct (scheduler_policy sch); (apply bind_Ok in Hrun as (x & E & Hrun)); injection Hrun as <- <- <-.
    2,3: intros m' Hm'; simpl in *; apply Htok; congruence.
    intros m' [= <-]. simpl. apply max_utilization_spec in E as Hinv; [apply Hinv|done|done|by apply Htok].
  - apply bind_Ok in Hrun as (x & E & Hrun). injection Hrun as <- <- <-. intros m' Hm'. simpl in *. apply Htok. congruence.
Qed.

#[export] Program Instance unified_laws : StagesLaws (SimpleUnifiedScheduler M) := {
  stage_ok := capacity_ok;
  stage_admits := micro_batch_ok;
}.
Next Obligation.
  intros s active fitting disagg paused s' [Hpeft Hm] Hnd Hrun. simpl in Hrun.
  apply bind_Ok in Hrun as ([[[f d] p] managers] & E & Hrun). injection Hrun as <- <- <- <-.
  split.
  - apply capacity_contract_holds in E as []; [|done..]. rewrite (ids_forget (f ++ d ++ p)), (ids_forget active).
    by apply fmap_submseteq.
  - unfold cap_schedule_request in E. apply bind_Ok in E as ([[sc p'] ms] & E & Hr). simpl in Hr.
    injection Hr as _ _ _ <-. split; [exact Hpeft|]. by eapply managers_kept.
Qed.
Next Obligation.
  intros s inflight fitting [Hcfg Hadm]. simpl.
  destruct (schedule_spec _ inflight Hcfg fitting Hadm) as (out & -> & Hspec). exists out.
  split; [done|]. split; [rewrite (ids_erase (out_requests out)), (ids_erase fitting); apply fmap_submseteq, Hspec|].
  eapply Forall_impl; [exact (spec_elig _ _ _ _ Hspec)|]. intros r Hr. unfold passed_over in Hr.
  apply orb_false_elim in Hr as [[Hi _]%orb_false_elim _]. by apply bool_decide_eq_false in Hi.
Qed.

Lemma unified_is_simple (s : SimpleUnifiedScheduler M) active inflight :
  unified_schedule_request s active inflight = simple_schedule_request s active inflight.
Proof using Type.
  unfold unified_schedule_request, simple_schedule_request. simpl.
  by destruct (cap_schedule_request _ _) as [[[[f d] p] ms]|].
Qed.

End unified.

(** C6. One iteration of the unified scheduler: if the capacity stage returns
    and the requests that fit are admissible, [schedule_request] returns a batch
    within the token budget and the batch size; it reports at most the
    configured capacity of fitting requests, and the batch, the generation-init
    requests and the paused requests are disjoint parts of the active ones. *)
Theorem unified_schedule_sound {M} `{KvCacheLaws M} (s : SimpleUnifiedScheduler M) active inflight
    fitting disagg paused managers :
  capacity_ok s -> NoDup (request_id <$> active) ->
  cap_schedule_request (un_capacity_scheduler s)
    (drop_decoder_context_requests_waiting_for_encoder_output active)
    = Ok (fitting, disagg, paused, managers) ->
  micro_batch_ok s inflight fitting ->
  exists out s', unified_schedule_request s active inflight = Ok (out, s')
    /\ exceeds (zsum enc_cost (so_encoder_requests out)
                + zsum (batch_ctx_cost (un_micro_batch_scheduler s)) (so_context_requests out)
                + zsum gen_cost (so_generation_requests out))
         (max_num_tokens (un_micro_batch_scheduler s)) = false
    /\ len (so_encoder_requests out ++ so_context_requests out ++ so_generation_requests out)
       <= Z.max 1 (max_batch_size (un_micro_batch_scheduler s))
    /\ so_num_fitting_requests out <= Z.max 0 (max_num_requests (un_capacity_scheduler s))
    /\ request_id <$> so_requests out ⊆+ request_id <$> active.
Proof.
  intros Hok Hnd Hcap Hmb. rewrite unified_is_simple.
  assert (Hstage : stage_capacity s (drop_decoder_context_requests_waiting_for_encoder_output active)
    = Ok (fitting, disagg, paused,
          mkUnified (with_managers (un_capacity_scheduler s) managers) (un_micro_batch_scheduler s)))
    by (simpl; by rewrite Hcap).
  destruct (simple_schedule_spec (H0 := unified_laws) s active inflight fitting disagg paused _ Hok Hnd Hstage Hmb)
    as (out & Hrun & Hsub & _).
  exists out. eexists. split; [exact Hrun|].
  unfold simple_schedule_request in Hrun. rewrite Hstage in Hrun. cbn [mbind result_bind] in Hrun.
  destruct Hmb as [Hcfg Hadm].
  destruct (schedule_spec _ inflight Hcfg fitting Hadm) as (mb & Hmb & []). simpl in Hrun.
  rewrite Hmb in Hrun. injection Hrun as <-. split; [done|]. split; [done|]. split; [|done].
  apply capacity_contract_holds in Hcap as [Hlen _ _ _ _ _]; [simpl; lia| |apply Hok|apply Hok].
  eapply NoDup_contained; [apply dropped_ids|done].
Qed.

(** *** Witnesses *)

(** One running sequence and two new prompts that share their first block. *)
Definition wit_unified : SimpleUnifiedScheduler KvPool :=
  unified_new 4 64 (Some (wit_pool 12 true)) None GUARANTEED_NO_EVICT
    (Some ("ContextChunkingPolicy.FIRST_COME_FIRST_SERVED"%string, 16)) None false (Some 8) CONTEXT_INIT.
Definition wit_unified_active : list LlmRequest := [wit_running 3 38; wit_new 1 100 7; wit_new 2 50 7].
Definition wit_unified_fitting : list LlmRequest := [wit_running 3 38; wit_new 1 100 7].

Lemma wit_capacity_ok : capacity_ok wit_unified.
Proof. split; [done|]. intros m [= <-]. done. Qed.

Lemma wit_micro_batch_ok : micro_batch_ok wit_unified ∅ wit_unified_fitting.
Proof.
  split; [by repeat split|]. repeat apply Forall_cons_2; try apply Forall_nil_2; intros _; unfold admissible; simpl.
  - exists 1. split; [reflexivity|lia].
  - split; [|done]. constructor; unfold context_remaining_length; simpl; lia.
Qed.

Lemma request_scheduler_partitions_witness :
  exists out s', simple_schedule_request wit_unified wit_unified_active ∅ = Ok (out, s')
    /\ NoDup (request_id <$> so_requests out)
    /\ (forall r, r ∈ so_requests out -> request_id r ∈ request_id <$> wit_unified_active)
    /\ Forall (fun r => request_id r ∉ (∅ : gset Z))
         (so_encoder_requests out ++ so_context_requests out ++ so_generation_requests out).
Proof.
  destruct (request_scheduler_partitions wit_unified wit_unified_active ∅ wit_unified_fitting [] []
              (mkUnified (with_managers (un_capacity_scheduler wit_unified) (Some (wit_pool 12 true), None))
                 (un_micro_batch_scheduler wit_unified))) as (out & Hout).
  - apply wit_capacity_ok.
  - apply (bool_decide_unpack _). vm_compute. exact I.
  - vm_compute. reflexivity.
  - apply wit_micro_batch_ok.
  - eexists out, _. exact Hout.
Defined.

Lemma unified_schedule_sound_witness :
  exists out s', unified_schedule_request wit_unified wit_unified_active ∅ = Ok (out, s')
    /\ exceeds (zsum enc_cost (so_encoder_requests out)
                + zsum (batch_ctx_cost (un_micro_batch_scheduler wit_unified)) (so_context_requests out)
                + zsum gen_cost (so_generation_requests out)) (Some 64) = false
    /\ len (so_encoder_requests out ++ so_context_requests out ++ so_generation_requests out) <= 4
    /\ so_num_fitting_requests out <= 8
    /\ request_id <$> so_requests out ⊆+ request_id <$> wit_unified_active.
Proof.
  apply (unified_schedule_sound wit_unified wit_unified_active ∅ wit_unified_fitting [] []
           (Some (wit_pool 12 true), None)).
  - apply wit_capacity_ok.
  - apply (bool_decide_unpack _). vm_compute. exact I.
  - vm_compute. reflexivity.
  - apply wit_micro_batch_ok.
Defined.

(** Evaluated: the running sequence decodes, prompt 1 gets a chunk of 48
    tokens, prompt 2 waits for the block prompt 1 computes. *)
Example wit_unified_eval :
  (fun p => let out := p.1 in
    (request_id <$> so_generation_requests out,
     (fun r => (request_id r, m_context_chunk_size r)) <$> so_context_requests out,
     so_num_fitting_requests out))
    <$> unified_schedule_request wit_unified wit_unified_active ∅ = Ok ([3], [(1, 48)], 2).
Proof. vm_compute. reflexivity. Qed.
