(* ===== verification/PyHeapq.v ===== *)
(** * Python's [heapq]

    The binary heap the schedulers and the routers use from Python's standard
    library, on a list, with CPython's sifting: [heappush], [heappop] and
    [heapify].  [heappush_spec], [heappop_spec], [heapify_spec] and [heap_min]
    are what its clients rely on: every operation keeps the heap order and the
    multiset of elements, and the first element is a minimum. *)

From stdpp Require Import prelude gmap sorting.
From S2P Require Import Prelude.

#[local] Arguments Nat.div : simpl never.
#[local] Arguments Nat.mul : simpl never.

(** [lt] is [__lt__] of the elements, a strict weak order. *)
Class StrictWeakOrder {A} (lt : A -> A -> bool) : Prop := {
  swo_irrefl x : lt x x = false;
  swo_trans x y z : lt x y = true -> lt y z = true -> lt x z = true;
  swo_neg_trans x y z : lt y x = false -> lt z y = false -> lt z x = false;
}.

Section heap.
Context {A : Type} (lt : A -> A -> bool).

(** *** Sifting *)

(** [_siftdown]: the new item rises from [pos] while it is smaller than the
    parent.  [pos] itself bounds the number of rounds. *)
Fixpoint siftdown_loop (fuel : nat) (heap : list A) (newitem : A) (startpos pos : nat) : list A :=
  match fuel with
  | O => <[pos := newitem]> heap
  | S fuel' =>
      if startpos <? pos then
        let parentpos := (pos - 1) / 2 in
        match heap !! parentpos with
        | None => <[pos := newitem]> heap
        | Some parent =>
            if lt newitem parent
            then siftdown_loop fuel' (<[pos := parent]> heap) newitem startpos parentpos
            else <[pos := newitem]> heap
        end
      else <[pos := newitem]> heap
  end.

Definition siftdown (heap : list A) (startpos pos : nat) : list A :=
  match heap !! pos with
  | None => heap
  | Some newitem => siftdown_loop pos heap newitem startpos pos
  end.

(** The child of [pos] that [_siftup] moves up: the right one unless the left
    one is smaller. *)
Definition smaller_child (heap : list A) (pos : nat) : nat :=
  let childpos := 2 * pos + 1 in
  let rightpos := childpos + 1 in
  match heap !! childpos, heap !! rightpos with
  | Some l, Some r => if lt l r then childpos else rightpos
  | _, _ => childpos
  end.

(** [_siftup], first phase: the hole sinks to a leaf. *)
Fixpoint sink (fuel : nat) (heap : list A) (pos : nat) : list A * nat :=
  match fuel with
  | O => (heap, pos)
  | S fuel' =>
      if 2 * pos + 1 <? length heap then
        let childpos := smaller_child heap pos in
        match heap !! childpos with
        | None => (heap, pos)
        | Some child => sink fuel' (<[pos := child]> heap) childpos
        end
      else (heap, pos)
  end.

Definition siftup (heap : list A) (pos : nat) : list A :=
  match heap !! pos with
  | None => heap
  | Some newitem =>
      let '(heap', hole) := sink (length heap) heap pos in
      siftdown (<[hole := newitem]> heap') pos hole
  end.

(** *** The operations *)

Definition heappush (heap : list A) (item : A) : list A :=
  siftdown (heap ++ [item]) 0 (length heap).

(** [list.pop()] raises on an empty list. *)
Definition heappop (heap : list A) : result (A * list A) :=
  match last heap with
  | None => Err IndexError
  | Some lastelt =>
      let rest := removelast heap in
      match rest with
      | [] => Ok (lastelt, [])
      | returnitem :: _ => Ok (returnitem, siftup (<[0 := lastelt]> rest) 0)
      end
  end.

(** [for i in reversed(range(n//2)): _siftup(x, i)] *)
Fixpoint heapify_loop (i : nat) (heap : list A) : list A :=
  match i with O => heap | S i' => heapify_loop i' (siftup heap i') end.

Definition heapify (heap : list A) : list A := heapify_loop (length heap / 2) heap.

(** *** Heap order *)

Definition child_of (p c : nat) : Prop := c = 2 * p + 1 \/ c = 2 * p + 2.

Definition nle (x y : A) : Prop := lt y x = false.

(** Parents at positions [s] and after are not larger than their children. *)
Definition ordered_from (s : nat) (heap : list A) : Prop :=
  forall p c x y, s <= p -> child_of p c -> heap !! p = Some x -> heap !! c = Some y -> nle x y.

Definition is_heap (heap : list A) : Prop := ordered_from 0 heap.

(** [q] lies in the subtree of [s]. *)
Inductive below (s : nat) : nat -> Prop :=
  | below_here : below s s
  | below_child p c : below s p -> child_of p c -> below s c.

Lemma below_ge s q : below s q -> s <= q.
Proof. induction 1 as [|p c _ IH [->| ->]]; lia. Qed.

Lemma below_parent s q : below s q -> s < q -> exists p, child_of p q /\ below s p.
Proof. intros [|p c Hp Hc] Hlt; [lia|]. eauto. Qed.

Lemma below_root q : below 0 q.
Proof.
  induction q as [q IH] using lt_wf_ind. destruct q as [|q]; [constructor|].
  apply (below_child 0 (q / 2)); [apply IH; apply Nat.Div0.div_lt_upper_bound; lia|].
  pose proof (Nat.div_mod_eq q 2). pose proof (Nat.mod_upper_bound q 2). unfold child_of. lia.
Qed.

Lemma parent_child p c : child_of p c -> (c - 1) / 2 = p.
Proof.
  intros [->| ->].
  - replace (2 * p + 1 - 1) with (p * 2) by lia. apply Nat.div_mul. lia.
  - replace (2 * p + 2 - 1) with (1 + p * 2) by lia. rewrite Nat.div_add by lia. done.
Qed.

Lemma child_inj p p' c : child_of p c -> child_of p' c -> p = p'.
Proof. unfold child_of. lia. Qed.

Lemma child_gt p c : child_of p c -> p < c.
Proof. unfold child_of. lia. Qed.

(** *** A heap with a hole *)

(** Order everywhere but at the hole [q], across which the parent of the hole
    is not larger than its children. *)
Record hole_inv (s q : nat) (h : list A) : Prop := {
  hi_pairs p c x y : s <= p -> child_of p c -> p <> q -> c <> q ->
    h !! p = Some x -> h !! c = Some y -> nle x y;
  hi_across p c x y : s <= p -> child_of p q -> child_of q c ->
    h !! p = Some x -> h !! c = Some y -> nle x y;
  hi_below : below s q;
  hi_range : q < length h;
}.

Lemma hole_inv_insert s q h x : hole_inv s q h -> hole_inv s q (<[q := x]> h).
Proof.
  intros [Hp Ha Hb Hr]. split; [..|done|by rewrite length_insert].
  - intros p c a b Hs Hc Hpq Hcq. rewrite !list_lookup_insert_ne by done. by apply Hp.
  - intros p c a b Hs Hpq Hqc. apply child_gt in Hpq as Hlt. apply child_gt in Hqc as Hlt'.
    rewrite !list_lookup_insert_ne by lia. by apply Ha.
Qed.

Lemma insert_swap (h : list A) i j a x :
  i <> j -> j < length h -> h !! i = Some a -> <[i := x]> (<[j := a]> h) ≡ₚ <[j := x]> h.
Proof.
  intros Hij Hj Hi.
  assert (Hins : forall (l : list A) k z, k < length l -> <[k := z]> l ≡ₚ z :: delete k l).
  { intros l k z Hk. rewrite (delete_Permutation (<[k := z]> l) k z) by by apply list_lookup_insert_eq.
    constructor. revert k Hk. induction l as [|y l IH]; intros [|k] Hk; simpl in *; [lia..|done|].
    constructor. apply IH. lia. }
  apply lookup_lt_Some in Hi as Hlen.
  rewrite (Hins _ i x) by by rewrite length_insert. rewrite (Hins h j x Hj). constructor.
  apply (Permutation_cons_inv (a := a)). rewrite <- (Hins h j a Hj).
  symmetry. apply delete_Permutation. by rewrite list_lookup_insert_ne.
Qed.

Lemma siftdown_loop_perm fuel h x s q :
  q < length h -> siftdown_loop fuel h x s q ≡ₚ <[q := x]> h.
Proof.
  revert h q. induction fuel as [|fuel IH]; intros h q Hq; simpl; [done|].
  destruct (Nat.ltb_spec s q); [|done].
  destruct (h !! ((q - 1) / 2)) as [parent|] eqn:E; [|done].
  destruct (lt x parent); [|done]. apply lookup_lt_Some in E as Hp.
  rewrite IH by by rewrite length_insert. apply insert_swap; [|done|done].
  assert ((q - 1) / 2 < q) by (apply Nat.Div0.div_lt_upper_bound; lia). lia.
Qed.

Lemma siftdown_loop_length fuel h x s q : length (siftdown_loop fuel h x s q) = length h.
Proof.
  revert h q. induction fuel as [|fuel IH]; intros h q; simpl; [by rewrite length_insert|].
  repeat case_match; rewrite ?IH, ?length_insert; done.
Qed.

Section order.
Context `{!StrictWeakOrder lt}.

Lemma nle_refl x : nle x x.
Proof. apply swo_irrefl. Qed.

Lemma nle_trans x y z : nle x y -> nle y z -> nle x z.
Proof. unfold nle. apply swo_neg_trans. Qed.

Lemma lt_nle x y : lt x y = true -> nle x y.
Proof.
  unfold nle. intros Hxy. destruct (lt y x) eqn:E; [|done].
  rewrite <- (swo_irrefl x). symmetry. eapply swo_trans; eauto.
Qed.

(** Filling the hole where the item belongs gives an ordered heap. *)
Lemma fill_hole s q h x :
  hole_inv s q h ->
  (forall c y, child_of q c -> h !! c = Some y -> nle x y) ->
  (forall p y, s <= p -> child_of p q -> h !! p = Some y -> nle y x) ->
  ordered_from s (<[q := x]> h).
Proof.
  intros [Hp Ha Hb Hr] Hdown Hup p c a b Hs Hc Hpa Hcb. apply child_gt in Hc as Hlt.
  destruct (decide (p = q)) as [->|Hpq].
  - rewrite list_lookup_insert_eq in Hpa by done. simplify_eq.
    rewrite list_lookup_insert_ne in Hcb by lia. eauto.
  - rewrite list_lookup_insert_ne in Hpa by done. destruct (decide (c = q)) as [->|Hcq].
    + rewrite list_lookup_insert_eq in Hcb by done. simplify_eq. eauto.
    + rewrite list_lookup_insert_ne in Hcb by done. eauto.
Qed.

(** Moving the parent [pp] into the hole moves the hole to the parent. *)
Lemma hole_up s q h pp parent :
  hole_inv s q h -> child_of pp q -> below s pp -> h !! pp = Some parent ->
  hole_inv s pp (<[q := parent]> h)
  /\ forall c y, child_of pp c -> <[q := parent]> h !! c = Some y -> nle parent y.
Proof.
  intros [Hp Ha Hb Hr] Hpq Hbp Hpp. apply child_gt in Hpq as Hlt. apply below_ge in Hbp as Hge.
  assert (Hsib : forall c y, child_of pp c -> <[q := parent]> h !! c = Some y -> nle parent y).
  { intros c y Hc Hy. destruct (decide (c = q)) as [->|Hcq].
    - rewrite list_lookup_insert_eq in Hy by done. simplify_eq. apply nle_refl.
    - rewrite list_lookup_insert_ne in Hy by done. apply (Hp pp c); auto. lia. }
  split; [|done]. split; [..|done|rewrite length_insert; lia].
  - intros p c x y Hs Hc Hne Hne' Hx Hy. apply child_gt in Hc as Hltc.
    destruct (decide (p = q)) as [->|Hpq'].
    + rewrite list_lookup_insert_eq in Hx by done. simplify_eq.
      rewrite list_lookup_insert_ne in Hy by lia. by apply (Ha pp c).
    + rewrite list_lookup_insert_ne in Hx by done.
      assert (c <> q) by (intros ->; apply Hne; by eapply child_inj).
      rewrite list_lookup_insert_ne in Hy by done. eauto.
  - intros p c x y Hs Hcp Hc Hx Hy. apply child_gt in Hcp as Hltp.
    rewrite list_lookup_insert_ne in Hx by lia.
    apply (nle_trans _ parent); [|by apply (Hsib c)]. apply (Hp p pp); auto; lia.
Qed.

Lemma siftdown_loop_ordered fuel s q h x :
  hole_inv s q h -> q <= fuel -> (forall c y, child_of q c -> h !! c = Some y -> nle x y) ->
  ordered_from s (siftdown_loop fuel h x s q).
Proof.
  revert q h. induction fuel as [|fuel IH]; intros q h Hinv Hfuel Hdown; simpl.
  { apply fill_hole; [done..|]. intros p y _ Hp%child_gt. lia. }
  destruct (Nat.ltb_spec s q) as [Hlt|Hge].
  2: { apply fill_hole; [done..|]. intros p y Hs Hp%child_gt. lia. }
  destruct (below_parent s q (hi_below _ _ _ Hinv) Hlt) as (pp & Hpp & Hbp).
  rewrite (parent_child pp q Hpp). apply child_gt in Hpp as Hltp. pose proof (hi_range _ _ _ Hinv) as Hr.
  destruct (lookup_lt_is_Some_2 h pp) as [parent Hparent]; [lia|]. rewrite Hparent.
  destruct (lt x parent) eqn:E.
  - destruct (hole_up s q h pp parent Hinv Hpp Hbp Hparent) as [Hinv' Hsib].
    apply IH; [done|lia|]. intros c y Hc Hy. apply (nle_trans _ parent); [by apply lt_nle|by eapply Hsib].
  - apply fill_hole; [done..|]. intros p y _ Hp Hy.
    assert (p = pp) as -> by by eapply child_inj. by simplify_eq.
Qed.

(** *** The hole sinks *)

Lemma smaller_child_spec h q :
  2 * q + 1 < length h ->
  exists y, child_of q (smaller_child h q) /\ h !! smaller_child h q = Some y
    /\ forall c z, child_of q c -> h !! c = Some z -> nle y z.
Proof.
  intros Hlt. destruct (lookup_lt_is_Some_2 h (2 * q + 1) Hlt) as [l Hl].
  unfold smaller_child. rewrite Hl. replace (2 * q + 1 + 1) with (2 * q + 2) by lia.
  destruct (h !! (2 * q + 2)) as [r|] eqn:Hr.
  - destruct (lt l r) eqn:E.
    + exists l. split; [by left|]. split; [done|]. intros c z [->| ->] Hz; simplify_eq; [apply nle_refl|].
      by apply lt_nle.
    + exists r. split; [by right|]. split; [done|]. intros c z [->| ->] Hz; simplify_eq; [done|apply nle_refl].
  - exists l. split; [by left|]. split; [done|]. intros c z [->| ->] Hz; simplify_eq. apply nle_refl.
Qed.

(** Moving the smallest child into the hole moves the hole to that child. *)
Lemma hole_down s q h c y :
  hole_inv s q h -> child_of q c -> h !! c = Some y ->
  (forall c' z, child_of q c' -> h !! c' = Some z -> nle y z) ->
  hole_inv s c (<[q := y]> h).
Proof.
  intros [Hp Ha Hb Hr] Hc Hy Hmin. apply child_gt in Hc as Hlt. apply below_ge in Hb as Hge.
  apply lookup_lt_Some in Hy as Hlen.
  split; [..|by eapply below_child|by rewrite length_insert].
  - intros p c' a b Hs Hc' Hne Hne' Hx Hz. apply child_gt in Hc' as Hlt'.
    destruct (decide (p = q)) as [->|Hpq].
    + rewrite list_lookup_insert_eq in Hx by done. simplify_eq.
      rewrite list_lookup_insert_ne in Hz by lia. by apply (Hmin c').
    + rewrite list_lookup_insert_ne in Hx by done. destruct (decide (c' = q)) as [->|Hcq].
      * rewrite list_lookup_insert_eq in Hz by done. simplify_eq. by apply (Ha p c).
      * rewrite list_lookup_insert_ne in Hz by done. by apply (Hp p c').
  - intros p c' a b Hs Hcp Hc' Hx Hz. apply child_gt in Hc' as Hlt'.
    assert (p = q) as -> by by eapply child_inj.
    rewrite list_lookup_insert_eq in Hx by done. simplify_eq.
    rewrite list_lookup_insert_ne in Hz by lia. apply (Hp c c'); auto; lia.
Qed.

Lemma sink_spec fuel s q h h' q' :
  hole_inv s q h -> length h <= fuel + q -> sink fuel h q = (h', q') ->
  hole_inv s q' h' /\ length h' = length h /\ length h' <= 2 * q' + 1
  /\ forall x, <[q' := x]> h' ≡ₚ <[q := x]> h.
Proof.
  revert q h. induction fuel as [|fuel IH]; intros q h Hinv Hf Hrun; simpl in Hrun.
  { pose proof (hi_range _ _ _ Hinv). lia. }
  destruct (Nat.ltb_spec (2 * q + 1) (length h)) as [Hlt|Hge].
  2: { injection Hrun as <- <-. done. }
  destruct (smaller_child_spec h q Hlt) as (y & Hc & Hy & Hmin). rewrite Hy in Hrun.
  set (c := smaller_child h q) in *. apply child_gt in Hc as Hqc.
  apply IH in Hrun as (Hinv' & Hlen & Hleaf & Hperm).
  - rewrite length_insert in Hlen. split; [done|]. split; [done|]. split; [done|].
    intros x. rewrite (Hperm x). apply insert_swap; [lia|apply Hinv|done].
  - by eapply hole_down.
  - rewrite length_insert. lia.
Qed.

Lemma hole_at_start s h x : ordered_from (S s) h -> h !! s = Some x -> hole_inv s s h.
Proof.
  intros Ho Hx. split.
  - intros p c a b Hs Hc Hne _. apply Ho; [lia|done].
  - intros p c a b Hs Hp%child_gt. lia.
  - constructor.
  - by eapply lookup_lt_Some.
Qed.

Lemma siftup_spec h s :
  ordered_from (S s) h -> s < length h ->
  ordered_from s (siftup h s) /\ siftup h s ≡ₚ h.
Proof.
  intros Ho Hs. destruct (lookup_lt_is_Some_2 h s Hs) as [x Hx].
  unfold siftup. rewrite Hx. destruct (sink (length h) h s) as [h' q] eqn:E.
  apply (sink_spec _ s) in E as (Hinv & Hlen & Hleaf & Hperm); [|by eapply hole_at_start|lia].
  pose proof (hi_range _ _ _ Hinv) as Hr. unfold siftdown.
  rewrite list_lookup_insert_eq by done. split.
  - apply siftdown_loop_ordered; [by apply hole_inv_insert|done|].
    intros c y Hc Hy. apply lookup_lt_Some in Hy. rewrite length_insert in Hy. unfold child_of in Hc. lia.
  - rewrite siftdown_loop_perm by by rewrite length_insert.
    rewrite list_insert_insert_eq, Hperm. by rewrite list_insert_id.
Qed.

Lemma siftup_length h s : length (siftup h s) = length h.
Proof.
  unfold siftup. destruct (h !! s) as [x|] eqn:Hx; [|done]. destruct (sink (length h) h s) as [h' q] eqn:E.
  assert (Hl : length h' = length h).
  { clear Hx. revert E. generalize (length h) at 1 as fuel. intros fuel. revert h s.
    induction fuel as [|fuel IH]; intros h s E; simpl in E; [by injection E as <- <-|].
    destruct (_ <? _); [|by injection E as <- <-]. destruct (h !! _); [|by injection E as <- <-].
    apply IH in E. by rewrite E, length_insert. }
  unfold siftdown. destruct (_ !! q); rewrite ?siftdown_loop_length, length_insert; done.
Qed.

(** *** The operations *)

Lemma heap_min h x y : is_heap h -> h !! 0 = Some x -> y ∈ h -> nle x y.
Proof.
  intros Hh Hx [i Hi]%list_elem_of_lookup. revert y Hi. pose proof (below_root i) as Hb.
  induction Hb as [|p c Hb IH Hc]; intros y Hy; [simplify_eq; apply nle_refl|].
  apply child_gt in Hc as Hlt. apply lookup_lt_Some in Hy as Hlen.
  destruct (lookup_lt_is_Some_2 h p) as [z Hz]; [lia|].
  apply (nle_trans _ z); [auto|]. apply (Hh p c); auto. lia.
Qed.

Lemma heappush_spec h x : is_heap h -> is_heap (heappush h x) /\ heappush h x ≡ₚ x :: h.
Proof.
  intros Hh. unfold heappush, siftdown.
  assert (Hlast : (h ++ [x]) !! length h = Some x) by by rewrite lookup_app_r, Nat.sub_diag by lia.
  rewrite Hlast. split.
  - apply siftdown_loop_ordered; [|done|].
    + split.
      * intros p c a b Hs Hc Hp Hcn Ha Hb. apply lookup_lt_Some in Ha as Hla. apply lookup_lt_Some in Hb as Hlb.
        rewrite length_app in Hla, Hlb. simpl in *.
        rewrite lookup_app_l in Ha, Hb by lia. by apply (Hh p c).
      * intros p c a b _ _ Hc%child_gt _ Hb%lookup_lt_Some. rewrite length_app in Hb. simpl in Hb. lia.
      * apply below_root.
      * rewrite length_app. simpl. lia.
    + intros c y Hc%child_gt Hy%lookup_lt_Some. rewrite length_app in Hy. simpl in Hy. lia.
  - rewrite siftdown_loop_perm by (rewrite length_app; simpl; lia).
    rewrite list_insert_id by done. solve_Permutation.
Qed.

Lemma removelast_snoc (h : list A) x : removelast (h ++ [x]) = h.
Proof. apply removelast_last. Qed.

Lemma heappop_spec h :
  is_heap h -> h <> [] ->
  exists x h', heappop h = Ok (x, h') /\ h ≡ₚ x :: h' /\ is_heap h' /\ (forall y, y ∈ h -> nle x y)
    /\ head h = Some x.
Proof.
  intros Hh Hne. destruct (exists_last Hne) as (rest & x & ->).
  unfold heappop. rewrite last_snoc, removelast_snoc. destruct rest as [|r rest].
  - exists x, []. split; [done|]. split; [done|]. split; [intros p c a b _ _ Ha; by rewrite lookup_nil in Ha|].
    split; [|done]. intros y ->%list_elem_of_singleton. apply nle_refl.
  - set (h1 := <[0 := x]> (r :: rest)).
    assert (Hord : ordered_from 1 h1).
    { intros p c a b Hs Hc Ha Hb. apply child_gt in Hc as Hlt. unfold h1 in *.
      rewrite list_lookup_insert_ne in Ha, Hb by lia.
      apply (Hh p c); [lia|done|by apply lookup_app_l_Some|by apply lookup_app_l_Some]. }
    destruct (siftup_spec h1 0 Hord) as [Ho Hp]; [unfold h1; simpl; lia|].
    exists r, (siftup h1 0). split; [done|]. split; [|split; [done|split; [|done]]].
    + rewrite Hp. unfold h1. simpl. solve_Permutation.
    + intros y Hy. by eapply (heap_min _ r y Hh).
Qed.

Lemma heappop_empty : heappop [] = Err IndexError.
Proof. done. Qed.

Lemma heapify_spec h : is_heap (heapify h) /\ heapify h ≡ₚ h.
Proof.
  unfold heapify.
  enough (Hgen : forall i h, i <= length h -> ordered_from i h ->
    is_heap (heapify_loop i h) /\ heapify_loop i h ≡ₚ h).
  { apply Hgen; [apply Nat.Div0.div_le_upper_bound; lia|].
    intros p c a b Hs Hc _ Hb. apply lookup_lt_Some in Hb. unfold child_of in Hc.
    pose proof (Nat.div_mod_eq (length h) 2). pose proof (Nat.mod_upper_bound (length h) 2). lia. }
  clear h. induction i as [|i IH]; intros h Hi Ho; simpl; [done|].
  destruct (siftup_spec h i Ho ltac:(lia)) as [Ho' Hp].
  destruct (IH (siftup h i)) as [Hh Hperm]; [rewrite siftup_length; lia|done|].
  split; [done|]. by rewrite Hperm.
Qed.

End order.

End heap.
