(* ===== verification/PyFloat.v ===== *)
(** * Python floats

    IEEE binary64 numbers, with the Standard Library's executable specification
    of the operations: what the routers compute with floats.  Whole numbers
    below [2^53] are exact. *)

From stdpp Require Import prelude.
From Stdlib Require Import Floats.SpecFloat.
From S2P Require Import Prelude.
Local Open Scope Z_scope.

Abbreviation float := spec_float.

Definition prec : Z := 53.
Definition emax : Z := 1024.

(** [float(n)] *)
Definition float_of_Z (n : Z) : float := binary_normalize prec emax n 0 false.

Definition fadd (x y : float) : float := SFadd prec emax x y.
Definition fsub (x y : float) : float := SFsub prec emax x y.
Definition fmul (x y : float) : float := SFmul prec emax x y.
Definition fltb (x y : float) : bool := SFltb x y.
Definition fleb (x y : float) : bool := SFleb x y.
Definition feqb (x y : float) : bool := SFeqb x y.
Definition finf : float := S754_infinity false.

(** [x / y] raises when [y] is a zero. *)
Definition fdiv (x y : float) : result float :=
  match y with
  | S754_zero _ => Err ZeroDivisionError
  | _ => Ok (SFdiv prec emax x y)
  end.

(** [max(x, y)] keeps [x] unless [y] is larger. *)
Definition fmax (x y : float) : float := if fltb x y then y else x.

(** [a / b] of two integers is their quotient, rounded once. *)
Definition unrounded (n : Z) : float :=
  match n with Z0 => S754_zero false | Zpos m => S754_finite false m 0 | Zneg m => S754_finite true m 0 end.

Definition truediv (a b : Z) : result float :=
  if b =? 0 then Err ZeroDivisionError
  else match SFdiv prec emax (unrounded a) (unrounded b) with
       | S754_infinity _ => Err OverflowError
       | q => Ok q
       end.

(** [sum(...)] of floats, which since Python 3.12 carries what is lost to rounding
    and adds it at the end. *)
Definition cs_add (total : float * float) (x : float) : float * float :=
  let '(hi, lo) := total in
  let t := fadd hi x in
  (t, fadd lo (if fleb (SFabs x) (SFabs hi) then fadd (fsub hi t) x else fadd (fsub x t) hi)).

Definition fsum (l : list float) : float :=
  match l with
  | [] => float_of_Z 0
  | x :: l =>
      let '(hi, lo) := fold_left cs_add l (fadd (float_of_Z 0) x, float_of_Z 0) in
      match lo with S754_finite _ _ _ => fadd hi lo | _ => hi end
  end.

(** [math.ceil]; an infinity and a nan have none. *)
Definition math_ceil (x : float) : result Z :=
  match x with
  | S754_zero _ => Ok 0
  | S754_infinity _ => Err OverflowError
  | S754_nan => Err ValueError
  | S754_finite s m e =>
      let z := if s then Z.neg m else Z.pos m in
      Ok (if 0 <=? e then z * 2 ^ e else - ((- z) / 2 ^ (- e)))
  end.

(** [(a, b) < (c, d)] of two pairs of floats. *)
Definition fpair_ltb (a b c d : float) : bool :=
  if feqb a c then fltb b d else fltb a c.

(** ** Whole numbers are exact *)

Lemma digits2_shift m k : Z.pos (digits2_pos (Pos.iter xO m k)) = Z.pos (digits2_pos m) + Z.pos k.
Proof.
  induction k as [|k IH] using Pos.peano_ind; [simpl; lia|].
  rewrite Pos.iter_succ. simpl. lia.
Qed.

Lemma digits2_bound m : 2 ^ (Z.pos (digits2_pos m) - 1) <= Z.pos m < 2 ^ Z.pos (digits2_pos m).
Proof.
  induction m as [m IH|m IH|]; [| |done]; cbn [digits2_pos]; rewrite Pos2Z.inj_succ;
    replace (Z.succ (Z.pos (digits2_pos m)) - 1) with (Z.succ (Z.pos (digits2_pos m) - 1)) by lia;
    rewrite !Z.pow_succ_r by lia; lia.
Qed.

Lemma digits2_le m n : Z.pos m < 2 ^ n -> Z.pos (digits2_pos m) <= n.
Proof.
  intros Hm. destruct (Z.le_gt_cases (Z.pos (digits2_pos m)) n) as [|Hgt]; [done|].
  pose proof (digits2_bound m) as [Hb _]. destruct (Z.lt_ge_cases n 0).
  - rewrite Z.pow_neg_r in Hm by done. lia.
  - assert (2 ^ n <= 2 ^ (Z.pos (digits2_pos m) - 1)) by (apply Z.pow_le_mono_r; lia). lia.
Qed.

(** A mantissa of full width is already rounded. *)
Lemma round_exact m e :
  Z.pos (digits2_pos m) = prec -> -1074 <= e <= emax - prec ->
  binary_round_aux prec emax false (Z.pos m) e loc_Exact = S754_finite false m e.
Proof.
  intros Hd He. assert (Hsh : shr_fexp prec emax (Z.pos m) e loc_Exact = ({| shr_m := Z.pos m; shr_r := false; shr_s := false |}, e)).
  { unfold shr_fexp, fexp, emin. cbn [Zdigits2]. rewrite Hd. unfold prec, emax in *.
    replace (Z.max _ _ - e) with 0 by lia. done. }
  unfold binary_round_aux. rewrite Hsh. cbn [shr_m loc_of_shr_record round_nearest_even]. rewrite Hsh. simpl.
  by rewrite (proj2 (Z.leb_le _ _)) by (unfold prec, emax in *; lia).
Qed.

(** The mantissa and exponent of a positive whole number. *)
Lemma float_of_pos n :
  0 < n < 2 ^ 53 ->
  exists m e, float_of_Z n = S754_finite false m e /\ Z.pos (digits2_pos m) = prec
    /\ -52 <= e <= 0 /\ Z.pos m = n * 2 ^ (- e).
Proof.
  intros [Hn Hlt]. destruct n as [|p|p]; try lia. pose proof (digits2_le p 53 Hlt) as Hd.
  unfold float_of_Z, binary_normalize, binary_round, shl_align. rewrite Z.add_0_r, Z.sub_0_r.
  assert (Hf : fexp prec emax (Z.pos (digits2_pos p)) = Z.pos (digits2_pos p) - 53).
  { unfold fexp, emin, prec, emax. lia. }
  rewrite Hf. destruct (Z.pos (digits2_pos p) - 53) as [|d|d] eqn:E; [|lia|].
  - exists p, 0. rewrite round_exact by (unfold prec, emax; lia). split_and!; try done; unfold prec; lia.
  - exists (Pos.iter xO p d), (Z.neg d). rewrite round_exact.
    + split_and!; try done; [rewrite digits2_shift; unfold prec; lia|lia|].
      change (- Z.neg d) with (Z.pos d). clear. induction d as [|d IH] using Pos.peano_ind; [simpl; lia|].
      rewrite Pos.iter_succ, Pos2Z.inj_succ, Z.pow_succ_r by lia. lia.
    + rewrite digits2_shift. unfold prec. lia.
    + unfold prec, emax. lia.
Qed.


(** Flooring a divisor at a positive whole number keeps it from being zero. *)
Lemma fdiv_floored x y n : 0 < n < 2 ^ 53 -> exists q, fdiv x (fmax y (float_of_Z n)) = Ok q.
Proof.
  intros Hn. destruct (float_of_pos n Hn) as (m & e & -> & _). unfold fmax.
  destruct (fltb y _) eqn:E; [by eexists|]. destruct y; [done|by eexists..].
Qed.

(** Doubling is exact. *)
Lemma ceil_double n : 0 <= n < 2 ^ 53 -> math_ceil (fmul (float_of_Z 2) (float_of_Z n)) = Ok (2 * n).
Proof.
  intros [H0 Hlt]. destruct (decide (n = 0)) as [->|Hne]; [done|].
  destruct (float_of_pos n) as (m & e & -> & Hd & He & Hm); [lia|].
  change (float_of_Z 2) with (S754_finite false 4503599627370496 (-51)). unfold fmul, SFmul.
  change (4503599627370496 * m)%positive with (Pos.iter xO m 52).
  assert (Hsh : shr_fexp prec emax (Z.pos (Pos.iter xO m 52)) (-51 + e) loc_Exact
    = ({| shr_m := Z.pos m; shr_r := false; shr_s := false |}, e + 1)).
  { unfold shr_fexp, fexp, emin. cbn [Zdigits2]. rewrite digits2_shift, Hd. unfold prec, emax.
    replace (Z.max _ _ - _) with 52 by lia. cbn. f_equal. lia. }
  assert (Hsh2 : shr_fexp prec emax (Z.pos m) (e + 1) loc_Exact
    = ({| shr_m := Z.pos m; shr_r := false; shr_s := false |}, e + 1)).
  { unfold shr_fexp, fexp, emin. cbn [Zdigits2]. rewrite Hd. unfold prec, emax.
    replace (Z.max _ _ - _) with 0 by lia. done. }
  unfold binary_round_aux. rewrite Hsh. cbn [shr_m loc_of_shr_record round_nearest_even]. rewrite Hsh2.
  cbn [shr_m xorb]. rewrite (proj2 (Z.leb_le _ _)) by (unfold prec, emax; lia).
  unfold math_ceil. f_equal. rewrite Hm. destruct (Z.leb_spec 0 (e + 1)).
  - assert (e = 0 \/ e = -1) as [-> | ->] by lia; simpl; lia.
  - replace (n * 2 ^ (- e)) with ((2 * n) * 2 ^ (- (e + 1))).
    + rewrite <- Z.mul_opp_l, Z.div_mul by (apply Z.pow_nonzero; lia). lia.
    + replace (- e) with (Z.succ (- (e + 1))) by lia. rewrite Z.pow_succ_r by lia. lia.
Qed.

(** ** The order of numbers *)

Definition is_nan (x : float) : bool := match x with S754_nan => true | _ => false end.

(** Sign, exponent and mantissa, as they are compared. *)
Definition fkey (x : float) : Z * (Z * Z) :=
  match x with
  | S754_infinity true => (-2, (0, 0))
  | S754_finite true m e => (-1, (- e, Z.neg m))
  | S754_finite false m e => (1, (e, Z.pos m))
  | S754_infinity false => (2, (0, 0))
  | _ => (0, (0, 0))
  end.

Definition key_lt (x y : Z * (Z * Z)) : Prop :=
  x.1 < y.1 \/ x.1 = y.1 /\ (x.2.1 < y.2.1 \/ x.2.1 = y.2.1 /\ x.2.2 < y.2.2).

Lemma fltb_key x y : is_nan x = false -> is_nan y = false -> fltb x y = true <-> key_lt (fkey x) (fkey y).
Proof.
  unfold fltb, SFltb, SFcompare, key_lt.
  destruct x as [s|[]| |[] m e], y as [s'|[]| |[] m' e']; intros Hx Hy; try discriminate; simpl;
    try (split; intros H; (discriminate || reflexivity || lia)).
  all: destruct (Z.compare_spec e e'); simpl; try change (Pos.compare_cont Eq m m') with (Pos.compare m m');
    try (destruct (Pos.compare_spec m m'); simpl); split; intros H'; (discriminate || reflexivity || lia).
Qed.

Lemma feqb_key x y : is_nan x = false -> is_nan y = false -> feqb x y = true <-> fkey x = fkey y.
Proof.
  unfold feqb, SFeqb, SFcompare.
  destruct x as [s|[]| |[] m e], y as [s'|[]| |[] m' e']; intros Hx Hy; try discriminate; simpl;
    try (split; intros H; (discriminate || reflexivity)).
  all: destruct (Z.compare_spec e e'); simpl; try change (Pos.compare_cont Eq m m') with (Pos.compare m m');
    try (destruct (Pos.compare_spec m m'); simpl); split; intros H'; try discriminate; try reflexivity;
    try (injection H' as ?; lia); subst; reflexivity.
Qed.

Lemma fltb_false x y : is_nan x = false -> is_nan y = false -> fltb x y = false <-> ~ key_lt (fkey x) (fkey y).
Proof. intros Hx Hy. rewrite <- (fltb_key x y Hx Hy). destruct (fltb x y); split; intros H; congruence || done || by destruct H. Qed.

(** ** Quotients of integers *)

Lemma shr_div r e n : 0 <= shr_m r -> shr_m (shr r e n).1 = shr_m r / 2 ^ Z.max n 0.
Proof.
  assert (H1 : forall r, 0 <= shr_m r -> shr_m (shr_1 r) = shr_m r / 2).
  { intros [[|p|p] a b] Hm; simpl in *; [done| |lia]. destruct p as [p|p|]; simpl; rewrite <- Z.div2_div; done. }
  intros Hr. destruct n as [|p|p]; simpl; [by rewrite Z.div_1_r| |by rewrite Z.div_1_r].
  revert r Hr. induction p as [p IH|p IH|]; intros r Hr; cbn [iter_pos].
  - assert (H0 : 0 <= shr_m (shr_1 r)) by (rewrite H1 by done; apply Z.div_pos; lia).
    assert (H2 : 0 <= shr_m (iter_pos shr_1 p (shr_1 r))) by (rewrite IH by done; apply Z.div_pos; lia).
    rewrite IH, IH, H1, !Z.div_div by (done || lia). f_equal. rewrite !Z.max_l by lia. replace (Z.pos p~1) with (1 + Z.pos p + Z.pos p) by lia. rewrite !Z.pow_add_r by lia. lia.
  - assert (H2 : 0 <= shr_m (iter_pos shr_1 p r)) by (rewrite IH by done; apply Z.div_pos; lia).
    rewrite IH, IH, Z.div_div by (done || lia). f_equal. rewrite !Z.max_l by lia. replace (Z.pos p~0) with (Z.pos p + Z.pos p) by lia. rewrite Z.pow_add_r by lia. lia.
  - by rewrite H1.
Qed.

(** A number below [2^K] stays below it, with an exponent for 53 digits. *)
Lemma shr_fexp_bound m e l K : 0 <= m < 2 ^ (K - e) -> e <= K -> -1074 <= K ->
  let r := shr_fexp prec emax m e l in
  e <= r.2 <= Z.max e (Z.max (K - prec) (-1074)) /\ r.2 <= K /\ 0 <= shr_m r.1 < 2 ^ (K - r.2).
Proof.
  intros [H0 Hm] He HK r. set (n := fexp prec emax (Zdigits2 m + e) - e).
  assert (Hr : r = shr (shr_record_of_loc m l) e n) by done. assert (Hm0 : shr_m (shr_record_of_loc m l) = m) by by destruct l as [|[]].
  assert (Hd : Zdigits2 m <= K - e).
  { destruct m as [|m|m]; [simpl; lia| |lia]. by apply digits2_le. }
  assert (He2 : r.2 = e + Z.max n 0) by (rewrite Hr; unfold shr; destruct n; simpl; lia).
  assert (Hle : e <= r.2 <= Z.max e (Z.max (K - prec) (-1074))) by (rewrite He2; unfold n, fexp, emin, prec, emax in *; lia).
  split; [done|]. assert (Hk : r.2 <= K) by (unfold prec in *; lia). split; [done|].
  rewrite Hr at 1 2. rewrite shr_div, Hm0 by lia. split; [apply Z.div_pos; lia|]. apply Z.div_lt_upper_bound; [lia|].
  rewrite <- Z.pow_add_r by lia. by replace (Z.max n 0 + (K - r.2)) with (K - e) by lia.
Qed.

Definition is_number (x : float) : bool := match x with S754_zero _ | S754_finite _ _ _ => true | _ => false end.

Lemma round_bound s m e l K : 0 <= m < 2 ^ (K - e) -> e <= K -> -1074 <= K ->
  is_nan (binary_round_aux prec emax s m e l) = false
  /\ (e <= 971 -> K <= 1000 -> is_number (binary_round_aux prec emax s m e l) = true).
Proof.
  intros Hm He HK. unfold binary_round_aux. destruct (shr_fexp_bound m e l K Hm He HK) as (H1 & H2 & H3).
  destruct (shr_fexp prec emax m e l) as [r e'] eqn:E1. simpl in *.
  set (m' := round_nearest_even _ _). assert (Hm' : 0 <= m' < 2 ^ (K + 1 - e')).
  { replace (K + 1 - e') with (Z.succ (K - e')) by lia. rewrite Z.pow_succ_r by lia.
    assert (shr_m r <= m' <= shr_m r + 1) by (unfold m', round_nearest_even; repeat case_match; lia). lia. }
  destruct (shr_fexp_bound m' e' loc_Exact (K + 1) Hm') as (H4 & _ & H5); [lia|lia|]. destruct (shr_fexp prec emax m' e' loc_Exact) as [r' e'']. simpl in *.
  destruct (shr_m r'); [done| |lia]. unfold prec, emax in *. destruct (Z.leb_spec e'' (1024 - 53)); simpl; [done|]. split; [done|lia].
Qed.

Lemma round_not_nan s m e l : 0 <= m -> is_nan (binary_round_aux prec emax s m e l) = false.
Proof.
  intros Hm. pose proof (Z.pow_gt_lin_r 2 m) as Hlin. apply (round_bound s m e l (Z.max (e + m) 0)); [|lia|lia]. split; [done|].
  eapply Z.lt_le_trans; [apply Hlin; lia|]. apply Z.pow_le_mono_r; lia.
Qed.

(** [a / b] does not overflow unless it is huge. *)
Lemma truediv_total a b : b <> 0 -> Z.abs a < 2 ^ 1000 * Z.abs b -> exists q, truediv a b = Ok q /\ is_number q = true.
Proof.
  intros Hb Ha. unfold truediv. rewrite (proj2 (Z.eqb_neq _ _)) by done.
  enough (Hn : is_number (SFdiv prec emax (unrounded a) (unrounded b)) = true) by (destruct (SFdiv _ _ _ _); by eauto).
  assert (Hdiv : forall s m m', Z.pos m < 2 ^ 1000 * Z.pos m' ->
    is_number (let '(mz, ez, lz) := SFdiv_core_binary prec emax (Z.pos m) 0 (Z.pos m') 0 in binary_round_aux prec emax s mz ez lz) = true).
  { intros s m m' Hm. unfold SFdiv_core_binary. set (e := Z.min _ _). assert (He : e <= 0) by lia.
    set (m1 := match 0 - 0 - e with 0 => _ | Z.pos _ => _ | Z.neg _ => _ end). assert (Hm1 : m1 = Z.pos m * 2 ^ (- e)).
    { unfold m1. replace (0 - 0 - e) with (- e) by lia. destruct (- e) eqn:E; [lia| |lia]. rewrite <- E. by rewrite Z.shiftl_mul_pow2 by lia. }
    assert (H1 : 0 <= m1 < Z.pos m' * 2 ^ (1000 - e)).
    { rewrite Hm1. replace (1000 - e) with (1000 + - e) by lia. rewrite Z.pow_add_r by lia. pose proof (Z.pow_pos_nonneg 2 (- e)). nia. }
    pose proof (Z.div_pos m1 (Z.pos m')) as Hq. pose proof (Z.div_lt_upper_bound m1 (Z.pos m') (2 ^ (1000 - e))) as Hq'. unfold Z.div in Hq, Hq'.
    destruct (Z.div_eucl m1 (Z.pos m')) as [q r]. apply (round_bound s q e _ 1000); lia. }
  destruct a as [|a|a], b as [|b|b]; try done; by apply Hdiv.
Qed.


Lemma fsub_not_nan x y : is_number x = true -> is_number y = true -> is_nan (fsub x y) = false.
Proof.
  unfold fsub, SFsub. destruct x as [[]| | |sx mx ex], y as [[]| | |sy my ey]; intros Hx Hy; try done.
  unfold binary_normalize, binary_round. destruct (_ - _) as [|m|m]; [done|..]; destruct (shl_align m _ _) as [mz ez]; by apply round_not_nan.
Qed.
