(* ===== verification/CpConfig.v ===== *)
(** * Context parallelism settings

    [CpType] of [mapping.py] and the [cp_config] dictionary, shared by the
    parallelism layout and the code that splits requests over context-parallel
    ranks. *)

From stdpp Require Import prelude gmap strings.
From S2P Require Import Prelude.
Local Open Scope Z_scope.

Inductive CpType := ULYSSES | STAR | RING | HELIX.

#[export] Instance CpType_eq_dec : EqDecision CpType.
Proof. solve_decision. Defined.

(** [cp_config["cp_type"]] is a string or an enumeration member. *)
Inductive CpTypeValue := CpName (name : string) | CpMember (t : CpType).

(** The context parallelism dictionary: its [cp_type] and the other keys. *)
Record CpConfig := {
  cp_type_entry : option CpTypeValue;
  cp_other : gmap string Z;
}.

#[export] Instance CpTypeValue_eq_dec : EqDecision CpTypeValue.
Proof. solve_decision. Defined.
#[export] Instance CpConfig_eq_dec : EqDecision CpConfig.
Proof. solve_decision. Defined.

Definition empty_cp_config : CpConfig := {| cp_type_entry := None; cp_other := ∅ |}.

(** [str.upper] on ASCII letters *)
Definition ascii_upper (c : Ascii.ascii) : Ascii.ascii :=
  let n := Ascii.nat_of_ascii c in
  if (Nat.leb 97 n && Nat.leb n 122)%bool then Ascii.ascii_of_nat (n - 32) else c.

Fixpoint upper (s : string) : string :=
  match s with
  | EmptyString => EmptyString
  | String c s' => String (ascii_upper c) (upper s')
  end.

(** [CpType(name)] of a member's name *)
Definition cp_type_of_name (s : string) : option CpType :=
  if bool_decide (s = "ULYSSES") then Some ULYSSES
  else if bool_decide (s = "STAR") then Some STAR
  else if bool_decide (s = "RING") then Some RING
  else if bool_decide (s = "HELIX") then Some HELIX
  else None.
