(* ===== verification/RequestQueue.v ===== *)
(** * Requests before they are active

    [ExecutorRequest] and [RequestQueueItem], the request ids a queue hands out
    ([_torch/pyexecutor/executor_request_queue.py], with
    [get_local_request_id] of [llmapi/disagg_utils.py]), the enqueueing of
    requests, cancellations and the control and shutdown markers, and the
    fetching of everything that arrived. *)

From stdpp Require Import prelude gmap sorting.
From Stdlib Require Import QArith.Qcanon.
From S2P Require Import Prelude.
Local Open Scope Z_scope.

(** ** Data *)

(** [attention_dp_relax] is declared a [bool] with default [True]; the [None] the
    routers also provide for is no value of it. *)
Record SchedulingParams := {
  attention_dp_rank : option Z;
  attention_dp_relax : bool;
}.

(** The fields of an executor request the queues and routers read.  A priority
    is a finite float of [[0.0, 1.0]]; floats are rationals, and negating and
    comparing them is exact. *)
Record ExecutorRequest := {
  priority : Qc;
  input_token_ids : list Z;
  py_scheduling_params : option SchedulingParams;
  lora_task_id : option Z;
  disagg_request_id : option Z;
  beam_width : Z;
  num_return_sequences : option Z;
}.

Record RequestQueueItem := {
  item_id : Z;
  item_request : option ExecutorRequest;
  child_req_ids : option (list Z);
  is_canceled_request : bool;
  item_query : option (list Z);
}.

#[export] Instance scheduling_params_eq_dec : EqDecision SchedulingParams.
Proof. solve_decision. Defined.
#[export] Instance executor_request_eq_dec : EqDecision ExecutorRequest.
Proof. solve_decision. Defined.
#[export] Instance queue_item_eq_dec : EqDecision RequestQueueItem.
Proof. solve_decision. Defined.

Definition SHUTDOWN_REQUEST_ID : Z := -1.
Definition CONTROL_REQUEST_ID : Z := -2.

Definition is_shutdown_request (item : RequestQueueItem) : bool := item_id item =? SHUTDOWN_REQUEST_ID.
Definition is_control_request (item : RequestQueueItem) : bool := item_id item =? CONTROL_REQUEST_ID.
Definition is_normal_request (item : RequestQueueItem) : bool :=
  negb (is_shutdown_request item || is_canceled_request item || is_control_request item).

(** [0 if beam_width > 1 else (num_return_sequences or 1) - 1] *)
Definition get_num_child_requests (request : ExecutorRequest) : Z :=
  if 1 <? beam_width request then 0
  else (match num_return_sequences request with
        | Some n => if n =? 0 then 1 else n
        | None => 1
        end) - 1.

(** ** Request ids *)

Definition MIN_GLOBAL_ID : Z := Z.shiftl 1 42.

Definition get_local_request_id (last_id : Z) : Z := Z.land (last_id + 1) (MIN_GLOBAL_ID - 1).

(** ** The queue

    [Time] is the type of [time.time()] readings, and [clock n] the [n]th one
    the queue takes. *)
Section queue.
Context {Time : Type} (clock : nat -> Time).

Record ExecutorRequestQueue := {
  request_queue : list RequestQueueItem;
  max_batch_size : Z;
  next_request_id : Z;
  enable_iter_perf_stats : bool;
  start_times : gmap Z Time;
  active : bool;
  batch_wait_timeout_is_zero : bool;
  dist_rank : Z;
  readings : nat;
}.

Implicit Type self : ExecutorRequestQueue.

Definition ExecutorRequestQueue_init (rank max_batch : Z) (perf_stats no_wait : bool) : ExecutorRequestQueue :=
  {| request_queue := []; max_batch_size := max_batch; next_request_id := max_batch;
     enable_iter_perf_stats := perf_stats; start_times := ∅; active := true;
     batch_wait_timeout_is_zero := no_wait; dist_rank := rank; readings := 0 |}.

Definition set_next_request_id self n : ExecutorRequestQueue :=
  {| request_queue := request_queue self; max_batch_size := max_batch_size self; next_request_id := n;
     enable_iter_perf_stats := enable_iter_perf_stats self; start_times := start_times self;
     active := active self; batch_wait_timeout_is_zero := batch_wait_timeout_is_zero self;
     dist_rank := dist_rank self; readings := readings self |}.

Definition set_start_times self m : ExecutorRequestQueue :=
  {| request_queue := request_queue self; max_batch_size := max_batch_size self;
     next_request_id := next_request_id self;
     enable_iter_perf_stats := enable_iter_perf_stats self; start_times := m;
     active := active self; batch_wait_timeout_is_zero := batch_wait_timeout_is_zero self;
     dist_rank := dist_rank self; readings := readings self |}.

Definition set_request_queue self q : ExecutorRequestQueue :=
  {| request_queue := q; max_batch_size := max_batch_size self;
     next_request_id := next_request_id self;
     enable_iter_perf_stats := enable_iter_perf_stats self; start_times := start_times self;
     active := active self; batch_wait_timeout_is_zero := batch_wait_timeout_is_zero self;
     dist_rank := dist_rank self; readings := readings self |}.

Definition set_active self b : ExecutorRequestQueue :=
  {| request_queue := request_queue self; max_batch_size := max_batch_size self;
     next_request_id := next_request_id self;
     enable_iter_perf_stats := enable_iter_perf_stats self; start_times := start_times self;
     active := b; batch_wait_timeout_is_zero := batch_wait_timeout_is_zero self;
     dist_rank := dist_rank self; readings := readings self |}.

(** [time.time()] *)
Definition time_time self : Time * ExecutorRequestQueue :=
  (clock (readings self),
   {| request_queue := request_queue self; max_batch_size := max_batch_size self;
      next_request_id := next_request_id self;
      enable_iter_perf_stats := enable_iter_perf_stats self; start_times := start_times self;
      active := active self; batch_wait_timeout_is_zero := batch_wait_timeout_is_zero self;
      dist_rank := dist_rank self; readings := S (readings self) |}).

(** [self.request_queue.put(item)] *)
Definition put self item : ExecutorRequestQueue := set_request_queue self (request_queue self ++ [item]).

(** A request of a disaggregated deployment brings its id along: [None] and
    [0] count as absent. *)
Definition disagg_id (request : option ExecutorRequest) : option Z :=
  r ← request; i ← disagg_request_id r; if i =? 0 then None else Some i.

Definition _get_request_id self (request : option ExecutorRequest) : Z * ExecutorRequestQueue :=
  match disagg_id request with
  | Some i => (i, self)
  | None =>
      let current_id := next_request_id self in
      (current_id, set_next_request_id self (get_local_request_id current_id))
  end.

(** One round of the loop over [range(num_children)]. *)
Definition generate_child self : Z * ExecutorRequestQueue :=
  let '(child_req_id, self) := _get_request_id self None in
  if enable_iter_perf_stats self then
    let '(now, self) := time_time self in
    (child_req_id, set_start_times self (<[child_req_id := now]> (start_times self)))
  else (child_req_id, self).

Fixpoint generate_children (num_children : nat) self : list Z * ExecutorRequestQueue :=
  match num_children with
  | O => ([], self)
  | S n =>
      let '(child_req_id, self) := generate_child self in
      let '(rest, self) := generate_children n self in
      (child_req_id :: rest, self)
  end.

Definition _generate_child_request_ids self (request : ExecutorRequest)
    : option (list Z) * ExecutorRequestQueue :=
  let num_children := get_num_child_requests request in
  if 0 <? num_children then
    let '(ids, self) := generate_children (Z.to_nat num_children) self in (Some ids, self)
  else (None, self).

(** One request of [_enqueue_impl]'s loop. *)
Definition enqueue_one (start_time : Time) self (rq : ExecutorRequest * option (list Z))
    : Z * ExecutorRequestQueue :=
  let '(request, query) := rq in
  let '(req_id, self) := _get_request_id self (Some request) in
  let self := if enable_iter_perf_stats self
              then set_start_times self (<[req_id := start_time]> (start_times self)) else self in
  let '(child_ids, self) := _generate_child_request_ids self request in
  (req_id,
   put self {| item_id := req_id; item_request := Some request; child_req_ids := child_ids;
               is_canceled_request := false; item_query := query |}).

Fixpoint enqueue_all (start_time : Time) self (rqs : list (ExecutorRequest * option (list Z)))
    : list Z * ExecutorRequestQueue :=
  match rqs with
  | [] => ([], self)
  | rq :: rqs' =>
      let '(req_id, self) := enqueue_one start_time self rq in
      let '(req_ids, self) := enqueue_all start_time self rqs' in
      (req_id :: req_ids, self)
  end.

(** [_enqueue_impl], under its lock. *)
Definition _enqueue_impl self (requests_and_queries : list (ExecutorRequest * option (list Z)))
    : result (list Z * ExecutorRequestQueue) :=
  _ ← py_assert (active self);
  let '(start_time, self) := time_time self in
  Ok (enqueue_all start_time self requests_and_queries).

Definition enqueue_requests self (requests : list ExecutorRequest) : result (list Z * ExecutorRequestQueue) :=
  _enqueue_impl self ((fun r => (r, None)) <$> requests).

Definition enqueue_request self (request : ExecutorRequest) (query : option (list Z))
    : result (Z * ExecutorRequestQueue) :=
  '(ids, self) ← _enqueue_impl self [(request, query)];
  match ids with [] => Err IndexError | i :: _ => Ok (i, self) end.

(** An item that carries no request. *)
Definition marker (i : Z) (canceled : bool) : RequestQueueItem :=
  {| item_id := i; item_request := None; child_req_ids := None;
     is_canceled_request := canceled; item_query := None |}.

Definition enqueue_cancel_request self (req_id : Z) : ExecutorRequestQueue := put self (marker req_id true).
Definition enqueue_control_request self : ExecutorRequestQueue := put self (marker CONTROL_REQUEST_ID false).
Definition enqueue_shutdown_request self : ExecutorRequestQueue :=
  set_active (put self (marker SHUTDOWN_REQUEST_ID false)) false.

Definition can_enqueue_request self : bool := active self && (dist_rank self =? 0).

Definition get_request_queue_size self : Z := len (request_queue self).

(** ** Fetching

    While the fetch waits, other threads may put items and time passes.  One
    [wait] is what the fetch finds when it looks again: the items that arrived
    since, and whether the time it may still wait is used up. *)
Record wait := { arrived : list RequestQueueItem; expired : bool }.

Definition arrive self (w : wait) : ExecutorRequestQueue :=
  set_request_queue self (request_queue self ++ arrived w).

(** [request_queue.get(timeout=...)]: the oldest item, or [queue.Empty]. *)
Definition get_item self : option (RequestQueueItem * ExecutorRequestQueue) :=
  match request_queue self with
  | [] => None
  | item :: rest => Some (item, set_request_queue self rest)
  end.

(** The first fetch: wait for one item if there is none and waiting is
    allowed, otherwise take everything there is.  [first] is what the wait
    brings. *)
Definition fetch_first self (may_wait : bool) (first : wait) : list RequestQueueItem * ExecutorRequestQueue :=
  if bool_decide (request_queue self = []) && may_wait then
    let self := arrive self first in
    match get_item self with
    | None => ([], self)
    | Some (item, self) => ([item], self)
    end
  else (request_queue self, set_request_queue self []).

(** The batch wait: take items one by one until the batch is full or the
    deadline passed.  A round reads the clock, then waits. *)
Fixpoint fetch_batch self (items : list RequestQueueItem) (waits : list wait)
    : list RequestQueueItem * ExecutorRequestQueue :=
  match waits with
  | [] => (items, self)
  | w :: waits' =>
      if len items <? max_batch_size self then
        if expired w then (items, self)
        else
          let self := arrive self w in
          match get_item self with
          | None => (items, self)
          | Some (item, self) => fetch_batch self (items ++ [item]) waits'
          end
      else (items, self)
  end.

Definition get_from_request_queue self (may_wait : bool) (first : wait) (waits : list wait)
    : list RequestQueueItem * ExecutorRequestQueue :=
  let '(items, self) := fetch_first self may_wait first in
  if batch_wait_timeout_is_zero self then (items, self)
  else if max_batch_size self <=? len items then (items, self)
  else fetch_batch self items waits.

(** ** Queue latency *)

Section latency.
Context (zero : Time) (tadd tsub : Time -> Time -> Time).

(** [if i in self.start_times: total += now - self.start_times.pop(i)] *)
Definition charge (now : Time) (acc : Time * gmap Z Time) (i : Z) : Time * gmap Z Time :=
  match acc.2 !! i with
  | Some t => (tadd acc.1 (tsub now t), delete i acc.2)
  | None => acc
  end.

(** The ids one item is charged for: its own, then its children's. *)
Definition item_ids (item : RequestQueueItem) : list Z :=
  item_id item :: default [] (child_req_ids item).

Definition calculate_queue_latency self (request_items : list RequestQueueItem) (now : Time)
    : Time * ExecutorRequestQueue :=
  if negb (enable_iter_perf_stats self) then (zero, self)
  else
    let '(total, m) := fold_left (fun acc item => fold_left (charge now) (item_ids item) acc)
                                 request_items (zero, start_times self) in
    (total, set_start_times self m).

End latency.

End queue.

(** ** The ids handed out *)

(** [k] local ids in a row, from [start] on. *)
Definition local_ids (start : Z) (k : nat) : list Z :=
  (fun i => (start + Z.of_nat i) mod MIN_GLOBAL_ID) <$> seq 0 k.

Lemma MIN_GLOBAL_ID_pos : 0 < MIN_GLOBAL_ID.
Proof. done. Qed.

Lemma get_local_request_id_mod n : get_local_request_id n = (n + 1) mod MIN_GLOBAL_ID.
Proof.
  unfold get_local_request_id. change (MIN_GLOBAL_ID - 1) with (Z.ones 42).
  rewrite Z.land_ones by lia. done.
Qed.

Lemma local_ids_app start k1 k2 :
  local_ids start (k1 + k2) = local_ids start k1 ++ local_ids ((start + Z.of_nat k1) mod MIN_GLOBAL_ID) k2.
Proof.
  unfold local_ids. rewrite seq_app, fmap_app. f_equal. replace (seq (0 + k1) k2) with (Nat.add k1 <$> seq 0 k2) by (rewrite fmap_add_seq; f_equal; lia).
  rewrite <- list_fmap_compose.
  apply list_fmap_ext. intros i x _. simpl. rewrite Zplus_mod_idemp_l. f_equal. lia.
Qed.

Lemma local_ids_range start k : Forall (fun i => 0 <= i < MIN_GLOBAL_ID) (local_ids start k).
Proof. apply Forall_fmap, Forall_true. intros i. apply Z.mod_pos_bound, MIN_GLOBAL_ID_pos. Qed.

(** The counter wraps around only after [MIN_GLOBAL_ID] ids. *)
Lemma local_ids_NoDup start k : Z.of_nat k <= MIN_GLOBAL_ID -> NoDup (local_ids start k).
Proof.
  intros Hk. apply NoDup_fmap_2_strong; [|apply NoDup_seq].
  intros i j Hi%elem_of_seq Hj%elem_of_seq Heq. pose proof MIN_GLOBAL_ID_pos.
  assert (Hd : (Z.of_nat i - Z.of_nat j) mod MIN_GLOBAL_ID = 0).
  { replace (Z.of_nat i - Z.of_nat j) with ((start + Z.of_nat i) - (start + Z.of_nat j)) by lia.
    by rewrite Zminus_mod, Heq, Z.sub_diag. }
  apply Z.mod_divide in Hd as [q Hq]; [|lia]. assert (q = 0) by nia. lia.
Qed.

Section ids.
Context {Time : Type} (clock : nat -> Time).
Implicit Type self : ExecutorRequestQueue (Time := Time).

(** The local ids one request uses up. *)
Definition local_count (rq : ExecutorRequest * option (list Z)) : nat :=
  (match disagg_id (Some rq.1) with Some _ => 0%nat | None => 1%nat end) + Z.to_nat (get_num_child_requests rq.1).

Definition local_total (rqs : list (ExecutorRequest * option (list Z))) : nat :=
  sum_list (local_count <$> rqs).

Definition disagg_ids (rqs : list (ExecutorRequest * option (list Z))) : list Z :=
  omap (fun rq => disagg_id (Some rq.1)) rqs.

(** A step that hands out [k] local ids and touches nothing else but the
    start times, the clock and the queue. *)
Record issues (k : nat) self self' : Prop := {
  is_next : next_request_id self' mod MIN_GLOBAL_ID = (next_request_id self + Z.of_nat k) mod MIN_GLOBAL_ID;
  is_active : active self' = active self;
  is_size : max_batch_size self' = max_batch_size self;
  is_stats : enable_iter_perf_stats self' = enable_iter_perf_stats self;
}.

Lemma issues_trans k1 k2 s1 s2 s3 : issues k1 s1 s2 -> issues k2 s2 s3 -> issues (k1 + k2) s1 s3.
Proof.
  intros [H1 ? ? ?] [H2 ? ? ?]. split; try congruence.
  rewrite H2, <- Zplus_mod_idemp_l, H1, Zplus_mod_idemp_l. f_equal. lia.
Qed.

Lemma local_ids_mod start start' k :
  start mod MIN_GLOBAL_ID = start' mod MIN_GLOBAL_ID -> local_ids start k = local_ids start' k.
Proof.
  intros H. apply list_fmap_ext. intros i x _.
  by rewrite <- Zplus_mod_idemp_l, H, Zplus_mod_idemp_l.
Qed.

Lemma local_ids_after k1 k2 self self' :
  issues k1 self self' ->
  local_ids (next_request_id self) (k1 + k2)
  = local_ids (next_request_id self) k1 ++ local_ids (next_request_id self') k2.
Proof.
  intros [Hn _ _ _]. rewrite local_ids_app. f_equal. apply local_ids_mod. by rewrite Hn, Z.mod_mod.
Qed.

Lemma generate_children_spec n self ids self' :
  generate_children clock n self = (ids, self') -> 0 <= next_request_id self < MIN_GLOBAL_ID ->
  ids = local_ids (next_request_id self) n /\ issues n self self'
  /\ request_queue self' = request_queue self /\ 0 <= next_request_id self' < MIN_GLOBAL_ID.
Proof.
  revert self ids self'. induction n as [|n IH]; intros self ids self' Hrun Hr; simpl in Hrun.
  { injection Hrun as <- <-. split; [done|]. split; [|done]. split; try done. f_equal. lia. }
  destruct (generate_child clock self) as [i s1] eqn:E1.
  destruct (generate_children clock n s1) as [rest s2] eqn:E2. injection Hrun as <- <-.
  assert (Hs1 : i = next_request_id self /\ issues 1 self s1 /\ request_queue s1 = request_queue self
    /\ 0 <= next_request_id s1 < MIN_GLOBAL_ID).
  { unfold generate_child in E1. simpl in E1.
    assert (0 <= get_local_request_id (next_request_id self) < MIN_GLOBAL_ID)
      by (rewrite get_local_request_id_mod; apply Z.mod_pos_bound, MIN_GLOBAL_ID_pos).
    destruct (enable_iter_perf_stats self) eqn:Es; injection E1 as <- <-; simpl;
      (split; [done|]; split; [|done]; split; simpl; try done;
       by rewrite get_local_request_id_mod, Z.mod_mod). }
  destruct Hs1 as (-> & His & Hq & Hr1).
  apply IH in E2 as (-> & His2 & Hq2 & Hr2); [|done].
  split; [|split; [by apply (issues_trans 1 n self s1)|split; [congruence|done]]].
  change (S n) with (1 + n)%nat. rewrite (local_ids_after 1 n self s1) by done. simpl. f_equal.
  rewrite Z.add_0_r, Z.mod_small by done. done.
Qed.

Lemma generate_child_request_ids_spec request self ids self' :
  _generate_child_request_ids clock self request = (ids, self') -> 0 <= next_request_id self < MIN_GLOBAL_ID ->
  let k := Z.to_nat (get_num_child_requests request) in
  default [] ids = local_ids (next_request_id self) k /\ issues k self self'
  /\ request_queue self' = request_queue self /\ 0 <= next_request_id self' < MIN_GLOBAL_ID.
Proof.
  unfold _generate_child_request_ids. intros Hrun Hr. destruct (Z.ltb_spec 0 (get_num_child_requests request)).
  - destruct (generate_children _ _ _) as [l s] eqn:E. injection Hrun as <- <-.
    by apply generate_children_spec in E.
  - injection Hrun as <- <-. cbv zeta. rewrite Z2Nat.nonpos by lia. split; [done|].
    split; [|done]. split; try done. f_equal. lia.
Qed.

(** One request: its item is appended, and the ids it carries are its own
    (from the deployment, or local) and its children's. *)
Lemma enqueue_one_spec start_time rq self i self' :
  enqueue_one clock start_time self rq = (i, self') -> 0 <= next_request_id self < MIN_GLOBAL_ID ->
  exists item, request_queue self' = request_queue self ++ [item]
    /\ item_id item = i /\ item_request item = Some rq.1 /\ item_query item = rq.2
    /\ is_canceled_request item = false
    /\ item_ids item = option_list (disagg_id (Some rq.1)) ++ local_ids (next_request_id self) (local_count rq)
    /\ issues (local_count rq) self self' /\ 0 <= next_request_id self' < MIN_GLOBAL_ID.
Proof.
  destruct rq as [request query]. unfold enqueue_one, _get_request_id, local_count. simpl fst.
  intros Hrun Hr. destruct (disagg_id (Some request)) as [d|] eqn:Ed.
  - set (s1 := if enable_iter_perf_stats self then _ else self) in Hrun.
    destruct (_generate_child_request_ids clock s1 request) as [ids s2] eqn:E. injection Hrun as <- <-.
    assert (Hs1 : next_request_id s1 = next_request_id self /\ active s1 = active self
      /\ max_batch_size s1 = max_batch_size self /\ enable_iter_perf_stats s1 = enable_iter_perf_stats self
      /\ request_queue s1 = request_queue self)
      by (unfold s1; destruct (enable_iter_perf_stats self) eqn:?; done).
    destruct Hs1 as (Hn & Ha & Hm & Hes & Hq).
    apply generate_child_request_ids_spec in E as (Hids & [] & Hq2 & Hr2); [|by rewrite Hn].
    eexists. simpl. rewrite Hq2, Hq. split; [done|]. unfold item_ids. simpl. rewrite Hids, Hn.
    split_and!; try done; try lia. split; simpl; congruence.
  - set (s0 := set_next_request_id self _) in Hrun.
    set (s1 := if enable_iter_perf_stats s0 then _ else s0) in Hrun.
    destruct (_generate_child_request_ids clock s1 request) as [ids s2] eqn:E. injection Hrun as <- <-.
    assert (Hs1 : issues 1 self s1 /\ request_queue s1 = request_queue self
      /\ 0 <= next_request_id s1 < MIN_GLOBAL_ID).
    { pose proof (Z.mod_pos_bound (next_request_id self + 1) MIN_GLOBAL_ID MIN_GLOBAL_ID_pos) as Hb.
      unfold s1, s0. simpl. destruct (enable_iter_perf_stats self) eqn:?; simpl;
        rewrite get_local_request_id_mod; (split; [|done]; split; simpl; try done;
        by rewrite ?get_local_request_id_mod, Z.mod_mod). }
    destruct Hs1 as (His & Hq & Hr1).
    apply generate_child_request_ids_spec in E as (Hids & His2 & Hq2 & Hr2); [|done].
    eexists. simpl. rewrite Hq2, Hq. split; [done|]. unfold item_ids. simpl. rewrite Hids.
    pose proof (issues_trans _ _ _ _ _ His His2) as [].
    split_and!; try done; try lia.
    change (S ?n) with (1 + n)%nat. rewrite (local_ids_after 1 _ self s1) by done. simpl. f_equal.
    by rewrite Z.add_0_r, Z.mod_small.
Qed.

Lemma disagg_ids_cons rq rqs :
  disagg_ids (rq :: rqs) = option_list (disagg_id (Some rq.1)) ++ disagg_ids rqs.
Proof. unfold disagg_ids. cbn [omap list_omap]. by destruct (disagg_id (Some rq.1)). Qed.

Lemma enqueue_all_spec start_time rqs self ids self' :
  enqueue_all clock start_time self rqs = (ids, self') -> 0 <= next_request_id self < MIN_GLOBAL_ID ->
  exists items, request_queue self' = request_queue self ++ items /\ ids = item_id <$> items
    /\ Forall2 (fun rq item => item_request item = Some rq.1 /\ item_query item = rq.2
                               /\ is_canceled_request item = false) rqs items
    /\ concat (item_ids <$> items) ≡ₚ disagg_ids rqs ++ local_ids (next_request_id self) (local_total rqs)
    /\ issues (local_total rqs) self self' /\ 0 <= next_request_id self' < MIN_GLOBAL_ID.
Proof.
  revert self ids self'. induction rqs as [|rq rqs IH]; intros self ids self' Hrun Hr; simpl in Hrun.
  { injection Hrun as <- <-. exists []. rewrite app_nil_r. split_and!; try done; try lia.
    split; try done. f_equal. unfold local_total. simpl. lia. }
  destruct (enqueue_one clock start_time self rq) as [i s1] eqn:E1.
  destruct (enqueue_all clock start_time s1 rqs) as [rest s2] eqn:E2. injection Hrun as <- <-.
  apply enqueue_one_spec in E1 as (item & Hq1 & Hi & Hreq & Hqu & Hc & Hid & His1 & Hr1); [|done].
  apply IH in E2 as (items & Hq2 & -> & HF & Hperm & His2 & Hr2); [|done].
  exists (item :: items). rewrite Hq2, Hq1, <- app_assoc. split; [done|].
  split; [by simpl; rewrite Hi|]. split; [by constructor|].
  change (local_total (rq :: rqs)) with (local_count rq + local_total rqs)%nat.
  split; [|split; [by eapply issues_trans|done]].
  rewrite fmap_cons. change (concat (item_ids item :: ?r)) with (item_ids item ++ concat r).
  rewrite Hperm, Hid, (local_ids_after _ _ self s1) by done.
  rewrite disagg_ids_cons, <- !app_assoc. f_equiv. apply Permutation_app_swap_app.
Qed.

End ids.

(** C39. Enqueueing puts one item per request behind what is queued, in order,
    and no two requests or child requests get the same id: the ids brought by a
    disaggregated deployment are at least [MIN_GLOBAL_ID], the local ones
    below, and the local counter wraps only after [MIN_GLOBAL_ID] ids. *)
Theorem enqueue_ids_unique {Time} (clock : nat -> Time) (self : ExecutorRequestQueue (Time := Time)) rqs ids self' :
  _enqueue_impl clock self rqs = Ok (ids, self') ->
  0 <= next_request_id self < MIN_GLOBAL_ID ->
  Forall (fun i => MIN_GLOBAL_ID <= i) (disagg_ids rqs) -> NoDup (disagg_ids rqs) ->
  Z.of_nat (local_total rqs) <= MIN_GLOBAL_ID ->
  active self = true
  /\ exists items, request_queue self' = request_queue self ++ items /\ ids = item_id <$> items
     /\ Forall2 (fun rq item => item_request item = Some rq.1 /\ item_query item = rq.2
                                /\ is_canceled_request item = false) rqs items
     /\ NoDup (concat (item_ids <$> items))
     /\ next_request_id self' = (next_request_id self + Z.of_nat (local_total rqs)) mod MIN_GLOBAL_ID.
Proof.
  unfold _enqueue_impl. intros Hrun Hr Hge Hnd Hk. apply bind_Ok in Hrun as ([] & Ha & Hrun).
  apply assert_Ok in Ha. split; [done|]. destruct (time_time clock self) as [t s1] eqn:Et.
  injection Et as <- <-. injection Hrun as Hrun.
  apply enqueue_all_spec in Hrun as (items & Hq & Hids & HF & Hperm & [Hn _ _ _] & Hr'); [|done].
  exists items. split_and!; try done.
  - rewrite Hperm. apply NoDup_app. split; [done|]. split; [|by apply local_ids_NoDup].
    intros i Hi Hl. rewrite Forall_forall in Hge. apply Hge in Hi.
    pose proof (local_ids_range (next_request_id self) (local_total rqs)) as HR.
    rewrite Forall_forall in HR. apply HR in Hl. lia.
  - rewrite <- (Z.mod_small _ _ Hr'). exact Hn.
Qed.

Definition wit_request (n : option Z) (d : option Z) : ExecutorRequest :=
  {| priority := 1; input_token_ids := [11; 12]; py_scheduling_params := None; lora_task_id := None;
     disagg_request_id := d; beam_width := 1; num_return_sequences := n |}.

Definition wit_rqs : list (ExecutorRequest * option (list Z)) :=
  [(wit_request (Some 3) None, None); (wit_request None (Some (2 ^ 42 + 5)), None);
   (wit_request None (Some 0), None)].

Definition wit_queue : ExecutorRequestQueue (Time := Z) := ExecutorRequestQueue_init 0 8 true false.

Definition wit_enqueued : list Z * ExecutorRequestQueue (Time := Z) :=
  Eval vm_compute in enqueue_all Z.of_nat 0 (time_time Z.of_nat wit_queue).2 wit_rqs.

Lemma enqueue_ids_unique_witness :
  wit_enqueued.1 = [8; 2 ^ 42 + 5; 11]
  /\ exists items, request_queue wit_enqueued.2 = items /\ NoDup (concat (item_ids <$> items)).
Proof.
  split; [vm_compute; reflexivity|].
  destruct (enqueue_ids_unique Z.of_nat wit_queue wit_rqs wit_enqueued.1 wit_enqueued.2)
    as (_ & items & Hq & _ & _ & Hnd & _).
  - vm_compute. reflexivity.
  - vm_compute. split; congruence.
  - repeat constructor. vm_compute. congruence.
  - apply (bool_decide_unpack _). vm_compute. exact I.
  - vm_compute. congruence.
  - exists items. split; [exact Hq|exact Hnd].
Defined.

(** ** Fetching loses nothing *)

Section fetch.
Context {Time : Type}.
Implicit Type self : ExecutorRequestQueue (Time := Time).

Lemma fetch_batch_spec self items waits items' self' :
  fetch_batch self items waits = (items', self') ->
  (exists k, items' ++ request_queue self' = items ++ request_queue self ++ concat (arrived <$> take k waits))
  /\ items `prefix_of` items' /\ (len items' <= Z.max (len items) (max_batch_size self)).
Proof.
  revert self items. induction waits as [|w waits IH]; intros self items Hrun; simpl in Hrun.
  { injection Hrun as <- <-. split; [exists 0%nat; by rewrite app_nil_r|]. split; [done|lia]. }
  assert (Hstop : (exists k, items ++ request_queue self
      = items ++ request_queue self ++ concat (arrived <$> take k (w :: waits)))
    /\ items `prefix_of` items /\ len items <= Z.max (len items) (max_batch_size self))
    by (split; [exists 0%nat; by rewrite app_nil_r|split; [done|lia]]).
  destruct (Z.ltb_spec (len items) (max_batch_size self)) as [Hlt|]; [|by injection Hrun as <- <-].
  destruct (expired w); [by injection Hrun as <- <-|].
  destruct (get_item (arrive self w)) as [[item s1]|] eqn:E; unfold get_item in E; simpl in E.
  - destruct (request_queue self ++ arrived w) as [|x rest] eqn:Eq; [done|]. injection E as -> <-.
    apply IH in Hrun as ([k Hk] & Hpre & Hlen). simpl in Hk, Hlen. rewrite length_app in Hlen. simpl in Hlen.
    split; [|split; [by eapply prefix_app_l|lia]].
    exists (S k). rewrite Hk. simpl. rewrite (app_assoc (request_queue self)), Eq.
    by rewrite <- app_assoc.
  - destruct (request_queue self ++ arrived w) eqn:Eq; [|done]. injection Hrun as <- <-. simpl.
    rewrite Eq. split; [|apply Hstop]. exists 1%nat. simpl. by rewrite !app_nil_r, Eq, app_nil_r.
Qed.

Lemma fetch_first_spec self may_wait first items self' :
  fetch_first self may_wait first = (items, self') ->
  (items ++ request_queue self' = request_queue self
   \/ request_queue self = [] /\ items ++ request_queue self' = arrived first /\ len items <= 1)
  /\ max_batch_size self' = max_batch_size self
  /\ batch_wait_timeout_is_zero self' = batch_wait_timeout_is_zero self.
Proof.
  unfold fetch_first. case_bool_decide as Hq; simpl.
  - destruct may_wait; simpl.
    + unfold get_item. simpl. rewrite Hq. simpl. destruct (arrived first) as [|x rest] eqn:Ea;
        intros Hrun; injection Hrun as <- <-; simpl; rewrite ?Hq; simpl; split; auto; right; auto with lia.
    + intros Hrun. injection Hrun as <- <-. simpl. rewrite app_nil_r. auto.
  - intros Hrun. injection Hrun as <- <-. simpl. rewrite app_nil_r. auto.
Qed.

End fetch.

(** A fetch loses, repeats and reorders nothing: what it returns followed by
    what stays queued is what was queued followed by what arrived while it
    waited.  When the batch wait is enabled it stops at [max_batch_size] items,
    unless more were already there; without waiting it takes all of them. *)
Theorem fetch_conserves {Time} (self : ExecutorRequestQueue (Time := Time)) may_wait first waits :
  let '(items, self') := get_from_request_queue self may_wait first waits in
  (exists late, items ++ request_queue self' = request_queue self ++ late
     /\ exists k, late = concat (arrived <$> take k waits)
               \/ request_queue self = [] /\ late = arrived first ++ concat (arrived <$> take k waits))
  /\ len items <= Z.max (Z.max 1 (len (request_queue self))) (max_batch_size self)
  /\ (may_wait = false -> request_queue self `prefix_of` items).
Proof.
  destruct (get_from_request_queue _ _ _ _) as [items self'] eqn:Hrun.
  unfold get_from_request_queue in Hrun.
  destruct (fetch_first self may_wait first) as [items1 s1] eqn:E1.
  assert (Hall : may_wait = false -> items1 = request_queue self).
  { intros ->. unfold fetch_first in E1. rewrite andb_false_r in E1. by injection E1 as <- _. }
  apply fetch_first_spec in E1 as (Hq & Hm & Hz).
  assert (Hgen : (exists k, items ++ request_queue self' = (items1 ++ request_queue s1) ++ concat (arrived <$> take k waits))
    /\ items1 `prefix_of` items /\ len items <= Z.max (len items1) (max_batch_size self)).
  { assert (Hstop : (exists k, items1 ++ request_queue s1 = (items1 ++ request_queue s1) ++ concat (arrived <$> take k waits))
      /\ items1 `prefix_of` items1 /\ len items1 <= Z.max (len items1) (max_batch_size self))
      by (split; [exists 0%nat; by rewrite app_nil_r|split; [done|lia]]).
    destruct (batch_wait_timeout_is_zero s1); [by injection Hrun as <- <-|].
    destruct (max_batch_size s1 <=? len items1); [by injection Hrun as <- <-|].
    apply fetch_batch_spec in Hrun as ([k Hk] & Hpre & Hlen). rewrite Hm in Hlen.
    split; [exists k; by rewrite <- app_assoc|done]. }
  destruct Hgen as ([k Hk] & Hpre & Hlen). rewrite Hk. split; [|split].
  - destruct Hq as [-> | (Hnil & -> & _)]; [eauto|]. rewrite Hnil. eauto 6.
  - destruct Hq as [Hq | (_ & _ & H1)]; [|lia]. rewrite <- Hq, length_app. lia.
  - intros Hw. by rewrite <- (Hall Hw).
Qed.
