(* ===== verification/WaitingQueue.v ===== *)
(** * Waiting queues

    [_torch/pyexecutor/scheduler/waiting_queue.py]: the interface
    [WaitingQueue], its first-come-first-served implementation on a deque and
    its priority implementation on a binary heap.  [WaitingQueueLaws] says what
    the interface promises in terms of the order of iteration, both
    implementations discharge it, and every history of calls is shown to be
    answered as by one ordered list. *)

From stdpp Require Import prelude gmap sorting.
From Stdlib Require Import QArith.Qcanon.
From S2P Require Import Prelude PyHeapq RequestQueue.
Local Open Scope Z_scope.

(** ** The interface *)

Class WaitingQueue (Q : Type) := {
  add_request : Q -> RequestQueueItem -> Q;
  add_requests : Q -> list RequestQueueItem -> Q;
  pop_request : Q -> result (RequestQueueItem * Q);
  peek_request : Q -> result RequestQueueItem;
  prepend_request : Q -> RequestQueueItem -> Q;
  prepend_requests : Q -> list RequestQueueItem -> Q;
  remove_by_ids : Q -> gset Z -> Q;
  queue_bool : Q -> bool;
  queue_len : Q -> Z;
  queue_iter : Q -> list RequestQueueItem;
}.

(** ** First come, first served *)

(** The deque, front first. *)
Record FCFSWaitingQueue := { deque : list RequestQueueItem }.

Definition fcfs_add_request (self : FCFSWaitingQueue) (request : RequestQueueItem) : FCFSWaitingQueue :=
  {| deque := deque self ++ [request] |}.

Definition fcfs_add_requests (self : FCFSWaitingQueue) (requests : list RequestQueueItem) : FCFSWaitingQueue :=
  {| deque := deque self ++ requests |}.

(** [popleft] raises on an empty deque. *)
Definition fcfs_pop_request (self : FCFSWaitingQueue) : result (RequestQueueItem * FCFSWaitingQueue) :=
  match deque self with
  | [] => Err IndexError
  | x :: rest => Ok (x, {| deque := rest |})
  end.

Definition fcfs_peek_request (self : FCFSWaitingQueue) : result RequestQueueItem :=
  match deque self with [] => Err IndexError | x :: _ => Ok x end.

Definition fcfs_prepend_request (self : FCFSWaitingQueue) (request : RequestQueueItem) : FCFSWaitingQueue :=
  {| deque := request :: deque self |}.

(** [extendleft] appends to the left one by one. *)
Definition extendleft (l : list RequestQueueItem) (self : FCFSWaitingQueue) : FCFSWaitingQueue :=
  fold_left fcfs_prepend_request l self.

Definition fcfs_prepend_requests (self : FCFSWaitingQueue) (requests : list RequestQueueItem) : FCFSWaitingQueue :=
  extendleft (reverse requests) self.

Definition fcfs_remove_by_ids (self : FCFSWaitingQueue) (request_ids : gset Z) : FCFSWaitingQueue :=
  {| deque := filter (fun req => item_id req ∉ request_ids) (deque self) |}.

#[export] Instance fcfs_queue : WaitingQueue FCFSWaitingQueue := {|
  add_request := fcfs_add_request;
  add_requests := fcfs_add_requests;
  pop_request := fcfs_pop_request;
  peek_request := fcfs_peek_request;
  prepend_request := fcfs_prepend_request;
  prepend_requests := fcfs_prepend_requests;
  remove_by_ids := fcfs_remove_by_ids;
  queue_bool self := 0 <? len (deque self);
  queue_len self := len (deque self);
  queue_iter := deque;
|}.

(** ** Priorities *)

(** A heap entry [(neg_priority, insertion_counter, item)]. *)
Record heap_entry := {
  neg_priority : Qc;
  insertion_counter : Z;
  entry_item : RequestQueueItem;
}.

(** Tuple comparison.  Counters are never shared (see [pq_ok]), so the items are
    never compared. *)
Definition entry_lt (a b : heap_entry) : bool :=
  bool_decide (neg_priority a < neg_priority b)%Qc
  || (bool_decide (neg_priority a = neg_priority b) && (insertion_counter a <? insertion_counter b)).

Definition entry_le (a b : heap_entry) : bool :=
  bool_decide (neg_priority a < neg_priority b)%Qc
  || (bool_decide (neg_priority a = neg_priority b) && (insertion_counter a <=? insertion_counter b)).

Record PriorityWaitingQueue := {
  _heap : list heap_entry;
  _counter : Z;
  _prepend_counter : Z;
}.

Definition PriorityWaitingQueue_init : PriorityWaitingQueue :=
  {| _heap := []; _counter := 0; _prepend_counter := -1 |}.

Definition DEFAULT_REQUEST_PRIORITY : Qc := Q2Qc (QArith_base.Qmake 1 2).

Definition _get_priority (item : RequestQueueItem) : Qc :=
  match item_request item with
  | Some r => priority r
  | None => DEFAULT_REQUEST_PRIORITY
  end.

Definition _push (self : PriorityWaitingQueue) (item : RequestQueueItem) : PriorityWaitingQueue :=
  let entry := {| neg_priority := (- _get_priority item)%Qc; insertion_counter := _counter self;
                  entry_item := item |} in
  {| _heap := heappush entry_lt (_heap self) entry;
     _counter := _counter self + 1; _prepend_counter := _prepend_counter self |}.

Definition _push_front (self : PriorityWaitingQueue) (item : RequestQueueItem) : PriorityWaitingQueue :=
  let entry := {| neg_priority := (- _get_priority item)%Qc; insertion_counter := _prepend_counter self;
                  entry_item := item |} in
  {| _heap := heappush entry_lt (_heap self) entry;
     _counter := _counter self; _prepend_counter := _prepend_counter self - 1 |}.

Definition priority_add_requests (self : PriorityWaitingQueue) (requests : list RequestQueueItem)
    : PriorityWaitingQueue :=
  fold_left _push requests self.

Definition priority_pop_request (self : PriorityWaitingQueue) : result (RequestQueueItem * PriorityWaitingQueue) :=
  if bool_decide (_heap self = []) then Err IndexError
  else
    '(entry, heap) ← heappop entry_lt (_heap self);
    Ok (entry_item entry,
        {| _heap := heap; _counter := _counter self; _prepend_counter := _prepend_counter self |}).

Definition priority_peek_request (self : PriorityWaitingQueue) : result RequestQueueItem :=
  match _heap self with [] => Err IndexError | e :: _ => Ok (entry_item e) end.

Definition priority_prepend_requests (self : PriorityWaitingQueue) (requests : list RequestQueueItem)
    : PriorityWaitingQueue :=
  fold_left _push_front (reverse requests) self.

Definition priority_remove_by_ids (self : PriorityWaitingQueue) (request_ids : gset Z) : PriorityWaitingQueue :=
  {| _heap := heapify entry_lt (filter (fun e => item_id (entry_item e) ∉ request_ids) (_heap self));
     _counter := _counter self; _prepend_counter := _prepend_counter self |}.

(** [(e[2] for e in sorted(self._heap))] *)
Definition priority_iter (self : PriorityWaitingQueue) : list RequestQueueItem :=
  entry_item <$> sort_by entry_le (_heap self).

#[export] Instance heap_entry_eq_dec : EqDecision heap_entry.
Proof. solve_decision. Defined.

#[export] Instance priority_queue : WaitingQueue PriorityWaitingQueue := {|
  add_request := _push;
  add_requests := priority_add_requests;
  pop_request := priority_pop_request;
  peek_request := priority_peek_request;
  prepend_request := _push_front;
  prepend_requests := priority_prepend_requests;
  remove_by_ids := priority_remove_by_ids;
  queue_bool self := 0 <? len (_heap self);
  queue_len self := len (_heap self);
  queue_iter := priority_iter;
|}.

(** ** Choosing a queue *)

Inductive WaitingQueuePolicy := FCFS | PRIORITY.

Definition create_waiting_queue (policy : WaitingQueuePolicy) : FCFSWaitingQueue + PriorityWaitingQueue :=
  match policy with
  | FCFS => inl {| deque := [] |}
  | PRIORITY => inr PriorityWaitingQueue_init
  end.

(** ** What the interface promises

    [higher x y]: the policy serves [x] before [y] whatever their arrival. *)

(** Behind everything that is not served later. *)
Fixpoint place_back (higher : RequestQueueItem -> RequestQueueItem -> bool) (x : RequestQueueItem)
    (l : list RequestQueueItem) : list RequestQueueItem :=
  match l with
  | [] => [x]
  | y :: l' => if higher x y then x :: y :: l' else y :: place_back higher x l'
  end.

(** In front of everything that is not served earlier. *)
Fixpoint place_front (higher : RequestQueueItem -> RequestQueueItem -> bool) (x : RequestQueueItem)
    (l : list RequestQueueItem) : list RequestQueueItem :=
  match l with
  | [] => [x]
  | y :: l' => if higher y x then y :: place_front higher x l' else x :: y :: l'
  end.

(** Nothing is in front of what the policy serves first. *)
Definition served_in_order (higher : RequestQueueItem -> RequestQueueItem -> bool) (l : list RequestQueueItem) : Prop :=
  StronglySorted (fun x y => higher y x = false) l.

Class WaitingQueueLaws (Q : Type) `{WaitingQueue Q} (higher : RequestQueueItem -> RequestQueueItem -> bool) := {
  queue_ok : Q -> Prop;
  add_request_law q x : queue_ok q ->
    queue_ok (add_request q x) /\ queue_iter (add_request q x) = place_back higher x (queue_iter q);
  add_requests_law q l : add_requests q l = fold_left add_request l q;
  prepend_request_law q x : queue_ok q ->
    queue_ok (prepend_request q x) /\ queue_iter (prepend_request q x) = place_front higher x (queue_iter q);
  prepend_requests_law q l : prepend_requests q l = foldr (fun x q => prepend_request q x) q l;
  pop_request_law q : queue_ok q ->
    match queue_iter q with
    | [] => pop_request q = Err IndexError
    | x :: l => exists q', pop_request q = Ok (x, q') /\ queue_ok q' /\ queue_iter q' = l
    end;
  peek_request_law q : queue_ok q ->
    peek_request q = match queue_iter q with [] => Err IndexError | x :: _ => Ok x end;
  remove_by_ids_law q ids : queue_ok q ->
    queue_ok (remove_by_ids q ids)
    /\ queue_iter (remove_by_ids q ids) = filter (fun x => item_id x ∉ ids) (queue_iter q);
  queue_order_law q : queue_ok q -> served_in_order higher (queue_iter q);
  queue_len_law q : queue_len q = len (queue_iter q);
  queue_bool_law q : queue_bool q = (0 <? len (queue_iter q));
}.

(** First come, first served: no request is served before another for any
    reason but arrival. *)
Definition no_higher (x y : RequestQueueItem) : bool := false.

Lemma fold_left_rev_right {A B} (f : B -> A -> B) (l : list A) b :
  fold_left f (reverse l) b = foldr (fun x b => f b x) b l.
Proof.
  induction l as [|x l IH]; [done|]. rewrite reverse_cons, fold_left_app. simpl. by rewrite IH.
Qed.

#[export, refine] Instance fcfs_laws : WaitingQueueLaws FCFSWaitingQueue no_higher :=
  {| queue_ok _ := True |}.
Proof.
  - intros [q] x _. split; [done|]. simpl. by induction q as [|y q IH]; simpl; [|rewrite IH].
  - intros [q] l. simpl. revert q. induction l as [|x l IH]; intros q; simpl.
    + unfold fcfs_add_requests. simpl. by rewrite app_nil_r.
    + unfold fcfs_add_request at 2. simpl. rewrite <- IH. unfold fcfs_add_requests. simpl.
      by rewrite <- app_assoc.
  - intros [[|y q]] x _; done.
  - intros q l. apply fold_left_rev_right.
  - intros [[|x q]] _; simpl; [done|]. eauto.
  - intros [[|x q]] _; done.
  - intros [q] ids _. done.
  - intros [q] _. unfold served_in_order. simpl. induction q; constructor; [done|]. by apply Forall_true.
  - done.
  - done.
Defined.

(** ** The priority queue keeps its promise *)

(** Higher priorities first. *)
Definition higher_priority (x y : RequestQueueItem) : bool :=
  bool_decide (_get_priority y < _get_priority x)%Qc.

Record pq_ok (q : PriorityWaitingQueue) : Prop := {
  pq_heap : is_heap entry_lt (_heap q);
  pq_key : Forall (fun e => neg_priority e = (- _get_priority (entry_item e))%Qc) (_heap q);
  pq_unique : NoDup (insertion_counter <$> _heap q);
  pq_range : Forall (fun e => _prepend_counter q < insertion_counter e < _counter q) (_heap q);
  pq_sign : _prepend_counter q < _counter q;
}.

Lemma Qc_total_cases (x y : Qc) : (x < y \/ x = y \/ y < x)%Qc.
Proof. destruct (Qc_dec x y) as [[?|?]|?]; auto. Qed.

Lemma Qclt_irrefl (x : Qc) : ~ (x < x)%Qc.
Proof. intros H. by apply Qclt_not_le in H; apply H, Qcle_refl. Qed.

(** Contradictions between strict comparisons of priorities. *)
Ltac qc_absurd :=
  exfalso;
  repeat match goal with E : @eq Qc _ _ |- _ => rewrite E in *; clear E end;
  match goal with
  | H : (?x < ?x)%Qc |- _ => exact (Qclt_irrefl x H)
  | H1 : (?x < ?y)%Qc, H2 : (?y < ?x)%Qc |- _ => exact (Qclt_irrefl x (Qclt_trans _ _ _ H1 H2))
  | H1 : (?x < ?y)%Qc, H2 : (?y < ?z)%Qc, H3 : (?z < ?x)%Qc |- _ =>
      exact (Qclt_irrefl x (Qclt_trans _ _ _ H1 (Qclt_trans _ _ _ H2 H3)))
  end.

Lemma entry_le_spec a b :
  entry_le a b = true
  <-> (neg_priority a < neg_priority b)%Qc
      \/ neg_priority a = neg_priority b /\ insertion_counter a <= insertion_counter b.
Proof.
  unfold entry_le. rewrite orb_true_iff, andb_true_iff, !bool_decide_eq_true, Z.leb_le. done.
Qed.

Lemma entry_lt_spec a b :
  entry_lt a b = true
  <-> (neg_priority a < neg_priority b)%Qc
      \/ neg_priority a = neg_priority b /\ insertion_counter a < insertion_counter b.
Proof.
  unfold entry_lt. rewrite orb_true_iff, andb_true_iff, !bool_decide_eq_true, Z.ltb_lt. done.
Qed.

Lemma entry_le_trans a b c : entry_le a b = true -> entry_le b c = true -> entry_le a c = true.
Proof.
  rewrite !entry_le_spec. intros [H1|[E1 H1]] [H2|[E2 H2]].
  - left. by eapply Qclt_trans.
  - left. by rewrite <- E2.
  - left. by rewrite E1.
  - right. split; [congruence|lia].
Qed.

Lemma entry_le_total a b : entry_le a b = true \/ entry_le b a = true.
Proof.
  rewrite !entry_le_spec. destruct (Qc_total_cases (neg_priority a) (neg_priority b)) as [H|[H|H]]; auto.
  destruct (Z.le_ge_cases (insertion_counter a) (insertion_counter b)); auto.
Qed.

(** [a < b] is the negation of [b <= a]. *)
Lemma entry_lt_false a b : entry_lt a b = false <-> entry_le b a = true.
Proof.
  rewrite <- not_true_iff_false, entry_lt_spec, entry_le_spec.
  destruct (Qc_total_cases (neg_priority a) (neg_priority b)) as [H|[H|H]].
  - split; [intros Hn; exfalso; apply Hn; by left|]. intros [H'|[H' _]] _; qc_absurd.
  - rewrite H. split; intros Hn.
    + right. split; [done|]. destruct (Z.le_gt_cases (insertion_counter b) (insertion_counter a)); [done|].
      exfalso. apply Hn. by right.
    + intros [H'|[_ H']]; [qc_absurd|]. destruct Hn as [Hn|[_ Hn]]; [qc_absurd|lia].
  - split; [by left|]. intros _ [H'|[H' _]]; qc_absurd.
Qed.

#[export] Instance entry_order : StrictWeakOrder entry_lt.
Proof.
  split.
  - intros x. apply entry_lt_false. destruct (entry_le_total x x); done.
  - intros x y z Hxy Hyz. rewrite <- not_false_iff_true, entry_lt_false in *. intros Hzx.
    apply Hyz. destruct (entry_le_total z y) as [H|H]; [done|].
    exfalso. apply Hxy. by eapply entry_le_trans.
  - intros x y z Hyx Hzy. rewrite entry_lt_false in *. by eapply entry_le_trans.
Qed.

(** *** One order of iteration *)

Abbreviation sorted_entries := (StronglySorted (fun a b => entry_le a b = true)).

Lemma sort_entries_sorted h : sorted_entries (sort_by entry_le h).
Proof. apply sort_by_sorted; [apply entry_le_trans|apply entry_le_total]. Qed.

(** With distinct counters there is only one sorted arrangement. *)
Lemma sorted_entries_unique h l1 l2 :
  NoDup (insertion_counter <$> h) -> l1 ≡ₚ h -> l2 ≡ₚ h -> sorted_entries l1 -> sorted_entries l2 -> l1 = l2.
Proof.
  intros Hnd H1 H2 S1 S2. eapply StronglySorted_unique_strong; [|exact S1|exact S2|by rewrite H1, H2].
  intros a b Ha Hb Hab Hba. rewrite H1 in Ha. rewrite H2 in Hb.
  apply entry_le_spec in Hab, Hba. apply list_elem_of_lookup in Ha as [i Hi], Hb as [j Hj].
  assert (Hc : insertion_counter a = insertion_counter b).
  { destruct Hab as [H|[E H]], Hba as [H'|[E' H']]; lia || qc_absurd. }
  assert (i = j) as ->.
  { eapply NoDup_lookup; [exact Hnd|rewrite list_lookup_fmap, Hi; done|rewrite list_lookup_fmap, Hj; simpl; by rewrite Hc]. }
  by simplify_eq.
Qed.

Lemma sort_entries_perm h h' :
  NoDup (insertion_counter <$> h) -> h' ≡ₚ h -> sort_by entry_le h' = sort_by entry_le h.
Proof.
  intros Hnd Hp. apply (sorted_entries_unique h); [done|by rewrite sort_by_perm|by rewrite sort_by_perm|..];
    apply sort_entries_sorted.
Qed.

(** *** The operations *)

Lemma Qcopp_lt_compat (x y : Qc) : (x < y -> - y < - x)%Qc.
Proof.
  intros H. apply Qcnot_le_lt. intros H'%Qcopp_le_compat. rewrite !Qcopp_involutive in H'.
  by apply Qclt_not_le in H.
Qed.

Lemma Qcopp_lt (x y : Qc) : (- x < - y)%Qc <-> (y < x)%Qc.
Proof.
  split; intros H%Qcopp_lt_compat; [|done]. by rewrite !Qcopp_involutive in H.
Qed.

Lemma Qcopp_inj (x y : Qc) : (- x)%Qc = (- y)%Qc -> x = y.
Proof. intros H%(f_equal Qcopp). by rewrite !Qcopp_involutive in H. Qed.

Abbreviation keyed := (fun e => neg_priority e = (- _get_priority (entry_item e))%Qc).

(** An entry with the largest counter so far goes behind its equals, one with
    the smallest in front of them. *)
Lemma insert_back e h :
  keyed e -> Forall keyed h -> Forall (fun y => insertion_counter y < insertion_counter e) h ->
  entry_item <$> insert_by entry_le e h = place_back higher_priority (entry_item e) (entry_item <$> h).
Proof.
  intros He Hk Hc. induction h as [|y h IH]; [done|]. apply Forall_cons in Hk as [Hy Hk], Hc as [Hyc Hc].
  simpl. unfold higher_priority at 1. destruct (entry_le e y) eqn:E.
  - apply entry_le_spec in E as [E|[_ E]]; [|lia]. rewrite He, Hy, Qcopp_lt in E.
    by rewrite bool_decide_true.
  - rewrite bool_decide_false; [simpl; f_equal; by apply IH|]. intros Hlt. apply Qcopp_lt in Hlt.
    rewrite <- He, <- Hy in Hlt. apply not_true_iff_false in E. apply E, entry_le_spec. by left.
Qed.

Lemma insert_front e h :
  keyed e -> Forall keyed h -> Forall (fun y => insertion_counter e < insertion_counter y) h ->
  entry_item <$> insert_by entry_le e h = place_front higher_priority (entry_item e) (entry_item <$> h).
Proof.
  intros He Hk Hc. induction h as [|y h IH]; [done|]. apply Forall_cons in Hk as [Hy Hk], Hc as [Hyc Hc].
  simpl. unfold higher_priority at 1. destruct (entry_le e y) eqn:E.
  - rewrite bool_decide_false; [done|]. intros Hlt%Qcopp_lt. rewrite <- He, <- Hy in Hlt.
    apply entry_le_spec in E as [E|[E _]]; qc_absurd.
  - rewrite bool_decide_true; [simpl; f_equal; by apply IH|]. apply Qcopp_lt. rewrite <- He, <- Hy.
    apply not_true_iff_false in E. rewrite entry_le_spec in E.
    destruct (Qc_total_cases (neg_priority y) (neg_priority e)) as [?|[?|?]]; [done|..]; exfalso; apply E.
    + right. split; [done|lia].
    + by left.
Qed.

(** What every push does, whichever counter it takes. *)
Lemma push_ok q e c p :
  pq_ok q -> keyed e -> Forall (fun y => insertion_counter y <> insertion_counter e) (_heap q) ->
  p <= _prepend_counter q -> _counter q <= c -> p < insertion_counter e < c ->
  pq_ok {| _heap := heappush entry_lt (_heap q) e; _counter := c; _prepend_counter := p |}
  /\ sort_by entry_le (heappush entry_lt (_heap q) e) = insert_by entry_le e (sort_by entry_le (_heap q)).
Proof.
  intros [Hh Hk Hu Hr Hs] He Hfresh Hp Hc Hb.
  destruct (heappush_spec entry_lt (_heap q) e Hh) as [Hh' Hperm].
  assert (Hu' : NoDup (insertion_counter <$> e :: _heap q)).
  { simpl. constructor; [|done]. intros (y & Hy & Hin)%list_elem_of_fmap.
    rewrite Forall_forall in Hfresh. by apply (Hfresh y Hin). }
  split.
  - split; simpl; [done|rewrite Hperm; by constructor|by rewrite Hperm| |lia].
    rewrite Hperm. constructor; [done|]. eapply Forall_impl; [exact Hr|]. simpl. lia.
  - by rewrite (sort_entries_perm (e :: _heap q)).
Qed.

Lemma Forall_sort {P : heap_entry -> Prop} h : Forall P h -> Forall P (sort_by entry_le h).
Proof. by rewrite sort_by_perm. Qed.

Lemma push_back_law q x :
  pq_ok q -> pq_ok (_push q x) /\ priority_iter (_push q x) = place_back higher_priority x (priority_iter q).
Proof.
  intros Hq. pose proof Hq as [_ Hk _ Hr Hs]. unfold _push.
  match goal with |- context [heappush _ _ ?e] => destruct (push_ok q e (_counter q + 1) (_prepend_counter q)) as [Hok Hsort] end;
    [done|done| |simpl; lia..|].
  - eapply Forall_impl; [exact Hr|]. simpl. lia.
  - split; [done|]. unfold priority_iter. simpl. rewrite Hsort. apply insert_back; [done|by apply Forall_sort|].
    apply Forall_sort. eapply Forall_impl; [exact Hr|]. simpl. lia.
Qed.

Lemma push_front_law q x :
  pq_ok q ->
  pq_ok (_push_front q x) /\ priority_iter (_push_front q x) = place_front higher_priority x (priority_iter q).
Proof.
  intros Hq. pose proof Hq as [_ Hk _ Hr Hs]. unfold _push_front.
  match goal with |- context [heappush _ _ ?e] => destruct (push_ok q e (_counter q) (_prepend_counter q - 1)) as [Hok Hsort] end;
    [done|done| |simpl; lia..|].
  - eapply Forall_impl; [exact Hr|]. simpl. lia.
  - split; [done|]. unfold priority_iter. simpl. rewrite Hsort. apply insert_front; [done|by apply Forall_sort|].
    apply Forall_sort. eapply Forall_impl; [exact Hr|]. simpl. lia.
Qed.

(** The first entry of the heap is the first of the iteration. *)
Lemma sort_pop h x h' :
  NoDup (insertion_counter <$> h) -> h ≡ₚ x :: h' -> (forall y, y ∈ h -> entry_lt y x = false) ->
  sort_by entry_le h = x :: sort_by entry_le h'.
Proof.
  intros Hnd Hp Hmin. apply (sorted_entries_unique h); [done|by rewrite sort_by_perm|by rewrite sort_by_perm|..].
  - apply sort_entries_sorted.
  - constructor; [apply sort_entries_sorted|]. rewrite sort_by_perm, Forall_forall. intros y Hy.
    apply entry_lt_false, Hmin. rewrite Hp. by right.
Qed.

Lemma pq_restrict q h :
  pq_ok q -> is_heap entry_lt h -> h ⊆+ _heap q ->
  pq_ok {| _heap := h; _counter := _counter q; _prepend_counter := _prepend_counter q |}.
Proof.
  intros [Hh Hk Hu Hr Hs] Hh' Hsub.
  split; simpl; [done| | | |done].
  - rewrite Forall_forall in *. intros y Hy. apply Hk. by eapply elem_of_submseteq.
  - eapply NoDup_contained; [|exact Hu]. by apply fmap_submseteq.
  - rewrite Forall_forall in *. intros y Hy. apply Hr. by eapply elem_of_submseteq.
Qed.

Lemma priority_pop_law q :
  pq_ok q ->
  match priority_iter q with
  | [] => priority_pop_request q = Err IndexError
  | x :: l => exists q', priority_pop_request q = Ok (x, q') /\ pq_ok q' /\ priority_iter q' = l
  end.
Proof.
  intros Hq. unfold priority_pop_request. case_bool_decide as Hnil.
  { unfold priority_iter. by rewrite Hnil. }
  destruct (heappop_spec entry_lt (_heap q) (pq_heap _ Hq) Hnil) as (e & h & Hrun & Hp & Hh & Hmin & _).
  unfold priority_iter. rewrite (sort_pop _ e h (pq_unique _ Hq) Hp Hmin), Hrun. simpl.
  eexists. split; [done|]. split; [|done]. apply pq_restrict; [done|done|].
  rewrite Hp. by apply submseteq_cons.
Qed.

Lemma priority_peek_law q :
  pq_ok q ->
  priority_peek_request q = match priority_iter q with [] => Err IndexError | x :: _ => Ok x end.
Proof.
  intros Hq. unfold priority_peek_request. destruct (_heap q) as [|e h] eqn:Eh.
  { unfold priority_iter. by rewrite Eh. }
  destruct (heappop_spec entry_lt (_heap q) (pq_heap _ Hq)) as (x & h' & _ & Hp & _ & Hmin & Hhd); [by rewrite Eh|].
  rewrite Eh in Hhd. injection Hhd as <-.
  unfold priority_iter. by rewrite (sort_pop _ e h' (pq_unique _ Hq) Hp Hmin).
Qed.

Lemma sorted_filter (P : heap_entry -> Prop) `{!forall x, Decision (P x)} l :
  sorted_entries l -> sorted_entries (filter P l).
Proof.
  induction 1 as [|x l Hs IH Hx]; [constructor|]. rewrite filter_cons. case_decide; [|done].
  constructor; [done|]. by apply Forall_filter_sub.
Qed.

Lemma filter_items (P : RequestQueueItem -> Prop) `{!forall x, Decision (P x)} (l : list heap_entry) :
  filter P (entry_item <$> l) = entry_item <$> filter (fun e => P (entry_item e)) l.
Proof.
  induction l as [|e l IH]; [done|]. rewrite fmap_cons, !filter_cons. case_decide; [|done].
  rewrite fmap_cons. by f_equal.
Qed.

Lemma priority_remove_law q ids :
  pq_ok q ->
  pq_ok (priority_remove_by_ids q ids)
  /\ priority_iter (priority_remove_by_ids q ids) = filter (fun x => item_id x ∉ ids) (priority_iter q).
Proof.
  intros Hq. unfold priority_remove_by_ids.
  set (f := filter _ (_heap q)). destruct (heapify_spec entry_lt f) as [Hh Hp].
  assert (Hsub : f ⊆+ _heap q) by apply sublist_submseteq, sublist_filter.
  split; [apply pq_restrict; [done|done|by rewrite Hp]|].
  unfold priority_iter. simpl.
  transitivity (entry_item <$> filter (fun e => item_id (entry_item e) ∉ ids) (sort_by entry_le (_heap q))).
  - f_equal. apply (sorted_entries_unique f).
    + eapply NoDup_contained; [by apply fmap_submseteq|apply Hq].
    + by rewrite sort_by_perm.
    + unfold f. by rewrite sort_by_perm.
    + apply sort_entries_sorted.
    + apply sorted_filter, sort_entries_sorted.
  - symmetry. apply filter_items.
Qed.

Lemma higher_priority_false x y : higher_priority y x = false <-> (_get_priority y <= _get_priority x)%Qc.
Proof.
  unfold higher_priority. rewrite bool_decide_eq_false. split; [apply Qcnot_lt_le|]. intros H H'.
  by apply Qclt_not_le in H'.
Qed.

Lemma priority_order_law q : pq_ok q -> served_in_order higher_priority (priority_iter q).
Proof.
  intros Hq. unfold served_in_order, priority_iter.
  assert (Hk : Forall keyed (sort_by entry_le (_heap q))) by apply Forall_sort, Hq.
  pose proof (sort_entries_sorted (_heap q)) as Hs.
  induction Hs as [|e l Hs IH He]; [constructor|]. apply Forall_cons in Hk as [Hke Hk].
  rewrite fmap_cons. constructor; [by apply IH|]. apply Forall_fmap, Forall_forall. intros y Hy. simpl.
  rewrite Forall_forall in He, Hk. apply higher_priority_false, Qcnot_lt_le. intros Hlt.
  apply Qcopp_lt in Hlt. rewrite <- Hke, <- (Hk y Hy) in Hlt.
  destruct (proj1 (entry_le_spec _ _) (He y Hy)) as [H|[H _]]; qc_absurd.
Qed.

Lemma priority_init_ok : pq_ok PriorityWaitingQueue_init.
Proof. split; [|by constructor..|done]. intros p c x y _ _ H. simpl in H; by rewrite lookup_nil in H. Qed.

#[export, refine] Instance priority_laws : WaitingQueueLaws PriorityWaitingQueue higher_priority :=
  {| queue_ok := pq_ok |}.
Proof.
  - apply push_back_law.
  - done.
  - apply push_front_law.
  - intros q l. apply fold_left_rev_right.
  - apply priority_pop_law.
  - apply priority_peek_law.
  - apply priority_remove_law.
  - apply priority_order_law.
  - intros q. simpl. unfold priority_iter. by rewrite length_fmap, length_sort_by.
  - intros q. simpl. unfold priority_iter. by rewrite length_fmap, length_sort_by.
Defined.

(** ** Histories

    A sequence of calls and what each call shows. *)

Inductive queue_op :=
  | Add (x : RequestQueueItem)
  | AddAll (l : list RequestQueueItem)
  | Prepend (x : RequestQueueItem)
  | PrependAll (l : list RequestQueueItem)
  | Pop
  | Peek
  | RemoveByIds (ids : gset Z)
  | Iterate.

Inductive queue_obs :=
  | Nothing
  | Item (r : result RequestQueueItem)
  | Items (l : list RequestQueueItem) (length : Z) (nonempty : bool).

Definition queue_step {Q} `{WaitingQueue Q} (q : Q) (op : queue_op) : Q * queue_obs :=
  match op with
  | Add x => (add_request q x, Nothing)
  | AddAll l => (add_requests q l, Nothing)
  | Prepend x => (prepend_request q x, Nothing)
  | PrependAll l => (prepend_requests q l, Nothing)
  | Pop => match pop_request q with Ok (x, q') => (q', Item (Ok x)) | Err e => (q, Item (Err e)) end
  | Peek => (q, Item (peek_request q))
  | RemoveByIds ids => (remove_by_ids q ids, Nothing)
  | Iterate => (q, Items (queue_iter q) (queue_len q) (queue_bool q))
  end.

(** The same calls on an ordered list. *)
Definition list_step (higher : RequestQueueItem -> RequestQueueItem -> bool)
    (l : list RequestQueueItem) (op : queue_op) : list RequestQueueItem * queue_obs :=
  match op with
  | Add x => (place_back higher x l, Nothing)
  | AddAll xs => (fold_left (fun l x => place_back higher x l) xs l, Nothing)
  | Prepend x => (place_front higher x l, Nothing)
  | PrependAll xs => (foldr (place_front higher) l xs, Nothing)
  | Pop => match l with [] => (l, Item (Err IndexError)) | x :: l' => (l', Item (Ok x)) end
  | Peek => (l, Item (match l with [] => Err IndexError | x :: _ => Ok x end))
  | RemoveByIds ids => (filter (fun x => item_id x ∉ ids) l, Nothing)
  | Iterate => (l, Items l (len l) (0 <? len l))
  end.

Fixpoint history {S} (step : S -> queue_op -> S * queue_obs) (s : S) (ops : list queue_op) : list queue_obs :=
  match ops with
  | [] => []
  | op :: ops' => let '(s', o) := step s op in o :: history step s' ops'
  end.

Section refinement.
Context {Q : Type} `{Hlaws : WaitingQueueLaws Q higher}.

Lemma add_all_law xs : forall q : Q, queue_ok q ->
  queue_ok (fold_left add_request xs q)
  /\ queue_iter (fold_left add_request xs q) = fold_left (fun l x => place_back higher x l) xs (queue_iter q).
Proof using Hlaws.
  induction xs as [|x xs IH]; intros q Hq; simpl; [done|].
  destruct (add_request_law q x Hq) as [Hok Hit]. rewrite <- Hit. by apply IH.
Qed.

Lemma prepend_all_law xs (q : Q) : queue_ok q ->
  queue_ok (foldr (fun x q => prepend_request q x) q xs)
  /\ queue_iter (foldr (fun x q => prepend_request q x) q xs) = foldr (place_front higher) (queue_iter q) xs.
Proof using Hlaws.
  intros Hq. induction xs as [|x xs [Hok Hit]]; simpl; [done|].
  rewrite <- Hit. by apply prepend_request_law.
Qed.

Lemma queue_step_refines (q : Q) op :
  queue_ok q ->
  let '(q', o) := queue_step q op in queue_ok q' /\ list_step higher (queue_iter q) op = (queue_iter q', o).
Proof using Hlaws.
  intros Hq. destruct op as [x|l|x|l| | |ids|]; simpl.
  - destruct (add_request_law q x Hq) as [? ->]. done.
  - rewrite add_requests_law. destruct (add_all_law l q Hq) as [? ->]. done.
  - destruct (prepend_request_law q x Hq) as [? ->]. done.
  - rewrite prepend_requests_law. destruct (prepend_all_law l q Hq) as [? ->]. done.
  - pose proof (pop_request_law q Hq) as Hp. destruct (queue_iter q) as [|x l] eqn:E.
    + rewrite Hp. by rewrite E.
    + destruct Hp as (q' & -> & Hok & <-). done.
  - by rewrite peek_request_law.
  - destruct (remove_by_ids_law q ids Hq) as [? ->]. done.
  - by rewrite queue_len_law, queue_bool_law.
Qed.

Lemma history_refines ops : forall q : Q, queue_ok q ->
  history queue_step q ops = history (list_step higher) (queue_iter q) ops.
Proof using Hlaws.
  induction ops as [|op ops IH]; intros q Hq; [done|]. cbn [history].
  pose proof (queue_step_refines q op Hq) as Hs. destruct (queue_step q op) as [q' o].
  destruct Hs as [Hok ->]. f_equal. by apply IH.
Qed.

End refinement.

(** The answers of the queue a policy selects. *)
Definition created_history (policy : WaitingQueuePolicy) (ops : list queue_op) : list queue_obs :=
  match create_waiting_queue policy with
  | inl q => history queue_step q ops
  | inr q => history queue_step q ops
  end.

Definition policy_order (policy : WaitingQueuePolicy) : RequestQueueItem -> RequestQueueItem -> bool :=
  match policy with FCFS => no_higher | PRIORITY => higher_priority end.

(** C19. Whatever is called on a waiting queue, it answers like one list ordered
    by its policy: a new request goes behind everything not of lower priority,
    a returned one in front of everything not of higher priority (several keep
    their order), requests leave from the front, removal keeps the order of the
    rest, and popping or peeking an empty queue raises.  The heap and its two
    counters are invisible. *)
Theorem waiting_queue_refines policy ops :
  created_history policy ops = history (list_step (policy_order policy)) [] ops.
Proof.
  destruct policy; unfold created_history; simpl.
  - by rewrite (history_refines (higher := no_higher)).
  - by rewrite (history_refines (higher := higher_priority)) by apply priority_init_ok.
Qed.

(** ** Order of service *)

(** The states a priority queue gets into. *)
Inductive priority_reachable : PriorityWaitingQueue -> Prop :=
  | pr_init : priority_reachable PriorityWaitingQueue_init
  | pr_step q op : priority_reachable q -> priority_reachable (queue_step q op).1.

Lemma priority_reachable_ok q : priority_reachable q -> pq_ok q.
Proof.
  induction 1 as [|q op Hr Hok]; [apply priority_init_ok|].
  pose proof (queue_step_refines (higher := higher_priority) q op Hok) as Hstep.
  destruct (queue_step q op) as [q' o]. apply Hstep.
Qed.

(** The request a priority queue hands out next is one of highest priority
    among all that wait, and the others keep their order; no two entries of the
    heap ever share a counter, so requests themselves are never compared. *)
Theorem priority_pop_serves_highest q x q' :
  priority_reachable q -> priority_pop_request q = Ok (x, q') ->
  priority_iter q = x :: priority_iter q'
  /\ Forall (fun y => (_get_priority y <= _get_priority x)%Qc) (priority_iter q)
  /\ NoDup (insertion_counter <$> _heap q) /\ priority_reachable q'.
Proof.
  intros Hr Hpop. pose proof (priority_reachable_ok q Hr) as Hok. pose proof (priority_order_law q Hok) as Hs.
  pose proof (priority_pop_law q Hok) as Hlaw. destruct (priority_iter q) as [|y l] eqn:E; [by rewrite Hlaw in Hpop|].
  destruct Hlaw as (q1 & Hrun & _ & Hit). rewrite Hpop in Hrun. injection Hrun as <- <-.
  split; [by rewrite Hit|]. split; [|split].
  - apply StronglySorted_inv in Hs as [_ Hs]. constructor; [apply Qcle_refl|].
    eapply Forall_impl; [exact Hs|]. intros z. apply higher_priority_false.
  - apply Hok.
  - pose proof (pr_step q Pop Hr) as Hstep. simpl in Hstep. by rewrite Hpop in Hstep.
Qed.

Definition wit_item (i : Z) (p : Qc) : RequestQueueItem :=
  {| item_id := i;
     item_request := Some {| priority := p; input_token_ids := []; py_scheduling_params := None;
       lora_task_id := None; disagg_request_id := None; beam_width := 1; num_return_sequences := None |};
     child_req_ids := None; is_canceled_request := false; item_query := None |}.

Definition wit_priority_queue : PriorityWaitingQueue :=
  _push_front (priority_add_requests PriorityWaitingQueue_init
    [wit_item 1 0; wit_item 2 1; wit_item 3 1]) (wit_item 4 1).

Example wit_priority_iter : item_id <$> priority_iter wit_priority_queue = [4; 2; 3; 1].
Proof. vm_compute. reflexivity. Qed.

Lemma priority_pop_serves_highest_witness :
  priority_pop_request wit_priority_queue = Ok (wit_item 4 1,
    match priority_pop_request wit_priority_queue with Ok (_, q) => q | Err _ => wit_priority_queue end)
  /\ Forall (fun y => (_get_priority y <= 1)%Qc) (priority_iter wit_priority_queue).
Proof.
  assert (Hpop : priority_pop_request wit_priority_queue = Ok (wit_item 4 1,
    match priority_pop_request wit_priority_queue with Ok (_, q) => q | Err _ => wit_priority_queue end))
    by (vm_compute; reflexivity).
  split; [exact Hpop|].
  destruct (priority_pop_serves_highest wit_priority_queue (wit_item 4 1) _
    (pr_step _ (Prepend (wit_item 4 1)) (pr_step _ (AddAll [wit_item 1 0; wit_item 2 1; wit_item 3 1]) pr_init)) Hpop)
    as (_ & H & _).
  exact H.
Defined.
