(* ===== verification/Admission.v ===== *)
(** * Admission of waiting requests

    [_torch/pyexecutor/request_utils.py] (how many requests to take from the
    waiting queue, and which) and the parts of
    [_torch/pyexecutor/py_executor.py] that feed and drain it: the special items
    of the request queue and the capacity computation of
    [_pop_from_waiting_queue].  The theorems are proved against the waiting
    queue interface, so they hold for both policies. *)

From stdpp Require Import prelude gmap sorting.
From S2P Require Import Prelude PyFloat RequestQueue WaitingQueue CpConfig.
Local Open Scope Z_scope.

(** ** Capacity of a rank *)

Definition derive_attention_dp_per_rank_request_cap (base_cap : Z) (max_num_tokens : option Z)
    (max_total_draft_tokens : Z) : Z :=
  match max_num_tokens with
  | None => base_cap
  | Some max_num_tokens =>
      let step_tokens_per_req := 1 + Z.max max_total_draft_tokens 0 in
      Z.min base_cap (max_num_tokens / step_tokens_per_req)
  end.

(** ** Taking requests from the waiting queue *)

(** [getattr(req_item.request, "py_scheduling_params", None)] *)
Definition scheduling_params (item : RequestQueueItem) : option SchedulingParams :=
  r ← item_request item; py_scheduling_params r.

Definition can_process_attention_dp_request (item : RequestQueueItem)
    (all_ranks_num_active_requests : list Z) (max_num_active_requests : Z) : result (bool * list Z) :=
  match scheduling_params item with
  | None => Ok (true, all_ranks_num_active_requests)
  | Some sp =>
      match attention_dp_rank sp with
      | None => Ok (true, all_ranks_num_active_requests)
      | Some target_dp_rank =>
          if attention_dp_relax sp then Ok (true, all_ranks_num_active_requests)
          else
            n ← py_get all_ranks_num_active_requests target_dp_rank;
            if n <? max_num_active_requests then
              ranks ← py_set all_ranks_num_active_requests target_dp_rank (n + 1);
              Ok (true, ranks)
            else Ok (false, all_ranks_num_active_requests)
      end
  end.

(** [len(req_item.child_req_ids) if req_item.child_req_ids else 0] *)
Definition num_children (item : RequestQueueItem) : Z := len (default [] (child_req_ids item)).

Section take.
Context {Q : Type} `{WaitingQueue Q}.
Context (max_req_count : Z) (enable_attention_dp : bool) (max_num_active_requests : Z).

(** The [while] loop; each round pops a request, so the length of the queue
    bounds the rounds. *)
Fixpoint take_loop (fuel : nat) (waiting_queue : Q) (req_count : Z)
    (items pending_requests : list RequestQueueItem) (ranks : list Z)
    : result (list RequestQueueItem * list RequestQueueItem * Q) :=
  match fuel with
  | O => Err OutOfFuel
  | S fuel' =>
      if (req_count <? max_req_count) && queue_bool waiting_queue then
        req_item ← peek_request waiting_queue;
        let n := num_children req_item in
        if max_req_count <? req_count + 1 + n then Ok (items, pending_requests, waiting_queue)
        else
          '(req_item, waiting_queue) ← pop_request waiting_queue;
          '(can_process, ranks) ←
            (if enable_attention_dp
             then can_process_attention_dp_request req_item ranks max_num_active_requests
             else Ok (true, ranks));
          if can_process : bool
          then take_loop fuel' waiting_queue (req_count + (1 + n)) (items ++ [req_item]) pending_requests ranks
          else take_loop fuel' waiting_queue req_count items (pending_requests ++ [req_item]) ranks
      else Ok (items, pending_requests, waiting_queue)
  end.

(** [.copy()] of a missing list raises. *)
Definition scheduling_ranks (all_ranks_num_active_requests : option (list Z)) : result (list Z) :=
  if enable_attention_dp then
    match all_ranks_num_active_requests with Some l => Ok l | None => Err AttributeError end
  else Ok [].

Definition get_from_waiting_queue (waiting_queue : Q) (all_ranks_num_active_requests : option (list Z))
    : result (list RequestQueueItem * Q) :=
  if max_req_count <=? 0 then Ok ([], waiting_queue)
  else
    ranks ← scheduling_ranks all_ranks_num_active_requests;
    '(items, pending_requests, waiting_queue) ←
      take_loop (S (Z.to_nat (queue_len waiting_queue))) waiting_queue 0 [] [] ranks;
    Ok (items, prepend_requests waiting_queue pending_requests).

End take.

(** ** The executor's side *)

(** The fields of [PyExecutor] these steps only read. *)
Record ExecutorConfig := {
  rank : Z;
  tp_rank : Z;
  tp_size : Z;
  has_cp_helix : bool;
  enable_attention_dp : bool;
  max_num_active_requests : Z;
  is_benchmark_disagg : bool;
  _benchmark_fill_phase_active : bool;
  is_warmup : bool;
  executor_iter_perf_stats : bool;
  has_kv_cache_transceiver : bool;
  cp_config : CpConfig;
  cp_rank : Z;
  cp_size : Z;
  should_exclude_last_generation_logits : bool;
}.

(** Those they write, with the request queue. *)
Record PyExecutor := {
  config :> ExecutorConfig;
  executor_request_queue : ExecutorRequestQueue (Time := float);
  _fill_admit_cap : Z;
  is_shutdown : bool;
  canceled_req_ids : list Z;
  control_requests : list RequestQueueItem;
  request_accumulated : list RequestQueueItem;
}.

Definition set_special (self : PyExecutor) (shutdown : bool) (canceled : list Z)
    (control accumulated : list RequestQueueItem) : PyExecutor :=
  {| config := config self; executor_request_queue := executor_request_queue self;
     _fill_admit_cap := _fill_admit_cap self; is_shutdown := shutdown; canceled_req_ids := canceled;
     control_requests := control; request_accumulated := accumulated |}.

Definition set_fill_admit_cap (self : PyExecutor) (cap : Z) : PyExecutor :=
  {| config := config self; executor_request_queue := executor_request_queue self;
     _fill_admit_cap := cap; is_shutdown := is_shutdown self; canceled_req_ids := canceled_req_ids self;
     control_requests := control_requests self; request_accumulated := request_accumulated self |}.

Definition set_executor_queue (self : PyExecutor) (queue : ExecutorRequestQueue) : PyExecutor :=
  {| config := config self; executor_request_queue := queue;
     _fill_admit_cap := _fill_admit_cap self; is_shutdown := is_shutdown self;
     canceled_req_ids := canceled_req_ids self;
     control_requests := control_requests self; request_accumulated := request_accumulated self |}.

(** The loop over the new items; leaving it keeps what was accepted so far. *)
Fixpoint _handle_special_queue_items (self : PyExecutor) (new_requests : list RequestQueueItem)
    : list RequestQueueItem * PyExecutor :=
  match new_requests with
  | [] => ([], self)
  | req_item :: rest =>
      if is_shutdown_request req_item then
        ([], set_special self true (canceled_req_ids self) (control_requests self) (request_accumulated self))
      else if is_canceled_request req_item then
        _handle_special_queue_items
          (set_special self (is_shutdown self) (canceled_req_ids self ++ [item_id req_item])
                       (control_requests self) (request_accumulated self)) rest
      else if is_control_request req_item then
        ([], set_special self (is_shutdown self) (canceled_req_ids self)
                         (control_requests self ++ [req_item])
                         (if rank self =? 0 then request_accumulated self ++ rest
                          else request_accumulated self))
      else
        let '(accepted, self) := _handle_special_queue_items self rest in
        (req_item :: accepted, self)
  end.

(** What rank 0 contributes: the items held back during a control request, then
    the fetched ones.  It may wait for an item only if the executor is idle
    (without a limit or for twenty minutes) and nothing was held back.  [first]
    and [waits] are what the fetch finds when it waits. *)
Definition gather_new_requests (self : PyExecutor) (idle : bool) (first : wait) (waits : list wait)
    : list RequestQueueItem * PyExecutor :=
  if rank self =? 0 then
    let may_wait := idle && bool_decide (request_accumulated self = []) in
    let '(fetched, queue) := get_from_request_queue (executor_request_queue self) may_wait first waits in
    (request_accumulated self ++ fetched,
     set_executor_queue
       (set_special self (is_shutdown self) (canceled_req_ids self) (control_requests self) []) queue)
  else ([], self).

Section executor.
Context {Q : Type} `{WaitingQueue Q}.

(** [broadcast] delivers rank 0's items, with their Python attributes, to every
    rank. *)
Definition _fetch_and_enqueue_requests (broadcast : list RequestQueueItem -> list RequestQueueItem)
    (self : PyExecutor) (waiting_queue : Q) (total_num_active_requests : Z)
    (first : wait) (waits : list wait) : PyExecutor * Q :=
  if negb (bool_decide (control_requests self = [])) then (self, waiting_queue)
  else
    let idle := (total_num_active_requests =? 0) && (queue_len waiting_queue =? 0) in
    let '(new_requests, self) := gather_new_requests self idle first waits in
    let '(new_requests, self) := _handle_special_queue_items self (broadcast new_requests) in
    (self, add_requests waiting_queue new_requests).

(** The slow-start ramp of a disaggregated benchmark. *)
Definition throttle (self : PyExecutor) (total_max max_new_requests : Z) : Z * PyExecutor :=
  if is_benchmark_disagg self && _benchmark_fill_phase_active self && negb (is_warmup self) then
    let cap := if _fill_admit_cap self =? 0 then tp_size self
               else Z.min (_fill_admit_cap self * 2) total_max in
    (Z.min max_new_requests cap, set_fill_admit_cap self cap)
  else (max_new_requests, self).

Definition total_max (self : PyExecutor) : Z :=
  if enable_attention_dp self then tp_size self * max_num_active_requests self
  else max_num_active_requests self.

Definition _pop_from_waiting_queue (self : PyExecutor) (waiting_queue : Q)
    (total_num_active_requests : Z) (all_ranks_num_active_requests : option (list Z))
    : result (list RequestQueueItem * Q * PyExecutor) :=
  let '(max_new_requests, self) :=
    throttle self (total_max self) (total_max self - total_num_active_requests) in
  '(items, waiting_queue) ←
    get_from_waiting_queue max_new_requests (enable_attention_dp self) (max_num_active_requests self)
                           waiting_queue all_ranks_num_active_requests;
  Ok (items, waiting_queue, self).

End executor.

(** ** What is taken

    [strict_target] is the only rank a request may run on; [weight] is how many
    active requests it stands for. *)

Definition strict_target (item : RequestQueueItem) : option Z :=
  sp ← scheduling_params item; if attention_dp_relax sp then None else attention_dp_rank sp.

Definition weight (item : RequestQueueItem) : Z := 1 + num_children item.

Definition targets (tp : nat) (k : nat) (item : RequestQueueItem) : bool :=
  match strict_target item with
  | Some t => bool_decide (py_pos tp t = Some k)
  | None => false
  end.

(** How many requests of [l] must run on rank [k]. *)
Definition strict_count (tp k : nat) (l : list RequestQueueItem) : Z :=
  zsum (fun x => if targets tp k x then 1 else 0) l.

Lemma strict_count_nonneg tp k l : 0 <= strict_count tp k l.
Proof. apply zsum_nonneg. intros x _. by case_match. Qed.

Lemma weight_pos x : 1 <= weight x.
Proof. unfold weight, num_children. lia. Qed.

Lemma can_process_strict item ranks cap :
  can_process_attention_dp_request item ranks cap =
  match strict_target item with
  | None => Ok (true, ranks)
  | Some t =>
      n ← py_get ranks t;
      if n <? cap then ranks' ← py_set ranks t (n + 1); Ok (true, ranks') else Ok (false, ranks)
  end.
Proof.
  unfold can_process_attention_dp_request, strict_target.
  destruct (scheduling_params item) as [sp|]; simpl; [|done].
  destruct (attention_dp_rank sp), (attention_dp_relax sp); done.
Qed.

Section scan.
Context (max_req_count : Z) (adp : bool) (cap : Z).

(** The loop on the order of iteration. *)
Fixpoint scan (l : list RequestQueueItem) (req_count : Z) (ranks : list Z)
    : result (list RequestQueueItem * list RequestQueueItem * list RequestQueueItem) :=
  match l with
  | [] => Ok ([], [], [])
  | x :: l' =>
      if (max_req_count <=? req_count) || (max_req_count <? req_count + weight x) then Ok ([], [], l)
      else
        '(can_process, ranks) ←
          (if adp then can_process_attention_dp_request x ranks cap else Ok (true, ranks));
        if can_process : bool then
          '(i, p, r) ← scan l' (req_count + weight x) ranks; Ok (x :: i, p, r)
        else
          '(i, p, r) ← scan l' req_count ranks; Ok (i, x :: p, r)
  end.

Section loop.
Context {Q : Type} `{Hlaws : WaitingQueueLaws Q higher}.

Lemma take_loop_scan fuel : forall (q : Q) c items pending ranks,
  queue_ok q -> (length (queue_iter q) < fuel)%nat ->
  match scan (queue_iter q) c ranks with
  | Ok (i, p, r) =>
      exists q', take_loop max_req_count adp cap fuel q c items pending ranks = Ok (items ++ i, pending ++ p, q')
        /\ queue_ok q' /\ queue_iter q' = r
  | Err e => take_loop max_req_count adp cap fuel q c items pending ranks = Err e
  end.
Proof using Type.
  induction fuel as [|fuel IH]; intros q c items pending ranks Hq Hf; [lia|].
  cbn [take_loop]. rewrite queue_bool_law, (peek_request_law q Hq).
  pose proof (pop_request_law q Hq) as Hpop. destruct (queue_iter q) as [|x l] eqn:E.
  { simpl. rewrite andb_false_r. exists q. by rewrite !app_nil_r. }
  destruct Hpop as (q' & Hpop & Hok & Hit). cbn [scan length].
  rewrite (proj2 (Z.ltb_lt 0 _)), andb_true_r by lia.
  destruct (Z.leb_spec max_req_count c) as [Hle|Hgt].
  { rewrite (proj2 (Z.ltb_ge _ _) Hle). simpl. exists q. by rewrite !app_nil_r. }
  rewrite (proj2 (Z.ltb_lt _ _) Hgt). cbn [orb mbind result_bind].
  replace (c + 1 + num_children x) with (c + weight x) by (unfold weight; lia).
  change (1 + num_children x) with (weight x).
  destruct (max_req_count <? c + weight x) eqn:Efit.
  { exists q. by rewrite !app_nil_r. }
  rewrite Hpop. cbn [mbind result_bind].
  destruct (if adp then _ else _) as [[can ranks']|e]; [|done]. cbn [mbind result_bind].
  simpl in Hf. rewrite <- Hit. destruct can.
  - specialize (IH q' (c + weight x) (items ++ [x]) pending ranks' Hok).
    destruct (scan (queue_iter q') (c + weight x) ranks') as [[[i p] r]|e].
    + destruct IH as (q2 & -> & ? & ?); [rewrite Hit; lia|]. exists q2. by rewrite <- app_assoc.
    + apply IH. rewrite Hit. lia.
  - specialize (IH q' c items (pending ++ [x]) ranks' Hok).
    destruct (scan (queue_iter q') c ranks') as [[[i p] r]|e].
    + destruct IH as (q2 & -> & ? & ?); [rewrite Hit; lia|]. exists q2. by rewrite <- app_assoc.
    + apply IH. rewrite Hit. lia.
Qed.

End loop.

(** What a scan from [req_count] and [ranks] achieves. *)
Record scanned (l : list RequestQueueItem) (c : Z) (ranks : list Z)
    (i p r : list RequestQueueItem) : Prop := {
  sc_split : exists taken, l = taken ++ r /\ taken ≡ₚ i ++ p /\ i `sublist_of` taken /\ p `sublist_of` taken;
  sc_budget : c + zsum weight i <= Z.max c max_req_count;
  sc_stop : match r with [] => True | x :: _ => max_req_count < c + zsum weight i + weight x end;
  sc_pending : adp = false -> p = [];
  sc_ranks k n : adp = true -> ranks !! k = Some n ->
    n + strict_count (length ranks) k i <= Z.max n cap;
  sc_full x : x ∈ p -> exists t k n, strict_target x = Some t /\ py_pos (length ranks) t = Some k
    /\ ranks !! k = Some n /\ cap <= n + strict_count (length ranks) k i;
}.

(** One more request at the front. *)
Lemma strict_count_cons tp k x l :
  strict_count tp k (x :: l) = (if targets tp k x then 1 else 0) + strict_count tp k l.
Proof. apply zsum_cons. Qed.

Lemma scanned_stop x l c ranks :
  (max_req_count <=? c) || (max_req_count <? c + weight x) = true -> scanned (x :: l) c ranks [] [] (x :: l).
Proof.
  intros Hstop%orb_prop. pose proof (weight_pos x). split.
  - by exists [].
  - rewrite zsum_nil. lia.
  - rewrite zsum_nil. destruct Hstop as [?%Z.leb_le|?%Z.ltb_lt]; lia.
  - done.
  - intros k n _ _. unfold strict_count. rewrite zsum_nil. lia.
  - intros y []%elem_of_nil.
Qed.

(** [x] is taken, and its rank (if it insists on one) gets busier. *)
Lemma scanned_take x l c ranks ranks' i p r :
  c + weight x <= max_req_count ->
  (forall t k n, adp = true -> strict_target x = Some t -> py_pos (length ranks) t = Some k -> ranks !! k = Some n -> n < cap) ->
  length ranks' = length ranks ->
  (forall k n, ranks !! k = Some n ->
     ranks' !! k = Some (n + if adp && targets (length ranks) k x then 1 else 0)) ->
  (adp = false -> p = []) ->
  scanned l (c + weight x) ranks' i p r -> scanned (x :: l) c ranks (x :: i) p r.
Proof.
  intros Hfit Hcap Hlen Hr Hadp [(taken & -> & Hperm & Hi & Hp) Hb Hs _ Hk Hf].
  pose proof (weight_pos x). split.
  - exists (x :: taken). split; [done|]. split; [by rewrite Hperm|]. split; by constructor.
  - rewrite zsum_cons. lia.
  - destruct r; [done|]. rewrite zsum_cons. lia.
  - done.
  - intros k n Ha Hn. rewrite strict_count_cons. specialize (Hk k _ Ha (Hr k n Hn)).
    rewrite Hlen, Ha in Hk. simpl in Hk. destruct (targets (length ranks) k x) eqn:Et; [|lia].
    unfold targets in Et. destruct (strict_target x) as [t|] eqn:Es; [|done]. apply bool_decide_eq_true in Et.
    specialize (Hcap t k n Ha eq_refl Et Hn). lia.
  - intros y Hy. destruct (Hf y Hy) as (t & k & n' & Ht & Hpos & Hn' & Hge). rewrite Hlen in Hpos, Hge.
    destruct (lookup_lt_is_Some_2 ranks k) as [n Hn]; [by eapply py_pos_lt|].
    rewrite (Hr k n Hn) in Hn'. injection Hn' as <-.
    exists t, k, n. split_and!; try done. rewrite strict_count_cons.
    destruct adp; [simpl in Hge; lia|]. rewrite Hadp in Hy by done. by apply elem_of_nil in Hy.
Qed.

Lemma scanned_hold x l c ranks i p r t k n :
  adp = true -> strict_target x = Some t -> py_pos (length ranks) t = Some k -> ranks !! k = Some n -> cap <= n ->
  scanned l c ranks i p r -> scanned (x :: l) c ranks i (x :: p) r.
Proof.
  intros Ha Ht Hk Hn Hfull [(taken & -> & Hperm & Hi & Hp) Hb Hs _ Hr Hf]. split; try done.
  - exists (x :: taken). split; [done|]. split; [rewrite Hperm; apply Permutation_middle|].
    split; by constructor.
  - by rewrite Ha.
  - intros y [->|Hy]%elem_of_cons; [|by apply Hf]. exists t, k, n. split_and!; try done.
    pose proof (strict_count_nonneg (length ranks) k i). lia.
Qed.

Lemma scan_spec l : forall c ranks i p r,
  scan l c ranks = Ok (i, p, r) -> scanned l c ranks i p r.
Proof.
  induction l as [|x l IH]; intros c ranks i p r Hrun; cbn [scan] in Hrun.
  { injection Hrun as <- <- <-. split; try done; rewrite ?zsum_nil; try lia.
    - by exists [].
    - intros k n _ _. unfold strict_count. rewrite zsum_nil. lia.
    - intros y []%elem_of_nil. }
  destruct ((max_req_count <=? c) || _) eqn:Estop.
  { injection Hrun as <- <- <-. by apply scanned_stop. }
  apply orb_false_elim in Estop as [_ Hfit%Z.ltb_ge].
  apply bind_Ok in Hrun as ([can ranks'] & Hcan & Hrun).
  assert (Hsame : forall k n, ranks !! k = Some n -> strict_target x = None \/ adp = false ->
    ranks !! k = Some (n + if adp && targets (length ranks) k x then 1 else 0)).
  { intros k n Hn Hno. rewrite Hn. f_equal. unfold targets. destruct Hno as [-> | ->]; rewrite ?andb_false_r; simpl; lia. }
  destruct (Bool.bool_dec adp true) as [Ha|Ha%not_true_is_false]; rewrite Ha in Hcan.
  2: { injection Hcan as <- <-. apply bind_Ok in Hrun as ([[i' p'] r'] & Hscan & Hrun).
       injection Hrun as <- <- <-. apply IH in Hscan.
       eapply scanned_take; [done|intros; congruence| | | |exact Hscan]; auto. apply Hscan. }
  rewrite can_process_strict in Hcan. destruct (strict_target x) as [t|] eqn:Et.
  2: { injection Hcan as <- <-. apply bind_Ok in Hrun as ([[i' p'] r'] & Hscan & Hrun).
       injection Hrun as <- <- <-. apply IH in Hscan.
       eapply scanned_take; [done|intros; congruence| | | |exact Hscan]; auto. apply Hscan. }
  apply bind_Ok in Hcan as (n & Hn & Hcan). apply py_get_Ok in Hn as (k & Hk & Hn).
  destruct (Z.ltb_spec n cap) as [Hlt|Hge].
  - apply bind_Ok in Hcan as (rs & Hset & Hcan). injection Hcan as <- <-.
    apply py_set_Ok in Hset as (k' & Hk' & ->). rewrite Hk in Hk'. injection Hk' as <-.
    apply bind_Ok in Hrun as ([[i' p'] r'] & Hscan & Hrun). injection Hrun as <- <- <-.
    apply IH in Hscan.
    eapply scanned_take; [done| |by rewrite length_insert| |by rewrite Ha|exact Hscan].
    + intros t' k' n' _ Ht' Hk' Hn'. simplify_eq. lia.
    + intros k' n' Hn'. unfold targets. rewrite Ha, Et. simpl. destruct (decide (k' = k)) as [->|Hne].
      * rewrite bool_decide_true by done. simplify_eq. apply list_lookup_insert_eq. by eapply lookup_lt_Some.
      * rewrite bool_decide_false by congruence. rewrite list_lookup_insert_ne by done. rewrite Hn'. f_equal. lia.
  - injection Hcan as <- <-. apply bind_Ok in Hrun as ([[i' p'] r'] & Hscan & Hrun). injection Hrun as <- <- <-.
    eapply scanned_hold; eauto.
Qed.

End scan.

(** The targets named by waiting requests exist. *)
Definition targets_exist (tp : nat) (l : list RequestQueueItem) : Prop :=
  forall x t, x ∈ l -> strict_target x = Some t -> is_Some (py_pos tp t).

Lemma can_process_total x ranks cap :
  (forall t, strict_target x = Some t -> is_Some (py_pos (length ranks) t)) ->
  exists can ranks', can_process_attention_dp_request x ranks cap = Ok (can, ranks')
    /\ length ranks' = length ranks.
Proof.
  intros Ht. rewrite can_process_strict. destruct (strict_target x) as [t|]; [|eauto].
  destruct (Ht t eq_refl) as [k Hk]. destruct (py_get_total ranks t k Hk) as (n & _ & ->).
  cbn [mbind result_bind]. unfold py_set. rewrite Hk.
  case_match; eexists _, _; (split; [done|]); by rewrite ?length_insert.
Qed.

Lemma scan_total max_req_count adp cap l : forall c ranks,
  (adp = true -> targets_exist (length ranks) l) ->
  exists i p r, scan max_req_count adp cap l c ranks = Ok (i, p, r).
Proof.
  induction l as [|x l IH]; intros c ranks Ht; cbn [scan]; [eauto|].
  destruct (_ || _); [eauto|].
  assert (exists can ranks', (if adp then can_process_attention_dp_request x ranks cap else Ok (true, ranks))
    = Ok (can, ranks') /\ length ranks' = length ranks) as (can & ranks' & -> & Hlen).
  { destruct adp; [|eauto]. apply can_process_total. intros t. by apply Ht, list_elem_of_here. }
  cbn [mbind result_bind].
  assert (Ht' : adp = true -> targets_exist (length ranks') l).
  { rewrite Hlen. intros Ha y t Hy. apply Ht; [done|]. by apply list_elem_of_further. }
  destruct can.
  - destruct (IH (c + weight x) ranks' Ht') as (i & p & r & ->). simpl. eauto.
  - destruct (IH c ranks' Ht') as (i & p & r & ->). simpl. eauto.
Qed.

(** Requests put back in front of what they were in front of before. *)
Lemma put_back higher pending rest :
  served_in_order higher (pending ++ rest) -> foldr (place_front higher) rest pending = pending ++ rest.
Proof.
  induction pending as [|x pending IH]; simpl; intros Hs; [done|].
  apply StronglySorted_inv in Hs as [Hs Hx]. rewrite IH by done.
  destruct (pending ++ rest) as [|y l]; [done|]. apply Forall_cons in Hx as [Hy _]. simpl. by rewrite Hy.
Qed.

Lemma served_in_order_sublist higher l1 l2 :
  l1 `sublist_of` l2 -> served_in_order higher l2 -> served_in_order higher l1.
Proof.
  induction 1 as [|x l1 l2 Hsub IH|x l1 l2 Hsub IH]; intros Hs; [done| |].
  - apply StronglySorted_inv in Hs as [Hs Hx]. constructor; [by apply IH|].
    rewrite Forall_forall in *. intros y Hy. apply Hx. eapply elem_of_submseteq; [done|by apply sublist_submseteq].
  - apply StronglySorted_inv in Hs as [Hs _]. by apply IH.
Qed.

(** What one call takes from a queue, and what it leaves. *)
Record admission (max_req_count : Z) (adp : bool) (cap : Z) (ranks : list Z)
    (before items after : list RequestQueueItem) : Prop := {
  ad_order : exists taken pending rest,
    before = taken ++ rest /\ after = pending ++ rest
    /\ taken ≡ₚ items ++ pending /\ items `sublist_of` taken /\ pending `sublist_of` taken
    /\ (adp = false -> pending = [])
    /\ (forall x, x ∈ pending -> exists t k n, strict_target x = Some t
          /\ py_pos (length ranks) t = Some k /\ ranks !! k = Some n
          /\ cap <= n + strict_count (length ranks) k items)
    /\ (0 < max_req_count ->
        match rest with [] => True | x :: _ => max_req_count < zsum weight items + weight x end);
  ad_budget : zsum weight items <= Z.max 0 max_req_count;
  ad_ranks k n : adp = true -> ranks !! k = Some n ->
    n + strict_count (length ranks) k items <= Z.max n cap;
}.

Lemma get_from_waiting_queue_admits {Q} `{Hlaws : WaitingQueueLaws Q higher}
    (q : Q) max_req_count adp cap ranks_opt ranks :
  queue_ok q -> (adp = true -> ranks_opt = Some ranks /\ targets_exist (length ranks) (queue_iter q)) ->
  exists items q',
    get_from_waiting_queue max_req_count adp cap q ranks_opt = Ok (items, q')
    /\ queue_ok q' /\ admission max_req_count adp cap ranks (queue_iter q) items (queue_iter q').
Proof.
  intros Hq Hr. unfold get_from_waiting_queue. destruct (Z.leb_spec max_req_count 0) as [Hle|Hgt].
  { exists [], q. split; [done|]. split; [done|]. split.
    - exists [], [], (queue_iter q). split_and!; try done; [intros x []%elem_of_nil|lia].
    - rewrite zsum_nil. lia.
    - intros k n _ _. unfold strict_count. rewrite zsum_nil. lia. }
  set (rs := if adp then ranks else []).
  assert (Hrs : scheduling_ranks adp ranks_opt = Ok rs).
  { unfold scheduling_ranks, rs. destruct adp; [|done]. by destruct (Hr eq_refl) as [-> _]. }
  rewrite Hrs. cbn [mbind result_bind].
  destruct (scan_total max_req_count adp cap (queue_iter q) 0 rs) as (i & p & r & Hscan).
  { intros ->. by apply Hr. }
  pose proof (take_loop_scan max_req_count adp cap (S (Z.to_nat (queue_len q))) q 0 [] [] rs Hq) as Hloop.
  rewrite Hscan in Hloop. destruct Hloop as (q1 & -> & Hok1 & Hit1).
  { rewrite queue_len_law. lia. }
  cbn [mbind result_bind app]. exists i, (prepend_requests q1 p). split; [done|].
  apply scan_spec in Hscan as [(taken & Hsplit & Hperm & Hi & Hp) Hb Hs Hpend Hrk Hfull].
  rewrite prepend_requests_law. destruct (prepend_all_law p q1 Hok1) as [Hok2 Hit2]. split; [done|].
  rewrite Hit2, Hit1, put_back.
  2: { eapply served_in_order_sublist; [|by apply queue_order_law, Hq]. rewrite Hsplit. by apply sublist_app. }
  split; [|lia|].
  - exists taken, p, r. split_and!; try done. intros x Hx. destruct adp; [by apply Hfull|].
    rewrite Hpend in Hx by done. by apply elem_of_nil in Hx.
  - intros k n ->. by apply Hrk.
Qed.

Lemma pop_from_queue_admits {Q} `{Hlaws : WaitingQueueLaws Q higher} (self : PyExecutor) (q : Q) total ranks_opt ranks :
  queue_ok q ->
  (enable_attention_dp self = true -> ranks_opt = Some ranks /\ targets_exist (length ranks) (queue_iter q)) ->
  exists items q' self' max_new,
    _pop_from_waiting_queue self q total ranks_opt = Ok (items, q', self')
    /\ queue_ok q' /\ max_num_active_requests self' = max_num_active_requests self
    /\ max_new <= total_max self - total
    /\ admission max_new (enable_attention_dp self) (max_num_active_requests self) ranks
                 (queue_iter q) items (queue_iter q')
    /\ total + zsum weight items <= Z.max total (total_max self).
Proof.
  intros Hq Hr. unfold _pop_from_waiting_queue.
  destruct (throttle self (total_max self) (total_max self - total)) as [max_new self'] eqn:Eth.
  assert (Hth : max_new <= total_max self - total /\ enable_attention_dp self' = enable_attention_dp self
    /\ max_num_active_requests self' = max_num_active_requests self).
  { unfold throttle in Eth. destruct (_ && _ && _); injection Eth as <- <-; simpl; split_and!; lia || done. }
  destruct Hth as (Hle & Hadp & Hmax). rewrite Hadp, Hmax.
  destruct (get_from_waiting_queue_admits q max_new (enable_attention_dp self) (max_num_active_requests self)
    ranks_opt ranks Hq Hr) as (items & q' & -> & Hok & Had).
  simpl. exists items, q', self', max_new. split_and!; try done.
  pose proof (ad_budget _ _ _ _ _ _ _ Had). lia.
Qed.

(** C18. Popping from the waiting queue always succeeds when the ranks that
    requests insist on exist.  It takes a prefix of the queue, less the requests
    whose only rank is already full: those keep their place.  The active
    requests never exceed the executor's total, a rank never gets more strict
    requests than it has room for, and the call stops only at an empty queue or
    at a request that does not fit. *)
Theorem pop_admits {Q} `{Hlaws : WaitingQueueLaws Q higher} (self : PyExecutor) (q : Q) total ranks_opt ranks :
  queue_ok q ->
  (enable_attention_dp self = true -> ranks_opt = Some ranks /\ targets_exist (length ranks) (queue_iter q)) ->
  exists items q' self' max_new,
    _pop_from_waiting_queue self q total ranks_opt = Ok (items, q', self')
    /\ queue_ok q' /\ max_new <= total_max self - total
    /\ admission max_new (enable_attention_dp self) (max_num_active_requests self) ranks
                 (queue_iter q) items (queue_iter q')
    /\ total + zsum weight items <= Z.max total (total_max self).
Proof.
  intros Hq Hr. destruct (pop_from_queue_admits self q total ranks_opt ranks Hq Hr)
    as (items & q' & self' & m & Hrun & Hok & _ & Hrest).
  exists items, q', self', m. done.
Qed.

(** *** A concrete queue: two ranks, the second one full. *)

Definition strict_item (i t : Z) (children : list Z) : RequestQueueItem :=
  {| item_id := i;
     item_request := Some {| priority := DEFAULT_REQUEST_PRIORITY; input_token_ids := [1; 2; 3];
       py_scheduling_params := Some {| attention_dp_rank := Some t; attention_dp_relax := false |};
       lora_task_id := None; disagg_request_id := None; beam_width := 1; num_return_sequences := None |};
     child_req_ids := Some children; is_canceled_request := false; item_query := None |}.

Definition wit_waiting : FCFSWaitingQueue :=
  {| deque := [strict_item 10 1 []; strict_item 11 0 [20]; marker 12 false; strict_item 13 0 [21; 22]] |}.

Definition wit_config (r : Z) : ExecutorConfig :=
  {| rank := r; tp_rank := r; tp_size := 2; has_cp_helix := false; enable_attention_dp := true;
     max_num_active_requests := 4; is_benchmark_disagg := false; _benchmark_fill_phase_active := false;
     is_warmup := false; executor_iter_perf_stats := true; has_kv_cache_transceiver := false;
     cp_config := empty_cp_config; cp_rank := 0; cp_size := 1; should_exclude_last_generation_logits := true |}.

Definition wit_executor (r : Z) : PyExecutor :=
  {| config := wit_config r; executor_request_queue := ExecutorRequestQueue_init 0 8 true false;
     _fill_admit_cap := 0; is_shutdown := false; canceled_req_ids := []; control_requests := [];
     request_accumulated := [] |}.

Lemma wit_targets_exist : targets_exist 2 (deque wit_waiting).
Proof.
  intros x t Hx. repeat (apply elem_of_cons in Hx as [->|Hx]; [intros [= <-] || intros [=]; by eexists|]).
  by apply elem_of_nil in Hx.
Qed.

Lemma pop_admits_witness :
  exists items q' self',
    _pop_from_waiting_queue (wit_executor 0) wit_waiting 4 (Some [0; 4]) = Ok (items, q', self')
    /\ 4 + zsum weight items <= 8 /\ item_id <$> items = [11; 12]
    /\ item_id <$> queue_iter q' = [10; 13].
Proof.
  destruct (pop_admits (Hlaws := fcfs_laws) (wit_executor 0) wit_waiting 4 (Some [0; 4]) [0; 4] I (fun _ => conj eq_refl wit_targets_exist))
    as (items & q' & self' & m & Hrun & _ & _ & _ & Htot).
  exists items, q', self'. split; [exact Hrun|]. split; [exact Htot|].
  vm_compute in Hrun. injection Hrun as <- <- <-. split; vm_compute; reflexivity.
Defined.

(** ** Special items *)

(** The special items of a fetch: everything before the first control or
    shutdown item is either accepted, in order, or a cancellation that is
    recorded; a shutdown drops what follows it, a control item holds it back
    on rank 0 for a later fetch. *)
Theorem special_items_handled (self : PyExecutor) new_requests :
  let '(accepted, self') := _handle_special_queue_items self new_requests in
  exists seen tail, new_requests = seen ++ tail
    /\ accepted = filter (fun x => is_normal_request x = true) seen
    /\ canceled_req_ids self' = canceled_req_ids self
         ++ (item_id <$> filter (fun x => is_canceled_request x = true) seen)
    /\ Forall (fun x => is_shutdown_request x = false) seen
    /\ match tail with
       | [] => is_shutdown self' = is_shutdown self /\ control_requests self' = control_requests self
               /\ request_accumulated self' = request_accumulated self
       | x :: held =>
           if is_shutdown_request x
           then is_shutdown self' = true /\ control_requests self' = control_requests self
                /\ request_accumulated self' = request_accumulated self
           else is_control_request x = true /\ is_canceled_request x = false
                /\ is_shutdown self' = is_shutdown self /\ control_requests self' = control_requests self ++ [x]
                /\ request_accumulated self'
                   = request_accumulated self ++ (if rank self =? 0 then held else [])
       end.
Proof.
  revert self. induction new_requests as [|x l IH]; intros self; cbn [_handle_special_queue_items].
  { exists [], []. simpl. rewrite app_nil_r. done. }
  destruct (is_shutdown_request x) eqn:Es.
  { exists [], (x :: l). simpl. rewrite Es, app_nil_r. done. }
  destruct (is_canceled_request x) eqn:Ec.
  - specialize (IH (set_special self (is_shutdown self) (canceled_req_ids self ++ [item_id x])
      (control_requests self) (request_accumulated self))).
    destruct (_handle_special_queue_items _ l) as [accepted self'].
    destruct IH as (seen & tail & -> & -> & Hc & Hseen & Htail). exists (x :: seen), tail.
    assert (is_normal_request x = false) by (unfold is_normal_request; by rewrite Es, Ec).
    rewrite filter_cons_False, filter_cons_True by congruence. simpl.
    split; [done|]. split; [done|]. split; [rewrite Hc; simpl; by rewrite <- app_assoc|]. split; [by constructor|done].
  - destruct (is_control_request x) eqn:Ek.
    + exists [], (x :: l). simpl. rewrite Es, app_nil_r. split_and!; try done. case_match; by rewrite ?app_nil_r.
    + specialize (IH self). destruct (_handle_special_queue_items self l) as [accepted self'].
      destruct IH as (seen & tail & -> & -> & Hc & Hseen & Htail). exists (x :: seen), tail.
      assert (is_normal_request x = true) by (unfold is_normal_request; by rewrite Es, Ec, Ek).
      rewrite filter_cons_True, filter_cons_False by congruence. simpl.
      split_and!; try done. by constructor.
Qed.

(** Per-rank caps keep a step of generation within the token budget. *)
Lemma derived_cap_fits base_cap max_num_tokens draft n :
  0 <= n <= derive_attention_dp_per_rank_request_cap base_cap (Some max_num_tokens) draft ->
  n <= base_cap /\ n * (1 + Z.max draft 0) <= max_num_tokens.
Proof.
  unfold derive_attention_dp_per_rank_request_cap. intros [H0 Hn]. split; [lia|].
  pose proof (Z.mul_div_le max_num_tokens (1 + Z.max draft 0)). nia.
Qed.
