(* ===== verification/AdpRouter.v ===== *)
(** * Attention data parallelism: rank states and the default router

    [_torch/pyexecutor/scheduler/adp_router.py]: the per-rank state that is
    exchanged before routing, its wire format, and [DefaultADPRouter], which
    first honours the ranks requests ask for and then balances the rest with a
    min-heap of ranks. *)

From stdpp Require Import prelude gmap sorting.
From S2P Require Import Prelude PyHeapq RequestQueue Admission.
Local Open Scope Z_scope.

(** ** Rank states *)

Record RankIterStatsPayload := {
  has_iter_stats : Z;
  iter_stats_iter : Z;
  num_context_requests : Z;
  num_ctx_tokens : Z;
  num_ctx_kv_tokens : Z;
  num_gen_requests : Z;
  num_gen_kv_tokens : Z;
  num_paused_requests : Z;
  num_paused_kv_tokens : Z;
}.

(** The defaults of the fields, in order. *)
Definition payload_defaults : list Z := [0; -1; 0; 0; 0; 0; 0; 0; 0].

Definition payload_serialize (p : RankIterStatsPayload) : list Z :=
  [has_iter_stats p; iter_stats_iter p; num_context_requests p; num_ctx_tokens p; num_ctx_kv_tokens p;
   num_gen_requests p; num_gen_kv_tokens p; num_paused_requests p; num_paused_kv_tokens p].

(** The constructor applied to the values. *)
Definition payload_of_values (values : list Z) : result RankIterStatsPayload :=
  match values with
  | [a; b; c; d; e; f; g; h; i] =>
      Ok {| has_iter_stats := a; iter_stats_iter := b; num_context_requests := c; num_ctx_tokens := d;
            num_ctx_kv_tokens := e; num_gen_requests := f; num_gen_kv_tokens := g;
            num_paused_requests := h; num_paused_kv_tokens := i |}
  | _ => Err TypeError
  end.

Definition payload_deserialize (data : list Z) : result RankIterStatsPayload :=
  if Nat.ltb (length payload_defaults) (length data) then Err ValueError
  else payload_of_values (data ++ drop (length data) payload_defaults).

Record RankState := {
  rs_rank : Z;
  num_active_requests : Z;
  num_active_tokens : Z;
  iter_stats : RankIterStatsPayload;
}.

Definition default_payload : RankIterStatsPayload :=
  {| has_iter_stats := 0; iter_stats_iter := -1; num_context_requests := 0; num_ctx_tokens := 0;
     num_ctx_kv_tokens := 0; num_gen_requests := 0; num_gen_kv_tokens := 0;
     num_paused_requests := 0; num_paused_kv_tokens := 0 |}.

Definition copy_iter_stats_from (self : RankState) (payload : option RankIterStatsPayload) : RankState :=
  match payload with
  | None => self
  | Some p => {| rs_rank := rs_rank self; num_active_requests := num_active_requests self;
                 num_active_tokens := num_active_tokens self; iter_stats := p |}
  end.

Definition serialize (self : RankState) : list Z :=
  [rs_rank self; num_active_requests self; num_active_tokens self] ++ payload_serialize (iter_stats self).

(** The defaults of the first three fields; [rank] has none. *)
Definition rank_state_defaults : list (option Z) := [None; Some 0; Some 0].

(** [for field_info in rank_state_fields[len(rank_values):]] *)
Definition fill_defaults (rank_values : list Z) : result (list Z) :=
  for_each (fun values d => match d with Some v => Ok (values ++ [v]) | None => Err ValueError end)
           rank_values (drop (length rank_values) rank_state_defaults).

Definition deserialize (data : list Z) : result RankState :=
  let max_field_count := (3 + length payload_defaults)%nat in
  if Nat.ltb (length data) 1 then Err ValueError
  else if Nat.ltb max_field_count (length data) then Err ValueError
  else
    rank_values ← fill_defaults (take 3 data);
    r ← py_get rank_values 0;
    n ← py_get rank_values 1;
    t ← py_get rank_values 2;
    stats ← payload_deserialize (drop 3 data);
    Ok {| rs_rank := r; num_active_requests := n; num_active_tokens := t; iter_stats := stats |}.

(** The active requests, as the routers see them. *)
Record ActiveRequest := {
  total_input_len_cp : Z;
  py_orig_prompt_len : Z;
  cached_tokens : Z;
}.

(** [DefaultADPRouter.create_rank_state] *)
Definition create_rank_state (has_cp_helix : bool) (tp_rank : Z) (active_requests : list ActiveRequest) : RankState :=
  {| rs_rank := tp_rank; num_active_requests := len active_requests;
     num_active_tokens := if has_cp_helix then zsum total_input_len_cp active_requests
                          else zsum py_orig_prompt_len active_requests;
     iter_stats := default_payload |}.

Fixpoint mapM_result {A B} (f : A -> result B) (l : list A) : result (list B) :=
  match l with
  | [] => Ok []
  | x :: l' => y ← f x; ys ← mapM_result f l'; Ok (y :: ys)
  end.

(** [tp_allgather] is the collective: what every rank contributed, in the order
    of ranks. *)
Definition gather_all_rank_states (tp_allgather : list Z -> list (list Z)) (local_state : RankState)
    (iter_stats_payload : option RankIterStatsPayload) : result (list RankState) :=
  mapM_result deserialize (tp_allgather (serialize (copy_iter_stats_from local_state iter_stats_payload))).

(** ** The default router *)

(** [all_ranks_new_requests[rank].append(req)] and [.extend(reqs)] *)
Definition dict_extend (d : gmap Z (list RequestQueueItem)) (k : Z) (l : list RequestQueueItem)
    : result (gmap Z (list RequestQueueItem)) :=
  match d !! k with
  | Some old => Ok (<[k := old ++ l]> d)
  | None => Err KeyError
  end.

Definition get_relax_value (item : RequestQueueItem) : bool :=
  match scheduling_params item with
  | None => true
  | Some sp => match attention_dp_rank sp with None => true | Some _ => attention_dp_relax sp end
  end.

(** [sorted(new_requests, key=get_relax_value)]: [False] before [True]. *)
Definition relax_le (x y : RequestQueueItem) : bool := implb (get_relax_value x) (get_relax_value y).

Definition target_rank (item : RequestQueueItem) : option Z :=
  sp ← scheduling_params item; attention_dp_rank sp.

(** The loop that assigns requests to the rank they ask for: its variables are
    the active counts, the assignment and the remaining requests. *)
Definition assign_target (max_num_active : Z)
    (st : list Z * gmap Z (list RequestQueueItem) * list RequestQueueItem) (item : RequestQueueItem)
    : result (list Z * gmap Z (list RequestQueueItem) * list RequestQueueItem) :=
  let '(active, assigned, remaining) := st in
  match target_rank item with
  | None => Ok (active, assigned, remaining ++ [item])
  | Some t =>
      n ← py_get active t;
      if n <? max_num_active then
        active ← py_set active t (n + 1);
        assigned ← dict_extend assigned t [item];
        Ok (active, assigned, remaining)
      else Ok (active, assigned, remaining ++ [item])
  end.

(** [len(getattr(x.request, "input_token_ids", [])) if x.request else 0] *)
Definition token_count (item : RequestQueueItem) : Z :=
  match item_request item with Some r => len (input_token_ids r) | None => 0 end.

(** A heap entry.  The list of requests of the entry is shared with the
    dictionary [all_ranks_new_scheduled_requests]; it is kept there, under the
    rank.  Ranks differ, so the comparison never gets to the lists. *)
Record HeapVal := { hv_tokens : Z; hv_requests : Z; hv_rank : Z }.

#[export] Instance heapval_eq_dec : EqDecision HeapVal.
Proof. solve_decision. Defined.

Definition heapval_lt (a b : HeapVal) : bool :=
  (hv_tokens a <? hv_tokens b)
  || (hv_tokens a =? hv_tokens b)
     && ((hv_requests a <? hv_requests b)
         || (hv_requests a =? hv_requests b) && (hv_rank a <? hv_rank b)).

(** One request of the balancing loop: to the rank on top of the heap. *)
Definition balance_one (expected : Z) (st : list HeapVal * gmap Z (list RequestQueueItem))
    (item : RequestQueueItem) : result (list HeapVal * gmap Z (list RequestQueueItem)) :=
  let '(heap, scheduled) := st in
  '(val, heap) ← heappop heapval_lt heap;
  let val := {| hv_tokens := hv_tokens val + token_count item; hv_requests := hv_requests val + 1;
                hv_rank := hv_rank val |} in
  scheduled ← dict_extend scheduled (hv_rank val) [item];
  Ok (if hv_requests val <? expected then heappush heapval_lt heap val else heap, scheduled).

(** Longer requests first. *)
Definition longer (x y : RequestQueueItem) : bool := token_count y <=? token_count x.

Definition heap_entries (active tokens : list Z) : list HeapVal :=
  imap (fun r '(t, n) => {| hv_tokens := t; hv_requests := n; hv_rank := Z.of_nat r |}) (zip tokens active).

Definition _balance_requests_across_ranks (new_requests : list RequestQueueItem)
    (assigned : gmap Z (list RequestQueueItem)) (active tokens : list Z) (expected : Z)
    : result (gmap Z (list RequestQueueItem)) :=
  if bool_decide (new_requests = []) then Ok assigned
  else
    let entries := filter (fun v => hv_requests v < expected) (heap_entries active tokens) in
    let scheduled : gmap Z (list RequestQueueItem) := list_to_map ((fun v => (hv_rank v, [])) <$> entries) in
    '(_, scheduled) ← for_each (balance_one expected) (heapify heapval_lt entries, scheduled)
                               (sort_by longer new_requests);
    for_each (fun d v => dict_extend d (hv_rank v) (default [] (scheduled !! hv_rank v))) assigned entries.

(** [max(l)] of a non-empty list. *)
Definition list_max (x : Z) (l : list Z) : Z := fold_left Z.max l x.

(** The number of requests per rank to aim for. *)
Definition expected_num_active (tp : Z) (active : list Z) (num_new max_num_active : Z) : result Z :=
  if tp =? 0 then Err ZeroDivisionError
  else match active with
       | [] => Err ValueError
       | n :: rest =>
           Ok (Z.min (Z.max ((zsum id active + num_new + tp - 1) / tp) (list_max n rest)) max_num_active)
       end.

Definition route_requests (all_rank_states : list RankState) (new_requests : list RequestQueueItem)
    (max_num_active : Z) : result (gmap Z (list RequestQueueItem) * Z) :=
  let assigned : gmap Z (list RequestQueueItem) := list_to_map ((fun s => (rs_rank s, [])) <$> all_rank_states) in
  let active := num_active_requests <$> all_rank_states in
  let tokens := num_active_tokens <$> all_rank_states in
  '(active, assigned, remaining) ←
    for_each (assign_target max_num_active) (active, assigned, []) (sort_by relax_le new_requests);
  expected ← expected_num_active (len all_rank_states) active (len remaining) max_num_active;
  assigned ← _balance_requests_across_ranks remaining assigned active tokens expected;
  Ok (assigned, expected).

(** ** The wire format *)

(** A rank state survives the exchange unchanged, a shorter payload is filled
    with defaults, and exactly the payloads that are empty or too long are
    refused, with [ValueError]. *)
Theorem rank_state_roundtrip :
  (forall s, deserialize (serialize s) = Ok s)
  /\ (forall data, (1 <= length data <= 12)%nat ->
        deserialize data = deserialize (data ++ drop (length data) (serialize
          {| rs_rank := 0; num_active_requests := 0; num_active_tokens := 0; iter_stats := default_payload |}))
        /\ exists s, deserialize data = Ok s)
  /\ (forall data, (length data = 0 \/ 12 < length data)%nat -> deserialize data = Err ValueError).
Proof.
  split; [by intros [? ? ? []]|]. split; intros data.
  - intros [H1 H2]. do 13 (destruct data as [|? data]; [simpl in *; first [lia|split; [reflexivity|by eexists]]|]).
    simpl in *. lia.
  - intros Hlen. do 13 (destruct data as [|? data]; [simpl in *; first [done|lia]|]). done.
Qed.

Lemma mapM_result_roundtrip l : mapM_result deserialize (serialize <$> l) = Ok l.
Proof.
  induction l as [|s l IH]; [done|]. rewrite fmap_cons. cbn [mapM_result].
  replace (deserialize (serialize s)) with (Ok s) by (by destruct s as [? ? ? []]). simpl. by rewrite IH.
Qed.

(** Every rank gets the same states, its own among them. *)
Lemma gather_agrees locals k payload local tp_allgather :
  locals !! k = Some (copy_iter_stats_from local payload) ->
  tp_allgather (serialize (copy_iter_stats_from local payload)) = serialize <$> locals ->
  gather_all_rank_states tp_allgather local payload = Ok locals.
Proof. intros _ Hg. unfold gather_all_rank_states. rewrite Hg. apply mapM_result_roundtrip. Qed.

(** ** Assignments *)

(** The requests assigned to a rank, and to all of [tp] ranks. *)
Definition dget (d : gmap Z (list RequestQueueItem)) (k : nat) : list RequestQueueItem :=
  default [] (d !! Z.of_nat k).

Definition all_assigned (tp : nat) (d : gmap Z (list RequestQueueItem)) : list RequestQueueItem :=
  concat (dget d <$> seq 0 tp).

(** Every rank has a list. *)
Definition has_ranks (tp : nat) (d : gmap Z (list RequestQueueItem)) : Prop :=
  forall k, (k < tp)%nat -> is_Some (d !! Z.of_nat k).

Lemma dict_extend_ok tp d k l :
  has_ranks tp d -> (k < tp)%nat ->
  exists d', dict_extend d (Z.of_nat k) l = Ok d' /\ has_ranks tp d'
    /\ dget d' k = dget d k ++ l /\ forall j, j <> k -> dget d' j = dget d j.
Proof.
  intros Hd Hk. destruct (Hd k Hk) as [old Hold]. unfold dict_extend. rewrite Hold.
  eexists. split; [done|]. split; [|split].
  - intros j Hj. rewrite lookup_insert_is_Some. destruct (decide (Z.of_nat k = Z.of_nat j)); auto.
  - unfold dget. by rewrite lookup_insert_eq, Hold.
  - intros j Hj. unfold dget. by rewrite lookup_insert_ne by lia.
Qed.

Lemma all_assigned_extend tp d d' k l :
  (k < tp)%nat -> dget d' k = dget d k ++ l -> (forall j, j <> k -> dget d' j = dget d j) ->
  all_assigned tp d' ≡ₚ all_assigned tp d ++ l.
Proof.
  intros Hk Hd Hne. unfold all_assigned.
  replace tp with (k + (1 + (tp - k - 1)))%nat by lia. rewrite !seq_app, !fmap_app, !concat_app.
  change (dget ?x <$> seq (0 + k) 1) with [dget x k].
  assert (Heq : forall a n, (a + n <= k \/ k < a)%nat -> dget d' <$> seq a n = dget d <$> seq a n).
  { intros a n Ha. apply list_fmap_ext. intros i j [-> Hi]%lookup_seq. apply Hne. lia. }
  rewrite (Heq 0%nat k), (Heq (0 + k + 1)%nat), Hd by lia. cbn [concat]. rewrite !app_nil_r, <- !app_assoc.
  do 2 f_equiv. apply Permutation_app_comm.
Qed.

(** A list is the table of its elements. *)
Lemma table_of {A} `{Inhabited A} (l : list A) : l = (fun k => l !!! k) <$> seq 0 (length l).
Proof.
  apply list_eq. intros i. rewrite list_lookup_fmap. destruct (l !! i) as [x|] eqn:E.
  - rewrite lookup_seq_lt by by eapply lookup_lt_Some. simpl. f_equal. symmetry. by apply list_lookup_total_correct.
  - rewrite lookup_seq_ge by by apply lookup_ge_None. done.
Qed.

Lemma table_lookup {A} (f : nat -> A) tp k : (k < tp)%nat -> (f <$> seq 0 tp) !! k = Some (f k).
Proof. intros Hk. by rewrite list_lookup_fmap, lookup_seq_lt by done. Qed.

Lemma table_insert {A} (f g : nat -> A) tp k :
  (k < tp)%nat -> (forall j, j <> k -> g j = f j) -> <[k := g k]> (f <$> seq 0 tp) = g <$> seq 0 tp.
Proof.
  intros Hk Hne. apply list_eq. intros i. destruct (decide (i = k)) as [->|Hik].
  - rewrite list_lookup_insert_eq by (by rewrite length_fmap, length_seq). by rewrite table_lookup.
  - rewrite list_lookup_insert_ne by done. rewrite !list_lookup_fmap. destruct (seq 0 tp !! i) as [j|] eqn:E; [|done].
    apply lookup_seq in E as [-> Hi]. simpl. by rewrite Hne.
Qed.

(** ** First phase: the ranks requests ask for *)

Definition targets_in_range (tp : nat) (l : list RequestQueueItem) : Prop :=
  forall x t, x ∈ l -> target_rank x = Some t -> 0 <= t < Z.of_nat tp.

Lemma strict_target_rank x t : strict_target x = Some t -> target_rank x = Some t.
Proof.
  unfold strict_target, target_rank. destruct (scheduling_params x) as [sp|]; simpl; [|done].
  by destruct (attention_dp_relax sp).
Qed.

Lemma relax_strict x : get_relax_value x = false <-> is_Some (strict_target x).
Proof.
  unfold get_relax_value, strict_target. destruct (scheduling_params x) as [sp|]; simpl.
  - destruct (attention_dp_rank sp), (attention_dp_relax sp); split; try done; intros [? [=]]; done.
  - split; [done|]. intros [? [=]].
Qed.

Section first_phase.
Context (tp : nat) (n0 : nat -> Z) (cap : Z) (all : list RequestQueueItem).
Context (Hrange : targets_in_range tp all).

(** The active requests of a rank, with what was assigned to it. *)
Definition busy (d : gmap Z (list RequestQueueItem)) (k : nat) : Z := n0 k + len (dget d k).

(** The strict requests fit on the ranks they insist on. *)
Definition strict_room : Prop :=
  forall k, (k < tp)%nat -> n0 k + strict_count tp k all <= Z.max (n0 k) cap.

Record phase1 (pre : list RequestQueueItem) (active : list Z) (d : gmap Z (list RequestQueueItem))
    (rem : list RequestQueueItem) : Prop := {
  p1_active : active = busy d <$> seq 0 tp;
  p1_ranks : has_ranks tp d;
  p1_perm : all_assigned tp d ++ rem ≡ₚ pre;
  p1_cap k : (k < tp)%nat -> busy d k <= Z.max (n0 k) cap;
  p1_exact : strict_room -> Forall (fun x => get_relax_value x = false) pre ->
    forall k, (k < tp)%nat -> len (dget d k) = strict_count tp k pre;
  p1_strict x t : strict_room -> x ∈ pre -> strict_target x = Some t -> x ∈ dget d (Z.to_nat t);
}.

Lemma strict_count_app k l1 l2 : strict_count tp k (l1 ++ l2) = strict_count tp k l1 + strict_count tp k l2.
Proof. apply zsum_app. Qed.

Lemma targets_range x t k :
  strict_target x = Some t -> 0 <= t < Z.of_nat tp -> targets tp k x = bool_decide (Z.to_nat t = k).
Proof.
  intros Ht Hr. unfold targets. rewrite Ht, py_pos_nonneg by done. apply bool_decide_ext. naive_solver.
Qed.

(** A request that stays unassigned is not strict, if the strict ones fit. *)
Lemma phase1_skip pre x active d rem :
  (strict_room -> strict_target x = None) -> phase1 pre active d rem ->
  phase1 (pre ++ [x]) active d (rem ++ [x]).
Proof.
  intros Hx [Ha Hd Hp Hc He Hs]. split; try done.
  - by rewrite app_assoc, Hp.
  - intros Hroom [_ Hxr]%Forall_app k Hk. apply Forall_singleton, relax_strict in Hxr as [t Ht].
    by rewrite Hx in Ht.
  - intros y t Hroom [Hy| ->%list_elem_of_singleton]%elem_of_app Ht; [by apply Hs|]. by rewrite Hx in Ht.
Qed.

Lemma phase1_assign pre x t active d d' rem :
  let k := Z.to_nat t in
  (forall t', strict_target x = Some t' -> t' = t) -> 0 <= t < Z.of_nat tp -> busy d k < cap ->
  has_ranks tp d' -> dget d' k = dget d k ++ [x] -> (forall j, j <> k -> dget d' j = dget d j) ->
  phase1 pre active d rem ->
  phase1 (pre ++ [x]) (<[k := busy d k + 1]> active) d' rem.
Proof using Hrange.
  intros k Ht Hr Hlt Hd' Hk Hne [-> Hd Hp Hc He Hs]. assert (Hkt : (k < tp)%nat) by lia.
  assert (Hb : busy d' k = busy d k + 1) by (unfold busy; rewrite Hk, length_app; simpl; lia).
  assert (Hbne : forall j, j <> k -> busy d' j = busy d j) by (intros; unfold busy; by rewrite Hne).
  split.
  - rewrite <- Hb. by apply table_insert.
  - done.
  - rewrite (all_assigned_extend tp d d' k [x]) by done. rewrite <- Hp. solve_Permutation.
  - intros j Hj. destruct (decide (j = k)) as [->|]; [rewrite Hb; lia|rewrite Hbne by done; auto].
  - intros Hroom [Hpre [Hx _]%Forall_cons]%Forall_app j Hj. rewrite strict_count_app, <- He by done.
    apply relax_strict in Hx as [t' Ht']. pose proof (Ht t' Ht') as ->.
    unfold strict_count. rewrite zsum_cons, zsum_nil, (targets_range x t j) by done.
    fold k. case_bool_decide as Hj'; [rewrite <- Hj', Hk, length_app; simpl; lia|].
    rewrite Hne by congruence. lia.
  - intros y t' Hroom Hy Ht'. apply elem_of_app in Hy as [Hy|Hy%list_elem_of_singleton].
    + specialize (Hs y t' Hroom Hy Ht'). destruct (decide (Z.to_nat t' = k)) as [E|E].
      * rewrite E in *. rewrite Hk. apply elem_of_app. by left.
      * by rewrite Hne by exact E.
    + subst y. rewrite (Ht t' Ht'). fold k. rewrite Hk. apply elem_of_app. right. by left.
Qed.

(** Strict requests come first, so a strict request meets only strict ones, and
    finds room. *)
Lemma phase1_full pre x post active d rem t :
  pre ++ x :: post ≡ₚ all -> (get_relax_value x = false -> Forall (fun y => get_relax_value y = false) pre) ->
  phase1 pre active d rem -> strict_target x = Some t -> 0 <= t < Z.of_nat tp -> strict_room ->
  cap <= busy d (Z.to_nat t) -> False.
Proof using Type.
  intros Hall Hfirst [_ _ _ _ He _] Es Hr Hroom Hge.
  assert (Hrel : get_relax_value x = false) by (apply relax_strict; eauto).
  set (k := Z.to_nat t) in *. assert (Hk : (k < tp)%nat) by lia.
  specialize (He Hroom (Hfirst Hrel) k Hk). specialize (Hroom k Hk). unfold busy in Hge.
  assert (Hcnt : strict_count tp k all = strict_count tp k (pre ++ x :: post)) by (by apply zsum_perm).
  rewrite Hcnt, strict_count_app, strict_count_cons, (targets_range x t k) in Hroom by done.
  rewrite bool_decide_true in Hroom by done. pose proof (strict_count_nonneg tp k post).
  pose proof (strict_count_nonneg tp k pre). lia.
Qed.

Lemma phase1_step pre x post active d rem :
  pre ++ x :: post ≡ₚ all -> (get_relax_value x = false -> Forall (fun y => get_relax_value y = false) pre) ->
  phase1 pre active d rem ->
  exists st, assign_target cap (active, d, rem) x = Ok st
    /\ phase1 (pre ++ [x]) st.1.1 st.1.2 st.2.
Proof using Hrange.
  intros Hall Hfirst Hi. unfold assign_target. destruct (target_rank x) as [t|] eqn:Et.
  2: { eexists. split; [done|]. simpl. apply phase1_skip; [|done]. intros _.
       destruct (strict_target x) as [t|] eqn:Es; [|done]. apply strict_target_rank in Es. congruence. }
  assert (Hr : 0 <= t < Z.of_nat tp).
  { apply (Hrange x); [|done]. rewrite <- Hall. apply elem_of_app. right. by left. }
  set (k := Z.to_nat t). assert (Hk : (k < tp)%nat) by lia.
  pose proof Hi as [Ha Hd Hp Hc He Hs].
  assert (Hlen : length active = tp) by (by rewrite Ha, length_fmap, length_seq).
  assert (Hpos : py_pos (length active) t = Some k) by (apply py_pos_nonneg; by rewrite Hlen).
  assert (Hget : py_get active t = Ok (busy d k)).
  { apply py_get_Ok. exists k. split; [done|]. rewrite Ha. by apply table_lookup. }
  rewrite Hget. cbn [mbind result_bind]. destruct (Z.ltb_spec (busy d k) cap) as [Hlt|Hge].
  - unfold py_set. rewrite Hpos. cbn [mbind result_bind].
    destruct (dict_extend_ok tp d k [x] Hd Hk) as (d' & Hext & Hd' & Hsame & Hne).
    replace (Z.of_nat k) with t in Hext by lia. rewrite Hext. cbn [mbind result_bind].
    eexists. split; [done|]. simpl. apply (phase1_assign pre x t active d d' rem); try done.
    intros t' Ht'%strict_target_rank. congruence.
  - eexists. split; [done|]. simpl. apply phase1_skip; [|done]. intros Hroom.
    destruct (strict_target x) as [t'|] eqn:Es; [|done]. exfalso.
    pose proof (strict_target_rank _ _ Es) as Ht'. assert (t' = t) as -> by congruence.
    by apply (phase1_full pre x post active d rem t).
Qed.

Lemma relax_first pre x post :
  pre ++ x :: post = sort_by relax_le all -> get_relax_value x = false ->
  Forall (fun y => get_relax_value y = false) pre.
Proof using Type.
  intros Heq Hx. assert (Hs : StronglySorted (fun a b => relax_le a b = true) (pre ++ x :: post)).
  { rewrite Heq. apply sort_by_sorted; unfold relax_le.
    - intros a b c. by destruct (get_relax_value a), (get_relax_value b), (get_relax_value c).
    - intros a b. destruct (get_relax_value a), (get_relax_value b); auto. }
  apply Forall_forall. intros y Hy.
  assert (Hyx : relax_le y x = true) by exact (StronglySorted_app_1_elem_of _ _ _ y x Hs Hy (list_elem_of_here _ _)).
  unfold relax_le in Hyx. rewrite Hx in Hyx. by destruct (get_relax_value y).
Qed.

Lemma phase1_init d0 :
  has_ranks tp d0 -> (forall k, dget d0 k = []) -> phase1 [] (n0 <$> seq 0 tp) d0 [].
Proof using Type.
  intros Hd0 Hnil. split; try done.
  - apply list_fmap_ext. intros i k _. unfold busy. rewrite Hnil. simpl. lia.
  - rewrite app_nil_r. unfold all_assigned. replace (concat _) with (@nil RequestQueueItem); [done|].
    symmetry. induction (seq 0 tp) as [|k l IH]; [done|]. rewrite fmap_cons, Hnil. exact IH.
  - intros k _. unfold busy. rewrite Hnil. simpl. lia.
  - intros _ _ k _. by rewrite Hnil.
  - intros x t _ []%elem_of_nil.
Qed.

Lemma first_phase_total d0 :
  has_ranks tp d0 -> (forall k, dget d0 k = []) ->
  exists active d rem,
    for_each (assign_target cap) (n0 <$> seq 0 tp, d0, []) (sort_by relax_le all) = Ok (active, d, rem)
    /\ phase1 (sort_by relax_le all) active d rem.
Proof using Hrange.
  intros Hd0 Hnil.
  destruct (for_each_prefix_total (assign_target cap) (fun pre st => phase1 pre st.1.1 st.1.2 st.2)
    (sort_by relax_le all) (n0 <$> seq 0 tp, d0, [])) as ([[active d] rem] & Hrun & Hi).
  - by apply phase1_init.
  - intros pre x post [[active d] rem] Heq Hi. apply (phase1_step pre x post); [|by apply (relax_first pre x post)|done].
    by rewrite <- Heq, sort_by_perm.
  - eauto 6.
Qed.

End first_phase.

(** ** Second phase: balancing *)

Lemma heapval_lt_spec a b :
  heapval_lt a b = true <->
  hv_tokens a < hv_tokens b
  \/ hv_tokens a = hv_tokens b
     /\ (hv_requests a < hv_requests b \/ hv_requests a = hv_requests b /\ hv_rank a < hv_rank b).
Proof.
  unfold heapval_lt. rewrite !orb_true_iff, !andb_true_iff, !orb_true_iff, !andb_true_iff, !Z.ltb_lt, !Z.eqb_eq. done.
Qed.

#[export] Instance heapval_order : StrictWeakOrder heapval_lt.
Proof.
  split.
  - intros x. apply not_true_is_false. rewrite heapval_lt_spec. lia.
  - intros x y z. rewrite !heapval_lt_spec. lia.
  - intros x y z. rewrite <- !not_true_iff_false, !heapval_lt_spec. lia.
Qed.

Section second_phase.
Context (expected : Z) (entries : list HeapVal).
Context (Hnodup : NoDup (hv_rank <$> entries)).

(** The list the loop fills for an entry. *)
Definition given (scheduled : gmap Z (list RequestQueueItem)) (v : HeapVal) : list RequestQueueItem :=
  default [] (scheduled !! hv_rank v).

Definition all_given (scheduled : gmap Z (list RequestQueueItem)) : list RequestQueueItem :=
  concat (given scheduled <$> entries).

(** Every entry is on the heap with what it was given, or full. *)
Record phase2 (pre : list RequestQueueItem) (heap : list HeapVal)
    (scheduled : gmap Z (list RequestQueueItem)) : Prop := {
  p2_heap : is_heap heapval_lt heap;
  p2_unique : NoDup (hv_rank <$> heap);
  p2_on v : v ∈ heap -> hv_requests v < expected /\ exists v0, v0 ∈ entries /\ hv_rank v0 = hv_rank v
    /\ hv_requests v = hv_requests v0 + len (given scheduled v0);
  p2_off v : v ∈ entries -> is_Some (scheduled !! hv_rank v)
    /\ hv_requests v + len (given scheduled v) <= expected
    /\ (hv_rank v ∈ (hv_rank <$> heap) \/ hv_requests v + len (given scheduled v) = expected);
  p2_perm : all_given scheduled ≡ₚ pre;
}.

Lemma entry_unique v w : v ∈ entries -> w ∈ entries -> hv_rank v = hv_rank w -> v = w.
Proof using Hnodup.
  intros [i Hi]%list_elem_of_lookup [j Hj]%list_elem_of_lookup Heq.
  assert (i = j) as ->; [|by simplify_eq].
  eapply NoDup_lookup; [exact Hnodup|by rewrite list_lookup_fmap, Hi|rewrite list_lookup_fmap, Hj; simpl; by rewrite Heq].
Qed.

Lemma given_extend scheduled v l old w :
  scheduled !! hv_rank v = Some old ->
  given (<[hv_rank v := old ++ l]> scheduled) w
  = if decide (hv_rank w = hv_rank v) then given scheduled v ++ l else given scheduled w.
Proof.
  intros Hold. unfold given. case_decide as E.
  - by rewrite E, lookup_insert_eq, Hold.
  - by rewrite lookup_insert_ne by done.
Qed.

Lemma all_given_extend scheduled v l old :
  v ∈ entries -> scheduled !! hv_rank v = Some old ->
  all_given (<[hv_rank v := old ++ l]> scheduled) ≡ₚ all_given scheduled ++ l.
Proof using Hnodup.
  intros (l1 & l2 & Heq)%list_elem_of_split Hold. unfold all_given. rewrite Heq.
  rewrite !fmap_app, !fmap_cons, !concat_app. cbn [concat].
  assert (Hne : forall k, k ⊆ entries -> hv_rank v ∉ (hv_rank <$> k) ->
    given (<[hv_rank v := old ++ l]> scheduled) <$> k = given scheduled <$> k).
  { intros k _ Hnot. apply list_fmap_ext. intros i w Hw. rewrite (given_extend _ v l old w Hold).
    rewrite decide_False; [done|]. intros E. apply Hnot. rewrite <- E. apply list_elem_of_fmap_2.
    by eapply list_elem_of_lookup_2. }
  rewrite Heq, fmap_app, fmap_cons in Hnodup. apply NoDup_app in Hnodup as (_ & H12 & H2).
  apply NoDup_cons in H2 as [H2 _].
  rewrite (Hne l1), (Hne l2), (given_extend _ v l old v Hold), decide_True by (done || set_solver).
  rewrite <- !app_assoc. do 2 f_equiv. apply Permutation_app_comm.
Qed.

Lemma given_total scheduled : len (all_given scheduled) = zsum (fun v => len (given scheduled v)) entries.
Proof using Type.
  unfold all_given. clear Hnodup. induction entries as [|v l IH]; [done|].
  rewrite fmap_cons, zsum_cons. cbn [concat]. rewrite length_app. lia.
Qed.

(** While requests remain, some rank has room. *)
Lemma heap_not_empty pre x post l heap scheduled :
  l = pre ++ x :: post -> len l <= zsum (fun v => expected - hv_requests v) entries ->
  phase2 pre heap scheduled -> heap <> [].
Proof using Type.
  intros -> Hcap Hi ->. destruct Hi as [_ _ _ Hoff Hperm].
  assert (Hsum : zsum (fun v => expected - hv_requests v) entries = len (all_given scheduled)).
  { rewrite given_total. apply zsum_ext. intros v Hv. destruct (Hoff v Hv) as (_ & _ & [Hin|Heq]); [|lia].
    by apply elem_of_nil in Hin. }
  rewrite Hsum, Hperm, length_app in Hcap. simpl in Hcap. lia.
Qed.

(** The heap after one request went to [v]'s rank. *)
Lemma rebalanced_heap (heap h : list HeapVal) (v v' : HeapVal) :
  is_heap heapval_lt h -> heap ≡ₚ v :: h -> hv_rank v' = hv_rank v -> NoDup (hv_rank <$> heap) ->
  let heap' := if hv_requests v' <? expected then heappush heapval_lt h v' else h in
  is_heap heapval_lt heap' /\ NoDup (hv_rank <$> heap') /\ (hv_rank v ∉ (hv_rank <$> h))
  /\ (forall w, w ∈ heap' <-> w ∈ h \/ w = v' /\ hv_requests v' < expected).
Proof using Type.
  intros Hh Hp Hr Hu. rewrite Hp, fmap_cons, NoDup_cons in Hu. destruct Hu as [Hnot Hu].
  destruct (heappush_spec heapval_lt h v' Hh) as [Hh' Hp'].
  destruct (Z.ltb_spec (hv_requests v') expected) as [Hlt|Hge]; split_and!; try done.
  - rewrite Hp', fmap_cons, Hr. by constructor.
  - intros w. rewrite Hp', elem_of_cons. naive_solver.
  - intros w. split; [by left|]. intros [?|[_ ?]]; [done|lia].
Qed.

Lemma phase2_step pre x heap scheduled :
  heap <> [] -> phase2 pre heap scheduled ->
  exists st, balance_one expected (heap, scheduled) x = Ok st /\ phase2 (pre ++ [x]) st.1 st.2.
Proof using Hnodup.
  intros Hne [Hheap Hu Hon Hoff Hperm]. unfold balance_one.
  destruct (heappop_spec heapval_lt heap Hheap Hne) as (v & h & -> & Hp & Hh & _ & _). cbn [mbind result_bind].
  destruct (Hon v) as (Hlt & v0 & Hv0 & Hr0 & Hreq); [rewrite Hp; by left|].
  destruct (Hoff v0 Hv0) as ([old Hold] & Hle & _).
  set (v' := {| hv_tokens := hv_tokens v + token_count x; hv_requests := hv_requests v + 1; hv_rank := hv_rank v |}).
  unfold dict_extend. change (hv_rank v') with (hv_rank v). rewrite <- Hr0, Hold. cbn [mbind result_bind].
  eexists. split; [done|]. simpl fst. simpl snd.
  destruct (rebalanced_heap heap h v v' Hh Hp eq_refl Hu) as (Hh' & Hu' & Hnot & Hin).
  set (heap' := if hv_requests v' <? expected then _ else h) in *.
  assert (Hg : forall w, w ∈ entries -> given (<[hv_rank v0 := old ++ [x]]> scheduled) w
    = if decide (w = v0) then given scheduled v0 ++ [x] else given scheduled w).
  { intros w Hw. rewrite (given_extend scheduled v0 [x] old w Hold).
    destruct (decide (w = v0)) as [->|Hwv]; [by rewrite decide_True|].
    rewrite decide_False; [done|]. intros E. by apply Hwv, entry_unique. }
  split; [done|done| | |].
  - intros w [Hw|[-> Hlt']]%Hin.
    + destruct (Hon w) as (Hwlt & w0 & Hw0 & Hwr & Hwq); [rewrite Hp; by right|]. split; [done|].
      exists w0. split; [done|]. split; [done|]. rewrite Hg, decide_False; [done| |done].
      intros ->. apply Hnot. rewrite <- Hr0, Hwr. by apply list_elem_of_fmap_2.
    + split; [done|]. exists v0. split; [done|]. split; [done|].
      rewrite Hg, decide_True, length_app by done. simpl. lia.
  - intros w Hw. destruct (Hoff w Hw) as (Hsome & Hwle & Hor). rewrite Hg by done. split; [|split].
    + rewrite lookup_insert_is_Some. destruct (decide (hv_rank v0 = hv_rank w)); auto.
    + case_decide as E; [subst w; rewrite length_app; simpl; lia|done].
    + case_decide as E.
      * subst w. rewrite length_app. simpl length. destruct (decide (hv_requests v' < expected)) as [Hl|Hl].
        -- left. rewrite Hr0. change (hv_rank v) with (hv_rank v'). apply list_elem_of_fmap_2, Hin. by right.
        -- right. simpl in Hl. lia.
      * destruct Hor as [Hor|Hor]; [left|by right]. apply list_elem_of_fmap in Hor as (u & Hur & Huin).
        rewrite Hp in Huin. apply elem_of_cons in Huin as [->|Huin].
        -- exfalso. apply E, entry_unique; [done|done|congruence].
        -- rewrite Hur. apply list_elem_of_fmap_2, Hin. by left.
  - rewrite (all_given_extend scheduled v0 [x] old Hv0 Hold). by rewrite Hperm.
Qed.

Lemma second_phase_total l :
  (forall v, v ∈ entries -> hv_requests v < expected) ->
  len l <= zsum (fun v => expected - hv_requests v) entries ->
  exists heap scheduled,
    for_each (balance_one expected)
             (heapify heapval_lt entries, list_to_map ((fun v => (hv_rank v, [])) <$> entries)) l
      = Ok (heap, scheduled)
    /\ phase2 l heap scheduled.
Proof using Hnodup.
  intros Hlt Hcap.
  destruct (for_each_prefix_total (balance_one expected) (fun pre st => phase2 pre st.1 st.2) l
    (heapify heapval_lt entries, list_to_map ((fun v => (hv_rank v, [])) <$> entries))) as ([heap sched] & Hrun & Hi).
  - destruct (heapify_spec heapval_lt entries) as [Hh Hp].
    set (m := list_to_map _ : gmap Z (list RequestQueueItem)).
    assert (Hm : forall v, v ∈ entries -> m !! hv_rank v = Some []).
    { intros v Hv. apply elem_of_list_to_map_1.
      - rewrite <- list_fmap_compose. exact Hnodup.
      - by apply (list_elem_of_fmap_2 (fun v => (hv_rank v, []))). }
    assert (Hg : forall v, v ∈ entries -> given m v = []) by (intros v Hv; unfold given; by rewrite Hm).
    simpl. split; [done|by rewrite Hp| | |].
    + intros v. rewrite Hp. intros Hv. split; [by apply Hlt|]. exists v. rewrite Hg by done. simpl. split_and!; try done. lia.
    + intros v Hv. rewrite Hm, Hg by done. specialize (Hlt v Hv). simpl. split; [by eexists|]. split; [lia|].
      left. rewrite Hp. by apply list_elem_of_fmap_2.
    + assert (Hlen : len (all_given m) = 0).
      { rewrite given_total. apply zsum_0. intros v Hv. by rewrite Hg. }
      destruct (all_given m); [done|simpl in Hlen; lia].
  - intros pre x post [heap sched] Heq Hi. apply phase2_step; [|done]. by eapply heap_not_empty.
  - eauto.
Qed.

End second_phase.

(** ** The whole route *)

Lemma extend_all tp (f : HeapVal -> list RequestQueueItem) entries : forall d,
  has_ranks tp d -> NoDup (hv_rank <$> entries) ->
  (forall v, v ∈ entries -> 0 <= hv_rank v < Z.of_nat tp) ->
  exists d', for_each (fun d v => dict_extend d (hv_rank v) (f v)) d entries = Ok d'
    /\ has_ranks tp d'
    /\ (forall v, v ∈ entries -> dget d' (Z.to_nat (hv_rank v)) = dget d (Z.to_nat (hv_rank v)) ++ f v)
    /\ (forall k, Z.of_nat k ∉ (hv_rank <$> entries) -> dget d' k = dget d k)
    /\ all_assigned tp d' ≡ₚ all_assigned tp d ++ concat (f <$> entries).
Proof.
  induction entries as [|v entries IH]; intros d Hd Hnd Hr.
  { exists d. split_and!; try done; [intros v []%elem_of_nil|by rewrite app_nil_r]. }
  rewrite fmap_cons in Hnd. apply NoDup_cons in Hnd as [Hv Hnd]. set (k := Z.to_nat (hv_rank v)).
  assert (Hk : hv_rank v = Z.of_nat k /\ (k < tp)%nat) by (specialize (Hr v (list_elem_of_here _ _)); lia).
  destruct Hk as [Hk Hlt]. destruct (dict_extend_ok tp d k (f v) Hd Hlt) as (d1 & Hext & Hd1 & Hsame & Hne).
  cbn [for_each]. rewrite Hk, Hext. cbn [mbind result_bind].
  destruct (IH d1 Hd1 Hnd) as (d' & Hrun & Hd' & Hin & Hout & Hperm).
  { intros w Hw. apply Hr. by right. }
  exists d'. split; [done|]. split; [done|]. split_and!.
  - intros w [->|Hw]%elem_of_cons.
    + fold k. rewrite Hout by (by rewrite <- Hk). done.
    + rewrite (Hin w Hw), Hne; [done|]. intros E. apply Hv. rewrite Hk.
      replace (Z.of_nat k) with (hv_rank w) by (specialize (Hr w (list_elem_of_further _ _ _ Hw)); lia).
      by apply list_elem_of_fmap_2.
  - intros j Hj. rewrite fmap_cons, not_elem_of_cons in Hj. destruct Hj as [Hjk Hj].
    rewrite Hout by done. apply Hne. intros ->. by rewrite Hk in Hjk.
  - rewrite Hperm, (all_assigned_extend tp d d1 k (f v)) by done. rewrite fmap_cons. cbn [concat].
    by rewrite app_assoc.
Qed.

Lemma heap_entries_table (active tokens : nat -> Z) tp :
  heap_entries (active <$> seq 0 tp) (tokens <$> seq 0 tp)
  = (fun k => {| hv_tokens := tokens k; hv_requests := active k; hv_rank := Z.of_nat k |}) <$> seq 0 tp.
Proof.
  apply list_eq. intros i. unfold heap_entries. rewrite list_lookup_imap, lookup_zip_with, !list_lookup_fmap.
  destruct (seq 0 tp !! i) as [k|] eqn:E; [|done]. apply lookup_seq in E as [-> _]. done.
Qed.

Lemma list_max_ge x l n : n ∈ x :: l -> n <= list_max x l.
Proof.
  unfold list_max. revert x n. induction l as [|y l IH]; intros x n Hn; simpl.
  - apply list_elem_of_singleton in Hn. lia.
  - apply elem_of_cons in Hn as [->|Hn].
    + transitivity (Z.max x y); [lia|]. apply IH. by left.
    + apply elem_of_cons in Hn as [->|Hn].
      * transitivity (Z.max x y); [lia|]. apply IH. by left.
      * apply IH. by right.
Qed.

(** The fair share of [m] more requests, rounded up. *)
Definition fair_share (active : nat -> Z) (tp : nat) (m : Z) : Z :=
  (zsum active (seq 0 tp) + m + Z.of_nat tp - 1) / Z.of_nat tp.

(** A target of at least the fair share, or the capacity, leaves room for all
    remaining requests. *)
Lemma target_room (active : nat -> Z) tp m cap c :
  (0 < tp)%nat -> 0 <= m -> (m = 0 \/ zsum active (seq 0 tp) + m <= Z.of_nat tp * cap) ->
  fair_share active tp m <= c ->
  m <= zsum (fun k => Z.max 0 (Z.min c cap - active k)) (seq 0 tp).
Proof.
  intros Htp Hm [->|Hcap] Hc; [apply zsum_nonneg; intros; lia|]. set (e := Z.min c cap).
  transitivity (zsum (fun k => e - active k) (seq 0 tp)); [|apply zsum_le; intros; lia].
  assert (Hsum : zsum (fun k => e - active k) (seq 0 tp) = Z.of_nat tp * e - zsum active (seq 0 tp)).
  { rewrite (zsum_ext _ (fun k => e + (-1) * active k)) by (intros; lia).
    rewrite zsum_plus, zsum_const, length_seq.
    enough (zsum (fun k => -1 * active k) (seq 0 tp) = - zsum active (seq 0 tp)) by lia.
    clear. induction (seq 0 tp) as [|k l IH]; [done|]. rewrite !zsum_cons. lia. }
  rewrite Hsum. enough (zsum active (seq 0 tp) + m <= Z.of_nat tp * e) by lia.
  pose proof (Z.div_mod (zsum active (seq 0 tp) + m + Z.of_nat tp - 1) (Z.of_nat tp)) as Hdiv.
  pose proof (Z.mod_pos_bound (zsum active (seq 0 tp) + m + Z.of_nat tp - 1) (Z.of_nat tp)) as Hmod.
  fold (fair_share active tp m) in Hdiv. unfold e. destruct (Z.min_spec c cap) as [[_ ->]|[_ ->]]; nia.
Qed.

Lemma table_max (active : nat -> Z) tp n rest k :
  active <$> seq 0 tp = n :: rest -> (k < tp)%nat -> active k <= list_max n rest.
Proof.
  intros E Hk. apply list_max_ge. rewrite <- E. eapply list_elem_of_lookup_2. by apply table_lookup.
Qed.

Lemma table_nonempty (active : nat -> Z) tp : (0 < tp)%nat -> exists n rest, active <$> seq 0 tp = n :: rest.
Proof. destruct tp as [|tp]; [lia|]. simpl. eauto. Qed.

(** The target is within the capacity, not below what a rank already has (up to
    the capacity), and leaves room for all remaining requests. *)
Lemma expected_spec (active : nat -> Z) tp m cap :
  (0 < tp)%nat -> 0 <= m -> (m = 0 \/ zsum active (seq 0 tp) + m <= Z.of_nat tp * cap) ->
  exists e, expected_num_active (Z.of_nat tp) (active <$> seq 0 tp) m cap = Ok e /\ e <= cap
    /\ (forall k, (k < tp)%nat -> Z.min (active k) cap <= e)
    /\ m <= zsum (fun k => Z.max 0 (e - active k)) (seq 0 tp).
Proof.
  intros Htp Hm Hcap. unfold expected_num_active. rewrite (proj2 (Z.eqb_neq _ _)) by lia.
  rewrite zsum_fmap. change (zsum (fun x => id (active x)) (seq 0 tp)) with (zsum active (seq 0 tp)).
  fold (fair_share active tp m). destruct (table_nonempty active tp Htp) as (n & rest & E). rewrite E.
  eexists. split; [done|]. split; [lia|]. split.
  - intros k Hk. pose proof (table_max active tp n rest k E Hk). lia.
  - apply target_room; [done|done|done|lia].
Qed.

(** Balancing assigns every remaining request and fills no rank beyond the
    target. *)
Lemma balance_spec tp (active tokens : nat -> Z) expected rem d :
  has_ranks tp d ->
  len rem <= zsum (fun k => Z.max 0 (expected - active k)) (seq 0 tp) ->
  exists d', _balance_requests_across_ranks rem d (active <$> seq 0 tp) (tokens <$> seq 0 tp) expected = Ok d'
    /\ has_ranks tp d'
    /\ all_assigned tp d' ≡ₚ all_assigned tp d ++ rem
    /\ forall k, (k < tp)%nat -> exists l, dget d' k = dget d k ++ l
         /\ active k + len l <= Z.max (active k) expected.
Proof.
  intros Hd Hcap. unfold _balance_requests_across_ranks. case_bool_decide as Hnil.
  { subst rem. exists d. rewrite app_nil_r. split_and!; try done. intros k _. exists [].
    rewrite app_nil_r. simpl. split; [done|lia]. }
  rewrite heap_entries_table. set (all := _ <$> seq 0 tp).
  set (entries := filter (fun v => hv_requests v < expected) all).
  assert (Hranks : hv_rank <$> all = Z.of_nat <$> seq 0 tp) by (unfold all; by rewrite <- list_fmap_compose).
  assert (Hnd : NoDup (hv_rank <$> entries)).
  { eapply NoDup_contained; [apply fmap_submseteq, sublist_submseteq, sublist_filter|]. fold all. rewrite Hranks.
    apply NoDup_fmap_2; [apply _|apply NoDup_seq]. }
  assert (Hlt : forall v, v ∈ entries -> hv_requests v < expected /\ exists k, (k < tp)%nat
    /\ hv_rank v = Z.of_nat k /\ hv_requests v = active k).
  { intros v [Hv Hin]%list_elem_of_filter. split; [done|].
    apply list_elem_of_fmap in Hin as (k & -> & Hk%elem_of_seq). exists k. simpl. split; [lia|done]. }
  assert (Hroom : len (sort_by longer rem) <= zsum (fun v => expected - hv_requests v) entries).
  { rewrite length_sort_by. etransitivity; [exact Hcap|]. unfold entries, all. rewrite zsum_filter, zsum_fmap.
    apply zsum_le. intros k _. simpl. case_decide; lia. }
  destruct (second_phase_total expected entries Hnd (sort_by longer rem)) as (heap & sched & Hrun & Hi);
    [by intros v Hv; apply Hlt|exact Hroom|].
  rewrite Hrun. cbn [mbind result_bind]. destruct Hi as [_ _ _ Hoff Hperm].
  destruct (extend_all tp (given sched) entries d Hd Hnd) as (d' & Hext & Hd' & Hin & Hout & Hall).
  { intros v Hv. destruct (Hlt v Hv) as (_ & k & ? & -> & _). lia. }
  exists d'. split; [exact Hext|]. split; [done|]. split.
  - rewrite Hall. change (concat (given sched <$> entries)) with (all_given entries sched).
    by rewrite Hperm, sort_by_perm.
  - intros k Hk. destruct (decide (Z.of_nat k ∈ (hv_rank <$> entries))) as [Hin'|Hnot].
    + apply list_elem_of_fmap in Hin' as (v & Hv & Hvin). exists (given sched v).
      specialize (Hin v Hvin). rewrite <- Hv, Nat2Z.id in Hin. split; [done|].
      destruct (Hoff v Hvin) as (_ & Hle & _), (Hlt v Hvin) as (_ & j & _ & Hj & Hreq).
      replace j with k in Hreq by lia. lia.
    + exists []. rewrite (Hout k Hnot), app_nil_r. simpl. split; [done|lia].
Qed.

Definition ranks_in_order (all_rank_states : list RankState) : Prop :=
  forall k s, all_rank_states !! k = Some s -> rs_rank s = Z.of_nat k.

(** What a routing achieves. *)
Record routed (states : list RankState) (new : list RequestQueueItem) (cap : Z)
    (d : gmap Z (list RequestQueueItem)) (expected : Z) : Prop := {
  rt_expected : expected <= cap;
  rt_floor k s : states !! k = Some s -> Z.min (num_active_requests s) cap <= expected;
  rt_ranks : has_ranks (length states) d;
  rt_once : all_assigned (length states) d ≡ₚ new;
  rt_cap k s : states !! k = Some s ->
    num_active_requests s + len (dget d k) <= Z.max (num_active_requests s) expected;
  rt_strict x t :
    (forall k s, states !! k = Some s ->
       num_active_requests s + strict_count (length states) k new <= Z.max (num_active_requests s) cap) ->
    x ∈ new -> strict_target x = Some t -> x ∈ dget d (Z.to_nat t);
}.

#[export] Instance rank_state_inhabited : Inhabited RankState :=
  populate {| rs_rank := 0; num_active_requests := 0; num_active_tokens := 0; iter_stats := default_payload |}.

Lemma initial_assignment (states : list RankState) :
  ranks_in_order states ->
  let d0 : gmap Z (list RequestQueueItem) := list_to_map ((fun s => (rs_rank s, [])) <$> states) in
  has_ranks (length states) d0 /\ forall k, dget d0 k = [].
Proof.
  intros Hord d0.
  assert (Hval : forall k l, d0 !! k = Some l -> l = []).
  { intros k l Hk. apply elem_of_list_to_map_2 in Hk. apply list_elem_of_fmap in Hk as (s & [= _ ->] & _). done. }
  split.
  - intros k Hk. destruct (lookup_lt_is_Some_2 states k Hk) as [s Hs].
    destruct (d0 !! Z.of_nat k) as [l|] eqn:E; [by eexists|]. exfalso.
    apply not_elem_of_list_to_map in E. apply E. rewrite <- list_fmap_compose. apply list_elem_of_fmap.
    exists s. split; [symmetry; by apply Hord|by eapply list_elem_of_lookup_2].
  - intros k. unfold dget. destruct (d0 !! Z.of_nat k) as [l|] eqn:E; [|done]. by apply Hval in E.
Qed.

Lemma table_of_field (f : RankState -> Z) (states : list RankState) :
  f <$> states = (fun k => f (states !!! k)) <$> seq 0 (length states).
Proof. rewrite (table_of states) at 1. by rewrite <- list_fmap_compose. Qed.

Lemma sum_table (states : list RankState) :
  zsum (fun k => num_active_requests (states !!! k)) (seq 0 (length states)) = zsum num_active_requests states.
Proof.
  transitivity (zsum num_active_requests ((fun k => states !!! k) <$> seq 0 (length states))); [by rewrite zsum_fmap|].
  by rewrite <- table_of.
Qed.

(** The first phase changes only where requests are counted. *)
Lemma phase1_totals tp n0 cap all active d rem :
  phase1 tp n0 cap all (sort_by relax_le all) active d rem ->
  zsum (busy n0 d) (seq 0 tp) + len rem = zsum n0 (seq 0 tp) + len all /\ len rem <= len all.
Proof.
  intros [_ _ Hperm _ _ _]. apply Permutation_length in Hperm. rewrite length_sort_by, length_app in Hperm.
  split; [|lia]. unfold busy. rewrite zsum_plus.
  enough (len (all_assigned tp d) = zsum (fun k => len (dget d k)) (seq 0 tp)) by lia.
  unfold all_assigned. clear. induction (seq 0 tp) as [|k l IH]; [done|].
  rewrite fmap_cons, zsum_cons. cbn [concat]. rewrite length_app. lia.
Qed.

(** Whatever places the remaining requests without filling a rank beyond the
    target completes the routing. *)
Lemma routed_of_phases states new cap active d rem d' e :
  let n0 k := num_active_requests (states !!! k) in
  targets_in_range (length states) new ->
  phase1 (length states) n0 cap new (sort_by relax_le new) active d rem ->
  e <= cap -> (forall k, (k < length states)%nat -> Z.min (busy n0 d k) cap <= e) ->
  has_ranks (length states) d' ->
  all_assigned (length states) d' ≡ₚ all_assigned (length states) d ++ rem ->
  (forall k, (k < length states)%nat -> dget d k `prefix_of` dget d' k) ->
  (forall k, (k < length states)%nat -> busy n0 d' k <= Z.max (busy n0 d k) e) ->
  routed states new cap d' e.
Proof.
  intros n0 Hrange [_ _ Hperm Hcap _ Hstrict] He Hge Hd' Hall Hpre Hbusy. split; [done| |done| | |].
  - intros k s Hs. specialize (Hge k (lookup_lt_Some _ _ _ Hs)). unfold busy in Hge.
    unfold n0 in Hge. rewrite (list_lookup_total_correct _ _ _ Hs) in Hge. lia.
  - rewrite Hall, Hperm. apply sort_by_perm.
  - intros k s Hs. assert (Hk : (k < length states)%nat) by by eapply lookup_lt_Some.
    assert (Hn0 : n0 k = num_active_requests s) by (unfold n0; by rewrite (list_lookup_total_correct _ _ _ Hs)).
    specialize (Hcap k Hk). specialize (Hge k Hk). specialize (Hbusy k Hk). unfold busy in *. rewrite Hn0 in *. lia.
  - intros x t Hroom Hx Ht. assert (Hin : x ∈ dget d (Z.to_nat t)).
    { apply Hstrict; [|by rewrite sort_by_perm|done]. intros k Hk.
      destruct (lookup_lt_is_Some_2 states k Hk) as [s Hs]. specialize (Hroom k s Hs).
      unfold n0. by rewrite (list_lookup_total_correct _ _ _ Hs). }
    destruct (Hpre (Z.to_nat t)) as [l ->]; [|apply elem_of_app; by left].
    apply strict_target_rank in Ht. specialize (Hrange x t Hx Ht). lia.
Qed.

Lemma route_requests_routes states new cap :
  states <> [] -> ranks_in_order states -> targets_in_range (length states) new ->
  (new = [] \/ zsum num_active_requests states + len new <= len states * cap) ->
  exists d expected, route_requests states new cap = Ok (d, expected) /\ routed states new cap d expected.
Proof.
  intros Hne Hord Hrange Hcap. unfold route_requests. set (tp := length states).
  set (n0 := fun k => num_active_requests (states !!! k)).
  set (tok := fun k => num_active_tokens (states !!! k)).
  assert (Htp : (0 < tp)%nat) by (unfold tp; destruct states; [done|simpl; lia]).
  rewrite (table_of_field num_active_requests), (table_of_field num_active_tokens). fold n0 tok tp.
  destruct (initial_assignment states Hord) as [Hd0 Hnil].
  destruct (first_phase_total tp n0 cap new Hrange _ Hd0 Hnil) as (active & d & rem & -> & Hi).
  cbn [mbind result_bind]. pose proof Hi as [-> Hd _ _ _ _].
  destruct (phase1_totals _ _ _ _ _ _ _ Hi) as [Hlen Hrem].
  assert (Hsum : zsum n0 (seq 0 tp) = zsum num_active_requests states) by apply sum_table.
  destruct (expected_spec (busy n0 d) tp (len rem) cap Htp) as (e & -> & He & Hge & Hroom); [lia| |].
  { destruct Hcap as [->|Hcap]; [left; simpl in *; lia|right; unfold tp in *; lia]. }
  cbn [mbind result_bind]. destruct (balance_spec tp (busy n0 d) tok e rem d Hd Hroom) as (d' & -> & Hd' & Hall & Hk).
  exists d', e. split; [done|]. apply (routed_of_phases states new cap (busy n0 d <$> seq 0 tp) d rem); try done.
  - intros k Hklt. destruct (Hk k Hklt) as (l & -> & _). by apply prefix_app_r.
  - intros k Hklt. destruct (Hk k Hklt) as (l & Hl & Hle). unfold busy, n0 in *. rewrite Hl, length_app. lia.
Qed.

(** C29. The default router always succeeds when the new requests fit the total
    capacity and the ranks they name exist: every request goes to exactly one
    rank, and no rank is filled beyond the common target, which is within the
    capacity of a rank. *)
Theorem default_router_balances states new cap :
  states <> [] -> ranks_in_order states -> targets_in_range (length states) new ->
  zsum num_active_requests states + len new <= len states * cap ->
  exists d expected, route_requests states new cap = Ok (d, expected)
    /\ expected <= cap
    /\ all_assigned (length states) d ≡ₚ new
    /\ forall k s, states !! k = Some s ->
         num_active_requests s + len (dget d k) <= Z.max (num_active_requests s) expected.
Proof.
  intros Hne Hord Hrange Hcap.
  destruct (route_requests_routes states new cap Hne Hord Hrange (or_intror Hcap)) as (d & e & Hrun & []).
  eauto 8.
Qed.

Definition plain_item (i : Z) (n : nat) : RequestQueueItem :=
  {| item_id := i;
     item_request := Some {| priority := 1; input_token_ids := replicate n 7; py_scheduling_params := None;
       lora_task_id := None; disagg_request_id := None; beam_width := 1; num_return_sequences := None |};
     child_req_ids := None; is_canceled_request := false; item_query := None |}.

Definition wit_states : list RankState :=
  [{| rs_rank := 0; num_active_requests := 1; num_active_tokens := 5; iter_stats := default_payload |};
   {| rs_rank := 1; num_active_requests := 0; num_active_tokens := 0; iter_stats := default_payload |}].

Definition wit_new : list RequestQueueItem :=
  [plain_item 1 2; plain_item 2 9; strict_item 3 0 []; plain_item 4 1].

Lemma wit_ranks_in_order : ranks_in_order wit_states.
Proof. intros [|[|k]] s Hs; simpl in Hs; by simplify_eq. Qed.

Lemma wit_targets_in_range : targets_in_range 2 wit_new.
Proof.
  intros x t Hx. repeat (apply elem_of_cons in Hx as [->|Hx]; [vm_compute; intros [= <-] || intros [=]; done|]).
  by apply elem_of_nil in Hx.
Qed.

(** Both ranks end up with three requests; the longest one goes to the idle
    rank. *)
Example wit_routed :
  match route_requests wit_states wit_new 3 with
  | Ok (d, e) => (fun k => item_id <$> dget d k) <$> [0; 1]%nat = [[3; 1]; [2; 4]] /\ e = 3
  | Err _ => False
  end.
Proof. vm_compute. done. Qed.

Lemma default_router_balances_witness :
  exists d expected, route_requests wit_states wit_new 3 = Ok (d, expected)
    /\ all_assigned 2 d ≡ₚ wit_new.
Proof.
  destruct (default_router_balances wit_states wit_new 3) as (d & e & Hrun & _ & Hperm & _).
  - intros H. discriminate H.
  - exact wit_ranks_in_order.
  - exact wit_targets_in_range.
  - vm_compute. intros H. discriminate H.
  - exists d, e. split; [exact Hrun|exact Hperm].
Defined.
