(* ===== verification/IterStats.v ===== *)
(** * Iteration statistics of attention-parallel ranks

    [_torch/pyexecutor/adp_iter_stats.py]: every rank queues the statistics of
    its iterations, the oldest pending one travels with the exchange of rank
    states, and rank 0 emits one row per rank once all ranks sent the same
    iteration.  The file models the buffer and then the ranks together: a
    transition system of queueing and exchanges, in which rows are emitted for
    all ranks or for none, and within two exchanges. *)

From stdpp Require Import prelude gmap sorting strings.
From S2P Require Import Prelude PyFloat AdpRouter.
Local Open Scope Z_scope.

(** [InflightBatchingStats], zero when created. *)
Record InflightBatchingStats := {
  ifb_num_scheduled_requests : Z;
  ifb_num_context_requests : Z;
  ifb_num_gen_requests : Z;
  ifb_num_paused_requests : Z;
  ifb_num_ctx_tokens : Z;
  ifb_micro_batch_id : Z;
  ifb_avg_num_decoded_tokens_per_iter : float;
  ifb_num_ctx_kv_tokens : Z;
  ifb_num_gen_kv_tokens : Z;
  ifb_num_queued_context_requests : Z;
  ifb_num_queued_ctx_tokens : Z;
  ifb_num_queued_gen_requests : Z;
  ifb_num_queued_gen_kv_tokens : Z;
  ifb_num_paused_kv_tokens : Z;
}.

Section buffer.
(** The nested objects that are only passed on: cache statistics, request
    statistics and the like. *)
Context {Nested : Type}.

Record IterationStats := {
  timestamp : string;
  iter : Z;
  iter_latency_ms : float;
  new_active_requests_queue_latency_ms : float;
  num_new_active_requests : Z;
  it_num_active_requests : Z;
  num_queued_requests : Z;
  num_completed_requests : Z;
  it_max_num_active_requests : Z;
  gpu_mem_usage : Z;
  cpu_mem_usage : Z;
  pinned_mem_usage : Z;
  kv_cache_stats : option Nested;
  cross_kv_cache_stats : option Nested;
  static_batching_stats : option Nested;
  specdec_stats : option Nested;
  inflight_batching_stats : option InflightBatchingStats;
}.

Record ADPIterStatsRecord := {
  rec_stats : IterationStats;
  rec_req_stats : option Nested;
  rec_kv_iter_stats : option Nested;
  rec_attention_dp_rank : Z;
  host_step_time_ms : option float;
  prev_device_step_time_ms : option float;
  gpu_forward_time_ms : option float;
}.

Record ADPIterStatsBuffer := {
  _payloads : gmap Z RankIterStatsPayload;
  _synthetic_iters : gset Z;
  _rank0_iter_stats : gmap Z IterationStats;
  _rank0_req_stats : gmap Z (option Nested);
  _rank0_kv_iter_stats : gmap Z (option Nested);
  _rank0_host_step_time_ms : gmap Z (option float);
  _rank0_prev_device_step_time_ms : gmap Z (option float);
  _rank0_gpu_forward_time_ms : gmap Z (option float);
  _oldest_iter : option Z;
}.

Implicit Type self : ADPIterStatsBuffer.

Definition ADPIterStatsBuffer_init : ADPIterStatsBuffer :=
  {| _payloads := ∅; _synthetic_iters := ∅; _rank0_iter_stats := ∅; _rank0_req_stats := ∅;
     _rank0_kv_iter_stats := ∅; _rank0_host_step_time_ms := ∅; _rank0_prev_device_step_time_ms := ∅;
     _rank0_gpu_forward_time_ms := ∅; _oldest_iter := None |}.

(** The payload part of the buffer changes; what rank 0 keeps aside does not. *)
Definition set_payloads self payloads synthetic oldest : ADPIterStatsBuffer :=
  {| _payloads := payloads; _synthetic_iters := synthetic; _rank0_iter_stats := _rank0_iter_stats self;
     _rank0_req_stats := _rank0_req_stats self; _rank0_kv_iter_stats := _rank0_kv_iter_stats self;
     _rank0_host_step_time_ms := _rank0_host_step_time_ms self;
     _rank0_prev_device_step_time_ms := _rank0_prev_device_step_time_ms self;
     _rank0_gpu_forward_time_ms := _rank0_gpu_forward_time_ms self; _oldest_iter := oldest |}.

(** ** Queueing *)

(** Statistics without an in-flight part raise. *)
Definition make_payload (stats : IterationStats) : result RankIterStatsPayload :=
  match inflight_batching_stats stats with
  | None => Err AttributeError
  | Some ifb =>
      Ok {| has_iter_stats := 1; iter_stats_iter := iter stats;
            num_context_requests := ifb_num_context_requests ifb; num_ctx_tokens := ifb_num_ctx_tokens ifb;
            num_ctx_kv_tokens := ifb_num_ctx_kv_tokens ifb; num_gen_requests := ifb_num_gen_requests ifb;
            num_gen_kv_tokens := ifb_num_gen_kv_tokens ifb; num_paused_requests := ifb_num_paused_requests ifb;
            num_paused_kv_tokens := ifb_num_paused_kv_tokens ifb |}
  end.

(** [_note_payload_insert], as the new value of [_oldest_iter] *)
Definition _note_payload_insert (oldest : option Z) (iter_id : Z) : option Z :=
  match oldest with
  | None => Some iter_id
  | Some o => if iter_id <? o then Some iter_id else oldest
  end.

(** What rank 0 keeps with a payload. *)
Record Extras := {
  x_req_stats : option Nested;
  x_kv_iter_stats : option Nested;
  x_host_step_time_ms : option float;
  x_prev_device_step_time_ms : option float;
  x_gpu_forward_time_ms : option float;
}.

Definition queue self (stats : IterationStats) (x : Extras) (is_rank0 : bool) : result ADPIterStatsBuffer :=
  payload ← make_payload stats;
  let iter_id := iter_stats_iter payload in
  let self := set_payloads self (<[iter_id := payload]> (_payloads self)) (_synthetic_iters self ∖ {[iter_id]})
                           (_note_payload_insert (_oldest_iter self) iter_id) in
  Ok (if is_rank0 then
        {| _payloads := _payloads self; _synthetic_iters := _synthetic_iters self;
           _rank0_iter_stats := <[iter_id := stats]> (_rank0_iter_stats self);
           _rank0_req_stats := <[iter_id := x_req_stats x]> (_rank0_req_stats self);
           _rank0_kv_iter_stats := <[iter_id := x_kv_iter_stats x]> (_rank0_kv_iter_stats self);
           _rank0_host_step_time_ms := <[iter_id := x_host_step_time_ms x]> (_rank0_host_step_time_ms self);
           _rank0_prev_device_step_time_ms :=
             <[iter_id := x_prev_device_step_time_ms x]> (_rank0_prev_device_step_time_ms self);
           _rank0_gpu_forward_time_ms := <[iter_id := x_gpu_forward_time_ms x]> (_rank0_gpu_forward_time_ms self);
           _oldest_iter := _oldest_iter self |}
      else self).

Definition next_payload self : result (option RankIterStatsPayload) :=
  match _oldest_iter self with
  | None => Ok None
  | Some o => match _payloads self !! o with Some p => Ok (Some p) | None => Err KeyError end
  end.

(** ** Dropping *)

(** The keys of a dict. *)
Definition keys {A} (m : gmap Z A) : list Z := (map_to_list m).*1.

(** [min(self._payloads) if self._payloads else None] *)
Definition min_key {A} (m : gmap Z A) : option Z :=
  match keys m with [] => None | i :: l => Some (fold_left Z.min l i) end.

Definition _recompute_oldest_iter self : ADPIterStatsBuffer :=
  set_payloads self (_payloads self) (_synthetic_iters self) (min_key (_payloads self)).

Definition zero_payload (iter_id : Z) : RankIterStatsPayload :=
  {| has_iter_stats := 1; iter_stats_iter := iter_id; num_context_requests := 0; num_ctx_tokens := 0;
     num_ctx_kv_tokens := 0; num_gen_requests := 0; num_gen_kv_tokens := 0;
     num_paused_requests := 0; num_paused_kv_tokens := 0 |}.

Definition _ensure_zero_payload self (iter_id : Z) : ADPIterStatsBuffer :=
  match _payloads self !! iter_id with
  | Some _ => self
  | None => set_payloads self (<[iter_id := zero_payload iter_id]> (_payloads self))
                         (_synthetic_iters self ∪ {[iter_id]}) (_note_payload_insert (_oldest_iter self) iter_id)
  end.

Definition _discard self (iter_id : Z) (recompute_oldest : bool) : ADPIterStatsBuffer :=
  let self :=
    {| _payloads := delete iter_id (_payloads self); _synthetic_iters := _synthetic_iters self ∖ {[iter_id]};
       _rank0_iter_stats := delete iter_id (_rank0_iter_stats self);
       _rank0_req_stats := delete iter_id (_rank0_req_stats self);
       _rank0_kv_iter_stats := delete iter_id (_rank0_kv_iter_stats self);
       _rank0_host_step_time_ms := delete iter_id (_rank0_host_step_time_ms self);
       _rank0_prev_device_step_time_ms := delete iter_id (_rank0_prev_device_step_time_ms self);
       _rank0_gpu_forward_time_ms := delete iter_id (_rank0_gpu_forward_time_ms self);
       _oldest_iter := _oldest_iter self |} in
  if recompute_oldest && bool_decide (Some iter_id = _oldest_iter self) then _recompute_oldest_iter self else self.

(** The common loop of [_drop_before] and [_clear_through]: discard the pending
    iterations that are not kept. *)
Definition discard_unless (keep : Z -> bool) self : ADPIterStatsBuffer :=
  let '(self, changed) :=
    fold_left (fun acc pending_iter =>
                 if keep pending_iter then acc else (_discard acc.1 pending_iter false, true))
              (keys (_payloads self)) (self, false) in
  if changed : bool then _recompute_oldest_iter self else self.

Definition _drop_before self (iter_id : Z) : ADPIterStatsBuffer :=
  discard_unless (fun pending_iter => iter_id <=? pending_iter) self.

Definition _clear_through self (iter_id : Z) : ADPIterStatsBuffer :=
  discard_unless (fun pending_iter => iter_id <? pending_iter) self.

(** ** Rows *)

Definition rank_ifb (source_ifb : option InflightBatchingStats) (rank_state : RankState) : InflightBatchingStats :=
  let payload := iter_stats rank_state in
  let queued (f : InflightBatchingStats -> Z) :=
    match source_ifb with Some s => if rs_rank rank_state =? 0 then f s else 0 | None => 0 end in
  {| ifb_num_scheduled_requests := num_context_requests payload + num_gen_requests payload;
     ifb_num_context_requests := num_context_requests payload;
     ifb_num_gen_requests := num_gen_requests payload;
     ifb_num_paused_requests := num_paused_requests payload;
     ifb_num_ctx_tokens := num_ctx_tokens payload;
     ifb_micro_batch_id := match source_ifb with Some s => ifb_micro_batch_id s | None => 0 end;
     ifb_avg_num_decoded_tokens_per_iter :=
       match source_ifb with Some s => ifb_avg_num_decoded_tokens_per_iter s | None => float_of_Z 0 end;
     ifb_num_ctx_kv_tokens := num_ctx_kv_tokens payload;
     ifb_num_gen_kv_tokens := num_gen_kv_tokens payload;
     ifb_num_queued_context_requests := queued ifb_num_queued_context_requests;
     ifb_num_queued_ctx_tokens := queued ifb_num_queued_ctx_tokens;
     ifb_num_queued_gen_requests := queued ifb_num_queued_gen_requests;
     ifb_num_queued_gen_kv_tokens := queued ifb_num_queued_gen_kv_tokens;
     ifb_num_paused_kv_tokens := num_paused_kv_tokens payload |}.

Definition _make_rank_iter_stats (rank0_stats : IterationStats) (rank_state : RankState) : IterationStats :=
  let is0 := rs_rank rank_state =? 0 in
  {| timestamp := timestamp rank0_stats; iter := iter rank0_stats;
     iter_latency_ms := iter_latency_ms rank0_stats;
     new_active_requests_queue_latency_ms :=
       if is0 then new_active_requests_queue_latency_ms rank0_stats else float_of_Z 0;
     num_new_active_requests := if is0 then num_new_active_requests rank0_stats else 0;
     it_num_active_requests := it_num_active_requests rank0_stats;
     num_queued_requests := if is0 then num_queued_requests rank0_stats else 0;
     num_completed_requests := if is0 then num_completed_requests rank0_stats else 0;
     it_max_num_active_requests := it_max_num_active_requests rank0_stats;
     gpu_mem_usage := gpu_mem_usage rank0_stats; cpu_mem_usage := cpu_mem_usage rank0_stats;
     pinned_mem_usage := pinned_mem_usage rank0_stats;
     kv_cache_stats := kv_cache_stats rank0_stats; cross_kv_cache_stats := cross_kv_cache_stats rank0_stats;
     static_batching_stats := static_batching_stats rank0_stats; specdec_stats := specdec_stats rank0_stats;
     inflight_batching_stats := Some (rank_ifb (inflight_batching_stats rank0_stats) rank_state) |}.

(** [d.get(i)] of a dict of optional values *)
Definition get_opt {A} (m : gmap Z (option A)) (i : Z) : option A := default None (m !! i).

Definition make_record self (rank0_stats : IterationStats) (i : Z) (rank_state : RankState) : ADPIterStatsRecord :=
  let is0 := rs_rank rank_state =? 0 in
  {| rec_stats := _make_rank_iter_stats rank0_stats rank_state;
     rec_req_stats := if is0 then get_opt (_rank0_req_stats self) i else None;
     rec_kv_iter_stats := if is0 then get_opt (_rank0_kv_iter_stats self) i else None;
     rec_attention_dp_rank := rs_rank rank_state;
     host_step_time_ms := get_opt (_rank0_host_step_time_ms self) i;
     prev_device_step_time_ms := get_opt (_rank0_prev_device_step_time_ms self) i;
     gpu_forward_time_ms := get_opt (_rank0_gpu_forward_time_ms self) i |}.

Definition has_stats (s : RankState) : bool := negb (has_iter_stats (iter_stats s) =? 0).

Definition rank_leb (a b : RankState) : bool := rs_rank a <=? rs_rank b.

Definition finalize self (all_rank_states : list RankState) (is_rank0 : bool)
    : list ADPIterStatsRecord * ADPIterStatsBuffer :=
  if negb (existsb has_stats all_rank_states) then ([], self)
  else
    match List.find (fun s => rs_rank s =? 0) all_rank_states with
    | None => ([], self)
    | Some rank0_state =>
        if negb (has_stats rank0_state) then ([], self)
        else
          let i := iter_stats_iter (iter_stats rank0_state) in
          let self := _ensure_zero_payload (_drop_before self i) i in
          let matching_states :=
            List.filter (fun s => has_stats s && (iter_stats_iter (iter_stats s) =? i)) all_rank_states in
          if negb (Nat.eqb (length matching_states) (length all_rank_states)) then ([], self)
          else if is_rank0 then
            match _rank0_iter_stats self !! i with
            | None => ([], _clear_through self i)
            | Some rank0_stats =>
                (make_record self rank0_stats i <$> sort_by rank_leb matching_states, _clear_through self i)
            end
          else ([], _clear_through self i)
    end.

End buffer.

(** ** One buffer *)

(** [o] is the least key of [m]. *)
Definition least_key {A} (m : gmap Z A) (o : option Z) : Prop :=
  match o with
  | None => m = ∅
  | Some i => is_Some (m !! i) /\ forall j, is_Some (m !! j) -> i <= j
  end.

Lemma elem_of_keys {A} (m : gmap Z A) j : j ∈ keys m <-> is_Some (m !! j).
Proof.
  unfold keys. rewrite list_elem_of_fmap. split.
  - intros ([k a] & -> & Hin%elem_of_map_to_list). by exists a.
  - intros [a Ha]. exists (j, a). split; [done|]. by apply elem_of_map_to_list.
Qed.

Lemma fold_min_le l : forall x y, y ∈ x :: l -> fold_left Z.min l x <= y.
Proof.
  induction l as [|z l IH]; intros x y Hy; simpl.
  { apply elem_of_cons in Hy as [->|Hy]; [lia|by apply elem_of_nil in Hy]. }
  apply elem_of_cons in Hy as [->|[->|Hy]%elem_of_cons].
  - etransitivity; [apply (IH _ (Z.min x z)); by left|lia].
  - etransitivity; [apply (IH _ (Z.min x z)); by left|lia].
  - apply IH. by right.
Qed.

Lemma fold_min_elem l : forall x, fold_left Z.min l x ∈ x :: l.
Proof.
  induction l as [|y l IH]; intros x; simpl; [by left|]. specialize (IH (Z.min x y)).
  apply elem_of_cons in IH as [->|IH]; [|by do 2 right].
  destruct (Z.min_spec x y) as [[_ ->]|[_ ->]]; [by left|right; by left].
Qed.

Lemma min_key_least {A} (m : gmap Z A) : least_key m (min_key m).
Proof.
  unfold min_key. destruct (keys m) as [|i l] eqn:E; simpl.
  - apply map_empty. intros j. destruct (m !! j) eqn:Ej; [|done].
    assert (Hj : j ∈ keys m) by (apply elem_of_keys; eauto). rewrite E in Hj. by apply elem_of_nil in Hj.
  - split; [apply elem_of_keys; rewrite E; apply fold_min_elem|].
    intros j Hj. apply fold_min_le. by rewrite <- E, elem_of_keys.
Qed.

Lemma note_insert_least {A} (m : gmap Z A) o i a :
  least_key m o -> least_key (<[i := a]> m) (_note_payload_insert o i).
Proof.
  intros Ho. destruct o as [o|]; simpl in *.
  - destruct Ho as [[b Hb] Hmin]. destruct (Z.ltb_spec i o) as [Hlt|Hge]; simpl.
    + split; [rewrite lookup_insert_eq; eauto|]. intros j Hj. destruct (decide (i = j)) as [->|Hne]; [lia|].
      rewrite lookup_insert_ne in Hj by done. specialize (Hmin j Hj). lia.
    + split.
      * destruct (decide (i = o)) as [->|Hne]; [rewrite lookup_insert_eq; eauto|].
        rewrite lookup_insert_ne by done. eauto.
      * intros j Hj. destruct (decide (i = j)) as [->|Hne]; [lia|].
        rewrite lookup_insert_ne in Hj by done. by apply Hmin.
  - subst m. split; [rewrite lookup_insert_eq; eauto|]. intros j Hj. destruct (decide (i = j)) as [->|Hne]; [lia|].
    rewrite lookup_insert_ne, lookup_empty in Hj by done. by destruct Hj.
Qed.

Lemma least_key_unique {A} (m : gmap Z A) i :
  is_Some (m !! i) -> (forall j, is_Some (m !! j) -> i <= j) -> forall o, least_key m o -> o = Some i.
Proof.
  intros Hi Hmin [o|]; simpl.
  - intros [Ho Hmin']. specialize (Hmin o Ho). specialize (Hmin' i Hi). f_equal. lia.
  - intros ->. by destruct Hi.
Qed.

Section buffer_lemmas.
Context {Nested : Type}.
Implicit Type self : ADPIterStatsBuffer (Nested := Nested).

(** The buffer of a rank: payloads are filed under their iteration, the oldest
    one is known, and rank 0 keeps the statistics of each of them. *)
Record buf_ok (is_rank0 : bool) self : Prop := {
  ok_payload i p : _payloads self !! i = Some p -> has_iter_stats p = 1 /\ iter_stats_iter p = i;
  ok_oldest : least_key (_payloads self) (_oldest_iter self);
  ok_rank0 i : is_rank0 = true -> is_Some (_payloads self !! i) ->
    exists stats, _rank0_iter_stats self !! i = Some stats /\ iter stats = i;
}.

Lemma init_ok r0 : buf_ok r0 (ADPIterStatsBuffer_init (Nested := Nested)).
Proof. split; simpl; [by intros i p|done|]. intros i _ [? ?]. by rewrite lookup_empty in *. Qed.

Lemma queue_keeps_ok r0 self stats x self' :
  buf_ok r0 self -> queue self stats x r0 = Ok self' ->
  buf_ok r0 self' /\ (forall j, is_Some (_payloads self' !! j) <-> j = iter stats \/ is_Some (_payloads self !! j)).
Proof.
  intros [Hp Ho H0] Hrun. unfold queue in Hrun. apply bind_Ok in Hrun as (p & Hmk & Hrun).
  assert (Hpi : has_iter_stats p = 1 /\ iter_stats_iter p = iter stats).
  { unfold make_payload in Hmk. destruct (inflight_batching_stats stats); [|done]. by injection Hmk as <-. }
  destruct Hpi as [Hh Hi]. rewrite Hi in Hrun.
  assert (Hkeys : forall j, is_Some (<[iter stats := p]> (_payloads self) !! j)
    <-> j = iter stats \/ is_Some (_payloads self !! j)).
  { intros j. destruct (decide (iter stats = j)) as [<-|Hne].
    - rewrite lookup_insert_eq. naive_solver.
    - rewrite lookup_insert_ne by done. naive_solver. }
  assert (Hpay : forall i q, <[iter stats := p]> (_payloads self) !! i = Some q ->
    has_iter_stats q = 1 /\ iter_stats_iter q = i).
  { intros i q. rewrite lookup_insert_Some. intros [[<- <-]|[_ Hq]]; [done|by apply Hp]. }
  destruct r0; injection Hrun as <-; (split; [split|]); simpl; try done; try by apply note_insert_least.
  intros i _ [->|Hj]%Hkeys; [by rewrite lookup_insert_eq; eauto|].
  destruct (decide (iter stats = i)) as [<-|Hne]; [rewrite lookup_insert_eq; eauto|].
  rewrite lookup_insert_ne by done. by apply H0.
Qed.

(** The discarding loop. *)
Lemma discard_loop keep l : forall self ch,
  let '(self', ch') := fold_left (fun acc i => if keep i : bool then acc else (_discard acc.1 i false, true))
                                 l (self, ch) in
  (forall j, _payloads self' !! j = if bool_decide (j ∈ l) && negb (keep j) then None else _payloads self !! j)
  /\ (forall j, _rank0_iter_stats self' !! j
        = if bool_decide (j ∈ l) && negb (keep j) then None else _rank0_iter_stats self !! j)
  /\ (ch' = false -> ch = false /\ self' = self).
Proof.
  induction l as [|i l IH]; intros self ch; cbn [fold_left].
  { split_and!; [done..|]. by intros ->. }
  destruct (keep i) eqn:Ek; cbn [fst snd].
  - specialize (IH self ch). destruct (fold_left _ l (self, ch)) as [self' ch'].
    destruct IH as (IH1 & IH2 & IH3). split_and!; [| |done]; intros j; rewrite ?IH1, ?IH2;
      (destruct (decide (j = i)) as [->|Hne]; [by rewrite Ek, !andb_false_r|]);
      rewrite (bool_decide_ext (j ∈ i :: l) (j ∈ l)) by set_solver; done.
  - specialize (IH (_discard self i false) true). destruct (fold_left _ l _) as [self' ch'].
    destruct IH as (IH1 & IH2 & IH3). split_and!; [| |intros H; by destruct (IH3 H)]; intros j;
      rewrite ?IH1, ?IH2; simpl;
      (destruct (decide (j = i)) as [->|Hne];
        [rewrite Ek, lookup_delete_eq, (bool_decide_true (i ∈ i :: l)) by set_solver; by case_match|]);
      rewrite lookup_delete_ne by done; rewrite (bool_decide_ext (j ∈ i :: l) (j ∈ l)) by set_solver; done.
Qed.

Lemma discard_unless_ok r0 keep self :
  buf_ok r0 self ->
  buf_ok r0 (discard_unless keep self)
  /\ (forall j, _payloads (discard_unless keep self) !! j = if keep j then _payloads self !! j else None)
  /\ (forall j, keep j = true -> _rank0_iter_stats (discard_unless keep self) !! j = _rank0_iter_stats self !! j).
Proof.
  intros [Hp Ho H0]. unfold discard_unless. pose proof (discard_loop keep (keys (_payloads self)) self false) as Hl.
  destruct (fold_left _ _ _) as [self' ch']. destruct Hl as (H1 & H2 & H3).
  assert (Hpay : forall j, _payloads self' !! j = if keep j then _payloads self !! j else None).
  { intros j. rewrite H1. destruct (keep j); [by rewrite andb_false_r|]. rewrite andb_true_r.
    case_bool_decide as Hin; [done|]. rewrite elem_of_keys in Hin. by apply eq_None_not_Some. }
  assert (H0' : forall j, keep j = true -> _rank0_iter_stats self' !! j = _rank0_iter_stats self !! j).
  { intros j Hj. by rewrite H2, Hj, andb_false_r. }
  assert (Hb : forall o, least_key (_payloads self') o -> 
    buf_ok r0 (set_payloads self' (_payloads self') (_synthetic_iters self') o)).
  { intros o Ho'. split; simpl; [|done|].
    - intros i p. rewrite Hpay. destruct (keep i); [apply Hp|done].
    - intros i Hr. rewrite Hpay. destruct (keep i) eqn:Ek; [|by intros [? ?]]. intros Hi.
      rewrite H0' by done. by apply H0. }
  destruct ch'.
  - split_and!; [apply Hb, min_key_least|exact Hpay|exact H0'].
  - destruct (H3 eq_refl) as [_ ->]. split_and!; [done|exact Hpay|exact H0'].
Qed.

(** Aligning a buffer with iteration [i] of rank 0. *)
Definition sync (i : Z) self : ADPIterStatsBuffer := _ensure_zero_payload (_drop_before self i) i.

Lemma sync_ok r0 i self :
  buf_ok r0 self -> (r0 = true -> is_Some (_payloads self !! i)) ->
  buf_ok r0 (sync i self) /\ _oldest_iter (sync i self) = Some i
  /\ (forall j p, i <= j -> _payloads self !! j = Some p -> _payloads (sync i self) !! j = Some p)
  /\ (_rank0_iter_stats self !! i = _rank0_iter_stats (sync i self) !! i).
Proof.
  intros Hok Hr. destruct (discard_unless_ok r0 (fun j => i <=? j) self Hok) as ([Hp Ho H0] & Hpay & Hst).
  unfold sync, _ensure_zero_payload, _drop_before. set (d := discard_unless _ self) in *.
  assert (Hge : forall j, is_Some (_payloads d !! j) -> i <= j).
  { intros j. rewrite Hpay. destruct (Z.leb_spec i j); [done|by intros [? ?]]. }
  assert (Hkeep : forall j p, i <= j -> _payloads self !! j = Some p -> _payloads d !! j = Some p).
  { intros j p Hj Hjp. rewrite Hpay. by rewrite (proj2 (Z.leb_le _ _) Hj). }
  assert (Hsti : _rank0_iter_stats self !! i = _rank0_iter_stats d !! i).
  { symmetry. apply Hst. apply Z.leb_refl. }
  destruct (_payloads d !! i) as [p|] eqn:Ei.
  - split_and!; [by split| |done|done]. eapply least_key_unique; [| |exact Ho]; eauto.
  - assert (Hins : least_key (<[i := zero_payload i]> (_payloads d)) (_note_payload_insert (_oldest_iter d) i))
      by by apply note_insert_least.
    assert (r0 = false) as ->.
    { destruct r0; [|done]. destruct (Hr eq_refl) as [p Hpi]. rewrite (Hkeep i p) in Ei; [done|lia|done]. }
    split_and!; simpl; [split; simpl; [|done|done]| | |done].
    + intros j q. rewrite lookup_insert_Some. intros [[<- <-]|[_ Hq]]; [done|by apply Hp].
    + eapply least_key_unique; [| |exact Hins]; [rewrite lookup_insert_eq; eauto|].
      intros j. rewrite lookup_insert_is_Some. intros [<-|[_ Hj]]; [lia|by apply Hge].
    + intros j q Hj Hq. apply Hkeep in Hq; [|done]. rewrite lookup_insert_ne; [done|congruence].
Qed.

Lemma clear_through_ok r0 i self :
  buf_ok r0 self ->
  buf_ok r0 (_clear_through self i) /\ forall j, is_Some (_payloads (_clear_through self i) !! j) -> i < j.
Proof.
  intros Hok. destruct (discard_unless_ok r0 (fun j => i <? j) self Hok) as (Hok' & Hpay & _).
  split; [done|]. intros j. unfold _clear_through. rewrite Hpay. destruct (Z.ltb_spec i j); [done|by intros [? ?]].
Qed.

(** The payload a rank sends. *)
Definition pending self : RankIterStatsPayload :=
  default default_payload (o ← _oldest_iter self; _payloads self !! o).

Lemma next_payload_ok r0 self (local : RankState) :
  buf_ok r0 self -> iter_stats local = default_payload ->
  exists o, next_payload self = Ok o /\ iter_stats (copy_iter_stats_from local o) = pending self
    /\ rs_rank (copy_iter_stats_from local o) = rs_rank local.
Proof.
  intros [_ Ho _] Hl. unfold next_payload, pending. destruct (_oldest_iter self) as [i|]; simpl.
  - destruct Ho as [[p Hp] _]. rewrite Hp. by exists (Some p).
  - by exists None.
Qed.

Lemma pending_iter r0 self : buf_ok r0 self ->
  match _oldest_iter self with
  | None => has_iter_stats (pending self) = 0
  | Some i => has_iter_stats (pending self) = 1 /\ iter_stats_iter (pending self) = i
              /\ _payloads self !! i = Some (pending self)
  end.
Proof.
  intros [Hp Ho _]. unfold pending. destruct (_oldest_iter self) as [i|]; simpl; [|done].
  destruct Ho as [[p Hpi] _]. rewrite Hpi. simpl. destruct (Hp i p Hpi). done.
Qed.

End buffer_lemmas.

(** ** The ranks together *)

Section ranks.
Context {Nested : Type}.
Abbreviation buffer := (ADPIterStatsBuffer (Nested := Nested)).

(** One exchange: every rank sends its oldest payload along with its local
    state, and every rank finalizes on what all of them sent. *)
Definition rank_states (locals : list RankState) (bufs : list buffer) : result (list RankState) :=
  payloads ← mapM_result next_payload bufs;
  Ok (zip_with copy_iter_stats_from locals payloads).

Definition exchange (locals : list RankState) (bufs : list buffer)
    : result (list (ADPIterStatsRecord (Nested := Nested)) * list buffer) :=
  states ← rank_states locals bufs;
  let outs := imap (fun k b => finalize b states (Nat.eqb k 0)) bufs in
  Ok (concat outs.*1, outs.*2).

(** The states the ranks create before the exchange. *)
Definition created (tp : nat) (locals : list RankState) : Prop :=
  length locals = tp /\ ranks_in_order locals /\ Forall (fun s => iter_stats s = default_payload) locals.

(** What the ranks can get to, by queueing and exchanging. *)
Inductive reachable (tp : nat) : list buffer -> Prop :=
  | reach_init : reachable tp (replicate tp ADPIterStatsBuffer_init)
  | reach_queue bufs k b stats x b' :
      reachable tp bufs -> bufs !! k = Some b -> queue b stats x (Nat.eqb k 0) = Ok b' ->
      reachable tp (<[k := b']> bufs)
  | reach_exchange bufs locals rows bufs' :
      reachable tp bufs -> created tp locals -> exchange locals bufs = Ok (rows, bufs') ->
      reachable tp bufs'.

Definition all_ok (bufs : list buffer) : Prop :=
  forall k b, bufs !! k = Some b -> buf_ok (Nat.eqb k 0) b.

(** What is in [states] when the buffers are [bufs]. *)
Definition sent (bufs : list buffer) (states : list RankState) : Prop :=
  length states = length bufs
  /\ ranks_in_order states
  /\ forall k b s, bufs !! k = Some b -> states !! k = Some s -> iter_stats s = pending b.

Lemma rank_states_sent locals bufs :
  created (length bufs) locals -> all_ok bufs ->
  exists states, rank_states locals bufs = Ok states /\ sent bufs states.
Proof.
  intros (Hlen & Hord & Hdef) Hok.
  assert (Hall : exists ps, mapM_result next_payload bufs = Ok ps
    /\ Forall2 (fun b p => next_payload b = Ok p) bufs ps).
  { clear Hlen Hord Hdef. 
    assert (Hf : Forall (fun b => exists p, next_payload b = Ok p) bufs).
    { apply Forall_lookup. intros k b Hb. 
      destruct (next_payload_ok _ _ {| rs_rank := 0; num_active_requests := 0; num_active_tokens := 0;
        iter_stats := default_payload |} (Hok k b Hb) eq_refl) as (p & Hp & _). eauto. }
    clear Hok. induction Hf as [|b bufs [p Hp] _ (ps & IH & HF)]; [by exists []|].
    cbn [mapM_result]. rewrite Hp. cbn [mbind result_bind]. rewrite IH. exists (p :: ps). by repeat constructor. }
  destruct Hall as (ps & Hps & HF). unfold rank_states. rewrite Hps. eexists. split; [done|].
  pose proof (Forall2_length _ _ _ HF) as Hlps.
  assert (Hin : forall k s, zip_with copy_iter_stats_from locals ps !! k = Some s ->
    exists l b, locals !! k = Some l /\ bufs !! k = Some b /\ rs_rank s = rs_rank l /\ iter_stats s = pending b).
  { intros k s (l & p & -> & Hl & Hp)%lookup_zip_with_Some.
    destruct (Forall2_lookup_r _ _ _ _ _ HF Hp) as (b & Hb & Hbp). exists l, b. split_and!; [done..| |];
      destruct (next_payload_ok _ b l (Hok k b Hb)) as (p' & Hp' & Hi & Hr);
      [eapply Forall_lookup_1 in Hdef; [exact Hdef|done]| |eapply Forall_lookup_1 in Hdef; [exact Hdef|done]|];
      rewrite Hbp in Hp'; by injection Hp' as <-. }
  split; [rewrite length_zip_with; lia|]. split.
  - intros k s Hs. destruct (Hin k s Hs) as (l & b & Hl & _ & -> & _). by apply Hord.
  - intros k b s Hb Hs. destruct (Hin k s Hs) as (l & b' & _ & Hb' & _ & ->). congruence.
Qed.

(** ** What finalizing does *)

Lemma in_order_head states : ranks_in_order states -> states <> [] ->
  List.find (fun s => rs_rank s =? 0) states = head states.
Proof.
  intros Hord. destruct states as [|s l]; [done|]. intros _. simpl. by rewrite (Hord 0%nat s eq_refl).
Qed.

Lemma in_order_sorted states : ranks_in_order states -> sort_by rank_leb states = states.
Proof.
  unfold ranks_in_order. assert (Hgen : forall n, (forall k s, states !! k = Some s -> rs_rank s = Z.of_nat (n + k)) ->
    sort_by rank_leb states = states); [|intros Hord; by apply (Hgen 0%nat)].
  induction states as [|s l IH]; intros n Hord; [done|].
  change (sort_by rank_leb (s :: l)) with (insert_by rank_leb s (sort_by rank_leb l)).
  rewrite (IH (S n)) by (intros k x Hx; rewrite (Hord (S k) x Hx); f_equal; lia).
  destruct l as [|y l]; [done|]. simpl. unfold rank_leb.
  rewrite (Hord 0%nat s eq_refl), (Hord 1%nat y eq_refl). by rewrite (proj2 (Z.leb_le _ _)) by lia.
Qed.

(** Does every state carry iteration [i]? *)
Definition matches (i : Z) (s : RankState) : bool := has_stats s && (iter_stats_iter (iter_stats s) =? i).

Lemma filter_length_all {A} (f : A -> bool) l : 
  Nat.eqb (length (List.filter f l)) (length l) = forallb f l /\ (forallb f l = true -> List.filter f l = l).
Proof.
  induction l as [|x l [IH1 IH2]]; [done|]. simpl. destruct (f x); simpl.
  - split; [done|]. intros H. by rewrite IH2.
  - split; [|done]. apply Nat.eqb_neq. pose proof (List.filter_length_le f l). lia.
Qed.

Lemma finalize_cases (b : buffer) s0 states r0 :
  ranks_in_order states -> head states = Some s0 ->
  finalize b states r0 =
    if has_stats s0 then
      let i := iter_stats_iter (iter_stats s0) in
      if forallb (matches i) states then
        ((if r0 then match _rank0_iter_stats (sync i b) !! i with
                     | Some st => make_record (sync i b) st i <$> states
                     | None => [] end else []),
         _clear_through (sync i b) i)
      else ([], sync i b)
    else ([], b).
Proof.
  intros Hord Hs0. destruct states as [|s l]; [done|]. injection Hs0 as ->.
  unfold finalize. rewrite in_order_head by done. cbn [head]. 
  destruct (has_stats s0) eqn:E0; cbn [negb].
  - simpl existsb. rewrite E0. cbn [orb negb]. cbv zeta. set (i := iter_stats_iter (iter_stats s0)).
    change (fun s => has_stats s && (iter_stats_iter (iter_stats s) =? i)) with (matches i).
    destruct (filter_length_all (matches i) (s0 :: l)) as [-> Hall].
    destruct (forallb (matches i) (s0 :: l)) eqn:Ef; [|done]. rewrite (Hall eq_refl), in_order_sorted by done.
    cbn [negb]. change (_ensure_zero_payload (_drop_before b i) i) with (sync i b).
    destruct r0; [|done]. by case_match.
  - by destruct (negb _).
Qed.

Lemma matches_pending i (b : buffer) s r0 : buf_ok r0 b -> iter_stats s = pending b ->
  matches i s = bool_decide (_oldest_iter b = Some i)
  /\ has_stats s = bool_decide (is_Some (_oldest_iter b)).
Proof.
  intros Hok Hs. unfold matches, has_stats. rewrite Hs. pose proof (pending_iter r0 b Hok) as Hp.
  destruct (_oldest_iter b) as [o|].
  - destruct Hp as (-> & -> & _). simpl. split; [|done].
    apply eq_true_iff_eq. rewrite Z.eqb_eq, bool_decide_eq_true. naive_solver.
  - by rewrite Hp.
Qed.

(** Do all buffers have [i] as their oldest iteration? *)
Definition aligned (i : Z) (bufs : list buffer) : bool :=
  forallb (fun b : buffer => bool_decide (_oldest_iter b = Some i)) bufs.

Lemma forallb_matches i bufs states : all_ok bufs -> sent bufs states ->
  forallb (matches i) states = aligned i bufs.
Proof.
  intros Hok (Hlen & _ & Hst). unfold aligned. apply eq_true_iff_eq.
  rewrite !List.forallb_forall. setoid_rewrite <- list_elem_of_In. split; intros H.
  - intros b [k Hb]%list_elem_of_lookup. destruct (lookup_lt_is_Some_2 states k) as [s Hs].
    { rewrite Hlen. by eapply lookup_lt_Some. }
    destruct (matches_pending i b s _ (Hok k b Hb) (Hst k b s Hb Hs)) as [<- _]. apply H. by eapply list_elem_of_lookup_2.
  - intros s [k Hs]%list_elem_of_lookup. destruct (lookup_lt_is_Some_2 bufs k) as [b Hb].
    { rewrite <- Hlen. by eapply lookup_lt_Some. }
    destruct (matches_pending i b s _ (Hok k b Hb) (Hst k b s Hb Hs)) as [-> _]. apply H. by eapply list_elem_of_lookup_2.
Qed.

(** The rows of an iteration, when every rank sent it. *)
Definition rows_of (i : Z) (b0 : buffer) (states : list RankState) : list (ADPIterStatsRecord (Nested := Nested)) :=
  match _rank0_iter_stats (sync i b0) !! i with
  | Some st => make_record (sync i b0) st i <$> states
  | None => []
  end.

Lemma concat_nils {A B} (f : nat -> B -> list A) l : (forall k b, f k b = []) -> concat (imap f l) = [].
Proof.
  intros Hf. revert f Hf. induction l as [|x l IH]; intros f Hf; [done|]. rewrite imap_cons. simpl.
  rewrite Hf. apply IH. intros k b. apply Hf.
Qed.

Lemma imap_const {A B} (f : A -> B) l : imap (fun _ => f) l = f <$> l.
Proof. induction l as [|x l IH]; [done|]. rewrite imap_cons. simpl. f_equal. exact IH. Qed.

(** An exchange, by what rank 0 has pending. *)
Lemma exchange_spec locals b0 bufs :
  created (S (length bufs)) locals -> all_ok (b0 :: bufs) ->
  exists states, sent (b0 :: bufs) states /\
    exchange locals (b0 :: bufs) =
      match _oldest_iter b0 with
      | None => Ok ([], b0 :: bufs)
      | Some i =>
          if aligned i (b0 :: bufs)
          then Ok (rows_of i b0 states, (fun b => _clear_through (sync i b) i) <$> b0 :: bufs)
          else Ok ([], sync i <$> b0 :: bufs)
      end.
Proof.
  intros Hc Hok. destruct (rank_states_sent locals (b0 :: bufs) Hc Hok) as (states & Hrun & Hsent).
  exists states. split; [done|]. unfold exchange. rewrite Hrun. cbn [mbind result_bind]. cbv zeta.
  pose proof Hsent as (Hlen & Hord & Hst).
  destruct states as [|s0 states]; [done|].
  rewrite (imap_ext _ (fun k b =>
    if has_stats s0 then
      let i := iter_stats_iter (iter_stats s0) in
      if forallb (matches i) (s0 :: states) then
        ((if Nat.eqb k 0 then rows_of i b (s0 :: states) else []), _clear_through (sync i b) i)
      else ([], sync i b)
    else ([], b))) by (intros k b _; by apply finalize_cases).
  specialize (Hst 0%nat b0 s0 eq_refl eq_refl). pose proof (Hok 0%nat b0 eq_refl) as Hok0.
  rewrite (proj2 (matches_pending 0 b0 s0 _ Hok0 Hst)).
  pose proof (pending_iter _ _ Hok0) as Hp. rewrite <- Hst in Hp.
  destruct (_oldest_iter b0) as [i|].
  - rewrite bool_decide_true by eauto. destruct Hp as (_ & -> & _). cbv zeta.
    rewrite (forallb_matches i (b0 :: bufs)) by done. destruct (aligned i (b0 :: bufs)).
    + f_equal. f_equal; rewrite !fmap_imap; unfold compose; simpl.
      * by rewrite concat_nils, app_nil_r.
      * f_equal. unfold compose. simpl. apply imap_const.
    + f_equal. f_equal; rewrite !fmap_imap; unfold compose; [by apply concat_nils|apply imap_const].
  - rewrite bool_decide_false by (by intros [? ?]). f_equal.
    f_equal; rewrite !fmap_imap; unfold compose; [by apply concat_nils|]. rewrite imap_const. apply list_fmap_id.
Qed.

(** What a row says. *)
Lemma rows_of_spec i b0 bufs states :
  all_ok (b0 :: bufs) -> sent (b0 :: bufs) states -> aligned i (b0 :: bufs) = true ->
  length (rows_of i b0 states) = S (length bufs)
  /\ forall k row, rows_of i b0 states !! k = Some row ->
       exists b p stats0, (b0 :: bufs) !! k = Some b /\ _payloads b !! i = Some p
         /\ _rank0_iter_stats b0 !! i = Some stats0 /\ iter stats0 = i
         /\ rec_attention_dp_rank row = Z.of_nat k /\ iter (rec_stats row) = i
         /\ rec_stats row = _make_rank_iter_stats stats0
              {| rs_rank := Z.of_nat k; num_active_requests := 0; num_active_tokens := 0; iter_stats := p |}.
Proof.
  intros Hok (Hlen & Hord & Hst) Hal. unfold aligned in Hal. rewrite List.forallb_forall in Hal.
  assert (Hold : forall k b, (b0 :: bufs) !! k = Some b -> _oldest_iter b = Some i).
  { intros k b Hb. eapply bool_decide_eq_true_1, Hal, list_elem_of_In. by eapply list_elem_of_lookup_2. }
  pose proof (Hok 0%nat b0 eq_refl) as Hok0. pose proof (pending_iter _ _ Hok0) as Hp0.
  rewrite (Hold 0%nat b0 eq_refl) in Hp0. destruct Hp0 as (_ & _ & Hp0).
  destruct (ok_rank0 _ _ Hok0 i eq_refl) as (stats0 & Hs0 & Hi0); [eauto|].
  destruct (sync_ok true i b0 Hok0) as (_ & _ & _ & Hsync); [eauto|].
  unfold rows_of. rewrite <- Hsync, Hs0. rewrite length_fmap. split; [done|].
  intros k row. rewrite list_lookup_fmap. intros (s & Hs & ->)%fmap_Some.
  destruct (lookup_lt_is_Some_2 (b0 :: bufs) k) as [b Hb]; [rewrite <- Hlen; by eapply lookup_lt_Some|].
  pose proof (pending_iter _ _ (Hok k b Hb)) as Hp. rewrite (Hold k b Hb) in Hp. destruct Hp as (_ & _ & Hp).
  exists b, (pending b), stats0. split_and!; try done; [by apply Hord|].
  unfold make_record, _make_rank_iter_stats, rank_ifb. cbn [rec_stats rs_rank iter_stats].
  rewrite (Hord k s Hs), (Hst k b s Hb Hs). done.
Qed.

(** ** Invariant *)

Lemma all_ok_fmap (f : buffer -> buffer) bufs :
  all_ok bufs -> (forall k b, bufs !! k = Some b -> buf_ok (Nat.eqb k 0) (f b)) -> all_ok (f <$> bufs).
Proof. intros _ Hf k b. rewrite list_lookup_fmap. intros (b' & Hb & ->)%fmap_Some. by apply Hf. Qed.

Lemma sync_all_ok i b0 bufs :
  all_ok (b0 :: bufs) -> _oldest_iter b0 = Some i ->
  all_ok (sync i <$> b0 :: bufs)
  /\ (forall k b, (sync i <$> b0 :: bufs) !! k = Some b -> _oldest_iter b = Some i).
Proof.
  intros Hok Hi.
  assert (Hk : forall k b, (b0 :: bufs) !! k = Some b -> buf_ok (Nat.eqb k 0) (sync i b) /\ _oldest_iter (sync i b) = Some i).
  { intros k b Hb. destruct (sync_ok (Nat.eqb k 0) i b (Hok k b Hb)) as (H1 & H2 & _); [|done].
    intros Hk%Nat.eqb_eq. subst k. injection Hb as <-. pose proof (ok_oldest _ _ (Hok 0%nat b0 eq_refl)) as Ho.
    rewrite Hi in Ho. by apply Ho. }
  split.
  - apply all_ok_fmap; [done|]. intros k b Hb. by apply Hk.
  - intros k b. rewrite list_lookup_fmap. intros (b' & Hb & ->)%fmap_Some. by apply (Hk k).
Qed.

Lemma clear_all_ok i bufs :
  all_ok bufs ->
  all_ok ((fun b => _clear_through b i) <$> bufs)
  /\ (forall k b j, ((fun b => _clear_through b i) <$> bufs) !! k = Some b -> is_Some (_payloads b !! j) -> i < j).
Proof.
  intros Hok. split.
  - apply all_ok_fmap; [done|]. intros k b Hb. apply clear_through_ok. by apply Hok.
  - intros k b j. rewrite list_lookup_fmap. intros (b' & Hb & ->)%fmap_Some. by apply (clear_through_ok _ i b' (Hok k b' Hb)).
Qed.

Lemma exchange_keeps_ok locals bufs rows bufs' :
  created (length bufs) locals -> all_ok bufs -> exchange locals bufs = Ok (rows, bufs') ->
  all_ok bufs' /\ length bufs' = length bufs.
Proof.
  intros Hc Hok Hrun. destruct bufs as [|b0 bufs].
  { unfold exchange in Hrun. apply bind_Ok in Hrun as (st & _ & Hrun). by injection Hrun as <- <-. }
  destruct (exchange_spec locals b0 bufs Hc Hok) as (states & _ & Hex). rewrite Hrun in Hex.
  destruct (_oldest_iter b0) as [i|] eqn:Ei; [|by injection Hex as -> ->].
  destruct (sync_all_ok i b0 bufs Hok Ei) as [Hs _].
  destruct (aligned i (b0 :: bufs)); injection Hex as -> ->; [|split; [done|apply (length_fmap (sync i) (b0 :: bufs))]].
  split; [|apply (length_fmap (fun b => _clear_through (sync i b) i) (b0 :: bufs))]. destruct (clear_all_ok i _ Hs) as [Hcl _]. by rewrite <- list_fmap_compose in Hcl.
Qed.

Lemma reachable_ok tp bufs : reachable tp bufs -> all_ok bufs /\ length bufs = tp.
Proof.
  induction 1 as [|bufs k b stats x b' _ [IH Hlen] Hb Hq|bufs locals rows bufs' _ [IH Hlen] Hc Hrun].
  - split; [|apply length_replicate]. intros k b [-> _]%lookup_replicate_1. apply init_ok.
  - split; [|by rewrite length_insert]. intros k' b''. rewrite list_lookup_insert_Some.
    intros [(<- & <- & _)|[_ Hb'']]; [|by apply IH]. by eapply queue_keeps_ok; [apply IH|].
  - subst tp. by eapply exchange_keeps_ok.
Qed.

(** Queueing, at any ranks and in any order, of statistics from iteration [i] on. *)
Inductive queues (i : Z) (bufs : list buffer) : list buffer -> Prop :=
  | queues_none : queues i bufs bufs
  | queues_one bufs1 k b stats x b' :
      queues i bufs bufs1 -> bufs1 !! k = Some b -> i <= iter stats ->
      queue b stats x (Nat.eqb k 0) = Ok b' -> queues i bufs (<[k := b']> bufs1).

Lemma queues_keep_ok i bufs bufs1 :
  queues i bufs bufs1 -> all_ok bufs -> all_ok bufs1 /\ length bufs1 = length bufs.
Proof.
  intros Hq Hok. induction Hq as [|bufs1 k b stats x b' _ (IH1 & IH2) Hb Hle Hq]; [done|].
  split; [|by rewrite length_insert].
  intros k' b''. rewrite list_lookup_insert_Some. intros [(<- & <- & _)|[_ Hb'']]; [|by apply IH1].
  by eapply queue_keeps_ok; [apply IH1|].
Qed.

Lemma queues_keep_oldest i bufs bufs1 :
  queues i bufs bufs1 -> all_ok bufs -> (forall k b, bufs !! k = Some b -> _oldest_iter b = Some i) ->
  forall k b, bufs1 !! k = Some b -> _oldest_iter b = Some i.
Proof.
  intros Hq Hok Hi. induction Hq as [|bufs1 k b stats x b' Hq1 IH Hb Hle Hq]; [done|].
  destruct (queues_keep_ok _ _ _ Hq1 Hok) as [Hok1 _].
  destruct (queue_keeps_ok _ _ _ _ _ (Hok1 k b Hb) Hq) as [Hok' Hkeys].
  intros k' b''. rewrite list_lookup_insert_Some. intros [(<- & <- & _)|[_ Hb'']]; [|by apply (IH k')].
  pose proof (ok_oldest _ _ (Hok1 k b Hb)) as Ho. rewrite (IH k b Hb) in Ho. destruct Ho as [Hsome Hmin].
  eapply least_key_unique; [| |apply (ok_oldest _ _ Hok')].
  - apply Hkeys. by right.
  - intros j [->|Hj]%Hkeys; [done|by apply Hmin].
Qed.

Lemma exchange_total locals bufs :
  created (length bufs) locals -> all_ok bufs -> exists rows bufs', exchange locals bufs = Ok (rows, bufs').
Proof.
  intros Hc Hok. destruct (rank_states_sent locals bufs Hc Hok) as (st & Hrun & _).
  unfold exchange. rewrite Hrun. simpl. eauto.
Qed.

Lemma aligned_of_oldest i bufs :
  (forall k b, bufs !! k = Some b -> _oldest_iter b = Some i) -> aligned i bufs = true.
Proof.
  intros Hi. apply List.forallb_forall. intros b [k Hb]%list_elem_of_In%list_elem_of_lookup.
  rewrite (Hi k b Hb). by rewrite bool_decide_true.
Qed.

(** When every rank has [i] pending, an exchange emits it. *)
Lemma exchange_emits i locals b0 bufs :
  created (S (length bufs)) locals -> all_ok (b0 :: bufs) -> _oldest_iter b0 = Some i ->
  aligned i (b0 :: bufs) = true ->
  exists rows bufs', exchange locals (b0 :: bufs) = Ok (rows, bufs')
    /\ length rows = S (length bufs) /\ Forall (fun row => iter (rec_stats row) = i) rows.
Proof.
  intros Hc Hok Hi Hal. destruct (exchange_spec locals b0 bufs Hc Hok) as (states & Hsent & ->).
  rewrite Hi, Hal. eexists _, _. split; [done|].
  destruct (rows_of_spec i b0 bufs states Hok Hsent Hal) as [Hlen Hrow]. split; [done|].
  apply Forall_lookup. intros k row Hr. destruct (Hrow k row Hr) as (b & p & st & _ & _ & _ & _ & _ & -> & _). done.
Qed.

End ranks.

(** What the row of rank [k] reports of the payload [p] that rank sent: the
    rank's own counts; the queue is reported by rank 0 alone. *)
Definition reports {Nested} (row : ADPIterStatsRecord (Nested := Nested)) (k : nat) (p : RankIterStatsPayload) : Prop :=
  exists ifb, inflight_batching_stats (rec_stats row) = Some ifb
    /\ ifb_num_context_requests ifb = num_context_requests p /\ ifb_num_gen_requests ifb = num_gen_requests p
    /\ ifb_num_scheduled_requests ifb = num_context_requests p + num_gen_requests p
    /\ ifb_num_ctx_tokens ifb = num_ctx_tokens p /\ ifb_num_ctx_kv_tokens ifb = num_ctx_kv_tokens p
    /\ ifb_num_gen_kv_tokens ifb = num_gen_kv_tokens p
    /\ ifb_num_paused_requests ifb = num_paused_requests p
    /\ ifb_num_paused_kv_tokens ifb = num_paused_kv_tokens p
    /\ (k <> 0%nat -> num_queued_requests (rec_stats row) = 0 /\ num_completed_requests (rec_stats row) = 0
          /\ num_new_active_requests (rec_stats row) = 0 /\ ifb_num_queued_context_requests ifb = 0
          /\ ifb_num_queued_gen_requests ifb = 0).

Lemma row_reports {Nested} (row : ADPIterStatsRecord (Nested := Nested)) k p stats0 :
  rec_stats row = _make_rank_iter_stats stats0
    {| rs_rank := Z.of_nat k; num_active_requests := 0; num_active_tokens := 0; iter_stats := p |} ->
  reports row k p.
Proof.
  intros Hr. unfold reports. rewrite Hr. eexists. split; [done|]. simpl. split_and!; try done.
  intros Hk. rewrite (proj2 (Z.eqb_neq _ _)) by lia. by destruct (inflight_batching_stats stats0).
Qed.

(** Nothing queued for an iteration after [i] is lost, nor, if [kept], for [i] itself. *)
Definition later_kept {Nested} (i : Z) (kept : bool) (bufs bufs' : list (ADPIterStatsBuffer (Nested := Nested))) : Prop :=
  forall k b j p, bufs !! k = Some b -> _payloads b !! j = Some p -> (if kept then i <= j else i < j) ->
    exists b', bufs' !! k = Some b' /\ _payloads b' !! j = Some p.

Lemma sync_later_kept {Nested} i (b0 : ADPIterStatsBuffer (Nested := Nested)) bufs :
  all_ok (b0 :: bufs) -> _oldest_iter b0 = Some i -> later_kept i true (b0 :: bufs) (sync i <$> b0 :: bufs).
Proof.
  intros Hok Hi k b j p Hb Hp Hj. exists (sync i b). split; [by rewrite list_lookup_fmap, Hb|].
  apply (sync_ok (Nat.eqb k 0) i b (Hok k b Hb)); [|done..].
  intros Hk%Nat.eqb_eq. subst k. injection Hb as <-. pose proof (ok_oldest _ _ (Hok 0%nat b0 eq_refl)) as Ho.
  rewrite Hi in Ho. apply Ho.
Qed.

Lemma clear_later_kept {Nested} i (bufs : list (ADPIterStatsBuffer (Nested := Nested))) :
  all_ok bufs -> later_kept i false bufs ((fun b => _clear_through b i) <$> bufs).
Proof.
  intros Hok k b j p Hb Hp Hj. exists (_clear_through b i). split; [by rewrite list_lookup_fmap, Hb|].
  destruct (discard_unless_ok _ (fun j => i <? j) b (Hok k b Hb)) as (_ & Hpay & _).
  unfold _clear_through. rewrite Hpay. by rewrite (proj2 (Z.ltb_lt _ _) Hj).
Qed.

Lemma aligned_oldest {Nested} i (bufs : list (ADPIterStatsBuffer (Nested := Nested))) :
  all_ok bufs -> aligned i bufs = true -> forall k b, bufs !! k = Some b -> least_key (_payloads b) (Some i).
Proof.
  intros Hok Hal k b Hb. unfold aligned in Hal. rewrite List.forallb_forall in Hal.
  rewrite <- (bool_decide_eq_true_1 _ (Hal b (proj1 (list_elem_of_In _ _) (list_elem_of_lookup_2 _ _ _ Hb)))). apply (Hok k b Hb).
Qed.

Lemma not_aligned {Nested} i (bufs : list (ADPIterStatsBuffer (Nested := Nested))) :
  all_ok bufs -> aligned i bufs = false -> exists k b, bufs !! k = Some b /\ ~ least_key (_payloads b) (Some i).
Proof.
  intros Hok Hal. apply not_true_iff_false in Hal. unfold aligned in Hal. rewrite <- Is_true_true, forallb_True in Hal.
  apply not_Forall_Exists in Hal; [|intros x; apply _]. apply Exists_exists in Hal as (b & [k Hb]%list_elem_of_lookup & Hne).
  exists k, b. split; [done|]. intros [Hi Hmin]. apply Hne, bool_decide_spec.
  by eapply least_key_unique; [..|apply (ok_oldest _ _ (Hok k b Hb))].
Qed.

(** C4. An exchange never fails and reports an iteration for all ranks or for
    none.  With [i] the oldest iteration rank 0 has pending: if it is the oldest of
    every rank, one row per rank is emitted in the order of ranks, all for [i], each
    with the counts that rank queued for it; then no rank has [i] or an older iteration
    left, and what it queued for later ones is still there.  Otherwise, or if rank 0 has
    nothing pending, nothing is emitted; then [i] is the oldest of every rank, and nothing
    queued for it or a later one is lost. *)
Theorem fanout_all_or_none {Nested} tp (bufs : list (ADPIterStatsBuffer (Nested := Nested))) locals :
  reachable tp bufs -> created tp locals ->
  exists rows bufs', exchange locals bufs = Ok (rows, bufs')
    /\ match bufs with
       | [] => rows = []
       | b0 :: _ =>
           (_payloads b0 = ∅ /\ rows = [] /\ bufs' = bufs)
           \/ exists i, least_key (_payloads b0) (Some i)
                /\ ((forall k b, bufs !! k = Some b -> least_key (_payloads b) (Some i))
                     /\ length rows = tp
                     /\ (forall k row, rows !! k = Some row ->
                           rec_attention_dp_rank row = Z.of_nat k /\ iter (rec_stats row) = i
                           /\ exists b p, bufs !! k = Some b /\ _payloads b !! i = Some p /\ reports row k p)
                     /\ (forall k b j, bufs' !! k = Some b -> is_Some (_payloads b !! j) -> i < j)
                     /\ later_kept i false bufs bufs'
                   \/ (exists k b, bufs !! k = Some b /\ ~ least_key (_payloads b) (Some i))
                     /\ rows = []
                     /\ (forall k b, bufs' !! k = Some b -> least_key (_payloads b) (Some i))
                     /\ later_kept i true bufs bufs')
       end.
Proof.
  intros Hr Hc. destruct (reachable_ok tp bufs Hr) as [Hok <-]. destruct bufs as [|b0 bufs].
  { destruct (rank_states_sent locals [] Hc Hok) as (st & Hrun & _). unfold exchange. rewrite Hrun. eauto. }
  destruct (exchange_spec locals b0 bufs Hc Hok) as (states & Hsent & ->).
  pose proof (ok_oldest _ _ (Hok 0%nat b0 eq_refl)) as Ho.
  destruct (_oldest_iter b0) as [i|] eqn:Ei; [|eexists _, _; split; [done|]; by left].
  pose proof (sync_later_kept i b0 bufs Hok Ei) as Hsk. destruct (sync_all_ok i b0 bufs Hok Ei) as [Hs Hold].
  destruct (aligned i (b0 :: bufs)) eqn:Hal; eexists _, _; (split; [done|]); right; exists i; (split; [done|]).
  - left. destruct (rows_of_spec i b0 bufs states Hok Hsent Hal) as [Hlen Hrow]. destruct (clear_all_ok i _ Hs) as [_ Hcl].
    rewrite <- list_fmap_compose in Hcl. split_and!; [by apply aligned_oldest|done| |exact Hcl|].
    + intros k row Hk. destruct (Hrow k row Hk) as (b & p & st & Hb & Hp & _ & _ & Hrk & Hit & Hst).
      split_and!; [done..|]. exists b, p. split_and!; [done..|]. by eapply row_reports.
    + pose proof (clear_later_kept i _ Hs) as Hck. rewrite <- list_fmap_compose in Hck. intros k b j p Hb Hp Hj.
      destruct (Hsk k b j p Hb Hp) as (b' & Hb' & Hp'); [simpl; lia|]. by eapply Hck.
  - right. split_and!; [by apply not_aligned|done| |done].
    intros k b Hb. rewrite <- (Hold k b Hb). by apply (ok_oldest _ _ (Hs k b Hb)).
Qed.

(** Progress: the oldest iteration that rank 0 has pending is reported for
    all ranks within two exchanges, whatever was pending on the other ranks and
    whatever statistics of that or later iterations are queued in between. *)
Theorem fanout_within_two_exchanges {Nested} tp (bufs : list (ADPIterStatsBuffer (Nested := Nested)))
    b0 i locals1 locals2 :
  reachable tp bufs -> created tp locals1 -> created tp locals2 ->
  bufs !! 0%nat = Some b0 -> _oldest_iter b0 = Some i ->
  exists rows1 bufs1, exchange locals1 bufs = Ok (rows1, bufs1)
    /\ forall bufs2, queues i bufs1 bufs2 ->
       exists rows2 bufs3, exchange locals2 bufs2 = Ok (rows2, bufs3)
         /\ exists rows, (rows = rows1 \/ rows = rows2) /\ length rows = tp
              /\ Forall (fun row => iter (rec_stats row) = i) rows.
Proof.
  intros Hr Hc1 Hc2 Hb0 Hi. destruct (reachable_ok tp bufs Hr) as [Hok <-].
  destruct bufs as [|b bufs]; [done|]. injection Hb0 as ->.
  destruct (aligned i (b0 :: bufs)) eqn:Hal.
  - destruct (exchange_emits i locals1 b0 bufs Hc1 Hok Hi Hal) as (rows1 & bufs1 & Hrun & Hlen & Hall).
    exists rows1, bufs1. split; [done|]. intros bufs2 Hq.
    destruct (exchange_keeps_ok _ _ _ _ Hc1 Hok Hrun) as [Hok1 Hlen1].
    destruct (queues_keep_ok _ _ _ Hq Hok1) as [Hok2 Hlen2].
    destruct (exchange_total locals2 bufs2) as (rows2 & bufs3 & Hrun2); [by rewrite Hlen2, Hlen1|done|]. eauto 9.
  - destruct (exchange_spec locals1 b0 bufs Hc1 Hok) as (states & Hsent & Hrun). rewrite Hi, Hal in Hrun.
    eexists _, _. split; [exact Hrun|]. intros bufs2 Hq. destruct (sync_all_ok i b0 bufs Hok Hi) as [Hs Hso].
    destruct (queues_keep_ok _ _ _ Hq Hs) as [Hok2 Hlen2]. pose proof (queues_keep_oldest _ _ _ Hq Hs Hso) as Hold2.
    rewrite length_fmap in Hlen2. destruct bufs2 as [|b2 bufs2]; [done|]. injection Hlen2 as Hlen2.
    destruct (exchange_emits i locals2 b2 bufs2) as (rows2 & bufs3 & Hrun2 & Hl2 & Hall2);
      [by rewrite Hlen2|done|by apply (Hold2 0%nat)|by apply aligned_of_oldest|].
    exists rows2, bufs3. split; [done|]. exists rows2. rewrite Hl2, Hlen2. eauto.
Qed.

(** *** Two ranks: rank 0 has iteration 3 pending, rank 1 iterations 2 and 5. *)

Definition wit_iter_stats (i ctx : Z) : IterationStats (Nested := unit) :=
  {| timestamp := "t"; iter := i; iter_latency_ms := float_of_Z 1;
     new_active_requests_queue_latency_ms := float_of_Z 2; num_new_active_requests := 1;
     it_num_active_requests := 4; num_queued_requests := 7; num_completed_requests := 1;
     it_max_num_active_requests := 8; gpu_mem_usage := 0; cpu_mem_usage := 0; pinned_mem_usage := 0;
     kv_cache_stats := None; cross_kv_cache_stats := None; static_batching_stats := None; specdec_stats := None;
     inflight_batching_stats := Some
       {| ifb_num_scheduled_requests := ctx + 2; ifb_num_context_requests := ctx; ifb_num_gen_requests := 2;
          ifb_num_paused_requests := 0; ifb_num_ctx_tokens := 10 * ctx; ifb_micro_batch_id := 0;
          ifb_avg_num_decoded_tokens_per_iter := float_of_Z 1; ifb_num_ctx_kv_tokens := 0;
          ifb_num_gen_kv_tokens := 30; ifb_num_queued_context_requests := 5; ifb_num_queued_ctx_tokens := 50;
          ifb_num_queued_gen_requests := 2; ifb_num_queued_gen_kv_tokens := 20; ifb_num_paused_kv_tokens := 0 |} |}.

Definition wit_extras : Extras (Nested := unit) :=
  {| x_req_stats := Some tt; x_kv_iter_stats := None; x_host_step_time_ms := None;
     x_prev_device_step_time_ms := None; x_gpu_forward_time_ms := None |}.

Definition wit_locals : list RankState := (fun k => create_rank_state false k []) <$> [0; 1].

(** Queue on the rank with index [k]. *)
Definition wit_queue_on (k : nat) (i ctx : Z) (bufs : list (ADPIterStatsBuffer (Nested := unit))) :=
  match bufs !! k with
  | Some b => match queue b (wit_iter_stats i ctx) wit_extras (Nat.eqb k 0) with
              | Ok b' => <[k := b']> bufs | Err _ => bufs end
  | None => bufs
  end.

Definition wit_bufs : list (ADPIterStatsBuffer (Nested := unit)) :=
  wit_queue_on 1 5 1 (wit_queue_on 1 2 9 (wit_queue_on 0 3 4 (replicate 2 ADPIterStatsBuffer_init))).

Lemma wit_queue_reachable k i ctx bufs :
  reachable 2 bufs -> reachable 2 (wit_queue_on k i ctx bufs).
Proof.
  intros Hr. unfold wit_queue_on. destruct (bufs !! k) as [b|] eqn:Eb; [|done].
  destruct (queue b (wit_iter_stats i ctx) wit_extras (k =? 0)%nat) as [b'|] eqn:Eq; [|done].
  by eapply reach_queue.
Qed.

Lemma wit_bufs_reachable : reachable 2 wit_bufs.
Proof. do 3 apply wit_queue_reachable. apply reach_init. Qed.

Lemma wit_locals_created : created 2 wit_locals.
Proof.
  split; [done|]. split; [|by repeat constructor].
  intros [|[|k]] s; simpl; intros [= <-]; done.
Qed.

(** The first exchange drops iteration 2 of rank 1 and gives it a zero row for
    iteration 3, the second reports iteration 3; rank 1's iteration 5 stays. *)
Example wit_two_exchanges :
  match exchange wit_locals wit_bufs with
  | Ok (rows1, bufs1) =>
      rows1 = [] /\
      match exchange wit_locals bufs1 with
      | Ok (rows2, bufs2) =>
          (fun row => (rec_attention_dp_rank row, iter (rec_stats row), num_queued_requests (rec_stats row),
                       ifb_num_context_requests <$> inflight_batching_stats (rec_stats row))) <$> rows2
            = [(0, 3, 7, Some 4); (1, 3, 0, Some 0)]
          /\ _oldest_iter <$> bufs2 = [None; Some 5]
      | Err _ => False
      end
  | Err _ => False
  end.
Proof. vm_compute. done. Qed.

Lemma fanout_all_or_none_witness :
  exists bufs', exchange wit_locals wit_bufs = Ok ([], bufs')
    /\ forall k b, bufs' !! k = Some b -> least_key (_payloads b) (Some 3).
Proof.
  destruct (fanout_all_or_none 2 wit_bufs wit_locals wit_bufs_reachable wit_locals_created)
    as (rows & bufs' & Hrun & Hcases). pose proof Hrun as Hval. vm_compute in Hval. injection Hval as Hrows _.
  destruct rows; [|discriminate Hrows]. exists bufs'. split; [exact Hrun|].
  destruct Hcases as [[He _]|(i & Hi & [(_ & Hlen & _)|(_ & _ & Hnew & _)])].
  - vm_compute in He. discriminate He.
  - discriminate Hlen.
  - assert (Hi3 : Some 3 = Some i).
    { apply (least_key_unique _ _ (proj1 Hi) (proj2 Hi)).
      apply (ok_oldest _ _ (proj1 (reachable_ok 2 wit_bufs wit_bufs_reachable) 0%nat _ eq_refl)). }
    injection Hi3 as <-. exact Hnew.
Defined.

Lemma fanout_within_two_exchanges_witness :
  exists rows1 bufs1 rows2 bufs3,
    exchange wit_locals wit_bufs = Ok (rows1, bufs1)
    /\ exchange wit_locals (wit_queue_on 1 6 2 bufs1) = Ok (rows2, bufs3)
    /\ (length rows1 = 2%nat \/ length rows2 = 2%nat).
Proof.
  destruct (fanout_within_two_exchanges 2 wit_bufs _ 3 wit_locals wit_locals
    wit_bufs_reachable wit_locals_created wit_locals_created eq_refl eq_refl) as (rows1 & bufs1 & Hrun1 & Hnext).
  destruct (Hnext (wit_queue_on 1 6 2 bufs1)) as (rows2 & bufs3 & Hrun2 & rows & Hor & Hlen & _).
  - unfold wit_queue_on. destruct (bufs1 !! 1%nat) as [b|] eqn:Eb; [|apply queues_none].
    destruct (queue b (wit_iter_stats 6 2) wit_extras (1 =? 0)%nat) as [b'|] eqn:Eq; [|apply queues_none].
    eapply queues_one; [apply queues_none|exact Eb| |exact Eq]. vm_compute. discriminate.
  - exists rows1, bufs1, rows2, bufs3. split; [exact Hrun1|]. split; [exact Hrun2|].
    destruct Hor as [<-|<-]; [left|right]; exact Hlen.
Defined.
