(* ===== verification/KvAwareRouter.v ===== *)
(** * The KV-cache-aware router

    [KVCacheAwareADPRouter] of
    [_torch/pyexecutor/scheduler/adp_router.py]: prefix matches are exchanged
    between the ranks, cold ranks are warmed up first, and the remaining
    requests go to the rank with the best score of cache hits and load.  Floats
    are IEEE numbers ([PyFloat]); the prefix probe of the cache manager, the
    collective and the seeded shuffle are parameters. *)

From stdpp Require Import prelude gmap sorting.
From Stdlib Require Import Floats.SpecFloat.
From S2P Require Import Prelude PyFloat RequestQueue Admission AdpRouter.
Local Open Scope Z_scope.

(** ** State *)

Record KVCacheAwareADPRouter := {
  load_balance_weight : float;
  match_rate_threshold : float;
  fair_share_multiplier : float;
  _all_ranks_prefix_matches : list (gmap Z Z);
  _pending_warmup_ranks : gset Z;
}.

Definition KVCacheAwareADPRouter_init (weight threshold multiplier : float) (dp_size : nat)
    (cold_start_warmup : bool) : KVCacheAwareADPRouter :=
  {| load_balance_weight := weight; match_rate_threshold := threshold; fair_share_multiplier := multiplier;
     _all_ranks_prefix_matches := [];
     _pending_warmup_ranks := if cold_start_warmup then list_to_set (Z.of_nat <$> seq 0 dp_size) else ∅ |}.

Definition set_prefix_matches (self : KVCacheAwareADPRouter) (m : list (gmap Z Z)) : KVCacheAwareADPRouter :=
  {| load_balance_weight := load_balance_weight self; match_rate_threshold := match_rate_threshold self;
     fair_share_multiplier := fair_share_multiplier self; _all_ranks_prefix_matches := m;
     _pending_warmup_ranks := _pending_warmup_ranks self |}.

Definition set_pending_warmup (self : KVCacheAwareADPRouter) (s : gset Z) : KVCacheAwareADPRouter :=
  {| load_balance_weight := load_balance_weight self; match_rate_threshold := match_rate_threshold self;
     fair_share_multiplier := fair_share_multiplier self;
     _all_ranks_prefix_matches := _all_ranks_prefix_matches self; _pending_warmup_ranks := s |}.

(** [_active_tokens]: what is left to compute. *)
Definition _active_tokens (has_cp_helix : bool) (req : ActiveRequest) : Z :=
  if has_cp_helix then Z.max (total_input_len_cp req - cached_tokens req) 0
  else Z.max (py_orig_prompt_len req - cached_tokens req) 0.

(** [in_transfer]: the requests still sending their cache, if there is a
    transfer manager. *)
Definition create_rank_state_kv (has_cp_helix : bool) (tp_rank : Z) (active_requests : list ActiveRequest)
    (in_transfer : option (list ActiveRequest)) : RankState :=
  let num_tokens := zsum (_active_tokens has_cp_helix) active_requests in
  let n_active := len active_requests in
  match in_transfer with
  | Some l =>
      {| rs_rank := tp_rank; num_active_requests := n_active + len l;
         num_active_tokens := num_tokens + zsum (_active_tokens has_cp_helix) l;
         iter_stats := default_payload |}
  | None =>
      {| rs_rank := tp_rank; num_active_requests := n_active; num_active_tokens := num_tokens;
         iter_stats := default_payload |}
  end.

(** ** Prefix matches *)

(** The local probe of one request: [[req_item.id, match_len]]. *)
Definition local_match (probe_prefix_match_length : list Z -> option Z -> Z) (item : RequestQueueItem) : Z * Z :=
  match item_request item with
  | None => (item_id item, 0)
  | Some req =>
      let input_tokens := input_token_ids req in
      let probe_tokens := if Nat.ltb 1 (length input_tokens) then removelast input_tokens else [] in
      (item_id item, probe_prefix_match_length probe_tokens (lora_task_id req))
  end.

Definition local_matches (probe : list Z -> option Z -> Z) (new_requests : list RequestQueueItem) : list Z :=
  concat ((fun item => [(local_match probe item).1; (local_match probe item).2]) <$> new_requests).

(** [for i in range(0, len(rank_data), 2)]: a later entry of the same request
    wins, an odd element raises. *)
Fixpoint parse_matches (matches : gmap Z Z) (rank_data : list Z) : result (gmap Z Z) :=
  match rank_data with
  | [] => Ok matches
  | [_] => Err IndexError
  | req_id :: match_len :: rest => parse_matches (<[req_id := match_len]> matches) rest
  end.

Definition gather_prefix_matches (probe : list Z -> option Z -> Z) (tp_allgather : list Z -> list (list Z))
    (self : KVCacheAwareADPRouter) (new_requests : list RequestQueueItem) : result KVCacheAwareADPRouter :=
  all_matches ← mapM_result (parse_matches ∅) (tp_allgather (local_matches probe new_requests));
  Ok (set_prefix_matches self all_matches).

Definition _match_len (self : KVCacheAwareADPRouter) (r : Z) (req_id : Z) : result Z :=
  let matches := _all_ranks_prefix_matches self in
  if r <? len matches then
    m ← py_get matches r; Ok (default 0 (m !! req_id))
  else Ok 0.

(** ** Scores *)

Definition _score_rank (self : KVCacheAwareADPRouter) (req_tokens match_len : Z)
    (rank_active_tokens load_denom : float) : result float :=
  let effective := float_of_Z (req_tokens - match_len) in
  q ← fdiv rank_active_tokens load_denom;
  let normalized_load := fmul q (float_of_Z req_tokens) in
  Ok (fadd effective (fmul (load_balance_weight self) normalized_load)).

Definition _prefix_fingerprint (token_ids : list Z) : list Z := take 64 token_ids.

(** [<=] of tuples of numbers. *)
Fixpoint tuple_leb (a b : list Z) : bool :=
  match a, b with
  | [], _ => true
  | _ :: _, [] => false
  | x :: a', y :: b' => (x <? y) || ((x =? y) && tuple_leb a' b')
  end.

(** [_sort_key]: by fingerprint, then longer requests first. *)
Definition request_tokens (item : RequestQueueItem) : list Z :=
  match item_request item with Some r => input_token_ids r | None => [] end.

Definition sort_key_leb (x y : RequestQueueItem) : bool :=
  let fx := _prefix_fingerprint (request_tokens x) in
  let fy := _prefix_fingerprint (request_tokens y) in
  if bool_decide (fx = fy) then - token_count x <=? - token_count y else tuple_leb fx fy.

(** ** Routing *)

(** [min] of a set. *)
Definition set_min (s : gset Z) : option Z :=
  match elements s with
  | [] => None
  | x :: l => Some (fold_left Z.min l x)
  end.

(** The rank a request should go to first: the one it asks for, or the smallest
    cold one. *)
Definition warm_target (pending : gset Z) (item : RequestQueueItem) : option Z :=
  match target_rank item with
  | Some t => Some t
  | None => set_min pending
  end.

Record kv_state := {
  kv_active : list Z;
  kv_tokens : list float;
  kv_assigned : gmap Z (list RequestQueueItem);
}.

(** [all_ranks_num_active_requests[r] += 1], the token tally and the
    assignment. *)
Definition kv_assign (st : kv_state) (r : Z) (item : RequestQueueItem) (effective : Z) : result kv_state :=
  n ← py_get (kv_active st) r;
  active ← py_set (kv_active st) r (n + 1);
  t ← py_get (kv_tokens st) r;
  tokens ← py_set (kv_tokens st) r (fadd t (float_of_Z effective));
  assigned ← dict_extend (kv_assigned st) r [item];
  Ok {| kv_active := active; kv_tokens := tokens; kv_assigned := assigned |}.

Definition kv_assign_target (max_num_active : Z)
    (acc : KVCacheAwareADPRouter * kv_state * list RequestQueueItem) (item : RequestQueueItem)
    : result (KVCacheAwareADPRouter * kv_state * list RequestQueueItem) :=
  let '(self, st, remaining) := acc in
  match warm_target (_pending_warmup_ranks self) item with
  | None => Ok (self, st, remaining ++ [item])
  | Some t =>
      n ← py_get (kv_active st) t;
      if n <? max_num_active then
        m ← _match_len self t (item_id item);
        st ← kv_assign st t item (Z.max (token_count item - m) 0);
        Ok (set_pending_warmup self (_pending_warmup_ranks self ∖ {[ t ]}), st, remaining)
      else Ok (self, st, remaining ++ [item])
  end.

(** The loose per-rank cap. *)
Definition kv_expected (multiplier : float) (tp : Z) (active : list Z) (num_new max_num_active : Z) : result Z :=
  if tp =? 0 then Err ZeroDivisionError
  else
    let fair_share := (zsum id active + num_new + tp - 1) / tp in
    c ← math_ceil (fmul multiplier (float_of_Z fair_share));
    match active with
    | [] => Err ValueError
    | n :: rest => Ok (Z.min (Z.max c (list_max n rest)) max_num_active)
    end.

Definition eligible_ranks (tp : nat) (active : list Z) (expected : Z) : list Z :=
  filter (fun r => match py_get active r with Ok n => n <? expected | Err _ => false end = true)
         (Z.of_nat <$> seq 0 tp).

(** [{r: self._match_len(r, req_id) for r in eligible_ranks}] *)
Definition match_lens (self : KVCacheAwareADPRouter) (eligible : list Z) (req_id : Z) : result (gmap Z Z) :=
  for_each (fun m r => n ← _match_len self r req_id; Ok (<[r := n]> m)) ∅ eligible.

(** [max(match_lens.values(), default=0)] *)
Definition max_match (m : gmap Z Z) : Z :=
  match (map_to_list m).*2 with [] => 0 | x :: l => list_max x l end.

Definition dict_get (m : gmap Z Z) (k : Z) : result Z :=
  match m !! k with Some v => Ok v | None => Err KeyError end.

(** One candidate of the scoring loop. *)
Definition consider_rank (self : KVCacheAwareADPRouter) (req_tokens : Z) (affinity : bool) (matches : gmap Z Z)
    (tokens : list float) (load_denom : float) (best : Z * float) (r : Z) : result (Z * float) :=
  match_len ← (if affinity then dict_get matches r else Ok 0);
  t ← py_get tokens r;
  score ← _score_rank self req_tokens match_len t load_denom;
  best_t ← py_get tokens best.1;
  Ok (if fpair_ltb score t best.2 best_t then (r, score) else best).

(** [l.remove(x)]: the first occurrence; a missing element raises. *)
Fixpoint list_remove (x : Z) (l : list Z) : result (list Z) :=
  match l with
  | [] => Err ValueError
  | y :: l' => if x =? y then Ok l' else l'' ← list_remove x l'; Ok (y :: l'')
  end.

Section route.
(** [random.Random(req_id).shuffle] *)
Context (shuffle : Z -> list Z -> list Z).

(** The rank one request goes to. *)
Definition choose_rank (self : KVCacheAwareADPRouter) (eligible : list Z) (tokens : list float)
    (item : RequestQueueItem) : result (Z * gmap Z Z) :=
  let req_tokens := token_count item in
  let iter_ranks := shuffle (item_id item) eligible in
  best_rank ← py_get iter_ranks 0;
  loads ← mapM_result (py_get tokens) eligible;
  let load_denom := fmax (fsum loads) (float_of_Z req_tokens) in
  matches ← match_lens self eligible (item_id item);
  rate ← fdiv (float_of_Z (max_match matches)) (float_of_Z (Z.max req_tokens 1));
  let affinity := fltb (match_rate_threshold self) rate in
  '(best_rank, _) ← for_each (consider_rank self req_tokens affinity matches tokens load_denom)
                             (best_rank, finf) iter_ranks;
  Ok (best_rank, matches).

(** One round of the loop over the remaining requests. *)
Definition kv_route_one (self : KVCacheAwareADPRouter) (expected : Z) (acc : list Z * kv_state)
    (item : RequestQueueItem) : result (ctl (list Z * kv_state)) :=
  let '(eligible, st) := acc in
  if bool_decide (eligible = []) then Ok (Break acc)
  else
    '(best_rank, matches) ← choose_rank self eligible (kv_tokens st) item;
    m ← dict_get matches best_rank;
    st ← kv_assign st best_rank item (Z.max (token_count item - m) 0);
    n ← py_get (kv_active st) best_rank;
    if expected <=? n then
      eligible ← list_remove best_rank eligible;
      Ok (Continue (eligible, st))
    else Ok (Continue (eligible, st)).

Definition route_requests_kv (self : KVCacheAwareADPRouter) (all_rank_states : list RankState)
    (new_requests : list RequestQueueItem) (max_num_active : Z)
    : result (gmap Z (list RequestQueueItem) * Z * KVCacheAwareADPRouter) :=
  let st := {| kv_active := num_active_requests <$> all_rank_states;
               kv_tokens := (fun s => float_of_Z (num_active_tokens s)) <$> all_rank_states;
               kv_assigned := list_to_map ((fun s => (rs_rank s, [])) <$> all_rank_states) |} in
  '(self, st, remaining) ←
    for_each (kv_assign_target max_num_active) (self, st, []) (sort_by relax_le new_requests);
  let remaining := sort_by sort_key_leb remaining in
  expected ← kv_expected (fair_share_multiplier self) (len all_rank_states) (kv_active st)
                         (len remaining) max_num_active;
  let eligible := eligible_ranks (length all_rank_states) (kv_active st) expected in
  '(_, st) ← for_loop (kv_route_one self expected) (eligible, st) remaining;
  Ok (kv_assigned st, expected, self).

End route.

(** ** First phase *)

Lemma match_len_total self r i : 0 <= r -> exists n, _match_len self r i = Ok n.
Proof.
  intros Hr. unfold _match_len. destruct (Z.ltb_spec r (len (_all_ranks_prefix_matches self))) as [Hlt|]; [|eauto].
  destruct (py_get_total (_all_ranks_prefix_matches self) r (Z.to_nat r)) as (m & _ & ->); [|simpl; eauto].
  by apply py_pos_nonneg.
Qed.

Lemma fold_min_spec l : forall x, fold_left Z.min l x ∈ x :: l.
Proof.
  induction l as [|y l IH]; intros x; simpl; [by left|]. specialize (IH (Z.min x y)).
  apply elem_of_cons in IH as [->|IH].
  - destruct (Z.min_spec x y) as [[_ ->]|[_ ->]]; set_solver.
  - by do 2 right.
Qed.

Lemma set_min_elem s t : set_min s = Some t -> t ∈ s.
Proof.
  unfold set_min. destruct (elements s) as [|x l] eqn:E; [done|]. intros [= <-].
  rewrite <- elem_of_elements, E. apply fold_min_spec.
Qed.

Section first_phase.
Context (tp : nat) (n0 : nat -> Z) (cap : Z) (all : list RequestQueueItem).
Context (Hrange : targets_in_range tp all).

(** The state agrees with the assignment [d]. *)
Record kv_table (st : kv_state) (d : gmap Z (list RequestQueueItem)) : Prop := {
  kt_active : kv_active st = busy n0 d <$> seq 0 tp;
  kt_tokens : length (kv_tokens st) = tp;
  kt_assigned : kv_assigned st = d;
  kt_ranks : has_ranks tp d;
}.

Lemma kv_get_active st d k : kv_table st d -> (k < tp)%nat -> py_get (kv_active st) (Z.of_nat k) = Ok (busy n0 d k).
Proof using Type.
  intros [Ha _ _ _] Hk. apply py_get_nat. rewrite Ha. by apply table_lookup.
Qed.

(** An assignment adds the request to its rank. *)
Lemma kv_assign_ok st d k item eff :
  kv_table st d -> (k < tp)%nat ->
  exists st' d', kv_assign st (Z.of_nat k) item eff = Ok st' /\ kv_table st' d'
    /\ kv_active st' = <[k := busy n0 d k + 1]> (kv_active st)
    /\ dget d' k = dget d k ++ [item] /\ (forall j, j <> k -> dget d' j = dget d j).
Proof using Type.
  intros Ht Hk. unfold kv_assign. rewrite (kv_get_active st d k Ht Hk). cbn [mbind result_bind].
  destruct Ht as [Ha Hl <- Hd]. destruct (dict_extend_ok tp _ k [item] Hd Hk) as (d' & Hext & Hd' & Hsame & Hne).
  assert (Hlen : length (kv_active st) = tp) by (by rewrite Ha, length_fmap, length_seq).
  rewrite py_set_nat by (by rewrite Hlen). cbn [mbind result_bind].
  destruct (lookup_lt_is_Some_2 (kv_tokens st) k) as [t Ht]; [by rewrite Hl|].
  rewrite (py_get_nat _ _ _ Ht). cbn [mbind result_bind].
  rewrite py_set_nat by (by rewrite Hl). cbn [mbind result_bind]. rewrite Hext. cbn [mbind result_bind].
  eexists _, d'. split; [done|]. split; [|done]. split; simpl; [|by rewrite length_insert|done|done].
  assert (Hb : busy n0 d' k = busy n0 (kv_assigned st) k + 1) by (unfold busy; rewrite Hsame, length_app; simpl; lia).
  rewrite Ha, <- Hb. apply table_insert; [done|]. intros j Hj. unfold busy. by rewrite Hne.
Qed.

(** The invariant of the first loop: that of the default router, with pending
    warm-up ranks that exist. *)
Record kv_phase1 (multiplier : float) (pre : list RequestQueueItem) (self : KVCacheAwareADPRouter) (st : kv_state)
    (rem : list RequestQueueItem) : Prop := {
  k1_phase : phase1 tp n0 cap all pre (kv_active st) (kv_assigned st) rem;
  k1_tokens : length (kv_tokens st) = tp;
  k1_warm t : t ∈ _pending_warmup_ranks self -> 0 <= t < Z.of_nat tp;
  k1_multiplier : fair_share_multiplier self = multiplier;
}.

Lemma kv_phase1_table m pre self st rem : kv_phase1 m pre self st rem -> kv_table st (kv_assigned st).
Proof using Type. intros [[Ha Hd _ _ _ _] Hl _ _]. by split. Qed.

Lemma warm_target_strict pending x t t' :
  warm_target pending x = Some t -> strict_target x = Some t' -> t' = t.
Proof using Type. unfold warm_target. intros Hw Hs%strict_target_rank. rewrite Hs in Hw. congruence. Qed.

Lemma zsum_update (f g : nat -> Z) k :
  (k < tp)%nat -> (forall j, j <> k -> g j = f j) -> zsum g (seq 0 tp) = zsum f (seq 0 tp) + (g k - f k).
Proof using Type.
  intros Hk Hne. replace tp with (k + (1 + (tp - k - 1)))%nat by lia.
  rewrite !seq_app, !zsum_app. change (seq (0 + k) 1) with [k]. rewrite !zsum_cons, !zsum_nil.
  rewrite (zsum_ext g f (seq 0 k)), (zsum_ext g f (seq (0 + k + 1) _)); [lia|..];
    intros j Hj%elem_of_seq; apply Hne; lia.
Qed.

Lemma kv_phase1_step m pre x post self st rem :
  pre ++ x :: post ≡ₚ all -> (get_relax_value x = false -> Forall (fun y => get_relax_value y = false) pre) ->
  kv_phase1 m pre self st rem ->
  exists acc, kv_assign_target cap (self, st, rem) x = Ok acc
    /\ kv_phase1 m (pre ++ [x]) acc.1.1 acc.1.2 acc.2.
Proof using Hrange.
  intros Hall Hfirst Hi. pose proof (kv_phase1_table _ _ _ _ _ Hi) as Htab. destruct Hi as [Hp Hl Hw Hm].
  unfold kv_assign_target. destruct (warm_target (_pending_warmup_ranks self) x) as [t|] eqn:Et.
  2: { eexists. split; [done|]. split; try done. simpl. apply phase1_skip; [|done]. intros _.
       destruct (strict_target x) as [t|] eqn:Es; [|done]. apply strict_target_rank in Es.
       unfold warm_target in Et. by rewrite Es in Et. }
  assert (Hr : 0 <= t < Z.of_nat tp).
  { unfold warm_target in Et. destruct (target_rank x) as [t'|] eqn:Er.
    - injection Et as ->. apply (Hrange x); [|done]. rewrite <- Hall. set_solver.
    - by apply Hw, set_min_elem. }
  set (k := Z.to_nat t). assert (Hk : (k < tp)%nat) by lia. assert (t = Z.of_nat k) as Htk by lia.
  rewrite Htk, (kv_get_active _ _ k Htab Hk), <- Htk. cbn [mbind result_bind].
  destruct (Z.ltb_spec (busy n0 (kv_assigned st) k) cap) as [Hlt|Hge].
  - destruct (match_len_total self t (item_id x)) as [n ->]; [lia|]. cbn [mbind result_bind].
    destruct (kv_assign_ok st _ k x (Z.max (token_count x - n) 0) Htab Hk) as (st' & d' & Hrun & [Ha' Hl' Hd' Hr'] & Hact & Hsame & Hne).
    rewrite Htk, Hrun. cbn [mbind result_bind]. eexists. split; [done|]. simpl. split; simpl; [|done| |done].
    + rewrite Hact, Hd'. apply (phase1_assign tp n0 cap all Hrange pre x t); try done.
      intros t' Ht'. by eapply warm_target_strict.
    + intros t' [Ht' _]%elem_of_difference. by apply Hw.
  - eexists. split; [done|]. split; try done. simpl. apply phase1_skip; [|done]. intros Hroom.
    destruct (strict_target x) as [t'|] eqn:Es; [|done]. exfalso.
    assert (t' = t) as -> by (by eapply warm_target_strict).
    by apply (phase1_full tp n0 cap all pre x post _ _ _ t Hall Hfirst Hp Es Hr Hroom).
Qed.

Lemma kv_first_phase_total self st :
  kv_active st = n0 <$> seq 0 tp -> length (kv_tokens st) = tp -> has_ranks tp (kv_assigned st) ->
  (forall k, dget (kv_assigned st) k = []) ->
  (forall t, t ∈ _pending_warmup_ranks self -> 0 <= t < Z.of_nat tp) ->
  exists self' st' rem,
    for_each (kv_assign_target cap) (self, st, []) (sort_by relax_le all) = Ok (self', st', rem)
    /\ kv_phase1 (fair_share_multiplier self) (sort_by relax_le all) self' st' rem.
Proof using Hrange.
  intros Ha Hl Hd Hnil Hw.
  destruct (for_each_prefix_total (kv_assign_target cap)
    (fun pre acc => kv_phase1 (fair_share_multiplier self) pre acc.1.1 acc.1.2 acc.2)
    (sort_by relax_le all) (self, st, [])) as ([[self' st'] rem] & Hrun & Hi).
  - simpl. split; try done. rewrite Ha. by apply phase1_init.
  - intros pre x post [[s t] rem] Heq Hi.
    apply (kv_phase1_step (fair_share_multiplier self) pre x post); [|by apply (relax_first all pre x post)|done].
    by rewrite <- Heq, sort_by_perm.
  - eauto 6.
Qed.

End first_phase.

(** ** Choosing a rank *)

Lemma mapM_py_get {A} (l : list A) tp ranks :
  length l = tp -> (forall r, r ∈ ranks -> 0 <= r < Z.of_nat tp) -> exists vs, mapM_result (py_get l) ranks = Ok vs.
Proof.
  intros Hl. induction ranks as [|r ranks IH]; intros Hr; cbn [mapM_result]; [eauto|].
  destruct (py_get_total l r (Z.to_nat r)) as (x & _ & ->).
  { apply py_pos_nonneg. rewrite Hl. apply Hr. by left. }
  destruct IH as [vs ->]; [|simpl; eauto]. intros r' Hr'. apply Hr. by right.
Qed.

Lemma match_lens_total self i ranks :
  (forall r, r ∈ ranks -> 0 <= r) ->
  exists m, match_lens self ranks i = Ok m /\ forall r, r ∈ ranks -> is_Some (m !! r).
Proof.
  intros Hr.
  destruct (for_each_prefix_total (fun (m : gmap Z Z) r => n ← _match_len self r i; Ok (<[r := n]> m))
    (fun pre m => forall r, r ∈ pre -> is_Some (m !! r)) ranks ∅) as (m & Hrun & Hm).
  - intros r []%elem_of_nil.
  - intros pre r post m -> Hm. destruct (match_len_total self r i) as [n ->]; [apply Hr; set_solver|].
    simpl. eexists. split; [done|]. intros r' [Hr'| ->%list_elem_of_singleton]%elem_of_app.
    + rewrite lookup_insert_is_Some. destruct (decide (r = r')); auto.
    + rewrite lookup_insert_eq. eauto.
  - eauto.
Qed.

Lemma list_remove_spec (x : Z) l :
  NoDup l -> x ∈ l -> exists l', list_remove x l = Ok l' /\ NoDup l' /\ forall y, y ∈ l' <-> y ∈ l /\ y <> x.
Proof.
  intros Hnd Hx. induction Hnd as [|y l Hy Hnd IH]; [by apply elem_of_nil in Hx|]. cbn [list_remove].
  destruct (Z.eqb_spec x y) as [->|Hne].
  - exists l. split; [done|]. split; [done|]. intros z. rewrite elem_of_cons. split; [|naive_solver].
    intros Hz. split; [by right|]. by intros ->.
  - destruct IH as (l' & -> & Hnd' & Hin); [set_solver|]. simpl. eexists. split; [done|]. split.
    + constructor; [|done]. rewrite Hin. naive_solver.
    + intros z. rewrite !elem_of_cons, Hin. naive_solver.
Qed.

Section choose.
Context (shuffle : Z -> list Z -> list Z).
Context (Hshuffle : forall i l, shuffle i l ≡ₚ l).

(** The scoring loop ends on an eligible rank. *)
Lemma choose_rank_total self tp eligible tokens item :
  eligible <> [] -> (forall r, r ∈ eligible -> 0 <= r < Z.of_nat tp) -> length tokens = tp ->
  0 < token_count item < 2 ^ 53 ->
  exists r m, choose_rank shuffle self eligible tokens item = Ok (r, m) /\ r ∈ eligible /\ is_Some (m !! r).
Proof using Hshuffle.
  intros Hne Hr Hl Htok. unfold choose_rank.
  assert (Hit : forall r, r ∈ shuffle (item_id item) eligible <-> r ∈ eligible) by (intros r; by rewrite Hshuffle).
  destruct (shuffle (item_id item) eligible) as [|r0 rs] eqn:Es.
  { exfalso. apply Hne, Permutation_nil. rewrite <- Es. apply Hshuffle. }
  change (py_get (r0 :: rs) 0) with (@Ok Z r0). cbn [mbind result_bind].
  destruct (mapM_py_get tokens tp eligible Hl Hr) as [loads ->]. cbn [mbind result_bind].
  destruct (match_lens_total self (item_id item) eligible) as (m & -> & Hm); [intros r Hin; apply Hr in Hin; lia|].
  cbn [mbind result_bind].
  assert (Hrate : exists q, fdiv (float_of_Z (max_match m)) (float_of_Z (Z.max (token_count item) 1)) = Ok q).
  { destruct (float_of_pos (Z.max (token_count item) 1)) as (? & ? & -> & _); [lia|]. by eexists. }
  destruct Hrate as [q ->]. cbn [mbind result_bind].
  set (aff := fltb _ q). set (denom := fmax _ _).
  destruct (for_each_total (consider_rank self (token_count item) aff m tokens denom)
    (fun best => best.1 ∈ eligible) (r0 :: rs) (r0, finf)) as ([best sc] & -> & Hbest).
  - apply Hit. by left.
  - intros [b sc] r Hin Hb. unfold consider_rank. apply Hit in Hin.
    assert (Hml : exists n, (if aff then dict_get m r else Ok 0) = Ok n).
    { destruct aff; [|eauto]. destruct (Hm r Hin) as [n Hn]. unfold dict_get. rewrite Hn. eauto. }
    destruct Hml as [n ->]. cbn [mbind result_bind].
    destruct (py_get_total tokens r (Z.to_nat r)) as (t & _ & ->); [apply py_pos_nonneg; rewrite Hl; by apply Hr|].
    cbn [mbind result_bind]. unfold _score_rank.
    destruct (fdiv_floored t (fsum loads) (token_count item) Htok) as [qq Hq]. unfold denom. rewrite Hq.
    cbn [mbind result_bind]. simpl in Hb.
    destruct (py_get_total tokens b (Z.to_nat b)) as (bt & _ & Hbt); [apply py_pos_nonneg; rewrite Hl; by apply Hr|].
    simpl fst. rewrite Hbt. cbn [mbind result_bind]. case_match; eauto.
  - cbn [mbind result_bind]. exists best, m. split; [done|]. split; [done|]. by apply Hm.
Qed.

(** *** The loop over the remaining requests *)

Context (tp : nat) (n0 : nat -> Z) (e : Z) (self : KVCacheAwareADPRouter) (d0 : gmap Z (list RequestQueueItem)).

Definition room (d : gmap Z (list RequestQueueItem)) : Z :=
  zsum (fun k => Z.max 0 (e - busy n0 d k)) (seq 0 tp).

Record kv_phase2 (pre : list RequestQueueItem) (eligible : list Z) (st : kv_state) : Prop := {
  k2_table : kv_table tp n0 st (kv_assigned st);
  k2_perm : all_assigned tp (kv_assigned st) ≡ₚ all_assigned tp d0 ++ pre;
  k2_keep k : dget d0 k `prefix_of` dget (kv_assigned st) k;
  k2_cap k : (k < tp)%nat -> busy n0 (kv_assigned st) k <= Z.max (busy n0 d0 k) e;
  k2_nodup : NoDup eligible;
  k2_eligible r : r ∈ eligible <-> exists k, (k < tp)%nat /\ r = Z.of_nat k /\ busy n0 (kv_assigned st) k < e;
  k2_room : room (kv_assigned st) + len pre = room d0;
}.

Lemma eligible_nonempty pre eligible st :
  kv_phase2 pre eligible st -> len pre < room d0 -> eligible <> [].
Proof using Type.
  intros [_ _ _ _ _ Hel Hroom] Hlt Hnil. enough (room (kv_assigned st) <= 0) by lia.
  unfold room. rewrite zsum_0; [done|]. intros k Hk%elem_of_seq.
  enough (e <= busy n0 (kv_assigned st) k) by lia.
  destruct (Z.le_gt_cases e (busy n0 (kv_assigned st) k)) as [|Hgt]; [done|].
  assert (Hin : Z.of_nat k ∈ eligible) by (apply Hel; exists k; split; [lia|done]).
  rewrite Hnil in Hin. by apply elem_of_nil in Hin.
Qed.

(** Assigning a request to a rank below the cap. *)
Lemma kv_phase2_assign pre x eligible st d' st' k eligible' :
  kv_phase2 pre eligible st -> (k < tp)%nat -> busy n0 (kv_assigned st) k < e ->
  kv_table tp n0 st' d' -> dget d' k = dget (kv_assigned st) k ++ [x] ->
  (forall j, j <> k -> dget d' j = dget (kv_assigned st) j) ->
  NoDup eligible' ->
  (forall r, r ∈ eligible' <-> r ∈ eligible /\ (r = Z.of_nat k -> busy n0 d' k < e)) ->
  kv_phase2 (pre ++ [x]) eligible' st'.
Proof using Type.
  intros [Ht Hperm Hkeep Hcap Hnd Hel Hroom] Hk Hlt Ht' Hsame Hne Hnd' Hel'.
  pose proof Ht' as [_ _ Hd' _]. 
  assert (Hb : busy n0 d' k = busy n0 (kv_assigned st) k + 1) by (unfold busy; rewrite Hsame, length_app; simpl; lia).
  assert (Hbne : forall j, j <> k -> busy n0 d' j = busy n0 (kv_assigned st) j) by (intros; unfold busy; by rewrite Hne).
  split; rewrite ?Hd'; try done.
  - rewrite (all_assigned_extend tp (kv_assigned st) d' k [x]) by done. by rewrite Hperm, app_assoc.
  - intros j. destruct (decide (j = k)) as [->|]; [|by rewrite Hne]. rewrite Hsame. by apply prefix_app_r.
  - intros j Hj. destruct (decide (j = k)) as [->|]; [rewrite Hb; lia|rewrite Hbne by done; auto].
  - intros r. rewrite Hel', Hel. split.
    + intros [(j & Hj & -> & Hjb) Himp]. exists j. split; [done|]. split; [done|].
      destruct (decide (j = k)) as [->|]; [by apply Himp|by rewrite Hbne].
    + intros (j & Hj & -> & Hjb). split.
      * exists j. split; [done|]. split; [done|]. destruct (decide (j = k)) as [->|]; [done|by rewrite <- Hbne].
      * intros E. replace k with j by lia. done.
  - rewrite length_app. simpl. unfold room in *.
    rewrite (zsum_update tp (fun k => Z.max 0 (e - busy n0 (kv_assigned st) k)) _ k Hk).
    + lia.
    + intros j Hj. by rewrite Hbne.
Qed.

Lemma kv_phase2_step pre x eligible st :
  0 < token_count x < 2 ^ 53 -> len pre < room d0 -> kv_phase2 pre eligible st ->
  exists acc, kv_route_one shuffle self e (eligible, st) x = Ok (Continue acc)
    /\ kv_phase2 (pre ++ [x]) acc.1 acc.2.
Proof using Hshuffle.
  intros Htok Hlt Hi. pose proof (eligible_nonempty _ _ _ Hi Hlt) as Hne.
  unfold kv_route_one. rewrite bool_decide_false by done. pose proof Hi as [Ht _ _ _ Hnd Hel _].
  destruct (choose_rank_total self tp eligible (kv_tokens st) x) as (r & m & -> & Hr & [n Hn]); [done| |apply Ht|done|].
  { intros r (k & Hk & -> & _)%Hel. lia. }
  cbn [mbind result_bind]. unfold dict_get. rewrite Hn. cbn [mbind result_bind].
  apply Hel in Hr as (k & Hk & -> & Hb).
  destruct (kv_assign_ok tp n0 st _ k x (Z.max (token_count x - n) 0) Ht Hk) as (st' & d' & -> & Ht' & _ & Hsame & Hoth).
  cbn [mbind result_bind]. rewrite (kv_get_active tp n0 st' d' k Ht' Hk). cbn [mbind result_bind].
  destruct (Z.leb_spec e (busy n0 d' k)) as [Hfull|Hroom].
  - destruct (list_remove_spec (Z.of_nat k) eligible Hnd) as (eligible' & -> & Hnd' & Hin); [apply Hel; eauto|].
    cbn [mbind result_bind]. eexists. split; [done|]. simpl.
    apply (kv_phase2_assign pre x eligible st d' st' k); try done. intros r. rewrite Hin.
    split; intros [Hr1 Hr2]; (split; [done|]); [by intros ->|]. intros ->. specialize (Hr2 eq_refl). lia.
  - eexists. split; [done|]. simpl. apply (kv_phase2_assign pre x eligible st d' st' k); try done.
    intros r. split; [|by intros [? _]]. intros Hr. split; [done|by intros _].
Qed.

Lemma kv_second_phase_total rem st :
  Forall (fun x => 0 < token_count x < 2 ^ 53) rem -> len rem <= room d0 ->
  kv_table tp n0 st d0 ->
  exists eligible st',
    for_loop (kv_route_one shuffle self e) (eligible_ranks tp (kv_active st) e, st) rem = Ok (eligible, st')
    /\ kv_phase2 rem eligible st'.
Proof using Hshuffle.
  intros Htok Hlen Ht.
  destruct (for_loop_prefix_total (kv_route_one shuffle self e) (fun pre acc => kv_phase2 pre acc.1 acc.2) rem
    (eligible_ranks tp (kv_active st) e, st)) as ([el st'] & Hrun & Hi).
  - simpl. pose proof Ht as [_ _ Hd _]. split; rewrite ?Hd; try done.
    + by rewrite app_nil_r.
    + intros k Hk. lia.
    + apply NoDup_filter, NoDup_fmap_2; [apply _|apply NoDup_seq].
    + intros r. unfold eligible_ranks. rewrite list_elem_of_filter, list_elem_of_fmap. split.
      * intros [Hb (k & -> & Hk%elem_of_seq)]. exists k. rewrite (kv_get_active tp n0 st d0 k Ht) in Hb by lia.
        split; [lia|]. split; [done|]. by apply Z.ltb_lt.
      * intros (k & Hk & -> & Hb). rewrite (kv_get_active tp n0 st d0 k Ht) by done. split; [by apply Z.ltb_lt|].
        exists k. split; [done|]. apply elem_of_seq. lia.
    + simpl. lia.
  - intros pre x post [el st1] -> Hi. apply kv_phase2_step; [| |done].
    + apply Forall_app in Htok as [_ Htok]. by apply Forall_cons in Htok as [Htok _].
    + rewrite length_app in Hlen. simpl in Hlen. lia.
  - eauto.
Qed.

End choose.

(** ** The whole route *)

(** The multiplier does not shrink the fair share [f]. *)
Definition keeps_fair_share (multiplier : float) (f : Z) : Prop :=
  exists c, math_ceil (fmul multiplier (float_of_Z f)) = Ok c /\ f <= c.

(** The default multiplier doubles it. *)
Lemma double_keeps_fair_share f : 0 <= f < 2 ^ 53 -> keeps_fair_share (float_of_Z 2) f.
Proof. intros Hf. exists (2 * f). split; [by apply ceil_double|lia]. Qed.

Lemma kv_expected_spec multiplier (active : nat -> Z) tp m cap :
  (0 < tp)%nat -> 0 <= m -> (m = 0 \/ zsum active (seq 0 tp) + m <= Z.of_nat tp * cap) ->
  keeps_fair_share multiplier (fair_share active tp m) ->
  exists e, kv_expected multiplier (Z.of_nat tp) (active <$> seq 0 tp) m cap = Ok e /\ e <= cap
    /\ (forall k, (k < tp)%nat -> Z.min (active k) cap <= e)
    /\ m <= zsum (fun k => Z.max 0 (e - active k)) (seq 0 tp).
Proof.
  intros Htp Hm Hcap (c & Hc & Hle). unfold kv_expected. rewrite (proj2 (Z.eqb_neq _ _)) by lia.
  rewrite zsum_fmap. change (zsum (fun x => id (active x)) (seq 0 tp)) with (zsum active (seq 0 tp)).
  fold (fair_share active tp m). rewrite Hc. cbn [mbind result_bind].
  destruct (table_nonempty active tp Htp) as (n & rest & E). rewrite E.
  eexists. split; [done|]. split; [lia|]. split.
  - intros k Hk. pose proof (table_max active tp n rest k E Hk). lia.
  - apply target_room; [done|done|done|lia].
Qed.

(** The fair share of all new requests, before any is placed. *)
Definition initial_share (states : list RankState) (new : list RequestQueueItem) : Z :=
  (zsum num_active_requests states + len new + len states - 1) / len states.

Lemma route_requests_kv_routes shuffle self states new cap :
  (forall i l, shuffle i l ≡ₚ l) ->
  states <> [] -> ranks_in_order states -> targets_in_range (length states) new ->
  (forall t, t ∈ _pending_warmup_ranks self -> 0 <= t < len states) ->
  Forall (fun x => 0 < token_count x < 2 ^ 53) new ->
  keeps_fair_share (fair_share_multiplier self) (initial_share states new) ->
  (new = [] \/ zsum num_active_requests states + len new <= len states * cap) ->
  exists d expected self', route_requests_kv shuffle self states new cap = Ok (d, expected, self')
    /\ routed states new cap d expected.
Proof.
  intros Hsh Hne Hord Hrange Hwarm Htok Hmul Hcap. unfold route_requests_kv. set (tp := length states).
  set (n0 := fun k => num_active_requests (states !!! k)).
  assert (Htp : (0 < tp)%nat) by (unfold tp; destruct states; [done|simpl; lia]).
  rewrite (table_of_field num_active_requests). fold n0 tp.
  destruct (initial_assignment states Hord) as [Hd0 Hnil].
  match goal with |- context [for_each _ (self, ?s, []) _] =>
    destruct (kv_first_phase_total tp n0 cap new Hrange self s) as (self' & st & rem & -> & Hi) end;
    [done|by simpl; rewrite length_fmap|done|done|done|].
  cbn [mbind result_bind]. pose proof (kv_phase1_table _ _ _ _ _ _ _ _ _ Hi) as Htab.
  destruct Hi as [Hp _ _ Hm]. destruct (phase1_totals _ _ _ _ _ _ _ Hp) as [Hlen Hremlen].
  assert (Hact : kv_active st = busy n0 (kv_assigned st) <$> seq 0 tp) by apply Hp.
  assert (Hsum : zsum n0 (seq 0 tp) = zsum num_active_requests states) by apply sum_table.
  assert (Hshare : fair_share (busy n0 (kv_assigned st)) tp (len (sort_by sort_key_leb rem)) = initial_share states new).
  { unfold fair_share, initial_share. rewrite length_sort_by. f_equal. unfold tp in *. lia. }
  rewrite Hm, Hact. change (len states) with (Z.of_nat tp).
  destruct (kv_expected_spec (fair_share_multiplier self) (busy n0 (kv_assigned st)) tp (len (sort_by sort_key_leb rem)) cap Htp)
    as (e & -> & He & Hge & Hroom).
  { lia. }
  { rewrite length_sort_by. destruct Hcap as [->|Hcap]; [left; simpl in *; lia|right; unfold tp in *; lia]. }
  { by rewrite Hshare. }
  cbn [mbind result_bind]. rewrite <- Hact.
  destruct (kv_second_phase_total shuffle Hsh tp n0 e self' (kv_assigned st) (sort_by sort_key_leb rem) st)
    as (el & st' & -> & [Htab' Hperm Hkeep Hcap2 _ _ _]).
  { apply Forall_forall. intros x Hx. rewrite sort_by_perm in Hx. rewrite Forall_forall in Htok. apply Htok.
    rewrite <- (sort_by_perm relax_le), <- (p1_perm _ _ _ _ _ _ _ _ Hp). apply elem_of_app. by right. }
  { exact Hroom. }
  { exact Htab. }
  cbn [mbind result_bind]. exists (kv_assigned st'), e, self'. split; [done|].
  eapply routed_of_phases; [exact Hrange|exact Hp|exact He|exact Hge|apply Htab'| |by intros|exact Hcap2].
  fold tp. rewrite Hperm. by rewrite sort_by_perm.
Qed.

(** C30. The cache-aware router succeeds whenever the new requests fit the total
    capacity, have tokens, name existing ranks, and the multiplier does not
    shrink the fair share: every request goes to exactly one rank and no rank is
    filled beyond the target, however the scores and the shuffle turn out. *)
Theorem kv_router_routes shuffle self states new cap :
  (forall i l, shuffle i l ≡ₚ l) ->
  states <> [] -> ranks_in_order states -> targets_in_range (length states) new ->
  (forall t, t ∈ _pending_warmup_ranks self -> 0 <= t < len states) ->
  Forall (fun x => 0 < token_count x < 2 ^ 53) new ->
  keeps_fair_share (fair_share_multiplier self) (initial_share states new) ->
  zsum num_active_requests states + len new <= len states * cap ->
  exists d expected self', route_requests_kv shuffle self states new cap = Ok (d, expected, self')
    /\ expected <= cap
    /\ all_assigned (length states) d ≡ₚ new
    /\ forall k s, states !! k = Some s ->
         num_active_requests s + len (dget d k) <= Z.max (num_active_requests s) expected.
Proof.
  intros Hsh Hne Hord Hrange Hwarm Htok Hmul Hcap.
  destruct (route_requests_kv_routes shuffle self states new cap Hsh Hne Hord Hrange Hwarm Htok Hmul (or_intror Hcap))
    as (d & e & self' & Hrun & []).
  eauto 9.
Qed.

Definition wit_kv_router (multiplier : float) : KVCacheAwareADPRouter :=
  set_prefix_matches
    (KVCacheAwareADPRouter_init (float_of_Z 1) (float_of_Z 0) multiplier 2 false)
    [<[1 := 2]> ∅; <[2 := 8]> ∅].

Definition no_shuffle (i : Z) (l : list Z) : list Z := l.

(** Cache hits attract the second request to rank 1 and the first to rank 0. *)
Example wit_kv_routed :
  match route_requests_kv no_shuffle (wit_kv_router (float_of_Z 2)) wit_states wit_new 3 with
  | Ok (d, e, _) => (fun k => item_id <$> dget d k) <$> [0; 1]%nat = [[3; 1]; [4; 2]] /\ e = 3
  | Err _ => False
  end.
Proof. vm_compute. done. Qed.

Lemma kv_router_routes_witness :
  exists d expected self',
    route_requests_kv no_shuffle (wit_kv_router (float_of_Z 2)) wit_states wit_new 3 = Ok (d, expected, self')
    /\ all_assigned 2 d ≡ₚ wit_new.
Proof.
  destruct (kv_router_routes no_shuffle (wit_kv_router (float_of_Z 2)) wit_states wit_new 3)
    as (d & e & self' & Hrun & _ & Hperm & _).
  - intros i l. reflexivity.
  - intros H. discriminate H.
  - exact wit_ranks_in_order.
  - exact wit_targets_in_range.
  - intros t Ht. exfalso. exact (not_elem_of_empty t Ht).
  - repeat (constructor; [split; vm_compute; reflexivity|]). constructor.
  - apply double_keeps_fair_share. vm_compute. split; congruence.
  - vm_compute. intros H. discriminate H.
  - exists d, e, self'. split; [exact Hrun|exact Hperm].
Defined.

Definition half : float := S754_finite false 4503599627370496 (-53).

(** A multiplier below one is accepted by the configuration but loses
    requests: the target drops below the fair share, and requests that find no
    eligible rank are assigned to none, although they were already taken from
    the waiting queue and the ranks have room for them. *)
Theorem kv_router_drops_requests :
  exists self states new cap d e self',
    fair_share_multiplier self = half
    /\ zsum num_active_requests states + len new <= len states * cap
    /\ Forall (fun x => 0 < token_count x) new
    /\ route_requests_kv no_shuffle self states new cap = Ok (d, e, self')
    /\ (length (all_assigned (length states) d) < length new)%nat.
Proof.
  exists (wit_kv_router half), wit_states, [plain_item 1 2; plain_item 2 9; plain_item 5 3; plain_item 4 1], 8.
  eexists _, _, _. split; [done|]. split; [vm_compute; discriminate|].
  split; [repeat (constructor; [vm_compute; reflexivity|]); constructor|].
  split; [vm_compute; reflexivity|]. vm_compute. lia.
Qed.

(** A request without tokens on idle ranks makes the load denominator zero. *)
Example kv_router_divides_by_zero :
  route_requests_kv no_shuffle (wit_kv_router (float_of_Z 2))
    ((fun s => {| rs_rank := rs_rank s; num_active_requests := 0; num_active_tokens := 0;
                  iter_stats := default_payload |}) <$> wit_states) [plain_item 1 0] 8
  = Err ZeroDivisionError.
Proof. vm_compute. reflexivity. Qed.

(** ** The exchange of prefix matches *)

Lemma parse_local_matches probe l : forall m,
  NoDup (item_id <$> l) ->
  exists m', parse_matches m (local_matches probe l) = Ok m'
    /\ (forall x, x ∈ l -> m' !! item_id x = Some (local_match probe x).2)
    /\ (forall i, i ∉ (item_id <$> l) -> m' !! i = m !! i).
Proof.
  induction l as [|x l IH]; intros m Hnd.
  { exists m. split_and!; try done. intros x []%elem_of_nil. }
  rewrite fmap_cons in Hnd. apply NoDup_cons in Hnd as [Hx Hnd].
  unfold local_matches. rewrite fmap_cons. cbn [concat app parse_matches].
  assert (Hid : (local_match probe x).1 = item_id x) by (unfold local_match; by destruct (item_request x)).
  rewrite Hid. destruct (IH (<[item_id x := (local_match probe x).2]> m) Hnd) as (m' & Hrun & Hin & Hout).
  exists m'. split; [exact Hrun|]. split.
  - intros y [->|Hy]%elem_of_cons; [|by apply Hin]. by rewrite Hout, lookup_insert_eq.
  - intros i Hi. rewrite fmap_cons, not_elem_of_cons in Hi. destruct Hi as [Hne Hi].
    rewrite Hout by done. by apply lookup_insert_ne.
Qed.

(** After the exchange, every rank knows the prefix match of every new
    request on every rank, as that rank's cache answered the probe. *)
Theorem prefix_matches_exchanged probe tp_allgather self new (probes : list (list Z -> option Z -> Z)) :
  NoDup (item_id <$> new) ->
  tp_allgather (local_matches probe new) = (fun p => local_matches p new) <$> probes ->
  exists self', gather_prefix_matches probe tp_allgather self new = Ok self'
    /\ _pending_warmup_ranks self' = _pending_warmup_ranks self
    /\ forall k p x, probes !! k = Some p -> x ∈ new ->
         _match_len self' (Z.of_nat k) (item_id x) = Ok (local_match p x).2.
Proof.
  intros Hnd Hg. unfold gather_prefix_matches. rewrite Hg. clear Hg.
  assert (Hall : exists ms, mapM_result (parse_matches ∅) ((fun p => local_matches p new) <$> probes) = Ok ms
    /\ Forall2 (fun p m => forall x, x ∈ new -> m !! item_id x = Some (local_match p x).2) probes ms).
  { induction probes as [|p probes (ms & IH & HF)]; [by exists []|]. rewrite fmap_cons. cbn [mapM_result].
    destruct (parse_local_matches p new ∅ Hnd) as (m & -> & Hm & _). cbn [mbind result_bind]. rewrite IH.
    exists (m :: ms). split; [done|]. by constructor. }
  destruct Hall as (ms & -> & HF). eexists. split; [done|]. split; [done|].
  intros k p x Hk Hx. destruct (Forall2_lookup_l _ _ _ _ _ HF Hk) as (m & Hm & Hml).
  unfold _match_len. simpl. apply lookup_lt_Some in Hm as Hlt. rewrite (proj2 (Z.ltb_lt _ _)) by lia.
  rewrite (py_get_nat _ _ _ Hm). simpl. by rewrite (Hml x Hx).
Qed.

Lemma prefix_matches_exchanged_witness :
  exists self',
    gather_prefix_matches (fun _ _ => 0) (fun _ => [local_matches (fun _ _ => 0) wit_new; local_matches (fun l _ => len l) wit_new])
      (wit_kv_router (float_of_Z 2)) wit_new = Ok self'
    /\ _match_len self' 1 2 = Ok 8.
Proof.
  destruct (prefix_matches_exchanged (fun _ _ => 0)
    (fun _ => [local_matches (fun _ _ => 0) wit_new; local_matches (fun l _ => len l) wit_new])
    (wit_kv_router (float_of_Z 2)) wit_new [(fun _ _ => 0); (fun l _ => len l)]) as (self' & Hrun & _ & Hm).
  - apply (bool_decide_unpack _). vm_compute. exact I.
  - reflexivity.
  - exists self'. split; [exact Hrun|].
    exact (Hm 1%nat (fun l _ => len l) (plain_item 2 9) eq_refl (list_elem_of_further _ _ _ (list_elem_of_here _ _))).
Defined.
