(* ===== verification/Merge.v ===== *)
(** * Turning queue items into requests

    [merge_requests] of [_torch/pyexecutor/request_utils.py]: the conversion of
    the items a rank was given into requests with their children, and the two
    ways of splitting a prompt over context-parallel ranks, block-wise
    round-robin for Helix and contiguous with an anchor block for Star
    attention.  Tensors of token ids are lists. *)

From stdpp Require Import prelude gmap strings.
From S2P Require Import Prelude RequestQueue WaitingQueue Admission CpConfig.
Local Open Scope Z_scope.

(** ** Tensor operations on one row *)

(** [t.split(n)]: blocks of [n], the last one possibly shorter; an empty row
    gives one empty block. *)
Fixpoint split_blocks {A} (fuel n : nat) (l : list A) : list (list A) :=
  match fuel with
  | O => [l]
  | S fuel' => if Nat.leb (length l) n then [l] else take n l :: split_blocks fuel' n (drop n l)
  end.

Definition torch_split {A} (n : Z) (l : list A) : result (list (list A)) :=
  if n <? 0 then Err RuntimeError
  else if n =? 0 then if Nat.eqb (length l) 0 then Ok [l] else Err RuntimeError
  else Ok (split_blocks (length l) (Z.to_nat n) l).

(** [torch.cat] of an empty list of tensors raises. *)
Definition torch_cat {A} (blocks : list (list A)) : result (list A) :=
  match blocks with [] => Err RuntimeError | _ => Ok (concat blocks) end.

(** The elements whose index satisfies [f], counting from [i]. *)
Fixpoint sel {A} (f : nat -> bool) (i : nat) (l : list A) : list A :=
  match l with
  | [] => []
  | x :: l' => if f i then x :: sel f (S i) l' else sel f (S i) l'
  end.

(** [l[r::c]] for a start [0 <= r] and a step [c > 0] *)
Definition strided {A} (r c : Z) (l : list A) : list A :=
  sel (fun i => (r <=? Z.of_nat i) && ((Z.of_nat i - r) mod c =? 0)) 0 l.

(** [l[:n]] with Python's meaning of a negative [n] *)
Definition py_take {A} (n : Z) (l : list A) : list A :=
  take (Z.to_nat (if n <? 0 then len l + n else n)) l.

(** [torch.tensor_split(l, parts)]: [len l mod parts] parts get one element
    more. *)
Fixpoint split_sizes {A} (sizes : list nat) (l : list A) : list (list A) :=
  match sizes with
  | [] => []
  | n :: sizes' => take n l :: split_sizes sizes' (drop n l)
  end.

Definition torch_tensor_split {A} (l : list A) (parts : Z) : result (list (list A)) :=
  if parts <=? 0 then Err RuntimeError
  else
    let n := len l in
    Ok (split_sizes ((fun k => Z.to_nat (n / parts + (if Z.of_nat k <? n mod parts then 1 else 0)))
                       <$> seq 0 (Z.to_nat parts)) l).

(** [torch.arange(0, n)] *)
Definition arange (n : Z) : list Z := Z.of_nat <$> seq 0 (Z.to_nat n).

(** ** Helix *)

Definition partition_context_for_helix (input_token_ids : list Z) (cp_rank cp_size tokens_per_block : Z)
    : result (list Z * list Z * Z * Z) :=
  let input_len := len input_token_ids in
  num_total_blocks ← pydiv (input_len + tokens_per_block - 1) tokens_per_block;
  if num_total_blocks <? cp_size then Err ValueError
  else
    m ← pymod input_len tokens_per_block;
    let padding_len := if m =? 0 then 0 else tokens_per_block - m in
    let all_input_ids := input_token_ids ++ replicate (Z.to_nat padding_len) 0 in
    let all_position_ids := arange (input_len + padding_len) in
    input_id_blocks ← torch_split tokens_per_block all_input_ids;
    position_id_blocks ← torch_split tokens_per_block all_position_ids;
    input_ids_this_rank ← torch_cat (strided cp_rank cp_size input_id_blocks);
    position_ids_this_rank ← torch_cat (strided cp_rank cp_size position_id_blocks);
    last_block_owner ← pymod (num_total_blocks - 1) cp_size;
    if (cp_rank =? last_block_owner) && (0 <? padding_len) then
      Ok (py_take (- padding_len) input_ids_this_rank, py_take (- padding_len) position_ids_this_rank,
          input_len, padding_len)
    else Ok (input_ids_this_rank, position_ids_this_rank, input_len, padding_len).

(** ** Star attention *)

Definition partition_context_for_star_attention (ctx_ids_list : list Z) (cp_rank cp_size : Z)
    (block_size anchor_block_size : option Z) : result (list (list Z) * list (list Z) * Z) :=
  let ctx_len := len ctx_ids_list in
  block_size ← match block_size with Some b => Ok b | None => pydiv ctx_len cp_size end;
  let anchor_block_size := default block_size anchor_block_size in
  _ ← py_assert (anchor_block_size <=? block_size);
  m ← pymod ctx_len block_size;
  let padding := if m =? 0 then 0 else block_size - m in
  _ ← py_assert ((m =? 0) || (padding <=? ctx_len));
  let ctx_ids := ctx_ids_list ++ replicate (Z.to_nat padding) 0 in
  let position_ids := arange (len ctx_ids) in
  ctx_split ← torch_split block_size ctx_ids;
  position_split ← torch_split block_size position_ids;
  ctx_ids_blocks ← torch_tensor_split ctx_split cp_size;
  position_ids_blocks ← torch_tensor_split position_split cp_size;
  '(ctx_blocks, position_blocks) ←
    (if cp_rank =? 0 then Ok ([], [])
     else
       c ← py_get ctx_ids_blocks 0; c0 ← py_get c 0;
       p ← py_get position_ids_blocks 0; p0 ← py_get p 0;
       Ok ([py_take anchor_block_size c0], [py_take anchor_block_size p0]));
  c ← py_get ctx_ids_blocks cp_rank;
  p ← py_get position_ids_blocks cp_rank;
  Ok (ctx_blocks ++ c, position_blocks ++ p, padding).

(** ** Requests *)

(** The fields of an [LlmRequest] this code decides. *)
Record MergedRequest := {
  mr_request_id : Z;
  mr_parent_id : option Z;
  mr_input_tokens : list Z;
  mr_position_ids : option (list Z);
  mr_exclude_last_generation_logits : bool;
  seqlen_this_rank_cp : Z;
  total_input_len_cp : Z;
  mr_ctx_blocks : option (list (list Z) * list (list Z));
  mr_query_id : option (list Z);
}.

(** What a caller passes for [child_req_ids]: optional ids, or, by mistake, a
    flag. *)
Inductive ChildArg := ChildIds (ids : option (list Z)) | ChildFlag (b : bool).

(** [for child_id in child_req_ids], under the test of its truth value; a flag
    cannot be iterated over. *)
Definition child_ids (a : ChildArg) : result (list Z) :=
  match a with
  | ChildIds ids => Ok (default [] ids)
  | ChildFlag false => Ok []
  | ChildFlag true => Err TypeError
  end.

(** The constructor sets both context-parallel lengths to the prompt's. *)
Definition LlmRequest_init (i : Z) (parent : option Z) (tokens : list Z) (positions : option (list Z))
    (exclude : bool) : MergedRequest :=
  {| mr_request_id := i; mr_parent_id := parent; mr_input_tokens := tokens; mr_position_ids := positions;
     mr_exclude_last_generation_logits := exclude; seqlen_this_rank_cp := len tokens;
     total_input_len_cp := len tokens; mr_ctx_blocks := None; mr_query_id := None |}.

(** The request and its children. *)
Definition executor_request_to_llm_request (req_id : Z) (executor_request : ExecutorRequest)
    (child_req_ids : ChildArg) (exclude_last_generation_logits : bool)
    (input_token_ids : option (list Z)) (position_ids : option (list Z))
    : result (MergedRequest * list MergedRequest) :=
  let input_tokens := default (RequestQueue.input_token_ids executor_request) input_token_ids in
  ids ← child_ids child_req_ids;
  Ok (LlmRequest_init req_id None input_tokens position_ids exclude_last_generation_logits,
      map (fun i => LlmRequest_init i (Some req_id) input_tokens position_ids exclude_last_generation_logits) ids).

(** [req_item.request.f]: an item without a request raises. *)
Definition item_payload (item : RequestQueueItem) : result ExecutorRequest :=
  match item_request item with Some r => Ok r | None => Err AttributeError end.

Definition merge_requests_to_llm_requests (new_requests : list RequestQueueItem)
    (exclude_last_generation_logits : bool) : result (list MergedRequest) :=
  for_each (fun req_with_children item =>
              r ← item_payload item;
              '(req, children) ← executor_request_to_llm_request (item_id item) r (ChildIds (child_req_ids item))
                                   exclude_last_generation_logits None None;
              Ok (req_with_children ++ req :: children))
           [] new_requests.

(** [req.total_input_len_cp = input_len; req.seqlen_this_rank_cp = len(...)] *)
Definition set_cp_lens (req : MergedRequest) (input_len this_rank : Z) : MergedRequest :=
  {| mr_request_id := mr_request_id req; mr_parent_id := mr_parent_id req; mr_input_tokens := mr_input_tokens req;
     mr_position_ids := mr_position_ids req;
     mr_exclude_last_generation_logits := mr_exclude_last_generation_logits req;
     seqlen_this_rank_cp := this_rank; total_input_len_cp := input_len;
     mr_ctx_blocks := mr_ctx_blocks req; mr_query_id := mr_query_id req |}.

Definition merge_helix_requests (new_requests : list RequestQueueItem) (cp_rank cp_size tokens_per_block : Z)
    (exclude_last_generation_logits : bool) : result (list MergedRequest) :=
  for_each (fun req_with_children item =>
              r ← item_payload item;
              '(ids, positions, input_len, _) ←
                partition_context_for_helix (RequestQueue.input_token_ids r) cp_rank cp_size tokens_per_block;
              '(req, children) ← executor_request_to_llm_request (item_id item) r (ChildIds (child_req_ids item))
                                   exclude_last_generation_logits (Some ids) (Some positions);
              Ok (req_with_children ++ set_cp_lens req input_len (len ids) :: children))
           [] new_requests.

(** [blocks[-1] = blocks[-1][:-n]] *)
Definition trim_last (n : Z) (blocks : list (list Z)) : result (list (list Z)) :=
  l ← py_get blocks (-1); py_set blocks (-1) (py_take (- n) l).

(** [l.insert(1, x)] *)
Definition insert1 {A} (x : A) (l : list A) : list A := take 1 l ++ x :: drop 1 l.

Definition merge_star_one (cp_rank cp_size block_size anchor_block_size : Z)
    (exclude_last_generation_logits : bool) (item : RequestQueueItem) : result MergedRequest :=
  exe_req ← item_payload item;
  let ctx_len0 := len (RequestQueue.input_token_ids exe_req) in
  '(ctx_blocks, position_blocks, last_block_padding_num) ←
    partition_context_for_star_attention (RequestQueue.input_token_ids exe_req) cp_rank cp_size
      (Some block_size) (Some anchor_block_size);
  '(ctx_blocks, position_blocks) ←
    (if (cp_rank =? cp_size - 1) && (0 <? last_block_padding_num) then
       c ← trim_last last_block_padding_num ctx_blocks;
       p ← trim_last last_block_padding_num position_blocks;
       Ok (c, p)
     else Ok (ctx_blocks, position_blocks));
  let query := default [] (item_query item) in
  let '(ctx_blocks, position_blocks) :=
    if bool_decide (query = []) then (ctx_blocks, position_blocks)
    else (ctx_blocks ++ [query],
          position_blocks ++ [(fun i => ctx_len0 + Z.of_nat i) <$> seq 0 (length query)]) in
  total_blocks ← pydiv (ctx_len0 + block_size - 1) block_size;
  n ← pydiv (total_blocks + cp_size - 1) cp_size;
  let num_blocks_per_rank := n + 1 in
  '(ctx_blocks, position_blocks) ←
    (if len ctx_blocks =? num_blocks_per_rank then Ok (insert1 [] ctx_blocks, insert1 [] position_blocks)
     else if len ctx_blocks =? num_blocks_per_rank + 1 then Ok (ctx_blocks, position_blocks)
     else Err ValueError);
  let ctx_blocks_list := replicate (Z.to_nat (block_size + anchor_block_size)) 0 in
  (* the flag goes to [child_req_ids] and the list to the flag *)
  '(req, _) ← executor_request_to_llm_request (item_id item) exe_req (ChildFlag exclude_last_generation_logits)
                (negb (bool_decide (ctx_blocks_list = []))) None None;
  Ok {| mr_request_id := mr_request_id req; mr_parent_id := mr_parent_id req;
        mr_input_tokens := mr_input_tokens req; mr_position_ids := mr_position_ids req;
        mr_exclude_last_generation_logits := mr_exclude_last_generation_logits req;
        seqlen_this_rank_cp := seqlen_this_rank_cp req; total_input_len_cp := total_input_len_cp req;
        mr_ctx_blocks := Some (ctx_blocks, position_blocks); mr_query_id := item_query item |}.

Definition config_entry (cp_config : CpConfig) (key : string) : result Z :=
  match cp_other cp_config !! key with Some v => Ok v | None => Err KeyError end.

Definition merge_star_attention_requests (new_requests : list RequestQueueItem) (cp_rank cp_size : Z)
    (cp_config : CpConfig) (exclude_last_generation_logits : bool) : result (list MergedRequest) :=
  block_size ← config_entry cp_config "block_size";
  anchor_block_size ← config_entry cp_config "cp_anchor_size";
  for_each (fun result item =>
              req ← merge_star_one cp_rank cp_size block_size anchor_block_size
                      exclude_last_generation_logits item;
              Ok (result ++ [req]))
           [] new_requests.

(** A [cp_type] that is still a name has no [name] attribute to report. *)
Definition merge_requests (new_requests : list RequestQueueItem) (cp_config : CpConfig) (cp_rank cp_size : Z)
    (exclude_last_generation_logits : bool) : result (list MergedRequest) :=
  match cp_type_entry cp_config with
  | None => merge_requests_to_llm_requests new_requests exclude_last_generation_logits
  | Some (CpMember STAR) =>
      merge_star_attention_requests new_requests cp_rank cp_size cp_config exclude_last_generation_logits
  | Some (CpMember HELIX) =>
      tokens_per_block ← config_entry cp_config "tokens_per_block";
      merge_helix_requests new_requests cp_rank cp_size tokens_per_block exclude_last_generation_logits
  | Some (CpMember _) => Err NotImplementedError
  | Some (CpName _) => Err AttributeError
  end.

(** ** Selections by index *)

Section selections.
Context {A : Type}.
Implicit Types l : list A.

Lemma sel_ext f g i l : (forall j, (i <= j < i + length l)%nat -> f j = g j) -> sel f i l = sel g i l.
Proof.
  revert i. induction l as [|x l IH]; intros i Hfg; [done|]. simpl in *.
  rewrite (Hfg i) by lia. rewrite (IH (S i)) by (intros j Hj; apply Hfg; lia). done.
Qed.

Lemma sel_app f i l1 l2 : sel f i (l1 ++ l2) = sel f i l1 ++ sel f (i + length l1) l2.
Proof.
  revert i. induction l1 as [|x l1 IH]; intros i; simpl; [by rewrite Nat.add_0_r|].
  rewrite IH, Nat.add_succ_comm. by destruct (f i).
Qed.

Lemma sel_const b i l : sel (fun _ => b) i l = if b then l else [].
Proof. revert i. induction l as [|x l IH]; intros i; simpl; [by destruct b|]. rewrite IH. by destruct b. Qed.

(** Selecting from blocks of equal size by the number of the block. *)
Lemma sel_concat g n k (blocks : list (list A)) :
  (0 < n)%nat -> Forall (fun b => length b = n) blocks ->
  sel (fun i => g (i / n)%nat) (k * n) (concat blocks) = concat (sel g k blocks).
Proof.
  intros Hn HB. revert k. induction HB as [|b blocks Hb _ IH]; intros k; [done|].
  cbn [concat sel]. rewrite sel_app.
  rewrite (sel_ext _ (fun _ => g k)), sel_const.
  2: { intros j Hj. f_equal. symmetry. apply (Nat.div_unique j n k (j - k * n)); lia. }
  rewrite Hb. replace (k * n + n)%nat with (S k * n)%nat by lia. rewrite IH.
  by destruct (g k).
Qed.

Lemma split_blocks_spec n l : (0 < n)%nat -> forall N fuel, length l = (S N * n)%nat -> (length l <= fuel)%nat ->
  concat (split_blocks fuel n l) = l /\ length (split_blocks fuel n l) = S N
  /\ Forall (fun b => length b = n) (split_blocks fuel n l).
Proof.
  intros Hn N. revert l. induction N as [|N IH]; intros l fuel Hl Hf.
  - destruct fuel as [|fuel]; [lia|]. simpl. rewrite (proj2 (Nat.leb_le _ _)) by lia. simpl.
    rewrite app_nil_r. split_and!; [done..|]. repeat constructor. lia.
  - destruct fuel as [|fuel]; [lia|]. simpl. rewrite (proj2 (Nat.leb_gt _ _)) by lia. simpl.
    destruct (IH (drop n l) fuel) as (Hc & Hlen & HF).
    { rewrite length_drop. lia. }
    { rewrite length_drop. lia. }
    rewrite Hc, Hlen, take_drop. split_and!; [done..|]. constructor; [|done]. rewrite length_take. lia.
Qed.

Lemma sel_seq_ge f p n : forall k s, p ∈ sel f s (seq k n) -> (k <= p)%nat.
Proof.
  induction n as [|n IH]; intros k s Hin; simpl in Hin; [by apply elem_of_nil in Hin|].
  destruct (f s); [apply elem_of_cons in Hin as [->|Hin]; [lia|]|]; apply IH in Hin; lia.
Qed.

(** A selection, by the selected indices. *)
Lemma sel_indices f i l : sel f i l = omap (fun p => l !! (p - i)%nat) (sel f i (seq i (length l))).
Proof.
  revert i. induction l as [|x l IH]; intros i; [done|]. cbn [length seq sel].
  assert (Hrest : sel f (S i) l = omap (fun p => (x :: l) !! (p - i)%nat) (sel f (S i) (seq (S i) (length l)))).
  { rewrite IH. apply list_omap_ext.
    apply Forall_Forall2_diag, Forall_forall. intros p Hp.
    apply sel_seq_ge in Hp.
    replace (p - i)%nat with (S (p - S i)) by lia. done. }
  destruct (f i); [|done]. simpl. rewrite Nat.sub_diag. simpl. by rewrite Hrest.
Qed.

End selections.

(** ** The Helix partition *)

(** The global positions of the tokens a context-parallel rank owns: blocks are
    dealt round-robin. *)
Definition helix_positions (n cp_rank cp_size tokens_per_block : Z) : list Z :=
  filter (fun p => (p / tokens_per_block) mod cp_size = cp_rank) (arange n).

Definition owned (r c n : Z) (i : nat) : bool := bool_decide ((Z.of_nat i / n) mod c = r).

Lemma strided_sel {A} r c (l : list A) :
  0 <= r < c -> strided r c l = sel (fun b => bool_decide (Z.of_nat b mod c = r)) 0 l.
Proof.
  intros Hr. apply sel_ext. intros j _. apply eq_true_iff_eq.
  rewrite andb_true_iff, Z.leb_le, Z.eqb_eq, bool_decide_eq_true. split.
  - intros [Hle Hm]. apply Z.mod_divide in Hm as [q Hq]; [|lia]. symmetry. apply (Z.mod_unique _ _ q); lia.
  - intros Hm. pose proof (Z.div_mod (Z.of_nat j) c ltac:(lia)) as Hd.
    assert (0 <= Z.of_nat j / c) by (apply Z.div_pos; lia). split; [nia|].
    apply Z.mod_divide; [lia|]. exists (Z.of_nat j / c). lia.
Qed.

(** The blocks of a rank, concatenated. *)
Lemma helix_blocks {A} r c n N (l : list A) :
  0 < n -> 0 <= r < c -> len l = Z.of_nat (S N) * n ->
  exists blocks, torch_split n l = Ok blocks /\ length blocks = S N
    /\ concat (strided r c blocks) = sel (owned r c n) 0 l.
Proof.
  intros Hn Hr Hl. unfold torch_split. rewrite (proj2 (Z.ltb_ge _ _)), (proj2 (Z.eqb_neq _ _)) by lia.
  eexists. split; [done|].
  destruct (split_blocks_spec (Z.to_nat n) l ltac:(lia) N (length l)) as (Hc & Hlen & HF); [nia|lia|].
  split; [done|]. set (B := split_blocks _ _ _) in *. rewrite <- Hc, strided_sel by done.
  rewrite <- (sel_concat (fun b => bool_decide (Z.of_nat b mod c = r)) (Z.to_nat n) 0) by (done || lia).
  apply sel_ext. intros j _. unfold owned. by rewrite Nat2Z.inj_div, Z2Nat.id by lia.
Qed.

Lemma sel_nonempty {A} f (l : list A) j : (j < length l)%nat -> f j = true -> sel f 0 l <> [].
Proof.
  intros Hj Hf. destruct (lookup_lt_is_Some_2 l j Hj) as [x Hx].
  rewrite <- (take_drop_middle l j x Hx), sel_app. simpl.
  rewrite length_take_le by lia. rewrite Hf. intros H. by apply app_nil in H as [_ ?].
Qed.

Lemma torch_cat_strided {A} r c (l : list (list A)) :
  0 <= r < c -> c <= len l -> torch_cat (strided r c l) = Ok (concat (strided r c l)).
Proof.
  intros Hr Hc. assert (Hne : strided r c l <> []).
  { rewrite strided_sel by done. apply (sel_nonempty _ _ (Z.to_nat r)); [lia|].
    apply bool_decide_eq_true. rewrite Z2Nat.id by lia. apply Z.mod_small. lia. }
  by destruct (strided r c l).
Qed.

(** The padding is the tail of the last block: its owner strips it. *)
Lemma helix_strip {A} r c n N (l pad : list A) :
  0 < n -> 0 <= r < c -> len l + len pad = Z.of_nat (S N) * n -> len pad < n ->
  (if (r =? Z.of_nat N mod c) && (0 <? len pad)
   then py_take (- len pad) (sel (owned r c n) 0 (l ++ pad)) else sel (owned r c n) 0 (l ++ pad))
  = sel (owned r c n) 0 l.
Proof.
  intros Hn Hr Hl Hpad. rewrite Nat2Z.inj_succ, Z.mul_succ_l in Hl. rewrite sel_app, (sel_ext (owned r c n) (fun _ => r =? Z.of_nat N mod c) (0 + length l)), sel_const.
  2: { intros j Hj. unfold owned. replace (Z.of_nat j / n) with (Z.of_nat N).
       - apply eq_true_iff_eq. rewrite bool_decide_eq_true, Z.eqb_eq. done.
       - apply (Z.div_unique _ _ _ (Z.of_nat j - Z.of_nat N * n)); [left; lia|ring]. }
  destruct (r =? Z.of_nat N mod c); simpl; [|by rewrite app_nil_r].
  destruct (Z.ltb_spec 0 (len pad)) as [Hp|Hp].
  - unfold py_take. rewrite (proj2 (Z.ltb_lt _ _)) by lia. rewrite length_app.
    replace (Z.to_nat _) with (length (sel (owned r c n) 0 l)) by lia. by rewrite take_app_length.
  - destruct pad; [by rewrite app_nil_r|]. simpl in Hp. lia.
Qed.

Lemma sel_fmap {A B} (g : A -> B) f i l : sel f i (g <$> l) = g <$> sel f i l.
Proof.
  revert i. induction l as [|x l IH]; intros i; [done|]. rewrite fmap_cons. cbn [sel]. rewrite IH.
  by destruct (f i).
Qed.

Lemma sel_owned_positions n r c m : sel (owned r c m) 0 (arange n) = helix_positions n r c m.
Proof.
  unfold helix_positions, arange. generalize 0%nat as i. induction (Z.to_nat n) as [|k IH]; intros i; [done|].
  cbn [seq]. rewrite fmap_cons. cbn [sel]. rewrite filter_cons, IH. unfold owned at 1.
  case_bool_decide; case_decide; done.
Qed.

Lemma sel_owned_tokens (input : list Z) r c m :
  sel (owned r c m) 0 input = omap (fun p => input !! Z.to_nat p) (helix_positions (len input) r c m).
Proof.
  rewrite sel_indices, <- sel_owned_positions. unfold arange. rewrite Nat2Z.id, sel_fmap.
  apply list_omap_ext, Forall2_fmap_r, Forall_Forall2_diag, Forall_forall. intros p _. simpl.
  by rewrite Nat.sub_0_r, Nat2Z.id.
Qed.

Lemma arange_app a b : 0 <= a -> 0 <= b -> arange (a + b) = arange a ++ ((fun p => a + p) <$> arange b).
Proof.
  intros Ha Hb. unfold arange. rewrite Z2Nat.inj_add, seq_app, fmap_app by done. f_equal.
  rewrite <- list_fmap_compose. replace (0 + Z.to_nat a)%nat with (Z.to_nat a + 0)%nat by lia.
  rewrite <- fmap_add_seq, <- list_fmap_compose. apply list_fmap_ext. intros _ i _. simpl. lia.
Qed.

Lemma length_arange n : length (arange n) = Z.to_nat n.
Proof. unfold arange. by rewrite length_fmap, length_seq. Qed.

(** The padding completes the last block. *)
Lemma helix_padding L n : 0 < n -> 0 < L ->
  let pad := if L mod n =? 0 then 0 else n - L mod n in
  exists N, (L + n - 1) / n = Z.of_nat (S N) /\ L + pad = Z.of_nat (S N) * n /\ 0 <= pad < n
    /\ pad = (- L) mod n.
Proof.
  intros Hn HL pad. pose proof (Z.mod_pos_bound L n Hn) as Hm. pose proof (Z.div_mod L n ltac:(lia)) as Hd.
  assert (Hq : 0 <= L / n) by (apply Z.div_pos; lia).
  unfold pad. destruct (Z.eqb_spec (L mod n) 0) as [H0|H0].
  - assert (Hpos : 1 <= L / n) by nia. exists (Z.to_nat (L / n - 1)).
    replace (Z.of_nat (S (Z.to_nat (L / n - 1)))) with (L / n) by lia.
    rewrite Z.mod_opp_l_z by lia. split_and!; try lia.
    symmetry. apply (Z.div_unique _ _ _ (n - 1)); lia.
  - exists (Z.to_nat (L / n)). replace (Z.of_nat (S (Z.to_nat (L / n)))) with (L / n + 1) by lia.
    rewrite Z.mod_opp_l_nz by lia. split_and!; try lia.
    symmetry. apply (Z.div_unique _ _ _ (L mod n - 1)); lia.
Qed.

(** C33. Splitting a prompt for Helix: with too few blocks for the ranks it is
    refused; otherwise a rank gets exactly the tokens of the blocks dealt to it
    round-robin, with their global positions, in order and without the padding of
    the last block.  So every token of the prompt is on exactly one rank. *)
Theorem helix_partition_exact input r cp n :
  0 < n -> 0 <= r < cp ->
  partition_context_for_helix input r cp n =
    if (len input + n - 1) / n <? cp then Err ValueError
    else Ok (omap (fun p => input !! Z.to_nat p) (helix_positions (len input) r cp n),
             helix_positions (len input) r cp n, len input, (- len input) mod n).
Proof.
  intros Hn Hr. unfold partition_context_for_helix, pydiv, pymod.
  rewrite (proj2 (Z.eqb_neq n 0)), (proj2 (Z.eqb_neq cp 0)) by lia. cbn [mbind result_bind].
  destruct (Z.ltb_spec ((len input + n - 1) / n) cp) as [Hlt|Hge]; [done|].
  assert (HL : 0 < len input).
  { destruct input as [|x l]; [|simpl; lia]. simpl in Hge. rewrite Z.div_small in Hge; lia. }
  destruct (helix_padding (len input) n Hn HL) as (N & HN & Htot & Hpad & Hopp).
  rewrite Hopp in Htot, Hpad |- *.
  set (pad := (- len input) mod n) in *. rewrite HN in Hge |- *.
  assert (Hpl : len (replicate (Z.to_nat pad) 0) = pad) by (rewrite length_replicate; lia).
  assert (Hpl' : len ((fun p => len input + p) <$> arange pad) = pad) by (rewrite length_fmap, length_arange; lia).
  rewrite arange_app by lia.
  destruct (helix_blocks r cp n N (input ++ replicate (Z.to_nat pad) 0) Hn Hr) as (B1 & -> & Hl1 & Hc1).
  { rewrite length_app. lia. }
  destruct (helix_blocks r cp n N (arange (len input) ++ ((fun p => len input + p) <$> arange pad)) Hn Hr)
    as (B2 & -> & Hl2 & Hc2).
  { rewrite length_app, length_arange. lia. }
  cbn [mbind result_bind]. rewrite !torch_cat_strided by lia. cbn [mbind result_bind]. rewrite Hc1, Hc2.
  pose proof (helix_strip r cp n N input (replicate (Z.to_nat pad) 0) Hn Hr) as S1.
  pose proof (helix_strip r cp n N (arange (len input)) ((fun p => len input + p) <$> arange pad) Hn Hr) as S2.
  rewrite Hpl in S1. rewrite Hpl', length_arange, Nat2Z.id in S2.
  replace (Z.of_nat (S N) - 1) with (Z.of_nat N) by lia.
  rewrite <- sel_owned_tokens, <- sel_owned_positions, <- S1, <- S2 by lia.
  by destruct (_ && _).
Qed.

Lemma helix_partition_exact_witness :
  partition_context_for_helix [10; 11; 12; 13; 14; 15; 16] 0 2 2
  = Ok ([10; 11; 14; 15], [0; 1; 4; 5], 7, 1).
Proof. rewrite (helix_partition_exact [10; 11; 12; 13; 14; 15; 16] 0 2 2); [reflexivity|lia|lia]. Defined.

(** ** Merged requests *)

Lemma to_llm_request_ids i r ids ex tokens positions :
  exists req children, executor_request_to_llm_request i r (ChildIds ids) ex tokens positions = Ok (req, children)
    /\ mr_request_id req = i /\ mr_request_id <$> children = default [] ids.
Proof.
  unfold executor_request_to_llm_request. simpl. eexists _, _. split_and!; [done..|].
  induction (default [] ids) as [|c l IH]; [done|]. simpl. f_equal. exact IH.
Qed.

(** Without context parallelism: each request followed by its children. *)
Lemma merge_plain_ids items ex :
  Forall (fun x => is_Some (item_request x)) items ->
  exists l, merge_requests_to_llm_requests items ex = Ok l
    /\ mr_request_id <$> l = concat (item_ids <$> items).
Proof.
  intros Hreq. apply (for_each_prefix_total _ (fun pre l => mr_request_id <$> l = concat (item_ids <$> pre))); [done|].
  intros pre x post acc -> IH. apply Forall_app in Hreq as [_ Hx]. apply Forall_cons in Hx as [[r Hr] _].
  unfold item_payload. rewrite Hr. cbn [mbind result_bind].
  destruct (to_llm_request_ids (item_id x) r (child_req_ids x) ex None None) as (req & ch & -> & Hid & Hch).
  eexists. split; [done|]. rewrite !fmap_app, concat_app, IH, !fmap_cons, Hid, Hch. simpl. by rewrite app_nil_r.
Qed.

(** What one item becomes on a Helix rank. *)
Record helix_part (r cp n : Z) (item : RequestQueueItem) (part : list MergedRequest) : Prop := {
  hp_ids : mr_request_id <$> part = item_ids item;
  hp_positions req : req ∈ part ->
    exists e, item_request item = Some e
      /\ mr_position_ids req = Some (helix_positions (len (RequestQueue.input_token_ids e)) r cp n)
      /\ mr_input_tokens req = omap (fun p => RequestQueue.input_token_ids e !! Z.to_nat p)
           (helix_positions (len (RequestQueue.input_token_ids e)) r cp n)
      /\ seqlen_this_rank_cp req = len (mr_input_tokens req)
      /\ total_input_len_cp req = if is_none (mr_parent_id req) then len (RequestQueue.input_token_ids e)
                                  else len (mr_input_tokens req);
}.

(** Merging for Helix succeeds when every prompt has a block for each rank.
    Every item becomes its request followed by its children, with this rank's
    share of the prompt and its global positions.  Only the request itself
    records the length of the whole prompt: its children are left with the length
    of the share. *)
Theorem helix_merge_shares items r cp n ex :
  0 < n -> 0 <= r < cp ->
  Forall (fun x => exists e, item_request x = Some e
            /\ cp <= (len (RequestQueue.input_token_ids e) + n - 1) / n) items ->
  exists parts, merge_helix_requests items r cp n ex = Ok (concat parts)
    /\ Forall2 (helix_part r cp n) items parts.
Proof.
  intros Hn Hr Hreq.
  enough (exists l, merge_helix_requests items r cp n ex = Ok l
    /\ exists parts, l = concat parts /\ Forall2 (helix_part r cp n) items parts) as (l & -> & parts & -> & HF) by eauto.
  apply (for_each_prefix_total _ (fun pre l => exists parts, l = concat parts /\ Forall2 (helix_part r cp n) pre parts)).
  { by exists []. }
  intros pre x post acc -> (parts & -> & HF). apply Forall_app in Hreq as [_ Hx].
  apply Forall_cons in Hx as [(e & He & Hge) _].
  unfold item_payload. rewrite He. cbn [mbind result_bind]. rewrite helix_partition_exact by done.
  rewrite (proj2 (Z.ltb_ge _ _) Hge). cbn [mbind result_bind].
  destruct (to_llm_request_ids (item_id x) e (child_req_ids x) ex (Some (omap (fun p => RequestQueue.input_token_ids e !! Z.to_nat p)
    (helix_positions (len (RequestQueue.input_token_ids e)) r cp n)))
    (Some (helix_positions (len (RequestQueue.input_token_ids e)) r cp n))) as (req & ch & Hrun & Hid & Hch).
  rewrite Hrun. cbn [mbind result_bind]. eexists. split; [done|]. exists (parts ++ [set_cp_lens req
    (len (RequestQueue.input_token_ids e)) (len (omap (fun p => RequestQueue.input_token_ids e !! Z.to_nat p)
    (helix_positions (len (RequestQueue.input_token_ids e)) r cp n))) :: ch]).
  rewrite concat_app. cbn [concat]. rewrite app_nil_r. split; [done|]. apply Forall2_app; [done|]. repeat constructor.
  - rewrite fmap_cons, Hch. unfold item_ids. f_equal. exact Hid.
  - unfold executor_request_to_llm_request in Hrun. simpl in Hrun. injection Hrun as <- <-.
    intros q [->|(c & -> & _)%list_elem_of_fmap]%elem_of_cons; exists e; simpl; done.
Qed.

Definition wit_merge_item (n : option (list Z)) (query : option (list Z)) : RequestQueueItem :=
  {| item_id := 7;
     item_request := Some {| priority := DEFAULT_REQUEST_PRIORITY; input_token_ids := [1; 2; 3; 4; 5];
       py_scheduling_params := None; lora_task_id := None; disagg_request_id := None; beam_width := 1;
       num_return_sequences := None |};
     child_req_ids := n; is_canceled_request := false; item_query := query |}.

Lemma helix_merge_shares_witness :
  exists parts, merge_helix_requests [wit_merge_item (Some [8]) None] 1 2 2 false = Ok (concat parts)
    /\ total_input_len_cp <$> concat parts = [5; 2].
Proof.
  destruct (helix_merge_shares [wit_merge_item (Some [8]) None] 1 2 2 false) as (parts & Hrun & _).
  - lia.
  - lia.
  - constructor; [|constructor]. eexists. split; [reflexivity|]. vm_compute. discriminate.
  - exists parts. revert Hrun. generalize (concat parts) as l. intros l Hrun. split; [exact Hrun|].
    vm_compute in Hrun. injection Hrun as <-. reflexivity.
Defined.

(** ** Star attention *)

(** The call that builds the request passes its arguments one place off. *)
Lemma star_one_flag r cp b a ex item req :
  merge_star_one r cp b a ex item = Ok req ->
  ex = false /\ mr_exclude_last_generation_logits req = negb (bool_decide (replicate (Z.to_nat (b + a)) 0 = []))
  /\ exists e, item_request item = Some e /\ mr_input_tokens req = RequestQueue.input_token_ids e.
Proof.
  unfold merge_star_one, item_payload. intros (e & He & H)%bind_Ok.
  destruct (item_request item) as [e'|]; [|done]. injection He as ->.
  apply bind_Ok in H as ([[c p] pad] & _ & H). apply bind_Ok in H as ([c' p'] & _ & H).
  destruct (if bool_decide _ then _ else _) as [c'' p'']. apply bind_Ok in H as (t & _ & H).
  apply bind_Ok in H as (n & _ & H). apply bind_Ok in H as ([c3 p3] & _ & H).
  unfold executor_request_to_llm_request in H. destruct ex; [done|]. simpl in H. injection H as <-. simpl. eauto.
Qed.

(** Star-attention merging mixes up the arguments of the request: asked to
    drop the last generation logits it fails on every non-empty list, and asked
    to keep them it returns requests that drop them, with the whole prompt in
    place of the placeholder meant for the scheduler. *)
Theorem star_merge_arguments_shifted r cp cfg item items b a :
  cp_other cfg !! "block_size"%string = Some b -> cp_other cfg !! "cp_anchor_size"%string = Some a -> 0 < b + a ->
  (forall l, merge_star_attention_requests (item :: items) r cp cfg true <> Ok l)
  /\ (forall l, merge_star_attention_requests (item :: items) r cp cfg false = Ok l ->
        Forall (fun req => mr_exclude_last_generation_logits req = true) l
        /\ Forall2 (fun x req => exists e, item_request x = Some e
             /\ mr_input_tokens req = RequestQueue.input_token_ids e) (item :: items) l).
Proof.
  intros Hb Ha Hpos. unfold merge_star_attention_requests, config_entry. rewrite Hb, Ha. cbn [mbind result_bind].
  split; intros l.
  - cbn [for_each]. intros (l1 & Hx & _)%bind_Ok. apply bind_Ok in Hx as (req & Hreq & _).
    by apply star_one_flag in Hreq as [? _].
  - assert (Hne : bool_decide (replicate (Z.to_nat (b + a)) 0 = []) = false).
    { apply bool_decide_eq_false. destruct (Z.to_nat (b + a)) eqn:E; [lia|done]. }
    enough (Hgen : forall xs pre acc l, 
      Forall (fun req => mr_exclude_last_generation_logits req = true) acc ->
      Forall2 (fun x req => exists e, item_request x = Some e
             /\ mr_input_tokens req = RequestQueue.input_token_ids e) pre acc ->
      for_each (fun result item => req ← merge_star_one r cp b a false item; Ok (result ++ [req])) acc xs = Ok l ->
      Forall (fun req => mr_exclude_last_generation_logits req = true) l
      /\ Forall2 (fun x req => exists e, item_request x = Some e
             /\ mr_input_tokens req = RequestQueue.input_token_ids e) (pre ++ xs) l)
      by (apply (Hgen (item :: items) [] []); constructor).
    clear -Hne. induction xs as [|x xs IH]; intros pre acc l HF HF2; cbn [for_each].
    { intros [= <-]. by rewrite app_nil_r. }
    intros (acc' & Hx & Hrest)%bind_Ok. apply bind_Ok in Hx as (req & Hreq & Hx). injection Hx as <-.
    apply star_one_flag in Hreq as (_ & Hex & Htok). rewrite Hne in Hex.
    rewrite cons_middle, app_assoc. eapply IH; [ | |exact Hrest].
    + apply Forall_app. split; [done|]. by repeat constructor.
    + apply Forall2_app; [done|]. by repeat constructor.
Qed.

Lemma star_merge_arguments_shifted_witness :
  exists l,
    merge_star_attention_requests [wit_merge_item None (Some [9])] 1 2
      {| cp_type_entry := Some (CpMember STAR); cp_other := <["block_size" := 2]> (<["cp_anchor_size" := 1]> ∅) |} false = Ok l
    /\ Forall (fun req => mr_exclude_last_generation_logits req = true) l.
Proof.
  destruct (star_merge_arguments_shifted 1 2
    {| cp_type_entry := Some (CpMember STAR); cp_other := <["block_size" := 2]> (<["cp_anchor_size" := 1]> ∅) |}
    (wit_merge_item None (Some [9])) [] 2 1) as [_ Hkeep].
  - reflexivity.
  - reflexivity.
  - lia.
  - eexists. split; [vm_compute; reflexivity|]. apply Hkeep. vm_compute. reflexivity.
Defined.

(** *** The partition *)

Lemma split_sizes_spec {A} sizes (l : list A) :
  length l = sum_list sizes ->
  concat (split_sizes sizes l) = l /\ length (split_sizes sizes l) = length sizes
  /\ forall k n, sizes !! k = Some n -> exists part, split_sizes sizes l !! k = Some part /\ length part = n.
Proof.
  revert l. induction sizes as [|n sizes IH]; intros l Hl; simpl in *.
  { apply nil_length_inv in Hl as ->. split_and!; [done..|]. by intros k n. }
  destruct (IH (drop n l)) as (Hc & Hlen & Hk); [rewrite length_drop; lia|].
  rewrite Hc, take_drop, Hlen. split_and!; [done..|]. intros [|k] m; simpl; [|by apply Hk].
  intros [= <-]. eexists. split; [done|]. rewrite length_take. lia.
Qed.

(** Dealing [n] elements to [p] parts, the first [n mod p] one more. *)
Lemma share_sizes_sum n p k : 0 < p -> 0 <= n ->
  Z.of_nat (sum_list ((fun i => Z.to_nat (n / p + (if Z.of_nat i <? n mod p then 1 else 0))) <$> seq 0 k))
  = Z.of_nat k * (n / p) + Z.min (Z.of_nat k) (n mod p).
Proof.
  intros Hp Hn. pose proof (Z.mod_pos_bound n p Hp). pose proof (Z.div_pos n p Hn Hp).
  induction k as [|k IH]; [simpl; lia|]. rewrite seq_S, fmap_app, sum_list_with_app. simpl. rewrite Nat2Z.inj_add, IH. destruct (Z.ltb_spec (Z.of_nat k) (n mod p)); lia.
Qed.

Lemma tensor_split_spec {A} (l : list A) p : 0 < p -> l <> [] ->
  exists parts, torch_tensor_split l p = Ok parts /\ concat parts = l /\ length parts = Z.to_nat p
    /\ exists x part rest, parts = (x :: part) :: rest.
Proof.
  intros Hp Hne. unfold torch_tensor_split. rewrite (proj2 (Z.leb_gt _ _)) by lia. cbv zeta.
  set (sizes := _ <$> seq 0 (Z.to_nat p)).
  assert (Hsum : length l = sum_list sizes).
  { apply Nat2Z.inj. unfold sizes. rewrite share_sizes_sum by lia. pose proof (Z.mod_pos_bound (len l) p Hp).
    rewrite Z2Nat.id, Z.min_r by lia. rewrite (Z.div_mod (len l) p) at 1 by lia. done. }
  destruct (split_sizes_spec sizes l Hsum) as (Hc & Hlen & Hk). eexists. split; [done|]. split; [done|].
  split; [rewrite Hlen; unfold sizes; by rewrite length_fmap, length_seq|].
  destruct (Hk 0%nat (Z.to_nat (len l / p + (if 0 <? len l mod p then 1 else 0)))) as (part & Hpart & Hpl).
  { unfold sizes. rewrite list_lookup_fmap, lookup_seq_lt by lia. done. }
  destruct (split_sizes sizes l) as [|q rest]; [done|]. injection Hpart as ->.
  destruct part as [|x part]; [|eauto]. exfalso. simpl in Hpl.
  assert (Hpos : 0 < len l) by (destruct l; [done|simpl; lia]).
  pose proof (Z.div_mod (len l) p ltac:(lia)). pose proof (Z.mod_pos_bound (len l) p Hp).
  pose proof (Z.div_pos (len l) p ltac:(lia) Hp). destruct (Z.ltb_spec 0 (len l mod p)); nia.
Qed.

Lemma torch_split_blocks {A} n N (l : list A) : 0 < n -> len l = Z.of_nat (S N) * n ->
  exists blocks, torch_split n l = Ok (take (Z.to_nat n) l :: blocks) /\ concat (take (Z.to_nat n) l :: blocks) = l
    /\ length (take (Z.to_nat n) l :: blocks) = S N.
Proof.
  intros Hn Hl. unfold torch_split. rewrite (proj2 (Z.ltb_ge _ _)), (proj2 (Z.eqb_neq _ _)) by lia.
  destruct (split_blocks_spec (Z.to_nat n) l ltac:(lia) N (length l)) as (Hc & Hlen & _); [nia|lia|].
  assert (exists bs, split_blocks (length l) (Z.to_nat n) l = take (Z.to_nat n) l :: bs) as [bs Hbs].
  { destruct l as [|x l]; [simpl in Hl; nia|]. cbn [split_blocks length].
    destruct (Nat.leb_spec (S (length l)) (Z.to_nat n)); [|eauto]. exists []. by rewrite take_ge. }
  exists bs. rewrite Hbs in Hc, Hlen. by rewrite Hbs.
Qed.

(** The blocks of a row, dealt to [cp] ranks. *)
Lemma star_parts {A} n cp N (l : list A) : 0 < n -> 0 < cp -> len l = Z.of_nat (S N) * n ->
  exists blocks parts part0, torch_split n l = Ok blocks /\ torch_tensor_split blocks cp = Ok parts
    /\ concat (concat parts) = l /\ length parts = Z.to_nat cp
    /\ head parts = Some (take (Z.to_nat n) l :: part0).
Proof.
  intros Hn Hcp Hl. destruct (torch_split_blocks n N l Hn Hl) as (bs & Hs & Hc & _).
  destruct (tensor_split_spec (take (Z.to_nat n) l :: bs) cp Hcp) as (parts & Hp & Hcc & Hlen & x & p0 & rest & ->); [done|].
  exists (take (Z.to_nat n) l :: bs), ((x :: p0) :: rest), p0. split_and!; try done; [by rewrite Hcc|].
  simpl in Hcc. injection Hcc as -> _. done.
Qed.

(** Splitting a prompt for Star attention: every rank gets a contiguous run
    of blocks and all ranks but the first get the anchor in front, the start of
    the prompt; the runs of the ranks in order are the padded prompt, and so are
    their positions. *)
Theorem star_partition_covers ctx cp b a :
  0 < b -> 0 <= a <= b -> 0 < cp -> 0 < len ctx -> (- len ctx) mod b <= len ctx ->
  let pad := (- len ctx) mod b in
  let padded := ctx ++ replicate (Z.to_nat pad) 0 in
  let anchor k (l : list Z) := if Nat.eqb k 0 then [] else [take (Z.to_nat a) l] in
  exists own own_pos : list (list (list Z)),
    length own = Z.to_nat cp /\ length own_pos = Z.to_nat cp
    /\ concat (concat own) = padded /\ concat (concat own_pos) = arange (len padded)
    /\ forall k c p, own !! k = Some c -> own_pos !! k = Some p ->
         partition_context_for_star_attention ctx (Z.of_nat k) cp (Some b) (Some a)
         = Ok (anchor k padded ++ c, anchor k (arange (len padded)) ++ p, pad).
Proof.
  intros Hb Ha Hcp HL Hpl pad padded anchor.
  destruct (helix_padding (len ctx) b Hb HL) as (N & _ & Htot & Hpad & Hopp). rewrite Hopp in Htot, Hpad. fold pad in Hpl, Htot, Hpad, Hopp.
  assert (Hlp : len padded = Z.of_nat (S N) * b).
  { unfold padded. rewrite length_app, length_replicate. lia. }
  destruct (star_parts b cp N padded Hb Hcp Hlp) as (bl1 & own & q1 & Hs1 & Ht1 & Hc1 & Hl1 & Hh1).
  destruct (star_parts b cp N (arange (len padded)) Hb Hcp) as (bl2 & pos & q2 & Hs2 & Ht2 & Hc2 & Hl2 & Hh2).
  { rewrite length_arange. lia. }
  exists own, pos. split_and!; [done..|]. intros k c p Hk Hkp.
  unfold partition_context_for_star_attention, pymod. cbn [mbind result_bind]. change (default b (Some a)) with a.
  rewrite (proj2 (Z.leb_le a b)) by lia. cbn [py_assert mbind result_bind].
  rewrite (proj2 (Z.eqb_neq b 0)) by lia. cbn [mbind result_bind]. rewrite Hopp.
  assert (((len ctx mod b =? 0) || (pad <=? len ctx)) = true) as ->.
  { rewrite (proj2 (Z.leb_le _ _)) by lia. by rewrite orb_true_r. }
  cbn [py_assert mbind result_bind]. fold padded. rewrite Hs1, Hs2. cbn [mbind result_bind]. rewrite Ht1, Ht2.
  cbn [mbind result_bind]. destruct own as [|o own]; [done|]. destruct pos as [|o' pos]; [done|].
  simpl in Hh1, Hh2. injection Hh1 as ->. injection Hh2 as ->.
  assert (Hhead : forall A (x : A) l, py_get (x :: l) 0 = Ok x) by done.
  assert (Htake : forall l : list Z, py_take a (take (Z.to_nat b) l) = take (Z.to_nat a) l).
  { intros l. unfold py_take. rewrite (proj2 (Z.ltb_ge _ _)) by lia. rewrite take_take. f_equal. lia. }
  unfold anchor. destruct k as [|k]; cbn [Nat.eqb].
  - change (Z.of_nat 0 =? 0) with true. cbn [mbind result_bind].
    by rewrite (py_get_nat _ 0 _ Hk), (py_get_nat _ 0 _ Hkp).
  - rewrite (proj2 (Z.eqb_neq (Z.of_nat (S k)) 0)), !Hhead by lia. cbn [mbind result_bind].
    rewrite !Hhead. cbn [mbind result_bind]. rewrite !Htake.
    by rewrite (py_get_nat _ (S k) _ Hk), (py_get_nat _ (S k) _ Hkp).
Qed.

Lemma star_partition_covers_witness :
  partition_context_for_star_attention [1; 2; 3; 4; 5; 6; 7] 1 2 (Some 2) (Some 1)
  = Ok ([[1]; [5; 6]; [7; 0]], [[0]; [4; 5]; [6; 7]], 1).
Proof.
  destruct (star_partition_covers [1; 2; 3; 4; 5; 6; 7] 2 2 1) as (own & pos & Hl1 & Hl2 & _ & _ & Hrun);
    [lia|lia|lia|simpl; lia|vm_compute; discriminate|].
  destruct own as [|o0 [|o1 [|o2 own]]]; [discriminate Hl1|discriminate Hl1| |discriminate Hl1].
  destruct pos as [|p0 [|p1 [|p2 pos]]]; [discriminate Hl2|discriminate Hl2| |discriminate Hl2].
  specialize (Hrun 1%nat o1 p1 eq_refl eq_refl). etransitivity; [exact Hrun|].
  vm_compute in Hrun. injection Hrun as <- <-. reflexivity.
Defined.
