(* ===== verification/FetchRequests.v ===== *)
(** * Fetching new requests

    [_fetch_new_requests] of [_torch/pyexecutor/py_executor.py] and the steps
    around it, from the exchange of rank states to the requests a rank activates:
    statistics travel with the rank states, special items are handled, the rest
    is queued, requests are popped within the capacity and, under attention data
    parallelism, routed and merged.  The router is an interface, [ADPRouter], with
    the default and the cache-aware router as instances; [RoutesAll] is what the
    executor relies on.  The theorems are about all ranks running the step
    together. *)

From stdpp Require Import prelude gmap sorting.
From S2P Require Import Prelude PyFloat CpConfig RequestQueue WaitingQueue Admission AdpRouter IterStats KvAwareRouter Merge.
Local Open Scope Z_scope.

(** ** Routers *)

Abbreviation Probe := (list Z -> option Z -> Z).
Abbreviation Allgather := (list Z -> list (list Z)).

(** [ADPRouter]: the state of a router and its methods.  [gather_matches] may
    use the local cache, through a probe, and the collective. *)
Class ADPRouter (R : Type) := {
  needs_prefix_matches : bool;
  rank_state_of : R -> bool -> Z -> list ActiveRequest -> RankState;
  gather_matches : R -> Probe -> Allgather -> list RequestQueueItem -> result R;
  route : R -> list RankState -> list RequestQueueItem -> Z -> result (gmap Z (list RequestQueueItem) * Z * R);
}.

(** [DefaultADPRouter] has no state and no [gather_prefix_matches]. *)
Inductive DefaultADPRouter := default_adp_router.

#[export] Instance default_adp_router_ops : ADPRouter DefaultADPRouter := {
  needs_prefix_matches := false;
  rank_state_of _ := create_rank_state;
  gather_matches _ _ _ _ := Err AttributeError;
  route self states new cap := '(d, e) ← route_requests states new cap; Ok (d, e, self);
}.

(** [shuffle] orders the ranks a request is tried on; [in_transfer] are the
    requests of this rank that are still sending their cache. *)
Definition kv_adp_router_ops (shuffle : Z -> list Z -> list Z) (in_transfer : option (list ActiveRequest))
    : ADPRouter KVCacheAwareADPRouter := {|
  needs_prefix_matches := true;
  rank_state_of _ helix tp_rank active := create_rank_state_kv helix tp_rank active in_transfer;
  gather_matches self probe allgather new := gather_prefix_matches probe allgather self new;
  route self states new cap := route_requests_kv shuffle self states new cap;
|}.

(** Requests that fit and are [good] for the router's state are routed. *)
Class RoutesAll (R : Type) `{ADPRouter R} (good : R -> list RankState -> list RequestQueueItem -> Prop) :=
  routes_all rt states new cap :
    states <> [] -> ranks_in_order states -> targets_in_range (length states) new -> good rt states new ->
    (new = [] \/ zsum num_active_requests states + len new <= len states * cap) ->
    exists d expected rt', route rt states new cap = Ok (d, expected, rt') /\ routed states new cap d expected.

#[export] Instance default_router_routes_all : RoutesAll DefaultADPRouter (fun _ _ _ => True).
Proof.
  intros rt states new cap Hne Hord Hr _ Hcap. simpl.
  destruct (route_requests_routes states new cap) as (d & e & -> & Hd); [done..|]. simpl. eauto.
Qed.

Definition kv_good (self : KVCacheAwareADPRouter) (states : list RankState) (new : list RequestQueueItem) : Prop :=
  (forall t, t ∈ _pending_warmup_ranks self -> 0 <= t < len states)
  /\ Forall (fun x => 0 < token_count x < 2 ^ 53) new
  /\ keeps_fair_share (fair_share_multiplier self) (initial_share states new).

Lemma kv_router_routes_all shuffle in_transfer :
  (forall i l, shuffle i l ≡ₚ l) ->
  RoutesAll (H := kv_adp_router_ops shuffle in_transfer) KVCacheAwareADPRouter kv_good.
Proof.
  intros Hsh self states new cap Hne Hord Hr (Hw & Ht & Hm) Hcap. simpl.
  destruct (route_requests_kv_routes shuffle self states new cap) as (d & e & self' & -> & Hd); eauto.
Qed.

(** ** The executor *)

(** The other request types are mapped to neither role. *)
Inductive LlmRequestType := CONTEXT_AND_GENERATION | CONTEXT_ONLY | GENERATION_ONLY.

#[export] Instance LlmRequestType_eq_dec : EqDecision LlmRequestType.
Proof. solve_decision. Defined.

Section fetch.
Context {Q R Nested : Type} `{WaitingQueue Q} `{ADPRouter R}.

(** What the step writes besides the fields of [PyExecutor]; [appended] are the
    rows handed to [_append_iter_stats]. *)
Record Executor := {
  executor :> PyExecutor;
  adp_router : R;
  _adp_iter_stats : ADPIterStatsBuffer (Nested := Nested);
  appended : list (ADPIterStatsRecord (Nested := Nested));
  queue_latency_ms : float;
  num_fetch_requests : Z;
  num_fetch_requests_cur_rank : Z;
  expected_num_active_requests : Z;
  _adp_dummy_is_gen : bool;
}.

Implicit Type self : Executor.

Definition set_stats self buf rows : Executor :=
  {| executor := executor self; adp_router := adp_router self; _adp_iter_stats := buf;
     appended := appended self ++ rows; queue_latency_ms := queue_latency_ms self;
     num_fetch_requests := num_fetch_requests self; num_fetch_requests_cur_rank := num_fetch_requests_cur_rank self;
     expected_num_active_requests := expected_num_active_requests self; _adp_dummy_is_gen := _adp_dummy_is_gen self |}.

Definition set_popped self ex latency fetched : Executor :=
  {| executor := ex; adp_router := adp_router self; _adp_iter_stats := _adp_iter_stats self;
     appended := appended self; queue_latency_ms := latency; num_fetch_requests := fetched;
     num_fetch_requests_cur_rank := num_fetch_requests_cur_rank self;
     expected_num_active_requests := expected_num_active_requests self; _adp_dummy_is_gen := _adp_dummy_is_gen self |}.

Definition set_routed self rt expected cur_rank is_gen : Executor :=
  {| executor := executor self; adp_router := rt; _adp_iter_stats := _adp_iter_stats self;
     appended := appended self; queue_latency_ms := queue_latency_ms self;
     num_fetch_requests := num_fetch_requests self; num_fetch_requests_cur_rank := cur_rank;
     expected_num_active_requests := expected; _adp_dummy_is_gen := is_gen |}.

(** What the step meets: the collectives, the local cache, what the request
    queue brings, the clock. *)
Record Env := {
  broadcast : list RequestQueueItem -> list RequestQueueItem;
  allgather_states : Allgather;
  allgather_matches : Allgather;
  probe : Probe;
  first_wait : wait;
  later_waits : list wait;
  now : float;
}.

Implicit Type env : Env.

(** Step 1: exchange rank states, with the oldest pending statistics. *)
Definition exchange_states env self (active_requests : list ActiveRequest) : result (list RankState * Executor) :=
  payload ← (if executor_iter_perf_stats self then next_payload (_adp_iter_stats self) else Ok None);
  all_rank_states ← gather_all_rank_states (allgather_states env)
    (rank_state_of (adp_router self) (has_cp_helix self) (tp_rank self) active_requests) payload;
  if executor_iter_perf_stats self then
    let '(rows, buf) := finalize (_adp_iter_stats self) all_rank_states (rank self =? 0) in
    Ok (all_rank_states, set_stats self buf rows)
  else Ok (all_rank_states, self).

(** [_update_new_active_requests_queue_latency] *)
Definition _update_new_active_requests_queue_latency env (ex : PyExecutor) (latency_ms : float)
    (new_requests : list RequestQueueItem) : float * PyExecutor :=
  let '(latency, queue) :=
    calculate_queue_latency (float_of_Z 0) fadd fsub (executor_request_queue ex) new_requests (now env) in
  (fadd latency_ms latency, set_executor_queue ex queue).

(** [getattr(req, "llm_request_type", None)]: a queue item has no such
    attribute. *)
Definition item_llm_request_type (item : RequestQueueItem) : option LlmRequestType := None.

Definition _update_adp_dummy_role self (candidates : list (option LlmRequestType)) : bool :=
  if negb (enable_attention_dp self) || negb (has_kv_cache_transceiver self) then _adp_dummy_is_gen self
  else
    let has_ctx := bool_decide (Some CONTEXT_ONLY ∈ candidates) in
    let has_gen := bool_decide (Some GENERATION_ONLY ∈ candidates) in
    if has_ctx then false else if has_gen then true else _adp_dummy_is_gen self.

(** Step 6: route, and keep this rank's share. *)
Definition route_new_requests env self (all_rank_states : list RankState) (new_requests : list RequestQueueItem)
    : result (list RequestQueueItem * Executor) :=
  rt ← (if needs_prefix_matches
        then gather_matches (adp_router self) (probe env) (allgather_matches env) new_requests
        else Ok (adp_router self));
  '(all_ranks_new_requests, expected, rt) ← route rt all_rank_states new_requests (max_num_active_requests self);
  match all_ranks_new_requests !! tp_rank self with
  | None => Err KeyError
  | Some new_requests_cur_rank =>
      let all_new_flat := concat (map_to_list all_ranks_new_requests).*2 in
      Ok (new_requests_cur_rank,
          set_routed self rt expected (num_fetch_requests_cur_rank self + len new_requests_cur_rank)
                     (_update_adp_dummy_role self (item_llm_request_type <$> all_new_flat)))
  end.

(** Steps 6 and 7 of the executor, on the popped requests. *)
Definition route_and_merge env self (all_rank_states : list RankState) (new_requests : list RequestQueueItem)
    (waiting_queue : Q) : result (list MergedRequest * Q * Executor) :=
  let merge (new_requests : list RequestQueueItem) (self : Executor) :=
    merged ← merge_requests new_requests (cp_config self) (cp_rank self) (cp_size self)
                            (should_exclude_last_generation_logits self);
    Ok (merged, waiting_queue, self) in
  if enable_attention_dp self then
    '(new_requests, self) ← route_new_requests env self all_rank_states new_requests;
    merge new_requests self
  else merge new_requests self.

(** Steps 2 to 7, once the number of active requests is known. *)
Definition fetch_with_states env self (waiting_queue : Q) (all_rank_states : list RankState)
    (total_num_active_requests : Z) : result (list MergedRequest * Q * Executor) :=
  let '(ex, waiting_queue) :=
    _fetch_and_enqueue_requests (broadcast env) (executor self) waiting_queue total_num_active_requests
                                (first_wait env) (later_waits env) in
  '(new_requests, waiting_queue, ex) ←
    _pop_from_waiting_queue ex waiting_queue total_num_active_requests
      (if enable_attention_dp self then Some (num_active_requests <$> all_rank_states) else None);
  let '(latency, ex) :=
    if executor_iter_perf_stats self && (rank self =? 0)
    then _update_new_active_requests_queue_latency env ex (queue_latency_ms self) new_requests
    else (queue_latency_ms self, ex) in
  route_and_merge env (set_popped self ex latency (num_fetch_requests self + len new_requests))
                  all_rank_states new_requests waiting_queue.

Definition _fetch_new_requests env self (waiting_queue : Q) (active_requests : list ActiveRequest)
    : result (list MergedRequest * Q * Executor) :=
  if enable_attention_dp self then
    '(all_rank_states, self) ← exchange_states env self active_requests;
    fetch_with_states env self waiting_queue all_rank_states (zsum num_active_requests all_rank_states)
  else fetch_with_states env self waiting_queue [] (len active_requests).

(** ** Activation and padding *)

(** A merged request among the active ones. *)
Definition activated (req : MergedRequest) : ActiveRequest :=
  {| AdpRouter.total_input_len_cp := total_input_len_cp req; py_orig_prompt_len := len (mr_input_tokens req);
     cached_tokens := 0 |}.

(** [valid]: does [_validate_request] accept the request?  One that it rejects is
    answered with an error. *)
Definition _fetch_and_activate_new_requests (valid : MergedRequest -> bool) env self (waiting_queue : Q)
    (active_requests : list ActiveRequest) : result (list MergedRequest * list ActiveRequest * Q * Executor) :=
  '(new_requests_cur_rank, waiting_queue, self) ← _fetch_new_requests env self waiting_queue active_requests;
  let validated_requests := List.filter valid new_requests_cur_rank in
  Ok (validated_requests, active_requests ++ (activated <$> validated_requests), waiting_queue, self).

(** [awaiting]: is the request waiting for the transfer of its cache? *)
Definition _count_schedulable_active_requests self (awaiting : ActiveRequest -> bool)
    (active_requests : list ActiveRequest) : Z :=
  if negb (has_kv_cache_transceiver self) then len active_requests
  else len (List.filter (fun req => negb (awaiting req)) active_requests).

Definition _should_skip_dummy_for_benchmark_disagg self : bool :=
  _benchmark_fill_phase_active self && negb (is_warmup self).

(** [_pad_attention_dp_dummy_request]: is a dummy request added? *)
Definition _pad_attention_dp_dummy_request self (awaiting : ActiveRequest -> bool)
    (active_requests : list ActiveRequest) : result bool :=
  if negb (enable_attention_dp self) then Ok false
  else
    _ ← py_assert (len active_requests <=? expected_num_active_requests self);
    let num_active_request := _count_schedulable_active_requests self awaiting active_requests in
    if _should_skip_dummy_for_benchmark_disagg self then Ok false
    else Ok ((num_active_request =? 0) && (0 <? expected_num_active_requests self)).

End fetch.

(** ** Replicated decisions

    Every rank runs the same steps on its own copy of the waiting queue.  What
    the decisions depend on is the same on all ranks, and stays the same. *)

Definition shared (self : PyExecutor) : bool * Z * Z * bool * bool * bool * Z * list RequestQueueItem :=
  (enable_attention_dp self, tp_size self, max_num_active_requests self, is_benchmark_disagg self,
   _benchmark_fill_phase_active self, is_warmup self, _fill_admit_cap self, control_requests self).

Lemma shared_queue self queue : shared (set_executor_queue self queue) = shared self.
Proof. done. Qed.

(** The special items have the same effect on every rank. *)
Lemma handle_special_agree l : forall self self',
  shared self = shared self' ->
  (_handle_special_queue_items self l).1 = (_handle_special_queue_items self' l).1
  /\ shared (_handle_special_queue_items self l).2 = shared (_handle_special_queue_items self' l).2
  /\ config (_handle_special_queue_items self l).2 = config self.
Proof.
  induction l as [|x l IH]; intros self self' Hsh; cbn [_handle_special_queue_items]; [done|].
  assert (Hset : forall b b' c c' r r' a a', r = r' ->
    shared (set_special self b c r a) = shared (set_special self' b' c' r' a')).
  { intros b b' c c' r r' a a' <-. injection Hsh as H1 H2 H3 H4 H5 H6 H7 _. unfold shared. simpl. congruence. }
  assert (Hctl : control_requests self = control_requests self') by (unfold shared in Hsh; congruence).
  destruct (is_shutdown_request x); [simpl; auto|]. destruct (is_canceled_request x).
  - destruct (IH (set_special self (is_shutdown self) (canceled_req_ids self ++ [item_id x]) (control_requests self) (request_accumulated self))
      (set_special self' (is_shutdown self') (canceled_req_ids self' ++ [item_id x]) (control_requests self') (request_accumulated self')))
      as (H1 & H2 & H3); [by apply Hset|done].
  - destruct (is_control_request x); [simpl; split_and!; [done| |done]; apply Hset; by rewrite Hctl|].
    destruct (IH self self' Hsh) as (H1 & H2 & H3).
    destruct (_handle_special_queue_items self l), (_handle_special_queue_items self' l). simpl in *.
    split_and!; [by f_equal|done|done].
Qed.

Lemma gather_new_shared self idle first waits :
  shared (gather_new_requests self idle first waits).2 = shared self
  /\ config (gather_new_requests self idle first waits).2 = config self.
Proof.
  unfold gather_new_requests. destruct (rank self =? 0); [|done].
  by destruct (get_from_request_queue _ _ _ _).
Qed.

Section replicas.
Context {Q : Type} `{WaitingQueue Q}.

(** The waiting queue once [delivered] was broadcast. *)
Definition enqueued (self : PyExecutor) (q : Q) (delivered : list RequestQueueItem) : Q :=
  if bool_decide (control_requests self = [])
  then add_requests q (_handle_special_queue_items self delivered).1 else q.

Definition idle (self : PyExecutor) (q : Q) (total : Z) : bool := (total =? 0) && (queue_len q =? 0).

Lemma enqueue_agree bc self self0 (q : Q) total first waits delivered :
  shared self = shared self0 ->
  bc (gather_new_requests self (idle self q total) first waits).1 = delivered ->
  let '(self', q') := _fetch_and_enqueue_requests bc self q total first waits in
  q' = enqueued self0 q delivered /\ config self' = config self
  /\ shared self' = shared (if bool_decide (control_requests self0 = [])
                            then (_handle_special_queue_items self0 delivered).2 else self0).
Proof.
  intros Hsh Hbc. unfold _fetch_and_enqueue_requests, enqueued.
  assert (Hctl : control_requests self = control_requests self0) by (unfold shared in Hsh; congruence).
  rewrite Hctl. case_bool_decide; cbn [negb]; [|done]. unfold idle in Hbc.
  destruct (gather_new_shared self ((total =? 0) && (queue_len q =? 0)) first waits) as [Hg Hc].
  destruct (gather_new_requests _ _ _ _) as [new self1]. simpl in *. rewrite Hbc.
  destruct (handle_special_agree delivered self1 self0) as (H1 & H2 & H3); [congruence|].
  destruct (_handle_special_queue_items self1 delivered) as [acc self2]. simpl in *. split_and!; congruence.
Qed.

Lemma pop_agree self self0 (q : Q) total ranks items q' self0' :
  shared self = shared self0 ->
  _pop_from_waiting_queue self0 q total ranks = Ok (items, q', self0') ->
  exists self', _pop_from_waiting_queue self q total ranks = Ok (items, q', self')
    /\ shared self' = shared self0' /\ config self' = config self.
Proof.
  intros Hsh. unfold _pop_from_waiting_queue.
  assert (Hall : enable_attention_dp self = enable_attention_dp self0 /\ tp_size self = tp_size self0
    /\ max_num_active_requests self = max_num_active_requests self0
    /\ (is_benchmark_disagg self && _benchmark_fill_phase_active self && negb (is_warmup self))
       = (is_benchmark_disagg self0 && _benchmark_fill_phase_active self0 && negb (is_warmup self0))
    /\ _fill_admit_cap self = _fill_admit_cap self0).
  { injection Hsh as -> -> -> -> -> -> -> _. done. }
  destruct Hall as (Hadp & Htp & Hmax & Hth & Hfill).
  assert (Htm : total_max self = total_max self0) by (unfold total_max; by rewrite Hadp, Htp, Hmax).
  unfold throttle. rewrite Htm, Hth, Hfill, Htp.
  destruct (is_benchmark_disagg self0 && _benchmark_fill_phase_active self0 && negb (is_warmup self0)); simpl;
    rewrite Hadp, Hmax; intros ([its q1] & Hrun & Hret)%bind_Ok; injection Hret as -> -> <-; rewrite Hrun; simpl;
    eexists; (split; [done|]); split; try done.
  injection Hsh as H1 H2 H3 H4 H5 H6 _ H8. unfold shared. simpl. congruence.
Qed.

End replicas.

Lemma targets_range_exist tp l : targets_in_range tp l -> targets_exist tp l.
Proof.
  intros Hr x t Hx Ht%strict_target_rank. rewrite py_pos_nonneg by by apply (Hr x). by eexists.
Qed.

Lemma len_le_weight l : len l <= zsum weight l.
Proof.
  induction l as [|x l IH]; [done|]. rewrite zsum_cons. pose proof (weight_pos x). simpl length. lia.
Qed.

Lemma dget_submseteq d k tp : (k < tp)%nat -> dget d k ⊆+ all_assigned tp d.
Proof.
  intros Hk. unfold all_assigned. replace tp with (k + S (tp - S k))%nat by lia.
  rewrite seq_app, fmap_app, concat_app. simpl. by apply submseteq_inserts_l, submseteq_inserts_r.
Qed.

Section lockstep.
Context {Q R Nested : Type} `{Hlaws : WaitingQueueLaws Q higher} `{Hroute : RoutesAll R good}.
Context (envs : nat -> Env) (selfs : nat -> Executor (R := R) (Nested := Nested)).
Context (actives : nat -> list ActiveRequest) (q : Q) (states : list RankState) (rt : R).
Context (delivered : list RequestQueueItem).

Let tp := length states.
Let self0 : PyExecutor := selfs 0%nat.
Let q1 : Q := enqueued self0 q delivered.
Let total : Z := zsum num_active_requests states.

(** The state a rank contributes, with its pending statistics. *)
Definition contribution (k : nat) (payload : option RankIterStatsPayload) : RankState :=
  copy_iter_stats_from (rank_state_of rt (has_cp_helix (selfs k)) (tp_rank (selfs k)) (actives k)) payload.

(** The router, once it knows the prefix matches of the new requests. *)
Definition prepared (k : nat) (items : list RequestQueueItem) : result R :=
  if needs_prefix_matches then gather_matches rt (probe (envs k)) (allgather_matches (envs k)) items else Ok rt.

(** All ranks are about to run the step: they are replicas, and the collectives
    deliver to all of them what each contributed. *)
Record lockstep : Prop := {
  ls_adp k : (k < tp)%nat -> enable_attention_dp (selfs k) = true /\ tp_size (selfs k) = len states
    /\ tp_rank (selfs k) = Z.of_nat k /\ cp_type_entry (cp_config (selfs k)) = None
    /\ shared (selfs k) = shared self0 /\ adp_router (selfs k) = rt;
  ls_exchange k : (k < tp)%nat -> exists payload,
    (if executor_iter_perf_stats (selfs k) then next_payload (_adp_iter_stats (selfs k)) else Ok None) = Ok payload
    /\ states !! k = Some (contribution k payload)
    /\ allgather_states (envs k) (serialize (contribution k payload)) = serialize <$> states;
  ls_broadcast k : (k < tp)%nat ->
    broadcast (envs k) (gather_new_requests (selfs k) (idle (selfs k) q total) (first_wait (envs k)) (later_waits (envs k))).1
    = delivered;
  ls_matches items : items ⊆+ queue_iter q1 -> exists rt1,
    good rt1 states items /\ forall k, (k < tp)%nat -> prepared k items = Ok rt1;
  ls_queue : queue_ok q /\ states <> [] /\ ranks_in_order states
    /\ targets_in_range tp (queue_iter q1) /\ Forall (fun x => is_Some (item_request x)) (queue_iter q1);
}.

Context (Hls : lockstep).

Lemma enqueued_ok : queue_ok q1.
Proof using Hls Hlaws.
  destruct (ls_queue Hls) as (Hq & _). unfold q1, enqueued. case_bool_decide; [|done].
  rewrite add_requests_law. by apply add_all_law.
Qed.

(** What the ranks agree on. *)
Lemma lockstep_decision : exists items q' ex0 max_new d expected rt1 rt2,
  _pop_from_waiting_queue (if bool_decide (control_requests self0 = [])
      then (_handle_special_queue_items self0 delivered).2 else self0) q1 total
    (Some (num_active_requests <$> states)) = Ok (items, q', ex0)
  /\ admission max_new true (max_num_active_requests self0) (num_active_requests <$> states)
               (queue_iter q1) items (queue_iter q')
  /\ (forall k, (k < tp)%nat -> prepared k items = Ok rt1)
  /\ route rt1 states items (max_num_active_requests self0) = Ok (d, expected, rt2)
  /\ routed states items (max_num_active_requests self0) d expected
  /\ items ⊆+ queue_iter q1.
Proof using Hls Hlaws Hroute.
  destruct (ls_queue Hls) as (_ & Hne & Hord & Hrange & Hreq).
  assert (Htp : (0 < tp)%nat) by (apply Nat.neq_0_lt_0; intros Hnil; by apply nil_length_inv in Hnil).
  destruct (ls_adp Hls 0 Htp) as (Hadp & Htps & _). fold self0 in Hadp, Htps.
  set (ex := if bool_decide _ then _ else self0).
  assert (Hcfg : config ex = config self0).
  { unfold ex. case_bool_decide; [|done]. by apply (handle_special_agree delivered self0 self0). }
  destruct (pop_from_queue_admits ex q1 total (Some (num_active_requests <$> states)) (num_active_requests <$> states)
    enqueued_ok) as (items & q' & ex0 & max_new & Hpop & _ & _ & _ & Had & Htot).
  { intros _. split; [done|]. rewrite length_fmap. by apply targets_range_exist. }
  rewrite Hcfg in Had. rewrite Hadp in Had.
  pose proof Had as [(taken & pending & rest & Hsplit & _ & Hperm & _) _ _].
  assert (Hsub : items ⊆+ queue_iter q1).
  { rewrite Hsplit. etransitivity; [|apply submseteq_inserts_r; reflexivity]. rewrite Hperm. by apply submseteq_inserts_r. }
  destruct (ls_matches Hls items Hsub) as (rt1 & Hgood & Hprep).
  destruct (routes_all rt1 states items (max_num_active_requests self0)) as (d & e & rt2 & Hrun & Hd); try done.
  { intros x t Hx. apply Hrange. by eapply elem_of_submseteq. }
  { unfold total_max in Htot. rewrite Hcfg, Hadp, Htps in Htot. unfold total in Htot.
    pose proof (len_le_weight items). destruct items as [|x l]; [by left|right].
    pose proof (weight_pos x). rewrite zsum_cons in Htot. pose proof (len_le_weight l). simpl length in *. lia. }
  exists items, q', ex0, max_new, d, e, rt1, rt2. done.
Qed.

Section decided.
Context (items : list RequestQueueItem) (q' : Q) (ex0 : PyExecutor).
Context (d : gmap Z (list RequestQueueItem)) (expected : Z) (rt1 rt2 : R).
Context (Hpop : _pop_from_waiting_queue (if bool_decide (control_requests self0 = [])
      then (_handle_special_queue_items self0 delivered).2 else self0) q1 total
    (Some (num_active_requests <$> states)) = Ok (items, q', ex0)).
Context (Hrt : route rt1 states items (max_num_active_requests self0) = Ok (d, expected, rt2)).
Context (Hd : routed states items (max_num_active_requests self0) d expected) (Hsub : items ⊆+ queue_iter q1).

(** What the step of rank [k] returns and leaves behind. *)
Definition step_result (k : nat) (out : result (list MergedRequest * Q * Executor (R := R) (Nested := Nested))) : Prop :=
  exists merged self', out = Ok (merged, q', self')
    /\ mr_request_id <$> merged = concat (item_ids <$> dget d k)
    /\ expected_num_active_requests self' = expected /\ adp_router self' = rt2 /\ shared self' = shared ex0
    /\ config self' = config (selfs k).

(** Steps 6 and 7. *)
Lemma route_and_merge_rank k (self : Executor (R := R) (Nested := Nested)) :
  (k < tp)%nat -> config self = config (selfs k) -> adp_router self = rt -> shared self = shared ex0 ->
  prepared k items = Ok rt1 ->
  step_result k (route_and_merge (envs k) self states items q').
Proof using Hls Hrt Hd Hsub.
  intros Hk Hcfg Hrself Hshex Hprep. destruct (ls_adp Hls k Hk) as (Hadp & _ & Htpr & Hcp & Hsh & _).
  assert (Hmax : max_num_active_requests (selfs k) = max_num_active_requests self0) by (by injection Hsh).
  unfold route_and_merge, route_new_requests. rewrite Hcfg, Hadp, Hrself.
  unfold prepared in Hprep. rewrite Hprep. cbn [mbind result_bind]. rewrite Hmax, Hrt. cbn [mbind result_bind].
  rewrite Htpr. destruct (rt_ranks _ _ _ _ _ Hd k Hk) as [mine Hmine]. rewrite Hmine.
  cbn [mbind result_bind executor set_routed]. unfold merge_requests. rewrite Hcfg, Hcp.
  destruct (merge_plain_ids mine (should_exclude_last_generation_logits (selfs k))) as (merged & -> & Hids).
  { destruct (ls_queue Hls) as (_ & _ & _ & _ & Hreq). rewrite Forall_forall in Hreq |- *. intros x Hx.
    apply Hreq. eapply elem_of_submseteq; [|exact Hsub]. rewrite <- (rt_once _ _ _ _ _ Hd).
    eapply elem_of_submseteq; [|exact (dget_submseteq d k tp Hk)]. unfold dget. by rewrite Hmine. }
  cbn [mbind result_bind]. eexists _, _. split; [done|]. unfold dget. rewrite Hmine. simpl. done.
Qed.

(** Steps 2 to 7. *)
Lemma fetch_with_states_rank k (self : Executor (R := R) (Nested := Nested)) :
  (k < tp)%nat -> executor self = executor (selfs k) -> adp_router self = rt -> prepared k items = Ok rt1 ->
  step_result k (fetch_with_states (envs k) self q states total).
Proof using Hls Hpop Hrt Hd Hsub.
  intros Hk Hex Hrself Hprep. destruct (ls_adp Hls k Hk) as (Hadp & _ & _ & _ & Hsh & _).
  unfold fetch_with_states. rewrite Hex.
  pose proof (enqueue_agree (broadcast (envs k)) (selfs k) self0 q total (first_wait (envs k)) (later_waits (envs k))
    delivered Hsh (ls_broadcast Hls k Hk)) as Hen.
  destruct (_fetch_and_enqueue_requests _ _ _ _ _ _) as [ex q2]. destruct Hen as (-> & Hcex & Hshex).
  rewrite Hadp. destruct (pop_agree ex _ _ _ _ _ _ _ Hshex Hpop) as (ex' & Hpop' & Hshex' & Hcex').
  fold q1. rewrite Hpop'. cbn [mbind result_bind].
  set (lat := if _ && _ then _ else (_, ex')).
  assert (Hlat : shared lat.2 = shared ex0 /\ config lat.2 = config (selfs k)).
  { unfold lat, _update_new_active_requests_queue_latency. destruct (_ && _); [|simpl; split; congruence].
    destruct (calculate_queue_latency _ _ _ _ _ _). simpl. split; [|congruence]. rewrite <- Hshex'. apply shared_queue. }
  destruct lat as [latency ex2]. destruct Hlat as [Hl1 Hl2].
  by apply route_and_merge_rank.
Qed.

Lemma lockstep_rank k :
  (k < tp)%nat -> prepared k items = Ok rt1 ->
  step_result k (_fetch_new_requests (envs k) (selfs k) q (actives k)).
Proof using Hls Hpop Hrt Hd Hsub.
  intros Hk Hprep. destruct (ls_adp Hls k Hk) as (Hadp & _ & _ & _ & _ & Hrt0).
  destruct (ls_exchange Hls k Hk) as (payload & Hpay & _ & Hag).
  unfold _fetch_new_requests. rewrite Hadp. unfold exchange_states. rewrite Hpay. cbn [mbind result_bind].
  unfold gather_all_rank_states. rewrite Hrt0. fold (contribution k payload).
  rewrite Hag, mapM_result_roundtrip. cbn [mbind result_bind].
  destruct (executor_iter_perf_stats (selfs k)); [destruct (finalize _ _ _) as [rows buf]|];
    by apply fetch_with_states_rank.
Qed.

End decided.

End lockstep.

(** C1. One fetch under attention data parallelism, run by all ranks in lockstep:
    it succeeds on every rank, all ranks take the same requests from the waiting
    queue and compute the same assignment, every rank returns exactly the
    requests assigned to it with their children, no rank is filled beyond the
    common target, strict requests are on the rank they insist on, what was not
    admitted keeps its place, and the ranks are replicas again afterwards. *)
Theorem fetch_distributes {Q R Nested} `{Hlaws : WaitingQueueLaws Q higher} `{Hroute : RoutesAll R good}
    envs (selfs : nat -> Executor (R := R) (Nested := Nested)) actives (q : Q) states rt delivered :
  lockstep (good := good) envs selfs actives q states rt delivered ->
  let cap := max_num_active_requests (selfs 0%nat) in
  let before := queue_iter (enqueued (selfs 0%nat) q delivered) in
  exists items d expected rt' q' max_new common,
    admission max_new true cap (num_active_requests <$> states) before items (queue_iter q')
    /\ all_assigned (length states) d ≡ₚ items
    /\ expected <= cap
    /\ (forall k s, states !! k = Some s ->
          num_active_requests s + len (dget d k) <= Z.max (num_active_requests s) expected)
    /\ (forall x t, x ∈ items -> strict_target x = Some t -> x ∈ dget d (Z.to_nat t))
    /\ forall k, (k < length states)%nat -> exists merged self',
         _fetch_new_requests (envs k) (selfs k) q (actives k) = Ok (merged, q', self')
         /\ mr_request_id <$> merged = concat (item_ids <$> dget d k)
         /\ expected_num_active_requests self' = expected /\ adp_router self' = rt' /\ shared self' = common.
Proof.
  intros Hls cap before.
  destruct (lockstep_decision envs selfs actives q states rt delivered Hls)
    as (items & q' & ex0 & max_new & d & e & rt1 & rt2 & Hpop & Had & Hprep & Hrt & Hd & Hsub).
  exists items, d, e, rt2, q', max_new, (shared ex0).
  split; [exact Had|]. split; [apply (rt_once _ _ _ _ _ Hd)|]. split; [apply (rt_expected _ _ _ _ _ Hd)|].
  split; [apply (rt_cap _ _ _ _ _ Hd)|]. split.
  - intros x t Hx Ht. apply (rt_strict _ _ _ _ _ Hd); [|done|done]. intros k s Hs.
    pose proof (ad_ranks _ _ _ _ _ _ _ Had k (num_active_requests s) eq_refl) as Hrk.
    rewrite length_fmap in Hrk. apply Hrk. by rewrite list_lookup_fmap, Hs.
  - intros k Hk. destruct (lockstep_rank envs selfs actives q states rt delivered Hls items q' ex0 d e rt1 rt2
      Hpop Hrt Hd Hsub k Hk (Hprep k Hk)) as (merged & self' & Hrun & Hids & He & Hr & Hsh & _).
    exists merged, self'. done.
Qed.

(** *** Two ranks in lockstep *)

Definition wit_full_executor (r : Z) : Executor (R := DefaultADPRouter) (Nested := unit) :=
  {| executor := wit_executor r; adp_router := default_adp_router; _adp_iter_stats := ADPIterStatsBuffer_init;
     appended := []; queue_latency_ms := float_of_Z 0; num_fetch_requests := 0; num_fetch_requests_cur_rank := 0;
     expected_num_active_requests := 0; _adp_dummy_is_gen := true |}.

Definition wit_selfs (k : nat) := wit_full_executor (Z.of_nat k).

Definition wit_active (n : Z) : ActiveRequest :=
  {| AdpRouter.total_input_len_cp := n; py_orig_prompt_len := n; cached_tokens := 0 |}.

Definition wit_actives (k : nat) : list ActiveRequest := if Nat.eqb k 0 then [wit_active 5; wit_active 7] else [wit_active 4].

Definition wit_delivered : list RequestQueueItem := [plain_item 30 3; marker 5 true].

Definition wit_fcfs : FCFSWaitingQueue :=
  {| deque := [strict_item 10 1 []; strict_item 11 0 []; plain_item 12 9; strict_item 13 0 []; strict_item 14 0 []] |}.

Definition wit_rank_states : list RankState :=
  (fun k => create_rank_state false (Z.of_nat k) (wit_actives k)) <$> [0; 1]%nat.

Definition wit_env (k : nat) : Env :=
  {| broadcast := if Nat.eqb k 0 then id else fun _ => wit_delivered;
     allgather_states := fun _ => serialize <$> wit_rank_states; allgather_matches := fun _ => [];
     probe := fun _ _ => 0; first_wait := {| arrived := []; expired := true |};
     later_waits := {| arrived := wit_delivered; expired := false |}
                    :: replicate 2 {| arrived := []; expired := false |};
     now := float_of_Z 10 |}.

Lemma wit_lockstep :
  lockstep (good := fun _ _ _ => True) wit_env wit_selfs wit_actives wit_fcfs wit_rank_states default_adp_router wit_delivered.
Proof.
  split.
  - intros [|[|k]] Hk; [done|done|]. simpl in Hk. lia.
  - intros [|[|k]] Hk; [exists None; done|exists None; done|]. simpl in Hk. lia.
  - intros [|[|k]] Hk; [vm_compute; reflexivity|done|]. simpl in Hk. lia.
  - intros items _. exists default_adp_router. split; [done|]. done.
  - split_and!; [done|done| | |].
    + intros [|[|k]] s; simpl; intros [= <-]; done.
    + intros x t Hx. repeat (apply elem_of_cons in Hx as [->|Hx]; [vm_compute; intros [= <-] || intros [=]; done|]).
      by apply elem_of_nil in Hx.
    + repeat (constructor; [by eexists|]). constructor.
Qed.

Lemma fetch_distributes_witness :
  exists d q' expected, forall k, (k < 2)%nat -> exists merged self',
    _fetch_new_requests (wit_env k) (wit_selfs k) wit_fcfs (wit_actives k) = Ok (merged, q', self')
    /\ mr_request_id <$> merged = concat (item_ids <$> dget d k)
    /\ expected_num_active_requests self' = expected.
Proof.
  destruct (fetch_distributes (Hlaws := fcfs_laws) (Hroute := default_router_routes_all) wit_env wit_selfs wit_actives
    wit_fcfs wit_rank_states default_adp_router wit_delivered wit_lockstep)
    as (items & d & e & rt' & q' & m & c & _ & _ & _ & _ & _ & Hk).
  exists d, q', e. intros k Hlt. destruct (Hk k Hlt) as (merged & self' & Hrun & Hids & He & _).
  exists merged, self'. split; [exact Hrun|]. split; [exact Hids|exact He].
Defined.

Example wit_fetch_eval :
  match _fetch_new_requests (wit_env 0) (wit_selfs 0) wit_fcfs (wit_actives 0),
        _fetch_new_requests (wit_env 1) (wit_selfs 1) wit_fcfs (wit_actives 1) with
  | Ok (l0, q0, s0), Ok (l1, q1, s1) =>
      mr_request_id <$> l0 = [11; 13] /\ mr_request_id <$> l1 = [10; 12; 30]
      /\ item_id <$> queue_iter q0 = [14] /\ q0 = q1 /\ canceled_req_ids s0 = [5] /\ shared s0 = shared s1
  | _, _ => False
  end.
Proof. vm_compute. done. Qed.

(** ** The padding assertion *)

Lemma childless_ids l : Forall (fun x => default [] (child_req_ids x) = []) l -> length (concat (item_ids <$> l)) = length l.
Proof.
  induction 1 as [|x l Hx _ IH]; [done|]. rewrite fmap_cons. cbn [concat]. rewrite length_app, IH.
  unfold item_ids. by rewrite Hx.
Qed.

(** After a fetch in lockstep the padding of idle ranks does not trip over
    its own assertion, that a rank has no more active requests than the ranks
    agreed to expect, provided no waiting request has children and no rank was
    over its capacity before. *)
Theorem padding_assertion_holds {Q R Nested} `{Hlaws : WaitingQueueLaws Q higher} `{Hroute : RoutesAll R good}
    envs (selfs : nat -> Executor (R := R) (Nested := Nested)) actives (q : Q) states rt delivered valid awaiting k s :
  lockstep (good := good) envs selfs actives q states rt delivered ->
  Forall (fun x => default [] (child_req_ids x) = []) (queue_iter (enqueued (selfs 0%nat) q delivered)) ->
  states !! k = Some s -> len (actives k) <= num_active_requests s <= max_num_active_requests (selfs 0%nat) ->
  exists validated active q' self' padded,
    _fetch_and_activate_new_requests valid (envs k) (selfs k) q (actives k) = Ok (validated, active, q', self')
    /\ _pad_attention_dp_dummy_request self' awaiting active = Ok padded.
Proof.
  intros Hls Hnc Hs Hact. assert (Hk : (k < length states)%nat) by by eapply lookup_lt_Some.
  destruct (lockstep_decision envs selfs actives q states rt delivered Hls)
    as (items & q' & ex0 & max_new & d & e & rt1 & rt2 & Hpop & Had & Hprep & Hrt & Hd & Hsub).
  destruct (lockstep_rank envs selfs actives q states rt delivered Hls items q' ex0 d e rt1 rt2
    Hpop Hrt Hd Hsub k Hk (Hprep k Hk)) as (merged & self' & Hrun & Hids & He & _ & _ & Hcfg).
  unfold _fetch_and_activate_new_requests. rewrite Hrun. cbn [mbind result_bind].
  assert (Hlen : length merged = length (dget d k)).
  { rewrite <- (length_fmap mr_request_id), Hids. apply childless_ids. rewrite Forall_forall in Hnc |- *.
    intros x Hx. apply Hnc. eapply elem_of_submseteq; [|exact Hsub]. rewrite <- (rt_once _ _ _ _ _ Hd).
    eapply elem_of_submseteq; [exact Hx|by apply dget_submseteq]. }
  pose proof (rt_cap _ _ _ _ _ Hd k s Hs). pose proof (rt_floor _ _ _ _ _ Hd k s Hs).
  pose proof (List.filter_length_le valid merged) as Hfl.
  assert (exists padded, _pad_attention_dp_dummy_request self' awaiting
    (actives k ++ (activated <$> List.filter valid merged)) = Ok padded) as [padded Hpad].
  { unfold _pad_attention_dp_dummy_request. rewrite Hcfg, (proj1 (ls_adp _ _ _ _ _ _ _ Hls k Hk)), He. cbn [negb].
    rewrite length_app, length_fmap. unfold py_assert. rewrite (proj2 (Z.leb_le _ _)) by lia. cbn [mbind result_bind].
    destruct (_should_skip_dummy_for_benchmark_disagg self'); eauto. }
  eauto 9.
Qed.

Lemma padding_assertion_holds_witness :
  exists validated active q' self' padded,
    _fetch_and_activate_new_requests (fun _ => true) (wit_env 1) (wit_selfs 1) wit_fcfs (wit_actives 1)
      = Ok (validated, active, q', self')
    /\ _pad_attention_dp_dummy_request self' (fun _ => false) active = Ok padded.
Proof.
  apply (padding_assertion_holds (Hlaws := fcfs_laws) (Hroute := default_router_routes_all) wit_env wit_selfs wit_actives
    wit_fcfs wit_rank_states default_adp_router wit_delivered (fun _ => true) (fun _ => false) 1
    (create_rank_state false 1 [wit_active 4]) wit_lockstep).
  - repeat (constructor; [reflexivity|]). constructor.
  - reflexivity.
  - simpl. lia.
Defined.

(** Rank 1 of two idle ranks, with a request for three samples waiting. *)
Definition wit_three_samples : RequestQueueItem :=
  {| item_id := 20; item_request := Some (wit_request (Some 3) None); child_req_ids := Some [21; 22];
     is_canceled_request := false; item_query := None |}.

Definition wit_idle_env (k : nat) : Env :=
  {| broadcast := id; allgather_states := fun _ => serialize <$> wit_locals; allgather_matches := fun _ => [];
     probe := fun _ _ => 0; first_wait := {| arrived := []; expired := true |}; later_waits := [];
     now := float_of_Z 10 |}.

(** Children break the padding: two idle ranks with room for four requests
    each get one request for three samples.  The routing counts it as one, so the
    ranks agree to expect one active request, but its rank activates three, and
    the assertion fails. *)
Theorem children_break_padding :
  exists (self : Executor (R := DefaultADPRouter) (Nested := unit)) validated active q' self' k,
    max_num_active_requests self = 4 /\ tp_size self = 2 /\ (k < 2)%nat
    /\ _fetch_and_activate_new_requests (fun _ => true) (wit_idle_env k) self
         {| deque := [wit_three_samples] |} [] = Ok (validated, active, q', self')
    /\ expected_num_active_requests self' = 1 /\ length active = 3%nat
    /\ _pad_attention_dp_dummy_request self' (fun _ => false) active = Err AssertionError.
Proof.
  exists (wit_selfs 0). eexists _, _, _, _, 0%nat. split_and!; [done|done|lia|vm_compute; reflexivity|done|done|done].
Qed.

(** A fetch never changes the role of the dummy request: the step looks for
    the request type on queue items, which do not carry it, whatever requests the
    ranks were given. *)
Theorem dummy_role_never_updated {Q R Nested} `{WaitingQueue Q} `{ADPRouter R}
    env (self : Executor (R := R) (Nested := Nested)) (q : Q) active merged q' self' :
  _fetch_new_requests env self q active = Ok (merged, q', self') -> _adp_dummy_is_gen self' = _adp_dummy_is_gen self.
Proof.
  assert (Hrole : forall self new, _update_adp_dummy_role (R := R) (Nested := Nested) self (item_llm_request_type <$> new)
    = _adp_dummy_is_gen self).
  { intros s new. unfold _update_adp_dummy_role. destruct (_ || _); [done|].
    assert (Hno : forall t, Some t ∉ (item_llm_request_type <$> new)).
    { intros t (x & Hx & _)%list_elem_of_fmap. done. }
    by rewrite !bool_decide_false by apply Hno. }
  assert (Hmerge : forall env self states new q0 merged q' self',
    route_and_merge (R := R) (Nested := Nested) env self states new (q0 : Q) = Ok (merged, q', self') ->
    _adp_dummy_is_gen self' = _adp_dummy_is_gen self).
  { intros e s states new q0 m q2 s'. unfold route_and_merge. destruct (enable_attention_dp s).
    - intros ([cur s1] & Hr & Hm)%bind_Ok. apply bind_Ok in Hm as (m' & _ & Hm). injection Hm as _ _ <-.
      unfold route_new_requests in Hr. apply bind_Ok in Hr as (rt & _ & Hr). apply bind_Ok in Hr as ([[d ex] rt'] & _ & Hr).
      destruct (d !! tp_rank s); [|done]. injection Hr as _ <-. simpl. apply Hrole.
    - intros (m' & _ & Hm)%bind_Ok. by injection Hm as _ _ <-. }
  assert (Hfetch : forall self states total, 
    fetch_with_states (R := R) (Nested := Nested) env self q states total = Ok (merged, q', self') ->
    _adp_dummy_is_gen self' = _adp_dummy_is_gen self).
  { intros s states total. unfold fetch_with_states. destruct (_fetch_and_enqueue_requests _ _ _ _ _ _).
    intros ([[new q2] ex] & _ & Hr)%bind_Ok. destruct (if _ && _ then _ else _) as [lat ex2]. by apply Hmerge in Hr. }
  unfold _fetch_new_requests. destruct (enable_attention_dp self); [|apply Hfetch].
  intros ([states s1] & Hx & Hr)%bind_Ok. apply Hfetch in Hr. rewrite Hr. unfold exchange_states in Hx.
  apply bind_Ok in Hx as (pl & _ & Hx). apply bind_Ok in Hx as (st & _ & Hx).
  destruct (executor_iter_perf_stats self); [destruct (finalize _ _ _)|]; by injection Hx as _ <-.
Qed.

Lemma dummy_role_never_updated_witness :
  match _fetch_new_requests (wit_env 0) (wit_selfs 0) wit_fcfs (wit_actives 0) with
  | Ok (_, _, self') => _adp_dummy_is_gen self' = true
  | Err _ => False
  end.
Proof.
  destruct (_fetch_new_requests (wit_env 0) (wit_selfs 0) wit_fcfs (wit_actives 0)) as [[[merged q'] self']|e] eqn:E.
  - exact (dummy_role_never_updated (wit_env 0) (wit_selfs 0) wit_fcfs (wit_actives 0) merged q' self' E).
  - vm_compute in E. discriminate E.
Defined.
