(* ===== verification/Mapping.v ===== *)
(** * Parallelism layout

    [mapping.py]: the validation and defaulting of the parallelism sizes
    ([MappingBase.__init__]), the ranks and communication groups of the MPI
    topology, the placement of layers and experts, and the dictionary form.
    Ranks are laid out with context parallelism innermost, then tensor
    parallelism, then pipeline stages. *)

From stdpp Require Import prelude gmap sorting strings.
From S2P Require Import Prelude CpConfig.
Local Open Scope Z_scope.

(** ** Configuration *)

(** The arguments of the constructor, with [-1] for sizes to be derived. *)
Record MappingArgs := {
  a_world_size : Z;
  a_rank : Z;
  a_gpus_per_node : Z;
  a_cp_size : Z;
  a_cp_config : option CpConfig;
  a_tp_size : Z;
  a_pp_size : Z;
  a_pp_partition : option (list Z);
  a_moe_cluster_size : Z;
  a_moe_tp_size : Z;
  a_moe_ep_size : Z;
  a_attn_tp_size : Z;
  a_attn_cp_size : Z;
  a_enable_attention_dp : bool;
  a_enable_lm_head_tp_in_adp : bool;
  a_dwdp_size : Z;
  a_dwdp_rank : Z;
}.

Record Mapping := {
  world_size : Z;
  rank : Z;
  gpus_per_node : Z;
  cp_size : Z;
  cp_config : CpConfig;
  tp_size : Z;
  pp_size : Z;
  pp_partition : option (list Z);
  moe_cluster_size : Z;
  moe_tp_size : Z;
  moe_ep_size : Z;
  moe_tp_cluster_ep_size : Z;
  attn_tp_size : Z;
  attn_cp_size : Z;
  enable_attention_dp : bool;
  enable_lm_head_tp_in_adp : bool;
  dwdp_size : Z;
  dwdp_rank : Z;
}.

#[export] Instance Mapping_eq_dec : EqDecision Mapping.
Proof. solve_decision. Defined.

Definition raise_if (b : bool) (e : exn) : result unit := if b then Err e else Ok tt.

(** The type of context parallelism, and the dictionary with the string
    replaced by the member. *)
Definition resolve_cp_config (cfg : option CpConfig) : result (CpType * CpConfig) :=
  match cfg with
  | None => Ok (ULYSSES, empty_cp_config)
  | Some c =>
      match cp_type_entry c with
      | None => Ok (ULYSSES, c)
      | Some (CpMember t) => Ok (t, c)
      | Some (CpName s) =>
          match cp_type_of_name (upper s) with
          | None => Err ValueError
          | Some t => Ok (t, {| cp_type_entry := Some (CpMember t); cp_other := cp_other c |})
          end
      end
  end.

(** The MoE sizes: tensor, expert and cluster. *)
Definition resolve_moe (dwdp moe_world moe_tp moe_ep moe_cluster : Z) : result (Z * Z * Z) :=
  if 1 <? dwdp then Ok (1, 1, 1)
  else if (moe_tp =? -1) && (moe_ep =? -1) then
    t ← pydiv moe_world moe_cluster; Ok (t, 1, moe_cluster)
  else if moe_tp =? -1 then
    t ← pydiv moe_world (moe_ep * moe_cluster); Ok (t, moe_ep, moe_cluster)
  else if moe_ep =? -1 then
    e ← pydiv moe_world (moe_tp * moe_cluster); Ok (moe_tp, e, moe_cluster)
  else Ok (moe_tp, moe_ep, moe_cluster).

(** The attention sizes: tensor and context. *)
Definition resolve_attn (t : CpType) (tp cp attn_tp attn_cp : Z) : result (Z * Z) :=
  if (attn_tp =? -1) && (attn_cp =? -1) then
    if bool_decide (t = ULYSSES) then Ok (tp * cp, 1) else Ok (tp, cp)
  else if attn_tp =? -1 then a ← pydiv (tp * cp) attn_cp; Ok (a, attn_cp)
  else if attn_cp =? -1 then c ← pydiv (tp * cp) attn_tp; Ok (attn_tp, c)
  else Ok (attn_tp, attn_cp).

(** The rank setter. *)
Definition check_rank (attention_dp : bool) (world r : Z) : result unit :=
  raise_if (negb attention_dp && ((r <? 0) || (world <=? r))) ValueError.

Definition Mapping_init (a : MappingArgs) : result Mapping :=
  let dwdp := a_dwdp_size a in
  _ ← raise_if ((dwdp <? 0) || (dwdp =? 1)) ValueError;
  _ ← raise_if ((1 <? dwdp) && ((a_dwdp_rank a <? 0) || (dwdp <=? a_dwdp_rank a))) ValueError;
  let moe_cluster := if a_moe_cluster_size a =? -1 then 1 else a_moe_cluster_size a in
  '(cp_type, cfg) ← resolve_cp_config (a_cp_config a);
  let tp := a_tp_size a in
  let cp := a_cp_size a in
  let moe_world := if bool_decide (cp_type = ULYSSES) then tp else tp * cp in
  '(moe_tp, moe_ep, moe_cluster) ← resolve_moe dwdp moe_world (a_moe_tp_size a) (a_moe_ep_size a) moe_cluster;
  '(attn_tp, attn_cp) ← resolve_attn cp_type tp cp (a_attn_tp_size a) (a_attn_cp_size a);
  _ ← raise_if (negb (attn_cp =? 1) && bool_decide (cp_type = ULYSSES)) ValueError;
  _ ← raise_if (negb (tp * a_pp_size a * cp =? a_world_size a)) ValueError;
  let moe_all := if 1 <? dwdp then moe_cluster else moe_tp * moe_ep * moe_cluster in
  _ ← raise_if (negb (1 <? dwdp) && negb (moe_all =? moe_world)) ValueError;
  _ ← raise_if (negb (attn_tp * attn_cp =? tp * cp)) ValueError;
  _ ← raise_if (negb (moe_ep =? 1) && (1 <? cp) && negb (bool_decide (cp_type = HELIX))) NotImplementedError;
  _ ← (if 1 <? moe_cluster then py_assert (moe_ep =? 1) else Ok tt);
  _ ← (if a_enable_lm_head_tp_in_adp a then py_assert (a_enable_attention_dp a) else Ok tt);
  _ ← check_rank (a_enable_attention_dp a) (a_world_size a) (a_rank a);
  Ok {| world_size := a_world_size a; rank := a_rank a; gpus_per_node := a_gpus_per_node a;
        cp_size := cp; cp_config := cfg; tp_size := tp; pp_size := a_pp_size a;
        pp_partition := a_pp_partition a; moe_cluster_size := moe_cluster; moe_tp_size := moe_tp;
        moe_ep_size := moe_ep; moe_tp_cluster_ep_size := moe_all; attn_tp_size := attn_tp;
        attn_cp_size := attn_cp; enable_attention_dp := a_enable_attention_dp a;
        enable_lm_head_tp_in_adp := a_enable_lm_head_tp_in_adp a; dwdp_size := dwdp;
        dwdp_rank := a_dwdp_rank a |}.

(** ** Ranks and simple queries *)

Implicit Type self : Mapping.

Definition tp_rank self : Z := rank self mod (tp_size self * cp_size self) / cp_size self.
Definition pp_rank self : Z := rank self / (tp_size self * cp_size self).
Definition cp_rank self : Z := rank self mod cp_size self.

Definition moe_tp_rank self : Z := tp_rank self / (moe_ep_size self * moe_cluster_size self).
Definition moe_cluster_rank self : Z := tp_rank self mod moe_cluster_size self.
Definition moe_ep_rank self : Z := if 1 <? dwdp_size self then 0 else tp_rank self mod moe_ep_size self.
Definition dwdp_enabled self : bool := 1 <? dwdp_size self.

Definition node_rank self : Z := rank self / gpus_per_node self.
Definition local_rank self : Z := rank self mod gpus_per_node self.
Definition get_node_rank self (r : Z) : Z := r / gpus_per_node self.
Definition get_local_rank self (r : Z) : Z := r mod gpus_per_node self.
Definition is_multi_node self : bool := gpus_per_node self <? world_size self.
Definition dp_size self : Z := if enable_attention_dp self then tp_size self else 1.

Definition cp_type_is self (t : CpType) : bool :=
  bool_decide (cp_type_entry (cp_config self) = Some (CpMember t)).
Definition has_cp_ulysses self : bool := (1 <? cp_size self) && cp_type_is self ULYSSES.
Definition has_cp_helix self : bool := (1 <? cp_size self) && cp_type_is self HELIX.
Definition has_tp self : bool := 1 <? tp_size self.
Definition has_pp self : bool := 1 <? pp_size self.
Definition has_cp self : bool := 1 <? cp_size self.
Definition has_moe_cluster self : bool := 1 <? moe_cluster_size self.
Definition has_moe_tp self : bool := 1 <? moe_tp_size self.
Definition has_moe_ep self : bool := 1 <? moe_ep_size self.

Definition is_first_pp_rank self : bool := pp_rank self =? 0.
Definition is_last_pp_rank self : bool := pp_rank self =? pp_size self - 1.
Definition is_second_last_pp_rank self : bool := pp_rank self =? pp_size self - 2.
Definition is_first_cp_rank self : bool := cp_rank self =? 0.
Definition is_last_cp_rank self : bool := cp_rank self =? cp_size self - 1.

Definition prev_pp_rank self : Z :=
  let p := rank self - tp_size self * cp_size self in
  if p <? 0 then p + world_size self else p.

Definition next_pp_rank self : Z :=
  let p := rank self + tp_size self * cp_size self in
  if world_size self <=? p then p - world_size self else p.

Definition prev_cp_rank self : Z :=
  if cp_rank self =? 0 then rank self + cp_size self - 1 else rank self - 1.

Definition next_cp_rank self : Z :=
  if cp_rank self =? cp_size self - 1 then rank self - cp_size self + 1 else rank self + 1.

(** ** Communication groups *)

(** [list(range(a, b, s))] for a positive step *)
Definition py_range (a b s : Z) : list Z :=
  (fun i => a + Z.of_nat i * s) <$> seq 0 (Z.to_nat ((b - a + s - 1) / s)).

(** [for i in range(n)] *)
Definition py_count (n : Z) : list Z := Z.of_nat <$> seq 0 (Z.to_nat n).

Definition pp_groups self : list (list Z) :=
  (fun i => py_range i (world_size self) (tp_size self * cp_size self)) <$> py_count (tp_size self * cp_size self).

Definition cp_groups self : list (list Z) :=
  i ← py_count (pp_size self);
  (fun j => py_range (i * tp_size self * cp_size self + j * cp_size self)
                     (i * tp_size self * cp_size self + (j + 1) * cp_size self) 1) <$> py_count (tp_size self).

Definition tp_groups self : list (list Z) :=
  i ← py_count (pp_size self);
  (fun j => py_range (i * tp_size self * cp_size self + j)
                     ((i + 1) * tp_size self * cp_size self + j) (cp_size self)) <$> py_count (cp_size self).

Definition moe_tp_groups self : list (list Z) :=
  i ← py_count (pp_size self);
  (fun j => py_range (i * moe_tp_cluster_ep_size self + j) ((i + 1) * moe_tp_cluster_ep_size self)
                     (moe_cluster_size self * moe_ep_size self))
    <$> py_count (moe_cluster_size self * moe_ep_size self).

Definition moe_cluster_groups self : list (list Z) :=
  i ← py_count (pp_size self);
  (fun j => py_range (i * moe_tp_cluster_ep_size self + j * moe_cluster_size self * moe_ep_size self)
                     (i * moe_tp_cluster_ep_size self + (j + 1) * moe_cluster_size self * moe_ep_size self) 1)
    <$> py_count (moe_tp_size self).

Definition moe_ep_groups self : list (list Z) :=
  i ← py_count (pp_size self);
  j ← py_count (moe_tp_size self);
  (fun k => py_range (i * moe_tp_cluster_ep_size self + j * moe_cluster_size self * moe_ep_size self
                        + k * moe_ep_size self)
                     (i * moe_tp_cluster_ep_size self + j * moe_cluster_size self * moe_ep_size self
                        + (k + 1) * moe_ep_size self) 1)
    <$> py_count (moe_cluster_size self).

Definition tp_group self : result (list Z) := py_get (tp_groups self) (pp_rank self * cp_size self + cp_rank self).
Definition pp_group self : result (list Z) := py_get (pp_groups self) (tp_rank self * cp_size self + cp_rank self).
Definition cp_group self : result (list Z) := py_get (cp_groups self) (pp_rank self * tp_size self + tp_rank self).

Definition moe_tp_group self : result (list Z) :=
  py_get (moe_tp_groups self)
    (pp_rank self * moe_cluster_size self * moe_ep_size self
     + moe_cluster_rank self * moe_ep_size self + moe_ep_rank self).

Definition moe_ep_group self : result (list Z) :=
  py_get (moe_ep_groups self)
    (pp_rank self * moe_tp_size self * moe_cluster_size self
     + moe_tp_rank self * moe_cluster_size self + moe_cluster_rank self).

Definition moe_cluster_group self : result (list Z) :=
  py_get (moe_cluster_groups self) (pp_rank self * moe_tp_size self + moe_tp_rank self).

(** ** Layers and experts *)

(** [torch.arange(n).split(sizes)[k]] *)
Definition split_at (sizes : list Z) (k : Z) : result (list Z) :=
  if existsb (fun s => s <? 0) sizes then Err RuntimeError
  else
    match py_pos (length sizes) k with
    | None => Err IndexError
    | Some i =>
        let start := zsum id (take i sizes) in
        Ok (py_range start (start + default 0 (sizes !! i)) 1)
    end.

(** [torch.tensor_split(torch.arange(n), parts)[k]]: the first [n mod parts] parts
    get one element more. *)
Definition tensor_split (n parts k : Z) : result (list Z) :=
  if parts <=? 0 then Err RuntimeError
  else
    match py_pos (Z.to_nat parts) k with
    | None => Err IndexError
    | Some i =>
        let k := Z.of_nat i in
        let base := n / parts in
        let rem := n mod parts in
        let start := k * base + Z.min k rem in
        Ok (py_range start (start + base + (if k <? rem then 1 else 0)) 1)
    end.

Definition check_partition self (l : list Z) (num_layers : Z) : result unit :=
  _ ← raise_if (negb (len l =? pp_size self)) ValueError;
  raise_if (negb (zsum id l =? num_layers)) ValueError.

Definition pp_layers self (num_layers : Z) : result (list Z) :=
  match pp_partition self with
  | Some l => _ ← check_partition self l num_layers; split_at l (pp_rank self)
  | None => tensor_split num_layers (pp_size self) (pp_rank self)
  end.

(** The loop over the partition: the first stage whose end lies behind the
    layer. *)
Fixpoint find_stage (layer_idx r end_ : Z) (l : list Z) : result Z :=
  match l with
  | [] => Err RuntimeError
  | n :: l' => let end_ := end_ + n in
      if layer_idx <? end_ then Ok r else find_stage layer_idx (r + 1) end_ l'
  end.

Definition pp_rank_of_layer self (layer_idx num_layers : Z) : result Z :=
  if (layer_idx <? 0) || (num_layers <=? layer_idx) then Err ValueError
  else if negb (has_pp self) then Ok 0
  else match pp_partition self with
  | Some l => _ ← check_partition self l num_layers; find_stage layer_idx 0 0 l
  | None =>
      let base := num_layers / pp_size self in
      let rem := num_layers mod pp_size self in
      if base =? 0 then Ok layer_idx
      else
        let cutoff := (base + 1) * rem in
        if layer_idx <? cutoff then Ok (layer_idx / (base + 1))
        else Ok (rem + (layer_idx - cutoff) / base)
  end.

Definition ep_experts self (num_experts : Z) : result (list Z) :=
  _ ← py_assert (cp_size self =? 1);
  experts_per_rank ← pydiv num_experts (moe_ep_size self);
  Ok (py_range (moe_ep_rank self * experts_per_rank) ((moe_ep_rank self + 1) * experts_per_rank) 1).

(** ** Dictionary form *)

(** [to_dict], as the keyword arguments it stands for. *)
Definition to_dict self : MappingArgs :=
  {| a_world_size := world_size self; a_rank := rank self; a_gpus_per_node := gpus_per_node self;
     a_cp_size := cp_size self; a_cp_config := Some (cp_config self); a_tp_size := tp_size self;
     a_pp_size := pp_size self; a_pp_partition := None; a_moe_cluster_size := moe_cluster_size self;
     a_moe_tp_size := moe_tp_size self; a_moe_ep_size := moe_ep_size self;
     a_attn_tp_size := attn_tp_size self; a_attn_cp_size := attn_cp_size self;
     a_enable_attention_dp := enable_attention_dp self;
     a_enable_lm_head_tp_in_adp := enable_lm_head_tp_in_adp self;
     a_dwdp_size := dwdp_size self; a_dwdp_rank := dwdp_rank self |}.

Definition from_dict (d : MappingArgs) : result Mapping := Mapping_init d.

Definition repurpose_helix_cp_to_tp self : result Mapping :=
  _ ← py_assert (has_cp_helix self);
  Mapping_init
    {| a_world_size := world_size self; a_rank := rank self; a_gpus_per_node := gpus_per_node self;
       a_cp_size := 1; a_cp_config := Some empty_cp_config; a_tp_size := tp_size self * cp_size self;
       a_pp_size := pp_size self; a_pp_partition := pp_partition self;
       a_moe_cluster_size := moe_cluster_size self; a_moe_tp_size := moe_tp_size self;
       a_moe_ep_size := moe_ep_size self; a_attn_tp_size := -1; a_attn_cp_size := -1;
       a_enable_attention_dp := enable_attention_dp self;
       a_enable_lm_head_tp_in_adp := enable_lm_head_tp_in_adp self;
       a_dwdp_size := dwdp_size self; a_dwdp_rank := dwdp_rank self |}.

(** [__eq__] compares everything but the two attention data parallelism flags
    and the derived size. *)
Definition mapping_eqb self (other : Mapping) : bool :=
  (world_size self =? world_size other) && (rank self =? rank other)
  && (gpus_per_node self =? gpus_per_node other) && (cp_size self =? cp_size other)
  && (tp_size self =? tp_size other) && (moe_cluster_size self =? moe_cluster_size other)
  && (pp_size self =? pp_size other) && bool_decide (pp_partition self = pp_partition other)
  && (moe_tp_size self =? moe_tp_size other) && (moe_ep_size self =? moe_ep_size other)
  && (attn_tp_size self =? attn_tp_size other) && (attn_cp_size self =? attn_cp_size other)
  && bool_decide (cp_config self = cp_config other)
  && (dwdp_size self =? dwdp_size other) && (dwdp_rank self =? dwdp_rank other).

(** ** Lists of ranks *)

Lemma elem_of_py_range a b s x : 0 < s -> x ∈ py_range a b s <-> a <= x < b /\ (x - a) mod s = 0.
Proof.
  intros Hs. unfold py_range. rewrite list_elem_of_fmap. split.
  - intros (i & -> & Hi%elem_of_seq). assert (Z.of_nat i < (b - a + s - 1) / s) by lia.
    pose proof (Z.mul_div_le (b - a + s - 1) s Hs). split; [nia|].
    replace (a + Z.of_nat i * s - a) with (Z.of_nat i * s) by lia. apply Z.mod_mul. lia.
  - intros [Hx Hm]. exists (Z.to_nat ((x - a) / s)). pose proof (Z.div_mod (x - a) s) as Hd.
    assert (0 <= (x - a) / s) by (apply Z.div_pos; lia). split; [rewrite Z2Nat.id by done; lia|].
    apply elem_of_seq. enough ((x - a) / s < (b - a + s - 1) / s) by lia.
    assert ((x - a) / s + 1 = (x - a + s) / s) as Hq by (rewrite <- Z.div_add by lia; f_equal; lia).
    enough ((x - a + s) / s <= (b - a + s - 1) / s) by lia. apply Z.div_le_mono; lia.
Qed.

Lemma length_py_range a b s : length (py_range a b s) = Z.to_nat ((b - a + s - 1) / s).
Proof. unfold py_range. by rewrite length_fmap, length_seq. Qed.

Lemma length_py_count n : length (py_count n) = Z.to_nat n.
Proof. unfold py_count. by rewrite length_fmap, length_seq. Qed.

Lemma lookup_py_count n i : 0 <= i < n -> py_count n !! Z.to_nat i = Some i.
Proof.
  intros Hi. unfold py_count. rewrite list_lookup_fmap, lookup_seq_lt by lia. simpl. f_equal. lia.
Qed.

(** Row [i], column [j] of a table that is built row by row. *)
Lemma lookup_rows {A B} (g : A -> list B) (m : nat) l : forall i j x,
  (forall y, length (g y) = m) -> l !! i = Some x -> (j < m)%nat ->
  (y ← l; g y) !! (i * m + j)%nat = g x !! j.
Proof.
  induction l as [|y l IH]; intros i j x Hm Hx Hj; [done|]. destruct i as [|i]; simpl in *.
  - injection Hx as ->. rewrite lookup_app_l by (rewrite Hm; lia). done.
  - rewrite lookup_app_r by (rewrite Hm; lia). rewrite Hm.
    replace (m + i * m + j - m)%nat with (i * m + j)%nat by lia. by apply IH.
Qed.

Lemma length_rows {A B} (g : A -> list B) (m : nat) l :
  (forall y, length (g y) = m) -> length (y ← l; g y) = (length l * m)%nat.
Proof. intros Hm. induction l as [|y l IH]; [done|]. simpl. rewrite length_app, Hm, <- IH. done. Qed.

(** The group of row [i] and column [j]. *)
Lemma py_get_rows (f : Z -> Z -> list Z) n m i j :
  0 <= i < n -> 0 <= j < m ->
  py_get (y ← py_count n; f y <$> py_count m) (i * m + j) = Ok (f i j).
Proof.
  intros Hi Hj. assert (Hm : forall y, length (f y <$> py_count m) = Z.to_nat m)
    by (intros; by rewrite length_fmap, length_py_count).
  replace (i * m + j) with (Z.of_nat (Z.to_nat i * Z.to_nat m + Z.to_nat j)) by nia.
  apply py_get_nat. rewrite (lookup_rows _ (Z.to_nat m) _ _ _ i Hm (lookup_py_count n i Hi)) by lia.
  rewrite list_lookup_fmap, lookup_py_count by done. done.
Qed.

(** The same with three indices. *)
Lemma py_get_rows3 (f : Z -> Z -> Z -> list Z) n m p i j k :
  0 <= i < n -> 0 <= j < m -> 0 <= k < p ->
  py_get (x ← py_count n; y ← py_count m; f x y <$> py_count p) (i * m * p + j * p + k) = Ok (f i j k).
Proof.
  intros Hi Hj Hk. assert (Hm : forall x, length (y ← py_count m; f x y <$> py_count p) = (Z.to_nat m * Z.to_nat p)%nat).
  { intros x. rewrite (length_rows _ (Z.to_nat p)), length_py_count; [done|].
    intros y. by rewrite length_fmap, length_py_count. }
  set (c := (Z.to_nat j * Z.to_nat p + Z.to_nat k)%nat).
  assert (Hc : (c < Z.to_nat m * Z.to_nat p)%nat) by (unfold c; nia).
  replace (i * m * p + j * p + k) with (Z.of_nat (Z.to_nat i * (Z.to_nat m * Z.to_nat p) + c)) by (unfold c; nia).
  apply py_get_nat. rewrite (lookup_rows _ _ _ _ _ i Hm (lookup_py_count n i Hi) Hc). unfold c.
  rewrite (lookup_rows _ (Z.to_nat p) _ _ _ j); [|intros; by rewrite length_fmap, length_py_count|by apply lookup_py_count|lia].
  rewrite list_lookup_fmap, lookup_py_count by done. done.
Qed.

(** ** Layout *)

(** A mapping with positive sizes and a rank in the world. *)
Record layout_ok (m : Mapping) : Prop := {
  lo_tp : 1 <= tp_size m;
  lo_pp : 1 <= pp_size m;
  lo_cp : 1 <= cp_size m;
  lo_world : world_size m = tp_size m * pp_size m * cp_size m;
  lo_rank : 0 <= rank m < world_size m;
}.

(** The same layout seen from another rank. *)
Definition at_rank (m : Mapping) (r : Z) : Mapping :=
  {| world_size := world_size m; rank := r; gpus_per_node := gpus_per_node m; cp_size := cp_size m;
     cp_config := cp_config m; tp_size := tp_size m; pp_size := pp_size m; pp_partition := pp_partition m;
     moe_cluster_size := moe_cluster_size m; moe_tp_size := moe_tp_size m; moe_ep_size := moe_ep_size m;
     moe_tp_cluster_ep_size := moe_tp_cluster_ep_size m; attn_tp_size := attn_tp_size m;
     attn_cp_size := attn_cp_size m; enable_attention_dp := enable_attention_dp m;
     enable_lm_head_tp_in_adp := enable_lm_head_tp_in_adp m; dwdp_size := dwdp_size m;
     dwdp_rank := dwdp_rank m |}.

(** A rank is its three coordinates. *)
Lemma rank_coordinates m :
  layout_ok m ->
  rank m = pp_rank m * (tp_size m * cp_size m) + tp_rank m * cp_size m + cp_rank m
  /\ 0 <= pp_rank m < pp_size m /\ 0 <= tp_rank m < tp_size m /\ 0 <= cp_rank m < cp_size m.
Proof.
  intros [Htp Hpp Hcp Hw Hr]. unfold pp_rank, tp_rank, cp_rank. set (T := tp_size m * cp_size m).
  assert (HT : 0 < T) by (unfold T; nia).
  pose proof (Z.div_mod (rank m) T ltac:(lia)) as H1. pose proof (Z.mod_pos_bound (rank m) T HT) as H2.
  pose proof (Z.div_mod (rank m mod T) (cp_size m) ltac:(lia)) as H3.
  pose proof (Z.mod_pos_bound (rank m mod T) (cp_size m) ltac:(lia)) as H4.
  assert (Hc : rank m mod cp_size m = (rank m mod T) mod cp_size m).
  { symmetry. apply (Z.mod_unique _ _ (rank m / T * tp_size m + rank m mod T / cp_size m)); [by left|].
    rewrite H1 at 1. rewrite H3 at 1. unfold T at 1. ring. }
  rewrite Hc. split; [lia|]. split; [|split; [|lia]].
  - split; [apply Z.div_pos; lia|]. apply Z.div_lt_upper_bound; [done|]. rewrite Hw in Hr. unfold T. nia.
  - split; [apply Z.div_pos; lia|]. apply Z.div_lt_upper_bound; [lia|]. rewrite Z.mul_comm. apply H2.
Qed.

(** Coordinates determine the rank. *)
Lemma coordinates_rank m p t c :
  layout_ok m -> 0 <= p < pp_size m -> 0 <= t < tp_size m -> 0 <= c < cp_size m ->
  let m' := at_rank m (p * (tp_size m * cp_size m) + t * cp_size m + c) in
  layout_ok m' /\ pp_rank m' = p /\ tp_rank m' = t /\ cp_rank m' = c.
Proof.
  intros [Htp Hpp Hcp Hw Hr] Hp Ht Hc m'. unfold m', pp_rank, tp_rank, cp_rank. simpl.
  set (T := tp_size m * cp_size m). assert (Hin : 0 <= t * cp_size m + c < T) by (unfold T; nia).
  assert (Hmod : (p * T + t * cp_size m + c) mod T = t * cp_size m + c).
  { symmetry. apply (Z.mod_unique _ _ p); lia. }
  split.
  - split; simpl; try done. rewrite Hw. unfold T in *. nia.
  - split; [symmetry; apply (Z.div_unique _ _ p (t * cp_size m + c)); lia|]. rewrite Hmod. split.
    + symmetry. apply (Z.div_unique _ _ t c); lia.
    + symmetry. apply (Z.mod_unique _ _ (p * tp_size m + t)); unfold T in *; nia.
Qed.

(** *** The members of a group *)

Lemma steps_count n s : 0 < s -> 0 <= n -> (n * s + s - 1) / s = n.
Proof. intros Hs Hn. symmetry. apply (Z.div_unique _ _ n (s - 1)); lia. Qed.

Lemma elem_of_steps a n s x :
  0 < s -> 0 <= n -> x ∈ py_range a (a + n * s) s <-> exists i, 0 <= i < n /\ x = a + i * s.
Proof.
  intros Hs Hn. unfold py_range. rewrite list_elem_of_fmap.
  replace (a + n * s - a + s - 1) with (n * s + s - 1) by lia. rewrite steps_count by done. split.
  - intros (i & -> & Hi%elem_of_seq). exists (Z.of_nat i). lia.
  - intros (i & Hi & ->). exists (Z.to_nat i). rewrite elem_of_seq. split; [f_equal; f_equal; lia|lia].
Qed.

Lemma length_steps a n s : 0 < s -> 0 <= n -> length (py_range a (a + n * s) s) = Z.to_nat n.
Proof.
  intros Hs Hn. rewrite length_py_range. replace (a + n * s - a + s - 1) with (n * s + s - 1) by lia.
  by rewrite steps_count.
Qed.

(** A group is all ranks of the world that agree on [same], in the order of the
    coordinate [coord]: the rank at position [i] is the one with coordinate [i]. *)
Definition group_of {A} (m : Mapping) (g : list Z) (size : Z) (same : Mapping -> A) (coord : Mapping -> Z) : Prop :=
  rank m ∈ g /\ length g = Z.to_nat size
  /\ (forall r, r ∈ g <-> 0 <= r < world_size m /\ same (at_rank m r) = same m)
  /\ (forall (i : nat) r, g !! i = Some r -> coord (at_rank m r) = Z.of_nat i).

Lemma layout_at m r : layout_ok m -> 0 <= r < world_size m -> layout_ok (at_rank m r).
Proof. intros [] Hr. by split. Qed.

Lemma at_rank_id m : at_rank m (rank m) = m.
Proof. by destruct m. Qed.

(** A group given by the coordinate that varies. *)
Lemma group_by_steps {A} m a n s (same : Mapping -> A) (coord : Mapping -> Z) :
  layout_ok m -> 0 < s -> 0 <= n ->
  (forall i, 0 <= i < n -> let r := a + i * s in 0 <= r < world_size m /\ same (at_rank m r) = same m) ->
  (forall r, 0 <= r < world_size m -> same (at_rank m r) = same m -> 0 <= coord (at_rank m r) < n /\ r = a + coord (at_rank m r) * s) ->
  group_of m (py_range a (a + n * s) s) n same coord.
Proof.
  intros Hm Hs Hn Hto Hfrom.
  assert (Hiff : forall r, r ∈ py_range a (a + n * s) s <-> 0 <= r < world_size m /\ same (at_rank m r) = same m).
  { intros r. rewrite elem_of_steps by done. split; [intros (i & Hi & ->); by apply Hto|].
    intros [Hr Hsame]. exists (coord (at_rank m r)). by apply Hfrom. }
  split_and!; [|by apply length_steps|done|].
  - apply Hiff. split; [apply Hm|]. by rewrite at_rank_id.
  - intros i r Hi. destruct (proj1 (Hiff r) (list_elem_of_lookup_2 _ _ _ Hi)) as [Hr Hsame].
    destruct (Hfrom r Hr Hsame) as [_ He]. unfold py_range in Hi. rewrite list_lookup_fmap in Hi.
    apply fmap_Some in Hi as (k & [-> _]%lookup_seq & Hk). apply (Z.mul_reg_r _ _ s); [lia|]. simpl in Hk. lia.
Qed.

Lemma tp_group_spec m :
  layout_ok m -> exists g, tp_group m = Ok g /\ group_of m g (tp_size m) (fun m => (pp_rank m, cp_rank m)) tp_rank.
Proof.
  intros Hm. pose proof (rank_coordinates m Hm) as (Hrk & Hp & Ht & Hc). pose proof Hm as [Htp Hpp Hcp Hw Hr].
  unfold tp_group, tp_groups. rewrite (py_get_rows (fun i j => py_range (i * tp_size m * cp_size m + j)
    ((i + 1) * tp_size m * cp_size m + j) (cp_size m))) by done.
  eexists. split; [done|].
  set (a := pp_rank m * tp_size m * cp_size m + cp_rank m).
  replace ((pp_rank m + 1) * tp_size m * cp_size m + cp_rank m) with (a + tp_size m * cp_size m) by (unfold a; ring).
  apply (group_by_steps m a (tp_size m) (cp_size m) _ tp_rank); [done|lia|lia| |].
  - intros i Hi. destruct (coordinates_rank m (pp_rank m) i (cp_rank m) Hm Hp Hi Hc) as (Hok & Hp' & _ & Hc').
    replace (pp_rank m * (tp_size m * cp_size m) + i * cp_size m + cp_rank m) with (a + i * cp_size m) in * by (unfold a; ring).
    split; [apply Hok|]. by rewrite Hp', Hc'.
  - intros r Hr' [= Hp' Hc']. pose proof (rank_coordinates _ (layout_at m r Hm Hr')) as (Hrk' & _ & Ht' & _).
    split; [exact Ht'|]. rewrite Hp', Hc' in Hrk'. simpl in Hrk'. unfold a. rewrite Hrk' at 1. ring.
Qed.

Lemma pp_group_spec m :
  layout_ok m -> exists g, pp_group m = Ok g /\ group_of m g (pp_size m) (fun m => (tp_rank m, cp_rank m)) pp_rank.
Proof.
  intros Hm. pose proof (rank_coordinates m Hm) as (Hrk & Hp & Ht & Hc). pose proof Hm as [Htp Hpp Hcp Hw Hr].
  set (a := tp_rank m * cp_size m + cp_rank m). set (T := tp_size m * cp_size m).
  assert (Ha : 0 <= a < T) by (unfold a, T; nia).
  unfold pp_group, pp_groups. fold a T.
  assert (Hget : py_get ((fun i => py_range i (world_size m) T) <$> py_count T) a = Ok (py_range a (world_size m) T)).
  { replace a with (Z.of_nat (Z.to_nat a)) at 1 by lia. apply py_get_nat.
    rewrite list_lookup_fmap, lookup_py_count by done. done. }
  rewrite Hget. eexists. split; [done|].
  assert (Heq : py_range a (world_size m) T = py_range a (a + pp_size m * T) T).
  { unfold py_range. do 3 f_equal. replace (a + pp_size m * T - a + T - 1) with (pp_size m * T + T - 1) by lia.
    rewrite steps_count by lia. symmetry. apply (Z.div_unique _ _ _ (T - 1 - a)); [lia|]. rewrite Hw. unfold T. ring. }
  rewrite Heq. apply (group_by_steps m a (pp_size m) T _ pp_rank); [done|lia|lia| |].
  - intros i Hi. destruct (coordinates_rank m i (tp_rank m) (cp_rank m) Hm Hi Ht Hc) as (Hok & _ & Ht' & Hc').
    replace (i * (tp_size m * cp_size m) + tp_rank m * cp_size m + cp_rank m) with (a + i * T) in * by (unfold a, T; ring).
    split; [apply Hok|]. by rewrite Ht', Hc'.
  - intros r Hr' [= Ht' Hc']. pose proof (rank_coordinates _ (layout_at m r Hm Hr')) as (Hrk' & Hp' & _ & _).
    split; [exact Hp'|]. rewrite Ht', Hc' in Hrk'. simpl in Hrk'. unfold a, T. rewrite Hrk' at 1. ring.
Qed.

Lemma cp_group_spec m :
  layout_ok m -> exists g, cp_group m = Ok g /\ group_of m g (cp_size m) (fun m => (pp_rank m, tp_rank m)) cp_rank.
Proof.
  intros Hm. pose proof (rank_coordinates m Hm) as (Hrk & Hp & Ht & Hc). pose proof Hm as [Htp Hpp Hcp Hw Hr].
  unfold cp_group, cp_groups. rewrite (py_get_rows (fun i j => py_range (i * tp_size m * cp_size m + j * cp_size m)
    (i * tp_size m * cp_size m + (j + 1) * cp_size m) 1)) by done.
  eexists. split; [done|].
  set (a := pp_rank m * tp_size m * cp_size m + tp_rank m * cp_size m).
  replace (pp_rank m * tp_size m * cp_size m + (tp_rank m + 1) * cp_size m) with (a + cp_size m * 1) by (unfold a; ring).
  apply (group_by_steps m a (cp_size m) 1 _ cp_rank); [done|lia|lia| |].
  - intros i Hi. destruct (coordinates_rank m (pp_rank m) (tp_rank m) i Hm Hp Ht Hi) as (Hok & Hp' & Ht' & _).
    replace (pp_rank m * (tp_size m * cp_size m) + tp_rank m * cp_size m + i) with (a + i * 1) in * by (unfold a; ring).
    split; [apply Hok|]. by rewrite Hp', Ht'.
  - intros r Hr' [= Hp' Ht']. pose proof (rank_coordinates _ (layout_at m r Hm Hr')) as (Hrk' & _ & _ & Hc').
    split; [exact Hc'|]. rewrite Hp', Ht' in Hrk'. simpl in Hrk'. unfold a. rewrite Hrk' at 1. ring.
Qed.

(** C34. Every rank is in its tensor, pipeline and context groups, the groups have
    the configured sizes, each consists of exactly the ranks of the world that share
    the other two coordinates, and the position of a rank in a group is its own
    coordinate.  So all members of a group name the same group, in the same order,
    and the groups of a kind partition the world. *)
Theorem groups_by_coordinates m :
  layout_ok m ->
  exists tpg ppg cpg, tp_group m = Ok tpg /\ pp_group m = Ok ppg /\ cp_group m = Ok cpg
    /\ group_of m tpg (tp_size m) (fun m => (pp_rank m, cp_rank m)) tp_rank
    /\ group_of m ppg (pp_size m) (fun m => (tp_rank m, cp_rank m)) pp_rank
    /\ group_of m cpg (cp_size m) (fun m => (pp_rank m, tp_rank m)) cp_rank.
Proof.
  intros Hm. destruct (tp_group_spec m Hm) as (tpg & Htp & Htg), (pp_group_spec m Hm) as (ppg & Hpp & Hpg),
    (cp_group_spec m Hm) as (cpg & Hcp & Hcg). eauto 10.
Qed.

Lemma groups_by_coordinates_witness :
  exists m tpg, Mapping_init {| a_world_size := 8; a_rank := 5; a_gpus_per_node := 8; a_cp_size := 2;
      a_cp_config := None; a_tp_size := 2; a_pp_size := 2; a_pp_partition := None; a_moe_cluster_size := -1;
      a_moe_tp_size := -1; a_moe_ep_size := -1; a_attn_tp_size := -1; a_attn_cp_size := -1;
      a_enable_attention_dp := false; a_enable_lm_head_tp_in_adp := false; a_dwdp_size := 0; a_dwdp_rank := 0 |}
    = Ok m /\ tp_group m = Ok tpg /\ tpg = [5; 7] /\ 5 ∈ tpg.
Proof.
  eexists. match goal with |- exists g, ?x = Ok ?m /\ _ =>
    let v := eval vm_compute in x in match v with Ok ?n => unify m n end end.
  match goal with |- exists g, _ = Ok ?m /\ _ =>
    destruct (groups_by_coordinates m) as (tpg & ppg & cpg & Htp & _ & _ & (Hin & _) & _) end.
  - split; vm_compute; try (intros H; discriminate H); [reflexivity|split; [intros H; discriminate H|reflexivity]].
  - exists tpg. split; [vm_compute; reflexivity|]. split; [exact Htp|].
    split; [|exact Hin]. vm_compute in Htp. injection Htp as <-. reflexivity.
Defined.

(** ** Expert groups

    Without context parallelism, a tensor rank splits into a MoE tensor rank, a
    cluster rank and an expert rank; only one of the last two is in use. *)

Record moe_ok (m : Mapping) : Prop := {
  mo_layout : layout_ok m;
  mo_cp : cp_size m = 1;
  mo_dwdp : dwdp_size m <= 1;
  mo_tp : 1 <= moe_tp_size m;
  mo_ep : 1 <= moe_ep_size m;
  mo_cluster : 1 <= moe_cluster_size m;
  mo_one : moe_cluster_size m = 1 \/ moe_ep_size m = 1;
  mo_all : moe_tp_cluster_ep_size m = moe_tp_size m * moe_ep_size m * moe_cluster_size m;
  mo_world : moe_tp_cluster_ep_size m = tp_size m;
}.

Abbreviation moe_row m := (moe_cluster_size m * moe_ep_size m).

Lemma coordinates_moe m p a c e :
  moe_ok m -> 0 <= p < pp_size m -> 0 <= a < moe_tp_size m -> 0 <= c < moe_cluster_size m -> 0 <= e < moe_ep_size m ->
  let m' := at_rank m (p * moe_tp_cluster_ep_size m + a * moe_row m + c * moe_ep_size m + e) in
  layout_ok m' /\ pp_rank m' = p /\ moe_tp_rank m' = a /\ moe_cluster_rank m' = c /\ moe_ep_rank m' = e.
Proof.
  intros [Hm Hcp Hd Htp Hep Hcl Hone Hall Hw] Hp Ha Hc He.
  set (t := a * moe_row m + c * moe_ep_size m + e).
  assert (Hrow : 0 <= c * moe_ep_size m + e < moe_row m) by nia.
  assert (Ht : 0 <= t < tp_size m) by (unfold t; rewrite <- Hw, Hall; nia).
  destruct (coordinates_rank m p t 0 Hm Hp Ht) as (Hok & Hp' & Ht' & _); [lia|].
  replace (p * (tp_size m * cp_size m) + t * cp_size m + 0)
    with (p * moe_tp_cluster_ep_size m + a * moe_row m + c * moe_ep_size m + e) in * by (rewrite Hcp, Hw; unfold t; ring).
  intros m'. split; [done|]. split; [done|]. unfold moe_tp_rank, moe_cluster_rank, moe_ep_rank. fold m' in Ht'. rewrite Ht'.
  simpl. rewrite (proj2 (Z.ltb_ge _ _) Hd). unfold t. split_and!.
  - symmetry. apply (Z.div_unique _ _ a (c * moe_ep_size m + e)); [lia|]. ring.
  - destruct Hone as [Hone|Hone]; rewrite Hone in *; [rewrite Z.mod_1_r; lia|].
    symmetry. apply (Z.mod_unique _ _ a); lia.
  - destruct Hone as [Hone|Hone]; rewrite Hone in *; [|rewrite Z.mod_1_r; lia].
    symmetry. apply (Z.mod_unique _ _ a); lia.
Qed.

Lemma moe_coordinates m :
  moe_ok m ->
  rank m = pp_rank m * moe_tp_cluster_ep_size m + moe_tp_rank m * moe_row m
           + moe_cluster_rank m * moe_ep_size m + moe_ep_rank m
  /\ 0 <= pp_rank m < pp_size m /\ 0 <= moe_tp_rank m < moe_tp_size m
  /\ 0 <= moe_cluster_rank m < moe_cluster_size m /\ 0 <= moe_ep_rank m < moe_ep_size m.
Proof.
  intros [Hm Hcp Hd Htp Hep Hcl Hone Hall Hw]. destruct (rank_coordinates m Hm) as (Hrk & Hp & Ht & Hc).
  rewrite Hcp in Hrk, Hc. unfold moe_tp_rank, moe_cluster_rank, moe_ep_rank. rewrite (proj2 (Z.ltb_ge _ _) Hd).
  set (t := tp_rank m) in *. set (S := moe_ep_size m * moe_cluster_size m).
  assert (HS : 0 < S) by (unfold S; nia).
  pose proof (Z.div_mod t S ltac:(lia)) as H1. pose proof (Z.mod_pos_bound t S HS) as H2.
  assert (Hrow : t mod S = t mod moe_cluster_size m * moe_ep_size m + t mod moe_ep_size m).
  { unfold S. destruct Hone as [Hone|Hone]; rewrite Hone, Z.mod_1_r, ?Z.mul_1_r, ?Z.mul_1_l; lia. }
  split_and!; try (apply Z.mod_pos_bound; lia); try lia.
  - apply Z.div_pos; lia.
  - apply Z.div_lt_upper_bound; [done|]. rewrite <- Hw, Hall in Ht. unfold S. lia.
Qed.

Lemma at_rank_moe m r : moe_ok m -> 0 <= r < world_size m -> moe_ok (at_rank m r).
Proof. intros [Hm] Hr. split; simpl; try done. by apply layout_at. Qed.

Lemma moe_tp_group_spec m :
  moe_ok m ->
  exists g, moe_tp_group m = Ok g
    /\ group_of m g (moe_tp_size m) (fun m => (pp_rank m, moe_cluster_rank m, moe_ep_rank m)) moe_tp_rank.
Proof.
  intros Hm. destruct (moe_coordinates m Hm) as (Hrk & Hp & Ha & Hc & He). pose proof Hm as [Hl _ _ Htp Hep Hcl _ Hall _].
  unfold moe_tp_group, moe_tp_groups. set (j := moe_cluster_rank m * moe_ep_size m + moe_ep_rank m).
  assert (Hj : 0 <= j < moe_row m) by (unfold j; nia).
  replace (pp_rank m * moe_cluster_size m * moe_ep_size m + moe_cluster_rank m * moe_ep_size m + moe_ep_rank m)
    with (pp_rank m * moe_row m + j) by (unfold j; ring).
  rewrite (py_get_rows (fun i j => py_range (i * moe_tp_cluster_ep_size m + j) ((i + 1) * moe_tp_cluster_ep_size m) (moe_row m)))
    by done.
  eexists. split; [done|]. set (a := pp_rank m * moe_tp_cluster_ep_size m + j).
  assert (Heq : py_range a ((pp_rank m + 1) * moe_tp_cluster_ep_size m) (moe_row m)
    = py_range a (a + moe_tp_size m * moe_row m) (moe_row m)).
  { unfold py_range. do 3 f_equal.
    replace (a + moe_tp_size m * moe_row m - a + moe_row m - 1) with (moe_tp_size m * moe_row m + moe_row m - 1) by lia.
    rewrite steps_count by nia. symmetry. apply (Z.div_unique _ _ _ (moe_row m - 1 - j)); [lia|].
    unfold a. rewrite Hall. ring. }
  rewrite Heq. apply (group_by_steps m a (moe_tp_size m) (moe_row m) _ moe_tp_rank); [done|nia|lia| |].
  - intros i Hi. destruct (coordinates_moe m (pp_rank m) i (moe_cluster_rank m) (moe_ep_rank m) Hm Hp Hi Hc He)
      as (Hok & Hp' & _ & Hc' & He').
    replace (pp_rank m * moe_tp_cluster_ep_size m + i * moe_row m + moe_cluster_rank m * moe_ep_size m + moe_ep_rank m)
      with (a + i * moe_row m) in * by (unfold a, j; ring).
    split; [apply Hok|]. by rewrite Hp', Hc', He'.
  - intros r Hr [= Hp' Hc' He']. destruct (moe_coordinates _ (at_rank_moe m r Hm Hr)) as (Hrk' & _ & Ha' & _).
    split; [exact Ha'|]. rewrite Hp', Hc', He' in Hrk'. simpl in Hrk'. rewrite Hrk' at 1. unfold a, j. ring.
Qed.

Lemma moe_ep_group_spec m :
  moe_ok m ->
  exists g, moe_ep_group m = Ok g
    /\ group_of m g (moe_ep_size m) (fun m => (pp_rank m, moe_tp_rank m, moe_cluster_rank m)) moe_ep_rank.
Proof.
  intros Hm. destruct (moe_coordinates m Hm) as (Hrk & Hp & Ha & Hc & He). pose proof Hm as [Hl _ _ Htp Hep Hcl _ Hall _].
  unfold moe_ep_group, moe_ep_groups.
  set (f := fun i j k => py_range (i * moe_tp_cluster_ep_size m + j * moe_cluster_size m * moe_ep_size m + k * moe_ep_size m)
    (i * moe_tp_cluster_ep_size m + j * moe_cluster_size m * moe_ep_size m + (k + 1) * moe_ep_size m) 1).
  set (a := pp_rank m * moe_tp_cluster_ep_size m + moe_tp_rank m * moe_cluster_size m * moe_ep_size m
    + moe_cluster_rank m * moe_ep_size m).
  assert (Hget : py_get (i ← py_count (pp_size m); j ← py_count (moe_tp_size m); f i j <$> py_count (moe_cluster_size m))
    (pp_rank m * moe_tp_size m * moe_cluster_size m + moe_tp_rank m * moe_cluster_size m + moe_cluster_rank m)
    = Ok (f (pp_rank m) (moe_tp_rank m) (moe_cluster_rank m))) by by apply py_get_rows3.
  unfold f in Hget. rewrite Hget. eexists. split; [done|].
  replace (pp_rank m * moe_tp_cluster_ep_size m + moe_tp_rank m * moe_cluster_size m * moe_ep_size m
    + (moe_cluster_rank m + 1) * moe_ep_size m) with (a + moe_ep_size m * 1) by (unfold a; ring). fold a.
  apply (group_by_steps m a (moe_ep_size m) 1 _ moe_ep_rank); [done|lia|lia| |].
  - intros i Hi. destruct (coordinates_moe m (pp_rank m) (moe_tp_rank m) (moe_cluster_rank m) i Hm Hp Ha Hc Hi)
      as (Hok & Hp' & Ha' & Hc' & _).
    replace (pp_rank m * moe_tp_cluster_ep_size m + moe_tp_rank m * moe_row m + moe_cluster_rank m * moe_ep_size m + i)
      with (a + i * 1) in * by (unfold a; ring).
    split; [apply Hok|]. by rewrite Hp', Hc', Ha'.
  - intros r Hr [= Hp' Ha' Hc']. destruct (moe_coordinates _ (at_rank_moe m r Hm Hr)) as (Hrk' & _ & _ & _ & He').
    split; [exact He'|]. rewrite Hp', Hc', Ha' in Hrk'. simpl in Hrk'. rewrite Hrk' at 1. unfold a. ring.
Qed.

(** Without context parallelism (and without DWDP), every rank is in its MoE
    tensor group and its MoE expert group; each has the configured size and
    consists of exactly the ranks that share the other coordinates, in the order of
    its own. *)
Theorem moe_groups_by_coordinates m :
  moe_ok m ->
  exists tg eg, moe_tp_group m = Ok tg /\ moe_ep_group m = Ok eg
    /\ group_of m tg (moe_tp_size m) (fun m => (pp_rank m, moe_cluster_rank m, moe_ep_rank m)) moe_tp_rank
    /\ group_of m eg (moe_ep_size m) (fun m => (pp_rank m, moe_tp_rank m, moe_cluster_rank m)) moe_ep_rank.
Proof.
  intros Hm. destruct (moe_tp_group_spec m Hm) as (tg & Htg & Ht), (moe_ep_group_spec m Hm) as (eg & Heg & He).
  eauto 8.
Qed.

Definition wit_args (world r tp pp cp : Z) (ep : Z) (part : option (list Z)) : MappingArgs :=
  {| a_world_size := world; a_rank := r; a_gpus_per_node := 8; a_cp_size := cp; a_cp_config := None;
     a_tp_size := tp; a_pp_size := pp; a_pp_partition := part; a_moe_cluster_size := -1;
     a_moe_tp_size := -1; a_moe_ep_size := ep; a_attn_tp_size := -1; a_attn_cp_size := -1;
     a_enable_attention_dp := false; a_enable_lm_head_tp_in_adp := false; a_dwdp_size := 0; a_dwdp_rank := 0 |}.

Definition wit_mapping (world r tp pp cp ep moe_tp : Z) (part : option (list Z)) : Mapping :=
  {| world_size := world; rank := r; gpus_per_node := 8; cp_size := cp; cp_config := empty_cp_config;
     tp_size := tp; pp_size := pp; pp_partition := part; moe_cluster_size := 1; moe_tp_size := moe_tp;
     moe_ep_size := ep; moe_tp_cluster_ep_size := tp; attn_tp_size := tp * cp; attn_cp_size := 1;
     enable_attention_dp := false; enable_lm_head_tp_in_adp := false; dwdp_size := 0; dwdp_rank := 0 |}.

Lemma moe_groups_by_coordinates_witness :
  Mapping_init (wit_args 16 13 8 2 1 4 None) = Ok (wit_mapping 16 13 8 2 1 4 2 None)
  /\ exists tg eg, moe_tp_group (wit_mapping 16 13 8 2 1 4 2 None) = Ok tg
       /\ moe_ep_group (wit_mapping 16 13 8 2 1 4 2 None) = Ok eg /\ tg = [9; 13] /\ eg = [12; 13; 14; 15].
Proof.
  split; [vm_compute; reflexivity|].
  destruct (moe_groups_by_coordinates (wit_mapping 16 13 8 2 1 4 2 None)) as (tg & eg & Ht & He & _).
  - split; simpl; try lia. split; simpl; lia.
  - exists tg, eg. split; [exact Ht|]. split; [exact He|].
    vm_compute in Ht, He. injection Ht as <-. injection He as <-. split; reflexivity.
Defined.

(** With context parallelism and several pipeline stages the MoE groups are
    laid out with the wrong stride: a rank need not be in the MoE tensor group
    it looks up. *)
Theorem moe_group_misses_rank :
  exists a m g, Mapping_init a = Ok m /\ layout_ok m /\ moe_tp_group m = Ok g /\ ~ rank m ∈ g.
Proof.
  exists (wit_args 8 5 2 2 2 (-1) None). eexists _, _. split; [vm_compute; reflexivity|]. split; [split; simpl; lia|].
  split; [vm_compute; reflexivity|]. simpl. set_solver.
Qed.

(** ** Construction *)

Lemma raise_if_Ok b e u : raise_if b e = Ok u -> b = false.
Proof. by destruct b. Qed.

(** What a constructed mapping satisfies, whatever the arguments. *)
Lemma Mapping_init_fields a m :
  Mapping_init a = Ok m ->
  world_size m = tp_size m * pp_size m * cp_size m
  /\ attn_tp_size m * attn_cp_size m = tp_size m * cp_size m
  /\ (dwdp_size m <= 1 -> dwdp_size m = 0
      /\ moe_tp_cluster_ep_size m = moe_tp_size m * moe_ep_size m * moe_cluster_size m
      /\ (cp_size m = 1 -> moe_tp_cluster_ep_size m = tp_size m))
  /\ (1 < moe_cluster_size m -> moe_ep_size m = 1)
  /\ (enable_attention_dp m = false -> 0 <= rank m < world_size m)
  /\ tp_size m = a_tp_size a /\ pp_size m = a_pp_size a /\ cp_size m = a_cp_size a
  /\ world_size m = a_world_size a /\ rank m = a_rank a /\ dwdp_size m = a_dwdp_size a
  /\ pp_partition m = a_pp_partition a /\ enable_attention_dp m = a_enable_attention_dp a.
Proof.
  unfold Mapping_init. intros H.
  apply bind_Ok in H as ([] & Hd1%raise_if_Ok & H). apply bind_Ok in H as ([] & _ & H).
  apply bind_Ok in H as ([ct cfg] & _ & H). apply bind_Ok in H as ([[mt me] mc] & _ & H).
  apply bind_Ok in H as ([at_ ac] & _ & H). apply bind_Ok in H as ([] & _ & H).
  apply bind_Ok in H as ([] & Hw%raise_if_Ok & H). apply bind_Ok in H as ([] & Hm%raise_if_Ok & H).
  apply bind_Ok in H as ([] & Ha%raise_if_Ok & H). apply bind_Ok in H as ([] & _ & H).
  apply bind_Ok in H as ([] & Hc & H). apply bind_Ok in H as ([] & _ & H).
  apply bind_Ok in H as ([] & Hr%raise_if_Ok & H). injection H as <-. simpl. bool_to_prop.
  split_and!; try done; try lia.
  - intros Hle. rewrite (proj2 (Z.ltb_ge _ _) Hle) in *. simpl in Hm. bool_to_prop. split_and!; [lia|lia|].
    intros Hcp. rewrite Hm. case_bool_decide; lia.
  - intros Hlt. rewrite (proj2 (Z.ltb_lt _ _) Hlt) in Hc. apply assert_Ok in Hc. bool_to_prop. lia.
  - intros Hadp. rewrite Hadp in Hr. simpl in Hr. bool_to_prop. lia.
Qed.

(** A mapping built from positive sizes for a rank of the world. *)
Lemma Mapping_init_layout a m :
  Mapping_init a = Ok m -> 1 <= a_tp_size a -> 1 <= a_pp_size a -> 1 <= a_cp_size a ->
  (a_enable_attention_dp a = true -> 0 <= a_rank a < a_world_size a) -> layout_ok m.
Proof.
  intros H Htp Hpp Hcp Hadp.
  apply Mapping_init_fields in H as (Hw & _ & _ & _ & Hr & Et & Ep & Ec & Hw' & Hr' & _ & _ & Hadp').
  split; [lia|lia|lia|done|]. destruct (enable_attention_dp m); [|auto]. rewrite Hr', Hw'. apply Hadp. congruence.
Qed.

(** A mapping is only constructed when its sizes fit together: the world is
    the product of the three parallel sizes, the attention sizes multiply to the
    tensor and context ranks, and without DWDP the MoE sizes multiply to the
    tensor ranks; the rank lies in the world.  With positive sizes the groups
    above are therefore those of the configuration. *)
Theorem mapping_construction_sound a m :
  Mapping_init a = Ok m ->
  1 <= a_tp_size a -> 1 <= a_pp_size a -> 1 <= a_cp_size a ->
  (a_enable_attention_dp a = true -> 0 <= a_rank a < a_world_size a) ->
  layout_ok m /\ attn_tp_size m * attn_cp_size m = tp_size m * cp_size m
  /\ (a_dwdp_size a = 0 -> a_cp_size a = 1 ->
      1 <= moe_tp_size m -> 1 <= moe_ep_size m -> 1 <= moe_cluster_size m -> moe_ok m).
Proof.
  intros H Htp Hpp Hcp Hadp. pose proof (Mapping_init_layout a m H Htp Hpp Hcp Hadp) as Hl. split; [done|].
  apply Mapping_init_fields in H as (Hw & Ha & Hm & Hc & Hr & Et & Ep & Ec & _ & _ & Ed & _ & _).
  split; [done|]. intros Hd0 Hcp1 Hmt Hme Hmc. destruct Hm as (_ & Hall & Hone); [lia|].
  split; try done; lia.
Qed.

Lemma mapping_construction_sound_witness :
  Mapping_init (wit_args 16 13 8 2 1 4 None) = Ok (wit_mapping 16 13 8 2 1 4 2 None)
  /\ moe_ok (wit_mapping 16 13 8 2 1 4 2 None).
Proof.
  assert (H : Mapping_init (wit_args 16 13 8 2 1 4 None) = Ok (wit_mapping 16 13 8 2 1 4 2 None)) by (vm_compute; reflexivity).
  split; [exact H|].
  destruct (mapping_construction_sound _ _ H) as (_ & _ & Hm); simpl in *; try lia; try discriminate.
  apply Hm; simpl; lia.
Defined.

(** ** Neighbours *)

(** The neighbours in coordinates. *)
Lemma next_pp_coordinates m :
  layout_ok m ->
  next_pp_rank m
  = (pp_rank m + 1) mod pp_size m * (tp_size m * cp_size m) + tp_rank m * cp_size m + cp_rank m.
Proof.
  intros Hm. pose proof (rank_coordinates m Hm) as (Hrk & Hp & Ht & Hc). pose proof Hm as [Htp Hpp Hcp Hw Hr].
  unfold next_pp_rank. set (T := tp_size m * cp_size m) in *.
  assert (HwT : world_size m = pp_size m * T) by (rewrite Hw; unfold T; ring).
  assert (0 <= tp_rank m * cp_size m + cp_rank m < T) by (unfold T; nia).
  destruct (decide (pp_rank m + 1 = pp_size m)) as [E|E].
  - rewrite E, Z.mod_same by lia. rewrite (proj2 (Z.leb_le _ _)) by nia. nia.
  - rewrite Z.mod_small by lia. rewrite (proj2 (Z.leb_gt _ _)) by nia. lia.
Qed.

Lemma next_cp_coordinates m :
  layout_ok m ->
  next_cp_rank m
  = pp_rank m * (tp_size m * cp_size m) + tp_rank m * cp_size m + (cp_rank m + 1) mod cp_size m.
Proof.
  intros Hm. pose proof (rank_coordinates m Hm) as (Hrk & _ & _ & Hc). unfold next_cp_rank.
  destruct (Z.eqb_spec (cp_rank m) (cp_size m - 1)) as [E|E].
  - replace (cp_rank m + 1) with (cp_size m) by lia. rewrite Z.mod_same by lia. lia.
  - rewrite Z.mod_small by lia. lia.
Qed.

Lemma pred_mod c n : 0 <= c < n -> (c - 1) mod n = if c =? 0 then n - 1 else c - 1.
Proof.
  intros Hc. destruct (Z.eqb_spec c 0) as [->|]; [|apply Z.mod_small; lia].
  symmetry. apply (Z.mod_unique _ _ (-1)); lia.
Qed.

Lemma prev_cp_coordinates m :
  layout_ok m ->
  prev_cp_rank m
  = pp_rank m * (tp_size m * cp_size m) + tp_rank m * cp_size m + (cp_rank m - 1) mod cp_size m.
Proof.
  intros Hm. pose proof (rank_coordinates m Hm) as (Hrk & _ & _ & Hc). rewrite pred_mod by done.
  unfold prev_cp_rank. destruct (Z.eqb_spec (cp_rank m) 0); lia.
Qed.

(** The next and previous pipeline ranks are inverse to each other, stay in
    the same tensor and context position, and move one stage, around the end;
    likewise for the context ranks within a tensor position. *)
Theorem neighbours_inverse m :
  layout_ok m ->
  let n := at_rank m (next_pp_rank m) in
  let p := at_rank m (prev_pp_rank m) in
  let nc := at_rank m (next_cp_rank m) in
  let pc := at_rank m (prev_cp_rank m) in
  prev_pp_rank n = rank m /\ next_pp_rank p = rank m
  /\ pp_rank n = (pp_rank m + 1) mod pp_size m /\ tp_rank n = tp_rank m /\ cp_rank n = cp_rank m
  /\ prev_cp_rank nc = rank m /\ next_cp_rank pc = rank m
  /\ cp_rank nc = (cp_rank m + 1) mod cp_size m /\ tp_rank nc = tp_rank m /\ pp_rank nc = pp_rank m.
Proof.
  intros Hm. pose proof (rank_coordinates m Hm) as (Hrk & Hp & Ht & Hc). pose proof Hm as [Htp Hpp Hcp Hw Hr].
  pose proof (Z.mod_pos_bound (pp_rank m + 1) (pp_size m) ltac:(lia)) as Hpb.
  pose proof (Z.mod_pos_bound (cp_rank m + 1) (cp_size m) ltac:(lia)) as Hcb.
  pose proof (Z.mod_pos_bound (cp_rank m - 1) (cp_size m) ltac:(lia)) as Hcb'.
  destruct (coordinates_rank m _ _ _ Hm Hpb Ht Hc) as (_ & Hp' & Ht' & Hc').
  destruct (coordinates_rank m _ _ _ Hm Hp Ht Hcb) as (Hokc & Hpc & Htc & Hcc).
  destruct (coordinates_rank m _ _ _ Hm Hp Ht Hcb') as (Hokp & Hpp' & Htp' & Hcp').
  rewrite <- (next_pp_coordinates m Hm) in Hp', Ht', Hc'.
  rewrite <- (next_cp_coordinates m Hm) in Hokc, Hpc, Htc, Hcc.
  rewrite <- (prev_cp_coordinates m Hm) in Hokp, Hpp', Htp', Hcp'.
  cbv zeta. split_and!; try done.
  - unfold prev_pp_rank, next_pp_rank. simpl. repeat case_match; bool_to_prop; nia.
  - unfold prev_pp_rank, next_pp_rank. simpl. repeat case_match; bool_to_prop; nia.
  - rewrite (prev_cp_coordinates _ Hokc), Hpc, Htc, Hcc, Zminus_mod_idemp_l. simpl.
    replace (cp_rank m + 1 - 1) with (cp_rank m) by lia. rewrite (Z.mod_small (cp_rank m)) by done. lia.
  - rewrite (next_cp_coordinates _ Hokp), Hpp', Htp', Hcp', Zplus_mod_idemp_l. simpl.
    replace (cp_rank m - 1 + 1) with (cp_rank m) by lia. rewrite (Z.mod_small (cp_rank m)) by done. lia.
Qed.

Lemma neighbours_inverse_witness :
  next_pp_rank (wit_mapping 8 5 2 2 2 1 2 None) = 1
  /\ prev_pp_rank (at_rank (wit_mapping 8 5 2 2 2 1 2 None) 1) = 5.
Proof.
  split; [vm_compute; reflexivity|].
  destruct (neighbours_inverse (wit_mapping 8 5 2 2 2 1 2 None)) as (H & _); [split; simpl; lia|exact H].
Defined.

(** ** Layers *)

(** A partition of the layers the mapping can use. *)
Definition partition_ok (m : Mapping) (num_layers : Z) : Prop :=
  match pp_partition m with
  | None => True
  | Some l => len l = pp_size m /\ zsum id l = num_layers /\ Forall (fun n => 0 <= n) l
  end.

Lemma elem_of_unit_range a n x : 0 <= n -> x ∈ py_range a (a + n) 1 <-> a <= x < a + n.
Proof.
  intros Hn. rewrite elem_of_py_range by lia. rewrite Z.mod_1_r. split; [by intros [? _]|done].
Qed.

Lemma find_stage_ge layer l : forall r e s, find_stage layer r e l = Ok s -> r <= s.
Proof.
  induction l as [|n l IH]; intros r e s H; cbn [find_stage] in H; [done|].
  destruct (layer <? e + n); [by injection H as ->|]. apply IH in H. lia.
Qed.

(** The stage the search finds is the one whose interval holds the layer. *)
Lemma find_stage_spec layer l : forall r e k,
  Forall (fun n => 0 <= n) l -> e <= layer -> (k < length l)%nat ->
  let start := e + zsum id (take k l) in
  start <= layer < start + default 0 (l !! k) <-> find_stage layer r e l = Ok (r + Z.of_nat k).
Proof.
  induction l as [|n l IH]; intros r e k Hpos He Hk; [simpl in Hk; lia|].
  apply Forall_cons in Hpos as [Hn Hpos]. cbn [find_stage]. destruct (Z.ltb_spec layer (e + n)) as [Hlt|Hge].
  - destruct k as [|k]; cbn [take default lookup list_lookup]; [rewrite zsum_nil; simpl; split; [intros _; f_equal; lia|lia]|].
    rewrite zsum_cons. change (id n) with n. split; [|intros [= ?]; lia].
    assert (0 <= zsum id (take k l)); [|lia]. apply zsum_nonneg. intros y Hy.
    exact (proj1 (Forall_forall _ _) (Forall_take _ k _ Hpos) y Hy).
  - destruct k as [|k].
    + cbn [take default lookup list_lookup]. rewrite zsum_nil. split; [simpl; lia|]. intros Hf.
      exfalso. apply find_stage_ge in Hf. lia.
    + cbn [take]. rewrite zsum_cons. simpl in Hk. specialize (IH (r + 1) (e + n) k Hpos Hge ltac:(lia)).
      cbv zeta in IH. change ((n :: l) !! S k) with (l !! k). change (id n) with n.
      replace (e + (n + zsum id (take k l))) with (e + n + zsum id (take k l)) by lia. rewrite IH.
      split; intros H; rewrite H; f_equal; lia.
Qed.

(** The even split: stage [k] holds the layers from [k * base + min k rem]. *)
Lemma even_stage base rem p k layer :
  0 <= base -> 0 <= rem < p -> 0 <= k < p -> 0 <= layer < base * p + rem ->
  let start := k * base + Z.min k rem in
  start <= layer < start + base + (if k <? rem then 1 else 0)
  <-> (if base =? 0 then layer
       else if layer <? (base + 1) * rem then layer / (base + 1)
       else rem + (layer - (base + 1) * rem) / base) = k.
Proof.
  intros Hb Hrem Hk Hl start. unfold start. destruct (Z.eqb_spec base 0) as [->|Hne].
  { destruct (Z.ltb_spec k rem); lia. }
  destruct (Z.ltb_spec layer ((base + 1) * rem)) as [Hlt|Hge].
  - pose proof (Z.div_mod layer (base + 1) ltac:(lia)). pose proof (Z.mod_pos_bound layer (base + 1) ltac:(lia)).
    set (q := layer / (base + 1)) in *. assert (q < rem) by nia. destruct (Z.ltb_spec k rem).
    + rewrite Z.min_l by lia. split; [|intros <-; lia]. intros Hin. nia.
    + rewrite Z.min_r by lia. split; [|lia]. intros Hin. nia.
  - set (y := layer - (base + 1) * rem) in *.
    pose proof (Z.div_mod y base ltac:(lia)). pose proof (Z.mod_pos_bound y base ltac:(lia)).
    set (q := y / base) in *. assert (0 <= q) by nia. destruct (Z.ltb_spec k rem).
    + rewrite Z.min_l by lia. split; [|lia]. intros Hin. unfold y in *. nia.
    + rewrite Z.min_r by lia. split; [|intros <-; unfold y in *; nia]. intros Hin. unfold y in *. nia.
Qed.

Lemma no_negative l : Forall (fun n => 0 <= n) l -> existsb (fun s => s <? 0) l = false.
Proof.
  intros Hpos. apply not_true_iff_false. intros (x & Hx & Hneg%Z.ltb_lt)%existsb_exists.
  rewrite Forall_forall in Hpos. specialize (Hpos x (proj2 (list_elem_of_In _ _) Hx)). lia.
Qed.

(** What holds of the layers of a stage, explicit or even. *)
Definition stage_holds (m : Mapping) (num_layers : Z) : Prop :=
  exists L, pp_layers m num_layers = Ok L
    /\ forall layer, 0 <= layer < num_layers ->
         (layer ∈ L <-> pp_rank_of_layer m layer num_layers = Ok (pp_rank m)).

Lemma layers_partitioned m num_layers l :
  layout_ok m -> pp_partition m = Some l -> partition_ok m num_layers -> stage_holds m num_layers.
Proof.
  intros Hm El Hpart. pose proof (rank_coordinates m Hm) as (_ & Hp & _ & _).
  unfold stage_holds, pp_layers, pp_rank_of_layer, partition_ok, check_partition, has_pp in *. rewrite El in *.
  destruct Hpart as (Hlen & Hsum & Hpos). rewrite Hlen, Hsum, !Z.eqb_refl. cbn [negb raise_if mbind result_bind].
  unfold split_at. rewrite no_negative by done. rewrite py_pos_nonneg by lia.
  set (k := Z.to_nat (pp_rank m)). eexists. split; [done|]. intros layer Hl.
  assert (Hkl : (k < length l)%nat) by lia.
  assert (Hnk : 0 <= default 0 (l !! k)).
  { destruct (l !! k) as [x|] eqn:E; [|done]. rewrite Forall_forall in Hpos. apply Hpos. by eapply list_elem_of_lookup_2. }
  rewrite elem_of_unit_range by done. rewrite (proj2 (Z.ltb_ge layer 0)), (proj2 (Z.leb_gt num_layers layer)) by lia.
  cbn [orb]. pose proof (find_stage_spec layer l 0 0 k Hpos ltac:(lia) Hkl) as Hf. cbv zeta in Hf.
  rewrite !Z.add_0_l in Hf. replace (Z.of_nat k) with (pp_rank m) in Hf by lia.
  destruct (Z.ltb_spec 1 (pp_size m)) as [Hlt|Hge]; [exact Hf|]. cbn [negb]. rewrite Hf.
  assert (pp_rank m = 0) as -> by lia. destruct l as [|x [|]]; simpl in Hlen; try lia. cbn [find_stage].
  rewrite zsum_cons, zsum_nil in Hsum. change (id x) with x in Hsum. by rewrite (proj2 (Z.ltb_lt _ _)) by lia.
Qed.

Lemma layers_even m num_layers :
  layout_ok m -> pp_partition m = None -> 0 <= num_layers -> stage_holds m num_layers.
Proof.
  intros Hm El Hn. pose proof (rank_coordinates m Hm) as (_ & Hp & _ & _). pose proof Hm as [_ Hpp _ _ _].
  unfold stage_holds, pp_layers, pp_rank_of_layer, has_pp, tensor_split. rewrite El, (proj2 (Z.leb_gt (pp_size m) 0)) by lia.
  rewrite py_pos_nonneg, Z2Nat.id by lia. eexists. split; [done|]. intros layer Hl.
  pose proof (Z.div_mod num_layers (pp_size m) ltac:(lia)) as Hdm.
  pose proof (Z.mod_pos_bound num_layers (pp_size m) ltac:(lia)) as Hmb.
  assert (0 <= num_layers / pp_size m) by (apply Z.div_pos; lia).
  match goal with |- context [py_range ?a (?a + ?b + ?c) 1] =>
    replace (a + b + c) with (a + (b + c)) by lia; rewrite (elem_of_unit_range a (b + c)) by (case_match; lia) end.
  pose proof (even_stage (num_layers / pp_size m) (num_layers mod pp_size m) (pp_size m) (pp_rank m) layer) as He.
  cbv zeta in He. rewrite Z.add_assoc, He by lia.
  rewrite (proj2 (Z.ltb_ge layer 0)), (proj2 (Z.leb_gt num_layers layer)) by lia. cbn [orb].
  destruct (Z.ltb_spec 1 (pp_size m)) as [Hlt|Hge]; cbn [negb].
  - repeat case_match; (split; [by intros -> | by intros [= ->]]).
  - assert (pp_size m = 1) as E1 by lia. assert (pp_rank m = 0) as -> by lia. rewrite E1, Z.mod_1_r, Z.div_1_r in *.
    split; [done|]. intros _. destruct (Z.eqb_spec num_layers 0); [lia|].
    rewrite (proj2 (Z.ltb_ge layer _)) by lia. rewrite Z.mul_0_r, Z.sub_0_r, Z.div_small by lia. done.
Qed.

(** The pipeline stages partition the layers, and the stage a layer is said
    to be on is the stage that holds it: for every rank, its layers are exactly
    those the lookup maps to its stage, with an explicit partition or an even
    split. *)
Theorem layers_match_stage m num_layers :
  layout_ok m -> partition_ok m num_layers -> 0 <= num_layers ->
  exists L, pp_layers m num_layers = Ok L
    /\ forall layer, 0 <= layer < num_layers ->
         (layer ∈ L <-> pp_rank_of_layer m layer num_layers = Ok (pp_rank m)).
Proof.
  intros Hm Hpart Hn. destruct (pp_partition m) as [l|] eqn:E.
  - by apply (layers_partitioned m num_layers l).
  - by apply layers_even.
Qed.

Lemma layers_match_stage_witness :
  exists L, pp_layers (wit_mapping 4 2 1 4 1 1 1 None) 10 = Ok L /\ L = [6; 7]
    /\ pp_rank_of_layer (wit_mapping 4 2 1 4 1 1 1 None) 7 10 = Ok 2.
Proof.
  destruct (layers_match_stage (wit_mapping 4 2 1 4 1 1 1 None) 10) as (L & HL & Hin).
  - split; simpl; lia.
  - exact I.
  - lia.
  - exists L. split; [exact HL|]. vm_compute in HL. injection HL as <-. split; [reflexivity|].
    apply (proj1 (Hin 7 ltac:(lia))). right. left.
Defined.

(** ** Dictionaries *)

Lemma resolve_moe_again d w t e c t' e' c' :
  resolve_moe d w t e c = Ok (t', e', c') -> resolve_moe d w t' e' c' = Ok (t', e', c').
Proof.
  unfold resolve_moe. destruct (1 <? d); [by intros [= <- <- <-]|].
  destruct (Z.eqb_spec t (-1)) as [->|Ht], (Z.eqb_spec e (-1)) as [->|He]; cbn [andb].
  - intros (x & Hx & [= <- <- <-])%bind_Ok. cbn [andb Z.eqb]. rewrite Hx.
    rewrite andb_false_r. rewrite Z.mul_1_l, Hx. simpl. by case_match.
  - intros (x & Hx & [= <- <- <-])%bind_Ok. rewrite (proj2 (Z.eqb_neq _ _) He), andb_false_r, Hx. simpl. by case_match.
  - intros (x & Hx & [= <- <- <-])%bind_Ok. rewrite (proj2 (Z.eqb_neq _ _) Ht), Hx. simpl. by case_match.
  - intros [= <- <- <-]. by rewrite (proj2 (Z.eqb_neq _ _) Ht), (proj2 (Z.eqb_neq _ _) He).
Qed.

Lemma resolve_moe_cluster d w t e c t' e' c' : resolve_moe d w t e c = Ok (t', e', c') -> c' = c \/ c' = 1.
Proof.
  unfold resolve_moe. intros H. repeat case_match; try (apply bind_Ok in H as (x & _ & H)); injection H as <- <- <-; auto.
Qed.

(** The attention sizes that were resolved: the fallback, or at least one of them
    was given and the other is a quotient. *)
Lemma resolve_attn_cases ct tp cp t c t' c' :
  resolve_attn ct tp cp t c = Ok (t', c') ->
  (if bool_decide (ct = ULYSSES) then t' = tp * cp /\ c' = 1 else t' = tp /\ c' = cp)
  \/ (c' <> -1 /\ (t' <> -1 \/ c' <> 0)) \/ (t' <> -1 /\ (c' <> -1 \/ t' <> 0)).
Proof.
  unfold resolve_attn, pydiv. intros H.
  destruct (Z.eqb_spec t (-1)) as [Et|Et], (Z.eqb_spec c (-1)) as [Ec|Ec]; cbn [andb] in H.
  - left. case_bool_decide; by injection H as <- <-.
  - right. left. destruct (Z.eqb_spec c 0); [done|]. injection H as <- <-. auto.
  - right. right. destruct (Z.eqb_spec t 0); [done|]. injection H as <- <-. auto.
  - right. left. injection H as <- <-. auto.
Qed.

Lemma resolve_attn_again ct tp cp t c t' c' :
  resolve_attn ct tp cp t c = Ok (t', c') -> t' * c' = tp * cp -> tp * cp <> 0 -> resolve_attn ct tp cp t' c' = Ok (t', c').
Proof.
  intros H%resolve_attn_cases Hprod Hne. unfold resolve_attn, pydiv.
  destruct (Z.eqb_spec t' (-1)) as [Ht|Ht], (Z.eqb_spec c' (-1)) as [Hc|Hc]; cbn [andb]; [| | |done].
  - destruct H as [H|H]; [|lia]. case_bool_decide; destruct H as [-> ->]; done.
  - rewrite (proj2 (Z.eqb_neq _ _)) by lia. simpl. rewrite <- Hprod, Z.div_mul by lia. done.
  - rewrite (proj2 (Z.eqb_neq _ _)) by lia. simpl. rewrite <- Hprod, (Z.mul_comm t'), Z.div_mul by lia. done.
Qed.

Lemma resolve_cp_config_again c t c' : resolve_cp_config c = Ok (t, c') -> resolve_cp_config (Some c') = Ok (t, c').
Proof.
  unfold resolve_cp_config. destruct c as [c|]; [|by intros [= <- <-]].
  destruct (cp_type_entry c) as [[name|mt]|] eqn:E; [|by intros [= <- <-]; rewrite E..].
  destruct (cp_type_of_name (upper name)); [|done]. by intros [= <- <-].
Qed.

Definition without_partition (m : Mapping) : Mapping :=
  {| world_size := world_size m; rank := rank m; gpus_per_node := gpus_per_node m; cp_size := cp_size m;
     cp_config := cp_config m; tp_size := tp_size m; pp_size := pp_size m; pp_partition := None;
     moe_cluster_size := moe_cluster_size m; moe_tp_size := moe_tp_size m; moe_ep_size := moe_ep_size m;
     moe_tp_cluster_ep_size := moe_tp_cluster_ep_size m; attn_tp_size := attn_tp_size m;
     attn_cp_size := attn_cp_size m; enable_attention_dp := enable_attention_dp m;
     enable_lm_head_tp_in_adp := enable_lm_head_tp_in_adp m; dwdp_size := dwdp_size m;
     dwdp_rank := dwdp_rank m |}.

Lemma dict_roundtrip_core a m :
  Mapping_init a = Ok m -> tp_size m * cp_size m <> 0 -> from_dict (to_dict m) = Ok (without_partition m).
Proof.
  unfold from_dict, Mapping_init. intros H Hne.
  apply bind_Ok in H as ([] & Hd1 & H). apply bind_Ok in H as ([] & Hd2 & H).
  apply bind_Ok in H as ([ct cfg] & Hcp & H). apply bind_Ok in H as ([[mt me] mc] & Hmoe & H).
  apply bind_Ok in H as ([at_ ac] & Hattn & H). apply bind_Ok in H as ([] & Hu & H).
  apply bind_Ok in H as ([] & Hw & H). apply bind_Ok in H as ([] & Hm & H).
  apply bind_Ok in H as ([] & Ha & H). apply bind_Ok in H as ([] & Hn & H).
  apply bind_Ok in H as ([] & Hc & H). apply bind_Ok in H as ([] & Hl & H).
  apply bind_Ok in H as ([] & Hr & H). injection H as <-. simpl in *.
  rewrite Hd1. cbn [mbind result_bind]. rewrite Hd2. cbn [mbind result_bind].
  pose proof (resolve_cp_config_again _ _ _ Hcp) as Hcp'. simpl in Hcp'. rewrite Hcp'. cbn [mbind result_bind].
  assert (Hmc : (if mc =? -1 then 1 else mc) = mc).
  { destruct (Z.eqb_spec mc (-1)) as [E|]; [|done]. exfalso. apply resolve_moe_cluster in Hmoe as [Hmc| ->]; [|lia].
    destruct (Z.eqb_spec (a_moe_cluster_size a) (-1)); lia. }
  rewrite Hmc, (resolve_moe_again _ _ _ _ _ _ _ _ Hmoe). cbn [mbind result_bind].
  apply raise_if_Ok in Ha as Ha'. bool_to_prop.
  rewrite (resolve_attn_again _ _ _ _ _ _ _ Hattn Ha' Hne). cbn [mbind result_bind].
  rewrite Hu. cbn [mbind result_bind]. rewrite Hw. cbn [mbind result_bind]. rewrite Hm. cbn [mbind result_bind].
  rewrite Ha. cbn [mbind result_bind]. rewrite Hn. cbn [mbind result_bind]. rewrite Hc. cbn [mbind result_bind].
  rewrite Hl. cbn [mbind result_bind]. rewrite Hr. cbn [mbind result_bind]. done.
Qed.

(** Rebuilding a mapping from its dictionary gives back every derived size,
    the converted context parallelism type included, but always forgets an
    explicit pipeline partition: the result equals the original exactly when
    there was none. *)
Theorem dict_roundtrip a m :
  Mapping_init a = Ok m -> layout_ok m ->
  from_dict (to_dict m) = Ok (without_partition m)
  /\ (mapping_eqb (without_partition m) m = true <-> pp_partition m = None).
Proof.
  intros H [Htp _ Hcp _ _]. split; [apply (dict_roundtrip_core a m H); nia|].
  unfold mapping_eqb, without_partition. simpl. rewrite !Z.eqb_refl, (bool_decide_true (_ = cp_config m)) by done.
  simpl. rewrite !andb_true_r, bool_decide_eq_true. done.
Qed.

Lemma dict_roundtrip_witness :
  Mapping_init (wit_args 2 1 1 2 1 (-1) (Some [3; 5])) = Ok (wit_mapping 2 1 1 2 1 1 1 (Some [3; 5]))
  /\ from_dict (to_dict (wit_mapping 2 1 1 2 1 1 1 (Some [3; 5]))) = Ok (wit_mapping 2 1 1 2 1 1 1 None)
  /\ pp_layers (wit_mapping 2 1 1 2 1 1 1 (Some [3; 5])) 8 <> pp_layers (wit_mapping 2 1 1 2 1 1 1 None) 8.
Proof.
  assert (H : Mapping_init (wit_args 2 1 1 2 1 (-1) (Some [3; 5])) = Ok (wit_mapping 2 1 1 2 1 1 1 (Some [3; 5])))
    by (vm_compute; reflexivity).
  split; [exact H|]. split.
  - apply (dict_roundtrip _ _ H). split; simpl; lia.
  - vm_compute. intros E. discriminate E.
Defined.
