(* ===== verification/LifeCycle.v ===== *)
(** * Life cycles of cache blocks

    [runtime/kv_cache_manager_v2/_life_cycle_registry.py] with the integer and
    range helpers of [_utils.py]: which blocks of a sequence a layer no longer
    reads ([get_stale_range]), which blocks of a prefill chunk may share scratch
    memory ([compute_scratch_range]), and the registry that numbers the distinct
    life cycles of a model.  Block sizes are positive, as [AttnLifeCycle.make]
    asserts. *)

From stdpp Require Import prelude.
From S2P Require Import Prelude.
Local Open Scope Z_scope.

(** ** Integers and half-open ranges *)

Definition div_up (x y : Z) : Z := (x + y - 1) / y.
Definition round_up (x y : Z) : Z := div_up x y * y.
Definition round_down (x y : Z) : Z := x / y * y.

Record HalfOpenRange := mkRange { beg : Z; end_ : Z }.

Definition range_len (r : HalfOpenRange) : Z := Z.max 0 (end_ r - beg r).
Definition in_range (b : Z) (r : HalfOpenRange) : Prop := beg r <= b < end_ r.
Definition intersect (a b : HalfOpenRange) : HalfOpenRange :=
  mkRange (Z.max (beg a) (beg b)) (Z.min (end_ a) (end_ b)).

(** ** Life cycles *)

(** [window_size = None] is full attention. *)
Inductive LifeCycle :=
  | AttnLifeCycle (window_size : option Z) (num_sink_blocks : Z)
  | SsmLifeCycle.

#[export] Instance life_cycle_eq_dec : EqDecision LifeCycle.
Proof. solve_decision. Defined.

Definition AttnLifeCycle_make (window_size num_sink_tokens : option Z) (tokens_per_block : Z)
    : result LifeCycle :=
  _ ← py_assert (0 <? tokens_per_block);
  _ ← py_assert (match window_size with None => true | Some w => 0 <? w end);
  _ ← py_assert (match num_sink_tokens with None => true | Some n => 0 <=? n end);
  _ ← py_assert (match num_sink_tokens with None => true | Some n => n =? 0 end
                 || negb (is_none window_size));
  Ok (AttnLifeCycle window_size (div_up (default 0 num_sink_tokens) tokens_per_block)).

Definition get_stale_range (lc : LifeCycle) (history_length tokens_per_block : Z) : HalfOpenRange :=
  match lc with
  | AttnLifeCycle window_size num_sink_blocks =>
      let num_blocks := div_up history_length tokens_per_block in
      let start := Z.min num_blocks num_sink_blocks in
      match window_size with
      | None => mkRange start start
      | Some w => mkRange start (Z.max start ((history_length + 1 - w) / tokens_per_block))
      end
  | SsmLifeCycle => mkRange 0 (history_length / tokens_per_block)
  end.

Definition compute_scratch_range (lc : LifeCycle)
    (history_length capacity tokens_per_block max_rewind_len : Z) : HalfOpenRange :=
  match lc with
  | AttnLifeCycle (Some _) _ =>
      let non_rewindable_capacity := Z.max 0 (capacity - max_rewind_len) in
      let cap_stale := get_stale_range lc non_rewindable_capacity tokens_per_block in
      let input_range := mkRange (div_up history_length tokens_per_block) (div_up capacity tokens_per_block) in
      intersect cap_stale input_range
  | _ => mkRange 0 0
  end.

(** ** The registry *)

Inductive LayerConfig :=
  | AttentionLayerConfig (sliding_window_size num_sink_tokens : option Z)
  | SsmLayerConfig.

Definition make_life_cycle (layer : LayerConfig) (tokens_per_block : Z) : result LifeCycle :=
  match layer with
  | SsmLayerConfig => Ok SsmLifeCycle
  | AttentionLayerConfig window_size num_sink_tokens =>
      AttnLifeCycle_make window_size num_sink_tokens tokens_per_block
  end.

(** The dictionary from life cycles to ids is kept in insertion order. *)
Record LifeCycleRegistry := {
  _life_cycle_list : list LifeCycle;
  _life_cycle_id_dict : list (LifeCycle * Z);
}.

Definition dict_get (d : list (LifeCycle * Z)) (lc : LifeCycle) : option Z :=
  snd <$> List.find (fun p => bool_decide (p.1 = lc)) d.

Definition register (tokens_per_block : Z) (self : LifeCycleRegistry) (layer : LayerConfig)
    : result LifeCycleRegistry :=
  details ← make_life_cycle layer tokens_per_block;
  match dict_get (_life_cycle_id_dict self) details with
  | Some _ => Ok self
  | None =>
      _ ← py_assert (len (_life_cycle_id_dict self) =? len (_life_cycle_list self));
      let l := _life_cycle_list self ++ [details] in
      Ok {| _life_cycle_list := l; _life_cycle_id_dict := _life_cycle_id_dict self ++ [(details, len l - 1)] |}
  end.

Definition LifeCycleRegistry_init (layers : list LayerConfig) (tokens_per_block : Z)
    : result LifeCycleRegistry :=
  for_each (register tokens_per_block) {| _life_cycle_list := []; _life_cycle_id_dict := [] |} layers.

Definition get_life_cycle (self : LifeCycleRegistry) (id : Z) : result LifeCycle :=
  py_get (_life_cycle_list self) id.

Definition get_id (self : LifeCycleRegistry) (lc : LifeCycle) : result Z :=
  match dict_get (_life_cycle_id_dict self) lc with Some i => Ok i | None => Err KeyError end.

Definition registry_size (self : LifeCycleRegistry) : result Z :=
  _ ← py_assert (len (_life_cycle_list self) =? len (_life_cycle_id_dict self));
  Ok (len (_life_cycle_list self)).

Definition registry_contains (self : LifeCycleRegistry) (lc : LifeCycle) : bool :=
  negb (is_none (dict_get (_life_cycle_id_dict self) lc)).

Definition ssm_life_cycle_id (self : LifeCycleRegistry) : option Z :=
  dict_get (_life_cycle_id_dict self) SsmLifeCycle.

Definition has_ssm (self : LifeCycleRegistry) : bool := registry_contains self SsmLifeCycle.

(** [items()]: ids with their life cycles. *)
Definition items (self : LifeCycleRegistry) : list (Z * LifeCycle) :=
  imap (fun i lc => (Z.of_nat i, lc)) (_life_cycle_list self).

Definition is_attention (lc : LifeCycle) : bool :=
  match lc with AttnLifeCycle _ _ => true | SsmLifeCycle => false end.

Definition attention_life_cycles (self : LifeCycleRegistry) : list (Z * LifeCycle) :=
  List.filter (fun p => is_attention p.2) (items self).

(** ** Arithmetic of blocks *)

Lemma div_up_le x y n : 0 < y -> (div_up x y <= n <-> x <= n * y).
Proof.
  intros Hy. unfold div_up. pose proof (Z.div_mod (x + y - 1) y ltac:(lia)).
  pose proof (Z.mod_pos_bound (x + y - 1) y Hy). split; nia.
Qed.

Lemma lt_div_up x y n : 0 < y -> (n < div_up x y <-> n * y < x).
Proof. intros Hy. pose proof (div_up_le x y n Hy). lia. Qed.

Lemma lt_div x y n : 0 < y -> (n < x / y <-> (n + 1) * y <= x).
Proof.
  intros Hy. pose proof (Z.div_mod x y ltac:(lia)). pose proof (Z.mod_pos_bound x y Hy). split; nia.
Qed.

Lemma in_intersect b r s : in_range b (intersect r s) <-> in_range b r /\ in_range b s.
Proof. unfold in_range, intersect; simpl. lia. Qed.

(** ** Stale blocks *)

(** Position [p] is visible to the token at position [q] of a sliding window:
    the window of [w] tokens that ends with the token itself. *)
Definition visible (w q p : Z) : Prop := q - w < p <= q.

(** Block [b] holds position [p]. *)
Definition in_block (tokens_per_block b p : Z) : Prop :=
  b * tokens_per_block <= p < (b + 1) * tokens_per_block.

Lemma stale_iff w sink h tpb b :
  0 < tpb -> 0 < w -> 0 <= h ->
  in_range b (get_stale_range (AttnLifeCycle (Some w) sink) h tpb)
  <-> sink <= b /\ (b + 1) * tpb <= h + 1 - w.
Proof.
  intros Ht Hw Hh. unfold in_range; simpl.
  rewrite <- lt_div by done. set (e := (h + 1 - w) / tpb).
  assert (He : e <= div_up h tpb).
  { assert (~ div_up h tpb < e); [|lia]. subst e. rewrite lt_div by done.
    pose proof (proj1 (div_up_le h tpb (div_up h tpb) Ht)). nia. }
  lia.
Qed.

Lemma stale_mono lc h h' tpb b :
  0 < tpb -> 0 <= h <= h' ->
  match lc with AttnLifeCycle (Some w) _ => 0 < w | _ => True end ->
  in_range b (get_stale_range lc h tpb) -> in_range b (get_stale_range lc h' tpb).
Proof.
  intros Ht Hh Hw. destruct lc as [[w|] sink|].
  - rewrite !stale_iff by lia. lia.
  - unfold in_range; simpl. lia.
  - unfold in_range; simpl. rewrite !lt_div by done. lia.
Qed.

(** The stale range of a sliding window is exact: a block is stale at a history
    of [h] tokens if and only if it is no sink block and no token from position
    [h] on sees a position of the block.  So nothing that is still read is ever
    given up, and nothing else is kept. *)
Theorem stale_range_exact w sink h tpb b :
  0 < tpb -> 0 < w -> 0 <= h ->
  in_range b (get_stale_range (AttnLifeCycle (Some w) sink) h tpb)
  <-> sink <= b /\ forall p q, in_block tpb b p -> h <= q -> ~ visible w q p.
Proof.
  intros Ht Hw Hh. rewrite stale_iff by done. unfold in_block, visible.
  split; intros [Hs Hb]; (split; [done|]).
  - intros p q Hp Hq. lia.
  - destruct (Z.le_gt_cases ((b + 1) * tpb) (h + 1 - w)) as [|Hgt]; [done|].
    exfalso. apply (Hb ((b + 1) * tpb - 1) (Z.max h ((b + 1) * tpb - 1))); lia.
Qed.

Lemma stale_range_exact_witness :
  in_range 3 (get_stale_range (AttnLifeCycle (Some 64) 1) 200 32)
  <-> 1 <= 3 /\ forall p q, in_block 32 3 p -> 200 <= q -> ~ visible 64 q p.
Proof. apply stale_range_exact; lia. Defined.

(** C37. Scratch blocks are safe to overwrite: a block in the scratch range of a chunk
    holds no token of the history, lies within the capacity, and is not visible,
    outside the sinks, from any position the sequence can continue at after the
    chunk, even when [max_rewind_len] tokens are taken back. *)
Theorem scratch_range_safe lc h cap tpb rewind b :
  0 < tpb -> 0 <= h <= cap -> 0 <= rewind ->
  match lc with AttnLifeCycle (Some w) _ => 0 < w | _ => True end ->
  in_range b (compute_scratch_range lc h cap tpb rewind) ->
  exists w sink, lc = AttnLifeCycle (Some w) sink /\ sink <= b
    /\ (forall p, in_block tpb b p -> h <= p) /\ b * tpb < cap
    /\ forall h' p q, cap - rewind <= h' -> h' <= q -> in_block tpb b p -> ~ visible w q p.
Proof.
  intros Ht Hh Hr Hw Hb.
  destruct lc as [[w|] sink|]; try (unfold in_range in Hb; simpl in Hb; lia).
  exists w, sink. unfold compute_scratch_range in Hb. apply in_intersect in Hb as [Hst Hin].
  apply stale_iff in Hst as [Hs Hst]; [|lia..]. unfold in_range in Hin; simpl in Hin.
  rewrite lt_div_up, div_up_le in Hin by done.
  split; [done|]. split; [done|]. unfold in_block, visible. repeat split; intros; lia.
Qed.

Lemma scratch_range_safe_witness :
  exists w sink, AttnLifeCycle (Some 64) 0 = AttnLifeCycle (Some w) sink /\ sink <= 4
    /\ (forall p, in_block 32 4 p -> 128 <= p) /\ 4 * 32 < 512
    /\ forall h' p q, 512 - 8 <= h' -> h' <= q -> in_block 32 4 p -> ~ visible w q p.
Proof.
  apply (scratch_range_safe (AttnLifeCycle (Some 64) 0) 128 512 32 8 4); [lia..|].
  split; vm_compute; congruence.
Defined.

(** ** The registry numbers the distinct life cycles *)

Definition registry_ok (self : LifeCycleRegistry) : Prop :=
  NoDup (_life_cycle_list self)
  /\ _life_cycle_id_dict self = imap (fun i lc => (lc, Z.of_nat i)) (_life_cycle_list self).

Lemma dict_get_iff l k lc i :
  NoDup l ->
  dict_get (imap (fun j lc => (lc, Z.of_nat (k + j))) l) lc = Some i
  <-> exists j, l !! j = Some lc /\ i = Z.of_nat (k + j).
Proof.
  unfold dict_get. revert k. induction l as [|x l IH]; intros k Hnd; simpl.
  { split; [done|]. intros (j & Hj & _). done. }
  apply NoDup_cons in Hnd as [Hx Hnd]. case_bool_decide as Heq.
  - subst x. simpl. split.
    + intros [= <-]. exists 0%nat. split; [done|lia].
    + intros ([|j] & Hj & ->); [f_equal; lia|]. by apply (list_elem_of_lookup_2 l j) in Hj.
  - replace (imap _ l) with (imap (fun j lc => (lc, Z.of_nat (S k + j))) l)
      by (apply imap_ext; intros; unfold compose; f_equal; lia).
    rewrite IH by done. split.
    + intros (j & Hj & ->). exists (S j). split; [done|lia].
    + intros ([|j] & Hj & ->); [simplify_eq/=|]. exists j. split; [done|lia].
Qed.

Lemma registry_get self lc i :
  registry_ok self ->
  dict_get (_life_cycle_id_dict self) lc = Some i
  <-> exists j, _life_cycle_list self !! j = Some lc /\ i = Z.of_nat j.
Proof. intros [Hnd ->]. apply (dict_get_iff _ 0 lc i Hnd). Qed.

Lemma register_ok tpb self layer self' :
  registry_ok self -> register tpb self layer = Ok self' ->
  registry_ok self'
  /\ exists lc, make_life_cycle layer tpb = Ok lc /\ lc ∈ _life_cycle_list self'
       /\ _life_cycle_list self' ⊆ lc :: _life_cycle_list self
       /\ _life_cycle_list self ⊆ _life_cycle_list self'.
Proof.
  intros Hok Hr. unfold register in Hr. apply bind_Ok in Hr as (lc & Hlc & Hr).
  destruct (dict_get _ lc) as [i|] eqn:Hd.
  - injection Hr as <-. split; [done|]. exists lc.
    apply registry_get in Hd as (j & Hj & _); [|done]. apply list_elem_of_lookup_2 in Hj. set_solver.
  - apply bind_Ok in Hr as (u & _ & Hr). injection Hr as <-. simpl.
    assert (Hlc' : lc ∉ _life_cycle_list self).
    { intros [j Hj]%list_elem_of_lookup_1.
      assert (dict_get (_life_cycle_id_dict self) lc = Some (Z.of_nat j)) as Hs
        by (apply registry_get; eauto). congruence. }
    destruct Hok as [Hnd Heq]. split; [split; simpl|].
    + apply NoDup_app. split; [done|]. split; [|apply NoDup_singleton]. set_solver.
    + rewrite Heq, imap_app. simpl. rewrite length_app. simpl. do 3 f_equal. lia.
    + exists lc. set_solver.
Qed.

(** A registry built from the layers of a model is consistent: its ids are
    [0 .. size - 1], distinct life cycles have distinct ids, looking a life cycle
    up and back gives it again, and the registered life cycles are exactly those
    of the layers. *)
Theorem registry_numbers_life_cycles layers tpb self :
  LifeCycleRegistry_init layers tpb = Ok self ->
  registry_size self = Ok (len (_life_cycle_list self))
  /\ (forall lc i, get_id self lc = Ok i <-> 0 <= i < len (_life_cycle_list self) /\ get_life_cycle self i = Ok lc)
  /\ (forall lc, registry_contains self lc = true <-> exists layer, layer ∈ layers /\ make_life_cycle layer tpb = Ok lc).
Proof.
  intros Hinit. unfold LifeCycleRegistry_init in Hinit.
  assert (registry_ok self
          /\ forall lc, lc ∈ _life_cycle_list self
                <-> exists layer, layer ∈ layers /\ make_life_cycle layer tpb = Ok lc) as [Hok Hmem].
  { revert self Hinit. induction layers as [|layer layers IH] using rev_ind; intros self Hinit.
    { injection Hinit as <-. split; [split; [apply NoDup_nil_2|done]|]. simpl. set_solver. }
    rewrite for_each_snoc in Hinit. apply bind_Ok in Hinit as (self0 & H0 & Hr).
    destruct (IH _ H0) as [Hok0 Hmem0].
    destruct (register_ok _ _ _ _ Hok0 Hr) as (Hok & lc & Hlc & Hin & Hsub1 & Hsub2).
    split; [done|]. intros lc'. split.
    - intros Hl. apply Hsub1, elem_of_cons in Hl as [->|Hl]; [set_solver|].
      apply Hmem0 in Hl as (l & ? & ?). set_solver.
    - intros (l & Hl & Hml). apply elem_of_app in Hl as [Hl|Hl]; [|apply list_elem_of_singleton in Hl as ->; congruence].
      apply Hsub2, Hmem0. eauto. }
  split; [|split].
  - unfold registry_size. destruct Hok as [_ ->]. rewrite length_imap, Z.eqb_refl. done.
  - intros lc i. unfold get_id, get_life_cycle. rewrite py_get_Ok.
    split.
    + intros Hg. destruct (dict_get _ lc) as [i'|] eqn:Hd; [|done]. injection Hg as ->.
      apply registry_get in Hd as (j & Hj & ->); [|done]. pose proof (lookup_lt_Some _ _ _ Hj).
      split; [lia|]. exists j. split; [|done]. rewrite py_pos_nonneg by lia. f_equal. lia.
    + intros [Hi (k & Hk & Hl)]. rewrite py_pos_nonneg in Hk by lia. injection Hk as <-.
      rewrite (proj2 (registry_get self lc i Hok)); [done|]. exists (Z.to_nat i). split; [done|lia].
  - intros lc. unfold registry_contains. rewrite <- Hmem. split.
    + destruct (dict_get _ lc) as [i|] eqn:Hd; [|done]. intros _.
      apply registry_get in Hd as (j & Hj & _); [|done]. by eapply list_elem_of_lookup_2.
    + intros [j Hj]%list_elem_of_lookup_1.
      assert (dict_get (_life_cycle_id_dict self) lc = Some (Z.of_nat j)) as ->
        by (apply registry_get; eauto). done.
Qed.

Definition wit_layers : list LayerConfig :=
  [AttentionLayerConfig None None; AttentionLayerConfig (Some 128) (Some 4); SsmLayerConfig;
   AttentionLayerConfig None (Some 0)].

Lemma registry_numbers_life_cycles_witness : exists self,
  LifeCycleRegistry_init wit_layers 32 = Ok self
  /\ registry_size self = Ok (len (_life_cycle_list self))
  /\ (forall lc i, get_id self lc = Ok i <-> 0 <= i < len (_life_cycle_list self) /\ get_life_cycle self i = Ok lc)
  /\ (forall lc, registry_contains self lc = true
        <-> exists layer, layer ∈ wit_layers /\ make_life_cycle layer 32 = Ok lc).
Proof.
  eexists. split; [vm_compute; reflexivity|].
  apply registry_numbers_life_cycles. vm_compute. reflexivity.
Defined.
