(* ===== verification/Bitset.v ===== *)
(** * The resizable bit set

    [DynamicBitset] of [runtime/kv_cache_manager_v2/_utils.py]: bits in an array
    of 64-bit words with a running count.  It is used for the occupied slots of
    an allocator; the lemmas relate every operation to the membership test
    [test]. *)

From stdpp Require Import prelude.
From S2P Require Import Prelude LifeCycle.
Local Open Scope Z_scope.

Record DynamicBitset := mkBits { _bits : list Z; _num_set_bits : Z }.

Definition ALL_SET_MASK : Z := Z.shiftl 1 64 - 1.

Definition DynamicBitset_init (capacity : Z) : DynamicBitset :=
  mkBits (replicate (Z.to_nat (div_up capacity 64)) 0) 0.

Definition bit_get (self : DynamicBitset) (index : Z) : result bool :=
  w ← py_get (_bits self) (index / 64);
  Ok (negb (Z.land w (Z.shiftl 1 (index mod 64)) =? 0)).

Definition bit_set (self : DynamicBitset) (index : Z) : result DynamicBitset :=
  b ← bit_get self index;
  if b : bool then Ok self
  else
    w ← py_get (_bits self) (index / 64);
    bits ← py_set (_bits self) (index / 64) (Z.lor w (Z.shiftl 1 (index mod 64)));
    Ok (mkBits bits (_num_set_bits self + 1)).

Definition bit_clear (self : DynamicBitset) (index : Z) : result DynamicBitset :=
  b ← bit_get self index;
  if b : bool then
    w ← py_get (_bits self) (index / 64);
    bits ← py_set (_bits self) (index / 64) (Z.land w (Z.lnot (Z.shiftl 1 (index mod 64))));
    Ok (mkBits bits (_num_set_bits self - 1))
  else Ok self.

(** The count is left as it is, also when words are dropped. *)
Definition bit_resize (self : DynamicBitset) (new_capacity : Z) : result DynamicBitset :=
  let extra_elems := div_up new_capacity 64 - len (_bits self) in
  if 0 <? extra_elems then
    Ok (mkBits (_bits self ++ replicate (Z.to_nat extra_elems) 0) (_num_set_bits self))
  else if extra_elems <? 0 then
    let bits := take (Z.to_nat (len (_bits self) + extra_elems)) (_bits self) in
    if negb (new_capacity mod 64 =? 0) then
      w ← py_get bits (-1);
      bits ← py_set bits (-1) (Z.land w (Z.shiftr ALL_SET_MASK (64 - new_capacity mod 64)));
      Ok (mkBits bits (_num_set_bits self))
    else Ok (mkBits bits (_num_set_bits self))
  else Ok self.

(** [any(self._bits[i] != 0 for i in range(a, b))] *)
Fixpoint any_word (bits : list Z) (i : Z) (n : nat) : result bool :=
  match n with
  | O => Ok false
  | S n' => w ← py_get bits i; if negb (w =? 0) then Ok true else any_word bits (i + 1) n'
  end.

Definition any_set (self : DynamicBitset) (start end_ : Z) : result bool :=
  if end_ <=? start then Ok false
  else
    let start_word_mask := Z.shiftl ALL_SET_MASK (start mod 64) in
    let end_word_mask := Z.shiftr ALL_SET_MASK (64 - end_ mod 64) in
    first ← py_get (_bits self) (start / 64);
    hit ← (if start / 64 =? end_ / 64 then
             Ok (negb (Z.land (Z.land start_word_mask end_word_mask) first =? 0))
           else if negb (Z.land start_word_mask first =? 0) then Ok true
           else if end_ mod 64 =? 0 then Ok false
           else last ← py_get (_bits self) (end_ / 64);
                Ok (negb (Z.land end_word_mask last =? 0)));
    if hit : bool then Ok true
    else any_word (_bits self) (start / 64 + 1) (Z.to_nat (end_ / 64 - (start / 64 + 1))).

(** ** Membership *)

Definition test (self : DynamicBitset) (i : Z) : bool :=
  match _bits self !! Z.to_nat (i / 64) with
  | Some w => Z.testbit w (i mod 64)
  | None => false
  end.

(** Every word fits the array's type, and indices below [n] are in range. *)
Definition bits_ok (self : DynamicBitset) (n : Z) : Prop :=
  Forall (fun w => 0 <= w < 2 ^ 64) (_bits self) /\ n <= 64 * len (_bits self).

Lemma land_single w k : 0 <= k -> (Z.land w (Z.shiftl 1 k) =? 0) = negb (Z.testbit w k).
Proof.
  intros Hk. rewrite Z.shiftl_1_l. destruct (Z.testbit w k) eqn:Hb; simpl.
  - apply Z.eqb_neq. intros H0. apply (f_equal (fun z => Z.testbit z k)) in H0.
    rewrite Z.land_spec, Hb, Z.pow2_bits_true, Z.bits_0 in H0 by done. done.
  - apply Z.eqb_eq, Z.bits_inj_iff'. intros i Hi. rewrite Z.land_spec, Z.bits_0.
    destruct (decide (i = k)) as [->|Hne]; [by rewrite Hb|].
    rewrite Z.pow2_bits_false by done. apply andb_false_r.
Qed.

Lemma word_get self n i :
  bits_ok self n -> 0 <= i < n ->
  exists w, _bits self !! Z.to_nat (i / 64) = Some w /\ py_get (_bits self) (i / 64) = Ok w
    /\ 0 <= w < 2 ^ 64.
Proof.
  intros [Hw Hn] Hi. pose proof (Z.div_mod i 64 ltac:(lia)). pose proof (Z.mod_pos_bound i 64 ltac:(lia)).
  destruct (lookup_lt_is_Some_2 (_bits self) (Z.to_nat (i / 64))) as [w Hl]; [lia|].
  exists w. split; [done|]. split.
  - apply py_get_nat in Hl. by rewrite Z2Nat.id in Hl by lia.
  - by eapply Forall_lookup_1 in Hw.
Qed.

Lemma bit_get_test self n i : bits_ok self n -> 0 <= i < n -> bit_get self i = Ok (test self i).
Proof.
  intros Hok Hi. destruct (word_get _ _ _ Hok Hi) as (w & Hl & Hg & _).
  unfold bit_get, test. rewrite Hg, Hl. simpl.
  rewrite land_single by (apply Z.mod_pos_bound; lia). by rewrite negb_involutive.
Qed.

(** Writing one word changes one bit. *)
Lemma update_bits self n i w f c :
  bits_ok self n -> 0 <= i < n -> _bits self !! Z.to_nat (i / 64) = Some w ->
  0 <= f w < 2 ^ 64 ->
  (forall k, 0 <= k -> k <> i mod 64 -> Z.testbit (f w) k = Z.testbit w k) ->
  let self' := mkBits (<[Z.to_nat (i / 64) := f w]> (_bits self)) c in
  bits_ok self' n /\ test self' i = Z.testbit (f w) (i mod 64)
  /\ forall j, 0 <= j -> j <> i -> test self' j = test self j.
Proof.
  intros Hok Hi Hl Hf Hb. pose proof (lookup_lt_Some _ _ _ Hl) as Hlt. destruct Hok as [Hw Hn].
  split; [|split]; unfold test; simpl.
  - split; simpl; [by apply Forall_insert|by rewrite length_insert].
  - by rewrite list_lookup_insert_eq.
  - intros j Hj Hne. destruct (decide (Z.to_nat (j / 64) = Z.to_nat (i / 64))) as [Heq|Hneq].
    + rewrite Heq, list_lookup_insert_eq, Hl by done. apply Hb; [apply Z.mod_pos_bound; lia|].
      assert (0 <= i / 64 /\ 0 <= j / 64) as [? ?] by (split; apply Z.div_pos; lia).
      pose proof (Z.div_mod i 64 ltac:(lia)). pose proof (Z.div_mod j 64 ltac:(lia)).
      assert (j / 64 = i / 64) by lia. intros Hm. lia.
    + by rewrite list_lookup_insert_ne.
Qed.

Lemma bounded_bits w : 0 <= w < 2 ^ 64 <-> 0 <= w /\ forall k, 64 <= k -> Z.testbit w k = false.
Proof.
  split; intros [H0 H]; (split; [done|]).
  - intros k Hk. destruct (decide (w = 0)) as [->|Hne]; [apply Z.bits_0|].
    apply Z.bits_above_log2; [done|]. apply Z.log2_lt_pow2 in H; lia.
  - destruct (decide (w = 0)) as [->|Hne]; [lia|]. apply Z.log2_lt_pow2; [lia|].
    destruct (Z.lt_ge_cases (Z.log2 w) 64) as [|Hge]; [done|].
    pose proof (Z.bit_log2 w ltac:(lia)) as Hb. rewrite H in Hb by done. done.
Qed.

Lemma bit_set_spec self n i :
  bits_ok self n -> 0 <= i < n ->
  exists self', bit_set self i = Ok self' /\ bits_ok self' n
    /\ (forall j, 0 <= j -> test self' j = bool_decide (j = i) || test self j)
    /\ _num_set_bits self' = _num_set_bits self + (if test self i then 0 else 1).
Proof.
  intros Hok Hi. unfold bit_set. rewrite (bit_get_test _ _ _ Hok Hi). simpl.
  destruct (test self i) eqn:Ht.
  { exists self. split; [done|]. split; [done|]. split; [|lia].
    intros j Hj. case_bool_decide; [by subst|done]. }
  destruct (word_get _ _ _ Hok Hi) as (w & Hl & Hg & Hw). rewrite Hg. simpl.
  pose proof (Z.mod_pos_bound i 64 ltac:(lia)) as Hm. pose proof (lookup_lt_Some _ _ _ Hl) as Hlt.
  pose proof (py_set_nat (_bits self) _ (Z.lor w (Z.shiftl 1 (i mod 64))) Hlt) as Hs.
  rewrite Z2Nat.id in Hs by (apply Z.div_pos; lia). rewrite Hs. simpl. eexists. split; [done|].
  destruct (update_bits self n i w (fun w => Z.lor w (Z.shiftl 1 (i mod 64))) (_num_set_bits self + 1) Hok Hi Hl)
    as (Hok' & Hi' & Hrest).
  - apply bounded_bits. split; [apply Z.lor_nonneg; split; [lia|apply Z.shiftl_nonneg; lia]|].
    intros k Hk. rewrite Z.shiftl_1_l, Z.lor_spec, Z.pow2_bits_false by lia.
    apply bounded_bits in Hw as [_ Hw]. by rewrite Hw.
  - intros k Hk Hne. by rewrite Z.shiftl_1_l, Z.lor_spec, Z.pow2_bits_false, orb_false_r.
  - split; [done|]. split; [|simpl; lia]. intros j Hj. case_bool_decide as Hji.
    + subst j. rewrite Hi', Z.shiftl_1_l, Z.lor_spec, Z.pow2_bits_true by lia. apply orb_true_r.
    + by apply Hrest.
Qed.

Lemma bit_clear_spec self n i :
  bits_ok self n -> 0 <= i < n ->
  exists self', bit_clear self i = Ok self' /\ bits_ok self' n
    /\ (forall j, 0 <= j -> test self' j = negb (bool_decide (j = i)) && test self j)
    /\ _num_set_bits self' = _num_set_bits self - (if test self i then 1 else 0).
Proof.
  intros Hok Hi. unfold bit_clear. rewrite (bit_get_test _ _ _ Hok Hi). simpl.
  destruct (test self i) eqn:Ht.
  2: { exists self. split; [done|]. split; [done|]. split; [|lia].
       intros j Hj. case_bool_decide; [by subst|done]. }
  destruct (word_get _ _ _ Hok Hi) as (w & Hl & Hg & Hw). rewrite Hg. simpl.
  pose proof (Z.mod_pos_bound i 64 ltac:(lia)) as Hm. pose proof (lookup_lt_Some _ _ _ Hl) as Hlt.
  pose proof (py_set_nat (_bits self) _ (Z.land w (Z.lnot (Z.shiftl 1 (i mod 64)))) Hlt) as Hs.
  rewrite Z2Nat.id in Hs by (apply Z.div_pos; lia). rewrite Hs. simpl. eexists. split; [done|].
  destruct (update_bits self n i w (fun w => Z.land w (Z.lnot (Z.shiftl 1 (i mod 64))))
              (_num_set_bits self - 1) Hok Hi Hl) as (Hok' & Hi' & Hrest).
  - apply bounded_bits. split; [apply Z.land_nonneg; lia|].
    intros k Hk. rewrite Z.land_spec. apply bounded_bits in Hw as [_ Hw]. by rewrite Hw.
  - intros k Hk Hne. by rewrite Z.shiftl_1_l, Z.land_spec, Z.lnot_spec, Z.pow2_bits_false, andb_true_r.
  - split; [done|]. split; [|simpl; lia]. intros j Hj. case_bool_decide as Hji; simpl.
    + subst j. rewrite Hi', Z.shiftl_1_l, Z.land_spec, Z.lnot_spec, Z.pow2_bits_true by lia.
      apply andb_false_r.
    + by apply Hrest.
Qed.

Lemma test_init n j : test (DynamicBitset_init n) j = false.
Proof.
  unfold test, DynamicBitset_init; simpl. destruct (replicate _ 0 !! _) as [w|] eqn:Hl; [|done].
  apply lookup_replicate in Hl as [-> _]. apply Z.bits_0.
Qed.

Lemma bits_ok_init n : 0 <= n -> bits_ok (DynamicBitset_init n) n.
Proof.
  intros Hn. split; simpl; [apply Forall_replicate; lia|]. rewrite length_replicate.
  assert (n <= div_up n 64 * 64) by (apply div_up_le; lia). lia.
Qed.

Lemma mask_spec k j : 0 <= k < 64 -> 0 <= j ->
  Z.testbit (Z.shiftr ALL_SET_MASK (64 - k)) j = (j <? k).
Proof.
  intros Hk Hj. rewrite Z.shiftr_spec by done.
  change ALL_SET_MASK with (Z.ones 64). destruct (Z.ltb_spec j k).
  - apply Z.ones_spec_low. lia.
  - apply Z.ones_spec_high. lia.
Qed.

Lemma py_pos_last n : (0 < n)%nat -> py_pos n (-1) = Some (n - 1)%nat.
Proof.
  intros Hn. unfold py_pos. rewrite (proj2 (Z.leb_gt 0 (-1))) by lia. simpl.
  rewrite (proj2 (Z.leb_le _ _)) by lia. simpl. f_equal. lia.
Qed.

(** Dropping words, and masking the last one kept, keeps every bit below the new
    capacity. *)
Lemma test_take self c m d j :
  0 <= m -> d = Z.to_nat (div_up m 64) -> (d < length (_bits self))%nat -> 0 <= j < m ->
  test (mkBits (take d (_bits self)) c) j = test self j.
Proof.
  intros Hm -> Hd Hj. unfold test; simpl. rewrite lookup_take_lt; [done|].
  assert (j / 64 < div_up m 64); [|pose proof (Z.div_pos j 64); lia].
  apply lt_div_up; [lia|]. pose proof (Z.mul_div_le j 64). lia.
Qed.

Lemma test_drop self c m d j :
  0 <= m -> d = Z.to_nat (div_up m 64) -> m <= j -> 64 * div_up m 64 <= j ->
  test (mkBits (take d (_bits self)) c) j = false.
Proof.
  intros Hm -> Hj Hd. unfold test; simpl. rewrite lookup_take_ge; [done|].
  assert (div_up m 64 <= j / 64) by (apply Z.div_le_lower_bound; lia). lia.
Qed.

Lemma masked_words self m :
  Forall (fun w => 0 <= w < 2 ^ 64) (_bits self) ->
  0 <= m -> div_up m 64 < len (_bits self) -> m mod 64 <> 0 ->
  (forall j, m <= j -> test self j = false) ->
  let bits := take (Z.to_nat (div_up m 64)) (_bits self) in
  exists self',
    (w ← py_get bits (-1);
     bits ← py_set bits (-1) (Z.land w (Z.shiftr ALL_SET_MASK (64 - m mod 64)));
     Ok (mkBits bits (_num_set_bits self))) = Ok self'
    /\ bits_ok self' m
    /\ (forall j, 0 <= j -> test self' j = test self j)
    /\ _num_set_bits self' = _num_set_bits self.
Proof.
  intros Hw Hm Hlt Hz Hclear. set (d := Z.to_nat (div_up m 64)). intros bits.
  assert (0 < m) by (destruct (decide (m = 0)) as [->|]; [done|lia]).
  assert (Hd : m <= div_up m 64 * 64) by (apply div_up_le; lia).
  assert (Hd2 : div_up m 64 * 64 < m + 64).
  { assert (div_up m 64 - 1 < div_up m 64) as Hlt' by lia. apply lt_div_up in Hlt'; lia. }
  assert (Hdz : Z.of_nat d = div_up m 64) by (unfold d; lia).
  assert (Hlen : length bits = d) by (subst bits; rewrite length_take; lia).
  assert (Hwb : Forall (fun w => 0 <= w < 2 ^ 64) bits) by (by apply Forall_take).
  destruct (lookup_lt_is_Some_2 bits (d - 1)) as [w Hl]; [lia|].
  assert (py_get bits (-1) = Ok w) as ->
    by (apply py_get_Ok; exists (d - 1)%nat; rewrite Hlen, py_pos_last by lia; done).
  simpl. unfold py_set. rewrite Hlen, py_pos_last by lia. simpl. eexists. split; [done|].
  set (w' := Z.land w _).
  assert (Hb : forall k, 0 <= k -> Z.testbit w' k = Z.testbit w k && (k <? m mod 64)).
  { intros k Hk. subst w'. rewrite Z.land_spec, mask_spec; [done| |done].
    apply Z.mod_pos_bound; lia. }
  pose proof (Forall_lookup_1 _ _ _ _ Hwb Hl) as Hwl. simpl in Hwl.
  split; [split; simpl; [apply Forall_insert; [done|]|rewrite length_insert; lia]|].
  { apply bounded_bits. split; [apply Z.land_nonneg; lia|]. intros k Hk.
    apply bounded_bits in Hwl as [_ Hwl]. by rewrite Hb, Hwl by lia. }
  split; [|done]. intros j Hj.
  trans (test (mkBits bits 0) j && (j <? m)).
  { unfold test; simpl. destruct (decide (Z.to_nat (j / 64) = (d - 1)%nat)) as [Hjd|Hjd].
    - rewrite Hjd, list_lookup_insert_eq, Hl by lia.
      rewrite Hb by (apply Z.mod_pos_bound; lia). f_equal.
      pose proof (Z.div_mod j 64 ltac:(lia)). pose proof (Z.div_mod m 64 ltac:(lia)).
      pose proof (Z.mod_pos_bound m 64 ltac:(lia)). pose proof (Z.div_pos j 64 ltac:(lia) ltac:(lia)).
      destruct (Z.ltb_spec (j mod 64) (m mod 64)), (Z.ltb_spec j m); lia.
    - rewrite list_lookup_insert_ne by done. destruct (bits !! Z.to_nat (j / 64)) as [v|] eqn:Hv; [|done].
      apply lookup_lt_Some in Hv. pose proof (Z.div_mod j 64 ltac:(lia)).
      pose proof (Z.mod_pos_bound j 64 ltac:(lia)). pose proof (Z.div_pos j 64 ltac:(lia) ltac:(lia)).
      rewrite (proj2 (Z.ltb_lt j m)) by lia. by rewrite andb_true_r. }
  destruct (Z.ltb_spec j m).
  * rewrite andb_true_r. apply (test_take _ _ m); [lia|done|lia|lia].
  * rewrite andb_false_r, Hclear by lia. done.
Qed.

(** Growing, or cutting off words that hold no bit, keeps the set. *)
Lemma bit_resize_spec self n m :
  bits_ok self n -> 0 <= n <= m -> (forall j, n <= j -> test self j = false) ->
  exists self', bit_resize self m = Ok self' /\ bits_ok self' m
    /\ (forall j, 0 <= j -> test self' j = test self j)
    /\ _num_set_bits self' = _num_set_bits self.
Proof.
  intros [Hw Hn] Hm Hclear. unfold bit_resize.
  assert (Hd : m <= div_up m 64 * 64) by (apply div_up_le; lia).
  assert (Hd2 : div_up m 64 * 64 < m + 64).
  { assert (div_up m 64 - 1 < div_up m 64) as Hlt by lia. apply lt_div_up in Hlt; lia. }
  destruct (0 <? _) eqn:Hx; [|destruct (_ <? 0) eqn:Hy]; bool_to_prop.
  - eexists. split; [done|]. split; [split; simpl|].
    + apply Forall_app. split; [done|]. apply Forall_replicate. lia.
    + rewrite length_app, length_replicate. lia.
    + split; [|done]. intros j Hj. unfold test; simpl.
      destruct (_bits self !! Z.to_nat (j / 64)) as [w|] eqn:Hl.
      * by rewrite (lookup_app_l_Some _ _ _ _ Hl).
      * apply lookup_ge_None in Hl. rewrite lookup_app_r by done.
        destruct (replicate _ 0 !! _) as [w|] eqn:Hr; [|done].
        apply lookup_replicate in Hr as [-> _]. apply Z.bits_0.
  - replace (len (_bits self) + _) with (div_up m 64) by lia.
    set (d := Z.to_nat (div_up m 64)). set (bits := take d (_bits self)).
    assert (Hlen : length bits = d) by (subst bits; rewrite length_take; lia).
    assert (Hwb : Forall (fun w => 0 <= w < 2 ^ 64) bits) by (by apply Forall_take).
    destruct (m mod 64 =? 0) eqn:Hz; bool_to_prop; simpl.
    + eexists. split; [done|]. split; [split; simpl; [done|lia]|]. split; [|done]. intros j Hj.
      destruct (Z.lt_ge_cases j m); [apply (test_take _ _ m); [lia|done|lia|lia]|].
      unfold bits. rewrite (test_drop _ _ m); [rewrite Hclear by lia; done|lia|done|lia|].
      pose proof (Z.div_mod m 64 ltac:(lia)). pose proof (Z.div_mod (m + 64 - 1) 64 ltac:(lia)). lia.
    + apply (masked_words self m); [done|lia|lia|done|]. intros j Hj. apply Hclear. lia.
  - eexists. split; [done|]. split; [split; [done|lia]|]. done.
Qed.

(** ** The range query *)

(** Some index of [start, end) is a member. *)
Definition any_member (self : DynamicBitset) (start end_ : Z) : Prop :=
  exists i, start <= i < end_ /\ test self i = true.

Lemma word_nonzero w : 0 <= w -> (w =? 0) = false <-> exists k, 0 <= k /\ Z.testbit w k = true.
Proof.
  intros Hw. rewrite Z.eqb_neq. split.
  - intros Hne. exists (Z.log2 w). split; [apply Z.log2_nonneg|]. apply Z.bit_log2. lia.
  - intros (k & Hk & Hb) ->. by rewrite Z.bits_0 in Hb.
Qed.

Lemma any_word_spec bits i n :
  0 <= i -> Forall (fun w => 0 <= w < 2 ^ 64) bits -> i + Z.of_nat n <= len bits ->
  exists b, any_word bits i n = Ok b
    /\ (b = true <-> exists k w, i <= k < i + Z.of_nat n /\ bits !! Z.to_nat k = Some w /\ w <> 0).
Proof.
  revert i. induction n as [|n IH]; intros i Hi Hw Hn; simpl.
  { exists false. split; [done|]. split; [done|]. intros (k & w & ? & _). lia. }
  destruct (lookup_lt_is_Some_2 bits (Z.to_nat i)) as [w Hl]; [lia|].
  pose proof (py_get_nat _ _ _ Hl) as Hg. rewrite Z2Nat.id in Hg by done. rewrite Hg. simpl.
  destruct (w =? 0) eqn:Hz; bool_to_prop; simpl.
  - destruct (IH (i + 1)) as (b & -> & Hb); [lia|done|lia|]. exists b. split; [done|]. rewrite Hb.
    split; intros (k & v & Hk & Hv & Hne); exists k, v; (split; [|done]); [lia|].
    destruct (decide (k = i)) as [->|]; [congruence|lia].
  - exists true. split; [done|]. split; [|done]. intros _. exists i, w. split; [lia|done].
Qed.

Lemma start_mask_spec s k : 0 <= s -> 0 <= k ->
  Z.testbit (Z.shiftl ALL_SET_MASK s) k = (s <=? k) && (k <? s + 64).
Proof.
  intros Hs Hk. change ALL_SET_MASK with (Z.ones 64).
  destruct (Z.leb_spec s k); simpl; [|by rewrite Z.shiftl_spec_low].
  rewrite Z.shiftl_spec by done. destruct (Z.ltb_spec k (s + 64)).
  - apply Z.ones_spec_low. lia.
  - apply Z.ones_spec_high. lia.
Qed.

Lemma masked_nonzero m w : 0 <= w ->
  negb (Z.land m w =? 0) = true <-> exists k, 0 <= k /\ Z.testbit m k = true /\ Z.testbit w k = true.
Proof.
  intros Hw. rewrite negb_true_iff, word_nonzero by (apply Z.land_nonneg; lia).
  setoid_rewrite Z.land_spec. setoid_rewrite andb_true_iff. done.
Qed.

Lemma member_word self i w :
  _bits self !! Z.to_nat (i / 64) = Some w -> test self i = Z.testbit w (i mod 64).
Proof. intros Hl. unfold test. by rewrite Hl. Qed.

(** The members of one word, within a range of positions. *)
Lemma members_of_word self n q w (lo hi : Z) :
  bits_ok self n -> 0 <= q -> _bits self !! Z.to_nat q = Some w -> 0 <= lo -> hi <= 64 ->
  any_member self (q * 64 + lo) (q * 64 + hi) <-> exists k, lo <= k < hi /\ Z.testbit w k = true.
Proof.
  intros [Hw _] Hq Hl Hlo Hhi.
  assert (Hdm : forall k, 0 <= k < 64 -> (q * 64 + k) / 64 = q /\ (q * 64 + k) mod 64 = k).
  { intros k Hk. split; [rewrite Z.div_add_l, Z.div_small by lia; lia|].
    rewrite Z.add_comm, Z.mod_add, Z.mod_small by lia. lia. }
  split.
  - intros (i & Hi & Ht). exists (i - q * 64). destruct (Hdm (i - q * 64)) as [Hd Hm]; [lia|].
    replace (q * 64 + (i - q * 64)) with i in * by lia. split; [lia|].
    rewrite <- Hm. rewrite <- Hd in Hl. by rewrite <- (member_word _ _ _ Hl).
  - intros (k & Hk & Hb). exists (q * 64 + k). destruct (Hdm k) as [Hd Hm]; [lia|]. split; [lia|].
    rewrite (member_word _ _ w); [by rewrite Hm|by rewrite Hd].
Qed.

Lemma any_member_split self a b c :
  a <= b <= c -> any_member self a c <-> any_member self a b \/ any_member self b c.
Proof.
  intros H. unfold any_member. split.
  - intros (i & Hi & Ht). destruct (Z.lt_ge_cases i b); [left|right]; exists i; split; (lia || done).
  - intros [(i & Hi & Ht)|(i & Hi & Ht)]; exists i; split; (lia || done).
Qed.

(** The members of whole words. *)
Lemma members_of_words self n q m :
  bits_ok self n -> 0 <= q <= m -> m <= len (_bits self) ->
  any_member self (q * 64) (m * 64)
  <-> exists k w, q <= k < m /\ _bits self !! Z.to_nat k = Some w /\ w <> 0.
Proof.
  intros Hok Hq Hm. split.
  - intros (i & Hi & Ht). pose proof (Z.div_mod i 64 ltac:(lia)).
    pose proof (Z.mod_pos_bound i 64 ltac:(lia)). unfold test in Ht.
    destruct (_bits self !! _) as [w|] eqn:Hl; [|done]. exists (i / 64), w. split; [lia|].
    split; [done|]. intros ->. by rewrite Z.bits_0 in Ht.
  - intros (k & w & Hk & Hl & Hne). destruct Hok as [Hw Hn].
    pose proof (Forall_lookup_1 _ _ _ _ Hw Hl) as Hb. simpl in Hb.
    assert (Hz : (w =? 0) = false) by (by apply Z.eqb_neq).
    apply word_nonzero in Hz as (j & Hj & Hj'); [|lia].
    assert (j < 64).
    { apply bounded_bits in Hb as [_ Hb]. destruct (Z.lt_ge_cases j 64); [done|]. by rewrite Hb in Hj'. }
    destruct (proj2 (members_of_word self n k w 0 64 (conj Hw Hn) ltac:(lia) Hl ltac:(lia) ltac:(lia)))
      as (i & Hi & Ht); [exists j; split; [lia|done]|].
    exists i. split; [nia|done].
Qed.

(** The two masked words at the ends of the range. *)
Lemma start_word self n q w s :
  bits_ok self n -> 0 <= q -> _bits self !! Z.to_nat q = Some w -> 0 <= s < 64 ->
  negb (Z.land (Z.shiftl ALL_SET_MASK s) w =? 0) = true <-> any_member self (q * 64 + s) (q * 64 + 64).
Proof.
  intros Hok Hq Hl Hs. pose proof (Forall_lookup_1 _ _ _ _ (proj1 Hok) Hl) as Hw. simpl in Hw.
  rewrite (members_of_word self n q w), masked_nonzero by (done || lia).
  apply bounded_bits in Hw as [Hw Hb]. split.
  - intros (k & Hk & Hm & Ht). rewrite start_mask_spec in Hm by lia. exists k. split; [|done].
    destruct (Z.lt_ge_cases k 64); [lia|]. by rewrite Hb in Ht.
  - intros (k & Hk & Ht). exists k. rewrite start_mask_spec by lia. split; [lia|]. split; [lia|done].
Qed.

Lemma end_word self n q w e :
  bits_ok self n -> 0 <= q -> _bits self !! Z.to_nat q = Some w -> 0 <= e < 64 ->
  negb (Z.land (Z.shiftr ALL_SET_MASK (64 - e)) w =? 0) = true <-> any_member self (q * 64) (q * 64 + e).
Proof.
  intros Hok Hq Hl He. pose proof (Forall_lookup_1 _ _ _ _ (proj1 Hok) Hl) as Hw. simpl in Hw.
  replace (q * 64) with (q * 64 + 0) at 1 by lia.
  rewrite (members_of_word self n q w), masked_nonzero by (done || lia). split.
  - intros (k & Hk & Hm & Ht). rewrite mask_spec in Hm by lia. exists k. split; [lia|done].
  - intros (k & Hk & Ht). exists k. rewrite mask_spec by lia. split; [lia|]. split; [lia|done].
Qed.

Lemma one_word self n q w s e :
  bits_ok self n -> 0 <= q -> _bits self !! Z.to_nat q = Some w -> 0 <= s < 64 -> 0 <= e < 64 ->
  negb (Z.land (Z.land (Z.shiftl ALL_SET_MASK s) (Z.shiftr ALL_SET_MASK (64 - e))) w =? 0) = true
  <-> any_member self (q * 64 + s) (q * 64 + e).
Proof.
  intros Hok Hq Hl Hs He. pose proof (Forall_lookup_1 _ _ _ _ (proj1 Hok) Hl) as Hw. simpl in Hw.
  rewrite (members_of_word self n q w), masked_nonzero by (done || lia). split.
  - intros (k & Hk & Hb & Ht). rewrite Z.land_spec, start_mask_spec, mask_spec in Hb by lia.
    exists k. split; [lia|done].
  - intros (k & Hk & Ht). exists k. rewrite Z.land_spec, start_mask_spec, mask_spec by lia.
    split; [lia|]. split; [lia|done].
Qed.

(** The word-wise range query agrees with looking at every index of the range. *)
Theorem any_set_exact self n start end_ :
  bits_ok self n -> 0 <= start -> end_ <= n ->
  exists b, any_set self start end_ = Ok b /\ (b = true <-> any_member self start end_).
Proof.
  intros Hok Hs He. unfold any_set. destruct (end_ <=? start) eqn:Hle; bool_to_prop.
  { exists false. split; [done|]. split; [done|]. intros (i & Hi & _). lia. }
  pose proof (Z.div_mod start 64 ltac:(lia)) as Ds. pose proof (Z.mod_pos_bound start 64 ltac:(lia)) as Ms.
  pose proof (Z.div_mod end_ 64 ltac:(lia)) as De. pose proof (Z.mod_pos_bound end_ 64 ltac:(lia)) as Me.
  destruct (word_get self n start Hok ltac:(lia)) as (w & Hl & Hg & Hw).
  set (qs := start / 64) in *. set (s := start mod 64) in *.
  set (qe := end_ / 64) in *. set (e := end_ mod 64) in *.
  assert (Hqs : 0 <= qs) by lia. pose proof (proj2 Hok) as Hn. rewrite Hg. simpl.
  destruct (any_word_spec (_bits self) (qs + 1) (Z.to_nat (qe - (qs + 1)))) as (mid & Hmid & Hmb);
    [lia|apply Hok|lia|].
  destruct (qs =? qe) eqn:Hq; bool_to_prop.
  - simpl. replace (Z.to_nat (qe - (qs + 1))) with 0%nat by lia.
    pose proof (one_word self n qs w s e Hok Hqs Hl Ms Me) as Hh.
    replace (qs * 64 + s) with start in Hh by lia. replace (qs * 64 + e) with end_ in Hh by lia.
    destruct (negb _); eexists; (split; [done|]); rewrite <- Hh; done.
  - pose proof (any_member_split self start (qs * 64 + 64) end_ ltac:(lia)) as Hall.
    rewrite (any_member_split self (qs * 64 + 64) (qe * 64) end_) in Hall by lia.
    pose proof (start_word self n qs w s Hok Hqs Hl Ms) as Hst.
    replace (qs * 64 + s) with start in Hst by lia.
    pose proof (members_of_words self n (qs + 1) qe Hok ltac:(lia) ltac:(lia)) as Hmw.
    replace ((qs + 1) * 64) with (qs * 64 + 64) in Hmw by lia.
    replace (qs + 1 + Z.of_nat (Z.to_nat (qe - (qs + 1)))) with qe in Hmb by lia.
    rewrite <- Hmw in Hmb. rewrite <- Hst, <- Hmb in Hall. rewrite Hmid.
    destruct (negb (Z.land (Z.shiftl ALL_SET_MASK s) w =? 0)); [eexists; split; [done|tauto]|].
    destruct (e =? 0) eqn:Hz; bool_to_prop; simpl.
    + exists mid. split; [done|]. rewrite Hall. split; [tauto|]. intros [|[|(i & Hi & _)]]; [done|done|lia].
    + destruct (word_get self n (end_ - 1) Hok ltac:(lia)) as (v & Hlv & Hgv & _).
      replace ((end_ - 1) / 64) with qe in * by (apply (Z.div_unique _ _ _ (e - 1)); lia).
      rewrite Hgv. simpl. pose proof (end_word self n qe v e Hok ltac:(lia) Hlv Me) as Hen.
      replace (qe * 64 + e) with end_ in Hen by lia. rewrite <- Hen in Hall.
      destruct (negb (Z.land _ v =? 0)); eexists; (split; [done|]); rewrite Hall; intuition done.
Qed.

Lemma any_set_exact_witness : exists b,
  any_set (mkBits [2 ^ 63; 0; 5] 3) 64 129 = Ok b
  /\ (b = true <-> any_member (mkBits [2 ^ 63; 0; 5] 3) 64 129).
Proof. apply (any_set_exact _ 192); [split; [repeat constructor; lia|simpl; lia]|lia|lia]. Defined.
