(* ===== verification/SlotAllocator.v ===== *)
(** * The slot allocator

    [Slot] and [SlotAllocator] of
    [runtime/kv_cache_manager_v2/_storage/_core.py]: memory slots of a pool are
    handed out, recycled once the device work on them is done, and the pool can
    be grown, or shrunk in two steps while slots are still in use.

    An event is [None] when it is [CachedCudaEvent.NULL] and a handle otherwise;
    which handles are complete when a method runs is an argument of the method.
    In every reachable state a method that raises does so before it changes the
    allocator, so an [Err] stands for the state before the call.  The checks that run in debug mode only
    ([NDEBUG]) are not part of the methods: [check_holds] shows that they never
    fail. *)

From stdpp Require Import prelude gmap.
From S2P Require Import Prelude LifeCycle Bitset.
Local Open Scope Z_scope.

Definition Event : Type := option Z.

(** What [query_complete] answers: the null event is always complete. *)
Definition query_complete (done_ : Z -> bool) (ev : Event) : bool :=
  match ev with None => true | Some e => done_ e end.

Record Slot := mkSlot { _slot_id : option Z; ready_event : Event }.

Definition has_valid_slot (s : Slot) : bool := negb (is_none (_slot_id s)).

Definition slot_id (s : Slot) : result Z :=
  match _slot_id s with Some i => Ok i | None => Err AssertionError end.

(** [self.set_slot(slot)]: the slot moves from [slot] to [self]; the pair is
    [self] and [slot] afterwards. *)
Definition set_slot (self slot : Slot) : result (Slot * Slot) :=
  if has_valid_slot self then Err LogicError
  else i ← slot_id slot; Ok (mkSlot (Some i) (ready_event slot), mkSlot None None).

Definition move_to_new_slot (self : Slot) : result (Slot * Slot) := set_slot (mkSlot None None) self.

Record SlotAllocator := mkAlloc {
  _capacity : Z;
  _num_active_slots : Z;
  _recycled_slots : list Slot;
  _num_ready_recycled_slots : Z;
  _occupied_mask : DynamicBitset;
  _target_capacity : Z;
  _overflow_slots : list Slot;
}.

Definition SlotAllocator_init (capacity : Z) : SlotAllocator :=
  mkAlloc capacity 0 [] 0 (DynamicBitset_init capacity) capacity [].

Definition num_free_slots (self : SlotAllocator) : Z :=
  len (_recycled_slots self) + Z.max (_target_capacity self - _num_active_slots self) 0.

Definition num_occupied_slots (self : SlotAllocator) : Z := _num_set_bits (_occupied_mask self).

Definition num_slots (self : SlotAllocator) : Z := _capacity self.

Definition with_recycled (self : SlotAllocator) (slots : list Slot) (num_ready : Z) : SlotAllocator :=
  mkAlloc (_capacity self) (_num_active_slots self) slots num_ready (_occupied_mask self)
          (_target_capacity self) (_overflow_slots self).

Definition with_mask (self : SlotAllocator) (mask : DynamicBitset) : SlotAllocator :=
  mkAlloc (_capacity self) (_num_active_slots self) (_recycled_slots self) (_num_ready_recycled_slots self)
          mask (_target_capacity self) (_overflow_slots self).

(** The loop over the slots that are not known to be ready, in queue order. *)
Fixpoint scrub (done_ : Z -> bool) (slots : list Slot) : list Slot * Z :=
  match slots with
  | [] => ([], 0)
  | s :: rest =>
      if query_complete done_ (ready_event s) then
        let '(rest, n) := scrub done_ rest in (mkSlot (_slot_id s) None :: rest, n + 1)
      else (slots, 0)
  end.

Definition _scrub_events_impl (done_ : Z -> bool) (slots : list Slot) (num_ready : Z)
    : result (list Slot * Z) :=
  _ ← py_assert (num_ready <=? len slots);
  let '(rest, n) := scrub done_ (drop (Z.to_nat num_ready) slots) in
  Ok (take (Z.to_nat num_ready) slots ++ rest, num_ready + n).

Definition _scrub_events (done_ : Z -> bool) (self : SlotAllocator) : result SlotAllocator :=
  '(slots, n) ← _scrub_events_impl done_ (_recycled_slots self) (_num_ready_recycled_slots self);
  Ok (with_recycled self slots n).

Definition popleft (l : list Slot) : result (Slot * list Slot) :=
  match l with [] => Err IndexError | s :: l' => Ok (s, l') end.

Definition pick_slot (self : SlotAllocator) : result (Slot * SlotAllocator) :=
  if 0 <? _num_ready_recycled_slots self then
    _ ← py_assert (negb (bool_decide (_recycled_slots self = [])));
    '(slot, rest) ← popleft (_recycled_slots self);
    _ ← py_assert (has_valid_slot slot);
    _ ← py_assert (is_none (ready_event slot));
    Ok (slot, with_recycled self rest (_num_ready_recycled_slots self - 1))
  else if _num_active_slots self <? Z.min (num_slots self) (_target_capacity self) then
    Ok (mkSlot (Some (_num_active_slots self)) None,
        mkAlloc (_capacity self) (_num_active_slots self + 1) (_recycled_slots self)
                (_num_ready_recycled_slots self) (_occupied_mask self) (_target_capacity self)
                (_overflow_slots self))
  else
    '(slot, rest) ← popleft (_recycled_slots self);
    _ ← py_assert (has_valid_slot slot);
    Ok (slot, with_recycled self rest (_num_ready_recycled_slots self)).

Definition allocate (done_ : Z -> bool) (self : SlotAllocator) : result (Slot * SlotAllocator) :=
  if num_free_slots self =? 0 then Err OutOfPagesError
  else
    self ← _scrub_events done_ self;
    '(slot, self) ← pick_slot self;
    i ← slot_id slot;
    mask ← bit_set (_occupied_mask self) i;
    Ok (slot, with_mask self mask).

Fixpoint allocate_times (done_ : Z -> bool) (n : nat) (self : SlotAllocator)
    : result (list Slot * SlotAllocator) :=
  match n with
  | O => Ok ([], self)
  | S n' =>
      '(slot, self) ← allocate done_ self;
      '(slots, self) ← allocate_times done_ n' self;
      Ok (slot :: slots, self)
  end.

Definition allocate_multiple (done_ : Z -> bool) (self : SlotAllocator) (n : Z)
    : result (list Slot * SlotAllocator) :=
  if num_free_slots self <? n then Err OutOfPagesError
  else allocate_times done_ (Z.to_nat n) self.

(** The caller's slot object is emptied, also when the slot is refused. *)
Definition release (done_ : Z -> bool) (self : SlotAllocator) (slot : Slot) : result SlotAllocator :=
  _ ← py_assert (has_valid_slot slot);
  '(slot, _) ← move_to_new_slot slot;
  i ← slot_id slot;
  occupied ← (if _capacity self <=? i then Ok false else bit_get (_occupied_mask self) i);
  if negb occupied then Err LogicError
  else
    let self :=
      if i <? _target_capacity self
      then with_recycled self (_recycled_slots self ++ [slot]) (_num_ready_recycled_slots self)
      else mkAlloc (_capacity self) (_num_active_slots self) (_recycled_slots self)
                   (_num_ready_recycled_slots self) (_occupied_mask self) (_target_capacity self)
                   (_overflow_slots self ++ [slot]) in
    mask ← bit_clear (_occupied_mask self) i;
    _scrub_events done_ (with_mask self mask).

Definition expand (self : SlotAllocator) (new_num_slots : Z) : result SlotAllocator :=
  _ ← py_assert (_target_capacity self =? _capacity self);
  let old_num_slots := _capacity self in
  _ ← py_assert (old_num_slots <? new_num_slots);
  mask ← bit_resize (_occupied_mask self) new_num_slots;
  Ok (mkAlloc new_num_slots (_num_active_slots self) (_recycled_slots self)
              (_num_ready_recycled_slots self) mask new_num_slots (_overflow_slots self)).

(** The loop of [prepare_for_shrink]: slots kept, how many of them are ready,
    slots out of range. *)
Fixpoint split_slots (new_num_slots num_ready : Z) (i : Z) (slots : list Slot)
    : result (list Slot * Z * list Slot) :=
  match slots with
  | [] => Ok ([], 0, [])
  | s :: rest =>
      id ← slot_id s;
      '(kept, ready, overflow) ← split_slots new_num_slots num_ready (i + 1) rest;
      if id <? new_num_slots
      then Ok (s :: kept, (if i <? num_ready then 1 else 0) + ready, overflow)
      else Ok (kept, ready, s :: overflow)
  end.

Definition prepare_for_shrink (self : SlotAllocator) (new_num_slots : Z) : result SlotAllocator :=
  _ ← py_assert (_target_capacity self =? _capacity self);
  _ ← py_assert (new_num_slots <? _capacity self);
  '(kept, ready, overflow) ←
    split_slots new_num_slots (_num_ready_recycled_slots self) 0 (_recycled_slots self);
  Ok (mkAlloc (_capacity self) (_num_active_slots self) kept ready (_occupied_mask self)
              new_num_slots (_overflow_slots self ++ overflow)).

Definition shrink_in_progress (self : SlotAllocator) : result bool :=
  _ ← py_assert (_target_capacity self <=? _capacity self);
  Ok (_target_capacity self <? _capacity self).

(** Waiting for the events of the overflow slots has no effect on the
    allocator. *)
Definition finish_shrink (done_ : Z -> bool) (self : SlotAllocator) : result (bool * SlotAllocator) :=
  let expected_overflow := Z.max 0 (_num_active_slots self - _target_capacity self) in
  in_progress ← shrink_in_progress self;
  if in_progress && (len (_overflow_slots self) =? expected_overflow) then
    ids ← mapM slot_id (_overflow_slots self);
    _ ← py_assert (bool_decide (NoDup ids));
    self ← _scrub_events done_
             (mkAlloc (_target_capacity self) (Z.min (_num_active_slots self) (_target_capacity self))
                      (_recycled_slots self) (_num_ready_recycled_slots self) (_occupied_mask self)
                      (_target_capacity self) []);
    Ok (true, self)
  else Err RuntimeError.

Definition get_slots_blocking_shrink (self : SlotAllocator) : result (list Z) :=
  for_each (fun acc id => b ← bit_get (_occupied_mask self) id;
                          Ok (if b : bool then acc ++ [id] else acc))
           [] ((fun k => _target_capacity self + Z.of_nat k)
               <$> seq 0 (Z.to_nat (_capacity self - _target_capacity self))).

(** The debug check. *)
Definition _check (self : SlotAllocator) : result bool :=
  if negb (_num_active_slots self <=? _capacity self) then Ok false
  else if negb (_target_capacity self <=? _capacity self) then Ok false
  else
    in_progress ← shrink_in_progress self;
    if negb (in_progress || (len (_overflow_slots self) =? 0)) then Ok false
    else
      ids ← mapM slot_id (_overflow_slots self);
      if negb (forallb (fun i => (_target_capacity self <=? i) && (i <? _capacity self)) ids) then Ok false
      else Ok (len (_recycled_slots self) + len (_overflow_slots self) + num_occupied_slots self
               =? _num_active_slots self).

(** [_synchronize] polls until every recycled slot is ready: [polls] are the
    states of the device it sees. *)
Fixpoint _synchronize (polls : list (Z -> bool)) (self : SlotAllocator) : result SlotAllocator :=
  if _num_ready_recycled_slots self =? len (_recycled_slots self) then Ok self
  else
    match polls with
    | [] => Err OutOfFuel
    | done_ :: polls' => self ← _scrub_events done_ self; _synchronize polls' self
    end.

(** ** Specification

    What the allocator is to its clients: a number of slots, a target below it
    while a shrink is in progress, and the set of slots handed out. *)

Record Pool := mkPool { p_capacity : Z; p_target : Z; p_held : gset Z }.

(** The slots that can still be handed out. *)
Definition room (p : Pool) : Z :=
  p_target p - len (filter (fun i => i < p_target p) (elements (p_held p))).

Inductive Op :=
  | Allocate
  | AllocateMultiple (n : Z)
  | Release (slot : Slot)
  | Expand (n : Z)
  | PrepareForShrink (n : Z)
  | FinishShrink.

Inductive Out := Slots (ids : list Z) | Done | Raised (e : exn).

(** Sizes are not negative, and neither are the ids of released slots. *)
Definition op_ok (op : Op) : Prop :=
  match op with
  | Release s => forall i, _slot_id s = Some i -> 0 <= i
  | AllocateMultiple n | PrepareForShrink n => 0 <= n
  | _ => True
  end.

Definition fresh_ids (p : Pool) (ids : list Z) : Prop :=
  NoDup ids /\ forall i, i ∈ ids -> 0 <= i < p_target p /\ i ∉ p_held p.

Definition give (p : Pool) (ids : list Z) : Pool :=
  mkPool (p_capacity p) (p_target p) (list_to_set ids ∪ p_held p).

Inductive pool_step (p : Pool) : Op -> Out -> Pool -> Prop :=
  | step_allocate i : fresh_ids p [i] -> pool_step p Allocate (Slots [i]) (give p [i])
  | step_full : room p = 0 -> pool_step p Allocate (Raised OutOfPagesError) p
  | step_multiple n ids : fresh_ids p ids -> len ids = n ->
      pool_step p (AllocateMultiple n) (Slots ids) (give p ids)
  | step_too_many n : room p < n -> pool_step p (AllocateMultiple n) (Raised OutOfPagesError) p
  | step_release i ev : i ∈ p_held p ->
      pool_step p (Release (mkSlot (Some i) ev)) Done (mkPool (p_capacity p) (p_target p) (p_held p ∖ {[i]}))
  | step_not_held i ev : i ∉ p_held p ->
      pool_step p (Release (mkSlot (Some i) ev)) (Raised LogicError) p
  | step_empty_slot ev : pool_step p (Release (mkSlot None ev)) (Raised AssertionError) p
  | step_expand n : p_target p = p_capacity p -> p_capacity p < n ->
      pool_step p (Expand n) Done (mkPool n n (p_held p))
  | step_no_expand n : p_target p <> p_capacity p \/ n <= p_capacity p ->
      pool_step p (Expand n) (Raised AssertionError) p
  | step_prepare n : p_target p = p_capacity p -> n < p_capacity p ->
      pool_step p (PrepareForShrink n) Done (mkPool (p_capacity p) n (p_held p))
  | step_no_prepare n : p_target p <> p_capacity p \/ p_capacity p <= n ->
      pool_step p (PrepareForShrink n) (Raised AssertionError) p
  | step_finish : p_target p < p_capacity p -> (forall i, i ∈ p_held p -> i < p_target p) ->
      pool_step p FinishShrink Done (mkPool (p_target p) (p_target p) (p_held p))
  | step_no_finish : p_target p = p_capacity p \/ (exists i, i ∈ p_held p /\ p_target p <= i) ->
      pool_step p FinishShrink (Raised RuntimeError) p.

(** The allocator's answer to a call, with its state afterwards. *)
Definition run_op (done_ : Z -> bool) (op : Op) (self : SlotAllocator) : Out * SlotAllocator :=
  match op with
  | Allocate => match allocate done_ self with
                | Ok (s, self') => (Slots (omap _slot_id [s]), self') | Err e => (Raised e, self) end
  | AllocateMultiple n => match allocate_multiple done_ self n with
                          | Ok (ss, self') => (Slots (omap _slot_id ss), self') | Err e => (Raised e, self) end
  | Release s => match release done_ self s with Ok self' => (Done, self') | Err e => (Raised e, self) end
  | Expand n => match expand self n with Ok self' => (Done, self') | Err e => (Raised e, self) end
  | PrepareForShrink n =>
      match prepare_for_shrink self n with Ok self' => (Done, self') | Err e => (Raised e, self) end
  | FinishShrink => match finish_shrink done_ self with
                    | Ok (_, self') => (Done, self') | Err e => (Raised e, self) end
  end.

(** ** The simulation relation *)

(** The queues: every id below the high-water mark is recycled, out of range or
    handed out, and the recycled slots known to be ready come first. *)
Record queues_ok (self : SlotAllocator) (rids oids : list Z) (held : gset Z) : Prop := {
  q_range : 0 <= _target_capacity self <= _capacity self /\ 0 <= _num_active_slots self <= _capacity self;
  q_rids : _slot_id <$> _recycled_slots self = Some <$> rids;
  q_oids : _slot_id <$> _overflow_slots self = Some <$> oids;
  q_below : Forall (fun i => i < _target_capacity self) rids;
  q_above : Forall (fun i => _target_capacity self <= i) oids;
  q_ids : rids ++ oids ++ elements held ≡ₚ seqZ 0 (_num_active_slots self);
  q_ready : 0 <= _num_ready_recycled_slots self <= len (_recycled_slots self);
  q_null : Forall (fun s => ready_event s = None)
             (take (Z.to_nat (_num_ready_recycled_slots self)) (_recycled_slots self));
}.

Record mask_ok (mask : DynamicBitset) (n : Z) (held : gset Z) : Prop := {
  m_bits : bits_ok mask n;
  m_test : forall i, 0 <= i -> test mask i = bool_decide (i ∈ held);
  m_count : _num_set_bits mask = Z.of_nat (size held);
}.

Definition refines (self : SlotAllocator) (p : Pool) : Prop :=
  _capacity self = p_capacity p /\ _target_capacity self = p_target p
  /\ mask_ok (_occupied_mask self) (_capacity self) (p_held p)
  /\ exists rids oids, queues_ok self rids oids (p_held p).

(** ** Events *)

Lemma scrub_spec done_ l l' n :
  scrub done_ l = (l', n) ->
  _slot_id <$> l' = _slot_id <$> l /\ 0 <= n <= len l
  /\ Forall (fun s => ready_event s = None) (take (Z.to_nat n) l').
Proof.
  revert l' n. induction l as [|s l IH]; intros l' n Hs; simpl in Hs.
  { injection Hs as <- <-. split; [done|]. split; [simpl; lia|constructor]. }
  destruct (query_complete done_ (ready_event s)).
  - destruct (scrub done_ l) as [rest k] eqn:Hr. injection Hs as <- <-.
    destruct (IH _ _ eq_refl) as (Hid & Hk & Hn).
    split; [by rewrite !fmap_cons, Hid|]. split; [simpl; lia|].
    replace (Z.to_nat (k + 1)) with (S (Z.to_nat k)) by lia. simpl. by constructor.
  - injection Hs as <- <-. split; [done|]. split; [simpl; lia|constructor].
Qed.

Lemma scrub_refines done_ self rids oids held :
  queues_ok self rids oids held ->
  exists self', _scrub_events done_ self = Ok self' /\ queues_ok self' rids oids held
    /\ _occupied_mask self' = _occupied_mask self /\ _capacity self' = _capacity self
    /\ _target_capacity self' = _target_capacity self /\ _num_active_slots self' = _num_active_slots self.
Proof.
  intros [Hr Hrid Ho Hb Ha Hid [Hq0 Hq1] Hn]. unfold _scrub_events, _scrub_events_impl.
  rewrite (proj2 (Z.leb_le _ _)) by done. simpl.
  set (k := Z.to_nat (_num_ready_recycled_slots self)) in *.
  destruct (scrub done_ _) as [rest n] eqn:Hs. simpl.
  apply scrub_spec in Hs as (Hids & Hn0 & Hnull). rewrite length_drop in Hn0.
  assert (Hlr : length rest = (length (_recycled_slots self) - k)%nat).
  { apply (f_equal length) in Hids. by rewrite !length_fmap, length_drop in Hids. }
  eexists. split; [done|]. split; [|done]. split; simpl; try done.
  - by rewrite fmap_app, Hids, <- fmap_app, take_drop.
  - rewrite length_app, length_take, Hlr. lia.
  - replace (Z.to_nat (_num_ready_recycled_slots self + n)) with (k + Z.to_nat n)%nat by lia.
    rewrite take_app_add'; [|rewrite length_take; lia]. by apply Forall_app.
Qed.

(** ** Counting *)

Lemma count_below (a : nat) t : 0 <= t ->
  len (filter (fun i => i < t) (seqZ 0 (Z.of_nat a))) = Z.min (Z.of_nat a) t.
Proof.
  intros Ht. induction a as [|a IH]; [rewrite seqZ_nil by lia; simpl; lia|].
  rewrite seqZ_S, filter_app, length_app, Nat2Z.inj_add, IH, filter_cons, filter_nil.
  case_decide; simpl; lia.
Qed.

Lemma queue_lengths self rids oids held :
  queues_ok self rids oids held ->
  length (_recycled_slots self) = length rids /\ length (_overflow_slots self) = length oids.
Proof.
  intros [_ Hr Ho _ _ _ _ _]. apply (f_equal length) in Hr, Ho. by rewrite !length_fmap in *.
Qed.

(** What is below the target is recycled or handed out. *)
Lemma below_target self rids oids held :
  queues_ok self rids oids held ->
  len rids + len (filter (fun i => i < _target_capacity self) (elements held))
  = Z.min (_num_active_slots self) (_target_capacity self).
Proof.
  intros [Hr _ _ Hb Ha Hid _ _].
  rewrite <- (Z2Nat.id (_num_active_slots self)), <- count_below, Z2Nat.id by lia.
  rewrite <- Hid, !filter_app, (filter_all _ rids), (filter_none _ oids) by
    (done || by eapply Forall_impl; [done|simpl; lia]).
  simpl. rewrite length_app. lia.
Qed.

Lemma free_is_room self p rids oids :
  _target_capacity self = p_target p -> queues_ok self rids oids (p_held p) ->
  num_free_slots self = room p.
Proof.
  intros Ht Hq. unfold num_free_slots, room. pose proof (below_target _ _ _ _ Hq) as Hb.
  destruct (queue_lengths _ _ _ _ Hq) as [-> _]. rewrite Ht in *. destruct Hq as [Hr _ _ _ _ _ _ _]. lia.
Qed.

Lemma total_active self rids oids held :
  queues_ok self rids oids held -> len rids + len oids + Z.of_nat (size held) = _num_active_slots self.
Proof.
  intros [Hr _ _ _ _ Hid _ _]. apply Permutation_length in Hid.
  rewrite !length_app, length_seqZ in Hid. unfold size, set_size. simpl. lia.
Qed.

(** Ids of the three kinds are distinct and in range. *)
Lemma id_facts self rids oids held i :
  queues_ok self rids oids held ->
  (i ∈ rids \/ i ∈ oids \/ i ∈ held <-> 0 <= i < _num_active_slots self)
  /\ (i ∈ rids -> i ∉ held) /\ (i ∈ oids -> i ∉ held).
Proof.
  intros [Hr _ _ _ _ Hid _ _].
  assert (Hnd : NoDup (rids ++ oids ++ elements held)) by (rewrite Hid; apply NoDup_seqZ).
  apply NoDup_app in Hnd as (_ & Hd1 & Hnd). apply NoDup_app in Hnd as (_ & Hd2 & _).
  split; [|split].
  - trans (i ∈ rids ++ oids ++ elements held); [rewrite !elem_of_app, elem_of_elements; done|].
    rewrite Hid, elem_of_seqZ. lia.
  - intros Hi Hh. apply (Hd1 i Hi). rewrite elem_of_app, elem_of_elements. auto.
  - intros Hi Hh. apply (Hd2 i Hi). by rewrite elem_of_elements.
Qed.

(** ** Allocation *)

Lemma take_ready self rids oids held :
  queues_ok self rids oids held -> rids <> [] ->
  exists s rest i rids', _recycled_slots self = s :: rest /\ _slot_id s = Some i /\ rids = i :: rids'
    /\ _slot_id <$> rest = Some <$> rids' /\ i < _target_capacity self /\ (i ∉ held) /\ 0 <= i.
Proof.
  intros Hq Hne. destruct rids as [|i rids']; [done|].
  pose proof (id_facts _ _ _ _ i Hq) as (Hi & Hh & _). destruct Hq as [Hr Hrid _ Hb _ Hid _ _].
  destruct (_recycled_slots self) as [|s rest] eqn:Hrec; [done|].
  rewrite !fmap_cons in Hrid. injection Hrid as Hs Hrest. apply Forall_cons in Hb as [Hlt _].
  exists s, rest, i, rids'. split_and!; try done; [apply Hh; set_solver|]. apply Hi. set_solver.
Qed.

Lemma held_add rids oids (held : gset Z) i l :
  i ∉ held -> i :: rids ++ oids ++ elements held ≡ₚ l -> rids ++ oids ++ elements ({[i]} ∪ held) ≡ₚ l.
Proof. intros Hi <-. rewrite elements_union_singleton by done. solve_Permutation. Qed.

Lemma pick_spec self rids oids held :
  queues_ok self rids oids held -> num_free_slots self <> 0 ->
  exists i ev rids' self', pick_slot self = Ok (mkSlot (Some i) ev, self')
    /\ 0 <= i < _target_capacity self /\ (i ∉ held) /\ queues_ok self' rids' oids ({[i]} ∪ held)
    /\ _occupied_mask self' = _occupied_mask self /\ _capacity self' = _capacity self
    /\ _target_capacity self' = _target_capacity self.
Proof.
  intros Hq Hfree. unfold num_free_slots in Hfree. unfold pick_slot.
  destruct (queue_lengths _ _ _ _ Hq) as [Hlr _]. pose proof (id_facts _ _ _ _ (_num_active_slots self) Hq) as Hact.
  destruct (0 <? _num_ready_recycled_slots self) eqn:Hnr; bool_to_prop;
    [|destruct (_num_active_slots self <? _) eqn:Hna; bool_to_prop].
  - destruct (take_ready _ _ _ _ Hq) as (s & rest & i & rids' & Hrec & Hs & -> & Hrest & Hlt & Hh & Hi).
    { intros ->. destruct Hq as [_ _ _ _ _ _ Hr _]. rewrite Hlr in Hr. simpl in Hr. lia. }
    destruct Hq as [Hr Hrid Ho Hb Ha Hid Hn Hnull]. rewrite Hrec in *.
    replace (Z.to_nat (_num_ready_recycled_slots self))
      with (S (Z.to_nat (_num_ready_recycled_slots self - 1))) in Hnull by lia.
    simpl in Hnull. apply Forall_cons in Hnull as [Hev Hnull]. destruct s as [sid ev]. simpl in *. subst.
    exists i, None, rids'. eexists. split; [done|]. split; [done|]. split; [done|].
    split; [|done]. apply Forall_cons in Hb as [_ Hb]. split; simpl; try done; [by apply held_add|lia].
  - exists (_num_active_slots self), None, rids. eexists. split; [done|].
    assert (Hna' : _num_active_slots self ∉ held) by (intros Hin; assert (0 <= _num_active_slots self < _num_active_slots self) by (apply Hact; auto); lia).
    destruct Hq as [Hr Hrid Ho Hb Ha Hid Hn Hnull]. split; [lia|]. split; [done|]. split; [|done].
    split; simpl; try done; [unfold num_slots in Hna; lia|]. apply held_add; [done|].
    rewrite Hid. replace (_num_active_slots self + 1) with (Z.of_nat (S (Z.to_nat (_num_active_slots self)))) by lia.
    rewrite seqZ_S, Z2Nat.id by lia. simpl. solve_Permutation.
  - destruct (take_ready _ _ _ _ Hq) as (s & rest & i & rids' & Hrec & Hs & -> & Hrest & Hlt & Hh & Hi).
    { intros ->. destruct Hq as [Hr _ _ _ _ _ _ _]. rewrite Hlr in Hfree. simpl in Hfree.
      unfold num_slots in Hna. lia. }
    destruct Hq as [Hr Hrid Ho Hb Ha Hid Hn Hnull]. rewrite Hrec in *.
    destruct s as [sid ev]. simpl in *. subst.
    exists i, ev, rids'. eexists. split; [done|]. split; [done|]. split; [done|].
    split; [|done]. apply Forall_cons in Hb as [_ Hb]. split; simpl; try done; [by apply held_add|lia|].
    by replace (Z.to_nat (_num_ready_recycled_slots self)) with 0%nat by lia.
Qed.

Lemma mask_add mask n held i :
  mask_ok mask n held -> 0 <= i < n -> i ∉ held ->
  exists mask', bit_set mask i = Ok mask' /\ mask_ok mask' n ({[i]} ∪ held).
Proof.
  intros [Hb Ht Hc] Hi Hh. destruct (bit_set_spec _ _ _ Hb Hi) as (mask' & Hs & Hb' & Ht' & Hc').
  exists mask'. split; [done|]. split; [done| |].
  - intros j Hj. rewrite Ht', Ht by done. apply eq_bool_prop_intro.
    rewrite orb_True, !bool_decide_spec. set_solver.
  - rewrite Hc', Ht, bool_decide_false, Hc by (done || lia).
    rewrite size_union, size_singleton by set_solver. lia.
Qed.

Lemma mask_remove mask n held i :
  mask_ok mask n held -> 0 <= i < n -> i ∈ held ->
  exists mask', bit_clear mask i = Ok mask' /\ mask_ok mask' n (held ∖ {[i]}).
Proof.
  intros [Hb Ht Hc] Hi Hh. destruct (bit_clear_spec _ _ _ Hb Hi) as (mask' & Hs & Hb' & Ht' & Hc').
  exists mask'. split; [done|]. split; [done| |].
  - intros j Hj. rewrite Ht', Ht by done. apply eq_bool_prop_intro.
    rewrite andb_True, negb_True, !bool_decide_spec. set_solver.
  - rewrite Hc', Ht, bool_decide_true, Hc by (done || lia).
    assert (size held = S (size (held ∖ {[i]}))) as ->; [|lia].
    rewrite (union_difference_L {[i]} held) at 1 by set_solver.
    rewrite size_union, size_singleton by set_solver. done.
Qed.

Lemma give_one p i : give p [i] = mkPool (p_capacity p) (p_target p) ({[i]} ∪ p_held p).
Proof. unfold give. f_equal. simpl. set_solver. Qed.

Lemma allocate_spec done_ self p :
  refines self p ->
  if decide (room p = 0) then allocate done_ self = Err OutOfPagesError
  else exists i ev self', allocate done_ self = Ok (mkSlot (Some i) ev, self')
         /\ fresh_ids p [i] /\ refines self' (give p [i]).
Proof.
  intros (Hcap & Htgt & Hmask & rids & oids & Hq). unfold allocate.
  rewrite (free_is_room _ _ _ _ Htgt Hq). destruct (decide (room p = 0)) as [->|Hr]; [done|].
  rewrite (proj2 (Z.eqb_neq _ _) Hr).
  destruct (scrub_refines done_ _ _ _ _ Hq) as (self1 & -> & Hq1 & Hm1 & Hc1 & Ht1 & Ha1). simpl.
  destruct (pick_spec _ _ _ _ Hq1) as (i & ev & rids' & self2 & -> & Hi & Hh & Hq2 & Hm2 & Hc2 & Ht2).
  { rewrite (free_is_room self1 p rids oids); [done|congruence|done]. }
  simpl. destruct (mask_add (_occupied_mask self2) (_capacity self2) (p_held p) i) as (mask & -> & Hmask').
  { by rewrite Hm2, Hm1, Hc2, Hc1. }
  { destruct Hq1 as [[? ?] _ _ _ _ _ _ _]. lia. }
  { done. }
  simpl. exists i, ev. eexists. split; [done|]. split.
  - split; [apply NoDup_singleton|]. intros j ->%list_elem_of_singleton. rewrite <- Htgt, <- Ht1. done.
  - rewrite give_one. split; [simpl; congruence|]. split; [simpl; congruence|]. split; [done|].
    exists rids', oids. destruct Hq2. by split.
Qed.

Lemma room_give p i : fresh_ids p [i] -> room (give p [i]) = room p - 1.
Proof.
  intros [_ Hf]. destruct (Hf i) as [Hi Hh]; [set_solver|]. rewrite give_one. unfold room. simpl.
  rewrite elements_union_singleton, filter_cons_True by (done || lia). simpl. lia.
Qed.

Lemma fresh_cons p i ids :
  fresh_ids p [i] -> fresh_ids (give p [i]) ids -> fresh_ids p (i :: ids).
Proof.
  intros [_ Hi] [Hnd Hids]. rewrite give_one in Hids. simpl in Hids. split.
  - apply NoDup_cons. split; [|done]. intros Hin. destruct (Hids i Hin) as [_ Hn]. set_solver.
  - intros j [->|Hj]%elem_of_cons; [apply Hi; set_solver|]. destruct (Hids j Hj). set_solver.
Qed.

Lemma give_cons p i ids : give (give p [i]) ids = give p (i :: ids).
Proof. unfold give. f_equal. simpl. set_solver. Qed.

Lemma slot_ids_omap (slots : list Slot) (ids : list Z) : _slot_id <$> slots = Some <$> ids -> omap _slot_id slots = ids.
Proof.
  revert ids. induction slots as [|s slots IH]; intros [|i ids] Hs; try done. rewrite !fmap_cons in Hs. injection Hs as H0 H1.
  simpl. rewrite H0. f_equal. by apply IH.
Qed.

Lemma allocate_times_spec done_ n self p :
  refines self p -> Z.of_nat n <= room p ->
  exists slots self' ids, allocate_times done_ n self = Ok (slots, self')
    /\ _slot_id <$> slots = Some <$> ids /\ length ids = n /\ fresh_ids p ids /\ refines self' (give p ids)
    /\ room (give p ids) = room p - Z.of_nat n.
Proof.
  revert self p. induction n as [|n IH]; intros self p Href Hn; simpl.
  { exists [], self, []. split; [done|]. split; [done|]. split; [done|]. split.
    - split; [apply NoDup_nil_2|set_solver].
    - assert (give p [] = p) as ->; [|split; [done|lia]]. destruct p. unfold give. f_equal. simpl. set_solver. }
  pose proof (allocate_spec done_ self p Href) as Ha. destruct (decide _) as [H0|H0]; [lia|].
  destruct Ha as (i & ev & self1 & -> & Hf & Href1). simpl.
  destruct (IH self1 (give p [i]) Href1) as (slots & self2 & ids & -> & Hids & Hlen & Hfs & Href2 & Hroom).
  { rewrite room_give by done. lia. }
  simpl. exists (mkSlot (Some i) ev :: slots), self2, (i :: ids). split; [done|].
  split; [rewrite !fmap_cons; f_equal; exact Hids|]. split; [simpl; lia|]. split; [by apply fresh_cons|].
  rewrite <- give_cons. split; [done|]. rewrite Hroom, room_give by done. lia.
Qed.

(** ** Release *)

Lemma held_remove rids oids (held : gset Z) i l :
  i ∈ held -> rids ++ oids ++ elements held ≡ₚ l ->
  i :: rids ++ oids ++ elements (held ∖ {[i]}) ≡ₚ l.
Proof.
  intros Hi <-. rewrite (union_difference_L {[i]} held) at 2 by set_solver.
  rewrite elements_union_singleton by set_solver. solve_Permutation.
Qed.

Lemma release_queues self rids oids held i ev mask :
  queues_ok self rids oids held -> i ∈ held ->
  let slot := mkSlot (Some i) ev in
  let self' := if i <? _target_capacity self
               then with_recycled self (_recycled_slots self ++ [slot]) (_num_ready_recycled_slots self)
               else mkAlloc (_capacity self) (_num_active_slots self) (_recycled_slots self)
                      (_num_ready_recycled_slots self) (_occupied_mask self) (_target_capacity self)
                      (_overflow_slots self ++ [slot]) in
  exists rids' oids', queues_ok (with_mask self' mask) rids' oids' (held ∖ {[i]}).
Proof.
  intros [Hr Hrid Ho Hb Ha Hid Hn Hnull] Hi slot. pose proof (held_remove _ _ _ _ _ Hi Hid) as Hid'.
  destruct (i <? _target_capacity self) eqn:Hlt; bool_to_prop; simpl.
  - exists (rids ++ [i]), oids. split; simpl; try done.
    + by rewrite !fmap_app, Hrid.
    + apply Forall_app. split; [done|]. by apply Forall_singleton.
    + rewrite <- Hid'. solve_Permutation.
    + rewrite length_app. simpl. lia.
    + rewrite take_app_le by lia. done.
  - exists rids, (oids ++ [i]). split; simpl; try done.
    + by rewrite !fmap_app, Ho.
    + apply Forall_app. split; [done|]. by apply Forall_singleton.
    + rewrite <- Hid'. solve_Permutation.
Qed.

Lemma release_spec done_ self p slot :
  refines self p -> (forall i, _slot_id slot = Some i -> 0 <= i) ->
  match _slot_id slot with
  | None => release done_ self slot = Err AssertionError
  | Some i =>
      if decide (i ∈ p_held p) then
        exists self', release done_ self slot = Ok self'
          /\ refines self' (mkPool (p_capacity p) (p_target p) (p_held p ∖ {[i]}))
      else release done_ self slot = Err LogicError
  end.
Proof.
  intros (Hcap & Htgt & Hmask & rids & oids & Hq) Hpos. destruct slot as [[i|] ev]; simpl; [|done].
  specialize (Hpos i eq_refl). unfold release; simpl.
  pose proof (id_facts _ _ _ _ i Hq) as (Hids & _ & _). pose proof (q_range _ _ _ _ Hq) as Hr.
  assert (Hocc : (if _capacity self <=? i then Ok false else bit_get (_occupied_mask self) i)
                 = Ok (bool_decide (i ∈ p_held p))).
  { destruct (_capacity self <=? i) eqn:Hle; bool_to_prop.
    - rewrite bool_decide_false; [done|]. intros Hin.
      assert (0 <= i < _num_active_slots self) by (apply Hids; auto). lia.
    - rewrite (bit_get_test _ (_capacity self)) by (apply Hmask || lia). by rewrite (m_test _ _ _ Hmask). }
  rewrite Hocc. simpl. destruct (decide (i ∈ p_held p)) as [Hin|Hin]; [|by rewrite bool_decide_false].
  rewrite bool_decide_true by done. simpl.
  assert (0 <= i < _num_active_slots self) by (apply Hids; auto).
  destruct (mask_remove _ _ _ i Hmask ltac:(lia) Hin) as (mask & Hclear & Hmask').
  replace (_occupied_mask (if _ <? _ then _ else _)) with (_occupied_mask self) by (by destruct (_ <? _)).
  rewrite Hclear. simpl.
  destruct (release_queues _ _ _ _ i ev mask Hq Hin) as (rids' & oids' & Hq').
  destruct (scrub_refines done_ _ _ _ _ Hq') as (self' & -> & Hq'' & Hm & Hc & Ht & _).
  exists self'. split; [done|].
  unfold refines. rewrite Hm, Hc, Ht. destruct (i <? _target_capacity self); simpl; split_and!; eauto.
Qed.

(** ** Resizing *)

Lemma overflow_empty self rids oids held :
  queues_ok self rids oids held -> _target_capacity self = _capacity self -> oids = [].
Proof.
  intros Hq Ht. destruct oids as [|i oids]; [done|].
  pose proof (proj1 (id_facts _ _ _ _ i Hq)) as Hi. destruct Hq as [Hr _ _ _ Ha _ _ _].
  apply Forall_cons in Ha as [Ha _]. assert (0 <= i < _num_active_slots self) by (apply Hi; set_solver). lia.
Qed.

Lemma expand_spec self p n :
  refines self p ->
  if decide (p_target p = p_capacity p /\ p_capacity p < n) then
    exists self', expand self n = Ok self' /\ refines self' (mkPool n n (p_held p))
  else expand self n = Err AssertionError.
Proof.
  intros (Hcap & Htgt & Hmask & rids & oids & Hq). unfold expand. rewrite Htgt, Hcap.
  destruct (decide _) as [[Ht Hn]|Hno].
  2: { destruct (p_target p =? p_capacity p) eqn:E1; [|done]. simpl.
       destruct (p_capacity p <? n) eqn:E2; [|done]. bool_to_prop. destruct Hno; done. }
  rewrite (proj2 (Z.eqb_eq _ _) Ht), (proj2 (Z.ltb_lt _ _) Hn). simpl.
  pose proof (q_range _ _ _ _ Hq) as Hr. pose proof (overflow_empty _ _ _ _ Hq ltac:(congruence)) as ->.
  assert (Hclear : forall j, _capacity self <= j -> test (_occupied_mask self) j = false).
  { intros j Hj. rewrite (m_test _ _ _ Hmask) by lia. apply bool_decide_false. intros Hin.
    assert (0 <= j < _num_active_slots self) by (apply (id_facts _ _ _ _ j Hq); auto). lia. }
  destruct (bit_resize_spec _ (_capacity self) n (m_bits _ _ _ Hmask) ltac:(lia) Hclear)
    as (mask & -> & Hb & Htest & Hc). simpl.
  eexists. split; [done|]. split; [done|]. split; [done|]. split.
  - split; simpl; [done| |].
    + intros i Hi. rewrite Htest by done. by apply Hmask.
    + rewrite Hc. apply Hmask.
  - exists rids, []. destruct Hq as [_ Hrid Ho Hbe Ha Hid Hnr Hnull]. split; simpl; try done; [lia|].
    eapply Forall_impl; [done|]. simpl. lia.
Qed.

Lemma split_spec new nr i slots ids kept ready overflow :
  _slot_id <$> slots = Some <$> ids -> 0 <= i ->
  split_slots new nr i slots = Ok (kept, ready, overflow) ->
  _slot_id <$> kept = Some <$> filter (fun k => k < new) ids
  /\ _slot_id <$> overflow = Some <$> filter (fun k => ~ k < new) ids
  /\ 0 <= ready <= len kept
  /\ (Forall (fun s => ready_event s = None) (take (Z.to_nat (nr - i)) slots) ->
      Forall (fun s => ready_event s = None) (take (Z.to_nat ready) kept))
  /\ (nr <= i -> ready = 0).
Proof.
  revert i ids kept ready overflow.
  induction slots as [|s slots IH]; intros i ids kept ready overflow Hids Hi Hs; simpl in Hs.
  { symmetry in Hids. apply fmap_nil_inv in Hids as ->. injection Hs as <- <- <-.
    split; [done|]. split; [done|]. split; [simpl; lia|]. split; [done|lia]. }
  destruct ids as [|k ids]; [done|]. rewrite !fmap_cons in Hids. injection Hids as Hk Hids.
  unfold slot_id in Hs. rewrite Hk in Hs. simpl in Hs.
  destruct (split_slots new nr (i + 1) slots) as [[[kp rd] ov]|] eqn:Hrec; [|done]. simpl in Hs.
  destruct (IH (i + 1) ids kp rd ov Hids ltac:(lia) Hrec) as (Hkp & Hov & Hrd & Hnull & Hz).
  destruct (k <? new) eqn:Hlt; bool_to_prop; injection Hs as <- <- <-.
  - rewrite filter_cons_True, filter_cons_False, !fmap_cons, Hk, Hkp, Hov by (done || lia).
    split; [done|]. split; [done|]. destruct (i <? nr) eqn:Hin; bool_to_prop.
    + split; [simpl; lia|]. split; [|lia].
      replace (Z.to_nat (nr - i)) with (S (Z.to_nat (nr - (i + 1)))) by lia.
      replace (Z.to_nat (1 + rd)) with (S (Z.to_nat rd)) by lia. simpl.
      rewrite !Forall_cons. intros [? ?]. auto.
    + rewrite Hz by lia. split; [simpl; lia|]. split; [constructor|lia].
  - rewrite filter_cons_False, filter_cons_True, !fmap_cons, Hk, Hkp, Hov by lia.
    split; [done|]. split; [done|]. split; [done|]. split; [|intros; apply Hz; lia].
    intros Hf. apply Hnull. destruct (Z.le_gt_cases nr i).
    + by replace (Z.to_nat (nr - (i + 1))) with 0%nat by lia.
    + replace (Z.to_nat (nr - i)) with (S (Z.to_nat (nr - (i + 1)))) in Hf by lia.
      simpl in Hf. by apply Forall_cons in Hf as [_ ?].
Qed.

Lemma split_total new nr i slots ids :
  _slot_id <$> slots = Some <$> ids -> exists r, split_slots new nr i slots = Ok r.
Proof.
  revert i ids. induction slots as [|s slots IH]; intros i ids Hids; simpl; [eauto|].
  destruct ids as [|k ids]; [done|]. rewrite !fmap_cons in Hids. injection Hids as Hk Hids.
  unfold slot_id. rewrite Hk. simpl. destruct (IH (i + 1) ids Hids) as [[[kp rd] ov] ->]. simpl.
  destruct (k <? new); eauto.
Qed.

Lemma prepare_for_shrink_spec self p n :
  refines self p -> 0 <= n ->
  if decide (p_target p = p_capacity p /\ n < p_capacity p) then
    exists self', prepare_for_shrink self n = Ok self' /\ refines self' (mkPool (p_capacity p) n (p_held p))
  else prepare_for_shrink self n = Err AssertionError.
Proof.
  intros (Hcap & Htgt & Hmask & rids & oids & Hq) Hn0. unfold prepare_for_shrink. rewrite Htgt, Hcap.
  destruct (decide _) as [[Ht Hn]|Hno].
  2: { destruct (p_target p =? p_capacity p) eqn:E1; [|done]. simpl.
       destruct (n <? p_capacity p) eqn:E2; [|done]. bool_to_prop. destruct Hno; done. }
  rewrite (proj2 (Z.eqb_eq _ _) Ht), (proj2 (Z.ltb_lt _ _) Hn). simpl.
  pose proof (overflow_empty _ _ _ _ Hq ltac:(congruence)) as ->.
  destruct Hq as [Hr Hrid Ho Hbe Ha Hid Hnr Hnull]. apply fmap_nil_inv in Ho as Ho'.
  destruct (split_total n (_num_ready_recycled_slots self) 0 _ _ Hrid) as [[[kept ready] overflow] Hs].
  rewrite Hs. simpl.
  destruct (split_spec _ _ 0 _ _ _ _ _ Hrid (Z.le_refl 0) Hs) as (Hkept & Hover & Hready & Hnl & _).
  rewrite Z.sub_0_r in Hnl. eexists. split; [done|]. split; [done|]. split; [done|]. split; [by rewrite <- Hcap|].
  exists (filter (fun k => k < n) rids), (filter (fun k => ~ k < n) rids). rewrite Ho'.
  split; simpl; try done; try lia; auto.
  - apply Forall_forall. intros i [? ?]%list_elem_of_filter. done.
  - apply Forall_forall. intros i [? ?]%list_elem_of_filter. lia.
  - rewrite app_assoc, filter_app_complement. done.
Qed.

(** A shrink can be finished exactly when no slot above the target is in use. *)
Lemma overflow_complete self rids oids held :
  queues_ok self rids oids held ->
  len oids = Z.max 0 (_num_active_slots self - _target_capacity self)
  <-> forall i, i ∈ held -> i < _target_capacity self.
Proof.
  intros Hq. pose proof (below_target _ _ _ _ Hq) as Hb. pose proof (total_active _ _ _ _ Hq) as Ht.
  set (P := fun i => i < _target_capacity self) in *.
  pose proof (Permutation_length (filter_app_complement P (elements held))) as Hf. rewrite length_app in Hf.
  assert (Hs : size held = length (elements held)) by done.
  trans (filter (fun i => ~ P i) (elements held) = []).
  - split; [intros; apply nil_length_inv; lia|]. intros H0. rewrite H0 in Hf. simpl in Hf. lia.
  - split.
    + intros H0 i Hi. destruct (decide (P i)) as [|Hn]; [done|].
      assert (i ∈ filter (fun i => ~ P i) (elements held))
        by (apply list_elem_of_filter; by rewrite elem_of_elements). rewrite H0 in *. set_solver.
    + intros Hall. apply filter_none, Forall_forall. intros i Hi%elem_of_elements Hn. by apply Hn, Hall.
Qed.

Lemma seqZ_below a t : 0 <= a -> 0 <= t -> filter (fun i => i < t) (seqZ 0 a) = seqZ 0 (Z.min a t).
Proof.
  intros Ha Ht. rewrite <- (Z2Nat.id a) by done. generalize (Z.to_nat a) as n. clear a Ha.
  induction n as [|n IH]; [rewrite !seqZ_nil by lia; done|].
  rewrite seqZ_S, filter_app, IH, filter_cons, filter_nil. case_decide.
  - replace (Z.min (Z.of_nat (S n)) t) with (Z.of_nat (S n)) by lia. rewrite seqZ_S.
    do 2 f_equal. lia.
  - rewrite app_nil_r. f_equal. lia.
Qed.

Lemma mapM_slot_id l ids : _slot_id <$> l = Some <$> ids -> mapM slot_id l = Ok ids.
Proof.
  revert ids. induction l as [|s l IH]; intros [|i ids] H; try done. rewrite !fmap_cons in H.
  injection H as Hs H. simpl. rewrite (IH _ H).
  assert (slot_id s = Ok i) as -> by (unfold slot_id; by rewrite Hs). done.
Qed.

Lemma finish_queues self rids oids held :
  queues_ok self rids oids held -> (forall i, i ∈ held -> i < _target_capacity self) ->
  queues_ok (mkAlloc (_target_capacity self) (Z.min (_num_active_slots self) (_target_capacity self))
               (_recycled_slots self) (_num_ready_recycled_slots self) (_occupied_mask self)
               (_target_capacity self) []) rids [] held.
Proof.
  intros [Hr Hrid Ho Hb Ha Hid Hnr Hnull] Hall. split; simpl; try done; [lia|].
  rewrite <- seqZ_below, <- Hid, !filter_app by lia.
  rewrite (filter_all _ rids), (filter_none _ oids), (filter_all _ (elements held)); [done| | |done].
  - apply Forall_forall. intros i Hi. by apply Hall, elem_of_elements.
  - eapply Forall_impl; [done|]. simpl. lia.
Qed.

Lemma finish_spec done_ self p :
  refines self p ->
  if decide (p_target p < p_capacity p /\ set_Forall (fun i => i < p_target p) (p_held p)) then
    exists self', finish_shrink done_ self = Ok (true, self')
      /\ refines self' (mkPool (p_target p) (p_target p) (p_held p))
  else finish_shrink done_ self = Err RuntimeError.
Proof.
  intros (Hcap & Htgt & Hmask & rids & oids & Hq). unfold finish_shrink, shrink_in_progress.
  pose proof (q_range _ _ _ _ Hq) as Hr. rewrite (proj2 (Z.leb_le _ _)) by lia. simpl.
  destruct (queue_lengths _ _ _ _ Hq) as [_ Hlo]. pose proof (overflow_complete _ _ _ _ Hq) as Hoc.
  rewrite <- Hlo in Hoc. destruct (decide _) as [[Hlt Hall]|Hno].
  2: { destruct (_ && _) eqn:Hc; [|done]. apply andb_prop in Hc as [Hlt Hc]. bool_to_prop.
       destruct Hno. rewrite <- Hcap, <- Htgt. split; [done|]. exact (proj1 Hoc Hc). }
  rewrite <- Hcap, <- Htgt in Hlt. rewrite (proj2 (Z.ltb_lt _ _) Hlt), (proj2 (Z.eqb_eq _ _))
    by (apply Hoc; rewrite Htgt; exact Hall).
  simpl. rewrite (mapM_slot_id _ _ (q_oids _ _ _ _ Hq)). simpl. rewrite bool_decide_true; simpl.
  2: { assert (Hnd : NoDup (rids ++ oids ++ elements (p_held p)))
         by (rewrite (q_ids _ _ _ _ Hq); apply NoDup_seqZ).
       apply NoDup_app in Hnd as (_ & _ & Hnd). by apply NoDup_app in Hnd as (? & _). }
  destruct (scrub_refines done_ _ _ _ _ (finish_queues _ _ _ _ Hq ltac:(rewrite Htgt; exact Hall)))
    as (self' & -> & Hq' & Hm & Hc & Ht & _). simpl. exists self'. split; [done|].
  unfold refines. rewrite Hm, Hc, Ht. simpl. split_and!; eauto.
  destruct Hmask as [[Hw Hn] Htest Hcount]. split; [split; [done|lia]|done..].
Qed.

(** ** The allocator refines the pool *)

Lemma init_refines capacity :
  0 <= capacity -> refines (SlotAllocator_init capacity) (mkPool capacity capacity ∅).
Proof.
  intros Hc. split; [done|]. split; [done|]. split.
  - split; simpl; [by apply bits_ok_init|intros i Hi; by rewrite test_init|done].
  - exists [], []. split; simpl; try done; lia.
Qed.

(** One call of the allocator is a step of the pool it refines. *)
Lemma op_refines done_ op self p :
  refines self p -> op_ok op ->
  exists p', pool_step p op (run_op done_ op self).1 p' /\ refines (run_op done_ op self).2 p'.
Proof.
  intros Href Hop. destruct op as [|n|slot|n|n|]; simpl.
  - pose proof (allocate_spec done_ self p Href) as Ha. destruct (decide _) as [H0|H0].
    + rewrite Ha. exists p. by split; [constructor|].
    + destruct Ha as (i & ev & self' & -> & Hf & Href'). exists (give p [i]). by split; [constructor|].
  - unfold allocate_multiple. destruct Href as (Hc & Ht & Hm & rids & oids & Hq).
    rewrite (free_is_room _ _ _ _ Ht Hq). assert (refines self p) as Href by (split_and!; eauto).
    destruct (room p <? n) eqn:Hr; bool_to_prop; [exists p; by split; [constructor|]|].
    destruct (allocate_times_spec done_ (Z.to_nat n) self p Href) as (slots & self' & ids & -> & Hids & Hl & Hf & Href' & _).
    { simpl in Hop. lia. }
    assert (omap _slot_id slots = ids) as -> by (by apply slot_ids_omap). simpl in *. exists (give p ids). split; [constructor; [done|lia]|done].
  - pose proof (release_spec done_ self p slot Href Hop) as Hr. destruct slot as [[i|] ev]; simpl in *.
    + destruct (decide _) as [Hin|Hin].
      * destruct Hr as (self' & -> & Href'). eexists. by split; [by constructor|].
      * rewrite Hr. exists p. by split; [constructor|].
    + exists p. split; [constructor|done].
  - pose proof (expand_spec self p n Href) as He. destruct (decide _) as [[? ?]|Hno].
    + destruct He as (self' & -> & Href'). eexists. by split; [by constructor|].
    + rewrite He. exists p. split; [|done]. constructor. lia.
  - pose proof (prepare_for_shrink_spec self p n Href Hop) as He. destruct (decide _) as [[? ?]|Hno].
    + destruct He as (self' & -> & Href'). eexists. by split; [by constructor|].
    + rewrite He. exists p. split; [|done]. constructor. lia.
  - pose proof (finish_spec done_ self p Href) as He. destruct (decide _) as [[? ?]|Hno].
    + destruct He as (self' & -> & Href'). eexists. by split; [by constructor|].
    + rewrite He. exists p. split; [|done]. constructor.
      destruct (decide (p_target p < p_capacity p)) as [Hlt|Hge].
      * right. destruct (decide (set_Forall (fun i => i < p_target p) (p_held p))) as [|Hn]; [by destruct Hno|].
        apply not_set_Forall_Exists in Hn; [|apply _]. destruct Hn as (i & Hi & Hn). exists i. split; [done|]. simpl in Hn. lia.
      * left. destruct Href as (Hc & Ht & _ & rids & oids & Hq). pose proof (q_range _ _ _ _ Hq). lia.
Qed.

(** A history of calls and the answers the pool allows for it. *)
Inductive pool_run : Pool -> list Op -> list Out -> Pool -> Prop :=
  | run_nil p : pool_run p [] [] p
  | run_cons p op out p1 ops outs p2 :
      pool_step p op out p1 -> pool_run p1 ops outs p2 -> pool_run p (op :: ops) (out :: outs) p2.

Fixpoint run_ops (ops : list ((Z -> bool) * Op)) (self : SlotAllocator) : list Out * SlotAllocator :=
  match ops with
  | [] => ([], self)
  | (done_, op) :: ops' =>
      let '(out, self) := run_op done_ op self in
      let '(outs, self) := run_ops ops' self in (out :: outs, self)
  end.

Lemma runs_refine ops self p :
  refines self p -> Forall (fun o => op_ok o.2) ops ->
  exists p', pool_run p ops.*2 (run_ops ops self).1 p' /\ refines (run_ops ops self).2 p'.
Proof.
  revert self p. induction ops as [|[done_ op] ops IH]; intros self p Href Hok; simpl.
  { exists p. by split; [constructor|]. }
  apply Forall_cons in Hok as [Hop Hok]. destruct (op_refines done_ op self p Href Hop) as (p1 & Hs & Href1).
  destruct (run_op done_ op self) as [out self1]. simpl in *.
  destruct (IH self1 p1 Href1 Hok) as (p2 & Hr & Href2). destruct (run_ops ops self1) as [outs self2].
  exists p2. split; [by econstructor|done].
Qed.

Lemma check_holds self p : refines self p -> _check self = Ok true.
Proof.
  intros (Hcap & Htgt & Hmask & rids & oids & Hq). unfold _check, shrink_in_progress.
  pose proof (q_range _ _ _ _ Hq) as Hr. destruct (queue_lengths _ _ _ _ Hq) as [Hlr Hlo].
  rewrite (proj2 (Z.leb_le (_num_active_slots self) _)), (proj2 (Z.leb_le (_target_capacity self) _)) by lia.
  simpl. rewrite (mapM_slot_id _ _ (q_oids _ _ _ _ Hq)).
  assert ((_target_capacity self <? _capacity self) || (len (_overflow_slots self) =? 0) = true) as ->.
  { destruct (_ <? _) eqn:Hlt; [done|]. bool_to_prop. rewrite Hlo.
    rewrite (overflow_empty _ _ _ _ Hq) by lia. done. }
  simpl. assert (forallb (fun i => (_target_capacity self <=? i) && (i <? _capacity self)) oids = true) as ->.
  2: { simpl. f_equal. apply Z.eqb_eq. unfold num_occupied_slots.
    rewrite (m_count _ _ _ Hmask), Hlr, Hlo. by apply total_active. }
  apply forallb_forall. intros i Hi%list_elem_of_In.
  pose proof (proj1 (Forall_forall _ _) (q_above _ _ _ _ Hq) i Hi) as Hge. simpl in Hge.
  assert (0 <= i < _num_active_slots self) by (apply (id_facts _ _ _ _ i Hq); auto). lia.
Qed.

(** C9. Whatever calls are made of a new allocator, and whenever the device finishes
    its work, the allocator answers like the pool: it hands out only slots that
    nobody holds, refuses exactly when none is left below the target, takes back
    exactly what is held, and finishes a shrink exactly when no slot above the
    target is held.  In the state reached, the number of free slots is the room of
    the pool and the internal check holds. *)
Theorem slot_allocator_refines capacity ops :
  0 <= capacity -> Forall (fun o => op_ok o.2) ops ->
  exists p, pool_run (mkPool capacity capacity ∅) ops.*2 (run_ops ops (SlotAllocator_init capacity)).1 p
    /\ let self := (run_ops ops (SlotAllocator_init capacity)).2 in
       num_free_slots self = room p /\ num_occupied_slots self = Z.of_nat (size (p_held p))
       /\ _check self = Ok true.
Proof.
  intros Hc Hok. destruct (runs_refine ops _ _ (init_refines capacity Hc) Hok) as (p & Hrun & Href).
  exists p. split; [done|]. simpl. set (self := (run_ops ops _).2) in *. clearbody self.
  split; [|split; [|by eapply check_holds]].
  - destruct Href as (_ & Ht & _ & rids & oids & Hq). by eapply free_is_room.
  - destruct Href as (_ & _ & Hm & _). apply Hm.
Qed.

(** The slots reported to block a shrink are those held above the target. *)
Lemma blocking_slots self p :
  refines self p ->
  exists ids, get_slots_blocking_shrink self = Ok ids
    /\ forall i, i ∈ ids <-> i ∈ p_held p /\ p_target p <= i.
Proof.
  intros (Hcap & Htgt & Hmask & rids & oids & Hq). pose proof (q_range _ _ _ _ Hq) as Hr.
  unfold get_slots_blocking_shrink. set (range := (fun k => _target_capacity self + Z.of_nat k) <$> _).
  assert (Hrange : forall i, i ∈ range <-> _target_capacity self <= i < _capacity self).
  { intros i. unfold range. rewrite list_elem_of_fmap. split.
    - intros (k & -> & Hk%elem_of_seq). lia.
    - intros Hi. exists (Z.to_nat (i - _target_capacity self)). split; [lia|]. apply elem_of_seq. lia. }
  destruct (for_each_prefix_total
              (fun acc id => b ← bit_get (_occupied_mask self) id; Ok (if b : bool then acc ++ [id] else acc))
              (fun pre acc => forall i, i ∈ acc <-> i ∈ pre /\ i ∈ p_held p) range []) as (ids & Hids & Hin).
  - set_solver.
  - intros pre x post acc Heq Hacc. assert (Hx : x ∈ range) by (rewrite Heq; set_solver). apply Hrange in Hx.
    rewrite (bit_get_test _ (_capacity self)) by (apply Hmask || lia). simpl. eexists. split; [done|].
    rewrite (m_test _ _ _ Hmask) by lia. case_bool_decide; intros i; set_solver.
  - exists ids. split; [done|]. intros i. rewrite Hin, Hrange, <- Htgt. split; [naive_solver lia|].
    intros [Hi Hge]. assert (0 <= i < _num_active_slots self) by (apply (id_facts _ _ _ _ i Hq); auto).
    split; [lia|done].
Qed.

Lemma scrub_all done_ l : (forall e, done_ e = true) -> (scrub done_ l).2 = len l.
Proof.
  intros Hd. induction l as [|s l IH]; [done|]. simpl.
  assert (query_complete done_ (ready_event s) = true) as -> by (destruct (ready_event s); [apply Hd|done]).
  destruct (scrub done_ l). simpl in *. lia.
Qed.

(** Polling ends once the device is idle. *)
Lemma synchronize_returns polls idle self p :
  refines self p -> (forall e, idle e = true) ->
  exists self', _synchronize (polls ++ [idle]) self = Ok self' /\ refines self' p
    /\ _num_ready_recycled_slots self' = len (_recycled_slots self').
Proof.
  intros Href Hidle. revert self Href. induction polls as [|done_ polls IH]; intros self Href; simpl.
  - destruct (_ =? _) eqn:He; bool_to_prop; [by exists self|].
    destruct Href as (Hc & Ht & Hm & rids & oids & Hq).
    destruct (scrub_refines idle _ _ _ _ Hq) as (self' & Hs & Hq' & Hm' & Hc' & Ht' & _).
    rewrite Hs. simpl. assert (Hall : _num_ready_recycled_slots self' = len (_recycled_slots self')).
    { unfold _scrub_events, _scrub_events_impl in Hs. apply bind_Ok in Hs as ([sl n] & Hs & Hs').
      injection Hs' as <-. simpl. apply bind_Ok in Hs as (u & _ & Hs).
      destruct (scrub idle _) as [rest k] eqn:Hk. injection Hs as <- <-.
      pose proof (scrub_all idle (drop (Z.to_nat (_num_ready_recycled_slots self)) (_recycled_slots self)) Hidle) as Ha.
      rewrite Hk in Ha. simpl in Ha. apply scrub_spec in Hk as (Hid & _ & _).
      apply (f_equal length) in Hid. rewrite !length_fmap in Hid. pose proof (q_ready _ _ _ _ Hq).
      rewrite length_app, length_take, Hid. rewrite length_drop in *. lia. }
    exists self'. rewrite (proj2 (Z.eqb_eq _ _) Hall). split; [done|]. split; [|done].
    unfold refines. rewrite Hm', Hc', Ht'. split_and!; eauto.
  - destruct (_ =? _) eqn:He; bool_to_prop; [by exists self|].
    destruct Href as (Hc & Ht & Hm & rids & oids & Hq).
    destruct (scrub_refines done_ _ _ _ _ Hq) as (self' & -> & Hq' & Hm' & Hc' & Ht' & _). simpl.
    apply IH. unfold refines. rewrite Hm', Hc', Ht'. split_and!; eauto.
Qed.

(** Two slots; a third request is refused, a shrink waits for the slot in use. *)
Definition wit_ops : list ((Z -> bool) * Op) :=
  (fun op => (fun _ => true, op)) <$>
    [AllocateMultiple 2; Allocate; PrepareForShrink 1; FinishShrink;
     Release (mkSlot (Some 1) (Some 7)); FinishShrink; Release (mkSlot (Some 0) None); Allocate].

Lemma slot_allocator_refines_witness :
  exists p, pool_run (mkPool 2 2 ∅) wit_ops.*2
      [Slots [0; 1]; Raised OutOfPagesError; Done; Raised RuntimeError; Done; Done; Done; Slots [0]] p
    /\ let self := (run_ops wit_ops (SlotAllocator_init 2)).2 in
       num_free_slots self = room p /\ num_occupied_slots self = Z.of_nat (size (p_held p))
       /\ _check self = Ok true.
Proof.
  destruct (slot_allocator_refines 2 wit_ops) as (p & Hrun & Hrest);
    [lia|repeat constructor; simpl; try lia; intros ? [= <-]; lia|].
  exists p. split; [exact Hrun|exact Hrest].
Defined.
