(* ===== verification/Eviction.v ===== *)
(** * The eviction controller

    [runtime/kv_cache_manager_v2/_eviction_controller/_eviction_controller.py]:
    for every pool group a dictionary of LRU queues sorted by priority.  A page
    that is scheduled for eviction carries a reference to its node in its queue;
    here a queue is the list of its pages in eviction order and [node_refs] is the
    set of pages whose [node_ref] is set.  [evict] changes the controller and puts
    the pages back when it fails, so it returns its result and the controller
    afterwards side by side. *)

From stdpp Require Import prelude gmap sorting.
From S2P Require Import Prelude.
Local Open Scope Z_scope.

(** What the controller reads of a page. *)
Record EvictablePage := mkPage {
  page_id : Z;
  cache_level : Z;
  priority : Z;
  life_cycle : Z;
}.

#[export] Instance page_eq_dec : EqDecision EvictablePage.
Proof. solve_decision. Defined.

(** ** Queues *)

(** [LRUEvictionPolicy]: the first page is evicted first. *)
Abbreviation LRUEvictionPolicy := (list EvictablePage).

Definition lru_push (self : LRUEvictionPolicy) (page : EvictablePage) (evict_first : bool)
    : LRUEvictionPolicy :=
  if evict_first then page :: self else self ++ [page].

Definition lru_pop (self : LRUEvictionPolicy) : result (EvictablePage * LRUEvictionPolicy) :=
  match self with
  | [] => Err AssertionError
  | page :: rest => Ok (page, rest)
  end.

(** Removing a node that is not in the queue raises. *)
Definition lru_remove (self : LRUEvictionPolicy) (page : EvictablePage) : result LRUEvictionPolicy :=
  if bool_decide (page ∈ self) then Ok (filter (fun p => p <> page) self) else Err ValueError.

(** [PrioritizedEvictionPolicy]: the dictionary, in its order. *)
Abbreviation PrioritizedEvictionPolicy := (list (Z * LRUEvictionPolicy)).

Definition policy_len (self : PrioritizedEvictionPolicy) : Z := zsum (fun p => len p.2) self.

(** The page order of [__iter__]. *)
Definition policy_iter (self : PrioritizedEvictionPolicy) : list EvictablePage := concat self.*2.

Definition key_leb (a b : Z * LRUEvictionPolicy) : bool := a.1 <=? b.1.

(** [get_policy] makes sure there is a queue for a priority. *)
Definition get_policy (self : PrioritizedEvictionPolicy) (prio : Z) : PrioritizedEvictionPolicy :=
  if existsb (fun p => p.1 =? prio) self then self else sort_by key_leb (self ++ [(prio, [])]).

Definition update_policy (f : LRUEvictionPolicy -> LRUEvictionPolicy) (prio : Z)
    (self : PrioritizedEvictionPolicy) : PrioritizedEvictionPolicy :=
  (fun p => if p.1 =? prio then (p.1, f p.2) else p) <$> self.

Definition policy_push (self : PrioritizedEvictionPolicy) (page : EvictablePage) (evict_first : bool)
    : PrioritizedEvictionPolicy :=
  update_policy (fun q => lru_push q page evict_first) (priority page) (get_policy self (priority page)).

Definition policy_pop (self : PrioritizedEvictionPolicy)
    : result (EvictablePage * PrioritizedEvictionPolicy) :=
  match self with
  | [] => Err StopIteration
  | (prio, front) :: rest =>
      '(page, front) ← lru_pop front;
      Ok (page, (prio, front) :: rest)
  end.

Definition policy_remove (self : PrioritizedEvictionPolicy) (page : EvictablePage)
    : result PrioritizedEvictionPolicy :=
  match List.find (fun p => p.1 =? priority page) self with
  | None => Err KeyError
  | Some (_, policy) =>
      policy ← lru_remove policy page;
      Ok (if bool_decide (policy = [])
          then filter (fun p => p.1 <> priority page) self
          else update_policy (fun _ => policy) (priority page) self)
  end.

(** ** The controller of one cache level *)

Record PerLevelEvictionController := mkCtrl {
  _cache_level : Z;
  _life_cycle_grouping : list Z;
  _policies : list PrioritizedEvictionPolicy;
  node_refs : gset Z;
}.

(** No page is scheduled at this level when the controller is made. *)
Definition PerLevelEvictionController_init (life_cycle_grouping : list Z) (level : Z)
    : result PerLevelEvictionController :=
  match life_cycle_grouping with
  | [] => Err ValueError
  | g :: gs =>
      let num_pool_groups := fold_left Z.max gs g + 1 in
      _ ← py_assert (num_pool_groups =? len (remove_dups life_cycle_grouping));
      Ok (mkCtrl level life_cycle_grouping (replicate (Z.to_nat num_pool_groups) []) ∅)
  end.

Definition num_pool_groups (self : PerLevelEvictionController) : Z := len (_policies self).

Definition num_evictable_pages (self : PerLevelEvictionController) (pg_idx : Z) : result Z :=
  policy ← py_get (_policies self) pg_idx; Ok (policy_len policy).

Definition page_iterator (self : PerLevelEvictionController) (pg_idx : Z) : result (list EvictablePage) :=
  policy ← py_get (_policies self) pg_idx; Ok (policy_iter policy).

Definition set_policies (self : PerLevelEvictionController) (policies : list PrioritizedEvictionPolicy)
    (refs : gset Z) : PerLevelEvictionController :=
  mkCtrl (_cache_level self) (_life_cycle_grouping self) policies refs.

Definition schedule_for_eviction (self : PerLevelEvictionController) (page : EvictablePage)
    (evict_first : bool) : result PerLevelEvictionController :=
  _ ← py_assert (bool_decide (page_id page ∉ node_refs self) && (cache_level page =? _cache_level self));
  pg_idx ← py_get (_life_cycle_grouping self) (life_cycle page);
  policy ← py_get (_policies self) pg_idx;
  policies ← py_set (_policies self) pg_idx (policy_push policy page evict_first);
  Ok (set_policies self policies ({[page_id page]} ∪ node_refs self)).

(** [remove(node)] for the node of [page]. *)
Definition remove (self : PerLevelEvictionController) (page : EvictablePage)
    : result PerLevelEvictionController :=
  _ ← py_assert (bool_decide (page_id page ∈ node_refs self));
  pg_idx ← py_get (_life_cycle_grouping self) (life_cycle page);
  policy ← py_get (_policies self) pg_idx;
  policy ← policy_remove policy page;
  policies ← py_set (_policies self) pg_idx policy;
  Ok (set_policies self policies (node_refs self ∖ {[page_id page]})).

Definition _evict_dependencies (self : PerLevelEvictionController) (page : EvictablePage)
    : list (list EvictablePage) :=
  replicate (length (_policies self)) [].

(** The pages evicted so far, by pool group, and the controller. *)
Abbreviation evict_state := (list (list EvictablePage) * PerLevelEvictionController)%type.

(** One round of the [while] loop. *)
Definition evict_one (pg_idx : Z) (st : evict_state) : result evict_state :=
  let '(ret, self) := st in
  policy ← py_get (_policies self) pg_idx;
  '(page, policy) ← policy_pop policy;
  policies ← py_set (_policies self) pg_idx policy;
  let self := set_policies self policies (node_refs self ∖ {[page_id page]}) in
  row ← py_get ret pg_idx;
  ret ← py_set ret pg_idx (row ++ [page]);
  Ok (zip_with app ret (_evict_dependencies self page), self).

(** [n] rounds: the state in which a round raised is kept. *)
Fixpoint evict_times (n : nat) (pg_idx : Z) (st : evict_state) : option exn * evict_state :=
  match n with
  | O => (None, st)
  | S n' => match evict_one pg_idx st with
            | Ok st => evict_times n' pg_idx st
            | Err e => (Some e, st)
            end
  end.

(** Every round adds one page to the group's row, so the loop makes as many
    rounds as pages are missing. *)
Definition evict_group (pg_idx count : Z) (st : evict_state) : option exn * evict_state :=
  match policy ← py_get (_policies st.2) pg_idx; row ← py_get st.1 pg_idx; Ok (policy_len policy, len row) with
  | Err e => (Some e, st)
  | Ok (evictable, got) =>
      if evictable + got <? count then (Some OutOfPagesError, st)
      else evict_times (Z.to_nat (count - got)) pg_idx st
  end.

Fixpoint evict_groups (pg_idx : Z) (counts : list Z) (st : evict_state) : option exn * evict_state :=
  match counts with
  | [] => (None, st)
  | count :: counts' =>
      match evict_group pg_idx count st with
      | (Some e, st) => (Some e, st)
      | (None, st) => evict_groups (pg_idx + 1) counts' st
      end
  end.

Definition evict (self : PerLevelEvictionController) (min_num_pages : list Z)
    : result (list (list EvictablePage)) * PerLevelEvictionController :=
  match evict_groups 0 min_num_pages (replicate (length (_policies self)) [], self) with
  | (Some e, (ret, self)) =>
      match for_each (fun self p => schedule_for_eviction self p true) self (reverse (concat ret)) with
      | Ok self => (Err e, self)
      | Err e' => (Err e', self)
      end
  | (None, (ret, self)) =>
      if forallb (fun p => cache_level p =? _cache_level self) (concat ret)
      then (Ok ret, self) else (Err AssertionError, self)
  end.

(** ** Well-formed controllers *)

Definition sorted_keys (d : PrioritizedEvictionPolicy) : Prop := StronglySorted Z.lt d.*1.

Definition all_pages (self : PerLevelEvictionController) : list EvictablePage :=
  concat (policy_iter <$> _policies self).

Definition in_place (self : PerLevelEvictionController) (g : nat) (prio : Z) (page : EvictablePage) : Prop :=
  priority page = prio /\ py_get (_life_cycle_grouping self) (life_cycle page) = Ok (Z.of_nat g)
  /\ cache_level page = _cache_level self.

(** Queues are sorted by priority, pages are in the queue of their group and
    priority, no page is queued twice, and exactly the queued pages refer to a
    node. *)
Record ctrl_ok (self : PerLevelEvictionController) : Prop := {
  c_sorted : forall g d, _policies self !! g = Some d -> sorted_keys d;
  c_place : forall g d k q page, _policies self !! g = Some d -> (k, q) ∈ d -> page ∈ q -> in_place self g k page;
  c_ids : NoDup (page_id <$> all_pages self);
  c_refs : node_refs self = list_to_set (page_id <$> all_pages self);
}.

Lemma policy_len_iter d : policy_len d = len (policy_iter d).
Proof.
  induction d as [|[k q] d IH]; [done|]. unfold policy_len, policy_iter in *. rewrite fmap_cons. simpl.
  rewrite length_app. simpl in IH. lia.
Qed.

Lemma all_pages_insert self g d d' refs :
  _policies self !! g = Some d ->
  exists l1 l2, all_pages self = l1 ++ policy_iter d ++ l2
    /\ all_pages (set_policies self (<[g := d']> (_policies self)) refs) = l1 ++ policy_iter d' ++ l2.
Proof.
  intros Hg. pose proof (lookup_lt_Some _ _ _ Hg) as Hlt. unfold all_pages; simpl.
  pose proof (take_drop_middle _ _ _ Hg) as E. rewrite (insert_take_drop _ _ _ Hlt).
  exists (concat (policy_iter <$> take g (_policies self))), (concat (policy_iter <$> drop (S g) (_policies self))).
  split; [|by rewrite fmap_app, fmap_cons, concat_app].
  trans (concat (policy_iter <$> (take g (_policies self) ++ d :: drop (S g) (_policies self)))); [by rewrite E|].
  by rewrite fmap_app, fmap_cons, concat_app.
Qed.

Lemma all_pages_perm self g d d' refs page :
  _policies self !! g = Some d -> policy_iter d' ≡ₚ page :: policy_iter d ->
  all_pages (set_policies self (<[g := d']> (_policies self)) refs) ≡ₚ page :: all_pages self.
Proof.
  intros Hg Hp. destruct (all_pages_insert self g d d' refs Hg) as (l1 & l2 & -> & ->). rewrite Hp.
  solve_Permutation.
Qed.

Lemma in_all_pages self g d page :
  _policies self !! g = Some d -> page ∈ policy_iter d -> page ∈ all_pages self.
Proof.
  intros Hg Hp. unfold all_pages. apply list_elem_of_In, in_concat. exists (policy_iter d).
  split; [|by apply list_elem_of_In]. apply list_elem_of_In, list_elem_of_fmap. exists d. split; [done|].
  by eapply list_elem_of_lookup_2.
Qed.

Lemma in_iter d page : page ∈ policy_iter d <-> exists k q, (k, q) ∈ d /\ page ∈ q.
Proof.
  unfold policy_iter. rewrite list_elem_of_In, in_concat. split.
  - intros (q & Hq%list_elem_of_In & Hp%list_elem_of_In). apply list_elem_of_fmap in Hq as ([k q'] & -> & Hin).
    eauto.
  - intros (k & q & Hin & Hp). exists q. split; [|by apply list_elem_of_In].
    apply list_elem_of_In, list_elem_of_fmap. by exists (k, q).
Qed.

(** ** Popping and putting back *)

(** [d] is [d0] after the pages [row] were popped off its first queue. *)
Definition popped (d0 : PrioritizedEvictionPolicy) (row : list EvictablePage) (d : PrioritizedEvictionPolicy) : Prop :=
  (row = [] /\ d = d0) \/ exists k q r, d0 = (k, row ++ q) :: r /\ d = (k, q) :: r.

Lemma popped_iter d0 row d : popped d0 row d -> policy_iter d0 = row ++ policy_iter d.
Proof. intros [[-> ->]|(k & q & r & -> & ->)]; [done|]. unfold policy_iter. simpl. by rewrite app_assoc. Qed.

Lemma update_absent f k d : k ∉ d.*1 -> update_policy f k d = d.
Proof.
  induction d as [|[k' q] d IH]; [done|]. rewrite fmap_cons. intros Hk. unfold update_policy in *.
  rewrite fmap_cons, IH by set_solver. simpl.
  destruct (k' =? k) eqn:E; [|done]. bool_to_prop. set_solver.
Qed.

Lemma sorted_head k q d : sorted_keys ((k, q) :: d) -> k ∉ d.*1.
Proof.
  unfold sorted_keys. rewrite fmap_cons. simpl. intros Hs Hin.
  apply StronglySorted_inv in Hs as [_ Hs]. eapply (proj1 (Forall_forall _ _)) in Hs; [|done]. lia.
Qed.

Lemma push_front_head page k q d :
  priority page = k -> sorted_keys ((k, q) :: d) ->
  policy_push ((k, q) :: d) page true = (k, page :: q) :: d.
Proof.
  intros Hp Hs. unfold policy_push, get_policy. rewrite Hp. cbn [existsb fst]. rewrite Z.eqb_refl. cbn [orb].
  unfold update_policy. rewrite fmap_cons. cbn [fst snd]. rewrite Z.eqb_refl. f_equal.
  apply (update_absent (fun q => lru_push q page true)). by eapply sorted_head.
Qed.

Lemma py_get_lookup {A} (l : list A) (g : nat) x : py_get l (Z.of_nat g) = Ok x <-> l !! g = Some x.
Proof.
  split; [|apply py_get_nat]. intros H. destruct (l !! g) as [y|] eqn:E; [apply py_get_nat in E; congruence|].
  apply lookup_ge_None in E. unfold py_get, py_pos in H.
  rewrite (proj2 (Z.ltb_ge (Z.of_nat g) (len l))), (proj2 (Z.ltb_ge (Z.of_nat g) 0)), !andb_false_r in H by lia.
  done.
Qed.

(** Taking a page out of its queue, and putting one in. *)
Lemma ctrl_ok_take self g d d' page :
  ctrl_ok self -> _policies self !! g = Some d -> sorted_keys d' ->
  policy_iter d ≡ₚ page :: policy_iter d' ->
  (forall k q p, (k, q) ∈ d' -> p ∈ q -> exists q0, (k, q0) ∈ d /\ p ∈ q0) ->
  ctrl_ok (set_policies self (<[g := d']> (_policies self)) (node_refs self ∖ {[page_id page]})).
Proof.
  intros [Hs Hp Hi Hr] Hg Hs' Hperm Hsub. pose proof (lookup_lt_Some _ _ _ Hg) as Hlt.
  set (refs := node_refs self ∖ _). set (self' := set_policies self _ refs).
  assert (Hall : all_pages self ≡ₚ page :: all_pages self').
  { destruct (all_pages_insert self g d d' refs Hg) as (l1 & l2 & E1 & E2).
    subst self'. rewrite E1, E2, Hperm. solve_Permutation. }
  assert (Hnd : NoDup (page_id <$> page :: all_pages self')) by (by rewrite <- Hall).
  rewrite fmap_cons in Hnd. apply NoDup_cons in Hnd as [Hnin Hnd]. split; simpl.
  - intros h dh [(_ & <- & _)|[_ Hh]]%list_lookup_insert_Some; [done|eauto].
  - intros h dh k q p Hh Hin Hpq. apply list_lookup_insert_Some in Hh as [(<- & <- & _)|[_ Hh]].
    + destruct (Hsub _ _ _ Hin Hpq) as (q0 & Hin0 & Hq0). exact (Hp _ _ _ _ _ Hg Hin0 Hq0).
    + exact (Hp _ _ _ _ _ Hh Hin Hpq).
  - done.
  - unfold refs. rewrite Hr, Hall, fmap_cons. simpl. apply set_eq. intros i.
    rewrite elem_of_difference, elem_of_union, !elem_of_list_to_set. set_solver.
Qed.

Lemma ctrl_ok_put self g d d' page k :
  ctrl_ok self -> _policies self !! g = Some d -> sorted_keys d' ->
  page_id page ∉ node_refs self -> in_place self g k page ->
  policy_iter d' ≡ₚ page :: policy_iter d ->
  (forall k' q p, (k', q) ∈ d' -> p ∈ q -> (p = page /\ k' = k) \/ exists q0, (k', q0) ∈ d /\ p ∈ q0) ->
  ctrl_ok (set_policies self (<[g := d']> (_policies self)) ({[page_id page]} ∪ node_refs self)).
Proof.
  intros [Hs Hp Hi Hr] Hg Hs' Hnew Hin0 Hperm Hsub.
  set (refs := {[page_id page]} ∪ node_refs self).
  pose proof (all_pages_perm self g d d' refs page Hg Hperm) as Hall. split; simpl.
  - intros h dh [(_ & <- & _)|[_ Hh]]%list_lookup_insert_Some; [done|eauto].
  - intros h dh k' q p Hh Hin Hpq. apply list_lookup_insert_Some in Hh as [(<- & <- & _)|[_ Hh]].
    + destruct (Hsub _ _ _ Hin Hpq) as [[-> ->]|(q0 & Hq0 & Hpq0)]; [done|]. exact (Hp _ _ _ _ _ Hg Hq0 Hpq0).
    + exact (Hp _ _ _ _ _ Hh Hin Hpq).
  - rewrite Hall, fmap_cons. apply NoDup_cons. split; [|done]. intros Hx. apply Hnew. rewrite Hr.
    by apply elem_of_list_to_set.
  - rewrite Hall, fmap_cons. unfold refs. rewrite Hr. done.
Qed.

Lemma zip_app_nil {A} (ret : list (list A)) n : length ret = n -> zip_with app ret (replicate n []) = ret.
Proof.
  intros <-. induction ret as [|r ret IH]; [done|]. simpl. by rewrite IH, app_nil_r.
Qed.

(** One round pops the first page, and putting that page back in front undoes
    it. *)
Lemma evict_one_ok ret self g row k page q r :
  ctrl_ok self -> _policies self !! g = Some ((k, page :: q) :: r) -> ret !! g = Some row ->
  length ret = length (_policies self) ->
  let self' := set_policies self (<[g := (k, q) :: r]> (_policies self)) (node_refs self ∖ {[page_id page]}) in
  evict_one (Z.of_nat g) (ret, self) = Ok (<[g := row ++ [page]]> ret, self')
  /\ ctrl_ok self' /\ schedule_for_eviction self' page true = Ok self.
Proof.
  intros Hok Hg Hrow Hlen self'. pose proof (lookup_lt_Some _ _ _ Hg) as Hlt.
  assert (Hin : page ∈ policy_iter ((k, page :: q) :: r)) by (unfold policy_iter; simpl; set_solver).
  assert (Hplace : in_place self g k page) by (eapply (c_place _ Hok g _ k (page :: q)); [done|set_solver..]).
  pose proof (c_sorted _ Hok _ _ Hg) as Hsk.
  split; [|split].
  - unfold evict_one.
    assert (py_get (_policies self) (Z.of_nat g) = Ok ((k, page :: q) :: r)) as -> by (by apply py_get_lookup). simpl.
    rewrite py_set_nat by done. simpl. rewrite (proj2 (py_get_lookup _ _ _) Hrow). simpl.
    rewrite py_set_nat by (by apply lookup_lt_Some in Hrow). simpl. unfold _evict_dependencies. simpl.
    by rewrite zip_app_nil by (by rewrite !length_insert).
  - apply (ctrl_ok_take self g ((k, page :: q) :: r) ((k, q) :: r) page Hok Hg); [done|done|].
    intros k' q' p [[= -> ->]|Hin']%elem_of_cons Hp; [|exists q'; set_solver].
    exists (page :: q). set_solver.
  - unfold schedule_for_eviction. simpl. destruct Hplace as (Hprio & Hgrp & Hlvl).
    rewrite bool_decide_true by set_solver. rewrite (proj2 (Z.eqb_eq _ _) Hlvl). simpl.
    rewrite Hgrp. simpl.
    assert (py_get (<[g := (k, q) :: r]> (_policies self)) (Z.of_nat g) = Ok ((k, q) :: r)) as ->
      by (by apply py_get_lookup, list_lookup_insert_eq). cbn [mbind result_bind].
    rewrite py_set_nat by (by rewrite length_insert). cbn [mbind result_bind].
    rewrite (push_front_head page k q r Hprio) by done.
    rewrite list_insert_insert_eq, (list_insert_id _ _ _ Hg). f_equal. destruct self as [lv gr ps rf].
    unfold set_policies; simpl in *. f_equal.
    assert (page_id page ∈ rf).
    { rewrite (c_refs _ Hok : rf = _). apply elem_of_list_to_set, list_elem_of_fmap. exists page.
      split; [done|]. by eapply (in_all_pages _ g). }
    symmetry. by apply union_difference_singleton_L.
Qed.

(** ** The loop of [evict] *)

Section evict.
Context (self0 : PerLevelEvictionController) (Hok0 : ctrl_ok self0).

(** Rows from group [g] on are still empty; what was popped comes off the first
    queue of its group, and putting it back, last page first, restores the
    controller. *)
Record ev_inv (g : nat) (ret : list (list EvictablePage)) (self : PerLevelEvictionController) : Prop := {
  e_ok : ctrl_ok self;
  e_len : length ret = length (_policies self0) /\ length (_policies self) = length (_policies self0);
  e_level : _cache_level self = _cache_level self0;
  e_popped : forall h d0 row d, _policies self0 !! h = Some d0 -> ret !! h = Some row ->
               _policies self !! h = Some d -> popped d0 row d;
  e_empty : forall h row, (g <= h)%nat -> ret !! h = Some row -> row = [];
  e_undo : for_each (fun self p => schedule_for_eviction self p true) self (reverse (concat ret)) = Ok self0;
  e_grouping : _life_cycle_grouping self = _life_cycle_grouping self0;
}.

Lemma concat_insert_last (ret : list (list EvictablePage)) g row page :
  ret !! g = Some row -> (forall h r, (S g <= h)%nat -> ret !! h = Some r -> r = []) ->
  concat (<[g := row ++ [page]]> ret) = concat ret ++ [page].
Proof.
  intros Hg He. pose proof (lookup_lt_Some _ _ _ Hg) as Hlt.
  rewrite (insert_take_drop _ _ _ Hlt). pose proof (take_drop_middle _ _ _ Hg) as E.
  assert (Hd : concat (drop (S g) ret) = []).
  { apply concat_nil_Forall, Forall_lookup. intros i r Hi. rewrite lookup_drop in Hi.
    apply (He (S g + i)%nat); [lia|done]. }
  trans (concat (take g ret ++ row :: drop (S g) ret) ++ [page]); [|by rewrite E].
  rewrite !concat_app. simpl. rewrite Hd, !app_nil_r. by rewrite app_assoc.
Qed.

Lemma ev_step g ret self row k page q r :
  ev_inv (S g) ret self -> ret !! g = Some row ->
  _policies self !! g = Some ((k, page :: q) :: r) ->
  exists self', evict_one (Z.of_nat g) (ret, self) = Ok (<[g := row ++ [page]]> ret, self')
    /\ _policies self' !! g = Some ((k, q) :: r) /\ ev_inv (S g) (<[g := row ++ [page]]> ret) self'.
Proof.
  intros [Hok [Hl1 Hl2] Hlv Hpop Hemp Hundo Hgr] Hrow Hg. pose proof (lookup_lt_Some _ _ _ Hg) as Hlt.
  destruct (evict_one_ok ret self g row k page q r Hok Hg Hrow ltac:(lia)) as (He & Hok' & Hback).
  eexists. split; [exact He|]. split; [simpl; by rewrite list_lookup_insert_eq|].
  split; simpl; try done.
  - rewrite !length_insert. lia.
  - intros h d0 row' d H0 Hr Hd. destruct (decide (h = g)) as [->|Hne].
    + rewrite list_lookup_insert_eq in Hr by lia. simpl in Hd. rewrite list_lookup_insert_eq in Hd by lia.
      injection Hr as <-. injection Hd as <-.
      destruct (Hpop g _ _ _ H0 Hrow Hg) as [[-> Heq]|(k' & q' & r' & -> & Heq)].
      * right. exists k, q, r. simpl. by rewrite <- Heq.
      * injection Heq as <- <- <-. right. exists k, q, r. by rewrite <- app_assoc.
    + rewrite list_lookup_insert_ne in Hr by done. simpl in Hd. rewrite list_lookup_insert_ne in Hd by done. eauto.
  - intros h row' Hh Hr. rewrite list_lookup_insert_ne in Hr by lia. eauto.
  - rewrite (concat_insert_last _ _ _ _ Hrow Hemp), reverse_snoc. simpl. rewrite Hback. simpl. done.
Qed.

(** The pages at the front of a group. *)
Definition front (d : PrioritizedEvictionPolicy) : list EvictablePage :=
  match d with [] => [] | (_, q) :: _ => q end.

Lemma evict_times_spec n g ret self row d :
  ev_inv (S g) ret self -> ret !! g = Some row -> _policies self !! g = Some d ->
  (n <= length (policy_iter d))%nat ->
  exists ret' self' row', ev_inv (S g) ret' self' /\ ret' !! g = Some row'
    /\ (forall h, h <> g -> ret' !! h = ret !! h)
    /\ evict_times n (Z.of_nat g) (ret, self)
       = (if decide (n <= length (front d))%nat then None else Some AssertionError, (ret', self'))
    /\ ((n <= length (front d))%nat -> length row' = (length row + n)%nat).
Proof.
  revert ret self row d. induction n as [|n IH]; intros ret self row d Hinv Hrow Hd Hn.
  { exists ret, self, row. split; [done|]. split; [done|]. split; [done|]. split; [|lia].
    rewrite decide_True by lia. done. }
  destruct d as [|[k [|page q]] r]; [simpl in Hn; lia| |].
  - exists ret, self, row. split; [done|]. split; [done|]. split; [done|]. simpl.
    assert (py_get (_policies self) (Z.of_nat g) = Ok ((k, []) :: r)) as -> by (by apply py_get_lookup).
    simpl. split; [done|lia].
  - destruct (ev_step g ret self row k page q r Hinv Hrow Hd) as (self1 & He & Hd1 & Hinv1).
    pose proof (lookup_lt_Some _ _ _ Hrow) as Hlt.
    destruct (IH (<[g := row ++ [page]]> ret) self1 (row ++ [page]) ((k, q) :: r) Hinv1) as
      (ret' & self' & row' & Hinv' & Hrow' & Hoth & Het & Hlen).
    { by rewrite list_lookup_insert_eq. }
    { done. }
    { unfold policy_iter in *. simpl in *. lia. }
    exists ret', self', row'. split; [done|]. split; [done|]. split.
    { intros h Hh. rewrite Hoth by done. by rewrite list_lookup_insert_ne. }
    split.
    + change (evict_times (S n) (Z.of_nat g) (ret, self))
        with (match evict_one (Z.of_nat g) (ret, self) with
              | Ok st => evict_times n (Z.of_nat g) st | Err e => (Some e, (ret, self)) end).
      rewrite He, Het. repeat case_decide; cbn [front length] in *; (done || lia).
    + simpl. intros Hle. rewrite Hlen, length_app by (simpl; lia). simpl. lia.
Qed.

Lemma ev_inv_weaken g h ret self : (g <= h)%nat -> ev_inv g ret self -> ev_inv h ret self.
Proof. intros Hle [? ? ? ? Hemp ? ?]. split; try done. intros i row Hi. apply Hemp. lia. Qed.

(** Why a request for [c] pages of a group fails. *)
Definition eviction_fails (e : exn) (c : Z) (d : PrioritizedEvictionPolicy) : Prop :=
  (e = OutOfPagesError /\ len (policy_iter d) < c)
  \/ (e = AssertionError /\ len (front d) < c <= len (policy_iter d)).

Lemma evict_group_spec g c ret self d0 :
  ev_inv g ret self -> _policies self0 !! g = Some d0 ->
  exists e ret' self' row', evict_group (Z.of_nat g) c (ret, self) = (e, (ret', self'))
    /\ ev_inv (S g) ret' self' /\ ret' !! g = Some row' /\ (forall h, h <> g -> ret' !! h = ret !! h)
    /\ match e with
       | None => len row' = Z.max 0 c /\ c <= len (front d0)
       | Some e => eviction_fails e c d0
       end.
Proof.
  intros Hinv H0. pose proof (lookup_lt_Some _ _ _ H0) as Hlt. destruct (e_len _ _ _ Hinv) as [Hl1 Hl2].
  destruct (lookup_lt_is_Some_2 ret g) as [row Hrow]; [lia|].
  destruct (lookup_lt_is_Some_2 (_policies self) g) as [d Hd]; [lia|].
  pose proof (e_empty _ _ _ Hinv g row ltac:(lia) Hrow) as ->.
  assert (d = d0) as ->.
  { destruct (e_popped _ _ _ Hinv g _ _ _ H0 Hrow Hd) as [[_ ->]|(k & q & r & -> & ->)]; done. }
  unfold evict_group. cbn [fst snd]. rewrite (proj2 (py_get_lookup _ _ _) Hd). cbn [mbind result_bind].
  rewrite (proj2 (py_get_lookup _ _ _) Hrow). cbn [mbind result_bind]. rewrite policy_len_iter.
  destruct (_ <? c) eqn:Hc; bool_to_prop; simpl in Hc.
  { exists (Some OutOfPagesError), ret, self, []. split; [done|].
    split; [by apply (ev_inv_weaken g); [lia|]|]. split; [done|]. split; [done|]. left. split; [done|lia]. }
  destruct (evict_times_spec (Z.to_nat (c - len (@nil EvictablePage))) g ret self [] d0) as
    (ret' & self' & row' & Hinv' & Hrow' & Hoth & He & Hlen);
    [by apply (ev_inv_weaken g); [lia|]|done|done|simpl; lia|].
  rewrite He. eexists _, ret', self', row'. split; [done|]. split; [done|]. split; [done|]. split; [done|].
  case_decide as Hdec; simpl in Hdec, Hlen.
  - rewrite Hlen by done. lia.
  - right. split; [done|]. lia.
Qed.

Lemma evict_groups_spec counts g ret self :
  ev_inv g ret self -> (g + length counts <= length (_policies self0))%nat ->
  exists e ret' self' m, evict_groups (Z.of_nat g) counts (ret, self) = (e, (ret', self'))
    /\ ev_inv m ret' self' /\ (forall h, (h < g)%nat -> ret' !! h = ret !! h)
    /\ match e with
       | None => forall i c row d0, counts !! i = Some c -> ret' !! (g + i)%nat = Some row ->
                   _policies self0 !! (g + i)%nat = Some d0 -> len row = Z.max 0 c /\ c <= len (front d0)
       | Some e => exists i c d0, counts !! i = Some c /\ _policies self0 !! (g + i)%nat = Some d0
                     /\ eviction_fails e c d0
       end.
Proof.
  revert g ret self. induction counts as [|c counts IH]; intros g ret self Hinv Hlen; simpl.
  { exists None, ret, self, g. split; [done|]. split; [done|]. split; [done|]. set_solver. }
  simpl in Hlen. destruct (lookup_lt_is_Some_2 (_policies self0) g) as [d0 H0]; [lia|].
  destruct (evict_group_spec g c ret self d0 Hinv H0) as (e & ret1 & self1 & row1 & -> & Hinv1 & Hrow1 & Hoth1 & He).
  destruct e as [e|].
  { exists (Some e), ret1, self1, (S g). split; [done|]. split; [done|]. split; [intros; apply Hoth1; lia|].
    exists 0%nat, c, d0. rewrite Nat.add_0_r. done. }
  destruct (IH (S g) ret1 self1 Hinv1 ltac:(lia)) as (e2 & ret2 & self2 & m & Heq & Hinv2 & Hoth2 & He2).
  replace (Z.of_nat g + 1) with (Z.of_nat (S g)) by lia. rewrite Heq.
  exists e2, ret2, self2, m. split; [done|]. split; [done|].
  split; [intros h Hh; rewrite Hoth2, Hoth1 by lia; done|].
  destruct e2 as [e2|].
  - destruct He2 as (i & c' & d & Hi & Hd & Hf). exists (S i), c', d.
    replace (g + S i)%nat with (S g + i)%nat by lia. done.
  - intros [|i] c' row d Hi Hr Hd.
    + injection Hi as <-. rewrite Nat.add_0_r in Hr, Hd. rewrite Hoth2, Hrow1 in Hr by lia. congruence.
    + replace (g + S i)%nat with (S g + i)%nat in Hr, Hd by lia. eauto.
Qed.

Lemma ev_inv_init : ev_inv 0 (replicate (length (_policies self0)) []) self0.
Proof.
  split; try done.
  - by rewrite length_replicate.
  - intros h d0 row d H0 [-> _]%lookup_replicate Hd. left. split; [done|congruence].
  - intros h row _ [-> _]%lookup_replicate. done.
  - assert (concat (replicate (length (_policies self0)) (@nil EvictablePage)) = []) as ->; [|done].
    by induction (length (_policies self0)).
Qed.

End evict.

(** What [evict] does, in terms of the queues. *)
Lemma evict_spec self counts :
  ctrl_ok self -> length counts = length (_policies self) ->
  (exists ret self', evict self counts = (Ok ret, self') /\ ctrl_ok self' /\ length ret = length counts
     /\ _cache_level self' = _cache_level self /\ _life_cycle_grouping self' = _life_cycle_grouping self
     /\ length (_policies self') = length (_policies self)
     /\ forall g c d, counts !! g = Some c -> _policies self !! g = Some d ->
          c <= len (front d) /\ exists row d', ret !! g = Some row /\ _policies self' !! g = Some d'
            /\ popped d row d' /\ len row = Z.max 0 c)
  \/ (exists e g c d, evict self counts = (Err e, self) /\ counts !! g = Some c
        /\ _policies self !! g = Some d /\ eviction_fails e c d).
Proof.
  intros Hok Hlen. unfold evict.
  destruct (evict_groups_spec self counts 0 (replicate (length (_policies self)) []) self) as
    (e & ret & self' & m & He & Hinv & _ & Hres); [by apply ev_inv_init|lia|].
  change (Z.of_nat 0) with 0 in He. rewrite He. destruct (e_len _ _ _ _ Hinv) as [Hl1 Hl2]. destruct e as [e|].
  - right. rewrite (e_undo _ _ _ _ Hinv). destruct Hres as (g & c & d & Hc & Hd & Hf).
    exists e, g, c, d. done.
  - left.
    assert (forallb (fun p => cache_level p =? _cache_level self') (concat ret) = true) as ->.
    { apply forallb_forall. intros p Hp. apply in_concat in Hp as (row & Hr & Hp).
      apply list_elem_of_In, list_elem_of_lookup in Hr as [g Hr]. pose proof (lookup_lt_Some _ _ _ Hr).
      destruct (lookup_lt_is_Some_2 (_policies self) g) as [d Hd]; [lia|].
      destruct (lookup_lt_is_Some_2 (_policies self') g) as [d' Hd']; [lia|].
      pose proof (popped_iter _ _ _ (e_popped _ _ _ _ Hinv g _ _ _ Hd Hr Hd')) as Hit.
      apply list_elem_of_In in Hp. assert (Hpd : p ∈ policy_iter d) by (rewrite Hit; set_solver).
      apply in_iter in Hpd as (k & q & Hkq & Hpq). destruct (c_place _ Hok _ _ _ _ _ Hd Hkq Hpq) as (_ & _ & Hl).
      rewrite (e_level _ _ _ _ Hinv). by apply Z.eqb_eq. }
    exists ret, self'. split; [done|]. split; [apply Hinv|]. split; [lia|]. split; [apply Hinv|].
    split; [apply Hinv|]. split; [lia|]. intros g c d Hc Hd.
    pose proof (lookup_lt_Some _ _ _ Hd). destruct (lookup_lt_is_Some_2 ret g) as [row Hr]; [lia|].
    destruct (lookup_lt_is_Some_2 (_policies self') g) as [d' Hd']; [lia|].
    destruct (Hres g c row d Hc Hr Hd) as [Hlr Hcf]. split; [done|]. exists row, d'.
    split; [done|]. split; [done|]. split; [|done]. exact (e_popped _ _ _ _ Hinv g _ _ _ Hd Hr Hd').
Qed.

(** [evict] is all or nothing.  When every group has enough pages in its first
    queue, exactly the requested number of pages leaves each group, in eviction
    order, and the rest stays as it was.  Otherwise the controller is as before,
    and the exception says which group was short: of pages altogether
    ([OutOfPagesError]) or, although it has enough pages, of pages of its first
    queue ([AssertionError]). *)
Theorem evict_all_or_nothing self counts :
  ctrl_ok self -> length counts = length (_policies self) ->
  (exists ret self', evict self counts = (Ok ret, self') /\ ctrl_ok self' /\ length ret = length counts
     /\ forall g c d, counts !! g = Some c -> _policies self !! g = Some d ->
          c <= len (front d) /\ ret !! g = Some (take (Z.to_nat c) (policy_iter d))
          /\ exists d', _policies self' !! g = Some d' /\ policy_iter d' = drop (Z.to_nat c) (policy_iter d))
  \/ (exists e g c d, evict self counts = (Err e, self) /\ counts !! g = Some c
        /\ _policies self !! g = Some d /\ eviction_fails e c d).
Proof.
  intros Hok Hlen. destruct (evict_spec self counts Hok Hlen) as [(ret & self' & He & Hok' & Hl & _ & _ & _ & Hrows)|Herr];
    [left|by right].
  exists ret, self'. split; [done|]. split; [done|]. split; [done|]. intros g c d Hc Hd.
  destruct (Hrows g c d Hc Hd) as (Hcf & row & d' & Hr & Hd' & Hpop & Hlr). apply popped_iter in Hpop as ->.
  split; [done|]. rewrite take_app_length', drop_app_length' by lia. eauto.
Qed.

(** ** Scheduling and removal *)

Lemma sorted_mid d1 k q d2 :
  sorted_keys (d1 ++ (k, q) :: d2) ->
  (forall k' q', (k', q') ∈ d1 -> k' < k) /\ (forall k' q', (k', q') ∈ d2 -> k < k')
  /\ (k ∉ d1.*1) /\ (k ∉ d2.*1) /\ sorted_keys (d1 ++ d2).
Proof.
  unfold sorted_keys. rewrite !fmap_app, fmap_cons. simpl. intros Hs.
  assert (H1 : forall x, x ∈ d1.*1 -> x < k).
  { intros x Hx. eapply StronglySorted_app_1_elem_of in Hs; [done|done|set_solver]. }
  apply StronglySorted_app in Hs as (Hc & Hs1 & Hs2). apply StronglySorted_inv in Hs2 as [Hs2 Hf].
  assert (H2 : forall x, x ∈ d2.*1 -> k < x) by (intros x Hx; by eapply (proj1 (Forall_forall _ _)) in Hf).
  split_and!.
  - intros k' q' Hin. apply H1, list_elem_of_fmap. by exists (k', q').
  - intros k' q' Hin. apply H2, list_elem_of_fmap. by exists (k', q').
  - intros Hx. specialize (H1 _ Hx). lia.
  - intros Hx. specialize (H2 _ Hx). lia.
  - apply StronglySorted_app. split; [|done]. intros x y Hx Hy. apply Hc; set_solver.
Qed.

(** Sorting a sorted dictionary with one more key at the end puts the key in its
    place. *)
Lemma sort_snoc d prio :
  sorted_keys d -> prio ∉ d.*1 ->
  exists d1 d2, d = d1 ++ d2 /\ sort_by key_leb (d ++ [(prio, [])]) = d1 ++ (prio, []) :: d2
    /\ sorted_keys (d1 ++ (prio, []) :: d2).
Proof.
  induction d as [|[k q] d IH]; intros Hs Hn.
  { exists [], []. split; [done|]. split; [done|]. repeat constructor. }
  unfold sorted_keys in Hs. rewrite fmap_cons in Hs, Hn. apply StronglySorted_inv in Hs as [Hs Hf]. simpl in Hf.
  destruct IH as (d1 & d2 & -> & Hsort & Hsk); [done|set_solver|].
  change (sort_by key_leb (((k, q) :: d1 ++ d2) ++ [(prio, [])]))
    with (insert_by key_leb (k, q) (sort_by key_leb ((d1 ++ d2) ++ [(prio, [])]))).
  rewrite Hsort. destruct (Z.lt_total k prio) as [Hlt|[->|Hgt]]; [|set_solver|].
  - exists ((k, q) :: d1), d2. split; [done|].
    assert (Hall : Forall (Z.lt k) (d1 ++ (prio, @nil EvictablePage) :: d2).*1).
    { rewrite fmap_app, fmap_cons. rewrite fmap_app, Forall_app in Hf. destruct Hf.
      apply Forall_app. split; [done|]. by constructor. }
    split; [|unfold sorted_keys; rewrite <- app_comm_cons, fmap_cons; by constructor].
    destruct (d1 ++ (prio, []) :: d2) as [|[k1 q1] l] eqn:El; [by destruct d1|]. rewrite <- app_comm_cons, El. simpl.
    rewrite fmap_cons in Hall. apply Forall_cons in Hall as [Hk1 _]. unfold key_leb; simpl.
    simpl in Hk1. by rewrite (proj2 (Z.leb_le _ _)) by lia.
  - exists [], ((k, q) :: d1 ++ d2). split; [done|].
    assert (d1 = []) as ->.
    { destruct d1 as [|[k1 q1] d1]; [done|].
      rewrite <- app_comm_cons, fmap_cons in Hf. apply Forall_cons in Hf as [Hk1 _]. simpl in Hk1.
      destruct (sorted_mid ((k1, q1) :: d1) prio [] d2 Hsk) as (H1 & _).
      assert (k1 < prio) by (apply (H1 k1 q1); set_solver). lia. }
    rewrite app_nil_l in *. cbn [app insert_by]. unfold key_leb at 1. simpl. rewrite (proj2 (Z.leb_gt _ _)) by lia.
    assert (Hins : insert_by key_leb (k, q) d2 = (k, q) :: d2).
    { destruct d2 as [|[k2 q2] d2]; [done|]. rewrite fmap_cons in Hf. apply Forall_cons in Hf as [Hk2 _].
      cbn [insert_by]. unfold key_leb; simpl in *. by rewrite (proj2 (Z.leb_le _ _)) by lia. }
    rewrite Hins. split; [done|]. unfold sorted_keys. rewrite !fmap_cons. constructor; [by constructor|].
    simpl. constructor; [done|]. eapply Forall_impl; [done|]. simpl. lia.
Qed.

Lemma iter_app d1 d2 : policy_iter (d1 ++ d2) = policy_iter d1 ++ policy_iter d2.
Proof. unfold policy_iter. by rewrite fmap_app, concat_app. Qed.

Lemma iter_cons k q d : policy_iter ((k, q) :: d) = q ++ policy_iter d.
Proof. done. Qed.

Lemma get_policy_spec d prio :
  sorted_keys d ->
  exists d1 q d2, get_policy d prio = d1 ++ (prio, q) :: d2 /\ sorted_keys (get_policy d prio)
    /\ policy_iter d = policy_iter d1 ++ q ++ policy_iter d2
    /\ (forall k q' p, (k, q') ∈ get_policy d prio -> p ∈ q' -> (k, q') ∈ d).
Proof.
  intros Hs. unfold get_policy. destruct (existsb _ d) eqn:He.
  - apply existsb_exists in He as ([k q] & Hin%list_elem_of_In & Hk). simpl in Hk. bool_to_prop. subst k.
    apply list_elem_of_split in Hin as (d1 & d2 & ->). exists d1, q, d2. split; [done|]. split; [done|].
    split; [by rewrite iter_app, iter_cons|done].
  - destruct (sort_snoc d prio) as (d1 & d2 & -> & -> & Hs'); [done| |].
    { intros Hin. apply list_elem_of_fmap in Hin as ([k q] & -> & Hin).
      assert (existsb (fun p => p.1 =? k) d = true); [|simpl in *; congruence].
      apply existsb_exists. exists (k, q). split; [by apply list_elem_of_In|]. simpl. lia. }
    exists d1, [], d2. split; [done|]. split; [done|]. split; [by rewrite iter_app|].
    intros k q' p. rewrite !elem_of_app, elem_of_cons. intros [?|[[= -> ->]|?]] Hp; [auto|set_solver|auto].
Qed.

Lemma update_mid f d1 k q d2 :
  sorted_keys (d1 ++ (k, q) :: d2) -> update_policy f k (d1 ++ (k, q) :: d2) = d1 ++ (k, f q) :: d2.
Proof.
  intros Hs. destruct (sorted_mid _ _ _ _ Hs) as (_ & _ & H1 & H2 & _). unfold update_policy.
  rewrite fmap_app, fmap_cons. cbn [fst snd]. rewrite Z.eqb_refl. f_equal; [by apply (update_absent f)|].
  f_equal. by apply (update_absent f).
Qed.

Lemma sorted_replace d1 k q q' d2 :
  sorted_keys (d1 ++ (k, q) :: d2) -> sorted_keys (d1 ++ (k, q') :: d2).
Proof. unfold sorted_keys. by rewrite !fmap_app, !fmap_cons. Qed.

(** Where a page is put: behind, or with [evict_first] in front of, the pages of
    its priority, behind those of smaller and before those of larger priority. *)
Definition placed (evict_first : bool) (page : EvictablePage) (before after : list EvictablePage) : Prop :=
  (forall p, p ∈ before -> if evict_first then priority p < priority page else priority p <= priority page)
  /\ (forall p, p ∈ after -> if evict_first then priority page <= priority p else priority page < priority p).

Lemma push_spec self g d page evict_first :
  ctrl_ok self -> _policies self !! g = Some d ->
  let d' := policy_push d page evict_first in
  sorted_keys d' /\
  (exists before after, policy_iter d = before ++ after /\ policy_iter d' = before ++ page :: after
     /\ placed evict_first page before after)
  /\ (forall k q p, (k, q) ∈ d' -> p ∈ q ->
       (p = page /\ k = priority page) \/ exists q0, (k, q0) ∈ d /\ p ∈ q0).
Proof.
  intros Hok Hg. pose proof (c_sorted _ Hok _ _ Hg) as Hs. unfold policy_push.
  destruct (get_policy_spec d (priority page) Hs) as (d1 & q & d2 & Heq & Hs' & Hit & Hsub).
  rewrite Heq in Hs', Hsub |- *. rewrite update_mid by done.
  destruct (sorted_mid _ _ _ _ Hs') as (Hlt & Hgt & _).
  assert (Hprio : forall k q' p, (k, q') ∈ d1 ++ (priority page, q) :: d2 -> p ∈ q' -> priority p = k).
  { intros k q' p Hin Hp. by destruct (c_place _ Hok _ _ _ _ _ Hg (Hsub _ _ _ Hin Hp) Hp). }
  split; [by eapply sorted_replace|]. split.
  - assert (H1 : forall p, p ∈ policy_iter d1 -> priority p < priority page).
    { intros p (k & q' & Hin & Hp)%in_iter. rewrite (Hprio k q' p); [by eapply Hlt|set_solver|done]. }
    assert (H2 : forall p, p ∈ policy_iter d2 -> priority page < priority p).
    { intros p (k & q' & Hin & Hp)%in_iter. rewrite (Hprio k q' p); [by eapply Hgt|set_solver|done]. }
    assert (Hq : forall p, p ∈ q -> priority p = priority page) by (intros p Hp; eapply Hprio; set_solver).
    rewrite Hit, iter_app, iter_cons. unfold placed. destruct evict_first; simpl.
    + exists (policy_iter d1), (q ++ policy_iter d2). split; [done|]. split; [done|]. split; [done|].
      intros p [Hp|Hp]%elem_of_app; [rewrite (Hq p Hp); lia|]. specialize (H2 p Hp). lia.
    + exists (policy_iter d1 ++ q), (policy_iter d2). rewrite <- !app_assoc. split; [done|].
      split; [done|]. split; [|done].
      intros p [Hp|Hp]%elem_of_app; [specialize (H1 p Hp); lia|rewrite (Hq p Hp); lia].
  - intros k q' p Hin Hp. apply elem_of_app in Hin as [Hin|[[= -> ->]|Hin]%elem_of_cons].
    + right. exists q'. split; [apply (Hsub _ _ p); [set_solver|done]|done].
    + assert (p = page \/ p ∈ q) as [->|Hpq] by (unfold lru_push in Hp; destruct evict_first; set_solver); [auto|].
      right. exists q. split; [apply (Hsub _ _ p); [set_solver|done]|done].
    + right. exists q'. split; [apply (Hsub _ _ p); [set_solver|done]|done].
Qed.

Lemma schedule_ok self page evict_first g d :
  ctrl_ok self -> page_id page ∉ node_refs self -> cache_level page = _cache_level self ->
  py_get (_life_cycle_grouping self) (life_cycle page) = Ok (Z.of_nat g) -> _policies self !! g = Some d ->
  let self' := set_policies self (<[g := policy_push d page evict_first]> (_policies self))
                 ({[page_id page]} ∪ node_refs self) in
  schedule_for_eviction self page evict_first = Ok self' /\ ctrl_ok self' /\ all_pages self' ≡ₚ page :: all_pages self.
Proof.
  intros Hok Hnew Hlv Hgrp Hg self'. pose proof (lookup_lt_Some _ _ _ Hg) as Hlt.
  destruct (push_spec self g d page evict_first Hok Hg) as (Hs & (before & after & Hit & Hit' & Hpl) & Hsub).
  set (d' := policy_push d page evict_first) in *.
  assert (Hperm : policy_iter d' ≡ₚ page :: policy_iter d) by (rewrite Hit, Hit'; solve_Permutation).
  split; [|split].
  - unfold schedule_for_eviction. rewrite bool_decide_true by done. rewrite (proj2 (Z.eqb_eq _ _) Hlv).
    cbn [andb py_assert mbind result_bind]. rewrite Hgrp. cbn [mbind result_bind].
    rewrite (py_get_nat _ _ _ Hg). cbn [mbind result_bind]. fold d'. by rewrite py_set_nat.
  - eapply (ctrl_ok_put self g d d' page (priority page)); [done..| |done|done]. split; [done|]. split; done.
  - by apply (all_pages_perm self g d).
Qed.

(** Scheduling a page that is not scheduled keeps the controller well formed,
    touches only the queue of its group, and puts the page in eviction order:
    smaller priorities first, and first in first out within a priority. *)
Lemma schedule_keeps_order self page evict_first g d :
  ctrl_ok self -> page_id page ∉ node_refs self -> cache_level page = _cache_level self ->
  py_get (_life_cycle_grouping self) (life_cycle page) = Ok (Z.of_nat g) -> _policies self !! g = Some d ->
  exists self' d' before after,
    schedule_for_eviction self page evict_first = Ok self' /\ ctrl_ok self'
    /\ _policies self' = <[g := d']> (_policies self)
    /\ policy_iter d = before ++ after /\ policy_iter d' = before ++ page :: after
    /\ placed evict_first page before after.
Proof.
  intros Hok Hnew Hlv Hgrp Hg. destruct (schedule_ok self page evict_first g d Hok Hnew Hlv Hgrp Hg) as (Hs & Hok' & _).
  destruct (push_spec self g d page evict_first Hok Hg) as (_ & (before & after & Hit & Hit' & Hpl) & _).
  by eexists _, _, before, after.
Qed.

(** Pushing a page adds at most the queue of its priority. *)
Lemma push_keys d page evict_first k q :
  (k, q) ∈ policy_push d page evict_first -> k = priority page \/ k ∈ d.*1.
Proof.
  unfold policy_push, update_policy. intros ([k' q'] & Heq & Hin)%list_elem_of_fmap.
  assert (k' = k) as -> by (simpl in Heq; destruct (k' =? priority page); congruence).
  unfold get_policy in Hin. destruct (existsb _ d).
  - right. apply list_elem_of_fmap. by exists (k, q').
  - rewrite sort_by_perm in Hin. apply elem_of_app in Hin as [Hin|[= -> _]%list_elem_of_singleton]; [right|by left].
    apply list_elem_of_fmap. by exists (k, q').
Qed.

Lemma controller_init_ok grouping level self :
  PerLevelEvictionController_init grouping level = Ok self -> ctrl_ok self.
Proof.
  unfold PerLevelEvictionController_init. destruct grouping as [|g gs]; [done|].
  intros Hi. apply bind_Ok in Hi as (u & _ & Hi). injection Hi as <-.
  assert (Hn : forall n, all_pages (mkCtrl level (g :: gs) (replicate n []) ∅) = []).
  { intros n. unfold all_pages. simpl. by induction n. }
  split; rewrite ?Hn; simpl; try done.
  - intros h d [-> _]%lookup_replicate. constructor.
  - intros h d k q page [-> _]%lookup_replicate Hin. set_solver.
  - constructor.
Qed.

Lemma filter_ne_page (q : list EvictablePage) page :
  NoDup q -> page ∈ q -> q ≡ₚ page :: filter (fun p => p <> page) q.
Proof.
  intros Hnd Hin. apply list_elem_of_split in Hin as (q1 & q2 & ->).
  apply NoDup_app in Hnd as (_ & Hd & Hnd). apply NoDup_cons in Hnd as [Hn _].
  assert (Hf : forall l : list EvictablePage, page ∉ l -> filter (fun p => p <> page) l = l).
  { intros l Hl. induction l as [|x l IH]; [done|]. rewrite filter_cons_True, IH by set_solver. done. }
  rewrite filter_app, filter_cons_False, !Hf by set_solver. solve_Permutation.
Qed.

(** A scheduled page can be taken out from anywhere in its queue. *)
Lemma remove_ok self page :
  ctrl_ok self -> page ∈ all_pages self ->
  exists self', remove self page = Ok self' /\ ctrl_ok self' /\ all_pages self ≡ₚ page :: all_pages self'
    /\ _cache_level self' = _cache_level self /\ _life_cycle_grouping self' = _life_cycle_grouping self
    /\ length (_policies self') = length (_policies self).
Proof.
  intros Hok Hin. pose proof Hin as Hin0. unfold all_pages in Hin.
  apply list_elem_of_In, in_concat in Hin as (it & Hit%list_elem_of_In & Hp%list_elem_of_In).
  apply list_elem_of_fmap in Hit as (d & -> & [g Hg]%list_elem_of_lookup_1).
  pose proof (lookup_lt_Some _ _ _ Hg) as Hlt. apply in_iter in Hp as (k & q & Hkq & Hpq).
  destruct (c_place _ Hok _ _ _ _ _ Hg Hkq Hpq) as (Hprio & Hgrp & _).
  pose proof (c_sorted _ Hok _ _ Hg) as Hs. apply list_elem_of_split in Hkq as (d1 & d2 & Hd).
  rewrite Hd in Hs. destruct (sorted_mid _ _ _ _ Hs) as (_ & _ & H1 & H2 & Hs12).
  assert (Hnd : NoDup q).
  { pose proof (c_ids _ Hok) as Hn. apply NoDup_fmap_1 in Hn.
    destruct (all_pages_insert self g d [] ∅ Hg) as (l1 & l2 & Hall & _). rewrite Hall, Hd, iter_app, iter_cons in Hn.
    apply NoDup_app in Hn as (_ & _ & Hn). apply NoDup_app in Hn as (Hn & _ & _).
    apply NoDup_app in Hn as (_ & _ & Hn). by apply NoDup_app in Hn as (? & _). }
  set (q' := filter (fun p => p <> page) q). pose proof (filter_ne_page q page Hnd Hpq) as Hperm. fold q' in Hperm.
  set (d' := if bool_decide (q' = []) then d1 ++ d2 else d1 ++ (k, q') :: d2).
  assert (Hrem : policy_remove d page = Ok d').
  { unfold policy_remove. rewrite Hprio, Hd.
    assert (List.find (fun p => p.1 =? k) (d1 ++ (k, q) :: d2) = Some (k, q)) as ->.
    { clear -H1. induction d1 as [|[k1 q1] d1 IH]; simpl; [by rewrite Z.eqb_refl|].
      rewrite fmap_cons in H1. rewrite (proj2 (Z.eqb_neq _ _)) by set_solver. apply IH. set_solver. }
    unfold lru_remove. rewrite bool_decide_true by done. cbn [mbind result_bind]. fold q'. unfold d'.
    assert (Hf : forall l : PrioritizedEvictionPolicy, k ∉ l.*1 -> filter (fun p => p.1 <> k) l = l).
    { intros l Hl. induction l as [|[k1 q1] l IH]; [done|]. rewrite fmap_cons in Hl.
      rewrite filter_cons_True, IH by set_solver. done. }
    case_bool_decide.
    - rewrite filter_app, filter_cons_False, !Hf by (done || simpl; tauto). done.
    - by rewrite (update_mid (fun _ => q')). }
  assert (Hit : policy_iter d ≡ₚ page :: policy_iter d').
  { rewrite Hd. unfold d'. case_bool_decide as He; rewrite ?He in Hperm; rewrite !iter_app, ?iter_cons, Hperm; solve_Permutation. }
  exists (set_policies self (<[g := d']> (_policies self)) (node_refs self ∖ {[page_id page]})). split.
  { unfold remove. rewrite bool_decide_true. 
    2: { rewrite (c_refs _ Hok). apply elem_of_list_to_set, list_elem_of_fmap. by exists page. }
    cbn [py_assert mbind result_bind]. rewrite Hgrp. cbn [mbind result_bind]. rewrite (py_get_nat _ _ _ Hg).
    cbn [mbind result_bind]. rewrite Hrem. cbn [mbind result_bind]. by rewrite py_set_nat. }
  split.
  - apply (ctrl_ok_take self g d d' page Hok Hg); [|done|].
    + unfold d'. case_bool_decide; [done|]. by eapply sorted_replace.
    + intros k' q0 p Hin Hpq0. rewrite Hd. unfold d' in Hin. case_bool_decide; [exists q0; set_solver|].
      apply elem_of_app in Hin as [?|[[= -> ->]|?]%elem_of_cons]; [exists q0; set_solver| |exists q0; set_solver].
      exists q. split; [set_solver|]. unfold q' in Hpq0. apply list_elem_of_filter in Hpq0. tauto.
  - split; [|simpl; by rewrite length_insert].
    destruct (all_pages_insert self g d d' (node_refs self ∖ {[page_id page]}) Hg) as (l1 & l2 & -> & ->).
    rewrite Hit. solve_Permutation.
Qed.

(** ** Several priorities *)

Definition wit_ctrl : PerLevelEvictionController :=
  mkCtrl 0 [0] [[(10, [mkPage 1 0 10 0]); (20, [mkPage 2 0 20 0])]] {[1; 2]}.

Definition wit_pages : list EvictablePage := [mkPage 1 0 10 0; mkPage 2 0 20 0].

Lemma wit_ctrl_run :
  (self0 ← PerLevelEvictionController_init [0] 0;
   for_each (fun c p => schedule_for_eviction c p false) self0 wit_pages) = Ok wit_ctrl.
Proof. vm_compute. reflexivity. Qed.

Lemma wit_ctrl_ok : ctrl_ok wit_ctrl.
Proof.
  pose proof wit_ctrl_run as Hrun.
  destruct (PerLevelEvictionController_init [0] 0) as [c|] eqn:Hi; [|done]. cbn [mbind result_bind] in Hrun.
  pose proof (controller_init_ok _ _ _ Hi) as Hok. vm_compute in Hi. injection Hi as <-.
  destruct (schedule_keeps_order _ (mkPage 1 0 10 0) false 0 [] Hok) as (c1 & d1 & ? & ? & H1 & Hok1 & _);
    [apply (bool_decide_unpack _); vm_compute; exact I|done..|].
  unfold wit_pages in Hrun. cbn [for_each] in Hrun. rewrite H1 in Hrun. cbn [mbind result_bind] in Hrun.
  vm_compute in H1. injection H1 as <-.
  destruct (schedule_keeps_order _ (mkPage 2 0 20 0) false 0 [(10, [mkPage 1 0 10 0])] Hok1)
    as (c2 & d2 & ? & ? & H2 & Hok2 & _); [apply (bool_decide_unpack _); vm_compute; exact I|done..|].
  rewrite H2 in Hrun. by injection Hrun as <-.
Qed.

Lemma evict_all_or_nothing_witness : exists ret self',
  evict wit_ctrl [1] = (Ok ret, self') /\ ctrl_ok self' /\ length ret = 1%nat
  /\ forall g c d, [1] !! g = Some c -> _policies wit_ctrl !! g = Some d ->
       c <= len (front d) /\ ret !! g = Some (take (Z.to_nat c) (policy_iter d))
       /\ exists d', _policies self' !! g = Some d' /\ policy_iter d' = drop (Z.to_nat c) (policy_iter d).
Proof.
  destruct (evict_all_or_nothing wit_ctrl [1] wit_ctrl_ok eq_refl) as [H|(e & g & c & d & He & _)]; [exact H|].
  vm_compute in He. discriminate He.
Defined.

(** Popping leaves the emptied queue of a priority in front, so a group is stuck
    once the pages of its smallest priority are gone: with one page of each of
    two priorities, evicting both fails; evicting one succeeds, and then the
    other, which is still counted as evictable, cannot be evicted. *)
Theorem eviction_stuck : exists self pages self1,
  (self0 ← PerLevelEvictionController_init [0] 0;
   for_each (fun c p => schedule_for_eviction c p false) self0 pages) = Ok self
  /\ ctrl_ok self /\ num_evictable_pages self 0 = Ok 2
  /\ evict self [2] = (Err AssertionError, self)
  /\ evict self [1] = (Ok [take 1 pages], self1)
  /\ num_evictable_pages self1 0 = Ok 1
  /\ evict self1 [1] = (Err AssertionError, self1).
Proof.
  exists wit_ctrl, wit_pages. eexists. split; [exact wit_ctrl_run|]. split; [exact wit_ctrl_ok|].
  split; [reflexivity|]. split; [vm_compute; reflexivity|]. split; [vm_compute; reflexivity|].
  split; vm_compute; reflexivity.
Qed.
