(* ===== verification/RadixTree.v ===== *)
(** * Prefix reuse: the block radix tree

    [runtime/kv_cache_manager_v2/_block_radix_tree.py]: blocks of tokens form a
    tree whose edges are hash chains, below one root per reuse scope (LoRA
    adapter and salt).  A request is matched along the tree, and the match is cut
    back to the longest prefix whose cached pages suffice for every life cycle.

    Bytes are lists of numbers; the hash function is a parameter.  A dictionary
    of children is kept in insertion order, which decides between equally good
    partial matches.  A block is a value here: matching only reads the tree, and
    insertion returns the new children of its parent.  Pages are represented by
    their presence in [storage]. *)

From stdpp Require Import prelude.
From S2P Require Import Prelude LifeCycle.
Local Open Scope Z_scope.
#[local] Set Warnings "-register-all".

(** ** Tokens and keys *)

(** [TokenIdExt]: a token id, or the digest of multimodal data. *)
Inductive Token := TokenId (n : Z) | TokenBytes (b : list Z).

#[export] Instance token_eq_dec : EqDecision Token.
Proof. solve_decision. Defined.

(** [n.to_bytes(k, "little", signed=False)] *)
Fixpoint le_bytes (k : nat) (n : Z) : list Z :=
  match k with O => [] | S k' => n mod 256 :: le_bytes k' (n / 256) end.

Definition to_bytes (k : nat) (n : Z) : result (list Z) :=
  if (0 <=? n) && (n <? 256 ^ Z.of_nat k) then Ok (le_bytes k n) else Err OverflowError.

Record ReuseScope := mkScope { lora_id : option Z; salt : option Z }.

Definition scope_fields (self : ReuseScope) : list (option Z) := [lora_id self; salt self].

(** [_mask]: one bit per field that is set. *)
Definition _mask (self : ReuseScope) : result (list Z) :=
  to_bytes 1 ((if is_none (lora_id self) then 0 else 1) + (if is_none (salt self) then 0 else 2)).

Definition field_bytes (value : option Z) : result (list Z) :=
  match value with Some v => to_bytes 8 v | None => Ok [] end.

Definition scope_to_bytes (self : ReuseScope) : result (list Z) :=
  mask ← _mask self;
  fields ← mapM field_bytes (scope_fields self);
  Ok (mask ++ concat fields).

(** What [Hasher.update] feeds for one token; the packed and the token-wise path
    of the method give the same bytes. *)
Definition token_bytes (t : Token) : result (list Z) :=
  match t with TokenId n => to_bytes 8 n | TokenBytes b => Ok b end.

Definition tokens_bytes (tokens : list Token) : result (list Z) :=
  bs ← mapM token_bytes tokens; Ok (concat bs).

(** [chunked] *)
Fixpoint chunked (fuel : nat) (size : nat) (tokens : list Token) : list (list Token) :=
  match fuel, tokens with
  | O, _ | _, [] => []
  | S fuel', _ => take size tokens :: chunked fuel' size (drop size tokens)
  end.

(** ** The tree *)

Inductive Block := mkBlock {
  key : list Z;
  tokens : list Token;
  storage : list bool;
  next : list (list Z * Block);
}.

Record RootBlock := mkRoot {
  root_key : list Z;
  reuse_scope : ReuseScope;
  root_next : list (list Z * Block);
}.

Record BlockRadixTree := mkTree {
  _life_cycles : LifeCycleRegistry;
  _tokens_per_block : Z;
  tree_next : list (list Z * RootBlock);
}.

Definition dict_find {A} (d : list (list Z * A)) (k : list Z) : option A :=
  snd <$> List.find (fun p => bool_decide (p.1 = k)) d.

Section tree.
Context (sha256 : list Z -> list Z).

Definition root_make_key (scope : ReuseScope) : result (list Z) :=
  bs ← scope_to_bytes scope; Ok (sha256 bs).

Definition make_key (prev_key : list Z) (tokens : list Token) : result (list Z) :=
  bs ← tokens_bytes tokens; Ok (sha256 (prev_key ++ bs)).

(** ** Matching *)

(** [_partial_match_this_node] *)
Fixpoint common_prefix (a b : list Token) : Z :=
  match a, b with
  | x :: a', y :: b' => if bool_decide (x = y) then 1 + common_prefix a' b' else 0
  | _, _ => 0
  end.

Definition _partial_match_this_node (self : Block) (toks : list Token) : Z := common_prefix toks (tokens self).

Definition find_best_partial_match_in_next_nodes (children : list (list Z * Block)) (toks : list Token)
    : option Block * Z :=
  if 32 <=? len children then (None, 0)
  else
    fold_left (fun '(best_block, best_match_len) b =>
        let match_len := _partial_match_this_node b toks in
        if best_match_len <? match_len then (Some b, match_len) else (best_block, best_match_len))
      children.*2 (None, 0).

(** The walk below a root: [key] is the hash of the path so far, [children] are
    the blocks below it. *)
Fixpoint match_chunks (enable_partial_match : bool) (key : list Z) (children : list (list Z * Block))
    (chunks : list (list Token)) : result (list (Block * Z)) :=
  match chunks with
  | [] => Ok []
  | token_block :: chunks' =>
      key' ← make_key key token_block;
      match dict_find children key' with
      | Some b =>
          rest ← match_chunks enable_partial_match key' (next b) chunks';
          Ok ((b, len token_block) :: rest)
      | None =>
          if enable_partial_match then
            match find_best_partial_match_in_next_nodes children token_block with
            | (Some b, match_len) => Ok [(b, match_len)]
            | (None, _) => Ok []
            end
          else Ok []
      end
  end.

Definition _match_token_path (self : BlockRadixTree) (scope : ReuseScope) (toks : list Token)
    (enable_partial_match : bool) : result (list (Block * Z)) :=
  key ← root_make_key scope;
  match dict_find (tree_next self) key with
  | None => Ok []
  | Some root =>
      match_chunks enable_partial_match key (root_next root)
        (chunked (length toks) (Z.to_nat (_tokens_per_block self)) toks)
  end.

End tree.

(** ** Cutting a match back *)

(** [find_index] of [_utils.py]: one past the end when nothing is found, and one
    for an empty sequence. *)
Fixpoint index_of {A} (p : A -> bool) (i : Z) (l : list A) : Z :=
  match l with
  | [] => i
  | x :: l' => if p x then i else index_of p (i + 1) l'
  end.

Definition find_index {A} (l : list A) (p : A -> bool) : Z :=
  match l with [] => 1 | _ => index_of p 0 l end.

(** [block.storage[lc] is not None] *)
Definition _has_page (b : Block) (lc : Z) : bool :=
  match py_get (storage b) lc with Ok p => p | Err _ => false end.

Definition _has_pages (b : Block) (lc_list : list Z) : bool := forallb (_has_page b) lc_list.

Section prune.
Context (self : BlockRadixTree).

Definition _num_matched_tokens (matched : list (Block * Z)) : Z :=
  match last matched with
  | None => 0
  | Some (_, n) => _tokens_per_block self * (len matched - 1) + n
  end.

Definition full_attention_ids : list Z :=
  omap (fun '(i, lc) => match lc with AttnLifeCycle None _ => Some i | _ => None end)
       (attention_life_cycles (_life_cycles self)).

(** Sliding-window life cycles: id, window and number of sink blocks. *)
Definition swa_life_cycles : list (Z * Z * Z) :=
  omap (fun '(i, lc) => match lc with AttnLifeCycle (Some w) sink => Some (i, w, sink) | _ => None end)
       (attention_life_cycles (_life_cycles self)).

Definition prune_full (matched : list (Block * Z)) : list (Block * Z) :=
  match full_attention_ids with
  | [] => matched
  | lc_list => take (Z.to_nat (find_index matched (fun b => negb (_has_pages b.1 lc_list)))) matched
  end.

Definition prune_sink (matched : list (Block * Z)) (lc : Z * Z * Z) : list (Block * Z) :=
  let '(lc_idx, _, num_sink_blocks) := lc in
  let n := find_index (take (Z.to_nat num_sink_blocks) matched) (fun b => negb (_has_page b.1 lc_idx)) in
  if n <? num_sink_blocks then take (Z.to_nat n) matched else matched.

(** Up to the last block with a state snapshot. *)
Definition prune_ssm (matched : list (Block * Z)) : list (Block * Z) :=
  match ssm_life_cycle_id (_life_cycles self) with
  | None => matched
  | Some lc => take (length matched - Z.to_nat (index_of (fun b => _has_page b.1 lc) 0 (reverse matched))) matched
  end.

(** One sliding-window life cycle: [None] when its window is covered, otherwise
    the match cut back. *)
Definition window_cut (num_tokens : Z) (matched : list (Block * Z)) (lc : Z * Z * Z) : option (list (Block * Z)) :=
  let '(lc_idx, w, num_sink_blocks) := lc in
  let n := find_index (reverse matched) (fun b => _has_page b.1 lc_idx) in
  if negb (n =? 0) then Some (take (Z.to_nat (len matched - n)) matched)
  else
    let stale_end := end_ (get_stale_range (AttnLifeCycle (Some w) num_sink_blocks) num_tokens (_tokens_per_block self)) in
    let n := find_index (reverse (drop (Z.to_nat stale_end) matched)) (fun b => negb (_has_page b.1 lc_idx)) in
    if stale_end <? len matched - n then Some (take (Z.to_nat (len matched - n - 1)) matched) else None.

(** The [while] loop; every round that goes on shortens the match. *)
Fixpoint prune_loop (fuel : nat) (matched : list (Block * Z)) : result (list (Block * Z)) :=
  match matched with
  | [] => Ok []
  | _ =>
      match fuel with
      | O => Err OutOfFuel
      | S fuel' =>
          let matched := prune_ssm matched in
          match matched with
          | [] => Ok []
          | _ =>
              let num_tokens := _num_matched_tokens matched in
              match omap (window_cut num_tokens matched) swa_life_cycles with
              | [] => Ok matched
              | cut :: _ => prune_loop fuel' cut
              end
          end
      end
  end.

Definition _prune_match (matched : list (Block * Z)) : result (list (Block * Z)) :=
  _ ← py_assert (forallb (fun b => b.2 =? _tokens_per_block self) (removelast matched));
  let matched := prune_full matched in
  let matched := fold_left prune_sink swa_life_cycles matched in
  prune_loop (S (length matched)) matched.

End prune.

(** [match]: the matched blocks and the number of matched tokens. *)
Definition match_ (sha256 : list Z -> list Z) (self : BlockRadixTree) (scope : ReuseScope) (toks : list Token)
    (enable_partial_match : bool) : result (list Block * Z) :=
  path ← _match_token_path sha256 self scope toks enable_partial_match;
  matched ← _prune_match self path;
  Ok (matched.*1, _num_matched_tokens self matched).

(** *** Cutting back only shortens *)

Lemma prune_sink_take matched lc : exists k, prune_sink matched lc = take k matched.
Proof. destruct lc as [[i w] sink]. unfold prune_sink. cbv zeta. split_if; [eauto|]. exists (length matched). by rewrite take_ge. Qed.

Lemma prune_sinks_take lcs matched : exists k, fold_left prune_sink lcs matched = take k matched.
Proof.
  revert matched. induction lcs as [|lc lcs IH]; intros matched; [exists (length matched); simpl; by rewrite take_ge|].
  simpl. destruct (prune_sink_take matched lc) as [k ->]. destruct (IH (take k matched)) as [k' ->]. rewrite take_take. eauto.
Qed.

Lemma prune_loop_take self fuel matched m : prune_loop self fuel matched = Ok m -> exists k, m = take k matched.
Proof.
  revert matched. induction fuel as [|fuel IH]; intros matched; (destruct matched as [|x matched]; [intros [= <-]; by exists 0%nat|]); [done|].
  cbn [prune_loop]. cbv zeta.
  assert (Hssm : exists k, prune_ssm self (x :: matched) = take k (x :: matched)).
  { unfold prune_ssm. case_match; [eauto|]. exists (length (x :: matched)). by rewrite take_ge. }
  destruct Hssm as [k Hk]. rewrite Hk. destruct (take k (x :: matched)) as [|y l] eqn:Et; [intros [= <-]; by exists 0%nat|]. rewrite <- Et.
  destruct (omap _ _) as [|cut cuts] eqn:Eo; [intros [= <-]; eauto|]. intros (k' & ->)%IH.
  assert (Hcut : cut ∈ omap (window_cut self (_num_matched_tokens self (take k (x :: matched))) (take k (x :: matched))) (swa_life_cycles self))
    by (rewrite Eo; left).
  apply list_elem_of_omap in Hcut as ([[i w] sink] & _ & Hcut). unfold window_cut in Hcut.
  repeat split_if; try done; injection Hcut as <-; rewrite !take_take; eauto.
Qed.

Lemma prune_match_take self matched m : _prune_match self matched = Ok m -> exists k, m = take k matched.
Proof.
  unfold _prune_match. intros (_ & _ & Hl)%bind_Ok. apply prune_loop_take in Hl as [k ->].
  assert (Hfull : exists k, prune_full self matched = take k matched).
  { unfold prune_full. case_match; [exists (length matched); by rewrite take_ge|eauto]. }
  destruct Hfull as [k1 ->]. destruct (prune_sinks_take (swa_life_cycles self) (take k1 matched)) as [k2 ->]. rewrite !take_take. eauto.
Qed.

(** ** The longest usable prefix *)

(** Where the first element that satisfies [p] is. *)
Lemma index_of_spec {A} (p : A -> bool) l i :
  exists r : nat, index_of p i l = i + Z.of_nat r /\ (r <= length l)%nat
    /\ (forall j x, (j < r)%nat -> l !! j = Some x -> p x = false)
    /\ (forall x, l !! r = Some x -> p x = true).
Proof.
  revert i. induction l as [|x l IH]; intros i; simpl.
  { exists 0%nat. split_and!; [lia|lia|lia|done]. }
  destruct (p x) eqn:Hx.
  { exists 0%nat. split_and!; [lia|lia|lia|]. intros y [= <-]. done. }
  destruct (IH (i + 1)) as (r & -> & Hr & Hbef & Hat). exists (S r). split_and!; [lia|simpl; lia| |done].
  intros [|j] y Hj Hy; simpl in Hy; [congruence|]. apply (Hbef j); [lia|done].
Qed.

Lemma find_index_spec {A} (p : A -> bool) l :
  l <> [] ->
  exists r : nat, find_index l p = Z.of_nat r /\ (r <= length l)%nat
    /\ (forall j x, (j < r)%nat -> l !! j = Some x -> p x = false)
    /\ (forall x, l !! r = Some x -> p x = true).
Proof.
  intros Hne. unfold find_index. destruct l as [|x l]; [done|].
  destruct (index_of_spec p (x :: l) 0) as (r & H & Hr). exists r. split; [lia|done].
Qed.

Lemma lookup_reverse {A} (l : list A) i x :
  (i < length l)%nat -> reverse l !! (length l - 1 - i)%nat = Some x <-> l !! i = Some x.
Proof.
  intros Hi. rewrite reverse_lookup by lia. by replace (length l - S (length l - 1 - i))%nat with i by lia.
Qed.

Section longest.
Context (self : BlockRadixTree).
Abbreviation tpb := (_tokens_per_block self).
Abbreviation reg := (_life_cycles self).
Hypothesis Htpb : 0 < tpb.
(** As [AttnLifeCycle.make] asserts, except that a window of a single token is
    left out. *)
Hypothesis Hwin : forall i w sink, (i, AttnLifeCycle (Some w) sink) ∈ attention_life_cycles reg -> 2 <= w /\ 0 <= sink.

(** All blocks of a match are full except the last, which is not empty. *)
Definition shaped (m : list (Block * Z)) : Prop :=
  forall i b n, m !! i = Some (b, n) -> 1 <= n <= tpb /\ ((S i < length m)%nat -> n = tpb).

(** The pages a request can continue from: for attention every block that is
    not stale at the matched length, for state-space layers the snapshot of the
    last block. *)
Definition usable (m : list (Block * Z)) : Prop :=
  (forall i lc k b, (i, lc) ∈ attention_life_cycles reg -> m !! k = Some b ->
     ~ in_range (Z.of_nat k) (get_stale_range lc (_num_matched_tokens self m) tpb) -> _has_page b.1 i = true)
  /\ (forall i b, ssm_life_cycle_id reg = Some i -> last m = Some b -> _has_page b.1 i = true).

Lemma shaped_take m k : shaped m -> shaped (take k m).
Proof.
  intros Hs i b n Hi. apply lookup_take_Some in Hi as [Hi Hlt]. destruct (Hs i b n Hi) as [Hn Hf].
  split; [done|]. rewrite length_take. intros Hl. apply Hf. lia.
Qed.

Lemma tokens_bounds m :
  shaped m -> m <> [] -> tpb * (len m - 1) < _num_matched_tokens self m <= tpb * len m.
Proof.
  intros Hs Hne. unfold _num_matched_tokens. destruct (last m) as [[b n]|] eqn:Hl.
  - rewrite last_lookup in Hl. destruct (Hs _ _ _ Hl) as [Hn _]. lia.
  - by apply last_None in Hl.
Qed.

Lemma tokens_mono m j k :
  shaped m -> (j <= k)%nat ->
  0 <= _num_matched_tokens self (take j m) <= _num_matched_tokens self (take k m).
Proof.
  intros Hs Hle. destruct (decide (take j m = [])) as [Hj|Hj].
  - rewrite Hj. unfold _num_matched_tokens at 1 2. simpl. split; [lia|].
    destruct (decide (take k m = [])) as [Hk|Hk]; [rewrite Hk; done|].
    pose proof (tokens_bounds (take k m) (shaped_take _ _ Hs) Hk).
    assert (0 < len (take k m)) by (destruct (take k m); [done|simpl; lia]). nia.
  - destruct (decide (length (take j m) = length (take k m))) as [Heq|Hne].
    + assert (take k m = take j m) as ->.
      { rewrite !length_take in Heq. destruct (decide (length m <= j)%nat); [rewrite !take_ge by lia; done|].
        replace k with j by lia. done. }
      pose proof (tokens_bounds (take j m) (shaped_take _ _ Hs) Hj).
      assert (0 < len (take j m)) by (destruct (take j m); [done|simpl; lia]). nia.
    + assert (Hk : take k m <> []).
      { intros Hk. apply Hj. apply (f_equal length) in Hk. apply nil_length_inv. rewrite length_take in *. simpl in Hk. lia. }
      pose proof (tokens_bounds (take j m) (shaped_take _ _ Hs) Hj).
      pose proof (tokens_bounds (take k m) (shaped_take _ _ Hs) Hk).
      assert (0 < len (take j m)) by (destruct (take j m); [done|simpl; lia]).
      rewrite !length_take in *. nia.
Qed.

Section cut.
Context (m : list (Block * Z)) (Hs : shaped m).
Abbreviation T k := (_num_matched_tokens self (take k m)).

(** No usable prefix is longer than [k]. *)
Definition bound (k : nat) : Prop := forall j, (j <= length m)%nat -> usable (take j m) -> (j <= k)%nat.

(** A block that is needed at a longer match is needed at every match it is
    part of, so a missing page bounds the match. *)
Lemma bound_missing i lc k j b :
  (i, lc) ∈ attention_life_cycles reg ->
  m !! j = Some b -> _has_page b.1 i = false -> bound k ->
  ~ in_range (Z.of_nat j) (get_stale_range lc (T k) tpb) -> bound j.
Proof.
  intros Hin Hj Hp Hk Hns l Hl Hu. destruct (Nat.le_gt_cases l j) as [|Hgt]; [done|]. exfalso.
  pose proof (Hk l Hl Hu) as Hlk. destruct Hu as [Ha _].
  rewrite (Ha i lc j b Hin) in Hp; [done|by rewrite lookup_take_lt|].
  intros Hr. apply Hns. pose proof (tokens_mono m l k Hs Hlk).
  eapply stale_mono; [done| | |exact Hr]; [lia|].
  destruct lc as [[w|] sink|]; [|done..]. destruct (Hwin _ _ _ Hin). lia.
Qed.

(** Full attention and sink blocks are never stale. *)
Lemma full_not_stale sink h b : ~ in_range b (get_stale_range (AttnLifeCycle None sink) h tpb).
Proof. unfold in_range. simpl. lia. Qed.

Lemma sink_not_stale i w sink h b :
  (i, AttnLifeCycle (Some w) sink) ∈ attention_life_cycles reg -> 0 <= h -> b < sink ->
  ~ in_range b (get_stale_range (AttnLifeCycle (Some w) sink) h tpb).
Proof. intros Hin Hh Hb. destruct (Hwin _ _ _ Hin). rewrite stale_iff by lia. lia. Qed.

(** The last matched block is in the window. *)
Lemma last_not_stale i w sink k :
  (i, AttnLifeCycle (Some w) sink) ∈ attention_life_cycles reg -> (0 < k <= length m)%nat ->
  ~ in_range (Z.of_nat (k - 1)) (get_stale_range (AttnLifeCycle (Some w) sink) (T k) tpb).
Proof.
  intros Hin Hk. destruct (Hwin _ _ _ Hin) as [Hw _].
  assert (Hne : take k m <> []) by (intros H0; apply (f_equal length) in H0; rewrite length_take in H0; simpl in H0; lia).
  pose proof (tokens_bounds (take k m) (shaped_take _ _ Hs) Hne) as Hb. rewrite length_take in Hb.
  pose proof (tokens_mono m k k Hs (le_n _)). rewrite stale_iff by lia. intros [_ Hx].
  replace (k `min` length m)%nat with k in Hb by lia. nia.
Qed.

(** *** The individual cuts *)

Lemma take_find (p : Block * Z -> bool) l :
  exists r : nat, take (Z.to_nat (find_index l p)) l = take r l /\ (r <= length l)%nat
    /\ (forall j x, (j < r)%nat -> l !! j = Some x -> p x = false)
    /\ (forall x, l !! r = Some x -> p x = true).
Proof.
  destruct (decide (l = [])) as [->|Hne].
  - exists 0%nat. split_and!; [done|simpl; lia|lia|done].
  - destruct (find_index_spec p l Hne) as (r & -> & Hr). exists r. by rewrite Nat2Z.id.
Qed.

Lemma full_ids_spec i : i ∈ full_attention_ids self <-> exists sink, (i, AttnLifeCycle None sink) ∈ attention_life_cycles reg.
Proof.
  unfold full_attention_ids. rewrite list_elem_of_omap. split.
  - intros ([j lc] & Hin & Hm). destruct lc as [[w|] sink|]; [done| |done]. injection Hm as ->. eauto.
  - intros [sink Hin]. exists (i, AttnLifeCycle None sink). done.
Qed.

Lemma swa_spec i w sink : (i, w, sink) ∈ swa_life_cycles self <-> (i, AttnLifeCycle (Some w) sink) ∈ attention_life_cycles reg.
Proof.
  unfold swa_life_cycles. rewrite list_elem_of_omap. split.
  - intros ([j lc] & Hin & Hm). destruct lc as [[w'|] sink'|]; [|done..]. by injection Hm as -> -> ->.
  - intros Hin. exists (i, AttnLifeCycle (Some w) sink). done.
Qed.

Definition full_covered (k : nat) : Prop :=
  forall i j b, i ∈ full_attention_ids self -> (j < k)%nat -> m !! j = Some b -> _has_page b.1 i = true.

Definition sink_covered (lc : Z * Z * Z) (k : nat) : Prop :=
  forall j b, (j < k)%nat -> Z.of_nat j < lc.2 -> m !! j = Some b -> _has_page b.1 lc.1.1 = true.

Lemma prune_full_spec : exists k, prune_full self m = take k m /\ (k <= length m)%nat /\ bound k /\ full_covered k.
Proof.
  unfold prune_full. destruct (full_attention_ids self) as [|i0 ids0] eqn:Hids.
  { exists (length m). split; [by rewrite take_ge|]. split; [done|]. split; [intros j Hj _; done|].
    intros i j b Hi. rewrite Hids in Hi. set_solver. }
  rewrite <- Hids. destruct (take_find (fun b => negb (_has_pages b.1 (full_attention_ids self))) m)
    as (r & -> & Hr & Hbef & Hat). exists r. split; [done|]. split; [done|]. split.
  - destruct (m !! r) as [b|] eqn:Hb.
    2: { apply lookup_ge_None in Hb. intros j Hj _. lia. }
    specialize (Hat b eq_refl). apply negb_true_iff in Hat. unfold _has_pages in Hat.
    destruct (decide (Forall (fun i => _has_page b.1 i = true) (full_attention_ids self))) as [Hall|Hn].
    { exfalso. assert (forallb (_has_page b.1) (full_attention_ids self) = true); [|congruence].
      apply forallb_forall. intros i Hi%list_elem_of_In. by eapply (proj1 (Forall_forall _ _)) in Hall. }
    apply not_Forall_Exists in Hn; [|apply _]. apply Exists_exists in Hn as (i & Hi & Hp). simpl in Hp.
    apply full_ids_spec in Hi as [sink Hin].
    apply (bound_missing i (AttnLifeCycle None sink) (length m) r b Hin Hb);
      [by apply not_true_is_false|intros j Hj _; done|apply full_not_stale].
  - intros i j b Hi Hj Hb. specialize (Hbef j b Hj Hb). apply negb_false_iff in Hbef.
    apply forallb_forall with (x := i) in Hbef; [done|]. by apply list_elem_of_In.
Qed.

Lemma prune_sink_spec k lc :
  (k <= length m)%nat -> bound k -> lc ∈ swa_life_cycles self ->
  exists k', prune_sink (take k m) lc = take k' m /\ (k' <= k)%nat /\ bound k' /\ sink_covered lc k'.
Proof.
  intros Hk Hb Hin. destruct lc as [[i w] sink]. pose proof Hin as Hat%swa_spec. destruct (Hwin _ _ _ Hat) as [_ Hsink].
  unfold prune_sink. rewrite take_take. set (l := take (Z.to_nat sink `min` k) m).
  destruct (decide (l = [])) as [Hl|Hl].
  { rewrite Hl. simpl. exists (if decide (1 < sink) then 0%nat else k).
    assert (H0 : (Z.to_nat sink `min` k = 0)%nat).
    { apply (f_equal length) in Hl. unfold l in Hl. rewrite length_take in Hl. simpl in Hl. lia. }
    destruct (1 <? sink) eqn:E; bool_to_prop.
    - rewrite decide_True by done. assert (k = 0)%nat as -> by lia. rewrite take_0. split; [by rewrite take_nil|].
      split; [done|]. split; [done|]. intros j b Hj. lia.
    - rewrite decide_False by lia. split; [done|]. split; [done|]. split; [done|]. intros j b Hj Hjs Hmj. simpl in Hjs. lia. }
  destruct (find_index_spec (fun b : Block * Z => negb (_has_page b.1 i)) l Hl) as (r & -> & Hr & Hbef & Hat').
  assert (Hlen : length l = (Z.to_nat sink `min` k)%nat) by (unfold l; rewrite length_take; lia).
  assert (Hlook : forall j, (j < length l)%nat -> l !! j = m !! j) by (intros j Hj; unfold l; rewrite lookup_take_lt by lia; done).
  assert (Hcov : sink_covered (i, w, sink) (r `min` k)).
  { intros j b Hj Hjs Hmj. simpl in *. specialize (Hbef j b ltac:(lia)).
    rewrite Hlook in Hbef by lia. by apply negb_false_iff, Hbef. }
  destruct (Z.of_nat r <? sink) eqn:E; bool_to_prop.
  - exists r. rewrite Nat2Z.id, take_take. replace (r `min` k)%nat with r in * by lia. split; [done|].
    split; [lia|]. split; [|done]. destruct (decide (r < length l)%nat) as [Hlt|Hge].
    + destruct (lookup_lt_is_Some_2 l r Hlt) as [b Hlb]. specialize (Hat' b Hlb). rewrite Hlook in Hlb by done.
      apply (bound_missing i (AttnLifeCycle (Some w) sink) k r b Hat Hlb); [by apply negb_true_iff|done|].
      apply (sink_not_stale i); [done| |lia]. pose proof (tokens_mono m k k Hs (le_n _)); lia.
    + intros j Hj Hu. specialize (Hb j Hj Hu). lia.
  - exists k. split; [done|]. split; [done|]. split; [done|].
    intros j b Hj Hjs Hmj. apply (Hcov j b); [simpl in Hjs; lia|done|done].
Qed.

Lemma prune_sinks_spec lcs k :
  (k <= length m)%nat -> bound k -> (forall lc, lc ∈ lcs -> lc ∈ swa_life_cycles self) ->
  exists k', fold_left prune_sink lcs (take k m) = take k' m /\ (k' <= k)%nat /\ bound k'
    /\ forall lc, lc ∈ lcs -> sink_covered lc k'.
Proof.
  revert k. induction lcs as [|lc lcs IH]; intros k Hk Hb Hin; simpl.
  { exists k. split; [done|]. split; [done|]. split; [done|]. set_solver. }
  destruct (prune_sink_spec k lc Hk Hb) as (k1 & -> & Hk1 & Hb1 & Hc1); [set_solver|].
  destruct (IH k1 ltac:(lia) Hb1) as (k2 & -> & Hk2 & Hb2 & Hc2); [set_solver|].
  exists k2. split; [done|]. split; [lia|]. split; [done|]. intros lc' [->|Hl]%elem_of_cons; [|auto].
  intros j b Hj. apply Hc1. lia.
Qed.

(** The last block, seen from the end. *)
Lemma from_end k j : (j < k <= length m)%nat -> reverse (take k m) !! j = m !! (k - 1 - j)%nat.
Proof.
  intros Hj. rewrite reverse_lookup by (rewrite length_take; lia).
  rewrite length_take, lookup_take_lt by lia. f_equal. lia.
Qed.

Lemma usable_last i w sink k b :
  (i, AttnLifeCycle (Some w) sink) ∈ attention_life_cycles reg -> (0 < k <= length m)%nat ->
  usable (take k m) -> m !! (k - 1)%nat = Some b -> _has_page b.1 i = true.
Proof.
  intros Hin Hk [Ha _] Hb. apply (Ha i _ (k - 1)%nat b Hin); [by rewrite lookup_take_lt by lia|].
  by apply (last_not_stale i).
Qed.

Lemma last_take k : (0 < k <= length m)%nat -> last (take k m) = m !! (k - 1)%nat.
Proof.
  intros Hk. rewrite last_lookup, length_take. replace (Init.Nat.pred (k `min` length m)) with (k - 1)%nat by lia.
  by rewrite lookup_take_lt by lia.
Qed.

Lemma prune_ssm_spec k :
  (k <= length m)%nat -> bound k ->
  exists k', prune_ssm self (take k m) = take k' m /\ (k' <= k)%nat /\ bound k'
    /\ forall i b, ssm_life_cycle_id reg = Some i -> last (take k' m) = Some b -> _has_page b.1 i = true.
Proof.
  intros Hk Hb. unfold prune_ssm. destruct (ssm_life_cycle_id reg) as [i|] eqn:Hi.
  2: { exists k. split; [done|]. split; [done|]. split; [done|]. intros i b [=]. }
  destruct (index_of_spec (fun b : Block * Z => _has_page b.1 i) (reverse (take k m)) 0) as (r & -> & Hr & Hbef & Hat).
  rewrite length_reverse, length_take in Hr. exists (k - r)%nat.
  rewrite take_take, length_take. replace (Z.to_nat (0 + Z.of_nat r)) with r by lia.
  replace (((k `min` length m) - r) `min` k)%nat with (k - r)%nat by lia. split; [done|]. split; [lia|]. split.
  - intros j Hj Hu. specialize (Hb j Hj Hu). destruct (Nat.le_gt_cases j (k - r)) as [|Hgt]; [done|]. exfalso.
    destruct (lookup_lt_is_Some_2 m (j - 1)) as [b Hmb]; [lia|].
    specialize (Hbef (k - j)%nat b ltac:(lia)). rewrite from_end in Hbef by lia.
    replace (k - 1 - (k - j))%nat with (j - 1)%nat in Hbef by lia. specialize (Hbef Hmb).
    destruct Hu as [_ Hu]. rewrite (Hu i b) in Hbef; [done|done|]. by rewrite last_take by lia.
  - intros i' b [= <-] Hl. destruct (decide (k - r = 0)%nat) as [H0|H0]; [rewrite H0 in Hl; done|].
    rewrite last_take in Hl by lia. apply Hat. rewrite from_end by lia.
    by replace (k - 1 - r)%nat with (k - r - 1)%nat by lia.
Qed.

Lemma stale_end_nonneg w sink k :
  0 <= sink -> 0 <= end_ (get_stale_range (AttnLifeCycle (Some w) sink) (T k) tpb).
Proof.
  intros Hsink. pose proof (tokens_mono m k k Hs (le_n _)). simpl.
  assert (0 <= div_up (T k) tpb) by (apply Z.div_pos; lia). lia.
Qed.

Lemma window_cut_spec k i w sink :
  (0 < k <= length m)%nat -> bound k -> (i, w, sink) ∈ swa_life_cycles self ->
  match window_cut self (T k) (take k m) (i, w, sink) with
  | Some c => exists k', c = take k' m /\ (k' < k)%nat /\ bound k'
  | None => forall j b, (j < k)%nat -> m !! j = Some b ->
              end_ (get_stale_range (AttnLifeCycle (Some w) sink) (T k) tpb) <= Z.of_nat j -> _has_page b.1 i = true
  end.
Proof.
  intros Hk Hb Hin. pose proof Hin as Hat%swa_spec. destruct (Hwin _ _ _ Hat) as [Hw Hsink].
  pose proof (stale_end_nonneg w sink k Hsink) as He. unfold window_cut.
  set (e := end_ _) in *. rewrite !length_take. replace (k `min` length m)%nat with k by lia.
  destruct (find_index_spec (fun b : Block * Z => _has_page b.1 i) (reverse (take k m))) as (r & -> & Hr & Hbef & Hrat).
  { intros H0. apply (f_equal length) in H0. rewrite length_reverse, length_take in H0. simpl in H0. lia. }
  rewrite length_reverse, length_take in Hr. destruct (Z.of_nat r =? 0) eqn:Hz; bool_to_prop; simpl.
  2: { exists (k - r)%nat. replace (Z.to_nat (Z.of_nat k - Z.of_nat r)) with (k - r)%nat by lia.
       rewrite take_take. replace ((k - r) `min` k)%nat with (k - r)%nat by lia. split; [done|]. split; [lia|].
       intros j Hj Hu. specialize (Hb j Hj Hu). destruct (Nat.le_gt_cases j (k - r)) as [|Hgt]; [done|]. exfalso.
       destruct (lookup_lt_is_Some_2 m (j - 1)) as [b Hmb]; [lia|].
       specialize (Hbef (k - j)%nat b ltac:(lia)). rewrite from_end in Hbef by lia.
       replace (k - 1 - (k - j))%nat with (j - 1)%nat in Hbef by lia. specialize (Hbef Hmb).
       rewrite (usable_last i w sink j b) in Hbef; [done|done|lia|done|done]. }
  set (l := drop (Z.to_nat e) (take k m)).
  assert (Hll : length l = (k - Z.to_nat e)%nat) by (unfold l; rewrite length_drop, length_take; lia).
  destruct (decide (l = [])) as [Hl|Hl].
  { rewrite Hl in *. simpl in Hll |- *. rewrite (proj2 (Z.ltb_ge _ _)) by lia. intros j b Hj Hmj Hej. lia. }
  destruct (find_index_spec (fun b : Block * Z => negb (_has_page b.1 i)) (reverse l)) as (r2 & -> & Hr2 & Hbef2 & Hat2).
  { intros H0. apply Hl. apply (f_equal length) in H0. rewrite length_reverse in H0. by apply nil_length_inv. }
  rewrite length_reverse in Hr2.
  assert (Hlook : forall j, (j < length l)%nat -> reverse l !! j = m !! (k - 1 - j)%nat).
  { intros j Hj. rewrite reverse_lookup by done. rewrite Hll in *. unfold l.
    rewrite lookup_drop, lookup_take_lt by lia. f_equal. lia. }
  destruct (e <? Z.of_nat k - Z.of_nat r2) eqn:E; bool_to_prop.
  - exists (k - 1 - r2)%nat. rewrite take_take.
    replace (Z.to_nat (Z.of_nat k - Z.of_nat r2 - 1) `min` k)%nat with (k - 1 - r2)%nat by lia.
    split; [done|]. split; [lia|]. destruct (lookup_lt_is_Some_2 m (k - 1 - r2)) as [b Hmb]; [lia|].
    apply (bound_missing i (AttnLifeCycle (Some w) sink) k (k - 1 - r2) b Hat Hmb); [|done|].
    + apply negb_true_iff, Hat2. rewrite Hlook by lia. done.
    + unfold in_range. fold e. lia.
  - intros j b Hj Hmj Hej. apply negb_false_iff, (Hbef2 (k - 1 - j)%nat b); [lia|]. rewrite Hlook by lia.
    by replace (k - 1 - (k - 1 - j))%nat with j by lia.
Qed.

(** At the end of the loop the match is usable. *)
Lemma usable_intro k :
  (k <= length m)%nat -> full_covered k -> (forall lc, lc ∈ swa_life_cycles self -> sink_covered lc k) ->
  (forall i w sink j b, (i, w, sink) ∈ swa_life_cycles self -> (j < k)%nat -> m !! j = Some b ->
     end_ (get_stale_range (AttnLifeCycle (Some w) sink) (T k) tpb) <= Z.of_nat j -> _has_page b.1 i = true) ->
  (forall i b, ssm_life_cycle_id reg = Some i -> last (take k m) = Some b -> _has_page b.1 i = true) ->
  usable (take k m).
Proof.
  intros Hk Hfull Hsink Hwc Hssm. split; [|done]. intros i lc j b Hin Hj Hns.
  apply lookup_take_Some in Hj as [Hj Hlt]. destruct lc as [[w|] sink|].
  - pose proof (proj2 (swa_spec i w sink) Hin) as Hswa. destruct (Hwin _ _ _ Hin) as [_ Hs0].
    destruct (Z.lt_ge_cases (Z.of_nat j) sink); [by apply (Hsink _ Hswa j)|].
    apply (Hwc i w sink j b Hswa Hlt Hj). unfold in_range in Hns. simpl in *. lia.
  - apply (Hfull i j b); [|done|done]. apply full_ids_spec. eauto.
  - unfold attention_life_cycles in Hin. apply list_elem_of_In, filter_In in Hin as [_ ?]. done.
Qed.

Lemma omap_nil_inv {A B} (f : A -> option B) l x : omap f l = [] -> x ∈ l -> f x = None.
Proof.
  intros H Hin. destruct (f x) as [y|] eqn:Hf; [|done].
  assert (y ∈ omap f l) by (apply list_elem_of_omap; eauto). rewrite H in *. set_solver.
Qed.

Lemma prune_loop_spec fuel k :
  (k <= length m)%nat -> (k < fuel)%nat -> bound k -> full_covered k ->
  (forall lc, lc ∈ swa_life_cycles self -> sink_covered lc k) ->
  exists k', prune_loop self fuel (take k m) = Ok (take k' m) /\ (k' <= k)%nat /\ bound k' /\ usable (take k' m).
Proof.
  revert k. induction fuel as [|fuel IH]; intros k Hk Hf Hb Hfull Hsink; [lia|].
  assert (Hempty : forall k, bound k -> take k m = [] -> usable (take k m)).
  { intros k' _ H0. rewrite H0. split; [intros i lc j b _ Hj; done|intros i b _ Hl; done]. }
  simpl. destruct (take k m) as [|x l] eqn:Htk.
  { exists k. rewrite Htk. split; [done|]. split; [done|]. split; [done|]. rewrite <- Htk. by apply Hempty. }
  rewrite <- Htk. clear Htk x l. destruct (prune_ssm_spec k Hk Hb) as (k1 & -> & Hk1 & Hb1 & Hssm).
  assert (Hfull1 : full_covered k1) by (intros i j b Hi Hj; apply Hfull; [done|lia]).
  assert (Hsink1 : forall lc, lc ∈ swa_life_cycles self -> sink_covered lc k1)
    by (intros lc Hlc j b Hj; apply Hsink; [done|lia]).
  destruct (take k1 m) as [|x l] eqn:Htk.
  { exists k1. rewrite Htk. split; [done|]. split; [done|]. split; [done|]. rewrite <- Htk. by apply Hempty. }
  assert (0 < k1)%nat by (destruct k1; [done|lia]). rewrite <- Htk in *. clear Htk x l.
  assert (Hcut : forall i w sink, (i, w, sink) ∈ swa_life_cycles self -> _) by
    (intros i w sink Hin; exact (window_cut_spec k1 i w sink ltac:(lia) Hb1 Hin)).
  destruct (omap (window_cut self (T k1) (take k1 m)) (swa_life_cycles self)) as [|c cs] eqn:Ho.
  - exists k1. split; [done|]. split; [done|]. split; [done|]. apply usable_intro; try done; [lia|].
    intros i w sink j b Hin Hj Hmj He. specialize (Hcut i w sink Hin).
    rewrite (omap_nil_inv _ _ _ Ho Hin) in Hcut. by apply (Hcut j b).
  - assert (Hc : c ∈ omap (window_cut self (T k1) (take k1 m)) (swa_life_cycles self)) by (rewrite Ho; set_solver).
    apply list_elem_of_omap in Hc as ([[i w] sink] & Hin & Hc). specialize (Hcut i w sink Hin). rewrite Hc in Hcut.
    destruct Hcut as (k2 & -> & Hk2 & Hb2).
    destruct (IH k2) as (k3 & -> & Hk3 & Hb3 & Hu); [lia|lia|done|intros ? ? ? ? ?; apply Hfull1; [done|lia]| |].
    { intros lc Hlc j b Hj. apply Hsink1; [done|lia]. }
    exists k3. split; [done|]. split; [lia|]. split; done.
Qed.

End cut.

(** Pruning keeps exactly the longest prefix that can be reused. *)
Lemma prune_match_spec m :
  shaped m ->
  exists k, _prune_match self m = Ok (take k m) /\ (k <= length m)%nat /\ usable (take k m)
    /\ forall j, (j <= length m)%nat -> usable (take j m) -> (j <= k)%nat.
Proof.
  intros Hs. unfold _prune_match.
  assert (forallb (fun b : Block * Z => b.2 =? tpb) (removelast m) = true) as ->.
  { apply forallb_forall. intros [b n] Hin%list_elem_of_In. apply list_elem_of_lookup_1 in Hin as [i Hi].
    rewrite removelast_firstn_len in Hi. apply lookup_take_Some in Hi as [Hi Hlt].
    destruct (Hs i b n Hi) as [_ Hf]. simpl. rewrite Hf by lia. apply Z.eqb_refl. }
  cbn [mbind result_bind py_assert]. destruct (prune_full_spec m Hs) as (k1 & -> & Hk1 & Hb1 & Hf1).
  destruct (prune_sinks_spec m Hs (swa_life_cycles self) k1 Hk1 Hb1) as (k2 & -> & Hk2 & Hb2 & Hc2); [done|].
  destruct (prune_loop_spec m Hs (S (length (take k2 m))) k2) as (k3 & -> & Hk3 & Hb3 & Hu); [lia| |done| |done|].
  - rewrite length_take. lia.
  - intros i j b Hi Hj. apply Hf1; [done|lia].
  - exists k3. split; [done|]. split; [lia|]. split; [done|]. intros j Hj Hu'. by apply Hb3.
Qed.

End longest.

(** ** Keys determine tokens and scopes *)

Lemma le_bytes_inj k n n' :
  0 <= n < 256 ^ Z.of_nat k -> 0 <= n' < 256 ^ Z.of_nat k -> le_bytes k n = le_bytes k n' -> n = n'.
Proof.
  revert n n'. induction k as [|k IH]; intros n n' Hn Hn' H; [simpl in *; lia|].
  simpl in H. injection H as Hm H. rewrite Nat2Z.inj_succ, Z.pow_succ_r in Hn, Hn' by lia.
  pose proof (Z.div_mod n 256 ltac:(lia)). pose proof (Z.div_mod n' 256 ltac:(lia)).
  assert (n / 256 = n' / 256); [|lia]. apply IH; [| |done].
  - split; [apply Z.div_pos; lia|]. apply Z.div_lt_upper_bound; lia.
  - split; [apply Z.div_pos; lia|]. apply Z.div_lt_upper_bound; lia.
Qed.

Lemma le_bytes_length k n : length (le_bytes k n) = k.
Proof. revert n. induction k as [|k IH]; intros n; simpl; [done|by rewrite IH]. Qed.

Lemma to_bytes_Ok k n bs : to_bytes k n = Ok bs <-> 0 <= n < 256 ^ Z.of_nat k /\ bs = le_bytes k n.
Proof.
  unfold to_bytes. destruct ((0 <=? n) && (n <? 256 ^ Z.of_nat k)) eqn:E.
  - apply andb_prop in E as [? ?]. bool_to_prop. split; [intros [= <-]|intros [_ ->]]; done.
  - split; [done|]. intros [Hr _]. apply andb_false_iff in E as [E|E]; bool_to_prop; lia.
Qed.

(** The number that bytes stand for, [int.from_bytes(b, "little")]. *)
Fixpoint le_number (bs : list Z) : Z := match bs with [] => 0 | b :: bs' => b + 256 * le_number bs' end.

Lemma le_number_bytes k n : 0 <= n < 256 ^ Z.of_nat k -> le_number (le_bytes k n) = n.
Proof.
  revert n. induction k as [|k IH]; intros n Hn; [simpl in *; lia|]. rewrite Nat2Z.inj_succ, Z.pow_succ_r in Hn by lia.
  cbn [le_bytes le_number]. rewrite IH; [pose proof (Z.div_mod n 256); lia|].
  split; [apply Z.div_pos; lia|apply Z.div_lt_upper_bound; lia].
Qed.

(** Tokens as they are made: ids below [v], digests of [d] bytes that do not start with
    the bytes of an id. *)
Definition token_form (v : Z) (d : nat) (t : Token) : Prop :=
  match t with TokenId n => 0 <= n < v | TokenBytes b => length b = d /\ v <= le_number (take 8 b) end.

Lemma tokens_bytes_cons t ts bs :
  tokens_bytes (t :: ts) = Ok bs <-> exists b bs', token_bytes t = Ok b /\ tokens_bytes ts = Ok bs' /\ bs = b ++ bs'.
Proof.
  unfold tokens_bytes. simpl mapM. split.
  - intros (l & (b & Hb & (l' & Hl' & [= <-])%bind_Ok)%bind_Ok & [= <-])%bind_Ok.
    exists b, (concat l'). by rewrite Hl'.
  - intros (b & bs' & Hb & (l & Hl & [= <-])%bind_Ok & ->). rewrite Hb. cbn [mbind result_bind]. by rewrite Hl.
Qed.

(** The first bytes of a list of tokens tell its first token. *)
Lemma token_bytes_inj v d t t' b b' r r' :
  v <= 256 ^ 8 -> (8 <= d)%nat -> token_form v d t -> token_form v d t' ->
  token_bytes t = Ok b -> token_bytes t' = Ok b' -> b ++ r = b' ++ r' -> t = t' /\ r = r'.
Proof.
  intros Hv Hd Hf Hf' Hb Hb' Heq.
  assert (Hid : forall n x y bs, 0 <= n < v -> to_bytes 8 n = Ok bs -> (8 <= length x)%nat -> bs ++ y = x -> le_number (take 8 x) = n).
  { intros n x y bs Hn [_ ->]%to_bytes_Ok _ <-. rewrite take_app_length' by (symmetry; apply le_bytes_length). apply le_number_bytes. lia. }
  destruct t as [n|x], t' as [n'|x']; cbn [token_bytes token_form] in *.
  - apply to_bytes_Ok in Hb as [Hn ->], Hb' as [Hn' ->]. apply app_inj_1 in Heq as [Hbs ->]; [|by rewrite !le_bytes_length].
    apply le_bytes_inj in Hbs as ->; done.
  - injection Hb' as <-. destruct Hf' as [Hl Hge]. exfalso.
    assert (le_number (take 8 x') = n); [|lia]. rewrite <- (take_app_le x' r') by lia. apply (Hid n _ r b); [done..| |done]. rewrite length_app. lia.
  - injection Hb as <-. destruct Hf as [Hl Hge]. exfalso.
    assert (le_number (take 8 x) = n'); [|lia]. rewrite <- (take_app_le x r) by lia. apply (Hid n' _ r' b'); [done..| |done]. rewrite length_app. lia.
  - injection Hb as <-. injection Hb' as <-. destruct Hf as [Hl _], Hf' as [Hl' _].
    apply app_inj_1 in Heq as [-> ->]; [done|congruence].
Qed.

Lemma token_bytes_not_nil v d t b : (8 <= d)%nat -> token_form v d t -> token_bytes t = Ok b -> b <> [].
Proof.
  intros Hd. destruct t as [n|x]; cbn [token_bytes token_form].
  - intros _ [_ ->]%to_bytes_Ok. done.
  - intros [Hl _] [= <-] ->. simpl in Hl. lia.
Qed.

Lemma tokens_bytes_inj v d ts ts' bs :
  v <= 256 ^ 8 -> (8 <= d)%nat -> Forall (token_form v d) ts -> Forall (token_form v d) ts' ->
  tokens_bytes ts = Ok bs -> tokens_bytes ts' = Ok bs -> ts = ts'.
Proof.
  intros Hv Hd Ht. revert ts' bs. induction Ht as [|t ts Ht1 Ht IH]; intros ts' bs Ht' H H'.
  - injection H as <-. destruct Ht' as [|t' ts' Ht1' Ht']; [done|]. apply tokens_bytes_cons in H' as (b & bs' & Hb & _ & Heq).
    apply token_bytes_not_nil with (1 := Hd) (2 := Ht1') in Hb. by destruct b.
  - apply tokens_bytes_cons in H as (b & bs1 & Hb & Hb1 & ->). destruct Ht' as [|t' ts' Ht1' Ht'].
    { injection H' as Hnil. apply token_bytes_not_nil with (1 := Hd) (2 := Ht1) in Hb. by destruct b. }
    apply tokens_bytes_cons in H' as (b' & bs2 & Hb' & Hb2 & Heq).
    destruct (token_bytes_inj v d t t' b b' bs1 bs2) as [-> ->]; [done..|]. f_equal. by apply (IH ts' bs2).
Qed.

(** The mask says which fields follow, so the encoding of a scope is unique. *)
Lemma scope_bytes_inj s s' bs : scope_to_bytes s = Ok bs -> scope_to_bytes s' = Ok bs -> s = s'.
Proof.
  assert (Hf : forall l r bs, scope_to_bytes (mkScope l r) = Ok bs ->
    exists bl br, field_bytes l = Ok bl /\ field_bytes r = Ok br
      /\ bs = ((if is_none l then 0 else 1) + (if is_none r then 0 else 2)) :: bl ++ br).
  { intros l r cs (mask & Hm & (fs & Hfs & [= <-])%bind_Ok)%bind_Ok. simpl mapM in Hfs.
    apply bind_Ok in Hfs as (bl & Hl & (l1 & (br & Hr & [= <-])%bind_Ok & [= <-])%bind_Ok).
    exists bl, br. split; [done|]. split; [done|]. simpl. rewrite app_nil_r.
    destruct l, r; injection Hm as <-; done. }
  destruct s as [l r], s' as [l' r']. intros (bl & br & Hl & Hr & ->)%Hf (bl' & br' & Hl' & Hr' & Heq)%Hf.
  injection Heq as Hmask Heq. clear Hf.
  assert (Hone : forall o o' b b', field_bytes o = Ok b -> field_bytes o' = Ok b' -> is_none o = is_none o' ->
    length b = length b' /\ (b = b' -> o = o')).
  { intros [v|] [v'|] b b' Hb Hb' Hn; try done; simpl in Hb, Hb'.
    - apply to_bytes_Ok in Hb as [Hv ->], Hb' as [Hv' ->]. rewrite !le_bytes_length. split; [done|].
      intros ->%le_bytes_inj; done.
    - by injection Hb as <-; injection Hb' as <-. }
  assert (is_none l = is_none l' /\ is_none r = is_none r') as [H1 H2] by (destruct l, r, l', r'; done).
  destruct (Hone _ _ _ _ Hl Hl' H1) as [Hlen HL], (Hone _ _ _ _ Hr Hr' H2) as [_ HR].
  apply app_inj_1 in Heq as [Hbl Hbr]; [|done]. by rewrite (HL Hbl), (HR Hbr).
Qed.

(** ** What a match promises *)

Section sound.
Context (sha256 : list Z -> list Z) (self : BlockRadixTree).
Abbreviation tpb := (_tokens_per_block self).

(** A block carries the key of its path, and so do the blocks below it. *)
Inductive block_ok : list Z -> Block -> Prop :=
  | block_ok_intro prev b :
      make_key sha256 prev (tokens b) = Ok (key b) ->
      (forall k c, (k, c) ∈ next b -> k = key c /\ block_ok (key b) c) ->
      block_ok prev b.

Definition children_ok (prev : list Z) (children : list (list Z * Block)) : Prop :=
  forall k c, (k, c) ∈ children -> k = key c /\ block_ok prev c.

Definition tree_ok : Prop :=
  forall k r, (k, r) ∈ tree_next self ->
    k = root_key r /\ root_make_key sha256 (reuse_scope r) = Ok (root_key r) /\ children_ok (root_key r) (root_next r).

(** The blocks of the tree, each with the key of its parent. *)
Inductive below : list Z -> Block -> Prop :=
  | below_root r k c : r ∈ (tree_next self).*2 -> (k, c) ∈ root_next r -> below (root_key r) c
  | below_block p b k c : below p b -> (k, c) ∈ next b -> below (key b) c.

(** What was hashed to build the tree: the scopes of its roots, and for every block the
    key of its parent with the bytes of its tokens. *)
Definition tree_input (x : list Z) : Prop :=
  (exists r, r ∈ (tree_next self).*2 /\ scope_to_bytes (reuse_scope r) = Ok x)
  \/ (exists p b bs, below p b /\ tokens_bytes (tokens b) = Ok bs /\ x = p ++ bs).

(** What is hashed on behalf of a request: its scope, and along its chain of keys the key
    so far with the bytes of the next chunk. *)
Fixpoint chain_inputs (k : list Z) (chunks : list (list Token)) : list (list Z) :=
  match chunks with
  | [] => []
  | c :: chunks' => match tokens_bytes c with Ok bs => (k ++ bs) :: chain_inputs (sha256 (k ++ bs)) chunks' | Err _ => [] end
  end.

Definition request_inputs (scope : ReuseScope) (toks : list Token) : list (list Z) :=
  match scope_to_bytes scope with
  | Ok bs => bs :: chain_inputs (sha256 bs) (chunked (length toks) (Z.to_nat tpb) toks)
  | Err _ => []
  end.

(** One of the inputs in [xs] has the hash of a different input of the tree. *)
Definition collides (xs : list (list Z)) : Prop := exists a b, a ∈ xs /\ tree_input b /\ a <> b /\ sha256 a = sha256 b.

(** The tokens of a request and of the tree are of the form [token_form]. *)
Definition tokens_formed (v : Z) (d : nat) (toks : list Token) : Prop :=
  v <= 256 ^ 8 /\ (8 <= d)%nat /\ Forall (token_form v d) toks /\ forall p b, below p b -> Forall (token_form v d) (tokens b).

Lemma collides_mono xs ys : xs ⊆ ys -> collides xs -> collides ys.
Proof. intros Hsub (a & b & Ha & H). exists a, b. split; [by apply Hsub|done]. Qed.

(** A path in the tree: every block is a child of the one before. *)
Fixpoint linked (children : list (list Z * Block)) (blocks : list Block) : Prop :=
  match blocks with
  | [] => True
  | b :: blocks' => b ∈ children.*2 /\ linked (next b) blocks'
  end.

Lemma dict_find_elem {A} (d : list (list Z * A)) k x : dict_find d k = Some x -> (k, x) ∈ d.
Proof.
  unfold dict_find. intros H. apply fmap_Some in H as ([k' x'] & Hf & ->). apply find_some in Hf as [Hin%list_elem_of_In He].
  apply bool_decide_eq_true in He. simpl in He. by subst k'.
Qed.

(** A block found under the key of a chunk holds the tokens of the chunk. *)
Lemma key_tokens v d k c chunks b :
  tokens_formed v d c -> below k b -> make_key sha256 k (tokens b) = Ok (key b) -> make_key sha256 k c = Ok (key b) ->
  collides (chain_inputs k (c :: chunks)) \/ tokens b = c.
Proof.
  unfold make_key. intros (Hv & Hd & Hf & Hft) Hb (bs & Hbs & [= Hk])%bind_Ok (bs' & Hbs' & [= Hk'])%bind_Ok.
  destruct (decide (bs' = bs)) as [->|Hne]; [right; by apply (tokens_bytes_inj v d _ _ bs Hv Hd (Hft _ _ Hb))|].
  left. exists (k ++ bs'), (k ++ bs). split_and!; [cbn [chain_inputs]; rewrite Hbs'; left| |by intros ?%app_inv_head|congruence].
  right. by exists k, b, bs.
Qed.

Lemma common_prefix_spec a b :
  0 <= common_prefix a b <= len a
  /\ forall t : nat, Z.of_nat t < common_prefix a b -> b !! t = a !! t.
Proof.
  revert b. induction a as [|x a IH]; intros [|y b]; simpl; try (split; [lia|intros t Ht; lia]).
  destruct (IH b) as [Hb Ht]. destruct (bool_decide_reflect (x = y)) as [->|_]; [|split; [lia|intros t ?; lia]].
  split; [lia|]. intros [|t] Hlt; [done|]. simpl. apply Ht. lia.
Qed.

Lemma best_partial_spec children toks b n :
  find_best_partial_match_in_next_nodes children toks = (Some b, n) ->
  b ∈ children.*2 /\ n = common_prefix toks (tokens b) /\ 0 < n.
Proof.
  unfold find_best_partial_match_in_next_nodes. destruct (32 <=? len children); [done|].
  match goal with |- fold_left ?g _ _ = _ -> _ => set (f := g) end.
  assert (H : forall l acc, (forall b n, acc = (Some b, n) -> b ∈ children.*2 /\ n = common_prefix toks (tokens b) /\ 0 < n) ->
    0 <= acc.2 -> (forall c, c ∈ l -> c ∈ children.*2) -> forall b n, fold_left f l acc = (Some b, n) ->
    b ∈ children.*2 /\ n = common_prefix toks (tokens b) /\ 0 < n).
  { clear. intros l. induction l as [|c l IH]; intros acc Hacc H0 Hl b n; [apply Hacc|]. cbn [fold_left].
    apply IH; [| |set_solver]; unfold f; destruct acc as [ob m]; unfold _partial_match_this_node; simpl in H0.
    - destruct (m <? common_prefix toks (tokens c)) eqn:E; bool_to_prop; [|apply Hacc].
      intros b' n' [= <- <-]. split; [set_solver|]. split; [done|lia].
    - destruct (m <? _) eqn:E; bool_to_prop; simpl; lia. }
  apply H; [done|done|done].
Qed.

(** The path below a root, block by block. *)
Lemma match_chunks_spec e k children chunks m :
  children_ok k children -> (forall c, c ∈ chunks -> c <> []) ->
  match_chunks sha256 e k children chunks = Ok m ->
  linked children m.*1
  /\ (forall i b n, m !! i = Some (b, n) -> exists c, chunks !! i = Some c /\ 1 <= n <= len c
        /\ ((S i < length m)%nat -> n = len c)).
Proof.
  revert k children m. induction chunks as [|c chunks IH]; intros k children m Hok Hne Hm.
  { injection Hm as <-. split; [done|]. intros i b n Hi. done. }
  cbn [match_chunks] in Hm. apply bind_Ok in Hm as (k' & Hk' & Hm).
  destruct (dict_find children k') as [b|] eqn:Hf.
  - apply bind_Ok in Hm as (rest & Hrest & [= <-]). apply dict_find_elem in Hf.
    destruct (Hok _ _ Hf) as [-> Hb]. inversion Hb as [? ? Hkey Hnext]; subst.
    destruct (IH _ _ _ Hnext ltac:(set_solver) Hrest) as (Hlink & Hall). split.
    + simpl. split; [|done]. apply list_elem_of_fmap. by exists (key b, b).
    + intros [|i] b' n Hi; [|simpl in Hi |- *].
      * injection Hi as <- <-. exists c. split; [done|].
        assert (c <> []) by set_solver. assert (1 <= len c) by (destruct c; [done|simpl; lia]). done.
      * destruct (Hall i b' n Hi) as (c' & ? & ? & Hfull). exists c'. split; [done|]. split; [done|].
        intros; apply Hfull; lia.
  - assert (Hnil : m = [] -> linked children m.*1 /\ (forall i b n, m !! i = Some (b, n) -> exists c0, (c :: chunks) !! i = Some c0
      /\ 1 <= n <= len c0 /\ ((S i < length m)%nat -> n = len c0))) by (intros ->; split; [done|]; intros i b n Hi; done).
    destruct e; [|injection Hm as <-; by apply Hnil].
    destruct (find_best_partial_match_in_next_nodes children c) as [[b|] n] eqn:Hp;
      injection Hm as <-; [|by apply Hnil].
    apply best_partial_spec in Hp as (Hin & -> & Hpos). destruct (common_prefix_spec c (tokens b)) as [Hc _].
    split; [done|]. intros [|i] b' n Hi; [|done]. injection Hi as <- <-. exists c. split; [done|]. split; [lia|simpl; lia].
Qed.

(** Its blocks hold the tokens of the chunks, unless a hash of the chain collides. *)
Lemma match_chunks_tokens v d e k children chunks m :
  children_ok k children -> (forall k' c, (k', c) ∈ children -> below k c) -> (forall c, c ∈ chunks -> tokens_formed v d c) ->
  match_chunks sha256 e k children chunks = Ok m ->
  collides (chain_inputs k chunks)
  \/ forall i b n c (t : nat), m !! i = Some (b, n) -> chunks !! i = Some c -> Z.of_nat t < n -> tokens b !! t = c !! t.
Proof.
  revert k children m. induction chunks as [|c chunks IH]; intros k children m Hok Hbel Hform Hm.
  { injection Hm as <-. right. intros i b n c t Hi. done. }
  cbn [match_chunks] in Hm. apply bind_Ok in Hm as (k' & Hk' & Hm).
  destruct (dict_find children k') as [b|] eqn:Hf.
  - apply bind_Ok in Hm as (rest & Hrest & [= <-]). apply dict_find_elem in Hf.
    destruct (Hok _ _ Hf) as [-> Hb]. inversion Hb as [? ? Hkey Hnext]; subst. pose proof (Hbel _ _ Hf) as Hb'.
    destruct (key_tokens v d k c chunks b) as [Hcol|Heq]; [by apply Hform; left|done..|by left|].
    destruct (IH (key b) (next b) rest Hnext) as [Hcol|Htok]; [intros k' c' Hin; by eapply below_block| |done| |].
    + intros c' Hc'. apply Hform. by right.
    + left. eapply collides_mono; [|exact Hcol]. apply bind_Ok in Hk' as (bs & Hbs & [= Hk']).
      cbn [chain_inputs]. rewrite Hbs, Hk'. intros x Hx. by right.
    + right. intros [|i] b' n c' t Hi Hc'; [|by apply (Htok i)].
      injection Hi as <- <-. injection Hc' as <-. by rewrite Heq.
  - right. destruct e; [|injection Hm as <-; intros i b n c' t Hi; done].
    destruct (find_best_partial_match_in_next_nodes children c) as [[b|] n] eqn:Hp; injection Hm as <-; [|intros i b' n' c' t Hi; done].
    apply best_partial_spec in Hp as (Hin & -> & Hpos). destruct (common_prefix_spec c (tokens b)) as [_ Heq].
    intros [|i] b' n c' t Hi Hc'; [|done]. injection Hi as <- <-. injection Hc' as <-. apply Heq.
Qed.

(** A token id fits in 8 bytes. *)
Definition valid_token (t : Token) : Prop :=
  match t with TokenId n => 0 <= n < 256 ^ 8 | TokenBytes _ => True end.

Lemma formed_valid v d ts : v <= 256 ^ 8 -> Forall (token_form v d) ts -> Forall valid_token ts.
Proof. intros Hv H. apply (Forall_impl _ _ _ H). intros [n|b]; simpl; [lia|done]. Qed.

Lemma tokens_bytes_total ts : Forall valid_token ts -> exists bs, tokens_bytes ts = Ok bs.
Proof.
  intros H. induction H as [|t ts Hn H [bs IH]]; [by exists []|].
  assert (exists b, token_bytes t = Ok b) as [b Hb]; [|exists (b ++ bs); apply tokens_bytes_cons; eauto].
  destruct t as [n|b]; [|by exists b]. exists (le_bytes 8 n). by apply to_bytes_Ok.
Qed.

Lemma match_chunks_total e k children chunks :
  Forall (Forall valid_token) chunks -> exists m, match_chunks sha256 e k children chunks = Ok m.
Proof.
  intros H. revert k children. induction H as [|c chunks Hc H IH]; intros k children; [by exists []|].
  cbn [match_chunks]. unfold make_key. destruct (tokens_bytes_total c Hc) as [bs ->]. cbn [mbind result_bind].
  destruct (dict_find children _) as [b|].
  - destruct (IH (sha256 (k ++ bs)) (next b)) as [m ->]. by eexists.
  - destruct e; [|by eexists]. destruct (find_best_partial_match_in_next_nodes children c) as [[b|] n]; by eexists.
Qed.

Lemma chunked_spec fuel size toks i c :
  (0 < size)%nat -> (length toks <= fuel)%nat -> chunked fuel size toks !! i = Some c ->
  c = take size (drop (i * size) toks) /\ c <> [].
Proof.
  intros Hs. revert toks i. induction fuel as [|fuel IH]; intros [|t toks] i Hl Hi; [by destruct i|simpl in Hl; lia|by destruct i|].
  cbn [chunked] in Hi. destruct i as [|i].
  - injection Hi as <-. split; [done|]. destruct size; [lia|done].
  - cbn [lookup list_lookup] in Hi. apply IH in Hi; [|rewrite length_drop; simpl in *; lia].
    rewrite drop_drop in Hi. by replace (size + i * size)%nat with (S i * size)%nat in Hi by lia.
Qed.

Lemma chunked_Forall (P : Token -> Prop) fuel size toks : Forall P toks -> Forall (Forall P) (chunked fuel size toks).
Proof.
  revert toks. induction fuel as [|fuel IH]; intros [|t toks] H; [constructor..|]. cbn [chunked].
  constructor; [by apply Forall_take|]. by apply IH, Forall_drop.
Qed.

(** The blocks and token counts a walk may yield for a request. *)
Definition path_ok (toks : list Token) (m : list (Block * Z)) : Prop :=
  forall i b n, m !! i = Some (b, n) ->
    1 <= n <= tpb /\ Z.of_nat i * tpb + n <= len toks /\ ((S i < length m)%nat -> n = tpb).

(** They are a path below the root of the request's scope and hold its tokens. *)
Definition path_owned (scope : ReuseScope) (toks : list Token) (m : list (Block * Z)) : Prop :=
  (m = [] \/ exists r, r ∈ (tree_next self).*2 /\ reuse_scope r = scope /\ linked (root_next r) m.*1)
  /\ forall i b n (t : nat), m !! i = Some (b, n) -> Z.of_nat t < n -> tokens b !! t = toks !! (i * Z.to_nat tpb + t)%nat.

Lemma token_path_ok scope toks e bs :
  0 < tpb -> tree_ok -> scope_to_bytes scope = Ok bs -> Forall valid_token toks ->
  exists m, _match_token_path sha256 self scope toks e = Ok m /\ path_ok toks m
    /\ forall v d, tokens_formed v d toks -> collides (request_inputs scope toks) \/ path_owned scope toks m.
Proof.
  intros Htpb Hok Hbs Ht. unfold _match_token_path, request_inputs. unfold root_make_key at 1. rewrite Hbs. cbn [mbind result_bind].
  destruct (dict_find (tree_next self) (sha256 bs)) as [r|] eqn:Hf.
  2: { exists []. split; [done|]. split; [intros i b n Hi; done|]. right. split; [by left|]. intros i b n t Hi. done. }
  apply dict_find_elem in Hf. destruct (Hok _ _ Hf) as (Hk & Hrk & Hch). rewrite Hk.
  assert (Hr : r ∈ (tree_next self).*2) by (apply list_elem_of_fmap; by exists (sha256 bs, r)).
  set (size := Z.to_nat tpb). set (chunks := chunked (length toks) size toks).
  assert (Hcv : Forall (Forall valid_token) chunks) by by apply chunked_Forall.
  assert (Hsize : (0 < size)%nat) by (unfold size; lia).
  assert (Hchunk : forall i c, chunks !! i = Some c -> c = take size (drop (i * size) toks) /\ c <> [])
    by (intros i c; by apply chunked_spec).
  destruct (match_chunks_total e (root_key r) (root_next r) chunks Hcv) as [m Hm]. exists m. split; [done|].
  destruct (match_chunks_spec e (root_key r) (root_next r) chunks m) as (Hlink & Hall); [done| |done|].
  { intros c Hc. apply list_elem_of_lookup_1 in Hc as [i Hi]. by apply Hchunk in Hi as [_ ?]. }
  assert (Hlen : forall i c, chunks !! i = Some c -> length c = (size `min` (length toks - i * size))%nat)
    by (intros i c [-> _]%Hchunk; by rewrite length_take, length_drop).
  assert (Hz : Z.of_nat size = tpb) by (unfold size; lia).
  split.
  - intros i b n Hi. destruct (Hall i b n Hi) as (c & Hc & Hn & Hfull). pose proof (Hlen i c Hc).
    split; [lia|]. split; [nia|]. intros Hlt. rewrite Hfull by done.
    destruct (lookup_lt_is_Some_2 m (S i) Hlt) as [[b' n'] Hi'].
    destruct (Hall _ _ _ Hi') as (c' & Hc' & Hn' & _). apply Hlen in Hc'. nia.
  - intros v d (Hv & Hd & Hf1 & Hf2). destruct (match_chunks_tokens v d e (root_key r) (root_next r) chunks m) as [Hcol|Htok]; [done| | |done|..].
    { intros k' c Hin. by eapply below_root. }
    { intros c Hc. split_and!; [done..| |done]. assert (Hcf : Forall (Forall (token_form v d)) chunks) by by apply chunked_Forall.
      rewrite Forall_forall in Hcf. by apply Hcf. }
    { left. eapply collides_mono; [|exact Hcol]. intros x Hx. right. done. }
    unfold root_make_key in Hrk. apply bind_Ok in Hrk as (bs' & Hbs' & [= Heq]).
    destruct (decide (bs = bs')) as [->|Hne].
    2: { left. exists bs, bs'. split_and!; [left|left; eauto|done|congruence]. }
    right. split.
    + right. exists r. split; [done|]. split; [by apply (scope_bytes_inj _ _ bs')|done].
    + intros i b n t Hi Hlt. destruct (Hall i b n Hi) as (c & Hc & Hn & _). rewrite (Htok i b n c t Hi Hc Hlt).
      pose proof (Hlen i c Hc). apply Hchunk in Hc as [-> _]. rewrite lookup_take_lt by lia. by rewrite lookup_drop.
Qed.

End sound.

(** What [AttnLifeCycle.make] asserts of a registry, except that windows of a
    single token are left out. *)
Definition windows_ok (reg : LifeCycleRegistry) : Prop :=
  forall i w sink, (i, AttnLifeCycle (Some w) sink) ∈ attention_life_cycles reg -> 2 <= w /\ 0 <= sink.

Lemma path_shaped self toks m : path_ok self toks m -> shaped self m.
Proof. intros H i b n Hi. destruct (H i b n Hi) as (? & _ & ?). done. Qed.

Lemma linked_take children m k : linked children m -> linked children (take k m).
Proof.
  revert children k. induction m as [|b m IH]; intros children [|k] H; [done..|]. destruct H as [Hin H].
  split; [done|]. by apply IH.
Qed.

(** The number of tokens a prefix of a path accounts for. *)
Lemma matched_count self toks path k :
  0 < _tokens_per_block self -> path_ok self toks path ->
  0 <= _num_matched_tokens self (take k path) <= len toks
  /\ len (take k path) = div_up (_num_matched_tokens self (take k path)) (_tokens_per_block self)
  /\ forall i b c, take k path !! i = Some (b, c) ->
       _num_matched_tokens self (take k path) = Z.of_nat i * _tokens_per_block self + c \/ c = _tokens_per_block self.
Proof.
  intros Htpb Hpath. pose proof (shaped_take self path k (path_shaped _ _ _ Hpath)) as Hsm. pose proof Hpath as Hall.
  assert (Hlook : forall i x, take k path !! i = Some x -> path !! i = Some x) by (intros i x Hi; by apply lookup_take_Some in Hi as [? _]).
  set (m := take k path) in *. unfold _num_matched_tokens. destruct (last m) as [[b c]|] eqn:Hl.
  - rewrite last_lookup in Hl. destruct (Hall _ _ _ (Hlook _ _ Hl)) as (Hc & Hlen & _).
    assert (0 < length m)%nat by (destruct m; [done|simpl; lia]).
    split; [nia|]. split.
    + unfold div_up. apply Z.div_unique with (r := c - 1); [lia|]. nia.
    + intros i b' c' Hi. destruct (Hsm _ _ _ Hi) as [_ Hf].
      destruct (decide (S i < length m)%nat) as [Hlt|Hge]; [right; by apply Hf|left].
      pose proof (lookup_lt_Some _ _ _ Hi). replace (Init.Nat.pred (length m)) with i in Hl by lia.
      rewrite Hl in Hi. injection Hi as _ <-. nia.
  - apply last_None in Hl. rewrite Hl. split; [lia|]. split; [|intros i b c Hi; done].
    unfold div_up. rewrite Z.div_small; simpl; lia.
Qed.

(** C14. For a request in a well-formed tree, [match] returns the longest prefix
    of the path the tree holds for it whose pages suffice to continue from there:
    all blocks that are not stale for every attention life cycle and the snapshot
    of the last block for state-space layers. *)
Theorem match_longest sha256 self scope toks e bs :
  0 < _tokens_per_block self -> windows_ok (_life_cycles self) -> tree_ok sha256 self ->
  scope_to_bytes scope = Ok bs -> Forall valid_token toks ->
  exists path k, _match_token_path sha256 self scope toks e = Ok path /\ (k <= length path)%nat
    /\ match_ sha256 self scope toks e = Ok ((take k path).*1, _num_matched_tokens self (take k path))
    /\ usable self (take k path)
    /\ forall j, (j <= length path)%nat -> usable self (take j path) -> (j <= k)%nat.
Proof.
  intros Htpb Hwin Hok Hbs Ht. destruct (token_path_ok sha256 self scope toks e bs) as (path & Hp & Hpath & _); [done..|].
  destruct (prune_match_spec self Htpb Hwin path) as (k & Hk & Hle & Hu & Hmax); [by eapply path_shaped|].
  exists path, k. unfold match_. rewrite Hp. cbn [mbind result_bind]. rewrite Hk. done.
Qed.

(** A tree of two blocks below one root, with the identity as hash. *)
Definition wit_key (prev : list Z) (ts : list Token) : list Z :=
  match make_key (fun l => l) prev ts with Ok k => k | Err _ => [] end.

Definition wit_b2 : Block :=
  mkBlock (wit_key (wit_key [0] [TokenId 1; TokenId 2]) [TokenId 3; TokenId 4]) [TokenId 3; TokenId 4] [true; true] [].
Definition wit_b1 : Block := mkBlock (wit_key [0] [TokenId 1; TokenId 2]) [TokenId 1; TokenId 2] [true; false] [(key wit_b2, wit_b2)].

Definition wit_tree : BlockRadixTree :=
  {| _life_cycles := {| _life_cycle_list := [AttnLifeCycle None 0; AttnLifeCycle (Some 2) 0];
                        _life_cycle_id_dict := [(AttnLifeCycle None 0, 0); (AttnLifeCycle (Some 2) 0, 1)] |};
     _tokens_per_block := 2;
     tree_next := [([0], mkRoot [0] (mkScope None None) [(key wit_b1, wit_b1)])] |}.

Definition wit_request : list Token := [TokenId 1; TokenId 2; TokenId 3; TokenId 9].

Lemma wit_tree_ok : tree_ok (fun l => l) wit_tree.
Proof.
  intros k r [= -> ->]%list_elem_of_singleton. split; [done|]. split; [reflexivity|].
  intros k c [= -> ->]%list_elem_of_singleton. split; [done|]. constructor; [reflexivity|].
  intros k c [= -> ->]%list_elem_of_singleton. split; [done|]. constructor; [reflexivity|].
  intros k c Hin. by apply not_elem_of_nil in Hin.
Qed.

Lemma wit_windows : windows_ok (_life_cycles wit_tree).
Proof.
  intros i w sink Hin. change (_ ∈ _) with ((i, AttnLifeCycle (Some w) sink) ∈ [(0, AttnLifeCycle None 0); (1, AttnLifeCycle (Some 2) 0)]) in Hin.
  set_unfold in Hin. destruct Hin as [Hin|[Hin|[]]]; simplify_eq. lia.
Qed.

Lemma match_longest_witness : exists path k,
  _match_token_path (fun l => l) wit_tree (mkScope None None) wit_request true = Ok path /\ (k <= length path)%nat
  /\ match_ (fun l => l) wit_tree (mkScope None None) wit_request true
       = Ok ((take k path).*1, _num_matched_tokens wit_tree (take k path))
  /\ usable wit_tree (take k path)
  /\ forall j, (j <= length path)%nat -> usable wit_tree (take j path) -> (j <= k)%nat.
Proof.
  apply (match_longest (fun l => l) wit_tree (mkScope None None) wit_request true [0]);
    [reflexivity|apply wit_windows|apply wit_tree_ok|reflexivity|by repeat constructor].
Defined.

(** C23. A match never lends a request someone else's cache.  The tokens may be ids and
    digests of multimodal data, as long as no digest starts like an id.  Then, unless one of
    the hashes computed for the request is that of a different input the tree was built
    from, the matched blocks are a path below the root of the request's own scope, and
    every matched position holds the request's token. *)
Theorem match_sound sha256 self scope toks e bs blocks n v d :
  0 < _tokens_per_block self -> tree_ok sha256 self -> scope_to_bytes scope = Ok bs -> tokens_formed self v d toks ->
  match_ sha256 self scope toks e = Ok (blocks, n) ->
  0 <= n <= len toks /\ len blocks = div_up n (_tokens_per_block self)
  /\ (collides sha256 self (request_inputs sha256 self scope toks)
      \/ ((blocks = [] \/ exists r, r ∈ (tree_next self).*2 /\ reuse_scope r = scope /\ linked (root_next r) blocks)
          /\ forall i b (t : nat), blocks !! i = Some b -> Z.of_nat t < _tokens_per_block self ->
               Z.of_nat i * _tokens_per_block self + Z.of_nat t < n ->
               tokens b !! t = toks !! (i * Z.to_nat (_tokens_per_block self) + t)%nat)).
Proof.
  intros Htpb Hok Hbs Hform Hm. destruct (token_path_ok sha256 self scope toks e bs) as (path & Hp & Hpath & Hown); [done..| |].
  { destruct Hform as (Hv & _ & Hf & _). by eapply formed_valid. }
  unfold match_ in Hm. rewrite Hp in Hm. cbn [mbind result_bind] in Hm. apply bind_Ok in Hm as (m & Hpr & [= <- <-]).
  apply prune_match_take in Hpr as [k ->]. set (m := take k path). set (N := _num_matched_tokens self m).
  assert (Hlook : forall i x, m !! i = Some x -> path !! i = Some x) by (intros i x Hi; by apply lookup_take_Some in Hi as [? _]).
  destruct (matched_count self toks path k Htpb) as (HN & Hlen & Hcount); [done|]. fold m N in HN, Hlen, Hcount.
  split; [done|]. split; [by rewrite length_fmap|].
  destruct (Hown v d Hform) as [|[Hroot Htok]]; [by left|right]. split.
  - destruct Hroot as [Hnil|(r & Hr & Hsc & Hlink)]; [left; unfold m; rewrite Hnil; by destruct k|right].
    exists r. split; [done|]. split; [done|]. unfold m. rewrite fmap_take. by apply linked_take.
  - intros i b t Hi Hlt HltN. apply list_lookup_fmap_Some in Hi as ([b' c] & -> & Hi).
    apply (Htok i b' c); [by apply Hlook|]. destruct (Hcount i b' c Hi); lia.
Qed.

Lemma wit_tokens_formed : tokens_formed wit_tree (256 ^ 8) 8 wit_request.
Proof.
  split_and!; [done|done|repeat constructor; done|]. intros p b Hb.
  assert (b = wit_b1 \/ b = wit_b2) as [-> | ->]; [|by repeat constructor..].
  induction Hb as [r k c Hr Hc|p b k c _ IH Hc].
  - apply list_elem_of_singleton in Hr as ->. apply list_elem_of_singleton in Hc as [= _ ->]. by left.
  - destruct IH as [-> | ->]; [|by apply not_elem_of_nil in Hc]. apply list_elem_of_singleton in Hc as [= _ ->]. by right.
Qed.

Lemma match_sound_witness :
  match_ (fun l => l) wit_tree (mkScope None None) wit_request true = Ok ([wit_b1; wit_b2], 3)
  /\ exists r, r ∈ (tree_next wit_tree).*2 /\ reuse_scope r = mkScope None None /\ linked (root_next r) [wit_b1; wit_b2].
Proof.
  assert (Hm : match_ (fun l => l) wit_tree (mkScope None None) wit_request true = Ok ([wit_b1; wit_b2], 3)) by (vm_compute; reflexivity).
  split; [exact Hm|].
  destruct (match_sound (fun l => l) wit_tree (mkScope None None) wit_request true [0] _ _ _ _ eq_refl wit_tree_ok eq_refl wit_tokens_formed Hm)
    as (_ & _ & [(a & b & _ & _ & Hne & Heq)|[[Hnil|Hr] _]]); [destruct (Hne Heq)|discriminate Hnil|exact Hr].
Defined.
