(* ===== verification/RadixUpdate.v ===== *)
(** * Updates of the block radix tree

    The operations of [runtime/kv_cache_manager_v2/_block_radix_tree.py] that
    change the tree: adding the root of a scope, adding a block below another,
    taking a page away, and dropping a subtree.  A pointer to a block is the
    list of keys on its path.  The tree has no event manager here, and debug
    assertions are off ([NDEBUG], the default).

    The invariant of the tree, which every operation keeps, is what matching
    relies on; blocks that were dropped from the tree but are still held
    elsewhere are not part of it. *)

From stdpp Require Import prelude.
From S2P Require Import Prelude LifeCycle RadixTree.
Local Open Scope Z_scope.
#[local] Set Warnings "-register-all".

(** ** Dictionaries in insertion order *)

(** [d[k] = x] for a key that is present *)
Fixpoint dict_set {A} (d : list (list Z * A)) (k : list Z) (x : A) : list (list Z * A) :=
  match d with
  | [] => []
  | (k', y) :: d' => if bool_decide (k' = k) then (k', x) :: d' else (k', y) :: dict_set d' k x
  end.

(** [d.pop(k)] *)
Definition dict_del {A} (d : list (list Z * A)) (k : list Z) : list (list Z * A) :=
  List.filter (fun p => negb (bool_decide (p.1 = k))) d.

Definition set_next (b : Block) (ch : list (list Z * Block)) : Block :=
  mkBlock (key b) (tokens b) (storage b) ch.
Definition set_storage (b : Block) (st : list bool) : Block := mkBlock (key b) (tokens b) st (next b).

Definition is_nil {A} (l : list A) : bool := match l with [] => true | _ => false end.

(** ** Adding *)

Section update.
Context (sha256 : list Z -> list Z).

Definition RootBlock_init (scope : ReuseScope) (prev : BlockRadixTree) : result (BlockRadixTree * RootBlock) :=
  key ← root_make_key sha256 scope;
  _ ← py_assert (is_none (dict_find (tree_next prev) key));
  let self := mkRoot key scope [] in
  Ok (mkTree (_life_cycles prev) (_tokens_per_block prev) (tree_next prev ++ [(key, self)]), self).

Definition add_or_get_existing (self : BlockRadixTree) (scope : ReuseScope) : result (BlockRadixTree * RootBlock) :=
  key ← root_make_key sha256 scope;
  match dict_find (tree_next self) key with
  | Some r => Ok (self, r)
  | None => RootBlock_init scope self
  end.

(** The property [tokens_per_block] of a block, from the blocks above it,
    nearest first: the tree's value below the root, else the length of the
    block above. *)
Definition tokens_per_block (tree_tpb : Z) (ancestors : list Block) : Z :=
  match ancestors with [] => tree_tpb | p :: _ => len (tokens p) end.

(** What [Block(tokens, prev)] does: the exception carries the covering block. *)
Inductive init_outcome :=
  | Created (b : Block) (siblings : list (list Z * Block))
  | UselessBlockError (b : Block).

Section below.
Context (tree_tpb : Z) (num_life_cycles : nat).

(** [prevs] is [prev] and the blocks above it, nearest first; it is empty when
    [prev] is a root. *)
Definition Block_init (prevs : list Block) (prev_key : list Z) (prev_next : list (list Z * Block))
    (toks : list Token) : result init_outcome :=
  let prev_tokens_per_block := tokens_per_block tree_tpb (tail prevs) in
  let prev_prev_tokens_per_block := tokens_per_block tree_tpb (tail (tail prevs)) in
  _ ← py_assert (prev_tokens_per_block =? prev_prev_tokens_per_block);
  key ← make_key sha256 prev_key toks;
  let self := mkBlock key toks (replicate num_life_cycles false) [] in
  match dict_find prev_next key with
  | Some b => Ok (UselessBlockError b)
  | None =>
      let covering :=
        if len toks <? tokens_per_block tree_tpb prevs then
          List.find (fun b => bool_decide (take (length toks) (tokens b) = toks)) prev_next.*2
        else None in
      match covering with
      | Some b => Ok (UselessBlockError b)
      | None =>
          let covered b := (len (tokens b) <? len toks) && bool_decide (take (length (tokens b)) toks = tokens b) in
          Ok (Created self (List.filter (fun p => negb (covered p.2)) prev_next ++ [(key, self)]))
      end
  end.

(** [Block(tokens, prev)] for the block [prev] at [path]. *)
Fixpoint new_block (prevs : list Block) (prev_key : list Z) (prev_next : list (list Z * Block))
    (path : list (list Z)) (toks : list Token) : result init_outcome :=
  match path with
  | [] => Block_init prevs prev_key prev_next toks
  | k :: path' =>
      match dict_find prev_next k with
      | None => Err KeyError
      | Some b =>
          r ← new_block (b :: prevs) (key b) (next b) path' toks;
          Ok match r with
             | Created c ch => Created c (dict_set prev_next k (set_next b ch))
             | UselessBlockError c => UselessBlockError c
             end
      end
  end.

End below.

Definition set_root_next (self : BlockRadixTree) (root : list Z) (ch : list (list Z * Block)) : BlockRadixTree :=
  match dict_find (tree_next self) root with
  | None => self
  | Some r => mkTree (_life_cycles self) (_tokens_per_block self)
                (dict_set (tree_next self) root (mkRoot (root_key r) (reuse_scope r) ch))
  end.

(** A new block in the tree: [num_life_cycles] comes down from the registry. *)
Definition tree_new_block (self : BlockRadixTree) (root : list Z) (path : list (list Z)) (toks : list Token)
    : result (BlockRadixTree * Block) :=
  num_life_cycles ← registry_size (_life_cycles self);
  match dict_find (tree_next self) root with
  | None => Err KeyError
  | Some r =>
      o ← new_block (_tokens_per_block self) (Z.to_nat num_life_cycles) [] (root_key r) (root_next r) path toks;
      Ok match o with
         | Created b ch => (set_root_next self root ch, b)
         | UselessBlockError b => (self, b)
         end
  end.

End update.

(** ** Pages *)

(** [block.storage[lc] = ref(page)], as a commit does. *)
Fixpoint set_page (lc : Z) (path : list (list Z)) (children : list (list Z * Block)) : result (list (list Z * Block)) :=
  match path with
  | [] => Err KeyError
  | k :: path' =>
      match dict_find children k with
      | None => Err KeyError
      | Some b =>
          match path' with
          | [] => st ← py_set (storage b) lc true; Ok (dict_set children k (set_storage b st))
          | _ => ch ← set_page lc path' (next b); Ok (dict_set children k (set_next b ch))
          end
      end
  end.

(** Blocks are needed for good by full attention and by the sink. *)
Definition drops_subtree (lc : LifeCycle) (ordinal : Z) : bool :=
  match lc with
  | AttnLifeCycle None _ => true
  | AttnLifeCycle (Some _) num_sink_blocks => ordinal <? num_sink_blocks
  | SsmLifeCycle => false
  end.

(** The condition of the closing loop of [unset_page]. *)
Definition is_useless (lc_idx : Z) (curr : Block) : result bool :=
  page ← py_get (storage curr) lc_idx; Ok (negb page && is_nil (next curr)).

(** [unset_page] of the block at [path], whose first block has ordinal
    [ordinal].  The flag says whether the closing loop, which walks up while
    blocks are of no use, goes on above these children. *)
Fixpoint unset_page (lc_idx : Z) (lc : LifeCycle) (ordinal : Z) (path : list (list Z)) (children : list (list Z * Block))
    : result (list (list Z * Block) * bool) :=
  match path with
  | [] => Err KeyError
  | k :: path' =>
      match dict_find children k with
      | None => Err KeyError
      | Some b =>
          match path' with
          | [] =>
              page ← py_get (storage b) lc_idx;
              if negb (page : bool) then Ok (children, false)
              else
                st ← py_set (storage b) lc_idx false;
                if drops_subtree lc ordinal || is_nil (next b) then Ok (dict_del children k, true)
                else Ok (dict_set children k (set_storage b st), false)
          | _ =>
              r ← unset_page lc_idx lc (ordinal + 1) path' (next b);
              useless ← (if r.2 : bool then is_useless lc_idx (set_next b r.1) else Ok false);
              if useless : bool then Ok (dict_del children k, true)
              else Ok (dict_set children k (set_next b r.1), false)
          end
      end
  end.

(** ** Dropping a subtree *)

Inductive Node := NRoot (r : RootBlock) | NBlock (b : Block).

Definition node_key (n : Node) : list Z := match n with NRoot r => root_key r | NBlock b => key b end.
Definition node_next (n : Node) : list (list Z * Block) := match n with NRoot r => root_next r | NBlock b => next b end.
Definition node_pop (n : Node) (k : list Z) : Node :=
  match n with
  | NRoot r => NRoot (mkRoot (root_key r) (reuse_scope r) (dict_del (root_next r) k))
  | NBlock b => NBlock (set_next b (dict_del (next b) k))
  end.

(** The pages of a block: its key and the life cycles that have one. *)
Definition block_pages (b : Block) : list (list Z * nat) :=
  omap (fun p : nat * bool => if p.2 then Some (key b, p.1) else None) (imap pair (storage b)).

(** [remove_subtree]: the hashes of the removed blocks and their pages.  [stack]
    holds the nodes from [root] down to the parent of [block]. *)
Fixpoint remove_loop (fuel : nat) (stack : list Node) (block : Node) (removed_block_hashes : list (list Z))
    (ret : list (list Z * nat)) : result (list (list Z) * list (list Z * nat)) :=
  match fuel with
  | O => Err OutOfFuel
  | S fuel' =>
      match node_next block with
      | (_, c) :: _ => remove_loop fuel' (block :: stack) (NBlock c) removed_block_hashes ret
      | [] =>
          let '(removed_block_hashes, ret) :=
            match block with
            | NBlock b => (removed_block_hashes ++ [key b], ret ++ block_pages b)
            | NRoot _ => (removed_block_hashes, ret)
            end in
          match stack with
          | [] => Ok (removed_block_hashes, ret)
          | prev :: stack' => remove_loop fuel' stack' (node_pop prev (node_key block)) removed_block_hashes ret
          end
      end
  end.

Fixpoint block_size (b : Block) : nat :=
  S ((fix sizes (l : list (list Z * Block)) : nat :=
        match l with [] => O | (_, c) :: l' => (block_size c + sizes l')%nat end) (next b)).

Definition node_size (n : Node) : nat := S (sum_list_with (fun p => block_size p.2) (node_next n)).

Definition remove_subtree (root : Node) : result (list (list Z) * list (list Z * nat)) :=
  remove_loop (2 * node_size root) [] root [] [].

(** [clear] *)
Definition clear (self : BlockRadixTree) : result (BlockRadixTree * list (list Z * nat)) :=
  ret ← for_each (fun ret r => x ← remove_subtree (NRoot r); Ok (ret ++ x.2)) [] (tree_next self).*2;
  Ok (mkTree (_life_cycles self) (_tokens_per_block self) [], ret).

(** ** Dictionaries *)

Lemma dict_find_None {A} (d : list (list Z * A)) k : dict_find d k = None -> k ∉ d.*1.
Proof.
  unfold dict_find. intros H%fmap_None Hin. apply list_elem_of_fmap in Hin as ([k' x] & -> & Hin).
  apply list_elem_of_In in Hin. apply (List.find_none _ _ H) in Hin. simpl in Hin. by bool_to_prop.
Qed.

Lemma dict_find_Some {A} (d : list (list Z * A)) k x : NoDup d.*1 -> dict_find d k = Some x <-> (k, x) ∈ d.
Proof.
  intros Hnd. split; [apply dict_find_elem|]. induction d as [|[k' y] d IH]; intros Hin; [by apply not_elem_of_nil in Hin|].
  apply NoDup_cons in Hnd as [Hk Hnd]. unfold dict_find. simpl. case_bool_decide as Heq.
  - subst. apply elem_of_cons in Hin as [[= ->]|Hin]; [done|]. exfalso. apply Hk. apply list_elem_of_fmap. by exists (k, x).
  - apply IH; [done|]. apply elem_of_cons in Hin as [[= -> ->]|Hin]; done.
Qed.

Lemma dict_find_app {A} (d d' : list (list Z * A)) k :
  dict_find (d ++ d') k = match dict_find d k with Some x => Some x | None => dict_find d' k end.
Proof. unfold dict_find. induction d as [|[k' y] d IH]; simpl; [done|]. by case_bool_decide. Qed.

Lemma dict_set_keys {A} (d : list (list Z * A)) k x : (dict_set d k x).*1 = d.*1.
Proof. induction d as [|[k' y] d IH]; simpl; [done|]. case_bool_decide; simpl; [done|]. f_equal. exact IH. Qed.

Lemma dict_set_elem {A} (d : list (list Z * A)) k x k' y :
  NoDup d.*1 -> (k', y) ∈ dict_set d k x -> (k' = k /\ y = x) \/ (k' <> k /\ (k', y) ∈ d).
Proof.
  induction d as [|[k1 y1] d IH]; intros Hnd Hin; simpl in Hin; [by apply not_elem_of_nil in Hin|].
  apply NoDup_cons in Hnd as [Hk Hnd]. case_bool_decide as Heq.
  - apply elem_of_cons in Hin as [[= -> ->]|Hin]; [by left|right]. split; [|by right].
    intros ->. subst. apply Hk. apply list_elem_of_fmap. by exists (k, y).
  - apply elem_of_cons in Hin as [[= -> ->]|Hin]; [right; split; [done|by left]|].
    destruct (IH Hnd Hin) as [|[? ?]]; [by left|right]. split; [done|by right].
Qed.

Lemma dict_find_set {A} (d : list (list Z * A)) k x y : dict_find d k = Some y -> dict_find (dict_set d k x) k = Some x.
Proof.
  unfold dict_find. induction d as [|[k1 y1] d IH]; simpl; [done|]. case_bool_decide as Heq; simpl.
  - by rewrite bool_decide_eq_true_2.
  - intros H. rewrite bool_decide_eq_false_2 by done. by apply IH.
Qed.

Lemma dict_set_not_nil {A} (d : list (list Z * A)) k x y : dict_find d k = Some y -> dict_set d k x <> [].
Proof. destruct d as [|[k1 y1] d]; simpl; [done|]. by case_bool_decide. Qed.

Lemma dict_find_set_ne {A} (d : list (list Z * A)) k k' x : k' <> k -> dict_find (dict_set d k x) k' = dict_find d k'.
Proof.
  intros Hne. unfold dict_find. induction d as [|[k1 y1] d IH]; simpl; [done|]. case_bool_decide as Heq; simpl.
  - subst. by rewrite bool_decide_eq_false_2.
  - by case_bool_decide.
Qed.

Lemma dict_del_elem {A} (d : list (list Z * A)) k p : p ∈ dict_del d k <-> p ∈ d /\ p.1 <> k.
Proof.
  unfold dict_del. rewrite !list_elem_of_In, filter_In, negb_true_iff, bool_decide_eq_false. done.
Qed.

Lemma filter_keys_nodup {A} (f : list Z * A -> bool) d : NoDup d.*1 -> NoDup (List.filter f d).*1.
Proof.
  induction d as [|[k c] d IH]; intros Hnd; [done|]. apply NoDup_cons in Hnd as [Hk Hnd]. simpl.
  destruct (f (k, c)); [|by apply IH]. simpl. constructor; [|by apply IH].
  intros ([k' c'] & -> & Hin)%list_elem_of_fmap. apply Hk, list_elem_of_fmap. exists (k', c'). split; [done|].
  by apply list_elem_of_In, filter_In, proj1, list_elem_of_In in Hin.
Qed.

(** ** The invariant *)

(** No block is covered by a sibling. *)
Definition antichain (ch : list (list Z * Block)) : Prop :=
  forall p q, p ∈ ch -> q ∈ ch -> tokens p.2 `prefix_of` tokens q.2 -> p.1 = q.1.

Section invariant.
Context (sha256 : list Z -> list Z) (tpb : Z).

(** Keys are those of the paths, blocks are not empty and at most full, and only
    full blocks have blocks below them. *)
Inductive wf_block : list Z -> Block -> Prop :=
  | wf_block_intro prev b :
      make_key sha256 prev (tokens b) = Ok (key b) ->
      1 <= len (tokens b) <= tpb -> (next b <> [] -> len (tokens b) = tpb) ->
      NoDup (next b).*1 -> antichain (next b) ->
      (forall k c, (k, c) ∈ next b -> k = key c) -> (forall k c, (k, c) ∈ next b -> wf_block (key b) c) ->
      wf_block prev b.

Definition wf_children (prev : list Z) (ch : list (list Z * Block)) : Prop :=
  NoDup ch.*1 /\ antichain ch /\ forall k c, (k, c) ∈ ch -> k = key c /\ wf_block prev c.

Lemma wf_block_inv prev b :
  wf_block prev b <->
  make_key sha256 prev (tokens b) = Ok (key b) /\ 1 <= len (tokens b) <= tpb
  /\ (next b <> [] -> len (tokens b) = tpb) /\ wf_children (key b) (next b).
Proof.
  split.
  - inversion 1; subst. do 3 (split; [assumption|]). do 2 (split; [assumption|]). intros k c Hin. split; [auto|eauto].
  - intros (? & ? & ? & ? & ? & H). constructor; [assumption..| |]; intros k c Hin; apply (H k c Hin).
Qed.

Lemma wf_block_ok prev b : wf_block prev b -> block_ok sha256 prev b.
Proof. induction 1 as [prev b ? ? ? ? ? Hk Hch IH]. constructor; [done..|]. intros k c Hin. split; [by apply Hk|by eapply IH]. Qed.

Lemma wf_children_ok prev ch : wf_children prev ch -> children_ok sha256 prev ch.
Proof. intros (_ & _ & H) k c Hin. destruct (H k c Hin). split; [done|]. by apply wf_block_ok. Qed.

(** Replacing a block by one with the same key and tokens. *)
Lemma wf_children_set prev ch k b b' :
  wf_children prev ch -> dict_find ch k = Some b -> key b' = key b -> tokens b' = tokens b -> wf_block prev b' ->
  wf_children prev (dict_set ch k b').
Proof.
  intros (Hnd & Ha & Hw) Hf Hk Ht Hb'. apply dict_find_elem in Hf. split; [by rewrite dict_set_keys|]. split.
  - assert (Hold : forall p, p ∈ dict_set ch k b' -> exists q, q ∈ ch /\ q.1 = p.1 /\ tokens q.2 = tokens p.2).
    { intros [k' c] [[-> ->]|[_ Hin]]%dict_set_elem; [by exists (k, b)|by exists (k', c)|done]. }
    intros p q (p' & Hp & <- & Hpt)%Hold (q' & Hq & <- & Hqt)%Hold Hpre. apply Ha; [done..|]. by rewrite Hpt, Hqt.
  - intros k' c [[-> ->]|[_ Hin]]%dict_set_elem; [|by apply Hw|done]. destruct (Hw _ _ Hf) as [-> _]. done.
Qed.

Lemma wf_children_filter prev ch f : wf_children prev ch -> wf_children prev (List.filter f ch).
Proof.
  intros (Hnd & Ha & Hw).
  assert (Hin : forall p, p ∈ List.filter f ch -> p ∈ ch) by (intros p; rewrite !list_elem_of_In, filter_In; tauto).
  split; [by apply filter_keys_nodup|]. split.
  - intros p q Hp Hq. apply Ha; by apply Hin.
  - intros k c Hc. by apply Hw, Hin.
Qed.

Lemma wf_children_del prev ch k : wf_children prev ch -> wf_children prev (dict_del ch k).
Proof. apply wf_children_filter. Qed.

Lemma wf_child prev ch k b : wf_children prev ch -> dict_find ch k = Some b -> k = key b /\ wf_block prev b.
Proof. intros (_ & _ & H) Hf%dict_find_elem. by apply H. Qed.

(** Changing what is below a full block. *)
Lemma wf_set_next prev b ch :
  wf_block prev b -> wf_children (key b) ch -> (ch <> [] -> len (tokens b) = tpb) -> wf_block prev (set_next b ch).
Proof. rewrite !wf_block_inv. intros (? & ? & _ & _) ? ?. done. Qed.

Lemma wf_set_storage prev b st : wf_block prev b -> wf_block prev (set_storage b st).
Proof. by rewrite !wf_block_inv. Qed.

(** Two siblings of the same tokens have the same key. *)
Lemma wf_same_tokens prev ch k c toks k' :
  wf_children prev ch -> (k, c) ∈ ch -> tokens c = toks -> make_key sha256 prev toks = Ok k' -> k' = k.
Proof.
  intros (_ & _ & H) Hin <- Hk'. destruct (H _ _ Hin) as [-> Hc]. apply wf_block_inv in Hc as [Hk _]. congruence.
Qed.

Lemma prefix_take {A} (a b : list A) : a `prefix_of` b -> take (length a) b = a.
Proof. intros [l ->]. by rewrite take_app_length. Qed.

Lemma prefix_same_length {A} (a b : list A) : a `prefix_of` b -> (length b <= length a)%nat -> a = b.
Proof. intros [l ->] Hl. rewrite length_app in Hl. destruct l; [by rewrite app_nil_r|simpl in Hl; lia]. Qed.

(** The siblings a new block takes the place of. *)
Definition covered (toks : list Token) (b : Block) : bool :=
  (len (tokens b) <? len toks) && bool_decide (take (length (tokens b)) toks = tokens b).

Lemma Block_init_created n prevs prev ch toks b ch' :
  Block_init sha256 tpb n prevs prev ch toks = Ok (Created b ch') ->
  exists k, make_key sha256 prev toks = Ok k /\ b = mkBlock k toks (replicate n false) []
    /\ (k ∉ ch.*1)
    /\ (len toks < tokens_per_block tpb prevs -> forall k' c, (k', c) ∈ ch -> ~ toks `prefix_of` tokens c)
    /\ ch' = List.filter (fun p => negb (covered toks p.2)) ch ++ [(k, b)].
Proof.
  unfold Block_init. intros (_ & _ & (k & Hk & Hi)%bind_Ok)%bind_Ok. exists k.
  destruct (dict_find ch k) as [|] eqn:Hf; [done|]. apply dict_find_None in Hf.
  destruct (if _ : bool then _ else _) as [|] eqn:Hcov in Hi; [done|]. injection Hi as <- <-.
  split; [done|]. split; [done|]. split; [done|]. split; [|done].
  intros Hlt%Z.ltb_lt k' c Hin Hpre. rewrite Hlt in Hcov.
  assert (Hc : List.In c ch.*2) by (apply list_elem_of_In, list_elem_of_fmap; by exists (k', c)).
  apply (List.find_none _ _ Hcov) in Hc. simpl in Hc. rewrite prefix_take, bool_decide_eq_true_2 in Hc; done.
Qed.

Lemma wf_children_app_new prev ch k b :
  wf_children prev ch -> wf_block prev b -> k = key b -> (k ∉ ch.*1) ->
  (forall k' c, (k', c) ∈ ch -> ~ tokens c `prefix_of` tokens b /\ ~ tokens b `prefix_of` tokens c) ->
  wf_children prev (ch ++ [(k, b)]).
Proof.
  intros (Hnd & Ha & Hw) Hb Hk Hnew Hinc. split; [|split].
  - rewrite fmap_app. apply NoDup_app. split; [done|]. split; [|by apply NoDup_singleton].
    intros k' Hin ->%list_elem_of_singleton. done.
  - intros p q [Hp| ->%list_elem_of_singleton]%elem_of_app [Hq| ->%list_elem_of_singleton]%elem_of_app Hpre;
      simpl in Hpre; [by apply Ha| | |done]; exfalso.
    + destruct p as [k' c]. by destruct (Hinc k' c Hp).
    + destruct q as [k' c]. by destruct (Hinc k' c Hq).
  - intros k' c [Hin|[= -> ->]%list_elem_of_singleton]%elem_of_app; [by apply Hw|done].
Qed.

Lemma Block_init_wf n prevs prev ch toks b ch' :
  wf_children prev ch -> 1 <= len toks <= tpb -> tokens_per_block tpb prevs = tpb ->
  Block_init sha256 tpb n prevs prev ch toks = Ok (Created b ch') ->
  wf_children prev ch' /\ ch' <> [].
Proof.
  intros Hwf Hl Htpb (k & Hk & -> & Hf & Hcov & ->)%Block_init_created. rewrite Htpb in Hcov.
  split; [|by destruct (List.filter _ ch)].
  assert (Hold : forall p, p ∈ List.filter (fun p => negb (covered toks p.2)) ch -> p ∈ ch /\ covered toks p.2 = false)
    by (intros p; by rewrite !list_elem_of_In, filter_In, negb_true_iff).
  assert (Hne : forall k' c, (k', c) ∈ ch -> tokens c <> toks).
  { intros k' c Hin Heq. apply Hf, list_elem_of_fmap. exists (k', c). split; [|done].
    by apply (wf_same_tokens prev ch k' c toks k Hwf). }
  apply wf_children_app_new; [by apply wf_children_filter| |done| |].
  - apply wf_block_inv. split; [done|]. split; [done|]. split; [done|].
    split; [constructor|]. split; [intros p q Hp|intros ? ? Hp]; by apply not_elem_of_nil in Hp.
  - intros (p & -> & [Hp _]%Hold)%list_elem_of_fmap. apply Hf, list_elem_of_fmap. by exists p.
  - intros k' c [Hin Hc]%Hold. simpl in *. split; intros Hpre; pose proof (prefix_length _ _ Hpre); apply (Hne k' c Hin).
    + apply prefix_same_length; [done|]. unfold covered in Hc. rewrite (prefix_take _ _ Hpre) in Hc.
      rewrite (bool_decide_eq_true_2 (_ = _)) in Hc by done. rewrite andb_true_r in Hc. bool_to_prop. lia.
    + symmetry. apply prefix_same_length; [done|].
      destruct Hwf as (_ & _ & Hwf). destruct (Hwf _ _ Hin) as [_ Hcw]. apply wf_block_inv in Hcw as (_ & Hcl & _).
      destruct (Z.lt_ge_cases (len toks) tpb) as [Hlt|]; [|lia]. by destruct (Hcov Hlt k' c Hin).
Qed.

(** The block a path leads to. *)
Fixpoint block_at (path : list (list Z)) (ch : list (list Z * Block)) : option Block :=
  match path with
  | [] => None
  | [k] => dict_find ch k
  | k :: path' => b ← dict_find ch k; block_at path' (next b)
  end.

(** [prev] is a root or a full block. *)
Definition full_at (path : list (list Z)) (ch : list (list Z * Block)) : Prop :=
  path = [] \/ exists b, block_at path ch = Some b /\ len (tokens b) = tpb.

Lemma full_at_cons k path ch b :
  full_at (k :: path) ch -> dict_find ch k = Some b ->
  (path = [] /\ len (tokens b) = tpb) \/ (path <> [] /\ full_at path (next b)).
Proof.
  intros [|(c & Hc & Hl)] Hf; [done|]. destruct path as [|k' path]; [left|right].
  - simpl in Hc. split; [done|]. congruence.
  - split; [done|]. right. exists c. split; [|done]. cbn [block_at] in Hc. rewrite Hf in Hc. exact Hc.
Qed.

Lemma new_block_wf n path prevs prev ch toks b ch' :
  wf_children prev ch -> 1 <= len toks <= tpb -> full_at path ch ->
  tokens_per_block tpb prevs = tpb ->
  new_block sha256 tpb n prevs prev ch path toks = Ok (Created b ch') ->
  wf_children prev ch' /\ ch' <> [].
Proof.
  intros Hwf Hl. revert prevs prev ch ch' Hwf. induction path as [|k path IH]; intros prevs prev ch ch' Hwf Hfull Htpb Hn.
  { by apply Block_init_wf in Hn. }
  cbn [new_block] in Hn. destruct (dict_find ch k) as [c|] eqn:Hf; [|done].
  apply bind_Ok in Hn as (o & Hn & Hr). destruct o as [c' ch1|]; [|done]. injection Hr as Hb Hr. subst b ch'.
  destruct (wf_child _ _ _ _ Hwf Hf) as [-> Hc]. pose proof Hc as (_ & _ & Hcfull & Hcch)%wf_block_inv.
  assert (len (tokens c) = tpb /\ full_at path (next c)) as [Hcl Hfull'].
  { destruct (full_at_cons _ _ _ _ Hfull Hf) as [[Hp Hlc]|[Hp Hfa]]; [split; [done|by left]|]. split; [|done].
    destruct Hfa as [|(x & Hx & _)]; [done|]. apply Hcfull. intros Hnil. rewrite Hnil in Hx.
    destruct path as [|? [|]]; done. }
  apply IH in Hn as [Hch1 Hne]; [|done|done|done].
  split; [|by apply (dict_set_not_nil _ _ _ c)].
  apply (wf_children_set prev ch (key c) c); [done..|]. by apply wf_set_next.
Qed.

Lemma dict_find_not_nil {A} (d : list (list Z * A)) k x : dict_find d k = Some x -> d <> [].
Proof. by intros H ->. Qed.

(** Changing one child and what is below it keeps the siblings well-formed. *)
Lemma wf_children_set_next prev ch k b ch' :
  wf_children prev ch -> dict_find ch k = Some b -> next b <> [] -> wf_children (key b) ch' ->
  wf_children prev (dict_set ch k (set_next b ch')).
Proof.
  intros Hwf Hf Hne Hch'. destruct (wf_child _ _ _ _ Hwf Hf) as [-> Hb]. pose proof Hb as (_ & _ & Hfull & _)%wf_block_inv.
  apply (wf_children_set prev ch (key b) b); [done..|]. apply wf_set_next; [done|done|]. intros _. by apply Hfull.
Qed.

Lemma set_page_wf lc path prev ch ch' :
  wf_children prev ch -> set_page lc path ch = Ok ch' -> wf_children prev ch' /\ ch <> [].
Proof.
  revert prev ch ch'. induction path as [|k path IH]; intros prev ch ch' Hwf Hs; [done|]. cbn [set_page] in Hs.
  destruct (dict_find ch k) as [b|] eqn:Hf; [|done]. split; [|by eapply dict_find_not_nil].
  destruct (wf_child _ _ _ _ Hwf Hf) as [-> Hb]. destruct path as [|k' path].
  - apply bind_Ok in Hs as (st & _ & [= <-]). apply (wf_children_set prev ch (key b) b); [done..|]. by apply wf_set_storage.
  - apply bind_Ok in Hs as (ch1 & Hs & [= <-]). pose proof Hb as (_ & _ & _ & Hch)%wf_block_inv.
    apply (IH _ _ _ Hch) in Hs as [Hch1 Hne]. by apply wf_children_set_next.
Qed.

Lemma unset_page_wf lc_idx lc path ordinal prev ch r :
  wf_children prev ch -> unset_page lc_idx lc ordinal path ch = Ok r -> wf_children prev r.1 /\ ch <> [].
Proof.
  revert ordinal prev ch r. induction path as [|k path IH]; intros ordinal prev ch r Hwf Hs; [done|]. cbn [unset_page] in Hs.
  destruct (dict_find ch k) as [b|] eqn:Hf; [|done]. split; [|by eapply dict_find_not_nil].
  destruct (wf_child _ _ _ _ Hwf Hf) as [-> Hb]. destruct path as [|k' path].
  - apply bind_Ok in Hs as (page & _ & Hs). destruct page; simpl in Hs; [|by injection Hs as <-].
    apply bind_Ok in Hs as (st & _ & Hs). destruct (_ || _); injection Hs as <-; [by apply wf_children_del|].
    apply (wf_children_set prev ch (key b) b); [done..|]. by apply wf_set_storage.
  - apply bind_Ok in Hs as (r1 & Hs & Hr). apply bind_Ok in Hr as (useless & _ & Hr).
    pose proof Hb as (_ & _ & _ & Hch)%wf_block_inv. apply (IH _ _ _ _ Hch) in Hs as [Hch1 Hne].
    destruct useless; injection Hr as <-; [by apply wf_children_del|by apply wf_children_set_next].
Qed.

End invariant.

(** ** Every tree that can be reached is well-formed *)

Definition tree_wf (sha256 : list Z -> list Z) (t : BlockRadixTree) : Prop :=
  NoDup (tree_next t).*1
  /\ forall k r, (k, r) ∈ tree_next t ->
       k = root_key r /\ root_make_key sha256 (reuse_scope r) = Ok (root_key r)
       /\ wf_children sha256 (_tokens_per_block t) (root_key r) (root_next r).

Definition BlockRadixTree_init (life_cycles : LifeCycleRegistry) (tpb : Z) : BlockRadixTree := mkTree life_cycles tpb [].

(** [Block.__del__] drops a root without blocks. *)
Definition drop_root (self : BlockRadixTree) (root : list Z) : BlockRadixTree :=
  match dict_find (tree_next self) root with
  | Some r => if is_nil (root_next r)
              then mkTree (_life_cycles self) (_tokens_per_block self) (dict_del (tree_next self) root) else self
  | None => self
  end.

Inductive tree_step (sha256 : list Z -> list Z) : BlockRadixTree -> BlockRadixTree -> Prop :=
  | step_root t scope t' r :
      add_or_get_existing sha256 t scope = Ok (t', r) -> tree_step sha256 t t'
  | step_block t root r path toks t' b :
      dict_find (tree_next t) root = Some r -> full_at (_tokens_per_block t) path (root_next r) ->
      1 <= len toks <= _tokens_per_block t ->
      tree_new_block sha256 t root path toks = Ok (t', b) -> tree_step sha256 t t'
  | step_set_page t root r lc path ch :
      dict_find (tree_next t) root = Some r -> set_page lc path (root_next r) = Ok ch ->
      tree_step sha256 t (set_root_next t root ch)
  | step_unset_page t root r lc_idx lc path x :
      dict_find (tree_next t) root = Some r -> unset_page lc_idx lc 0 path (root_next r) = Ok x ->
      tree_step sha256 t (set_root_next t root x.1)
  | step_drop_root t root : tree_step sha256 t (drop_root t root)
  | step_clear t t' pages : clear t = Ok (t', pages) -> tree_step sha256 t t'.

Section reachable.
Context (sha256 : list Z -> list Z).

Lemma set_root_next_wf t root r ch :
  tree_wf sha256 t -> dict_find (tree_next t) root = Some r ->
  wf_children sha256 (_tokens_per_block t) (root_key r) ch -> tree_wf sha256 (set_root_next t root ch).
Proof.
  intros [Hnd Hw] Hf Hch. unfold set_root_next. rewrite Hf. split; simpl; [by rewrite dict_set_keys|].
  intros k r' [[-> ->]|[_ Hin]]%dict_set_elem; [|by apply Hw|done]. simpl.
  apply dict_find_elem in Hf. destruct (Hw _ _ Hf) as (? & ? & _). done.
Qed.

Lemma tree_step_wf t t' : tree_wf sha256 t -> tree_step sha256 t t' -> tree_wf sha256 t'.
Proof.
  intros Hwf. destruct 1 as [t scope t' r Ha|t root r path toks t' b Hf Hfull Hl Hn|t root r lc path ch Hf Hs
    |t root r lc_idx lc path x Hf Hs|t root|t t' pages Hc].
  - unfold add_or_get_existing, RootBlock_init in Ha. apply bind_Ok in Ha as (k & Hk & Ha).
    destruct (dict_find (tree_next t) k) as [r'|] eqn:Hf; [by injection Ha as <- <-|].
    rewrite Hk in Ha. cbn [mbind result_bind] in Ha. rewrite Hf in Ha. injection Ha as <- _.
    destruct Hwf as [Hnd Hw]. split; simpl.
    + rewrite fmap_app. apply NoDup_app. split; [done|]. split; [|by apply NoDup_singleton].
      intros k' Hin ->%list_elem_of_singleton. by apply (dict_find_None _ _ Hf).
    + intros k' r0 [Hin|[= -> ->]%list_elem_of_singleton]%elem_of_app; [by apply Hw|]. simpl.
      split; [done|]. split; [done|]. split; [constructor|].
      split; [intros p q Hp|intros ? ? Hp]; by apply not_elem_of_nil in Hp.
  - destruct (proj2 Hwf _ _ (dict_find_elem _ _ _ Hf)) as (_ & _ & Hch).
    unfold tree_new_block in Hn. apply bind_Ok in Hn as (n & _ & Hn). rewrite Hf in Hn.
    apply bind_Ok in Hn as ([c ch|c] & Hn & Ho); injection Ho as <- _; [|done].
    apply new_block_wf in Hn as [Hch' _]; [|done..]. by apply (set_root_next_wf t root r).
  - destruct (proj2 Hwf _ _ (dict_find_elem _ _ _ Hf)) as (_ & _ & Hch).
    apply (set_page_wf _ _ _ _ _ _ _ Hch) in Hs as [Hch' _]. by apply (set_root_next_wf t root r).
  - destruct (proj2 Hwf _ _ (dict_find_elem _ _ _ Hf)) as (_ & _ & Hch).
    apply (unset_page_wf _ _ _ _ _ _ _ _ _ Hch) in Hs as [Hch' _]. by apply (set_root_next_wf t root r).
  - unfold drop_root. destruct (dict_find (tree_next t) root) as [r|]; [|done].
    destruct (is_nil (root_next r)); [|done]. destruct Hwf as [Hnd Hw]. split; [by apply filter_keys_nodup|].
    intros k r' [Hin _]%dict_del_elem. by apply Hw.
  - unfold clear in Hc. apply bind_Ok in Hc as (ret & _ & [= <- _]). split; [constructor|].
    intros k r Hin. by apply not_elem_of_nil in Hin.
Qed.

Lemma tree_wf_ok t : tree_wf sha256 t -> tree_ok sha256 t.
Proof.
  intros [_ H] k r Hin. destruct (H k r Hin) as (? & ? & ?). split; [done|]. split; [done|]. by eapply wf_children_ok.
Qed.

End reachable.

(** C15. Whatever sequence of additions, page changes and removals runs on a tree that
    starts empty, the tree stays well-formed: keys are those of the paths, no two
    siblings share a key, no block is covered by a sibling, and only full blocks
    have blocks below them.  In particular it is a tree matching is sound in. *)
Theorem reachable_tree_wf sha256 life_cycles tpb t :
  rtc (tree_step sha256) (BlockRadixTree_init life_cycles tpb) t -> tree_wf sha256 t /\ tree_ok sha256 t.
Proof.
  intros Hr. cut (tree_wf sha256 t); [by split; [|apply tree_wf_ok]|].
  remember (BlockRadixTree_init life_cycles tpb) as t0 eqn:Ht0.
  assert (Hwf : tree_wf sha256 t0).
  { subst. split; [constructor|]. intros k r Hin. by apply not_elem_of_nil in Hin. }
  clear Ht0. induction Hr as [|t0 t1 t2 Hs Hr IH]; [done|]. by apply IH, (tree_step_wf sha256 t0).
Qed.

(** ** Adding and matching *)

(** The keys of consecutive blocks of tokens. *)
Fixpoint path_keys (sha256 : list Z -> list Z) (prev : list Z) (chunks : list (list Token)) : result (list (list Z)) :=
  match chunks with
  | [] => Ok []
  | c :: chunks' => k ← make_key sha256 prev c; ks ← path_keys sha256 k chunks'; Ok (k :: ks)
  end.

Lemma new_block_found sha256 tpb n path prevs prev ch toks b ch' chunks e :
  wf_children sha256 tpb prev ch ->
  new_block sha256 tpb n prevs prev ch path toks = Ok (Created b ch') -> path_keys sha256 prev chunks = Ok path ->
  exists m, match_chunks sha256 e prev ch' (chunks ++ [toks]) = Ok (m ++ [(b, len toks)])
    /\ key <$> m.*1 = path /\ m.*2 = (fun c => len c) <$> chunks.
Proof.
  revert path prevs prev ch ch'. induction chunks as [|c chunks IH]; intros path prevs prev ch ch' Hwf Hn Hp.
  - injection Hp as <-. apply Block_init_created in Hn as (k & Hk & Hb & Hnew & _ & ->). exists []. split; [|done].
    cbn [app match_chunks]. rewrite Hk. cbn [mbind result_bind]. rewrite dict_find_app.
    destruct (dict_find (List.filter _ ch) k) as [x|] eqn:Hf.
    + exfalso. apply Hnew. apply dict_find_elem, list_elem_of_In, filter_In in Hf as [Hf%list_elem_of_In _].
      apply list_elem_of_fmap. by exists (k, x).
    + unfold dict_find. simpl. by rewrite bool_decide_eq_true_2.
  - cbn [path_keys] in Hp. apply bind_Ok in Hp as (k & Hk & Hp). apply bind_Ok in Hp as (ks & Hks & [= <-]).
    cbn [new_block] in Hn. destruct (dict_find ch k) as [x|] eqn:Hf; [|done].
    apply bind_Ok in Hn as (o & Hn & Ho). destruct o as [c' ch1|]; [|done]. injection Ho as Hb Hch'. subst c' ch'.
    destruct (wf_child _ _ _ _ _ _ Hwf Hf) as [-> Hx]. pose proof Hx as (_ & _ & _ & Hxch)%wf_block_inv.
    destruct (IH _ _ _ _ _ Hxch Hn Hks) as (m & Hm & Hmk & Hmn).
    exists ((set_next x ch1, len c) :: m). cbn [app match_chunks]. rewrite Hk. cbn [mbind result_bind].
    rewrite (dict_find_set _ _ _ _ Hf). cbn [next set_next]. rewrite Hm. split; [done|]. rewrite !fmap_cons. split; [by rewrite Hmk|by rewrite Hmn].
Qed.

Lemma chunked_concat fuel size chunks toks :
  Forall (fun c : list Token => length c = size) chunks -> (0 < length toks <= size)%nat ->
  (length (concat chunks ++ toks) <= fuel)%nat -> chunked fuel size (concat chunks ++ toks) = chunks ++ [toks].
Proof.
  intros Hc Ht. revert fuel. induction Hc as [|c chunks Hl Hc IH]; intros fuel Hf.
  - simpl in *. destruct fuel as [|fuel]; [lia|]. destruct toks as [|t toks]; [simpl in *; lia|].
    cbn [chunked]. rewrite take_ge by lia. rewrite drop_ge by lia. by destruct fuel.
  - simpl in Hf |- *. rewrite <- app_assoc in *. rewrite length_app in Hf.
    destruct fuel as [|fuel]; [lia|]. destruct c as [|t c]; [simpl in *; lia|]. cbn [chunked app].
    change (t :: c ++ concat chunks ++ toks) with ((t :: c) ++ concat chunks ++ toks).
    rewrite <- Hl, take_app_length, drop_app_length, Hl, IH by (simpl in *; lia). done.
Qed.

(** C36. A block added below the path of some tokens is found by the next request with
    those tokens: the walk goes down the same path and ends in the new block, all
    its tokens matched. *)
Theorem added_block_matched sha256 t root r path chunks toks b ch n e :
  tree_wf sha256 t -> dict_find (tree_next t) root = Some r ->
  path_keys sha256 root chunks = Ok path -> Forall (fun c : list Token => len c = _tokens_per_block t) chunks ->
  1 <= len toks <= _tokens_per_block t ->
  new_block sha256 (_tokens_per_block t) n [] root (root_next r) path toks = Ok (Created b ch) ->
  exists m, _match_token_path sha256 (set_root_next t root ch) (reuse_scope r) (concat chunks ++ toks) e
              = Ok (m ++ [(b, len toks)])
    /\ key <$> m.*1 = path /\ Forall (fun x => x.2 = _tokens_per_block t) m.
Proof.
  intros Hwf Hf Hp Hc Hl Hn. destruct (proj2 Hwf _ _ (dict_find_elem _ _ _ Hf)) as (Hk & Hrk & Hch). rewrite <- Hk in *.
  destruct (new_block_found _ _ _ _ _ _ _ _ _ _ _ e Hch Hn Hp) as (m & Hm & Hmk & Hmn). exists m. split; [|split; [done|]].
  - unfold _match_token_path, set_root_next. rewrite Hf, Hrk. cbn [mbind result_bind]. simpl.
    rewrite (dict_find_set _ _ _ _ Hf). simpl. rewrite chunked_concat; [done| |lia|done].
    apply (Forall_impl _ _ _ Hc). simpl. lia.
  - apply Forall_forall. intros x Hx. assert (Hin : x.2 ∈ m.*2) by (apply list_elem_of_fmap; by exists x).
    rewrite Hmn in Hin. apply list_elem_of_fmap in Hin as (c & -> & Hin). rewrite Forall_forall in Hc. by apply Hc.
Qed.

(** What a request sees of a matched block. *)
Definition view (x : Block * Z) : list Z * list Token * list bool * Z := (key x.1, tokens x.1, storage x.1, x.2).

Lemma new_block_keeps sha256 t v d tpb n path prevs prev ch toks b ch' cs m m' :
  wf_children sha256 tpb prev ch -> (forall k c, (k, c) ∈ ch -> below t prev c) -> len toks <= tpb ->
  new_block sha256 tpb n prevs prev ch path toks = Ok (Created b ch') ->
  Forall (fun c => len c = tpb /\ tokens_formed t v d c) cs ->
  match_chunks sha256 false prev ch cs = Ok m -> match_chunks sha256 false prev ch' cs = Ok m' ->
  collides sha256 t (chain_inputs sha256 prev cs) \/ (view <$> m) `prefix_of` (view <$> m').
Proof.
  intros Hwf Hbel Hl Hn Hcs. revert path prevs prev ch ch' m m' Hwf Hbel Hn.
  induction Hcs as [|c cs [Hcl Hct] Hcs IH]; intros path prevs prev ch ch' m m' Hwf Hbel Hn Hm Hm'.
  { right. injection Hm as <-. apply prefix_nil. }
  cbn [match_chunks] in Hm, Hm'. apply bind_Ok in Hm as (k & Hk & Hm). rewrite Hk in Hm'. cbn [mbind result_bind] in Hm'.
  destruct (dict_find ch k) as [x|] eqn:Hf; [|injection Hm as <-; right; apply prefix_nil].
  apply bind_Ok in Hm as (rest & Hrest & [= <-]).
  destruct (wf_child _ _ _ _ _ _ Hwf Hf) as [-> Hx]. pose proof Hx as (Hxk & _ & _ & Hxch)%wf_block_inv.
  pose proof (Hbel _ _ (dict_find_elem _ _ _ Hf)) as Hxb.
  assert (Hsame : dict_find ch' (key x) = Some x -> (view <$> (x, len c) :: rest) `prefix_of` (view <$> m')).
  { intros Hf'. rewrite Hf', Hrest in Hm'. injection Hm' as <-. done. }
  destruct path as [|k path].
  - apply Block_init_created in Hn as (k & _ & _ & _ & _ & ->).
    destruct (key_tokens sha256 t v d prev c cs x Hct Hxb Hxk Hk) as [|Heq]; [by left|right]. apply Hsame.
    rewrite dict_find_app. destruct Hwf as (Hnd & _).
    assert (dict_find (List.filter (fun p => negb (covered toks p.2)) ch) (key x) = Some x) as ->; [|done].
    apply dict_find_Some; [by apply filter_keys_nodup|]. apply list_elem_of_In, filter_In.
    split; [by apply list_elem_of_In, dict_find_elem|]. unfold covered. simpl. rewrite Heq.
    by rewrite (proj2 (Z.ltb_ge _ _)) by lia.
  - cbn [new_block] in Hn. destruct (dict_find ch k) as [y|] eqn:Hfk; [|done].
    apply bind_Ok in Hn as (o & Hn & Ho). destruct o as [c' ch1|]; [|done]. injection Ho as Hb Hch'. subst c' ch'.
    destruct (decide (key x = k)) as [<-|Hne].
    + rewrite Hf in Hfk. injection Hfk as <-. rewrite (dict_find_set _ _ _ _ Hf) in Hm'. cbn [next set_next] in Hm'.
      apply bind_Ok in Hm' as (rest' & Hrest' & [= <-]).
      destruct (IH _ _ _ _ _ _ _ Hxch ltac:(intros k' c' Hin; by eapply below_block) Hn Hrest Hrest') as [Hcol|Hpre].
      * left. eapply collides_mono; [|exact Hcol]. apply bind_Ok in Hk as (bs & Hbs & [= Hk]).
        cbn [chain_inputs]. rewrite Hbs, Hk. intros z Hz. by right.
      * right. rewrite !fmap_cons. by apply prefix_cons.
    + right. apply Hsame. by rewrite dict_find_set_ne.
Qed.

(** Adding a block never takes a full block away from a request: what it matched
    before, it still matches, with the same pages (unless a hash computed for it collides
    with one of the tree). *)
Theorem adding_keeps_matches sha256 t v d root r path toks b ch n cs m m' :
  tree_wf sha256 t -> dict_find (tree_next t) root = Some r -> len toks <= _tokens_per_block t ->
  new_block sha256 (_tokens_per_block t) n [] root (root_next r) path toks = Ok (Created b ch) ->
  Forall (fun c => len c = _tokens_per_block t /\ tokens_formed t v d c) cs ->
  match_chunks sha256 false root (root_next r) cs = Ok m -> match_chunks sha256 false root ch cs = Ok m' ->
  collides sha256 t (chain_inputs sha256 root cs) \/ (view <$> m) `prefix_of` (view <$> m').
Proof.
  intros Hwf Hf Hl Hn Hcs Hm Hm'. destruct (proj2 Hwf _ _ (dict_find_elem _ _ _ Hf)) as (Hk & _ & Hch).
  rewrite <- Hk in Hch. apply (new_block_keeps sha256 t v d _ n path [] root (root_next r) toks b ch cs m m' Hch); [|done..].
  intros k c Hin. rewrite Hk. eapply below_root; [|done]. apply list_elem_of_fmap. exists (root, r). split; [done|by apply dict_find_elem].
Qed.

(** ** Dropping subtrees *)

(** The blocks of a subtree in post-order, by recursion. *)
Fixpoint postorder (b : Block) : list Block :=
  (fix below (l : list (list Z * Block)) : list Block :=
     match l with [] => [] | (_, c) :: l' => postorder c ++ below l' end) (next b) ++ [b].

Definition node_postorder (n : Node) : list Block :=
  concat (postorder <$> (node_next n).*2) ++ match n with NBlock b => [b] | NRoot _ => [] end.

Definition node_with (n : Node) (ch : list (list Z * Block)) : Node :=
  match n with
  | NRoot r => NRoot (mkRoot (root_key r) (reuse_scope r) ch)
  | NBlock b => NBlock (set_next b ch)
  end.

Lemma postorder_eq b : postorder b = concat (postorder <$> (next b).*2) ++ [b].
Proof.
  destruct b as [k ts st ch]. simpl. f_equal. induction ch as [|[k' c] ch IH]; [done|].
  rewrite !fmap_cons. simpl. by f_equal.
Qed.

Lemma block_size_eq b : block_size b = S (sum_list_with (fun p => block_size p.2) (next b)).
Proof. destruct b as [k ts st ch]. simpl. f_equal. induction ch as [|[k' c] ch IH]; [done|]. simpl. by f_equal. Qed.

Lemma node_with_id n : node_with n (node_next n) = n.
Proof. by destruct n as [[]|[]]. Qed.

Section removal.
Context (sha256 : list Z -> list Z) (tpb : Z).

Definition removes (b : Block) : Prop := forall fuel prev stack h ret,
  remove_loop (2 * block_size b - 1 + fuel) (prev :: stack) (NBlock b) h ret
  = remove_loop fuel stack (node_pop prev (key b)) (h ++ (key <$> postorder b)) (ret ++ concat (block_pages <$> postorder b)).

(** Emptying a node child by child. *)
Lemma remove_children ch n fuel stack h ret :
  NoDup ch.*1 -> (forall k c, (k, c) ∈ ch -> k = key c /\ removes c) ->
  remove_loop (2 * sum_list_with (fun p => block_size p.2) ch + fuel) stack (node_with n ch) h ret
  = remove_loop fuel stack (node_with n []) (h ++ (key <$> concat (postorder <$> ch.*2)))
      (ret ++ concat (block_pages <$> concat (postorder <$> ch.*2))).
Proof.
  revert h ret. induction ch as [|[k c] ch IH]; intros h ret Hnd Hch; [by rewrite !app_nil_r|].
  apply NoDup_cons in Hnd as [Hk Hnd]. destruct (Hch k c) as [-> Hc]; [by left|].
  rewrite !fmap_cons. cbn [sum_list_with concat]. change ((key c, c).2) with c.
  assert (Hsz : (0 < block_size c)%nat) by (rewrite block_size_eq; lia).
  replace (2 * (block_size c + sum_list_with (fun p => block_size p.2) ch) + fuel)%nat
    with (S (2 * block_size c - 1 + (2 * sum_list_with (fun p => block_size p.2) ch + fuel)))%nat by lia.
  cbn [remove_loop].
  assert (node_next (node_with n ((key c, c) :: ch)) = (key c, c) :: ch) as -> by by destruct n as [[]|[]].
  rewrite Hc.
  assert (node_pop (node_with n ((key c, c) :: ch)) (key c) = node_with n ch) as ->.
  { assert (dict_del ((key c, c) :: ch) (key c) = ch) as Hd.
    { unfold dict_del. simpl. rewrite bool_decide_eq_true_2 by done. simpl. apply forallb_filter_id, forallb_forall.
      intros p Hp%list_elem_of_In. apply negb_true_iff, bool_decide_eq_false. intros Heq. apply Hk, list_elem_of_fmap. by exists p. }
    destruct n as [r|b]; cbn [node_with node_pop root_next next set_next root_key reuse_scope key tokens storage]; by rewrite Hd. }
  rewrite IH; [|done|intros k' c' Hin; apply Hch; by right].
  by rewrite !fmap_app, !concat_app, !app_assoc.
Qed.

Lemma wf_removes prev b : wf_block sha256 tpb prev b -> removes b.
Proof.
  induction 1 as [prev b _ _ _ Hnd _ Hk Hch IH]. intros fuel p stack h ret. rewrite block_size_eq, postorder_eq.
  replace (2 * S (sum_list_with (fun p => block_size p.2) (next b)) - 1 + fuel)%nat
    with (2 * sum_list_with (fun p => block_size p.2) (next b) + S fuel)%nat by lia.
  rewrite <- (node_with_id (NBlock b)) at 1. cbn [node_next]. rewrite remove_children; [|done|intros k c Hin; split; eauto].
  cbn [remove_loop node_with node_next next set_next]. rewrite !fmap_app, !concat_app, !app_assoc. simpl. by rewrite !app_nil_r.
Qed.

Lemma remove_subtree_spec n :
  wf_children sha256 tpb (node_key n) (node_next n) ->
  remove_subtree n = Ok (key <$> node_postorder n, concat (block_pages <$> node_postorder n)).
Proof.
  intros (Hnd & _ & Hch). unfold remove_subtree, node_size, node_postorder.
  replace (2 * S (sum_list_with (fun p => block_size p.2) (node_next n)))%nat
    with (2 * sum_list_with (fun p => block_size p.2) (node_next n) + 2)%nat by lia.
  pose proof (remove_children (node_next n) n 2 [] [] [] Hnd) as Hr. rewrite node_with_id in Hr. rewrite Hr.
  2: { intros k c Hin. destruct (Hch k c Hin). split; [done|]. by eapply wf_removes. }
  destruct n as [r|b]; simpl; rewrite ?fmap_app, ?concat_app; simpl; by rewrite ?app_nil_r.
Qed.

End removal.

(** Clearing the tree returns the pages of all its blocks, each once, a block
    after the blocks below it, although the loop that removes a subtree only
    keeps the current block. *)
Theorem clear_returns_pages sha256 t :
  tree_wf sha256 t ->
  clear t = Ok (BlockRadixTree_init (_life_cycles t) (_tokens_per_block t),
                concat (block_pages <$> concat ((fun r => node_postorder (NRoot r)) <$> (tree_next t).*2))).
Proof.
  intros [_ Hw]. unfold clear.
  assert (Hall : forall rs ret, (forall r, r ∈ rs -> exists k, (k, r) ∈ tree_next t) ->
    for_each (fun ret r => x ← remove_subtree (NRoot r); Ok (ret ++ x.2)) ret rs
    = Ok (ret ++ concat (block_pages <$> concat ((fun r => node_postorder (NRoot r)) <$> rs)))).
  { intros rs. induction rs as [|r rs IH]; intros ret Hrs; [simpl; by rewrite app_nil_r|].
    destruct (Hrs r) as [k Hin]; [by left|]. destruct (Hw _ _ Hin) as (_ & _ & Hch). cbn [for_each].
    rewrite (remove_subtree_spec _ _ (NRoot r) Hch). cbn [mbind result_bind]. rewrite IH by (intros r' Hr'; apply Hrs; by right).
    rewrite fmap_cons. cbn [concat snd]. by rewrite fmap_app, concat_app, app_assoc. }
  rewrite Hall; [done|]. intros r Hr. apply list_elem_of_fmap in Hr as ([k r'] & -> & Hin). by exists k.
Qed.

(** ** The parent of a new block *)

(** [Block.__init__] asserts that "prev must be a full block", but what it
    compares is the block size seen by [prev] with the one seen by its parent,
    which says nothing about [prev]: below a first block that is not full, any
    block is accepted. *)
Theorem partial_parent_accepted sha256 tpb n c toks k :
  len (tokens c) < tpb -> make_key sha256 (key c) toks = Ok k ->
  Block_init sha256 tpb n [c] (key c) [] toks
  = Ok (Created (mkBlock k toks (replicate n false) []) [(k, mkBlock k toks (replicate n false) [])]).
Proof.
  intros _ Hk. unfold Block_init. cbn [tail tokens_per_block]. rewrite Z.eqb_refl. cbn [py_assert mbind result_bind].
  rewrite Hk. simpl. by destruct (len toks <? len (tokens c)).
Qed.

(** ** Examples *)

Definition wit_init : BlockRadixTree := BlockRadixTree_init (_life_cycles wit_tree) 2.

Definition wit_k1 : list Z := wit_key [0] [TokenId 1; TokenId 2].

(** The tree after a scope and two blocks were added. *)
Definition wit_grown : BlockRadixTree :=
  let b2 := mkBlock (wit_key wit_k1 [TokenId 3]) [TokenId 3] [false; false] [] in
  let b1 := mkBlock wit_k1 [TokenId 1; TokenId 2] [false; false] [(key b2, b2)] in
  mkTree (_life_cycles wit_tree) 2 [([0], mkRoot [0] (mkScope None None) [(wit_k1, b1)])].

Lemma wit_reach : rtc (tree_step (fun l => l)) wit_init wit_grown.
Proof.
  eapply rtc_l; [eapply (step_root _ _ (mkScope None None)); vm_compute; reflexivity|].
  eapply rtc_l; [eapply (step_block _ _ [0] _ [] [TokenId 1; TokenId 2]); [reflexivity|by left|simpl; lia|vm_compute; reflexivity]|].
  eapply rtc_l; [|apply rtc_refl].
  eapply (step_block _ _ [0] _ [wit_k1] [TokenId 3]); [reflexivity| |simpl; lia|vm_compute; reflexivity].
  right. eexists. split; [vm_compute; reflexivity|done].
Qed.

Lemma wit_grown_wf : tree_wf (fun l => l) wit_grown.
Proof.
  assert (Hwf : tree_wf (fun l => l) wit_init).
  { split; [constructor|]. intros k r Hin. by apply not_elem_of_nil in Hin. }
  pose proof wit_reach as Hr. induction Hr as [|t0 t1 t2 Hs Hr IH]; [done|]. by apply IH, (tree_step_wf _ t0).
Qed.

Lemma reachable_tree_wf_witness : tree_wf (fun l => l) wit_grown /\ tree_ok (fun l => l) wit_grown.
Proof. apply (reachable_tree_wf (fun l => l) (_life_cycles wit_tree) 2 wit_grown). exact wit_reach. Defined.

Definition wit_root : RootBlock :=
  match dict_find (tree_next wit_grown) [0] with Some r => r | None => mkRoot [] (mkScope None None) [] end.

(** Adding a full block that covers a shorter one. *)
Definition wit_added : Block * list (list Z * Block) :=
  match new_block (fun l => l) 2 2 [] [0] (root_next wit_root) [wit_k1] [TokenId 3; TokenId 4] with
  | Ok (Created b ch) => (b, ch)
  | _ => (mkBlock [] [] [] [], [])
  end.

Lemma added_block_matched_witness : exists m,
  _match_token_path (fun l => l) (set_root_next wit_grown [0] wit_added.2) (mkScope None None)
    [TokenId 1; TokenId 2; TokenId 3; TokenId 4] false = Ok (m ++ [(wit_added.1, 2)])
  /\ key <$> m.*1 = [wit_k1] /\ Forall (fun x => x.2 = 2) m.
Proof.
  apply (added_block_matched (fun l => l) wit_grown [0] wit_root [wit_k1] [[TokenId 1; TokenId 2]] [TokenId 3; TokenId 4]
    wit_added.1 wit_added.2 2 false);
    [apply wit_grown_wf|reflexivity|reflexivity|by repeat constructor|simpl; lia|vm_compute; reflexivity].
Defined.

Lemma wit_grown_formed : tokens_formed wit_grown (256 ^ 8) 8 [TokenId 1; TokenId 2].
Proof.
  split_and!; [done|done|by repeat constructor|]. intros p b Hb.
  assert (b ∈ concat (postorder <$> (root_next wit_root).*2)) as Hin.
  { induction Hb as [r k c Hr Hc|p b k c _ IH Hc].
    - apply list_elem_of_singleton in Hr as ->. apply list_elem_of_singleton in Hc as [= _ ->]. vm_compute. right. left.
    - vm_compute in IH. apply elem_of_cons in IH as [-> | ->%list_elem_of_singleton]; [by apply not_elem_of_nil in Hc|].
      apply list_elem_of_singleton in Hc as [= _ ->]. vm_compute. left. }
  vm_compute in Hin. apply elem_of_cons in Hin as [-> | ->%list_elem_of_singleton]; by repeat constructor.
Qed.

Lemma adding_keeps_matches_witness :
  match match_chunks (fun l => l) false [0] (root_next wit_root) [[TokenId 1; TokenId 2]],
        match_chunks (fun l => l) false [0] wit_added.2 [[TokenId 1; TokenId 2]] with
  | Ok m, Ok m' => (view <$> m) `prefix_of` (view <$> m')
  | _, _ => False
  end.
Proof.
  destruct (match_chunks _ _ _ (root_next wit_root) _) as [m|e] eqn:Em; [|vm_compute in Em; discriminate Em].
  destruct (match_chunks _ _ _ wit_added.2 _) as [m'|e] eqn:Em'; [|vm_compute in Em'; discriminate Em'].
  destruct (adding_keeps_matches (fun l => l) wit_grown (256 ^ 8) 8 [0] wit_root [wit_k1] [TokenId 3; TokenId 4]
    wit_added.1 wit_added.2 2 [[TokenId 1; TokenId 2]] m m' wit_grown_wf eq_refl) as [(x & y & _ & _ & Hne & Heq)|Hpre];
    [simpl; lia|vm_compute; reflexivity| |exact Em|exact Em'|destruct (Hne Heq)|exact Hpre].
  constructor; [split; [reflexivity|apply wit_grown_formed]|constructor].
Defined.

Lemma clear_returns_pages_witness :
  clear wit_grown = Ok (BlockRadixTree_init (_life_cycles wit_grown) (_tokens_per_block wit_grown),
                concat (block_pages <$> concat ((fun r => node_postorder (NRoot r)) <$> (tree_next wit_grown).*2))).
Proof. apply (clear_returns_pages (fun l => l)). apply wit_grown_wf. Defined.

Lemma partial_parent_accepted_witness :
  let c := mkBlock [7] [TokenId 1] [] [] in
  let b := mkBlock (wit_key [7] [TokenId 2]) [TokenId 2] [] [] in
  Block_init (fun l => l) 2 0 [c] [7] [] [TokenId 2] = Ok (Created b [(key b, b)]).
Proof. apply (partial_parent_accepted (fun l => l) 2 0 (mkBlock [7] [TokenId 1] [] [])); [simpl; lia|reflexivity]. Defined.
