(* ===== verification/StorageManager.v ===== *)
(** * Making room: pages on several cache levels

    [runtime/kv_cache_manager_v2/_storage_manager.py]: every cache level has one
    pool of slots per pool group and an eviction controller.  To make room on a
    level, pages are evicted from it and fall to the next level, which may have to
    evict in turn; on the last level, pages nobody holds are dropped.

    Pools are used through an interface, [SlotPool], which the slot allocator
    implements.  Pages are objects shared by queues and sequences: here they are
    numbered, and a page's slot and level are kept in one table.  A page is
    garbage once it is in no queue or list and nobody holds it; dropping it gives
    its slot back.  What dropping a page does to the radix tree is not part of
    this file, nor are copies (only the event of their completion is) and cache
    events. *)

From stdpp Require Import prelude gmap.
From S2P Require Import Prelude SlotAllocator Eviction.
Local Open Scope Z_scope.
#[local] Set Warnings "-register-all".

(** ** The interface of a pool *)

Class SlotPool (P : Type) := {
  num_free : P -> Z;
  pool_allocate_multiple : P -> Z -> result (list Slot * P);
  pool_release : P -> Slot -> result P;
}.

(** [holds p l]: exactly the slots of [l] are handed out. *)
Class SlotPoolLaws (P : Type) `{SlotPool P} := {
  holds : P -> gset Z -> Prop;
  free_nonneg p l : holds p l -> 0 <= num_free p;
  allocate_law p l n :
    holds p l -> 0 <= n <= num_free p ->
    exists slots p' ids, pool_allocate_multiple p n = Ok (slots, p')
      /\ _slot_id <$> slots = Some <$> ids /\ len ids = n /\ NoDup ids /\ (forall i, i ∈ ids -> i ∉ l)
      /\ holds p' (list_to_set ids ∪ l) /\ num_free p' = num_free p - n;
  release_law p l i ev :
    holds p l -> i ∈ l ->
    exists p', pool_release p (mkSlot (Some i) ev) = Ok p' /\ holds p' (l ∖ {[i]}) /\ num_free p' = num_free p + 1;
}.

(** ** Pages and the manager *)

Inductive PageStatus := LOCKED | HELD | DROPPABLE.

#[export] Instance status_eq_dec : EqDecision PageStatus.
Proof. solve_decision. Defined.

Record Page := mkPageObj {
  page_slot : Slot;
  page_life_cycle : Z;
  page_level : Z;
  page_priority : Z;
  status : PageStatus;
  is_committed : bool;
}.

Section manager.
Context {P : Type} `{SlotPool P}.

(** The pool groups and controllers of all levels, and the pages. *)
Record StorageManager := mkStorage {
  lc_grouping : list Z;
  num_cache_levels : Z;
  num_groups : Z;
  pools : gmap (Z * Z) P;
  controllers : gmap Z PerLevelEvictionController;
  pages : gmap Z Page;
}.

Definition set_pool (self : StorageManager) (lvl pg : Z) (p : P) : StorageManager :=
  mkStorage (lc_grouping self) (num_cache_levels self) (num_groups self)
            (<[(lvl, pg) := p]> (pools self)) (controllers self) (pages self).
Definition set_controller (self : StorageManager) (lvl : Z) (c : PerLevelEvictionController) : StorageManager :=
  mkStorage (lc_grouping self) (num_cache_levels self) (num_groups self)
            (pools self) (<[lvl := c]> (controllers self)) (pages self).
Definition set_pages (self : StorageManager) (ps : gmap Z Page) : StorageManager :=
  mkStorage (lc_grouping self) (num_cache_levels self) (num_groups self) (pools self) (controllers self) ps.

Definition get_pool (self : StorageManager) (lvl pg : Z) : result P :=
  match pools self !! (lvl, pg) with Some p => Ok p | None => Err IndexError end.
Definition get_controller (self : StorageManager) (lvl : Z) : result PerLevelEvictionController :=
  match controllers self !! lvl with Some c => Ok c | None => Err IndexError end.
Definition get_page (self : StorageManager) (id : Z) : result Page :=
  match pages self !! id with Some p => Ok p | None => Err ValueError end.

Definition get_num_free_slots (self : StorageManager) (lvl pg : Z) : result Z :=
  p ← get_pool self lvl pg; Ok (num_free p).
Definition get_pool_group_index (self : StorageManager) (lc : Z) : result Z := py_get (lc_grouping self) lc.
Definition is_last_level (self : StorageManager) (level : Z) : bool := level =? num_cache_levels self - 1.

Definition is_evictable (self : StorageManager) (page : Page) (level : option Z) : bool :=
  let level := default (page_level page) level in
  (bool_decide (status page = DROPPABLE) && is_committed page)
  || (bool_decide (status page = HELD) && (level <? num_cache_levels self - 1)).

(** A page as its eviction controller sees it. *)
Definition as_evictable (id : Z) (p : Page) : EvictablePage :=
  mkPage id (page_level p) (page_priority p) (page_life_cycle p).

(** [self._levels[lvl].controller.schedule_for_eviction(page)] *)
Definition controller_schedule (self : StorageManager) (lvl id : Z) : result StorageManager :=
  p ← get_page self id;
  c ← get_controller self lvl;
  c ← Eviction.schedule_for_eviction c (as_evictable id p) false;
  Ok (set_controller self lvl c).

Definition schedule_for_eviction (self : StorageManager) (id : Z) : result StorageManager :=
  p ← get_page self id;
  if is_evictable self p None then controller_schedule self (page_level p) id else Ok self.

Definition exclude_from_eviction (self : StorageManager) (id : Z) : result StorageManager :=
  p ← get_page self id;
  c ← get_controller self (page_level p);
  c ← Eviction.remove c (as_evictable id p);
  Ok (set_controller self (page_level p) c).

Definition release_slot (self : StorageManager) (lc lvl : Z) (slot : Slot) : result StorageManager :=
  pg ← get_pool_group_index self lc;
  p ← get_pool self lvl pg;
  p ← pool_release p slot;
  Ok (set_pool self lvl pg p).

(** [Page.__del__] *)
Definition drop_page (self : StorageManager) (id : Z) : result StorageManager :=
  p ← get_page self id;
  self ← (if has_valid_slot (page_slot p) then release_slot self (page_life_cycle p) (page_level p) (page_slot p)
          else Ok self);
  Ok (set_pages self (base.delete id (pages self))).

(** A list lets go of a page: it lives on if somebody holds it. *)
Definition let_go (self : StorageManager) (id : Z) : result StorageManager :=
  p ← get_page self id;
  if bool_decide (status p = DROPPABLE) then drop_page self id else Ok self.

(** ** Migration *)

(** One page of a batch: its old slot is released, it takes the new one.  [ev] is
    the event after the copies. *)
Definition migrate_page (ev : Event) (pg dst_level src_level : Z) (self : StorageManager) (x : Z * Slot)
    : result StorageManager :=
  let '(id, dst) := x in
  src ← get_page self id;
  c ← get_controller self src_level;
  _ ← py_assert (bool_decide (id ∉ node_refs c));
  pool ← get_pool self src_level pg;
  pool ← pool_release pool (mkSlot (_slot_id (page_slot src)) ev);
  let self := set_pool self src_level pg pool in
  let src := mkPageObj (mkSlot (_slot_id dst) ev) (page_life_cycle src) dst_level (page_priority src)
                       (status src) (is_committed src) in
  Ok (set_pages self (<[id := src]> (pages self))).

(** [update_src] is set and [defrag] is not. *)
Definition _batched_migrate (ev : Event) (self : StorageManager) (pg dst_level src_level : Z) (src_pages : list Z)
    : result StorageManager :=
  _ ← py_assert (negb (dst_level =? src_level));
  let num_slots := len src_pages in
  dst ← get_pool self dst_level pg;
  if num_free dst <? num_slots then Err OutOfPagesError
  else
    '(dst_slots, dst) ← pool_allocate_multiple dst num_slots;
    _ ← py_assert (len dst_slots =? num_slots);
    for_each (migrate_page ev pg dst_level src_level) (set_pool self dst_level pg dst) (zip src_pages dst_slots).

(** [partition] by level and pool group, in order of first appearance. *)
Fixpoint add_to_part (k : Z * Z) (id : Z) (parts : list ((Z * Z) * list Z)) : list ((Z * Z) * list Z) :=
  match parts with
  | [] => [(k, [id])]
  | (k', ids) :: parts' =>
      if bool_decide (k' = k) then (k', ids ++ [id]) :: parts' else (k', ids) :: add_to_part k id parts'
  end.

Definition partition (self : StorageManager) (ids : list Z) : result (list ((Z * Z) * list Z)) :=
  for_each (fun parts id =>
              p ← get_page self id;
              pg ← get_pool_group_index self (page_life_cycle p);
              Ok (add_to_part (page_level p, pg) id parts)) [] ids.

(** The pages a level accepted move there and are queued, except that held pages
    are not queued on the last level. *)
Definition settle_page (lvl : Z) (self : StorageManager) (id : Z) : result StorageManager :=
  p ← get_page self id;
  if is_last_level self lvl && bool_decide (status p = HELD) then Ok self
  else controller_schedule self lvl id.

Definition settle_part (ev : Event) (lvl : Z) (self : StorageManager) (part : (Z * Z) * list Z) : result StorageManager :=
  let '((src_lvl, pg), ids) := part in
  self ← _batched_migrate ev self pg lvl src_lvl ids;
  for_each (settle_page lvl) self ids.

Definition settle_group (ev : Event) (lvl : Z) (self : StorageManager) (accepted : list Z) : result StorageManager :=
  parts ← partition self accepted;
  for_each (settle_part ev lvl) self parts.

(** ** Making room *)

Definition last_n {A} (n : Z) (l : list A) : list A := drop (length l - Z.to_nat n) l.
Definition but_last_n {A} (n : Z) (l : list A) : list A := take (length l - Z.to_nat n) l.

Definition is_held (self : StorageManager) (id : Z) : bool :=
  match pages self !! id with Some p => bool_decide (status p = HELD) | None => false end.

(** The first loop, for one group: how many pages to evict, and on the last level
    which of the fallen pages are held and must be accepted. *)
Definition plan_group (self : StorageManager) (lvl : Z) (x : Z * (Z * list Z)) : result (Z * (list Z * list Z)) :=
  let '(pg, (goal, fallen)) := x in
  old_free_cnt ← get_num_free_slots self lvl pg;
  c ← get_controller self lvl;
  evictable_cnt ← num_evictable_pages c pg;
  let num_to_evict := Z.max 0 (Z.min (goal + len fallen - old_free_cnt) evictable_cnt) in
  let held := if is_last_level self lvl then List.filter (is_held self) fallen else [] in
  let rest := if is_last_level self lvl then List.filter (fun id => negb (is_held self id)) fallen else fallen in
  if is_last_level self lvl && (old_free_cnt + evictable_cnt <? len held) then Err OutOfPagesError
  else if old_free_cnt + evictable_cnt - len held <? goal then Err OutOfPagesError
  else Ok (num_to_evict, (held, rest)).

(** What a group of the last level accepts; everything else is let go. *)
Definition accept_last (lvl : Z) (st : StorageManager * list (list Z)) (x : (Z * Z) * (list Z * (list Z * list Z)))
    : result (StorageManager * list (list Z)) :=
  let '((pg, goal), (evicted, (held, fallen))) := x in
  let '(self, accepted) := st in
  old_free_cnt ← get_num_free_slots self lvl pg;
  self ← for_each let_go self evicted;
  new_free_cnt ← get_num_free_slots self lvl pg;
  _ ← py_assert (len evicted + old_free_cnt <=? new_free_cnt);
  _ ← py_assert (len held <=? new_free_cnt);
  let fallen := fallen ++ held in
  let num_accepted := Z.min (new_free_cnt - goal) (len fallen) in
  _ ← py_assert (0 <=? num_accepted);
  self ← for_each let_go self (but_last_n num_accepted fallen);
  Ok (self, accepted ++ [last_n num_accepted fallen]).

(** What a group of another level accepts, and what falls further. *)
Definition accept_fallen (self : StorageManager) (lvl : Z) (x : (Z * Z) * (list Z * list Z)) : result (list Z * list Z) :=
  let '((pg, goal), (evicted, fallen)) := x in
  old_free_cnt ← get_num_free_slots self lvl pg;
  let all := evicted ++ fallen in
  let num_accepted := Z.min (old_free_cnt + len evicted - goal) (len all) in
  _ ← py_assert (0 <=? num_accepted);
  Ok (last_n num_accepted all, but_last_n num_accepted all).

Definition ids_of (rows : list (list EvictablePage)) : list (list Z) := (fun row : list EvictablePage => page_id <$> row) <$> rows.

(** [goals] are the free slots to leave on this and the following levels, per
    group. *)
Fixpoint _prepare_free_slots (ev : Event) (self : StorageManager) (goals : list (list Z)) (lvl : Z)
    (fallen_pages : list (list Z)) : result StorageManager :=
  match goals with
  | [] => Err IndexError
  | goal :: goals' =>
      plans ← mapM (plan_group self lvl) (zip (seqZ 0 (num_groups self)) (zip goal fallen_pages));
      c ← get_controller self lvl;
      let '(r, c) := evict c plans.*1 in
      rows ← r;
      let evicted := ids_of rows in
      let self := set_controller self lvl c in
      if is_last_level self lvl then
        '(self, accepted) ← for_each (accept_last lvl) (self, [])
           (zip (zip (seqZ 0 (num_groups self)) goal) (zip evicted plans.*2));
        for_each (settle_group ev lvl) self accepted
      else
        _ ← py_assert (forallb (fun p => bool_decide (p.2.1 = [])) plans);
        accs ← mapM (accept_fallen self lvl)
           (zip (zip (seqZ 0 (num_groups self)) goal) (zip evicted (snd <$> plans.*2)));
        self ← _prepare_free_slots ev self goals' (lvl + 1) accs.*2;
        for_each (settle_group ev lvl) self accs.*1
  end.

Definition zero_goals (self : StorageManager) (level : Z) : list (list Z) :=
  replicate (Z.to_nat (num_cache_levels self - level)) (replicate (Z.to_nat (num_groups self)) 0).

Definition prepare_free_slots (ev : Event) (self : StorageManager) (level : Z) (requirements : list Z)
    : result StorageManager :=
  row ← mapM (py_get requirements) (seqZ 0 (num_groups self));
  let fallen_pages := replicate (Z.to_nat (num_groups self)) [] in
  _prepare_free_slots ev self (row :: zero_goals self (level + 1)) level fallen_pages.

(** On the last level the evicted pages die when the list of them does. *)
Definition force_evict (ev : Event) (self : StorageManager) (level : Z) (min_num_pages : list Z) : result StorageManager :=
  c ← get_controller self level;
  let '(r, c) := evict c min_num_pages in
  rows ← r;
  let evicted := ids_of rows in
  let self := set_controller self level c in
  if level =? num_cache_levels self - 1 then
    ps ← mapM (get_page self) (concat evicted);
    _ ← py_assert (forallb (fun p => bool_decide (status p = DROPPABLE)) ps);
    for_each let_go self (concat evicted)
  else
    let next_lvl := level + 1 in
    _prepare_free_slots ev self (zero_goals self next_lvl) next_lvl evicted.

(** ** New slots *)

Definition add_at (l : list Z) (i n : Z) : result (list Z) :=
  x ← py_get l i;
  Ok (<[Z.to_nat i := x + n]> l).

Definition enough_free (self : StorageManager) (level : Z) (pg_num_slots : list Z) : result bool :=
  frees ← mapM (get_num_free_slots self level) (seqZ 0 (num_groups self));
  Ok (forallb (fun x : Z * Z => x.1 <=? x.2) (zip pg_num_slots frees)).

Definition count_slots (self : StorageManager) (num_slots : list Z) : result (list Z) :=
  for_each (fun pg_num_slots lc =>
              pg ← get_pool_group_index self lc;
              n ← py_get num_slots lc;
              add_at pg_num_slots pg n)
           (replicate (Z.to_nat (num_groups self)) 0) (seqZ 0 (len (lc_grouping self))).

Definition level_allocate (self : StorageManager) (level pg n : Z) : result (list Slot * StorageManager) :=
  p ← get_pool self level pg;
  '(slots, p) ← pool_allocate_multiple p n;
  Ok (slots, set_pool self level pg p).

Definition new_slots (ev : Event) (self : StorageManager) (level : Z) (num_slots : list Z)
    : result (list (list Slot) * StorageManager) :=
  let lc2pg := lc_grouping self in
  pg_num_slots ← count_slots self num_slots;
  enough ← enough_free self level pg_num_slots;
  self ← (if negb enough then prepare_free_slots ev self level pg_num_slots else Ok self);
  enough ← enough_free self level pg_num_slots;
  _ ← py_assert enough;
  for_each (fun (st : list (list Slot) * StorageManager) lc =>
              let '(ret, self) := st in
              pg ← py_get lc2pg lc;
              n ← py_get num_slots lc;
              '(slots, self) ← level_allocate self level pg n;
              Ok (ret ++ [slots], self))
           ([], self) (seqZ 0 (len lc2pg)).

Definition new_gpu_slots (ev : Event) (self : StorageManager) (num_slots : list Z) := new_slots ev self 0 num_slots.

Definition new_slots_for_pool_group (ev : Event) (self : StorageManager) (level pg n : Z)
    : result (list Slot * StorageManager) :=
  fr ← get_num_free_slots self level pg;
  self ← (if fr <? n then
            row ← add_at (replicate (Z.to_nat (num_groups self)) 0) pg n;
            prepare_free_slots ev self level row
          else Ok self);
  fr ← get_num_free_slots self level pg;
  _ ← py_assert (n <=? fr);
  level_allocate self level pg n.

End manager.

Arguments StorageManager P : clear implicits.

(** ** The invariant *)

Section proofs.
Context {P : Type} `{Hlaws : SlotPoolLaws P}.
Implicit Types self : StorageManager P.

Abbreviation group_of self page := (get_pool_group_index self (page_life_cycle page)).

(** [h] gives the slots in use of every pool. *)
Definition upd (h : Z * Z -> gset Z) (k : Z * Z) (s : gset Z) : Z * Z -> gset Z :=
  fun k' => if decide (k' = k) then s else h k'.

(** Every pool and controller is in order; a page has a slot of its own in the
    pool of its level and group; exactly evictable pages of a level are queued
    there. *)
Record storage_ok (h : Z * Z -> gset Z) self : Prop := {
  s_pool : forall l g, 0 <= l < num_cache_levels self -> 0 <= g < num_groups self ->
    exists p, pools self !! (l, g) = Some p /\ holds p (h (l, g));
  s_ctrl : forall l, 0 <= l < num_cache_levels self ->
    exists c, controllers self !! l = Some c /\ ctrl_ok c /\ _cache_level c = l
      /\ _life_cycle_grouping c = lc_grouping self /\ len (_policies c) = num_groups self;
  s_levels : forall l c, controllers self !! l = Some c -> 0 <= l < num_cache_levels self;
  s_page : forall id page, pages self !! id = Some page ->
    exists g i, 0 <= page_level page < num_cache_levels self /\ group_of self page = Ok g /\ 0 <= g < num_groups self
      /\ _slot_id (page_slot page) = Some i /\ i ∈ h (page_level page, g);
  s_inj : forall id1 id2 p1 p2 g, pages self !! id1 = Some p1 -> pages self !! id2 = Some p2 ->
    page_level p1 = page_level p2 -> group_of self p1 = Ok g -> group_of self p2 = Ok g ->
    _slot_id (page_slot p1) = _slot_id (page_slot p2) -> id1 = id2;
  s_queue : forall l c e, controllers self !! l = Some c -> e ∈ all_pages c ->
    exists page, pages self !! page_id e = Some page /\ e = as_evictable (page_id e) page
      /\ is_evictable self page None = true;
}.

Definition free self (l g : Z) : Z := match pools self !! (l, g) with Some p => num_free p | None => 0 end.

Definition scheduled self (id : Z) : Prop := exists l c, controllers self !! l = Some c /\ id ∈ node_refs c.

(** The parts of the manager that never change. *)
Definition same_shape self self' : Prop :=
  lc_grouping self' = lc_grouping self /\ num_cache_levels self' = num_cache_levels self
  /\ num_groups self' = num_groups self.

Lemma upd_eq h k s : upd h k s k = s.
Proof. unfold upd. by rewrite decide_True. Qed.

Lemma upd_ne h k k' s : k' <> k -> upd h k s k' = h k'.
Proof. intros. unfold upd. by rewrite decide_False. Qed.

Lemma free_ok h self l g :
  storage_ok h self -> 0 <= l < num_cache_levels self -> 0 <= g < num_groups self ->
  get_num_free_slots self l g = Ok (free self l g) /\ 0 <= free self l g.
Proof.
  intros Hok Hl Hg. destruct (s_pool _ _ Hok l g Hl Hg) as (p & Hp & Hh).
  unfold get_num_free_slots, get_pool, free. rewrite Hp. split; [done|]. by eapply free_nonneg.
Qed.

(** The pools after one of them changed. *)
Lemma pools_insert h self l g p s :
  storage_ok h self -> holds p s ->
  forall l' g', 0 <= l' < num_cache_levels self -> 0 <= g' < num_groups self ->
    exists p', (<[(l, g) := p]> (pools self)) !! (l', g') = Some p' /\ holds p' (upd h (l, g) s (l', g')).
Proof.
  intros Hok Hp l' g' Hl' Hg'. destruct (decide ((l', g') = (l, g))) as [Heq|Hne].
  - rewrite Heq, lookup_insert_eq, upd_eq. eauto.
  - rewrite lookup_insert_ne, upd_ne by done. by apply (s_pool _ _ Hok).
Qed.

Lemma free_set_pool self l g p l' g' :
  free (set_pool self l g p) l' g' = if decide ((l', g') = (l, g)) then num_free p else free self l' g'.
Proof.
  unfold free. simpl. case_decide as Heq; [by rewrite Heq, lookup_insert_eq|by rewrite lookup_insert_ne].
Qed.

(** A page owns its slot. *)
Lemma page_owns h self id page g :
  storage_ok h self -> pages self !! id = Some page -> group_of self page = Ok g ->
  0 <= page_level page < num_cache_levels self /\ 0 <= g < num_groups self
  /\ exists i, _slot_id (page_slot page) = Some i /\ i ∈ h (page_level page, g).
Proof.
  intros Hok Hp Hg. destruct (s_page _ _ Hok _ _ Hp) as (g' & i & Hl & Hg' & Hr & Hi & Hin).
  rewrite Hg in Hg'. injection Hg' as <-. eauto.
Qed.

(** Dropping a page that is in no queue frees its slot. *)
Lemma drop_page_spec h self id page g :
  storage_ok h self -> pages self !! id = Some page -> ~ scheduled self id -> group_of self page = Ok g ->
  exists h' self', drop_page self id = Ok self' /\ storage_ok h' self' /\ same_shape self self'
    /\ controllers self' = controllers self /\ pages self' = base.delete id (pages self)
    /\ forall l' g', free self' l' g' = free self l' g' + if decide ((l', g') = (page_level page, g)) then 1 else 0.
Proof.
  intros Hok Hp Hns Hg. destruct (page_owns _ _ _ _ _ Hok Hp Hg) as (Hl & Hgr & i & Hi & Hin).
  destruct (s_pool _ _ Hok _ _ Hl Hgr) as (p & Hpool & Hh).
  destruct (release_law p _ i (ready_event (page_slot page)) Hh Hin) as (p' & Hrel & Hh' & Hfree).
  assert (Hslot : page_slot page = mkSlot (Some i) (ready_event (page_slot page)))
    by (destruct (page_slot page) as [sid ev]; simpl in *; by rewrite Hi).
  unfold drop_page, get_page. rewrite Hp. cbn [mbind result_bind].
  assert (has_valid_slot (page_slot page) = true) as -> by (unfold has_valid_slot; by rewrite Hi).
  unfold release_slot, get_pool. rewrite Hg. cbn [mbind result_bind]. rewrite Hpool. cbn [mbind result_bind].
  rewrite Hslot, Hrel. cbn [mbind result_bind].
  exists (upd h (page_level page, g) (h (page_level page, g) ∖ {[i]})). eexists. split; [done|].
  split; [|split; [done|split; [done|split; [done|]]]].
  - split; simpl.
    + by apply pools_insert.
    + apply (s_ctrl _ _ Hok).
    + apply (s_levels _ _ Hok).
    + intros id' page' [Hne Hp']%lookup_delete_Some. destruct (s_page _ _ Hok _ _ Hp') as (g' & i' & Hl' & Hg' & Hr' & Hi' & Hin').
      exists g', i'. split; [done|]. split; [done|]. split; [done|]. split; [done|].
      destruct (decide ((page_level page', g') = (page_level page, g))) as [Heq|Hne'].
      * rewrite Heq, upd_eq. injection Heq as Hlv ->. rewrite Hlv in Hin'. apply elem_of_difference. split; [done|].
        intros ->%elem_of_singleton. apply Hne. apply (s_inj _ _ Hok id id' page page' g); [done..|by rewrite Hi, Hi'].
      * by rewrite upd_ne.
    + intros id1 id2 p1 p2 g' [_ H1]%lookup_delete_Some [_ H2]%lookup_delete_Some. by apply (s_inj _ _ Hok).
    + intros l c e Hc He. destruct (s_queue _ _ Hok _ _ _ Hc He) as (page' & Hp' & Hrest). exists page'. split; [|done].
      apply lookup_delete_Some. split; [|done]. intros ->. apply Hns. exists l, c. split; [done|].
      destruct (s_ctrl _ _ Hok l) as (c' & Hc' & Hcok & _); [by eapply s_levels|]. rewrite Hc in Hc'. injection Hc' as <-.
      rewrite (c_refs _ Hcok). apply elem_of_list_to_set, list_elem_of_fmap. eauto.
  - intros l' g'. change (free (set_pages ?s _) l' g') with (free s l' g'). rewrite free_set_pool.
    case_decide as Heq; [|lia]. injection Heq as -> ->. unfold free. rewrite Hpool. lia.
Qed.

(** A queued page is referred to by its controller. *)
Lemma queued_scheduled h self l c e :
  storage_ok h self -> controllers self !! l = Some c -> e ∈ all_pages c -> scheduled self (page_id e).
Proof.
  intros Hok Hc He. exists l, c. split; [done|].
  destruct (s_ctrl _ _ Hok l) as (c' & Hc' & Hcok & _); [by eapply s_levels|]. rewrite Hc in Hc'. injection Hc' as <-.
  rewrite (c_refs _ Hcok). apply elem_of_list_to_set, list_elem_of_fmap. eauto.
Qed.

Lemma in_all_pages_group c e :
  ctrl_ok c -> e ∈ all_pages c -> cache_level e = _cache_level c.
Proof.
  intros Hok He. unfold all_pages in He. apply list_elem_of_In, in_concat in He as (it & Hit%list_elem_of_In & He%list_elem_of_In).
  apply list_elem_of_fmap in Hit as (d & -> & [g Hg]%list_elem_of_lookup_1). apply in_iter in He as (k & q & Hkq & Hpq).
  by destruct (c_place _ Hok _ _ _ _ _ Hg Hkq Hpq) as (_ & _ & ?).
Qed.

(** A page is queued at its own level only. *)
Lemma scheduled_level h self l c id page :
  storage_ok h self -> controllers self !! l = Some c -> id ∈ node_refs c -> pages self !! id = Some page -> page_level page = l.
Proof.
  intros Hok Hc Hin Hp. destruct (s_ctrl _ _ Hok l) as (c' & Hc' & Hcok & Hcl & _); [by eapply s_levels|].
  rewrite Hc in Hc'. injection Hc' as <-. rewrite (c_refs _ Hcok) in Hin.
  apply elem_of_list_to_set, list_elem_of_fmap in Hin as (e & -> & He).
  destruct (s_queue _ _ Hok _ _ _ Hc He) as (page' & Hp' & Heq & _). rewrite Hp in Hp'. injection Hp' as <-.
  pose proof (in_all_pages_group _ _ Hcok He) as Hl. rewrite Heq, Hcl in Hl. done.
Qed.

(** Storage after one controller changed. *)
Lemma set_controller_ok h self lvl c c' :
  storage_ok h self -> controllers self !! lvl = Some c -> ctrl_ok c' ->
  _cache_level c' = _cache_level c -> _life_cycle_grouping c' = _life_cycle_grouping c -> length (_policies c') = length (_policies c) ->
  (forall e, e ∈ all_pages c' -> e ∈ all_pages c
     \/ exists page, pages self !! page_id e = Some page /\ e = as_evictable (page_id e) page /\ is_evictable self page None = true) ->
  storage_ok h (set_controller self lvl c').
Proof.
  intros Hok Hc Hcok' Hl Hg Hp Hq. pose proof (s_levels _ _ Hok _ _ Hc) as Hlvl.
  destruct (s_ctrl _ _ Hok lvl Hlvl) as (c0 & Hc0 & _ & Hcl & Hcg & Hcp). rewrite Hc in Hc0. injection Hc0 as <-.
  split; simpl; [apply (s_pool _ _ Hok)| | |apply (s_page _ _ Hok)|apply (s_inj _ _ Hok)|].
  - intros l Hl'. destruct (decide (l = lvl)) as [->|Hne]; [|rewrite lookup_insert_ne by done; by apply (s_ctrl _ _ Hok)].
    exists c'. rewrite lookup_insert_eq. split; [done|]. split; [done|]. split; [congruence|]. split; [congruence|lia].
  - intros l c1 [[<- _]|[_ H1]]%lookup_insert_Some; [done|by eapply s_levels].
  - intros l c1 e [[<- <-]|[_ H1]]%lookup_insert_Some Hin; [|exact (s_queue _ _ Hok _ _ _ H1 Hin)].
    destruct (Hq e Hin) as [Hin'|Hnew]; [exact (s_queue _ _ Hok _ _ _ Hc Hin')|exact Hnew].
Qed.

(** What is queued after one controller changed. *)
Lemma scheduled_insert self lvl c c' id :
  controllers self !! lvl = Some c ->
  scheduled (set_controller self lvl c') id <->
  id ∈ node_refs c' \/ exists l c0, l <> lvl /\ controllers self !! l = Some c0 /\ id ∈ node_refs c0.
Proof.
  intros Hc. split.
  - intros (l & c0 & Hc0 & Hin). simpl in Hc0. apply lookup_insert_Some in Hc0 as [[<- <-]|[Hne Hc0]]; [by left|right].
    exists l, c0. split; [congruence|done].
  - intros [Hin|(l & c0 & Hne & Hc0 & Hin)].
    + exists lvl, c'. simpl. by rewrite lookup_insert_eq.
    + exists l, c0. simpl. by rewrite lookup_insert_ne.
Qed.

(** A page joins the queue of its level. *)
Lemma controller_schedule_spec h self id page g :
  storage_ok h self -> pages self !! id = Some page -> group_of self page = Ok g -> ~ scheduled self id ->
  is_evictable self page None = true ->
  exists c c', controllers self !! page_level page = Some c /\ node_refs c' = {[id]} ∪ node_refs c
    /\ controller_schedule self (page_level page) id = Ok (set_controller self (page_level page) c')
    /\ storage_ok h (set_controller self (page_level page) c').
Proof.
  intros Hok Hp Hg Hns Hev. destruct (page_owns _ _ _ _ _ Hok Hp Hg) as (Hlvl & Hgr & _).
  destruct (s_ctrl _ _ Hok _ Hlvl) as (c & Hc & Hcok & Hcl & Hcg & Hcp).
  destruct (lookup_lt_is_Some_2 (_policies c) (Z.to_nat g)) as [d Hd]; [lia|].
  destruct (schedule_ok c (as_evictable id page) false (Z.to_nat g) d) as (Hs & Hcok' & Hall); [done| | | |done|].
  { intros Hin. apply Hns. by exists (page_level page), c. }
  { simpl. congruence. }
  { simpl. rewrite Hcg, Z2Nat.id by lia. exact Hg. }
  exists c, (set_policies c (<[Z.to_nat g := policy_push d (as_evictable id page) false]> (_policies c)) ({[id]} ∪ node_refs c)).
  split; [done|]. split; [done|]. split.
  - unfold controller_schedule, get_page, get_controller. rewrite Hp. cbn [mbind result_bind]. rewrite Hc. cbn [mbind result_bind].
    by rewrite Hs.
  - apply (set_controller_ok h self _ c); [done|done|done|done|done|simpl; by rewrite length_insert|].
    intros e He. rewrite Hall in He. apply elem_of_cons in He as [->|He]; [right; by exists page|by left].
Qed.

(** A page leaves its queue. *)
Lemma exclude_spec h self id page :
  storage_ok h self -> pages self !! id = Some page -> scheduled self id ->
  exists c c', controllers self !! page_level page = Some c /\ node_refs c' = node_refs c ∖ {[id]}
    /\ exclude_from_eviction self id = Ok (set_controller self (page_level page) c')
    /\ storage_ok h (set_controller self (page_level page) c') /\ ~ scheduled (set_controller self (page_level page) c') id.
Proof.
  intros Hok Hp (l & c & Hc & Hin). pose proof (scheduled_level _ _ _ _ _ _ Hok Hc Hin Hp) as Hl. subst l.
  destruct (s_ctrl _ _ Hok (page_level page)) as (c0 & Hc0 & Hcok & Hcl & Hcg & Hcp); [by eapply s_levels|].
  rewrite Hc in Hc0. injection Hc0 as <-.
  assert (Hq : as_evictable id page ∈ all_pages c).
  { rewrite (c_refs _ Hcok) in Hin. apply elem_of_list_to_set, list_elem_of_fmap in Hin as (e & -> & He).
    destruct (s_queue _ _ Hok _ _ _ Hc He) as (page' & Hp' & Heq & _). rewrite Hp in Hp'. injection Hp' as <-. by rewrite <- Heq. }
  destruct (remove_ok c (as_evictable id page) Hcok Hq) as (c' & Hr & Hcok' & Hall & Hl' & Hg' & Hp').
  assert (Hnd : NoDup (id :: (page_id <$> all_pages c'))).
  { change (id :: (page_id <$> all_pages c')) with (page_id <$> (as_evictable id page :: all_pages c')). rewrite <- Hall. apply (c_ids _ Hcok). }
  assert (Hrefs : node_refs c' = node_refs c ∖ {[id]}).
  { rewrite (c_refs _ Hcok), (c_refs _ Hcok'), Hall. apply NoDup_cons in Hnd as [Hnd _]. rewrite fmap_cons. simpl. apply set_eq. intros x.
    rewrite elem_of_difference, elem_of_union, !elem_of_singleton, !elem_of_list_to_set. split; [|tauto].
    intros Hx. split; [by right|]. intros ->. done. }
  exists c, c'. split; [done|]. split; [done|]. split; [|split].
  - unfold exclude_from_eviction, get_page, get_controller. rewrite Hp. cbn [mbind result_bind]. rewrite Hc. cbn [mbind result_bind]. by rewrite Hr.
  - apply (set_controller_ok h self _ c); [done..|]. intros e He. left. rewrite Hall. by right.
  - rewrite (scheduled_insert self _ c) by done. rewrite Hrefs. intros [Hx|(l & c1 & Hne & Hc1 & Hx)]; [set_solver|].
    apply Hne. symmetry. exact (scheduled_level _ _ _ _ _ _ Hok Hc1 Hx Hp).
Qed.

(** A slot that was handed out but belongs to no page yet. *)
Definition unowned (h : Z * Z -> gset Z) self (l g i : Z) : Prop :=
  i ∈ h (l, g) /\ forall id page, pages self !! id = Some page -> page_level page = l -> group_of self page = Ok g ->
    _slot_id (page_slot page) <> Some i.

Definition moved (page : Page) (dst : Z) (slot : Slot) : Page :=
  mkPageObj slot (page_life_cycle page) dst (page_priority page) (status page) (is_committed page).

Lemma migrate_page_spec h self id page g dst i s ev :
  storage_ok h self -> pages self !! id = Some page -> ~ scheduled self id -> group_of self page = Ok g ->
  0 <= dst < num_cache_levels self -> dst <> page_level page -> _slot_id s = Some i -> unowned h self dst g i ->
  exists h' self', migrate_page ev g dst (page_level page) self (id, s) = Ok self' /\ storage_ok h' self'
    /\ same_shape self self' /\ controllers self' = controllers self
    /\ pages self' = <[id := moved page dst (mkSlot (Some i) ev)]> (pages self)
    /\ (forall l' g', free self' l' g' = free self l' g' + if decide ((l', g') = (page_level page, g)) then 1 else 0)
    /\ forall j, j <> i -> unowned h self dst g j -> unowned h' self' dst g j.
Proof.
  intros Hok Hp Hns Hg Hdst Hne Hs [Hih Hun]. destruct (page_owns _ _ _ _ _ Hok Hp Hg) as (Hl & Hgr & i0 & Hi0 & Hin0).
  destruct (s_pool _ _ Hok _ _ Hl Hgr) as (p & Hpool & Hh).
  destruct (release_law p _ i0 ev Hh Hin0) as (p' & Hrel & Hh' & Hfree).
  destruct (s_ctrl _ _ Hok _ Hl) as (c & Hc & _).
  unfold migrate_page, get_page, get_controller. rewrite Hp. cbn [mbind result_bind]. rewrite Hc. cbn [mbind result_bind].
  rewrite bool_decide_eq_true_2 by (intros Hin; apply Hns; by exists (page_level page), c). cbn [py_assert mbind result_bind].
  unfold get_pool. rewrite Hpool. cbn [mbind result_bind]. rewrite Hi0, Hrel. cbn [mbind result_bind]. rewrite Hs.
  set (h' := upd h (page_level page, g) (h (page_level page, g) ∖ {[i0]})).
  assert (Hh'dst : h' (dst, g) = h (dst, g)) by (apply upd_ne; congruence).
  exists h'. eexists. split; [done|]. split; [|split; [done|split; [done|split; [done|split]]]].
  - split; simpl.
    + by apply pools_insert.
    + apply (s_ctrl _ _ Hok).
    + apply (s_levels _ _ Hok).
    + intros id' page' [[<- <-]|[Hne' Hp']]%lookup_insert_Some; simpl.
      { exists g, i. rewrite Hh'dst. done. }
      destruct (s_page _ _ Hok _ _ Hp') as (g' & i' & Hl' & Hg' & Hr' & Hi' & Hin').
      exists g', i'. split; [done|]. split; [done|]. split; [done|]. split; [done|]. unfold h'.
      destruct (decide ((page_level page', g') = (page_level page, g))) as [Heq|Hne'']; [|by rewrite upd_ne].
      rewrite Heq, upd_eq. injection Heq as Hlv ->. rewrite Hlv in Hin'. apply elem_of_difference. split; [done|].
      intros ->%elem_of_singleton. apply Hne'. apply (s_inj _ _ Hok id id' page page' g); [done..|by rewrite Hi0, Hi'].
    + intros id1 id2 p1 p2 g' [[<- <-]|[Hn1 H1]]%lookup_insert_Some [[<- <-]|[Hn2 H2]]%lookup_insert_Some Hlv Hg1 Hg2 Hsl;
        simpl in *; [done| | |by apply (s_inj _ _ Hok id1 id2 p1 p2 g')].
      * exfalso. pose proof (Hg1 : group_of self page = Ok g') as Hgg. assert (g' = g) as -> by congruence. by apply (Hun id2 p2).
      * exfalso. pose proof (Hg2 : group_of self page = Ok g') as Hgg. assert (g' = g) as -> by congruence. by apply (Hun id1 p1).
    + intros l c' e Hc' He. destruct (s_queue _ _ Hok _ _ _ Hc' He) as (page' & Hp' & Hrest). exists page'. split; [|done].
      rewrite lookup_insert_ne; [done|]. intros ->. apply Hns. by eapply queued_scheduled.
  - intros l' g'. change (free (set_pages ?s _) l' g') with (free s l' g'). rewrite free_set_pool.
    case_decide as Heq; [|lia]. injection Heq as -> ->. unfold free. rewrite Hpool. lia.
  - intros j Hj [Hjh Hjun]. split; [by rewrite Hh'dst|]. simpl.
    intros id' page' [[<- <-]|[_ Hp']]%lookup_insert_Some; simpl; [intros _ _ [= ->]; done|exact (Hjun id' page' Hp')].
Qed.

(** Allocating slots leaves them unowned. *)
Lemma allocate_spec_storage h self l g n :
  storage_ok h self -> 0 <= l < num_cache_levels self -> 0 <= g < num_groups self -> 0 <= n <= free self l g ->
  exists p slots p' ids h', pools self !! (l, g) = Some p /\ num_free p = free self l g
    /\ pool_allocate_multiple p n = Ok (slots, p')
    /\ _slot_id <$> slots = Some <$> ids /\ len ids = n /\ NoDup ids
    /\ storage_ok h' (set_pool self l g p') /\ (forall i, i ∈ ids -> unowned h' (set_pool self l g p') l g i)
    /\ (forall l0 g0 i, unowned h self l0 g0 i -> ((l0, g0) = (l, g) -> i ∉ ids) /\ unowned h' (set_pool self l g p') l0 g0 i)
    /\ forall l' g', free (set_pool self l g p') l' g' = free self l' g' - if decide ((l', g') = (l, g)) then n else 0.
Proof.
  intros Hok Hl Hg Hn. destruct (s_pool _ _ Hok _ _ Hl Hg) as (p & Hp & Hh).
  assert (Hfr : free self l g = num_free p) by (unfold free; by rewrite Hp).
  destruct (allocate_law p _ n Hh ltac:(lia)) as (slots & p' & ids & Ha & Hids & Hlen & Hnd & Hfresh & Hh' & Hfree).
  set (h' := upd h (l, g) (list_to_set ids ∪ h (l, g))).
  assert (Hsub : forall k i, i ∈ h k -> i ∈ h' k).
  { intros k i Hi. unfold h'. destruct (decide (k = (l, g))) as [->|]; [rewrite upd_eq; set_solver|by rewrite upd_ne]. }
  exists p, slots, p', ids, h'. split; [done|]. split; [done|]. split; [done|]. split; [done|]. split; [done|].
  split; [done|]. split; [|split; [|split]].
  - split; simpl; [by apply pools_insert|apply (s_ctrl _ _ Hok)|apply (s_levels _ _ Hok)| |apply (s_inj _ _ Hok)|apply (s_queue _ _ Hok)].
    intros id page Hpg. destruct (s_page _ _ Hok _ _ Hpg) as (g' & i & ? & ? & ? & ? & ?). exists g', i. eauto 10.
  - intros i Hi. split; [unfold h'; rewrite upd_eq; apply elem_of_union; left; by apply elem_of_list_to_set|].
    intros id page Hpg Hlv Hgp Hsl. destruct (page_owns _ _ _ _ _ Hok Hpg Hgp) as (_ & _ & i' & Hi' & Hin').
    rewrite Hlv in Hin'. rewrite Hsl in Hi'. injection Hi' as <-. by apply (Hfresh i).
  - intros l0 g0 i [Hih Hun]. split; [intros [= -> ->] Hi; by apply (Hfresh i)|]. split; [by apply Hsub|done].
  - intros l' g'. rewrite free_set_pool. case_decide as Heq; [|lia]. injection Heq as -> ->. lia.
Qed.

(** The pages [ids] moved to level [dst], and nothing else happened to the pages. *)
Definition moves (ids : list Z) (dst : Z) (ps ps' : gmap Z Page) : Prop :=
  (forall id, id ∉ ids -> ps' !! id = ps !! id)
  /\ forall id page, id ∈ ids -> ps !! id = Some page -> exists s, ps' !! id = Some (moved page dst s).

(** The page exists, is of this group and level, and is in no queue. *)
Definition loose self (l g id : Z) : Prop :=
  (exists page, pages self !! id = Some page /\ page_level page = l /\ group_of self page = Ok g) /\ ~ scheduled self id.

Lemma same_shape_refl self : same_shape self self.
Proof. done. Qed.

Lemma same_shape_trans self1 self2 self3 : same_shape self1 self2 -> same_shape self2 self3 -> same_shape self1 self3.
Proof. intros (? & ? & ?) (? & ? & ?). split_and!; congruence. Qed.

Lemma loose_move self self' l g id0 dst s page id :
  same_shape self self' -> controllers self' = controllers self ->
  pages self' = <[id0 := moved page dst s]> (pages self) -> id <> id0 -> loose self l g id -> loose self' l g id.
Proof.
  intros (Hgr & _ & _) Hc Hp Hne [(pg & Hpg & Hl & Hg) Hns]. split.
  - exists pg. rewrite Hp, lookup_insert_ne by done. unfold get_pool_group_index in *. by rewrite Hgr.
  - intros (l' & c & Hc' & Hin). apply Hns. exists l', c. by rewrite <- Hc.
Qed.

Lemma migrate_pages_spec ev g src dst ids slots sids h self :
  storage_ok h self -> 0 <= dst < num_cache_levels self -> dst <> src -> NoDup ids ->
  Forall (loose self src g) ids -> _slot_id <$> slots = Some <$> sids -> length sids = length ids -> NoDup sids ->
  Forall (unowned h self dst g) sids ->
  exists h' self', for_each (migrate_page ev g dst src) self (zip ids slots) = Ok self' /\ storage_ok h' self'
    /\ same_shape self self' /\ controllers self' = controllers self /\ moves ids dst (pages self) (pages self')
    /\ forall l' g', free self' l' g' = free self l' g' + if decide ((l', g') = (src, g)) then len ids else 0.
Proof.
  intros Hok Hdst Hne. revert slots sids h self Hok Hdst. induction ids as [|id ids IH];
    intros slots sids h self Hok Hdst Hnd Hloose Hsl Hlen Hsnd Hun.
  { exists h, self. split; [done|]. split; [done|]. split; [done|]. split; [done|]. split; [split; [done|set_solver]|].
    intros l' g'. simpl. case_decide; lia. }
  destruct sids as [|i sids]; [done|]. destruct slots as [|s slots]; [done|].
  rewrite !fmap_cons in Hsl. injection Hsl as Hs Hsl. apply NoDup_cons in Hnd as [Hid Hnd].
  apply NoDup_cons in Hsnd as [Hi Hsnd]. apply Forall_cons in Hloose as [[(page & Hp & Hl & Hg) Hns] Hloose].
  apply Forall_cons in Hun as [Hui Hun]. subst src.
  destruct (migrate_page_spec h self id page g dst i s ev) as (h1 & self1 & Hm & Hok1 & Hsh1 & Hc1 & Hp1 & Hf1 & Hu1); [done..|].
  destruct (IH slots sids h1 self1 Hok1) as (h2 & self2 & Hm2 & Hok2 & Hsh2 & Hc2 & [Hout Hin] & Hf2); try done.
  { destruct Hsh1 as (_ & -> & _). done. }
  { apply Forall_forall. intros id' Hid'. rewrite Forall_forall in Hloose. eapply loose_move; try done; [set_solver|by apply Hloose]. }
  { simpl in Hlen. lia. }
  { apply Forall_forall. intros j Hj. rewrite Forall_forall in Hun. apply Hu1; [set_solver|by apply Hun]. }
  exists h2, self2. cbn [zip zip_with for_each]. rewrite Hm. cbn [mbind result_bind]. split; [done|]. split; [done|].
  split; [by eapply same_shape_trans|]. split; [congruence|]. split.
  - split.
    + intros id' Hn. rewrite Hout, Hp1, lookup_insert_ne by set_solver. done.
    + intros id' page' [->|Hin']%elem_of_cons Hp'.
      * rewrite Hp in Hp'. injection Hp' as <-. rewrite Hout, Hp1, lookup_insert_eq by done. eauto.
      * apply Hin; [done|]. rewrite Hp1, lookup_insert_ne; [done|]. set_solver.
  - intros l' g'. rewrite Hf2, Hf1. simpl length. case_decide; lia.
Qed.

Lemma batched_migrate_spec ev h self g src dst ids :
  storage_ok h self -> 0 <= dst < num_cache_levels self -> 0 <= g < num_groups self -> dst <> src -> NoDup ids ->
  Forall (loose self src g) ids -> len ids <= free self dst g ->
  exists h' self', _batched_migrate ev self g dst src ids = Ok self' /\ storage_ok h' self'
    /\ same_shape self self' /\ controllers self' = controllers self /\ moves ids dst (pages self) (pages self')
    /\ forall l' g', free self' l' g' = free self l' g'
         + (if decide ((l', g') = (src, g)) then len ids else 0) - if decide ((l', g') = (dst, g)) then len ids else 0.
Proof.
  intros Hok Hdst Hg Hne Hnd Hloose Hfree.
  destruct (allocate_spec_storage h self dst g (len ids) Hok Hdst Hg ltac:(lia))
    as (p & slots & p' & sids & h1 & Hp & Hpf & Ha & Hsl & Hlen & Hsnd & Hok1 & Hun & _ & Hf1).
  destruct (migrate_pages_spec ev g src dst ids slots sids h1 (set_pool self dst g p'))
    as (h2 & self2 & Hm & Hok2 & Hsh2 & Hc2 & Hmv & Hf2); try done; [lia|by apply Forall_forall|].
  exists h2, self2. unfold _batched_migrate. rewrite (proj2 (Z.eqb_neq dst src)) by done. cbn [negb py_assert mbind result_bind].
  unfold get_pool. rewrite Hp. cbn [mbind result_bind]. rewrite Hpf, (proj2 (Z.ltb_ge _ _)) by lia.
  rewrite Ha. cbn [mbind result_bind].
  assert (length slots = length ids) as Hls.
  { apply (f_equal length) in Hsl. rewrite !length_fmap in Hsl. lia. }
  rewrite Hls, Z.eqb_refl. cbn [py_assert mbind result_bind]. split; [done|]. split; [done|]. split; [done|].
  split; [done|]. split; [done|]. intros l' g'. rewrite Hf2, Hf1. lia.
Qed.

(** ** What making room may change *)

Definition scheduled_from self (lvl id : Z) : Prop :=
  exists l c, lvl <= l /\ controllers self !! l = Some c /\ id ∈ node_refs c.

(** The same page, perhaps elsewhere. *)
Definition like (page page' : Page) : Prop :=
  page_life_cycle page' = page_life_cycle page /\ page_priority page' = page_priority page
  /\ status page' = status page /\ is_committed page' = is_committed page.

(** From [lvl] on, only the pages [ids] and those queued may move or, if nobody
    holds them, disappear; a queued page that nobody holds stays queued if it
    stays. *)
Record trans (lvl : Z) (ids : list Z) self self' : Prop := {
  t_shape : same_shape self self';
  t_like : forall id page', pages self' !! id = Some page' -> exists page, pages self !! id = Some page /\ like page page';
  t_survive : forall id page, pages self !! id = Some page -> status page <> DROPPABLE -> is_Some (pages self' !! id);
  t_untouched : forall id, ~ scheduled_from self lvl id -> id ∉ ids -> pages self' !! id = pages self !! id;
  t_sched : forall id, scheduled_from self' lvl id -> scheduled_from self lvl id \/ id ∈ ids;
  t_above : forall l, l < lvl -> controllers self' !! l = controllers self !! l;
  t_keep : forall id page', scheduled self id -> id ∉ ids -> pages self' !! id = Some page' -> status page' = DROPPABLE ->
    scheduled self' id;
}.

(** Of the pages [ids], those that nobody holds are queued or gone. *)
Definition settled self (ids : list Z) : Prop :=
  forall id page, id ∈ ids -> pages self !! id = Some page -> status page = DROPPABLE -> scheduled self id.

Definition settling (lvl : Z) (ids : list Z) self self' : Prop := trans lvl ids self self' /\ settled self' ids.

Lemma like_refl page : like page page.
Proof. done. Qed.

Lemma like_trans p1 p2 p3 : like p1 p2 -> like p2 p3 -> like p1 p3.
Proof. intros (? & ? & ? & ?) (? & ? & ? & ?). split_and!; congruence. Qed.

Lemma trans_refl lvl ids self : trans lvl ids self self.
Proof. split; eauto using like_refl. done. Qed.

Lemma trans_trans lvl ids1 ids2 self1 self2 self3 :
  trans lvl ids1 self1 self2 -> trans lvl ids2 self2 self3 -> trans lvl (ids1 ++ ids2) self1 self3.
Proof.
  intros [S1 L1 V1 U1 C1 A1 K1] [S2 L2 V2 U2 C2 A2 K2]. split.
  - by eapply same_shape_trans.
  - intros id p3 H3. destruct (L2 _ _ H3) as (p2 & H2 & Hl2). destruct (L1 _ _ H2) as (p1 & H1 & Hl1). eauto using like_trans.
  - intros id p1 H1 Hst. destruct (V1 _ _ H1 Hst) as [p2 H2]. apply (V2 _ _ H2).
    destruct (L1 _ _ H2) as (p1' & H1' & (_ & _ & -> & _)). congruence.
  - intros id Hns Hin. rewrite U2, U1; [done|done|set_solver| |set_solver]. intros Hs. apply C1 in Hs as [|]; [done|set_solver].
  - intros id Hs. apply C2 in Hs as [Hs|Hs]; [apply C1 in Hs as [|]; [by left|]|]; right; set_solver.
  - intros l Hl. by rewrite A2, A1.
  - intros id p3 Hs Hin H3 Hst. apply (K2 id p3); [|set_solver|done|done]. destruct (L2 _ _ H3) as (p2 & H2 & (_ & _ & Hst2 & _)).
    apply (K1 id p2); [done|set_solver|done|congruence].
Qed.

Lemma settled_trans lvl ids ids' self self' :
  trans lvl ids self self' -> (forall id, id ∈ ids' -> id ∉ ids) -> settled self ids' -> settled self' ids'.
Proof.
  intros Ht Hdis Hset id page' Hin Hp' Hst. destruct (t_like _ _ _ _ Ht _ _ Hp') as (page & Hp & (_ & _ & Hst' & _)).
  apply (t_keep _ _ _ _ Ht id page'); [|by apply Hdis|done|done]. apply (Hset id page); [done|done|congruence].
Qed.

Lemma settling_app lvl ids1 ids2 self1 self2 self3 :
  settling lvl ids1 self1 self2 -> settling lvl ids2 self2 self3 -> (forall id, id ∈ ids1 -> id ∉ ids2) ->
  settling lvl (ids1 ++ ids2) self1 self3.
Proof.
  intros [T1 Se1] [T2 Se2] Hdis. split; [by eapply trans_trans|]. pose proof (settled_trans _ _ ids1 _ _ T2 Hdis Se1) as Se1'.
  intros id page [Hin|Hin]%elem_of_app; [by apply Se1'|by apply Se2].
Qed.

Lemma settling_refl lvl self : settling lvl [] self self.
Proof. split; [apply trans_refl|]. intros id page Hin. by apply not_elem_of_nil in Hin. Qed.

Lemma trans_mono lvl ids ids' self self' :
  (forall id, id ∈ ids -> id ∈ ids') -> trans lvl ids self self' -> trans lvl ids' self self'.
Proof.
  intros Hsub [S L V U C A K]. split; try done; [intros id Hns Hin; apply U; [done|auto]| |].
  - intros id Hs. destruct (C id Hs); auto.
  - intros id page' Hs Hin. apply K; [done|auto].
Qed.

Lemma settling_perm lvl ids ids' self self' : ids ≡ₚ ids' -> settling lvl ids self self' -> settling lvl ids' self self'.
Proof.
  intros Hp [T Se]. split; [apply (trans_mono lvl ids); [intros id; by rewrite Hp|done]|]. intros id page. rewrite <- Hp. apply Se.
Qed.

(** A deeper change is a change. *)
Lemma trans_deeper lvl lvl' ids self self' : lvl <= lvl' -> trans lvl' ids self self' -> trans lvl ids self self'.
Proof.
  intros Hle [S L V U C A K]. split; try done.
  - intros id Hns Hin. apply U; [|done]. intros (l & c & Hl & Hc). apply Hns. exists l, c. split; [lia|done].
  - intros id (l & c & Hl & Hc & Hin). destruct (decide (l < lvl')) as [Hlt|Hge].
    + left. exists l, c. rewrite <- A by done. done.
    + destruct (C id) as [(l1 & c1 & Hl1 & Hc1)|]; [exists l, c; split; [lia|done]| |by right].
      left. exists l1, c1. split; [lia|done].
  - intros l Hl. apply A. lia.
Qed.

Lemma scheduled_cases self lvl id :
  scheduled self id -> scheduled_from self lvl id \/ exists l c, l < lvl /\ controllers self !! l = Some c /\ id ∈ node_refs c.
Proof.
  intros (l & c & Hc & Hin). destruct (decide (lvl <= l)); [left|right]; exists l, c; split; (done || lia).
Qed.

Lemma loose_trans lvl ids self self' l g id :
  trans lvl ids self self' -> id ∉ ids -> loose self l g id -> loose self' l g id.
Proof.
  intros Ht Hin [(page & Hp & Hl & Hg) Hns].
  assert (Hns' : ~ scheduled_from self lvl id) by (intros (l' & c & _ & Hc & Hr); apply Hns; by exists l', c).
  split.
  - exists page. rewrite (t_untouched _ _ _ _ Ht) by done. split; [done|]. split; [done|].
    unfold get_pool_group_index in *. by destruct (t_shape _ _ _ _ Ht) as (-> & _).
  - intros [Hs|(l' & c & Hl' & Hc & Hr)]%(scheduled_cases _ lvl).
    + by destruct (t_sched _ _ _ _ Ht id Hs).
    + apply Hns. exists l', c. by rewrite <- (t_above _ _ _ _ Ht).
Qed.

Lemma trans_pages lvl ids self self' :
  same_shape self self' -> controllers self' = controllers self ->
  (forall id page', pages self' !! id = Some page' -> exists page, pages self !! id = Some page /\ like page page') ->
  (forall id page, pages self !! id = Some page -> status page <> DROPPABLE -> is_Some (pages self' !! id)) ->
  (forall id, id ∉ ids -> pages self' !! id = pages self !! id) ->
  trans lvl ids self self'.
Proof.
  intros Hs Hc Hl Hv Hu. split; try done; [auto| |by intros; rewrite Hc|].
  - intros id (l & c & Hl' & Hc' & Hin). left. exists l, c. by rewrite <- Hc.
  - intros id page' (l & c & Hc' & Hin) _ _ _. exists l, c. by rewrite Hc.
Qed.

Lemma moves_trans lvl ids dst self self' :
  same_shape self self' -> controllers self' = controllers self -> moves ids dst (pages self) (pages self') ->
  (forall id, id ∈ ids -> is_Some (pages self !! id)) -> trans lvl ids self self'.
Proof.
  intros Hs Hc [Hout Hin] Hex. apply trans_pages; [done..| | |done].
  - intros id page' Hp'. destruct (decide (id ∈ ids)) as [Hi|Hi]; [|rewrite Hout in Hp' by done; eauto using like_refl].
    destruct (Hex _ Hi) as [page Hp]. destruct (Hin _ _ Hi Hp) as [s Hp2]. rewrite Hp2 in Hp'. injection Hp' as <-. by exists page.
  - intros id page Hp _. destruct (decide (id ∈ ids)) as [Hi|Hi]; [|rewrite Hout; eauto].
    destruct (Hin _ _ Hi Hp) as [s Hp2]. eauto.
Qed.

(** ** Settling accepted pages *)

(** The pages that can be evicted from a level above the last. *)
Definition can_fall (page : Page) : Prop := status page = HELD \/ (status page = DROPPABLE /\ is_committed page = true).

Lemma settle_page_spec h self lvl g id page :
  storage_ok h self -> 0 <= lvl < num_cache_levels self -> loose self lvl g id -> pages self !! id = Some page ->
  can_fall page ->
  exists self', settle_page lvl self id = Ok self' /\ storage_ok h self' /\ settling lvl [id] self self'
    /\ pages self' = pages self /\ pools self' = pools self.
Proof.
  intros Hok Hlvl [(page' & Hp' & Hl & Hg) Hns] Hp Hcan. rewrite Hp in Hp'. injection Hp' as <-.
  unfold settle_page, get_page. rewrite Hp. cbn [mbind result_bind].
  destruct (is_last_level self lvl && bool_decide (status page = HELD)) eqn:Hlast.
  { exists self. split; [done|]. split; [done|]. split; [split; [apply trans_refl|]|done]. bool_to_prop. destruct_and!.
    intros id' page' ->%list_elem_of_singleton Hp' Hst. congruence. }
  assert (Hev : is_evictable self page None = true).
  { unfold is_evictable, is_last_level in *. simpl. destruct Hcan as [Hh|[Hd' Hcm]]; rewrite ?Hh, ?Hd', ?Hcm in *; [|done].
    rewrite (bool_decide_eq_true_2 (HELD = HELD)), andb_true_r in Hlast by done. bool_to_prop. apply orb_true_iff. right.
    rewrite bool_decide_eq_true_2 by done. apply Z.ltb_lt. lia. }
  destruct (controller_schedule_spec h self id page g Hok Hp Hg Hns Hev) as (c & c' & Hc & Hrefs & Hs & Hok'). rewrite Hl in Hc, Hs, Hok'.
  rewrite Hs. exists (set_controller self lvl c'). split; [done|]. split; [done|]. split; [|done].
  assert (Hnew : forall id', scheduled (set_controller self lvl c') id' <-> id' = id \/ scheduled self id').
  { intros id'. rewrite (scheduled_insert self lvl c) by done. rewrite Hrefs. split.
    - intros [[->%elem_of_singleton|Hx]%elem_of_union|(l & c0 & _ & Hc0 & Hx)]; [by left|right; by exists lvl, c|right; by exists l, c0].
    - intros [->|(l & c0 & Hc0 & Hx)]; [left; set_solver|]. destruct (decide (l = lvl)) as [->|]; [left; simplify_eq; set_solver|right; by exists l, c0]. }
  split; [|intros id' page' ->%list_elem_of_singleton _ _; apply Hnew; by left].
  split; simpl; eauto using like_refl; [done| | |].
  - intros id' (l & c0 & Hl' & Hc0 & Hin). simpl in Hc0. apply lookup_insert_Some in Hc0 as [[<- <-]|[_ Hc0]]; [|left; by exists l, c0].
    rewrite Hrefs in Hin. apply elem_of_union in Hin as [->%elem_of_singleton|Hin]; [right; set_solver|left; by exists lvl, c].
  - intros l Hlt. rewrite lookup_insert_ne; [done|lia].
  - intros id' page' Hs' _ _ _. apply Hnew. by right.
Qed.

Lemma settle_pages_spec h self lvl g ids :
  storage_ok h self -> 0 <= lvl < num_cache_levels self -> NoDup ids -> Forall (loose self lvl g) ids ->
  (forall id page, id ∈ ids -> pages self !! id = Some page -> can_fall page) ->
  exists self', for_each (settle_page lvl) self ids = Ok self' /\ storage_ok h self' /\ settling lvl ids self self'
    /\ pages self' = pages self /\ pools self' = pools self.
Proof.
  intros Hok Hlvl. revert self Hok Hlvl. induction ids as [|id ids IH]; intros self Hok Hlvl Hnd Hloose Hcan.
  { exists self. split; [done|]. split; [done|]. split; [apply settling_refl|done]. }
  apply NoDup_cons in Hnd as [Hid Hnd]. apply Forall_cons in Hloose as [Hl Hloose].
  pose proof Hl as [(page & Hp & _) _].
  destruct (settle_page_spec h self lvl g id page) as (self1 & Hs & Hok1 & [Ht1 Hset1] & Hp1 & Hpo1); [done..|apply (Hcan id); [by left|done]|].
  destruct (IH self1 Hok1) as (self2 & Hs2 & Hok2 & Ht2 & Hp2 & Hpo2); [|done| | |].
  { by destruct (t_shape _ _ _ _ Ht1) as (_ & -> & _). }
  { apply Forall_forall. intros id' Hin. rewrite Forall_forall in Hloose. apply (loose_trans lvl [id] self); [done|set_solver|auto]. }
  { intros id' page' Hin. rewrite Hp1. apply Hcan. by right. }
  exists self2. cbn [for_each]. rewrite Hs. cbn [mbind result_bind]. split; [done|]. split; [done|].
  split; [|split; congruence]. apply (settling_app lvl [id] ids self self1); [done|done|]. intros id' ->%list_elem_of_singleton. done.
Qed.

(** A part is moved and queued. *)
Lemma settle_part_spec ev h self lvl g src ids :
  storage_ok h self -> 0 <= lvl < num_cache_levels self -> 0 <= g < num_groups self -> lvl <> src -> NoDup ids ->
  Forall (loose self src g) ids -> len ids <= free self lvl g ->
  (forall id page, id ∈ ids -> pages self !! id = Some page -> can_fall page) ->
  exists h' self', settle_part ev lvl self ((src, g), ids) = Ok self' /\ storage_ok h' self' /\ settling lvl ids self self'
    /\ forall l' g', free self' l' g' = free self l' g'
         + (if decide ((l', g') = (src, g)) then len ids else 0) - if decide ((l', g') = (lvl, g)) then len ids else 0.
Proof.
  intros Hok Hlvl Hg Hne Hnd Hloose Hfree Hcan.
  destruct (batched_migrate_spec ev h self g src lvl ids) as (h1 & self1 & Hm & Hok1 & Hsh & Hc & Hmv & Hf); [done..|].
  rewrite Forall_forall in Hloose.
  assert (Ht1 : trans lvl ids self self1).
  { apply (moves_trans lvl ids lvl); [done..|]. intros id Hin. destruct (Hloose id Hin) as [(page & Hp & _) _]. eauto. }
  destruct (settle_pages_spec h1 self1 lvl g ids) as (self2 & Hs & Hok2 & [Ht2 Hset2] & Hp2 & Hpo2); [done| |done| | |].
  { by destruct Hsh as (_ & -> & _). }
  { apply Forall_forall. intros id Hin. destruct (Hloose id Hin) as [(page & Hp & Hl & Hgp) Hns]. split.
    - destruct (proj2 Hmv id page Hin Hp) as [s Hs]. exists (moved page lvl s). split; [done|]. split; [done|].
      unfold get_pool_group_index in *. simpl. by destruct Hsh as (-> & _).
    - intros (l & c & Hc' & Hr). apply Hns. exists l, c. by rewrite <- Hc. }
  { intros id page' Hin Hp'. destruct (t_like _ _ _ _ Ht1 _ _ Hp') as (page & Hp & (_ & _ & Hst & Hcm)).
    unfold can_fall. rewrite Hst, Hcm. by apply (Hcan id). }
  exists h1, self2. unfold settle_part. rewrite Hm. cbn [mbind result_bind]. split; [done|]. split; [done|]. split.
  - split; [|done]. apply (trans_mono lvl (ids ++ ids)); [set_solver|]. by eapply trans_trans.
  - intros l' g'. unfold free at 1. rewrite Hpo2. apply Hf.
Qed.

Lemma add_to_part_concat k id parts : concat (add_to_part k id parts).*2 ≡ₚ id :: concat parts.*2.
Proof.
  induction parts as [|[k' ids] parts IH]; [done|]. cbn [add_to_part]. case_bool_decide; rewrite !fmap_cons; cbn [concat snd].
  - rewrite <- app_assoc. simpl. solve_Permutation.
  - rewrite IH. solve_Permutation.
Qed.

Lemma add_to_part_elem k id parts k' ids x :
  (k', ids) ∈ add_to_part k id parts -> x ∈ ids -> (x = id /\ k' = k) \/ exists ids0, (k', ids0) ∈ parts /\ x ∈ ids0.
Proof.
  induction parts as [|[k1 ids1] parts IH]; cbn [add_to_part]; intros Hin Hx.
  - apply list_elem_of_singleton in Hin as [= -> ->]. left. by apply list_elem_of_singleton in Hx.
  - case_bool_decide as Heq; apply elem_of_cons in Hin as [[= -> ->]|Hin].
    + apply elem_of_app in Hx as [Hx|Hx%list_elem_of_singleton]; [right|left; by subst]. exists ids1. split; [by left|done].
    + right. exists ids. split; [by right|done].
    + right. exists ids1. split; [by left|done].
    + destruct (IH Hin Hx) as [|(ids0 & ? & ?)]; [by left|right]. exists ids0. split; [by right|done].
Qed.

Lemma add_to_part_nonempty k id parts :
  (forall k' ids, (k', ids) ∈ parts -> ids <> []) -> forall k' ids, (k', ids) ∈ add_to_part k id parts -> ids <> [].
Proof.
  intros H0. induction parts as [|[k1 ids1] parts IH]; cbn [add_to_part]; intros k' ids Hin.
  - by apply list_elem_of_singleton in Hin as [= -> ->].
  - case_bool_decide; apply elem_of_cons in Hin as [[= -> ->]|Hin]; [by destruct ids1|..].
    + apply (H0 k'). by right.
    + apply (H0 k1). by left.
    + apply IH in Hin; [done|]. intros k2 ids2 H2. apply (H0 k2). by right.
Qed.

Lemma in_parts (parts : list ((Z * Z) * list Z)) k ids (id : Z) : (k, ids) ∈ parts -> id ∈ ids -> id ∈ concat parts.*2.
Proof.
  intros Hin Hid. apply list_elem_of_In, in_concat. exists ids. split; [|by apply list_elem_of_In].
  apply list_elem_of_In, list_elem_of_fmap. by exists (k, ids).
Qed.

(** The part with key [k] has pages of the level and the group of [k]. *)
Definition part_of self (part : (Z * Z) * list Z) : Prop :=
  part.2 <> [] /\ forall id, id ∈ part.2 ->
    exists page, pages self !! id = Some page /\ page_level page = part.1.1 /\ group_of self page = Ok part.1.2.

Lemma partition_spec self A :
  (forall id, id ∈ A -> exists page g, pages self !! id = Some page /\ group_of self page = Ok g) ->
  exists parts, partition self A = Ok parts /\ concat parts.*2 ≡ₚ A /\ forall part, part ∈ parts -> part_of self part.
Proof.
  intros HA. unfold partition.
  assert (Hgen : forall B parts0, (forall id, id ∈ B -> id ∈ A) -> (forall part, part ∈ parts0 -> part_of self part) ->
    exists parts, for_each (fun parts id => p ← get_page self id; pg ← get_pool_group_index self (page_life_cycle p);
                     Ok (add_to_part (page_level p, pg) id parts)) parts0 B = Ok parts
      /\ concat parts.*2 ≡ₚ B ++ concat parts0.*2 /\ forall part, part ∈ parts -> part_of self part).
  { induction B as [|id B IH]; intros parts0 HB H0; [by exists parts0|].
    destruct (HA id) as (page & g & Hp & Hg); [apply HB; by left|]. assert (get_page self id = Ok page) as Hgp by (unfold get_page; by rewrite Hp).
    cbn [for_each]. rewrite Hgp. cbn [mbind result_bind]. rewrite Hg. cbn [mbind result_bind].
    destruct (IH (add_to_part (page_level page, g) id parts0)) as (parts & Hf & Hperm & Hparts).
    - intros id' Hin. apply HB. by right.
    - intros [k ids] Hin. split.
      + apply add_to_part_nonempty in Hin; [done|]. intros k' ids' Hin'. by destruct (H0 _ Hin').
      + intros x Hx. destruct (add_to_part_elem _ _ _ _ _ _ Hin Hx) as [[-> ->]|(ids0 & Hin0 & Hx0)]; [by exists page|].
        destruct (H0 _ Hin0) as [_ Hk]. by apply Hk.
    - exists parts. split; [done|]. split; [|done]. rewrite Hperm, add_to_part_concat. solve_Permutation. }
  destruct (Hgen A []) as (parts & Hf & Hperm & Hparts); [done|intros ? Hin; by apply not_elem_of_nil in Hin|].
  exists parts. split; [done|]. split; [|done]. by rewrite Hperm, app_nil_r.
Qed.

(** One if the page is on this level. *)
Definition on_level self (l id : Z) : Z :=
  match pages self !! id with Some page => if page_level page =? l then 1 else 0 | None => 0 end.

Lemma settle_parts_spec ev h self lvl g parts :
  storage_ok h self -> 0 <= lvl < num_cache_levels self -> 0 <= g < num_groups self -> NoDup (concat parts.*2) ->
  (forall k ids, (k, ids) ∈ parts -> k.2 = g /\ lvl <> k.1 /\ Forall (loose self k.1 g) ids) ->
  len (concat parts.*2) <= free self lvl g ->
  (forall id page, id ∈ concat parts.*2 -> pages self !! id = Some page -> can_fall page) ->
  exists h' self', for_each (settle_part ev lvl) self parts = Ok self' /\ storage_ok h' self'
    /\ settling lvl (concat parts.*2) self self'
    /\ forall l' g', free self' l' g' = free self l' g'
         + (if decide (g' = g) then zsum (fun part => if part.1.1 =? l' then len part.2 else 0) parts else 0)
         - if decide ((l', g') = (lvl, g)) then len (concat parts.*2) else 0.
Proof.
  intros Hok Hlvl Hg. revert h self Hok Hlvl Hg. induction parts as [|[k ids] parts IH];
    intros h self Hok Hlvl Hg Hnd Hparts Hfree Hcan.
  { exists h, self. split; [done|]. split; [done|]. split; [apply settling_refl|]. intros l' g'. simpl.
    repeat case_decide; unfold zsum; simpl; lia. }
  rewrite fmap_cons in *. cbn [concat snd] in *. apply NoDup_app in Hnd as (Hnd1 & Hdis & Hnd2). rewrite length_app in Hfree.
  destruct (Hparts k ids) as (Hk2 & Hne & Hloose); [by left|]. destruct k as [src g0]. simpl in Hk2, Hne, Hloose. subst g0.
  destruct (settle_part_spec ev h self lvl g src ids) as (h1 & self1 & Hs1 & Hok1 & [Ht1 Hset1] & Hf1); [done..|lia| |].
  { intros id page Hin. apply Hcan. set_solver. }
  destruct (t_shape _ _ _ _ Ht1) as (_ & HL & HG).
  destruct (IH h1 self1 Hok1) as (h2 & self2 & Hs2 & Hok2 & Ht2 & Hf2); [by rewrite HL|by rewrite HG|done| | | |].
  { intros k' ids' Hin. destruct (Hparts k' ids') as (? & ? & Hl'); [by right|]. split; [done|]. split; [done|].
    apply Forall_forall. intros id Hid. rewrite Forall_forall in Hl'. apply (loose_trans lvl ids self); [done| |auto].
    intros Hx. by apply (Hdis id Hx), (in_parts _ k' ids'). }
  { rewrite Hf1. rewrite (decide_True (P := (lvl, g) = (lvl, g))) by done. rewrite decide_False by congruence. lia. }
  { intros id page' Hin Hp'. destruct (t_like _ _ _ _ Ht1 _ _ Hp') as (page & Hp & (_ & _ & Hst & Hcm)).
    unfold can_fall. rewrite Hst, Hcm. apply (Hcan id page); [set_solver|done]. }
  exists h2, self2. cbn [for_each]. rewrite Hs1. cbn [mbind result_bind]. split; [done|]. split; [done|].
  split; [by apply (settling_app lvl ids _ self self1)|]. intros l' g'. rewrite Hf2, Hf1, length_app, zsum_cons. cbn [fst snd].
  destruct (decide (g' = g)) as [->|Hg']; [|rewrite !decide_False by congruence; lia].
  destruct (Z.eqb_spec src l') as [->|Hs].
  - rewrite (decide_True (P := (l', g) = (l', g))) by done. case_decide; lia.
  - rewrite (decide_False (P := (l', g) = (src, g))) by congruence. case_decide; lia.
Qed.

(** A page of group [g] that was evicted above [lvl] and waits for a place. *)
Definition falling self (lvl g id : Z) : Prop :=
  exists page, pages self !! id = Some page /\ page_level page < lvl /\ group_of self page = Ok g
    /\ ~ scheduled self id /\ can_fall page.

Lemma falling_loose self lvl g id page :
  falling self lvl g id -> pages self !! id = Some page -> loose self (page_level page) g id /\ page_level page < lvl /\ can_fall page.
Proof. intros (page' & Hp' & Hl & Hg & Hns & Hc) Hp. rewrite Hp in Hp'. injection Hp' as <-. split; [|done]. split; eauto. Qed.

Lemma falling_trans lvl0 ids self self' lvl g id :
  trans lvl0 ids self self' -> id ∉ ids -> falling self lvl g id -> falling self' lvl g id.
Proof.
  intros Ht Hin (page & Hp & Hl & Hg & Hns & Hc).
  assert (Hloose : loose self (page_level page) g id) by (split; eauto).
  destruct (loose_trans _ _ _ _ _ _ _ Ht Hin Hloose) as [(page' & Hp' & Hl' & Hg') Hns'].
  assert (page' = page) as ->.
  { rewrite (t_untouched _ _ _ _ Ht) in Hp' by (try done; intros (l & c & _ & Hc' & Hr); apply Hns; by exists l, c). congruence. }
  by exists page.
Qed.

Lemma zsum_concat {A} (f : A -> Z) ls : zsum f (concat ls) = zsum (zsum f) ls.
Proof. induction ls as [|l ls IH]; [done|]. simpl. by rewrite zsum_app, IH. Qed.

Lemma settle_group_spec ev h self lvl g A :
  storage_ok h self -> 0 <= lvl < num_cache_levels self -> 0 <= g < num_groups self -> NoDup A ->
  (forall id, id ∈ A -> falling self lvl g id) -> len A <= free self lvl g ->
  exists h' self', settle_group ev lvl self A = Ok self' /\ storage_ok h' self' /\ settling lvl A self self'
    /\ forall l' g', free self' l' g' = free self l' g' + (if decide (g' = g) then zsum (on_level self l') A else 0)
         - if decide ((l', g') = (lvl, g)) then len A else 0.
Proof.
  intros Hok Hlvl Hg Hnd HA Hfree.
  destruct (partition_spec self A) as (parts & Hpart & Hperm & Hparts).
  { intros id Hin. destruct (HA id Hin) as (page & Hp & _ & Hgp & _). eauto. }
  assert (HinA : forall k ids id, (k, ids) ∈ parts -> id ∈ ids -> id ∈ A) by (intros k ids id Hin Hid; rewrite <- Hperm; by apply (in_parts _ k ids)).
  destruct (settle_parts_spec ev h self lvl g parts) as (h' & self' & Hs & Hok' & Ht & Hf); [done|done|done|by rewrite Hperm| | | |].
  { intros k ids Hin. destruct (Hparts _ Hin) as [Hk Hids]. simpl in Hk, Hids.
    assert (Hlo : forall id, id ∈ ids -> k.2 = g /\ k.1 < lvl /\ loose self k.1 g id).
    { intros id Hid. destruct (Hids id Hid) as (page & Hp & <- & Hgp). specialize (HA id (HinA k ids id Hin Hid)).
      destruct (falling_loose _ _ _ _ _ HA Hp) as (Hlo & Hlt & _). split; [|done]. destruct Hlo as [(page' & Hp' & _ & Hg') _]. congruence. }
    destruct ids as [|id0 ids0]; [done|]. destruct (Hlo id0) as (? & ? & _); [by left|]. split; [done|]. split; [lia|].
    apply Forall_forall. intros id Hid. by apply Hlo. }
  { by rewrite (Permutation_length Hperm). }
  { intros id page Hin Hp. rewrite Hperm in Hin. by destruct (falling_loose _ _ _ _ _ (HA id Hin) Hp) as (_ & _ & ?). }
  exists h', self'. unfold settle_group. rewrite Hpart. cbn [mbind result_bind]. split; [done|]. split; [done|].
  split; [by apply (settling_perm lvl (concat parts.*2))|].
  intros l' g'. rewrite Hf, (Permutation_length Hperm). f_equal. f_equal. case_decide; [|done].
  rewrite <- Hperm, zsum_concat, zsum_fmap. apply zsum_ext. intros [k ids] Hin. cbn [fst snd].
  destruct (Hparts _ Hin) as [_ Hids]. simpl in Hids. rewrite (zsum_ext (on_level self l') (fun _ => if k.1 =? l' then 1 else 0)).
  - rewrite zsum_const. destruct (k.1 =? l'); lia.
  - intros id Hid. destruct (Hids id Hid) as (page & Hp & Hl & _). unfold on_level. by rewrite Hp, Hl.
Qed.

(** The row of group [g] in a list of rows that starts with group [g0]. *)
Definition row (rows : list (list Z)) (g0 g : Z) : list Z :=
  if g0 <=? g then default [] (rows !! Z.to_nat (g - g0)) else [].

Lemma row_cons A rows g0 g :
  row (A :: rows) g0 g = if decide (g = g0) then A else row rows (g0 + 1) g.
Proof.
  unfold row. destruct (Z.leb_spec g0 g); case_decide as Hg.
  - subst. by rewrite Z.sub_diag.
  - rewrite (proj2 (Z.leb_le _ _)) by lia. replace (Z.to_nat (g - g0)) with (S (Z.to_nat (g - (g0 + 1)))) by lia. done.
  - lia.
  - by rewrite (proj2 (Z.leb_gt _ _)) by lia.
Qed.

Lemma row_elem rows g0 g id : id ∈ row rows g0 g -> id ∈ concat rows.
Proof.
  unfold row. destruct (g0 <=? g); [|intros Hin; by apply not_elem_of_nil in Hin].
  destruct (rows !! _) as [A|] eqn:HA; simpl; [|intros Hin; by apply not_elem_of_nil in Hin].
  intros Hin. apply list_elem_of_In, in_concat. exists A. split; [|by apply list_elem_of_In].
  by eapply list_elem_of_In, list_elem_of_lookup_2.
Qed.

Lemma on_level_trans lvl ids self self' l id :
  trans lvl ids self self' -> id ∉ ids -> ~ scheduled self id -> on_level self' l id = on_level self l id.
Proof.
  intros Ht Hin Hns. unfold on_level. rewrite (t_untouched _ _ _ _ Ht); [done| |done].
  intros (l' & c & _ & Hc & Hr). apply Hns. by exists l', c.
Qed.

Lemma settle_groups_spec ev lvl rows h self g0 :
  storage_ok h self -> 0 <= lvl < num_cache_levels self -> 0 <= g0 -> g0 + len rows <= num_groups self ->
  NoDup (concat rows) ->
  (forall g id, g0 <= g < g0 + len rows -> id ∈ row rows g0 g -> falling self lvl g id) ->
  (forall g, g0 <= g < g0 + len rows -> len (row rows g0 g) <= free self lvl g) ->
  exists h' self', for_each (settle_group ev lvl) self rows = Ok self' /\ storage_ok h' self'
    /\ settling lvl (concat rows) self self'
    /\ forall l' g', free self' l' g' = free self l' g' + zsum (on_level self l') (row rows g0 g')
         - if decide (l' = lvl) then len (row rows g0 g') else 0.
Proof.
  intros Hok Hlvl. revert h self g0 Hok Hlvl. induction rows as [|A rows IH]; intros h self g0 Hok Hlvl Hg0 Hg1 Hnd Hfall Hfree.
  { exists h, self. split; [done|]. split; [done|]. split; [apply settling_refl|]. intros l' g'.
    assert (row [] g0 g' = []) as -> by (unfold row; by destruct (g0 <=? g')). simpl. case_decide; unfold zsum; simpl; lia. }
  cbn [concat] in Hnd |- *. apply NoDup_app in Hnd as (Hnd1 & Hdis & Hnd2). simpl length in *.
  assert (Hrow0 : row (A :: rows) g0 g0 = A) by (rewrite row_cons; by rewrite decide_True).
  assert (HrowS : forall g, g <> g0 -> row (A :: rows) g0 g = row rows (g0 + 1) g) by (intros g Hg; rewrite row_cons; by rewrite decide_False).
  assert (HA : forall id, id ∈ A -> falling self lvl g0 id) by (intros id Hin; apply Hfall; [lia|by rewrite Hrow0]).
  destruct (settle_group_spec ev h self lvl g0 A) as (h1 & self1 & Hs1 & Hok1 & [Ht1 Hset1] & Hf1); [done|done|lia|done|done| |].
  { rewrite <- Hrow0. apply Hfree. lia. }
  destruct (t_shape _ _ _ _ Ht1) as (_ & HL & HG).
  assert (Hout : forall g id, id ∈ row rows (g0 + 1) g -> id ∉ A) by (intros g id Hin%row_elem Hx; by apply (Hdis id)).
  destruct (IH h1 self1 (g0 + 1) Hok1) as (h2 & self2 & Hs2 & Hok2 & Ht2 & Hf2); [by rewrite HL|lia|rewrite HG; lia|done| | |].
  { intros g id Hg Hin. apply (falling_trans lvl A self); [done|by eapply Hout|]. apply Hfall; [lia|]. by rewrite HrowS by lia. }
  { intros g Hg. rewrite Hf1. rewrite !decide_False by (intros [=]; lia). rewrite <- HrowS by lia.
    specialize (Hfree g ltac:(lia)). lia. }
  exists h2, self2. cbn [for_each]. rewrite Hs1. cbn [mbind result_bind]. split; [done|]. split; [done|].
  split; [by apply (settling_app lvl A _ self self1)|]. intros l' g'. rewrite Hf2, Hf1. destruct (decide (g' = g0)) as [->|Hne].
  - rewrite Hrow0. assert (row rows (g0 + 1) g0 = []) as -> by (unfold row; by rewrite (proj2 (Z.leb_gt _ _)) by lia).
    unfold zsum at 2. simpl. destruct (decide (l' = lvl)) as [->|Hl]; [rewrite decide_True by done|rewrite decide_False by congruence]; lia.
  - rewrite HrowS by done. rewrite (decide_False (P := (l', g') = (lvl, g0))) by congruence.
    rewrite (zsum_ext (on_level self1 l') (on_level self l')); [lia|]. intros id Hin.
    apply (on_level_trans lvl A self); [done|by eapply Hout|].
    destruct (decide (g0 + 1 <= g' < g0 + 1 + len rows)) as [Hr|Hr].
    + destruct (Hfall g' id ltac:(lia)) as (page & _ & _ & _ & ? & _); [by rewrite HrowS|done].
    + exfalso. unfold row in Hin. destruct (Z.leb_spec (g0 + 1) g'); [|by apply not_elem_of_nil in Hin].
      rewrite lookup_ge_None_2 in Hin by lia. by apply not_elem_of_nil in Hin.
Qed.

End proofs.
