(* ===== verification/MakeRoom.v ===== *)
(** * Making room: the proofs

    [StorageManager._prepare_free_slots] level by level: what the plans of a level
    give, what its eviction controller hands over, what the last level drops and
    what another level passes on; then the whole recursion, [prepare_free_slots],
    and the operations built on it, [new_slots] and [force_evict].  The last
    section runs them on pools that are slot allocators. *)

From stdpp Require Import prelude gmap.
From S2P Require Import Prelude SlotAllocator Eviction StorageManager.
Local Open Scope Z_scope.
#[local] Set Warnings "-register-all".

Section proofs.
Context {P : Type} `{Hlaws : SlotPoolLaws P}.
Implicit Types self : StorageManager P.

Abbreviation group_of self page := (get_pool_group_index self (page_life_cycle page)).

(** ** Letting pages go *)

(** A page of group [g] in no queue that nobody holds. *)
Definition garbage self (g id : Z) : Prop :=
  exists page, pages self !! id = Some page /\ group_of self page = Ok g /\ ~ scheduled self id /\ status page = DROPPABLE.

Lemma garbage_trans lvl ids self self' g id :
  trans lvl ids self self' -> id ∉ ids -> garbage self g id -> garbage self' g id.
Proof.
  intros Ht Hin (page & Hp & Hg & Hns & Hst).
  assert (Hloose : loose self (page_level page) g id) by (split; eauto).
  destruct (loose_trans _ _ _ _ _ _ _ Ht Hin Hloose) as [(page' & Hp' & Hl' & Hg') Hns'].
  assert (page' = page) as ->.
  { rewrite (t_untouched _ _ _ _ Ht) in Hp' by (try done; intros (l & c & _ & Hc' & Hr); apply Hns; by exists l, c). congruence. }
  by exists page.
Qed.

Lemma let_go_spec h self lvl g id :
  storage_ok h self -> garbage self g id ->
  exists h' self', let_go self id = Ok self' /\ storage_ok h' self' /\ settling lvl [id] self self'
    /\ controllers self' = controllers self
    /\ forall l' g', free self' l' g' = free self l' g' + if decide (g' = g) then on_level self l' id else 0.
Proof.
  intros Hok (page & Hp & Hg & Hns & Hst).
  destruct (drop_page_spec h self id page g) as (h' & self' & Hd & Hok' & Hsh & Hc & Hps & Hf); [done..|].
  exists h', self'. unfold let_go, get_page. rewrite Hp. cbn [mbind result_bind]. rewrite Hst, bool_decide_eq_true_2 by done.
  split; [done|]. split; [done|]. split; [split|split; [done|]].
  - apply trans_pages; [done|done| | |].
    + intros id' page' Hp'. rewrite Hps in Hp'. apply lookup_delete_Some in Hp' as [_ Hp']. eauto using like_refl.
    + intros id' page' Hp' Hst'. rewrite Hps, lookup_delete_ne; [eauto|]. congruence.
    + intros id' Hne. rewrite Hps, lookup_delete_ne; [done|]. set_solver.
  - intros id' page' ->%list_elem_of_singleton Hp'. by rewrite Hps, lookup_delete_eq in Hp'.
  - intros l' g'. rewrite Hf. f_equal. unfold on_level. rewrite Hp.
    destruct (Z.eqb_spec (page_level page) l'); repeat case_decide; (done || congruence).
Qed.

Lemma let_go_all h self lvl g ids :
  storage_ok h self -> NoDup ids -> (forall id, id ∈ ids -> garbage self g id) ->
  exists h' self', for_each let_go self ids = Ok self' /\ storage_ok h' self' /\ settling lvl ids self self'
    /\ controllers self' = controllers self
    /\ forall l' g', free self' l' g' = free self l' g' + if decide (g' = g) then zsum (on_level self l') ids else 0.
Proof.
  revert h self. induction ids as [|id ids IH]; intros h self Hok Hnd Hg.
  { exists h, self. split; [done|]. split; [done|]. split; [apply settling_refl|]. split; [done|].
    intros l' g'. unfold zsum. simpl. case_decide; lia. }
  apply NoDup_cons in Hnd as [Hid Hnd].
  destruct (let_go_spec h self lvl g id) as (h1 & self1 & Hl1 & Hok1 & [Ht1 Hset1] & Hc1 & Hf1); [done|apply Hg; by left|].
  destruct (IH h1 self1 Hok1 Hnd) as (h2 & self2 & Hl2 & Hok2 & Ht2 & Hc2 & Hf2).
  { intros id' Hin. apply (garbage_trans lvl [id] self); [done|set_solver|apply Hg; by right]. }
  exists h2, self2. cbn [for_each]. rewrite Hl1. cbn [mbind result_bind]. split; [done|]. split; [done|].
  split; [apply (settling_app lvl [id] ids self self1); [done|done|by intros id' ->%list_elem_of_singleton]|].
  split; [congruence|]. intros l' g'. rewrite Hf2, Hf1. rewrite zsum_cons.
  case_decide; [|lia]. rewrite (zsum_ext (on_level self1 l') (on_level self l')); [lia|]. intros id' Hin.
  apply (on_level_trans lvl [id] self); [done|set_solver|]. destruct (Hg id') as (? & _ & _ & ? & _); [by right|done].
Qed.

(** ** The last level *)

Lemma last_but {A} n (l : list A) : but_last_n n l ++ last_n n l = l.
Proof. apply take_drop. Qed.

Lemma last_n_length {A} n (l : list A) : 0 <= n <= len l -> len (last_n n l) = n.
Proof. intros Hn. unfold last_n. rewrite length_drop. lia. Qed.

(** What falls out when the last [n] of two lists are kept. *)
Lemma but_last_app {A} n (l1 l2 : list A) x :
  len l2 <= n -> x ∈ but_last_n n (l1 ++ l2) -> x ∈ l1.
Proof.
  intros Hn. unfold but_last_n. rewrite length_app, take_app_le by lia. apply subseteq_take.
Qed.

Lemma last_n_app {A} n (l1 l2 : list A) x : n <= len l2 -> x ∈ last_n n (l1 ++ l2) -> x ∈ l2.
Proof.
  intros Hn. unfold last_n. rewrite length_app.
  assert (Hd : drop (length l1 + length l2 - Z.to_nat n) (l1 ++ l2) = drop (length l2 - Z.to_nat n) l2).
  { rewrite drop_app_ge by lia. f_equal. lia. }
  rewrite Hd. apply subseteq_drop.
Qed.

(** How many pages a level evicts and accepts. *)
Definition to_evict (goal fallen free evictable : Z) : Z := Z.max 0 (Z.min (goal + fallen - free) evictable).

Lemma accept_count goal f free ev h :
  0 <= ev -> 0 <= free -> 0 <= goal -> 0 <= h <= f -> goal <= free + ev - h ->
  let e := to_evict goal f free ev in
  h <= Z.min (free + e - goal) f /\ Z.min (free + e - goal) (e + f) <= f /\ 0 <= e <= ev.
Proof. unfold to_evict. lia. Qed.

Abbreviation last_item := ((Z * Z) * (list Z * (list Z * list Z)))%type.

Definition num_kept self lvl (x : last_item) : Z :=
  let '((g, goal), (E, (K, R))) := x in Z.min (free self lvl g + len E - goal) (len (R ++ K)).
Definition kept self lvl (x : last_item) : list Z := let '(_, (_, (K, R))) := x in last_n (num_kept self lvl x) (R ++ K).
Definition gone self lvl (x : last_item) : list Z :=
  let '(_, (E, (K, R))) := x in E ++ but_last_n (num_kept self lvl x) (R ++ K).

(** What the last level starts from: evicted pages and those of the fallen pages
    that nobody holds are garbage, and there is room for the held ones. *)
Definition last_input self lvl (g : Z) (x : last_item) : Prop :=
  let '((g', goal), (E, (K, R))) := x in
  g' = g /\ 0 <= goal
  /\ (forall id, id ∈ E -> garbage self g id /\ on_level self lvl id = 1)
  /\ (forall id, id ∈ R -> garbage self g id /\ on_level self lvl id = 0)
  /\ (forall id, id ∈ K -> ~ scheduled self id)
  /\ len K <= num_kept self lvl x.

Definition all_ids (x : last_item) : list Z := let '(_, (E, (K, R))) := x in E ++ R ++ K.

Lemma gone_kept self lvl x : gone self lvl x ++ kept self lvl x = all_ids x.
Proof. destruct x as [[g goal] [E [K R]]]. unfold gone, kept, all_ids. by rewrite <- app_assoc, last_but. Qed.

Lemma last_input_loose self lvl g x id : last_input self lvl g x -> id ∈ all_ids x -> ~ scheduled self id.
Proof.
  destruct x as [[g' goal] [E [K R]]]. unfold last_input, all_ids. intros (_ & _ & HE & HR & HK & _).
  rewrite !elem_of_app. intros [Hi|[Hi|Hi]]; [|..|by apply HK]; [destruct (HE id Hi) as [Hg _]|destruct (HR id Hi) as [Hg _]];
    by destruct Hg as (? & _ & _ & ? & _).
Qed.

Lemma accept_last_spec h self lvl g acc x :
  storage_ok h self -> 0 <= lvl < num_cache_levels self -> 0 <= g < num_groups self ->
  last_input self lvl g x -> NoDup (all_ids x) ->
  exists h' self', accept_last lvl (self, acc) x = Ok (self', acc ++ [kept self lvl x]) /\ storage_ok h' self'
    /\ settling lvl (gone self lvl x) self self' /\ controllers self' = controllers self
    /\ forall l' g', free self' l' g' = free self l' g' + if decide (g' = g) then zsum (on_level self l') (gone self lvl x) else 0.
Proof.
  intros Hok Hlvl Hg Hin Hnd. pose proof (gone_kept self lvl x) as Hsplit. destruct x as [[g' goal] [E [K R]]].
  destruct Hin as (-> & Hgoal & HE & HR & HH & Hroom). unfold kept, gone in *.
  set (n := num_kept self lvl _) in *. rewrite <- Hsplit in Hnd. apply NoDup_app in Hnd as (Hnd & _ & _).
  apply NoDup_app in Hnd as (HndE & HdisE & HndD).
  destruct (free_ok h self lvl g Hok Hlvl Hg) as [Hfree Hf0].
  destruct (let_go_all h self lvl g E) as (h1 & self1 & Hl1 & Hok1 & [Ht1 Hset1] & Hc1 & Hf1); [done|done|by intros id Hi; apply HE|].
  assert (HfE : zsum (on_level self lvl) E = len E).
  { rewrite (zsum_ext _ (fun _ => 1)); [rewrite zsum_const; lia|]. intros id Hi. by apply HE. }
  assert (Hfl : free self1 lvl g = free self lvl g + len E) by (rewrite Hf1, decide_True by done; lia).
  destruct (t_shape _ _ _ _ Ht1) as (_ & HL & HG).
  destruct (free_ok h1 self1 lvl g Hok1) as [Hfree1 _]; [by rewrite HL|by rewrite HG|].
  assert (Hn : n = Z.min (free self1 lvl g - goal) (len (R ++ K))) by (unfold n, num_kept; rewrite Hfl; lia).
  destruct (let_go_all h1 self1 lvl g (but_last_n n (R ++ K))) as (h2 & self2 & Hl2 & Hok2 & Ht2 & Hc2 & Hf2); [done|done| |].
  { intros id Hi. apply (garbage_trans lvl E self); [done|intros Hx; by apply (HdisE id)|].
    apply HR. by apply (but_last_app n R K). }
  exists h2, self2. unfold accept_last. rewrite Hfree. cbn [mbind result_bind]. rewrite Hl1. cbn [mbind result_bind].
  rewrite Hfree1. cbn [mbind result_bind].
  rewrite (proj2 (Z.leb_le (len E + free self lvl g) _)) by lia. cbn [py_assert mbind result_bind].
  rewrite (proj2 (Z.leb_le (len K) _)) by lia. cbn [py_assert mbind result_bind]. rewrite <- Hn.
  rewrite (proj2 (Z.leb_le 0 n)) by lia. cbn [py_assert mbind result_bind]. rewrite Hl2. cbn [mbind result_bind].
  split; [done|]. split; [done|]. split; [by apply (settling_app lvl E _ self self1)|]. split; [congruence|].
  intros l' g'. rewrite Hf2, Hf1. case_decide; [|lia]. rewrite zsum_app.
  rewrite (zsum_ext (on_level self1 l') (on_level self l')); [lia|]. intros id Hi.
  apply (on_level_trans lvl E self); [done|intros Hx; by apply (HdisE id)|].
  apply but_last_app in Hi; [|lia]. by destruct (HR id Hi) as [(? & _ & _ & ? & _) _].
Qed.

Lemma num_kept_ext self self' lvl x : free self' lvl x.1.1 = free self lvl x.1.1 -> num_kept self' lvl x = num_kept self lvl x.
Proof. destruct x as [[g goal] [E [K R]]]. simpl. by intros ->. Qed.

Lemma accept_last_loop lvl xs h self g0 acc :
  storage_ok h self -> 0 <= lvl < num_cache_levels self -> 0 <= g0 -> g0 + len xs <= num_groups self ->
  (forall i x, xs !! i = Some x -> last_input self lvl (g0 + Z.of_nat i) x) -> NoDup (concat (all_ids <$> xs)) ->
  exists h' self', for_each (accept_last lvl) (self, acc) xs = Ok (self', acc ++ (kept self lvl <$> xs)) /\ storage_ok h' self'
    /\ settling lvl (concat (gone self lvl <$> xs)) self self' /\ controllers self' = controllers self
    /\ forall l' g', free self' l' g' = free self l' g' + zsum (on_level self l') (row (gone self lvl <$> xs) g0 g').
Proof.
  intros Hok Hlvl. revert h self g0 acc Hok Hlvl. induction xs as [|x xs IH]; intros h self g0 acc Hok Hlvl Hg0 Hg1 Hin Hnd.
  { exists h, self. simpl. rewrite app_nil_r. split; [done|]. split; [done|]. split; [apply settling_refl|]. split; [done|].
    intros l' g'. assert (row [] g0 g' = []) as -> by (unfold row; by destruct (g0 <=? g')). unfold zsum. simpl. lia. }
  rewrite fmap_cons in Hnd. cbn [concat] in Hnd. apply NoDup_app in Hnd as (Hnd1 & Hdis & Hnd2). simpl length in Hg1.
  pose proof (Hin 0%nat x eq_refl) as Hx. rewrite Z.add_0_r in Hx.
  destruct (accept_last_spec h self lvl g0 acc x) as (h1 & self1 & Ha1 & Hok1 & [Ht1 Hset1] & Hc1 & Hf1); [done|done|lia|done|done|].
  destruct (t_shape _ _ _ _ Ht1) as (_ & HL & HG).
  assert (Hout : forall y id, y ∈ xs -> id ∈ all_ids y -> id ∉ gone self lvl x).
  { intros y id Hy Hid Hg. apply (Hdis id); [rewrite <- (gone_kept self lvl x); set_solver|].
    apply list_elem_of_In, in_concat. exists (all_ids y). split; [|by apply list_elem_of_In].
    apply list_elem_of_In, list_elem_of_fmap. eauto. }
  assert (Hkept : forall i y, xs !! i = Some y -> num_kept self1 lvl y = num_kept self lvl y).
  { intros i y Hy. apply num_kept_ext. rewrite Hf1. pose proof (Hin (S i) y Hy) as Hl. destruct y as [[g goal] [E [K R]]].
    destruct Hl as (-> & _). simpl. rewrite decide_False; lia. }
  destruct (IH h1 self1 (g0 + 1) (acc ++ [kept self lvl x]) Hok1) as (h2 & self2 & Ha2 & Hok2 & Ht2 & Hc2 & Hf2); [by rewrite HL|lia|rewrite HG; lia| |done|].
  { intros i y Hy. pose proof (Hin (S i) y Hy) as Hl. pose proof (Hkept i y Hy) as Hk.
    assert (Hyx : y ∈ xs) by by eapply list_elem_of_lookup_2.
    destruct y as [[g goal] [E [K R]]]. destruct Hl as (-> & Hgoal & HE & HR & HH & Hroom). unfold last_input. rewrite Hk.
    split; [lia|]. split; [done|]. replace (g0 + 1 + Z.of_nat i) with (g0 + Z.of_nat (S i)) by lia.
    pose proof (fun id => Hout _ id Hyx) as Ho. unfold all_ids in Ho.
    split; [|split; [|split; [|done]]].
    - intros id Hid. destruct (HE id Hid) as [Hgb Hon]. split; [apply (garbage_trans lvl (gone self lvl x) self); [done|apply Ho; set_solver|done]|].
      rewrite (on_level_trans lvl (gone self lvl x) self); [done|done|apply Ho; set_solver|]. by destruct Hgb as (? & _ & _ & ? & _).
    - intros id Hid. destruct (HR id Hid) as [Hgb Hon]. split; [apply (garbage_trans lvl (gone self lvl x) self); [done|apply Ho; set_solver|done]|].
      rewrite (on_level_trans lvl (gone self lvl x) self); [done|done|apply Ho; set_solver|]. by destruct Hgb as (? & _ & _ & ? & _).
    - intros id Hid (l & c & Hc & Hr). apply (HH id Hid). exists l, c. by rewrite <- Hc1. }
  assert (Hmap : forall y, y ∈ xs -> kept self1 lvl y = kept self lvl y /\ gone self1 lvl y = gone self lvl y).
  { intros y [i Hy]%list_elem_of_lookup_1. pose proof (Hkept i y Hy) as Hk. destruct y as [[g goal] [E [K R]]].
    unfold kept, gone. by rewrite Hk. }
  assert (kept self1 lvl <$> xs = kept self lvl <$> xs /\ gone self1 lvl <$> xs = gone self lvl <$> xs) as [Hm1 Hm2].
  { split; apply list_fmap_ext; intros i y Hy; by apply Hmap; eapply list_elem_of_lookup_2. }
  rewrite Hm1 in Ha2. rewrite Hm2 in Ht2, Hf2.
  exists h2, self2. cbn [for_each]. rewrite Ha1. cbn [mbind result_bind]. rewrite Ha2, fmap_cons, <- app_assoc. split; [done|].
  split; [done|]. rewrite fmap_cons. split.
  { apply (settling_app lvl (gone self lvl x) _ self self1); [done|done|]. intros id Hid (i & A & HA & Hi)%elem_concat_lookup.
    apply list_lookup_fmap_Some in HA as (y & -> & Hy). apply list_elem_of_lookup_2 in Hy.
    apply (Hout y id Hy); [|done]. rewrite <- (gone_kept self lvl y). set_solver. }
  split; [congruence|]. intros l' g'. rewrite Hf2, Hf1, row_cons.
  case_decide as Hg.
  - subst g'. assert (row (gone self lvl <$> xs) (g0 + 1) g0 = []) as -> by (unfold row; by rewrite (proj2 (Z.leb_gt _ _)) by lia).
    unfold zsum at 2. simpl. lia.
  - rewrite (zsum_ext (on_level self1 l') (on_level self l')); [lia|]. intros id Hid.
    assert (exists i y, xs !! i = Some y /\ id ∈ all_ids y) as (i & y & Hy & Hiy).
    { apply row_elem, list_elem_of_In, in_concat in Hid as (A & HA%list_elem_of_In & Hi%list_elem_of_In).
      apply list_elem_of_fmap in HA as (y & -> & [i Hy]%list_elem_of_lookup_1). exists i, y. split; [done|].
      rewrite <- (gone_kept self lvl y). set_solver. }
    apply (on_level_trans lvl (gone self lvl x) self); [done|by eapply Hout; [eapply list_elem_of_lookup_2|]|].
    by eapply (last_input_loose _ _ _ _ _ (Hin (S i) y Hy)).
Qed.

(** ** Evicting from a level *)

Definition evictable self (l g : Z) : Z :=
  match controllers self !! l with
  | Some c => match _policies c !! Z.to_nat g with Some d => policy_len d | None => 0 end
  | None => 0
  end.

(** From [lvl] on, all queues have one priority. *)
Definition uniform (lvl prio : Z) self : Prop :=
  forall l c d k q, lvl <= l -> controllers self !! l = Some c -> d ∈ _policies c -> (k, q) ∈ d -> k = prio.

(** A page just taken out of the queue of its level. *)
Definition evicted_page self self1 (lvl g id : Z) : Prop :=
  exists page, pages self !! id = Some page /\ page_level page = lvl /\ group_of self page = Ok g
    /\ is_evictable self page None = true /\ ~ scheduled self1 id /\ scheduled_from self lvl id.

Lemma concat_split (ps ps' : list PrioritizedEvictionPolicy) (ret : list (list EvictablePage)) :
  length ret = length ps -> length ps' = length ps ->
  (forall g d r d', ps !! g = Some d -> ret !! g = Some r -> ps' !! g = Some d' -> policy_iter d = r ++ policy_iter d') ->
  concat (policy_iter <$> ps) ≡ₚ concat ret ++ concat (policy_iter <$> ps').
Proof.
  revert ps' ret. induction ps as [|d ps IH]; intros [|d' ps'] [|r ret] Hl1 Hl2 Hrow; try done.
  rewrite !fmap_cons. cbn [concat]. rewrite (Hrow 0%nat d r d' eq_refl eq_refl eq_refl).
  rewrite (IH ps' ret); [solve_Permutation|simpl in *; lia..|]. intros g. apply (Hrow (S g)).
Qed.

(** With one priority, the first queue is all there is. *)
Lemma uniform_front prio d : sorted_keys d -> (forall k q, (k, q) ∈ d -> k = prio) -> front d = policy_iter d.
Proof.
  intros Hs Hk. destruct d as [|[k1 q1] [|[k2 q2] d]]; [done|unfold policy_iter; simpl; by rewrite app_nil_r|]. exfalso.
  rewrite (Hk k1 q1), (Hk k2 q2) in Hs by set_solver. apply sorted_head in Hs. set_solver.
Qed.

Lemma ids_of_concat rows : concat (ids_of rows) = page_id <$> concat rows.
Proof. unfold ids_of. induction rows as [|r rows IH]; [done|]. rewrite fmap_cons. cbn [concat]. by rewrite fmap_app, IH. Qed.

(** Some pages were taken out of the queues of a level. *)
Section taken.
Context (h : Z * Z -> gset Z) self (lvl : Z) (c c' : PerLevelEvictionController) (rows : list (list EvictablePage)).
Context (Hok : storage_ok h self) (Hc : controllers self !! lvl = Some c) (Hcok : ctrl_ok c) (Hcok' : ctrl_ok c').
Context (Hperm : all_pages c ≡ₚ concat rows ++ all_pages c').

Lemma taken_ids : NoDup ((page_id <$> concat rows) ++ (page_id <$> all_pages c')).
Proof using Hcok Hperm. rewrite <- fmap_app, <- Hperm. apply (c_ids _ Hcok). Qed.

Lemma taken_refs id : id ∈ node_refs c <-> id ∈ concat (ids_of rows) \/ id ∈ node_refs c'.
Proof using Hcok Hcok' Hperm.
  rewrite (c_refs _ Hcok), (c_refs _ Hcok'), !elem_of_list_to_set, Hperm, fmap_app, ids_of_concat, elem_of_app. done.
Qed.

Lemma taken_trans : trans lvl (concat (ids_of rows)) self (set_controller self lvl c').
Proof using Hc Hcok Hcok' Hperm.
  split; simpl; eauto using like_refl; [done| | |].
  - intros id (l & c1 & Hl & Hc1 & Hin). simpl in Hc1. left. apply lookup_insert_Some in Hc1 as [[<- <-]|[_ Hc1]]; [|by exists l, c1].
    exists lvl, c. split; [lia|]. split; [done|]. apply taken_refs. by right.
  - intros l Hlt. rewrite lookup_insert_ne; [done|lia].
  - intros id page' (l & c1 & Hc1 & Hin) Hni _ _. rewrite (scheduled_insert self lvl c) by done. destruct (decide (l = lvl)) as [->|Hne].
    + left. simplify_eq. apply taken_refs in Hin as [|]; done.
    + right. by exists l, c1.
Qed.

Lemma taken_page (g : nat) d r e :
  lc_grouping self = _life_cycle_grouping c -> _policies c !! g = Some d -> e ∈ policy_iter d -> rows !! g = Some r -> e ∈ r ->
  evicted_page self (set_controller self lvl c') lvl (Z.of_nat g) (page_id e).
Proof using Hok Hc Hcok Hcok' Hperm.
  intros Hgr Hd Hed Hr Her. assert (Hin : e ∈ all_pages c) by by eapply in_all_pages.
  assert (Hid : page_id e ∈ concat (ids_of rows)).
  { rewrite ids_of_concat. apply list_elem_of_fmap. exists e. split; [done|]. apply elem_concat_lookup. eauto. }
  assert (Href : page_id e ∈ node_refs c) by (apply taken_refs; by left).
  destruct (s_queue _ _ Hok _ _ _ Hc Hin) as (page & Hpg & Heq & Hevi). exists page. split; [done|].
  split; [by eapply scheduled_level|]. split.
  { apply in_iter in Hed as (k & q & Hkq & Hpq). destruct (c_place _ Hcok _ _ _ _ _ Hd Hkq Hpq) as (_ & Hpl & _).
    rewrite <- Hgr, Heq in Hpl. exact Hpl. }
  split; [done|]. split; [|exists lvl, c; split; [lia|done]].
  rewrite (scheduled_insert self lvl c) by done. intros [Hin1|(l & c1 & Hne & Hc1 & Hin1)].
  - rewrite (c_refs _ Hcok') in Hin1. apply elem_of_list_to_set in Hin1. pose proof taken_ids as Hids.
    apply NoDup_app in Hids as (_ & Hdis & _). apply (Hdis (page_id e)); [by rewrite <- ids_of_concat|done].
  - apply Hne. rewrite <- (scheduled_level _ _ _ _ _ _ Hok Hc1 Hin1 Hpg). by eapply scheduled_level.
Qed.

End taken.

Lemma evict_storage h self lvl c counts :
  storage_ok h self -> 0 <= lvl < num_cache_levels self -> controllers self !! lvl = Some c ->
  len counts = num_groups self ->
  (forall (g : nat) n, counts !! g = Some n -> 0 <= n <= evictable self lvl (Z.of_nat g)) ->
  (exists rows c', evict c counts = (Ok rows, c') /\ storage_ok h (set_controller self lvl c')
     /\ trans lvl (concat (ids_of rows)) self (set_controller self lvl c') /\ length rows = length counts /\ NoDup (concat (ids_of rows))
     /\ forall (g : nat) n, counts !! g = Some n -> exists E, ids_of rows !! g = Some E /\ len E = n
          /\ forall id, id ∈ E -> evicted_page self (set_controller self lvl c') lvl (Z.of_nat g) id)
  \/ (exists c', evict c counts = (Err AssertionError, c') /\ forall prio, ~ uniform lvl prio self).
Proof.
  intros Hok Hlvl Hc Hlen Hcounts. destruct (s_ctrl _ _ Hok lvl Hlvl) as (c0 & Hc0 & Hcok & Hcl & Hcg & Hcp).
  rewrite Hc in Hc0. injection Hc0 as <-.
  destruct (evict_spec c counts Hcok ltac:(lia)) as [(rows & c' & He & Hcok' & Hrl & Hl' & Hg' & Hp' & Hrows)|(e & g & n & d & He & Hn & Hd & Hfail)].
  - left. exists rows, c'. split; [done|].
    assert (Hperm : all_pages c ≡ₚ concat rows ++ all_pages c').
    { apply concat_split; [lia|lia|]. intros g d r d' Hd Hr Hd'. destruct (lookup_lt_is_Some_2 counts g) as [n Hn];
        [apply lookup_lt_Some in Hd; lia|]. destruct (Hrows g n d Hn Hd) as (_ & r1 & d1 & Hr1 & Hd1 & Hpop & _).
      rewrite Hr in Hr1. rewrite Hd' in Hd1. injection Hr1 as <-. injection Hd1 as <-. by apply popped_iter. }
    pose proof (taken_ids c c' rows Hcok Hperm) as Hids.
    split; [|split; [by apply (taken_trans self lvl c)|split; [done|split; [rewrite ids_of_concat; by apply NoDup_app in Hids as (? & _)|]]]].
    + apply (set_controller_ok h self lvl c c'); [done|done|done|congruence|congruence|lia|].
      intros e0 He0. left. rewrite Hperm. set_solver.
    + intros g n Hn. destruct (lookup_lt_is_Some_2 (_policies c) g) as [d Hd]; [apply lookup_lt_Some in Hn; lia|].
      destruct (Hrows g n d Hn Hd) as (_ & r & d' & Hr & Hd' & Hpop & Hlr). exists (page_id <$> r).
      split; [unfold ids_of; rewrite list_lookup_fmap, Hr; done|]. split; [rewrite length_fmap; specialize (Hcounts g n Hn); lia|].
      intros id (e & -> & Her)%list_elem_of_fmap.
      eapply (taken_page h self lvl c c' rows); [done..| |done|done]. rewrite (popped_iter _ _ _ Hpop). set_solver.
  - right. exists c. specialize (Hcounts g n Hn). unfold evictable in Hcounts. rewrite Hc, Nat2Z.id, Hd, policy_len_iter in Hcounts.
    destruct Hfail as [[-> Hf]|[-> Hf]]; [lia|]. split; [done|]. intros prio Hu.
    rewrite (uniform_front prio d) in Hf; [lia|by eapply c_sorted|]. intros k q Hin.
    apply (Hu lvl c d k q); [lia|done|by eapply list_elem_of_lookup_2|done].
Qed.

(** ** One level *)

Lemma row_fmap {A} (f : A -> list Z) xs (i : nat) x : xs !! i = Some x -> row (f <$> xs) 0 (Z.of_nat i) = f x.
Proof.
  intros Hx. unfold row. rewrite (proj2 (Z.leb_le 0 _)) by lia. rewrite Z.sub_0_r, Nat2Z.id, list_lookup_fmap, Hx. done.
Qed.

Lemma elem_concat_fmap {A} (f : A -> list Z) xs i x id : xs !! i = Some x -> id ∈ f x -> id ∈ concat (f <$> xs).
Proof.
  intros Hx Hid. apply list_elem_of_In, in_concat. exists (f x). split; [|by apply list_elem_of_In].
  apply list_elem_of_In, list_elem_of_fmap. exists x. split; [done|]. by eapply list_elem_of_lookup_2.
Qed.

Lemma concat_fmap_app {A} (f g k : A -> list Z) xs :
  (forall x, f x ++ g x = k x) -> concat (f <$> xs) ++ concat (g <$> xs) ≡ₚ concat (k <$> xs).
Proof.
  intros Hk. induction xs as [|x xs IH]; [done|]. rewrite !fmap_cons. cbn [concat]. rewrite <- (Hk x), <- IH. solve_Permutation.
Qed.

Lemma falling_not_on self lvl g id : falling self lvl g id -> on_level self lvl id = 0.
Proof.
  intros (page & Hp & Hl & _). unfold on_level. rewrite Hp. destruct (Z.eqb_spec (page_level page) lvl); [lia|done].
Qed.

Lemma last_level_spec ev h self lvl (xs : list last_item) :
  storage_ok h self -> 0 <= lvl < num_cache_levels self -> len xs = num_groups self ->
  (forall i x, xs !! i = Some x -> last_input self lvl (Z.of_nat i) x
     /\ forall id, id ∈ x.2.2.2 ++ x.2.2.1 -> falling self lvl (Z.of_nat i) id) ->
  NoDup (concat (all_ids <$> xs)) ->
  exists h' self', ('(self, accepted) ← for_each (accept_last lvl) (self, []) xs; for_each (settle_group ev lvl) self accepted) = Ok self'
    /\ storage_ok h' self' /\ settling lvl (concat (all_ids <$> xs)) self self'
    /\ forall i x, xs !! i = Some x -> x.1.2 <= free self' lvl (Z.of_nat i)
         /\ forall l, l < lvl -> free self' l (Z.of_nat i) = free self l (Z.of_nat i) + zsum (on_level self l) (all_ids x).
Proof.
  intros Hok Hlvl Hlen Hxs Hnd.
  destruct (accept_last_loop lvl xs h self 0 []) as (h1 & self1 & Ha & Hok1 & [Ht1 Hset1] & Hc1 & Hf1); [done|done|lia|lia| |done|].
  { intros i x Hx. by apply Hxs. }
  rewrite Ha. cbn [mbind result_bind app]. destruct (t_shape _ _ _ _ Ht1) as (_ & HL & HG).
  pose proof (concat_fmap_app (gone self lvl) (kept self lvl) all_ids xs (gone_kept self lvl)) as Hsplit.
  rewrite <- Hsplit in Hnd. apply NoDup_app in Hnd as (_ & Hdis & Hnd2).
  assert (Hkf : forall i x id, xs !! i = Some x -> id ∈ kept self lvl x -> falling self lvl (Z.of_nat i) id).
  { intros i x id Hx Hid. destruct (Hxs i x Hx) as [_ Hfall]. apply Hfall. destruct x as [[g goal] [E [K R]]]. simpl in *.
    unfold last_n in Hid. by eapply subseteq_drop. }
  assert (Hko : forall i x id, xs !! i = Some x -> id ∈ kept self lvl x -> id ∉ concat (gone self lvl <$> xs)).
  { intros i x id Hx Hid Hg. apply (Hdis id Hg). by eapply elem_concat_fmap. }
  assert (Hcount : forall i x, xs !! i = Some x -> len (kept self lvl x) = num_kept self lvl x
    /\ zsum (on_level self lvl) (gone self lvl x) = len x.2.1 /\ num_kept self lvl x <= free self lvl (Z.of_nat i) + len x.2.1 - x.1.2
    /\ 0 <= x.1.2).
  { intros i x Hx. destruct (Hxs i x Hx) as [Hin Hfall]. destruct x as [[g goal] [E [K R]]].
    destruct Hin as (-> & Hgoal & HE & HR & _ & Hroom). unfold kept, gone. cbn [fst snd]. set (n := num_kept self lvl _) in *.
    assert (Hn : 0 <= n <= len (R ++ K) /\ n <= free self lvl (Z.of_nat i) + len E - goal) by (unfold n, num_kept in *; lia).
    split; [apply last_n_length; lia|]. split; [|lia]. rewrite zsum_app.
    rewrite (zsum_ext _ (fun _ => 1) E) by (intros id Hid; by apply HE). rewrite zsum_const, zsum_0; [lia|].
    intros id Hid. apply but_last_app in Hid; [|lia]. by apply HR. }
  assert (Hfree1 : forall i x l, xs !! i = Some x -> free self1 l (Z.of_nat i) = free self l (Z.of_nat i) + zsum (on_level self l) (gone self lvl x)).
  { intros i x l Hx. rewrite Hf1. by rewrite (row_fmap _ _ _ _ Hx). }
  assert (Hrow : forall g, 0 <= g < 0 + len (kept self lvl <$> xs) -> exists i x, g = Z.of_nat i /\ xs !! i = Some x
    /\ row (kept self lvl <$> xs) 0 g = kept self lvl x).
  { intros g Hg. rewrite length_fmap in Hg. destruct (lookup_lt_is_Some_2 xs (Z.to_nat g)) as [x Hx]; [lia|].
    exists (Z.to_nat g), x. split; [lia|]. split; [done|]. rewrite <- (row_fmap (kept self lvl) xs _ _ Hx). by rewrite Z2Nat.id by lia. }
  destruct (settle_groups_spec ev lvl (kept self lvl <$> xs) h1 self1 0) as (h2 & self2 & Hs & Hok2 & Ht2 & Hf2);
    [done|by rewrite HL|lia|rewrite length_fmap, HG; lia|done| | |].
  { intros g id Hg Hid. destruct (Hrow g Hg) as (i & x & -> & Hx & Hr). rewrite Hr in Hid.
    apply (falling_trans lvl (concat (gone self lvl <$> xs)) self self1); [done|by eapply Hko|by eapply Hkf]. }
  { intros g Hg. destruct (Hrow g Hg) as (i & x & -> & Hx & ->). rewrite (Hfree1 i x lvl Hx).
    destruct (Hcount i x Hx) as (-> & -> & ? & ?). lia. }
  exists h2, self2. split; [done|]. split; [done|]. split.
  { apply (settling_perm lvl (concat (gone self lvl <$> xs) ++ concat (kept self lvl <$> xs))); [done|].
    by apply (settling_app lvl _ _ self self1). }
  intros i x Hx. assert (Hon : forall l, zsum (on_level self1 l) (kept self lvl x) = zsum (on_level self l) (kept self lvl x)).
  { intros l. apply zsum_ext. intros id Hid. apply (on_level_trans lvl (concat (gone self lvl <$> xs)) self self1); [done|by eapply Hko|].
    by destruct (Hkf i x id Hx Hid) as (? & _ & _ & _ & ? & _). }
  split.
  - rewrite Hf2, (row_fmap _ _ _ _ Hx), (Hfree1 i x lvl Hx), decide_True, Hon by done.
    rewrite (zsum_0 (on_level self lvl) (kept self lvl x)); [destruct (Hcount i x Hx) as (-> & -> & ? & ?); lia|].
    intros id Hid. by apply (falling_not_on self lvl (Z.of_nat i)), (Hkf i x).
  - intros l Hl. rewrite Hf2, (row_fmap _ _ _ _ Hx), (Hfree1 i x l Hx), decide_False, Hon by lia.
    rewrite <- (gone_kept self lvl x), zsum_app. lia.
Qed.

Abbreviation mid_item := ((Z * Z) * (list Z * list Z))%type.

Definition mid_ids (y : mid_item) : list Z := y.2.1 ++ y.2.2.
Definition mid_count self lvl (y : mid_item) : Z := Z.min (free self lvl y.1.1 + len y.2.1 - y.1.2) (len (mid_ids y)).
Definition mid_kept self lvl (y : mid_item) : list Z := last_n (mid_count self lvl y) (mid_ids y).
Definition mid_rest self lvl (y : mid_item) : list Z := but_last_n (mid_count self lvl y) (mid_ids y).

(** What a level above the last starts from. *)
Definition mid_input self lvl (g : Z) (y : mid_item) : Prop :=
  y.1.1 = g /\ 0 <= y.1.2 /\ (forall id, id ∈ y.2.1 -> falling self (lvl + 1) g id /\ on_level self lvl id = 1)
  /\ (forall id, id ∈ y.2.2 -> falling self lvl g id) /\ 0 <= mid_count self lvl y <= len y.2.2.

Lemma mid_split self lvl y : mid_rest self lvl y ++ mid_kept self lvl y = mid_ids y.
Proof. apply last_but. Qed.

Lemma mid_kept_elem self lvl g y id : mid_input self lvl g y -> id ∈ mid_kept self lvl y -> falling self lvl g id.
Proof. intros (_ & _ & _ & HF & Hn) Hid. apply HF. eapply last_n_app; [|exact Hid]. lia. Qed.

Lemma falling_up self lvl g id : falling self lvl g id -> falling self (lvl + 1) g id.
Proof. intros (page & Hp & Hl & Hr). exists page. split; [done|]. split; [lia|done]. Qed.

Lemma mid_rest_elem self lvl g y id : mid_input self lvl g y -> id ∈ mid_rest self lvl y -> falling self (lvl + 1) g id.
Proof.
  intros (_ & _ & HE & HF & _) Hid. assert (Hin : id ∈ mid_ids y) by (rewrite <- (mid_split self lvl); set_solver).
  apply elem_of_app in Hin as [Hin|Hin]; [by apply HE|by apply falling_up, HF].
Qed.

Lemma mid_rest_count self lvl g y : mid_input self lvl g y -> zsum (on_level self lvl) (mid_rest self lvl y) = len y.2.1.
Proof.
  intros (_ & _ & HE & HF & Hn). unfold mid_rest, but_last_n, mid_ids. rewrite length_app, take_app_ge by lia.
  rewrite zsum_app, (zsum_ext _ (fun _ => 1)), zsum_const, zsum_0; [lia| |intros id Hid; by apply HE].
  intros id Hid. apply (falling_not_on self lvl g), HF. by eapply subseteq_take.
Qed.

Lemma mid_level_spec ev h h2 self self2 lvl (ys : list mid_item) :
  storage_ok h self -> 0 <= lvl < num_cache_levels self -> len ys = num_groups self ->
  (forall i y, ys !! i = Some y -> mid_input self lvl (Z.of_nat i) y) -> NoDup (concat (mid_ids <$> ys)) ->
  storage_ok h2 self2 -> settling (lvl + 1) (concat (mid_rest self lvl <$> ys)) self self2 ->
  (forall i y l, ys !! i = Some y -> l <= lvl ->
     free self2 l (Z.of_nat i) = free self l (Z.of_nat i) + zsum (on_level self l) (mid_rest self lvl y)) ->
  exists h' self', for_each (settle_group ev lvl) self2 (mid_kept self lvl <$> ys) = Ok self'
    /\ storage_ok h' self' /\ settling lvl (concat (mid_ids <$> ys)) self self'
    /\ forall i y, ys !! i = Some y -> y.1.2 <= free self' lvl (Z.of_nat i)
         /\ (forall l, l < lvl -> free self' l (Z.of_nat i) = free self l (Z.of_nat i) + zsum (on_level self l) (mid_ids y))
         /\ forall l, lvl < l -> free self' l (Z.of_nat i) = free self2 l (Z.of_nat i).
Proof.
  intros Hok Hlvl Hlen Hys Hnd Hok2 [Ht2 Hset2] Hf2. destruct (t_shape _ _ _ _ Ht2) as (_ & HL & HG).
  pose proof (concat_fmap_app (mid_rest self lvl) (mid_kept self lvl) mid_ids ys (mid_split self lvl)) as Hsplit.
  rewrite <- Hsplit in Hnd. apply NoDup_app in Hnd as (_ & Hdis & Hnd2).
  assert (Hko : forall i y id, ys !! i = Some y -> id ∈ mid_kept self lvl y -> id ∉ concat (mid_rest self lvl <$> ys)).
  { intros i y id Hy Hid Hg. apply (Hdis id Hg). by eapply elem_concat_fmap. }
  assert (Hcount : forall i y, ys !! i = Some y -> len (mid_kept self lvl y) = mid_count self lvl y
    /\ mid_count self lvl y <= free self2 lvl (Z.of_nat i) - y.1.2 /\ 0 <= y.1.2).
  { intros i y Hy. pose proof (Hys i y Hy) as Hin. pose proof (mid_rest_count _ _ _ _ Hin) as Hrc.
    destruct Hin as (Hg & Hgoal & _ & _ & Hn). unfold mid_kept. rewrite last_n_length.
    - split; [done|]. split; [|done]. rewrite (Hf2 i y lvl Hy) by lia. rewrite Hrc. unfold mid_count. rewrite Hg. lia.
    - unfold mid_ids. rewrite length_app. lia. }
  assert (Hrow : forall g, 0 <= g < 0 + len (mid_kept self lvl <$> ys) -> exists i y, g = Z.of_nat i /\ ys !! i = Some y
    /\ row (mid_kept self lvl <$> ys) 0 g = mid_kept self lvl y).
  { intros g Hg. rewrite length_fmap in Hg. destruct (lookup_lt_is_Some_2 ys (Z.to_nat g)) as [y Hy]; [lia|].
    exists (Z.to_nat g), y. split; [lia|]. split; [done|]. rewrite <- (row_fmap (mid_kept self lvl) ys _ _ Hy). by rewrite Z2Nat.id by lia. }
  assert (Hkf : forall i y id, ys !! i = Some y -> id ∈ mid_kept self lvl y -> falling self2 lvl (Z.of_nat i) id).
  { intros i y id Hy Hid. apply (falling_trans (lvl + 1) (concat (mid_rest self lvl <$> ys)) self); [done|by eapply Hko|].
    eapply mid_kept_elem; [by apply Hys|done]. }
  destruct (settle_groups_spec ev lvl (mid_kept self lvl <$> ys) h2 self2 0) as (h3 & self3 & Hs & Hok3 & Ht3 & Hf3);
    [done|by rewrite HL|lia|rewrite length_fmap, HG; lia|done| | |].
  { intros g id Hg Hid. destruct (Hrow g Hg) as (i & y & -> & Hy & Hr). rewrite Hr in Hid. by eapply Hkf. }
  { intros g Hg. destruct (Hrow g Hg) as (i & y & -> & Hy & ->). destruct (Hcount i y Hy) as (-> & ? & ?). lia. }
  exists h3, self3. split; [done|]. split; [done|]. split.
  { apply (settling_perm lvl (concat (mid_rest self lvl <$> ys) ++ concat (mid_kept self lvl <$> ys))); [done|].
    apply (settling_app lvl _ _ self self2); [|done|done]. split; [|done]. apply (trans_deeper lvl (lvl + 1)); [lia|done]. }
  intros i y Hy. assert (Hon : forall l, zsum (on_level self2 l) (mid_kept self lvl y) = zsum (on_level self l) (mid_kept self lvl y)).
  { intros l. apply zsum_ext. intros id Hid. apply (on_level_trans (lvl + 1) (concat (mid_rest self lvl <$> ys)) self self2); [done|by eapply Hko|].
    by destruct (mid_kept_elem _ _ _ _ _ (Hys i y Hy) Hid) as (? & _ & _ & _ & ? & _). }
  split; [|split].
  - rewrite Hf3, (row_fmap _ _ _ _ Hy), decide_True by done. rewrite zsum_0; [destruct (Hcount i y Hy) as (-> & ? & ?); lia|].
    intros id Hid. by apply (falling_not_on self2 lvl (Z.of_nat i)), (Hkf i y).
  - intros l Hl. rewrite Hf3, (row_fmap _ _ _ _ Hy), decide_False, Hon by lia. rewrite (Hf2 i y l Hy) by lia.
    rewrite <- (mid_split self lvl y), zsum_app. lia.
  - intros l Hl. rewrite Hf3, (row_fmap _ _ _ _ Hy), decide_False by lia. rewrite zsum_0; [lia|].
    intros id Hid. destruct (Hkf i y id Hy Hid) as (page & Hp & Hpl & _). unfold on_level. rewrite Hp.
    destruct (Z.eqb_spec (page_level page) l); [lia|done].
Qed.

(** ** Making room, level by level *)

Definition held_part self lvl (f : list Z) : list Z := if is_last_level self lvl then List.filter (is_held self) f else [].
Definition rest_part self lvl (f : list Z) : list Z :=
  if is_last_level self lvl then List.filter (fun id => negb (is_held self id)) f else f.

Lemma held_rest self lvl f : rest_part self lvl f ++ held_part self lvl f ≡ₚ f.
Proof.
  unfold rest_part, held_part. destruct (is_last_level self lvl); [|by rewrite app_nil_r].
  induction f as [|id f IH]; [done|]. simpl. destruct (is_held self id); simpl; rewrite <- IH at 3; solve_Permutation.
Qed.

Lemma plan_group_eq h self lvl g goal f :
  storage_ok h self -> 0 <= lvl < num_cache_levels self -> 0 <= g < num_groups self ->
  0 <= evictable self lvl g
  /\ plan_group self lvl (g, (goal, f)) =
     let '(fr, ev, k) := (free self lvl g, evictable self lvl g, len (held_part self lvl f)) in
     if is_last_level self lvl && (fr + ev <? k) then Err OutOfPagesError
     else if fr + ev - k <? goal then Err OutOfPagesError
     else Ok (to_evict goal (len f) fr ev, (held_part self lvl f, rest_part self lvl f)).
Proof.
  intros Hok Hlvl Hg. destruct (s_ctrl _ _ Hok lvl Hlvl) as (c & Hc & _ & _ & _ & Hcp).
  destruct (lookup_lt_is_Some_2 (_policies c) (Z.to_nat g)) as [d Hd]; [lia|].
  assert (He : evictable self lvl g = policy_len d) by (unfold evictable; by rewrite Hc, Hd).
  split; [rewrite He, policy_len_iter; lia|].
  unfold plan_group. rewrite (proj1 (free_ok h self lvl g Hok Hlvl Hg)). cbn [mbind result_bind].
  unfold get_controller. rewrite Hc. cbn [mbind result_bind]. unfold num_evictable_pages.
  rewrite <- (Z2Nat.id g) at 1 by lia. rewrite (py_get_nat _ _ _ Hd). cbn [mbind result_bind]. by rewrite He.
Qed.

(** Why making room may fail. *)
Definition infeasible self (lvl : Z) (goals : list (list Z)) : Prop :=
  exists k goal g x, goals !! k = Some goal /\ goal !! g = Some x
    /\ free self (lvl + Z.of_nat k) (Z.of_nat g) + evictable self (lvl + Z.of_nat k) (Z.of_nat g) < x.

Definition has_held self : Prop := exists id page, pages self !! id = Some page /\ status page = HELD.

Lemma held_part_held self lvl f : held_part self lvl f <> [] -> has_held self.
Proof.
  unfold held_part. destruct (is_last_level self lvl); [|done]. intros Hne.
  destruct (List.filter (is_held self) f) as [|id l] eqn:Hf; [done|].
  assert (Hin : In id (List.filter (is_held self) f)) by (rewrite Hf; by left). apply filter_In in Hin as [_ Hh].
  unfold is_held in Hh. destruct (pages self !! id) as [page|] eqn:Hp; [|done]. bool_to_prop. by exists id, page.
Qed.

(** The plans of a level: every group has room for its goal and for the held
    pages, or the call raises for a reason. *)
Lemma plans_spec h self lvl goal goals F :
  storage_ok h self -> 0 <= lvl < num_cache_levels self -> len goal = num_groups self -> len F = num_groups self ->
  let xs := zip (seqZ 0 (num_groups self)) (zip goal F) in
  (exists plans, mapM (plan_group self lvl) xs = Ok plans /\ len plans = num_groups self
     /\ forall (g : nat) x f, goal !! g = Some x -> F !! g = Some f ->
          plans !! g = Some (to_evict x (len f) (free self lvl (Z.of_nat g)) (evictable self lvl (Z.of_nat g)),
                             (held_part self lvl f, rest_part self lvl f))
          /\ x <= free self lvl (Z.of_nat g) + evictable self lvl (Z.of_nat g) - len (held_part self lvl f))
  \/ (mapM (plan_group self lvl) xs = Err OutOfPagesError /\ (infeasible self lvl (goal :: goals) \/ has_held self)).
Proof.
  intros Hok Hlvl Hlg HlF xs.
  assert (Hxs : forall (g : nat) x f, goal !! g = Some x -> F !! g = Some f -> xs !! g = Some (Z.of_nat g, (x, f))).
  { intros g x f Hx Hf. unfold xs. apply lookup_zip_with_Some. exists (Z.of_nat g), (x, f). split; [done|].
    split; [apply lookup_seqZ; split; [lia|]; apply lookup_lt_Some in Hx; lia|]. apply lookup_zip_with_Some. eauto. }
  destruct (mapM_cases (plan_group self lvl) xs) as [(plans & Hm & Hlen & Hplans)|(i & y & e & Hi & He & Hm)].
  - left. exists plans. split; [done|]. split.
    { rewrite Hlen. unfold xs. rewrite !length_zip_with, length_seqZ. lia. }
    intros g x f Hx Hf. destruct (Hplans g _ (Hxs g x f Hx Hf)) as (p & Hp & Hplan).
    destruct (plan_group_eq h self lvl (Z.of_nat g) x f Hok Hlvl) as [_ Heq]; [apply lookup_lt_Some in Hx; lia|].
    rewrite Heq in Hplan. destruct (is_last_level self lvl && _); [done|]. destruct (_ <? x) eqn:Hlt; [done|].
    injection Hplan as <-. bool_to_prop. split; [done|lia].
  - right. unfold xs in Hi. apply lookup_zip_with_Some in Hi as (g & [x f] & -> & Hg & Hi).
    apply lookup_zip_with_Some in Hi as (x' & f' & [= <- <-] & Hx & Hf). apply lookup_seqZ in Hg as [-> Hg].
    destruct (plan_group_eq h self lvl (0 + Z.of_nat i) x f Hok Hlvl ltac:(lia)) as [Hev Heq]. rewrite Heq in He.
    destruct (free_ok h self lvl (0 + Z.of_nat i) Hok Hlvl ltac:(lia)) as [_ Hfr].
    assert (Hreason : e = OutOfPagesError /\ (held_part self lvl f <> [] \/ free self lvl (0 + Z.of_nat i) + evictable self lvl (0 + Z.of_nat i) < x)).
    { destruct (held_part self lvl f) as [|k ks] eqn:Hk.
      - simpl in He. rewrite (proj2 (Z.ltb_ge _ 0)), andb_false_r in He by lia.
        destruct (_ <? x) eqn:Hlt; [|done]. injection He as <-. bool_to_prop. split; [done|]. right. lia.
      - split; [|by left]. destruct (is_last_level self lvl && _); [by injection He|]. destruct (_ <? x); [by injection He|done]. }
    destruct Hreason as [-> Hr]. split; [done|]. destruct Hr as [Hr|Hr]; [right; by eapply held_part_held|left].
    exists 0%nat, goal, i, x. rewrite Z.add_0_r. done.
Qed.

(** Evicted pages may take part: they were queued. *)
Lemma settling_absorb lvl ids ids' self self' :
  settling lvl ids self self' -> (forall id, id ∈ ids -> id ∈ ids' \/ scheduled_from self lvl id) -> (forall id, id ∈ ids' -> id ∈ ids) ->
  settling lvl ids' self self'.
Proof.
  intros [[S L V U C A K] Hset] Hsub Hsup. split; [split; try done|].
  - intros id Hns Hin. apply U; [done|]. intros Hx. by destruct (Hsub id Hx).
  - intros id Hs. destruct (C id Hs) as [|Hx]; [by left|]. destruct (Hsub id Hx); [by right|by left].
  - intros id page' Hs _ Hp' Hst. destruct (decide (id ∈ ids)) as [Hin|Hin]; [by apply (Hset id page')|by apply (K id page')].
  - intros id page' Hin. apply Hset. by apply Hsup.
Qed.

(** The rows of a level, evicted and fallen pages together, have no page twice. *)
Lemma rows_nodup {A} (f : A -> list Z) (E F : list (list Z)) xs :
  length E = length xs -> length F = length xs ->
  (forall i x e l, xs !! i = Some x -> E !! i = Some e -> F !! i = Some l -> f x ≡ₚ e ++ l) ->
  concat (f <$> xs) ≡ₚ concat E ++ concat F.
Proof.
  revert E F. induction xs as [|x xs IH]; intros [|e E] [|l F] HE HF Hx; try done.
  rewrite fmap_cons. cbn [concat]. rewrite (Hx 0%nat x e l eq_refl eq_refl eq_refl), (IH E F); [solve_Permutation|simpl in *; lia..|].
  intros i. apply (Hx (S i)).
Qed.

Lemma evicted_falling self c lvl g id :
  evicted_page self (set_controller self lvl c) lvl g id ->
  falling (set_controller self lvl c) (lvl + 1) g id /\ on_level (set_controller self lvl c) lvl id = 1
  /\ scheduled_from self lvl id.
Proof.
  intros (page & Hp & Hl & Hg & Hev & Hns & Hsf). split; [|split; [|done]].
  - exists page. split; [done|]. split; [lia|]. split; [done|]. split; [done|]. unfold is_evictable in Hev. unfold can_fall.
    apply orb_prop in Hev as [Hd|Hh]; bool_to_prop; [by right|by left].
  - unfold on_level. simpl. by rewrite Hp, Hl, Z.eqb_refl.
Qed.

(** On the last level only pages nobody holds are queued. *)
Lemma evicted_garbage self c lvl g id :
  is_last_level self lvl = true -> evicted_page self (set_controller self lvl c) lvl g id ->
  garbage (set_controller self lvl c) g id.
Proof.
  intros Hlast (page & Hp & Hl & Hg & Hev & Hns & _). exists page. split; [done|]. split; [done|]. split; [done|].
  unfold is_evictable, is_last_level in *. simpl in Hev. bool_to_prop. apply orb_prop in Hev as [Hd|Hh]; bool_to_prop; [done|lia].
Qed.

(** What a level has found out before it accepts anything. *)
Record started (h : Z * Z -> gset Z) self self1 (lvl : Z) (goal : list Z) (F E : list (list Z))
    (plans : list (Z * (list Z * list Z))) : Prop := {
  st_ok : storage_ok h self1;
  st_trans : trans lvl (concat E) self self1;
  st_nodup : NoDup (concat E ++ concat F);
  st_queued : forall id, id ∈ concat E -> scheduled_from self lvl id;
  st_len : len E = num_groups self /\ len plans = num_groups self;
  st_group : forall (g : nat) x f, goal !! g = Some x -> F !! g = Some f -> exists e,
    E !! g = Some e /\ plans !! g = Some (len e, (held_part self lvl f, rest_part self lvl f))
    /\ (forall id, id ∈ e -> evicted_page self self1 lvl (Z.of_nat g) id)
    /\ (forall id, id ∈ f -> falling self1 lvl (Z.of_nat g) id)
    /\ len (held_part self lvl f) <= Z.min (free self lvl (Z.of_nat g) + len e - x) (len f)
    /\ Z.min (free self lvl (Z.of_nat g) + len e - x) (len e + len f) <= len f;
}.

Lemma level_start h self lvl goal goals F :
  storage_ok h self -> 0 <= lvl < num_cache_levels self -> len goal = num_groups self -> len F = num_groups self ->
  (forall x, x ∈ goal -> 0 <= x) -> NoDup (concat F) ->
  (forall (g : nat) f id, F !! g = Some f -> id ∈ f -> falling self lvl (Z.of_nat g) id) ->
  let planning := mapM (plan_group self lvl) (zip (seqZ 0 (num_groups self)) (zip goal F)) in
  (planning = Err OutOfPagesError /\ (infeasible self lvl (goal :: goals) \/ has_held self))
  \/ exists plans c, planning = Ok plans /\ get_controller self lvl = Ok c /\
     ((exists c', evict c plans.*1 = (Err AssertionError, c') /\ forall prio, ~ uniform lvl prio self)
      \/ exists rows c', evict c plans.*1 = (Ok rows, c')
         /\ started h self (set_controller self lvl c') lvl goal F (ids_of rows) plans).
Proof.
  intros Hok Hlvl Hlg HlF Hpos Hnd Hfall planning.
  destruct (plans_spec h self lvl goal goals F Hok Hlvl Hlg HlF) as [(plans & Hm & Hlp & Hplans)|Herr]; [right|by left].
  destruct (s_ctrl _ _ Hok lvl Hlvl) as (c & Hc & _). exists plans, c. split; [done|].
  split; [unfold get_controller; by rewrite Hc|].
  assert (Hgf : forall (g : nat), (g < length plans)%nat -> exists x f, goal !! g = Some x /\ F !! g = Some f).
  { intros g Hg. destruct (lookup_lt_is_Some_2 goal g) as [x Hx]; [lia|]. destruct (lookup_lt_is_Some_2 F g) as [f Hf]; [lia|]. eauto. }
  assert (Hcount : forall (g : nat) x f, goal !! g = Some x -> F !! g = Some f ->
    let e := to_evict x (len f) (free self lvl (Z.of_nat g)) (evictable self lvl (Z.of_nat g)) in
    let r := free self lvl (Z.of_nat g) + e - x in
    len (held_part self lvl f) <= Z.min r (len f) /\ Z.min r (e + len f) <= len f
    /\ 0 <= e <= evictable self lvl (Z.of_nat g)).
  { intros g x f Hx Hf. destruct (Hplans g x f Hx Hf) as [_ Hroom]. apply accept_count; [| |by eapply Hpos, list_elem_of_lookup_2| |done].
    - eapply (plan_group_eq h self lvl _ x f); [done|done|apply lookup_lt_Some in Hx; lia].
    - eapply (free_ok h self lvl); [done|done|apply lookup_lt_Some in Hx; lia].
    - pose proof (Permutation_length (held_rest self lvl f)) as Hl. rewrite length_app in Hl. lia. }
  destruct (evict_storage h self lvl c plans.*1 Hok Hlvl Hc) as [(rows & c' & He & Hok1 & Ht & Hrl & HndE & Hrows)|Herr]; [| | |by left].
  { by rewrite length_fmap. }
  { intros g n Hn. apply list_lookup_fmap_Some in Hn as ([n' p] & -> & Hp).
    destruct (Hgf g (lookup_lt_Some _ _ _ Hp)) as (x & f & Hx & Hf). destruct (Hplans g x f Hx Hf) as [Hp' _].
    rewrite Hp in Hp'. injection Hp' as -> _. by apply (Hcount g x f). }
  right. exists rows, c'. split; [done|]. rewrite length_fmap in Hrl.
  assert (Hq : forall id, id ∈ concat (ids_of rows) -> scheduled_from self lvl id).
  { intros id (g & e & Hg & Hid)%elem_concat_lookup.
    destruct (lookup_lt_is_Some_2 plans.*1 g) as [n Hn].
    { apply lookup_lt_Some in Hg. unfold ids_of in Hg. rewrite length_fmap in Hg. rewrite length_fmap. lia. }
    destruct (Hrows g n Hn) as (e' & He' & _ & Hev). rewrite Hg in He'. injection He' as <-.
    by destruct (Hev id Hid) as (page & _ & _ & _ & _ & _ & ?). }
  split; [done|done| |done|unfold ids_of; rewrite length_fmap; lia|].
  - apply NoDup_app. split; [done|]. split; [|done]. intros id HE (g & f & Hg & Hid)%elem_concat_lookup.
    destruct (Hfall g f id Hg Hid) as (page & _ & _ & _ & Hns & _). apply Hns.
    destruct (Hq id HE) as (l & c1 & _ & Hc1 & Hin). by exists l, c1.
  - intros g x f Hx Hf. destruct (Hplans g x f Hx Hf) as [Hp _]. specialize (Hcount g x f Hx Hf).
    destruct (Hrows g (to_evict x (len f) (free self lvl (Z.of_nat g)) (evictable self lvl (Z.of_nat g)))) as (e & HE & Hle & Hev).
    { by rewrite list_lookup_fmap, Hp. }
    simpl in Hcount. rewrite <- Hle in Hcount, Hp. exists e. split; [done|]. split; [done|]. split; [done|].
    split; [|lia]. intros id Hid. specialize (Hfall g f id Hf Hid). eapply falling_trans; [exact Ht| |done].
    intros (l & c1 & _ & Hc1 & Hin)%Hq. destruct Hfall as (page & _ & _ & _ & Hns & _). apply Hns. by exists l, c1.
Qed.

(** What making room at one level gives: goals met, and every fallen page gone from
    the level it came from. *)
Definition level_done self self' lvl (goal : list Z) (F : list (list Z)) : Prop :=
  forall (g : nat) x f, goal !! g = Some x -> F !! g = Some f ->
    x <= free self' lvl (Z.of_nat g)
    /\ forall l, l < lvl -> free self' l (Z.of_nat g) = free self l (Z.of_nat g) + zsum (on_level self l) f.

Section level.
Context (h : Z * Z -> gset Z) self (c : PerLevelEvictionController) (lvl : Z) (goal : list Z) (F E : list (list Z)).
Context (plans : list (Z * (list Z * list Z))).
Abbreviation self1 := (set_controller self lvl c).
Context (Hlvl : 0 <= lvl < num_cache_levels self) (Hlg : len goal = num_groups self) (HlF : len F = num_groups self).
Context (Hpos : forall x, x ∈ goal -> 0 <= x) (Hst : started h self self1 lvl goal F E plans).

Definition last_items : list last_item := zip (zip (seqZ 0 (num_groups self)) goal) (zip E plans.*2).
Definition mid_items : list mid_item := zip (zip (seqZ 0 (num_groups self)) goal) (zip E (snd <$> plans.*2)).

Lemma evicted_above (g : nat) e l : E !! g = Some e -> is_Some (goal !! g) -> l < lvl -> zsum (on_level self l) e = 0.
Proof.
  intros He [x Hx] Hl. destruct (lookup_lt_is_Some_2 F g) as [f Hf]; [apply lookup_lt_Some in Hx; lia|].
  destruct (st_group _ _ _ _ _ _ _ _ Hst g x f Hx Hf) as (e' & He' & _ & Hev & _). rewrite He in He'. injection He' as <-.
  apply zsum_0. intros id Hid. destruct (Hev id Hid) as (page & Hp & Hpl & _). unfold on_level. rewrite Hp.
  destruct (Z.eqb_spec (page_level page) l); [lia|done].
Qed.

Lemma last_items_lookup i y :
  last_items !! i = Some y -> exists x e f, goal !! i = Some x /\ F !! i = Some f /\ E !! i = Some e
    /\ y = ((Z.of_nat i, x), (e, (held_part self lvl f, rest_part self lvl f))).
Proof.
  intros (g & x & e & p & -> & Hg & Hx & He & Hp)%lookup_zip4. apply lookup_seqZ in Hg as [-> Hg].
  destruct (lookup_lt_is_Some_2 F i) as [f Hf]; [apply lookup_lt_Some in Hx; lia|].
  destruct (st_group _ _ _ _ _ _ _ _ Hst i x f Hx Hf) as (e' & He' & Hpl & _). rewrite He in He'. injection He' as <-.
  rewrite list_lookup_fmap, Hpl in Hp. injection Hp as <-. by exists x, e, f.
Qed.

Lemma items_lookup i x : goal !! i = Some x -> is_Some (last_items !! i).
Proof.
  intros Hx. apply lookup_lt_is_Some_2. destruct (st_len _ _ _ _ _ _ _ _ Hst) as [? ?]. apply lookup_lt_Some in Hx.
  unfold last_items. rewrite !length_zip_with, length_seqZ, length_fmap. lia.
Qed.

Lemma last_items_input i y :
  is_last_level self lvl = true -> last_items !! i = Some y ->
  last_input self1 lvl (Z.of_nat i) y /\ forall id, id ∈ y.2.2.2 ++ y.2.2.1 -> falling self1 lvl (Z.of_nat i) id.
Proof.
  intros Hlast (x & e & f & Hx & Hf & He & ->)%last_items_lookup. simpl.
  destruct (st_group _ _ _ _ _ _ _ _ Hst i x f Hx Hf) as (e' & He' & _ & Hev & Hfa & Hroom & _).
  rewrite He in He'. injection He' as <-. pose proof (held_rest self lvl f) as Hhr.
  split; [|intros id Hid; apply Hfa; by rewrite <- Hhr].
  split; [done|]. split; [by eapply Hpos, list_elem_of_lookup_2|]. split; [|split; [|split]].
  - intros id Hid. split; [by apply evicted_garbage, Hev|]. by apply (evicted_falling self c lvl (Z.of_nat i)), Hev.
  - intros id Hid. assert (Hin : id ∈ f) by (rewrite <- Hhr; set_solver). specialize (Hfa id Hin).
    split; [|by apply (falling_not_on _ _ (Z.of_nat i))]. destruct Hfa as (page & Hp & _ & Hg & Hns & Hcan). exists page.
    split; [done|]. split; [done|]. split; [done|]. unfold rest_part in Hid. rewrite Hlast in Hid.
    apply list_elem_of_In, filter_In in Hid as [_ Hnh]. unfold is_held in Hnh. simpl in Hp. rewrite Hp in Hnh.
    destruct Hcan as [Hh|[Hd _]]; [|done]. by rewrite bool_decide_true in Hnh.
  - intros id Hid. assert (Hin : id ∈ f) by (rewrite <- Hhr; set_solver). by destruct (Hfa id Hin) as (page & _ & _ & _ & ? & _).
  - rewrite (Permutation_length Hhr). exact Hroom.
Qed.

Lemma last_items_perm : concat (all_ids <$> last_items) ≡ₚ concat E ++ concat F.
Proof.
  destruct (st_len _ _ _ _ _ _ _ _ Hst) as [? ?].
  assert (length last_items = length goal).
  { unfold last_items. rewrite !length_zip_with, length_seqZ, length_fmap. lia. }
  apply rows_nodup; [lia|lia|]. intros i y e f (x & e' & f' & Hx & Hf & He & ->)%last_items_lookup He' Hf'.
  rewrite He in He'. rewrite Hf in Hf'. injection He' as <-. injection Hf' as <-. simpl. by rewrite held_rest.
Qed.

Lemma settling_level ids self' :
  settling lvl ids self1 self' -> ids ≡ₚ concat E ++ concat F -> settling lvl (concat F) self self'.
Proof.
  intros [Ht Hset] Hp. apply (settling_absorb lvl (concat E ++ concat F)); [split| |set_solver].
  - eapply trans_mono; [|eapply trans_trans; [exact (st_trans _ _ _ _ _ _ _ _ Hst)|exact Ht]].
    intros id. rewrite Hp. set_solver.
  - intros id page. rewrite <- Hp. apply Hset.
  - intros id [Hid|Hid]%elem_of_app; [right; by apply (st_queued _ _ _ _ _ _ _ _ Hst)|by left].
Qed.

Lemma last_step ev :
  is_last_level self lvl = true ->
  exists h' self', ('(self, accepted) ← for_each (accept_last lvl) (self1, []) last_items;
                    for_each (settle_group ev lvl) self accepted) = Ok self'
    /\ storage_ok h' self' /\ settling lvl (concat F) self self' /\ level_done self self' lvl goal F.
Proof.
  intros Hlast. destruct (last_level_spec ev h self1 lvl last_items) as (h' & self' & Hrun & Hok' & Ht' & Hf').
  - exact (st_ok _ _ _ _ _ _ _ _ Hst).
  - done.
  - destruct (st_len _ _ _ _ _ _ _ _ Hst) as [? ?]. unfold last_items. rewrite !length_zip_with, length_seqZ, length_fmap. simpl. lia.
  - intros i y Hy. by apply last_items_input.
  - rewrite last_items_perm. exact (st_nodup _ _ _ _ _ _ _ _ Hst).
  - exists h', self'. split; [done|]. split; [done|]. split; [by eapply settling_level; [|apply last_items_perm]|].
    intros g x f Hx Hf. destruct (items_lookup g x Hx) as [y Hy]. destruct (Hf' g y Hy) as [Hgoal Habove].
    destruct (last_items_lookup g y Hy) as (x' & e & f' & Hx' & Hff & He & ->). rewrite Hx in Hx'. rewrite Hf in Hff.
    injection Hx' as <-. injection Hff as <-. split; [done|]. intros l Hl. rewrite (Habove l Hl). simpl. rewrite zsum_app.
    rewrite (zsum_perm _ _ _ (held_rest self lvl f)).
    change (zsum (on_level self1 l) e) with (zsum (on_level self l) e). rewrite (evicted_above g) by eauto. done.
Qed.

Lemma mid_items_lookup i y :
  is_last_level self lvl = false -> mid_items !! i = Some y -> exists x e f, goal !! i = Some x /\ F !! i = Some f /\ E !! i = Some e
    /\ y = ((Z.of_nat i, x), (e, f)).
Proof.
  intros Hlast (g & x & e & p & -> & Hg & Hx & He & Hp)%lookup_zip4. apply lookup_seqZ in Hg as [-> Hg].
  destruct (lookup_lt_is_Some_2 F i) as [f Hf]; [apply lookup_lt_Some in Hx; lia|].
  destruct (st_group _ _ _ _ _ _ _ _ Hst i x f Hx Hf) as (e' & He' & Hpl & _). rewrite He in He'. injection He' as <-.
  rewrite !list_lookup_fmap, Hpl in Hp. simpl in Hp. injection Hp as <-. unfold rest_part. rewrite Hlast. by exists x, e, f.
Qed.

Lemma mid_items_length : len mid_items = num_groups self.
Proof.
  destruct (st_len _ _ _ _ _ _ _ _ Hst) as [? ?]. unfold mid_items. rewrite !length_zip_with, length_seqZ, !length_fmap. lia.
Qed.

Lemma mid_items_input i y :
  is_last_level self lvl = false -> mid_items !! i = Some y -> mid_input self1 lvl (Z.of_nat i) y.
Proof.
  intros Hlast (x & e & f & Hx & Hf & He & ->)%mid_items_lookup; [|done].
  destruct (st_group _ _ _ _ _ _ _ _ Hst i x f Hx Hf) as (e' & He' & _ & Hev & Hfa & Hroom & Hmax).
  rewrite He in He'. injection He' as <-. unfold held_part in Hroom. rewrite Hlast in Hroom. simpl in Hroom.
  split; [done|]. split; [by eapply Hpos, list_elem_of_lookup_2|]. split; [|split; [done|]].
  - intros id Hid. by destruct (evicted_falling self c lvl (Z.of_nat i) id (Hev id Hid)) as (? & ? & _).
  - unfold mid_count, mid_ids. simpl. rewrite length_app.
    change (free self1 lvl (Z.of_nat i)) with (free self lvl (Z.of_nat i)). lia.
Qed.

Lemma mid_items_perm : is_last_level self lvl = false -> concat (mid_ids <$> mid_items) ≡ₚ concat E ++ concat F.
Proof.
  intros Hlast. pose proof mid_items_length. destruct (st_len _ _ _ _ _ _ _ _ Hst) as [? ?].
  apply rows_nodup; [lia|lia|]. intros i y e f (x & e' & f' & Hx & Hf & He & ->)%mid_items_lookup He' Hf'; [|done].
  rewrite He in He'. rewrite Hf in Hf'. injection He' as <-. injection Hf' as <-. done.
Qed.

Lemma accept_items :
  is_last_level self lvl = false ->
  mapM (accept_fallen self1 lvl) mid_items
  = Ok ((fun y => (mid_kept self1 lvl y, mid_rest self1 lvl y)) <$> mid_items).
Proof.
  intros Hlast. assert (Hall : forall i y, mid_items !! i = Some y -> accept_fallen self1 lvl y = Ok (mid_kept self1 lvl y, mid_rest self1 lvl y)).
  { intros i y Hy. pose proof (mid_items_input i y Hlast Hy) as (_ & _ & _ & _ & Hn & _).
    destruct (mid_items_lookup i y Hlast Hy) as (x & e & f & Hx & Hf & He & ->). unfold accept_fallen.
    destruct (free_ok h self1 lvl (Z.of_nat i)) as [Hfr _]; [exact (st_ok _ _ _ _ _ _ _ _ Hst)|done|apply lookup_lt_Some in Hx; simpl; lia|].
    rewrite Hfr. cbn [mbind result_bind].
    unfold mid_count, mid_ids in Hn. simpl in Hn. rewrite (proj2 (Z.leb_le _ _)) by exact Hn. done. }
  revert Hall. generalize mid_items. induction l as [|y l IH]; intros Hall; [done|]. cbn [mapM].
  rewrite (Hall 0%nat y eq_refl). cbn [mbind result_bind]. rewrite IH; [done|]. intros i. apply (Hall (S i)).
Qed.

Lemma no_held_plans :
  is_last_level self lvl = false -> forallb (fun p : Z * (list Z * list Z) => bool_decide (p.2.1 = [])) plans = true.
Proof.
  intros Hlast. apply forallb_forall. intros p Hp. apply list_elem_of_In, list_elem_of_lookup_1 in Hp as [i Hp].
  destruct (st_len _ _ _ _ _ _ _ _ Hst) as [_ Hlp].
  destruct (lookup_lt_is_Some_2 goal i) as [x Hx]; [apply lookup_lt_Some in Hp; lia|].
  destruct (lookup_lt_is_Some_2 F i) as [f Hf]; [apply lookup_lt_Some in Hp; lia|].
  destruct (st_group _ _ _ _ _ _ _ _ Hst i x f Hx Hf) as (e & _ & Hpl & _). rewrite Hp in Hpl. injection Hpl as ->.
  unfold held_part. rewrite Hlast. by apply bool_decide_true.
Qed.

Lemma mid_step ev h2 self2 :
  is_last_level self lvl = false -> storage_ok h2 self2 ->
  settling (lvl + 1) (concat (mid_rest self1 lvl <$> mid_items)) self1 self2 ->
  (forall i y l, mid_items !! i = Some y -> l <= lvl ->
     free self2 l (Z.of_nat i) = free self1 l (Z.of_nat i) + zsum (on_level self1 l) (mid_rest self1 lvl y)) ->
  exists h' self', for_each (settle_group ev lvl) self2 (mid_kept self1 lvl <$> mid_items) = Ok self'
    /\ storage_ok h' self' /\ settling lvl (concat F) self self' /\ level_done self self' lvl goal F
    /\ forall (g : nat) l, is_Some (goal !! g) -> lvl < l -> free self' l (Z.of_nat g) = free self2 l (Z.of_nat g).
Proof.
  intros Hlast Hok2 Ht2 Hf2.
  destruct (mid_level_spec ev h h2 self1 self2 lvl mid_items) as (h' & self' & Hrun & Hok' & Ht' & Hf'); try done.
  - exact (st_ok _ _ _ _ _ _ _ _ Hst).
  - apply mid_items_length.
  - intros i y Hy. by apply mid_items_input.
  - rewrite mid_items_perm by done. exact (st_nodup _ _ _ _ _ _ _ _ Hst).
  - exists h', self'. split; [done|]. split; [done|]. split; [by eapply settling_level; [|by apply mid_items_perm]|].
    assert (Hitem : forall (g : nat) x, goal !! g = Some x -> exists y, mid_items !! g = Some y).
    { intros g x Hx. pose proof mid_items_length. apply lookup_lt_is_Some_2. apply lookup_lt_Some in Hx. lia. }
    split; [|intros g l [x Hx] Hl; destruct (Hitem g x Hx) as [y Hy]; by apply (Hf' g y Hy)].
    intros g x f Hx Hf. destruct (Hitem g x Hx) as [y Hy]. destruct (Hf' g y Hy) as (Hgoal & Habove & _).
    destruct (mid_items_lookup g y Hlast Hy) as (x' & e & f' & Hx' & Hff & He & ->). rewrite Hx in Hx'. rewrite Hf in Hff.
    injection Hx' as <-. injection Hff as <-. split; [done|]. intros l Hl. rewrite (Habove l Hl). unfold mid_ids. simpl. rewrite zsum_app.
    change (zsum (on_level self1 l) e) with (zsum (on_level self l) e). rewrite (evicted_above g) by eauto. done.
Qed.

(** The pages that fall further meet the conditions of the next level. *)
Lemma prepare_deeper :
  is_last_level self lvl = false ->
  let F' := mid_rest self1 lvl <$> mid_items in
  len F' = num_groups self1 /\ NoDup (concat F')
  /\ forall (g : nat) f id, F' !! g = Some f -> id ∈ f -> falling self1 (lvl + 1) (Z.of_nat g) id.
Proof.
  intros Hlast F'. split; [unfold F'; rewrite length_fmap; apply mid_items_length|]. split.
  - pose proof (st_nodup _ _ _ _ _ _ _ _ Hst) as Hnd. rewrite <- mid_items_perm in Hnd by done.
    rewrite <- (concat_fmap_app (mid_rest self1 lvl) (mid_kept self1 lvl) mid_ids mid_items (mid_split self1 lvl)) in Hnd.
    by apply NoDup_app in Hnd as (? & _).
  - intros g f id (y & -> & Hy)%list_lookup_fmap_Some Hid. eapply mid_rest_elem; [by eapply mid_items_input|done].
Qed.

End level.

(** ** All levels *)

Definition goals_done self' lvl (goals : list (list Z)) : Prop :=
  forall k goal (g : nat) x, goals !! k = Some goal -> goal !! g = Some x -> x <= free self' (lvl + Z.of_nat k) (Z.of_nat g).

(** Why making room may fail: a level has not enough free and evictable slots, a
    page is held, or (the queues of a group have several priorities) the eviction
    controller gives up. *)
Definition failure self lvl goals (e : exn) : Prop :=
  (e = OutOfPagesError /\ (infeasible self lvl goals \/ has_held self))
  \/ (e = AssertionError /\ forall prio, ~ uniform lvl prio self).

Lemma failure_deeper self lvl c goal goals e :
  failure (set_controller self lvl c) (lvl + 1) goals e -> failure self lvl (goal :: goals) e.
Proof.
  intros [[-> [(k & go & g & x & Hk & Hg & Hx)|Hheld]]|[-> Hu]].
  - left. split; [done|]. left. exists (S k), go, g, x. split; [done|]. split; [done|].
    replace (lvl + Z.of_nat (S k)) with (lvl + 1 + Z.of_nat k) by lia. unfold evictable in *. simpl in Hx.
    rewrite lookup_insert_ne in Hx by lia. exact Hx.
  - left. split; [done|]. by right.
  - right. split; [done|]. intros prio Hun. apply (Hu prio). intros l c' d k q Hl Hc'. simpl in Hc'.
    rewrite lookup_insert_ne in Hc' by lia. apply (Hun l c'); [lia|done].
Qed.

Lemma prepare_levels ev goals : forall h self lvl F,
  storage_ok h self -> 0 <= lvl < num_cache_levels self -> len goals = num_cache_levels self - lvl ->
  (forall goal, goal ∈ goals -> len goal = num_groups self /\ forall x, x ∈ goal -> 0 <= x) ->
  len F = num_groups self -> NoDup (concat F) ->
  (forall (g : nat) f id, F !! g = Some f -> id ∈ f -> falling self lvl (Z.of_nat g) id) ->
  match _prepare_free_slots ev self goals lvl F with
  | Ok self' => exists h', storage_ok h' self' /\ settling lvl (concat F) self self' /\ goals_done self' lvl goals
      /\ forall (g : nat) f l, F !! g = Some f -> l < lvl ->
           free self' l (Z.of_nat g) = free self l (Z.of_nat g) + zsum (on_level self l) f
  | Err e => failure self lvl goals e
  end.
Proof.
  induction goals as [|goal goals IH]; intros h self lvl F Hok Hlvl Hlen Hgoals HlF Hnd Hfall; [simpl in Hlen; lia|].
  destruct (Hgoals goal ltac:(left)) as [Hlg Hpos].
  assert (Hgf : forall (g : nat) f, F !! g = Some f -> exists x, goal !! g = Some x).
  { intros g f Hf. apply lookup_lt_is_Some_2. apply lookup_lt_Some in Hf. lia. }
  cbn [_prepare_free_slots].
  destruct (level_start h self lvl goal goals F Hok Hlvl Hlg HlF Hpos Hnd Hfall) as [[-> Hr]|(plans & c & -> & Hc & Hev)]; [by left|].
  cbn [mbind result_bind]. rewrite Hc. cbn [mbind result_bind].
  destruct Hev as [(c' & -> & Hu)|(rows & c' & -> & Hst)]; [by right|]. cbn [mbind result_bind].
  change (is_last_level (set_controller self lvl c') lvl) with (is_last_level self lvl).
  change (num_groups (set_controller self lvl c')) with (num_groups self).
  destruct (is_last_level self lvl) eqn:Hlast.
  - destruct (last_step h self c' lvl goal F (ids_of rows) plans Hlvl Hlg HlF Hpos Hst ev Hlast) as (h' & self' & Hrun & Hok' & Ht' & Hd').
    unfold last_items in Hrun. rewrite Hrun. exists h'. split; [done|]. split; [done|]. split.
    + intros k go g x Hk Hg. unfold is_last_level in Hlast. bool_to_prop.
      destruct goals; [|simpl in Hlen; lia]. destruct k; [|done]. injection Hk as <-. rewrite Z.add_0_r.
      destruct (lookup_lt_is_Some_2 F g) as [f Hf]; [apply lookup_lt_Some in Hg; lia|]. by apply (Hd' g x f).
    + intros g f l Hf Hl. destruct (Hgf g f Hf) as [x Hx]. by apply (Hd' g x f).
  - rewrite (no_held_plans h self c' lvl goal F (ids_of rows) plans Hlg HlF Hst Hlast). cbn [py_assert mbind result_bind].
    pose proof (accept_items h self c' lvl goal F (ids_of rows) plans Hlvl Hlg HlF Hpos Hst Hlast) as Hacc.
    unfold mid_items in Hacc. rewrite Hacc. cbn [mbind result_bind].
    fold (mid_items self goal (ids_of rows) plans). set (ys := mid_items self goal (ids_of rows) plans).
    set (self1 := set_controller self lvl c') in *.
    change ((_ <$> ys).*2) with (snd <$> ((fun y => (mid_kept self1 lvl y, mid_rest self1 lvl y)) <$> ys)).
    change ((_ <$> ys).*1) with (fst <$> ((fun y => (mid_kept self1 lvl y, mid_rest self1 lvl y)) <$> ys)).
    rewrite <- !list_fmap_compose. unfold compose. simpl.
    pose proof (prepare_deeper h self c' lvl goal F (ids_of rows) plans Hlg HlF Hpos Hst Hlast) as (Hlr & Hndr & Hfr).
    pose proof (mid_items_length h self c' lvl goal F (ids_of rows) plans Hlg Hst) as Hly.
    specialize (IH h self1 (lvl + 1) (mid_rest self1 lvl <$> ys) (st_ok _ _ _ _ _ _ _ _ Hst)).
    unfold is_last_level in Hlast. bool_to_prop. simpl in Hlen.
    specialize (IH ltac:(simpl; lia) ltac:(simpl; lia) ltac:(intros go Hgo; apply Hgoals; by right) Hlr Hndr Hfr).
    destruct (_prepare_free_slots _ _ _ _ _) as [self2|e]; [cbn [mbind result_bind]|by eapply failure_deeper, IH].
    destruct IH as (h2 & Hok2 & Ht2 & Hd2 & Hf2).
    destruct (mid_step h self c' lvl goal F (ids_of rows) plans Hlvl Hlg HlF Hpos Hst ev h2 self2) as (h' & self' & Hrun & Hok' & Ht' & Hd' & Hdeep).
    { by apply Z.eqb_neq. } { done. } { exact Ht2. }
    { intros i y l Hy Hl. apply Hf2; [by apply list_lookup_fmap_Some; exists y|lia]. }
    change (for_each _ self2 _) with (for_each (settle_group ev lvl) self2 (mid_kept self1 lvl <$> ys)).
    fold self1 ys in Hrun. rewrite Hrun. exists h'. split; [done|]. split; [done|]. split.
    + intros [|k] go g x Hk Hg.
      * injection Hk as <-. rewrite Z.add_0_r. destruct (lookup_lt_is_Some_2 F g) as [f Hf]; [apply lookup_lt_Some in Hg; lia|].
        by apply (Hd' g x f).
      * rewrite Hdeep; [|apply lookup_lt_is_Some_2|lia].
        -- replace (lvl + Z.of_nat (S k)) with (lvl + 1 + Z.of_nat k) by lia. by eapply Hd2.
        -- destruct (Hgoals go) as [Hgo _]; [right; by eapply list_elem_of_lookup_2|]. apply lookup_lt_Some in Hg. lia.
    + intros g f l Hf Hl. destruct (Hgf g f Hf) as [x Hx]. by apply (Hd' g x f).
Qed.

(** ** The operations of the manager *)

Lemma evictable_nonneg self l g : 0 <= evictable self l g.
Proof. unfold evictable. destruct (controllers self !! l) as [c|]; [|lia]. destruct (_policies c !! _); [rewrite policy_len_iter|]; lia. Qed.

(** Lower levels need no room. *)
Lemma zero_goals_row self level k goal :
  zero_goals self level !! k = Some goal -> goal = replicate (Z.to_nat (num_groups self)) 0 /\ level + Z.of_nat k < num_cache_levels self.
Proof. unfold zero_goals. intros [-> Hk]%lookup_replicate. split; [done|lia]. Qed.

Lemma zero_goals_ok self level goal :
  goal ∈ zero_goals self level -> 0 <= num_groups self -> len goal = num_groups self /\ forall x, x ∈ goal -> 0 <= x.
Proof.
  intros [k Hk]%list_elem_of_lookup_1 HG. apply zero_goals_row in Hk as [-> _]. rewrite length_replicate. split; [lia|].
  intros x [-> _]%elem_of_replicate. done.
Qed.

Lemma zero_goals_feasible h self level goal :
  storage_ok h self -> 0 <= level -> infeasible self level (goal :: zero_goals self (level + 1)) -> infeasible self level [goal].
Proof.
  intros Hok Hl ([|k] & go & g & x & Hk & Hg & Hx); [by exists 0%nat, go, g, x|]. exfalso.
  apply zero_goals_row in Hk as [-> Hk]. apply lookup_replicate in Hg as [-> Hg].
  destruct (free_ok h self (level + Z.of_nat (S k)) (Z.of_nat g)) as [_ ?]; [done|lia|lia|].
  pose proof (evictable_nonneg self (level + Z.of_nat (S k)) (Z.of_nat g)). lia.
Qed.

Lemma prepare_run ev h self level requirements :
  storage_ok h self -> 0 <= level < num_cache_levels self -> len requirements = num_groups self ->
  (forall x, x ∈ requirements -> 0 <= x) ->
  match prepare_free_slots ev self level requirements with
  | Ok self' => exists h', storage_ok h' self' /\ trans level [] self self'
      /\ forall (g : nat) x, requirements !! g = Some x -> x <= free self' level (Z.of_nat g)
  | Err e => failure self level [requirements] e
  end.
Proof.
  intros Hok Hl Hlen Hpos. unfold prepare_free_slots. rewrite (mapM_index _ _ Hlen). cbn [mbind result_bind].
  pose proof (prepare_levels ev (requirements :: zero_goals self (level + 1)) h self level (replicate (Z.to_nat (num_groups self)) []) Hok Hl) as Hrun.
  rewrite concat_replicate_nil, length_replicate in Hrun.
  assert (Hrows : forall goal, goal ∈ requirements :: zero_goals self (level + 1) -> len goal = num_groups self /\ forall x, x ∈ goal -> 0 <= x).
  { intros goal [->|Hin]%elem_of_cons; [done|]. apply (zero_goals_ok _ _ _ Hin). lia. }
  specialize (Hrun ltac:(simpl; unfold zero_goals; rewrite length_replicate; lia) Hrows ltac:(lia) NoDup_nil_2).
  destruct (_prepare_free_slots _ _ _ _ _) as [self'|e].
  - destruct Hrun as (h' & Hok' & [Ht _] & Hd & _).
    + intros g f id [-> _]%lookup_replicate Hid. by apply not_elem_of_nil in Hid.
    + exists h'. split; [done|]. split; [done|]. intros g x Hx. specialize (Hd 0%nat requirements g x eq_refl Hx). by rewrite Z.add_0_r in Hd.
  - destruct Hrun as [[-> [Hinf|Hheld]]|Hu]; [|left; split; [done|]; left|left; split; [done|]; by right|by right].
    + intros g f id [-> _]%lookup_replicate Hid. by apply not_elem_of_nil in Hid.
    + eapply zero_goals_feasible; [done|lia|done].
Qed.

(** [prepare_free_slots] makes the requested room and keeps the storage in order. *)
Theorem prepare_makes_room ev h self level requirements self' :
  storage_ok h self -> 0 <= level < num_cache_levels self -> len requirements = num_groups self ->
  (forall x, x ∈ requirements -> 0 <= x) -> prepare_free_slots ev self level requirements = Ok self' ->
  (exists h', storage_ok h' self')
  /\ forall (g : nat) x, requirements !! g = Some x -> get_num_free_slots self' level (Z.of_nat g) = Ok (free self' level (Z.of_nat g))
       /\ x <= free self' level (Z.of_nat g).
Proof.
  intros Hok Hl Hlen Hpos Hp. pose proof (prepare_run ev h self level requirements Hok Hl Hlen Hpos) as Hrun.
  rewrite Hp in Hrun. destruct Hrun as (h' & Hok' & Ht & Hroom). split; [eauto|]. intros g x Hx. split; [|by apply Hroom].
  destruct (t_shape _ _ _ _ Ht) as (_ & HL & HG). apply lookup_lt_Some in Hx. eapply free_ok; [done|lia|lia].
Qed.

(** Locked pages are where they were, held pages are somewhere. *)
Definition in_use_kept self self' : Prop :=
  (forall id page, pages self !! id = Some page -> status page = LOCKED -> pages self' !! id = Some page)
  /\ forall id page, pages self !! id = Some page -> status page = HELD -> exists page', pages self' !! id = Some page' /\ like page page'.

Lemma trans_in_use h self level self' : storage_ok h self -> trans level [] self self' -> in_use_kept self self'.
Proof.
  intros Hok Ht. split.
  - intros id page Hpg Hst. rewrite (t_untouched _ _ _ _ Ht); [done| |by apply not_elem_of_nil].
    intros (l & c & _ & Hc & Hin). destruct (s_ctrl _ _ Hok l) as (c' & Hc' & Hcok & _); [by eapply s_levels|].
    rewrite Hc in Hc'. injection Hc' as <-. rewrite (c_refs _ Hcok) in Hin.
    apply elem_of_list_to_set, list_elem_of_fmap in Hin as (e & -> & He).
    destruct (s_queue _ _ Hok _ _ _ Hc He) as (page' & Hpg' & _ & Hev). rewrite Hpg in Hpg'. injection Hpg' as <-.
    unfold is_evictable in Hev. by rewrite Hst in Hev.
  - intros id page Hpg Hst. destruct (t_survive _ _ _ _ Ht _ _ Hpg) as [page' Hpg']; [by rewrite Hst|]. exists page'. split; [done|].
    destruct (t_like _ _ _ _ Ht _ _ Hpg') as (page0 & Hpg0 & Hlike). by simplify_eq.
Qed.

(** [prepare_free_slots] loses no page that somebody holds, does not touch a
    locked page, and leaves the queues above its level alone; a queued page that
    nobody holds is dropped or queued again. *)
Theorem prepare_keeps_pages ev h self level requirements self' :
  storage_ok h self -> 0 <= level < num_cache_levels self -> len requirements = num_groups self ->
  (forall x, x ∈ requirements -> 0 <= x) -> prepare_free_slots ev self level requirements = Ok self' ->
  in_use_kept self self'
  /\ (forall id page', scheduled self id -> pages self' !! id = Some page' -> status page' = DROPPABLE -> scheduled self' id)
  /\ forall l, l < level -> controllers self' !! l = controllers self !! l.
Proof.
  intros Hok Hl Hlen Hpos Hp. pose proof (prepare_run ev h self level requirements Hok Hl Hlen Hpos) as Hrun.
  rewrite Hp in Hrun. destruct Hrun as (h' & Hok' & Ht & Hroom). split; [by eapply trans_in_use|split; [|exact (t_above _ _ _ _ Ht)]].
  intros id page' Hs Hp' Hst. apply (t_keep _ _ _ _ Ht id page'); [done|by apply not_elem_of_nil|done|done].
Qed.

(** C35. With one priority and no held page, [prepare_free_slots] succeeds whenever free
    and evictable slots suffice on the level it is called for: every group of that level
    has the free slots asked for, the storage is in order, and locked pages are where
    they were. *)
Theorem prepare_succeeds ev h self level requirements prio :
  storage_ok h self -> 0 <= level < num_cache_levels self -> len requirements = num_groups self ->
  (forall x, x ∈ requirements -> 0 <= x) -> uniform level prio self -> ~ has_held self ->
  (forall (g : nat) x, requirements !! g = Some x -> x <= free self level (Z.of_nat g) + evictable self level (Z.of_nat g)) ->
  exists self' h', prepare_free_slots ev self level requirements = Ok self' /\ storage_ok h' self' /\ in_use_kept self self'
    /\ forall (g : nat) x, requirements !! g = Some x ->
         exists n, get_num_free_slots self' level (Z.of_nat g) = Ok n /\ x <= n.
Proof.
  intros Hok Hl Hlen Hpos Hu Hnh Hfeas. pose proof (prepare_run ev h self level requirements Hok Hl Hlen Hpos) as Hrun.
  destruct (prepare_free_slots _ _ _ _) as [self'|e].
  - destruct Hrun as (h' & Hok' & Ht & Hroom). exists self', h'. split_and!; [done..|by eapply trans_in_use|].
    intros g x Hx. destruct (t_shape _ _ _ _ Ht) as (_ & HL & HG). pose proof (lookup_lt_Some _ _ _ Hx).
    eexists. split; [eapply free_ok; [done|lia|lia]|by apply Hroom].
  - exfalso. destruct Hrun as [[_ [([|k] & go & g & x & Hk & Hg & Hx)|Hh]]|[_ Hnu]]; [|done|done|by apply (Hnu prio)].
    injection Hk as <-. specialize (Hfeas g x Hg). rewrite Z.add_0_r in Hx. lia.
Qed.

(** ** New slots *)

Definition share (g : Z) (xs : list (Z * Z)) : Z := zsum (fun x : Z * Z => if x.1 =? g then x.2 else 0) xs.

Lemma add_loop (xs : list (Z * Z)) cs :
  (forall g n, (g, n) ∈ xs -> 0 <= g < len cs) ->
  exists cs', for_each (fun cs (x : Z * Z) => add_at cs x.1 x.2) cs xs = Ok cs' /\ length cs' = length cs
    /\ forall (g : nat) c, cs !! g = Some c -> cs' !! g = Some (c + share (Z.of_nat g) xs).
Proof.
  revert cs. induction xs as [|[g n] xs IH]; intros cs Hxs.
  { exists cs. split; [done|]. split; [done|]. intros g c Hc. rewrite Hc. f_equal. unfold share. rewrite zsum_nil. lia. }
  assert (Hg : 0 <= g < len cs) by (apply (Hxs g n); left).
  destruct (lookup_lt_is_Some_2 cs (Z.to_nat g)) as [x Hx]; [lia|].
  assert (Ha : add_at cs g n = Ok (<[Z.to_nat g := x + n]> cs)).
  { unfold add_at. rewrite <- (Z2Nat.id g) at 1 by lia. by rewrite (py_get_nat _ _ _ Hx). }
  destruct (IH (<[Z.to_nat g := x + n]> cs)) as (cs' & He & Hl & Hcs').
  { intros g' n' Hin. rewrite length_insert. apply (Hxs g' n'). by right. }
  exists cs'. cbn [for_each fst snd]. rewrite Ha. split; [done|]. rewrite length_insert in Hl. split; [done|].
  intros g' c Hc. unfold share. rewrite zsum_cons. simpl. destruct (decide (g' = Z.to_nat g)) as [->|Hne].
  - rewrite (Hcs' _ (x + n)); [|by apply list_lookup_insert_eq; lia]. f_equal. rewrite Hx in Hc. injection Hc as <-.
    rewrite (proj2 (Z.eqb_eq g _)) by lia. unfold share. lia.
  - rewrite (Hcs' _ c); [|by rewrite list_lookup_insert_ne]. rewrite (proj2 (Z.eqb_neq g _)) by lia. done.
Qed.

(** Every life cycle has a pool group. *)
Definition grouping_ok self : Prop := forall (lc : nat) g, lc_grouping self !! lc = Some g -> 0 <= g < num_groups self.

Lemma count_slots_spec self num_slots :
  0 <= num_groups self -> grouping_ok self -> length num_slots = length (lc_grouping self) ->
  exists cs, count_slots self num_slots = Ok cs /\ len cs = num_groups self
    /\ forall (g : nat) c, cs !! g = Some c -> c = share (Z.of_nat g) (zip (lc_grouping self) num_slots).
Proof.
  intros HG Hgr Hlen. unfold count_slots.
  rewrite (for_each_index _ (fun cs x => add_at cs x.1 x.2) _ num_slots); [|done|].
  2: { intros i g n cs Hg Hn. unfold get_pool_group_index. by rewrite (py_get_nat _ _ _ Hg), (py_get_nat _ _ _ Hn). }
  destruct (add_loop (zip (lc_grouping self) num_slots) (replicate (Z.to_nat (num_groups self)) 0)) as (cs & He & Hl & Hcs).
  { intros g n [i Hi]%list_elem_of_lookup_1. apply lookup_zip_with_Some in Hi as (g' & n' & [= -> ->] & Hg & _).
    rewrite length_replicate. specialize (Hgr _ _ Hg). lia. }
  rewrite length_replicate in Hl. exists cs. split; [done|]. split; [lia|]. intros g c Hc.
  rewrite (Hcs g 0) in Hc; [by injection Hc as <-|]. apply lookup_replicate. split; [done|]. apply lookup_lt_Some in Hc. lia.
Qed.

Lemma enough_free_eq h self level cs :
  storage_ok h self -> 0 <= level < num_cache_levels self -> len cs = num_groups self ->
  exists b, enough_free self level cs = Ok b
    /\ (b = true <-> forall (g : nat) c, cs !! g = Some c -> c <= free self level (Z.of_nat g)).
Proof.
  intros Hok Hl Hlen. unfold enough_free.
  rewrite (mapM_all_ok _ _ (free self level <$> seqZ 0 (num_groups self))); [|by rewrite length_fmap|].
  2: { intros i g y Hg Hy. rewrite list_lookup_fmap, Hg in Hy. injection Hy as <-. apply lookup_seqZ in Hg as [-> Hg].
       eapply free_ok; [done|done|lia]. }
  cbn [mbind result_bind]. eexists. split; [done|]. rewrite forallb_forall. split.
  - intros Hall g c Hc. apply lookup_lt_Some in Hc as Hlt. specialize (Hall (c, free self level (Z.of_nat g))).
    simpl in Hall. apply Z.leb_le, Hall. apply list_elem_of_In, (list_elem_of_lookup_2 _ g), lookup_zip_with_Some.
    eexists _, _. split; [done|]. split; [done|]. rewrite list_lookup_fmap, (proj2 (lookup_seqZ _ _ g (Z.of_nat g))); [done|lia].
  - intros Hall x Hx. apply list_elem_of_In, list_elem_of_lookup_1 in Hx as [i Hi].
    apply lookup_zip_with_Some in Hi as (c & f & -> & Hc & Hf). apply list_lookup_fmap_Some in Hf as (g & -> & Hg).
    apply lookup_seqZ in Hg as [-> _]. apply Z.leb_le. by apply Hall.
Qed.

(** The slots handed out, with their pool groups. *)
Definition handed (xs : list (Z * Z)) (ret : list (list Slot)) : list (Z * option Z) :=
  concat (zip_with (fun (x : Z * Z) slots => (fun s => (x.1, _slot_id s)) <$> slots) xs ret).

Definition allocation (level : Z) (st : list (list Slot) * StorageManager P) (x : Z * Z) : result (list (list Slot) * StorageManager P) :=
  '(slots, self) ← level_allocate st.2 level x.1 x.2;
  Ok (st.1 ++ [slots], self).

(** Distinct slots that no page owns. *)
Definition fresh (h : Z * Z -> gset Z) self level (hs : list (Z * option Z)) : Prop :=
  NoDup hs /\ forall g o, (g, o) ∈ hs -> exists i, o = Some i /\ unowned h self level g i.

Lemma level_allocate_spec h self level g n :
  storage_ok h self -> 0 <= level < num_cache_levels self -> 0 <= g < num_groups self -> 0 <= n <= free self level g ->
  exists slots h' self', level_allocate self level g n = Ok (slots, self') /\ storage_ok h' self' /\ same_shape self self'
    /\ controllers self' = controllers self /\ pages self' = pages self /\ len slots = n
    /\ fresh h' self' level ((fun s => (g, _slot_id s)) <$> slots)
    /\ (forall g' i, unowned h self level g' i -> ((g', Some i) ∉ ((fun s => (g, _slot_id s)) <$> slots)) /\ unowned h' self' level g' i)
    /\ forall g', free self' level g' = free self level g' - (if decide (g' = g) then n else 0).
Proof.
  intros Hok Hl Hg Hn.
  destruct (allocate_spec_storage h self level g n Hok Hl Hg Hn) as (p & slots & p' & ids & h' & Hp & _ & Ha & Hsl & Hlen & Hnd & Hok' & Hun & Hkeep & Hf).
  exists slots, h', (set_pool self level g p'). unfold level_allocate, get_pool. rewrite Hp. cbn [mbind result_bind]. rewrite Ha.
  split; [done|]. split; [done|]. split; [done|]. split; [done|]. split; [done|].
  assert (Hpairs : ((fun s => (g, _slot_id s)) <$> slots) = ((fun i => (g, Some i)) <$> ids)).
  { transitivity ((fun o => (g, o)) <$> (_slot_id <$> slots)); [by rewrite <- list_fmap_compose|].
    rewrite Hsl, <- list_fmap_compose. done. }
  split; [apply (f_equal length) in Hsl; rewrite !length_fmap in Hsl; lia|]. rewrite Hpairs. split; [split|split].
  - apply NoDup_fmap; [|done]. intros i j [= ->]. done.
  - intros g' o (i & [= -> ->] & Hi)%list_elem_of_fmap. eauto.
  - intros g' i Hu. destruct (Hkeep _ _ _ Hu) as [Hni Hu']. split; [|done]. intros (j & [= -> ->] & Hj)%list_elem_of_fmap. by apply Hni.
  - intros g'. rewrite Hf. do 2 case_decide; (congruence || lia).
Qed.

Lemma allocation_loop level xs : forall h self ret,
  storage_ok h self -> 0 <= level < num_cache_levels self ->
  (forall g n, (g, n) ∈ xs -> 0 <= g < num_groups self /\ 0 <= n) -> (forall g, 0 <= g < num_groups self -> share g xs <= free self level g) ->
  exists rows h' self', for_each (allocation level) (ret, self) xs = Ok (ret ++ rows, self') /\ storage_ok h' self'
    /\ same_shape self self' /\ pages self' = pages self /\ controllers self' = controllers self /\ length rows = length xs
    /\ (forall (i : nat) g n slots, xs !! i = Some (g, n) -> rows !! i = Some slots -> len slots = n)
    /\ fresh h' self' level (handed xs rows)
    /\ forall g' i, unowned h self level g' i -> ((g', Some i) ∉ handed xs rows) /\ unowned h' self' level g' i.
Proof.
  induction xs as [|[g n] xs IH]; intros h self ret Hok Hl Hxs Hroom.
  { exists [], h, self. rewrite app_nil_r. split_and!; try done; [|set_solver]. split; [apply NoDup_nil_2|]. intros g o Hin. by apply not_elem_of_nil in Hin. }
  destruct (Hxs g n ltac:(left)) as [Hg Hn0].
  assert (Hshare : forall g', share g' ((g, n) :: xs) = share g' xs + (if decide (g' = g) then n else 0)).
  { intros g'. unfold share. rewrite zsum_cons. simpl. case_decide; [rewrite (proj2 (Z.eqb_eq _ _))|rewrite (proj2 (Z.eqb_neq _ _))]; lia || done. }
  assert (Hpos : forall g', 0 <= share g' xs).
  { intros g'. apply zsum_nonneg. intros [g1 n1] Hin. simpl. destruct (g1 =? g'); [|lia]. apply (Hxs g1 n1). by right. }
  destruct (level_allocate_spec h self level g n Hok Hl Hg) as (slots & h1 & self1 & Ha & Hok1 & Hsh1 & Hc1 & Hp1 & Hlen & [Hnd Hun] & Hk & Hf).
  { specialize (Hroom g Hg). rewrite Hshare, decide_True in Hroom by done. specialize (Hpos g). lia. }
  pose proof Hsh1 as (_ & HL & HG).
  destruct (IH h1 self1 (ret ++ [slots])) as (rows & h' & self' & Hrun & Hok' & Hsh' & Hp' & Hc' & Hlr & Hrows & [Hnd' Hun'] & Hk'); [done|lia| | |].
  { intros g' n' Hin. rewrite HG. apply Hxs. by right. }
  { intros g' Hg'. rewrite HG in Hg'. specialize (Hroom g' Hg'). rewrite Hshare in Hroom. rewrite Hf. lia. }
  exists (slots :: rows), h', self'. cbn [for_each]. change (allocation level (ret, self) (g, n)) with ('(slots, self1) ← level_allocate self level g n; Ok (ret ++ [slots], self1)). rewrite Ha. cbn [mbind result_bind].
  rewrite Hrun, <- app_assoc. split; [done|]. split; [done|]. split; [by eapply same_shape_trans|]. split; [congruence|]. split; [congruence|]. split; [simpl; lia|].
  split; [intros [|i] g' n' sl Hi Hs; [by injection Hi as -> ->; injection Hs as <-|by eapply Hrows]|].
  unfold handed. cbn [zip_with concat fst]. fold (handed xs rows). split; [split|].
  - apply NoDup_app. split; [done|]. split; [|done]. intros [g' o] Hin Hin'. destruct (Hun _ _ Hin) as (i & -> & Hui).
    by destruct (Hk' g' i Hui).
  - intros g' o [Hin|Hin]%elem_of_app; [|by apply Hun']. destruct (Hun _ _ Hin) as (i & -> & Hui). exists i. split; [done|]. by apply Hk'.
  - intros g' i Hu. destruct (Hk g' i Hu) as [Hn1 Hu1]. destruct (Hk' g' i Hu1) as [Hn2 Hu2]. split; [|done]. rewrite elem_of_app. tauto.
Qed.

Lemma new_slots_run ev h self level num_slots :
  storage_ok h self -> 0 <= level < num_cache_levels self -> 0 <= num_groups self -> grouping_ok self ->
  length num_slots = length (lc_grouping self) -> (forall n, n ∈ num_slots -> 0 <= n) ->
  match new_slots ev self level num_slots with
  | Ok (ret, self') => exists h', storage_ok h' self' /\ length ret = length num_slots
      /\ (forall (lc : nat) n slots, num_slots !! lc = Some n -> ret !! lc = Some slots -> len slots = n)
      /\ fresh h' self' level (handed (zip (lc_grouping self) num_slots) ret) /\ trans level [] self self'
  | Err e => exists cs, count_slots self num_slots = Ok cs /\ enough_free self level cs = Ok false /\ failure self level [cs] e
  end.
Proof.
  intros Hok Hl HG Hgr Hlen Hpos. set (xs := zip (lc_grouping self) num_slots).
  assert (Hxs : forall g n, (g, n) ∈ xs -> 0 <= g < num_groups self /\ 0 <= n).
  { intros g n [i Hi]%list_elem_of_lookup_1. apply lookup_zip_with_Some in Hi as (g' & n' & [= -> ->] & Hg & Hn).
    split; [by eapply Hgr|by eapply Hpos, list_elem_of_lookup_2]. }
  assert (Hshare : forall g, 0 <= share g xs).
  { intros g. apply zsum_nonneg. intros [g1 n1] Hin. simpl. destruct (g1 =? g); [|lia]. by apply (Hxs g1 n1). }
  destruct (count_slots_spec self num_slots HG Hgr Hlen) as (cs & Hcount & Hlc & Hcs). fold xs in Hcs.
  destruct (enough_free_eq h self level cs Hok Hl Hlc) as (b & Hb & Hbt).
  assert (Hroom : match (if negb b then prepare_free_slots ev self level cs else Ok self) with
    | Ok self1 => exists h1, storage_ok h1 self1 /\ trans level [] self self1 /\ forall (g : nat) c, cs !! g = Some c -> c <= free self1 level (Z.of_nat g)
    | Err e => b = false /\ failure self level [cs] e end).
  { destruct b; simpl.
    - exists h. split; [done|]. split; [apply trans_refl|]. by apply Hbt.
    - assert (Hcpos : forall x, x ∈ cs -> 0 <= x) by (intros x [g Hg]%list_elem_of_lookup_1; rewrite (Hcs g x Hg); apply Hshare).
      pose proof (prepare_run ev h self level cs Hok Hl Hlc Hcpos) as Hrun. by destruct (prepare_free_slots _ _ _ _). }
  unfold new_slots. rewrite Hcount. cbn [mbind result_bind]. rewrite Hb. cbn [mbind result_bind].
  destruct (if negb b then _ else _) as [self1|e]; cbn [mbind result_bind]; [|destruct Hroom as [-> Hf]; eauto].
  destruct Hroom as (h1 & Hok1 & Ht1 & Hroom). destruct (t_shape _ _ _ _ Ht1) as (_ & HL1 & HG1).
  destruct (enough_free_eq h1 self1 level cs Hok1 ltac:(lia) ltac:(lia)) as (b1 & Hb1 & Hbt1).
  rewrite Hb1. rewrite (proj2 Hbt1 Hroom). cbn [py_assert mbind result_bind].
  rewrite (for_each_index _ (allocation level) _ num_slots); [|done|].
  2: { intros i g n [ret st] Hg Hn. by rewrite (py_get_nat _ _ _ Hg), (py_get_nat _ _ _ Hn). }
  destruct (allocation_loop level xs h1 self1 [] Hok1) as (rows & h' & self' & Hrun & Hok' & Hsh' & Hp' & Hc' & Hlr & Hrows & Hfresh & _); [lia|by rewrite HG1| |].
  { intros g Hg. rewrite HG1 in Hg. destruct (lookup_lt_is_Some_2 cs (Z.to_nat g)) as [c Hc]; [lia|].
    specialize (Hroom _ _ Hc). rewrite (Hcs _ _ Hc), Z2Nat.id in Hroom by lia. done. }
  fold xs. rewrite Hrun, app_nil_l. exists h'. split; [done|]. rewrite Hlr. unfold xs. rewrite length_zip_with. split; [lia|].
  split; [|split; [done|]].
  2: { apply (trans_trans level [] [] self self1); [done|]. apply trans_pages; [done|done| | |]; rewrite Hp'; eauto using like_refl. }
  intros lc n slots Hn Hs. destruct (lookup_lt_is_Some_2 (lc_grouping self) lc) as [g Hg]; [apply lookup_lt_Some in Hn; lia|].
  apply (Hrows lc g n); [|done]. apply lookup_zip_with_Some. eauto.
Qed.

(** C10. [new_slots] hands out, for every life cycle, the number of slots asked for; all
    of them are distinct and no page has one; pages somebody holds are still there.
    It raises only if it had to make room and could not. *)
Theorem new_slots_fresh ev h self level num_slots :
  storage_ok h self -> 0 <= level < num_cache_levels self -> 0 <= num_groups self -> grouping_ok self ->
  length num_slots = length (lc_grouping self) -> (forall n, n ∈ num_slots -> 0 <= n) ->
  match new_slots ev self level num_slots with
  | Ok (ret, self') => exists h', storage_ok h' self' /\ length ret = length num_slots
      /\ (forall (lc : nat) n slots, num_slots !! lc = Some n -> ret !! lc = Some slots -> len slots = n)
      /\ fresh h' self' level (handed (zip (lc_grouping self) num_slots) ret)
      /\ (forall id page, pages self !! id = Some page -> status page <> DROPPABLE -> is_Some (pages self' !! id))
  | Err e => exists cs, count_slots self num_slots = Ok cs /\ enough_free self level cs = Ok false /\ failure self level [cs] e
  end.
Proof.
  intros Hok Hl HG Hgr Hlen Hpos. pose proof (new_slots_run ev h self level num_slots Hok Hl HG Hgr Hlen Hpos) as Hrun.
  destruct (new_slots _ _ _ _) as [[ret self']|e]; [|done]. destruct Hrun as (h' & Hok' & Hlr & Hrows & Hfr & Ht).
  exists h'. split; [done|]. split; [done|]. split; [done|]. split; [done|]. exact (t_survive _ _ _ _ Ht).
Qed.

(** ** Forced eviction *)

Lemma let_go_rows lvl rows : forall h self g0,
  storage_ok h self -> NoDup (concat rows) ->
  (forall (i : nat) ids id, rows !! i = Some ids -> id ∈ ids -> garbage self (g0 + Z.of_nat i) id) ->
  exists h' self', for_each let_go self (concat rows) = Ok self' /\ storage_ok h' self' /\ settling lvl (concat rows) self self'
    /\ forall l g, free self' l g = free self l g + zsum (on_level self l) (row rows g0 g).
Proof.
  induction rows as [|ids rows IH]; intros h self g0 Hok Hnd Hg.
  { exists h, self. split; [done|]. split; [done|]. split; [apply settling_refl|]. intros l g. unfold row, zsum.
    destruct (g0 <=? g); simpl; lia. }
  cbn [concat] in *. apply NoDup_app in Hnd as (Hnd1 & Hdis & Hnd2).
  destruct (let_go_all h self lvl g0 ids Hok Hnd1) as (h1 & self1 & Hl1 & Hok1 & [Ht1 Hset1] & _ & Hf1).
  { intros id Hid. specialize (Hg 0%nat ids id eq_refl Hid). by rewrite Z.add_0_r in Hg. }
  assert (Hrest : forall (i : nat) ids' id, rows !! i = Some ids' -> id ∈ ids' -> garbage self (g0 + 1 + Z.of_nat i) id /\ id ∉ ids).
  { intros i ids' id Hi Hid. split; [replace (g0 + 1 + Z.of_nat i) with (g0 + Z.of_nat (S i)) by lia; by eapply Hg|].
    intros Hin. apply (Hdis id Hin). apply elem_concat_lookup. eauto. }
  destruct (IH h1 self1 (g0 + 1) Hok1 Hnd2) as (h2 & self2 & Hl2 & Hok2 & Ht2 & Hf2).
  { intros i ids' id Hi Hid. destruct (Hrest i ids' id Hi Hid). by eapply garbage_trans. }
  exists h2, self2. rewrite for_each_app, Hl1. split; [done|]. split; [done|]. split; [by apply (settling_app lvl ids _ self self1)|].
  intros l g. rewrite Hf2, Hf1, row_cons. case_decide as Heq.
  - assert (row rows (g0 + 1) g = []) as ->; [|rewrite zsum_nil; lia]. unfold row. by rewrite (proj2 (Z.leb_gt _ _)) by lia.
  - rewrite (zsum_ext (on_level self1 l) (on_level self l)); [lia|]. intros id Hid. unfold row in Hid.
    destruct (g0 + 1 <=? g); [|by apply not_elem_of_nil in Hid]. destruct (rows !! _) as [ids'|] eqn:Hi; [|by apply not_elem_of_nil in Hid].
    destruct (Hrest _ _ _ Hi Hid) as [(page & _ & _ & Hns & _) Hni]. by eapply on_level_trans.
Qed.

(** Letting the evicted pages of the last level go, or passing them on. *)
Lemma evicted_gone ev h self c level (E : list (list Z)) :
  let self1 := set_controller self level c in
  storage_ok h self1 -> 0 <= level < num_cache_levels self -> len E = num_groups self -> NoDup (concat E) ->
  (forall (g : nat) e id, E !! g = Some e -> id ∈ e -> evicted_page self self1 level (Z.of_nat g) id) ->
  match (if level =? num_cache_levels self - 1 then
           ps ← mapM (get_page self1) (concat E);
           _ ← py_assert (forallb (fun p => bool_decide (status p = DROPPABLE)) ps);
           for_each let_go self1 (concat E)
         else _prepare_free_slots ev self1 (zero_goals self1 (level + 1)) (level + 1) E) with
  | Ok self' => exists h', storage_ok h' self' /\ settling level (concat E) self1 self'
      /\ forall (g : nat) e, E !! g = Some e -> free self' level (Z.of_nat g) = free self level (Z.of_nat g) + zsum (on_level self level) e
  | Err e => (e = OutOfPagesError /\ has_held self) \/ (e = AssertionError /\ forall prio, ~ uniform level prio self)
  end.
Proof.
  intros self1 Hok Hl Hlen Hnd HE. destruct (level =? num_cache_levels self - 1) eqn:Hlast.
  - assert (Hgarb : forall (g : nat) e id, E !! g = Some e -> id ∈ e -> garbage self1 (0 + Z.of_nat g) id).
    { intros g e id He Hid. rewrite Z.add_0_l. apply evicted_garbage; [done|]. by eapply HE. }
    destruct (mapM_cases (get_page self1) (concat E)) as [(ps & -> & Hlps & Hps)|(i & id & e & Hi & He & _)].
    2: { apply list_elem_of_lookup_2, elem_concat_lookup in Hi as (g & row & Hg & Hid).
         destruct (Hgarb g row id Hg Hid) as (page & Hp & _). unfold get_page in He. by rewrite Hp in He. }
    cbn [mbind result_bind]. rewrite (proj2 (forallb_forall _ _)); cbn [py_assert mbind result_bind].
    + destruct (let_go_rows level E h self1 0 Hok Hnd Hgarb) as (h' & self' & -> & Hok' & Ht & Hf). exists h'. split; [done|]. split; [done|].
      intros g e He. rewrite Hf. unfold row. rewrite (proj2 (Z.leb_le _ _)), Z.sub_0_r, Nat2Z.id, He by lia. done.
    + intros p Hp. apply list_elem_of_In, list_elem_of_lookup_1 in Hp as [i Hp].
      destruct (lookup_lt_is_Some_2 (concat E) i) as [id Hi]; [apply lookup_lt_Some in Hp; lia|].
      destruct (Hps i id Hi) as (p' & Hp' & Hget). rewrite Hp in Hp'. injection Hp' as <-.
      apply list_elem_of_lookup_2, elem_concat_lookup in Hi as (g & row & Hg & Hid).
      destruct (Hgarb g row id Hg Hid) as (page & Hpg & _ & _ & Hst). unfold get_page in Hget. rewrite Hpg in Hget. injection Hget as <-.
      by apply bool_decide_true.
  - bool_to_prop. pose proof (prepare_levels ev (zero_goals self1 (level + 1)) h self1 (level + 1) E Hok) as Hrun.
    change (num_groups self1) with (num_groups self) in Hrun. change (num_cache_levels self1) with (num_cache_levels self) in Hrun.
    specialize (Hrun ltac:(lia)). unfold zero_goals in Hrun at 1. rewrite length_replicate in Hrun. simpl num_cache_levels in Hrun.
    specialize (Hrun ltac:(lia) ltac:(intros goal Hg; apply (zero_goals_ok self1 _ _ Hg); simpl; lia) Hlen Hnd).
    destruct (_prepare_free_slots _ _ _ _ _) as [self'|e].
    + destruct Hrun as (h' & Hok' & [Ht Hset] & _ & Hf).
      { intros g e id He Hid. by apply (evicted_falling self c level), (HE g e). }
      exists h'. split; [done|]. split; [split; [by eapply trans_deeper; [|exact Ht]; lia|done]|]. intros g e He. rewrite (Hf g e level He); [done|lia].
    + destruct Hrun as [[-> [Hinf|Hheld]]|[-> Hu]].
      { intros g e' id He Hid. by apply (evicted_falling self c level), (HE g e'). }
      * exfalso. destruct Hinf as (k & go & g & x & Hk & Hg & Hx). apply zero_goals_row in Hk as [-> Hk]. apply lookup_replicate in Hg as [-> Hg].
        destruct (free_ok h self1 (level + 1 + Z.of_nat k) (Z.of_nat g)) as [_ ?]; [done|simpl in *; lia|simpl in *; lia|].
        pose proof (evictable_nonneg self1 (level + 1 + Z.of_nat k) (Z.of_nat g)). lia.
      * left. split; [done|exact Hheld].
      * right. split; [done|]. intros prio Hun. apply (Hu prio). intros l c' d k q Hl' Hc'. simpl in Hc'.
        rewrite lookup_insert_ne in Hc' by lia. apply (Hun l c'); [lia|done].
Qed.

(** [force_evict] frees exactly the slots of the pages it is told to evict. *)
Lemma force_evict_spec ev h self level counts :
  storage_ok h self -> 0 <= level < num_cache_levels self -> len counts = num_groups self ->
  (forall (g : nat) n, counts !! g = Some n -> 0 <= n <= evictable self level (Z.of_nat g)) ->
  match force_evict ev self level counts with
  | Ok self' => exists h', storage_ok h' self' /\ trans level [] self self'
      /\ forall (g : nat) n, counts !! g = Some n -> free self' level (Z.of_nat g) = free self level (Z.of_nat g) + n
  | Err e => (e = OutOfPagesError /\ has_held self) \/ (e = AssertionError /\ forall prio, ~ uniform level prio self)
  end.
Proof.
  intros Hok Hl Hlen Hcounts. destruct (s_ctrl _ _ Hok level Hl) as (c & Hc & _).
  unfold force_evict, get_controller. rewrite Hc. cbn [mbind result_bind].
  destruct (evict_storage h self level c counts Hok Hl Hc Hlen Hcounts) as [(rows & c' & -> & Hok1 & Ht1 & Hrl & Hnd & Hrows)|(c' & -> & Hu)]; [|by right].
  cbn [mbind result_bind].
  assert (Hlr : length (ids_of rows) = length counts) by (unfold ids_of; by rewrite length_fmap).
  assert (Hrow : forall (g : nat) e id, ids_of rows !! g = Some e -> id ∈ e -> evicted_page self (set_controller self level c') level (Z.of_nat g) id).
  { intros g e id He. destruct (lookup_lt_is_Some_2 counts g) as [n Hn]; [apply lookup_lt_Some in He; lia|].
    destruct (Hrows g n Hn) as (e' & He' & _ & Hev). simplify_eq. apply Hev. }
  pose proof (evicted_gone ev h self c' level (ids_of rows) Hok1 Hl ltac:(lia) Hnd Hrow) as Hgone.
  change (num_cache_levels (set_controller self level c')) with (num_cache_levels self).
  destruct (if level =? _ then _ else _) as [self'|e]; [|done]. destruct Hgone as (h' & Hok' & Ht' & Hf').
  exists h'. split; [done|]. split.
  - destruct Ht' as [Ht' Hset']. apply (settling_absorb level (concat (ids_of rows))); [split; [|done]| |intros id Hid; by apply not_elem_of_nil in Hid].
    { eapply trans_mono; [|eapply trans_trans; [exact Ht1|exact Ht']]. set_solver. }
    intros id (g & e & He & Hid)%elem_concat_lookup. right. destruct (Hrow g e id He Hid) as (page & _ & _ & _ & _ & _ & Hs). exact Hs.
  - intros g n Hn. destruct (Hrows g n Hn) as (e & He & Hle & Hev). rewrite (Hf' g e He). f_equal.
    rewrite (zsum_ext _ (fun _ => 1)), zsum_const; [lia|]. intros id Hid.
    by destruct (evicted_falling self c' level _ id (Hev id Hid)) as (_ & Hon & _).
Qed.

Lemma new_slots_for_pool_group_spec ev h self level pg n :
  storage_ok h self -> 0 <= level < num_cache_levels self -> 0 <= pg < num_groups self -> 0 <= n ->
  match new_slots_for_pool_group ev self level pg n with
  | Ok (slots, self') => exists h', storage_ok h' self' /\ len slots = n /\ fresh h' self' level ((fun s => (pg, _slot_id s)) <$> slots)
  | Err e => free self level pg < n /\ failure self level [<[Z.to_nat pg := n]> (replicate (Z.to_nat (num_groups self)) 0)] e
  end.
Proof.
  intros Hok Hl Hg Hn. unfold new_slots_for_pool_group. destruct (free_ok h self level pg Hok Hl Hg) as [-> _]. cbn [mbind result_bind].
  set (row := <[Z.to_nat pg := n]> (replicate (Z.to_nat (num_groups self)) 0)).
  assert (Hat : row !! Z.to_nat pg = Some n) by (apply list_lookup_insert_eq; rewrite length_replicate; lia).
  assert (Hroom : match (if free self level pg <? n then
      row ← add_at (replicate (Z.to_nat (num_groups self)) 0) pg n; prepare_free_slots ev self level row else Ok self) with
    | Ok self1 => exists h1, storage_ok h1 self1 /\ trans level [] self self1 /\ n <= free self1 level pg
    | Err e => free self level pg < n /\ failure self level [row] e end).
  { destruct (Z.ltb_spec (free self level pg) n) as [Hlt|Hge]; [|exists h; split; [done|]; split; [apply trans_refl|lia]].
    assert (add_at (replicate (Z.to_nat (num_groups self)) 0) pg n = Ok row) as ->.
    { unfold add_at. rewrite <- (Z2Nat.id pg) at 1 by lia. rewrite (py_get_nat _ _ 0); [done|]. apply lookup_replicate. lia. }
    cbn [mbind result_bind]. pose proof (prepare_run ev h self level row Hok Hl) as Hrun.
    assert (Hpos : forall x, x ∈ row -> 0 <= x).
    { intros x [i Hi]%list_elem_of_lookup_1. apply list_lookup_insert_Some in Hi as [(_ & <- & _)|[_ Hi]]; [done|]. by apply lookup_replicate in Hi as [-> _]. }
    specialize (Hrun ltac:(unfold row; rewrite length_insert, length_replicate; lia) Hpos).
    destruct (prepare_free_slots _ _ _ _) as [self1|e]; [|done]. destruct Hrun as (h1 & Hok1 & Ht & Hr). exists h1. split; [done|]. split; [done|].
    specialize (Hr _ _ Hat). rewrite Z2Nat.id in Hr by lia. done. }
  destruct (if free self level pg <? n then _ else _) as [self1|e]; cbn [mbind result_bind]; [|done].
  destruct Hroom as (h1 & Hok1 & Ht & Hr). destruct (t_shape _ _ _ _ Ht) as (_ & HL & HG).
  destruct (free_ok h1 self1 level pg Hok1 ltac:(lia) ltac:(lia)) as [-> _]. cbn [mbind result_bind].
  rewrite (proj2 (Z.leb_le _ _)) by done. cbn [py_assert mbind result_bind].
  destruct (level_allocate_spec h1 self1 level pg n Hok1 ltac:(lia) ltac:(lia) ltac:(lia)) as (slots & h' & self' & -> & Hok' & _ & _ & _ & Hlen & Hfr & _).
  eauto.
Qed.

End proofs.

(** ** Slot allocators as pools *)

Section pools.
Context (done_ : Z -> bool).

#[local] Instance allocator_pool : SlotPool SlotAllocator := {
  num_free := num_free_slots;
  pool_allocate_multiple := SlotAllocator.allocate_multiple done_;
  pool_release := release done_;
}.

(** A pool that is not being resized. *)
Definition allocator_holds (self : SlotAllocator) (l : gset Z) : Prop :=
  refines self (mkPool (_capacity self) (_capacity self) l).

Lemma allocator_free self l : allocator_holds self l -> num_free_slots self = _capacity self - Z.of_nat (size l) /\ forall i, i ∈ l -> 0 <= i < _capacity self.
Proof.
  intros (Hc & Ht & Hm & rids & oids & Hq). rewrite (free_is_room self _ rids oids Ht Hq). unfold room. simpl in *.
  assert (Hin : forall i, i ∈ l -> 0 <= i < _capacity self).
  { intros i Hi. assert (Hs : i ∈ seqZ 0 (_num_active_slots self)).
    { rewrite <- (q_ids _ _ _ _ Hq). apply elem_of_app. right. apply elem_of_app. right. by apply elem_of_elements. }
    apply elem_of_seqZ in Hs. pose proof (q_range _ _ _ _ Hq). lia. }
  split; [|done]. f_equal. unfold size, set_size. simpl. f_equal. f_equal.
  apply filter_all, Forall_forall. intros i Hi%elem_of_elements%Hin. lia.
Qed.

Lemma refines_holds self c l : refines self (mkPool c c l) -> allocator_holds self l /\ _capacity self = c.
Proof. intros Hr. pose proof Hr as (Hc & _). simpl in Hc. unfold allocator_holds. by rewrite Hc. Qed.

Lemma allocator_allocates self l n :
  allocator_holds self l -> 0 <= n <= num_free_slots self ->
  exists slots self' ids, SlotAllocator.allocate_multiple done_ self n = Ok (slots, self')
    /\ _slot_id <$> slots = Some <$> ids /\ len ids = n /\ NoDup ids /\ (forall i, i ∈ ids -> i ∉ l)
    /\ allocator_holds self' (list_to_set ids ∪ l) /\ num_free_slots self' = num_free_slots self - n.
Proof.
  intros Hh Hn. pose proof Hh as (_ & Ht & _ & rids & oids & Hq). unfold SlotAllocator.allocate_multiple.
  rewrite (proj2 (Z.ltb_ge _ _)) by lia. pose proof (free_is_room self _ rids oids Ht Hq) as Hfree.
  destruct (allocate_times_spec done_ (Z.to_nat n) self _ Hh) as (slots & self' & ids & -> & Hs & Hl & [Hnd Hf] & Hr & Hroom); [lia|].
  exists slots, self', ids. split; [done|]. split; [done|]. split; [lia|]. split; [done|]. split; [intros i Hi; by apply Hf|].
  split; [by apply refines_holds in Hr as [? _]|]. destruct Hr as (_ & Ht' & _ & rids' & oids' & Hq').
  rewrite (free_is_room self' _ rids' oids' Ht' Hq'). lia.
Qed.

Lemma allocator_releases self l i ev :
  allocator_holds self l -> i ∈ l ->
  exists self', release done_ self (mkSlot (Some i) ev) = Ok self' /\ allocator_holds self' (l ∖ {[i]})
    /\ num_free_slots self' = num_free_slots self + 1.
Proof.
  intros Hh Hi. destruct (allocator_free self l Hh) as [Hf Hin].
  pose proof (release_spec done_ self _ (mkSlot (Some i) ev) Hh) as Hr. simpl in Hr.
  rewrite decide_True in Hr by done. destruct Hr as (self' & Hrel & Href); [intros j [= <-]; by apply Hin|].
  exists self'. split; [done|]. apply refines_holds in Href as [Hh' Hc]. split; [done|].
  rewrite (proj1 (allocator_free _ _ Hh')), Hf, Hc. rewrite (size_difference l {[i]}), size_singleton by set_solver.
  assert (size l <> 0%nat) by (apply size_non_empty_iff; set_solver). lia.
Qed.

Lemma allocator_nonneg self l : allocator_holds self l -> 0 <= num_free_slots self.
Proof. intros (Hc & Ht & Hm & rids & oids & Hq). unfold num_free_slots. lia. Qed.

#[local] Instance allocator_laws : SlotPoolLaws SlotAllocator := {
  holds := allocator_holds;
  free_nonneg := allocator_nonneg;
  allocate_law := allocator_allocates;
  release_law := allocator_releases;
}.

End pools.

(** ** An example *)

Module Example.

#[local] Instance example_pool : SlotPool SlotAllocator := allocator_pool (fun _ => true).
#[local] Instance example_laws : SlotPoolLaws SlotAllocator := allocator_laws (fun _ => true).

Definition full : SlotAllocator :=
  match SlotAllocator.allocate_multiple (fun _ => true) (SlotAllocator_init 2) 2 with
  | Ok (_, p) => p | Err _ => SlotAllocator_init 0 end.

Lemma init_holds n : 0 <= n -> allocator_holds (SlotAllocator_init n) ∅.
Proof. intros Hn. by apply init_refines. Qed.

Lemma full_holds : allocator_holds full {[0; 1]}.
Proof.
  destruct (allocator_allocates (fun _ => true) (SlotAllocator_init 2) ∅ 2) as (slots & p & ids & Ha & Hs & _ & _ & _ & Hh & _).
  { by apply init_holds. } { vm_compute. split; discriminate. }
  unfold full. rewrite Ha. vm_compute in Ha. injection Ha as <- _. destruct ids as [|i [|j [|]]]; try done. injection Hs as <- <-.
  by replace ({[0; 1]} : gset Z) with (list_to_set [0; 1] ∪ ∅ : gset Z) by set_solver.
Qed.

(** Two levels with one pool each: the first is full with a page in the queue and a
    locked page, the second is empty. *)
Definition queued : Page := mkPageObj (mkSlot (Some 0) None) 0 0 35 DROPPABLE true.
Definition locked : Page := mkPageObj (mkSlot (Some 1) None) 0 0 35 LOCKED false.

Definition storage : StorageManager SlotAllocator :=
  mkStorage [0] 2 1
    {[(0, 0) := full; (1, 0) := SlotAllocator_init 2]}
    {[0 := mkCtrl 0 [0] [[(35, [as_evictable 10 queued])]] {[10]}; 1 := mkCtrl 1 [0] [[]] ∅]}
    {[10 := queued; 11 := locked]}.

Definition used (k : Z * Z) : gset Z := if decide (k = (0, 0)) then {[0; 1]} else ∅.

Lemma empty_ctrl_ok l : ctrl_ok (mkCtrl l [0] [[]] ∅).
Proof. by apply (controller_init_ok [0] l). Qed.

Lemma queue_ctrl_ok : ctrl_ok (mkCtrl 0 [0] [[(35, [as_evictable 10 queued])]] {[10]}).
Proof.
  destruct (schedule_ok (mkCtrl 0 [0] [[]] ∅) (as_evictable 10 queued) false 0 []) as (_ & Hok & _); [apply empty_ctrl_ok|set_solver|done..|].
  simpl in Hok. by rewrite union_empty_r_L in Hok.
Qed.

Lemma storage_is_ok : storage_ok used storage.
Proof.
  assert (Hpages : forall id page, pages storage !! id = Some page -> (id = 10 /\ page = queued) \/ (id = 11 /\ page = locked)).
  { intros id page Hp. simpl in Hp. apply lookup_insert_Some in Hp as [[<- <-]|[_ Hp]]; [by left|].
    apply lookup_singleton_Some in Hp as [<- <-]. by right. }
  assert (Hctrl : forall l c, controllers storage !! l = Some c ->
    (l = 0 /\ c = mkCtrl 0 [0] [[(35, [as_evictable 10 queued])]] {[10]}) \/ (l = 1 /\ c = mkCtrl 1 [0] [[]] ∅)).
  { intros l c Hc. simpl in Hc. apply lookup_insert_Some in Hc as [[<- <-]|[_ Hc]]; [by left|].
    apply lookup_singleton_Some in Hc as [<- <-]. by right. }
  split.
  - intros l g Hl Hg. simpl in Hl, Hg. assert (g = 0) as -> by lia. assert (l = 0 \/ l = 1) as [-> | ->] by lia.
    + exists full. split; [done|]. apply full_holds.
    + exists (SlotAllocator_init 2). split; [done|]. by apply init_holds.
  - intros l Hl. simpl in Hl. assert (l = 0 \/ l = 1) as [-> | ->] by lia; eexists; (split; [reflexivity|]); (split; [|done]).
    + apply queue_ctrl_ok.
    + apply empty_ctrl_ok.
  - intros l c Hc. simpl. destruct (Hctrl _ _ Hc) as [[-> _]|[-> _]]; lia.
  - intros id page Hp. destruct (Hpages _ _ Hp) as [[-> ->]|[-> ->]]; [exists 0, 0|exists 0, 1]; simpl; (split; [lia|]); (split; [done|]);
      (split; [lia|]); (split; [done|]); unfold used; rewrite decide_True by done; set_solver.
  - intros id1 id2 p1 p2 g H1 H2 _ _ _ Hs. destruct (Hpages _ _ H1) as [[-> ->]|[-> ->]], (Hpages _ _ H2) as [[-> ->]|[-> ->]]; done.
  - intros l c e Hc He. destruct (Hctrl _ _ Hc) as [[-> ->]|[-> ->]]; [|by apply not_elem_of_nil in He].
    apply list_elem_of_singleton in He as ->. by exists queued.
Qed.

Definition after : StorageManager SlotAllocator :=
  match prepare_free_slots None storage 0 [1] with Ok self => self | Err _ => storage end.

Lemma room_made : prepare_free_slots None storage 0 [1] = Ok after.
Proof. vm_compute. reflexivity. Qed.

Lemma nonneg_row (x : Z) : x ∈ [1] -> 0 <= x.
Proof. intros ->%list_elem_of_singleton. done. Qed.

End Example.

#[local] Existing Instances Example.example_pool Example.example_laws.
Import Example.

Lemma prepare_makes_room_witness :
  prepare_free_slots None storage 0 [1] = Ok after /\ get_num_free_slots after 0 0 = Ok 1 /\ (exists h', storage_ok h' after).
Proof.
  split; [exact room_made|]. split; [vm_compute; reflexivity|].
  apply (prepare_makes_room None used storage 0 [1] after storage_is_ok); [simpl; lia|done|exact nonneg_row|exact room_made].
Defined.

Lemma prepare_keeps_pages_witness : pages after !! 11 = Some locked /\ is_Some (pages after !! 10).
Proof.
  split; [|vm_compute; eauto].
  apply (prepare_keeps_pages None used storage 0 [1] after storage_is_ok); [simpl; lia|done|exact nonneg_row|exact room_made|reflexivity|reflexivity].
Defined.

Lemma prepare_succeeds_witness :
  exists self' n, prepare_free_slots None storage 0 [1] = Ok self' /\ get_num_free_slots self' 0 0 = Ok n /\ 1 <= n.
Proof.
  destruct (prepare_succeeds None used storage 0 [1] 35 storage_is_ok) as (self' & h' & Hp & _ & _ & Hroom); [simpl; lia|done|exact nonneg_row| | | |].
  - intros l c d k q _ Hc Hd Hk. simpl in Hc. apply lookup_insert_Some in Hc as [[_ <-]|[_ Hc]].
    + apply list_elem_of_singleton in Hd as ->. by apply list_elem_of_singleton in Hk as [= -> _].
    + apply lookup_singleton_Some in Hc as [_ <-]. apply list_elem_of_singleton in Hd as ->. by apply not_elem_of_nil in Hk.
  - intros (id & page & Hp & Hst). simpl in Hp. apply lookup_insert_Some in Hp as [[_ <-]|[_ Hp]]; [done|].
    by apply lookup_singleton_Some in Hp as [_ <-].
  - intros [|g] x Hx; [|done]. injection Hx as <-. vm_compute. discriminate.
  - destruct (Hroom 0%nat 1 eq_refl) as (n & Hn & Hle). exists self', n. split; [exact Hp|]. split; [exact Hn|exact Hle].
Defined.

Lemma new_slots_fresh_witness :
  exists ret self' h', new_slots None storage 0 [1] = Ok (ret, self') /\ storage_ok h' self' /\ length ret = 1%nat.
Proof.
  pose proof (new_slots_fresh None used storage 0 [1] storage_is_ok) as Hnew.
  destruct (new_slots None storage 0 [1]) as [[ret self']|e] eqn:Hrun; [|vm_compute in Hrun; discriminate].
  destruct Hnew as (h' & Hok & Hlen & _); [simpl; lia|simpl; lia| |done|exact nonneg_row|].
  - intros [|lc] g Hg; [|done]. injection Hg as <-. simpl. lia.
  - exists ret, self', h'. split; [reflexivity|]. split; [exact Hok|exact Hlen].
Defined.
