(* ===== verification/PageLocks.v ===== *)
(** * Holders and locks of pages

    [runtime/kv_cache_manager_v2/_page.py]: a sequence keeps a page from being
    dropped by holding it and from being evicted by locking it.  Holders and locks
    are Python objects that act when the last reference to them disappears, so the
    model counts references: to the page itself, to its holder and to the shared
    locks.  A slot that a sequence uses as scratch space is a locked entry of the
    same table.  The theorems are about every sequence of these operations, mixed
    with making room on the storage. *)

From stdpp Require Import prelude gmap.
From S2P Require Import Prelude SlotAllocator Eviction StorageManager MakeRoom.
Local Open Scope Z_scope.

(** The references to one page: strong references to the page object, references to
    its holder (other than the one the lock has), shared locks, whether its block is
    still in the tree, and whether it is no page but a scratch slot. *)
Record Refs := mkRefs { page_refs : Z; holder_refs : Z; shared_locks : Z; attached : bool; scratch : bool }.

Definition has_holder (r : Refs) : bool := (0 <? holder_refs r) || (0 <? shared_locks r).

(** [Page.status] *)
Definition status_of (r : Refs) : PageStatus :=
  if negb (has_holder r) then DROPPABLE else if shared_locks r =? 0 then HELD else LOCKED.

Section locks.
Context {P : Type} `{SlotPool P}.

(** The storage and the references to its pages. *)
Record PageTable := mkTable { storage : StorageManager P; refs : gmap Z Refs }.

Definition get_refs (st : PageTable) (id : Z) : result Refs :=
  match refs st !! id with Some r => Ok r | None => Err ValueError end.

Definition set_storage (st : PageTable) (self : StorageManager P) : PageTable := mkTable self (refs st).
Definition set_refs (st : PageTable) (id : Z) (r : Refs) : PageTable := mkTable (storage st) (<[id := r]> (refs st)).

(** [scheduled_for_eviction] *)
Definition is_scheduled (self : StorageManager P) (id : Z) : bool :=
  match pages self !! id with
  | Some p => match controllers self !! page_level p with Some c => bool_decide (id ∈ node_refs c) | None => false end
  | None => false
  end.

Definition with_status (p : Page) (s : PageStatus) : Page :=
  mkPageObj (page_slot p) (page_life_cycle p) (page_level p) (page_priority p) s (is_committed p).
Definition with_event (p : Page) (ev : Event) : Page :=
  mkPageObj (mkSlot (_slot_id (page_slot p)) ev) (page_life_cycle p) (page_level p) (page_priority p) (status p) (is_committed p).

(** The page's references and with them its status. *)
Definition update_refs (st : PageTable) (id : Z) (r : Refs) : result PageTable :=
  p ← get_page (storage st) id;
  Ok (set_refs (set_storage st (set_pages (storage st) (<[id := with_status p (status_of r)]> (pages (storage st))))) id r).

Definition exclude (st : PageTable) (id : Z) : result PageTable :=
  self ← exclude_from_eviction (storage st) id; Ok (set_storage st self).
Definition schedule (st : PageTable) (id : Z) : result PageTable :=
  self ← schedule_for_eviction (storage st) id; Ok (set_storage st self).

(** A page without references dies. *)
Definition collect (st : PageTable) (id : Z) : result PageTable :=
  r ← get_refs st id;
  if (page_refs r =? 0) && negb (has_holder r) && negb (is_scheduled (storage st) id) then
    self ← drop_page (storage st) id;
    Ok (mkTable self (base.delete id (refs st)))
  else Ok st.

(** [Page.hold]; the caller has a reference to the holder. *)
Definition hold (st : PageTable) (id : Z) : result PageTable :=
  r ← get_refs st id;
  let r' := mkRefs (page_refs r) (holder_refs r + 1) (shared_locks r) (attached r) (scratch r) in
  if has_holder r then update_refs st id r'
  else
    st ← update_refs st id r';
    p ← get_page (storage st) id;
    if is_scheduled (storage st) id && negb (is_evictable (storage st) p None) then
      st ← exclude st id;
      _ ← py_assert (negb (is_scheduled (storage st) id));
      Ok st
    else Ok st.

(** [_PageHolder.__del__], when the references to the holder are gone. *)
Definition holder_del (st : PageTable) (id : Z) : result PageTable :=
  r ← get_refs st id;
  p ← get_page (storage st) id;
  if is_committed p then
    st ← (if is_scheduled (storage st) id then Ok st else schedule st id);
    if attached r then Ok st else exclude st id
  else if is_scheduled (storage st) id then exclude st id
  else Ok st.

(** A reference to the holder disappears. *)
Definition release_holder (st : PageTable) (id : Z) : result PageTable :=
  r ← get_refs st id;
  let r' := mkRefs (page_refs r) (holder_refs r - 1) (shared_locks r) (attached r) (scratch r) in
  st ← update_refs st id r';
  if has_holder r' then Ok st
  else st ← holder_del st id; collect st id.

(** [Page.lock]: the page is held, locked, and the holder is left to the lock.  The
    result is false if [ValueError] is raised: only pages of the first level can be
    locked. *)
Definition lock (st : PageTable) (id : Z) : result (bool * PageTable) :=
  st ← hold st id;
  r ← get_refs st id;
  p ← get_page (storage st) id;
  if (shared_locks r =? 0) && negb (page_level p =? 0) then
    st ← release_holder st id;
    Ok (false, st)
  else
    st ← update_refs st id (mkRefs (page_refs r) (holder_refs r - 1) (shared_locks r + 1) (attached r) (scratch r));
    if is_scheduled (storage st) id then
      st ← exclude st id;
      _ ← py_assert (negb (is_scheduled (storage st) id));
      Ok (true, st)
    else Ok (true, st).

(** [_UniqPageLock.__del__], when the last shared lock is gone: the page gets the
    event [ev] after the work of its users, and is queued again. *)
Definition uniq_lock_del (ev : Event) (st : PageTable) (id : Z) : result PageTable :=
  r ← get_refs st id;
  p ← get_page (storage st) id;
  let st := set_storage st (set_pages (storage st) (<[id := with_event p ev]> (pages (storage st)))) in
  st ← (if has_holder r then Ok st else holder_del st id);
  p ← get_page (storage st) id;
  if negb (bool_decide (status p = DROPPABLE)) && is_evictable (storage st) p None then schedule st id else Ok st.

(** [_SharedPageLock.unlock] *)
Definition unlock (ev : Event) (st : PageTable) (id : Z) : result PageTable :=
  r ← get_refs st id;
  let r' := mkRefs (page_refs r) (holder_refs r) (shared_locks r - 1) (attached r) (scratch r) in
  st ← update_refs st id r';
  if shared_locks r' =? 0 then
    st ← uniq_lock_del ev st id;
    collect st id
  else Ok st.

(** Strong references to the page object. *)
Definition take_page (st : PageTable) (id : Z) : result PageTable :=
  r ← get_refs st id;
  update_refs st id (mkRefs (page_refs r + 1) (holder_refs r) (shared_locks r) (attached r) (scratch r)).

Definition release_page (st : PageTable) (id : Z) : result PageTable :=
  r ← get_refs st id;
  st ← update_refs st id (mkRefs (page_refs r - 1) (holder_refs r) (shared_locks r) (attached r) (scratch r));
  collect st id.

(** [UncommittedPage.convert_to_committed]: the slot moves to the committed page
    [new_id], the page it came from is no more. *)
Definition convert_to_committed (ev : Event) (st : PageTable) (id new_id : Z) : result PageTable :=
  p ← get_page (storage st) id;
  _ ← py_assert (negb (is_scheduled (storage st) id));
  _ ← py_assert (bool_decide (status p = DROPPABLE));
  '(slot, old) ← set_slot (mkSlot None None) (mkSlot (_slot_id (page_slot p)) ev);
  let q := mkPageObj slot (page_life_cycle p) (page_level p) (page_priority p) DROPPABLE true in
  _ ← py_assert (negb (has_valid_slot old));
  _ ← py_assert (has_valid_slot (page_slot q));
  Ok (mkTable (set_pages (storage st) (<[new_id := q]> (base.delete id (pages (storage st)))))
              (<[new_id := mkRefs 1 0 0 true false]> (base.delete id (refs st)))).

(** A committed page is queued when it is not taken into use. *)
Definition schedule_page (st : PageTable) (id : Z) : result PageTable := schedule st id.

(** The block of a page leaves the tree. *)
Definition detach (st : PageTable) (id : Z) : result PageTable :=
  r ← get_refs st id;
  st ← update_refs st id (mkRefs (page_refs r) (holder_refs r) (shared_locks r) false (scratch r));
  p ← get_page (storage st) id;
  if bool_decide (status p = DROPPABLE) && is_scheduled (storage st) id then
    st ← exclude st id;
    collect st id
  else Ok st.

(** New slots, for pages ([UncommittedPage.__init__]) or as scratch space
    ([ScratchSlotLock.__init__]). *)
Definition add_slot (level : Z) (is_scratch : bool) (st : PageTable) (x : (Z * Z) * (Z * Slot)) : result PageTable :=
  let '((id, prio), (lc, slot)) := x in
  '(slot, _) ← set_slot (mkSlot None None) slot;
  let r := if is_scratch then mkRefs 0 0 1 false true else mkRefs 1 0 0 false false in
  let p := mkPageObj slot lc level prio (status_of r) false in
  Ok (mkTable (set_pages (storage st) (<[id := p]> (pages (storage st)))) (<[id := r]> (refs st))).

(** The references to pages that are left. *)
Definition prune (st : PageTable) (self : StorageManager P) : PageTable :=
  mkTable self (filter (fun kv : Z * Refs => is_Some (pages self !! kv.1)) (refs st)).

(** Slots for the life cycles; [ids] are the new entries with their priorities. *)
Definition allocate (ev : Event) (st : PageTable) (level : Z) (is_scratch : bool) (num_slots : list Z) (ids : list (Z * Z))
    : result PageTable :=
  '(ret, self) ← new_slots ev (storage st) level num_slots;
  let slots := concat (imap (fun lc slots => (fun s => (Z.of_nat lc, s)) <$> slots) ret) in
  for_each (add_slot level is_scratch) (prune st self) (zip ids slots).

(** [ScratchSlotLock.unlock] *)
Definition release_scratch (ev : Event) (st : PageTable) (id : Z) : result PageTable :=
  p ← get_page (storage st) id;
  _ ← py_assert (has_valid_slot (page_slot p));
  self ← release_slot (storage st) (page_life_cycle p) 0 (mkSlot (_slot_id (page_slot p)) ev);
  Ok (mkTable (set_pages self (base.delete id (pages self))) (base.delete id (refs st))).

(** [ScratchSlotLock.detach_slot]: the slot becomes the slot of a page. *)
Definition detach_slot (st : PageTable) (id : Z) : result PageTable :=
  p ← get_page (storage st) id;
  _ ← py_assert (has_valid_slot (page_slot p));
  update_refs st id (mkRefs 1 0 0 false false).

(** Room is made on a level. *)
Definition make_room (ev : Event) (st : PageTable) (level : Z) (requirements : list Z) : result PageTable :=
  self ← prepare_free_slots ev (storage st) level requirements;
  Ok (prune st self).

(** The operations on the table. *)
Inductive Op :=
| Hold (id : Z)
| ReleaseHolder (id : Z)
| Lock (id : Z)
| Unlock (ev : Event) (id : Z)
| TakePage (id : Z)
| ReleasePage (id : Z)
| ConvertToCommitted (ev : Event) (id new_id : Z)
| SchedulePage (id : Z)
| Detach (id : Z)
| Allocate (ev : Event) (level : Z) (is_scratch : bool) (num_slots : list Z) (ids : list (Z * Z))
| ReleaseScratch (ev : Event) (id : Z)
| DetachSlot (id : Z)
| MakeRoom (ev : Event) (level : Z) (requirements : list Z).

Definition exec (st : PageTable) (op : Op) : result PageTable :=
  match op with
  | Hold id => hold st id
  | ReleaseHolder id => release_holder st id
  | Lock id => '(_, st') ← lock st id; Ok st'
  | Unlock ev id => unlock ev st id
  | TakePage id => take_page st id
  | ReleasePage id => release_page st id
  | ConvertToCommitted ev id new_id => convert_to_committed ev st id new_id
  | SchedulePage id => schedule_page st id
  | Detach id => detach st id
  | Allocate ev level is_scratch num_slots ids => allocate ev st level is_scratch num_slots ids
  | ReleaseScratch ev id => release_scratch ev st id
  | DetachSlot id => detach_slot st id
  | MakeRoom ev level requirements => make_room ev st level requirements
  end.

End locks.

Arguments PageTable P : clear implicits.

(** ** The invariant *)

Section proofs.
Context {P : Type} `{Hlaws : SlotPoolLaws P}.
Implicit Types st : PageTable P.

Abbreviation group_of self page := (get_pool_group_index self (page_life_cycle page)).

Definition refs_ok (r : Refs) : Prop := 0 <= page_refs r /\ 0 <= holder_refs r /\ 0 <= shared_locks r.

(** The storage is in order, pages and references belong together, a page's status
    is what its references say, and only pages of the first level are locked. *)
Record table_wf (h : Z * Z -> gset Z) st : Prop := {
  k_storage : storage_ok h (storage st);
  k_dom : forall id, is_Some (pages (storage st) !! id) <-> is_Some (refs st !! id);
  k_refs : forall id page r, pages (storage st) !! id = Some page -> refs st !! id = Some r ->
    refs_ok r /\ status page = status_of r /\ (0 < shared_locks r -> page_level page = 0);
}.

(** A page that nobody refers to is queued. *)
Definition no_leak st (id : Z) : Prop :=
  forall r, refs st !! id = Some r -> page_refs r = 0 -> has_holder r = false -> scheduled (storage st) id.

Definition table_ok (h : Z * Z -> gset Z) st : Prop := table_wf h st /\ forall id, no_leak st id.

(** Nothing but the page [id] has changed. *)
Definition frame (id : Z) st st' : Prop :=
  same_shape (storage st) (storage st')
  /\ forall id', id' <> id -> pages (storage st') !! id' = pages (storage st) !! id' /\ refs st' !! id' = refs st !! id'
       /\ (scheduled (storage st') id' <-> scheduled (storage st) id').

Lemma frame_refl id st : frame id st st.
Proof. done. Qed.

Lemma frame_trans id st1 st2 st3 : frame id st1 st2 -> frame id st2 st3 -> frame id st1 st3.
Proof.
  intros [S1 F1] [S2 F2]. split; [by eapply same_shape_trans|]. intros id' Hne.
  destruct (F1 id' Hne) as (<- & <- & <-). by apply F2.
Qed.

Lemma frame_ok h h' id st st' : table_ok h st -> table_wf h' st' -> frame id st st' -> no_leak st' id -> table_ok h' st'.
Proof.
  intros [_ Hl] Hwf [_ Hf] Hid. split; [done|]. intros id'. destruct (decide (id' = id)) as [->|Hne]; [done|].
  destruct (Hf id' Hne) as (_ & Hr & Hs). intros r Hr' Hp Hh. rewrite Hr in Hr'. apply Hs. by apply (Hl id' r).
Qed.

Lemma refs_of h st id page : table_wf h st -> pages (storage st) !! id = Some page ->
  exists r, refs st !! id = Some r /\ refs_ok r /\ status page = status_of r /\ (0 < shared_locks r -> page_level page = 0).
Proof.
  intros Hwf Hp. destruct (proj1 (k_dom _ _ Hwf id) (mk_is_Some _ _ Hp)) as [r Hr]. exists r. split; [done|]. by apply (k_refs _ _ Hwf id).
Qed.

Lemma page_of h st id r : table_wf h st -> refs st !! id = Some r -> exists page, pages (storage st) !! id = Some page.
Proof. intros Hwf Hr. exact (proj2 (k_dom _ _ Hwf id) (mk_is_Some _ _ Hr)). Qed.

Lemma group_known h self id page : storage_ok h self -> pages self !! id = Some page -> exists g, group_of self page = Ok g.
Proof. intros Hok Hp. destruct (s_page _ _ Hok _ _ Hp) as (g & i & _ & Hg & _). eauto. Qed.

Lemma is_scheduled_spec h self id page :
  storage_ok h self -> pages self !! id = Some page -> is_scheduled self id = true <-> scheduled self id.
Proof.
  intros Hok Hp. unfold is_scheduled. rewrite Hp. split.
  - destruct (controllers self !! page_level page) as [c|] eqn:Hc; [|done]. intros Hin. bool_to_prop. by exists (page_level page), c.
  - intros (l & c & Hc & Hin). rewrite (scheduled_level _ _ _ _ _ _ Hok Hc Hin Hp), Hc. by apply bool_decide_true.
Qed.

Lemma not_scheduled h self id page :
  storage_ok h self -> pages self !! id = Some page -> is_scheduled self id = false -> ~ scheduled self id.
Proof. intros Hok Hp Hf Hs. apply (is_scheduled_spec _ _ _ _ Hok Hp) in Hs. congruence. Qed.

Lemma queued_evictable h self id page :
  storage_ok h self -> pages self !! id = Some page -> scheduled self id -> is_evictable self page None = true.
Proof.
  intros Hok Hp (l & c & Hc & Hin). destruct (s_ctrl _ _ Hok l) as (c' & Hc' & Hcok & _); [by eapply s_levels|].
  rewrite Hc in Hc'. injection Hc' as <-. rewrite (c_refs _ Hcok) in Hin.
  apply elem_of_list_to_set, list_elem_of_fmap in Hin as (e & -> & He).
  destruct (s_queue _ _ Hok _ _ _ Hc He) as (page' & Hp' & _ & Hev). congruence.
Qed.

(** ** Changing a page in place *)

Definition same_place (page page' : Page) : Prop :=
  _slot_id (page_slot page') = _slot_id (page_slot page) /\ page_level page' = page_level page
  /\ page_life_cycle page' = page_life_cycle page /\ page_priority page' = page_priority page.

Lemma set_page_ok h self id page page' :
  storage_ok h self -> pages self !! id = Some page -> same_place page page' ->
  (scheduled self id -> is_evictable self page' None = true) ->
  storage_ok h (set_pages self (<[id := page']> (pages self))).
Proof.
  intros Hok Hp (Hs & Hl & Hlc & Hpr) Hev.
  assert (Hlook : forall id' q, <[id := page']> (pages self) !! id' = Some q -> exists q0, pages self !! id' = Some q0 /\ same_place q0 q).
  { intros id' q [[<- <-]|[_ Hq]]%lookup_insert_Some; [by exists page|by exists q]. }
  split; simpl; [apply (s_pool _ _ Hok)|apply (s_ctrl _ _ Hok)|apply (s_levels _ _ Hok)| | |].
  - intros id' q Hq. destruct (Hlook _ _ Hq) as (q0 & Hq0 & (-> & -> & -> & _)). by apply (s_page _ _ Hok id').
  - intros id1 id2 p1 p2 g H1 H2. destruct (Hlook _ _ H1) as (q1 & Hq1 & (-> & -> & -> & _)).
    destruct (Hlook _ _ H2) as (q2 & Hq2 & (-> & -> & -> & _)). by apply (s_inj _ _ Hok id1 id2 q1 q2).
  - intros l c e Hc He. destruct (s_queue _ _ Hok l c e Hc He) as (q & Hq & Heq & Hevq).
    destruct (decide (page_id e = id)) as [Hid|Hne].
    + exists page'. rewrite Hid, lookup_insert_eq. split; [done|]. rewrite Hid, Hp in Hq. injection Hq as <-. split.
      * rewrite Heq, Hid. unfold as_evictable. by rewrite Hl, Hlc, Hpr.
      * apply Hev. rewrite <- Hid. by eapply queued_scheduled.
    + exists q. by rewrite lookup_insert_ne.
Qed.

Lemma get_page_eq (self : StorageManager P) id p : pages self !! id = Some p -> get_page self id = Ok p.
Proof. intros Hp. unfold get_page. by rewrite Hp. Qed.

Lemma get_refs_eq st id r : refs st !! id = Some r -> get_refs st id = Ok r.
Proof. intros Hr. unfold get_refs. by rewrite Hr. Qed.

Definition upd st id p (r : Refs) : PageTable P :=
  set_refs (set_storage st (set_pages (storage st) (<[id := with_status p (status_of r)]> (pages (storage st))))) id r.

Lemma update_refs_eq st id p r : pages (storage st) !! id = Some p -> update_refs st id r = Ok (upd st id p r).
Proof. intros Hp. unfold update_refs, get_page. by rewrite Hp. Qed.

Lemma scheduled_upd st id p r id' : scheduled (storage (upd st id p r)) id' <-> scheduled (storage st) id'.
Proof. done. Qed.

Lemma is_scheduled_upd st id p r :
  pages (storage st) !! id = Some p -> is_scheduled (storage (upd st id p r)) id = is_scheduled (storage st) id.
Proof. intros Hp. unfold is_scheduled. simpl. by rewrite lookup_insert_eq, Hp. Qed.

Lemma upd_frame st id p r : frame id st (upd st id p r).
Proof. split; [done|]. intros id' Hne. simpl. by rewrite !lookup_insert_ne. Qed.

Lemma upd_page st id p r :
  pages (storage (upd st id p r)) !! id = Some (with_status p (status_of r)) /\ refs (upd st id p r) !! id = Some r.
Proof. simpl. by rewrite !lookup_insert_eq. Qed.

Lemma upd_wf h st id p r :
  table_wf h st -> pages (storage st) !! id = Some p -> refs_ok r -> (0 < shared_locks r -> page_level p = 0) ->
  (scheduled (storage st) id -> is_evictable (storage st) (with_status p (status_of r)) None = true) ->
  table_wf h (upd st id p r).
Proof.
  intros Hwf Hp Hr Hl Hev. split.
  - by apply (set_page_ok h (storage st) id p); [apply Hwf| | |].
  - intros id'. simpl. destruct (decide (id' = id)) as [->|Hne]; [rewrite !lookup_insert_eq; split; eauto|].
    rewrite !lookup_insert_ne by done. apply (k_dom _ _ Hwf).
  - intros id' page r'. simpl. destruct (decide (id' = id)) as [->|Hne].
    + rewrite !lookup_insert_eq. intros [= <-] [= <-]. done.
    + rewrite !lookup_insert_ne by done. apply (k_refs _ _ Hwf).
Qed.

Lemma set_storage_wf h h' st self :
  table_wf h st -> storage_ok h' self -> pages self = pages (storage st) -> table_wf h' (set_storage st self).
Proof. intros Hwf Hok Hp. split; simpl; rewrite ?Hp; [done|apply (k_dom _ _ Hwf)|apply (k_refs _ _ Hwf)]. Qed.

(** ** Queues *)

Lemma exclude_wf h st id p :
  table_wf h st -> pages (storage st) !! id = Some p -> scheduled (storage st) id ->
  exists st', exclude st id = Ok st' /\ table_wf h st' /\ frame id st st' /\ ~ scheduled (storage st') id
    /\ pages (storage st') = pages (storage st) /\ refs st' = refs st.
Proof.
  intros Hwf Hp Hs. pose proof (k_storage _ _ Hwf) as Hok.
  destruct (exclude_spec h (storage st) id p Hok Hp Hs) as (c & c' & Hc & Hrefs & He & Hok' & Hns).
  exists (set_storage st (set_controller (storage st) (page_level p) c')). unfold exclude. rewrite He.
  split; [done|]. split; [by eapply set_storage_wf|]. split; [|done]. split; [done|]. intros id' Hne. split; [done|]. split; [done|].
  simpl. rewrite (scheduled_insert (storage st) _ c) by done. rewrite Hrefs. split.
  - intros [[Hin _]%elem_of_difference|(l & c0 & _ & Hc0 & Hin)]; [by exists (page_level p), c|by exists l, c0].
  - intros (l & c0 & Hc0 & Hin). destruct (decide (l = page_level p)) as [->|Hl]; [left; simplify_eq; set_solver|right; by exists l, c0].
Qed.

Lemma schedule_wf h st id p :
  table_wf h st -> pages (storage st) !! id = Some p -> ~ scheduled (storage st) id -> is_evictable (storage st) p None = true ->
  exists st', schedule st id = Ok st' /\ table_wf h st' /\ frame id st st' /\ scheduled (storage st') id
    /\ pages (storage st') = pages (storage st) /\ refs st' = refs st.
Proof.
  intros Hwf Hp Hs Hev. pose proof (k_storage _ _ Hwf) as Hok. destruct (group_known _ _ _ _ Hok Hp) as [g Hg].
  destruct (controller_schedule_spec h (storage st) id p g Hok Hp Hg Hs Hev) as (c & c' & Hc & Hrefs & He & Hok').
  exists (set_storage st (set_controller (storage st) (page_level p) c')). unfold schedule, schedule_for_eviction, get_page. rewrite Hp.
  cbn [mbind result_bind]. rewrite Hev, He. split; [done|]. split; [by eapply set_storage_wf|].
  assert (Hsch : forall id', scheduled (storage (set_storage st (set_controller (storage st) (page_level p) c'))) id'
                   <-> id' = id \/ scheduled (storage st) id').
  { intros id'. simpl. rewrite (scheduled_insert (storage st) _ c) by done. rewrite Hrefs. split.
    - intros [[->%elem_of_singleton|Hin]%elem_of_union|(l & c0 & _ & Hc0 & Hin)]; [by left|right; by exists (page_level p), c|right; by exists l, c0].
    - intros [->|(l & c0 & Hc0 & Hin)]; [left; set_solver|].
      destruct (decide (l = page_level p)) as [->|]; [left; simplify_eq; set_solver|right; by exists l, c0]. }
  split; [|split; [apply Hsch; by left|done]]. split; [done|]. intros id' Hne. split; [done|]. split; [done|].
  rewrite Hsch. split; [by intros [|]|by right].
Qed.

(** Leaving the queue does not depend on the status. *)
Lemma exclude_upd st id p r st1 :
  pages (storage st) !! id = Some p -> exclude st id = Ok st1 -> exclude (upd st id p r) id = Ok (upd st1 id p r).
Proof.
  intros Hp. unfold exclude, exclude_from_eviction, get_page. simpl. rewrite lookup_insert_eq, Hp. cbn [mbind result_bind].
  change (get_controller (set_pages _ _) (page_level (with_status p (status_of r)))) with (get_controller (storage st) (page_level p)).
  destruct (get_controller (storage st) (page_level p)) as [c|]; [|done]. cbn [mbind result_bind].
  change (as_evictable id (with_status p (status_of r))) with (as_evictable id p).
  destruct (remove c (as_evictable id p)) as [c'|]; [|done]. cbn [mbind result_bind]. by intros [= <-].
Qed.

(** A page changes its status and leaves the queue. *)
Lemma upd_exclude_wf h st id p r :
  table_wf h st -> pages (storage st) !! id = Some p -> scheduled (storage st) id -> refs_ok r -> (0 < shared_locks r -> page_level p = 0) ->
  exists st', exclude (upd st id p r) id = Ok st' /\ table_wf h st' /\ frame id st st' /\ ~ scheduled (storage st') id
    /\ pages (storage st') !! id = Some (with_status p (status_of r)) /\ refs st' !! id = Some r.
Proof.
  intros Hwf Hp Hs Hr Hl. destruct (exclude_wf h st id p Hwf Hp Hs) as (st1 & He & Hwf1 & Hf1 & Hns & Hp1 & Hr1).
  exists (upd st1 id p r). split; [by apply exclude_upd|]. split; [apply upd_wf; [done|by rewrite Hp1|done|done|done]|].
  split; [eapply frame_trans; [done|apply upd_frame]|]. split; [done|]. apply upd_page.
Qed.

(** ** Operations *)

(** What an operation on the page [id] guarantees. *)
Definition op_spec (id : Z) st (res : result (PageTable P)) : Prop :=
  exists h' st', res = Ok st' /\ table_wf h' st' /\ frame id st st' /\ no_leak st' id.

Lemma op_spec_frame id st st1 res : frame id st st1 -> op_spec id st1 res -> op_spec id st res.
Proof. intros Hf (h' & st' & Hr & Hwf & Hf' & Hl). exists h', st'. split; [done|]. split; [done|]. split; [by eapply frame_trans|done]. Qed.

Lemma collect_spec h st id p r :
  table_wf h st -> pages (storage st) !! id = Some p -> refs st !! id = Some r -> op_spec id st (collect st id).
Proof.
  intros Hwf Hp Hr. pose proof (k_storage _ _ Hwf) as Hok. unfold collect, get_refs. rewrite Hr. cbn [mbind result_bind].
  destruct ((page_refs r =? 0) && negb (has_holder r) && negb (is_scheduled (storage st) id)) eqn:Hdead.
  - apply andb_prop in Hdead as [Hdead Hns]. apply negb_true_iff in Hns. apply (not_scheduled _ _ _ _ Hok Hp) in Hns.
    destruct (group_known _ _ _ _ Hok Hp) as [g Hg].
    destruct (drop_page_spec h (storage st) id p g Hok Hp Hns Hg) as (h' & self' & Hd & Hok' & Hsh & Hc & Hpg & _).
    rewrite Hd. cbn [mbind result_bind]. exists h', (mkTable self' (base.delete id (refs st))). split; [done|].
    split; [|split].
    + split; simpl; [done| |]; rewrite Hpg.
      * intros id'. destruct (decide (id' = id)) as [->|Hne]; [rewrite !lookup_delete_eq; split; intros [? ?]; done|].
        rewrite !lookup_delete_ne by done. apply (k_dom _ _ Hwf).
      * intros id' page r' [_ Hp']%lookup_delete_Some [_ Hr']%lookup_delete_Some. by apply (k_refs _ _ Hwf id').
    + split; [done|]. intros id' Hne. simpl. rewrite Hpg, !lookup_delete_ne by done. split; [done|]. split; [done|].
      unfold scheduled. by rewrite Hc.
    + intros r' Hr'. simpl in Hr'. by rewrite lookup_delete_eq in Hr'.
  - exists h, st. split; [done|]. split; [done|]. split; [done|]. intros r' Hr' Hp0 Hh. rewrite Hr in Hr'. injection Hr' as <-.
    rewrite Hp0, Hh, Z.eqb_refl in Hdead. simpl in Hdead. apply negb_false_iff in Hdead. by apply (is_scheduled_spec _ _ _ _ Hok Hp).
Qed.

Lemma holder_no_leak st id r : refs st !! id = Some r -> has_holder r = true -> no_leak st id.
Proof. intros Hr Hh r' Hr' _ Hn. congruence. Qed.

Lemma status_held r r' : has_holder r = true -> has_holder r' = true -> shared_locks r' = shared_locks r -> status_of r' = status_of r.
Proof. unfold status_of. by intros -> -> ->. Qed.

Lemma with_own_status p : with_status p (status p) = p.
Proof. by destruct p. Qed.

(** [hold] on a page of the table. *)
Lemma hold_run h st id p r :
  table_wf h st -> pages (storage st) !! id = Some p -> refs st !! id = Some r ->
  let r' := mkRefs (page_refs r) (holder_refs r + 1) (shared_locks r) (attached r) (scratch r) in
  exists st', hold st id = Ok st' /\ table_wf h st' /\ frame id st st'
    /\ pages (storage st') !! id = Some (with_status p (status_of r')) /\ refs st' !! id = Some r'.
Proof.
  intros Hwf Hp Hr r'. destruct (k_refs _ _ Hwf _ _ _ Hp Hr) as ((H1 & H2 & H3) & Hst & Hl).
  pose proof (k_storage _ _ Hwf) as Hok.
  assert (Hok' : refs_ok r') by (split; [|split]; simpl; lia).
  assert (Hh' : has_holder r' = true) by (unfold has_holder; simpl; apply orb_true_iff; left; lia).
  unfold hold, get_refs. rewrite Hr. cbn [mbind result_bind]. fold r'. rewrite (update_refs_eq st id p r' Hp).
  destruct (has_holder r) eqn:Hh.
  - exists (upd st id p r'). split; [done|]. split; [|split; [apply upd_frame|apply upd_page]].
    apply upd_wf; [done|done|done|done|]. intros Hs. rewrite (status_held r r'), <- Hst, with_own_status by done. by eapply queued_evictable.
  - cbn [mbind result_bind]. unfold get_page at 1. rewrite (proj1 (upd_page st id p r')). cbn [mbind result_bind].
    rewrite is_scheduled_upd by done. destruct (is_scheduled (storage st) id) eqn:Hs; simpl.
    + apply (is_scheduled_spec _ _ _ _ Hok Hp) in Hs. destruct (is_evictable _ _ None) eqn:Hev.
      * exists (upd st id p r'). split; [done|]. split; [|split; [apply upd_frame|apply upd_page]].
        by apply upd_wf.
      * destruct (upd_exclude_wf h st id p r') as (st' & He & Hwf' & Hf & Hns & Hp' & Hr'); [done..|]. simpl. rewrite He. cbn [mbind result_bind].
        assert (is_scheduled (storage st') id = false) as ->.
        { apply not_true_iff_false. intros Hx. apply Hns. by apply (is_scheduled_spec _ _ _ _ (k_storage _ _ Hwf') Hp'). }
        cbn [py_assert mbind result_bind negb]. by exists st'.
    + exists (upd st id p r'). split; [done|]. split; [|split; [apply upd_frame|apply upd_page]].
      apply upd_wf; [done..|]. intros Hx. by apply (not_scheduled _ _ _ _ Hok Hp) in Hs.
Qed.

Lemma hold_spec h st id r : table_wf h st -> refs st !! id = Some r -> op_spec id st (hold st id).
Proof.
  intros Hwf Hr. destruct (page_of _ _ _ _ Hwf Hr) as [q Hq]. destruct (hold_run h st id q r Hwf Hq Hr) as (st' & He & Hwf' & Hf & Hp & Hr').
  exists h, st'. split; [done|]. split; [done|]. split; [done|]. eapply holder_no_leak; [done|].
  destruct (page_of _ _ _ _ Hwf Hr) as [p0 Hp0]. destruct (k_refs _ _ Hwf _ _ _ Hp0 Hr) as ((H1 & H2 & H3) & _).
  unfold has_holder. simpl. apply orb_true_iff. left. lia.
Qed.

Lemma droppable_evictable (self : StorageManager P) p : is_committed p = true -> is_evictable self (with_status p DROPPABLE) None = true.
Proof. intros Hc. unfold is_evictable. simpl. by rewrite Hc. Qed.

(** The holder dies: a committed page whose block is in the tree is queued, any
    other is not. *)
Lemma holder_del_run h st id p r :
  table_wf h st -> pages (storage st) !! id = Some p -> refs_ok r -> has_holder r = false ->
  exists st', holder_del (upd st id p r) id = Ok st' /\ table_wf h st' /\ frame id st st'
    /\ pages (storage st') !! id = Some (with_status p DROPPABLE) /\ refs st' !! id = Some r.
Proof.
  intros Hwf Hp Hrok Hh. pose proof (k_storage _ _ Hwf) as Hok.
  assert (Hst : status_of r = DROPPABLE) by (unfold status_of; by rewrite Hh).
  assert (Hl : 0 < shared_locks r -> page_level p = 0).
  { unfold has_holder in Hh. apply orb_false_iff in Hh as [_ Hh]. bool_to_prop. lia. }
  destruct (upd_page st id p r) as [Hup Hur]. pose proof (upd_frame st id p r) as Huf.
  unfold holder_del, get_refs, get_page. rewrite Hur. cbn [mbind result_bind]. rewrite Hup. cbn [mbind result_bind].
  rewrite is_scheduled_upd by done. change (is_committed (with_status p (status_of r))) with (is_committed p).
  rewrite Hst in *. destruct (is_committed p) eqn:Hc.
  - assert (Huw : table_wf h (upd st id p r)).
    { apply upd_wf; [done..|]. intros _. rewrite Hst. by apply droppable_evictable. }
    assert (Hq : exists st1, (if is_scheduled (storage st) id then Ok (upd st id p r) else schedule (upd st id p r) id) = Ok st1
      /\ table_wf h st1 /\ frame id st st1 /\ scheduled (storage st1) id
      /\ pages (storage st1) = pages (storage (upd st id p r)) /\ refs st1 = refs (upd st id p r)).
    { destruct (is_scheduled (storage st) id) eqn:Hs.
      - exists (upd st id p r). split; [done|]. split; [done|]. split; [done|]. split; [|done]. by apply (is_scheduled_spec _ _ _ _ Hok Hp).
      - apply (not_scheduled _ _ _ _ Hok Hp) in Hs.
        destruct (schedule_wf h (upd st id p r) id (with_status p DROPPABLE)) as (st1 & He & Hwf1 & Hf1 & Hs1 & Hp1 & Hr1);
          [done|done|done|by apply droppable_evictable|].
        exists st1. split; [done|]. split; [done|]. split; [by eapply frame_trans|]. done. }
    destruct Hq as (st1 & -> & Hwf1 & Hf1 & Hs1 & Hp1 & Hr1). cbn [mbind result_bind]. destruct (attached r).
    + exists st1. split; [done|]. split; [done|]. split; [done|]. by rewrite Hp1, Hr1.
    + assert (Hp1' : pages (storage st1) !! id = Some (with_status p DROPPABLE)) by by rewrite Hp1.
      destruct (exclude_wf h st1 id _ Hwf1 Hp1' Hs1) as (st2 & He & Hwf2 & Hf2 & _ & Hp2 & Hr2).
      exists st2. split; [done|]. split; [done|]. split; [by eapply frame_trans|]. by rewrite Hp2, Hr2, Hr1.
  - destruct (is_scheduled (storage st) id) eqn:Hs.
    + apply (is_scheduled_spec _ _ _ _ Hok Hp) in Hs.
      destruct (upd_exclude_wf h st id p r) as (st' & He & Hwf' & Hf & _ & Hp' & Hr'); [done..|]. rewrite Hst in Hp'. by exists st'.
    + exists (upd st id p r). split; [done|]. split; [|done]. apply upd_wf; [done..|].
      intros Hx. by apply (not_scheduled _ _ _ _ Hok Hp) in Hs.
Qed.

Lemma release_holder_spec h st id r :
  table_wf h st -> refs st !! id = Some r -> 0 < holder_refs r -> op_spec id st (release_holder st id).
Proof.
  intros Hwf Hr Hpos. destruct (page_of _ _ _ _ Hwf Hr) as [p Hp]. destruct (k_refs _ _ Hwf _ _ _ Hp Hr) as ((H1 & H2 & H3) & Hst & Hl).
  unfold release_holder, get_refs. rewrite Hr. cbn [mbind result_bind].
  set (r' := mkRefs (page_refs r) (holder_refs r - 1) (shared_locks r) (attached r) (scratch r)).
  assert (Hrok : refs_ok r') by (split; [|split]; simpl; lia).
  rewrite (update_refs_eq st id p r' Hp). cbn [mbind result_bind]. destruct (has_holder r') eqn:Hh.
  - exists h, (upd st id p r'). split; [done|]. split; [|split; [apply upd_frame|eapply holder_no_leak; [apply upd_page|done]]].
    apply upd_wf; [done..|]. intros Hs. rewrite (status_held r r'), <- Hst, with_own_status; [by eapply queued_evictable; [apply Hwf|..]| |done|done].
    unfold has_holder. apply orb_true_iff. left. lia.
  - destruct (holder_del_run h st id p r' Hwf Hp Hrok Hh) as (st1 & -> & Hwf1 & Hf1 & Hp1 & Hr1). cbn [mbind result_bind].
    eapply op_spec_frame; [done|]. by eapply collect_spec.
Qed.

(** [lock]: the page is locked, or it is not on the first level and nothing changes. *)
Lemma locked_holder r : 0 < shared_locks r -> has_holder r = true.
Proof. intros Hl. unfold has_holder. apply orb_true_iff. right. by apply Z.ltb_lt. Qed.

Lemma locked_status r : 0 < shared_locks r -> status_of r = LOCKED.
Proof. intros Hl. unfold status_of. rewrite (locked_holder r Hl). simpl. by destruct (Z.eqb_spec (shared_locks r) 0); [lia|]. Qed.

(** A page of the first level is locked. *)
Lemma lock_run h st id p r :
  table_wf h st -> pages (storage st) !! id = Some p -> refs st !! id = Some r -> page_level p = 0 ->
  exists st', lock st id = Ok (true, st') /\ table_wf h st' /\ frame id st st' /\ pages (storage st') !! id = Some (with_status p LOCKED)
    /\ refs st' !! id = Some (mkRefs (page_refs r) (holder_refs r + 1 - 1) (shared_locks r + 1) (attached r) (scratch r)).
Proof.
  intros Hwf Hp Hr Hlev. destruct (k_refs _ _ Hwf _ _ _ Hp Hr) as ((H1 & H2 & H3) & _ & _).
  destruct (hold_run h st id p r Hwf Hp Hr) as (st1 & He & Hwf1 & Hf1 & Hp1 & Hr1). set (p1 := with_status p _) in Hp1.
  unfold lock. rewrite He. cbn [mbind result_bind].
  rewrite (get_refs_eq _ _ _ Hr1). cbn [mbind result_bind]. rewrite (get_page_eq _ _ _ Hp1). cbn [mbind result_bind].
  cbn [shared_locks page_refs holder_refs attached scratch]. change (page_level p1) with (page_level p). rewrite Hlev, andb_false_r.
  set (r2 := mkRefs (page_refs r) (holder_refs r + 1 - 1) (shared_locks r + 1) (attached r) (scratch r)).
  rewrite (update_refs_eq st1 id p1 r2 Hp1). cbn [mbind result_bind].
  assert (Hrok : refs_ok r2) by (split; [|split]; simpl; lia).
  assert (Hst2 : with_status p LOCKED = with_status p1 (status_of r2)) by (rewrite (locked_status r2) by (simpl; lia); done).
  rewrite Hst2, is_scheduled_upd by done. destruct (is_scheduled (storage st1) id) eqn:Hs.
  - apply (is_scheduled_spec _ _ _ _ (k_storage _ _ Hwf1) Hp1) in Hs.
    destruct (upd_exclude_wf h st1 id p1 r2) as (st' & Hex & Hwf' & Hf' & Hns & Hp' & Hr'); [done..|]. rewrite Hex. cbn [mbind result_bind].
    assert (is_scheduled (storage st') id = false) as ->.
    { apply not_true_iff_false. intros Hx. apply Hns. by apply (is_scheduled_spec _ _ _ _ (k_storage _ _ Hwf') Hp'). }
    exists st'. split; [done|]. split; [done|]. split; [by eapply frame_trans|done].
  - exists (upd st1 id p1 r2). split; [done|].
    split; [|split; [eapply frame_trans; [done|apply upd_frame]|apply upd_page]].
    apply upd_wf; [done..|]. intros Hx. by apply (not_scheduled _ _ _ _ (k_storage _ _ Hwf1) Hp1) in Hs.
Qed.

Lemma lock_spec h st id r :
  table_wf h st -> refs st !! id = Some r -> op_spec id st ('(_, st') ← lock st id; Ok st').
Proof.
  intros Hwf Hr. destruct (page_of _ _ _ _ Hwf Hr) as [p Hp]. destruct (k_refs _ _ Hwf _ _ _ Hp Hr) as ((H1 & H2 & H3) & _ & Hl).
  destruct (decide (page_level p = 0)) as [Hlev|Hlev].
  { destruct (lock_run h st id p r Hwf Hp Hr Hlev) as (st' & -> & Hwf' & Hf' & Hp' & Hr'). exists h, st'. split; [done|]. split; [done|].
    split; [done|]. eapply holder_no_leak; [done|]. apply locked_holder. simpl. lia. }
  destruct (hold_run h st id p r Hwf Hp Hr) as (st1 & He & Hwf1 & Hf1 & Hp1 & Hr1). unfold lock. rewrite He. cbn [mbind result_bind].
  rewrite (get_refs_eq _ _ _ Hr1). cbn [mbind result_bind]. rewrite (get_page_eq _ _ _ Hp1). cbn [mbind result_bind].
  cbn [shared_locks with_status page_level]. destruct (Z.eqb_spec (shared_locks r) 0) as [H0|H0]; [|exfalso; apply Hlev, Hl; lia].
  destruct (Z.eqb_spec (page_level p) 0); [done|]. simpl.
  destruct (release_holder_spec h st1 id _ Hwf1 Hr1) as (h' & st' & Hrel & Hwf' & Hf' & Hnl); [simpl; lia|].
  rewrite Hrel. exists h', st'. split; [done|]. split; [done|]. split; [by eapply frame_trans|done].
Qed.

(** The page with a new event. *)
Definition stamped st id p ev : PageTable P :=
  set_storage st (set_pages (storage st) (<[id := with_event p ev]> (pages (storage st)))).

Lemma stamped_wf h st id p ev :
  table_wf h st -> pages (storage st) !! id = Some p -> table_wf h (stamped st id p ev) /\ frame id st (stamped st id p ev).
Proof.
  intros Hwf Hp. split; [split|]; simpl.
  - apply (set_page_ok h (storage st) id p); [apply Hwf|done|done|]. intros Hs. exact (queued_evictable _ _ _ _ (k_storage _ _ Hwf) Hp Hs).
  - intros id'. destruct (decide (id' = id)) as [->|Hne]; [|rewrite lookup_insert_ne by done; apply (k_dom _ _ Hwf)].
    rewrite lookup_insert_eq, <- (k_dom _ _ Hwf), Hp. split; eauto.
  - intros id' q r Hq Hr. apply lookup_insert_Some in Hq as [[<- <-]|[_ Hq]]; [|by apply (k_refs _ _ Hwf id')].
    by apply (k_refs _ _ Hwf id p).
  - split; [done|]. intros id' Hne. simpl. by rewrite lookup_insert_ne.
Qed.

Lemma stamp_upd st id p r ev :
  set_storage (upd st id p r) (set_pages (storage (upd st id p r))
    (<[id := with_event (with_status p (status_of r)) ev]> (pages (storage (upd st id p r)))))
  = upd (stamped st id p ev) id (with_event p ev) r.
Proof. unfold upd, stamped, set_refs, set_storage, set_pages. simpl. by rewrite !insert_insert_eq. Qed.

Lemma uniq_lock_del_run h ev st id p r :
  table_wf h st -> pages (storage st) !! id = Some p -> ~ scheduled (storage st) id -> refs_ok r -> shared_locks r = 0 ->
  exists st' p', uniq_lock_del ev (upd st id p r) id = Ok st' /\ table_wf h st' /\ frame id st st'
    /\ pages (storage st') !! id = Some p' /\ refs st' !! id = Some r.
Proof.
  intros Hwf Hp Hns Hrok Hl0. destruct (upd_page st id p r) as [Hup Hur].
  destruct (stamped_wf h st id p ev Hwf Hp) as [Hwf0 Hf0].
  assert (Hp0 : pages (storage (stamped st id p ev)) !! id = Some (with_event p ev)) by (simpl; by rewrite lookup_insert_eq).
  unfold uniq_lock_del. rewrite (get_refs_eq _ _ _ Hur). cbn [mbind result_bind]. rewrite (get_page_eq _ _ _ Hup). cbn [mbind result_bind].
  rewrite stamp_upd. set (st0 := stamped st id p ev) in *. set (p0 := with_event p ev) in *.
  destruct (upd_page st0 id p0 r) as [Hup0 Hur0].
  destruct (has_holder r) eqn:Hh; cbn [mbind result_bind].
  - rewrite (get_page_eq _ _ _ Hup0). cbn [mbind result_bind].
    assert (Hst : status_of r = HELD) by (unfold status_of; by rewrite Hh, Hl0). rewrite Hst in *.
    assert (Hwf1 : table_wf h (upd st0 id p0 r)).
    { apply upd_wf; [done|done|done|lia|]. intros Hx. done. }
    destruct (is_evictable (storage (upd st0 id p0 r)) (with_status p0 HELD) None) eqn:Hev; simpl.
    + destruct (schedule_wf h (upd st0 id p0 r) id (with_status p0 HELD)) as (st' & He & Hwf' & Hf' & _ & Hp' & Hr'); [done|done|done|done|].
      exists st', (with_status p0 HELD). split; [done|]. split; [done|]. split; [|by rewrite Hp', Hr'].
      eapply frame_trans; [done|]. eapply frame_trans; [apply upd_frame|done].
    + exists (upd st0 id p0 r), (with_status p0 HELD). split; [done|]. split; [done|]. split; [|done].
      eapply frame_trans; [done|apply upd_frame].
  - destruct (holder_del_run h st0 id p0 r Hwf0 Hp0 Hrok Hh) as (st1 & -> & Hwf1 & Hf1 & Hp1 & Hr1). cbn [mbind result_bind].
    rewrite (get_page_eq _ _ _ Hp1). cbn [mbind result_bind]. exists st1, (with_status p0 DROPPABLE). split; [done|]. split; [done|].
    split; [by eapply frame_trans|done].
Qed.

Lemma locked_unqueued h st id p r :
  table_wf h st -> pages (storage st) !! id = Some p -> refs st !! id = Some r -> 0 < shared_locks r -> ~ scheduled (storage st) id.
Proof.
  intros Hwf Hp Hr Hl Hs. destruct (k_refs _ _ Hwf _ _ _ Hp Hr) as (_ & Hst & _).
  pose proof (queued_evictable _ _ _ _ (k_storage _ _ Hwf) Hp Hs) as Hev. unfold is_evictable in Hev. rewrite Hst in Hev.
  unfold status_of in Hev. assert (has_holder r = true) as Hh by (unfold has_holder; apply orb_true_iff; right; lia).
  rewrite Hh in Hev. simpl in Hev. rewrite (proj2 (Z.eqb_neq _ _)) in Hev by lia. done.
Qed.

Lemma unlock_spec h ev st id r :
  table_wf h st -> refs st !! id = Some r -> 0 < shared_locks r -> op_spec id st (unlock ev st id).
Proof.
  intros Hwf Hr Hpos. destruct (page_of _ _ _ _ Hwf Hr) as [p Hp]. destruct (k_refs _ _ Hwf _ _ _ Hp Hr) as ((H1 & H2 & H3) & Hst & Hl).
  pose proof (locked_unqueued _ _ _ _ _ Hwf Hp Hr Hpos) as Hns. unfold unlock, get_refs. rewrite Hr. cbn [mbind result_bind].
  set (r' := mkRefs (page_refs r) (holder_refs r) (shared_locks r - 1) (attached r) (scratch r)).
  assert (Hrok : refs_ok r') by (split; [|split]; simpl; lia).
  rewrite (update_refs_eq st id p r' Hp). cbn [mbind result_bind]. destruct (shared_locks r' =? 0) eqn:H0; bool_to_prop.
  - destruct (uniq_lock_del_run h ev st id p r' Hwf Hp Hns Hrok H0) as (st1 & p1 & -> & Hwf1 & Hf1 & Hp1 & Hr1). cbn [mbind result_bind].
    eapply op_spec_frame; [done|]. by eapply collect_spec.
  - exists h, (upd st id p r'). split; [done|]. split; [|split; [apply upd_frame|eapply holder_no_leak; [apply upd_page|]]].
    + apply upd_wf; [done|done|done| |done]. intros _. by apply Hl.
    + unfold has_holder. simpl in *. apply orb_true_iff. right. lia.
Qed.

(** Changes of the references to the page object keep its status. *)
Lemma page_refs_wf h st id p r n b :
  table_wf h st -> pages (storage st) !! id = Some p -> refs st !! id = Some r -> 0 <= n ->
  table_wf h (upd st id p (mkRefs n (holder_refs r) (shared_locks r) b (scratch r))).
Proof.
  intros Hwf Hp Hr Hn. destruct (k_refs _ _ Hwf _ _ _ Hp Hr) as ((H1 & H2 & H3) & Hst & Hl).
  apply upd_wf; [done|done|done|done|]. change (status_of _) with (status_of r). rewrite <- Hst, with_own_status.
  intros Hs. exact (queued_evictable _ _ _ _ (k_storage _ _ Hwf) Hp Hs).
Qed.

Lemma take_page_spec h st id r : table_wf h st -> refs st !! id = Some r -> op_spec id st (take_page st id).
Proof.
  intros Hwf Hr. destruct (page_of _ _ _ _ Hwf Hr) as [p Hp]. destruct (k_refs _ _ Hwf _ _ _ Hp Hr) as ((H1 & _ & _) & _ & _).
  unfold take_page, get_refs. rewrite Hr. cbn [mbind result_bind]. rewrite (update_refs_eq _ _ _ _ Hp).
  eexists h, _. split; [done|]. split; [apply page_refs_wf; [done|done|done|lia]|]. split; [apply upd_frame|].
  intros r' Hr' H0. simpl in Hr'. rewrite lookup_insert_eq in Hr'. injection Hr' as <-. simpl in H0. lia.
Qed.

Lemma release_page_spec h st id r :
  table_wf h st -> refs st !! id = Some r -> 0 < page_refs r -> op_spec id st (release_page st id).
Proof.
  intros Hwf Hr Hpos. destruct (page_of _ _ _ _ Hwf Hr) as [p Hp]. unfold release_page, get_refs. rewrite Hr. cbn [mbind result_bind].
  rewrite (update_refs_eq _ _ _ _ Hp). cbn [mbind result_bind]. eapply op_spec_frame; [apply upd_frame|].
  eapply collect_spec; [apply page_refs_wf; [done|done|done|lia]|apply upd_page..].
Qed.

Lemma schedule_page_spec h st id r :
  table_wf h st -> refs st !! id = Some r -> ~ scheduled (storage st) id -> no_leak st id -> op_spec id st (schedule_page st id).
Proof.
  intros Hwf Hr Hns Hnl. destruct (page_of _ _ _ _ Hwf Hr) as [p Hp]. unfold schedule_page.
  destruct (is_evictable (storage st) p None) eqn:Hev.
  - destruct (schedule_wf h st id p Hwf Hp Hns Hev) as (st' & He & Hwf' & Hf & Hs & _ & _). exists h, st'.
    split; [done|]. split; [done|]. split; [done|]. by intros r' _ _ _.
  - exists h, st. unfold schedule, schedule_for_eviction, get_page. rewrite Hp. cbn [mbind result_bind]. rewrite Hev.
    split; [by destruct st|done].
Qed.

Lemma detach_spec h st id r :
  table_wf h st -> refs st !! id = Some r -> no_leak st id -> op_spec id st (detach st id).
Proof.
  intros Hwf Hr Hnl. destruct (page_of _ _ _ _ Hwf Hr) as [p Hp]. destruct (k_refs _ _ Hwf _ _ _ Hp Hr) as ((H1 & _ & _) & Hst & _).
  unfold detach, get_refs. rewrite Hr. cbn [mbind result_bind]. rewrite (update_refs_eq _ _ _ _ Hp). cbn [mbind result_bind].
  set (r' := mkRefs (page_refs r) (holder_refs r) (shared_locks r) false (scratch r)).
  pose proof (page_refs_wf h st id p r (page_refs r) false Hwf Hp Hr H1) as Hwf1. fold r' in Hwf1. destruct (upd_page st id p r') as [Hup Hur].
  unfold get_page. rewrite Hup. cbn [mbind result_bind].
  destruct (bool_decide (status (with_status p (status_of r')) = DROPPABLE) && is_scheduled (storage (upd st id p r')) id) eqn:Hd.
  - apply andb_prop in Hd as [_ Hs]. apply (is_scheduled_spec _ _ _ _ (k_storage _ _ Hwf1) Hup) in Hs.
    destruct (exclude_wf h _ id _ Hwf1 Hup Hs) as (st1 & -> & Hwf2 & Hf2 & _ & Hp2 & Hr2). cbn [mbind result_bind].
    eapply op_spec_frame; [eapply frame_trans; [apply upd_frame|done]|]. eapply collect_spec; [done|by rewrite Hp2|by rewrite Hr2].
  - exists h, (upd st id p r'). split; [done|]. split; [done|]. split; [apply upd_frame|].
    intros r1 Hr1 H0 Hh. rewrite Hur in Hr1. injection Hr1 as <-. by apply (Hnl r).
Qed.

(** A new entry for a slot nobody owns. *)
Lemma add_page_ok h self id p g i :
  storage_ok h self -> pages self !! id = None -> 0 <= page_level p < num_cache_levels self -> group_of self p = Ok g -> 0 <= g < num_groups self ->
  _slot_id (page_slot p) = Some i -> unowned h self (page_level p) g i ->
  storage_ok h (set_pages self (<[id := p]> (pages self))).
Proof.
  intros Hok Hnew Hl Hg Hgr Hi [Hin Hun]. split; simpl; [apply (s_pool _ _ Hok)|apply (s_ctrl _ _ Hok)|apply (s_levels _ _ Hok)| | |].
  - intros id' q [[<- <-]|[_ Hq]]%lookup_insert_Some; [by exists g, i|by apply (s_page _ _ Hok id')].
  - intros id1 id2 p1 p2 g' H1 H2 Hlv Hg1 Hg2 Hs.
    apply lookup_insert_Some in H1 as [[<- <-]|[Hn1 H1]]; apply lookup_insert_Some in H2 as [[<- <-]|[Hn2 H2]]; [done|exfalso..|].
    + rewrite Hi in Hs. change (group_of self p = Ok g') in Hg1. assert (g' = g) as -> by congruence. by apply (Hun id2 p2 H2 (eq_sym Hlv) Hg2).
    + rewrite Hi in Hs. change (group_of self p = Ok g') in Hg2. assert (g' = g) as -> by congruence. by apply (Hun id1 p1 H1 Hlv Hg1).
    + by apply (s_inj _ _ Hok id1 id2 p1 p2 g').
  - intros l c e Hc He. destruct (s_queue _ _ Hok l c e Hc He) as (q & Hq & Hrest). exists q. rewrite lookup_insert_ne; [done|]. congruence.
Qed.

(** A page that is in no queue disappears and its slot is left. *)
Lemma forget_page_ok h self id p g i :
  storage_ok h self -> pages self !! id = Some p -> ~ scheduled self id -> group_of self p = Ok g -> _slot_id (page_slot p) = Some i ->
  storage_ok h (set_pages self (base.delete id (pages self))) /\ unowned h (set_pages self (base.delete id (pages self))) (page_level p) g i.
Proof.
  intros Hok Hp Hns Hg Hi. split; [split; simpl; [apply (s_pool _ _ Hok)|apply (s_ctrl _ _ Hok)|apply (s_levels _ _ Hok)| | |]|].
  - intros id' q [_ Hq]%lookup_delete_Some. by apply (s_page _ _ Hok id').
  - intros id1 id2 p1 p2 g' [_ H1]%lookup_delete_Some [_ H2]%lookup_delete_Some. by apply (s_inj _ _ Hok).
  - intros l c e Hc He. destruct (s_queue _ _ Hok l c e Hc He) as (q & Hq & Hrest). exists q. rewrite lookup_delete_ne; [done|].
    intros Heq. apply Hns. rewrite Heq. by eapply queued_scheduled.
  - destruct (page_owns _ _ _ _ _ Hok Hp Hg) as (_ & _ & i' & Hi' & Hin). split; [simpl; congruence|].
    simpl. intros id' q [Hne Hq]%lookup_delete_Some Hl Hgq Hs. change (group_of self q = Ok g) in Hgq. apply Hne. symmetry. apply (s_inj _ _ Hok id' id q p g); congruence.
Qed.

Lemma pages_insert_wf h self (rs : gmap Z Refs) (ps : gmap Z Page) id p r :
  storage_ok h (set_pages self (<[id := p]> ps)) -> (forall id', is_Some (ps !! id') <-> is_Some (rs !! id')) ->
  (forall id' q r', ps !! id' = Some q -> rs !! id' = Some r' -> refs_ok r' /\ status q = status_of r' /\ (0 < shared_locks r' -> page_level q = 0)) ->
  refs_ok r -> status p = status_of r -> (0 < shared_locks r -> page_level p = 0) ->
  table_wf h (mkTable (set_pages self (<[id := p]> ps)) (<[id := r]> rs)).
Proof.
  intros Hok Hdom Hrefs Hr Hst Hl. split; simpl; [done| |].
  - intros id'. destruct (decide (id' = id)) as [->|Hne]; [rewrite !lookup_insert_eq; split; eauto|by rewrite !lookup_insert_ne].
  - intros id' q r' [[<- <-]|[Hne Hq]]%lookup_insert_Some Hr'; [by rewrite lookup_insert_eq in Hr'; injection Hr' as <-|].
    rewrite lookup_insert_ne in Hr' by done. by apply (Hrefs id').
Qed.

(** The page is in the slot it was in, locked, and has lost at most [n] locks. *)
Definition locked_still (id : Z) (n : Z) st st' : Prop :=
  forall p r, pages (storage st) !! id = Some p -> refs st !! id = Some r -> n < shared_locks r ->
  exists p' r', pages (storage st') !! id = Some p' /\ refs st' !! id = Some r' /\ same_place p p' /\ shared_locks r - n <= shared_locks r'.

(** A page with a strong reference that nobody holds is committed under a new name. *)
Lemma convert_spec h ev st id new_id p r :
  table_ok h st -> pages (storage st) !! id = Some p -> refs st !! id = Some r -> has_holder r = false -> ~ scheduled (storage st) id ->
  pages (storage st) !! new_id = None -> 
  exists st', convert_to_committed ev st id new_id = Ok st' /\ table_ok h st' /\ same_shape (storage st) (storage st')
    /\ forall id', locked_still id' 0 st st'.
Proof.
  intros [Hwf Hnl] Hp Hr Hh Hns Hnew. pose proof (k_storage _ _ Hwf) as Hok. destruct (k_refs _ _ Hwf _ _ _ Hp Hr) as (Hrok & Hst & _).
  assert (Hd : status p = DROPPABLE) by (rewrite Hst; unfold status_of; by rewrite Hh).
  destruct (s_page _ _ Hok _ _ Hp) as (g & i & Hl & Hg & Hgr & Hi & _).
  unfold convert_to_committed. rewrite (get_page_eq _ _ _ Hp). cbn [mbind result_bind].
  assert (is_scheduled (storage st) id = false) as -> by (apply not_true_iff_false; intros Hx; apply Hns; by apply (is_scheduled_spec _ _ _ _ Hok Hp)).
  cbn [py_assert mbind result_bind negb]. rewrite bool_decide_true by done. cbn [py_assert mbind result_bind]. rewrite Hi.
  unfold set_slot, has_valid_slot. simpl. eexists. split; [done|].
  destruct (forget_page_ok h (storage st) id p g i Hok Hp Hns Hg Hi) as [Hok1 Hun1]. split; [split|split; [done|]].
  - apply pages_insert_wf; [|..].
    + refine (add_page_ok h (set_pages (storage st) (base.delete id (pages (storage st)))) new_id
        (mkPageObj (mkSlot (Some i) ev) (page_life_cycle p) (page_level p) (page_priority p) DROPPABLE true) g i Hok1 _ _ _ _ _ _); try done.
      simpl. apply lookup_delete_None. by right.
    + intros id'. destruct (decide (id' = id)) as [->|Hne]; [rewrite !lookup_delete_eq; split; intros [? ?]; done|].
      rewrite !lookup_delete_ne by done. apply (k_dom _ _ Hwf).
    + intros id' q r' [_ Hq]%lookup_delete_Some [_ Hr']%lookup_delete_Some. by apply (k_refs _ _ Hwf id').
    + by split.
    + done.
    + simpl. lia.
  - intros id' r' Hr' H0 Hh'. simpl in Hr'. apply lookup_insert_Some in Hr' as [[<- <-]|[_ Hr']]; [done|].
    apply lookup_delete_Some in Hr' as [_ Hr']. exact (Hnl id' r' Hr' H0 Hh').
  - intros id' p' r' Hp' Hr' Hl'. assert (id' <> id) by (intros ->; rewrite Hr in Hr'; injection Hr' as <-; by rewrite locked_holder in Hh).
    exists p', r'. simpl. rewrite !lookup_insert_ne, !lookup_delete_ne by congruence. split; [done|]. split; [done|]. split; [done|lia].
Qed.

Lemma detach_slot_spec h st id r :
  table_wf h st -> refs st !! id = Some r -> 0 < shared_locks r -> op_spec id st (detach_slot st id).
Proof.
  intros Hwf Hr Hl. destruct (page_of _ _ _ _ Hwf Hr) as [p Hp]. pose proof (locked_unqueued _ _ _ _ _ Hwf Hp Hr Hl) as Hns.
  destruct (s_page _ _ (k_storage _ _ Hwf) _ _ Hp) as (g & i & _ & _ & _ & Hi & _).
  unfold detach_slot. rewrite (get_page_eq _ _ _ Hp). cbn [mbind result_bind]. unfold has_valid_slot. rewrite Hi. cbn [py_assert mbind result_bind is_none negb].
  rewrite (update_refs_eq _ _ _ _ Hp). eexists h, _. split; [done|]. split; [apply upd_wf; [done|done|by split|simpl; lia|done]|].
  split; [apply upd_frame|]. intros r' Hr' H0. simpl in Hr'. rewrite lookup_insert_eq in Hr'. injection Hr' as <-. done.
Qed.

Lemma release_scratch_spec h ev st id r :
  table_wf h st -> refs st !! id = Some r -> 0 < shared_locks r -> op_spec id st (release_scratch ev st id).
Proof.
  intros Hwf Hr Hl. destruct (page_of _ _ _ _ Hwf Hr) as [p Hp]. pose proof (locked_unqueued _ _ _ _ _ Hwf Hp Hr Hl) as Hns.
  destruct (k_refs _ _ Hwf _ _ _ Hp Hr) as (_ & _ & Hlev). specialize (Hlev Hl).
  destruct (stamped_wf h st id p ev Hwf Hp) as [Hwf0 Hf0]. pose proof (k_storage _ _ Hwf0) as Hok0.
  assert (Hp0 : pages (storage (stamped st id p ev)) !! id = Some (with_event p ev)) by (simpl; by rewrite lookup_insert_eq).
  destruct (s_page _ _ Hok0 _ _ Hp0) as (g & i & _ & Hg & _ & Hi & _). simpl in Hi.
  destruct (drop_page_spec h (storage (stamped st id p ev)) id (with_event p ev) g Hok0 Hp0 Hns Hg) as (h' & self' & Hd & Hok' & Hsh & Hc & Hpg & _).
  assert (Heq : release_scratch ev st id = (self ← drop_page (storage (stamped st id p ev)) id; Ok (mkTable self (base.delete id (refs st))))).
  { unfold release_scratch, drop_page. rewrite (get_page_eq _ _ _ Hp), (get_page_eq _ _ _ Hp0). cbn [mbind result_bind].
    unfold has_valid_slot. simpl page_slot. simpl _slot_id. rewrite Hi. cbn [py_assert mbind result_bind is_none negb].
    simpl page_life_cycle. simpl page_level. rewrite Hlev. unfold release_slot, get_pool_group_index, get_pool. simpl.
    destruct (py_get _ _) as [g'|]; [|done]. cbn [mbind result_bind]. destruct (pools (storage st) !! (0, g')) as [pl|]; [|done].
    cbn [mbind result_bind]. destruct (pool_release pl _) as [pl'|]; [|done]. cbn [mbind result_bind]. unfold set_pool, set_pages. simpl.
    by rewrite delete_insert_eq. }
  rewrite Heq, Hd. cbn [mbind result_bind]. eexists h', _. split; [done|]. simpl in Hpg. rewrite delete_insert_eq in Hpg. split; [|split].
  - split; simpl; [done| |]; rewrite Hpg.
    + intros id'. destruct (decide (id' = id)) as [->|Hne]; [rewrite !lookup_delete_eq; split; intros [? ?]; done|].
      rewrite !lookup_delete_ne by done. apply (k_dom _ _ Hwf).
    + intros id' page r' [_ Hp']%lookup_delete_Some [_ Hr']%lookup_delete_Some. by apply (k_refs _ _ Hwf id').
  - split; [done|]. intros id' Hne. simpl. rewrite Hpg, !lookup_delete_ne by done. split; [done|]. split; [done|].
    unfold scheduled. by rewrite Hc.
  - intros r' Hr'. simpl in Hr'. by rewrite lookup_delete_eq in Hr'.
Qed.

(** ** Making room and allocating *)

(** Strong references are not kept to pages that wait for eviction. *)
Definition none_loose st : Prop :=
  forall id r, refs st !! id = Some r -> 0 < page_refs r -> has_holder r = false -> ~ scheduled (storage st) id.

Lemma trans_locked h st self' level id p r :
  table_wf h st -> trans level [] (storage st) self' -> pages (storage st) !! id = Some p -> refs st !! id = Some r -> 0 < shared_locks r ->
  pages self' !! id = Some p.
Proof.
  intros Hwf Ht Hp Hr Hl. rewrite (t_untouched _ _ _ _ Ht); [done| |apply not_elem_of_nil].
  intros (l & c & _ & Hc). apply (locked_unqueued _ _ _ _ _ Hwf Hp Hr Hl). by exists l, c.
Qed.

Lemma prune_refs st self id r : refs (prune st self) !! id = Some r <-> refs st !! id = Some r /\ is_Some (pages self !! id).
Proof. unfold prune. simpl. by rewrite map_lookup_filter_Some. Qed.

Lemma prune_ok h h' st self' level :
  table_ok h st -> storage_ok h' self' -> trans level [] (storage st) self' ->
  table_ok h' (prune st self') /\ forall id, locked_still id 0 st (prune st self').
Proof.
  intros [Hwf Hnl] Hok' Ht. split; [split; [split|]|].
  - done.
  - intros id. simpl pages. split.
    + intros [p' Hp']. destruct (t_like _ _ _ _ Ht _ _ Hp') as (p & Hp & _). destruct (refs_of _ _ _ _ Hwf Hp) as (r & Hr & _).
      exists r. apply prune_refs. split; [done|]. by exists p'.
    + intros [r Hr]. by apply prune_refs in Hr as [_ ?].
  - intros id p' r Hp' [Hr _]%prune_refs. simpl in Hp'. destruct (t_like _ _ _ _ Ht _ _ Hp') as (p & Hp & (_ & _ & Hs & _)).
    destruct (k_refs _ _ Hwf _ _ _ Hp Hr) as (Hrok & Hst & Hlev). split; [done|]. split; [congruence|]. intros Hl.
    rewrite (trans_locked _ _ _ _ _ _ _ Hwf Ht Hp Hr Hl) in Hp'. injection Hp' as <-. by apply Hlev.
  - intros id r [Hr [p' Hp']]%prune_refs H0 Hh. destruct (t_like _ _ _ _ Ht _ _ Hp') as (p & Hp & (_ & _ & Hs & _)).
    destruct (k_refs _ _ Hwf _ _ _ Hp Hr) as (_ & Hst & _).
    apply (t_keep _ _ _ _ Ht id p'); [by apply (Hnl id r)|apply not_elem_of_nil|done|].
    rewrite Hs, Hst. unfold status_of. by rewrite Hh.
  - intros id p r Hp Hr Hl. pose proof (trans_locked _ _ _ _ _ _ _ Hwf Ht Hp Hr Hl) as Hp'. exists p, r.
    split; [done|]. split; [apply prune_refs; eauto|]. split; [done|lia].
Qed.

Lemma make_room_spec h ev st level requirements :
  table_ok h st -> 0 <= level < num_cache_levels (storage st) -> len requirements = num_groups (storage st) ->
  (forall x, x ∈ requirements -> 0 <= x) ->
  match make_room ev st level requirements with
  | Ok st' => (exists h', table_ok h' st') /\ same_shape (storage st) (storage st') /\ forall id, locked_still id 0 st st'
  | Err e => failure (storage st) level [requirements] e
  end.
Proof.
  intros Hok Hl Hlen Hpos. pose proof (prepare_run ev h (storage st) level requirements (k_storage _ _ (proj1 Hok)) Hl Hlen Hpos) as Hrun.
  unfold make_room. destruct (prepare_free_slots _ _ _ _) as [self'|e]; [|done]. destruct Hrun as (h' & Hok' & Ht & _). cbn [mbind result_bind].
  destruct (prune_ok h h' st self' level Hok Hok' Ht) as [Hok1 Hlk]. split; [by exists h'|]. split; [exact (t_shape _ _ _ _ Ht)|done].
Qed.

(** What a list of new slots needs to become pages: distinct names and slots that
    nobody has. *)
Definition slot_of (grouping : list Z) (x : Z * Slot) : Z * option Z := (default 0 (grouping !! Z.to_nat x.1), _slot_id x.2).

Record placeable (h : Z * Z -> gset Z) st (level : Z) (xs : list ((Z * Z) * (Z * Slot))) : Prop := {
  pl_names : NoDup ((fun x => x.1.1) <$> xs);
  pl_new : forall x, x ∈ xs -> pages (storage st) !! x.1.1 = None;
  pl_lc : forall x, x ∈ xs -> 0 <= x.2.1 < len (lc_grouping (storage st));
  pl_fresh : fresh h (storage st) level ((fun x => slot_of (lc_grouping (storage st)) x.2) <$> xs);
}.

Lemma add_slot_spec h level is_scratch st x xs :
  table_ok h st -> 0 <= level < num_cache_levels (storage st) -> (is_scratch = true -> level = 0) -> grouping_ok (storage st) ->
  placeable h st level (x :: xs) ->
  exists st', add_slot level is_scratch st x = Ok st' /\ table_ok h st' /\ frame x.1.1 st st' /\ placeable h st' level xs.
Proof.
  intros [Hwf Hnl] Hl Hsc Hgr [Hnd Hnew Hlc [Hfd Hfr]]. destruct x as [[id prio] [lc slot]]. unfold add_slot.
  pose proof (k_storage _ _ Hwf) as Hok. specialize (Hlc _ (list_elem_of_here _ _)) as Hlc0. simpl in Hlc0.
  destruct (lookup_lt_is_Some_2 (lc_grouping (storage st)) (Z.to_nat lc)) as [g Hg]; [lia|].
  destruct (Hfr g (_slot_id slot)) as (i & Hi & Hun); [rewrite fmap_cons; unfold slot_of at 1; simpl; rewrite Hg; left|].
  unfold set_slot, has_valid_slot, slot_id. simpl. rewrite Hi. cbn [mbind result_bind].
  set (r := if is_scratch then _ else _). set (p := mkPageObj _ _ _ _ _ _). eexists. split; [done|].
  assert (Hnew0 : pages (storage st) !! id = None) by exact (Hnew _ (list_elem_of_here _ _)).
  assert (Hgp : group_of (storage st) p = Ok g) by (unfold get_pool_group_index; simpl; rewrite <- (Z2Nat.id lc) by lia; by apply py_get_nat).
  assert (Hadd : storage_ok h (set_pages (storage st) (<[id := p]> (pages (storage st))))).
  { apply (add_page_ok h (storage st) id p g i); try done. by apply (Hgr (Z.to_nat lc)). }
  split; [split|split].
  - apply pages_insert_wf; [done|apply (k_dom _ _ Hwf)|apply (k_refs _ _ Hwf)|..]; try done.
    + subst r. by destruct is_scratch.
    + subst r. simpl. destruct is_scratch; simpl; [auto|lia].
  - intros id' r' Hr' H0 Hh. simpl in Hr'. apply lookup_insert_Some in Hr' as [[<- <-]|[_ Hr']]; [subst r; by destruct is_scratch|].
    exact (Hnl id' r' Hr' H0 Hh).
  - split; [done|]. intros id' Hne. simpl in Hne. simpl. by rewrite !lookup_insert_ne by done.
  - rewrite fmap_cons in Hnd. rewrite fmap_cons in Hfd. apply NoDup_cons in Hnd as [Hnid Hnd]. apply NoDup_cons in Hfd as [Hnfr Hfd].
    split; [done| |intros y Hy; apply Hlc; by right|split; [done|]].
    + intros y Hy. simpl. rewrite lookup_insert_ne; [apply Hnew; by right|]. intros Heq. apply Hnid. simpl. rewrite Heq.
      apply list_elem_of_fmap. by exists y.
    + intros g' o Hin. destruct (Hfr g' o) as (j & -> & Hj & Hjun); [rewrite fmap_cons; by right|]. exists j. split; [done|]. split; [done|].
      simpl. intros id' q [[<- <-]|[_ Hq]]%lookup_insert_Some Hlq Hgq Hsq; [|by apply (Hjun id' q)].
      apply Hnfr. change (group_of (storage st) p = Ok g') in Hgq. rewrite Hgp in Hgq. injection Hgq as <-. simpl in Hsq. injection Hsq as <-.
      unfold slot_of at 1. simpl. rewrite Hg, Hi. done.
Qed.

Lemma add_slots_spec h level is_scratch xs : forall st,
  table_ok h st -> 0 <= level < num_cache_levels (storage st) -> (is_scratch = true -> level = 0) -> grouping_ok (storage st) ->
  placeable h st level xs ->
  exists st', for_each (add_slot level is_scratch) st xs = Ok st' /\ table_ok h st' /\ same_shape (storage st) (storage st')
    /\ forall id, id ∉ ((fun x => x.1.1) <$> xs) -> pages (storage st') !! id = pages (storage st) !! id /\ refs st' !! id = refs st !! id.
Proof.
  induction xs as [|x xs IH]; intros st Hok Hl Hsc Hgr Hpl; [by exists st|].
  destruct (add_slot_spec h level is_scratch st x xs Hok Hl Hsc Hgr Hpl) as (st1 & Hrun & Hok1 & [Hsh Hfr] & Hpl1).
  pose proof Hsh as (Hgl & Hlv & Hng).
  destruct (IH st1 Hok1) as (st' & Hrun' & Hok' & Hsh' & Hrest); [by rewrite Hlv|done|unfold grouping_ok; by rewrite Hgl, Hng|done|].
  exists st'. cbn [for_each]. rewrite Hrun. cbn [mbind result_bind]. split; [done|]. split; [done|]. split; [by eapply same_shape_trans|].
  intros id [Hne Hni]%not_elem_of_cons. destruct (Hrest id Hni) as [-> ->]. destruct (Hfr id Hne) as (? & ? & _). done.
Qed.

Lemma slot_of_handed (grouping : list Z) (ret : list (list Slot)) : forall (k : nat) xs,
  (forall j x, xs !! j = Some x -> grouping !! (k + j)%nat = Some x.1) -> length ret = length xs ->
  slot_of grouping <$> concat (imap (fun lc slots => (fun s => (Z.of_nat (k + lc), s)) <$> slots) ret) = handed xs ret.
Proof.
  induction ret as [|slots ret IH]; intros k [|x xs] Hgr Hlen; try done. unfold handed. simpl. rewrite fmap_app. f_equal.
  - rewrite <- list_fmap_compose. apply list_fmap_ext. intros j s _. unfold slot_of. simpl. rewrite Nat2Z.id, (Hgr 0%nat x) by done. done.
  - etransitivity; [|apply (IH (S k) xs); [intros j y Hy; rewrite <- (Hgr (S j) y) by done; f_equal; lia|simpl in Hlen; lia]].
    f_equal. f_equal. apply imap_ext. intros j sl _. simpl. apply list_fmap_ext. intros j' s _. do 2 f_equal. lia.
Qed.

Lemma slots_length (ret : list (list Slot)) : forall (num_slots : list Z) (k : nat),
  length ret = length num_slots -> (forall (lc : nat) n slots, num_slots !! lc = Some n -> ret !! lc = Some slots -> len slots = n) ->
  len (concat (imap (fun lc slots => (fun s => (Z.of_nat (k + lc), s)) <$> slots) ret)) = zsum id num_slots.
Proof.
  induction ret as [|slots ret IH]; intros [|n ns] k Hlen Hrows; try done. rewrite zsum_cons. cbn [imap concat].
  rewrite length_app, length_fmap, Nat2Z.inj_add. rewrite (Hrows 0%nat n slots) by done. f_equal. rewrite <- (IH ns (S k)); [|simpl in Hlen; lia|].
  - do 3 f_equal. apply imap_ext. intros j sl _. simpl. apply list_fmap_ext. intros j' s _. do 2 f_equal. lia.
  - intros lc m sl Hm Hsl. by apply (Hrows (S lc)).
Qed.

(** The life cycles have pool groups. *)
Definition configured st : Prop := 0 <= num_groups (storage st) /\ grouping_ok (storage st).

Lemma configured_shape st st' : configured st -> same_shape (storage st) (storage st') -> configured st'.
Proof. intros [Hg Hgr] (Hl & _ & Hng). unfold configured, grouping_ok in *. by rewrite Hl, Hng. Qed.

(** Names for new entries. *)
Definition names_ok st (num_slots : list Z) (ids : list (Z * Z)) : Prop :=
  NoDup (fst <$> ids) /\ (forall x, x ∈ ids -> pages (storage st) !! x.1 = None) /\ len ids = zsum id num_slots.

Lemma new_placeable h h' st self' level num_slots ids ret :
  table_wf h st -> storage_ok h' self' -> trans level [] (storage st) self' -> length num_slots = length (lc_grouping (storage st)) ->
  length ret = length num_slots -> (forall (lc : nat) n slots, num_slots !! lc = Some n -> ret !! lc = Some slots -> len slots = n) ->
  fresh h' self' level (handed (zip (lc_grouping (storage st)) num_slots) ret) -> names_ok st num_slots ids ->
  placeable h' (prune st self') level (zip ids (concat (imap (fun lc slots => (fun s => (Z.of_nat lc, s)) <$> slots) ret))).
Proof.
  intros Hwf Hok' Ht Hlen Hlr Hrows Hfr (Hnd & Hnew & Hids). set (slots := concat _).
  assert (Hls : length ids = length slots).
  { pose proof (slots_length ret num_slots 0 Hlr Hrows : len slots = _) as Hsum. lia. }
  assert (Hso : slot_of (lc_grouping (storage st)) <$> slots = handed (zip (lc_grouping (storage st)) num_slots) ret).
  { apply (slot_of_handed (lc_grouping (storage st)) ret 0); [|rewrite length_zip_with; lia].
    intros j [g n] Hj. apply lookup_zip_with_Some in Hj as (g' & n' & [= -> ->] & Hg & _). done. }
  destruct (t_shape _ _ _ _ Ht) as (Hgl & _ & _). split.
  - replace ((fun x => x.1.1) <$> zip ids slots) with (fst <$> (fst <$> zip ids slots)) by (by rewrite <- list_fmap_compose).
    by rewrite fst_zip by lia.
  - intros [x y] Hin. simpl. apply elem_of_zip_l in Hin. destruct (pages self' !! x.1) as [p'|] eqn:Hp'; [|done].
    destruct (t_like _ _ _ _ Ht _ _ Hp') as (p & Hp & _). by rewrite (Hnew x Hin) in Hp.
  - intros [x y] Hin. simpl. apply elem_of_zip_r in Hin. rewrite Hgl. subst slots.
    apply elem_concat_lookup in Hin as (k & row & Hk & Hin). rewrite list_lookup_imap in Hk.
    destruct (ret !! k) as [sl|] eqn:Hsl; [|done]. injection Hk as <-. apply list_elem_of_fmap in Hin as (s0 & -> & _). simpl.
    apply lookup_lt_Some in Hsl. lia.
  - simpl. rewrite Hgl. replace ((fun x => slot_of (lc_grouping (storage st)) x.2) <$> zip ids slots)
      with (slot_of (lc_grouping (storage st)) <$> (snd <$> zip ids slots)) by (by rewrite <- list_fmap_compose).
    rewrite snd_zip by lia. by rewrite Hso.
Qed.

Lemma allocate_table_spec h ev st level is_scratch num_slots ids :
  table_ok h st -> configured st -> 0 <= level < num_cache_levels (storage st) -> (is_scratch = true -> level = 0) ->
  length num_slots = length (lc_grouping (storage st)) -> (forall n, n ∈ num_slots -> 0 <= n) -> names_ok st num_slots ids ->
  match allocate ev st level is_scratch num_slots ids with
  | Ok st' => (exists h', table_ok h' st') /\ same_shape (storage st) (storage st') /\ forall id, locked_still id 0 st st'
  | Err e => exists cs, count_slots (storage st) num_slots = Ok cs /\ failure (storage st) level [cs] e
  end.
Proof.
  intros Hok Hcf Hl Hsc Hlen Hpos Hnm. pose proof Hok as [Hwf _]. pose proof Hcf as [HG Hgr].
  pose proof (new_slots_run ev h (storage st) level num_slots (k_storage _ _ Hwf) Hl HG Hgr Hlen Hpos) as Hrun. unfold allocate.
  destruct (new_slots _ _ _ _) as [[ret self']|e]; [|destruct Hrun as (cs & Hcs & _ & Hf); by exists cs].
  destruct Hrun as (h' & Hok' & Hlr & Hrows & Hfr & Ht). cbn [mbind result_bind].
  destruct (prune_ok h h' st self' level Hok Hok' Ht) as [Hok1 Hlk]. pose proof (t_shape _ _ _ _ Ht) as Hsh.
  pose proof (new_placeable h h' st self' level num_slots ids ret Hwf Hok' Ht Hlen Hlr Hrows Hfr Hnm) as Hpl.
  pose proof Hsh as (_ & Hlv & _).
  destruct (add_slots_spec h' level is_scratch _ (prune st self') Hok1 ltac:(simpl; by rewrite Hlv) Hsc
    (proj2 (configured_shape st (prune st self') Hcf Hsh)) Hpl) as (st' & -> & Hok2 & Hsh2 & Hrest).
  split; [by exists h'|]. split; [by apply (same_shape_trans _ self')|]. intros id p r Hp Hr Hlk0.
  destruct (Hlk id p r Hp Hr Hlk0) as (p' & r' & Hp' & Hr' & Hpl' & Hle). exists p', r'.
  destruct (Hrest id) as [-> ->]; [|done]. intros (x & -> & Hx)%list_elem_of_fmap. by rewrite (pl_new _ _ _ _ Hpl x Hx) in Hp'.
Qed.

(** ** Every operation *)

(** A caller acts on pages it has a reference to: it gives up a holder, a lock or a
    reference that exists, takes one from the tree ([attached] pages are found there)
    or from a page it already refers to, and gives new names to new entries. *)
Definition page_with st (id : Z) (c : Refs -> Prop) : Prop := exists r, refs st !! id = Some r /\ scratch r = false /\ c r.
Definition scratch_with st (id : Z) : Prop := exists r, refs st !! id = Some r /\ scratch r = true /\ shared_locks r = 1.

Definition op_ok st (op : Op) : Prop :=
  match op with
  | Hold id | Lock id | TakePage id | Detach id => page_with st id (fun _ => True)
  | ReleaseHolder id => page_with st id (fun r => 0 < holder_refs r)
  | Unlock _ id => page_with st id (fun r => 0 < shared_locks r)
  | ReleasePage id => page_with st id (fun r => 0 < page_refs r)
  | ConvertToCommitted _ id new_id =>
      page_with st id (fun r => has_holder r = false) /\ ~ scheduled (storage st) id /\ pages (storage st) !! new_id = None
  | SchedulePage id => page_with st id (fun _ => True) /\ ~ scheduled (storage st) id
  | ReleaseScratch _ id | DetachSlot id => scratch_with st id
  | MakeRoom _ level requirements =>
      none_loose st /\ 0 <= level < num_cache_levels (storage st) /\ len requirements = num_groups (storage st) /\ forall x, x ∈ requirements -> 0 <= x
  | Allocate _ level is_scratch num_slots ids =>
      none_loose st /\ 0 <= level < num_cache_levels (storage st) /\ (is_scratch = true -> level = 0)
      /\ length num_slots = length (lc_grouping (storage st)) /\ (forall n, n ∈ num_slots -> 0 <= n) /\ names_ok st num_slots ids
  end.

(** Only making room may fail. *)
Definition no_room st (op : Op) (e : exn) : Prop :=
  match op with
  | MakeRoom _ level requirements => failure (storage st) level [requirements] e
  | Allocate _ level _ num_slots _ => exists cs, count_slots (storage st) num_slots = Ok cs /\ failure (storage st) level [cs] e
  | _ => False
  end.

(** The locks an operation takes from a page. *)
Definition unlocks (id : Z) (op : Op) : Z :=
  match op with Unlock _ i | ReleaseScratch _ i | DetachSlot i => if decide (i = id) then 1 else 0 | _ => 0 end.

Definition op_result (st : PageTable P) (op : Op) : Prop :=
  match exec st op with
  | Ok st' => (exists h', table_ok h' st') /\ same_shape (storage st) (storage st') /\ forall id, locked_still id (unlocks id op) st st'
  | Err e => no_room st op e
  end.

Lemma upd_locked st id p r r0 n :
  pages (storage st) !! id = Some p -> refs st !! id = Some r0 -> shared_locks r0 - n <= shared_locks r -> locked_still id n st (upd st id p r).
Proof.
  intros Hp Hr0 Hle p' r' Hp' Hr' _. rewrite Hp in Hp'. injection Hp' as <-. rewrite Hr0 in Hr'. injection Hr' as <-.
  destruct (upd_page st id p r) as [H1 H2]. exists (with_status p (status_of r)), r.
  split; [done|]. split; [done|]. by split.
Qed.

(** An operation on a page keeps the page where it is while locks are left. *)
Lemma page_op_result h st id op :
  table_ok h st -> op_spec id st (exec st op) -> (forall id', id' <> id -> unlocks id' op = 0) ->
  (forall st', exec st op = Ok st' -> locked_still id (unlocks id op) st st') -> op_result st op.
Proof.
  intros Hok (h' & st' & Hrun & Hwf' & Hfr & Hnl) Hother Hid. unfold op_result. rewrite Hrun. split; [|split; [exact (proj1 Hfr)|]].
  - exists h'. by apply (frame_ok h h' id st).
  - intros id'. destruct (decide (id' = id)) as [->|Hne]; [by apply Hid|]. rewrite (Hother id' Hne). intros p r Hp Hr Hl.
    destruct (proj2 Hfr id' Hne) as (Hp' & Hr' & _). exists p, r. rewrite Hp', Hr'. split; [done|]. split; [done|]. split; [done|lia].
Qed.

(** *** On a locked page the operations only count *)

Section counting.
Variables (h : Z * Z -> gset Z) (st : PageTable P) (id : Z) (p : Page) (r : Refs).
Hypotheses (Hwf : table_wf h st) (Hp : pages (storage st) !! id = Some p) (Hr : refs st !! id = Some r) (Hl : 0 < shared_locks r).

Lemma unqueued_upd q r' : is_scheduled (storage (upd st id q r')) id = false.
Proof.
  apply not_true_iff_false. unfold is_scheduled, upd. simpl. rewrite lookup_insert_eq. simpl. intros Hin.
  apply (locked_unqueued _ _ _ _ _ Hwf Hp Hr Hl). destruct (controllers (storage st) !! page_level q) as [c|] eqn:Hc; [|done].
  exists (page_level q), c. by bool_to_prop.
Qed.

Lemma hold_counts : hold st id = Ok (upd st id p (mkRefs (page_refs r) (holder_refs r + 1) (shared_locks r) (attached r) (scratch r))).
Proof. unfold hold. rewrite (get_refs_eq _ _ _ Hr). cbn [mbind result_bind]. rewrite (locked_holder r Hl). by apply update_refs_eq. Qed.

Lemma release_holder_counts :
  release_holder st id = Ok (upd st id p (mkRefs (page_refs r) (holder_refs r - 1) (shared_locks r) (attached r) (scratch r))).
Proof.
  unfold release_holder. rewrite (get_refs_eq _ _ _ Hr). cbn [mbind result_bind]. rewrite (update_refs_eq _ _ _ _ Hp). cbn [mbind result_bind].
  by rewrite locked_holder.
Qed.

Lemma lock_counts :
  exists q, lock st id = Ok (true, upd (upd st id p (mkRefs (page_refs r) (holder_refs r + 1) (shared_locks r) (attached r) (scratch r))) id q
    (mkRefs (page_refs r) (holder_refs r + 1 - 1) (shared_locks r + 1) (attached r) (scratch r))) /\ same_place p q.
Proof.
  unfold lock. rewrite hold_counts. cbn [mbind result_bind]. set (r1 := mkRefs _ _ _ _ _).
  destruct (upd_page st id p r1) as [Hp1 Hr1]. rewrite (get_refs_eq _ _ _ Hr1). cbn [mbind result_bind].
  rewrite (get_page_eq _ _ _ Hp1). cbn [mbind result_bind]. simpl shared_locks. destruct (Z.eqb_spec (shared_locks r) 0); [lia|]. simpl andb.
  rewrite (update_refs_eq _ _ _ _ Hp1). cbn [mbind result_bind]. rewrite (is_scheduled_upd _ _ _ _ Hp1), unqueued_upd. by eexists.
Qed.

Lemma unlock_counts ev : 1 < shared_locks r ->
  unlock ev st id = Ok (upd st id p (mkRefs (page_refs r) (holder_refs r) (shared_locks r - 1) (attached r) (scratch r))).
Proof.
  intros H1. unfold unlock. rewrite (get_refs_eq _ _ _ Hr). cbn [mbind result_bind]. rewrite (update_refs_eq _ _ _ _ Hp). cbn [mbind result_bind].
  simpl. by destruct (Z.eqb_spec (shared_locks r - 1) 0); [lia|].
Qed.

Lemma take_page_counts : take_page st id = Ok (upd st id p (mkRefs (page_refs r + 1) (holder_refs r) (shared_locks r) (attached r) (scratch r))).
Proof. unfold take_page. rewrite (get_refs_eq _ _ _ Hr). cbn [mbind result_bind]. by apply update_refs_eq. Qed.

Lemma release_page_counts : release_page st id = Ok (upd st id p (mkRefs (page_refs r - 1) (holder_refs r) (shared_locks r) (attached r) (scratch r))).
Proof.
  unfold release_page. rewrite (get_refs_eq _ _ _ Hr). cbn [mbind result_bind]. rewrite (update_refs_eq _ _ _ _ Hp). cbn [mbind result_bind].
  set (r1 := mkRefs _ _ _ _ _). unfold collect. destruct (upd_page st id p r1) as [_ Hr1]. rewrite (get_refs_eq _ _ _ Hr1). cbn [mbind result_bind].
  by rewrite (locked_holder r1 Hl), andb_false_r.
Qed.

Lemma schedule_page_counts : schedule_page st id = Ok st.
Proof.
  unfold schedule_page, schedule, schedule_for_eviction. rewrite (get_page_eq _ _ _ Hp). cbn [mbind result_bind].
  destruct (k_refs _ _ Hwf _ _ _ Hp Hr) as (_ & Hst & _). rewrite (locked_status r Hl) in Hst.
  replace (is_evictable (storage st) p None) with false by (unfold is_evictable; by rewrite Hst). by destruct st.
Qed.

Lemma detach_counts : detach st id = Ok (upd st id p (mkRefs (page_refs r) (holder_refs r) (shared_locks r) false (scratch r))).
Proof.
  unfold detach. rewrite (get_refs_eq _ _ _ Hr). cbn [mbind result_bind]. rewrite (update_refs_eq _ _ _ _ Hp). cbn [mbind result_bind].
  set (r1 := mkRefs _ _ _ _ _). destruct (upd_page st id p r1) as [Hp1 _]. rewrite (get_page_eq _ _ _ Hp1). cbn [mbind result_bind].
  by rewrite unqueued_upd, andb_false_r.
Qed.

End counting.

(** An operation that only counts keeps the page. *)
Lemma counted h st id n res :
  table_wf h st ->
  (forall p r, pages (storage st) !! id = Some p -> refs st !! id = Some r -> 0 < shared_locks r -> n < shared_locks r ->
     exists r', res = Ok (upd st id p r') /\ shared_locks r - n <= shared_locks r') ->
  0 <= n -> forall st', res = Ok st' -> locked_still id n st st'.
Proof.
  intros Hwf Hc Hn st' Hst p r Hp Hr Hl. destruct (Hc p r Hp Hr ltac:(lia) Hl) as (r' & Hres & Hle).
  rewrite Hres in Hst. injection Hst as <-. by apply (upd_locked st id p r' r n).
Qed.

Ltac by_counting Hwf lem :=
  simpl unlocks; eapply counted; [exact Hwf| |lia]; intros p r' Hp Hr' Hl Hn; eexists; split; [by eapply lem; eauto|simpl; lia].

Lemma op_runs h st op : table_ok h st -> configured st -> op_ok st op -> op_result st op.
Proof.
  intros Hok Hcf. pose proof Hok as [Hwf Hnl].
  destruct op as [id|id|id|ev id|id|id|ev id new_id|id|id|ev level sc num ids|ev id|id|ev level req]; simpl op_ok.
  - intros (r & Hr & _). apply (page_op_result h st id); [done|by eapply hold_spec|done|]. by_counting Hwf hold_counts.
  - intros (r & Hr & _ & Hc). apply (page_op_result h st id); [done|by eapply release_holder_spec|done|].
    by_counting Hwf release_holder_counts.
  - intros (r & Hr & _). apply (page_op_result h st id); [done|by eapply lock_spec|done|]. simpl. intros st' Hst p r' Hp Hr' Hl.
    destruct (lock_counts h st id p r' Hwf Hp Hr' ltac:(lia)) as (q & Hlk & Hq). rewrite Hlk in Hst. injection Hst as <-.
    destruct (upd_page (upd st id p (mkRefs (page_refs r') (holder_refs r' + 1) (shared_locks r') (attached r') (scratch r'))) id q
      (mkRefs (page_refs r') (holder_refs r' + 1 - 1) (shared_locks r' + 1) (attached r') (scratch r'))) as [H1 H2].
    do 2 eexists. split; [exact H1|]. split; [exact H2|]. split; [done|simpl; lia].
  - intros (r & Hr & _ & Hc). apply (page_op_result h st id); [done|by eapply unlock_spec|intros id' Hne; simpl; by rewrite decide_False|].
    simpl unlocks. rewrite decide_True by done. by_counting Hwf unlock_counts.
  - intros (r & Hr & _). apply (page_op_result h st id); [done|by eapply take_page_spec|done|]. by_counting Hwf take_page_counts.
  - intros (r & Hr & _ & Hc). apply (page_op_result h st id); [done|by eapply release_page_spec|done|]. by_counting Hwf release_page_counts.
  - intros ((r & Hr & _ & Hh) & Hns & Hnew). destruct (page_of _ _ _ _ Hwf Hr) as [p Hp].
    destruct (convert_spec h ev st id new_id p r Hok Hp Hr Hh Hns Hnew) as (st' & Hrun & Hok' & Hsh & Hlk).
    unfold op_result. simpl exec. rewrite Hrun. eauto.
  - intros [(r & Hr & _) Hns]. apply (page_op_result h st id); [done|by eapply schedule_page_spec|done|].
    simpl. intros st' Hst p r' Hp Hr' Hl. rewrite (schedule_page_counts h st id p r' Hwf Hp Hr' ltac:(lia)) in Hst. injection Hst as <-.
    exists p, r'. split; [done|]. split; [done|]. split; [done|lia].
  - intros (r & Hr & _). apply (page_op_result h st id); [done|by eapply detach_spec|done|]. by_counting Hwf detach_counts.
  - intros (_ & Hl & Hsc & Hlen & Hpos & Hnm). pose proof (allocate_table_spec h ev st level sc num ids Hok Hcf Hl Hsc Hlen Hpos Hnm) as Hrun.
    unfold op_result. simpl. by destruct (allocate _ _ _ _ _ _).
  - intros (r & Hr & _ & H1). apply (page_op_result h st id); [done|eapply release_scratch_spec; eauto; lia|intros id' Hne; simpl; by rewrite decide_False|].
    intros st' _ p r' Hp Hr' Hl. simpl in Hl. rewrite decide_True in Hl by done. assert (r' = r) as -> by congruence. lia.
  - intros (r & Hr & _ & H1). apply (page_op_result h st id); [done|eapply detach_slot_spec; eauto; lia|intros id' Hne; simpl; by rewrite decide_False|].
    intros st' _ p r' Hp Hr' Hl. simpl in Hl. rewrite decide_True in Hl by done. assert (r' = r) as -> by congruence. lia.
  - intros (_ & Hl & Hlen & Hpos). pose proof (make_room_spec h ev st level req Hok Hl Hlen Hpos) as Hrun.
    unfold op_result. simpl. by destruct (make_room _ _ _ _).
Qed.

(** [runs st ops st']: the operations, each in order where it is called, lead from
    [st] to [st']. *)
Inductive runs : PageTable P -> list Op -> PageTable P -> Prop :=
| runs_nil st : runs st [] st
| runs_cons st op st' ops st'' : op_ok st op -> exec st op = Ok st' -> runs st' ops st'' -> runs st (op :: ops) st''.

Lemma runs_locked st ops st' : runs st ops st' -> forall h, table_ok h st -> configured st ->
  (exists h', table_ok h' st') /\ forall id, locked_still id (zsum (unlocks id) ops) st st'.
Proof.
  induction 1 as [st|st op st1 ops st' Hop Hrun Hruns IH]; intros h Hok Hcf.
  - split; [by exists h|]. intros id p r Hp Hr Hl. exists p, r. rewrite zsum_nil. split; [done|]. split; [done|]. split; [done|lia].
  - pose proof (op_runs h st op Hok Hcf Hop) as Hres. unfold op_result in Hres. rewrite Hrun in Hres. destruct Hres as ([h1 Hok1] & Hsh & Hlk).
    destruct (IH h1 Hok1 (configured_shape _ _ Hcf Hsh)) as [Hok' Hlk']. split; [done|]. intros id p r Hp Hr Hl. rewrite zsum_cons in Hl |- *.
    assert (0 <= zsum (unlocks id) ops) by (apply zsum_nonneg; intros [] _; simpl; repeat case_decide; lia).
    destruct (Hlk id p r Hp Hr ltac:(lia)) as (p1 & r1 & Hp1 & Hr1 & (Hs1 & Hl1 & Hc1 & Hpr1) & Hle).
    destruct (Hlk' id p1 r1 Hp1 Hr1 ltac:(lia)) as (p2 & r2 & Hp2 & Hr2 & (Hs2 & Hl2 & Hc2 & Hpr2) & Hle2). exists p2, r2.
    split; [done|]. split; [done|]. split; [|lia]. unfold same_place. split_and!; congruence.
Qed.

(** C13. Called in order, no operation on pages, holders, locks or slots fails an
    assertion or raises, except that making room may find none; and the table stays
    in order: every page has a slot of its own on the level it is on, its status is
    what its references say, only pages of the first level are locked, nothing but an
    evictable page is queued, and a page that nobody refers to is queued. *)
Theorem page_operations_ok h st op :
  table_ok h st -> configured st -> op_ok st op ->
  match exec st op with
  | Ok st' => (exists h', table_ok h' st') /\ configured st'
  | Err e => no_room st op e
  end.
Proof.
  intros Hok Hcf Hop. pose proof (op_runs h st op Hok Hcf Hop) as Hres. unfold op_result in Hres. destruct (exec st op) as [st'|e]; [|done].
  destruct Hres as (Hok' & Hsh & _). split; [done|]. by apply (configured_shape st).
Qed.

(** C11. Whatever is done to this and to other pages, a page is in its slot, locked, and
    no other page has the slot, as long as fewer locks were given back than it had at
    the start. *)
Theorem locked_page_stays h st ops st' id p r :
  table_ok h st -> configured st -> runs st ops st' -> pages (storage st) !! id = Some p -> refs st !! id = Some r ->
  zsum (unlocks id) ops < shared_locks r ->
  exists p', pages (storage st') !! id = Some p' /\ status p' = LOCKED /\ same_place p p' /\ ~ scheduled (storage st') id
    /\ forall id2 p2 g, pages (storage st') !! id2 = Some p2 -> page_level p2 = page_level p' -> group_of (storage st') p2 = Ok g ->
         group_of (storage st') p' = Ok g -> _slot_id (page_slot p2) = _slot_id (page_slot p') -> id2 = id.
Proof.
  intros Hok Hcf Hruns Hp Hr Hl. destruct (runs_locked st ops st' Hruns h Hok Hcf) as [[h' [Hwf' _]] Hlk].
  destruct (Hlk id p r Hp Hr Hl) as (p' & r' & Hp' & Hr' & Hpl & Hle). exists p'. split; [done|].
  destruct (k_refs _ _ Hwf' _ _ _ Hp' Hr') as (_ & Hst & _). split; [rewrite Hst; apply locked_status; lia|]. split; [done|].
  split; [apply (locked_unqueued _ _ _ _ _ Hwf' Hp' Hr'); lia|]. intros id2 p2 g Hp2 Hlv Hg2 Hg Hs.
  by apply (s_inj _ _ (k_storage _ _ Hwf') id2 id p2 p' g).
Qed.

End proofs.

(** ** An instance *)

Module Table.
Import MakeRoom.

#[local] Existing Instances Example.example_pool Example.example_laws.

(** The queued page is in the tree, the locked one has an owner and two locks. *)
Definition table : PageTable SlotAllocator :=
  mkTable Example.storage {[10 := mkRefs 0 0 0 true false; 11 := mkRefs 1 0 2 false false]}.

Lemma table_refs id r : refs table !! id = Some r -> (id = 10 /\ r = mkRefs 0 0 0 true false) \/ (id = 11 /\ r = mkRefs 1 0 2 false false).
Proof. simpl. intros [[<- <-]|[_ [<- <-]%lookup_singleton_Some]]%lookup_insert_Some; auto. Qed.

Lemma table_is_ok : table_ok Example.used table.
Proof.
  split; [split|].
  - apply Example.storage_is_ok.
  - intros id. split; intros [x Hx]; simpl in Hx |- *;
      apply lookup_insert_Some in Hx as [[<- _]|[_ [<- _]%lookup_singleton_Some]]; eauto.
  - intros id page r Hp Hr. apply table_refs in Hr as [[-> ->]|[-> ->]]; injection Hp as <-; done.
  - intros id r Hr H0 Hh. apply table_refs in Hr as [[-> ->]|[-> ->]]; [|done].
    exists 0, (mkCtrl 0 [0] [[(35, [as_evictable 10 Example.queued])]] {[10]}). split; [done|]. simpl. set_solver.
Qed.

Lemma table_configured : configured table.
Proof. split; [done|]. intros [|lc] g Hg; [by injection Hg as <-|done]. Qed.

Lemma page_operations_ok_witness :
  op_ok table (Lock 10) /\
  match exec table (Lock 10) with Ok st' => (exists h', table_ok h' st') /\ configured st' | Err e => no_room table (Lock 10) e end.
Proof.
  assert (Hop : op_ok table (Lock 10)) by (by exists (mkRefs 0 0 0 true false)).
  split; [exact Hop|]. exact (page_operations_ok Example.used table (Lock 10) table_is_ok table_configured Hop).
Defined.

(** Room is made on the first level, a lock is given back, and the page that had to
    go to the second level is held. *)
Definition script : list Op := [MakeRoom None 0 [1]; Unlock None 11; Hold 10].

Definition step (st : PageTable SlotAllocator) (op : Op) : PageTable SlotAllocator :=
  match exec st op with Ok st' => st' | Err _ => st end.

Lemma script_runs : runs table script (foldl step table script).
Proof.
  eapply (runs_cons _ _ (step table (MakeRoom None 0 [1]))); [|vm_compute; reflexivity|].
  - split; [|split; [done|split; [done|by intros x ->%list_elem_of_singleton]]]. intros id r Hr H0 Hh.
    by apply table_refs in Hr as [[-> ->]|[-> ->]].
  - eapply (runs_cons _ _ (foldl step table (take 2 script))); [by exists (mkRefs 1 0 2 false false)|vm_compute; reflexivity|].
    eapply (runs_cons _ _ (foldl step table script)); [by exists (mkRefs 0 0 0 true false)|vm_compute; reflexivity|constructor].
Qed.

Lemma locked_page_stays_witness :
  zsum (unlocks 11) script < 2 /\ exists p', pages (storage (foldl step table script)) !! 11 = Some p' /\ status p' = LOCKED.
Proof.
  split; [done|].
  destruct (locked_page_stays Example.used table script (foldl step table script) 11 Example.locked (mkRefs 1 0 2 false false)
    table_is_ok table_configured script_runs) as (p' & Hp' & Hst & _); [reflexivity|reflexivity|reflexivity|].
  exists p'. split; [exact Hp'|exact Hst].
Defined.

End Table.
