(* ===== verification/LockToGpu.v ===== *)
(** * Locking pages into the first level

    [batched_lock_to_gpu] of [runtime/kv_cache_manager_v2/_page.py]: before a step a
    sequence brings the pages it needs to the GPU and locks them.  It takes them out
    of the eviction queues, makes room for those that are elsewhere, moves these and
    locks all of them. *)

From stdpp Require Import prelude gmap.
From S2P Require Import Prelude SlotAllocator Eviction StorageManager MakeRoom PageLocks.
Local Open Scope Z_scope.

Section lock_to_gpu.
Context {P : Type} `{SlotPool P}.

(** A page leaves the queue it is in, and needs a slot if it is not on the first
    level. *)
Definition exclude_task (acc : PageTable P * list Z) (t : bool * Z) : result (PageTable P * list Z) :=
  let '(st, requirements) := acc in
  let '(scheduled, id) := t in
  st ← (if scheduled then exclude st id else Ok st);
  p ← get_page (storage st) id;
  if page_level p =? 0 then Ok (st, requirements)
  else
    pg ← get_pool_group_index (storage st) (page_life_cycle p);
    requirements ← add_at requirements pg 1;
    Ok (st, requirements).

Definition exclude_tasks (st : PageTable P) (tasks : list Z) : result (PageTable P * list Z) :=
  for_each exclude_task (st, replicate (Z.to_nat (num_groups (storage st))) 0) (zip (is_scheduled (storage st) <$> tasks) tasks).

Definition migrate_part (ev : Event) (self : StorageManager P) (part : (Z * Z) * list Z) : result (StorageManager P) :=
  let '((lvl, pg_idx), ids) := part in
  if lvl =? 0 then Ok self else _batched_migrate ev self pg_idx 0 lvl ids.

Definition lock_task (st : PageTable P) (id : Z) : result (PageTable P) :=
  '(locked, st) ← lock st id;
  if negb locked then Err ValueError else Ok st.

(** The pages of the tasks.  If no room can be made the exception is passed on. *)
Definition batched_lock_to_gpu (ev : Event) (st : PageTable P) (tasks : list Z) : result (PageTable P) :=
  '(st, requirements) ← exclude_tasks st tasks;
  st ← make_room ev st 0 requirements;
  partitioned ← partition (storage st) tasks;
  self ← for_each (migrate_part ev) (storage st) partitioned;
  for_each lock_task (set_storage st self) tasks.

End lock_to_gpu.

(** ** Proofs *)

Section proofs.
Context {P : Type} `{Hlaws : SlotPoolLaws P}.
Implicit Types st : PageTable P.

Abbreviation group_of self page := (get_pool_group_index self (page_life_cycle page)).

(** One if the page is of this group and has to be moved to the first level. *)
Definition to_move (self : StorageManager P) (g id : Z) : Z :=
  match pages self !! id with
  | Some p => if page_level p =? 0 then 0 else match group_of self p with Ok g' => if g' =? g then 1 else 0 | Err _ => 0 end
  | None => 0
  end.

Lemma add_one cs g : 0 <= g < len cs ->
  exists cs', add_at cs g 1 = Ok cs' /\ length cs' = length cs
    /\ forall (k : nat) c, cs !! k = Some c -> cs' !! k = Some (c + if g =? Z.of_nat k then 1 else 0).
Proof.
  intros Hg. destruct (lookup_lt_is_Some_2 cs (Z.to_nat g)) as [x Hx]; [lia|]. exists (<[Z.to_nat g := x + 1]> cs).
  split; [|split; [by rewrite length_insert|]].
  - unfold add_at. rewrite <- (Z2Nat.id g) at 1 by lia. by rewrite (py_get_nat _ _ _ Hx).
  - intros k c Hc. destruct (Z.eqb_spec g (Z.of_nat k)) as [->|Hne].
    + rewrite Nat2Z.id in *. rewrite list_lookup_insert_eq by (by eapply lookup_lt_Some). congruence.
    + rewrite list_lookup_insert_ne by lia. by rewrite Hc, Z.add_0_r.
Qed.

Lemma exclude_task_spec h st requirements id p :
  table_wf h st -> pages (storage st) !! id = Some p -> len requirements = num_groups (storage st) ->
  exists st' requirements', exclude_task (st, requirements) (is_scheduled (storage st) id, id) = Ok (st', requirements')
    /\ table_wf h st' /\ frame id st st' /\ pages (storage st') = pages (storage st) /\ refs st' = refs st /\ ~ scheduled (storage st') id
    /\ length requirements' = length requirements
    /\ forall (g : nat) c, requirements !! g = Some c -> requirements' !! g = Some (c + to_move (storage st) (Z.of_nat g) id).
Proof.
  intros Hwf Hp Hlen. destruct (s_page _ _ (k_storage _ _ Hwf) _ _ Hp) as (g & i & _ & Hg & Hgr & _).
  assert (Hex : exists st', (if is_scheduled (storage st) id then exclude st id else Ok st) = Ok st' /\ table_wf h st' /\ frame id st st'
    /\ pages (storage st') = pages (storage st) /\ refs st' = refs st /\ ~ scheduled (storage st') id).
  { destruct (is_scheduled (storage st) id) eqn:Hs.
    - apply (is_scheduled_spec _ _ _ _ (k_storage _ _ Hwf) Hp) in Hs.
      destruct (exclude_wf h st id p Hwf Hp Hs) as (st' & ? & ? & ? & ? & ? & ?). eauto 10.
    - exists st. split; [done|]. split; [done|]. split; [apply frame_refl|]. split; [done|]. split; [done|].
      by apply (not_scheduled _ _ _ _ (k_storage _ _ Hwf) Hp). }
  destruct Hex as (st' & Hrun & Hwf' & Hfr & Hpg & Hrf & Hns). pose proof (proj1 Hfr) as (Hgl & _ & _).
  unfold exclude_task. rewrite Hrun. cbn [mbind result_bind]. rewrite (get_page_eq _ _ p) by (by rewrite Hpg). cbn [mbind result_bind].
  unfold to_move. rewrite Hp, Hg. destruct (Z.eqb_spec (page_level p) 0) as [H0|H0].
  - exists st', requirements. do 7 (split; [done|]). intros k c Hc. by rewrite Z.add_0_r.
  - assert (group_of (storage st') p = Ok g) as -> by (unfold get_pool_group_index in *; by rewrite Hgl). cbn [mbind result_bind].
    destruct (add_one requirements g) as (requirements' & Ha & Hl' & Hc'); [lia|]. rewrite Ha. cbn [mbind result_bind].
    exists st', requirements'. do 7 (split; [done|]). done.
Qed.

Lemma to_move_same st st' g id :
  same_shape (storage st) (storage st') -> pages (storage st') = pages (storage st) -> to_move (storage st') g id = to_move (storage st) g id.
Proof. intros (Hgl & _) Hpg. unfold to_move, get_pool_group_index. by rewrite Hpg, Hgl. Qed.

Lemma exclude_loop_spec h tasks : forall st requirements,
  table_wf h st -> NoDup tasks -> (forall id, id ∈ tasks -> is_Some (pages (storage st) !! id)) -> len requirements = num_groups (storage st) ->
  exists st' requirements', for_each exclude_task (st, requirements) (zip (is_scheduled (storage st) <$> tasks) tasks) = Ok (st', requirements')
    /\ table_wf h st' /\ same_shape (storage st) (storage st') /\ pages (storage st') = pages (storage st) /\ refs st' = refs st
    /\ (forall id, scheduled (storage st') id <-> scheduled (storage st) id /\ id ∉ tasks)
    /\ length requirements' = length requirements
    /\ forall (g : nat) c, requirements !! g = Some c -> requirements' !! g = Some (c + zsum (to_move (storage st) (Z.of_nat g)) tasks).
Proof.
  induction tasks as [|id tasks IH]; intros st reqs Hwf Hnd Hpg Hlen.
  { exists st, reqs. do 5 (split; [done|]). split; [intros id; split; [intros ?; split; [done|apply not_elem_of_nil]|by intros [? _]]|].
    split; [done|]. intros g c Hc. rewrite Hc. f_equal. rewrite zsum_nil. lia. }
  apply NoDup_cons in Hnd as [Hni Hnd]. destruct (Hpg id) as [p Hp]; [by left|].
  destruct (exclude_task_spec h st reqs id p Hwf Hp Hlen) as (st1 & reqs1 & Hrun1 & Hwf1 & [Hsh1 Hf1] & Hpg1 & Hrf1 & Hns1 & Hl1 & Hc1).
  pose proof Hsh1 as (Hgl1 & _ & Hng1).
  destruct (IH st1 reqs1 Hwf1 Hnd) as (st' & reqs' & Hrun & Hwf' & Hsh & Hpg' & Hrf & Hs & Hl & Hc); [intros x Hx; rewrite Hpg1; apply Hpg; by right|lia|].
  assert (Heq : is_scheduled (storage st1) <$> tasks = is_scheduled (storage st) <$> tasks).
  { apply list_fmap_ext. intros k x Hx. apply list_elem_of_lookup_2 in Hx. destruct (Hpg x) as [q Hq]; [by right|].
    assert (x <> id) as Hne by congruence. destruct (Hf1 x Hne) as (Hqx & _ & Hsx).
    apply eq_bool_prop_intro. rewrite !Is_true_true.
    rewrite (is_scheduled_spec _ _ x q (k_storage _ _ Hwf) Hq), (is_scheduled_spec _ _ x q (k_storage _ _ Hwf1)); [done|congruence]. }
  exists st', reqs'. cbn [fmap list_fmap zip_with for_each]. rewrite Hrun1. cbn [mbind result_bind]. rewrite <- Heq. split; [done|].
  split; [done|]. split; [by eapply same_shape_trans|]. split; [congruence|]. split; [congruence|]. split; [|split; [lia|]].
  - intros x. rewrite Hs, not_elem_of_cons. destruct (decide (x = id)) as [->|Hne]; [naive_solver|].
    destruct (Hf1 x Hne) as (_ & _ & Hsx). rewrite Hsx. naive_solver.
  - intros g c Hg. rewrite (Hc g _ (Hc1 g c Hg)), zsum_cons. f_equal.
    rewrite (zsum_ext (to_move (storage st1) (Z.of_nat g)) (to_move (storage st) (Z.of_nat g))); [lia|]. intros x _. by apply to_move_same.
Qed.

(** ** Moving the pages *)

(** The pages [ids] are on the first level, nothing else has changed. *)
Record brought (ids : list Z) (self self' : StorageManager P) : Prop := {
  b_shape : same_shape self self';
  b_queues : controllers self' = controllers self;
  b_others : forall id, id ∉ ids -> pages self' !! id = pages self !! id;
  b_there : forall id page, id ∈ ids -> pages self !! id = Some page ->
    exists page', pages self' !! id = Some page' /\ like page page' /\ page_level page' = 0 /\ (page_level page = 0 -> page' = page);
}.

Lemma brought_app ids1 ids2 self1 self2 self3 :
  (forall id, id ∈ ids1 -> id ∉ ids2) -> brought ids1 self1 self2 -> brought ids2 self2 self3 -> brought (ids1 ++ ids2) self1 self3.
Proof.
  intros Hdis B1 B2. split.
  - by apply (same_shape_trans _ self2); [apply (b_shape _ _ _ B1)|apply (b_shape _ _ _ B2)].
  - by rewrite (b_queues _ _ _ B2), (b_queues _ _ _ B1).
  - intros id [Hn1 Hn2]%not_elem_of_app. by rewrite (b_others _ _ _ B2), (b_others _ _ _ B1).
  - intros id page Hin Hp. destruct (decide (id ∈ ids1)) as [H1|H1].
    + rewrite (b_others _ _ _ B2) by auto. by apply (b_there _ _ _ B1).
    + apply elem_of_app in Hin as [|H2]; [done|]. apply (b_there _ _ _ B2); [done|]. by rewrite (b_others _ _ _ B1).
Qed.

(** The slots of group [g] that a part needs. *)
Definition part_need (g : Z) (part : (Z * Z) * list Z) : Z :=
  if part.1.1 =? 0 then 0 else if part.1.2 =? g then len part.2 else 0.

Lemma part_range h self part : storage_ok h self -> part_of self part -> 0 <= part.1.2 < num_groups self.
Proof.
  intros Hok [Hne Hpart]. destruct (part.2) as [|id ids]; [done|]. destruct (Hpart id) as (page & Hp & _ & Hg); [by left|].
  by destruct (page_owns _ _ _ _ _ Hok Hp Hg) as (_ & ? & _).
Qed.

Lemma migrate_part_spec ev h self part :
  storage_ok h self -> 0 < num_cache_levels self -> NoDup part.2 -> part_of self part -> (forall id, id ∈ part.2 -> ~ scheduled self id) ->
  part_need part.1.2 part <= free self 0 part.1.2 ->
  exists h' self', migrate_part ev self part = Ok self' /\ storage_ok h' self' /\ brought part.2 self self'
    /\ forall g, free self' 0 g = free self 0 g - part_need g part.
Proof.
  intros Hok Hlv Hnd Hpo Hns Hfree. pose proof (part_range _ _ _ Hok Hpo) as Hgr. destruct Hpo as [Hne Hpart].
  destruct part as [[src g] ids]. unfold part_need in *. simpl in *.
  destruct (Z.eqb_spec src 0) as [->|Hsrc].
  { exists h, self. split; [done|]. split; [done|]. split; [|intros; lia]. split; [apply same_shape_refl|done|done|].
    intros id page Hin Hp. exists page. destruct (Hpart id Hin) as (page' & Hp' & Hl & _). split; [done|]. split; [apply like_refl|]. split; [congruence|done]. }
  rewrite Z.eqb_refl in Hfree.
  destruct (batched_migrate_spec ev h self g src 0 ids) as (h' & self' & Hrun & Hok' & Hsh & Hc & [Hout Hin] & Hf); [done|lia|done|congruence|done| |done|].
  { apply Forall_forall. intros id Hid. split; [by apply Hpart|by apply Hns]. }
  exists h', self'. split; [done|]. split; [done|]. split.
  - split; [done|done|done|]. intros id page Hid Hp. destruct (Hin id page Hid Hp) as [sl Hp']. exists (moved page 0 sl). split; [done|].
    split; [done|]. split; [done|]. intros H0. destruct (Hpart id Hid) as (page0 & Hp0 & Hl & _). congruence.
  - intros g'. rewrite Hf, decide_False by congruence. destruct (Z.eqb_spec g g') as [->|Hg']; [by rewrite decide_True, Z.add_0_r|].
    rewrite decide_False by congruence. lia.
Qed.

Lemma migrate_parts_spec ev parts : forall h self,
  storage_ok h self -> 0 < num_cache_levels self -> NoDup (concat parts.*2) -> (forall part, part ∈ parts -> part_of self part) ->
  (forall id, id ∈ concat parts.*2 -> ~ scheduled self id) -> (forall g, 0 <= g < num_groups self -> zsum (part_need g) parts <= free self 0 g) ->
  exists h' self', for_each (migrate_part ev) self parts = Ok self' /\ storage_ok h' self' /\ brought (concat parts.*2) self self'.
Proof.
  induction parts as [|part parts IH]; intros h self Hok Hlv Hnd Hparts Hns Hfree.
  { exists h, self. split; [done|]. split; [done|]. split; [apply same_shape_refl|done|done|]. intros id page Hin. by apply not_elem_of_nil in Hin. }
  rewrite fmap_cons in *. cbn [concat] in *. apply NoDup_app in Hnd as (Hnd1 & Hdis & Hnd2).
  assert (Hneed : forall g, 0 <= zsum (part_need g) parts) by (intros g; apply zsum_nonneg; intros x _; unfold part_need; repeat case_match; lia).
  destruct (migrate_part_spec ev h self part) as (h1 & self1 & Hrun1 & Hok1 & B1 & Hf1); [done|done|done|apply Hparts; by left| | |].
  { intros id Hid. apply Hns. set_solver. }
  { specialize (Hfree part.1.2 (part_range _ _ _ Hok (Hparts part (list_elem_of_here _ _)))). rewrite zsum_cons in Hfree. specialize (Hneed part.1.2). lia. }
  pose proof (b_shape _ _ _ B1) as (Hgl & Hl1 & Hng1).
  destruct (IH h1 self1) as (h' & self' & Hrun & Hok' & B'); [done|by rewrite Hl1|done| | | |].
  { intros part' Hin. destruct (Hparts part') as [Hne Hp]; [by right|]. split; [done|]. intros id Hid.
    rewrite (b_others _ _ _ B1); [unfold get_pool_group_index; rewrite Hgl; by apply Hp|]. intros Hx.
    apply (Hdis id Hx). destruct part' as [k ids]. by apply (in_parts _ k ids). }
  { intros id Hid. unfold scheduled. rewrite (b_queues _ _ _ B1). apply Hns. set_solver. }
  { intros g Hg. rewrite Hng1 in Hg. rewrite Hf1. specialize (Hfree g Hg). rewrite zsum_cons in Hfree. lia. }
  exists h', self'. cbn [for_each]. rewrite Hrun1. cbn [mbind result_bind]. split; [done|]. split; [done|].
  by apply (brought_app _ _ _ self1).
Qed.

Lemma brought_table h h' st self' ids :
  table_ok h st -> storage_ok h' self' -> brought ids (storage st) self' -> (forall id, id ∈ ids -> is_Some (pages (storage st) !! id)) ->
  table_ok h' (set_storage st self').
Proof.
  intros [Hwf Hnl] Hok' B Hdom.
  assert (Hpg : forall id page', pages self' !! id = Some page' -> exists page, pages (storage st) !! id = Some page /\ like page page'
    /\ (page_level page = 0 -> page_level page' = 0)).
  { intros id page' Hp'. destruct (decide (id ∈ ids)) as [Hin|Hin].
    - destruct (Hdom id Hin) as [page Hp]. destruct (b_there _ _ _ B id page Hin Hp) as (page1 & Hp1 & Hlk & Hl & _). rewrite Hp' in Hp1.
      injection Hp1 as <-. by exists page.
    - rewrite (b_others _ _ _ B id Hin) in Hp'. exists page'. split; [done|]. split; [apply like_refl|done]. }
  split; [split; simpl; [done| |]|].
  - intros id. rewrite <- (k_dom _ _ Hwf id). split.
    + intros [page' Hp']. destruct (Hpg id page' Hp') as (page & Hp & _). by exists page.
    + intros [page Hp]. destruct (decide (id ∈ ids)) as [Hin|Hin]; [|by rewrite (b_others _ _ _ B id Hin)].
      destruct (b_there _ _ _ B id page Hin Hp) as (page' & Hp' & _). by exists page'.
  - intros id page' r Hp' Hr. destruct (Hpg id page' Hp') as (page & Hp & (_ & _ & Hs & _) & Hl).
    destruct (k_refs _ _ Hwf id page r Hp Hr) as (Hrok & Hst & Hlev). split; [done|]. split; [congruence|auto].
  - intros id r Hr H0 Hh. unfold scheduled. simpl. rewrite (b_queues _ _ _ B). exact (Hnl id r Hr H0 Hh).
Qed.

(** ** Locking them *)

Lemma lock_task_eq st id st' : lock st id = Ok (true, st') -> lock_task st id = Ok st'.
Proof. intros Hl. unfold lock_task. by rewrite Hl. Qed.

Lemma lock_tasks_spec h tasks : forall st,
  table_ok h st -> NoDup tasks -> (forall id, id ∈ tasks -> exists p, pages (storage st) !! id = Some p /\ page_level p = 0) ->
  exists st', for_each lock_task st tasks = Ok st' /\ table_ok h st' /\ same_shape (storage st) (storage st')
    /\ (forall id, id ∉ tasks -> pages (storage st') !! id = pages (storage st) !! id /\ refs st' !! id = refs st !! id)
    /\ forall id p r, id ∈ tasks -> pages (storage st) !! id = Some p -> refs st !! id = Some r ->
         pages (storage st') !! id = Some (with_status p LOCKED) /\ exists r', refs st' !! id = Some r' /\ shared_locks r' = shared_locks r + 1.
Proof.
  induction tasks as [|id tasks IH]; intros st Hok Hnd Hpg.
  { exists st. do 3 (split; [done|]). split; [done|]. intros id p r Hin. by apply not_elem_of_nil in Hin. }
  apply NoDup_cons in Hnd as [Hni Hnd]. destruct (Hpg id) as (p & Hp & H0); [by left|]. pose proof Hok as [Hwf _].
  destruct (refs_of _ _ _ _ Hwf Hp) as (r & Hr & (_ & _ & Hrok) & _).
  destruct (lock_run h st id p r Hwf Hp Hr H0) as (st1 & Hrun1 & Hwf1 & [Hsh1 Hf1] & Hp1 & Hr1).
  assert (Hok1 : table_ok h st1).
  { apply (frame_ok h h id st); [done|done|by split|]. eapply holder_no_leak; [exact Hr1|]. apply locked_holder. simpl. lia. }
  destruct (IH st1 Hok1 Hnd) as (st' & Hrun & Hok' & Hsh & Hout & Hin).
  { intros x Hx. destruct (Hpg x) as (q & Hq & Hq0); [by right|]. exists q. by destruct (Hf1 x) as (-> & _); [congruence|]. }
  exists st'. cbn [for_each]. rewrite (lock_task_eq _ _ _ Hrun1). cbn [mbind result_bind]. split; [done|]. split; [done|].
  split; [by eapply same_shape_trans|]. split.
  - intros x [Hne Hx]%not_elem_of_cons. destruct (Hout x Hx) as [-> ->]. destruct (Hf1 x Hne) as (-> & -> & _). done.
  - intros x q rx [->|Hx]%elem_of_cons Hq Hrx.
    + destruct (Hout id Hni) as [-> ->]. rewrite Hp in Hq. injection Hq as <-. rewrite Hr in Hrx. injection Hrx as <-. eauto.
    + destruct (Hf1 x) as (Hq1 & Hrx1 & _); [congruence|]. apply Hin; [done|congruence|congruence].
Qed.

(** ** All of it *)

(** The pages to lock: distinct, and the caller keeps each alive by a reference or a
    holder; only these may be both referred to and queued. *)
Definition tasks_ok st (tasks : list Z) : Prop :=
  NoDup tasks /\ (forall id, id ∈ tasks -> page_with st id (fun r => 0 < page_refs r \/ has_holder r = true))
  /\ forall id r, refs st !! id = Some r -> 0 < page_refs r -> has_holder r = false -> scheduled (storage st) id -> id ∈ tasks.

(** The slots needed on the first level. *)
Definition needs st (tasks : list Z) : list Z :=
  (fun g => zsum (to_move (storage st) g) tasks) <$> seqZ 0 (num_groups (storage st)).

Lemma to_move_nonneg (self : StorageManager P) g id : 0 <= to_move self g id.
Proof. unfold to_move. repeat case_match; lia. Qed.

Lemma exclude_tasks_spec h st tasks :
  table_ok h st -> 0 <= num_groups (storage st) -> tasks_ok st tasks ->
  exists st1, exclude_tasks st tasks = Ok (st1, needs st tasks) /\ table_ok h st1 /\ same_shape (storage st) (storage st1)
    /\ pages (storage st1) = pages (storage st) /\ refs st1 = refs st /\ none_loose st1
    /\ (forall id, scheduled (storage st1) id <-> scheduled (storage st) id /\ id ∉ tasks).
Proof.
  intros [Hwf Hnl] HG (Hnd & Htasks & Hloose).
  destruct (exclude_loop_spec h tasks st (replicate (Z.to_nat (num_groups (storage st))) 0)) as (st1 & reqs & Hrun & Hwf1 & Hsh & Hpg & Hrf & Hs & Hl & Hc);
    [done|done| |rewrite length_replicate; lia|].
  { intros id Hin. destruct (Htasks id Hin) as (r & Hr & _). destruct (page_of _ _ _ _ Hwf Hr) as [p Hp]. by exists p. }
  exists st1. unfold exclude_tasks. rewrite Hrun. split; [|split; [split; [done|]|do 3 (split; [done|])]].
  - f_equal. f_equal. apply list_eq. intros k. unfold needs. rewrite list_lookup_fmap. destruct (decide (Z.of_nat k < num_groups (storage st))) as [Hk|Hk].
    + rewrite (Hc k 0) by (apply lookup_replicate; split; [done|lia]). rewrite lookup_seqZ_lt by lia. simpl. by rewrite Z.add_0_l.
    + rewrite (lookup_ge_None_2 reqs) by (rewrite Hl, length_replicate; lia). rewrite lookup_seqZ_ge by lia. done.
  - intros id r Hr H0 Hh. rewrite Hrf in Hr. apply Hs. split; [by apply (Hnl id r)|]. intros Hin.
    destruct (Htasks id Hin) as (r' & Hr' & _ & [?|?]); rewrite Hr in Hr'; injection Hr' as <-; [lia|congruence].
  - split; [|done]. intros id r Hr H0 Hh [Hx Hni]%Hs. rewrite Hrf in Hr. by apply Hni, (Hloose id r).
Qed.

(** Making room does not touch the pages to lock. *)
Lemma room_for_tasks ev h st tasks :
  table_ok h st -> 0 <= num_groups (storage st) -> 0 < num_cache_levels (storage st) ->
  (forall id, id ∈ tasks -> is_Some (pages (storage st) !! id) /\ ~ scheduled (storage st) id) ->
  match make_room ev st 0 (needs st tasks) with
  | Ok st' => exists h', table_ok h' st' /\ same_shape (storage st) (storage st') /\ (forall id, locked_still id 0 st st')
      /\ (forall id, id ∈ tasks -> pages (storage st') !! id = pages (storage st) !! id /\ refs st' !! id = refs st !! id /\ ~ scheduled (storage st') id)
      /\ forall g, 0 <= g < num_groups (storage st) -> zsum (to_move (storage st') g) tasks <= free (storage st') 0 g
  | Err e => failure (storage st) 0 [needs st tasks] e
  end.
Proof.
  intros Hok HG Hlv Htasks. pose proof Hok as [Hwf _].
  pose proof (prepare_run ev h (storage st) 0 (needs st tasks) (k_storage _ _ Hwf)) as Hrun.
  specialize (Hrun ltac:(lia) ltac:(unfold needs; rewrite length_fmap, length_seqZ; lia)).
  assert (Hpos : forall x, x ∈ needs st tasks -> 0 <= x).
  { intros x (g & -> & _)%list_elem_of_fmap. apply zsum_nonneg. intros y _. apply to_move_nonneg. }
  specialize (Hrun Hpos). unfold make_room. destruct (prepare_free_slots _ _ _ _) as [self'|e]; [|done].
  destruct Hrun as (h' & Hok' & Ht & Hfree).
  cbn [mbind result_bind]. destruct (prune_ok h h' st self' 0 Hok Hok' Ht) as [Hok1 Hlk]. exists h'. split; [done|].
  pose proof (t_shape _ _ _ _ Ht) as Hsh. split; [done|]. split; [done|].
  assert (Hsame : forall id, id ∈ tasks -> pages self' !! id = pages (storage st) !! id).
  { intros id Hin. destruct (Htasks id Hin) as [_ Hns]. apply (t_untouched _ _ _ _ Ht); [|apply not_elem_of_nil].
    intros (l & c & _ & Hc). apply Hns. by exists l, c. }
  split.
  - intros id Hin. destruct (Htasks id Hin) as [[p Hp] Hns]. split; [by apply Hsame|]. split.
    + destruct (refs_of _ _ _ _ Hwf Hp) as (r & Hr & _). rewrite Hr. apply prune_refs. split; [done|]. rewrite Hsame by done. by exists p.
    + intros (l & c & Hc & Hx). destruct (t_sched _ _ _ _ Ht id) as [(l0 & c0 & _ & H0)|Hn]; [|apply Hns; by exists l0, c0|by apply not_elem_of_nil in Hn].
      exists l, c. split; [|done]. destruct (s_levels _ _ Hok' _ _ Hc). lia.
  - intros g Hg. simpl. rewrite (zsum_ext _ (to_move (storage st) g)).
    + specialize (Hfree (Z.to_nat g) (zsum (to_move (storage st) g) tasks)). rewrite Z2Nat.id in Hfree by lia. apply Hfree.
      unfold needs. rewrite list_lookup_fmap, lookup_seqZ_lt by lia. simpl. by rewrite Z2Nat.id by lia.
    + intros id Hin. unfold to_move, get_pool_group_index. destruct Hsh as (Hgl & _). by rewrite (Hsame id Hin), Hgl.
Qed.

Lemma tasks_migrated ev h st tasks :
  table_ok h st -> 0 < num_cache_levels (storage st) -> NoDup tasks ->
  (forall id, id ∈ tasks -> is_Some (pages (storage st) !! id) /\ ~ scheduled (storage st) id) ->
  (forall g, 0 <= g < num_groups (storage st) -> zsum (to_move (storage st) g) tasks <= free (storage st) 0 g) ->
  exists parts h' self', partition (storage st) tasks = Ok parts /\ for_each (migrate_part ev) (storage st) parts = Ok self'
    /\ table_ok h' (set_storage st self') /\ brought tasks (storage st) self'.
Proof.
  intros Hok Hlv Hnd Htasks Hfree. pose proof Hok as [Hwf _]. pose proof (k_storage _ _ Hwf) as Hsok.
  destruct (partition_spec (storage st) tasks) as (parts & Hpart & Hperm & Hparts).
  { intros id Hin. destruct (Htasks id Hin) as [[p Hp] _]. destruct (group_known _ _ _ _ Hsok Hp) as [g Hg]. by exists p, g. }
  assert (Hneed : forall g, zsum (part_need g) parts = zsum (to_move (storage st) g) tasks).
  { intros g. rewrite <- Hperm, zsum_concat, zsum_fmap. apply zsum_ext. intros part Hin. destruct (Hparts part Hin) as [_ Hids].
    rewrite (zsum_ext _ (fun _ => if part.1.1 =? 0 then 0 else if part.1.2 =? g then 1 else 0)).
    - rewrite zsum_const. unfold part_need. repeat case_match; lia.
    - intros id Hid. destruct (Hids id Hid) as (p & Hp & Hl & Hg). unfold to_move. by rewrite Hp, Hl, Hg. }
  destruct (migrate_parts_spec ev parts h (storage st)) as (h' & self' & Hrun & Hok' & B); [done|done|by rewrite Hperm|done| | |].
  { intros id Hid. rewrite Hperm in Hid. by apply Htasks. }
  { intros g Hg. rewrite Hneed. by apply Hfree. }
  assert (B' : brought tasks (storage st) self').
  { split; [apply (b_shape _ _ _ B)|apply (b_queues _ _ _ B)| |].
    - intros id Hni. apply (b_others _ _ _ B). by rewrite Hperm.
    - intros id page Hin. apply (b_there _ _ _ B). by rewrite Hperm. }
  exists parts, h', self'. split; [done|]. split; [done|]. split; [|done]. apply (brought_table h h' st self' tasks); [done|done|done|].
  intros id Hin. by apply Htasks.
Qed.

(** C12. [batched_lock_to_gpu] brings all the pages to the first level and locks each once
    more, with everything in order, and every page that was locked before is where it
    was.  It raises only if no room can be made for the pages that are elsewhere. *)
Theorem pages_locked_on_gpu ev h st tasks :
  table_ok h st -> 0 <= num_groups (storage st) -> 0 < num_cache_levels (storage st) -> tasks_ok st tasks ->
  match batched_lock_to_gpu ev st tasks with
  | Ok st' => (exists h', table_ok h' st') /\ (forall id, locked_still id 0 st st')
      /\ forall id, id ∈ tasks -> exists p r p' r', pages (storage st) !! id = Some p /\ refs st !! id = Some r
           /\ pages (storage st') !! id = Some p' /\ refs st' !! id = Some r' /\ page_level p' = 0 /\ status p' = LOCKED
           /\ page_life_cycle p' = page_life_cycle p /\ is_committed p' = is_committed p /\ shared_locks r' = shared_locks r + 1
  | Err e => exists st1, exclude_tasks st tasks = Ok (st1, needs st tasks) /\ failure (storage st1) 0 [needs st tasks] e
  end.
Proof.
  intros Hok HG Hlv Hto. destruct (exclude_tasks_spec h st tasks Hok HG Hto) as (st1 & Hex & Hok1 & Hsh1 & Hpg1 & Hrf1 & _ & Hs1).
  destruct Hto as (Hnd & Htasks & _). pose proof Hok as [Hwf _]. pose proof Hsh1 as (Hgl1 & Hlv1 & Hng1).
  assert (Hpages : forall id, id ∈ tasks -> exists p r, pages (storage st) !! id = Some p /\ refs st !! id = Some r).
  { intros id Hin. destruct (Htasks id Hin) as (r & Hr & _). destruct (page_of _ _ _ _ Hwf Hr) as [p Hp]. by exists p, r. }
  assert (Hneeds : needs st1 tasks = needs st tasks).
  { unfold needs. rewrite Hng1. apply list_fmap_ext. intros k g _. apply zsum_ext. intros id _. by apply to_move_same. }
  pose proof (room_for_tasks ev h st1 tasks Hok1 ltac:(lia) ltac:(lia)) as Hroom. rewrite Hneeds in Hroom.
  unfold batched_lock_to_gpu. rewrite Hex. cbn [mbind result_bind].
  assert (Hq : forall id, id ∈ tasks -> is_Some (pages (storage st1) !! id) /\ ~ scheduled (storage st1) id).
  { intros id Hin. rewrite Hpg1. destruct (Hpages id Hin) as (p & _ & Hp & _). split; [by exists p|]. by intros [_ Hx]%Hs1. }
  specialize (Hroom Hq). destruct (make_room ev st1 0 _) as [st2|e]; [|by exists st1].
  destruct Hroom as (h2 & Hok2 & (Hgl2 & Hlv2 & Hng2) & Hlk2 & Hsame & Hfree). cbn [mbind result_bind].
  assert (Hq2 : forall id, id ∈ tasks -> is_Some (pages (storage st2) !! id) /\ ~ scheduled (storage st2) id).
  { intros id Hin. destruct (Hsame id Hin) as (-> & _ & ?). split; [by apply Hq|done]. }
  destruct (tasks_migrated ev h2 st2 tasks Hok2 ltac:(lia) Hnd Hq2 ltac:(by rewrite Hng2)) as (parts & h3 & self3 & -> & Hmig & Hok3 & B).
  cbn [mbind result_bind]. rewrite Hmig. cbn [mbind result_bind].
  destruct (lock_tasks_spec h3 tasks (set_storage st2 self3) Hok3 Hnd) as (st' & -> & Hok' & _ & Hout & Hin).
  { intros id Hid. destruct (Hq2 id Hid) as [[p Hp] _]. destruct (b_there _ _ _ B id p Hid Hp) as (p' & Hp' & _ & Hl & _). by exists p'. }
  split; [by exists h3|]. split.
  - intros id p r Hp Hr Hl. destruct (Hlk2 id p r) as (p2 & r2 & Hp2 & Hr2 & Hpl2 & Hle2); [by rewrite Hpg1|by rewrite Hrf1|done|].
    destruct (decide (id ∈ tasks)) as [Hid|Hid].
    + destruct (b_there _ _ _ B id p2 Hid Hp2) as (p3 & Hp3 & _ & _ & Hsame3).
      destruct (k_refs _ _ (proj1 Hok2) _ _ _ Hp2 Hr2) as (_ & _ & Hl2). rewrite Hsame3 in Hp3 by (apply Hl2; lia).
      destruct (Hin id p2 r2 Hid Hp3 Hr2) as (Hp' & r' & Hr' & Hls). exists (with_status p2 LOCKED), r'. split; [done|]. split; [done|]. split; [done|lia].
    + destruct (Hout id Hid) as [Hp' Hr']. simpl in Hp', Hr'. rewrite (b_others _ _ _ B id Hid) in Hp'. exists p2, r2. by rewrite Hp', Hr'.
  - intros id Hid. destruct (Hpages id Hid) as (p & r & Hp & Hr). destruct (Hsame id Hid) as (Hp2 & Hr2 & _). rewrite Hpg1, Hp in Hp2. rewrite Hrf1, Hr in Hr2.
    destruct (b_there _ _ _ B id p Hid Hp2) as (p3 & Hp3 & (Hlc & _ & _ & Hcm) & Hl3 & _).
    destruct (Hin id p3 r Hid Hp3 Hr2) as (Hp' & r' & Hr' & Hls). exists p, r, (with_status p3 LOCKED), r'. done.
Qed.

End proofs.

(** ** An instance *)

Module Restore.
Import MakeRoom PageLocks.

#[local] Existing Instances Example.example_pool Example.example_laws.

(** A page was evicted to the second level and is held there; it comes back. *)
Definition evicted : PageTable SlotAllocator := foldl Table.step Table.table Table.script.

Definition restored : PageTable SlotAllocator :=
  match batched_lock_to_gpu None evicted [10; 11] with Ok st => st | Err _ => evicted end.

Lemma evicted_refs : refs evicted = {[10 := mkRefs 0 1 0 true false; 11 := mkRefs 1 0 1 false false]}.
Proof. vm_compute. reflexivity. Qed.

Lemma evicted_tasks_ok : tasks_ok evicted [10; 11].
Proof.
  split; [|split].
  - repeat constructor; set_solver.
  - intros id [->|[->|Hn%not_elem_of_nil]%elem_of_cons]%elem_of_cons; [| |done]; unfold page_with; rewrite evicted_refs;
      eexists; (split; [reflexivity|]); (split; [done|]); auto.
  - intros id r Hr. rewrite evicted_refs in Hr.
    by apply lookup_insert_Some in Hr as [[<- <-]|[_ [<- <-]%lookup_singleton_Some]].
Qed.

Lemma pages_locked_on_gpu_witness :
  (exists p, pages (storage evicted) !! 10 = Some p /\ page_level p = 1)
  /\ exists p', pages (storage restored) !! 10 = Some p' /\ page_level p' = 0 /\ status p' = LOCKED.
Proof.
  split; [eexists; split; reflexivity|].
  destruct (runs_locked _ _ _ Table.script_runs _ Table.table_is_ok Table.table_configured) as [[h Hok] _].
  pose proof (pages_locked_on_gpu None h evicted [10; 11] Hok ltac:(vm_compute; discriminate) ltac:(vm_compute; reflexivity) evicted_tasks_ok) as Hrun.
  assert (Heq : batched_lock_to_gpu None evicted [10; 11] = Ok restored) by (vm_compute; reflexivity). rewrite Heq in Hrun.
  destruct Hrun as (_ & _ & Hrun). destruct (Hrun 10) as (p & r & p' & r' & _ & _ & Hp' & _ & Hl & Hst & _); [left|].
  exists p'. split; [exact Hp'|]. split; [exact Hl|exact Hst].
Defined.

End Restore.
