(* ===== verification/KvManagerV2.v ===== *)
(** * The KV cache manager the V2 scheduler talks to

    [KVCacheManagerV2] of [_torch/pyexecutor/kv_cache_manager_v2.py] keeps one KV
    cache per request, in the cache manager of [runtime/kv_cache_manager_v2/], and
    gives the scheduler the operations by which it prepares, grows, suspends and
    resumes them.  The caches themselves are used through the interface [KvCaches].
    The contract of the operations: they change the cache of one request, and when
    they succeed that cache is on the GPU and as large as was asked for. *)

From stdpp Require Import prelude gmap.
From S2P Require Import Prelude Request.
Local Open Scope Z_scope.

(** The request with the Python attributes the V2 scheduler uses.  The field
    [mm_embed_mask_cumsum] is set if the request has multimodal blocks with
    bidirectional attention. *)
Record PyRequest := mkPyRequest {
  llm : LlmRequest;
  py_draft_tokens : option (list Z);
  context_phase_draft_tokens : option (list Z);
  py_skip_cross_kv_projection : bool;
  mm_embed_mask_cumsum : option (list Z);
  py_batch_idx : option Z;
  py_ctx_pre_resize_cap : option Z;
}.

Definition py_request_id (r : PyRequest) : Z := request_id (llm r).

Definition with_llm (r : PyRequest) (q : LlmRequest) : PyRequest :=
  mkPyRequest q (py_draft_tokens r) (context_phase_draft_tokens r) (py_skip_cross_kv_projection r)
    (mm_embed_mask_cumsum r) (py_batch_idx r) (py_ctx_pre_resize_cap r).
Definition without_batch_idx (r : PyRequest) : PyRequest :=
  mkPyRequest (llm r) (py_draft_tokens r) (context_phase_draft_tokens r) (py_skip_cross_kv_projection r)
    (mm_embed_mask_cumsum r) None (py_ctx_pre_resize_cap r).
Definition with_pre_cap (r : PyRequest) (c : option Z) : PyRequest :=
  mkPyRequest (llm r) (py_draft_tokens r) (context_phase_draft_tokens r) (py_skip_cross_kv_projection r)
    (mm_embed_mask_cumsum r) (py_batch_idx r) c.

Definition get_draft_token_length (r : PyRequest) : Z :=
  match py_draft_tokens r with Some d => len d | None => 0 end.

(** ** The caches *)

(** What [_KVCache] offers, the caches named by their requests.  A cache that cannot
    be resumed or resized says so; the exceptions of a device that fails are not
    considered. *)
Class KvCaches (C : Type) := {
  kc_create : C -> Z -> option Z -> option (list Z) -> C;
  kc_reuse_tokens : PyRequest -> list Z;
  kc_active : C -> Z -> bool;
  kc_capacity : C -> Z -> Z;
  kc_committed : C -> Z -> Z;
  kc_stop_committing : C -> Z -> C;
  kc_resume : C -> Z -> bool * C;
  kc_resize : C -> Z -> Z -> bool * C;
  kc_suspend : C -> Z -> C;
}.

(** An operation on a cache leaves the others alone.  A new cache is suspended; one
    that is resumed is active, and as large as before; resizing an active cache
    gives it the capacity asked for, or changes nothing. *)
Class KvCachesLaws (C : Type) `{KvCaches C} := {
  law_others : forall c id id' n lora tokens, id' <> id ->
    let same c' := kc_active c' id' = kc_active c id' /\ kc_capacity c' id' = kc_capacity c id' in
    same (kc_create c id lora tokens) /\ same (kc_stop_committing c id) /\ same (kc_resume c id).2
    /\ same (kc_resize c id n).2 /\ same (kc_suspend c id);
  law_create : forall c id lora tokens, kc_active (kc_create c id lora tokens) id = false;
  law_stop : forall c id, kc_active (kc_stop_committing c id) id = kc_active c id
    /\ kc_capacity (kc_stop_committing c id) id = kc_capacity c id;
  law_resume : forall c id, kc_active c id = false -> kc_active (kc_resume c id).2 id = (kc_resume c id).1
    /\ kc_capacity (kc_resume c id).2 id = kc_capacity c id;
  law_resize : forall c id n, kc_active c id = true -> kc_active (kc_resize c id n).2 id = true
    /\ kc_capacity (kc_resize c id n).2 id = if (kc_resize c id n).1 then n else kc_capacity c id;
  law_suspend : forall c id, kc_active c id = true -> kc_active (kc_suspend c id) id = false /\ kc_capacity (kc_suspend c id) id = kc_capacity c id;
}.

(** ** The manager *)

Section manager.
Context {C : Type} `{KvCaches C}.

Record KVCacheManagerV2 := mkV2 {
  caches : C;
  kv_cache_map : gset Z;
  free_index_slots : Z;                 (* [index_mapper.num_free_slots()] *)
  enable_block_reuse : bool;
  v2_tokens_per_block : Z;
  num_extra_kv_tokens : Z;
  allocated_draft_lens : gmap Z Z;
}.

Definition set_caches (self : KVCacheManagerV2) (c : C) : KVCacheManagerV2 :=
  mkV2 c (kv_cache_map self) (free_index_slots self) (enable_block_reuse self) (v2_tokens_per_block self)
    (num_extra_kv_tokens self) (allocated_draft_lens self).

Definition has_cache (self : KVCacheManagerV2) (id : Z) : bool := bool_decide (id ∈ kv_cache_map self).

Definition is_request_active (self : KVCacheManagerV2) (id : Z) : bool :=
  has_cache self id && kc_active (caches self) id.

(** [_KVCache.resize] asserts that the cache is active. *)
Definition cache_resize (self : KVCacheManagerV2) (id capacity : Z) : result (bool * KVCacheManagerV2) :=
  _ ← py_assert (kc_active (caches self) id);
  let '(success, c) := kc_resize (caches self) id capacity in
  Ok (success, set_caches self c).

Definition _create_kv_cache (self : KVCacheManagerV2) (id : Z) (lora : option Z) (input_tokens : option (list Z))
    : result (option KVCacheManagerV2) :=
  _ ← py_assert (negb (has_cache self id));
  if free_index_slots self =? 0 then Ok None
  else Ok (Some (mkV2 (kc_create (caches self) id lora input_tokens) ({[id]} ∪ kv_cache_map self) (free_index_slots self - 1)
                      (enable_block_reuse self) (v2_tokens_per_block self) (num_extra_kv_tokens self) (allocated_draft_lens self))).

Definition _resume_and_restore (self : KVCacheManagerV2) (id : Z) : bool * KVCacheManagerV2 :=
  if kc_active (caches self) id then (true, self)
  else let '(success, c) := kc_resume (caches self) id in (success, set_caches self c).

Definition _effective_draft_len (r : PyRequest) : Z :=
  let draft_len := get_draft_token_length r in
  if (draft_len =? 0) && is_disagg_generation_transmission_complete (llm r) then
    match context_phase_draft_tokens r with Some d => len d | None => draft_len end
  else draft_len.

Definition try_allocate_generation (self : KVCacheManagerV2) (r : PyRequest) : result (bool * KVCacheManagerV2) :=
  let id := py_request_id r in
  if negb (has_cache self id) then Ok (false, self)
  else
    let '(resumed, self) := _resume_and_restore self id in
    if negb resumed then Ok (false, self)
    else
      let draft_len := _effective_draft_len r in
      let self := mkV2 (caches self) (kv_cache_map self) (free_index_slots self) (enable_block_reuse self) (v2_tokens_per_block self)
                       (num_extra_kv_tokens self) (<[id := draft_len]> (allocated_draft_lens self)) in
      cache_resize self id (kc_capacity (caches self) id + 1 + draft_len).

Definition prepare_context (self : KVCacheManagerV2) (r : PyRequest) : result (bool * PyRequest * KVCacheManagerV2) :=
  let id := py_request_id r in
  if is_first_context_chunk (llm r) then
    created ← (if has_cache self id then Ok (Some self)
               else _create_kv_cache self id (lora_task_id (llm r))
                      (if enable_block_reuse self then Some (kc_reuse_tokens r) else None));
    match created with
    | None => Ok (false, r, self)
    | Some self =>
        '(r, self) ← (if negb (enable_block_reuse self) then Ok (r, set_caches self (kc_stop_committing (caches self) id))
                      else
                        let n := kc_committed (caches self) id in
                        q ← set_prepopulated_prompt_len (with_cursor (llm r) n (prepopulated_prompt_len (llm r))) n (v2_tokens_per_block self);
                        Ok (with_llm r q, self));
        let '(resumed, self) := _resume_and_restore self id in
        Ok (resumed, r, self)
    end
  else
    _ ← py_assert (has_cache self id);
    let '(resumed, self) := _resume_and_restore self id in
    Ok (resumed, r, self).

Definition suspend_request (self : KVCacheManagerV2) (r : PyRequest) : KVCacheManagerV2 :=
  let id := py_request_id r in
  if is_request_active self id then set_caches self (kc_suspend (caches self) id) else self.

Definition resize_context (self : KVCacheManagerV2) (r : PyRequest) (num_tokens : Z) : result (bool * PyRequest * KVCacheManagerV2) :=
  let id := py_request_id r in
  if negb (has_cache self id) then Ok (false, r, self)
  else
    let target := context_current_position (llm r) + num_tokens + num_extra_kv_tokens self in
    let pre_cap := kc_capacity (caches self) id in
    let capacity := Z.max pre_cap target in
    '(success, self) ← cache_resize self id capacity;
    if negb success then
      Ok (false, r, if is_first_context_chunk (llm r) then set_caches self (kc_suspend (caches self) id) else self)
    else Ok (true, with_pre_cap r (if pre_cap <? capacity then Some pre_cap else None), self).

End manager.

Arguments KVCacheManagerV2 C : clear implicits.

(** ** The contract *)

Section proofs.
Context {C : Type} `{Hlaws : KvCachesLaws C}.
Implicit Types self : KVCacheManagerV2 C.

Definition same_cache self self' (id : Z) : Prop :=
  has_cache self' id = has_cache self id
  /\ kc_active (caches self') id = kc_active (caches self) id /\ kc_capacity (caches self') id = kc_capacity (caches self) id.

(** Nothing but the cache of [id] has changed. *)
Definition touches (id : Z) self self' : Prop :=
  num_extra_kv_tokens self' = num_extra_kv_tokens self /\ forall id', id' <> id -> same_cache self self' id'.

(** The cache of [id] is on the GPU and has room for [n] tokens. *)
Definition ready self (id n : Z) : Prop := is_request_active self id = true /\ n <= kc_capacity (caches self) id.

(** The same request; its cursor, its chunk and the bookkeeping of the scheduler may differ. *)
Definition same_request (r r' : PyRequest) : Prop :=
  py_request_id r' = py_request_id r /\ state (llm r') = state (llm r) /\ prompt_len (llm r') = prompt_len (llm r)
  /\ lora_task_id (llm r') = lora_task_id (llm r) /\ opt_encoder_output_len (llm r') = opt_encoder_output_len (llm r)
  /\ py_draft_tokens r' = py_draft_tokens r /\ mm_embed_mask_cumsum r' = mm_embed_mask_cumsum r
  /\ py_skip_cross_kv_projection r' = py_skip_cross_kv_projection r.

Lemma same_request_refl r : same_request r r.
Proof. done. Qed.

Lemma same_request_trans r1 r2 r3 : same_request r1 r2 -> same_request r2 r3 -> same_request r1 r3.
Proof. unfold same_request. intros (?&?&?&?&?&?&?&?) (?&?&?&?&?&?&?&?). split_and!; congruence. Qed.

Lemma same_cache_trans self1 self2 self3 id : same_cache self1 self2 id -> same_cache self2 self3 id -> same_cache self1 self3 id.
Proof. intros (H1 & H2 & H3) (H4 & H5 & H6). split_and!; congruence. Qed.

Lemma touches_refl id self : touches id self self.
Proof. done. Qed.

Lemma touches_trans id self1 self2 self3 : touches id self1 self2 -> touches id self2 self3 -> touches id self1 self3.
Proof.
  intros [E1 T1] [E2 T2]. split; [congruence|]. intros id' Hne.
  by apply (same_cache_trans _ self2); [apply T1|apply T2].
Qed.

Lemma same_cache_active self self' id : same_cache self self' id -> is_request_active self' id = is_request_active self id.
Proof. intros (H1 & H2 & _). unfold is_request_active. by rewrite H1, H2. Qed.

Lemma ready_same self self' id n : same_cache self self' id -> ready self id n -> ready self' id n.
Proof. intros Hs [Ha Hn]. split; [by rewrite (same_cache_active _ _ _ Hs)|]. by destruct Hs as (_ & _ & ->). Qed.

Lemma set_caches_touches id self c :
  (forall id', id' <> id -> kc_active c id' = kc_active (caches self) id' /\ kc_capacity c id' = kc_capacity (caches self) id') ->
  touches id self (set_caches self c).
Proof. intros Hc. split; [done|]. intros id' Hne. simpl. destruct (Hc id' Hne). done. Qed.

Lemma resume_spec self id :
  exists b self', _resume_and_restore self id = (b, self') /\ touches id self self' /\ has_cache self' id = has_cache self id
    /\ kc_active (caches self') id = b /\ kc_capacity (caches self') id = kc_capacity (caches self) id
    /\ enable_block_reuse self' = enable_block_reuse self /\ v2_tokens_per_block self' = v2_tokens_per_block self.
Proof.
  unfold _resume_and_restore. destruct (kc_active (caches self) id) eqn:Ha; [by exists true, self|].
  destruct (law_resume (caches self) id Ha) as [Hact Hcap]. destruct (kc_resume (caches self) id) as [b c] eqn:Hr. simpl in Hact, Hcap.
  exists b, (set_caches self c). split; [done|]. split; [|done]. apply set_caches_touches. intros id' Hne.
  destruct (law_others (caches self) id id' 0 None None Hne) as (_ & _ & Hs & _). by rewrite Hr in Hs.
Qed.

Lemma cache_resize_spec self id n :
  kc_active (caches self) id = true ->
  exists b self', cache_resize self id n = Ok (b, self') /\ touches id self self' /\ has_cache self' id = has_cache self id
    /\ kc_active (caches self') id = true /\ kc_capacity (caches self') id = if b then n else kc_capacity (caches self) id.
Proof.
  intros Ha. unfold cache_resize. rewrite Ha. cbn [py_assert mbind result_bind].
  destruct (law_resize (caches self) id n Ha) as [Hact Hcap]. destruct (kc_resize (caches self) id n) as [b c] eqn:Hr. simpl in Hact, Hcap.
  exists b, (set_caches self c). split; [done|]. split; [|done]. apply set_caches_touches. intros id' Hne.
  destruct (law_others (caches self) id id' n None None Hne) as (_ & _ & _ & Hs & _). by rewrite Hr in Hs.
Qed.

(** A generation request that gets its slot has room for the next token and its
    draft tokens. *)
Lemma try_allocate_spec self r :
  exists b self', try_allocate_generation self r = Ok (b, self') /\ touches (py_request_id r) self self'
    /\ if b then ready self' (py_request_id r) (kc_capacity (caches self) (py_request_id r) + 1 + _effective_draft_len r)
       else kc_capacity (caches self') (py_request_id r) = kc_capacity (caches self) (py_request_id r).
Proof.
  unfold try_allocate_generation. destruct (has_cache self (py_request_id r)) eqn:Hh; simpl; [|by exists false, self].
  destruct (resume_spec self (py_request_id r)) as (b & self1 & -> & T1 & Hh1 & Ha1 & Hc1 & _).
  destruct b; simpl; [|exists false, self1; split; [done|]; by split].
  set (self2 := mkV2 _ _ _ _ _ _ _).
  destruct (cache_resize_spec self2 (py_request_id r) (kc_capacity (caches self1) (py_request_id r) + 1 + _effective_draft_len r))
    as (b & self3 & -> & T3 & Hh3 & Ha3 & Hc3); [done|]. exists b, self3. split; [done|].
  split; [by apply (touches_trans _ self self1); [|apply (touches_trans _ self1 self2)]|].
  destruct b; [|by rewrite Hc3]. unfold ready, is_request_active. rewrite Hh3, Ha3, Hc3. unfold has_cache in *. simpl. rewrite Hh1, Hh, Hc1. split; [done|lia].
Qed.

Lemma suspend_spec self r :
  touches (py_request_id r) self (suspend_request self r) /\ is_request_active (suspend_request self r) (py_request_id r) = false.
Proof.
  unfold suspend_request. destruct (is_request_active self (py_request_id r)) eqn:Ha; [|by split]. split.
  - apply set_caches_touches. intros id' Hne. by destruct (law_others (caches self) (py_request_id r) id' 0 None None Hne) as (_ & _ & _ & _ & Hs).
  - unfold is_request_active. simpl. destruct (law_suspend (caches self) (py_request_id r)) as [-> _]; [|apply andb_false_r].
    by apply andb_true_iff in Ha as [_ ?].
Qed.

(** A context that is grown has room for the tokens of the chunk. *)
Lemma resize_context_spec self r n :
  is_request_active self (py_request_id r) = true ->
  exists b r' self', resize_context self r n = Ok (b, r', self') /\ touches (py_request_id r) self self'
    /\ (r' = r \/ exists c, r' = with_pre_cap r c)
    /\ (b = true -> ready self' (py_request_id r) (context_current_position (llm r) + n + num_extra_kv_tokens self)).
Proof.
  intros [Hh Ha]%andb_true_iff. unfold resize_context. rewrite Hh. simpl. set (cap := Z.max _ _).
  destruct (cache_resize_spec self (py_request_id r) cap Ha) as (b & self1 & -> & T1 & Hh1 & Ha1 & Hc1). cbn [mbind result_bind].
  destruct b; simpl.
  - do 3 eexists. split; [done|]. split; [done|]. split; [by right; eexists|]. intros _.
    unfold ready, is_request_active. rewrite Hh1, Hh, Ha1, Hc1. split; [done|lia].
  - do 3 eexists. split; [done|]. split; [|by split; [left|]]. destruct (is_first_context_chunk (llm r)); [|done].
    eapply touches_trans; [exact T1|]. apply set_caches_touches. intros id' Hne.
    by destruct (law_others (caches self1) (py_request_id r) id' 0 None None Hne) as (_ & _ & _ & _ & Hs).
Qed.

Lemma set_chunk_fields q n q' : set_context_chunk_size q n = Ok q' -> exists c, q' = with_chunk q c.
Proof. unfold set_context_chunk_size. repeat case_match; intros [= <-]; eauto. Qed.

(** The cursor is set, the chunk may be cut. *)
Lemma set_prepopulated_fields q n t q' :
  set_prepopulated_prompt_len (with_cursor q n (prepopulated_prompt_len q)) n t = Ok q' ->
  n < prompt_len q /\ (q' = with_cursor q n n \/ exists c, q' = with_chunk (with_cursor q n n) c).
Proof.
  unfold set_prepopulated_prompt_len. simpl prompt_len. destruct (Z.ltb_spec n (prompt_len q)) as [Hlt|]; [|done]. intros Hq. split; [done|].
  destruct (0 <? n); [|injection Hq as <-; by left].
  destruct (context_chunk_size _) as [size|]; [|done]. cbn [mbind result_bind] in Hq.
  destruct (if n + size <? prompt_len q then _ else _) as [c|]; [|done]. cbn [mbind result_bind] in Hq.
  destruct (set_context_chunk_size _ _) as [q1|] eqn:Hs; [|done]. cbn [mbind result_bind] in Hq. apply set_chunk_fields in Hs as [c' ->].
  right. exists c'. destruct (is_last_context_chunk _) as [last|]; [|done]. cbn [mbind result_bind] in Hq.
  destruct (context_chunk_size _); [|done]. cbn [mbind result_bind] in Hq. destruct last; [by injection Hq as <-|].
  case_match; [|done]. by injection Hq as <-.
Qed.

(** A context that is prepared is on the GPU, at the end of what could be reused. *)
Lemma prepare_context_spec self r b r' self' :
  prepare_context self r = Ok (b, r', self') ->
  touches (py_request_id r) self self' /\ same_request r r'
  /\ (r' = r \/ context_current_position (llm r') < prompt_len (llm r'))
  /\ (b = true -> is_request_active self' (py_request_id r) = true).
Proof.
  set (id := py_request_id r).
  assert (Hfinish : forall r1 self1, touches id self self1 -> same_request r r1 -> has_cache self1 id = true ->
    (r1 = r \/ context_current_position (llm r1) < prompt_len (llm r1)) ->
    (let '(resumed, self) := _resume_and_restore self1 id in Ok (resumed, r1, self)) = Ok (b, r', self') ->
    touches id self self' /\ same_request r r' /\ (r' = r \/ context_current_position (llm r') < prompt_len (llm r'))
    /\ (b = true -> is_request_active self' id = true)).
  { intros r1 self1 T1 Hs1 Hh Hpos. destruct (resume_spec self1 id) as (b1 & self2 & -> & T2 & Hh2 & Ha2 & _). intros [= <- <- <-].
    split; [by eapply touches_trans|]. split; [done|]. split; [done|]. intros ->. unfold is_request_active. by rewrite Hh2, Hh, Ha2. }
  unfold prepare_context. fold id. destruct (is_first_context_chunk (llm r)); [|destruct (has_cache self id) eqn:Hh; [|done]; intros Hp;
    apply (Hfinish r self); [apply touches_refl|apply same_request_refl|done|by left|done]].
  assert (Hcr : forall created, (if has_cache self id then Ok (Some self) else _create_kv_cache self id (lora_task_id (llm r))
      (if enable_block_reuse self then Some (kc_reuse_tokens r) else None)) = Ok created ->
    match created with Some self1 => touches id self self1 /\ has_cache self1 id = true | None => True end).
  { intros created. destruct (has_cache self id) eqn:Hh; [by intros [= <-]|]. unfold _create_kv_cache. rewrite Hh. cbn [py_assert mbind result_bind negb].
    destruct (free_index_slots self =? 0); intros [= <-]; [done|]. split; [|unfold has_cache; simpl; apply bool_decide_true; set_solver].
    split; [done|]. intros id' Hne. unfold same_cache, has_cache. simpl.
    destruct (law_others (caches self) id id' 0 (lora_task_id (llm r)) (if enable_block_reuse self then Some (kc_reuse_tokens r) else None) Hne)
      as ((-> & ->) & _). split; [|done]. apply bool_decide_ext. set_solver. }
  destruct (if has_cache self id then _ else _) as [created|]; [|done]. specialize (Hcr created eq_refl). cbn [mbind result_bind].
  destruct created as [self1|]; [|intros [= <- <- <-]; split; [apply touches_refl|]; split; [apply same_request_refl|]; split; [by left|done]].
  destruct Hcr as [T1 Hh1]. destruct (enable_block_reuse self1); cbn [negb].
  - destruct (set_prepopulated_prompt_len _ _ _) as [q|] eqn:Hq; [|done]. cbn [mbind result_bind].
    apply set_prepopulated_fields in Hq as [Hlt Hq]. apply Hfinish; [done| |done|right; by destruct Hq as [->|[c ->]]].
    by destruct Hq as [->|[c ->]].
  - cbn [mbind result_bind]. apply Hfinish; [|apply same_request_refl|done|by left]. eapply touches_trans; [exact T1|].
    apply set_caches_touches. intros id' Hne. by destruct (law_others (caches self1) id id' 0 None None Hne) as (_ & Hs & _).
Qed.

Lemma set_prepopulated_errors q n t e : set_prepopulated_prompt_len q n t = Err e -> e = TllmException.
Proof.
  unfold set_prepopulated_prompt_len, set_context_chunk_size, is_last_context_chunk, context_chunk_size, mbind, result_bind.
  repeat (case_match; simplify_eq/=; try done); congruence.
Qed.

(** Preparing the first chunk may fail in the request's own setters; a later chunk
    asserts that there is a cache. *)
Definition prepare_raises (r : PyRequest) (e : exn) : Prop :=
  e = if is_first_context_chunk (llm r) then TllmException else AssertionError.

Lemma prepare_context_errors self r e : prepare_context self r = Err e -> prepare_raises r e.
Proof.
  unfold prepare_context, prepare_raises. destruct (is_first_context_chunk (llm r)).
  - unfold _create_kv_cache. destruct (has_cache self (py_request_id r)); [|destruct (free_index_slots self =? 0); [done|]]; cbn [mbind result_bind py_assert negb enable_block_reuse];
      (destruct (enable_block_reuse self); cbn [mbind result_bind negb]; [|by destruct (_resume_and_restore _ _)]);
      (destruct (set_prepopulated_prompt_len _ _ _) as [q|e'] eqn:Hq; cbn [mbind result_bind]; [by destruct (_resume_and_restore _ _)|]; intros [= <-];
       by apply set_prepopulated_errors in Hq).
  - destruct (has_cache self (py_request_id r)); cbn [mbind result_bind py_assert]; [by destruct (_resume_and_restore _ _)|congruence].
Qed.

(** Preparing does not raise without block reuse, if a request that has begun has a
    cache. *)
Lemma prepare_context_total self r :
  enable_block_reuse self = false -> (is_first_context_chunk (llm r) = false -> has_cache self (py_request_id r) = true) ->
  exists res, prepare_context self r = Ok res.
Proof.
  intros Hb Hc. unfold prepare_context. destruct (is_first_context_chunk (llm r)).
  - destruct (has_cache self (py_request_id r)) eqn:Hh; cbn [mbind result_bind].
    + rewrite Hb. cbn [negb mbind result_bind]. destruct (_resume_and_restore _ _). eauto.
    + unfold _create_kv_cache. rewrite Hh. cbn [py_assert mbind result_bind negb]. destruct (free_index_slots self =? 0); cbn [mbind result_bind]; [eauto|].
      cbn [enable_block_reuse]. rewrite Hb. cbn [negb mbind result_bind]. destruct (_resume_and_restore _ _). eauto.
  - rewrite Hc by done. cbn [py_assert mbind result_bind]. destruct (_resume_and_restore _ _). eauto.
Qed.

End proofs.
