(* ===== verification/MmChunk.v ===== *)
(** * Chunk boundaries and multimodal blocks

    [KVCacheV2Scheduler._align_chunk_to_mm_block] of [scheduler_v2.py] moves the end of
    a context chunk out of a run of multimodal tokens, which attend to each other in
    both directions and have to be computed together.  It reads the runs from the
    cumulative sum of the mask of multimodal tokens. *)

From stdpp Require Import prelude.
From S2P Require Import Prelude.
Local Open Scope Z_scope.

(** ** The two walks from the boundary *)

(** [n] positions are left before the end of the prompt. *)
Fixpoint walk_forward (cumsum : list Z) (n : nat) (block_end_abs : Z) : result Z :=
  match n with
  | O => Ok block_end_abs
  | S n =>
      cs_cur ← py_get cumsum block_end_abs;
      cs_prev ← py_get cumsum (block_end_abs - 1);
      if cs_cur - cs_prev =? 1 then walk_forward cumsum n (block_end_abs + 1) else Ok block_end_abs
  end.

(** [n] positions are left before position one. *)
Fixpoint walk_backward (cumsum : list Z) (n : nat) (block_start_abs : Z) : result Z :=
  match n with
  | O => Ok block_start_abs
  | S n =>
      cs_cur ← py_get cumsum (block_start_abs - 1);
      cs_prev ← py_get cumsum (block_start_abs - 2);
      if cs_cur - cs_prev =? 1 then walk_backward cumsum n (block_start_abs - 1) else Ok block_start_abs
  end.

Definition fits (n : Z) (limit : option Z) : bool := match limit with Some l => n <=? l | None => true end.

(** The boundary is between two multimodal tokens. *)
Definition boundary_in_block (cumsum : list Z) (end_abs : Z) : result bool :=
  cs_prev ← py_get cumsum (end_abs - 1);
  cs_cur ← py_get cumsum end_abs;
  if negb (cs_cur - cs_prev =? 1) then Ok false
  else if end_abs =? 1 then Ok (cs_prev =? 1)
  else
    cs_before ← py_get cumsum (end_abs - 2);
    Ok (cs_prev - cs_before =? 1).

Definition block_extent (cumsum : list Z) (prompt_len end_abs : Z) : result (Z * Z) :=
  block_end_abs ← walk_forward cumsum (Z.to_nat (prompt_len - end_abs)) end_abs;
  block_start_abs ← walk_backward cumsum (Z.to_nat (end_abs - 1)) end_abs;
  block_start_abs ← (if block_start_abs =? 1 then
                       cs_first ← py_get cumsum 0;
                       Ok (if cs_first =? 1 then 0 else block_start_abs)
                     else Ok block_start_abs);
  Ok (block_start_abs, block_end_abs).

(** [mm_cumsum] is [None] if the request has no bidirectional blocks; [lo] is the
    position of the request. *)
Definition _align_chunk_to_mm_block (unit_size : Z) (max_context_length : option Z) (mm_cumsum : option (list Z)) (lo chunk_size : Z)
    (remaining_budget : option Z) (context_remaining : Z) : result Z :=
  match mm_cumsum with
  | None => Ok chunk_size
  | Some cumsum =>
      let end_abs := lo + chunk_size in
      let prompt_len := lo + context_remaining in
      if (prompt_len <=? end_abs) || (end_abs <=? 0) then Ok chunk_size
      else
        inside ← boundary_in_block cumsum end_abs;
        if negb inside then Ok chunk_size
        else
          '(block_start_abs, block_end_abs) ← block_extent cumsum prompt_len end_abs;
          if negb (fits (block_end_abs - block_start_abs) max_context_length) then Err ValueError
          else
            let up_block_end := if (0 <? unit_size) && (block_end_abs <? prompt_len)
                                then (block_end_abs + unit_size - 1) `div` unit_size * unit_size else block_end_abs in
            let up_chunk_size := Z.min up_block_end prompt_len - lo in
            if fits up_chunk_size remaining_budget && fits up_chunk_size max_context_length
               && (up_chunk_size <=? context_remaining) && (chunk_size <? up_chunk_size)
            then Ok up_chunk_size
            else
              let down_block_start := if 0 <? unit_size then block_start_abs `div` unit_size * unit_size else block_start_abs in
              if down_block_start <=? lo then Ok 0 else Ok (down_block_start - lo)
  end.

(** ** The mask *)

Definition count_true (l : list bool) : Z := zsum (fun b : bool => if b then 1 else 0) l.

(** [embed_mask.cumsum(0)]: inclusive sums. *)
Definition mask_cumsum (mask : list bool) : list Z :=
  (fun i => count_true (take (S i) mask)) <$> seq 0 (length mask).

Definition is_mm (mask : list bool) (i : Z) : bool :=
  if 0 <=? i then default false (mask !! Z.to_nat i) else false.

(** The boundary [b] splits a run. *)
Definition splits (mask : list bool) (b : Z) : Prop := is_mm mask (b - 1) = true /\ is_mm mask b = true.

(** Everything from [a] to [b] is multimodal: one run. *)
Definition one_run (mask : list bool) (a b : Z) : Prop := forall i, a <= i < b -> is_mm mask i = true.

Lemma cumsum_get mask i : 0 <= i < len mask -> py_get (mask_cumsum mask) i = Ok (count_true (take (Z.to_nat (i + 1)) mask)).
Proof.
  intros Hi. rewrite <- (Z2Nat.id i) at 1 by lia. apply py_get_nat. unfold mask_cumsum. rewrite list_lookup_fmap, lookup_seq_lt by lia. simpl.
  do 3 f_equal. lia.
Qed.

Lemma count_step mask i : 0 <= i < len mask ->
  count_true (take (Z.to_nat (i + 1)) mask) - count_true (take (Z.to_nat i) mask) = if is_mm mask i then 1 else 0.
Proof.
  intros Hi. destruct (lookup_lt_is_Some_2 mask (Z.to_nat i)) as [b Hb]; [lia|].
  replace (Z.to_nat (i + 1)) with (S (Z.to_nat i)) by lia. rewrite (take_S_r _ _ _ Hb). unfold count_true. rewrite zsum_app, zsum_cons, zsum_nil.
  unfold is_mm. destruct (Z.leb_spec 0 i); [|lia]. rewrite Hb. simpl. lia.
Qed.

(** The difference of neighbouring sums is the mask. *)
Lemma mask_read mask i : 0 < i < len mask ->
  exists a b, py_get (mask_cumsum mask) i = Ok a /\ py_get (mask_cumsum mask) (i - 1) = Ok b /\ (a - b =? 1) = is_mm mask i.
Proof.
  intros Hi. do 2 eexists. split; [apply cumsum_get; lia|]. split; [apply cumsum_get; lia|].
  replace (i - 1 + 1) with i by lia. rewrite (count_step mask i) by lia. by destruct (is_mm mask i).
Qed.

Lemma mask_first mask : 0 < len mask -> exists a, py_get (mask_cumsum mask) 0 = Ok a /\ (a =? 1) = is_mm mask 0.
Proof.
  intros Hl. eexists. split; [apply cumsum_get; lia|]. pose proof (count_step mask 0 ltac:(lia)) as Hc.
  change (take (Z.to_nat 0) mask) with (@nil bool) in Hc. unfold count_true at 2 in Hc. rewrite zsum_nil in Hc.
  destruct (is_mm mask 0); [apply Z.eqb_eq|apply Z.eqb_neq]; lia.
Qed.

Lemma walk_forward_spec mask n : forall e, 0 < e -> e + Z.of_nat n = len mask ->
  exists e', walk_forward (mask_cumsum mask) n e = Ok e' /\ e <= e' <= len mask /\ one_run mask e e' /\ is_mm mask e' = false.
Proof.
  induction n as [|n IH]; intros e He Hn.
  { exists e. split; [done|]. split; [lia|]. split; [intros i Hi; lia|]. unfold is_mm. destruct (0 <=? e); [|done].
    by rewrite lookup_ge_None_2 by lia. }
  cbn [walk_forward]. destruct (mask_read mask e ltac:(lia)) as (a & b & -> & -> & Heq). cbn [mbind result_bind]. rewrite Heq.
  destruct (is_mm mask e) eqn:Hm.
  - destruct (IH (e + 1)) as (e' & Hrun & Hle & Hall & Hend); [lia|lia|]. exists e'. split; [done|]. split; [lia|]. split; [|done].
    intros i Hi. destruct (decide (i = e)) as [->|]; [done|]. apply Hall. lia.
  - exists e. split; [done|]. split; [lia|]. split; [intros i Hi; lia|done].
Qed.

Lemma walk_backward_spec mask n : forall s, s = Z.of_nat n + 1 -> s <= len mask ->
  exists s', walk_backward (mask_cumsum mask) n s = Ok s' /\ 1 <= s' <= s /\ one_run mask s' s /\ (1 < s' -> is_mm mask (s' - 1) = false).
Proof.
  induction n as [|n IH]; intros s Hs Hle.
  { exists s. split; [done|]. split; [lia|]. split; [intros i Hi; lia|lia]. }
  cbn [walk_backward]. destruct (mask_read mask (s - 1) ltac:(lia)) as (a & b & -> & Hb & Heq).
  replace (s - 2) with (s - 1 - 1) by lia. rewrite Hb. cbn [mbind result_bind]. rewrite Heq. destruct (is_mm mask (s - 1)) eqn:Hm.
  - destruct (IH (s - 1)) as (s' & Hrun & Hle' & Hall & Hend); [lia|lia|]. exists s'. split; [done|]. split; [lia|]. split; [|done].
    intros i Hi. destruct (decide (i = s - 1)) as [->|]; [done|]. apply Hall. lia.
  - exists s. split; [done|]. split; [lia|]. split; [intros i Hi; lia|done].
Qed.

Lemma boundary_spec mask e : 0 < e < len mask ->
  boundary_in_block (mask_cumsum mask) e = Ok (is_mm mask (e - 1) && is_mm mask e).
Proof.
  intros He. unfold boundary_in_block. destruct (mask_read mask e He) as (a & b & Ha & Hb & Heq). rewrite Hb, Ha. cbn [mbind result_bind].
  rewrite Heq. destruct (is_mm mask e); simpl; [|by rewrite andb_false_r]. rewrite andb_true_r. destruct (Z.eqb_spec e 1) as [->|Hne].
  - destruct (mask_first mask ltac:(lia)) as (c & Hc & Hm). change (1 - 1) with 0 in *. rewrite Hc in Hb. injection Hb as <-. by rewrite Hm.
  - destruct (mask_read mask (e - 1) ltac:(lia)) as (b' & c & Hb' & Hc & Hm). rewrite Hb in Hb'. injection Hb' as <-.
    replace (e - 2) with (e - 1 - 1) by lia. rewrite Hc. cbn [mbind result_bind]. by rewrite Hm.
Qed.

(** The extent is the maximal run around the boundary. *)
Lemma extent_spec mask e : 0 < e < len mask -> splits mask e ->
  exists s f, block_extent (mask_cumsum mask) (len mask) e = Ok (s, f) /\ 0 <= s < e /\ e < f <= len mask /\ one_run mask s f
    /\ is_mm mask (s - 1) = false /\ is_mm mask f = false.
Proof.
  intros He [Hm1 Hm]. unfold block_extent.
  destruct (walk_forward_spec mask (Z.to_nat (len mask - e)) e ltac:(lia) ltac:(lia)) as (f & -> & Hf & Hallf & Hendf). cbn [mbind result_bind].
  destruct (walk_backward_spec mask (Z.to_nat (e - 1)) e ltac:(lia) ltac:(lia)) as (s & -> & Hs & Halls & Hends). cbn [mbind result_bind].
  assert (Hfe : e < f) by (destruct (decide (f = e)) as [->|]; [congruence|lia]).
  assert (Hall : forall s', s' <= e -> one_run mask s' e -> one_run mask s' f).
  { intros s' Hle Hr i Hi. destruct (decide (i < e)); [apply Hr; lia|apply Hallf; lia]. }
  destruct (Z.eqb_spec s 1) as [->|Hs1].
  - destruct (mask_first mask ltac:(lia)) as (c & -> & Hc). cbn [mbind result_bind]. rewrite Hc. destruct (is_mm mask 0) eqn:H0.
    + exists 0, f. split; [done|]. split; [lia|]. split; [lia|]. split; [|done]. apply Hall; [lia|]. intros i Hi.
      destruct (decide (i = 0)) as [->|]; [done|]. apply Halls. lia.
    + exists 1, f. split; [done|]. assert (1 < e) by (destruct (decide (e = 1)) as [->|]; [change (1 - 1) with 0 in Hm1; congruence|lia]).
      split; [lia|]. split; [lia|]. split; [by apply Hall; [lia|]|done].
  - cbn [mbind result_bind]. exists s, f. split; [done|].
    assert (s < e) by (destruct (decide (s = e)) as [->|]; [rewrite Hends in Hm1; [done|lia]|lia]).
    split; [lia|]. split; [lia|]. split; [by apply Hall; [lia|]|]. split; [apply Hends; lia|done].
Qed.

(** ** Bounds *)

Lemma rounded_up n u : 0 < u -> n <= (n + u - 1) `div` u * u.
Proof. intros Hu. pose proof (Z.div_mod (n + u - 1) u ltac:(lia)). pose proof (Z.mod_pos_bound (n + u - 1) u Hu). nia. Qed.

Lemma rounded_down n u : 0 < u -> n `div` u * u <= n.
Proof. intros Hu. pose proof (Z.div_mod n u ltac:(lia)). pose proof (Z.mod_pos_bound n u Hu). nia. Qed.

(** Where the chunk ends if it takes the run, and if it leaves it. *)
Lemma up_end_spec u f n : f <= n ->
  let up := if (0 <? u) && (f <? n) then (f + u - 1) `div` u * u else f in f <= up /\ (u <= 1 -> up = f).
Proof.
  intros Hf. simpl. destruct (Z.ltb_spec 0 u); cbn [andb]; [|lia]. destruct (f <? n); [|lia]. split; [by apply rounded_up|].
  intros Hu. assert (u = 1) as -> by lia. rewrite Z.div_1_r. lia.
Qed.

Lemma down_start_spec u s : let dn := if 0 <? u then s `div` u * u else s in dn <= s /\ (u <= 1 -> dn = s).
Proof.
  simpl. destruct (Z.ltb_spec 0 u); [|lia]. split; [by apply rounded_down|]. intros Hu. assert (u = 1) as -> by lia. rewrite Z.div_1_r. lia.
Qed.

Lemma walk_backward_le cumsum n : forall s s', walk_backward cumsum n s = Ok s' -> s' <= s.
Proof.
  induction n as [|n IH]; intros s s'; cbn [walk_backward]; [intros [= <-]; lia|].
  destruct (py_get cumsum (s - 1)); [|done]. destruct (py_get cumsum (s - 2)); [|done]. cbn [mbind result_bind].
  case_match; [intros Hs%IH; lia|intros [= <-]; lia].
Qed.

Lemma extent_le cumsum n e s f : 0 < e -> block_extent cumsum n e = Ok (s, f) -> s <= e.
Proof.
  intros He. unfold block_extent. destruct (walk_forward _ _ _); [|done]. cbn [mbind result_bind].
  destruct (walk_backward _ _ _) as [s0|] eqn:Hs; [|done]. apply walk_backward_le in Hs. cbn [mbind result_bind].
  destruct (s0 =? 1); [|intros [= <- <-]; lia]. destruct (py_get cumsum 0) as [c|]; [|done]. cbn [mbind result_bind].
  intros [= <- _]. case_match; lia.
Qed.

(** Whatever the sums are, the chunk stays within the budget, the context limit and
    the prompt. *)
Lemma align_bounds unit_size max_context_length mm lo chunk_size remaining_budget context_remaining c :
  0 < chunk_size <= context_remaining -> fits chunk_size remaining_budget = true ->
  _align_chunk_to_mm_block unit_size max_context_length mm lo chunk_size remaining_budget context_remaining = Ok c ->
  c <= context_remaining /\ fits c remaining_budget = true.
Proof.
  intros Hc Hb. unfold _align_chunk_to_mm_block. destruct mm as [cumsum|]; [|intros [= <-]; split; [lia|done]]. set (e := lo + chunk_size).
  assert (Hdown : forall n, n <= chunk_size -> n <= context_remaining /\ fits n remaining_budget = true).
  { intros n Hn. split; [lia|]. destruct remaining_budget as [l|]; [|done]. simpl in *. lia. }
  destruct (lo + context_remaining <=? e); [intros [= <-]; apply Hdown; lia|]. destruct (Z.leb_spec e 0); [intros [= <-]; apply Hdown; lia|]. cbn [orb].
  destruct (boundary_in_block cumsum e) as [[]|]; cbn [mbind result_bind negb]; [|intros [= <-]; apply Hdown; lia|done].
  destruct (block_extent _ _ _) as [[s f]|] eqn:Hx; [|done]. cbn [mbind result_bind]. apply extent_le in Hx; [|lia].
  destruct (fits (f - s) max_context_length); [|done]. cbn [negb]. set (up := Z.min _ _ - lo).
  destruct (fits up remaining_budget && _ && _ && _) eqn:Hcond.
  - intros [= <-]. apply andb_true_iff in Hcond as [[[Hub _]%andb_true_iff Hur]%andb_true_iff _]. bool_to_prop. done.
  - pose proof (down_start_spec unit_size s) as [Hd _]. set (dn := if 0 <? unit_size then _ else s) in *.
    destruct (dn <=? lo); intros [= <-]; apply Hdown; lia.
Qed.

(** Reading past the sums is an [IndexError]. *)
Definition index_errors {A} (m : result A) : Prop := forall e, m = Err e -> e = IndexError.

Lemma index_errors_get {A} (l : list A) i : index_errors (py_get l i).
Proof. intros e. unfold py_get. by case_match; intros [= <-]. Qed.

Lemma index_errors_ok {A} (x : A) : index_errors (Ok x).
Proof. done. Qed.

Lemma index_errors_bind {A B} (m : result A) (k : A -> result B) :
  index_errors m -> (forall x, index_errors (k x)) -> index_errors (m ≫= k).
Proof. intros Hm Hk e. destruct m as [x|e0]; [apply Hk|]. intros [= <-]. by apply Hm. Qed.

#[local] Hint Resolve index_errors_get index_errors_ok index_errors_bind : core.

Lemma walk_forward_errors cumsum n : forall e, index_errors (walk_forward cumsum n e).
Proof.
  induction n as [|n IH]; intros e; cbn [walk_forward]; [auto|]. apply index_errors_bind; [auto|]. intros a.
  apply index_errors_bind; [auto|]. intros b. case_match; auto.
Qed.

Lemma walk_backward_errors cumsum n : forall s, index_errors (walk_backward cumsum n s).
Proof.
  induction n as [|n IH]; intros s; cbn [walk_backward]; [auto|]. apply index_errors_bind; [auto|]. intros a.
  apply index_errors_bind; [auto|]. intros b. case_match; auto.
Qed.

Lemma align_errors unit_size max_context_length mm lo chunk_size remaining_budget context_remaining x :
  _align_chunk_to_mm_block unit_size max_context_length mm lo chunk_size remaining_budget context_remaining = Err x ->
  is_none mm = false /\ (x = ValueError \/ x = IndexError).
Proof.
  unfold _align_chunk_to_mm_block. destruct mm as [cumsum|]; [|done]. intros Hx. split; [done|]. destruct (_ || _) in Hx; [done|].
  assert (Hb : index_errors (boundary_in_block cumsum (lo + chunk_size))).
  { unfold boundary_in_block. apply index_errors_bind; [auto|]. intros a. apply index_errors_bind; [auto|]. intros b.
    destruct (negb _); [auto|]. destruct (_ =? 1); [auto|]. apply index_errors_bind; auto. }
  assert (He : index_errors (block_extent cumsum (lo + context_remaining) (lo + chunk_size))).
  { unfold block_extent. apply index_errors_bind; [apply walk_forward_errors|]. intros f. apply index_errors_bind; [apply walk_backward_errors|].
    intros s. apply index_errors_bind; [|auto]. destruct (s =? 1); [|auto]. apply index_errors_bind; auto. }
  destruct (boundary_in_block _ _) as [[]|e0]; cbn [mbind result_bind negb] in Hx; [|done|injection Hx as <-; right; by apply Hb].
  destruct (block_extent _ _ _) as [[s f]|e0]; cbn [mbind result_bind] in Hx; [|injection Hx as <-; right; by apply He].
  destruct (fits (f - s) max_context_length); cbn [negb] in Hx; [|injection Hx as <-; by left].
  repeat (case_match; try done).
Qed.

(** ** The theorem *)

(** The run the boundary [e] was in lies on one side of [e']. *)
Definition keeps_block (mask : list bool) (e e' : Z) : Prop :=
  forall s f, s < e < f -> one_run mask s f -> e' <= s \/ f <= e'.

Lemma maximal_run mask s f s' f' e :
  s < e < f -> one_run mask s f -> s' < e < f' -> one_run mask s' f' -> is_mm mask (s - 1) = false -> is_mm mask f = false -> s <= s' /\ f' <= f.
Proof.
  intros He Hr He' Hr' Hs Hf. split.
  - destruct (decide (s <= s')); [done|]. rewrite (Hr' (s - 1)) in Hs; [done|lia].
  - destruct (decide (f' <= f)); [done|]. rewrite (Hr' f) in Hf; [done|lia].
Qed.

(** C26. The end of a chunk is never inside the run of multimodal tokens it was in before:
    the run is all in this chunk or all after it, or the request waits.  The chunk
    stays within the budget, the context limit and the prompt.  If the boundary need
    not be a multiple of the unit, no run at all is split.  It raises only if the run
    exceeds the context limit. *)
Theorem mm_block_kept mask unit_size max_context_length lo chunk_size remaining_budget context_remaining :
  0 <= lo -> 0 < chunk_size <= context_remaining -> fits chunk_size remaining_budget = true -> fits chunk_size max_context_length = true ->
  len mask = lo + context_remaining ->
  match _align_chunk_to_mm_block unit_size max_context_length (Some (mask_cumsum mask)) lo chunk_size remaining_budget context_remaining with
  | Ok c => 0 <= c <= context_remaining /\ fits c remaining_budget = true /\ fits c max_context_length = true
      /\ (c = 0 \/ (keeps_block mask (lo + chunk_size) (lo + c) /\ (unit_size <= 1 -> lo + c < len mask -> ~ splits mask (lo + c))))
  | Err e => e = ValueError /\ exists s f, one_run mask s f /\ fits (f - s) max_context_length = false
  end.
Proof.
  intros Hlo Hc Hb Hm Hlen. unfold _align_chunk_to_mm_block. set (e := lo + chunk_size).
  assert (Hfits0 : forall n l, fits n l = true -> 0 <= n -> forall c, 0 <= c <= n -> fits c l = true).
  { intros n [l|] Hf Hn c Hcn; [|done]. simpl in *. lia. }
  assert (Hsame : ~ splits mask e -> keeps_block mask e e).
  { intros Hns s f He Hr. exfalso. apply Hns. split; apply Hr; lia. }
  destruct (Z.leb_spec (lo + context_remaining) e) as [Hend|Hend].
  { simpl. split; [lia|]. split; [done|]. split; [done|]. right. fold e. assert (e = len mask) by lia.
    assert (Hns : ~ splits mask e).
    { intros [_ Hx]. unfold is_mm in Hx. rewrite lookup_ge_None_2 in Hx by lia. by destruct (0 <=? e). }
    split; [by apply Hsame|done]. }
  destruct (Z.leb_spec e 0); [lia|]. cbn [orb]. rewrite boundary_spec by lia. cbn [mbind result_bind].
  destruct (is_mm mask (e - 1) && is_mm mask e) eqn:Hin; cbn [negb].
  2: { split; [lia|]. split; [done|]. split; [done|]. right. fold e.
       assert (Hns : ~ splits mask e) by (intros [H1 H2]; by rewrite H1, H2 in Hin). split; [by apply Hsame|done]. }
  apply andb_true_iff in Hin as [Hm1 Hm2]. rewrite <- Hlen. destruct (extent_spec mask e ltac:(lia) (conj Hm1 Hm2)) as (s & f & -> & Hs & Hf & Hrun & Hsm & Hfm).
  cbn [mbind result_bind]. destruct (fits (f - s) max_context_length) eqn:Hfit; cbn [negb]; [|by split; [|exists s, f]].
  assert (Hkeep : forall e', e' <= s \/ f <= e' -> keeps_block mask e e').
  { intros e' He' s' f' He Hr. destruct (maximal_run mask s f s' f' e); [lia|done|done|done|done|done|lia]. }
  destruct (up_end_spec unit_size f (len mask) ltac:(lia)) as [Hup Hup1]. set (up := if _ && _ then _ else f) in *.
  destruct (fits (Z.min up (len mask) - lo) remaining_budget && _ && _ && _) eqn:Hcond.
  - apply andb_true_iff in Hcond as [[[Hub Hum]%andb_true_iff Hur]%andb_true_iff Huc]. bool_to_prop.
    split; [lia|]. split; [done|]. split; [done|]. right. split; [apply Hkeep; lia|]. intros Hu Hlt [_ Hx].
    replace (lo + (Z.min up (len mask) - lo)) with f in Hx by lia. congruence.
  - destruct (down_start_spec unit_size s) as [Hdn Hdn1]. set (dn := if 0 <? unit_size then _ else s) in *.
    destruct (Z.leb_spec dn lo); split; [lia| |lia|]; (split; [apply (Hfits0 chunk_size); [done|lia|lia]|]);
      (split; [apply (Hfits0 chunk_size); [done|lia|lia]|]); [by left|]. right. split; [apply Hkeep; lia|].
    intros Hu Hlt [Hx _]. replace (lo + (dn - lo) - 1) with (s - 1) in Hx by lia. congruence.
Qed.

(** A request at the start of a prompt of twelve tokens with runs at 3 to 4 and at 7 to
    10; the chunk of four ends inside the first. *)
Definition two_runs : list bool := [false; false; false; true; true; false; false; true; true; true; true; false].

Lemma mm_block_kept_witness :
  splits two_runs 4 /\
  match _align_chunk_to_mm_block 1 (Some 100) (Some (mask_cumsum two_runs)) 0 4 (Some 20) 12 with
  | Ok c => c = 5 /\ ~ splits two_runs 5
  | Err _ => False
  end.
Proof.
  split; [by split|].
  pose proof (mm_block_kept two_runs 1 (Some 100) 0 4 (Some 20) 12 ltac:(lia) ltac:(lia) eq_refl eq_refl eq_refl) as Hk.
  assert (Heq : _align_chunk_to_mm_block 1 (Some 100) (Some (mask_cumsum two_runs)) 0 4 (Some 20) 12 = Ok 5) by (vm_compute; reflexivity).
  rewrite Heq in Hk |- *. split; [reflexivity|]. destruct Hk as (_ & _ & _ & [Hx|[_ Hs]]); [discriminate|].
  apply Hs; [lia|reflexivity].
Defined.

(** Moving the boundary to a multiple of the unit may put it inside another run: in
    [two_runs] with unit four, the chunk that took the first run ends inside the
    second, although no run is longer than the context limit. *)
Theorem mm_rounding_splits_next_run :
  _align_chunk_to_mm_block 4 (Some 100) (Some (mask_cumsum two_runs)) 0 4 (Some 20) 12 = Ok 8 /\ splits two_runs 8.
Proof. split; [vm_compute; reflexivity|by split]. Qed.
