(* ===== verification/SchedulerV2.v ===== *)
(** * The scheduler for the second KV cache manager

    [KVCacheV2Scheduler] of [scheduler_v2.py] decides in one loop what fits in the KV
    cache and in the token budget: generation requests first, each taking its cache
    slot on the spot and evicting requests from the tail of the list if it finds none,
    then context and encoder requests.  The theorems say what the caches and the
    budget look like when it returns. *)

From stdpp Require Import prelude gmap.
From S2P Require Import Prelude Request Chunking MicroBatch Capacity KvManagerV2 MmChunk.
Local Open Scope Z_scope.

Inductive ScheduleAction := SCHEDULED | SKIP | STOP.

(** ** The budget *)

Record BudgetTracker := mkBudget {
  b_max_num_tokens : option Z;
  b_max_num_requests : Z;
  b_num_tokens : Z;
  b_num_requests : Z;
  b_peft : option PeftCacheManager;
  b_claimed_peft_pages : Z;
  b_seen_peft_task_ids : gset Z;
}.

Definition requests_full (b : BudgetTracker) : bool := b_max_num_requests b <=? b_num_requests b.

Definition can_fit_tokens (b : BudgetTracker) (num_tokens : Z) : bool :=
  match b_max_num_tokens b with
  | Some m => if m <? b_num_tokens b + num_tokens then false else true
  | None => true
  end.

Definition remaining_tokens (b : BudgetTracker) : option Z :=
  match b_max_num_tokens b with Some m => Some (m - b_num_tokens b) | None => None end.

Definition commit_peft (b : BudgetTracker) (r : PyRequest) (peft_pages : Z) : BudgetTracker :=
  mkBudget (b_max_num_tokens b) (b_max_num_requests b) (b_num_tokens b) (b_num_requests b) (b_peft b)
    (b_claimed_peft_pages b + peft_pages)
    (match lora_task_id (llm r) with Some i => {[i]} ∪ b_seen_peft_task_ids b | None => b_seen_peft_task_ids b end).

Definition commit (b : BudgetTracker) (r : PyRequest) (num_tokens peft_pages : Z) : BudgetTracker :=
  let b := mkBudget (b_max_num_tokens b) (b_max_num_requests b) (b_num_tokens b + num_tokens) (b_num_requests b + 1) (b_peft b)
             (b_claimed_peft_pages b) (b_seen_peft_task_ids b) in
  if 0 <? peft_pages then commit_peft b r peft_pages else b.

(** The pages a request's adapter needs; [None] if they are not there. *)
Definition peft_pages_needed (b : BudgetTracker) (r : PyRequest) : option Z :=
  match b_peft b, lora_task_id (llm r) with
  | Some p, Some i =>
      if bool_decide (i ∈ b_seen_peft_task_ids b) then Some 0
      else
        let required := determine_num_pages p (llm r) in
        if max_device_pages p <? b_claimed_peft_pages b + required then None else Some required
  | _, _ => Some 0
  end.

Definition pre_claim_peft (b : BudgetTracker) (r : PyRequest) : BudgetTracker :=
  match b_peft b, lora_task_id (llm r) with
  | Some p, Some i =>
      if bool_decide (i ∈ b_seen_peft_task_ids b) then b else commit_peft b r (determine_num_pages p (llm r))
  | _, _ => b
  end.

(** ** The scheduler *)

Section scheduler.
Context {C : Type} `{KvCaches C}.

Record KVCacheV2Scheduler := mkSchedulerV2 {
  v2_max_num_tokens : option Z;
  v2_max_num_requests : Z;
  v2_peft_cache_manager : option PeftCacheManager;
  chunking_enabled : bool;
  chunk_unit_size : Z;
  v2_no_schedule_until_state : LlmRequestState;
  v2_no_schedule_after_state : LlmRequestState;
}.

(** The constructor; [self.max_context_length] is [max_num_tokens]. *)
Definition KVCacheV2Scheduler_init (max_batch_size : Z) (max_num_tokens : option Z) (ctx_chunk_unit : option Z)
    (peft : option PeftCacheManager) (scheduler_capacity : option Z) (until after : LlmRequestState) : KVCacheV2Scheduler :=
  mkSchedulerV2 max_num_tokens (default max_batch_size scheduler_capacity) peft
    (negb (is_none ctx_chunk_unit)) (default 0 ctx_chunk_unit) until after.

(** The KV cache managers: the main one, the one of the draft layers and the one of
    cross attention. *)
Record Managers := mkManagers {
  main : KVCacheManagerV2 C;
  draft : option (KVCacheManagerV2 C);
  cross : option (KVCacheManagerV2 C);
}.

Definition set_main (ms : Managers) (m : KVCacheManagerV2 C) : Managers := mkManagers m (draft ms) (cross ms).

(** *** Suspending *)

Definition _suspend_request (ms : Managers) (r : PyRequest) : PyRequest * Managers :=
  (without_batch_idx r,
   mkManagers (suspend_request (main ms) r) ((fun d => suspend_request d r) <$> draft ms) (cross ms)).

Definition _is_started_request (r : PyRequest) : bool :=
  (is_context_init_state (llm r) && negb (is_first_context_chunk (llm r))) || is_generation_in_progress_state (llm r).

Definition _is_evictable (ms : Managers) (r : PyRequest) : bool :=
  if negb (_is_started_request r) then false else is_request_active (main ms) (py_request_id r).

(** From the tail: the position [req_it + n] and those below it down to [req_it + 1]
    are still to be looked at. *)
Fixpoint _try_evict_for_gen (r : PyRequest) (requests_list : list PyRequest) (req_it : Z) (n : nat) (req_it_end : Z)
    (evicted : list PyRequest) (ms : Managers) : result (bool * Z * list PyRequest * Managers) :=
  match n with
  | O => Ok (false, req_it_end, evicted, ms)
  | S n =>
      let i := req_it + Z.of_nat (S n) in
      victim ← py_get requests_list i;
      if _is_evictable ms victim then
        let '(victim, ms) := _suspend_request ms victim in
        '(success, m) ← try_allocate_generation (main ms) r;
        if (success : bool) then Ok (true, i, evicted ++ [victim], set_main ms m)
        else _try_evict_for_gen r requests_list req_it n i (evicted ++ [victim]) (set_main ms m)
      else _try_evict_for_gen r requests_list req_it n req_it_end evicted ms
  end.

(** *** One request *)

Variable sch : KVCacheV2Scheduler.

Definition _try_schedule_encoder (ms : Managers) (b : BudgetTracker) (r : PyRequest) : result (ScheduleAction * Z) :=
  if is_none (cross ms) then Err RuntimeError
  else
    req_tokens ← encoder_output_len (llm r);
    if negb (can_fit_tokens b req_tokens) then Ok (STOP, 0)
    else
      _ ← py_assert (negb (exceeds req_tokens (v2_max_num_tokens sch)));
      Ok (SCHEDULED, req_tokens).

Definition _try_schedule_disagg_gen_init (ms : Managers) (r : PyRequest) : result (ScheduleAction * PyRequest * Managers) :=
  '(prepared, r, m) ← prepare_context (main ms) r;
  if negb (prepared : bool) then Ok (SKIP, r, set_main ms m)
  else
    '(resized, r, m) ← resize_context m r (context_remaining_length (llm r) + get_draft_token_length r);
    Ok (if (resized : bool) then SCHEDULED else SKIP, r, set_main ms m).

Definition _needs_cross_context_allocation (r : PyRequest) : bool :=
  match opt_encoder_output_len (llm r) with Some _ => negb (py_skip_cross_kv_projection r) | None => false end.

Definition _try_schedule_cross_context_v2 (x : KVCacheManagerV2 C) (r : PyRequest) (req_tokens : Z) : result (bool * KVCacheManagerV2 C) :=
  let id := py_request_id r in
  if negb (has_cache x id) && negb (is_first_context_chunk (llm r)) then Ok (false, x)
  else
    x ← (if has_cache x id then Ok x
         else
           created ← _create_kv_cache x id (lora_task_id (llm r))
                       (if enable_block_reuse x then encoder_unique_tokens (llm r) else None);
           match created with Some x => Ok x | None => Err AttributeError end);
    let x := if negb (enable_block_reuse x) then set_caches x (kc_stop_committing (caches x) id) else x in
    let '(resumed, x) := _resume_and_restore x id in
    if negb resumed then Ok (false, x)
    else
      let target_capacity := req_tokens + num_extra_kv_tokens x in
      '(resized, x) ← cache_resize x id (Z.max (kc_capacity (caches x) id) target_capacity);
      if negb (resized : bool) then
        Ok (false, if is_first_context_chunk (llm r) then set_caches x (kc_suspend (caches x) id) else x)
      else Ok (true, x).

Definition _try_schedule_cross_context (ms : Managers) (r : PyRequest) : result (ScheduleAction * Managers) :=
  if negb (_needs_cross_context_allocation r) then Ok (SCHEDULED, ms)
  else
    match cross ms, opt_encoder_output_len (llm r) with
    | None, _ => Ok (STOP, ms)
    | Some _, None => Ok (SCHEDULED, ms)
    | Some x, Some req_tokens =>
        '(success, x) ← _try_schedule_cross_context_v2 x r req_tokens;
        Ok (if (success : bool) then SCHEDULED else SKIP, mkManagers (main ms) (draft ms) (Some x))
    end.

(** The main cache has been grown; the cross cache has to be, too. *)
Definition finish_context (ms : Managers) (r : PyRequest) (tokens : Z) (chunking : bool)
    : result (ScheduleAction * Z * bool * PyRequest * Managers) :=
  '(cross_action, ms) ← _try_schedule_cross_context ms r;
  match cross_action with
  | SCHEDULED => Ok (SCHEDULED, tokens, chunking, r, ms)
  | _ => let '(r, ms) := _suspend_request ms r in Ok (cross_action, 0, false, r, ms)
  end.

Definition _try_schedule_context_full (ms : Managers) (b : BudgetTracker) (r : PyRequest)
    : result (ScheduleAction * Z * bool * PyRequest * Managers) :=
  '(prepared, r, m) ← prepare_context (main ms) r;
  if negb (prepared : bool) then Ok (STOP, 0, false, r, set_main ms m)
  else
    let context_tokens := context_remaining_length (llm r) in
    let req_tokens := context_tokens + get_draft_token_length r in
    if negb (can_fit_tokens b req_tokens) then Ok (STOP, 0, false, r, set_main ms m)
    else
      _ ← py_assert (negb (exceeds context_tokens (v2_max_num_tokens sch)));
      '(resized, r, m) ← resize_context m r req_tokens;
      if negb (resized : bool) then Ok (SKIP, 0, false, r, set_main ms m)
      else finish_context (set_main ms m) r req_tokens false.

(** The chunk before multimodal blocks are looked at. *)
Definition first_chunk_size (remaining_budget : option Z) (context_remaining : Z) : result Z :=
  let chunk_size := match remaining_budget with Some n => Z.min n context_remaining | None => context_remaining end in
  let chunk_size := match v2_max_num_tokens sch with Some n => Z.min chunk_size n | None => chunk_size end in
  if chunk_size <? context_remaining then
    units ← pydiv chunk_size (chunk_unit_size sch);
    Ok (units * chunk_unit_size sch)
  else Ok chunk_size.

Definition _try_schedule_context_chunked (ms : Managers) (b : BudgetTracker) (r : PyRequest)
    : result (ScheduleAction * Z * bool * PyRequest * Managers) :=
  let remaining_budget := remaining_tokens b in
  if match remaining_budget with Some n => n <? chunk_unit_size sch | None => false end then Ok (SKIP, 0, false, r, ms)
  else
    '(prepared, r, m) ← prepare_context (main ms) r;
    let ms := set_main ms m in
    if negb (prepared : bool) then Ok (SKIP, 0, false, r, ms)
    else
      let context_remaining := context_remaining_length (llm r) in
      chunk_size ← first_chunk_size remaining_budget context_remaining;
      if chunk_size <=? 0 then Ok (SKIP, 0, false, r, ms)
      else
        chunk_size ← _align_chunk_to_mm_block (chunk_unit_size sch) (v2_max_num_tokens sch) (mm_embed_mask_cumsum r)
                       (context_current_position (llm r)) chunk_size remaining_budget context_remaining;
        if chunk_size <=? 0 then Ok (SKIP, 0, false, r, ms)
        else
          q ← set_context_chunk_size (llm r) chunk_size;
          let r := with_llm r q in
          last ← is_last_context_chunk (llm r);
          let chunk_tokens := if (last : bool) then chunk_size + get_draft_token_length r else chunk_size in
          '(resized, r, m) ← resize_context m r chunk_tokens;
          if negb (resized : bool) then Ok (SKIP, 0, false, r, set_main ms m)
          else finish_context (set_main ms m) r chunk_tokens (m_context_chunk_size (llm r) <? context_remaining_length (llm r)).

Definition _try_schedule_context (ms : Managers) (b : BudgetTracker) (r : PyRequest) :=
  if chunking_enabled sch then _try_schedule_context_chunked ms b r else _try_schedule_context_full ms b r.

(** *** Generation *)

Record GenOutcome := mkGen {
  g_action : ScheduleAction;
  g_tokens : Z;
  g_beam_width : Z;
  g_end : Z;
  g_evicted : list PyRequest;
  g_managers : Managers;
}.

Definition _try_schedule_generation (ms : Managers) (b : BudgetTracker) (requests_list : list PyRequest) (req_it : Z) (r : PyRequest)
    (req_it_end : Z) (evicted : list PyRequest) (scheduled_beam_width : Z) : result GenOutcome :=
  beam_width ← get_beam_width_by_iter (llm r) false;
  let req_tokens := beam_width + get_draft_token_length r in
  if negb (can_fit_tokens b req_tokens) then Ok (mkGen STOP 0 scheduled_beam_width req_it_end evicted ms)
  else if negb (scheduled_beam_width =? 0) && negb (scheduled_beam_width =? beam_width)
  then Ok (mkGen SKIP 0 scheduled_beam_width req_it_end evicted ms)
  else
    let scheduled_beam_width := if scheduled_beam_width =? 0 then beam_width else scheduled_beam_width in
    '(success, m) ← try_allocate_generation (main ms) r;
    let ms := set_main ms m in
    '(success, req_it_end, evicted, ms) ←
      (if (success : bool) then Ok (true, req_it_end, evicted, ms)
       else _try_evict_for_gen r requests_list req_it (Z.to_nat (req_it_end - req_it - 1)) req_it_end evicted ms);
    if (success : bool) then Ok (mkGen SCHEDULED req_tokens scheduled_beam_width req_it_end evicted ms)
    else if is_request_active (main ms) (py_request_id r) then
      let '(r, ms) := _suspend_request ms r in
      Ok (mkGen STOP 0 scheduled_beam_width req_it_end (evicted ++ [r]) ms)
    else Ok (mkGen STOP 0 scheduled_beam_width req_it_end evicted ms).

(** *** The loop *)

Record LoopState := mkLoopState {
  ls_managers : Managers;
  ls_budget : BudgetTracker;
  ls_gen : list PyRequest;
  ls_evicted : list PyRequest;
  ls_disagg : list PyRequest;
  ls_pending : list PyRequest;
  ls_beam_width : Z;
  ls_end : Z;
}.

(** Phase 1: the request at position [req_it]. *)
Definition gen_phase (inflight : gset Z) (requests_list : list PyRequest) (st : LoopState) (x : Z * PyRequest) : result (ctl LoopState) :=
  let '(req_it, r) := x in
  let '(mkLoopState ms b gen evicted disagg pending beam req_it_end) := st in
  if req_it_end <=? req_it then Ok (Break st)
  else if bool_decide (py_request_id r ∈ inflight) then Ok (Continue st)
  else if bool_decide (state (llm r) = DISAGG_GENERATION_INIT) then
    match peft_pages_needed b r with
    | None => Ok (Break st)
    | Some peft_pages =>
        '(action, r, ms) ← _try_schedule_disagg_gen_init ms r;
        match action with
        | STOP => Ok (Break (mkLoopState ms b gen evicted disagg pending beam req_it_end))
        | SKIP => Ok (Continue (mkLoopState ms b gen evicted disagg pending beam req_it_end))
        | SCHEDULED =>
            let b := if 0 <? peft_pages then commit_peft b r peft_pages else b in
            Ok (Continue (mkLoopState ms b gen evicted (disagg ++ [r]) pending beam req_it_end))
        end
    end
  else if requests_full b then Ok (Break st)
  else if negb (state_in_range (v2_no_schedule_until_state sch) (v2_no_schedule_after_state sch) (llm r)) then Ok (Continue st)
  else if bool_decide (state (llm r) = ENCODER_INIT) || bool_decide (state (llm r) = CONTEXT_INIT) then
    Ok (Continue (mkLoopState ms b gen evicted disagg (pending ++ [r]) beam req_it_end))
  else
    match peft_pages_needed b r with
    | None => Ok (Break st)
    | Some peft_pages =>
        o ← _try_schedule_generation ms b requests_list req_it r req_it_end evicted beam;
        match g_action o with
        | STOP => Ok (Break (mkLoopState (g_managers o) b gen (g_evicted o) disagg pending (g_beam_width o) (g_end o)))
        | SKIP => Ok (Continue (mkLoopState (g_managers o) b gen (g_evicted o) disagg pending (g_beam_width o) (g_end o)))
        | SCHEDULED => Ok (Continue (mkLoopState (g_managers o) (commit b r (g_tokens o) peft_pages) (gen ++ [r]) (g_evicted o)
                                       disagg pending (g_beam_width o) (g_end o)))
        end
    end.

Record ContextState := mkContextState {
  cs_managers : Managers;
  cs_budget : BudgetTracker;
  cs_encoder : list PyRequest;
  cs_context : list PyRequest;
  cs_has_chunking : bool;
}.

(** Phase 2: a deferred context or encoder request. *)
Definition ctx_phase (st : ContextState) (r : PyRequest) : result (ctl ContextState) :=
  let '(mkContextState ms b enc ctx has_chunking) := st in
  if requests_full b then Ok (Break st)
  else
    match peft_pages_needed b r with
    | None => Ok (Continue st)
    | Some peft_pages =>
        if bool_decide (state (llm r) = ENCODER_INIT) then
          '(action, tokens) ← _try_schedule_encoder ms b r;
          match action with
          | STOP => Ok (Break st)
          | _ => Ok (Continue (mkContextState ms (commit b r tokens peft_pages) (enc ++ [r]) ctx has_chunking))
          end
        else
          '(action, tokens, chunking, r, ms) ← _try_schedule_context ms b r;
          match action with
          | STOP => Ok (Break (mkContextState ms b enc ctx has_chunking))
          | SKIP => Ok (Continue (mkContextState ms b enc ctx has_chunking))
          | SCHEDULED => Ok (Continue (mkContextState ms (commit b r tokens peft_pages) enc (ctx ++ [r]) (has_chunking || chunking)))
          end
    end.

Definition is_gen_candidate (inflight : gset Z) (r : PyRequest) : bool :=
  is_generation_in_progress_state (llm r) && negb (bool_decide (state (llm r) = GENERATION_TO_COMPLETE))
  && negb (bool_decide (py_request_id r ∈ inflight)).

Record SchedulerOutputV2 := mkOutputV2 {
  o_encoder : list PyRequest;
  o_context : list PyRequest;
  o_generation : list PyRequest;
  o_paused : list PyRequest;
  o_disagg : list PyRequest;
  o_num_fitting : Z;
}.

Definition initial_budget (requests : list PyRequest) : BudgetTracker :=
  foldl (fun b r => if bool_decide (state (llm r) = GENERATION_TO_COMPLETE) then pre_claim_peft b r else b)
    (mkBudget (v2_max_num_tokens sch) (v2_max_num_requests sch) 0 0 (v2_peft_cache_manager sch) 0 ∅) requests.

Definition _schedule_loop (ms : Managers) (active_requests : list PyRequest) (inflight : gset Z)
    : result (ContextState * LoopState) :=
  let n := len active_requests in
  st ← for_loop (gen_phase inflight active_requests)
         (mkLoopState ms (initial_budget active_requests) [] [] [] [] 0 n) (zip (seqZ 0 n) active_requests);
  cs ← for_loop ctx_phase (mkContextState (ls_managers st) (ls_budget st) [] [] false) (ls_pending st);
  match ls_gen st, cs_context cs, ls_evicted st with
  | [], [], [] => if existsb (is_gen_candidate inflight) active_requests then Err RuntimeError else Ok (cs, st)
  | _, _, _ => Ok (cs, st)
  end.

Definition py_lora_le (r q : PyRequest) : bool := lora_le (llm r) (llm q).

Definition _sort_requests (ctx : list PyRequest) (has_chunks : bool) : result (list PyRequest) :=
  if has_chunks then
    lasts ← mapM (fun r => is_last_context_chunk (llm r)) ctx;
    let tagged := zip ctx lasts in
    let not_last := (filter (fun p => p.2 = false) tagged).*1 in
    let last := (filter (fun p => p.2 = true) tagged).*1 in
    Ok (sort_by py_lora_le not_last ++ sort_by py_lora_le last)
  else Ok (sort_by py_lora_le ctx).

Definition v2_schedule_request (ms : Managers) (active_requests : list PyRequest) (inflight : gset Z)
    : result (SchedulerOutputV2 * Managers) :=
  let active_requests := filter (fun r => is_decoder_context_request_waiting_for_encoder_output (llm r) = false) active_requests in
  '(cs, st) ← _schedule_loop ms active_requests inflight;
  ctx ← _sort_requests (cs_context cs) (cs_has_chunking cs);
  let enc := sort_by py_lora_le (cs_encoder cs) in
  let gen := sort_by py_lora_le (ls_gen st) in
  Ok (mkOutputV2 enc ctx gen (ls_evicted st) (ls_disagg st) (len enc + len ctx + len gen), cs_managers cs).

(** [can_schedule] does not look. *)
Definition v2_can_schedule (requests : list PyRequest) : bool := true.

End scheduler.

Arguments Managers C : clear implicits.

(** ** Proofs *)

Section proofs.
Context {C : Type} `{Hlaws : KvCachesLaws C}.
Variable sch : KVCacheV2Scheduler.
Implicit Types ms : Managers C.

Abbreviation rid := py_request_id.

Lemma suspend_request_spec ms r :
  touches (rid r) (main ms) (main (_suspend_request ms r).2) /\ is_request_active (main (_suspend_request ms r).2) (rid r) = false.
Proof. apply suspend_spec. Qed.

(** *** Evicting from the tail *)

Section evict.
Variables (reqs : list PyRequest) (i : nat) (r : PyRequest).
Hypotheses (Hnd : NoDup (rid <$> reqs)) (Hr : reqs !! i = Some r).

Lemma rid_inj j k q1 q2 : reqs !! j = Some q1 -> reqs !! k = Some q2 -> rid q1 = rid q2 -> j = k.
Proof. clear Hr. intros H1 H2 He. apply (NoDup_lookup _ j k (rid q1) Hnd); rewrite list_lookup_fmap, ?H1, ?H2; simpl; congruence. Qed.

(** The victims [vs]: requests from [e'] to [e], now suspended. *)
Definition victims (m : KVCacheManagerV2 C) (e' e : Z) (vs : list PyRequest) : Prop :=
  NoDup (rid <$> vs)
  /\ forall v, v ∈ vs -> is_request_active m (rid v) = false
       /\ exists j q, reqs !! j = Some q /\ e' <= Z.of_nat j < e /\ v = without_batch_idx q.

Lemma victims_same m m' e' e vs : victims m e' e vs ->
  (forall v, v ∈ vs -> same_cache m m' (rid v)) -> victims m' e' e vs.
Proof. intros [Hn Hv] Hs. split; [done|]. intros v Hin. rewrite (same_cache_active _ _ _ (Hs v Hin)). by apply Hv. Qed.

Lemma evict_for_gen_spec n : forall e ev ms,
  Z.of_nat i + Z.of_nat n < len reqs -> Z.of_nat i + Z.of_nat n < e ->
  exists b e' vs ms', _try_evict_for_gen r reqs (Z.of_nat i) n e ev ms = Ok (b, e', ev ++ vs, ms')
    /\ Z.of_nat i < e' <= e /\ victims (main ms') e' (Z.of_nat i + Z.of_nat n + 1) vs
    /\ num_extra_kv_tokens (main ms') = num_extra_kv_tokens (main ms)
    /\ (forall id, id <> rid r -> id ∉ (rid <$> vs) -> same_cache (main ms) (main ms') id)
    /\ if b then ready (main ms') (rid r) (kc_capacity (caches (main ms)) (rid r) + 1 + _effective_draft_len r)
       else kc_capacity (caches (main ms')) (rid r) = kc_capacity (caches (main ms)) (rid r).
Proof.
  induction n as [|n IH]; intros e ev ms Hn He.
  { exists false, e, [], ms. rewrite app_nil_r. split; [done|]. split; [lia|]. split; [split; [constructor|intros v Hv; by apply not_elem_of_nil in Hv]|]. done. }
  destruct (lookup_lt_is_Some_2 reqs (i + S n)) as [q Hq]; [lia|]. cbn [_try_evict_for_gen].
  replace (Z.of_nat i + Z.of_nat (S n)) with (Z.of_nat (i + S n)) by lia. rewrite (py_get_nat _ _ _ Hq). cbn [mbind result_bind].
  assert (Hne : rid q <> rid r) by (intros Heq; pose proof (rid_inj _ _ _ _ Hq Hr Heq); lia).
  destruct (_is_evictable ms q).
  2: { destruct (IH e ev ms ltac:(lia) ltac:(lia)) as (b & e' & vs & ms' & Hrun & Hle & [Hvn Hv] & Hrest). exists b, e', vs, ms'.
       split; [done|]. split; [done|]. split; [|done]. split; [done|]. intros v Hin. destruct (Hv v Hin) as (? & j & q' & ? & ? & ?).
       split; [done|]. exists j, q'. split; [done|]. split; [lia|done]. }
  destruct (suspend_request_spec ms q) as [T1 Hoff]. destruct (_suspend_request ms q) as [v ms1] eqn:Hsus. simpl in T1, Hoff.
  assert (v = without_batch_idx q) as -> by (unfold _suspend_request in Hsus; congruence).
  destruct (try_allocate_spec (main ms1) r) as (b1 & m2 & -> & T2 & Hb1). cbn [mbind result_bind].
  destruct (proj2 T1 (rid r) (not_eq_sym Hne)) as (_ & _ & Hcap1).
  assert (Hoff2 : is_request_active m2 (rid q) = false) by (rewrite (same_cache_active _ _ _ (proj2 T2 (rid q) Hne)); done).
  assert (Hsame2 : forall id, id <> rid r -> id <> rid q -> same_cache (main ms) m2 id).
  { intros id H1 H2. by apply (same_cache_trans _ (main ms1)); [apply T1|apply T2]. }
  destruct b1.
  - exists true, (Z.of_nat (i + S n)), [without_batch_idx q], (set_main ms1 m2). split; [done|]. split; [lia|]. split; [|split; [|split]].
    + split; [apply NoDup_singleton|]. intros v ->%list_elem_of_singleton. split; [done|]. exists (i + S n)%nat, q. split; [done|]. split; [lia|done].
    + simpl. rewrite (proj1 T2). apply T1.
    + intros id H1 H2. apply Hsame2; [done|]. intros ->. apply H2. by left.
    + simpl. by rewrite <- Hcap1.
  - destruct (IH (Z.of_nat (i + S n)) (ev ++ [without_batch_idx q]) (set_main ms1 m2) ltac:(lia) ltac:(lia))
      as (b & e' & vs & ms' & Hrun & Hle & [Hvn Hv] & Hex & Hsame & Hb). simpl in Hex, Hsame, Hb.
    assert (Hni : rid q ∉ (rid <$> vs)).
    { intros (v & Heq & Hin)%list_elem_of_fmap. destruct (Hv v Hin) as (_ & j & q' & Hj & Hlt & ->). pose proof (rid_inj _ _ _ _ Hq Hj Heq). lia. }
    exists b, e', (without_batch_idx q :: vs), ms'. rewrite <- app_assoc in Hrun. split; [done|]. split; [lia|]. split; [|split; [|split]].
    + split; [by constructor|]. intros v [->|Hin]%elem_of_cons.
      * change (rid (without_batch_idx q)) with (rid q). split; [by rewrite (same_cache_active _ _ _ (Hsame (rid q) Hne Hni))|]. exists (i + S n)%nat, q. split; [done|]. split; [lia|done].
      * destruct (Hv v Hin) as (? & j & q' & ? & ? & ?). split; [done|]. exists j, q'. split; [done|]. split; [lia|done].
    + rewrite Hex, (proj1 T2). apply T1.
    + intros id H1 [H2 H3]%not_elem_of_cons. by apply (same_cache_trans _ m2); [apply Hsame2|apply Hsame].
    + rewrite Hb1, Hcap1 in Hb. done.
Qed.

(** The tokens of a generation step. *)
Definition gen_tokens (q : PyRequest) : Z :=
  match get_beam_width_by_iter (llm q) false with Ok w => w + get_draft_token_length q | Err _ => 0 end.

Lemma victims_weaken m e1 e2 e vs : e2 <= e1 -> victims m e1 e vs -> victims m e2 e vs.
Proof. intros Hle [Hn Hv]. split; [done|]. intros v Hin. destruct (Hv v Hin) as (? & j & q & ? & ? & ?). split; [done|]. exists j, q. split; [done|]. split; [lia|done]. Qed.

Lemma victims_nil m e' e : victims m e' e [].
Proof. split; [constructor|]. intros v Hv. by apply not_elem_of_nil in Hv. Qed.

Lemma generation_spec b e ev beam ms :
  Z.of_nat i < e <= len reqs ->
  match _try_schedule_generation ms b reqs (Z.of_nat i) r e ev beam with
  | Err x => get_beam_width_by_iter (llm r) false = Err x
  | Ok o => exists vs, g_evicted o = ev ++ vs /\ Z.of_nat i < g_end o <= e /\ (beam = 0 \/ beam = g_beam_width o)
      /\ num_extra_kv_tokens (main (g_managers o)) = num_extra_kv_tokens (main ms)
      /\ (forall id, id <> rid r -> id ∉ (rid <$> vs) -> same_cache (main ms) (main (g_managers o)) id)
      /\ match g_action o with
         | SCHEDULED => victims (main (g_managers o)) (g_end o) e vs
             /\ ready (main (g_managers o)) (rid r) (kc_capacity (caches (main ms)) (rid r) + 1 + _effective_draft_len r)
             /\ g_tokens o = gen_tokens r /\ can_fit_tokens b (gen_tokens r) = true
             /\ get_beam_width_by_iter (llm r) false = Ok (g_beam_width o)
         | SKIP => vs = [] /\ g_managers o = ms /\ g_end o = e /\ g_beam_width o = beam
         | STOP => victims (main (g_managers o)) (Z.of_nat i) e vs
         end
  end.
Proof.
  intros He. unfold _try_schedule_generation. destruct (get_beam_width_by_iter (llm r) false) as [w|] eqn:Hw; [|done]. cbn [mbind result_bind].
  assert (Hgt : gen_tokens r = w + get_draft_token_length r) by (unfold gen_tokens; by rewrite Hw).
  destruct (can_fit_tokens b (w + get_draft_token_length r)) eqn:Hfit; cbn [negb].
  2: { exists []. rewrite app_nil_r. split; [done|]. split; [simpl; lia|]. split; [by right|]. split; [done|]. split; [done|]. apply victims_nil. }
  destruct (negb (beam =? 0) && negb (beam =? w)) eqn:Hb.
  { exists []. rewrite app_nil_r. split; [done|]. split; [simpl; lia|]. split; [by right|]. done. }
  assert (Hbeam : (if beam =? 0 then w else beam) = w /\ (beam = 0 \/ beam = w)).
  { destruct (Z.eqb_spec beam 0); [by split; [|left]|]. destruct (Z.eqb_spec beam w); [by split; [|right]|done]. }
  destruct Hbeam as [-> Hbeam].
  destruct (try_allocate_spec (main ms) r) as (b1 & m1 & -> & T1 & Hb1). cbn [mbind result_bind].
  destruct b1; cbn [mbind result_bind].
  { exists []. rewrite app_nil_r. split; [done|]. split; [simpl; lia|]. split; [done|]. split; [apply T1|]. split; [intros id H1 _; by apply T1|].
    split; [apply victims_nil|]. simpl. by rewrite Hgt. }
  destruct (evict_for_gen_spec (Z.to_nat (e - Z.of_nat i - 1)) e ev (set_main ms m1) ltac:(lia) ltac:(lia))
    as (b2 & e' & vs & ms' & -> & Hle & Hvs & Hex & Hsame & Hb2). cbn [mbind result_bind]. simpl in Hex, Hsame, Hb2.
  replace (Z.of_nat i + Z.of_nat (Z.to_nat (e - Z.of_nat i - 1)) + 1) with e in Hvs by lia.
  assert (Hsame' : forall id, id <> rid r -> id ∉ (rid <$> vs) -> same_cache (main ms) (main ms') id).
  { intros id H1 H2. by apply (same_cache_trans _ m1); [apply T1|apply Hsame]. }
  rewrite (proj1 T1) in Hex. rewrite Hb1 in Hb2. destruct b2.
  { exists vs. split; [done|]. split; [done|]. split; [done|]. split; [done|]. split; [done|]. split; [done|]. split; [done|]. simpl. by rewrite Hgt. }
  destruct (is_request_active (main ms') (rid r)) eqn:Hact.
  2: { exists vs. split; [done|]. split; [done|]. split; [done|]. split; [done|]. split; [done|]. apply (victims_weaken _ e'); [lia|done]. }
  destruct (suspend_request_spec ms' r) as [T3 Hoff]. destruct (_suspend_request ms' r) as [v ms3] eqn:Hsus. simpl in T3, Hoff.
  assert (v = without_batch_idx r) as -> by (unfold _suspend_request in Hsus; congruence).
  assert (Hni : forall v, v ∈ vs -> rid v <> rid r).
  { intros v Hin Heq. destruct (proj2 Hvs v Hin) as (_ & j & q & Hj & Hlt & ->). pose proof (rid_inj _ _ _ _ Hj Hr Heq). lia. }
  exists (vs ++ [without_batch_idx r]). simpl. rewrite app_assoc. split; [done|]. split; [done|]. split; [done|]. split; [rewrite (proj1 T3); done|]. split.
  - intros id H1 H2. rewrite fmap_app in H2. apply not_elem_of_app in H2 as [H2 _]. by apply (same_cache_trans _ (main ms')); [apply Hsame'|apply T3].
  - split.
    + rewrite fmap_app. apply NoDup_app. split; [apply Hvs|]. split; [|apply NoDup_singleton]. intros x (v & -> & Hin)%list_elem_of_fmap Hx.
      apply list_elem_of_singleton in Hx. by apply (Hni v Hin).
    + intros v Hv. apply elem_of_app in Hv as [Hin|Hin]; [|apply list_elem_of_singleton in Hin as ->].
      * destruct (proj2 Hvs v Hin) as (Hv & j & q & Hj & Hlt & Heq). rewrite (same_cache_active _ _ _ (proj2 T3 (rid v) (Hni v Hin))). split; [done|].
        exists j, q. split; [done|]. split; [lia|done].
      * split; [done|]. exists i, r. split; [done|]. split; [lia|done].
Qed.

End evict.

(** *** Context requests *)

Lemma disagg_spec ms r :
  match _try_schedule_disagg_gen_init ms r with
  | Err e => prepare_context (main ms) r = Err e
  | Ok (a, r', ms') => touches (rid r) (main ms) (main ms') /\ same_request r r' /\ a <> STOP
      /\ (a = SCHEDULED -> ready (main ms') (rid r)
           (context_current_position (llm r') + (context_remaining_length (llm r') + get_draft_token_length r') + num_extra_kv_tokens (main ms')))
  end.
Proof.
  unfold _try_schedule_disagg_gen_init. destruct (prepare_context (main ms) r) as [[[b r1] m1]|] eqn:Hp; [|done]. cbn [mbind result_bind].
  destruct (prepare_context_spec _ _ _ _ _ Hp) as (T1 & Hs1 & _ & Ha). destruct b; cbn [negb]; [|by split; [|split; [|split]]].
  pose proof (proj1 Hs1) as Hid.
  destruct (resize_context_spec m1 r1 (context_remaining_length (llm r1) + get_draft_token_length r1)) as (b & r2 & m2 & -> & T2 & Hr2 & Hb);
    [rewrite Hid; by apply Ha|]. rewrite Hid in T2, Hb. cbn [mbind result_bind].
  assert (Hs2 : same_request r r2) by (destruct Hr2 as [->|[c ->]]; done).
  split; [by eapply touches_trans|]. split; [done|]. split; [by destruct b|]. destruct b; [|done]. intros _.
  destruct Hr2 as [->|[c ->]]; simpl; rewrite (proj1 T2); by apply Hb.
Qed.

Lemma cross_v2_errors (x : KVCacheManagerV2 C) r n e : _try_schedule_cross_context_v2 x r n = Err e -> e = AttributeError.
Proof.
  unfold _try_schedule_cross_context_v2. destruct (negb (has_cache x (rid r)) && _); [done|]. intros Hx.
  destruct (if has_cache x (rid r) then Ok x else _) as [x1|e1] eqn:Hc.
  - cbn [mbind result_bind] in Hx. set (x2 := if negb (enable_block_reuse x1) then _ else x1) in Hx.
    destruct (resume_spec x2 (rid r)) as (b & x3 & Heq & _ & _ & Ha & _). rewrite Heq in Hx. destruct b; cbn [negb] in Hx; [|done].
    destruct (cache_resize_spec x3 (rid r) (Z.max (kc_capacity (caches x3) (rid r)) (n + num_extra_kv_tokens x3)) Ha) as (b & x4 & Heq4 & _).
    rewrite Heq4 in Hx. cbn [mbind result_bind] in Hx. by destruct b.
  - cbn [mbind result_bind] in Hx. injection Hx as <-. destruct (has_cache x (rid r)) eqn:Hh; [done|]. unfold _create_kv_cache in Hc.
    rewrite Hh in Hc. cbn [py_assert mbind result_bind negb] in Hc. destruct (free_index_slots x =? 0); cbn [mbind result_bind] in Hc; [|done]. congruence.
Qed.

(** What may go wrong with a context request. *)
Definition ctx_raises (r : PyRequest) (e : exn) : Prop :=
  prepare_raises r e
  \/ (is_none (mm_embed_mask_cumsum r) = false /\ (e = ValueError \/ e = IndexError))
  \/ (_needs_cross_context_allocation r = true /\ e = AttributeError).

Lemma finish_context_spec ms r tokens ch :
  match finish_context ms r tokens ch with
  | Err e => _needs_cross_context_allocation r = true /\ e = AttributeError
  | Ok (a, t, _, r', ms') => touches (rid r) (main ms) (main ms') /\ same_request r r'
      /\ (a = SCHEDULED -> t = tokens /\ r' = r /\ main ms' = main ms)
  end.
Proof.
  unfold finish_context, _try_schedule_cross_context. destruct (_needs_cross_context_allocation r) eqn:Hn; cbn [negb mbind result_bind];
    [|split; [apply touches_refl|]; split; [apply same_request_refl|done]].
  assert (Hsus : forall ms1, main ms1 = main ms -> touches (rid r) (main ms) (main (_suspend_request ms1 r).2)).
  { intros ms1 <-. apply suspend_request_spec. }
  destruct (cross ms) as [x|]; cbn [mbind result_bind]; [|split; [by apply Hsus|]; split; [done|done]].
  destruct (opt_encoder_output_len (llm r)) as [n|]; cbn [mbind result_bind]; [|split; [apply touches_refl|]; split; [apply same_request_refl|done]].
  destruct (_try_schedule_cross_context_v2 x r n) as [[b x']|e] eqn:Hx; cbn [mbind result_bind]; [|split; [done|]; by eapply cross_v2_errors].
  destruct b; [split; [apply touches_refl|]; split; [apply same_request_refl|done]|]. split; [by apply (Hsus (mkManagers (main ms) (draft ms) (Some x')))|].
  split; [done|done].
Qed.

(** The tokens a context request takes, and those of them that nobody counted against
    the budget: the draft tokens of a last chunk. *)
Definition at_last (r : PyRequest) : bool := context_current_position (llm r) + m_context_chunk_size (llm r) =? prompt_len (llm r).

Definition ctx_drafts (r : PyRequest) : Z := if chunking_enabled sch && at_last r then get_draft_token_length r else 0.

Definition ctx_tokens (r : PyRequest) : Z :=
  if chunking_enabled sch then m_context_chunk_size (llm r) + ctx_drafts r
  else context_remaining_length (llm r) + get_draft_token_length r.

Definition ctx_outcome ms (b : BudgetTracker) (r : PyRequest) (res : result (ScheduleAction * Z * bool * PyRequest * Managers C)) : Prop :=
  match res with
  | Err e => ctx_raises r e
  | Ok (a, t, _, r', ms') => touches (rid r) (main ms) (main ms') /\ same_request r r'
      /\ (a = SCHEDULED -> t = ctx_tokens r' /\ can_fit_tokens b (t - ctx_drafts r') = true
           /\ ready (main ms') (rid r) (context_current_position (llm r') + ctx_tokens r' + num_extra_kv_tokens (main ms'))
           /\ (0 <= context_remaining_length (llm r) -> 0 <= t))
  end.

Lemma context_full_spec ms b r :
  chunking_enabled sch = false -> b_max_num_tokens b = v2_max_num_tokens sch -> 0 <= b_num_tokens b ->
  ctx_outcome ms b r (_try_schedule_context_full sch ms b r).
Proof.
  intros Hch Hmax Hnum. unfold _try_schedule_context_full, ctx_outcome.
  destruct (prepare_context (main ms) r) as [[[pb r1] m1]|] eqn:Hp; [|left; by eapply prepare_context_errors]. cbn [mbind result_bind].
  destruct (prepare_context_spec _ _ _ _ _ Hp) as (T1 & Hs1 & Hrem & Ha). destruct pb; cbn [negb]; [|by split; [|split]].
  set (n := context_remaining_length (llm r1) + get_draft_token_length r1). destruct (can_fit_tokens b n) eqn:Hfit; cbn [negb]; [|by split; [|split]].
  assert (Hd : 0 <= get_draft_token_length r1) by (unfold get_draft_token_length; case_match; lia).
  assert (exceeds (context_remaining_length (llm r1)) (v2_max_num_tokens sch) = false) as ->.
  { unfold can_fit_tokens in Hfit. rewrite Hmax in Hfit. destruct (v2_max_num_tokens sch) as [mx|]; [|done]. simpl.
    destruct (Z.ltb_spec mx (b_num_tokens b + n)); [done|]. subst n. lia. }
  cbn [py_assert mbind result_bind negb]. pose proof (proj1 Hs1) as Hid.
  destruct (resize_context_spec m1 r1 n) as (rb & r2 & m2 & -> & T2 & Hr2 & Hb); [rewrite Hid; by apply Ha|].
  rewrite Hid in T2, Hb. cbn [mbind result_bind]. assert (T : touches (rid r) (main ms) m2) by (by eapply touches_trans).
  assert (Hs2 : same_request r r2) by (destruct Hr2 as [->|[c ->]]; done). destruct rb; cbn [negb]; [|by split; [|split]].
  pose proof (finish_context_spec (set_main ms m2) r2 n false) as Hf. destruct (finish_context _ _ _ _) as [[[[[a t] ch] r3] ms3]|e].
  2: { right. right. destruct Hf as [Hn ->]. split; [|done]. unfold _needs_cross_context_allocation in *.
       destruct Hs2 as (_ & _ & _ & _ & He & _ & _ & Hsk). by rewrite He, Hsk in Hn. }
  destruct Hf as (T3 & Hs3 & Hsch). rewrite (proj1 Hs2) in T3. split; [by eapply touches_trans|]. split; [by eapply same_request_trans|].
  intros Hact. destruct (Hsch Hact) as (-> & -> & Hm). rewrite Hm. simpl main. unfold ctx_tokens, ctx_drafts. rewrite Hch. cbn [andb].
  assert (Hn2 : context_remaining_length (llm r2) + get_draft_token_length r2 = n) by (destruct Hr2 as [->|[c ->]]; done).
  assert (Hp2 : context_current_position (llm r2) = context_current_position (llm r1)) by (destruct Hr2 as [->|[c ->]]; done).
  rewrite Hn2, Hp2, Z.sub_0_r. split; [done|]. split; [done|]. split; [rewrite (proj1 T2); by apply Hb|]. intros Hpos. subst n.
  unfold context_remaining_length in *. destruct Hrem as [->|Hrem]; lia.
Qed.

Lemma first_chunk_spec rb cr : 0 < chunk_unit_size sch ->
  exists c, first_chunk_size sch rb cr = Ok c /\ c <= cr /\ fits c rb = true.
Proof.
  intros Hu. unfold first_chunk_size. set (x := match rb with Some n => Z.min n cr | None => cr end).
  set (y := match v2_max_num_tokens sch with Some n => Z.min x n | None => x end).
  assert (Hx : x <= cr) by (subst x; destruct rb; lia). assert (Hy : y <= x) by (subst y; case_match; lia).
  assert (Hfit : forall c, c <= x -> fits c rb = true) by (intros c Hc; subst x; destruct rb as [n|]; [simpl; lia|done]).
  destruct (Z.ltb_spec y cr); [|exists y; split; [done|]; split; [lia|]; apply Hfit; lia].
  unfold pydiv. destruct (Z.eqb_spec (chunk_unit_size sch) 0); [lia|]. cbn [mbind result_bind].
  pose proof (rounded_down y (chunk_unit_size sch) Hu). eexists. split; [done|]. split; [lia|]. apply Hfit. lia.
Qed.

Lemma set_chunk_ok r n : is_context_init_state r = true -> 0 < n <= context_remaining_length r ->
  set_context_chunk_size r n = Ok (with_chunk r n) /\ is_last_context_chunk (with_chunk r n) = Ok (context_current_position r + n =? prompt_len r).
Proof.
  intros Hs Hn. assert (Hph : chunk_phase r = true) by (unfold chunk_phase; by rewrite Hs). split.
  - unfold set_context_chunk_size. rewrite Hph. destruct (Z.leb_spec 0 n); [|lia]. by rewrite Z.min_l by lia.
  - unfold is_last_context_chunk, context_chunk_size. change (chunk_phase (with_chunk r n)) with (chunk_phase r). rewrite Hph.
    unfold is_disagg_generation_init_state, is_disagg_generation_transmission_complete. simpl.
    unfold is_context_init_state in Hs. destruct (state r); done.
Qed.

Lemma context_chunked_spec ms b r :
  chunking_enabled sch = true -> 0 < chunk_unit_size sch -> is_context_init_state (llm r) = true ->
  ctx_outcome ms b r (_try_schedule_context_chunked sch ms b r).
Proof.
  intros Hch Hu Hst. unfold _try_schedule_context_chunked, ctx_outcome. set (rb := remaining_tokens b).
  destruct (match rb with Some n => n <? chunk_unit_size sch | None => false end);
    [split; [apply touches_refl|]; split; [apply same_request_refl|done]|].
  destruct (prepare_context (main ms) r) as [[[pb r1] m1]|] eqn:Hp; [|left; by eapply prepare_context_errors]. cbn [mbind result_bind].
  destruct (prepare_context_spec _ _ _ _ _ Hp) as (T1 & Hs1 & _ & Ha). destruct pb; cbn [negb]; [|by split; [|split]].
  destruct (first_chunk_spec rb (context_remaining_length (llm r1)) Hu) as (c0 & -> & Hc0 & Hf0). cbn [mbind result_bind].
  destruct (Z.leb_spec c0 0); [by split; [|split]|].
  destruct (_align_chunk_to_mm_block _ _ _ _ _ _ _) as [c|e] eqn:Hal; cbn [mbind result_bind].
  2: { apply align_errors in Hal as [Hmm He]. right. left. split; [|done]. destruct Hs1 as (_ & _ & _ & _ & _ & _ & Hm & _). by rewrite <- Hm. }
  apply align_bounds in Hal as [Hc Hfc]; [|lia|done]. destruct (Z.leb_spec c 0); [by split; [|split]|].
  assert (Hst1 : is_context_init_state (llm r1) = true) by (unfold is_context_init_state; destruct Hs1 as (_ & -> & _); done).
  destruct (set_chunk_ok (llm r1) c Hst1 ltac:(lia)) as [-> Hlast]. cbn [mbind result_bind]. simpl llm. rewrite Hlast. cbn [mbind result_bind].
  set (r2 := with_llm r1 (with_chunk (llm r1) c)). set (n := if context_current_position (llm r1) + c =? prompt_len (llm r1) then _ else c).
  assert (Hs2 : same_request r r2) by done. pose proof (proj1 Hs2) as Hid.
  destruct (resize_context_spec m1 r2 n) as (b3 & r3 & m3 & -> & T3 & Hr3 & Hb); [rewrite Hid; by apply Ha|]. rewrite Hid in T3, Hb.
  cbn [mbind result_bind]. assert (T : touches (rid r) (main ms) m3) by (by eapply touches_trans).
  assert (Hs3 : same_request r r3) by (destruct Hr3 as [->|[c3 ->]]; done). destruct b3; cbn [negb]; [|by split; [|split]].
  pose proof (finish_context_spec (set_main ms m3) r3 n (m_context_chunk_size (llm r3) <? context_remaining_length (llm r3))) as Hf.
  change (set_main (set_main ms m1) m3) with (set_main ms m3). destruct (finish_context _ _ _ _) as [[[[[a t] ch] r4] ms4]|e].
  2: { right. right. destruct Hf as [Hn ->]. split; [|done]. unfold _needs_cross_context_allocation in *.
       destruct Hs3 as (_ & _ & _ & _ & He & _ & _ & Hsk). by rewrite He, Hsk in Hn. }
  destruct Hf as (T4 & Hs4 & Hsch). rewrite (proj1 Hs3) in T4. split; [by eapply touches_trans|]. split; [by eapply same_request_trans|].
  intros Hact. destruct (Hsch Hact) as (-> & -> & Hm). rewrite Hm. simpl main.
  assert (Htok : ctx_tokens r3 = n /\ n - ctx_drafts r3 = c).
  { assert (Hd3 : get_draft_token_length r3 = get_draft_token_length r2) by (destruct Hr3 as [->|[c3 ->]]; done).
    assert (Hq3 : llm r3 = with_chunk (llm r1) c) by (destruct Hr3 as [->|[c3 ->]]; done).
    unfold ctx_tokens, ctx_drafts, at_last. rewrite Hch, Hq3, Hd3. cbn [andb]. simpl. subst n. case_match; lia. }
  destruct Htok as [-> ->]. assert (Hp3 : context_current_position (llm r3) = context_current_position (llm r1)) by (destruct Hr3 as [->|[c3 ->]]; done).
  split; [done|]. split; [|split; [rewrite (proj1 T3), Hp3; by apply Hb|]].
  2: { intros _. assert (0 <= get_draft_token_length r2) by (unfold get_draft_token_length; case_match; lia). subst n. case_match; lia. }
  subst rb. unfold remaining_tokens in Hfc. unfold can_fit_tokens.
  destruct (b_max_num_tokens b) as [mx|]; [|done]. simpl in Hfc. destruct (Z.ltb_spec mx (b_num_tokens b + c)); [lia|done].
Qed.

(** *** The budget *)

Record budget_is (b : BudgetTracker) (t n : Z) : Prop := {
  bi_max_tokens : b_max_num_tokens b = v2_max_num_tokens sch;
  bi_max_requests : b_max_num_requests b = v2_max_num_requests sch;
  bi_tokens : b_num_tokens b = t;
  bi_requests : b_num_requests b = n;
}.

Lemma budget_commit b r t n k p : budget_is b t n -> budget_is (commit b r k p) (t + k) (n + 1).
Proof. intros [H1 H2 H3 H4]. unfold commit. case_match; split; simpl; congruence. Qed.

Lemma budget_peft b r t n p : budget_is b t n -> budget_is (commit_peft b r p) t n.
Proof. intros [H1 H2 H3 H4]. by split. Qed.

Lemma budget_initial requests : budget_is (initial_budget sch requests) 0 0.
Proof.
  unfold initial_budget. match goal with |- budget_is (foldl _ ?b _) _ _ => assert (Hb : budget_is b 0 0) by done; generalize b, Hb end. clear.
  induction requests as [|r rs IH]; intros b Hb; [done|]. simpl. apply IH. case_match; [|done]. unfold pre_claim_peft. repeat case_match; try done.
  by apply budget_peft.
Qed.

Lemma fit_tokens b t n k : budget_is b t n -> can_fit_tokens b k = true -> fits (t + k) (v2_max_num_tokens sch) = true.
Proof.
  intros [H1 _ H3 _] Hf. unfold can_fit_tokens in Hf. rewrite H1, H3 in Hf. destruct (v2_max_num_tokens sch) as [m|]; [|done]. simpl.
  destruct (Z.ltb_spec m (t + k)); [done|]. apply Z.leb_le. lia.
Qed.

(** *** Phase 1 *)

Section phase1.
Variables (inflight : gset Z) (reqs : list PyRequest) (m0 : KVCacheManagerV2 C).
Hypotheses (Hnd : NoDup (rid <$> reqs)).

Definition schedulable (r : PyRequest) : Prop :=
  ((rid r) ∉ inflight) /\ state_in_range (v2_no_schedule_until_state sch) (v2_no_schedule_after_state sch) (llm r) = true.

Definition gen_placed (m : KVCacheManagerV2 C) (g : PyRequest) : Prop :=
  g ∈ reqs /\ schedulable g /\ state (llm g) <> ENCODER_INIT /\ state (llm g) <> CONTEXT_INIT
  /\ ready m (rid g) (kc_capacity (caches m0) (rid g) + 1 + _effective_draft_len g).

Definition disagg_placed (m : KVCacheManagerV2 C) (d : PyRequest) : Prop :=
  (exists r, r ∈ reqs /\ same_request r d) /\ ((rid d) ∉ inflight) /\ state (llm d) = DISAGG_GENERATION_INIT
  /\ ready m (rid d) (context_current_position (llm d) + (context_remaining_length (llm d) + get_draft_token_length d) + num_extra_kv_tokens m0).

Definition deferred (p : PyRequest) : Prop :=
  p ∈ reqs /\ schedulable p /\ (state (llm p) = ENCODER_INIT \/ state (llm p) = CONTEXT_INIT).

Definition suspended (m : KVCacheManagerV2 C) (v : PyRequest) : Prop :=
  (exists q, q ∈ reqs /\ v = without_batch_idx q) /\ is_request_active m (rid v) = false.

Definition placed_in (st : LoopState (C := C)) : list PyRequest := ls_gen st ++ ls_disagg st ++ ls_pending st ++ ls_evicted st.

Record loop_ok (st : LoopState (C := C)) : Prop := {
  lo_extra : num_extra_kv_tokens (main (ls_managers st)) = num_extra_kv_tokens m0;
  lo_gen : forall g, g ∈ ls_gen st -> gen_placed (main (ls_managers st)) g;
  lo_disagg : forall d, d ∈ ls_disagg st -> disagg_placed (main (ls_managers st)) d;
  lo_pending : forall p, p ∈ ls_pending st -> deferred p;
  lo_evicted : forall v, v ∈ ls_evicted st -> suspended (main (ls_managers st)) v;
  lo_nodup : NoDup (rid <$> placed_in st);
  lo_beam : forall g w, g ∈ ls_gen st -> get_beam_width_by_iter (llm g) false = Ok w -> w = 0 \/ w = ls_beam_width st;
  lo_budget : budget_is (ls_budget st) (zsum gen_tokens (ls_gen st)) (len (ls_gen st));
  lo_tokens : ls_gen st = [] \/ fits (zsum gen_tokens (ls_gen st)) (v2_max_num_tokens sch) = true;
  lo_requests : len (ls_gen st) <= Z.max 0 (v2_max_num_requests sch);
}.

(** Nothing that was placed is affected by what happens to other caches. *)
Lemma loop_ok_managers ms ms' b gen ev dis pen beam beam' e e' :
  loop_ok (mkLoopState ms b gen ev dis pen beam e) ->
  num_extra_kv_tokens (main ms') = num_extra_kv_tokens (main ms) ->
  (forall x, x ∈ gen ++ dis ++ pen ++ ev -> same_cache (main ms) (main ms') (rid x)) ->
  beam = 0 \/ beam = beam' ->
  loop_ok (mkLoopState ms' b gen ev dis pen beam' e').
Proof.
  intros [He Hg Hd Hp Hv Hn Hb Hbu Ht Hr] Hex Hs Hbeam. simpl in *. split; simpl; [congruence| | |done| |done| |done|done|done].
  - intros g Hin. destruct (Hg g Hin) as (? & ? & ? & ? & Hrd). split_and!; try done. apply (ready_same (main ms)); [|done]. apply Hs. set_solver.
  - intros d Hin. destruct (Hd d Hin) as (? & ? & ? & Hrd). split_and!; try done. apply (ready_same (main ms)); [|done]. apply Hs. set_solver.
  - intros v Hin. destruct (Hv v Hin) as (? & Hoff). split; [done|]. rewrite (same_cache_active (main ms)); [done|]. apply Hs. set_solver.
  - intros g w Hin Hw. destruct (Hb g w Hin Hw) as [Hw0|Hw0]; [by left|]. destruct Hbeam; [left|right]; congruence.
Qed.

Lemma loop_ok_evicted ms b gen ev dis pen beam e vs e1 e2 :
  loop_ok (mkLoopState ms b gen ev dis pen beam e) -> victims reqs (main ms) e1 e2 vs ->
  (forall x v, x ∈ gen ++ dis ++ pen ++ ev -> v ∈ vs -> rid x <> rid v) ->
  loop_ok (mkLoopState ms b gen (ev ++ vs) dis pen beam e).
Proof.
  intros [He Hg Hd Hp Hv Hn Hb Hbu Ht Hr] [Hvn Hvs] Hdis. simpl in *. split; simpl; try done.
  - intros v [Hin|Hin]%elem_of_app; [by apply Hv|]. destruct (Hvs v Hin) as (Hoff & j & q & Hj & _ & ->). split; [|done]. exists q.
    split; [by eapply list_elem_of_lookup_2|done].
  - unfold placed_in in *. simpl in *. rewrite !app_assoc. rewrite !app_assoc in Hn. rewrite fmap_app. apply NoDup_app. split; [done|]. split; [|done].
    intros y (x & -> & Hx)%list_elem_of_fmap (v & Heq & Hvin)%list_elem_of_fmap. apply (Hdis x v); [by rewrite !app_assoc|done|done].
Qed.

Lemma nodup_add (l1 l2 : list PyRequest) r :
  NoDup (rid <$> (l1 ++ l2)) -> (forall x, x ∈ l1 ++ l2 -> rid r <> rid x) -> NoDup (rid <$> (l1 ++ r :: l2)).
Proof.
  clear. intros Hn Hr. rewrite fmap_app, fmap_cons, <- Permutation_middle, <- fmap_app. constructor; [|done].
  intros (x & Heq & Hx)%list_elem_of_fmap. by apply (Hr x).
Qed.

Lemma loop_ok_pending ms b gen ev dis pen beam e r :
  loop_ok (mkLoopState ms b gen ev dis pen beam e) -> deferred r -> (forall x, x ∈ gen ++ dis ++ pen ++ ev -> rid r <> rid x) ->
  loop_ok (mkLoopState ms b gen ev dis (pen ++ [r]) beam e).
Proof.
  intros [He Hg Hd Hp Hv Hn Hb Hbu Ht Hr] Hdef Hnew. simpl in *. split; simpl; try done.
  - intros p [Hin| ->%list_elem_of_singleton]%elem_of_app; [by apply Hp|done].
  - unfold placed_in in *. simpl in *. replace (gen ++ dis ++ (pen ++ [r]) ++ ev) with ((gen ++ dis ++ pen) ++ r :: ev) by (by rewrite <- !app_assoc).
    apply nodup_add; rewrite <- !app_assoc; done.
Qed.

Lemma loop_ok_disagg ms b b' gen ev dis pen beam e r :
  loop_ok (mkLoopState ms b gen ev dis pen beam e) -> budget_is b' (zsum gen_tokens gen) (len gen) -> disagg_placed (main ms) r ->
  (forall x, x ∈ gen ++ dis ++ pen ++ ev -> rid r <> rid x) -> loop_ok (mkLoopState ms b' gen ev (dis ++ [r]) pen beam e).
Proof.
  intros [He Hg Hd Hp Hv Hn Hb Hbu Ht Hr] Hbud Hdef Hnew. simpl in *. split; simpl; try done.
  - intros d [Hin| ->%list_elem_of_singleton]%elem_of_app; [by apply Hd|done].
  - unfold placed_in in *. simpl in *. replace (gen ++ (dis ++ [r]) ++ pen ++ ev) with ((gen ++ dis) ++ r :: pen ++ ev) by (by rewrite <- !app_assoc).
    apply nodup_add; rewrite <- !app_assoc; done.
Qed.

Lemma loop_ok_gen ms b gen ev dis pen beam e r p :
  loop_ok (mkLoopState ms b gen ev dis pen beam e) -> gen_placed (main ms) r -> can_fit_tokens b (gen_tokens r) = true -> requests_full b = false ->
  get_beam_width_by_iter (llm r) false = Ok beam -> (forall x, x ∈ gen ++ dis ++ pen ++ ev -> rid r <> rid x) ->
  loop_ok (mkLoopState ms (commit b r (gen_tokens r) p) (gen ++ [r]) ev dis pen beam e).
Proof.
  intros [He Hg Hd Hp Hv Hn Hb Hbu Ht Hr] Hdef Hfit Hfull Hw Hnew. simpl in *.
  assert (Hz : zsum gen_tokens (gen ++ [r]) = zsum gen_tokens gen + gen_tokens r) by (rewrite zsum_app, zsum_cons, zsum_nil; lia).
  split; simpl; try done.
  - intros g [Hin| ->%list_elem_of_singleton]%elem_of_app; [by apply Hg|done].
  - unfold placed_in in *. simpl in *. replace ((gen ++ [r]) ++ dis ++ pen ++ ev) with (gen ++ r :: dis ++ pen ++ ev) by (by rewrite <- !app_assoc).
    by apply nodup_add.
  - intros g w [Hin| ->%list_elem_of_singleton]%elem_of_app Hgw; [by apply (Hb g w)|right; congruence].
  - rewrite Hz, length_app, Nat2Z.inj_add. by apply budget_commit.
  - right. rewrite Hz. by eapply fit_tokens.
  - rewrite length_app, Nat2Z.inj_add. simpl. unfold requests_full in Hfull. destruct Hbu as [_ Hm _ Hc]. rewrite Hm, Hc in Hfull. lia.
Qed.

(** The loop is at position [i]: what is ahead of it is untouched, what was placed is
    behind it or in the tail that was cut off. *)
Record at_pos (i : nat) (st : LoopState (C := C)) : Prop := {
  ap_end : Z.of_nat i <= ls_end st <= len reqs;
  ap_ahead : forall j r, reqs !! j = Some r -> (i <= j)%nat -> Z.of_nat j < ls_end st -> same_cache m0 (main (ls_managers st)) (rid r);
  ap_placed : forall x, x ∈ placed_in st -> exists j r, reqs !! j = Some r /\ rid r = rid x /\ ((j < i)%nat \/ ls_end st <= Z.of_nat j);
}.

Lemma at_pos_next i st : at_pos i st -> Z.of_nat i < ls_end st -> at_pos (S i) st.
Proof.
  intros [He Ha Hp] Hlt. split; [lia|intros j r Hj Hij; apply Ha; [done|lia]|]. intros x Hx. destruct (Hp x Hx) as (j & r & ? & ? & ?).
  exists j, r. split; [done|]. split; [done|lia].
Qed.

Lemma at_pos_new i st r x : at_pos i st -> Z.of_nat i < ls_end st -> reqs !! i = Some r -> x ∈ placed_in st -> rid r <> rid x.
Proof.
  intros [_ _ Hp] Hlt Hr Hx Heq. destruct (Hp x Hx) as (j & q & Hj & Hq & Hpos). assert (j = i) by (apply (rid_inj reqs Hnd j i q r); congruence). lia.
Qed.

Definition gen_raises (r : PyRequest) (e : exn) : Prop :=
  get_beam_width_by_iter (llm r) false = Err e \/ prepare_raises r e.

Definition step_ok (i : nat) (r : PyRequest) (res : result (ctl (LoopState (C := C)))) : Prop :=
  match res with
  | Ok (Continue st') => loop_ok st' /\ at_pos (S i) st'
  | Ok (Break st') => loop_ok st'
  | Err e => gen_raises r e
  end.

Lemma disagg_step i r ms b gen ev dis pen beam e p :
  loop_ok (mkLoopState ms b gen ev dis pen beam e) -> at_pos i (mkLoopState ms b gen ev dis pen beam e) -> Z.of_nat i < e ->
  reqs !! i = Some r -> (rid r) ∉ inflight -> state (llm r) = DISAGG_GENERATION_INIT ->
  step_ok i r ('(action, r, ms) ← _try_schedule_disagg_gen_init ms r;
        match action with
        | STOP => Ok (Break (mkLoopState ms b gen ev dis pen beam e))
        | SKIP => Ok (Continue (mkLoopState ms b gen ev dis pen beam e))
        | SCHEDULED => Ok (Continue (mkLoopState ms (if 0 <? p then commit_peft b r p else b) gen ev (dis ++ [r]) pen beam e))
        end).
Proof.
  intros Hok Hpos Hlt Hr Hfl Hst. pose proof (disagg_spec ms r) as Hd.
  destruct (_try_schedule_disagg_gen_init ms r) as [[[a r'] ms']|x]; cbn [mbind result_bind]; [|right; by eapply prepare_context_errors].
  destruct Hd as (T & Hs & Hstop & Hrd). pose proof (proj1 Hs) as Hid.
  assert (Hnew : forall x, x ∈ gen ++ dis ++ pen ++ ev -> rid r <> rid x) by (intros x Hx; by apply (at_pos_new i _ r x Hpos Hlt Hr)).
  assert (Hok' : loop_ok (mkLoopState ms' b gen ev dis pen beam e)).
  { apply (loop_ok_managers ms ms' b gen ev dis pen beam beam e e); [done|apply T| |by right]. intros x Hx. apply T. by apply not_eq_sym, Hnew. }
  assert (Hahead : forall j q, reqs !! j = Some q -> (S i <= j)%nat -> Z.of_nat j < e -> same_cache m0 (main ms') (rid q)).
  { intros j q Hj Hij Hje. apply (same_cache_trans _ (main ms)); [apply (ap_ahead _ _ Hpos j q); [done|lia|done]|]. apply T.
    intros Heq. pose proof (rid_inj reqs Hnd j i q r Hj Hr Heq). lia. }
  pose proof (ap_end _ _ Hpos) as Hend. simpl in Hend.
  assert (Hbehind : forall x, x ∈ gen ++ dis ++ pen ++ ev -> exists j q, reqs !! j = Some q /\ rid q = rid x /\ ((j < S i)%nat \/ e <= Z.of_nat j)).
  { intros x Hx. destruct (ap_placed _ _ Hpos x Hx) as (j & q & ? & ? & ?). exists j, q. simpl in *. split; [done|]. split; [done|lia]. }
  destruct a; [|split; [done|]; split; [simpl; lia|done|done]|done]. split.
  - apply (loop_ok_disagg ms' b); [done| | |intros x Hx; rewrite Hid; by apply Hnew].
    + case_match; [apply budget_peft|]; apply (lo_budget _ Hok').
    + pose proof (lo_extra _ Hok') as Hex. simpl in Hex. split; [exists r; split; [by eapply list_elem_of_lookup_2|done]|]. rewrite Hid. split; [done|].
      destruct Hs as (_ & -> & _). split; [done|]. rewrite <- Hex. by apply Hrd.
  - split; [simpl; lia|done|]. unfold placed_in. simpl. intros x Hx.
    assert (Hx' : x = r' \/ x ∈ gen ++ dis ++ pen ++ ev) by set_solver. destruct Hx' as [->|Hx']; [|by apply Hbehind].
    exists i, r. split; [done|]. split; [done|lia].
Qed.

Lemma gen_step i r ms b gen ev dis pen beam e p :
  loop_ok (mkLoopState ms b gen ev dis pen beam e) -> at_pos i (mkLoopState ms b gen ev dis pen beam e) -> Z.of_nat i < e ->
  reqs !! i = Some r -> schedulable r -> state (llm r) <> ENCODER_INIT -> state (llm r) <> CONTEXT_INIT -> requests_full b = false ->
  step_ok i r (o ← _try_schedule_generation ms b reqs (Z.of_nat i) r e ev beam;
        match g_action o with
        | STOP => Ok (Break (mkLoopState (g_managers o) b gen (g_evicted o) dis pen (g_beam_width o) (g_end o)))
        | SKIP => Ok (Continue (mkLoopState (g_managers o) b gen (g_evicted o) dis pen (g_beam_width o) (g_end o)))
        | SCHEDULED => Ok (Continue (mkLoopState (g_managers o) (commit b r (g_tokens o) p) (gen ++ [r]) (g_evicted o)
                                       dis pen (g_beam_width o) (g_end o)))
        end).
Proof.
  intros Hok Hpos Hlt Hr Hrange Hne1 Hne2 Hfull. pose proof (ap_end _ _ Hpos) as Hend. simpl in Hend.
  pose proof (generation_spec reqs i r Hnd Hr b e ev beam ms ltac:(lia)) as Hg.
  destruct (_try_schedule_generation ms b reqs (Z.of_nat i) r e ev beam) as [o|x]; cbn [mbind result_bind]; [|by left].
  destruct Hg as (vs & Hev & Hgend & Hbeam & Hex & Hsame & Hcase). rewrite Hev.
  assert (Hnew : forall x, x ∈ gen ++ dis ++ pen ++ ev -> rid r <> rid x) by (intros x Hx; by apply (at_pos_new i _ r x Hpos Hlt Hr)).
  assert (Hvpos : exists f, victims reqs (main (g_managers o)) f e vs /\ Z.of_nat i <= f /\ (g_action o = SCHEDULED -> f = g_end o)).
  { destruct (g_action o); [exists (g_end o)|exists (Z.of_nat i)|exists (Z.of_nat i)].
    - split; [apply Hcase|]. split; [lia|done].
    - destruct Hcase as (-> & _). split; [apply victims_nil|]. split; [lia|done].
    - split; [done|]. split; [lia|done]. }
  destruct Hvpos as (f & Hvs & Hf & Hfe).
  assert (Hdis : forall x v, x ∈ gen ++ dis ++ pen ++ ev -> v ∈ vs -> rid x <> rid v).
  { intros x v Hx Hv Heq. destruct (ap_placed _ _ Hpos x Hx) as (j & q & Hj & Hq & Hjp). destruct (proj2 Hvs v Hv) as (_ & k & q' & Hk & Hkp & ->).
    assert (j = k) by (apply (rid_inj reqs Hnd j k q q' Hj Hk); rewrite Hq, Heq; done). simpl in Hjp. lia. }
  assert (Hok1 : loop_ok (mkLoopState (g_managers o) b gen (ev ++ vs) dis pen (g_beam_width o) (g_end o))).
  { apply (loop_ok_evicted _ _ _ _ _ _ _ _ _ f e); [|done|done]. apply (loop_ok_managers ms _ b gen ev dis pen beam _ e); [done|done| |done].
    intros x Hx. apply Hsame; [by apply not_eq_sym, Hnew|]. intros (v & Heq & Hv)%list_elem_of_fmap. by apply (Hdis x v). }
  destruct (g_action o) eqn:Hact; [| |done].
  - specialize (Hfe eq_refl). subst f. destruct Hcase as (_ & Hrd & Htok & Hfit & Hw). rewrite Htok.
    assert (Hnewv : forall v, v ∈ vs -> rid r <> rid v).
    { intros v Hv Heq. destruct (proj2 Hvs v Hv) as (_ & k & q' & Hk & Hkp & ->). pose proof (rid_inj reqs Hnd i k r q' Hr Hk Heq). lia. }
    destruct (ap_ahead _ _ Hpos i r Hr ltac:(lia) Hlt) as (_ & _ & Hcap). simpl in Hcap. split.
    + apply loop_ok_gen; [done| |done|done|done|].
      * split; [by eapply list_elem_of_lookup_2|]. split; [done|]. split; [done|]. split; [done|]. by rewrite <- Hcap.
      * intros x Hx. assert (Hx' : x ∈ gen ++ dis ++ pen ++ ev \/ x ∈ vs) by set_solver. destruct Hx'; [by apply Hnew|by apply Hnewv].
    + split; simpl; [lia| |].
      * intros j q Hj Hij Hje. apply (same_cache_trans _ (main ms)); [apply (ap_ahead _ _ Hpos j q); [done|lia|simpl; lia]|]. apply Hsame.
        -- intros Heq. pose proof (rid_inj reqs Hnd j i q r Hj Hr Heq). lia.
        -- intros (v & Heq & Hv)%list_elem_of_fmap. destruct (proj2 Hvs v Hv) as (_ & k & q' & Hk & Hkp & ->).
           pose proof (rid_inj reqs Hnd j k q q' Hj Hk Heq). lia.
      * intros x Hx. unfold placed_in in Hx. simpl in Hx. assert (Hx' : x = r \/ x ∈ vs \/ x ∈ gen ++ dis ++ pen ++ ev) by set_solver.
        destruct Hx' as [->|[Hv|Hx']]; [exists i, r; split; [done|]; split; [done|lia]| |].
        -- destruct (proj2 Hvs x Hv) as (_ & k & q' & Hk & Hkp & ->). exists k, q'. split; [done|]. split; [done|lia].
        -- destruct (ap_placed _ _ Hpos x Hx') as (j & q & Hj & Hq & Hjp). exists j, q. simpl in Hjp. split; [done|]. split; [done|lia].
  - destruct Hcase as (-> & Hms & Hge & Hbw). split; [done|]. rewrite app_nil_r, Hms, Hge, Hbw. by apply at_pos_next.
Qed.

Lemma gen_phase_ok i r st :
  loop_ok st -> at_pos i st -> reqs !! i = Some r -> step_ok i r (gen_phase sch inflight reqs st (Z.of_nat i, r)).
Proof.
  intros Hok Hpos Hr. destruct st as [ms b gen ev dis pen beam e]. unfold gen_phase.
  destruct (Z.leb_spec e (Z.of_nat i)) as [Hle|Hlt]; [done|]. pose proof (at_pos_next _ _ Hpos Hlt) as Hnext.
  destruct (bool_decide _) eqn:Hfl; [by split|]. apply bool_decide_eq_false in Hfl.
  destruct (decide (state (llm r) = DISAGG_GENERATION_INIT)) as [Hst|Hst].
  { rewrite bool_decide_true by done. destruct (peft_pages_needed b r) as [p|]; [|done]. by apply disagg_step. }
  rewrite (bool_decide_false (state (llm r) = DISAGG_GENERATION_INIT)) by done. destruct (requests_full b) eqn:Hfull; [done|].
  destruct (state_in_range _ _ _) eqn:Hrange; cbn [negb]; [|by split].
  destruct (bool_decide (state (llm r) = ENCODER_INIT) || bool_decide (state (llm r) = CONTEXT_INIT)) eqn:Hctx.
  - assert (Hdef : deferred r).
    { split; [by eapply list_elem_of_lookup_2|]. split; [done|]. apply orb_true_iff in Hctx as [Hc|Hc]; bool_to_prop; auto. }
    split; [apply loop_ok_pending; [done|done|intros x Hx; by apply (at_pos_new i _ r x Hpos Hlt Hr)]|].
    destruct Hnext as [Hn1 Hn2 Hn3]. split; [done|done|]. unfold placed_in in *. simpl in *. intros x Hx.
    assert (Hx' : x = r \/ x ∈ gen ++ dis ++ pen ++ ev) by set_solver. destruct Hx' as [->|Hx']; [|by apply Hn3].
    exists i, r. split; [done|]. split; [done|lia].
  - apply orb_false_iff in Hctx as [Hc1 Hc2]. apply bool_decide_eq_false in Hc1, Hc2.
    destruct (peft_pages_needed b r) as [p|]; [|done]. by apply gen_step.
Qed.

Lemma phase1_ok ms :
  main ms = m0 ->
  match for_loop (gen_phase sch inflight reqs) (mkLoopState ms (initial_budget sch reqs) [] [] [] [] 0 (len reqs)) (zip (seqZ 0 (len reqs)) reqs) with
  | Ok st => loop_ok st
  | Err e => exists r, r ∈ reqs /\ gen_raises r e
  end.
Proof.
  intros Hms. apply (for_loop_cases _ (fun done st => loop_ok st /\ at_pos (length done) st)).
  - split.
    + split; simpl; try (intros ? Hin; by apply not_elem_of_nil in Hin); try done; [by rewrite Hms|constructor| |apply budget_initial|by left|lia].
      intros g w Hin. by apply not_elem_of_nil in Hin.
    + split; simpl; [lia|intros j r _ _ _; by rewrite Hms|]. intros x Hx. by apply not_elem_of_nil in Hx.
  - intros done x rest st Hl [Hok Hpos].
    assert (Hx : exists r, x = (Z.of_nat (length done), r) /\ reqs !! length done = Some r).
    { assert (Hlk : zip (seqZ 0 (len reqs)) reqs !! length done = Some x) by (rewrite Hl; by apply list_lookup_middle).
      apply lookup_zip_with_Some in Hlk as (k & r & -> & Hk & Hr). apply lookup_seqZ in Hk as [-> _]. exists r. split; [f_equal; lia|done]. }
    destruct Hx as (r & -> & Hr). pose proof (gen_phase_ok (length done) r st Hok Hpos Hr) as Hstep. unfold step_ok in Hstep.
    destruct (gen_phase _ _ _ _ _) as [[st'|st']|e]; [|done|exists r; split; [by eapply list_elem_of_lookup_2|done]].
    rewrite length_app, Nat.add_comm. exact Hstep.
  - by intros st [Hok _].
Qed.

(** *** Phase 2 *)

Definition enc_tokens (r : PyRequest) : Z := default 0 (opt_encoder_output_len (llm r)).

(** Token counts that cannot be negative. *)
Definition counts_ok (r : PyRequest) : Prop :=
  0 <= gen_tokens r /\ 0 <= enc_tokens r /\ 0 <= context_remaining_length (llm r).

Definition ctx_placed (m : KVCacheManagerV2 C) (c : PyRequest) : Prop :=
  (exists r, deferred r /\ same_request r c) /\ state (llm c) = CONTEXT_INIT
  /\ ready m (rid c) (context_current_position (llm c) + ctx_tokens c + num_extra_kv_tokens m0).

(** The token budget, but for the draft tokens of one last chunk. *)
Definition within (ctx : list PyRequest) (total : Z) : Prop :=
  match v2_max_num_tokens sch with
  | None => True
  | Some m => total <= m \/ exists c, c ∈ ctx /\ total <= m + ctx_drafts c
  end.

Definition total_tokens (gen enc ctx : list PyRequest) : Z := zsum gen_tokens gen + zsum enc_tokens enc + zsum ctx_tokens ctx.

Section phase2.
Variable st : LoopState (C := C).
Hypotheses (Hst : loop_ok st) (Hunit : chunking_enabled sch = true -> 0 < chunk_unit_size sch)
  (Hcounts : forall r, r ∈ reqs -> counts_ok r).

Record ctx_ok (done : list PyRequest) (cs : ContextState (C := C)) : Prop := {
  co_extra : num_extra_kv_tokens (main (cs_managers cs)) = num_extra_kv_tokens m0;
  co_kept : forall id, id ∉ (rid <$> done) -> same_cache (main (ls_managers st)) (main (cs_managers cs)) id;
  co_enc : forall x, x ∈ cs_encoder cs -> deferred x /\ state (llm x) = ENCODER_INIT;
  co_ctx : forall c, c ∈ cs_context cs -> ctx_placed (main (cs_managers cs)) c;
  co_ids : forall x, x ∈ cs_encoder cs ++ cs_context cs -> rid x ∈ (rid <$> done);
  co_nodup : NoDup (rid <$> cs_encoder cs ++ cs_context cs);
  co_budget : budget_is (cs_budget cs) (total_tokens (ls_gen st) (cs_encoder cs) (cs_context cs))
                (len (ls_gen st) + len (cs_encoder cs) + len (cs_context cs));
  co_tokens : (ls_gen st = [] /\ cs_encoder cs = [] /\ cs_context cs = [])
              \/ within (cs_context cs) (total_tokens (ls_gen st) (cs_encoder cs) (cs_context cs));
  co_requests : len (ls_gen st) + len (cs_encoder cs) + len (cs_context cs) <= Z.max 0 (v2_max_num_requests sch);
  co_nonneg : 0 <= b_num_tokens (cs_budget cs);
}.

Lemma ctx_ok_start : ctx_ok [] (mkContextState (ls_managers st) (ls_budget st) [] [] false).
Proof.
  destruct Hst as [He Hg Hd Hp Hv Hn Hb Hbu Ht Hr]. assert (Htot : total_tokens (ls_gen st) [] [] = zsum gen_tokens (ls_gen st)).
  { unfold total_tokens. rewrite !zsum_nil. lia. }
  split; simpl; try (intros x Hx; by apply not_elem_of_nil in Hx); try done; rewrite ?Htot.
  - constructor.
  - by rewrite !Z.add_0_r.
  - destruct Ht as [Ht|Ht]; [by left|right]. unfold within. destruct (v2_max_num_tokens sch); [|done]. left. simpl in Ht. lia.
  - lia.
  - rewrite (bi_tokens _ _ _ Hbu). apply zsum_nonneg. intros g Hin. apply Hcounts, Hg, Hin.
Qed.

Lemma ids_snoc (l : list PyRequest) r id : id ∈ (rid <$> (l ++ [r])) <-> id ∈ (rid <$> l) \/ id = rid r.
Proof. clear. rewrite fmap_app, elem_of_app. change (rid <$> [r]) with [rid r]. by rewrite list_elem_of_singleton. Qed.

(** The cache of the next request changes. *)
Lemma ctx_ok_next done r ms ms' b enc ctx ch ch' :
  ctx_ok done (mkContextState ms b enc ctx ch) -> touches (rid r) (main ms) (main ms') -> (rid r ∉ (rid <$> done)) ->
  ctx_ok (done ++ [r]) (mkContextState ms' b enc ctx ch').
Proof.
  intros [He Hk Hen Hc Hi Hn Hb Ht Hr Hnn] [Tx Tc] Hnew. simpl in *.
  assert (Hne : forall x, x ∈ enc ++ ctx -> rid x <> rid r) by (intros x Hx Heq; apply Hnew; rewrite <- Heq; by apply Hi).
  split; simpl; try done.
  - congruence.
  - intros id Hid. rewrite ids_snoc in Hid. eapply same_cache_trans; [apply Hk; tauto|]. apply Tc. tauto.
  - intros c Hin. destruct (Hc c Hin) as (? & ? & Hrd). split; [done|]. split; [done|]. apply (ready_same (main ms)); [|done].
    apply Tc, Hne. set_solver.
  - intros x Hx. apply ids_snoc. left. by apply Hi.
Qed.

Lemma within_fit b ctx t n k d : budget_is b t n -> can_fit_tokens b (k - d) = true -> (d = 0 \/ exists c, c ∈ ctx /\ d = ctx_drafts c) -> within ctx (t + k).
Proof.
  intros Hb Hf Hd. pose proof (fit_tokens b t n (k - d) Hb Hf) as Hfit. unfold within. destruct (v2_max_num_tokens sch) as [m|]; [|done].
  simpl in Hfit. apply Z.leb_le in Hfit. destruct Hd as [->|(c & Hc & ->)]; [left; lia|]. right. exists c. split; [done|lia].
Qed.

Lemma not_full b t n : budget_is b t n -> requests_full b = false -> n + 1 <= Z.max 0 (v2_max_num_requests sch).
Proof. intros [_ Hm _ Hc] Hf. unfold requests_full in Hf. rewrite Hm, Hc in Hf. lia. Qed.

Lemma ctx_ok_encoder done r ms b enc ctx ch p :
  ctx_ok done (mkContextState ms b enc ctx ch) -> deferred r -> state (llm r) = ENCODER_INIT -> (rid r ∉ (rid <$> done)) ->
  can_fit_tokens b (enc_tokens r) = true -> requests_full b = false ->
  ctx_ok (done ++ [r]) (mkContextState ms (commit b r (enc_tokens r) p) (enc ++ [r]) ctx ch).
Proof.
  intros Hok Hdef Hs Hnew Hfit Hfull. pose proof (ctx_ok_next done r ms ms b enc ctx ch ch Hok (touches_refl _ _) Hnew) as [He Hk Hen Hc Hi Hn Hb Ht Hr Hnn].
  assert (Hids : forall x, x ∈ enc ++ ctx -> rid r <> rid x) by (intros x Hx Heq; apply Hnew; rewrite Heq; by apply (co_ids _ _ Hok)).
  simpl in *. assert (Htot : total_tokens (ls_gen st) (enc ++ [r]) ctx = total_tokens (ls_gen st) enc ctx + enc_tokens r).
  { unfold total_tokens. rewrite zsum_snoc. lia. }
  assert (Hb' := budget_commit b r _ _ (enc_tokens r) p Hb). split; simpl; try done; rewrite ?Htot.
  - intros x [Hx| ->%list_elem_of_singleton]%elem_of_app; [by apply Hen|done].
  - intros x Hx. assert (x = r \/ x ∈ enc ++ ctx) as [->|Hx'] by set_solver; [|by apply Hi]. apply ids_snoc. by right.
  - rewrite <- app_assoc. by apply nodup_add.
  - rewrite length_app, Nat2Z.inj_add. simpl. replace (len (ls_gen st) + (len enc + Z.of_nat 1) + len ctx) with (len (ls_gen st) + len enc + len ctx + 1) by lia. done.
  - right. apply (within_fit b _ _ _ _ 0 Hb); [by rewrite Z.sub_0_r|by left].
  - rewrite length_app, Nat2Z.inj_add. simpl. pose proof (not_full _ _ _ Hb Hfull). lia.
  - rewrite (bi_tokens _ _ _ Hb'), <- (bi_tokens _ _ _ Hb). destruct (Hcounts r (proj1 Hdef)) as (_ & ? & _). lia.
Qed.

Lemma ctx_ok_context done r c ms ms' b enc ctx ch ch' p :
  ctx_ok done (mkContextState ms b enc ctx ch) -> deferred r -> state (llm r) = CONTEXT_INIT -> (rid r ∉ (rid <$> done)) ->
  touches (rid r) (main ms) (main ms') -> same_request r c -> can_fit_tokens b (ctx_tokens c - ctx_drafts c) = true -> 0 <= ctx_tokens c ->
  ready (main ms') (rid r) (context_current_position (llm c) + ctx_tokens c + num_extra_kv_tokens (main ms')) -> requests_full b = false ->
  ctx_ok (done ++ [r]) (mkContextState ms' (commit b c (ctx_tokens c) p) enc (ctx ++ [c]) ch').
Proof.
  intros Hok Hdef Hs Hnew T Hsame Hfit Hpos Hrd Hfull. pose proof (ctx_ok_next done r ms ms' b enc ctx ch ch' Hok T Hnew) as [He Hk Hen Hc Hi Hn Hb Ht Hr Hnn].
  assert (Hrid : rid c = rid r) by apply Hsame.
  assert (Hids : forall x, x ∈ enc ++ ctx -> rid c <> rid x) by (intros x Hx Heq; apply Hnew; rewrite <- Hrid, Heq; by apply (co_ids _ _ Hok)).
  simpl in *. assert (Htot : total_tokens (ls_gen st) enc (ctx ++ [c]) = total_tokens (ls_gen st) enc ctx + ctx_tokens c).
  { unfold total_tokens. rewrite zsum_snoc. lia. }
  assert (Hb' := budget_commit b c _ _ (ctx_tokens c) p Hb). split; simpl; try done; rewrite ?Htot.
  - intros x [Hx| ->%list_elem_of_singleton]%elem_of_app; [by apply Hc|]. split; [by exists r|]. destruct Hsame as (_ & Hst' & _).
    split; [congruence|]. rewrite Hrid, <- He. done.
  - intros x Hx. assert (x = c \/ x ∈ enc ++ ctx) as [->|Hx'] by set_solver; [|by apply Hi]. apply ids_snoc. by right.
  - rewrite app_assoc. apply nodup_add; by rewrite app_nil_r.
  - rewrite length_app, Nat2Z.inj_add. simpl. by rewrite Z.add_assoc.
  - right. apply (within_fit b _ _ _ _ (ctx_drafts c) Hb); [done|]. right. exists c. split; [set_solver|done].
  - rewrite length_app, Nat2Z.inj_add. simpl. pose proof (not_full _ _ _ Hb Hfull). lia.
  - rewrite (bi_tokens _ _ _ Hb'), <- (bi_tokens _ _ _ Hb). lia.
Qed.

Definition enc_raises (r : PyRequest) (e : exn) : Prop := e = RuntimeError \/ encoder_output_len (llm r) = Err e.

Definition deferred_raises (r : PyRequest) (e : exn) : Prop :=
  (state (llm r) = ENCODER_INIT /\ enc_raises r e) \/ (state (llm r) = CONTEXT_INIT /\ ctx_raises r e).

Lemma encoder_spec ms b r t n : budget_is b t n -> 0 <= t ->
  match _try_schedule_encoder sch ms b r with
  | Ok (a, k) => a = STOP \/ (k = enc_tokens r /\ can_fit_tokens b k = true)
  | Err e => enc_raises r e
  end.
Proof.
  intros Hb Ht. unfold _try_schedule_encoder, enc_raises, encoder_output_len, enc_tokens. destruct (is_none (cross ms)); [by left|].
  destruct (opt_encoder_output_len (llm r)) as [k|]; [|by right]. cbn [mbind result_bind].
  destruct (can_fit_tokens b k) eqn:Hf; cbn [negb]; [|by left]. pose proof (fit_tokens b t n k Hb Hf) as Hfit.
  assert (exceeds k (v2_max_num_tokens sch) = false) as ->; [|right; done].
  unfold exceeds. destruct (v2_max_num_tokens sch); [|done]. simpl in Hfit. lia.
Qed.

Lemma context_spec ms b r t n : budget_is b t n -> 0 <= t -> state (llm r) = CONTEXT_INIT ->
  ctx_outcome ms b r (_try_schedule_context sch ms b r).
Proof.
  intros Hb Ht Hs. unfold _try_schedule_context. destruct (chunking_enabled sch) eqn:Hch; simpl.
  - apply context_chunked_spec; [done|by apply Hunit|]. unfold is_context_init_state. by rewrite Hs.
  - apply context_full_spec; [done|apply Hb|]. by rewrite (bi_tokens _ _ _ Hb).
Qed.

Lemma ctx_phase_ok done r rest cs :
  ls_pending st = done ++ r :: rest -> ctx_ok done cs ->
  match ctx_phase sch cs r with
  | Ok (Continue cs') => ctx_ok (done ++ [r]) cs'
  | Ok (Break cs') => ctx_ok done cs' \/ ctx_ok (done ++ [r]) cs'
  | Err e => exists r, r ∈ ls_pending st /\ deferred_raises r e
  end.
Proof.
  intros Hpen Hok. assert (Hin : r ∈ ls_pending st) by (rewrite Hpen; set_solver).
  assert (Hnew : rid r ∉ (rid <$> done)).
  { pose proof (lo_nodup _ Hst) as Hn. unfold placed_in in Hn. rewrite Hpen, !fmap_app, fmap_cons in Hn.
    apply NoDup_app in Hn as (_ & _ & Hn). apply NoDup_app in Hn as (_ & _ & Hn). apply NoDup_app in Hn as (Hn & _ & _).
    apply NoDup_app in Hn as (_ & Hn & _). intros Hi. apply (Hn _ Hi). left. }
  pose proof (lo_pending _ Hst r Hin) as Hdef. destruct cs as [ms b enc ctx ch]. unfold ctx_phase.
  destruct (requests_full b) eqn:Hfull; [by left|].
  assert (Hskip : ctx_ok (done ++ [r]) (mkContextState ms b enc ctx ch)) by (apply (ctx_ok_next _ _ ms _ _ _ _ ch); [done|apply touches_refl|done]).
  destruct (peft_pages_needed b r) as [p|]; [|done]. pose proof (co_budget _ _ Hok) as Hb. pose proof (co_nonneg _ _ Hok) as Hnn. simpl in Hb, Hnn.
  rewrite (bi_tokens _ _ _ Hb) in Hnn. destruct (bool_decide _) eqn:Henc.
  - apply bool_decide_eq_true in Henc. pose proof (encoder_spec ms b r _ _ Hb Hnn) as Hspec.
    destruct (_try_schedule_encoder sch ms b r) as [[a k]|e]; cbn [mbind result_bind]; [|exists r; split; [done|left; done]].
    destruct Hspec as [->|[-> Hfit]]; [by left|]. destruct a; [| |by left]; by apply ctx_ok_encoder.
  - apply bool_decide_eq_false in Henc. assert (Hs : state (llm r) = CONTEXT_INIT) by (destruct Hdef as (_ & _ & [?|?]); done).
    pose proof (context_spec ms b r _ _ Hb Hnn Hs) as Hspec. unfold ctx_outcome in Hspec.
    destruct (_try_schedule_context sch ms b r) as [[[[[a k] c] r'] ms']|e]; cbn [mbind result_bind]; [|exists r; split; [done|right; done]].
    destruct Hspec as (T & Hsame & Hsch). destruct a.
    + destruct (Hsch eq_refl) as (-> & Hfit & Hrd & Hpos). eapply ctx_ok_context; try done. apply Hpos, Hcounts, Hdef.
    + by apply (ctx_ok_next _ _ ms _ _ _ _ ch).
    + right. by apply (ctx_ok_next _ _ ms _ _ _ _ ch).
Qed.

Lemma phase2_ok :
  match for_loop (ctx_phase sch) (mkContextState (ls_managers st) (ls_budget st) [] [] false) (ls_pending st) with
  | Ok cs => exists done, (forall x, x ∈ done -> x ∈ ls_pending st) /\ ctx_ok done cs
  | Err e => exists r, r ∈ ls_pending st /\ deferred_raises r e
  end.
Proof.
  apply (for_loop_cases _ ctx_ok).
  - apply ctx_ok_start.
  - intros done r rest cs Hpen Hok. pose proof (ctx_phase_ok done r rest cs Hpen Hok) as Hstep.
    destruct (ctx_phase sch cs r) as [[cs'|cs']|e]; [done| |done].
    destruct Hstep as [Hd|Hd]; [exists done|exists (done ++ [r])]; (split; [rewrite Hpen; set_solver|done]).
  - intros cs Hok. by exists (ls_pending st).
Qed.

End phase2.

End phase1.

(** *** The whole pass *)

Lemma sort_requests_perm ctx ch : (forall c, c ∈ ctx -> state (llm c) = CONTEXT_INIT) ->
  exists ctx', _sort_requests ctx ch = Ok ctx' /\ ctx' ≡ₚ ctx.
Proof.
  intros Hs. unfold _sort_requests. destruct ch; [|eexists; split; [done|apply sort_by_perm]].
  set (last r := m_context_chunk_size (llm r) =? context_remaining_length (llm r)).
  rewrite (mapM_pure _ last).
  - cbn [mbind result_bind]. eexists. split; [done|]. rewrite !sort_by_perm.
    etransitivity; [|apply (filter_bool_perm last ctx)]. apply Permutation_refl'. f_equal;
      [exact (zip_fmap_filter last (fun b => b = false) ctx)|exact (zip_fmap_filter last (fun b => b = true) ctx)].
  - intros c Hc. apply is_last_context_chunk_ctx. unfold is_context_init_state. by rewrite (Hs c Hc).
Qed.

Section pass.
Variables (inflight : gset Z) (ms : Managers C).

(** What the caches look like when the pass is over, and what was decided. *)
Record pass_ok (reqs : list PyRequest) (o : SchedulerOutputV2) (ms' : Managers C) : Prop := {
  ps_gen : forall g, g ∈ o_generation o -> gen_placed inflight reqs (main ms) (main ms') g;
  ps_ctx : forall c, c ∈ o_context o -> ctx_placed inflight reqs (main ms) (main ms') c;
  ps_disagg : forall d, d ∈ o_disagg o -> disagg_placed inflight reqs (main ms) (main ms') d;
  ps_enc : forall x, x ∈ o_encoder o -> deferred inflight reqs x /\ state (llm x) = ENCODER_INIT;
  ps_paused : forall v, v ∈ o_paused o -> suspended reqs (main ms') v;
  ps_nodup : NoDup (rid <$> o_generation o ++ o_disagg o ++ (o_encoder o ++ o_context o) ++ o_paused o);
  ps_beam : exists beam, forall g w, g ∈ o_generation o -> get_beam_width_by_iter (llm g) false = Ok w -> w = 0 \/ w = beam;
  ps_progress : o_generation o = [] -> o_context o = [] -> o_paused o = [] -> existsb (is_gen_candidate inflight) reqs = false;
}.

Record pass_budget (o : SchedulerOutputV2) : Prop := {
  pb_tokens : (o_generation o = [] /\ o_encoder o = [] /\ o_context o = [])
              \/ within (o_context o) (total_tokens (o_generation o) (o_encoder o) (o_context o));
  pb_requests : len (o_generation o) + len (o_encoder o) + len (o_context o) <= Z.max 0 (v2_max_num_requests sch);
  pb_fitting : o_num_fitting o = len (o_generation o) + len (o_encoder o) + len (o_context o);
}.

(** A pass raises because of one of the requests, or because generation requests are
    stuck. *)
Definition pass_raises (reqs : list PyRequest) (e : exn) : Prop :=
  (exists r, r ∈ reqs /\ (gen_raises r e \/ deferred_raises r e))
  \/ (e = RuntimeError /\ existsb (is_gen_candidate inflight) reqs = true).

Definition ready_requests (active : list PyRequest) : list PyRequest :=
  filter (fun r => is_decoder_context_request_waiting_for_encoder_output (llm r) = false) active.

Section result.
Variable reqs : list PyRequest.
Hypotheses (Hnd : NoDup (rid <$> reqs)) (Hunit : chunking_enabled sch = true -> 0 < chunk_unit_size sch)
  (Hcounts : forall r, r ∈ reqs -> counts_ok r).

Lemma schedule_loop_ok :
  match _schedule_loop sch ms reqs inflight with
  | Ok (cs, st) => loop_ok inflight reqs (main ms) st
      /\ (exists done, (forall x, x ∈ done -> x ∈ ls_pending st) /\ ctx_ok inflight reqs (main ms) st done cs)
      /\ (ls_gen st = [] -> cs_context cs = [] -> ls_evicted st = [] -> existsb (is_gen_candidate inflight) reqs = false)
  | Err e => pass_raises reqs e
  end.
Proof.
  unfold _schedule_loop. cbv zeta. pose proof (phase1_ok inflight reqs (main ms) Hnd ms eq_refl) as H1.
  destruct (for_loop (gen_phase sch inflight reqs) _ _) as [st|e]; cbn [mbind result_bind].
  2: { destruct H1 as (r & Hr & He). left. exists r. split; [done|by left]. }
  pose proof (phase2_ok inflight reqs (main ms) Hnd st H1 Hunit Hcounts) as H2.
  destruct (for_loop (ctx_phase sch) _ _) as [cs|e]; cbn [mbind result_bind].
  2: { destruct H2 as (r & Hr & He). left. exists r. split; [by apply (lo_pending _ _ _ _ H1)|by right]. }
  destruct (ls_gen st) eqn:Hg; [|by rewrite Hg]. destruct (cs_context cs) eqn:Hc; [|by rewrite Hc].
  destruct (ls_evicted st) eqn:Hv; [|by rewrite Hv]. destruct (existsb _ _) eqn:Hex; [by right|done].
Qed.

(** What phase 1 placed is not touched by phase 2. *)
Lemma placed_kept st done cs x :
  loop_ok inflight reqs (main ms) st -> (forall x, x ∈ done -> x ∈ ls_pending st) -> ctx_ok inflight reqs (main ms) st done cs ->
  x ∈ ls_gen st ++ ls_disagg st ++ ls_evicted st -> same_cache (main (ls_managers st)) (main (cs_managers cs)) (rid x).
Proof.
  intros H1 Hd H2 Hx. apply (co_kept _ _ _ _ _ _ H2). intros (y & Heq & Hy)%list_elem_of_fmap. apply Hd in Hy.
  pose proof (lo_nodup _ _ _ _ H1) as Hn. unfold placed_in in Hn.
  assert (Hp : ls_gen st ++ ls_disagg st ++ ls_pending st ++ ls_evicted st ≡ₚ ls_pending st ++ (ls_gen st ++ ls_disagg st ++ ls_evicted st)) by solve_Permutation.
  rewrite Hp, fmap_app in Hn. apply NoDup_app in Hn as (_ & Hn & _). apply (Hn (rid y)); [by apply list_elem_of_fmap_2|]. rewrite <- Heq. by apply list_elem_of_fmap_2.
Qed.

Lemma output_nodup st done cs :
  loop_ok inflight reqs (main ms) st -> (forall x, x ∈ done -> x ∈ ls_pending st) -> ctx_ok inflight reqs (main ms) st done cs ->
  NoDup (rid <$> ls_gen st ++ ls_disagg st ++ (cs_encoder cs ++ cs_context cs) ++ ls_evicted st).
Proof.
  intros H1 Hd H2. pose proof (lo_nodup _ _ _ _ H1) as Hn. unfold placed_in in Hn.
  assert (Hp : forall l, ls_gen st ++ ls_disagg st ++ l ++ ls_evicted st ≡ₚ l ++ (ls_gen st ++ ls_disagg st ++ ls_evicted st)) by (intros l; solve_Permutation).
  rewrite Hp, fmap_app in Hn |- *. apply NoDup_app in Hn as (_ & Hdis & Hn). apply NoDup_app. split; [apply H2|]. split; [|done].
  intros y (x & -> & Hx)%list_elem_of_fmap. apply Hdis. apply (co_ids _ _ _ _ _ _ H2) in Hx as (z & -> & Hz)%list_elem_of_fmap. apply list_elem_of_fmap_2. by apply Hd.
Qed.

End result.

Section theorems.
Variable active : list PyRequest.
Hypotheses (Hnd : NoDup (rid <$> active)) (Hunit : chunking_enabled sch = true -> 0 < chunk_unit_size sch)
  (Hcounts : forall r, r ∈ active -> counts_ok r).

Lemma schedule_request_ok :
  match v2_schedule_request sch ms active inflight with
  | Ok (o, ms') => pass_ok (ready_requests active) o ms' /\ pass_budget o
  | Err e => pass_raises (ready_requests active) e
  end.
Proof.
  unfold v2_schedule_request. cbv zeta. fold (ready_requests active). set (reqs := ready_requests active).
  assert (Hnd' : NoDup (rid <$> reqs)) by (eapply sublist_NoDup; [exact Hnd|apply fmap_sublist, sublist_filter]).
  assert (Hc' : forall r, r ∈ reqs -> counts_ok r) by (intros r [_ Hr]%list_elem_of_filter; by apply Hcounts).
  pose proof (schedule_loop_ok reqs Hnd' Hunit Hc') as Hloop.
  destruct (_schedule_loop sch ms reqs inflight) as [[cs st]|e]; cbn [mbind result_bind]; [|done]. destruct Hloop as (H1 & (done & Hd & H2) & Hprog).
  destruct (sort_requests_perm (cs_context cs) (cs_has_chunking cs)) as (ctx & -> & Hctx); [intros c Hc; by apply (co_ctx _ _ _ _ _ _ H2)|].
  cbn [mbind result_bind]. pose proof (placed_kept reqs st done cs) as Hkept. pose proof (output_nodup reqs st done cs H1 Hd H2) as Hnodup.
  assert (Hg := sort_by_perm py_lora_le (ls_gen st)). assert (He := sort_by_perm py_lora_le (cs_encoder cs)). split; split; simpl.
  - intros g Hin. rewrite Hg in Hin. destruct (lo_gen _ _ _ _ H1 g Hin) as (? & ? & ? & ? & Hrd). split_and!; try done.
    eapply ready_same; [|exact Hrd]. apply Hkept; [done..|set_solver].
  - intros c Hin. rewrite Hctx in Hin. by apply (co_ctx _ _ _ _ _ _ H2).
  - intros d Hin. destruct (lo_disagg _ _ _ _ H1 d Hin) as (? & ? & ? & Hrd). split_and!; try done.
    eapply ready_same; [|exact Hrd]. apply Hkept; [done..|set_solver].
  - intros x Hin. rewrite He in Hin. by apply (co_enc _ _ _ _ _ _ H2).
  - intros v Hin. destruct (lo_evicted _ _ _ _ H1 v Hin) as (? & Hoff). split; [done|]. rewrite (same_cache_active (main (ls_managers st))); [done|].
    apply Hkept; [done..|set_solver].
  - rewrite Hg, He, Hctx. exact Hnodup.
  - exists (ls_beam_width st). intros g w Hin. rewrite Hg in Hin. by apply (lo_beam _ _ _ _ H1).
  - intros Hg0 Hc0 Hv0. rewrite Hg0 in Hg. rewrite Hc0 in Hctx. apply Hprog; [by symmetry; apply Permutation_nil_l|by symmetry; apply Permutation_nil_l|done].
  - destruct (co_tokens _ _ _ _ _ _ H2) as [(-> & -> & Hc)|Hw]; [left|right].
    + split; [done|]. split; [done|]. rewrite Hc in Hctx. by apply Permutation_nil_r.
    + unfold within, total_tokens in *. rewrite (zsum_perm _ _ _ Hg), (zsum_perm _ _ _ He), (zsum_perm _ _ _ Hctx).
      destruct (v2_max_num_tokens sch); [|done]. destruct Hw as [Hw|(c & Hc & Hw)]; [by left|right]. exists c. by rewrite Hctx.
  - rewrite Hg, He, Hctx. apply (co_requests _ _ _ _ _ _ H2).
  - lia.
Qed.

End theorems.
End pass.

End proofs.

(** ** The theorems *)

(** C7. When a pass of the V2 scheduler returns, every generation request it lists has its
    cache on the GPU, one token and its draft tokens larger than before, every context
    and disaggregated request has room for the tokens it was given, every paused
    request is suspended, no request is listed twice, all generation requests have the
    same beam width, and if nothing runs and nothing was paused then no generation
    request was waiting.  If it raises, one of the requests is the reason, or
    generation requests are stuck. *)
Theorem scheduled_requests_on_gpu {C} `{Hlaws : KvCachesLaws C} sch inflight (ms : Managers C) active :
  NoDup (py_request_id <$> active) -> (chunking_enabled sch = true -> 0 < chunk_unit_size sch) -> (forall r, r ∈ active -> counts_ok r) ->
  match v2_schedule_request sch ms active inflight with
  | Ok (o, ms') => pass_ok sch inflight ms (ready_requests active) o ms'
  | Err e => pass_raises inflight (ready_requests active) e
  end.
Proof.
  intros Hnd Hu Hc. pose proof (schedule_request_ok sch inflight ms active Hnd Hu Hc) as H1.
  destruct (v2_schedule_request _ _ _ _) as [[o ms']|e]; [apply H1|done].
Qed.

(** C25. A pass of the V2 scheduler schedules at most [max_num_requests] requests, and at
    most [max_num_tokens] tokens plus the draft tokens of one context request at its
    last chunk (none without chunking). *)
Theorem pass_within_budget {C} `{Hlaws : KvCachesLaws C} sch inflight (ms : Managers C) active :
  NoDup (py_request_id <$> active) -> (chunking_enabled sch = true -> 0 < chunk_unit_size sch) -> (forall r, r ∈ active -> counts_ok r) ->
  match v2_schedule_request sch ms active inflight with
  | Ok (o, _) => pass_budget sch o
  | Err e => pass_raises inflight (ready_requests active) e
  end.
Proof.
  intros Hnd Hu Hc. pose proof (schedule_request_ok sch inflight ms active Hnd Hu Hc) as H1.
  destruct (v2_schedule_request _ _ _ _) as [[o ms']|e]; [apply H1|done].
Qed.

(** ** A table of caches *)

Module Table.

(** Caches as a table of their sizes, in a pool of [room] tokens. *)
Record Table := mkTable { room : Z; rows : gmap Z (bool * Z) }.

Definition used (t : Table) : Z := map_fold (fun _ (x : bool * Z) a => (if x.1 then x.2 else 0) + a) 0 (rows t).
Definition row (t : Table) (id : Z) : bool * Z := default (false, 0) (rows t !! id).
Definition set_row (t : Table) (id : Z) (x : bool * Z) : Table := mkTable (room t) (<[id := x]> (rows t)).

#[global] Instance table_caches : KvCaches Table := {|
  kc_create t id _ _ := set_row t id (false, 0);
  kc_reuse_tokens _ := [];
  kc_active t id := (row t id).1;
  kc_capacity t id := (row t id).2;
  kc_committed _ _ := 0;
  kc_stop_committing t _ := t;
  kc_resume t id := if used t + (row t id).2 <=? room t then (true, set_row t id (true, (row t id).2)) else (false, t);
  kc_resize t id n := if used t - (row t id).2 + n <=? room t then (true, set_row t id (true, n)) else (false, t);
  kc_suspend t id := set_row t id (false, (row t id).2);
|}.

Lemma row_set t id x id' : row (set_row t id x) id' = if decide (id' = id) then x else row t id'.
Proof. unfold row, set_row. simpl. case_decide; [subst; by rewrite lookup_insert_eq|by rewrite lookup_insert_ne]. Qed.

#[global] Instance table_laws : KvCachesLaws Table.
Proof.
  split; simpl.
  - intros t id id' n _ _ Hne. repeat (case_match; simpl); rewrite ?row_set, ?decide_False by done; done.
  - intros. by rewrite row_set, decide_True.
  - done.
  - intros t id Ha. case_match; simpl; [by rewrite row_set, decide_True|done].
  - intros t id n Ha. case_match; simpl; [by rewrite row_set, decide_True|done].
  - intros. by rewrite row_set, decide_True.
Qed.

Definition manager (t : Table) (ids : list Z) : KVCacheManagerV2 Table := mkV2 t (list_to_set ids) 8 false 4 0 ∅.

Definition plain (q : LlmRequest) (drafts : list Z) : PyRequest := mkPyRequest q (Some drafts) None false None None None.

(** Request 1 generates, request 3 is new and request 2, at the tail, has to give up
    its cache for request 1. *)
Definition two_caches : Managers Table :=
  mkManagers (manager (mkTable 8 {[1 := (true, 4); 2 := (true, 4)]}) [1; 2]) None None.

Definition three_requests : list PyRequest :=
  [plain (new_request 1 GENERATION_IN_PROGRESS 3 []) []; plain (new_request 3 CONTEXT_INIT 3 []) [];
   plain (new_request 2 GENERATION_IN_PROGRESS 3 []) []].

Definition scheduler (budget : Z) (unit : option Z) : KVCacheV2Scheduler :=
  KVCacheV2Scheduler_init 4 (Some budget) unit None None CONTEXT_INIT GENERATION_TO_COMPLETE.

Definition ids (o : SchedulerOutputV2) : list Z * list Z * list Z :=
  (py_request_id <$> o_generation o, py_request_id <$> o_context o, py_request_id <$> o_paused o).

Lemma three_requests_run :
  match v2_schedule_request (scheduler 4 None) two_caches three_requests ∅ with
  | Ok (o, _) => ids o = ([1], [3], [2])
  | Err _ => False
  end.
Proof. vm_compute. done. Qed.

Lemma three_requests_ok :
  NoDup (py_request_id <$> three_requests) /\ forall r, r ∈ three_requests -> counts_ok r.
Proof.
  split; [apply (bool_decide_unpack _); vm_compute; done|]. apply Forall_forall.
  repeat (constructor; [vm_compute; split_and!; discriminate|]). constructor.
Qed.

Lemma scheduled_requests_on_gpu_witness :
  exists o ms', v2_schedule_request (scheduler 4 None) two_caches three_requests ∅ = Ok (o, ms') /\ ids o = ([1], [3], [2])
    /\ pass_ok (scheduler 4 None) ∅ two_caches (ready_requests three_requests) o ms'.
Proof.
  pose proof (scheduled_requests_on_gpu (scheduler 4 None) ∅ two_caches three_requests (proj1 three_requests_ok)
    ltac:(discriminate) (proj2 three_requests_ok)) as H. pose proof three_requests_run as Hrun.
  destruct (v2_schedule_request _ _ _ _) as [[o ms']|e]; [|destruct Hrun]. exists o, ms'. exact (conj eq_refl (conj Hrun H)).
Defined.

Lemma pass_within_budget_witness :
  exists o ms', v2_schedule_request (scheduler 4 None) two_caches three_requests ∅ = Ok (o, ms') /\ ids o = ([1], [3], [2])
    /\ pass_budget (scheduler 4 None) o.
Proof.
  pose proof (pass_within_budget (scheduler 4 None) ∅ two_caches three_requests (proj1 three_requests_ok)
    ltac:(discriminate) (proj2 three_requests_ok)) as H. pose proof three_requests_run as Hrun.
  destruct (v2_schedule_request _ _ _ _) as [[o ms']|e]; [|destruct Hrun]. exists o, ms'. exact (conj eq_refl (conj Hrun H)).
Defined.

(** The draft tokens of a last chunk are not checked against the token budget: with a
    budget of 4 tokens, a prompt of 4 tokens with 3 draft tokens is scheduled as 7. *)
Theorem last_chunk_drafts_over_budget :
  let sch := scheduler 4 (Some 2) in
  match v2_schedule_request sch (mkManagers (manager (mkTable 16 ∅) []) None None) [plain (new_request 1 CONTEXT_INIT 4 []) [7; 7; 7]] ∅ with
  | Ok (o, _) => v2_max_num_tokens sch = Some 4 /\ py_request_id <$> o_context o = [1] /\ total_tokens sch [] [] (o_context o) = 7
  | Err _ => False
  end.
Proof. vm_compute. done. Qed.

(** If the cross KV cache manager has no free index slot, [_create_kv_cache] returns
    [None] and the scheduler uses it as a cache: the pass raises [AttributeError]
    where the main manager would have made it wait. *)
Theorem no_cross_slot_raises :
  let full := mkV2 (mkTable 16 ∅) ∅ 0 false 4 0 ∅ in
  let q := new_request 1 CONTEXT_INIT 4 [] in
  let r := plain (mkLlmRequest 1 CONTEXT_INIT 4 0 0 4 0 4 [] 1 None 0 (Some 5) None (Some true) [] None 32) [] in
  v2_schedule_request (scheduler 8 None) (mkManagers (manager (mkTable 16 ∅) []) None (Some full)) [r] ∅ = Err AttributeError
  /\ match v2_schedule_request (scheduler 8 None) (mkManagers full None None) [plain q []] ∅ with Ok (o, _) => o_context o = [] | Err _ => False end.
Proof. vm_compute. done. Qed.

End Table.
