(* ===== verification/LegacyKvCache.v ===== *)
(** * The KV cache manager of the TensorRT engine runtime

    [runtime/kv_cache_manager.py] hands out cache blocks to the beams of a sequence.
    The blocks of a context are shared between the beams and counted; a beam gets
    blocks of its own for what it generates.  [BlocksManager] keeps the free blocks,
    the reference counts and the blocks of every beam, [KVCacheManager] decides when a
    sequence needs a block, in a cache that wraps around after the attention window
    but keeps the sink tokens.  [runtime/memory_pools/] has one such manager for every
    number of KV heads.

    A sequence is an object that all managers share; it is named by its [seq_idx],
    which the callers keep distinct, and its [batch_idx] is in a table of its own. *)

From stdpp Require Import prelude gmap.
From S2P Require Import Prelude.
Local Open Scope Z_scope.

(** ** Blocks *)

(** Blocks are named by their [idx]. *)
Record BlocksManager := mkBlocksManager {
  max_blocks_per_seq : Z;
  num_layers : Z;
  num_blocks : Z;
  block_size : Z;
  beam_width : Z;
  free_blocks : list Z;
  ref_count : gmap Z Z;
  allocated_blocks : gmap Z (list (list Z));
}.

Definition BlocksManager_init (num_layers num_blocks block_size max_blocks_per_seq beam_width : Z) : BlocksManager :=
  mkBlocksManager max_blocks_per_seq num_layers num_blocks block_size beam_width (seqZ 0 num_blocks) ∅ ∅.

Definition set_free (self : BlocksManager) (l : list Z) : BlocksManager :=
  mkBlocksManager (max_blocks_per_seq self) (num_layers self) (num_blocks self) (block_size self) (beam_width self)
    l (ref_count self) (allocated_blocks self).
Definition set_rows (self : BlocksManager) (owner : Z) (rows : list (list Z)) : BlocksManager :=
  mkBlocksManager (max_blocks_per_seq self) (num_layers self) (num_blocks self) (block_size self) (beam_width self)
    (free_blocks self) (ref_count self) (<[owner := rows]> (allocated_blocks self)).

Definition ref_of (self : BlocksManager) (b : Z) : Z := default 0 (ref_count self !! b).

(** [block.ref_count += d] *)
Definition add_refs (self : BlocksManager) (b d : Z) : BlocksManager :=
  mkBlocksManager (max_blocks_per_seq self) (num_layers self) (num_blocks self) (block_size self) (beam_width self)
    (free_blocks self) (<[b := ref_of self b + d]> (ref_count self)) (allocated_blocks self).

Definition add_link (self : BlocksManager) (b : Z) : BlocksManager := add_refs self b 1.
Definition remove_link (self : BlocksManager) (b : Z) : BlocksManager := add_refs self b (-1).
Definition has_link (self : BlocksManager) (b : Z) : bool := 0 <? ref_of self b.
Definition is_shared (self : BlocksManager) (b : Z) : bool := 1 <? ref_of self b.

(** [self.allocated_blocks[owner]], a [defaultdict]. *)
Definition beams_of (self : BlocksManager) (owner : Z) : list (list Z) :=
  default (replicate (Z.to_nat (beam_width self)) []) (allocated_blocks self !! owner).

Definition has_free_block (self : BlocksManager) : bool := 0 <? len (free_blocks self).

Definition pop_free (self : BlocksManager) : result (Z * BlocksManager) :=
  match free_blocks self with b :: rest => Ok (b, set_free self rest) | [] => Err IndexError end.

Definition allocate_beam (owner : Z) (share_across_beam : bool) (st : option Z * BlocksManager) (bi : Z)
    : result (option Z * BlocksManager) :=
  let '(block, self) := st in
  if negb (has_free_block self) then Err RuntimeError
  else
    '(b, self) ← match block with
                 | Some b => if share_across_beam then Ok (b, self) else pop_free self
                 | None => pop_free self
                 end;
    let self := add_link self b in
    row ← py_get (beams_of self owner) bi;
    rows ← py_set (beams_of self owner) bi (row ++ [b]);
    Ok (Some b, set_rows self owner rows).

Definition allocate (self : BlocksManager) (owner : Z) (share_across_beam : bool) : result BlocksManager :=
  '(_, self) ← for_each (allocate_beam owner share_across_beam) (None, self) (seqZ 0 (beam_width self));
  Ok self.

(** Drop a reference; the block is free when it was the last. *)
Definition unlink (self : BlocksManager) (b : Z) : BlocksManager :=
  let self := remove_link self b in
  if negb (has_link self b) then set_free self (free_blocks self ++ [b]) else self.

Definition unlink_beam (owner block_idx : Z) (self : BlocksManager) (bi : Z) : result BlocksManager :=
  row ← py_get (beams_of self owner) bi;
  b ← py_get row block_idx;
  Ok (unlink self b).

Definition relink_beam (owner block_idx : Z) (self : BlocksManager) (bi : Z) : result BlocksManager :=
  if negb (has_free_block self) then Err RuntimeError
  else
    '(b, self) ← pop_free self;
    let self := add_link self b in
    row ← py_get (beams_of self owner) bi;
    row ← py_set row block_idx b;
    rows ← py_set (beams_of self owner) bi row;
    Ok (set_rows self owner rows).

Definition replace_shared_block (self : BlocksManager) (owner block_idx : Z) : result BlocksManager :=
  row ← py_get (beams_of self owner) 0;
  b ← py_get row block_idx;
  if negb (is_shared self b) then Ok self
  else
    self ← for_each (unlink_beam owner block_idx) self (seqZ 0 (beam_width self));
    for_each (relink_beam owner block_idx) self (seqZ 0 (beam_width self)).

Definition free_beam (owner : Z) (self : BlocksManager) (bi : Z) : result BlocksManager :=
  row ← py_get (beams_of self owner) bi;
  Ok (foldl unlink self row).

Definition free (self : BlocksManager) (owner : Z) : result BlocksManager :=
  self ← for_each (free_beam owner) self (seqZ 0 (beam_width self));
  Ok (mkBlocksManager (max_blocks_per_seq self) (num_layers self) (num_blocks self) (block_size self) (beam_width self)
        (free_blocks self) (ref_count self) (delete owner (allocated_blocks self))).

(** Asking for a sequence that has no blocks makes an entry for it. *)
Definition get_number_blocks (self : BlocksManager) (owner : Z) : result (Z * BlocksManager) :=
  row ← py_get (beams_of self owner) 0;
  Ok (len row, set_rows self owner (beams_of self owner)).

Definition get_k_or_v_block_offset (self : BlocksManager) (block_idx field_idx : Z) : Z :=
  block_idx * num_layers self * 2 + field_idx.

(** [offset_array[i][bi][x][j] = v] *)
Definition set_offset (a : list (list (list (list Z)))) (i bi x j v : Z) : result (list (list (list (list Z)))) :=
  ai ← py_get a i;
  ab ← py_get ai bi;
  ax ← py_get ab x;
  ax ← py_set ax j v;
  ab ← py_set ab x ax;
  ai ← py_set ai bi ab;
  py_set a i ai.

Definition offset_of_block (self : BlocksManager) (i bi : Z) (a : list (list (list (list Z)))) (jb : Z * Z)
    : result (list (list (list (list Z)))) :=
  let '(j, b) := jb in
  for_each (fun a x => set_offset a i bi x j (get_k_or_v_block_offset self b x)) a [0; 1].

Definition get_offset_array (self : BlocksManager) (get_batch_idx : Z -> Z) (beam_width' : Z)
    : result (list (list (list (list Z)))) :=
  _ ← py_assert (beam_width' <=? beam_width self);
  let zeros := replicate (size (allocated_blocks self))
                 (replicate (Z.to_nat beam_width') (replicate 2 (replicate (Z.to_nat (max_blocks_per_seq self)) 0))) in
  for_each (fun a '(owner, beams_blocks) =>
      for_each (fun a bi =>
          row ← py_get beams_blocks bi;
          for_each (offset_of_block self (get_batch_idx owner) bi) a (zip (seqZ 0 (len row)) row))
        a (seqZ 0 beam_width'))
    zeros (map_to_list (allocated_blocks self)).

(** ** Sequences *)

(** The [batch_idx] of the sequence objects. *)
Abbreviation Sequences := (gmap Z Z).

Definition get_batch_idx (seqs : Sequences) (seq : Z) : Z := default 0 (seqs !! seq).

Record KVCacheManager := mkKVCacheManager {
  blocks_manager : BlocksManager;
  tokens_per_block : Z;
  max_attention_window_size : Z;
  sink_token_len : Z;
  bubble_len : Z;
  sink_block_token_num : Z;
  max_token_num : Z;
  lens : list Z;
  sequences : list Z;
}.

Definition KVCacheManager_init (num_layers num_blocks block_size tokens_per_block max_blocks_per_seq max_attention_window_size
    sink_token_len beam_width : Z) (use_one_more_block : bool) : result KVCacheManager :=
  sink_rest ← pymod sink_token_len tokens_per_block;
  let bubble_len := if sink_rest =? 0 then 0 else tokens_per_block - sink_rest in
  let max_token_num := max_attention_window_size + bubble_len in
  let max_token_num := if use_one_more_block then max_token_num + tokens_per_block else max_token_num in
  Ok (mkKVCacheManager (BlocksManager_init num_layers num_blocks block_size max_blocks_per_seq beam_width)
        tokens_per_block max_attention_window_size sink_token_len bubble_len (sink_token_len + bubble_len) max_token_num [] []).

Definition with_blocks (self : KVCacheManager) (bm : BlocksManager) : KVCacheManager :=
  mkKVCacheManager bm (tokens_per_block self) (max_attention_window_size self) (sink_token_len self) (bubble_len self)
    (sink_block_token_num self) (max_token_num self) (lens self) (sequences self).
Definition with_lens (self : KVCacheManager) (ls : list Z) : KVCacheManager :=
  mkKVCacheManager (blocks_manager self) (tokens_per_block self) (max_attention_window_size self) (sink_token_len self) (bubble_len self)
    (sink_block_token_num self) (max_token_num self) ls (sequences self).
Definition with_sequences (self : KVCacheManager) (ss : list Z) : KVCacheManager :=
  mkKVCacheManager (blocks_manager self) (tokens_per_block self) (max_attention_window_size self) (sink_token_len self) (bubble_len self)
    (sink_block_token_num self) (max_token_num self) (lens self) ss.

(** One more token for a sequence. *)
Definition step_sequence (seqs : Sequences) (finished : list bool) (self : KVCacheManager) (seq : Z) : result KVCacheManager :=
  let batch_idx := get_batch_idx seqs seq in
  let cyclic_token_num := max_token_num self - sink_block_token_num self in
  l ← py_get (lens self) batch_idx;
  m ← pymod (l - sink_block_token_num self) cyclic_token_num;
  let next_token_idx_in_cache := sink_block_token_num self + m in
  fin ← py_get finished batch_idx;
  at_block ← pymod next_token_idx_in_cache (tokens_per_block self);
  at_start ← pymod (next_token_idx_in_cache - sink_block_token_num self) cyclic_token_num;
  bm ← (if negb fin && ((at_block =? 0) || (at_start =? 0)) then
          if l <? max_token_num self then allocate (blocks_manager self) seq false
          else if 1 <? beam_width (blocks_manager self) then
            next_block_idx ← pydiv next_token_idx_in_cache (tokens_per_block self);
            replace_shared_block (blocks_manager self) seq next_block_idx
          else Ok (blocks_manager self)
        else Ok (blocks_manager self));
  lens ← py_set (lens self) batch_idx (l + 1);
  Ok (with_lens (with_blocks self bm) lens).

(** Remove a sequence if it is finished. *)
Definition free_finished (self : KVCacheManager) (x : Z * bool) : result KVCacheManager :=
  let '(fi, fin) := x in
  if (fin : bool) then
    seq ← py_get (sequences self) fi;
    bm ← free (blocks_manager self) seq;
    Ok (with_blocks self bm)
  else Ok self.

(** Number the sequences that go on. *)
Definition remap (seqs : Sequences) (l : list Z) : Sequences :=
  foldl (fun seqs '(i, seq) => <[seq := i]> seqs) seqs (zip (seqZ 0 (len l)) l).

Definition unfinished {A} (l : list A) (finished : list bool) : list A :=
  (filter (fun p => p.2 = false) (zip l finished)).*1.

Definition step (self : KVCacheManager) (seqs : Sequences) (finished : list bool) : result (KVCacheManager * Sequences) :=
  self ← for_each (step_sequence seqs finished) self (sequences self);
  self ← for_each free_finished self (zip (seqZ 0 (len finished)) finished);
  let self := with_lens self (unfinished (lens self) finished) in
  let new_sequences := unfinished (sequences self) finished in
  Ok (with_sequences self new_sequences, remap seqs new_sequences).

Definition add_sequence (self : KVCacheManager) (sequence context_len : Z) (always_share_across_beam : bool) : result KVCacheManager :=
  let seq_len := context_len + bubble_len self in
  let self := with_sequences (with_lens self (lens self ++ [seq_len])) (sequences self ++ [sequence]) in
  let enable_cyclic_kv_cache := max_token_num self <=? seq_len in
  m ← pymod (seq_len - 1 - sink_block_token_num self) (max_token_num self - sink_block_token_num self);
  let final_token_kv_index := sink_block_token_num self + m in
  let t := tokens_per_block self in
  let unshared_block_idx :=
    if negb enable_cyclic_kv_cache || (1 <? beam_width (blocks_manager self)) || (0 <? final_token_kv_index mod t) then
      if (final_token_kv_index + 1) mod t =? 0 then final_token_kv_index / t + 1 else final_token_kv_index / t
    else -1 in
  let seq_len := Z.min seq_len (max_token_num self) in
  let context_blocks := if 0 <? seq_len mod t then seq_len / t + 1 else seq_len / t in
  bm ← for_each (fun bm i => allocate bm sequence (if always_share_across_beam then true else negb (i =? unshared_block_idx)))
         (blocks_manager self) (seqZ 0 context_blocks);
  Ok (with_blocks self bm).

Definition get_block_offsets (self : KVCacheManager) (seqs : Sequences) (beam_width' : Z) :=
  get_offset_array (blocks_manager self) (get_batch_idx seqs) beam_width'.

(** ** Memory pools *)

Record Pool := mkPool { pool_kv_heads : Z; pool_layers : Z }.

(** The layers with the same number of KV heads share a pool; a layer is found by its
    pool and its place there.  [sorted(set(...))] is [unique_nkvh]. *)
Definition unique_nkvh (num_kv_heads_per_layer : list Z) : list Z := sort_by Z.leb (remove_dups num_kv_heads_per_layer).

Definition layers_with (num_kv_heads_per_layer : list Z) (kv_head : Z) : list Z :=
  (filter (fun p => p.2 = kv_head) (zip (seqZ 0 (len num_kv_heads_per_layer)) num_kv_heads_per_layer)).*1.

Definition allocate_pool (num_kv_heads_per_layer : list Z) (st : list Pool * list (Z * Z)) (x : Z * Z)
    : result (list Pool * list (Z * Z)) :=
  let '(metadata, mapping) := st in
  let '(index_of_pool, kv_head) := x in
  let layers := layers_with num_kv_heads_per_layer kv_head in
  mapping ← for_each (fun m '(j, layer) => py_set m layer (index_of_pool, j)) mapping (zip (seqZ 0 (len layers)) layers);
  Ok (metadata ++ [mkPool kv_head (len layers)], mapping).

Definition allocate_pools (num_kv_heads_per_layer : list Z) : result (list Pool * list (Z * Z)) :=
  let heads := unique_nkvh num_kv_heads_per_layer in
  '(metadata, mapping) ← for_each (allocate_pool num_kv_heads_per_layer)
                           ([], replicate (length num_kv_heads_per_layer) (-1, -1)) (zip (seqZ 0 (len heads)) heads);
  _ ← py_assert (forallb (fun '(a, b) => negb (a =? -1) && negb (b =? -1)) mapping);
  Ok (metadata, mapping).

(** The managers of all pools are given the same sequence objects. *)
Definition pools_init (pools : list Pool) (max_blocks_per_seq num_blocks tokens_per_block head_size max_attention_window_size
    beam_width sink_token_len : Z) : result (list KVCacheManager) :=
  mapM (fun pool => KVCacheManager_init (pool_layers pool) num_blocks (pool_kv_heads pool * tokens_per_block * head_size)
                      tokens_per_block max_blocks_per_seq max_attention_window_size sink_token_len beam_width false) pools.

Definition pools_add_sequence (self : list KVCacheManager) (sequence context_len : Z) (always_share_across_beam : bool)
    : result (list KVCacheManager) :=
  mapM (fun m => add_sequence m sequence context_len always_share_across_beam) self.

Fixpoint pools_step (self : list KVCacheManager) (seqs : Sequences) (finished : list bool) : result (list KVCacheManager * Sequences) :=
  match self with
  | [] => Ok ([], seqs)
  | m :: ms =>
      '(m, seqs) ← step m seqs finished;
      '(ms, seqs) ← pools_step ms seqs finished;
      Ok (m :: ms, seqs)
  end.

Definition get_single_kv_cache_manager (self : list KVCacheManager) : result KVCacheManager :=
  _ ← py_assert (len self =? 1);
  py_get self 0.






















































(** ** Columns

    The blocks at one place of all beams of a sequence are a column. *)

Definition uses (b : Z) (l : list Z) : Z := zsum (fun x => if decide (x = b) then 1 else 0) l.

Lemma uses_app b l1 l2 : uses b (l1 ++ l2) = uses b l1 + uses b l2.
Proof. apply zsum_app. Qed.

Lemma uses_nil b : uses b [] = 0.
Proof. done. Qed.

Lemma uses_cons b x l : uses b (x :: l) = (if decide (x = b) then 1 else 0) + uses b l.
Proof. apply zsum_cons. Qed.

Lemma uses_perm b l1 l2 : l1 ≡ₚ l2 -> uses b l1 = uses b l2.
Proof. apply zsum_perm. Qed.

Lemma uses_none b l : (b ∉ l) -> uses b l = 0.
Proof. intros Hb. apply zsum_0. intros x Hx. rewrite decide_False; [done|]. by intros ->. Qed.

Lemma uses_nonneg b l : 0 <= uses b l.
Proof. apply zsum_nonneg. intros x _. case_decide; lia. Qed.

Lemma uses_pos b l : b ∈ l -> 0 < uses b l.
Proof.
  intros Hb. apply list_elem_of_split in Hb as (l1 & l2 & ->). rewrite uses_app, uses_cons, decide_True by done.
  pose proof (uses_nonneg b l1). pose proof (uses_nonneg b l2). lia.
Qed.

Lemma uses_once b l : NoDup l -> b ∈ l -> uses b l = 1.
Proof.
  induction 1 as [|x l Hx _ IH]; [by intros ?%not_elem_of_nil|]. rewrite uses_cons. intros [->|Hb]%elem_of_cons.
  - rewrite decide_True, uses_none by done. lia.
  - rewrite decide_False, IH by (done || by intros ->). lia.
Qed.

Lemma uses_replicate b n : uses b (replicate n b) = Z.of_nat n.
Proof. induction n as [|n IH]; [done|]. cbn [replicate]. rewrite uses_cons, decide_True, IH by done. lia. Qed.

(** The rows of the beams, given the columns. *)
Definition rows_of (w : nat) (cols : list (list Z)) : list (list Z) :=
  (fun bi => (fun c => c !!! bi) <$> cols) <$> seq 0 w.

Lemma rows_of_lookup w cols k : (k < w)%nat -> rows_of w cols !! k = Some ((fun c => c !!! k) <$> cols).
Proof. intros Hk. unfold rows_of. rewrite list_lookup_fmap, lookup_seq_lt by done. done. Qed.

Lemma rows_of_length w cols : length (rows_of w cols) = w.
Proof. unfold rows_of. by rewrite length_fmap, length_seq. Qed.

Lemma rows_of_nil w : rows_of w [] = replicate w [].
Proof.
  apply list_eq. intros k. destruct (decide (k < w)%nat) as [Hk|Hk].
  - rewrite rows_of_lookup, lookup_replicate_2 by done. done.
  - rewrite !lookup_ge_None_2; [done|rewrite length_replicate|rewrite rows_of_length]; lia.
Qed.

(** Rows that were updated one after the other. *)
Definition upd_rows {A} (g : nat -> A -> A) (k : nat) (rows : list A) : list A :=
  imap (fun bi row => if (bi <? k)%nat then g bi row else row) rows.

Lemma upd_rows_0 {A} g (rows : list A) : upd_rows g 0 rows = rows.
Proof. apply list_eq. intros i. unfold upd_rows. rewrite list_lookup_imap. by destruct (rows !! i). Qed.

Lemma upd_rows_next {A} g k (rows : list A) row :
  rows !! k = Some row -> upd_rows g k rows !! k = Some row /\ <[k := g k row]> (upd_rows g k rows) = upd_rows g (S k) rows.
Proof.
  intros Hk. assert (Hu : upd_rows g k rows !! k = Some row).
  { unfold upd_rows. rewrite list_lookup_imap, Hk. simpl. by rewrite Nat.ltb_irrefl. }
  split; [done|]. apply list_eq. intros i. destruct (decide (i = k)) as [->|Hne].
  - rewrite list_lookup_insert_eq by by eapply lookup_lt_Some. unfold upd_rows. rewrite list_lookup_imap, Hk. simpl.
    destruct (Nat.ltb_spec k (S k)); [done|lia].
  - rewrite list_lookup_insert_ne by done. unfold upd_rows. rewrite !list_lookup_imap. destruct (rows !! i); [|done]. simpl. f_equal.
    destruct (Nat.ltb_spec i k), (Nat.ltb_spec i (S k)); (done || lia).
Qed.

Lemma upd_rows_snoc w cols c : upd_rows (fun bi row => row ++ [c !!! bi]) w (rows_of w cols) = rows_of w (cols ++ [c]).
Proof.
  apply list_eq. intros k. unfold upd_rows. rewrite list_lookup_imap. destruct (decide (k < w)%nat) as [Hk|Hk].
  - rewrite !rows_of_lookup by done. simpl. apply Nat.ltb_lt in Hk. rewrite Hk. by rewrite fmap_app.
  - rewrite !lookup_ge_None_2; [done|rewrite rows_of_length; lia..].
Qed.

Lemma upd_rows_insert w cols i c : upd_rows (fun bi row => <[i := c !!! bi]> row) w (rows_of w cols) = rows_of w (<[i := c]> cols).
Proof.
  apply list_eq. intros k. unfold upd_rows. rewrite list_lookup_imap. destruct (decide (k < w)%nat) as [Hk|Hk].
  - rewrite !rows_of_lookup by done. simpl. apply Nat.ltb_lt in Hk. rewrite Hk. f_equal. symmetry. apply list_fmap_insert.
  - rewrite !lookup_ge_None_2; [done|rewrite rows_of_length; lia..].
Qed.

Lemma column_of w (c : list Z) : length c = w -> (fun bi => c !!! bi) <$> seq 0 w = c.
Proof.
  intros <-. apply list_eq. intros k. rewrite list_lookup_fmap. destruct (decide (k < length c)%nat) as [Hk|Hk].
  - rewrite lookup_seq_lt by done. simpl. destruct (lookup_lt_is_Some_2 c k Hk) as [x Hx]. rewrite Hx. f_equal. by apply list_lookup_total_correct.
  - rewrite !lookup_ge_None_2; [done|lia|rewrite length_seq; lia].
Qed.

(** Beam by beam or column by column, the blocks are the same. *)
Lemma rows_of_concat w cols : (forall c, c ∈ cols -> length c = w) -> concat (rows_of w cols) ≡ₚ concat cols.
Proof.
  induction cols as [|c cols IH]; intros Hc.
  - rewrite rows_of_nil, concat_replicate_nil. done.
  - assert (Hrows : forall l, concat ((fun bi => c !!! bi :: ((fun c => c !!! bi) <$> cols)) <$> l)
        ≡ₚ ((fun bi => c !!! bi) <$> l) ++ concat ((fun bi => (fun c => c !!! bi) <$> cols) <$> l)).
    { induction l as [|k l IHl]; [done|]. cbn [fmap list_fmap concat app]. rewrite IHl. solve_Permutation. }
    unfold rows_of. cbn [fmap list_fmap]. etransitivity; [apply Hrows|]. rewrite (column_of w c) by (apply Hc; left). cbn [concat]. f_equiv.
    apply IH. intros c' Hin. apply Hc. by right.
Qed.

(** ** The account of the blocks

    [col o i c]: the column [c] is the one at place [i] of sequence [o].  A column is
    one block that all beams share, counted [w] times, or a block of its own for every
    beam; columns have no blocks in common, and what is in no column is free. *)

Section account.
Variables (w : nat) (n : Z).
Hypothesis Hw : (0 < w)%nat.
Implicit Types col : Z -> nat -> list Z -> Prop.

Definition shared_col (ref : Z -> Z) (c : list Z) : Prop := exists b, c = replicate w b /\ ref b = Z.of_nat w.
Definition own_col (ref : Z -> Z) (c : list Z) : Prop := NoDup c /\ forall b, b ∈ c -> ref b = 1.

Record account (ref : Z -> Z) (fr : list Z) col : Prop := {
  ac_fun : forall o i c c', col o i c -> col o i c' -> c = c';
  ac_len : forall o i c, col o i c -> length c = w;
  ac_kind : forall o i c, col o i c -> shared_col ref c \/ own_col ref c;
  ac_disj : forall o i c o' i' c' b, col o i c -> col o' i' c' -> b ∈ c -> b ∈ c' -> o = o' /\ i = i';
  ac_nodup : NoDup fr;
  ac_free : forall b, b ∈ fr <-> 0 <= b < n /\ forall o i c, col o i c -> b ∉ c;
  ac_zero : forall b, b ∈ fr -> ref b = 0;
  ac_range : forall o i c b, col o i c -> b ∈ c -> 0 <= b < n;
}.

Lemma in_replicate (b : Z) : b ∈ replicate w b.
Proof using Hw. destruct w; [lia|]. left. Qed.

Lemma kind_same ref ref' c : (forall b, b ∈ c -> ref' b = ref b) -> shared_col ref c \/ own_col ref c -> shared_col ref' c \/ own_col ref' c.
Proof using Hw.
  intros Hs [(b & -> & Hb)|[Hnd Hb]]; [left; exists b; split; [done|]; rewrite Hs; [done|apply in_replicate]|right].
  split; [done|]. intros b Hin. rewrite Hs; auto.
Qed.

(** A new column of free blocks. *)
Lemma account_add ref ref' fr fr' col col' o i c :
  account ref fr col -> length c = w -> (forall c', ~ col o i c') -> (forall b, b ∈ c -> b ∈ fr) ->
  ((exists b, c = replicate w b) \/ NoDup c) ->
  NoDup fr' -> (forall b, b ∈ fr' <-> b ∈ fr /\ b ∉ c) ->
  (forall b, ref' b = ref b + uses b c) ->
  (forall o' i' c', col' o' i' c' <-> col o' i' c' \/ (o' = o /\ i' = i /\ c' = c)) ->
  account ref' fr' col'.
Proof using Hw.
  intros [Hf Hl Hk Hd Hn Hfr Hz Hr] Hlen Hnew Hc Hkind Hn' Hfr' Href Hcol.
  assert (Hout : forall o' i' c' b, col o' i' c' -> b ∈ c' -> b ∉ c).
  { intros o' i' c' b Hcl Hb Hb'. apply Hc, Hfr in Hb' as [_ Hno]. by apply (Hno o' i' c'). }
  assert (Hin : forall b, b ∈ c -> ref b = 0) by (intros b Hb; auto).
  split.
  - intros o' i' c1 c2. rewrite !Hcol. intros [H1|(-> & -> & ->)] [H2|(? & ? & ->)]; subst; [by eapply Hf|by destruct (Hnew c1)|by destruct (Hnew c2)|done].
  - intros o' i' c'. rewrite Hcol. intros [H1|(-> & -> & ->)]; [by eapply Hl|done].
  - intros o' i' c'. rewrite Hcol. intros [H1|(-> & -> & ->)].
    + apply (kind_same ref); [|by eapply Hk]. intros b Hb. rewrite Href, uses_none by (by eapply Hout). lia.
    + destruct Hkind as [[b ->]|Hnd]; [left; exists b; split; [done|]|right; split; [done|intros b Hb]].
      * rewrite Href, uses_replicate, Hin by apply in_replicate. done.
      * rewrite Href, uses_once, Hin by done. done.
  - intros o1 i1 c1 o2 i2 c2 b. rewrite !Hcol. intros [H1|(-> & -> & ->)] [H2|(-> & -> & ->)] Hb1 Hb2; [by eapply Hd|..|done].
    + by destruct (Hout o1 i1 c1 b).
    + by destruct (Hout o2 i2 c2 b).
  - done.
  - intros b. rewrite Hfr', Hfr. setoid_rewrite Hcol. split.
    + intros [[Hb Hno] Hnc]. split; [done|]. intros o' i' c' [H1|(-> & -> & ->)]; [by eapply Hno|done].
    + intros [Hb Hno]. split; [split; [done|]|]; [|by apply (Hno o i c); right]. intros o' i' c' H1. apply (Hno o' i' c'). by left.
  - intros b [Hb Hnc]%Hfr'. rewrite Href, uses_none, Hz by done. done.
  - intros o' i' c' b. rewrite Hcol. intros [H1|(-> & -> & ->)] Hb; [by eapply Hr|]. by apply Hc, Hfr in Hb as [].
Qed.

(** Some columns go, and their blocks are free. *)
Lemma account_remove ref ref' fr f col (gone : Z -> nat -> bool) :
  account ref fr col -> NoDup f ->
  (forall b, b ∈ f <-> exists o i c, col o i c /\ gone o i = true /\ b ∈ c) ->
  (forall b, b ∈ f -> ref' b = 0) -> (forall b, b ∉ f -> ref' b = ref b) ->
  account ref' (fr ++ f) (fun o i c => col o i c /\ gone o i = false).
Proof using Hw.
  intros [Hf Hl Hk Hd Hn Hfr Hz Hr] Hnf Hfe Hz' Hs. split.
  - intros o i c c' [H1 _] [H2 _]. by eapply Hf.
  - intros o i c [H1 _]. by eapply Hl.
  - intros o i c [H1 Hng]. apply (kind_same ref); [|by eapply Hk]. intros b Hb. apply Hs. intros (o' & i' & c' & H2 & Hg & Hb')%Hfe.
    destruct (Hd _ _ _ _ _ _ _ H1 H2 Hb Hb') as [-> ->]. congruence.
  - intros o i c o' i' c' b [H1 _] [H2 _]. by eapply Hd.
  - apply NoDup_app. split; [done|]. split; [|done]. intros b Hb (o & i & c & H1 & _ & Hb')%Hfe. apply Hfr in Hb as [_ Hno]. by apply (Hno o i c).
  - intros b. rewrite elem_of_app, Hfr, Hfe. split.
    + intros [[Hb Hno]|(o & i & c & H1 & Hg & Hb)].
      * split; [done|]. intros o i c [H1 _]. by eapply Hno.
      * split; [by eapply Hr|]. intros o' i' c' [H2 Hng] Hb'. destruct (Hd _ _ _ _ _ _ _ H1 H2 Hb Hb') as [-> ->]. congruence.
    + intros [Hb Hno]. destruct (decide (b ∈ f)) as [Hin|Hin]; [right; by apply Hfe|left]. split; [done|]. intros o i c H1 Hb'.
      apply Hin, Hfe. exists o, i, c. split; [done|]. split; [|done]. destruct (gone o i) eqn:Hg; [done|]. by destruct (Hno o i c).
  - intros b [Hb|Hb]%elem_of_app; [|auto]. destruct (decide (b ∈ f)) as [|Hin]; [auto|]. rewrite Hs; auto.
  - intros o i c b [H1 _]. by eapply Hr.
Qed.

Lemma account_iff ref fr col col' : (forall o i c, col' o i c <-> col o i c) -> account ref fr col -> account ref fr col'.
Proof. intros Hc [Hf Hl Hk Hd Hn Hfr Hz Hr]. split; try setoid_rewrite Hc; done. Qed.

(** How often a block of a column is counted. *)
Lemma account_count ref fr col o i c b : account ref fr col -> col o i c -> b ∈ c -> ref b = uses b c /\ 0 < ref b.
Proof using Hw.
  intros Ha Hc Hb. destruct (ac_kind _ _ _ Ha _ _ _ Hc) as [(b' & -> & Hr)|[Hnd Hr]].
  - apply elem_of_replicate in Hb as [-> _]. rewrite uses_replicate, Hr. lia.
  - rewrite uses_once by done. rewrite Hr by done. lia.
Qed.

End account.

(** ** Operations on blocks *)

Definition width (bm : BlocksManager) : nat := Z.to_nat (beam_width bm).

Definition same_config (bm bm' : BlocksManager) : Prop :=
  max_blocks_per_seq bm' = max_blocks_per_seq bm /\ num_layers bm' = num_layers bm /\ num_blocks bm' = num_blocks bm
  /\ block_size bm' = block_size bm /\ beam_width bm' = beam_width bm.

Lemma same_config_trans bm1 bm2 bm3 : same_config bm1 bm2 -> same_config bm2 bm3 -> same_config bm1 bm3.
Proof. unfold same_config. intuition congruence. Qed.

Definition at_col (cols : gmap Z (list (list Z))) (o : Z) (i : nat) (c : list Z) : Prop :=
  exists cs, cols !! o = Some cs /\ cs !! i = Some c.

Definition cols_of (cols : gmap Z (list (list Z))) (o : Z) : list (list Z) := default [] (cols !! o).

Record blocks_ok (bm : BlocksManager) (cols : gmap Z (list (list Z))) : Prop := {
  bo_width : (0 < width bm)%nat;
  bo_rows : allocated_blocks bm = rows_of (width bm) <$> cols;
  bo_account : account (width bm) (num_blocks bm) (ref_of bm) (free_blocks bm) (at_col cols);
}.

Lemma beams_of_cols bm cols o : blocks_ok bm cols -> beams_of bm o = rows_of (width bm) (cols_of cols o).
Proof.
  intros [_ Hr _]. unfold beams_of, cols_of. rewrite Hr, lookup_fmap. destruct (cols !! o); [done|]. simpl. by rewrite rows_of_nil.
Qed.

Lemma beam_width_nat bm : (0 < width bm)%nat -> beam_width bm = Z.of_nat (width bm).
Proof. unfold width. lia. Qed.

Lemma ref_of_add bm b d x : ref_of (add_refs bm b d) x = ref_of bm x + (if decide (b = x) then d else 0).
Proof. unfold ref_of, add_refs. simpl. case_decide as Hd; [subst; rewrite lookup_insert_eq; done|rewrite lookup_insert_ne by done; lia]. Qed.

Lemma ref_of_add_link bm b x : ref_of (add_link bm b) x = ref_of bm x + (if decide (b = x) then 1 else 0).
Proof. apply ref_of_add. Qed.

(** *** Taking blocks, beam by beam *)

(** After [k] beams: the blocks [take k c] have one more reference, [fr k] is what is
    still free, and the rows of [o] were updated by [g]. *)
Record linked (bm0 : BlocksManager) (o : Z) (g : nat -> list Z -> list Z) (c : list Z) (fr : nat -> list Z) (k : nat) (s : BlocksManager) : Prop := {
  lk_free : free_blocks s = fr k;
  lk_ref : forall b, ref_of s b = ref_of bm0 b + uses b (take k c);
  lk_rows : beams_of s o = upd_rows g k (beams_of bm0 o);
  lk_others : forall o', o' <> o -> allocated_blocks s !! o' = allocated_blocks bm0 !! o';
  lk_owner : (0 < k)%nat -> is_Some (allocated_blocks s !! o);
  lk_config : same_config bm0 s;
}.

Lemma linked_start bm o g c fr : fr 0%nat = free_blocks bm -> linked bm o g c fr 0 bm.
Proof. intros Hf. split; try done; [intros b; rewrite take_0, uses_nil; lia|by rewrite upd_rows_0|lia]. Qed.

Lemma linked_next bm0 o g c fr k s b row :
  linked bm0 o g c fr k s -> c !! k = Some b -> beams_of bm0 o !! k = Some row ->
  let s1 := add_link (set_free s (fr (S k))) b in
  py_get (beams_of s1 o) (Z.of_nat k) = Ok row
  /\ py_set (beams_of s1 o) (Z.of_nat k) (g k row) = Ok (<[k := g k row]> (beams_of s1 o))
  /\ linked bm0 o g c fr (S k) (set_rows s1 o (<[k := g k row]> (beams_of s1 o))).
Proof.
  intros [Hf Hr Hb Ho Hs Hc] Hk Hrow s1. assert (Hb1 : beams_of s1 o = upd_rows g k (beams_of bm0 o)) by done.
  destruct (upd_rows_next g k _ _ Hrow) as [Hu1 Hu2]. rewrite Hb1. split; [by apply py_get_nat|]. split; [apply py_set_nat; by eapply lookup_lt_Some|].
  split; simpl; try done.
  - intros x. transitivity (ref_of (add_link s b) x); [done|]. rewrite ref_of_add_link, Hr, (take_S_r _ _ _ Hk), uses_app, uses_cons, uses_nil. lia.
  - unfold beams_of. simpl. by rewrite lookup_insert_eq.
  - intros o' Hne. rewrite lookup_insert_ne by done. by apply Ho.
  - intros _. rewrite lookup_insert_eq. eauto.
Qed.

(** The last beam was served. *)
Lemma linked_done bm0 o g c fr s :
  linked bm0 o g c fr (width bm0) s -> (0 < width bm0)%nat ->
  allocated_blocks s = <[o := upd_rows g (width bm0) (beams_of bm0 o)]> (allocated_blocks bm0).
Proof.
  intros [Hf Hr Hb Ho Hs Hc] Hw. apply map_eq. intros o'. destruct (decide (o' = o)) as [->|Hne].
  - rewrite lookup_insert_eq. destruct (Hs Hw) as [rows Hrows]. rewrite Hrows, <- Hb. unfold beams_of. by rewrite Hrows.
  - rewrite lookup_insert_ne by done. by apply Ho.
Qed.

(** What [allocate] needs, and what it takes. *)
Definition needed (bm : BlocksManager) (share : bool) : nat := if share then Nat.min 2 (width bm) else width bm.

Definition new_column (bm : BlocksManager) (share : bool) : list Z :=
  if share then replicate (width bm) (free_blocks bm !!! 0%nat) else take (width bm) (free_blocks bm).

Definition free_after (bm : BlocksManager) (share : bool) (k : nat) : list Z := drop (if share then Nat.min k 1 else k) (free_blocks bm).

Lemma pop_free_cons bm b rest : free_blocks bm = b :: rest -> pop_free bm = Ok (b, set_free bm rest).
Proof. intros Hf. unfold pop_free. by rewrite Hf. Qed.

Lemma set_free_same bm : set_free bm (free_blocks bm) = bm.
Proof. by destruct bm. Qed.

Lemma has_free_cons bm b rest : free_blocks bm = b :: rest -> has_free_block bm = true.
Proof. intros Hf. unfold has_free_block. rewrite Hf. done. Qed.

Section allocate.
Variables (bm : BlocksManager) (o : Z) (share : bool).
Hypotheses (Hw : (0 < width bm)%nat) (Hrows : length (beams_of bm o) = width bm).

Definition snoc_block (bi : nat) (row : list Z) : list Z := row ++ [new_column bm share !!! bi].

Definition alloc_state (k : nat) (st : option Z * BlocksManager) : Prop :=
  linked bm o snoc_block (new_column bm share) (free_after bm share) k st.2
  /\ st.1 = (match k with O => None | S j => new_column bm share !! j end).

Lemma alloc_step k st :
  (k < width bm)%nat -> ((if share then Nat.min k 1 else k) < length (free_blocks bm))%nat -> alloc_state k st ->
  exists st', allocate_beam o share st (Z.of_nat k) = Ok st' /\ alloc_state (S k) st'.
Proof.
  intros Hk Hlt [Hl Hblk]. destruct st as [block s]. simpl in Hl, Hblk.
  destruct (lookup_lt_is_Some_2 (free_blocks bm) _ Hlt) as [b Hb]. pose proof (drop_S _ _ _ Hb) as Hdrop.
  assert (Hfree : free_blocks s = b :: drop (S (if share then Nat.min k 1 else k)) (free_blocks bm)) by (rewrite (lk_free _ _ _ _ _ _ _ Hl); done).
  destruct (lookup_lt_is_Some_2 (beams_of bm o) k) as [row Hrow]; [lia|].
  assert (Hcol : exists b', new_column bm share !! k = Some b'
    /\ (match block with Some b => if share then Ok (b, s) else pop_free s | None => pop_free s end) = Ok (b', set_free s (free_after bm share (S k)))).
  { unfold new_column, free_after in *. destruct share.
    - assert (H0 : forall j, (j < width bm)%nat -> replicate (width bm) (free_blocks bm !!! 0%nat) !! j = Some (free_blocks bm !!! 0%nat))
        by (intros; by apply lookup_replicate_2).
      exists (free_blocks bm !!! 0%nat). split; [by apply H0|]. destruct k as [|k]; simpl in *.
      + subst block. rewrite (pop_free_cons _ _ _ Hfree). by rewrite (list_lookup_total_correct _ _ _ Hb).
      + subst block. rewrite (H0 k) by lia. do 2 f_equal. rewrite <- (set_free_same s) at 1. f_equal. rewrite (lk_free _ _ _ _ _ _ _ Hl).
        unfold free_after. by rewrite Nat.min_r by lia.
    - exists b. split; [by rewrite lookup_take_lt|]. rewrite (pop_free_cons _ _ _ Hfree). by destruct block. }
  destruct Hcol as (b' & Hc & Hpop). destruct (linked_next _ _ _ _ _ _ _ b' row Hl Hc Hrow) as (Hget & Hset & Hnext).
  exists (Some b', set_rows (add_link (set_free s (free_after bm share (S k))) b') o
      (<[k := snoc_block k row]> (beams_of (add_link (set_free s (free_after bm share (S k))) b') o))).
  split; [|split; [done|by rewrite Hc]]. unfold allocate_beam. rewrite (has_free_cons _ _ _ Hfree). cbn [negb]. rewrite Hpop. cbn [mbind result_bind].
  rewrite Hget. cbn [mbind result_bind]. replace (row ++ [b']) with (snoc_block k row) by (unfold snoc_block; by rewrite (list_lookup_total_correct _ _ _ Hc)).
  by rewrite Hset.
Qed.

Lemma alloc_start : alloc_state 0 (None, bm).
Proof. split; [|done]. apply linked_start. unfold free_after. by destruct share. Qed.

Lemma allocate_loop :
  if (needed bm share <=? length (free_blocks bm))%nat then
    exists bm', allocate bm o share = Ok bm' /\ linked bm o snoc_block (new_column bm share) (free_after bm share) (width bm) bm'
  else allocate bm o share = Err RuntimeError.
Proof.
  unfold allocate. rewrite (beam_width_nat _ Hw). destruct (Nat.leb_spec (needed bm share) (length (free_blocks bm))) as [Hle|Hgt].
  - destruct (for_range (allocate_beam o share) alloc_state (width bm) (None, bm) alloc_start) as ([blk bm'] & -> & [Hl _]).
    { intros k st Hk. apply alloc_step; [done|]. unfold needed in Hle. destruct share; lia. }
    exists bm'. done.
  - rewrite (for_range_err (allocate_beam o share) alloc_state (width bm) (length (free_blocks bm)) (None, bm) RuntimeError); [done|..].
    + unfold needed in Hgt. destruct share; lia.
    + apply alloc_start.
    + intros j st Hj. apply alloc_step; [unfold needed in Hgt; destruct share; lia|]. destruct share; lia.
    + intros [blk s] [Hl _]. simpl in Hl. unfold allocate_beam. unfold has_free_block. rewrite (lk_free _ _ _ _ _ _ _ Hl). unfold free_after.
      rewrite length_drop. unfold needed in Hgt. match goal with |- context [0 <? ?x] => destruct (Z.ltb_spec 0 x) end; [destruct share; lia|done].
Qed.

End allocate.

Definition push_col (cols : gmap Z (list (list Z))) (o : Z) (c : list Z) : gmap Z (list (list Z)) := <[o := cols_of cols o ++ [c]]> cols.

Lemma at_col_cols cols o i c : at_col cols o i c <-> cols_of cols o !! i = Some c.
Proof.
  unfold at_col, cols_of. destruct (cols !! o) as [cs|]; simpl; [|by split; [intros (? & ? & _)|]].
  split; [by intros (? & [= <-] & ?)|eauto].
Qed.

Lemma cols_of_insert cols o cs o' : cols_of (<[o := cs]> cols) o' = if decide (o' = o) then cs else cols_of cols o'.
Proof. unfold cols_of. case_decide as Hd; [subst; by rewrite lookup_insert_eq|by rewrite lookup_insert_ne]. Qed.

Lemma at_col_push cols o c o' i' c' :
  at_col (push_col cols o c) o' i' c' <-> at_col cols o' i' c' \/ (o' = o /\ i' = length (cols_of cols o) /\ c' = c).
Proof.
  rewrite !at_col_cols. unfold push_col. rewrite cols_of_insert. case_decide as Hd; [subst o'|split; [by left|intros [?|[? _]]; done]].
  rewrite lookup_snoc_Some. split.
  - intros [[_ H]|[-> ->]]; auto.
  - intros [H|(_ & -> & ->)]; [left; split; [by eapply lookup_lt_Some|done]|auto].
Qed.

(** Own blocks are distinct and in no other column; a shared one is counted once for
    every beam. *)
Lemma allocate_column_spec bm cols o share :
  blocks_ok bm cols ->
  match allocate bm o share with
  | Ok bm' => (needed bm share <= length (free_blocks bm))%nat /\ same_config bm bm'
      /\ blocks_ok bm' (push_col cols o (new_column bm share)) /\ free_blocks bm' = free_after bm share (width bm)
  | Err e => e = RuntimeError /\ (length (free_blocks bm) < needed bm share)%nat
  end.
Proof.
  intros Hok. pose proof Hok as [Hw Hrows Ha]. pose proof (beams_of_cols bm cols o Hok) as Hb.
  pose proof (allocate_loop bm o share Hw) as Hloop. rewrite Hb, rows_of_length in Hloop. specialize (Hloop eq_refl).
  destruct (Nat.leb_spec (needed bm share) (length (free_blocks bm))) as [Hle|Hgt]; [|by rewrite Hloop].
  destruct Hloop as (bm' & -> & Hl). pose proof (linked_done _ _ _ _ _ _ Hl Hw) as Halloc. destruct Hl as [Hf Hr _ _ _ Hc].
  split; [done|]. split; [done|]. split; [|done]. assert (Hw' : width bm' = width bm) by (unfold width; destruct Hc as (_ & _ & _ & _ & ->); done).
  assert (Hlen : length (new_column bm share) = width bm).
  { unfold new_column, needed in *. destruct share; [apply length_replicate|rewrite length_take; lia]. }
  split; [by rewrite Hw'| |].
  - rewrite Halloc, Hb, Hrows, Hw'. unfold snoc_block, push_col. rewrite upd_rows_snoc, fmap_insert. done.
  - rewrite Hw'. destruct Hc as (_ & _ & -> & _). pose proof (ac_nodup _ _ _ _ _ Ha) as Hnd.
    assert (Htd : forall m b, b ∈ drop m (free_blocks bm) <-> b ∈ free_blocks bm /\ b ∉ take m (free_blocks bm)).
    { intros m b. rewrite <- (take_drop m (free_blocks bm)) in Hnd |- * at 2. apply NoDup_app in Hnd as (_ & Hd & _). rewrite elem_of_app. split; [intros Hb'; split; [by right|intros Ht; by apply (Hd b)]|intros [[?|?] ?]; done]. }
    eapply (account_add (width bm) _ Hw (ref_of bm) _ (free_blocks bm) _ (at_col cols) _ o (length (cols_of cols o)) (new_column bm share) Ha Hlen).
    + intros c' H%at_col_cols. apply lookup_lt_Some in H. lia.
    + unfold new_column, needed in *. destruct share; intros b Hb'.
      * apply elem_of_replicate in Hb' as [-> _]. apply list_elem_of_lookup_total_2. lia.
      * by apply elem_of_take in Hb' as (j & Hj%list_elem_of_lookup_2 & _).
    + unfold new_column. destruct share; [left; eauto|right; by eapply sublist_NoDup, sublist_take].
    + rewrite Hf. unfold free_after. by eapply sublist_NoDup, sublist_drop.
    + intros b. rewrite Hf. unfold free_after. rewrite Htd. unfold new_column, needed in *. destruct share; [|done].
      destruct (free_blocks bm) as [|f0 fs] eqn:Hfb; [cbn [length] in Hle; lia|]. rewrite Nat.min_r by lia. cbn [take].
      change ((f0 :: fs) !!! 0%nat) with f0. rewrite list_elem_of_singleton, elem_of_replicate. split; [intros [? ?]; split; [done|by intros [? _]]|].
      intros [? Hx]. split; [done|]. intros ->. apply Hx. split; [done|lia].
    + intros b. rewrite Hr. by rewrite take_ge by lia.
    + intros o' i' c'. apply at_col_push.
Qed.

(** *** Dropping references *)

Lemma unlink_all l : forall bm, (forall b, b ∈ l -> uses b l <= ref_of bm b) ->
  let bm' := foldl unlink bm l in
  same_config bm bm' /\ allocated_blocks bm' = allocated_blocks bm /\ (forall b, ref_of bm' b = ref_of bm b - uses b l)
  /\ exists f, free_blocks bm' = free_blocks bm ++ f /\ NoDup f /\ forall b, b ∈ f <-> b ∈ l /\ ref_of bm b = uses b l.
Proof.
  induction l as [|x l IH]; intros bm Hl; cbn zeta.
  - cbn [foldl]. split; [done|]. split; [done|]. split; [intros b; rewrite uses_nil; lia|]. exists []. rewrite app_nil_r.
    split; [done|]. split; [constructor|]. intros b. split; [by intros ?%not_elem_of_nil|by intros [?%not_elem_of_nil _]].
  - cbn [foldl]. set (bm1 := unlink bm x).
    assert (Hr1 : forall b, ref_of bm1 b = ref_of bm b + (if decide (x = b) then -1 else 0)).
    { intros b. unfold bm1, unlink. rewrite <- ref_of_add. by destruct (negb _). }
    assert (Hf1 : free_blocks bm1 = free_blocks bm ++ (if decide (ref_of bm x = 1) then [x] else [])).
    { unfold bm1, unlink, has_link. cbn zeta. unfold remove_link. rewrite ref_of_add, decide_True by done.
      specialize (Hl x ltac:(left)). rewrite uses_cons, decide_True in Hl by done. pose proof (uses_nonneg x l).
      destruct (Z.ltb_spec 0 (ref_of bm x + -1)), (decide (ref_of bm x = 1)); try lia; simpl; by rewrite ?app_nil_r. }
    assert (Hs1 : same_config bm bm1 /\ allocated_blocks bm1 = allocated_blocks bm) by (unfold bm1, unlink; by destruct (negb _)).
    destruct (IH bm1) as (Hs2 & Ha2 & Hr2 & f & Hf2 & Hnf & Hfe).
    { intros b Hb. rewrite Hr1. specialize (Hl b ltac:(by right)). rewrite uses_cons in Hl. revert Hl. destruct (decide (x = b)); lia. }
    destruct Hs1 as [Hs1 Ha1]. split; [by eapply same_config_trans|]. split; [congruence|]. split.
    { intros b. rewrite Hr2, Hr1, uses_cons. destruct (decide (x = b)); lia. }
    exists ((if decide (ref_of bm x = 1) then [x] else []) ++ f). split; [rewrite Hf2, Hf1; by rewrite <- app_assoc|].
    assert (Hx : x ∈ l -> 1 < ref_of bm x).
    { intros Hin. specialize (Hl x ltac:(left)). rewrite uses_cons, decide_True in Hl by done. pose proof (uses_pos x l Hin). lia. }
    split.
    { case_decide; [|done]. constructor; [|done]. intros [Hin _]%Hfe. apply Hx in Hin. lia. }
    intros b. rewrite elem_of_app, Hfe, elem_of_cons, uses_cons, Hr1. destruct (decide (x = b)) as [<-|Hne].
    + destruct (decide (x ∈ l)) as [Hin|Hin].
      * specialize (Hx Hin). rewrite decide_False by lia. split; [intros [?%not_elem_of_nil|[_ ?]]; [done|split; [by left|lia]]|].
        intros [_ ?]. right. split; [done|lia].
      * rewrite (uses_none x l Hin). split.
        -- intros [Hd|[? _]]; [|done]. case_decide; [split; [by left|lia]|by apply not_elem_of_nil in Hd].
        -- intros [_ ?]. left. rewrite decide_True by lia. by apply list_elem_of_singleton.
    + rewrite Z.add_0_r, Z.add_0_l. split.
      * intros [Hd|[? ?]]; [|by split; [right|]]. case_decide; [apply list_elem_of_singleton in Hd; congruence|by apply not_elem_of_nil in Hd].
      * intros [[?|?] ?]; [congruence|by right].
Qed.

Lemma beams_of_same bm bm' o : same_config bm bm' -> allocated_blocks bm' = allocated_blocks bm -> beams_of bm' o = beams_of bm o.
Proof. intros (_ & _ & _ & _ & Hw) Ha. unfold beams_of. by rewrite Hw, Ha. Qed.

Lemma unlink_keeps l bm : same_config bm (foldl unlink bm l) /\ allocated_blocks (foldl unlink bm l) = allocated_blocks bm.
Proof.
  revert bm. induction l as [|x l IH]; intros bm; [done|]. cbn [foldl]. destruct (IH (unlink bm x)) as [Hs ->].
  assert (Hs1 : same_config bm (unlink bm x) /\ allocated_blocks (unlink bm x) = allocated_blocks bm) by (unfold unlink; by destruct (negb _)).
  destruct Hs1 as [Hs1 ->]. split; [by eapply same_config_trans|done].
Qed.

Lemma free_loop bm o : (0 < width bm)%nat -> length (beams_of bm o) = width bm ->
  for_each (free_beam o) bm (seqZ 0 (beam_width bm)) = Ok (foldl unlink bm (concat (beams_of bm o))).
Proof.
  intros Hw Hlen. rewrite (beam_width_nat _ Hw).
  destruct (for_range (free_beam o) (fun k s => s = foldl unlink bm (concat (take k (beams_of bm o)))) (width bm) bm) as (s & -> & ->).
  - done.
  - intros k s Hk ->. destruct (lookup_lt_is_Some_2 (beams_of bm o) k) as [row Hrow]; [lia|].
    destruct (unlink_keeps (concat (take k (beams_of bm o))) bm) as [Hs Ha]. unfold free_beam. rewrite (beams_of_same _ _ o Hs Ha), (py_get_nat _ _ _ Hrow).
    eexists. split; [done|]. rewrite (take_S_r _ _ _ Hrow), concat_app, foldl_app. cbn [concat]. by rewrite app_nil_r.
  - by rewrite take_ge by lia.
Qed.

(** The blocks of a sequence are counted as often as they are in its columns. *)
Lemma uses_concat_col w n ref fr cols o b :
  (0 < w)%nat -> account w n ref fr (at_col cols) -> b ∈ concat (cols_of cols o) -> uses b (concat (cols_of cols o)) = ref b.
Proof.
  intros Hw Ha Hb. apply elem_concat_lookup in Hb as (i & c & Hi & Hb).
  destruct (account_count w n Hw _ _ _ o i c b Ha) as [-> _]; [by apply at_col_cols|done|].
  rewrite <- (take_drop_middle _ _ _ Hi) at 1. rewrite concat_app, uses_app. cbn [concat]. rewrite uses_app.
  assert (Hno : forall j c', cols_of cols o !! j = Some c' -> j <> i -> b ∉ c').
  { intros j c' Hj Hne Hb'. destruct (ac_disj _ _ _ _ _ Ha o i c o j c' b) as [_ ?]; [by apply at_col_cols|by apply at_col_cols|done|done|congruence]. }
  rewrite (uses_none b (concat (take i _))), (uses_none b (concat (drop (S i) _))); [lia|..].
  - intros (j & c' & Hj & Hb')%elem_concat_lookup. rewrite lookup_drop in Hj. eapply Hno; [exact Hj|lia|done].
  - intros (j & c' & Hj & Hb')%elem_concat_lookup. apply lookup_take_Some in Hj as [Hj Hlt]. eapply Hno; [exact Hj|lia|done].
Qed.

Lemma free_spec bm cols o : blocks_ok bm cols ->
  exists bm' f, free bm o = Ok bm' /\ same_config bm bm' /\ blocks_ok bm' (delete o cols) /\ free_blocks bm' = free_blocks bm ++ f.
Proof.
  intros Hok. pose proof Hok as [Hw Hrows Ha]. pose proof (beams_of_cols bm cols o Hok) as Hb.
  assert (Hperm : concat (beams_of bm o) ≡ₚ concat (cols_of cols o)).
  { rewrite Hb. apply rows_of_concat. intros c [i Hi]%list_elem_of_lookup_1. by eapply (ac_len _ _ _ _ _ Ha o i), at_col_cols. }
  destruct (unlink_all (concat (beams_of bm o)) bm) as (Hs & Hal & Hr & f & Hf & Hnf & Hfe).
  { intros b Hin. rewrite Hperm in Hin. rewrite (uses_perm _ _ _ Hperm), (uses_concat_col _ _ _ _ _ _ _ Hw Ha Hin). done. }
  unfold free. rewrite free_loop by (done || by rewrite Hb, rows_of_length). cbn [mbind result_bind]. set (bm1 := foldl unlink bm _) in *.
  eexists _, f. split; [done|]. split; [done|]. split; [|done]. assert (Hw1 : width bm1 = width bm) by (unfold width; destruct Hs as (_ & _ & _ & _ & ->); done).
  assert (Hfe' : forall b, b ∈ f <-> b ∈ concat (cols_of cols o)).
  { intros b. rewrite Hfe, (uses_perm _ _ _ Hperm), Hperm. split; [by intros []|]. intros Hin. split; [done|]. symmetry. by eapply uses_concat_col. }
  split; simpl; [by rewrite <- Hw1 in Hw| |].
  - change (width _) with (width bm1). rewrite Hal, Hrows, Hw1, fmap_delete. done.
  - change (width _) with (width bm1). rewrite Hw1, Hf. destruct Hs as (_ & _ & -> & _).
    apply (account_iff _ _ _ _ (fun o' i c => at_col cols o' i c /\ bool_decide (o' = o) = false));
      [|apply (account_remove _ _ Hw (ref_of bm) _ _ f (at_col cols) (fun o' _ => bool_decide (o' = o)) Ha Hnf)].
    + intros o' i c. unfold at_col. simpl. destruct (decide (o' = o)) as [->|Hne].
      * rewrite lookup_delete_eq. rewrite bool_decide_true by done. split; [by intros (? & ? & _)|by intros [_ ?]].
      * rewrite lookup_delete_ne by done. rewrite bool_decide_false by done. split; [done|by intros [? _]].
    + intros b. rewrite Hfe', elem_concat_lookup. split.
      * intros (i & c & Hi & Hin). exists o, i, c. rewrite at_col_cols, bool_decide_true by done. done.
      * intros (? & i & c & Hi & ->%bool_decide_eq_true & Hin). exists i, c. by rewrite at_col_cols in Hi.
    + intros b Hin%Hfe. transitivity (ref_of bm1 b); [done|]. rewrite Hr. lia.
    + intros b Hin. transitivity (ref_of bm1 b); [done|]. rewrite Hr, uses_none; [lia|]. intros Hin'. apply Hin, Hfe'. by rewrite <- Hperm.
Qed.

(** *** Replacing a shared block *)

Lemma unlink_loop bm o (i : nat) c cs : (0 < width bm)%nat -> beams_of bm o = rows_of (width bm) cs -> cs !! i = Some c -> length c = width bm ->
  for_each (unlink_beam o (Z.of_nat i)) bm (seqZ 0 (beam_width bm)) = Ok (foldl unlink bm c).
Proof.
  intros Hw Hb Hi Hlen. rewrite (beam_width_nat _ Hw).
  destruct (for_range (unlink_beam o (Z.of_nat i)) (fun k s => s = foldl unlink bm (take k c)) (width bm) bm) as (s & -> & ->).
  - done.
  - intros k s Hk ->. destruct (unlink_keeps (take k c) bm) as [Hs Ha]. unfold unlink_beam.
    rewrite (beams_of_same _ _ o Hs Ha), Hb, (py_get_nat _ _ _ (rows_of_lookup _ _ _ Hk)). cbn [mbind result_bind].
    destruct (lookup_lt_is_Some_2 c k) as [b Hbk]; [lia|].
    rewrite (py_get_nat _ i b). 2: { rewrite list_lookup_fmap, Hi. simpl. f_equal. by apply list_lookup_total_correct. }
    eexists. split; [done|]. by rewrite (take_S_r _ _ _ Hbk), foldl_app.
  - by rewrite take_ge by lia.
Qed.

Section relink.
Variables (bm : BlocksManager) (o : Z) (i : nat) (cs : list (list Z)).
Hypotheses (Hw : (0 < width bm)%nat) (Hrows : beams_of bm o = rows_of (width bm) cs) (Hi : (i < length cs)%nat).

Definition fresh_column : list Z := take (width bm) (free_blocks bm).
Definition put_block (bi : nat) (row : list Z) : list Z := <[i := fresh_column !!! bi]> row.
Definition relink_state (k : nat) (s : BlocksManager) : Prop := linked bm o put_block fresh_column (fun k => drop k (free_blocks bm)) k s.

Lemma relink_step k s :
  (k < width bm)%nat -> (k < length (free_blocks bm))%nat -> relink_state k s ->
  exists s', relink_beam o (Z.of_nat i) s (Z.of_nat k) = Ok s' /\ relink_state (S k) s'.
Proof.
  intros Hk Hlt Hl. destruct (lookup_lt_is_Some_2 (free_blocks bm) k Hlt) as [b Hb]. pose proof (drop_S _ _ _ Hb) as Hdrop.
  assert (Hfree : free_blocks s = b :: drop (S k) (free_blocks bm)) by (rewrite (lk_free _ _ _ _ _ _ _ Hl); done).
  assert (Hc : fresh_column !! k = Some b) by (unfold fresh_column; by rewrite lookup_take_lt).
  pose proof (rows_of_lookup _ cs _ Hk) as Hrow. rewrite <- Hrows in Hrow.
  destruct (linked_next _ _ _ _ _ _ _ b _ Hl Hc Hrow) as (Hget & Hset & Hnext). eexists. split; [|exact Hnext].
  unfold relink_beam. rewrite (has_free_cons _ _ _ Hfree). cbn [negb]. rewrite (pop_free_cons _ _ _ Hfree). cbn [mbind result_bind].
  rewrite Hget. cbn [mbind result_bind]. rewrite py_set_nat by (by rewrite length_fmap). cbn [mbind result_bind].
  unfold put_block in Hset |- *. rewrite (list_lookup_total_correct _ _ _ Hc) in Hset |- *. by rewrite Hset.
Qed.

Lemma relink_loop :
  if (width bm <=? length (free_blocks bm))%nat then
    exists bm', for_each (relink_beam o (Z.of_nat i)) bm (seqZ 0 (beam_width bm)) = Ok bm'
      /\ linked bm o put_block fresh_column (fun k => drop k (free_blocks bm)) (width bm) bm'
  else for_each (relink_beam o (Z.of_nat i)) bm (seqZ 0 (beam_width bm)) = Err RuntimeError.
Proof.
  rewrite (beam_width_nat _ Hw). assert (H0 : relink_state 0 bm) by by apply linked_start.
  destruct (Nat.leb_spec (width bm) (length (free_blocks bm))) as [Hle|Hgt].
  - apply (for_range _ relink_state); [done|]. intros k s Hk. apply relink_step; [done|lia].
  - apply (for_range_err _ relink_state _ (length (free_blocks bm))); [done|done|..].
    + intros k s Hk. apply relink_step; [lia|done].
    + intros s Hl. unfold relink_beam, has_free_block. rewrite (lk_free _ _ _ _ _ _ _ Hl), drop_all. done.
Qed.

End relink.

Definition set_col (cols : gmap Z (list (list Z))) (o : Z) (i : nat) (c : list Z) : gmap Z (list (list Z)) :=
  <[o := <[i := c]> (cols_of cols o)]> cols.

(** All columns but one. *)
Definition but (cols : gmap Z (list (list Z))) (o : Z) (i : nat) (o' : Z) (i' : nat) (c : list Z) : Prop :=
  at_col cols o' i' c /\ bool_decide (o' = o /\ i' = i) = false.

Lemma at_col_set cols o i c o' i' c' : (i < length (cols_of cols o))%nat ->
  at_col (set_col cols o i c) o' i' c' <-> but cols o i o' i' c' \/ (o' = o /\ i' = i /\ c' = c).
Proof.
  intros Hi. unfold but. rewrite !at_col_cols, bool_decide_eq_false. unfold set_col. rewrite cols_of_insert.
  destruct (decide (o' = o)) as [->|Hne]; [|split; [intros ?; left; split; [done|by intros [? _]]|by intros [[? _]|[? _]]]].
  destruct (decide (i' = i)) as [->|Hne].
  - rewrite list_lookup_insert_eq by done. split; [intros [= <-]; by right|]. intros [[_ []]|(_ & _ & ->)]; done.
  - rewrite list_lookup_insert_ne by done. split; [intros ?; left; split; [done|by intros [_ ?]]|]. by intros [[? _]|(_ & ? & _)].
Qed.

(** A column of fresh blocks at a place that was given up. *)
Lemma put_column bm cols o i bm' :
  (0 < width bm)%nat -> allocated_blocks bm = rows_of (width bm) <$> cols -> (i < length (cols_of cols o))%nat ->
  account (width bm) (num_blocks bm) (ref_of bm) (free_blocks bm) (but cols o i) -> (width bm <= length (free_blocks bm))%nat ->
  linked bm o (put_block bm i) (fresh_column bm) (fun k => drop k (free_blocks bm)) (width bm) bm' ->
  blocks_ok bm' (set_col cols o i (fresh_column bm)) /\ own_col (ref_of bm') (fresh_column bm).
Proof.
  intros Hw Hrows Hi Ha Hle Hl. pose proof (linked_done _ _ _ _ _ _ Hl Hw) as Halloc. destruct Hl as [Hf Hr _ _ _ Hc].
  assert (Hw' : width bm' = width bm) by (unfold width; destruct Hc as (_ & _ & _ & _ & ->); done).
  assert (Hlen : length (fresh_column bm) = width bm) by (unfold fresh_column; rewrite length_take; lia).
  rewrite take_ge in Hr by lia. pose proof (ac_nodup _ _ _ _ _ Ha) as Hnd.
  assert (Hnf : NoDup (fresh_column bm)) by by eapply sublist_NoDup, sublist_take.
  assert (Hin : forall b, b ∈ fresh_column bm -> b ∈ free_blocks bm).
  { intros b Hb. by apply elem_of_take in Hb as (j & Hj%list_elem_of_lookup_2 & _). }
  split; [split|].
  - by rewrite Hw'.
  - assert (Hb : beams_of bm o = rows_of (width bm) (cols_of cols o)).
    { unfold beams_of, cols_of. rewrite Hrows, lookup_fmap. destruct (cols !! o); [done|]. simpl. by rewrite rows_of_nil. }
    rewrite Halloc, Hb, Hrows, Hw'. unfold put_block, set_col. by rewrite upd_rows_insert, fmap_insert.
  - rewrite Hw'. destruct Hc as (_ & _ & -> & _).
    eapply (account_add (width bm) _ Hw (ref_of bm) _ (free_blocks bm) _ (but cols o i) _ o i (fresh_column bm) Ha Hlen); [..|done|].
    + intros c [_ Hno]. by rewrite bool_decide_true in Hno.
    + done.
    + by right.
    + rewrite Hf. by eapply sublist_NoDup, sublist_drop.
    + intros b. rewrite Hf. unfold fresh_column. rewrite <- (take_drop (width bm) (free_blocks bm)) in Hnd. apply NoDup_app in Hnd as (_ & Hd & _).
      rewrite <- (take_drop (width bm) (free_blocks bm)) at 2. rewrite elem_of_app.
      split; [intros Hb; split; [by right|intros Ht; by apply (Hd b)]|intros [[?|?] ?]; done].
    + intros o' i' c'. by apply at_col_set.
  - split; [done|]. intros b Hb. rewrite Hr, uses_once by done. rewrite (ac_zero _ _ _ _ _ Ha) by auto. lia.
Qed.

(** The shared block is given up. *)
Lemma drop_column bm cols o i b :
  blocks_ok bm cols -> cols_of cols o !! i = Some (replicate (width bm) b) -> ref_of bm b = Z.of_nat (width bm) ->
  let bm1 := foldl unlink bm (replicate (width bm) b) in
  same_config bm bm1 /\ allocated_blocks bm1 = allocated_blocks bm /\ free_blocks bm1 = free_blocks bm ++ [b]
  /\ account (width bm) (num_blocks bm) (ref_of bm1) (free_blocks bm1) (but cols o i).
Proof.
  intros [Hw Hrows Ha] Hi Hr bm1.
  destruct (unlink_all (replicate (width bm) b) bm) as (Hs1 & Hal1 & Hr1 & f & Hf1 & Hnf & Hfe).
  { intros x [-> _]%elem_of_replicate. rewrite uses_replicate. lia. }
  assert (Hfb : forall x, x ∈ f <-> x = b).
  { intros x. rewrite Hfe, elem_of_replicate. split; [by intros [[? _] _]|]. intros ->. rewrite uses_replicate. split; [split; [done|lia]|done]. }
  assert (f = [b]) as ->.
  { destruct f as [|x [|y f]]; [by destruct (not_elem_of_nil b); apply Hfb|f_equal; apply Hfb; left|]. exfalso. apply NoDup_cons in Hnf as [Hx _]. apply Hx.
    assert (x = b) as -> by (apply Hfb; left). assert (y = b) as -> by (apply Hfb; right; left). left. }
  split; [done|]. split; [done|]. split; [done|]. fold bm1 in Hf1, Hr1. rewrite Hf1.
  apply (account_remove (width bm) _ Hw (ref_of bm) _ _ [b] (at_col cols) (fun o' i' => bool_decide (o' = o /\ i' = i)) Ha Hnf).
  - intros x. rewrite Hfb. split.
    + intros ->. exists o, i, (replicate (width bm) b). rewrite at_col_cols, bool_decide_true by done. split; [done|]. split; [done|]. by apply in_replicate.
    + intros (o' & i' & c & Hc & [-> ->]%bool_decide_eq_true & Hx). apply at_col_cols in Hc. rewrite Hi in Hc. injection Hc as <-.
      by apply elem_of_replicate in Hx as [-> _].
  - intros x ->%list_elem_of_singleton. rewrite Hr1, uses_replicate. lia.
  - intros x Hx. rewrite Hr1, uses_none; [lia|]. intros [-> _]%elem_of_replicate. apply Hx. by apply list_elem_of_singleton.
Qed.

(** One block for every beam instead of a shared one. *)
Lemma replace_spec bm cols o i c : blocks_ok bm cols -> cols_of cols o !! i = Some c ->
  match replace_shared_block bm o (Z.of_nat i) with
  | Ok bm' => same_config bm bm' /\ (length (free_blocks bm) <= length (free_blocks bm') + width bm)%nat
      /\ exists c', blocks_ok bm' (set_col cols o i c') /\ own_col (ref_of bm') c'
  | Err e => e = RuntimeError /\ (S (length (free_blocks bm)) < width bm)%nat
  end.
Proof.
  intros Hok Hi. pose proof Hok as [Hw Hrows Ha]. pose proof (beams_of_cols bm cols o Hok) as Hb. assert (Hc := Hi). apply at_col_cols in Hc.
  pose proof (ac_len _ _ _ _ _ Ha _ _ _ Hc) as Hlen. destruct (lookup_lt_is_Some_2 c 0) as [b Hb0]; [lia|].
  unfold replace_shared_block. rewrite Hb, (py_get_nat _ 0 _ (rows_of_lookup _ _ _ Hw)). cbn [mbind result_bind].
  rewrite (py_get_nat _ i b). 2: { rewrite list_lookup_fmap, Hi. simpl. f_equal. by apply list_lookup_total_correct. }
  cbn [mbind result_bind]. unfold is_shared. assert (Hbc : b ∈ c) by by eapply list_elem_of_lookup_2.
  destruct (Z.ltb_spec 1 (ref_of bm b)) as [Hsh|Hns]; cbn [negb].
  2: { split; [done|]. split; [lia|]. exists c. split.
       - unfold set_col. rewrite list_insert_id by done. unfold cols_of in *. destruct (cols !! o) as [cs|] eqn:Hcs; [|done]. simpl. by rewrite insert_id.
       - destruct (ac_kind _ _ _ _ _ Ha _ _ _ Hc) as [(b' & -> & Hr)|]; [|done]. apply lookup_replicate in Hb0 as [<- _].
         assert (width bm = 1%nat) as -> by lia. split; [apply NoDup_singleton|]. intros x ->%list_elem_of_singleton. lia. }
  destruct (ac_kind _ _ _ _ _ Ha _ _ _ Hc) as [(b' & -> & Hr)|[_ Hone]]; [|specialize (Hone b Hbc); lia].
  apply lookup_replicate in Hb0 as [-> _]. rewrite (unlink_loop bm o i _ _ Hw Hb Hi Hlen). cbn [mbind result_bind].
  destruct (drop_column bm cols o i b' Hok Hi Hr) as (Hs1 & Hal1 & Hf1 & Ha1). set (bm1 := foldl unlink bm _) in *.
  assert (Hw1 : width bm1 = width bm) by (unfold width; destruct Hs1 as (_ & _ & _ & _ & ->); done).
  pose proof (beams_of_same _ _ o Hs1 Hal1) as Hbs. rewrite Hb, <- Hw1 in Hbs. rewrite <- Hw1 in Hw, Ha1, Hrows.
  pose proof (relink_loop bm1 o i (cols_of cols o) Hw Hbs (lookup_lt_Some _ _ _ Hi)) as Hloop.
  destruct (Nat.leb_spec (width bm1) (length (free_blocks bm1))) as [Hle|Hgt].
  - destruct Hloop as (bm' & -> & Hl). pose proof (lk_config _ _ _ _ _ _ _ Hl). split; [by eapply same_config_trans|].
    split; [rewrite (lk_free _ _ _ _ _ _ _ Hl), length_drop, Hf1, length_app; lia|]. exists (fresh_column bm1).
    eapply put_column; try done; [by rewrite Hal1|by eapply lookup_lt_Some|]. by destruct Hs1 as (_ & _ & -> & _).
  - rewrite Hloop. split; [done|]. rewrite Hf1, length_app in Hgt. cbn [length] in Hgt. lia.
Qed.

(** ** Where a token goes *)

Section position.
Variables (t sink max : Z).
Hypotheses (Ht : 0 < t) (Hsink : sink mod t = 0) (Hsink0 : 0 <= sink) (Hmax : sink < max).

(** The place of token [l] in a cache that wraps around behind the sink tokens. *)
Definition pos (l : Z) : Z := sink + (l - sink) mod (max - sink).

Definition blocks_for (l : Z) : Z := (Z.min l max + t - 1) / t.

Lemma pos_range l : sink <= pos l < max.
Proof using Hmax. unfold pos. pose proof (Z.mod_pos_bound (l - sink) (max - sink)). lia. Qed.

Lemma pos_small l : sink <= l < max -> pos l = l.
Proof using. intros Hl. unfold pos. rewrite Z.mod_small; lia. Qed.

Lemma pos_next l : pos (l + 1) = if pos l + 1 =? max then sink else pos l + 1.
Proof using Hmax.
  unfold pos. set (n := max - sink). set (x := l - sink). replace (l + 1 - sink) with (x + 1) by lia.
  assert (Hn : 0 < n) by (unfold n; lia). pose proof (Z.mod_pos_bound x n Hn). rewrite <- Zplus_mod_idemp_l.
  destruct (Z.eqb_spec (sink + x mod n + 1) max) as [He|He].
  - replace (x mod n + 1) with n by (unfold n in *; lia). rewrite Z.mod_same by lia. lia.
  - rewrite Z.mod_small by (unfold n in *; lia). lia.
Qed.

Lemma div_next x : (x + 1) mod t <> 0 -> (x + 1) / t = x / t.
Proof using Ht.
  intros Hx. pose proof (Z.div_mod x t ltac:(lia)). pose proof (Z.div_mod (x + 1) t ltac:(lia)).
  pose proof (Z.mod_pos_bound x t Ht). pose proof (Z.mod_pos_bound (x + 1) t Ht). nia.
Qed.

Lemma ceil_exact x : x mod t = 0 -> (x + t - 1) / t = x / t.
Proof using Ht.
  intros Hx. pose proof (Z.div_mod x t ltac:(lia)). symmetry. apply (Z.div_unique _ _ _ (t - 1)); lia.
Qed.

Lemma ceil_rest x : x mod t <> 0 -> (x + t - 1) / t = x / t + 1.
Proof using Ht.
  intros Hx. pose proof (Z.div_mod x t ltac:(lia)). pose proof (Z.mod_pos_bound x t Ht).
  symmetry. apply (Z.div_unique _ _ _ (x mod t - 1)); lia.
Qed.

(** At the start of a block a new one is due; inside a block none is. *)
Lemma blocks_for_next l : sink <= l ->
  blocks_for (l + 1) = if (l <? max) && (pos l mod t =? 0) then blocks_for l + 1 else blocks_for l.
Proof using Ht.
  intros Hl. unfold blocks_for. destruct (Z.ltb_spec l max) as [Hlt|Hge]; cbn [andb]; [|f_equal; f_equal; lia].
  rewrite pos_small, (Z.min_l l), (Z.min_l (l + 1)) by lia. replace (l + 1 + t - 1) with (l + 1 * t) by lia. rewrite Z.div_add by lia.
  destruct (Z.eqb_spec (l mod t) 0); [rewrite ceil_exact by done|rewrite ceil_rest by done]; lia.
Qed.

Lemma blocks_for_pos l : sink <= l -> pos l mod t <> 0 \/ max <= l -> pos l / t < blocks_for l.
Proof using Ht Hmax Hsink0.
  intros Hl Hp. unfold blocks_for. assert (Hx : pos l < Z.min l max \/ (pos l = l /\ l < max)).
  { destruct (Z.le_gt_cases max l); [left; pose proof (pos_range l); lia|right; split; [apply pos_small|]; lia]. }
  destruct Hx as [Hx|[Hx Hlt]].
  - apply Z.div_lt_upper_bound; [lia|]. pose proof (Z.div_mod (Z.min l max + t - 1) t ltac:(lia)).
    pose proof (Z.mod_pos_bound (Z.min l max + t - 1) t Ht). lia.
  - rewrite Z.min_l, Hx, ceil_rest by (rewrite Hx in Hp; lia). lia.
Qed.

(** The columns of a sequence with [l] tokens: as many as it needs, and the one where
    the next token goes is not shared. *)
Definition seq_ok (l : Z) (cs : list (list Z)) : Prop :=
  sink <= l /\ len cs = blocks_for l /\ (pos l mod t <> 0 -> exists c, cs !! Z.to_nat (pos l / t) = Some c /\ NoDup c).

(** The beams have blocks of their own for the token at [l]. *)
Definition written (l : Z) (cs : list (list Z)) : Prop := exists c, cs !! Z.to_nat (pos l / t) = Some c /\ NoDup c.

Lemma seq_ok_written l cs : sink <= l -> len cs = blocks_for (l + 1) -> written l cs -> seq_ok (l + 1) cs.
Proof using Ht Hmax Hsink.
  intros Hl Hlen Hw. split; [lia|]. split; [done|]. rewrite pos_next. destruct (_ =? _); [by intros|]. intros Hp. by rewrite div_next.
Qed.

Lemma seq_ok_new l cs c : seq_ok l cs -> l < max -> pos l mod t = 0 -> NoDup c -> written l (cs ++ [c]) /\ seq_ok (l + 1) (cs ++ [c]).
Proof using Ht Hmax Hsink.
  intros (Hl & Hlen & _) Hlt Hp Hc. assert (Hw : written l (cs ++ [c])).
  { exists c. split; [|done]. rewrite pos_small in Hp |- * by lia. apply list_lookup_middle.
    unfold blocks_for in Hlen. rewrite Z.min_l, ceil_exact in Hlen by (done || lia). lia. }
  split; [done|]. apply seq_ok_written; [done| |done]. rewrite length_app, blocks_for_next by done.
  assert ((l <? max) = true) as -> by lia. assert ((pos l mod t =? 0) = true) as -> by lia. cbn [andb length]. lia.
Qed.

Lemma seq_ok_keep l cs cs' : seq_ok l cs -> length cs' = length cs -> written l cs' -> (l < max -> pos l mod t <> 0) -> seq_ok (l + 1) cs'.
Proof using Ht Hmax Hsink.
  intros (Hl & Hlen & _) Hlen' Hw Hb. apply seq_ok_written; [done| |done]. rewrite blocks_for_next by done.
  destruct (Z.ltb_spec l max); cbn [andb]; [|lia]. destruct (Z.eqb_spec (pos l mod t) 0); [by destruct Hb|lia].
Qed.

Lemma seq_ok_place l cs : seq_ok l cs -> max <= l -> (Z.to_nat (pos l / t) < length cs)%nat.
Proof using Ht Hmax Hsink0.
  intros (Hl & Hlen & _) Hge. pose proof (blocks_for_pos l Hl ltac:(by right)) as Hb. rewrite <- Hlen in Hb.
  pose proof (Z.div_pos (pos l) t). pose proof (pos_range l). lia.
Qed.

End position.

(** ** Generation steps *)

Record config_ok (self : KVCacheManager) : Prop := {
  cf_tpb : 0 < tokens_per_block self;
  cf_sink : sink_block_token_num self mod tokens_per_block self = 0;
  cf_sink0 : 0 <= sink_block_token_num self;
  cf_max : sink_block_token_num self < max_token_num self;
  cf_bubble : sink_block_token_num self = sink_token_len self + bubble_len self;
}.

Abbreviation seq_okay self := (seq_ok (tokens_per_block self) (sink_block_token_num self) (max_token_num self)).
Abbreviation written_at self := (written (tokens_per_block self) (sink_block_token_num self) (max_token_num self)).

Record manager_ok (self : KVCacheManager) (seqs : Sequences) (cols : gmap Z (list (list Z))) : Prop := {
  mo_config : config_ok self;
  mo_blocks : blocks_ok (blocks_manager self) cols;
  mo_nodup : NoDup (sequences self);
  mo_lens : length (lens self) = length (sequences self);
  mo_batch : forall (i : nat) s, sequences self !! i = Some s -> get_batch_idx seqs s = Z.of_nat i;
  mo_dom : forall o cs, cols !! o = Some cs -> o ∈ sequences self;
  mo_seqs : forall (i : nat) s l, sequences self !! i = Some s -> lens self !! i = Some l -> seq_okay self l (cols_of cols s);
}.

Lemma cols_of_other cols o cs o' : o' <> o -> cols_of (<[o := cs]> cols) o' = cols_of cols o'.
Proof. intros Hne. by rewrite cols_of_insert, decide_False. Qed.

Lemma NoDup_width1 bm cols o i c : blocks_ok bm cols -> cols_of cols o !! i = Some c -> (width bm <= 1)%nat -> NoDup c.
Proof.
  intros [Hw _ Ha] Hi Hle. apply at_col_cols in Hi. pose proof (ac_len _ _ _ _ _ Ha _ _ _ Hi) as Hlen.
  destruct c as [|x [|y c]]; [constructor|apply NoDup_singleton|]. simpl in Hlen. lia.
Qed.

(** What a step does to the blocks of an unfinished sequence. *)
Definition advance (self : KVCacheManager) (s l : Z) : result BlocksManager :=
  let p := pos (sink_block_token_num self) (max_token_num self) l in
  if p mod tokens_per_block self =? 0 then
    if l <? max_token_num self then allocate (blocks_manager self) s false
    else if 1 <? beam_width (blocks_manager self) then replace_shared_block (blocks_manager self) s (p / tokens_per_block self)
    else Ok (blocks_manager self)
  else Ok (blocks_manager self).

Lemma step_sequence_eq self seqs finished (i : nat) s l (fin : bool) :
  config_ok self -> get_batch_idx seqs s = Z.of_nat i -> lens self !! i = Some l -> finished !! i = Some fin ->
  step_sequence seqs finished self s =
    (bm ← (if fin then Ok (blocks_manager self) else advance self s l); Ok (with_lens (with_blocks self bm) (<[i := l + 1]> (lens self)))).
Proof.
  intros [Ht Hs Hs0 Hm _] Hbi Hl Hfin. unfold step_sequence, advance. cbv zeta. rewrite Hbi, (py_get_nat _ _ _ Hl), (py_get_nat _ _ _ Hfin). cbn [mbind result_bind].
  unfold pymod, pydiv. assert ((max_token_num self - sink_block_token_num self =? 0) = false) as -> by lia.
  assert ((tokens_per_block self =? 0) = false) as -> by lia. cbn [mbind result_bind]. fold (pos (sink_block_token_num self) (max_token_num self) l).
  set (p := pos _ _ l). rewrite (py_set_nat _ i) by (by eapply lookup_lt_Some).
  assert (Hor : (p mod tokens_per_block self =? 0) || ((p - sink_block_token_num self) mod (max_token_num self - sink_block_token_num self) =? 0)
                = (p mod tokens_per_block self =? 0)).
  { destruct (Z.eqb_spec (p mod tokens_per_block self) 0) as [|Hp]; [done|]. cbn [orb]. apply Z.eqb_neq. intros He. apply Hp.
    pose proof (pos_range (sink_block_token_num self) (max_token_num self) Hm l) as Hr. fold p in Hr. rewrite Z.mod_small in He by lia.
    by replace p with (sink_block_token_num self) by lia. }
  rewrite Hor. by destruct fin.
Qed.

Lemma advance_spec self cols s l :
  config_ok self -> blocks_ok (blocks_manager self) cols -> seq_okay self l (cols_of cols s) ->
  match advance self s l with
  | Ok bm' => same_config (blocks_manager self) bm'
      /\ (length (free_blocks (blocks_manager self)) <= length (free_blocks bm') + width (blocks_manager self))%nat
      /\ exists cs', blocks_ok bm' (<[s := cs']> cols) /\ written_at self l cs' /\ seq_okay self (l + 1) cs'
  | Err e => e = RuntimeError /\ (length (free_blocks (blocks_manager self)) < width (blocks_manager self))%nat
  end.
Proof.
  intros [Ht Hs Hs0 Hm _] Hok Hseq. set (t := tokens_per_block self) in *. set (sink := sink_block_token_num self) in *. set (mx := max_token_num self) in *.
  set (bm := blocks_manager self) in *. unfold advance. fold t sink mx bm. cbv zeta.
  assert (Hsame : cols !! s <> None -> blocks_ok bm (<[s := cols_of cols s]> cols)).
  { unfold cols_of. destruct (cols !! s) eqn:Hc; [|done]. simpl. by rewrite insert_id. }
  assert (Hin : forall i c, cols_of cols s !! i = Some c -> cols !! s <> None) by (unfold cols_of; by destruct (cols !! s)).
  destruct (Z.eqb_spec (pos sink mx l mod t) 0) as [Hp|Hp].
  2: { split; [done|]. split; [lia|]. exists (cols_of cols s). destruct Hseq as (Hl & Hlen & Hc). destruct (Hc Hp) as (c & Hc1 & Hc2).
       split; [eapply Hsame, Hin, Hc1|]. assert (Hw : written t sink mx l (cols_of cols s)) by by exists c. split; [done|]. by eapply seq_ok_keep. }
  destruct (Z.ltb_spec l mx) as [Hlt|Hge].
  - pose proof (allocate_column_spec bm cols s false Hok) as Ha. destruct (allocate bm s false) as [bm'|e]; [|done].
    destruct Ha as (Hn & Hc & Hok' & Hf). split; [done|]. split; [rewrite Hf; unfold free_after; rewrite length_drop; lia|].
    exists (cols_of cols s ++ [new_column bm false]). split; [done|]. apply seq_ok_new; try done. unfold new_column.
    eapply sublist_NoDup, sublist_take. apply Hok.
  - pose proof (seq_ok_place t sink mx Ht Hs0 Hm l _ Hseq Hge) as Hpl. destruct (lookup_lt_is_Some_2 _ _ Hpl) as [c Hc].
    assert (Hz : pos sink mx l / t = Z.of_nat (Z.to_nat (pos sink mx l / t))).
    { pose proof (pos_range sink mx Hm l). pose proof (Z.div_pos (pos sink mx l) t). lia. }
    destruct (Z.ltb_spec 1 (beam_width bm)) as [Hbw|Hbw].
    + rewrite Hz. pose proof (replace_spec bm cols s _ c Hok Hc) as Ha. destruct (replace_shared_block _ _ _) as [bm'|e]; [|split; [apply Ha|lia]].
      destruct Ha as (Hcf & Hfr & c' & Hok' & Hown & _). split; [done|]. split; [done|]. eexists. split; [exact Hok'|].
      assert (Hw : written t sink mx l (<[Z.to_nat (pos sink mx l / t) := c']> (cols_of cols s))) by (exists c'; by rewrite list_lookup_insert_eq).
      split; [done|]. eapply seq_ok_keep; try done; [by rewrite length_insert|lia].
    + split; [done|]. split; [lia|]. exists (cols_of cols s). split; [eapply Hsame, Hin, Hc|].
      assert (Hw : written t sink mx l (cols_of cols s)) by (exists c; split; [done|]; eapply NoDup_width1; [done..|unfold width; lia]).
      split; [done|]. eapply seq_ok_keep; try done. lia.
Qed.

Lemma unfinished_cons {A} (x : A) l f fin : unfinished (x :: l) (f :: fin) = if f then unfinished l fin else x :: unfinished l fin.
Proof. unfold unfinished. cbn [zip zip_with]. rewrite filter_cons. by destruct f. Qed.

Lemma unfinished_nil {A} (fin : list bool) : unfinished ([] : list A) fin = [].
Proof. done. Qed.

Lemma unfinished_zip {A B} (l1 : list A) (l2 : list B) fin : length l1 = length l2 ->
  unfinished (zip l1 l2) fin = zip (unfinished l1 fin) (unfinished l2 fin).
Proof.
  revert l2 fin. induction l1 as [|x l1 IH]; intros [|y l2] fin Hl; try done. destruct fin as [|f fin]; [done|].
  cbn [zip zip_with]. rewrite !unfinished_cons. change (zip_with pair l1 l2) with (zip l1 l2). rewrite IH by (simpl in Hl; lia). by destruct f.
Qed.

Lemma unfinished_lookup {A} (l : list A) fin j x : unfinished l fin !! j = Some x -> exists i, l !! i = Some x /\ fin !! i = Some false.
Proof.
  unfold unfinished. rewrite list_lookup_fmap. intros ([y f] & Hj & ->)%fmap_Some. apply list_elem_of_lookup_2, list_elem_of_filter in Hj as [Hf Hj].
  simpl in Hf. subst f. apply list_elem_of_lookup_1 in Hj as [i Hi]. apply lookup_zip_with_Some in Hi as (a & b & [= -> ->] & ? & ?). eauto.
Qed.

Lemma unfinished_sublist {A} (l : list A) fin : unfinished l fin `sublist_of` l.
Proof.
  revert fin. induction l as [|x l IH]; intros [|f fin]; try apply sublist_nil_l. rewrite unfinished_cons.
  destruct f; [by apply sublist_cons, IH|by apply sublist_skip, IH].
Qed.

Lemma unfinished_length {A B} (l1 : list A) (l2 : list B) fin : length l1 = length l2 -> length (unfinished l1 fin) = length (unfinished l2 fin).
Proof.
  revert l2 fin. induction l1 as [|x l1 IH]; intros [|y l2] [|f fin] Hl; try done. rewrite !unfinished_cons. simpl in Hl.
  destruct f; simpl; by rewrite (IH l2) by lia.
Qed.

Lemma remap_other l : forall k (seqs : Sequences) s, (s ∉ l) -> foldl (fun seqs '(i, seq) => <[seq := i]> seqs) seqs (zip (seqZ k (len l)) l) !! s = (seqs : Sequences) !! s.
Proof.
  induction l as [|x l IH]; intros k seqs s Hs; [by destruct (seqZ k _)|]. rewrite seqZ_cons by (cbn [length]; lia). cbn [zip zip_with foldl].
  replace (Z.pred (len (x :: l))) with (len l) by (cbn [length]; lia). change (zip_with pair (seqZ (Z.succ k) (len l)) l) with (zip (seqZ (Z.succ k) (len l)) l).
  rewrite IH by set_solver. rewrite lookup_insert_ne; [done|set_solver].
Qed.

Lemma remap_lookup l : NoDup l -> forall k (seqs : Sequences) (i : nat) s, l !! i = Some s ->
  foldl (fun seqs '(i, seq) => <[seq := i]> seqs) seqs (zip (seqZ k (len l)) l) !! s = Some (k + Z.of_nat i).
Proof.
  induction 1 as [|x l Hx _ IH]; intros k seqs i s Hi; [done|]. rewrite seqZ_cons by (cbn [length]; lia). cbn [zip zip_with foldl].
  replace (Z.pred (len (x :: l))) with (len l) by (cbn [length]; lia). change (zip_with pair (seqZ (Z.succ k) (len l)) l) with (zip (seqZ (Z.succ k) (len l)) l).
  destruct i as [|i]; simpl in Hi.
  - injection Hi as <-. rewrite remap_other by done. rewrite lookup_insert_eq. f_equal. lia.
  - rewrite (IH _ _ i s Hi). f_equal. lia.
Qed.

Section step.
Variables (self0 : KVCacheManager) (seqs : Sequences) (finished : list bool) (cols0 : gmap Z (list (list Z))).
Hypotheses (Hok : manager_ok self0 seqs cols0) (Hfin : length finished = length (sequences self0)).

Abbreviation bm0 := (blocks_manager self0).

(** After the tokens of the sequences in [pre]. *)
Record stepped (pre : list Z) (s : KVCacheManager) : Prop := {
  st_self : s = with_lens (with_blocks self0 (blocks_manager s)) (upd_rows (fun _ l => l + 1) (length pre) (lens self0));
  st_config : same_config bm0 (blocks_manager s);
  st_free : (length (free_blocks bm0) <= length (free_blocks (blocks_manager s)) + length pre * width bm0)%nat;
  st_cols : exists cols, blocks_ok (blocks_manager s) cols
    /\ (forall o, o ∉ pre -> cols !! o = cols0 !! o)
    /\ (forall (i : nat) q l, (i < length pre)%nat -> sequences self0 !! i = Some q -> lens self0 !! i = Some l -> finished !! i = Some false ->
          written_at self0 l (cols_of cols q) /\ seq_okay self0 (l + 1) (cols_of cols q));
}.

Lemma tokens_added :
  match for_each (step_sequence seqs finished) self0 (sequences self0) with
  | Ok s => stepped (sequences self0) s
  | Err e => e = RuntimeError /\ (length (free_blocks bm0) < length (sequences self0) * width bm0)%nat
  end.
Proof.
  destruct Hok as [Hcf Hbl Hnd Hlens Hbatch _ Hseqs]. apply for_each_cases.
  - split; [rewrite upd_rows_0; by destruct self0|done|lia|]. exists cols0. split_and!; try done. simpl. lia.
  - intros pre q post s Hl [Hs Hc Hf (cols & Hb & Hother & Hdone)].
    assert (Hq : sequences self0 !! length pre = Some q) by (rewrite Hl; by apply list_lookup_middle).
    assert (Hlt : (length pre < length (sequences self0))%nat) by by eapply lookup_lt_Some.
    destruct (lookup_lt_is_Some_2 (lens self0) (length pre)) as [l Hll]; [lia|].
    destruct (lookup_lt_is_Some_2 finished (length pre)) as [fin Hfl]; [lia|].
    assert (Hqn : q ∉ pre). { rewrite Hl in Hnd. apply NoDup_app in Hnd as (_ & Hd & _). intros Hin. apply (Hd q Hin). left. }
    destruct (upd_rows_next (fun _ l => l + 1) (length pre) _ _ Hll) as [Hu1 Hu2].
    assert (Hcf' : config_ok s) by (rewrite Hs; destruct Hcf; by split). assert (Hlens' : lens s !! length pre = Some l) by (rewrite Hs; done).
    rewrite (step_sequence_eq s seqs finished (length pre) q l fin Hcf' (Hbatch _ _ Hq) Hlens' Hfl).
    assert (Hcols : cols_of cols q = cols_of cols0 q) by (unfold cols_of; by rewrite Hother).
    assert (Hw : width (blocks_manager s) = width bm0) by (unfold width; destruct Hc as (_ & _ & _ & _ & ->); done).
    assert (Hnext : forall bm', same_config (blocks_manager s) bm' ->
      (length (free_blocks (blocks_manager s)) <= length (free_blocks bm') + width bm0)%nat ->
      (exists cols', blocks_ok bm' cols' /\ (forall o, o <> q -> cols' !! o = cols !! o)
         /\ (fin = false -> written_at self0 l (cols_of cols' q) /\ seq_okay self0 (l + 1) (cols_of cols' q))) ->
      stepped (pre ++ [q]) (with_lens (with_blocks s bm') (<[length pre := l + 1]> (lens s)))).
    { intros bm' Hc' Hf' (cols' & Hb' & Hother' & Hnew). split; simpl.
      - rewrite length_app, Nat.add_comm. cbn [length Nat.add]. rewrite <- Hu2, Hs. done.
      - by eapply same_config_trans.
      - rewrite length_app. cbn [length]. lia.
      - exists cols'. split; [done|]. split.
        + intros o Ho. rewrite Hother' by set_solver. apply Hother. set_solver.
        + intros i q' l' Hi Hq' Hl' Hf2. rewrite length_app in Hi. cbn [length] in Hi. destruct (decide (i = length pre)) as [->|Hne].
          * rewrite Hq in Hq'. rewrite Hll in Hl'. rewrite Hfl in Hf2. simplify_eq. by apply Hnew.
          * assert (Hd : q' <> q) by (intros ->; apply Hne; by apply (NoDup_lookup _ _ _ q Hnd)).
            unfold cols_of. rewrite Hother' by done. fold (cols_of cols q'). apply (Hdone i); try done. lia. }
    destruct fin; cbn [mbind result_bind].
    + apply Hnext; [done|lia|]. exists cols. done.
    + assert (Hsq : seq_okay s l (cols_of cols q)) by (rewrite Hs, Hcols; simpl; by eapply Hseqs).
      pose proof (advance_spec s cols q l Hcf' Hb Hsq) as Ha. destruct (advance s q l) as [bm'|e]; cbn [mbind result_bind].
      * destruct Ha as (Hc' & Hf' & cs' & Hb' & Hwr & Hsq'). rewrite Hw in Hf'. apply Hnext; [done|done|]. exists (<[q := cs']> cols). split; [done|].
        split; [intros o Ho; by rewrite lookup_insert_ne|]. intros _. rewrite cols_of_insert, decide_True by done. rewrite Hs in Hwr, Hsq'. done.
      * destruct Ha as [-> Hlt']. split; [done|]. rewrite Hw in Hlt'. nia.
Qed.

(** The finished sequences are gone. *)
Lemma finished_released self1 cols1 :
  sequences self1 = sequences self0 -> same_config bm0 (blocks_manager self1) -> blocks_ok (blocks_manager self1) cols1 ->
  exists s cols, for_each free_finished self1 (zip (seqZ 0 (len finished)) finished) = Ok s
    /\ s = with_blocks self1 (blocks_manager s) /\ same_config bm0 (blocks_manager s) /\ blocks_ok (blocks_manager s) cols
    /\ (forall o, cols !! o = None \/ cols !! o = cols1 !! o)
    /\ (forall i q, sequences self0 !! i = Some q -> finished !! i = Some false -> cols !! q = cols1 !! q)
    /\ (forall i q, sequences self0 !! i = Some q -> finished !! i = Some true -> cols !! q = None).
Proof.
  intros Hseq Hc1 Hb1. pose proof (mo_nodup _ _ _ Hok) as Hnd.
  destruct (for_each_prefix_total free_finished (fun pre s => s = with_blocks self1 (blocks_manager s) /\ same_config bm0 (blocks_manager s)
    /\ exists cols, blocks_ok (blocks_manager s) cols
      /\ (forall o, cols !! o = None \/ cols !! o = cols1 !! o)
      /\ (forall i q, sequences self0 !! i = Some q -> finished !! i = Some false -> cols !! q = cols1 !! q)
      /\ (forall i q, (i < length pre)%nat -> sequences self0 !! i = Some q -> finished !! i = Some true -> cols !! q = None))
    (zip (seqZ 0 (len finished)) finished) self1) as (s & Hrun & Hs & Hc & cols & Hb & Hsub & Hkeep & Hgone).
  - split; [by destruct self1|]. split; [done|]. exists cols1. split; [done|]. split; [auto|]. split; [done|]. simpl. lia.
  - intros pre [fi fin] post s Hl (Hs & Hc & cols & Hb & Hsub & Hkeep & Hgone).
    assert (Hlk : zip (seqZ 0 (len finished)) finished !! length pre = Some (fi, fin)) by (rewrite Hl; by apply list_lookup_middle).
    apply lookup_zip_with_Some in Hlk as (? & ? & [= <- <-] & Hk & Hf). apply lookup_seqZ in Hk as [-> _]. rewrite Z.add_0_l. unfold free_finished.
    rewrite length_app. cbn [length]. destruct fin.
    + destruct (lookup_lt_is_Some_2 (sequences self0) (length pre)) as [q Hq]; [apply lookup_lt_Some in Hf; lia|].
      rewrite Hs. cbn [with_blocks sequences]. rewrite Hseq, (py_get_nat _ _ _ Hq). cbn [mbind result_bind]. cbn [with_blocks blocks_manager].
      destruct (free_spec (blocks_manager s) cols q Hb) as (bm' & f & -> & Hc' & Hb' & _). cbn [mbind result_bind]. eexists. split; [done|].
      split; [done|]. split; [by eapply same_config_trans|]. exists (delete q cols). split; [done|]. split; [|split].
      * intros o. destruct (decide (o = q)) as [->|Hne]; [left; apply lookup_delete_eq|]. rewrite lookup_delete_ne by done. apply Hsub.
      * intros i q' Hq' Hf'. rewrite lookup_delete_ne; [by eapply Hkeep|]. intros <-.
        assert (i = length pre) as -> by by apply (NoDup_lookup _ _ _ q Hnd). congruence.
      * intros i q' Hi Hq' Hf'. destruct (decide (q' = q)) as [->|Hne]; [apply lookup_delete_eq|]. rewrite lookup_delete_ne by done.
        eapply (Hgone i); try done. destruct (decide (i = length pre)) as [->|]; [|lia]. congruence.
    + eexists. split; [done|]. split; [done|]. split; [done|]. exists cols. split; [done|]. split; [done|]. split; [done|].
      intros i q Hi Hq Hf'. destruct (decide (i = length pre)) as [->|]; [congruence|]. apply (Hgone i); [lia|done|done].
  - exists s, cols. split_and!; try done. intros i q Hq Hf. apply (Hgone i q); [|done|done].
    rewrite length_zip_with, length_seqZ. apply lookup_lt_Some in Hf. lia.
Qed.

(** One step: the sequences that go on have one token more, with room for it that
    no other beam or sequence uses; the others are gone. *)
Definition step_done (s : KVCacheManager) (seqs' : Sequences) (cols : gmap Z (list (list Z))) : Prop :=
  manager_ok s seqs' cols
  /\ sequences s = unfinished (sequences self0) finished /\ lens s = unfinished ((fun l => l + 1) <$> lens self0) finished
  /\ forall (i : nat) q l, sequences s !! i = Some q -> lens s !! i = Some l -> written_at s (l - 1) (cols_of cols q).

Lemma manager_step_spec :
  match step self0 seqs finished with
  | Ok (s, seqs') => exists cols, step_done s seqs' cols
  | Err e => e = RuntimeError /\ (length (free_blocks bm0) < length (sequences self0) * width bm0)%nat
  end.
Proof.
  unfold step. pose proof tokens_added as H1. destruct (for_each (step_sequence _ _) _ _) as [s1|e]; cbn [mbind result_bind]; [|done].
  destruct H1 as [Hs1 Hc1 _ (cols1 & Hb1 & Hother & Hdone)].
  assert (Hseq1 : sequences s1 = sequences self0) by (rewrite Hs1; done).
  assert (Hlens1 : lens s1 = (fun l => l + 1) <$> lens self0).
  { rewrite Hs1. simpl. apply list_eq. intros i. unfold upd_rows. rewrite list_lookup_imap, list_lookup_fmap.
    destruct (lens self0 !! i) eqn:Hi; [|done]. simpl. apply lookup_lt_Some in Hi. rewrite (mo_lens _ _ _ Hok) in Hi. apply Nat.ltb_lt in Hi. by rewrite Hi. }
  destruct (finished_released s1 cols1 Hseq1 Hc1 Hb1) as (s2 & cols & -> & Hs2 & Hc2 & Hb2 & Hsub & Hkeep & Hgone). cbn [mbind result_bind].
  exists cols. assert (Hlens2 : lens s2 = lens s1) by (rewrite Hs2; done). assert (Hseq2 : sequences s2 = sequences self0) by (rewrite Hs2; done).
  assert (Hcfg : config_ok s2) by (rewrite Hs2, Hs1; destruct (mo_config _ _ _ Hok); by split).
  assert (Hlive : forall (i : nat) q l, unfinished (sequences self0) finished !! i = Some q -> unfinished ((fun l => l + 1) <$> lens self0) finished !! i = Some l ->
    written_at self0 (l - 1) (cols_of cols q) /\ seq_okay self0 l (cols_of cols q)).
  { intros i q l Hq Hl. assert (Hz : unfinished (zip (sequences self0) ((fun l => l + 1) <$> lens self0)) finished !! i = Some (q, l)).
    { rewrite unfinished_zip by (rewrite length_fmap; symmetry; exact (mo_lens _ _ _ Hok)). by rewrite lookup_zip_with, Hq, Hl. }
    apply unfinished_lookup in Hz as (j & Hz & Hf). apply lookup_zip_with_Some in Hz as (? & ? & [= <- <-] & Hqj & Hlj).
    rewrite list_lookup_fmap in Hlj. apply fmap_Some in Hlj as (l0 & Hl0 & ->). replace (l0 + 1 - 1) with l0 by lia.
    unfold cols_of. rewrite (Hkeep j q Hqj Hf). fold (cols_of cols1 q). apply (Hdone j); try done. by eapply lookup_lt_Some. }
  split; [|split; [|split]]; simpl; rewrite ?Hlens2, ?Hlens1, ?Hseq2; try done.
  - split; simpl; rewrite ?Hlens2, ?Hlens1, ?Hseq2; try done.
    + destruct Hcfg. by split.
    + eapply sublist_NoDup; [exact (mo_nodup _ _ _ Hok)|apply unfinished_sublist].
    + apply unfinished_length. rewrite length_fmap. exact (mo_lens _ _ _ Hok).
    + intros i q Hq. unfold get_batch_idx, remap. rewrite (remap_lookup _ ltac:(eapply sublist_NoDup; [exact (mo_nodup _ _ _ Hok)|apply unfinished_sublist]) 0 _ i q Hq). simpl. lia.
    + intros o cs Ho. destruct (Hsub o) as [Hn|He]; [congruence|].
      assert (Hin : o ∈ sequences self0).
      { destruct (decide (o ∈ sequences self0)); [done|]. eapply (mo_dom _ _ _ Hok). rewrite <- (Hother o), <- He by done. exact Ho. }
      apply list_elem_of_lookup_1 in Hin as [i Hi]. destruct (lookup_lt_is_Some_2 finished i) as [f Hf]; [rewrite Hfin; by eapply lookup_lt_Some|].
      destruct f; [rewrite (Hgone i o Hi Hf) in Ho; done|]. apply list_elem_of_fmap. exists (o, false). split; [done|]. apply list_elem_of_filter.
      split; [done|]. apply (list_elem_of_lookup_2 _ i). by rewrite lookup_zip_with, Hi, Hf.
    + intros i q l Hq Hl. rewrite Hs2, Hs1. simpl. by eapply Hlive.
  - intros i q l Hq Hl. rewrite Hs2, Hs1. simpl. exact (proj1 (Hlive i q l Hq Hl)).
Qed.

End step.

(** ** New sequences *)

Section context.
Variables (bm0 : BlocksManager) (cols0 : gmap Z (list (list Z))) (q unshared : Z).
Hypotheses (Hok : blocks_ok bm0 cols0) (Hq : cols_of cols0 q = []).

Definition context_column (i : Z) : bool := negb (i =? unshared).

(** After the blocks in [pre]. *)
Definition context_state (pre : list Z) (bm : BlocksManager) : Prop :=
  same_config bm0 bm
  /\ (length (free_blocks bm0) <= length (free_blocks bm) + length pre + (if bool_decide (0 <= unshared < len pre)%Z then width bm0 - 1 else 0))%nat
  /\ exists cols, blocks_ok bm cols /\ (forall o, o <> q -> cols !! o = cols0 !! o)
    /\ length (cols_of cols q) = length pre /\ forall j c, cols_of cols q !! j = Some c -> Z.of_nat j = unshared -> NoDup c.

Lemma context_blocks_spec (n : nat) :
  match for_each (fun bm i => allocate bm q (context_column i)) bm0 (seqZ 0 (Z.of_nat n)) with
  | Ok bm => same_config bm0 bm /\ exists cols, blocks_ok bm cols /\ (forall o, o <> q -> cols !! o = cols0 !! o)
      /\ length (cols_of cols q) = n /\ forall j c, cols_of cols q !! j = Some c -> Z.of_nat j = unshared -> NoDup c
  | Err e => e = RuntimeError /\ (length (free_blocks bm0) < n + width bm0)%nat
  end.
Proof.
  enough (Hloop : match for_each (fun bm i => allocate bm q (context_column i)) bm0 (seqZ 0 (Z.of_nat n)) with
    | Ok bm => context_state (seqZ 0 (Z.of_nat n)) bm | Err e => e = RuntimeError /\ (length (free_blocks bm0) < n + width bm0)%nat end).
  { destruct (for_each _ bm0 _) as [bm|e]; [|done]. destruct Hloop as (Hc & _ & cols & Hb & Ho & Hlen & Hn).
    split; [done|]. exists cols. split; [done|]. split; [done|]. split; [|done]. by rewrite Hlen, length_seqZ, Nat2Z.id. }
  apply for_each_cases.
  - split; [done|]. split; [cbn [length]; lia|]. exists cols0. rewrite Hq. done.
  - intros pre x post bm Hl (Hc & Hf & cols & Hb & Ho & Hlen & Hn). assert (Hlk : seqZ 0 (Z.of_nat n) !! length pre = Some x) by (rewrite Hl; by apply list_lookup_middle).
    apply lookup_seqZ in Hlk as [-> Hlt]. rewrite Z.add_0_l. pose proof (allocate_column_spec bm cols q (context_column (Z.of_nat (length pre))) Hb) as Ha.
    assert (Hw : width bm = width bm0) by (unfold width; destruct Hc as (_ & _ & _ & _ & ->); done).
    destruct (allocate bm q _) as [bm'|e].
    + destruct Ha as (Hneed & Hc' & Hb' & Hf'). split; [by eapply same_config_trans|]. split.
      * pose proof (bo_width _ _ Hok). rewrite Hf' in *. unfold free_after, needed, context_column in *. rewrite length_drop, length_app. cbn [length].
        destruct (Z.eqb_spec (Z.of_nat (length pre)) unshared) as [He|He]; cbn [negb] in *.
        -- repeat case_bool_decide; lia.
        -- repeat case_bool_decide; lia.
      * exists (push_col cols q (new_column bm (context_column (Z.of_nat (length pre))))). split; [done|]. unfold push_col. split; [|rewrite cols_of_insert, decide_True by done; split].
        -- intros o Hne. rewrite lookup_insert_ne by done. by apply Ho.
        -- rewrite !length_app. cbn [length]. lia.
        -- intros j c [[_ Hj]|[-> <-]]%lookup_snoc_Some Hu; [by eapply Hn|]. rewrite Hlen in Hu. unfold context_column. rewrite Hu, Z.eqb_refl. cbn [negb].
           unfold new_column. eapply sublist_NoDup, sublist_take. apply Hb.
    + destruct Ha as [-> Hlt']. split; [done|]. pose proof (bo_width _ _ Hok). unfold needed, context_column in Hlt'. rewrite Hw in Hlt'.
      destruct (Z.eqb_spec (Z.of_nat (length pre)) unshared) as [He|He]; cbn [negb] in Hlt'.
      * case_bool_decide; lia.
      * case_bool_decide; lia.
Qed.

End context.

(** The block that is not shared is the one of the next token. *)
Lemma unshared_place t sink mx l :
  0 < t -> sink mod t = 0 -> sink < mx -> pos sink mx l mod t <> 0 ->
  let final := pos sink mx (l - 1) in (if (final + 1) mod t =? 0 then final / t + 1 else final / t) = pos sink mx l / t.
Proof.
  intros Ht Hs Hm Hp final. pose proof (pos_next sink mx Hm (l - 1)) as Hn. replace (l - 1 + 1) with l in Hn by lia. fold final in Hn.
  destruct (Z.eqb_spec (final + 1) mx) as [He|He]; [rewrite Hn in Hp; done|]. rewrite Hn in Hp |- *.
  destruct (Z.eqb_spec ((final + 1) mod t) 0); [done|]. by rewrite div_next.
Qed.

Lemma context_count t x : 0 < t -> 0 <= x -> (if 0 <? x mod t then x / t + 1 else x / t) = (x + t - 1) / t.
Proof.
  intros Ht Hx. pose proof (Z.mod_pos_bound x t Ht). destruct (Z.ltb_spec 0 (x mod t)); [rewrite ceil_rest|rewrite ceil_exact]; lia.
Qed.

Lemma add_sequence_spec self seqs cols q context_len :
  manager_ok self seqs cols -> (q ∉ sequences self) -> get_batch_idx seqs q = len (sequences self) -> sink_token_len self <= context_len ->
  let l := context_len + bubble_len self in
  match add_sequence self q context_len false with
  | Ok self' => sequences self' = sequences self ++ [q] /\ lens self' = lens self ++ [l] /\ exists cols', manager_ok self' seqs cols'
  | Err e => e = RuntimeError
      /\ len (free_blocks (blocks_manager self)) < blocks_for (tokens_per_block self) (max_token_num self) l + beam_width (blocks_manager self)
  end.
Proof.
  intros [Hcf Hbl Hnd Hlens Hbatch Hdom Hseqs] Hq Hbi Hctx l. pose proof Hcf as [Ht Hs Hs0 Hm Hbub].
  assert (Hl : sink_block_token_num self <= l) by (unfold l; lia).
  assert (Hnone : cols !! q = None) by (destruct (cols !! q) eqn:Hc; [by apply Hdom in Hc|done]).
  unfold add_sequence. cbv zeta. fold l. cbn [with_sequences with_lens max_token_num sink_block_token_num tokens_per_block blocks_manager].
  unfold pymod. assert ((max_token_num self - sink_block_token_num self =? 0) = false) as -> by lia. cbn [mbind result_bind].
  fold (pos (sink_block_token_num self) (max_token_num self) (l - 1)). rewrite context_count by lia.
  fold (blocks_for (tokens_per_block self) (max_token_num self) l). set (final := pos _ _ (l - 1)). set (unshared := if negb _ || _ || _ then _ else -1).
  set (n := blocks_for _ _ l). assert (Hn : n = Z.of_nat (Z.to_nat n)) by (unfold n, blocks_for; pose proof (Z.div_pos (Z.min l (max_token_num self) + tokens_per_block self - 1) (tokens_per_block self)); lia).
  pose proof (context_blocks_spec (blocks_manager self) cols q unshared Hbl ltac:(unfold cols_of; by rewrite Hnone) (Z.to_nat n)) as Hrun.
  rewrite <- Hn in Hrun. unfold context_column in Hrun. destruct (for_each _ _ _) as [bm|e]; cbn [mbind result_bind].
  2: { destruct Hrun as [-> Hlt]. split; [done|]. rewrite (beam_width_nat _ (bo_width _ _ Hbl)). lia. }
  destruct Hrun as (Hc & cols' & Hb' & Ho & Hlen & Hun). split; [done|]. split; [done|]. exists cols'. split; simpl.
  - by split.
  - done.
  - apply NoDup_app. split; [done|]. split; [|apply NoDup_singleton]. by intros x Hx ->%list_elem_of_singleton.
  - rewrite !length_app. cbn [length]. lia.
  - intros i s [[_ Hi]|[-> <-]]%lookup_snoc_Some; [by apply Hbatch|done].
  - intros o cs Hoc. destruct (decide (o = q)) as [->|Hne]; [set_solver|]. rewrite Ho in Hoc by done. apply Hdom in Hoc. set_solver.
  - intros i s l' [[Hlt Hi]|[-> <-]]%lookup_snoc_Some Hl'.
    + rewrite lookup_app_l in Hl' by lia. assert (Hne : s <> q) by (intros ->; by apply Hq, (list_elem_of_lookup_2 _ i)).
      unfold cols_of. rewrite Ho by done. by apply (Hseqs i).
    + rewrite <- Hlens, list_lookup_middle in Hl' by done. injection Hl' as <-. split; [done|]. split; [rewrite Hlen; done|]. intros Hp.
      pose proof (blocks_for_pos _ _ _ Ht Hs0 Hm l Hl ltac:(by left)) as Hlt. pose proof (pos_range _ _ Hm l) as Hr.
      pose proof (Z.div_pos (pos (sink_block_token_num self) (max_token_num self) l) (tokens_per_block self)) as Hdp.
      destruct (lookup_lt_is_Some_2 (cols_of cols' q) (Z.to_nat (pos (sink_block_token_num self) (max_token_num self) l / tokens_per_block self))) as [c Hcc].
      { rewrite Hlen. fold n in Hlt. lia. }
      exists c. split; [done|]. assert (Hw : width bm = width (blocks_manager self)) by (unfold width; destruct Hc as (_ & _ & _ & _ & ->); done).
      destruct (Z.le_gt_cases (beam_width (blocks_manager self)) 1); [eapply NoDup_width1; [exact Hb'|exact Hcc|rewrite Hw; unfold width; lia]|].
      apply (Hun _ _ Hcc). unfold unshared. assert ((1 <? beam_width (blocks_manager self)) = true) as -> by lia. rewrite orb_true_r. cbn [orb].
      unfold final. rewrite (unshared_place _ _ _ l Ht Hs Hm Hp). lia.
Qed.

(** A manager with no sequences. *)
Lemma manager_init_ok layers blocks size tpb per_seq window sink_len bw more :
  0 < tpb -> 0 <= sink_len < window -> 0 < bw ->
  exists self, KVCacheManager_init layers blocks size tpb per_seq window sink_len bw more = Ok self
    /\ manager_ok self ∅ ∅ /\ sink_token_len self = sink_len.
Proof.
  intros Ht Hs Hb. unfold KVCacheManager_init, pymod. assert ((tpb =? 0) = false) as -> by lia. cbn [mbind result_bind]. eexists. split; [done|]. split; [|done].
  pose proof (Z.mod_pos_bound sink_len tpb Ht) as Hm. split; simpl.
  - split; simpl; try done.
    + destruct (Z.eqb_spec (sink_len mod tpb) 0) as [He|He]; [by rewrite Z.add_0_r|].
      replace (sink_len + (tpb - sink_len mod tpb)) with ((sink_len / tpb + 1) * tpb) by (pose proof (Z.div_mod sink_len tpb); lia). apply Z.mod_mul. lia.
    + case_match; lia.
    + destruct more; case_match; lia.
  - split; simpl; [unfold width; simpl; lia|by rewrite fmap_empty|]. split; simpl; try (intros; destruct_and?; by match goal with H : at_col ∅ _ _ _ |- _ => destruct H as (? & ? & _) end).
    + apply NoDup_seqZ.
    + intros b. rewrite elem_of_seqZ. split; [intros; split; [lia|by intros o i c (? & ? & _)]|intros [? _]; lia].
    + done.
  - constructor.
  - done.
  - done.
  - done.
  - done.
Qed.

(** ** The theorems *)

(** Managers in use: sequences are added with their position in the batch, with no
    fewer tokens than the sink, and are removed by steps.  The last block of a context
    is not shared, as for the self-attention cache; the sequences of a cross-attention
    cache, which is never written to by a step, are added with
    [always_share_across_beam] and are not considered here. *)
Inductive in_use : KVCacheManager -> Sequences -> Prop :=
  | use_init layers blocks size tpb per_seq window sink_len bw more self :
      0 < tpb -> 0 <= sink_len < window -> 0 < bw ->
      KVCacheManager_init layers blocks size tpb per_seq window sink_len bw more = Ok self -> in_use self ∅
  | use_add self seqs q context_len self' :
      in_use self seqs -> (q ∉ sequences self) -> sink_token_len self <= context_len ->
      add_sequence self q context_len false = Ok self' -> in_use self' (<[q := len (sequences self)]> seqs)
  | use_step self seqs finished self' seqs' :
      in_use self seqs -> length finished = length (sequences self) ->
      step self seqs finished = Ok (self', seqs') -> in_use self' seqs'.

Lemma manager_ok_seqs self seqs seqs' cols :
  manager_ok self seqs cols -> (forall q, q ∈ sequences self -> get_batch_idx seqs' q = get_batch_idx seqs q) -> manager_ok self seqs' cols.
Proof.
  intros [H1 H2 H3 H4 H5 H6 H7] Hs. split; try done. intros i s Hi. rewrite Hs by (by eapply list_elem_of_lookup_2). by apply H5.
Qed.

Lemma new_object (self : KVCacheManager) seqs cols q n : manager_ok self seqs cols -> (q ∉ sequences self) -> manager_ok self (<[q := n]> seqs) cols.
Proof.
  intros Hok Hq. apply (manager_ok_seqs _ _ _ _ Hok). intros s Hs. unfold get_batch_idx. rewrite lookup_insert_ne; [done|]. by intros ->.
Qed.

Lemma in_use_ok self seqs : in_use self seqs -> exists cols, manager_ok self seqs cols.
Proof.
  induction 1 as [layers blocks size tpb per_seq window sink_len bw more self Ht Hs Hb Hinit|self seqs q ctx self' _ [cols IH] Hq Hctx Hadd|self seqs fin self' seqs' _ [cols IH] Hfin Hstep].
  - destruct (manager_init_ok layers blocks size tpb per_seq window sink_len bw more Ht Hs Hb) as (self1 & He & Hok & _). rewrite Hinit in He. injection He as <-. eauto.
  - apply (new_object _ _ _ q (len (sequences self))) in IH; [|done].
    pose proof (add_sequence_spec _ _ _ q ctx IH Hq ltac:(unfold get_batch_idx; by rewrite lookup_insert_eq) Hctx) as Ha. rewrite Hadd in Ha. by destruct Ha as (_ & _ & ?).
  - pose proof (manager_step_spec self seqs fin cols IH Hfin) as Ha. rewrite Hstep in Ha. destruct Ha as (cols' & Hd & _). eauto.
Qed.

(** Beam [k] of sequence [q] has block [b] at place [j]. *)
Definition block_at (bm : BlocksManager) (q : Z) (k j : nat) (b : Z) : Prop :=
  exists row, beams_of bm q !! k = Some row /\ row !! j = Some b.

(** It has a block there that nobody else refers to. *)
Definition private (bm : BlocksManager) (q : Z) (k j : nat) : Prop :=
  exists b, block_at bm q k j b /\ ref_of bm b = 1 /\ forall q' k' j', block_at bm q' k' j' b -> q' = q /\ k' = k /\ j' = j.

Lemma block_at_col bm cols q k j b : blocks_ok bm cols ->
  block_at bm q k j b <-> (k < width bm)%nat /\ exists c, at_col cols q j c /\ c !! k = Some b.
Proof.
  intros Hok. unfold block_at. rewrite (beams_of_cols bm cols q Hok). setoid_rewrite at_col_cols. split.
  - intros (row & Hrow & Hj). assert (Hk : (k < width bm)%nat) by (apply lookup_lt_Some in Hrow; by rewrite rows_of_length in Hrow).
    split; [done|]. rewrite rows_of_lookup in Hrow by done. injection Hrow as <-. rewrite list_lookup_fmap in Hj. apply fmap_Some in Hj as (c & Hc & ->).
    exists c. split; [done|]. destruct (lookup_lt_is_Some_2 c k) as [x Hx]; [|by rewrite (list_lookup_total_correct _ _ _ Hx)].
    rewrite (ac_len _ _ _ _ _ (bo_account _ _ Hok) q j c); [done|by apply at_col_cols].
  - intros (Hk & c & Hc & Hb). eexists. split; [by apply rows_of_lookup|]. rewrite list_lookup_fmap, Hc. simpl. f_equal. by apply list_lookup_total_correct.
Qed.

Lemma own_private bm cols q j c k : blocks_ok bm cols -> cols_of cols q !! j = Some c -> NoDup c -> (k < width bm)%nat -> private bm q k j.
Proof.
  intros Hok Hc Hnd Hk. pose proof (bo_account _ _ Hok) as Ha. apply at_col_cols in Hc. pose proof (ac_len _ _ _ _ _ Ha _ _ _ Hc) as Hlen.
  destruct (lookup_lt_is_Some_2 c k) as [b Hb]; [lia|]. assert (Hbc : b ∈ c) by by eapply list_elem_of_lookup_2. exists b. split; [|split].
  - apply (block_at_col _ cols); [done|]. eauto.
  - destruct (account_count _ _ (bo_width _ _ Hok) _ _ _ _ _ _ _ Ha Hc Hbc) as [-> _]. by apply uses_once.
  - intros q' k' j' (Hk' & c' & Hc' & Hb')%(block_at_col _ cols); [|done].
    destruct (ac_disj _ _ _ _ _ Ha _ _ _ _ _ _ b Hc Hc') as [<- <-]; [done|by eapply list_elem_of_lookup_2|].
    rewrite (ac_fun _ _ _ _ _ Ha _ _ _ _ Hc' Hc) in Hb'. split; [done|]. split; [|done]. by apply (NoDup_lookup _ _ _ b Hnd).
Qed.

(** C5. After a generation step the sequences that are not finished have one token more,
    they are numbered as they stand in the batch, every beam has the blocks its tokens
    need, and the block the new token is written to is referred to by this beam alone,
    also after the cache has wrapped around.  The step raises only if it runs out of
    blocks, which it does not if there is one for every beam. *)
Theorem new_token_in_own_block self seqs finished :
  in_use self seqs -> length finished = length (sequences self) ->
  match step self seqs finished with
  | Ok (self', seqs') =>
      sequences self' = unfinished (sequences self) finished /\ lens self' = unfinished ((fun l => l + 1) <$> lens self) finished
      /\ forall (i : nat) q l, sequences self' !! i = Some q -> lens self' !! i = Some l ->
           get_batch_idx seqs' q = Z.of_nat i
           /\ forall k, (k < width (blocks_manager self'))%nat ->
                (exists row, beams_of (blocks_manager self') q !! k = Some row /\ len row = blocks_for (tokens_per_block self') (max_token_num self') l)
                /\ private (blocks_manager self') q k
                     (Z.to_nat (pos (sink_block_token_num self') (max_token_num self') (l - 1) / tokens_per_block self'))
  | Err e => e = RuntimeError /\ (length (free_blocks (blocks_manager self)) < length (sequences self) * width (blocks_manager self))%nat
  end.
Proof.
  intros Huse Hfin. destruct (in_use_ok _ _ Huse) as [cols Hok]. pose proof (manager_step_spec self seqs finished cols Hok Hfin) as Hs.
  destruct (step self seqs finished) as [[s seqs']|e]; [|done]. destruct Hs as (cols' & Hok' & Hq & Hl & Hw). split; [done|]. split; [done|].
  intros i q l Hi Hli. split; [by apply (mo_batch _ _ _ Hok')|]. intros k Hk. pose proof (mo_blocks _ _ _ Hok') as Hb. split.
  - eexists. split; [rewrite (beams_of_cols _ cols' _ Hb); by apply rows_of_lookup|]. rewrite length_fmap. by apply (mo_seqs _ _ _ Hok' i).
  - destruct (Hw i q l Hi Hli) as (c & Hc & Hnd). by eapply own_private.
Qed.

Lemma in_some_column w n ref fr cols b : account w n ref fr (at_col cols) -> 0 <= b < n -> (b ∉ fr) -> exists q j c, at_col cols q j c /\ b ∈ c.
Proof.
  intros Ha Hb Hout. destruct (decide (b ∈ concat (concat (map_to_list cols).*2))) as [Hin|Hno].
  - apply elem_concat_lookup in Hin as (j & c & Hj & Hbc). apply list_elem_of_lookup_2, elem_concat_lookup in Hj as (i & cs & Hi & Hc).
    rewrite list_lookup_fmap in Hi. apply fmap_Some in Hi as ([q cs'] & Hi & ->). apply list_elem_of_lookup_2, elem_of_map_to_list in Hi.
    apply list_elem_of_lookup_1 in Hc as [j' Hj']. exists q, j', c. split; [|done]. by exists cs'.
  - destruct Hout. apply (ac_free _ _ _ _ _ Ha). split; [done|]. intros q j c (cs & Hcs & Hj) Hbc. apply Hno.
    apply elem_of_map_to_list, list_elem_of_lookup_1 in Hcs as [i Hi].
    apply list_elem_of_lookup_2, list_elem_of_lookup_1 in Hj as [k Hk].
    assert (Hin : c ∈ concat (map_to_list cols).*2).
    { apply elem_concat_lookup. exists i, cs. split; [by rewrite list_lookup_fmap, Hi|by eapply list_elem_of_lookup_2]. }
    apply list_elem_of_lookup_1 in Hin as [k' Hk']. apply elem_concat_lookup. eauto.
Qed.

(** C17. No block is lost and none is used twice: a block is free, counted zero and in no
    beam, or it is at one place of one sequence, where one beam has it and it is counted
    once, or all beams share it and it is counted once for each. *)
Theorem blocks_accounted self seqs b :
  in_use self seqs -> 0 <= b < num_blocks (blocks_manager self) ->
  let bm := blocks_manager self in
  NoDup (free_blocks bm)
  /\ ((b ∈ free_blocks bm /\ ref_of bm b = 0 /\ forall q k j, ~ block_at bm q k j b)
      \/ ((b ∉ free_blocks bm) /\ exists q j, (forall q' k' j', block_at bm q' k' j' b -> q' = q /\ j' = j)
            /\ ((ref_of bm b = 1 /\ exists k, forall k', block_at bm q k' j b <-> k' = k)
                \/ (ref_of bm b = beam_width bm /\ forall k, block_at bm q k j b <-> (k < width bm)%nat)))).
Proof.
  intros Huse Hb bm. destruct (in_use_ok _ _ Huse) as [cols Hok]. pose proof (mo_blocks _ _ _ Hok) as Hbl. fold bm in Hbl, Hb.
  pose proof (bo_account _ _ Hbl) as Ha. split; [apply Ha|]. destruct (decide (b ∈ free_blocks bm)) as [Hin|Hout].
  - left. split; [done|]. split; [by apply Ha|]. intros q k j (_ & c & Hc & Hk)%(block_at_col _ cols); [|done].
    apply (ac_free _ _ _ _ _ Ha) in Hin as [_ Hno]. apply (Hno q j c Hc). by eapply list_elem_of_lookup_2.
  - right. split; [done|].
    destruct (in_some_column _ _ _ _ _ b Ha Hb Hout) as (q & j & c & Hc & Hbc). exists q, j. split.
    + intros q' k' j' (_ & c' & Hc' & Hk')%(block_at_col _ cols); [|done].
      destruct (ac_disj _ _ _ _ _ Ha _ _ _ _ _ _ b Hc Hc') as [<- <-]; [done|by eapply list_elem_of_lookup_2|done].
    + assert (Hat : forall k, block_at bm q k j b <-> (k < width bm)%nat /\ c !! k = Some b).
      { intros k. rewrite (block_at_col bm cols) by done. split; [|intros [? ?]; eauto]. intros (Hk & c' & Hc' & Hb'). by rewrite (ac_fun _ _ _ _ _ Ha _ _ _ _ Hc Hc'). }
      destruct (ac_kind _ _ _ _ _ Ha _ _ _ Hc) as [(b' & -> & Hr)|[Hnd Hr]].
      * right. apply elem_of_replicate in Hbc as [-> _]. split; [by rewrite Hr, (beam_width_nat _ (bo_width _ _ Hbl))|].
        intros k. rewrite Hat, lookup_replicate. naive_solver.
      * left. split; [by apply Hr|]. apply list_elem_of_lookup_1 in Hbc as [k Hk]. exists k. intros k'. rewrite Hat. split.
        -- intros [_ Hk']. by apply (NoDup_lookup _ _ _ b Hnd).
        -- intros ->. split; [|done]. rewrite <- (ac_len _ _ _ _ _ Ha _ _ _ Hc). by eapply lookup_lt_Some.
Qed.

(** ** Pools of several managers *)

Lemma layers_with_lookup heads h (i : nat) : Z.of_nat i ∈ layers_with heads h <-> heads !! i = Some h.
Proof.
  unfold layers_with. rewrite list_elem_of_fmap. setoid_rewrite list_elem_of_filter. split.
  - intros ([x h'] & Hx & Hh & Hin). simpl in Hx, Hh. subst x h'. apply list_elem_of_lookup_1 in Hin as [k Hk].
    apply lookup_zip_with_Some in Hk as (? & ? & [= <- <-] & Hs & Hk). apply lookup_seqZ in Hs as [Hs _]. by replace i with k by lia.
  - intros Hi. exists (Z.of_nat i, h). split; [done|]. split; [done|]. apply (list_elem_of_lookup_2 _ i). rewrite lookup_zip_with, Hi.
    rewrite (proj2 (lookup_seqZ 0 (len heads) i (Z.of_nat i))); [done|]. apply lookup_lt_Some in Hi. lia.
Qed.

Lemma layers_with_range heads h x : x ∈ layers_with heads h -> exists i : nat, x = Z.of_nat i /\ (i < length heads)%nat.
Proof.
  unfold layers_with. intros ([y h'] & -> & [_ Hin]%list_elem_of_filter)%list_elem_of_fmap. apply list_elem_of_lookup_1 in Hin as [k Hk].
  apply lookup_zip_with_Some in Hk as (? & ? & [= <- <-] & Hs & Hk). apply lookup_seqZ in Hs as [-> _]. exists k. split; [done|by eapply lookup_lt_Some].
Qed.

Lemma layers_with_nodup heads h : NoDup (layers_with heads h).
Proof.
  unfold layers_with. eapply sublist_NoDup; [|apply fmap_sublist, sublist_filter]. rewrite fst_zip; [apply NoDup_seqZ|]. rewrite length_seqZ. lia.
Qed.

(** The layers of one pool get their places. *)
Lemma place_layers (p : Z) (layers : list Z) (m : list (Z * Z)) :
  NoDup layers -> (forall x, x ∈ layers -> exists i : nat, x = Z.of_nat i /\ (i < length m)%nat) ->
  exists m', for_each (fun m '(j, layer) => py_set m layer (p, j)) m (zip (seqZ 0 (len layers)) layers) = Ok m' /\ length m' = length m
    /\ (forall (j i : nat), layers !! j = Some (Z.of_nat i) -> m' !! i = Some (p, Z.of_nat j))
    /\ (forall i : nat, Z.of_nat i ∉ layers -> m' !! i = m !! i).
Proof.
  intros Hnd Hr. destruct (for_each_prefix_total (fun m '(j, layer) => py_set m layer (p, j)) (fun pre m' => length m' = length m
    /\ (forall (j i : nat), (j < length pre)%nat -> layers !! j = Some (Z.of_nat i) -> m' !! i = Some (p, Z.of_nat j))
    /\ (forall i : nat, Z.of_nat i ∉ layers -> m' !! i = m !! i)) (zip (seqZ 0 (len layers)) layers) m) as (m' & Hrun & Hlen & Hset & Hkeep).
  - split; [done|]. split; [cbn [length]; lia|done].
  - intros pre [j x] post m' Hl (Hlen & Hset & Hkeep).
    assert (Hlk : zip (seqZ 0 (len layers)) layers !! length pre = Some (j, x)) by (rewrite Hl; by apply list_lookup_middle).
    apply lookup_zip_with_Some in Hlk as (? & ? & [= <- <-] & Hj & Hx). apply lookup_seqZ in Hj as [-> _]. rewrite Z.add_0_l.
    destruct (Hr x ltac:(by eapply list_elem_of_lookup_2)) as (i & -> & Hi). rewrite py_set_nat by lia. eexists. split; [done|].
    split; [by rewrite length_insert|]. split.
    + intros j' i' Hj' Hi'. rewrite length_app in Hj'. cbn [length] in Hj'. destruct (decide (j' = length pre)) as [->|Hne].
      * assert (i' = i) as -> by (rewrite Hx in Hi'; simplify_eq; lia). apply list_lookup_insert_eq. lia.
      * rewrite list_lookup_insert_ne; [apply Hset; [lia|done]|]. intros ->. apply Hne. by apply (NoDup_lookup _ _ _ _ Hnd Hi' Hx).
    + intros i' Hi'. rewrite list_lookup_insert_ne; [by apply Hkeep|]. intros ->. by apply Hi', (list_elem_of_lookup_2 _ (length pre)).
  - exists m'. split_and!; try done. intros j i Hj. apply Hset; [|done]. rewrite length_zip_with, length_seqZ. apply lookup_lt_Some in Hj. lia.
Qed.

Lemma unique_nkvh_spec heads : NoDup (unique_nkvh heads) /\ forall h, h ∈ unique_nkvh heads <-> h ∈ heads.
Proof.
  unfold unique_nkvh. split; [rewrite sort_by_perm; apply NoDup_remove_dups|]. intros h. by rewrite sort_by_perm, elem_of_remove_dups.
Qed.

Definition pool_of (heads : list Z) (h : Z) : Pool := mkPool h (len (layers_with heads h)).

(** The layers of the first [n] pools have their places. *)
Definition placed (heads : list Z) (n : nat) (m : list (Z * Z)) : Prop :=
  length m = length heads
  /\ forall (p j i : nat) h, (p < n)%nat -> unique_nkvh heads !! p = Some h -> layers_with heads h !! j = Some (Z.of_nat i) ->
       m !! i = Some (Z.of_nat p, Z.of_nat j).

Lemma place_pool heads (p : nat) h md m :
  unique_nkvh heads !! p = Some h -> placed heads p m ->
  exists m', allocate_pool heads (md, m) (Z.of_nat p, h) = Ok (md ++ [pool_of heads h], m') /\ placed heads (S p) m'.
Proof.
  intros Hh (Hlen & Hset). unfold allocate_pool.
  destruct (place_layers (Z.of_nat p) (layers_with heads h) m (layers_with_nodup heads h)) as (m' & -> & Hlen' & Hset' & Hkeep').
  { intros x Hx. rewrite Hlen. by eapply layers_with_range. }
  exists m'. split; [done|]. split; [lia|]. intros p' j i h' Hp' Hh' Hj.
  destruct (decide (p' = p)) as [->|Hne]; [rewrite Hh in Hh'; injection Hh' as <-; by apply Hset'|].
  rewrite Hkeep'; [eapply Hset; [lia|done..]|]. intros Hi%layers_with_lookup. apply list_elem_of_lookup_2, layers_with_lookup in Hj.
  apply Hne. apply (NoDup_lookup _ _ _ h (proj1 (unique_nkvh_spec heads))); congruence.
Qed.

Lemma place_pools heads :
  exists m, for_each (allocate_pool heads) ([], replicate (length heads) (-1, -1)) (zip (seqZ 0 (len (unique_nkvh heads))) (unique_nkvh heads))
      = Ok (pool_of heads <$> unique_nkvh heads, m)
    /\ placed heads (length (unique_nkvh heads)) m.
Proof.
  set (hs := unique_nkvh heads). set (l := zip (seqZ 0 (len hs)) hs).
  destruct (for_each_prefix_total (allocate_pool heads) (fun pre '(md, m) => md = pool_of heads <$> pre.*2 /\ placed heads (length pre) m)
    l ([], replicate (length heads) (-1, -1))) as ([md m] & Hrun & -> & Hset).
  - split; [done|]. split; [apply length_replicate|]. cbn [length]. lia.
  - intros pre [p h] post [md m] Hl (-> & Hset). assert (Hlk : l !! length pre = Some (p, h)) by (rewrite Hl; by apply list_lookup_middle).
    apply lookup_zip_with_Some in Hlk as (? & ? & [= <- <-] & Hp & Hh). apply lookup_seqZ in Hp as [-> _]. rewrite Z.add_0_l.
    destruct (place_pool heads (length pre) h (pool_of heads <$> pre.*2) m Hh Hset) as (m' & -> & Hset'). eexists. split; [done|].
    split; [by rewrite !fmap_app|]. rewrite length_app, Nat.add_1_r. done.
  - assert (Hsnd : l.*2 = hs) by (unfold l; rewrite snd_zip; [done|rewrite length_seqZ; lia]).
    rewrite Hsnd in Hrun. exists m. split; [done|]. rewrite <- Hsnd, length_fmap. done.
Qed.

Lemma placed_layer heads m (i : nat) h :
  placed heads (length (unique_nkvh heads)) m -> heads !! i = Some h ->
  exists (p j : nat), unique_nkvh heads !! p = Some h /\ layers_with heads h !! j = Some (Z.of_nat i) /\ m !! i = Some (Z.of_nat p, Z.of_nat j).
Proof.
  intros [_ Hset] Hi. assert (Hh : h ∈ unique_nkvh heads) by (apply unique_nkvh_spec; by eapply list_elem_of_lookup_2).
  apply list_elem_of_lookup_1 in Hh as [p Hp]. assert (Hj := proj2 (layers_with_lookup heads h i) Hi). apply list_elem_of_lookup_1 in Hj as [j Hj].
  exists p, j. split; [done|]. split; [done|]. eapply Hset; try done. by eapply lookup_lt_Some.
Qed.

(** Every layer has a place in the pool for its number of KV heads, no two layers the
    same, and there is one pool for every number of heads. *)
Theorem layers_placed heads :
  exists mapping, allocate_pools heads = Ok (pool_of heads <$> unique_nkvh heads, mapping) /\ length mapping = length heads
    /\ (forall (i : nat) h, heads !! i = Some h -> exists (p j : nat), mapping !! i = Some (Z.of_nat p, Z.of_nat j)
          /\ (pool_of heads <$> unique_nkvh heads) !! p = Some (pool_of heads h) /\ Z.of_nat j < pool_layers (pool_of heads h))
    /\ (forall (i i' : nat) x, mapping !! i = Some x -> mapping !! i' = Some x -> i = i').
Proof.
  destruct (place_pools heads) as (m & Hrun & Hset). pose proof (proj1 Hset) as Hlen.
  assert (Hlay : forall (i : nat) x, m !! i = Some x -> exists h (p j : nat),
    unique_nkvh heads !! p = Some h /\ layers_with heads h !! j = Some (Z.of_nat i) /\ x = (Z.of_nat p, Z.of_nat j)).
  { intros i x Hi. destruct (lookup_lt_is_Some_2 heads i) as [h Hh]; [rewrite <- Hlen; by eapply lookup_lt_Some|].
    destruct (placed_layer heads m i h Hset Hh) as (p & j & Hp & Hj & Hm). exists h, p, j. split_and!; congruence. }
  exists m. unfold allocate_pools. cbv zeta. rewrite Hrun. cbn [mbind result_bind].
  assert (forallb (fun '(a, b) => negb (a =? -1) && negb (b =? -1)) m = true) as ->.
  { apply forallb_forall. intros x Hab. apply list_elem_of_In, list_elem_of_lookup_1 in Hab as [i Hi].
    destruct (Hlay i x Hi) as (h & p & j & _ & _ & ->). apply andb_true_iff. split; apply negb_true_iff, Z.eqb_neq; lia. }
  split; [done|]. split; [done|]. split.
  - intros i h Hi. destruct (placed_layer heads m i h Hset Hi) as (p & j & Hp & Hj & Hm). exists p, j. split; [done|].
    split; [by rewrite list_lookup_fmap, Hp|]. simpl. apply lookup_lt_Some in Hj. lia.
  - intros i i' x Hi Hi'. destruct (Hlay i x Hi) as (h & p & j & Hp & Hj & ->). destruct (Hlay i' _ Hi') as (h' & p' & j' & Hp' & Hj' & Hx).
    injection Hx as <-%Nat2Z.inj <-%Nat2Z.inj. assert (h' = h) as -> by congruence. rewrite Hj in Hj'. injection Hj'. lia.
Qed.

(** ** What the managers do not do *)

(** With more than one beam the last free block cannot be allocated, not even to be
    shared by the beams, where one block is all that is used. *)
Theorem last_block_not_shared self seqs q :
  in_use self seqs -> 1 < beam_width (blocks_manager self) -> len (free_blocks (blocks_manager self)) = 1 ->
  allocate (blocks_manager self) q true = Err RuntimeError.
Proof.
  intros Huse Hw Hf. destruct (in_use_ok _ _ Huse) as [cols Hok].
  pose proof (allocate_column_spec _ cols q true (mo_blocks _ _ _ Hok)) as Hs. destruct (allocate _ q true) as [bm'|e]; [|by destruct Hs as [-> _]].
  destruct Hs as [Hn _]. unfold needed, width in Hn. lia.
Qed.

Module Example.

Definition at_start : KVCacheManager :=
  mkKVCacheManager (BlocksManager_init 1 9 8 8 2) 2 4 1 1 2 5 [] [].
Definition run {A B} (r : result A) (k : A -> B) (d : B) : B := match r with Ok a => k a | Err _ => d end.
Definition one := run (add_sequence at_start 7 3 false) id at_start.
Definition two := run (add_sequence one 8 2 false) id one.
Definition objects : Sequences := {[8 := 1; 7 := 0]}.

Lemma start_in_use : in_use at_start ∅.
Proof. by apply (use_init 1 9 8 2 8 4 1 2 false). Qed.
Lemma two_in_use : in_use two objects.
Proof.
  apply (use_add one {[7 := 0]} 8 2 two); [|vm_compute; set_solver|done|by vm_compute].
  apply (use_add at_start ∅ 7 3 one start_in_use); [vm_compute; set_solver|done|by vm_compute].
Qed.

End Example.

Lemma new_token_in_own_block_witness :
  match step Example.two Example.objects [false; true] with
  | Ok (self', seqs') => sequences self' = [7] /\ lens self' = [5] /\ get_batch_idx seqs' 7 = 0 /\ private (blocks_manager self') 7 1 2
  | Err _ => False
  end.
Proof.
  pose proof (new_token_in_own_block Example.two Example.objects [false; true] Example.two_in_use eq_refl) as H.
  destruct (step Example.two Example.objects [false; true]) as [[s seqs']|e] eqn:E; [|vm_compute in E; congruence].
  vm_compute in E. injection E as <- <-. destruct H as (Hq & Hl & Hall). split; [done|]. split; [done|].
  destruct (Hall 0%nat 7 5 eq_refl eq_refl) as [Hb Hk]. split; [done|]. apply (Hk 1%nat). vm_compute. lia.
Defined.

Lemma blocks_accounted_witness : ref_of (blocks_manager Example.two) 0 = 2 /\ exists q j, forall k, block_at (blocks_manager Example.two) q k j 0 <-> (k < 2)%nat.
Proof.
  assert (Hr : 0 <= 0 < num_blocks (blocks_manager Example.two)) by (vm_compute; split; congruence).
  destruct (blocks_accounted Example.two Example.objects 0 Example.two_in_use Hr) as [_ [(_ & H & _)|(_ & q & j & _ & [[H _]|[H Hk]])]];
    [vm_compute in H; congruence..|]. split; [done|]. exists q, j. exact Hk.
Defined.

Lemma last_block_not_shared_witness : allocate (BlocksManager_init 1 1 8 8 2) 9 true = Err RuntimeError.
Proof.
  apply (last_block_not_shared (mkKVCacheManager (BlocksManager_init 1 1 8 8 2) 2 4 1 1 2 5 [] []) ∅ 9); [|done|done].
  by apply (use_init 1 1 8 2 8 4 1 2 false).
Defined.

(** Two pools for two sequences of three and four tokens. *)
Definition two_pools : result (list KVCacheManager) :=
  ms ← pools_init [mkPool 1 1; mkPool 2 1] 8 20 2 1 8 2 0;
  ms ← pools_add_sequence ms 0 3 false;
  pools_add_sequence ms 1 4 false.

(** The managers of the pools renumber the same sequence objects: when the first of two
    sequences finishes, the manager of the second pool looks up the other one by the
    number it has in the next batch.  It counts no token and allocates no block for it,
    while the manager of the first pool does. *)
Theorem second_pool_loses_token :
  match ms ← two_pools; pools_step ms {[0 := 0; 1 := 1]} [true; false] with
  | Ok ([first; second], _) =>
      sequences first = [1] /\ lens first = [5] /\ map (fun row => len row) (beams_of (blocks_manager first) 1) = [3; 3]
      /\ sequences second = [1] /\ lens second = [4] /\ map (fun row => len row) (beams_of (blocks_manager second) 1) = [2; 2]
  | _ => False
  end.
Proof. vm_compute. done. Qed.
