(* ===== verification/Slots.v ===== *)
(** Slots handed out by number: the slots of requests, the blocks of a sparse-attention
    cache, and the slots of LoRA adapters.

    - [SlotManager]: [SlotManager] of resource_manager.py and [SeqSlotManager] of
      seq_slot_manager.py.  The element [set.pop] takes is a parameter [pop].
    - [BlockManager]: the class of that name in resource_manager.py.  The methods that
      may raise halfway give the manager they leave behind.
    - [AdapterSlots]: [AdapterSlotManager] of adapter_slot_manager.py; an [OrderedDict] is
      the list of its items, and whether the C++ cache has a task is a parameter. *)

From stdpp Require Import prelude gmap sets.
From S2P Require Import Prelude.

Local Open Scope Z_scope.

Module SlotManager.

Definition CUDA_GRAPH_DUMMY_REQUEST_ID : Z := Z.shiftl 1 64 - 1.

Record SlotManager := mkSlotManager {
  max_num_requests : Z;
  slot_mapping : gmap Z Z;
  free_slots : gset Z;
}.

Definition SlotManager_init (max_num_requests : Z) : SlotManager :=
  mkSlotManager max_num_requests ∅ (list_to_set (seqZ 0 max_num_requests)).

Definition get_slot (self : SlotManager) (request_id : Z) : option Z := slot_mapping self !! request_id.

Definition fill_slot_id_tensor (self : SlotManager) (requests : list Z) (slot_id_tensor : list Z) : result (list Z) :=
  for_each (fun t '(i, request_id) =>
      match get_slot self request_id with Some slot_id => py_set t i slot_id | None => Err ValueError end)
    slot_id_tensor (zip (seqZ 0 (len requests)) requests).

Definition remove_slot (self : SlotManager) (request_id : Z) : SlotManager :=
  match slot_mapping self !! request_id with
  | Some slot => mkSlotManager (max_num_requests self) (delete request_id (slot_mapping self)) ({[slot]} ∪ free_slots self)
  | None => self
  end.

Definition shutdown (self : SlotManager) : result SlotManager :=
  let self := foldl remove_slot self (map_to_list (slot_mapping self)).*1 in
  _ ← py_assert (Nat.eqb (size (slot_mapping self)) 0 && (Z.of_nat (size (free_slots self)) =? max_num_requests self));
  Ok self.

(** A request as [SeqSlotManager] sees it. *)
Record SeqRequest := mkSeqRequest {
  request_id : Z;
  seq_slot : option Z;
  py_seq_slot : option Z;
  is_disagg_generation_init_state : bool;
  is_disagg_generation_transmission_complete : bool;
  return_perf_metrics : bool;
  first_scheduled : bool;
}.

Definition with_slot (r : SeqRequest) (slot : Z) : SeqRequest :=
  mkSeqRequest (request_id r) (Some slot) (Some slot) (is_disagg_generation_init_state r)
    (is_disagg_generation_transmission_complete r) (return_perf_metrics r) (return_perf_metrics r || first_scheduled r).

Definition needs_slot (r : SeqRequest) : bool :=
  bool_decide (seq_slot r = None) || is_disagg_generation_transmission_complete r.

Section Pop.
Variable pop : gset Z -> Z.

Definition add_slot (self : SlotManager) (request_id : Z) : result (Z * SlotManager) :=
  match slot_mapping self !! request_id with
  | Some slot => _ ← py_assert (request_id =? CUDA_GRAPH_DUMMY_REQUEST_ID); Ok (slot, self)
  | None =>
      if Nat.eqb (size (free_slots self)) 0 then Err ValueError
      else
        let slot := pop (free_slots self) in
        Ok (slot, mkSlotManager (max_num_requests self) (<[request_id := slot]> (slot_mapping self)) (free_slots self ∖ {[slot]}))
  end.

(** The message for a skipped request goes to [logger], a name the module does not have. *)
Definition prepare_request (st : SlotManager * list SeqRequest) (llm_req : SeqRequest) : result (SlotManager * list SeqRequest) :=
  let '(self, done) := st in
  if is_disagg_generation_init_state llm_req then Err NameError
  else if needs_slot llm_req then
    '(slot, self) ← add_slot self (request_id llm_req);
    Ok (self, done ++ [with_slot llm_req slot])
  else Ok (self, done ++ [llm_req]).

Definition prepare_resources (self : SlotManager) (all_requests : list SeqRequest) : result (SlotManager * list SeqRequest) :=
  for_each prepare_request (self, []) all_requests.

End Pop.

Definition free_resources (self : SlotManager) (request : SeqRequest) : SlotManager := remove_slot self (request_id request).

(** *** The slots are the free ones and those of the requests *)

Record slots_ok (self : SlotManager) : Prop := {
  so_inj : forall r r' s, slot_mapping self !! r = Some s -> slot_mapping self !! r' = Some s -> r = r';
  so_used : forall r s, slot_mapping self !! r = Some s -> 0 <= s < max_num_requests self /\ (s ∉ free_slots self);
  so_free : forall s, s ∈ free_slots self -> 0 <= s < max_num_requests self;
  so_count : (size (slot_mapping self) + size (free_slots self) = Z.to_nat (max_num_requests self))%nat;
}.

Lemma init_slots_ok n : slots_ok (SlotManager_init n).
Proof.
  split; simpl; try by intros *; rewrite lookup_empty.
  - intros s Hs. apply elem_of_list_to_set, elem_of_seqZ in Hs. lia.
  - rewrite map_size_empty, size_list_to_set by apply NoDup_seqZ. by rewrite length_seqZ.
Qed.

Lemma remove_slot_ok self r : slots_ok self -> slots_ok (remove_slot self r).
Proof.
  intros [Hi Hu Hf Hc]. unfold remove_slot. destruct (slot_mapping self !! r) as [s|] eqn:E; [|done].
  destruct (Hu r s E) as [Hs Hno]. split; simpl.
  - intros r1 r2 s1 [_ H1]%lookup_delete_Some [_ H2]%lookup_delete_Some. by apply (Hi r1 r2 s1).
  - intros r1 s1 [Hne H1]%lookup_delete_Some. destruct (Hu r1 s1 H1) as [? ?]. split; [done|].
    apply not_elem_of_union. split; [|done]. intros ->%elem_of_singleton. apply Hne. by apply (Hi r r1 s).
  - intros s1 [->%elem_of_singleton|H1]%elem_of_union; [done|by apply Hf].
  - rewrite map_size_delete_Some by eauto. rewrite size_union, size_singleton by set_solver.
    assert (size (slot_mapping self) <> 0%nat); [|lia]. intros H0%map_size_empty_iff. by rewrite H0, lookup_empty in E.
Qed.

Lemma remove_slot_lookup self r r' : slot_mapping (remove_slot self r) !! r' = if decide (r = r') then None else slot_mapping self !! r'.
Proof.
  unfold remove_slot. destruct (slot_mapping self !! r) as [s|] eqn:E; simpl; case_decide as Hd; subst; try done.
  - by rewrite lookup_delete_eq.
  - by rewrite lookup_delete_ne.
Qed.

Lemma remove_slot_max self r : max_num_requests (remove_slot self r) = max_num_requests self.
Proof. unfold remove_slot. by destruct (slot_mapping self !! r). Qed.

Lemma remove_slots rs self :
  slots_ok self ->
  let self' := foldl remove_slot self rs in
  slots_ok self' /\ max_num_requests self' = max_num_requests self
  /\ forall r, slot_mapping self' !! r = if decide (r ∈ rs) then None else slot_mapping self !! r.
Proof.
  revert self. induction rs as [|r0 rs IH]; intros self Hok; cbn [foldl].
  { split; [done|]. split; [done|]. intros r. case_decide as Hd; [by apply not_elem_of_nil in Hd|done]. }
  destruct (IH _ (remove_slot_ok self r0 Hok)) as (Hok' & Hm & Hl). split; [done|]. split; [by rewrite Hm, remove_slot_max|].
  intros r. rewrite Hl, remove_slot_lookup. repeat case_decide; set_solver.
Qed.

(** At the end every slot is free again and the assertion of [shutdown] holds. *)
Lemma shutdown_frees_all self : slots_ok self -> 0 <= max_num_requests self ->
  exists self', shutdown self = Ok self' /\ slot_mapping self' = ∅ /\ (forall s, s ∈ free_slots self' <-> 0 <= s < max_num_requests self).
Proof.
  intros Hok Hm. destruct (remove_slots (map_to_list (slot_mapping self)).*1 self Hok) as (Hok' & Hmax & Hl). unfold shutdown. cbv zeta.
  set (self' := foldl remove_slot self _) in *. assert (He : slot_mapping self' = ∅).
  { apply map_eq. intros r. rewrite Hl, lookup_empty. case_decide as Hd; [done|]. apply eq_None_not_Some. intros [s Hs].
    apply Hd, list_elem_of_fmap. exists (r, s). split; [done|]. by apply elem_of_map_to_list. }
  pose proof (so_count _ Hok') as Hc. rewrite He, map_size_empty, Hmax in Hc. simpl in Hc.
  rewrite He, map_size_empty, Hc, Hmax. simpl. rewrite Z2Nat.id, Z.eqb_refl by done. exists self'. split; [done|]. split; [done|].
  assert (Hsub : free_slots self' ⊆ (list_to_set (seqZ 0 (max_num_requests self)) : gset Z)).
  { intros s Hs. apply (so_free _ Hok') in Hs. apply elem_of_list_to_set, elem_of_seqZ. lia. }
  apply set_subseteq_size_eq in Hsub; [|rewrite size_list_to_set by apply NoDup_seqZ; rewrite length_seqZ; lia].
  intros s. rewrite Hsub, elem_of_list_to_set, elem_of_seqZ. lia.
Qed.

Section Prepare.
Context (pop : gset Z -> Z) (pop_in : forall s, s <> ∅ -> pop s ∈ s).

Lemma seq_add_slot_spec self r :
  slots_ok self ->
  match add_slot pop self r with
  | Ok (slot, self') => slots_ok self' /\ max_num_requests self' = max_num_requests self
      /\ slot_mapping self' = <[r := slot]> (slot_mapping self) /\ slot_mapping self ⊆ slot_mapping self'
      /\ (size (free_slots self) = size (free_slots self') + if slot_mapping self !! r is Some _ then 0 else 1)%nat
      /\ (is_Some (slot_mapping self !! r) -> r = CUDA_GRAPH_DUMMY_REQUEST_ID)
  | Err e => (e = AssertionError /\ r <> CUDA_GRAPH_DUMMY_REQUEST_ID /\ is_Some (slot_mapping self !! r))
             \/ (e = ValueError /\ slot_mapping self !! r = None /\ size (free_slots self) = 0%nat)
  end.
Proof.
  intros Hok. pose proof Hok as [Hi Hu Hf Hc]. unfold add_slot. destruct (slot_mapping self !! r) as [s|] eqn:E.
  - destruct (Z.eqb_spec r CUDA_GRAPH_DUMMY_REQUEST_ID) as [->|Hne]; simpl; [|left; eauto].
    split_and!; [done|done|by rewrite insert_id|done|lia|done].
  - destruct (Nat.eqb_spec (size (free_slots self)) 0) as [H0|Hne]; [by right|].
    assert (Hp : pop (free_slots self) ∈ free_slots self) by (apply pop_in; intros He; by rewrite He, size_empty in Hne).
    set (s := pop (free_slots self)) in *. assert (Hd : size (free_slots self ∖ {[s]}) = (size (free_slots self) - 1)%nat).
    { rewrite size_difference by set_solver. by rewrite size_singleton. }
    assert (Hout : forall r', slot_mapping self !! r' <> Some s) by (intros r' Hr'; by apply Hu in Hr' as [_ ?]).
    split; [|split_and!; [done|done|by apply insert_subseteq|simpl; lia|by intros [? ?]]]. split; cbn [slot_mapping free_slots max_num_requests].
    + intros r1 r2 s1 [[<- <-]|[_ H1]]%lookup_insert_Some [[<- H]|[_ H2]]%lookup_insert_Some; subst; try done; [by destruct (Hout r2)|by destruct (Hout r1)|by apply (Hi r1 r2 s1)].
    + intros r1 s1 [[<- <-]|[_ H1]]%lookup_insert_Some; [split; [by apply Hf|set_solver]|]. apply Hu in H1 as [? ?]. set_solver.
    + intros s1 [H1 _]%elem_of_difference. by apply Hf.
    + rewrite map_size_insert_None, Hd by done. lia.
Qed.

(** The request is as it was, but for the slot it is given. *)
Definition prepared (self : SlotManager) (r r' : SeqRequest) : Prop :=
  exists s, slot_mapping self !! request_id r = Some s /\ r' = if needs_slot r then with_slot r s else r.

Definition has_its_slot (self : SlotManager) (r : SeqRequest) : Prop :=
  is_disagg_generation_transmission_complete r = false -> forall s, seq_slot r = Some s -> slot_mapping self !! request_id r = Some s.

(** Why a request of the batch is turned down, whatever comes before it: the message for a
    request still to be transferred raises, and only the request that pads CUDA graphs may
    ask for a slot when it has one. *)
Definition refused (self : SlotManager) (r : SeqRequest) : option exn :=
  if is_disagg_generation_init_state r then Some NameError
  else if needs_slot r && bool_decide (is_Some (slot_mapping self !! request_id r)) && negb (request_id r =? CUDA_GRAPH_DUMMY_REQUEST_ID)
  then Some AssertionError else None.

(** Does the request take a slot out of the free ones? *)
Definition takes_slot (self : SlotManager) (r : SeqRequest) : bool :=
  needs_slot r && bool_decide (slot_mapping self !! request_id r = None).

Definition slots_taken (self : SlotManager) (reqs : list SeqRequest) : nat := length (filter (fun r => takes_slot self r = true) reqs).

Lemma slots_taken_snoc self pre r : slots_taken self (pre ++ [r]) = (slots_taken self pre + if takes_slot self r then 1 else 0)%nat.
Proof. unfold slots_taken. rewrite filter_app, length_app, filter_cons, filter_nil. f_equal. destruct (takes_slot self r); done. Qed.

(** What the loop over a batch has done after the requests [pre]. *)
Record so_far (self : SlotManager) (pre : list SeqRequest) (st : SlotManager * list SeqRequest) : Prop := {
  sf_ok : slots_ok st.1;
  sf_max : max_num_requests st.1 = max_num_requests self;
  sf_keep : slot_mapping self ⊆ slot_mapping st.1;
  sf_new : forall q, is_Some (slot_mapping st.1 !! q) -> is_Some (slot_mapping self !! q) \/ q ∈ request_id <$> pre;
  sf_done : Forall2 (prepared st.1) pre st.2;
  sf_fine : Forall (fun r => refused self r = None) pre;
  sf_free : (size (free_slots self) = size (free_slots st.1) + slots_taken self pre)%nat;
}.

Lemma prepared_mono self self' r r' : slot_mapping self ⊆ slot_mapping self' -> prepared self r r' -> prepared self' r r'.
Proof. intros Hs (s & Hl & ->). exists s. split; [by eapply lookup_weaken|done]. Qed.

Lemma prepared_slot self self' r r' : slot_mapping self ⊆ slot_mapping self' -> has_its_slot self r -> prepared self' r r' ->
  exists s, seq_slot r' = Some s /\ slot_mapping self' !! request_id r = Some s.
Proof.
  intros Hsub Hhas (s & Hs & ->). exists s. split; [|done]. destruct (needs_slot r) eqn:En; [done|].
  unfold needs_slot in En. apply orb_false_iff in En as [En Hc]. apply bool_decide_eq_false in En. destruct (seq_slot r) as [s'|] eqn:Es; [|done].
  pose proof (lookup_weaken _ _ _ _ (Hhas Hc s' Es) Hsub). congruence.
Qed.

(** A request that is not among those before has the slot it had at the start, or none. *)
Lemma so_far_lookup self pre r post st : NoDup (request_id <$> pre ++ r :: post) -> so_far self pre st ->
  is_Some (slot_mapping st.1 !! request_id r) <-> is_Some (slot_mapping self !! request_id r).
Proof.
  intros Hnd Hs. split.
  - intros [?|Hin]%(sf_new _ _ _ Hs); [done|]. rewrite fmap_app in Hnd. apply NoDup_app in Hnd as (_ & Hd & _).
    destruct (Hd _ Hin). simpl. set_solver.
  - intros [s Hl]. exists s. eapply lookup_weaken; [done|apply Hs].
Qed.

Lemma prepare_one self pre r post st :
  NoDup (request_id <$> pre ++ r :: post) -> has_its_slot self r -> so_far self pre st ->
  match prepare_request pop st r with
  | Ok st' => so_far self (pre ++ [r]) st'
  | Err e => refused self r = Some e
      \/ (refused self r = None /\ e = ValueError /\ takes_slot self r = true /\ size (free_slots self) = slots_taken self pre)
  end.
Proof.
  intros Hnd Hhas Hsf. pose proof (so_far_lookup self pre r post st Hnd Hsf) as Hsame.
  destruct st as [sm done]. destruct Hsf as [Hok Hmax Hkeep Hnew Hdone Hfine Hfree]. simpl in *.
  unfold prepare_request, refused. destruct (is_disagg_generation_init_state r) eqn:Ei; [by left|]. destruct (needs_slot r) eqn:En; cbn [andb].
  - pose proof (seq_add_slot_spec sm (request_id r) Hok) as Ha.
    assert (Htk : takes_slot self r = negb (bool_decide (is_Some (slot_mapping self !! request_id r)))).
    { unfold takes_slot. rewrite En. simpl. rewrite <- bool_decide_not. apply bool_decide_ext. apply eq_None_not_Some. }
    destruct (add_slot pop sm (request_id r)) as [[slot sm']|e]; simpl.
    + destruct Ha as (Hok' & Hmax' & Hmap & Hsub & Hfr & Hdup). split; simpl; [done|congruence|by etrans|..].
      * intros q. rewrite Hmap, fmap_app, elem_of_app. intros [s [[<- _]|[_ Hq]]%lookup_insert_Some]; [right; set_solver|].
        destruct (Hnew q) as [?|?]; [by exists s|by left|by right; left].
      * apply Forall2_app; [eapply Forall2_impl; [done|]; intros; by eapply prepared_mono|]. constructor; [|done].
        exists slot. rewrite En, Hmap, lookup_insert_eq. done.
      * apply Forall_app. split; [done|]. constructor; [|done]. unfold refused. rewrite Ei, En. simpl.
        case_bool_decide as Hin; [|done]. apply Hsame, Hdup in Hin. by rewrite (proj2 (Z.eqb_eq _ _) Hin).
      * rewrite slots_taken_snoc, Htk. destruct (slot_mapping sm !! request_id r) as [s|] eqn:El;
          [rewrite bool_decide_true by (apply Hsame; eauto)|rewrite bool_decide_false by (rewrite <- Hsame; by intros [? ?])]; simpl; lia.
    + destruct Ha as [(-> & Hd & His)|(-> & Hno & H0)].
      * left. rewrite bool_decide_true by (by apply Hsame). by rewrite (proj2 (Z.eqb_neq _ _) Hd).
      * right. rewrite Htk, bool_decide_false by (rewrite <- Hsame, Hno; by intros [? ?]). split_and!; try done. lia.
  - assert (Hs : exists s, slot_mapping sm !! request_id r = Some s).
    { unfold needs_slot in En. apply orb_false_iff in En as [En Hc]. apply bool_decide_eq_false in En. destruct (seq_slot r) as [s|] eqn:Es; [|done].
      exists s. eapply lookup_weaken; [by apply Hhas|done]. }
    split; simpl; try done.
    + intros q Hq. rewrite fmap_app, elem_of_app. destruct (Hnew q Hq); auto.
    + apply Forall2_app; [done|]. constructor; [|done]. destruct Hs as [s Hs]. exists s. by rewrite En.
    + apply Forall_app. split; [done|]. constructor; [|done]. unfold refused. by rewrite Ei, En.
    + rewrite slots_taken_snoc. unfold takes_slot. rewrite En. simpl. lia.
Qed.

(** A batch fails at its first request that is turned down or finds no slot left. *)
Definition prepare_error (self : SlotManager) (reqs : list SeqRequest) (e : exn) : Prop :=
  exists pre r post, reqs = pre ++ r :: post /\ Forall (fun r => refused self r = None) pre
    /\ (slots_taken self pre <= size (free_slots self))%nat
    /\ (refused self r = Some e
        \/ (refused self r = None /\ e = ValueError /\ takes_slot self r = true /\ size (free_slots self) = slots_taken self pre)).

Lemma prepare_loop self reqs :
  slots_ok self -> NoDup (request_id <$> reqs) -> Forall (has_its_slot self) reqs ->
  match prepare_resources pop self reqs with Ok st => so_far self reqs st | Err e => prepare_error self reqs e end.
Proof.
  intros Hok Hnd Hhas. apply for_each_cases; [split; simpl; try done; by left|].
  intros pre r post st Hl Hs. rewrite Hl in Hnd, Hhas. apply Forall_app in Hhas as [_ Hr%Forall_inv].
  pose proof (prepare_one self pre r post st Hnd Hr Hs) as Hp. destruct (prepare_request pop st r); [done|].
  exists pre, r, post. split_and!; [done|apply Hs| |done]. rewrite (sf_free _ _ _ Hs). lia.
Qed.

(** C27. When a batch is prepared, no request of it was to be refused, every request has a
    slot of its own within bounds, those that had one have it still, nobody outside the batch
    lost or gained one, and as many slots are taken as requests had none.  Otherwise it
    failed at the first request that is refused, because its cache is still to be
    transferred or because it has a slot and asks for a second one, or that finds no slot
    left; only the request that pads CUDA graphs may ask again. *)
Theorem seq_slots_prepared self reqs :
  slots_ok self -> NoDup (request_id <$> reqs) -> Forall (has_its_slot self) reqs ->
  match prepare_resources pop self reqs with
  | Ok (self', reqs') =>
      Forall (fun r => refused self r = None) reqs
      /\ (size (free_slots self) = size (free_slots self') + slots_taken self reqs)%nat
      /\ slots_ok self' /\ max_num_requests self' = max_num_requests self /\ slot_mapping self ⊆ slot_mapping self'
      /\ (forall q, is_Some (slot_mapping self' !! q) -> is_Some (slot_mapping self !! q) \/ q ∈ request_id <$> reqs)
      /\ Forall2 (prepared self') reqs reqs'
      /\ (forall r, r ∈ reqs' -> exists s, seq_slot r = Some s /\ 0 <= s < max_num_requests self)
      /\ (forall (i j : nat) r1 r2, reqs' !! i = Some r1 -> reqs' !! j = Some r2 -> seq_slot r1 = seq_slot r2 -> i = j)
  | Err e => prepare_error self reqs e
  end.
Proof.
  intros Hok Hnd Hhas. pose proof (prepare_loop self reqs Hok Hnd Hhas) as H.
  destruct (prepare_resources pop self reqs) as [[self' reqs']|e]; [|done]. destruct H as [Hok' Hmax Hsub Hnew Hdone Hfine Hfree]. simpl in *.
  assert (Hslot : forall (i : nat) r', reqs' !! i = Some r' -> exists r s, reqs !! i = Some r /\ seq_slot r' = Some s /\ slot_mapping self' !! request_id r = Some s).
  { intros i r' Hi. destruct (Forall2_lookup_r _ _ _ _ _ Hdone Hi) as (r & Hr & Hp). rewrite Forall_lookup in Hhas.
    destruct (prepared_slot self self' r r' Hsub (Hhas i r Hr) Hp) as (s & ? & ?). eauto. }
  split_and!; try done.
  - intros r [i Hi]%list_elem_of_lookup. destruct (Hslot i r Hi) as (r0 & s & _ & Hs & Hm). exists s. split; [done|].
    rewrite <- Hmax. by eapply so_used.
  - intros i j r1 r2 Hi Hj He. destruct (Hslot i r1 Hi) as (q1 & s & Hq1 & Hs & Hm). destruct (Hslot j r2 Hj) as (q2 & s' & Hq2 & Hs' & Hm').
    assert (s' = s) as -> by congruence. pose proof (so_inj _ Hok' _ _ _ Hm Hm') as Hid.
    apply (NoDup_lookup _ _ _ (request_id q1) Hnd); rewrite list_lookup_fmap; [by rewrite Hq1|by rewrite Hq2, Hid].
Qed.
End Prepare.

Definition least (s : gset Z) : Z := default 0 (head (elements s)).

Lemma least_in s : s <> ∅ -> least s ∈ s.
Proof.
  intros Hs. unfold least. destruct (elements s) as [|x l] eqn:E; [by apply elements_empty_inv, leibniz_equiv in E|].
  simpl. apply elem_of_elements. rewrite E. set_solver.
Qed.

Definition plain (r : Z) : SeqRequest := mkSeqRequest r None None false false true false.

Lemma seq_slots_prepared_witness :
  match prepare_resources least (SlotManager_init 3) [plain 5; plain 8] with
  | Ok (self', reqs') => slots_ok self' /\ forall (i j : nat) r1 r2, reqs' !! i = Some r1 -> reqs' !! j = Some r2 -> seq_slot r1 = seq_slot r2 -> i = j
  | Err _ => False
  end.
Proof.
  assert (Hnd : NoDup (request_id <$> [plain 5; plain 8])) by (apply (bool_decide_unpack _); by vm_compute).
  assert (Hhas : Forall (has_its_slot (SlotManager_init 3)) [plain 5; plain 8]) by (repeat constructor; by intros _ s Hs).
  pose proof (seq_slots_prepared least least_in (SlotManager_init 3) [plain 5; plain 8] (init_slots_ok 3) Hnd Hhas) as H.
  destruct (prepare_resources least (SlotManager_init 3) [plain 5; plain 8]) as [[self' reqs']|e] eqn:E; [|vm_compute in E; congruence].
  split; apply H.
Defined.

End SlotManager.

Module AdapterSlots.

Record AdapterSlotManager := mkAdapterSlotManager {
  max_num_adapters : Z;
  slot2task : list (option Z);
  task2slot : list (Z * Z);
  slots_changed : bool;
}.

Definition AdapterSlotManager_init (max_num_adapters : Z) : AdapterSlotManager :=
  mkAdapterSlotManager max_num_adapters (replicate (Z.to_nat max_num_adapters) None) [] false.

Definition find_free_slot (self : AdapterSlotManager) : result Z :=
  match list_find (fun x => x = None) (slot2task self) with Some (i, _) => Ok (Z.of_nat i) | None => Err ValueError end.

Definition remove_task (self : AdapterSlotManager) (task_id : Z) : result (option Z * AdapterSlotManager) :=
  match od_get (task2slot self) task_id with
  | Some slot_id =>
      slots ← py_set (slot2task self) slot_id None;
      Ok (Some slot_id, mkAdapterSlotManager (max_num_adapters self) slots (od_del (task2slot self) task_id) true)
  | None => Ok (None, self)
  end.

Definition get_or_assign_task (self : AdapterSlotManager) (task_id : Z) : result (Z * option Z * AdapterSlotManager) :=
  '(evicted_task, self) ←
    match od_get (task2slot self) task_id with
    | Some slot =>
        Ok (None, mkAdapterSlotManager (max_num_adapters self) (slot2task self) (od_del (task2slot self) task_id ++ [(task_id, slot)]) (slots_changed self))
    | None =>
        if len (task2slot self) <? max_num_adapters self then
          free_slot ← find_free_slot self;
          slots ← py_set (slot2task self) free_slot (Some task_id);
          Ok (None, mkAdapterSlotManager (max_num_adapters self) slots (task2slot self ++ [(task_id, free_slot)]) true)
        else
          match task2slot self with
          | [] => Err KeyError
          | (evicted_task, evicted_slot) :: rest =>
              slots ← py_set (slot2task self) evicted_slot (Some task_id);
              Ok (Some evicted_task, mkAdapterSlotManager (max_num_adapters self) slots (rest ++ [(task_id, evicted_slot)]) true)
          end
    end;
  match od_get (task2slot self) task_id with Some slot => Ok (slot, evicted_task, self) | None => Err KeyError end.

Section Cache.
(** [peft_cache_manager.is_task_cached_device] *)
Variable is_task_cached_device : Z -> bool.

(** The loop reads the list that [remove_task] changes. *)
Definition drop_if_uncached (self : AdapterSlotManager) (i : Z) : result AdapterSlotManager :=
  task ← py_get (slot2task self) i;
  match task with
  | Some task_id => if is_task_cached_device task_id then Ok self else '(_, self) ← remove_task self task_id; Ok self
  | None => Ok self
  end.

Definition remove_evicted_slots_in_cpp (self : AdapterSlotManager) : result AdapterSlotManager :=
  for_each drop_if_uncached self (seqZ 0 (len (slot2task self))).

Definition assign_slot (st : AdapterSlotManager * list Z) (task : option Z) : result (AdapterSlotManager * list Z) :=
  let '(self, slots) := st in
  match task with
  | None => Ok (self, slots ++ [max_num_adapters self])
  | Some t => '(slot, _, self) ← get_or_assign_task self t; Ok (self, slots ++ [slot])
  end.

Definition unique_tasks (tasks : list (option Z)) : gset Z := list_to_set (omap id tasks).

Definition update_slots (self : AdapterSlotManager) (tasks : list (option Z)) : result (AdapterSlotManager * list Z) :=
  self ← remove_evicted_slots_in_cpp self;
  _ ← py_assert (Z.of_nat (size (unique_tasks tasks)) <=? max_num_adapters self);
  for_each assign_slot (self, []) tasks.

End Cache.

(** *** The two tables agree *)

Record adapters_ok (self : AdapterSlotManager) : Prop := {
  ao_max : 0 <= max_num_adapters self;
  ao_len : length (slot2task self) = Z.to_nat (max_num_adapters self);
  ao_keys : NoDup (task2slot self).*1;
  ao_slots : forall t s, (t, s) ∈ task2slot self <-> exists k : nat, s = Z.of_nat k /\ slot2task self !! k = Some (Some t);
}.

Lemma slot_of_one self t t' s : adapters_ok self -> (t, s) ∈ task2slot self -> (t', s) ∈ task2slot self -> t = t'.
Proof. intros Hok (k & -> & Hk)%(ao_slots _ Hok) (k' & He & Hk')%(ao_slots _ Hok). replace k' with k in Hk' by lia. congruence. Qed.

Lemma task_of_one self t s s' : adapters_ok self -> (t, s) ∈ task2slot self -> (t, s') ∈ task2slot self -> s = s'.
Proof. intros Hok Hs Hs'. apply (od_get_Some _ _ _ (ao_keys _ Hok)) in Hs, Hs'. congruence. Qed.

(** A slot gets a task; the task it had, if any, is in [d] no more. *)
Lemma put_task self d k t c :
  adapters_ok self -> (k < length (slot2task self))%nat -> NoDup d.*1 -> (t ∉ d.*1) ->
  (forall p, p ∈ d <-> p ∈ task2slot self /\ p.2 <> Z.of_nat k) ->
  adapters_ok (mkAdapterSlotManager (max_num_adapters self) (<[k := Some t]> (slot2task self)) (d ++ [(t, Z.of_nat k)]) c).
Proof.
  intros [Hm Hl Hk Hs] Hlt Hnd Hno Hd. split; simpl; [done|by rewrite length_insert|..].
  - rewrite fmap_app. apply NoDup_app. split; [done|]. split; [|apply NoDup_singleton]. intros x Hx ->%list_elem_of_singleton. done.
  - intros t' s. rewrite elem_of_app, list_elem_of_singleton, Hd, Hs. simpl. split.
    + intros [[(k' & -> & Hk') Hne]|[= -> ->]]; [exists k'; split; [done|]; rewrite list_lookup_insert_ne by (intros ->; done); done|].
      exists k. split; [done|]. by apply list_lookup_insert_eq.
    + intros (k' & -> & Hk'). destruct (decide (k' = k)) as [->|Hne]; [rewrite list_lookup_insert_eq in Hk' by done; right; congruence|].
      rewrite list_lookup_insert_ne in Hk' by done. left. split; [eauto|lia].
Qed.

Lemma remove_task_spec self t :
  adapters_ok self ->
  exists o self', remove_task self t = Ok (o, self') /\ adapters_ok self' /\ max_num_adapters self' = max_num_adapters self
    /\ (forall k t', slot2task self' !! k = Some (Some t') <-> t' <> t /\ slot2task self !! k = Some (Some t'))
    /\ (slots_changed self' = false -> self' = self).
Proof.
  intros Hok. pose proof Hok as [Hm Hl Hk Hs]. unfold remove_task. destruct (od_get (task2slot self) t) as [s|] eqn:E.
  - apply od_get_Some, Hs in E as (k & -> & E); [|done]. rewrite py_set_nat by (by eapply lookup_lt_Some). simpl.
    assert (Hsl : forall k' t', <[k := None]> (slot2task self) !! k' = Some (Some t') <-> t' <> t /\ slot2task self !! k' = Some (Some t')).
    { intros k' t'. destruct (decide (k' = k)) as [->|Hne].
      - rewrite list_lookup_insert_eq by (by eapply lookup_lt_Some). split; [done|]. intros [Hne He]. congruence.
      - rewrite list_lookup_insert_ne by done. split; [|by intros [_ ?]]. intros Ht. split; [|done]. intros ->.
        assert (Z.of_nat k' = Z.of_nat k); [|lia]. apply (task_of_one self t); [done|apply Hs; eauto..]. }
    eexists _, _. split; [done|]. split; [split; simpl; [done|by rewrite length_insert|by apply od_del_keys|]|split_and!; [done|done|done]].
    intros t' s. rewrite elem_of_od_del, Hs. setoid_rewrite Hsl. naive_solver.
  - apply od_get_None in E. eexists _, _. split; [done|]. split_and!; try done. intros k t'. split; [|by intros [_ ?]].
    intros Ht. split; [|done]. intros ->. apply E, list_elem_of_fmap. exists (t, Z.of_nat k). split; [done|]. apply Hs. eauto.
Qed.

Lemma evicted_slots_removed cached self :
  adapters_ok self ->
  exists self', remove_evicted_slots_in_cpp cached self = Ok self' /\ adapters_ok self' /\ max_num_adapters self' = max_num_adapters self
    /\ (forall k t, slot2task self' !! k = Some (Some t) <-> slot2task self !! k = Some (Some t) /\ cached t = true)
    /\ (slots_changed self' = false -> self' = self).
Proof.
  intros Hok. unfold remove_evicted_slots_in_cpp.
  destruct (for_range (drop_if_uncached cached) (fun n s => adapters_ok s /\ max_num_adapters s = max_num_adapters self
    /\ (forall k t, slot2task s !! k = Some (Some t) -> slot2task self !! k = Some (Some t) /\ ((k < n)%nat -> cached t = true))
    /\ (forall k t, slot2task self !! k = Some (Some t) -> cached t = true -> slot2task s !! k = Some (Some t))
    /\ (slots_changed s = false -> s = self)) (length (slot2task self)) self) as (s & Hr & Hok' & Hm & Hs & Hkeep & Hc).
  - split_and!; try done. intros k t Hk. split; [done|lia].
  - intros n s Hn (Hok' & Hm & Hs & Hkeep & Hc). unfold drop_if_uncached.
    destruct (lookup_lt_is_Some_2 (slot2task s) n) as [x Hx]; [rewrite (ao_len _ Hok'), Hm, <- (ao_len _ Hok); done|].
    rewrite (py_get_nat _ _ _ Hx). simpl.
    assert (Hstep : forall k t, slot2task s !! k = Some (Some t) -> (k = n -> cached t = true) ->
      slot2task self !! k = Some (Some t) /\ ((k < S n)%nat -> cached t = true)).
    { intros k t Hk Hkn. destruct (Hs k t Hk) as [? Hc']. split; [done|]. intros Hlt. destruct (decide (k = n)); [by apply Hkn|apply Hc'; lia]. }
    destruct x as [t|]; [destruct (cached t) eqn:Ec|].
    + eexists. split; [done|]. split_and!; try done. intros k t' Hk. apply Hstep; [done|]. intros ->. congruence.
    + destruct (remove_task_spec s t Hok') as (o & s' & -> & Hok'' & Hm' & Hs' & Hc'). eexists. split; [done|]. split_and!; try done.
      * congruence.
      * intros k t' [Hne Hk]%Hs'. apply Hstep; [done|]. intros ->. congruence.
      * intros k t' Hk Ht'. apply Hs'. split; [congruence|by apply Hkeep].
      * intros Hf. rewrite (Hc' Hf). apply Hc. by rewrite <- (Hc' Hf).
    + eexists. split; [done|]. split_and!; try done. intros k t' Hk. apply Hstep; [done|]. intros ->. congruence.
  - exists s. split_and!; try done. intros k t. split; [|by intros [? ?]; apply Hkeep]. intros Hk. destruct (Hs k t Hk) as [H1 H2].
    split; [done|]. apply H2. by eapply lookup_lt_Some.
Qed.

(** A table that is not full has an empty slot. *)
Lemma free_slot_found self : adapters_ok self -> len (task2slot self) < max_num_adapters self ->
  exists k, find_free_slot self = Ok (Z.of_nat k) /\ slot2task self !! k = Some None.
Proof.
  intros Hok Hlt. unfold find_free_slot. destruct (list_find (fun x => x = None) (slot2task self)) as [[k x]|] eqn:E.
  - apply list_find_Some in E as (Hk & -> & _). eauto.
  - apply list_find_None in E. rewrite Forall_lookup in E. exfalso.
    assert (Hsub : seqZ 0 (max_num_adapters self) ⊆ (task2slot self).*2).
    { intros s Hs%elem_of_seqZ. destruct (lookup_lt_is_Some_2 (slot2task self) (Z.to_nat s)) as [[t|] Hx]; [rewrite (ao_len _ Hok); lia|..].
      - apply list_elem_of_fmap. exists (t, s). split; [done|]. apply (ao_slots _ Hok). exists (Z.to_nat s). split; [lia|done].
      - by destruct (E _ _ Hx). }
    apply NoDup_submseteq in Hsub; [|apply NoDup_seqZ]. apply submseteq_length in Hsub. rewrite length_seqZ, length_fmap in Hsub. lia.
Qed.

(** What is left of the order of the tasks when [t] goes to its end. *)
Definition others (self : AdapterSlotManager) (t : Z) : list (Z * Z) :=
  if decide (t ∈ (task2slot self).*1) then od_del (task2slot self) t
  else if len (task2slot self) <? max_num_adapters self then task2slot self else tail (task2slot self).

Lemma get_or_assign_spec self t :
  adapters_ok self -> 0 < max_num_adapters self ->
  exists slot evicted self', get_or_assign_task self t = Ok (slot, evicted, self') /\ adapters_ok self'
    /\ max_num_adapters self' = max_num_adapters self /\ task2slot self' = others self t ++ [(t, slot)]
    /\ (forall s, (t, s) ∈ task2slot self -> slot = s)
    /\ (slots_changed self' = false -> slots_changed self = false /\ slot2task self' = slot2task self).
Proof.
  intros Hok Hpos. pose proof Hok as [Hm Hl Hk Hs]. unfold get_or_assign_task, others.
  assert (Hend : forall self' slot (ev : option Z), adapters_ok self' -> (t, slot) ∈ task2slot self' ->
    match od_get (task2slot self') t with Some slot => Ok (slot, ev, self') | None => Err KeyError end = Ok (slot, ev, self')).
  { intros self' slot ev Hok' Hin. apply (od_get_Some _ _ _ (ao_keys _ Hok')) in Hin. by rewrite Hin. }
  destruct (od_get (task2slot self) t) as [s|] eqn:E.
  - apply od_get_Some in E; [|done]. rewrite decide_True by (apply list_elem_of_fmap; by exists (t, s)). simpl.
    assert (Hok' : adapters_ok (mkAdapterSlotManager (max_num_adapters self) (slot2task self) (od_del (task2slot self) t ++ [(t, s)]) (slots_changed self))).
    { split; simpl; try done.
      - rewrite fmap_app. apply NoDup_app. split; [by apply od_del_keys|]. split; [|apply NoDup_singleton].
        intros x Hx ->%list_elem_of_singleton. by apply od_del_not_in in Hx.
      - intros t' s'. rewrite <- Hs, elem_of_app, elem_of_od_del, list_elem_of_singleton. simpl. split; [naive_solver|].
        intros Hin. destruct (decide (t' = t)) as [->|Hne]; [right|by left]. f_equal. by apply (task_of_one self t). }
    exists s, None. eexists. split; [apply (Hend _ s None Hok'); simpl; set_solver|]. split_and!; try done.
    intros s' Hs'. by apply (task_of_one self t).
  - apply od_get_None in E. rewrite decide_False by done. destruct (Z.ltb_spec (len (task2slot self)) (max_num_adapters self)) as [Hlt|Hge].
    + destruct (free_slot_found self Hok Hlt) as (k & -> & Hx). simpl. pose proof (lookup_lt_Some _ _ _ Hx) as Hkl. rewrite py_set_nat by done. simpl.
      unshelve epose proof (put_task self (task2slot self) k t true Hok Hkl Hk E _) as Hok'.
      { intros [t' s']. split; [|by intros [? _]]. intros Hin. split; [done|]. simpl. intros ->. apply Hs in Hin as (k' & He & Hk').
        replace k' with k in Hk' by lia. congruence. }
      exists (Z.of_nat k), None. eexists. split; [apply (Hend _ (Z.of_nat k) None Hok'); simpl; set_solver|]. split_and!; try done.
      intros s Hin. destruct E. apply list_elem_of_fmap. by exists (t, s).
    + destruct (task2slot self) as [|[e se] rest] eqn:Ed; [simpl in Hge; lia|]. simpl in E, Hk.
      assert (Hse : exists k : nat, se = Z.of_nat k /\ slot2task self !! k = Some (Some e)) by (apply Hs; set_solver). destruct Hse as (k & -> & Hx).
      pose proof (lookup_lt_Some _ _ _ Hx) as Hkl. rewrite py_set_nat by done. simpl. apply NoDup_cons in Hk as [He Hnd].
      assert (Hnr : t ∉ rest.*1) by set_solver. unshelve epose proof (put_task self rest k t true Hok Hkl Hnd Hnr _) as Hok'.
      { rewrite Ed. intros [t' s']. simpl. rewrite elem_of_cons. split; [|by intros [[[= -> ->]|Hin] Hne]].
        intros Hin. split; [by right|]. intros ->. apply He, list_elem_of_fmap. exists (t', Z.of_nat k). split; [|done].
        apply (slot_of_one self e t' (Z.of_nat k)); [done|rewrite Ed; set_solver..]. }
      exists (Z.of_nat k), (Some e). eexists. split; [apply (Hend _ (Z.of_nat k) (Some e) Hok'); simpl; set_solver|]. split_and!; try done.
      intros s Hin. destruct E. apply (list_elem_of_fmap_2 fst) in Hin. done.
Qed.

Lemma unique_tasks_in tasks t : t ∈ unique_tasks tasks <-> Some t ∈ tasks.
Proof. unfold unique_tasks. rewrite elem_of_list_to_set, list_elem_of_omap. split; [intros (x & Hx & He); unfold id in He; by subst x|intros Ht; by exists (Some t)]. Qed.

(** The tasks of the batch so far are the last in the order. *)
Definition recently_used (self : AdapterSlotManager) (old recent : list (Z * Z)) (pre : list (option Z)) : Prop :=
  task2slot self = old ++ recent /\ forall t, t ∈ recent.*1 <-> Some t ∈ pre.

(** A task that comes to a full table does not take the slot of another one of the batch. *)
Lemma others_recent self old recent pre t post :
  adapters_ok self -> recently_used self old recent pre ->
  Z.of_nat (size (unique_tasks (pre ++ Some t :: post))) <= max_num_adapters self ->
  exists old' recent', others self t = old' ++ recent' /\ (old' ⊆ old) /\ forall p, p ∈ recent' <-> p ∈ recent /\ p.1 <> t.
Proof.
  intros Hok [Hd Hr] Hu. unfold others. rewrite Hd in *. case_decide as Hin.
  - exists (od_del old t), (od_del recent t). split; [apply filter_app|]. split; [intros p [_ ?]%elem_of_od_del; done|].
    intros p. rewrite elem_of_od_del. tauto.
  - assert (Hno : forall p, p ∈ recent -> p.1 <> t). { intros p Hp <-. apply Hin. rewrite fmap_app. apply elem_of_app. right. by apply list_elem_of_fmap_2. }
    destruct (Z.ltb_spec (len (old ++ recent)) (max_num_adapters self)) as [Hlt|Hge].
    { exists old, recent. split_and!; try done. naive_solver. }
    destruct old as [|x old]; [|exists old, recent; split_and!; [done|set_solver|naive_solver]].
    exfalso. simpl in Hd, Hge, Hin. pose proof (ao_keys _ Hok) as Hnd. rewrite Hd in Hnd.
    assert (Hsub : t :: recent.*1 ⊆+ elements (unique_tasks (pre ++ Some t :: post))).
    { apply NoDup_submseteq; [by apply NoDup_cons|]. intros y Hy. rewrite elem_of_elements, unique_tasks_in, elem_of_app, elem_of_cons.
      apply elem_of_cons in Hy as [->|Hy%Hr]; [by right; left|by left]. }
    apply submseteq_length in Hsub. simpl in Hsub. rewrite length_fmap in Hsub. unfold size, set_size in Hu. simpl in Hu. lia.
Qed.

Definition slot_given (self : AdapterSlotManager) (task : option Z) (slot : Z) : Prop :=
  match task with None => slot = max_num_adapters self | Some t => (t, slot) ∈ task2slot self end.

(** The state of the loop of [update_slots]. *)
Record assigning (self : AdapterSlotManager) (pre : list (option Z)) (st : AdapterSlotManager * list Z) : Prop := {
  as_ok : adapters_ok st.1;
  as_max : max_num_adapters st.1 = max_num_adapters self;
  as_out : Forall2 (slot_given st.1) pre st.2;
  as_recent : exists old recent, recently_used st.1 old recent pre;
  as_from : forall p, p ∈ task2slot st.1 -> p ∈ task2slot self \/ Some p.1 ∈ pre;
  as_changed : slots_changed st.1 = false -> slots_changed self = false /\ slot2task st.1 = slot2task self;
}.

Lemma assign_one self pre task post st :
  Z.of_nat (size (unique_tasks (pre ++ task :: post))) <= max_num_adapters self -> assigning self pre st ->
  exists st', assign_slot st task = Ok st' /\ assigning self (pre ++ [task]) st'.
Proof.
  destruct st as [s out]. intros Hu [Hok Hmax Hout (old & recent & Hrec) Hfrom Hch]. simpl in *. destruct task as [t|]; simpl.
  - rewrite <- Hmax in Hu. assert (Hpos : 0 < max_num_adapters s).
    { assert (size (unique_tasks (pre ++ Some t :: post)) <> 0%nat); [|lia]. apply size_non_empty_iff. intros He.
      apply (not_elem_of_empty (C := gset Z) t). rewrite <- He. apply unique_tasks_in. set_solver. }
    destruct (others_recent s old recent pre t post Hok Hrec Hu) as (old' & recent' & Ho & Hold & Hrec').
    destruct (get_or_assign_spec s t Hok Hpos) as (slot & ev & s' & -> & Hok' & Hm' & Ht & Hsame & Hch'). rewrite Ho in Ht. simpl.
    destruct Hrec as [Hd Hr]. eexists. split; [done|]. split; simpl; [done|congruence|..].
    + apply Forall2_app; [|constructor; [|done]; simpl; rewrite Ht; set_solver]. apply Forall2_same_length_lookup_2; [by eapply Forall2_length|].
      intros i task' slot' Hi Hi'. pose proof (Forall2_lookup_lr _ _ _ _ _ _ Hout Hi Hi') as Hg.
      destruct task' as [t'|]; simpl in *; [|congruence].
      destruct (decide (t' = t)) as [->|Hne]; [rewrite (Hsame _ Hg) in Ht; rewrite Ht; set_solver|].
      assert (Hrt : t' ∈ recent.*1) by (apply Hr; by eapply list_elem_of_lookup_2). apply list_elem_of_fmap in Hrt as ([t2 s2] & -> & Hp).
      assert (s2 = slot') as -> by (apply (task_of_one s t2); [done|rewrite Hd; set_solver|done]).
      rewrite Ht. apply elem_of_app. left. apply elem_of_app. right. by apply Hrec'.
    + exists old', (recent' ++ [(t, slot)]). split; [by rewrite Ht, app_assoc|]. intros t'. rewrite fmap_app, !elem_of_app, <- Hr. simpl.
      rewrite !list_elem_of_singleton, !list_elem_of_fmap. setoid_rewrite Hrec'. split; [naive_solver|].
      intros [(p & -> & Hp)|[= ->]]; [|by right]. destruct (decide (p.1 = t)); [by right|left; eauto].
    + intros p. rewrite Ht, !elem_of_app, !list_elem_of_singleton. intros [[Hp|Hp]| ->]; [| |by right; right].
      * destruct (Hfrom p) as [?|?]; [rewrite Hd; set_solver|by left|by right; left].
      * apply Hrec' in Hp as [Hp _]. destruct (Hfrom p) as [?|?]; [rewrite Hd; set_solver|by left|by right; left].
    + intros Hf. destruct (Hch' Hf) as [Hf' ->]. by apply Hch.
  - eexists. split; [done|]. split; simpl; try done.
    + apply Forall2_app; [done|]. by constructor.
    + exists old, recent. destruct Hrec as [Hd Hr]. split; [done|]. intros t. rewrite Hr. set_solver.
    + intros p Hp. destruct (Hfrom p Hp); set_solver.
Qed.

(** C16. When [update_slots] returns, every request of the batch has the slot that holds its
    adapter, whatever was evicted for the requests after it, and requests without an
    adapter have the number of slots.  The tables agree, a slot holds a task that the C++
    cache has or that the batch asks for, and unless the change flag is set the slots are
    as they were.  It raises if and only if the batch has more adapters than slots. *)
Theorem lora_slots_hold cached self tasks :
  adapters_ok self ->
  match update_slots cached self tasks with
  | Ok (self', slots) =>
      adapters_ok self' /\ max_num_adapters self' = max_num_adapters self
      /\ Z.of_nat (size (unique_tasks tasks)) <= max_num_adapters self
      /\ Forall2 (fun task slot => match task with
           | None => slot = max_num_adapters self
           | Some t => exists k : nat, slot = Z.of_nat k /\ slot2task self' !! k = Some (Some t)
           end) tasks slots
      /\ (forall k t, slot2task self' !! k = Some (Some t) -> cached t = true \/ Some t ∈ tasks)
      /\ (slots_changed self' = false -> slot2task self' = slot2task self)
  | Err e => e = AssertionError /\ max_num_adapters self < Z.of_nat (size (unique_tasks tasks))
  end.
Proof.
  intros Hok. unfold update_slots. destruct (evicted_slots_removed cached self Hok) as (s & -> & Hok' & Hm & Hs & Hc). cbn [mbind result_bind].
  rewrite Hm. destruct (Z.leb_spec (Z.of_nat (size (unique_tasks tasks))) (max_num_adapters self)) as [Hle|Hgt]; simpl; [|done].
  destruct (for_each_prefix_total assign_slot (assigning s) tasks (s, [])) as ([s' slots] & -> & Ha).
  - split; simpl; try done; [exists (task2slot s), []; split; [by rewrite app_nil_r|set_solver]|auto].
  - intros pre x post st Hl Hst. eapply assign_one; [rewrite <- Hl, Hm; exact Hle|done].
  - destruct Ha as [Hok2 Hm2 Hout _ Hfrom Hch]. simpl in *. split_and!; [done|congruence|done|..].
    + eapply Forall2_impl; [done|]. intros [t|] slot; simpl; [apply Hok2|congruence].
    + intros k t Hk. assert (Hin : (t, Z.of_nat k) ∈ task2slot s') by (apply Hok2; eauto). destruct (Hfrom _ Hin) as [Hold|?]; [|by right].
      apply (ao_slots _ Hok') in Hold as (k' & He & Hk'). left. assert (k' = k) as -> by lia. by apply Hs in Hk' as [_ ?].
    + intros Hf. destruct (Hch Hf) as [Hf' ->]. by rewrite (Hc Hf').
Qed.

(** Two slots, with the tasks 5 and 6; the batch asks for 6, for none, for 7 and for 6. *)
Definition two_slots : AdapterSlotManager := mkAdapterSlotManager 2 [Some 6; Some 5] [(6, 0); (5, 1)] false.

Lemma two_slots_ok : adapters_ok two_slots.
Proof.
  split; [done|done|apply (bool_decide_unpack _); by vm_compute|]. intros t s. simpl. rewrite !elem_of_cons, elem_of_nil. split.
  - intros [[= -> ->]|[[= -> ->]|[]]]; [by exists 0%nat|by exists 1%nat].
  - intros ([|[|k]] & -> & [= <-]); auto.
Qed.

Lemma lora_slots_hold_witness :
  match update_slots (fun _ => true) two_slots [Some 6; None; Some 7; Some 6] with
  | Ok (self', slots) => adapters_ok self' /\ slots = [0; 2; 1; 0]
  | Err _ => False
  end.
Proof.
  pose proof (lora_slots_hold (fun _ => true) two_slots [Some 6; None; Some 7; Some 6] two_slots_ok) as H.
  destruct (update_slots _ two_slots _) as [[s slots]|e] eqn:E; [|vm_compute in E; congruence].
  split; [apply H|]. vm_compute in E. congruence.
Defined.

End AdapterSlots.

Module BlockManager.

Record BlockManager := mkBlockManager {
  num_blocks : Z;
  tokens_per_block : Z;
  block_ids : gmap Z (list Z);
  num_sequences : gmap Z Z;
  free_blocks : list Z;
}.

Definition BlockManager_init (num_blocks tokens_per_block : Z) : BlockManager :=
  mkBlockManager num_blocks tokens_per_block ∅ ∅ (seqZ 0 num_blocks).

Definition compute_block_count (token_count tokens_per_page : Z) : result Z := pydiv (token_count + tokens_per_page - 1) tokens_per_page.

Definition with_count (self : BlockManager) (r n : Z) : BlockManager :=
  mkBlockManager (num_blocks self) (tokens_per_block self) (block_ids self) (<[r := n]> (num_sequences self)) (free_blocks self).
Definition with_ids (self : BlockManager) (r : Z) (ids free : list Z) : BlockManager :=
  mkBlockManager (num_blocks self) (tokens_per_block self) (<[r := ids]> (block_ids self)) (num_sequences self) free.

Definition _allocate_blocks (self : BlockManager) (block_count : Z) : result (list Z * list Z) :=
  _ ← py_assert (block_count <=? len (free_blocks self));
  Ok (take (Z.to_nat block_count) (free_blocks self), drop (Z.to_nat block_count) (free_blocks self)).

(** The manager that is left, and whether the call raised. *)
Definition add_tokens (self : BlockManager) (request_id num_tokens : Z) : BlockManager * result unit :=
  if 0 <? num_tokens then
    match (match block_ids self !! request_id, num_sequences self !! request_id with
           | None, _ => Ok (with_count (with_ids self request_id [] (free_blocks self)) request_id num_tokens, [], num_tokens)
           | Some _, None => Err KeyError
           | Some ids, Some n => Ok (with_count self request_id (n + num_tokens), ids, n + num_tokens)
           end) with
    | Err e => (self, Err e)
    | Ok (self, ids, n) =>
        match compute_block_count n (tokens_per_block self) with
        | Err e => (self, Err e)
        | Ok block_count_needed =>
            if len ids <? block_count_needed then
              match _allocate_blocks self (block_count_needed - len ids) with
              | Err e => (self, Err e)
              | Ok (new_blocks, free) => (with_ids self request_id (ids ++ new_blocks) free, Ok ())
              end
            else (self, Ok ())
        end
    end
  else (self, Ok ()).

Definition free_resources (self : BlockManager) (request_id : Z) : result BlockManager :=
  match block_ids self !! request_id, num_sequences self !! request_id with
  | Some ids, Some _ =>
      Ok (mkBlockManager (num_blocks self) (tokens_per_block self) (delete request_id (block_ids self))
            (delete request_id (num_sequences self)) (free_blocks self ++ ids))
  | _, _ => Err KeyError
  end.

Definition rewind_cache (self : BlockManager) (request_id rewind_len : Z) : result BlockManager :=
  if rewind_len =? 0 then Ok self
  else
    match num_sequences self !! request_id with
    | None => Err KeyError
    | Some n =>
        let self := with_count self request_id (n - rewind_len) in
        let updated_token_num := Z.max (n - rewind_len) 0 in
        block_count_needed ← compute_block_count updated_token_num (tokens_per_block self);
        match block_ids self !! request_id with
        | None => Err KeyError
        | Some ids =>
            let num_rewind_pages := len ids - block_count_needed in
            if 0 <? num_rewind_pages then
              let k := (length ids - Z.to_nat num_rewind_pages)%nat in
              Ok (with_ids self request_id (take k ids) (free_blocks self ++ drop k ids))
            else Ok self
        end
    end.

(** The rows of the tensor that are written. *)
Definition copy_block_offsets (self : BlockManager) (request_ids : list Z) (block_offsets : list (list Z)) : result (list (list Z)) :=
  for_each (fun rows '(i, request_id) =>
      match block_ids self !! request_id with
      | None => Err KeyError
      | Some ids =>
          row ← py_get rows i;
          offsets ← mapM (py_get (seqZ 0 (num_blocks self))) ids;
          if len ids <=? len row then py_set rows i (offsets ++ drop (length ids) row) else Err RuntimeError
      end)
    block_offsets (zip (seqZ 0 (len request_ids)) request_ids).

(** *** Every block is free or in one place of one request *)

Definition all_blocks (self : BlockManager) : list Z := free_blocks self ++ concat (map_to_list (block_ids self)).*2.

Record blocks_kept (self : BlockManager) : Prop := {
  bk_tpb : 0 < tokens_per_block self;
  bk_perm : all_blocks self ≡ₚ seqZ 0 (num_blocks self);
  bk_dom : forall r, is_Some (block_ids self !! r) <-> is_Some (num_sequences self !! r);
}.

Lemma concat_insert (m : gmap Z (list Z)) r ids : concat (map_to_list (<[r := ids]> m)).*2 ≡ₚ ids ++ concat (map_to_list (delete r m)).*2.
Proof.
  rewrite <- insert_delete_eq, map_to_list_insert by apply lookup_delete_eq. done.
Qed.

Lemma concat_lookup (m : gmap Z (list Z)) r ids : m !! r = Some ids -> concat (map_to_list m).*2 ≡ₚ ids ++ concat (map_to_list (delete r m)).*2.
Proof. intros H. by rewrite <- (insert_id m r ids) at 1; [rewrite concat_insert|]. Qed.

Definition ids_of (self : BlockManager) (r : Z) : list Z := default [] (block_ids self !! r).
Definition count_of (self : BlockManager) (r : Z) : Z := default 0 (num_sequences self !! r).
Definition blocks_for (self : BlockManager) (n : Z) : Z := (n + tokens_per_block self - 1) / tokens_per_block self.

Lemma blocks_of_concat self r : concat (map_to_list (block_ids self)).*2 ≡ₚ ids_of self r ++ concat (map_to_list (delete r (block_ids self))).*2.
Proof.
  unfold ids_of. destruct (block_ids self !! r) as [ids|] eqn:E; simpl; [by apply concat_lookup|]. by rewrite delete_id.
Qed.

(** Blocks go from the free ones to a request or back. *)
Lemma move_blocks self r ids free n :
  blocks_kept self -> free ++ ids ≡ₚ free_blocks self ++ ids_of self r -> blocks_kept (with_count (with_ids self r ids free) r n).
Proof.
  intros [Ht Hp Hd] Hf. split; [done| |].
  - unfold all_blocks in *. simpl. rewrite concat_insert, app_assoc, Hf, <- app_assoc, <- blocks_of_concat. done.
  - intros q. simpl. destruct (decide (r = q)) as [->|Hne]; [by rewrite !lookup_insert_eq|by rewrite !lookup_insert_ne].
Qed.

Lemma with_ids_same self r ids n : block_ids self !! r = Some ids -> with_count (with_ids self r ids (free_blocks self)) r n = with_count self r n.
Proof. intros H. unfold with_count, with_ids. simpl. by rewrite insert_id. Qed.

(** [add_tokens] as a function of the count and the blocks of the request. *)
Lemma add_tokens_eq self r n :
  blocks_kept self -> 0 < n ->
  add_tokens self r n =
    (let ids := ids_of self r in let self1 := with_count (with_ids self r ids (free_blocks self)) r (count_of self r + n) in
     let more := blocks_for self (count_of self r + n) - len ids in
     if 0 <? more then
       if more <=? len (free_blocks self) then
         (with_count (with_ids self r (ids ++ take (Z.to_nat more) (free_blocks self)) (drop (Z.to_nat more) (free_blocks self))) r (count_of self r + n), Ok ())
       else (self1, Err AssertionError)
     else (self1, Ok ())).
Proof.
  intros [Ht Hp Hd] Hn. unfold add_tokens, ids_of, count_of, blocks_for, compute_block_count, pydiv, _allocate_blocks. specialize (Hd r).
  rewrite (proj2 (Z.ltb_lt 0 n)) by done.
  destruct (block_ids self !! r) as [ids|] eqn:Ei, (num_sequences self !! r) as [c|] eqn:En; simpl.
  2: { destruct Hd as [Hd _]. destruct Hd; [eauto|done]. }
  2: { destruct Hd as [_ Hd]. destruct Hd; [eauto|done]. }
  all: rewrite (proj2 (Z.eqb_neq (tokens_per_block self) 0)) by lia; cbv zeta.
  - rewrite with_ids_same by done. set (need := (_ / _)). destruct (Z.ltb_spec (len ids) need), (Z.ltb_spec 0 (need - len ids)); try lia; [|done].
    destruct (Z.leb_spec (need - len ids) (len (free_blocks self))); done.
  - rewrite !Z.add_0_l. change (Z.of_nat 0) with 0. set (need := (_ / _)). destruct (Z.ltb_spec 0 need), (Z.ltb_spec 0 (need - 0)); try lia; [|done].
    destruct (Z.leb_spec (need - 0) (len (free_blocks self))); [|done]. unfold with_ids, with_count. simpl. by rewrite insert_insert_eq.
Qed.

Lemma blocks_for_mono self a b : 0 < tokens_per_block self -> a <= b -> blocks_for self a <= blocks_for self b.
Proof. intros Ht Hab. apply Z.div_le_mono; lia. Qed.

(** A request has no more blocks than its tokens need, and exactly as many if it is settled;
    a count below zero needs none. *)
Definition bounded (self : BlockManager) (r : Z) : Prop := len (ids_of self r) <= blocks_for self (Z.max 0 (count_of self r)).
Definition settled (self : BlockManager) (r : Z) : Prop := len (ids_of self r) = blocks_for self (Z.max 0 (count_of self r)).

Lemma ids_of_put self r ids free n q : ids_of (with_count (with_ids self r ids free) r n) q = if decide (r = q) then ids else ids_of self q.
Proof. unfold ids_of. simpl. case_decide as Hd; [subst; by rewrite lookup_insert_eq|by rewrite lookup_insert_ne]. Qed.

Lemma count_of_put self r ids free n q : count_of (with_count (with_ids self r ids free) r n) q = if decide (r = q) then n else count_of self q.
Proof. unfold count_of. simpl. case_decide as Hd; [subst; by rewrite lookup_insert_eq|by rewrite lookup_insert_ne]. Qed.

Lemma blocks_for_0 self : 0 < tokens_per_block self -> blocks_for self 0 = 0.
Proof. intros Ht. apply Z.div_small. lia. Qed.

(** Only a count above zero needs blocks. *)
Lemma blocks_for_max self n : 0 < tokens_per_block self -> Z.max 0 (blocks_for self n) = blocks_for self (Z.max 0 n).
Proof.
  intros Ht. destruct (Z.le_ge_cases 0 n) as [Hn|Hn].
  - rewrite (Z.max_r 0 n) by done. pose proof (blocks_for_mono self 0 n Ht Hn). rewrite blocks_for_0 in * by done. lia.
  - rewrite (Z.max_l 0 n) by done. pose proof (blocks_for_mono self n 0 Ht Hn). rewrite blocks_for_0 in * by done. lia.
Qed.

(** What [add_tokens] does when it returns and when it raises. *)
Definition tokens_added (self self' : BlockManager) (r n : Z) : Prop :=
  count_of self' r = count_of self r + n /\ settled self' r
  /\ blocks_for self (count_of self r + n) - len (ids_of self r) <= len (free_blocks self)
  /\ (exists new, ids_of self' r = ids_of self r ++ new /\ new ++ free_blocks self' = free_blocks self)
  /\ (forall q, q <> r -> ids_of self' q = ids_of self q /\ count_of self' q = count_of self q).

Definition not_added (self self' : BlockManager) (r n : Z) : Prop :=
  len (free_blocks self) < blocks_for self (count_of self r + n) - len (ids_of self r)
  /\ free_blocks self' = free_blocks self /\ (forall q, ids_of self' q = ids_of self q)
  /\ forall q, count_of self' q = if decide (r = q) then count_of self r + n else count_of self q.

Lemma add_tokens_spec self r n :
  blocks_kept self -> bounded self r -> 0 < n ->
  match add_tokens self r n with
  | (self', Ok _) => blocks_kept self' /\ tokens_per_block self' = tokens_per_block self /\ tokens_added self self' r n
  | (self', Err e) => e = AssertionError /\ blocks_kept self' /\ tokens_per_block self' = tokens_per_block self /\ not_added self self' r n
  end.
Proof.
  intros Hk Hb Hn. rewrite add_tokens_eq by done. cbv zeta. pose proof (bk_tpb _ Hk) as Ht. unfold bounded in Hb.
  pose proof (blocks_for_max self (count_of self r + n) Ht) as Hmax.
  pose proof (blocks_for_mono self (Z.max 0 (count_of self r)) (Z.max 0 (count_of self r + n)) Ht) as Hmono.
  set (more := blocks_for self (count_of self r + n) - len (ids_of self r)) in *. unfold tokens_added, not_added, settled.
  destruct (Z.ltb_spec 0 more) as [Hm|Hm]; [destruct (Z.leb_spec more (len (free_blocks self))) as [Hf|Hf]|]; split_and!;
    try (apply move_blocks; [done|]); try done; try lia; try (intros q; rewrite ids_of_put; case_decide; by subst);
    try (intros q; by rewrite count_of_put); try (intros q Hq; by rewrite ids_of_put, count_of_put, !decide_False by done);
    rewrite ?ids_of_put, ?count_of_put, ?decide_True by done; try done.
  - rewrite <- (take_drop (Z.to_nat more) (free_blocks self)) at 3. solve_Permutation.
  - change (blocks_for _ _) with (blocks_for self (Z.max 0 (count_of self r + n))). rewrite length_app, length_take. lia.
  - exists (take (Z.to_nat more) (free_blocks self)). split; [done|]. apply take_drop.
  - change (blocks_for _ _) with (blocks_for self (Z.max 0 (count_of self r + n))). lia.
  - exists []. by rewrite app_nil_r.
Qed.

Lemma free_resources_spec self r :
  blocks_kept self ->
  match free_resources self r with
  | Ok self' => blocks_kept self' /\ tokens_per_block self' = tokens_per_block self /\ ids_of self' r = [] /\ count_of self' r = 0
      /\ (forall q, q <> r -> ids_of self' q = ids_of self q /\ count_of self' q = count_of self q)
  | Err e => e = KeyError /\ block_ids self !! r = None
  end.
Proof.
  intros [Ht Hp Hd]. pose proof (Hd r) as Hr. unfold free_resources, ids_of, count_of.
  destruct (block_ids self !! r) as [ids|] eqn:Ei, (num_sequences self !! r) as [n|] eqn:En; try done.
  - split_and!; simpl; [|done|by rewrite lookup_delete_eq..|intros q Hq; by rewrite !lookup_delete_ne].
    split; [done| |].
    + unfold all_blocks in *. simpl. rewrite <- app_assoc, <- concat_lookup by done. done.
    + intros q. simpl. destruct (decide (r = q)) as [->|Hne]; [by rewrite !lookup_delete_eq|by rewrite !lookup_delete_ne].
  - destruct Hr as [Hr _]. destruct Hr; [eauto|done].
Qed.

(** Taking tokens back, as a function of the count and the blocks of the request. *)
Lemma rewind_cache_eq self r k :
  blocks_kept self -> k <> 0 ->
  rewind_cache self r k =
    match num_sequences self !! r with
    | None => Err KeyError
    | Some n =>
        let m := Z.to_nat (Z.min (len (ids_of self r)) (blocks_for self (Z.max 0 (n - k)))) in
        Ok (with_count (with_ids self r (take m (ids_of self r)) (free_blocks self ++ drop m (ids_of self r))) r (n - k))
    end.
Proof.
  intros [Ht _ Hd] Hk. unfold rewind_cache, compute_block_count, pydiv, ids_of. rewrite (proj2 (Z.eqb_neq k 0)) by done.
  specialize (Hd r). destruct (num_sequences self !! r) as [n|] eqn:En; [|done].
  destruct (block_ids self !! r) as [ids|] eqn:Ei; [|destruct Hd as [_ Hd]; destruct Hd; [eauto|done]]. simpl.
  rewrite (proj2 (Z.eqb_neq (tokens_per_block self) 0)) by lia. simpl. rewrite Ei, (Z.max_comm (n - k)). fold (blocks_for self (Z.max 0 (n - k))).
  pose proof (blocks_for_max self (n - k) Ht) as Hmax. set (need := blocks_for self (Z.max 0 (n - k))) in *.
  destruct (Z.ltb_spec 0 (len ids - need)).
  - by replace (length ids - Z.to_nat (len ids - need))%nat with (Z.to_nat (Z.min (len ids) need)) by lia.
  - rewrite take_ge, drop_ge, app_nil_r, with_ids_same by (done || lia). done.
Qed.

Lemma rewind_cache_spec self r k :
  blocks_kept self -> 0 <= k -> bounded self r ->
  match rewind_cache self r k with
  | Ok self' => blocks_kept self' /\ tokens_per_block self' = tokens_per_block self /\ count_of self' r = count_of self r - k
      /\ bounded self' r /\ (settled self r -> settled self' r)
      /\ (forall q, q <> r -> ids_of self' q = ids_of self q /\ count_of self' q = count_of self q)
  | Err e => e = KeyError /\ block_ids self !! r = None
  end.
Proof.
  intros Hk H0 Hb. destruct (decide (k = 0)) as [->|Hne].
  { unfold rewind_cache. simpl. rewrite Z.sub_0_r. by split_and!. }
  rewrite rewind_cache_eq by done. pose proof (bk_tpb _ Hk) as Ht. pose proof (bk_dom _ Hk r) as Hd.
  destruct (num_sequences self !! r) as [n|] eqn:En; [|split; [done|]; apply eq_None_not_Some; rewrite Hd; by intros [? ?]].
  assert (Hn : count_of self r = n) by (unfold count_of; by rewrite En). cbv zeta. unfold bounded, settled in *. rewrite Hn in *.
  pose proof (blocks_for_mono self (Z.max 0 (n - k)) (Z.max 0 n) Ht) as Hmono. pose proof (blocks_for_max self (n - k) Ht) as Hmax.
  set (m := Z.to_nat _). rewrite !ids_of_put, !count_of_put, !decide_True by done.
  change (blocks_for (with_count _ _ _) ?x) with (blocks_for self x). split_and!; try done.
  - apply move_blocks; [done|]. rewrite <- (take_drop m (ids_of self r)) at 3. solve_Permutation.
  - rewrite length_take. lia.
  - intros Hs. rewrite length_take. lia.
  - intros q Hq. by rewrite ids_of_put, count_of_put, !decide_False by done.
Qed.

(** The managers that calls lead to, whether they return or raise.  [short] are the
    requests whose last tokens could not be given blocks. *)
Inductive in_service : BlockManager -> gset Z -> Prop :=
  | sv_init n t : 0 < t -> in_service (BlockManager_init n t) ∅
  | sv_add self short r n self' u : in_service self short -> 0 < n -> add_tokens self r n = (self', Ok u) -> in_service self' (short ∖ {[r]})
  | sv_full self short r n self' e : in_service self short -> 0 < n -> add_tokens self r n = (self', Err e) -> in_service self' (short ∪ {[r]})
  | sv_free self short r self' : in_service self short -> free_resources self r = Ok self' -> in_service self' (short ∖ {[r]})
  | sv_rewind self short r k self' : in_service self short -> 0 <= k -> rewind_cache self r k = Ok self' -> in_service self' short.

(** A request that is not touched is as it was. *)
Lemma same_need self self' q :
  tokens_per_block self' = tokens_per_block self -> ids_of self' q = ids_of self q -> count_of self' q = count_of self q ->
  (bounded self q -> bounded self' q) /\ (settled self q -> settled self' q).
Proof. intros Ht Hi Hc. unfold bounded, settled, blocks_for. by rewrite Ht, Hi, Hc. Qed.

Lemma settled_bounded self q : settled self q -> bounded self q.
Proof. unfold settled, bounded. lia. Qed.

Lemma in_service_ok self short :
  in_service self short -> blocks_kept self /\ (forall q, bounded self q) /\ (forall q, q ∉ short -> settled self q).
Proof.
  induction 1 as [n t Ht|self short r n self' u _ (Hk & Hb & Hs) Hn Ha|self short r n self' e _ (Hk & Hb & Hs) Hn Ha
                 |self short r self' _ (Hk & Hb & Hs) Hf|self short r k self' _ (Hk & Hb & Hs) Hle Hr].
  - assert (Hz : forall q, settled (BlockManager_init n t) q).
    { intros q. unfold settled, ids_of, count_of. simpl. rewrite !lookup_empty. simpl. by rewrite blocks_for_0. }
    split_and!; [|intros q; by apply settled_bounded|done]. split; [done| |].
    + unfold all_blocks. simpl. rewrite map_to_list_empty. simpl. by rewrite app_nil_r.
    + intros r. simpl. by rewrite !lookup_empty.
  - pose proof (add_tokens_spec self r n Hk (Hb r) Hn) as H. rewrite Ha in H. destruct H as (Hk' & Ht & _ & Hr & _ & _ & Hq).
    split; [done|]. split; intros q; (destruct (decide (q = r)) as [->|Hne]; [by (done || apply settled_bounded)|]);
      destruct (Hq q Hne) as [Hi Hc]; [by apply (same_need self)|]. intros Hin. apply (same_need self); [done..|]. apply Hs. set_solver.
  - pose proof (add_tokens_spec self r n Hk (Hb r) Hn) as H. rewrite Ha in H. destruct H as (_ & Hk' & Ht & Hm & _ & Hi & Hc).
    split; [done|]. split; intros q.
    + unfold bounded, blocks_for. rewrite Ht, Hi, Hc. case_decide as Hd; [subst q|apply Hb]. pose proof (Hb r) as Hbr. unfold bounded in Hbr.
      pose proof (blocks_for_mono self (Z.max 0 (count_of self r)) (Z.max 0 (count_of self r + n)) (bk_tpb _ Hk)). unfold blocks_for in *. lia.
    + intros Hin. assert (r <> q) by set_solver. apply (same_need self); [done|apply Hi|by rewrite Hc, decide_False|apply Hs; set_solver].
  - pose proof (free_resources_spec self r Hk) as H. rewrite Hf in H. destruct H as (Hk' & Ht & Hi & Hc & Hq).
    assert (Hr : settled self' r) by (unfold settled; rewrite Hi, Hc; symmetry; apply blocks_for_0, Hk').
    split; [done|]. split; intros q; (destruct (decide (q = r)) as [->|Hne]; [by (done || apply settled_bounded)|]);
      destruct (Hq q Hne) as [Hi' Hc']; [by apply (same_need self)|]. intros Hin. apply (same_need self); [done..|]. apply Hs. set_solver.
  - pose proof (rewind_cache_spec self r k Hk Hle (Hb r)) as H. rewrite Hr in H. destruct H as (Hk' & Ht & _ & Hb' & Hs' & Hq).
    split; [done|]. split; intros q; (destruct (decide (q = r)) as [->|Hne]; [by auto|]);
      destruct (Hq q Hne) as [Hi Hc]; [by apply (same_need self)|]. intros Hin. apply (same_need self); [done..|]. by apply Hs.
Qed.

(** C28. Whatever calls were made, and whether they returned or raised, every block is free or
    belongs to one request, once; no request has more blocks than the tokens counted for it
    need, and one whose last tokens were given blocks has exactly as many.  Adding tokens
    raises if and only if there are fewer free blocks than the request is short of.  If
    it returns, the request has the blocks it had and the first of the free ones; if it
    raises, every request has the blocks it had, but the tokens are counted.  Other
    requests are as they were in either case. *)
Theorem blocks_for_tokens self short r n :
  in_service self short -> 0 < n ->
  blocks_kept self /\ (forall q, bounded self q) /\ (forall q, q ∉ short -> settled self q)
  /\ match add_tokens self r n with
     | (self', Ok _) => tokens_added self self' r n
     | (self', Err e) => e = AssertionError /\ not_added self self' r n
     end.
Proof.
  intros Hs Hn. destruct (in_service_ok _ _ Hs) as (Hk & Hb & Hset). split_and!; [done..|].
  pose proof (add_tokens_spec self r n Hk (Hb r) Hn) as H. destruct (add_tokens self r n) as [self' [u|e]]; naive_solver.
Qed.

Lemma blocks_for_tokens_witness :
  match add_tokens (BlockManager_init 4 2) 7 5 with
  | (self', Ok _) => count_of self' 7 = 5 /\ len (ids_of self' 7) = 3
      /\ match add_tokens self' 8 3 with
         | (self'', Err e) => e = AssertionError /\ ids_of self'' 8 = [] /\ ids_of self'' 7 = ids_of self' 7
         | _ => False
         end
  | _ => False
  end.
Proof.
  destruct (blocks_for_tokens (BlockManager_init 4 2) ∅ 7 5 (sv_init 4 2 eq_refl) eq_refl) as (_ & _ & _ & H).
  destruct (add_tokens (BlockManager_init 4 2) 7 5) as [self' [u|e]] eqn:E; [|vm_compute in E; congruence].
  pose proof (sv_add _ _ 7 5 self' u (sv_init 4 2 eq_refl) eq_refl E) as Hs. destruct H as (Hc & Hset & _).
  split; [exact Hc|]. split; [unfold settled in Hset; rewrite Hset, Hc; vm_compute in E; injection E as <- _; reflexivity|].
  destruct (blocks_for_tokens self' _ 8 3 Hs eq_refl) as (_ & _ & _ & H).
  destruct (add_tokens self' 8 3) as [self'' [u'|e]] eqn:E'; [vm_compute in E; injection E as <- _; vm_compute in E'; congruence|].
  destruct H as (He & _ & _ & Hids & _). split; [exact He|]. rewrite !Hids. split; [|reflexivity].
  vm_compute in E. injection E as <- _. reflexivity.
Defined.

(** The number of blocks is kept from going below zero when tokens are taken back, but
    the number of tokens is not: if more are taken back than there were, the tokens
    added next get no block. *)
Theorem rewind_leaves_debt self short r n k m self' :
  in_service self short -> num_sequences self !! r = Some n -> 0 <= n < k -> rewind_cache self r k = Ok self' -> 0 < m <= k - n ->
  exists self'', add_tokens self' r m = (self'', Ok ()) /\ block_ids self'' !! r = Some [].
Proof.
  intros Hs Hn Hk Hr Hm. destruct (in_service_ok _ _ Hs) as (Hok & Hb & _). pose proof (bk_tpb _ Hok) as Ht.
  rewrite rewind_cache_eq, Hn in Hr by (done || lia). injection Hr as <-. set (j := Z.to_nat (Z.min _ _)). set (self1 := with_count _ _ _).
  assert (Hok1 : blocks_kept self1). { apply move_blocks; [done|]. rewrite <- (take_drop j (ids_of self r)) at 3. solve_Permutation. }
  assert (Hids : ids_of self1 r = []).
  { unfold self1, j. rewrite ids_of_put, decide_True by done. rewrite Z.max_l, blocks_for_0 by lia. by rewrite Z.min_r by lia. }
  assert (Hcount : count_of self1 r = n - k) by (unfold self1; by rewrite count_of_put, decide_True).
  assert (Hneed : blocks_for self1 (count_of self1 r + m) <= 0) by (rewrite Hcount; change (blocks_for self1) with (blocks_for self); rewrite <- (blocks_for_0 self Ht); apply blocks_for_mono; lia).
  rewrite add_tokens_eq, Hids by (done || lia). cbv zeta. rewrite (proj2 (Z.ltb_ge 0 _)) by (simpl; lia).
  eexists. split; [done|]. simpl. by rewrite lookup_insert_eq.
Qed.

Lemma rewind_leaves_debt_witness :
  match add_tokens (BlockManager_init 4 2) 7 3 with
  | (self, Ok _) => match rewind_cache self 7 5 with
                    | Ok self' => exists self'', add_tokens self' 7 2 = (self'', Ok ()) /\ block_ids self'' !! 7 = Some []
                    | Err _ => False
                    end
  | _ => False
  end.
Proof.
  destruct (add_tokens (BlockManager_init 4 2) 7 3) as [self [u|e]] eqn:E; [|vm_compute in E; congruence].
  pose proof (sv_add _ _ 7 3 self u (sv_init 4 2 eq_refl) eq_refl E) as Hs. vm_compute in E. injection E as <- _.
  destruct (rewind_cache _ 7 5) as [self'|e] eqn:E; [|vm_compute in E; congruence].
  apply (rewind_leaves_debt _ _ 7 3 5 2 self' Hs); [done|done|exact E|done].
Defined.

End BlockManager.
