(* ===== verification/HashTrie.v ===== *)
(** The prefix tree of the conversation router, [_BlockHashTrie] of serve/router.py.

    A session is entered at every node along its list of block hashes.  The loops over
    a path of nodes are recursive functions on the hashes; [remove] gives with the node
    whether the pruning goes on above it.  The order in which the sessions of a node
    are tried is a parameter [order].

    [trie_ok] relates the tree to the table of the sessions: there is a node for a
    path exactly if the hashes of some session begin with it, and the node has these
    sessions.  [insert] and [remove] keep it, and the search finds a session whose
    hashes agree with the request as long as those of any valid session. *)

From stdpp Require Import prelude gmap strings.
From S2P Require Import Prelude.

Local Open Scope Z_scope.

Local Unset Elimination Schemes.
Inductive Node := mkNode (children : gmap Z Node) (session_ids : gset string).
Local Set Elimination Schemes.

Definition children (n : Node) : gmap Z Node := let 'mkNode c _ := n in c.
Definition session_ids (n : Node) : gset string := let 'mkNode _ s := n in s.
Definition Node_init : Node := mkNode ∅ ∅.

Definition add_session (sid : string) (n : Node) : Node := mkNode (children n) ({[sid]} ∪ session_ids n).
Definition discard_session (sid : string) (n : Node) : Node := mkNode (children n) (session_ids n ∖ {[sid]}).

Fixpoint insert (node : Node) (session_id : string) (block_hashes : list Z) : Node :=
  match block_hashes with
  | [] => node
  | h :: hs =>
      let child := add_session session_id (default Node_init (children node !! h)) in
      mkNode (<[h := insert child session_id hs]> (children node)) (session_ids node)
  end.

Fixpoint remove (node : Node) (session_id : string) (block_hashes : list Z) : Node * bool :=
  match block_hashes with
  | [] => (node, true)
  | h :: hs =>
      match children node !! h with
      | None => (node, true)
      | Some child =>
          let '(child, pruning) := remove (discard_session session_id child) session_id hs in
          if pruning && bool_decide (session_ids child = ∅) && bool_decide (children child = ∅)
          then (mkNode (delete h (children node)) (session_ids node), true)
          else (mkNode (<[h := child]> (children node)) (session_ids node), false)
      end
  end.

Section Search.
(** The order in which a set is iterated over. *)
Variable order : gset string -> list string.

(** From the node at [depth]. *)
Fixpoint search (node : Node) (valid_fn : string -> bool) (depth : Z) (block_hashes : list Z) (best : option string * Z) : option string * Z :=
  match block_hashes with
  | [] => best
  | h :: hs =>
      match children node !! h with
      | None => best
      | Some node =>
          let depth := depth + 1 in
          let best := match find valid_fn (order (session_ids node)) with Some sid => (Some sid, depth) | None => best end in
          search node valid_fn depth hs best
      end
  end.

Definition find_longest_prefix_match (root : Node) (block_hashes : list Z) (valid_fn : string -> bool) : option string * Z :=
  search root valid_fn 0 block_hashes (None, 0).

End Search.

(** ** The tree and the table of sessions *)

Abbreviation Table := (gmap string (list Z)).

(** The sessions at the node for a path, if there is one. *)
Fixpoint ids_at (node : Node) (path : list Z) : option (gset string) :=
  match path with
  | [] => Some (session_ids node)
  | h :: p => children node !! h ≫= fun c => ids_at c p
  end.

(** The sessions whose hashes begin with a path. *)
Definition thru (t : Table) (path : list Z) : gset string := dom (filter (fun e => path `prefix_of` e.2) t).

Definition trie_ok (node : Node) (t : Table) : Prop :=
  forall h p, ids_at node (h :: p) = if decide (thru t (h :: p) = ∅) then None else Some (thru t (h :: p)).

(** What is left of the hashes below a child. *)
Definition below (h : Z) (t : Table) : Table :=
  omap (fun hs : list Z => match hs with x :: hs => if decide (x = h) then Some hs else None | [] => None end) t.

Lemma elem_of_thru t p sid : sid ∈ thru t p <-> exists hs, t !! sid = Some hs /\ p `prefix_of` hs.
Proof.
  unfold thru. rewrite elem_of_dom. split.
  - intros [hs [? ?]%map_lookup_filter_Some]. eauto.
  - intros (hs & ? & ?). exists hs. by apply map_lookup_filter_Some.
Qed.

Lemma below_lookup h t sid hs : below h t !! sid = Some hs <-> t !! sid = Some (h :: hs).
Proof.
  unfold below. rewrite lookup_omap. destruct (t !! sid) as [[|x l]|]; simpl; [naive_solver| |naive_solver]. case_decide; naive_solver.
Qed.

Lemma thru_below h t p : thru (below h t) p = thru t (h :: p).
Proof.
  apply set_eq. intros sid. rewrite !elem_of_thru. setoid_rewrite below_lookup. split.
  - intros (hs & ? & ?). exists (h :: hs). split; [done|]. by apply prefix_cons.
  - intros ([|x hs] & ? & Hp); [by apply prefix_nil_inv in Hp|]. apply prefix_cons_inv_1 in Hp as Hx. apply prefix_cons_inv_2 in Hp. subst x. eauto.
Qed.

Lemma thru_mono t h p : thru t (h :: p) ⊆ thru t [h].
Proof.
  intros sid (hs & ? & Hp)%elem_of_thru. apply elem_of_thru. exists hs. split; [done|]. etrans; [|done]. apply prefix_cons, prefix_nil.
Qed.

Lemma trie_ok_child node t h c : trie_ok node t -> children node !! h = Some c -> session_ids c = thru t [h] /\ thru t [h] <> ∅ /\ trie_ok c (below h t).
Proof.
  intros Hok Hc. pose proof (Hok h []) as H0. simpl in H0. rewrite Hc in H0. simpl in H0. case_decide; [done|]. split; [congruence|]. split; [done|].
  intros h' p. rewrite thru_below, <- Hok. simpl. by rewrite Hc.
Qed.

Lemma trie_ok_no_child node t h : trie_ok node t -> children node !! h = None <-> thru t [h] = ∅.
Proof.
  intros Hok. pose proof (Hok h []) as H0. simpl in H0. destruct (children node !! h) as [c|]; simpl in H0; case_decide; naive_solver.
Qed.

(** A tree is right if and only if its children are. *)
Definition child_ok (node : Node) (t : Table) (h : Z) : Prop :=
  match children node !! h with
  | None => thru t [h] = ∅
  | Some c => session_ids c = thru t [h] /\ thru t [h] <> ∅ /\ trie_ok c (below h t)
  end.

Lemma trie_ok_children node t : trie_ok node t <-> forall h, child_ok node t h.
Proof.
  split.
  - intros Hok h. unfold child_ok. destruct (children node !! h) as [c|] eqn:Ec; [by apply (trie_ok_child node)|by apply (trie_ok_no_child node)].
  - intros H h p. specialize (H h). unfold child_ok in H. simpl. destruct (children node !! h) as [c|]; simpl.
    + destruct H as (Hs & Hne & Hok). destruct p as [|h' p]; simpl; [rewrite Hs; by case_decide|]. specialize (Hok h' p). by rewrite thru_below in Hok.
    + rewrite decide_True; [done|]. pose proof (thru_mono t h p). set_solver.
Qed.

Lemma child_ok_ext node node' t t' h :
  children node' !! h = children node !! h -> thru t' [h] = thru t [h] -> below h t' = below h t -> child_ok node t h -> child_ok node' t' h.
Proof. unfold child_ok. by intros -> -> ->. Qed.

Lemma trie_ok_init ids : trie_ok (mkNode ∅ ids) ∅.
Proof. intros h p. simpl. rewrite lookup_empty. simpl. rewrite decide_True; [done|]. apply set_eq. intros sid. rewrite elem_of_thru. setoid_rewrite lookup_empty. set_solver. Qed.


Lemma trie_ok_leaf node : trie_ok node ∅ -> children node = ∅.
Proof.
  intros Hok. apply map_empty. intros h. apply (trie_ok_no_child node ∅ h Hok). apply set_eq. intros sid. rewrite elem_of_thru. setoid_rewrite lookup_empty. set_solver.
Qed.

Lemma below_insert t sid h hs h' : below h' (<[sid := h :: hs]> t) = if decide (h' = h) then <[sid := hs]> (below h' t) else delete sid (below h' t).
Proof.
  apply map_eq. intros s. apply option_eq. intros l. rewrite below_lookup. destruct (decide (s = sid)) as [->|Hne].
  - rewrite lookup_insert_eq. case_decide; [rewrite lookup_insert_eq|rewrite lookup_delete_eq]; naive_solver.
  - rewrite lookup_insert_ne by done. case_decide; [rewrite lookup_insert_ne by done|rewrite lookup_delete_ne by done]; by rewrite below_lookup.
Qed.

Lemma below_delete t sid h : below h (delete sid t) = delete sid (below h t).
Proof.
  apply map_eq. intros s. apply option_eq. intros l. rewrite below_lookup. destruct (decide (s = sid)) as [->|Hne].
  - by rewrite !lookup_delete_eq.
  - rewrite !lookup_delete_ne by done. by rewrite below_lookup.
Qed.

Lemma thru_insert t sid h hs h' : t !! sid = None -> thru (<[sid := h :: hs]> t) [h'] = if decide (h' = h) then {[sid]} ∪ thru t [h'] else thru t [h'].
Proof.
  intros Hn. apply set_eq. intros s. destruct (decide (s = sid)) as [->|Hne].
  - rewrite elem_of_thru, lookup_insert_eq. case_decide as Hd; [subst h'; split; [set_solver|]; intros _; exists (h :: hs); split; [done|apply prefix_cons, prefix_nil]|].
    rewrite elem_of_thru, Hn. split; [|naive_solver]. intros (l & [= <-] & Hp). by apply prefix_cons_inv_1 in Hp.
  - assert (s ∈ thru (<[sid := h :: hs]> t) [h'] <-> s ∈ thru t [h']) as -> by (rewrite !elem_of_thru, lookup_insert_ne by done; done).
    case_decide; set_solver.
Qed.

Lemma thru_delete t sid p : thru (delete sid t) p = thru t p ∖ {[sid]}.
Proof.
  apply set_eq. intros s. rewrite elem_of_difference, not_elem_of_singleton, !elem_of_thru. setoid_rewrite lookup_delete_Some. naive_solver.
Qed.

Lemma below_none t sid h : t !! sid = None -> below h t !! sid = None.
Proof. intros Hn. apply eq_None_not_Some. intros [l Hl%below_lookup]. congruence. Qed.

Lemma below_empty t h : thru t [h] = ∅ -> below h t = ∅.
Proof.
  intros He. apply map_empty. intros s. apply eq_None_not_Some. intros [l Hl%below_lookup].
  assert (s ∈ thru t [h]); [|set_solver]. apply elem_of_thru. exists (h :: l). split; [done|apply prefix_cons, prefix_nil].
Qed.

Lemma insert_session_ids node sid hs : session_ids (insert node sid hs) = session_ids node.
Proof. by destruct hs. Qed.

(** A new session is entered in the tree. *)
Lemma insert_ok sid hs node t : trie_ok node t -> t !! sid = None -> trie_ok (insert node sid hs) (<[sid := hs]> t).
Proof.
  revert node t. induction hs as [|h hs IH]; intros node t Hok Hn; rewrite trie_ok_children in Hok |- *.
  - intros h. eapply child_ok_ext; [done| | |apply Hok].
    + apply set_eq. intros s. rewrite !elem_of_thru. destruct (decide (s = sid)) as [->|Hne]; [|by rewrite lookup_insert_ne].
      rewrite lookup_insert_eq, Hn. split; [|naive_solver]. intros (l & [= <-] & Hp). by apply prefix_nil_inv in Hp.
    + apply map_eq. intros s. apply option_eq. intros l. rewrite !below_lookup.
      destruct (decide (s = sid)) as [->|?]; [|by rewrite lookup_insert_ne]. by rewrite lookup_insert_eq, Hn.
  - intros h'. destruct (decide (h' = h)) as [->|Hne].
    + unfold child_ok. cbn [insert children]. rewrite lookup_insert_eq, thru_insert, below_insert, !decide_True by done.
      specialize (Hok h). unfold child_ok in Hok. split_and!; [|set_solver|].
      * rewrite insert_session_ids. destruct (children node !! h) as [c|]; simpl; [by destruct Hok as (-> & _)|by rewrite Hok].
      * apply IH; [|by apply below_none]. destruct (children node !! h) as [c|]; simpl; [exact (proj2 (proj2 Hok))|].
        rewrite below_empty by done. apply trie_ok_init.
    + eapply child_ok_ext; [| | |apply Hok].
      * cbn [insert children]. by apply lookup_insert_ne.
      * by rewrite thru_insert, decide_False.
      * rewrite below_insert, decide_False by done. by apply delete_id, below_none.
Qed.

Lemma remove_pruning node sid hs : (remove node sid hs).2 = false -> children (remove node sid hs).1 <> ∅.
Proof.
  destruct hs as [|h hs]; [done|]. simpl. destruct (children node !! h) as [c|]; [|done]. destruct (remove _ sid hs) as [c' go].
  destruct (go && _ && _); [done|]. intros _. simpl. apply insert_non_empty.
Qed.

Lemma remove_session_ids node sid hs : session_ids (remove node sid hs).1 = session_ids node.
Proof.
  destruct hs as [|h hs]; [done|]. simpl. destruct (children node !! h) as [c|]; [|done]. destruct (remove _ sid hs) as [c' go]. by destruct (go && _ && _).
Qed.

Lemma delete_other t sid hs h' : t !! sid = Some hs -> head hs <> Some h' -> thru (delete sid t) [h'] = thru t [h'] /\ below h' (delete sid t) = below h' t.
Proof.
  intros Hs Hne. rewrite thru_delete, below_delete. split.
  - apply difference_disjoint_L. assert (sid ∉ thru t [h']); [|set_solver]. rewrite elem_of_thru, Hs. intros (l & [= <-] & [l' ->]). by destruct Hne.
  - apply delete_id, eq_None_not_Some. intros [l Hl%below_lookup]. destruct Hne. rewrite Hs in Hl. by injection Hl as ->.
Qed.

(** A session leaves the tree, and with it the nodes that were there for it alone. *)
Lemma trie_remove_ok sid hs node t : trie_ok node t -> t !! sid = Some hs -> trie_ok (remove node sid hs).1 (delete sid t).
Proof.
  revert node t. induction hs as [|h hs IH]; intros node t Hok Hs; rewrite trie_ok_children in Hok |- *.
  { intros h. destruct (delete_other t sid [] h Hs) as [? ?]; [done|]. by eapply child_ok_ext. }
  assert (Hin : sid ∈ thru t [h]) by (apply elem_of_thru; exists (h :: hs); split; [done|apply prefix_cons, prefix_nil]).
  pose proof (Hok h) as Hh. unfold child_ok in Hh. cbn [remove]. destruct (children node !! h) as [c|] eqn:Ec; [|set_solver].
  destruct Hh as (Hids & Hne & Hc). specialize (IH (discard_session sid c) (below h t) Hc ltac:(by apply below_lookup)).
  pose proof (remove_pruning (discard_session sid c) sid hs) as Hgo. pose proof (remove_session_ids (discard_session sid c) sid hs) as Hsi.
  destruct (remove (discard_session sid c) sid hs) as [c' go]. simpl in IH, Hgo, Hsi. rewrite Hids, <- thru_delete in Hsi. rewrite <- below_delete in IH.
  assert (Hother : forall h' node', h' <> h -> children node' !! h' = children node !! h' -> child_ok node' (delete sid t) h').
  { intros h' node' Hne' He. destruct (delete_other t sid (h :: hs) h' Hs) as [? ?]; [simpl; congruence|]. by eapply child_ok_ext. }
  destruct (decide (thru (delete sid t) [h] = ∅)) as [He|He].
  - rewrite below_empty in IH by done. apply trie_ok_leaf in IH. destruct go; [|by destruct Hgo]. rewrite !bool_decide_true by congruence. simpl.
    intros h'. destruct (decide (h' = h)) as [->|Hne']; [unfold child_ok; simpl; by rewrite lookup_delete_eq|].
    apply Hother; [done|]. simpl. by apply lookup_delete_ne.
  - rewrite (bool_decide_false (session_ids c' = ∅)) by congruence. rewrite andb_false_r. simpl.
    intros h'. destruct (decide (h' = h)) as [->|Hne']; [unfold child_ok; simpl; by rewrite lookup_insert_eq|].
    apply Hother; [done|]. simpl. by apply lookup_insert_ne.
Qed.

(** ** Searching *)

(** The first [n] hashes of the request are those of the session. *)
Definition agrees (t : Table) (hs : list Z) (sid : string) (n : nat) : Prop :=
  (n <= length hs)%nat /\ exists l, t !! sid = Some l /\ take n hs `prefix_of` l.

Lemma agrees_cons t h hs sid n : agrees t (h :: hs) sid (S n) <-> agrees (below h t) hs sid n.
Proof.
  unfold agrees. setoid_rewrite below_lookup. simpl. split.
  - intros (Hn & l & Hl & [l' ->]). split; [lia|]. eexists. split; [done|]. by exists l'.
  - intros (Hn & l & Hl & Hp). split; [lia|]. eexists. split; [done|]. by apply prefix_cons.
Qed.

Lemma agrees_thru t h hs sid n : agrees t (h :: hs) sid (S n) -> sid ∈ thru t [h].
Proof. intros (_ & l & Hl & [l' ->]). apply elem_of_thru. eexists. split; [done|]. apply prefix_cons, prefix_nil. Qed.

Section Searched.
Context (order : gset string -> list string) (order_spec : forall s x, x ∈ order s <-> x ∈ s) (valid : string -> bool).

Lemma first_valid s :
  match find valid (order s) with Some sid => sid ∈ s /\ valid sid = true | None => forall sid, sid ∈ s -> valid sid = false end.
Proof.
  destruct (find valid (order s)) as [sid|] eqn:E.
  - apply find_some in E as [Hin Hv]. split; [|done]. by apply order_spec, list_elem_of_In.
  - intros sid Hin. apply (find_none _ _ E). by apply list_elem_of_In, order_spec.
Qed.

Lemma search_spec hs node t depth best :
  trie_ok node t ->
  let longest n := forall sid m, valid sid = true -> agrees t hs sid m -> (m <= n)%nat in
  (search order node valid depth hs best = best /\ longest 0%nat)
  \/ exists sid n, search order node valid depth hs best = (Some sid, depth + Z.of_nat (S n)) /\ valid sid = true /\ agrees t hs sid (S n) /\ longest (S n).
Proof.
  revert node t depth best. induction hs as [|h hs IH]; intros node t depth best Hok; simpl.
  { left. split; [done|]. intros sid m _ [? _]. simpl in *. lia. }
  assert (Hstep : forall n, (forall sid m, valid sid = true -> agrees (below h t) hs sid m -> (m <= n)%nat) ->
    forall sid m, valid sid = true -> agrees t (h :: hs) sid m -> (m <= S n)%nat).
  { intros n Hn sid [|m] Hv Ha; [lia|]. apply agrees_cons in Ha. specialize (Hn sid m Hv Ha). lia. }
  pose proof (proj1 (trie_ok_children _ _) Hok h) as Hh. clear Hok. rename Hh into Hok. unfold child_ok in Hok. destruct (children node !! h) as [c|].
  - destruct Hok as (Hids & Hne & Hc). rewrite Hids. pose proof (first_valid (thru t [h])) as Hf.
    destruct (find valid (order (thru t [h]))) as [sid0|].
    + destruct Hf as [Hin Hv]. right. destruct (IH c (below h t) (depth + 1) (Some sid0, depth + 1) Hc) as [[-> Hl]|(sid & n & -> & Hv' & Ha & Hl)].
      * exists sid0, 0%nat. split_and!; [done|done| |by apply Hstep]. apply elem_of_thru in Hin as (l & Hl' & [l' ->]).
        split; [simpl; lia|]. eexists. split; [done|]. simpl. rewrite take_0. apply prefix_cons, prefix_nil.
      * exists sid, (S n). split_and!; [f_equal; lia|done|by apply agrees_cons|by apply Hstep].
    + left. destruct (IH c (below h t) (depth + 1) best Hc) as [[-> Hl]|(sid & n & _ & Hv' & Ha & _)].
      * split; [done|]. intros sid [|m] Hv Ha; [lia|]. apply agrees_thru, Hf in Ha. congruence.
      * apply agrees_cons, agrees_thru, Hf in Ha. congruence.
  - left. split; [done|]. intros sid [|m] Hv Ha; [lia|]. apply agrees_thru in Ha. set_solver.
Qed.

Lemma longest_match root t hs :
  trie_ok root t ->
  match find_longest_prefix_match order root hs valid with
  | (Some sid, depth) => valid sid = true /\ exists n : nat, depth = Z.of_nat n /\ (0 < n)%nat /\ agrees t hs sid n
      /\ forall sid' m, valid sid' = true -> agrees t hs sid' m -> (m <= n)%nat
  | (None, depth) => depth = 0 /\ forall sid m, valid sid = true -> agrees t hs sid m -> m = 0%nat
  end.
Proof.
  intros Hok. unfold find_longest_prefix_match. destruct (search_spec hs root t 0 (None, 0) Hok) as [[-> Hl]|(sid & n & -> & Hv & Ha & Hl)].
  - split; [done|]. intros sid m Hv Ha. specialize (Hl sid m Hv Ha). lia.
  - split; [done|]. exists (S n). split_and!; [lia|lia|done|done].
Qed.

End Searched.
