(* ===== verification/ServeRouter.v ===== *)
(** The routers of disaggregated serving, serve/router.py: requests are sent to one of
    the servers, in turn ([RoundRobinRouter]), to the one with the least load
    ([LoadBalancingRouter]), or to the one that has most of the prompt in its cache
    ([KvCacheAwareRouter]).

    The routers run in one event loop and change their state under a lock; a method is
    a function on the state, and [KvCacheAwareRouter.get_next_server], which gives up
    the lock while it hashes the prompt, is two.  A request is named by the [id] of its
    object.  Parameters: the tokenizer, the C++ block hash, and whether a server could
    be prepared, for which it is contacted. *)

From stdpp Require Import prelude gmap strings.
From S2P Require Import Prelude PyFloat.

Local Open Scope Z_scope.

(** ** Requests *)

(** Texts are lists of code points. *)
Abbreviation text := (list Z).

Inductive Prompt := PStr (s : text) | PStrs (l : list text) | PInts (l : list Z) | PLists (l : list (list Z)).

Inductive Body :=
  | ChatCompletionRequest (messages : list (text * text)) (prompt_token_ids : option (list Z))
  | CompletionRequest (prompt : Prompt).

Inductive RequestType := context_only | generation_only | other_type.

Record DisaggregatedParams := mkDisaggregatedParams { request_type : RequestType; conversation_id : option string }.

Record OpenAIRequest := mkOpenAIRequest {
  req_id : Z;
  body : Body;
  disaggregated_params : option DisaggregatedParams;
}.

Definition get_request_num_tokens (request : OpenAIRequest) : result Z :=
  if match disaggregated_params request with
     | None => true
     | Some p => match request_type p with context_only => true | _ => false end
     end
  then
    match body request with
    | ChatCompletionRequest _ _ => Err ValueError
    | CompletionRequest (PStr s) => Ok (len s)
    | CompletionRequest (PInts []) | CompletionRequest (PStrs []) | CompletionRequest (PLists []) => Err IndexError
    | CompletionRequest (PInts l) => Ok (len l)
    | CompletionRequest (PStrs l) => Ok (zsum (fun s => len s) l)
    | CompletionRequest (PLists l) => Ok (zsum (fun s => len s) l)
    end
  else Err ValueError.

(** ** Servers *)

(** The table of cached blocks is used by [KvCacheAwareServerState] only. *)
Record ServerState := mkServerState {
  num_active_requests : Z;
  num_active_tokens : Z;
  kv_cache_block_table : gset Z;
}.

Definition ServerState_init : ServerState := mkServerState 0 0 ∅.

Definition load_tokens (use_tokens : bool) (request : OpenAIRequest) : result Z :=
  if use_tokens then get_request_num_tokens request else Ok 0.

Definition increment_load (use_tokens : bool) (self : ServerState) (request : OpenAIRequest) : result ServerState :=
  num_tokens ← load_tokens use_tokens request;
  Ok (mkServerState (num_active_requests self + 1) (num_active_tokens self + num_tokens) (kv_cache_block_table self)).

Definition decrement_load (use_tokens : bool) (self : ServerState) (request : OpenAIRequest) : result ServerState :=
  num_tokens ← load_tokens use_tokens request;
  Ok (mkServerState (num_active_requests self - 1) (num_active_tokens self - num_tokens) (kv_cache_block_table self)).

Inductive CacheEvent := stored (block_hashes : list Z) | removed (block_hashes : list Z) | other_event.

Definition with_table (self : ServerState) (t : gset Z) : ServerState :=
  mkServerState (num_active_requests self) (num_active_tokens self) t.
Definition add_blocks (self : ServerState) (block_hashes : list Z) : ServerState :=
  with_table self (foldl (fun t h => {[h]} ∪ t) (kv_cache_block_table self) block_hashes).
Definition remove_blocks (self : ServerState) (block_hashes : list Z) : ServerState :=
  with_table self (foldl (fun t h => t ∖ {[h]}) (kv_cache_block_table self) block_hashes).

Definition update_with_events (self : ServerState) (events : list CacheEvent) : ServerState :=
  foldl (fun self e => match e with
           | stored hs => add_blocks self hs
           | removed hs => remove_blocks self hs
           | other_event => self
           end) self events.

(** The blocks at the head of the list that the server has. *)
Fixpoint matched_blocks (self : ServerState) (hash_list : list Z) : Z :=
  match hash_list with
  | [] => 0
  | h :: hs => if bool_decide (h ∈ kv_cache_block_table self) then 1 + matched_blocks self hs else 0
  end.

Definition matched_tokens (tokens_per_block : Z) (self : ServerState) (block_hashes : list (list Z)) : Z :=
  zsum (fun hash_list => matched_blocks self hash_list * tokens_per_block) block_hashes.

(** ** Load balancing *)

(** [_server_state] is a dictionary in insertion order. *)
Record LoadBalancer := mkLoadBalancer {
  use_tokens : bool;
  server_state : list (string * ServerState);
  req_routing_table : gmap Z string;
  rr_counter : Z;
}.

Definition _init_load_balancing (servers : list string) (use_tokens : bool) : LoadBalancer :=
  mkLoadBalancer use_tokens (foldl (fun d s => od_set d s ServerState_init) [] servers) ∅ 0.

Definition with_state (self : LoadBalancer) (d : list (string * ServerState)) : LoadBalancer :=
  mkLoadBalancer (use_tokens self) d (req_routing_table self) (rr_counter self).
Definition with_routing (self : LoadBalancer) (t : gmap Z string) : LoadBalancer :=
  mkLoadBalancer (use_tokens self) (server_state self) t (rr_counter self).
Definition next_rr (self : LoadBalancer) : LoadBalancer :=
  mkLoadBalancer (use_tokens self) (server_state self) (req_routing_table self) (rr_counter self + 1).

Definition state_of (self : LoadBalancer) (server : string) : result ServerState :=
  match od_get (server_state self) server with Some st => Ok st | None => Err KeyError end.

Definition _get_server_load (self : LoadBalancer) (server : string) : result Z :=
  state ← state_of self server;
  Ok (if use_tokens self then num_active_tokens state else num_active_requests state).

Definition _register_request (self : LoadBalancer) (server : string) (request : OpenAIRequest) : result LoadBalancer :=
  state ← state_of self server;
  state ← increment_load (use_tokens self) state request;
  Ok (with_routing (with_state self (od_set (server_state self) server state)) (<[req_id request := server]> (req_routing_table self))).

Definition _unregister_request (self : LoadBalancer) (request : OpenAIRequest) : result (string * LoadBalancer) :=
  match req_routing_table self !! req_id request with
  | None => Ok (EmptyString, self)
  | Some server =>
      let self := with_routing self (delete (req_id request) (req_routing_table self)) in
      match od_get (server_state self) server with
      | Some state =>
          state ← decrement_load (use_tokens self) state request;
          Ok (server, with_state self (od_set (server_state self) server state))
      | None => Ok (server, self)
      end
  end.

(** The first of the smallest elements. *)
Definition min_of (l : list Z) : option Z :=
  match l with [] => None | x :: l => Some (foldl Z.min x l) end.

Definition candidates_of (self : LoadBalancer) (exclude_server : option string) : list string :=
  filter (fun s => Some s <> exclude_server) (server_state self).*1.

(** The subclasses have their own [_get_server_load]; it is the argument [load]. *)
Definition _select_least_loaded (load : string -> result Z) (self : LoadBalancer) (exclude_server : option string)
    : result (option string * LoadBalancer) :=
  let candidates := candidates_of self exclude_server in
  loads ← mapM load candidates;
  match min_of loads with
  | None => Ok (None, self)
  | Some min_load =>
      let tied := (filter (fun p => p.2 = min_load) (zip candidates loads)).*1 in
      i ← pymod (rr_counter self) (len tied);
      server ← py_get tied i;
      Ok (Some server, next_rr self)
  end.

(** ** The list of servers *)

Record Servers := mkServers { servers : list string; prepared_ready_servers : gset string }.

Section Preparation.
(** Whether the preparation of a server succeeds. *)
Variable preparation_ok : string -> bool.

Definition _prepare_server (self : Servers) (server : string) : Servers :=
  if bool_decide (server ∈ prepared_ready_servers self) then self
  else if preparation_ok server then mkServers (servers self) ({[server]} ∪ prepared_ready_servers self)
  else self.

Definition prepare_servers (self : Servers) (which : option (list string)) : Servers :=
  let l := match which with Some (s :: l) => s :: l | _ => servers self end in
  foldl (fun self server => if bool_decide (server ∈ servers self) then _prepare_server self server else self) self l.

(** [on_update] is [_on_servers_updated] of the router. *)
Definition add_server {R} (on_update : R -> list string -> list string -> R) (self : Servers * R) (server : string) : Servers * R :=
  let '(b, r) := self in
  if bool_decide (server ∈ servers b) then self
  else
    let new := servers b ++ [server] in
    let r := on_update r (servers b) new in
    (_prepare_server (mkServers new (prepared_ready_servers b)) server, r).

Definition remove_server {R} (on_update : R -> list string -> list string -> R) (self : Servers * R) (server : string) : Servers * R :=
  let '(b, r) := self in
  if negb (bool_decide (server ∈ servers b)) then self
  else
    let new := filter (fun s => s <> server) (servers b) in
    let r := on_update r (servers b) new in
    (mkServers new (prepared_ready_servers b ∖ {[server]}), r).

(** One round of [_monitor_servers], with the servers it has found. *)
Definition monitor_update {R} (on_update : R -> list string -> list string -> R) (self : Servers * R) (final_servers : list string)
    : result (Servers * R) :=
  let '(b, r) := self in
  _ ← py_assert (negb (bool_decide (final_servers = [])));
  if bool_decide (final_servers = servers b) then Ok self
  else
    let old_servers := servers b in
    let r := on_update r old_servers final_servers in
    let b := mkServers final_servers (foldl (fun p s => if bool_decide (s ∈ final_servers) then p else p ∖ {[s]}) (prepared_ready_servers b) old_servers) in
    let b := foldl (fun b s => if bool_decide (s ∈ old_servers) then b else _prepare_server b s) b final_servers in
    Ok (b, r).

End Preparation.

Definition _on_servers_updated (self : LoadBalancer) (old_servers new_servers : list string) : LoadBalancer :=
  with_state self (foldl (fun new_state server => od_set new_state server (default ServerState_init (od_get (server_state self) server)))
                     [] new_servers).

(** ** The routers *)

Module RoundRobin.

Record RoundRobinRouter := mkRoundRobinRouter { rr_servers : list string; server_idx : Z }.

Definition _get_next_server (self : RoundRobinRouter) : result (string * RoundRobinRouter) :=
  i ← pymod (server_idx self) (len (rr_servers self));
  server ← py_get (rr_servers self) i;
  Ok (server, mkRoundRobinRouter (rr_servers self) (server_idx self + 1)).

(** An empty string is as good as no server to exclude. *)
Definition excluded (exclude_server : option string) (server : string) : bool :=
  match exclude_server with Some e => negb (bool_decide (e = EmptyString)) && bool_decide (server = e) | None => false end.

Definition get_next_server (self : RoundRobinRouter) (exclude_server : option string) : result (string * RoundRobinRouter) :=
  if bool_decide (rr_servers self = []) then Err ValueError
  else
    '(server, self) ← _get_next_server self;
    if excluded exclude_server server then
      '(server, self) ← _get_next_server self;
      if bool_decide (Some server = exclude_server) then Err ValueError else Ok (server, self)
    else Ok (server, self).

End RoundRobin.

Module LoadBalancing.

Definition get_next_server (servers : list string) (self : LoadBalancer) (request : OpenAIRequest) (exclude_server : option string)
    : result (string * LoadBalancer) :=
  if bool_decide (servers = []) then Err ValueError
  else
    '(server, self) ← _select_least_loaded (_get_server_load self) self exclude_server;
    match server with
    | None => Err ValueError
    | Some server => self ← _register_request self server request; Ok (server, self)
    end.

Definition finish_request (self : LoadBalancer) (request : OpenAIRequest) : result LoadBalancer :=
  '(_, self) ← _unregister_request self request;
  Ok self.

End LoadBalancing.

(** ** Block hashes of prompts *)

(** [range(0, stop, step)] *)
Definition py_range (stop step : Z) : result (list Z) :=
  if step =? 0 then Err ValueError
  else Ok ((fun i => i * step) <$> seqZ 0 (if 0 <? step then (stop + step - 1) / step else (- stop - step - 1) / (- step))).

Section Hashing.
Context (apply_chat_template : list (text * text) -> list Z) (encode : text -> list Z) (hasher : list Z -> Z -> Z).

Definition with_body (request : OpenAIRequest) (b : Body) : OpenAIRequest :=
  mkOpenAIRequest (req_id request) b (disaggregated_params request).

Definition encode_prompts (request : OpenAIRequest) (prompts : list text) : list (list Z) * OpenAIRequest :=
  let token_lists := encode <$> prompts in
  (token_lists, with_body request (CompletionRequest (match token_lists with [l] => PInts l | _ => PLists token_lists end))).

(** The token lists, and the request with its prompt replaced by them. *)
Definition _tokenize (request : OpenAIRequest) : result (list (list Z) * OpenAIRequest) :=
  match body request with
  | ChatCompletionRequest _ (Some ids) => Ok ([ids], request)
  | ChatCompletionRequest messages None =>
      let ids := apply_chat_template messages in
      Ok ([ids], with_body request (ChatCompletionRequest messages (Some ids)))
  | CompletionRequest (PLists []) | CompletionRequest (PInts []) | CompletionRequest (PStrs []) => Err IndexError
  | CompletionRequest (PLists l) => Ok (l, request)
  | CompletionRequest (PInts l) => Ok ([l], request)
  | CompletionRequest (PStr s) => Ok (encode_prompts request [s])
  | CompletionRequest (PStrs l) => Ok (encode_prompts request l)
  end.

Definition block_key_hasher (token_ids : list Z) (parent_hash : option Z) : Z := hasher token_ids (default 0 parent_hash).

(** The last token is in no block. *)
Definition hash_list_of (tokens_per_block : Z) (token_list : list Z) : result (list Z) :=
  ts ← py_range (len token_list - 1) tokens_per_block;
  Ok (foldl (fun hash_list t =>
        let t_end := Z.min (t + tokens_per_block) (len token_list - 1) in
        let block := drop (Z.to_nat t) (take (Z.to_nat t_end) token_list) in
        hash_list ++ [block_key_hasher block (if t =? 0 then None else last hash_list)]) [] ts).

Definition _compute_block_hashes (tokens_per_block : Z) (token_lists : list (list Z)) : result (list (list Z)) :=
  mapM (hash_list_of tokens_per_block) token_lists.

Definition _tokenize_and_compute_block_hashes (tokens_per_block : Z) (request : OpenAIRequest)
    : result (list (list Z) * list (list Z) * OpenAIRequest) :=
  '(token_lists, request) ← _tokenize request;
  block_hashes ← _compute_block_hashes tokens_per_block token_lists;
  Ok (token_lists, block_hashes, request).

End Hashing.

(** ** Routing by cached blocks *)

Module KvCacheAware.

(** The servers to choose from, read under the lock. *)
Definition servers_of (self : LoadBalancer) (exclude_server : option string) : list string := candidates_of self exclude_server.

(** [max(scores)], the first of the largest. *)
Definition max_score (scores : list float) : option float :=
  match scores with [] => None | x :: l => Some (foldl (fun m s => if fltb m s then s else m) x l) end.

Definition score (matches padded_tokens workload max_batch_size : Z) : result float :=
  m ← truediv matches padded_tokens;
  w ← truediv workload max_batch_size;
  Ok (fsub m w).

Definition score_of (self : LoadBalancer) (tokens_per_block padded_tokens max_batch_size : Z) (block_hashes : list (list Z)) (workloads : list Z)
    (x : Z * string) : result float :=
  let '(i, server) := x in
  state ← state_of self server;
  w ← py_get workloads i;
  score (matched_tokens tokens_per_block state block_hashes) padded_tokens w max_batch_size.

(** The server with the best score; the loads are those of all servers. *)
Definition best_server (self : LoadBalancer) (servers : list string) (tokens_per_block max_batch_size : Z) (block_hashes : list (list Z))
    : result (string * LoadBalancer) :=
  let padded_tokens := zsum (fun hash_list => len hash_list) block_hashes * tokens_per_block in
  let workloads := (fun p => num_active_requests p.2) <$> server_state self in
  scores ← mapM (score_of self tokens_per_block padded_tokens max_batch_size block_hashes workloads) (zip (seqZ 0 (len servers)) servers);
  match max_score scores with
  | None => Err ValueError
  | Some m =>
      let tied := (filter (fun p => feqb p.2 m = true) (zip (seqZ 0 (len scores)) scores)).*1 in
      j ← pymod (rr_counter self) (len tied);
      winner ← py_get tied j;
      server ← py_get servers winner;
      Ok (server, next_rr self)
  end.

(** [servers] was read before the prompt was hashed, [self] is the state after that. *)
Definition get_next_server (self : LoadBalancer) (servers : list string) (tokens_per_block max_batch_size : Z) (block_hashes : list (list Z))
    (request : OpenAIRequest) : result (string * LoadBalancer) :=
  '(server, self) ← match servers with
                    | [] => Err RuntimeError
                    | [server] => Ok (server, self)
                    | _ => best_server self servers tokens_per_block max_batch_size block_hashes
                    end;
  self ← _register_request self server request;
  Ok (server, self).

(** [events] is what the server answers, [None] if it could not be asked. *)
Definition finish_request (self : LoadBalancer) (request : OpenAIRequest) (events : option (list CacheEvent)) : result LoadBalancer :=
  match req_routing_table self !! req_id request with
  | None => Ok self
  | Some server =>
      '(_, self) ← _unregister_request self request;
      Ok (match od_get (server_state self) server, events with
          | Some state, Some events => with_state self (od_set (server_state self) server (update_with_events state events))
          | _, _ => self
          end)
  end.

End KvCacheAware.

(** ** Choosing a server with the least load *)

Lemma min_of_spec l : match min_of l with None => l = [] | Some m => m ∈ l /\ forall x, x ∈ l -> m <= x end.
Proof.
  destruct l as [|x l]; [done|]. simpl. assert (H : forall a, (foldl Z.min a l = a \/ foldl Z.min a l ∈ l) /\ foldl Z.min a l <= a /\ forall y, y ∈ l -> foldl Z.min a l <= y).
  { induction l as [|b l IH]; intros a; simpl; [split_and!; [by left|lia|set_solver]|]. destruct (IH (Z.min a b)) as (H1 & H2 & H3). split_and!.
    - destruct H1 as [->|H1]; [|right; set_solver]. destruct (Z.min_spec a b) as [[_ ->]|[_ ->]]; [by left|right; set_solver].
    - lia.
    - intros y [->|Hy]%elem_of_cons; [lia|by apply H3]. }
  destruct (H x) as (H1 & H2 & H3). split; [destruct H1 as [->|H1]; set_solver|]. intros y [->|Hy]%elem_of_cons; [done|by apply H3].
Qed.

Definition least_loaded (load : string -> result Z) (candidates : list string) (s : string) : Prop :=
  s ∈ candidates /\ exists l, load s = Ok l /\ forall s' l', s' ∈ candidates -> load s' = Ok l' -> l <= l'.

(** Taking turns. *)
Lemma server_pick_spec {A} rr (l : list A) : l <> [] ->
  exists i x, pymod rr (len l) = Ok i /\ py_get l i = Ok x /\ l !! Z.to_nat (rr mod len l) = Some x.
Proof.
  intros Hl. assert (0 < len l) by (destruct l; [done|simpl; lia]). pose proof (Z.mod_pos_bound rr (len l)) as Hb.
  destruct (lookup_lt_is_Some_2 l (Z.to_nat (rr mod len l))) as [x Hx]; [lia|]. exists (rr mod len l), x. unfold pymod.
  rewrite (proj2 (Z.eqb_neq _ _)) by lia. split; [done|]. split; [|done]. rewrite <- (Z2Nat.id (rr mod len l)) by lia. by apply py_get_nat.
Qed.

Lemma select_spec load self ex :
  (forall s, s ∈ candidates_of self ex -> exists l, load s = Ok l) ->
  match _select_least_loaded load self ex with
  | Ok (None, self') => candidates_of self ex = [] /\ self' = self
  | Ok (Some s, self') => least_loaded load (candidates_of self ex) s /\ self' = next_rr self
  | Err _ => False
  end.
Proof.
  intros Hload. unfold _select_least_loaded. set (cs := candidates_of self ex) in *.
  destruct (mapM_cases load cs) as [(loads & -> & Hlen & Hl)|(i & x & e & Hx & He & _)]; cycle 1.
  { destruct (Hload x) as [l Hl]; [by eapply list_elem_of_lookup_2|congruence]. }
  cbn [mbind result_bind]. pose proof (min_of_spec loads) as Hmin. destruct (min_of loads) as [m|]; [|subst loads; by destruct cs].
  destruct Hmin as [Hm Hle]. apply list_elem_of_lookup_1 in Hm as [k Hk].
  set (tied := (filter (fun p => p.2 = m) (zip cs loads)).*1).
  assert (Htied : forall s, s ∈ tied -> least_loaded load cs s).
  { intros s ([s0 l0] & -> & [Hl0 Hz]%list_elem_of_filter)%list_elem_of_fmap. simpl in *. subst l0. apply list_elem_of_lookup_1 in Hz as [i Hz].
    apply lookup_zip_with_Some in Hz as (? & ? & [= <- <-] & Hi & Hi'). split; [by eapply list_elem_of_lookup_2|]. exists m.
    destruct (Hl i s0 Hi) as (y & Hy & Hly). assert (y = m) as -> by congruence. split; [done|].
    intros s' l' [i' Hs']%list_elem_of_lookup Hl'. destruct (Hl i' s' Hs') as (y & Hy' & Hly'). assert (y = l') as -> by congruence.
    apply Hle. by eapply list_elem_of_lookup_2. }
  destruct (server_pick_spec (rr_counter self) tied) as (i & s & -> & Hs & Hlk).
  { destruct (lookup_lt_is_Some_2 cs k) as [s Hs]; [rewrite <- Hlen; by eapply lookup_lt_Some|].
    assert (Hin : s ∈ tied); [|by intros He; rewrite He in Hin; apply not_elem_of_nil in Hin].
    apply list_elem_of_fmap. exists (s, m). split; [done|]. apply list_elem_of_filter. split; [done|].
    apply (list_elem_of_lookup_2 _ k). by rewrite lookup_zip_with, Hs, Hk. }
  cbn [mbind result_bind]. rewrite Hs. cbn [mbind result_bind]. split; [|done]. apply Htied. by eapply list_elem_of_lookup_2.
Qed.

Lemma elem_of_candidates self ex s : s ∈ candidates_of self ex <-> s ∈ (server_state self).*1 /\ Some s <> ex.
Proof. unfold candidates_of. rewrite list_elem_of_filter. tauto. Qed.

Lemma candidates_loaded self ex s : s ∈ candidates_of self ex -> exists l, _get_server_load self s = Ok l.
Proof.
  intros [Hs _]%elem_of_candidates. apply od_get_is_Some in Hs as [st Hst]. unfold _get_server_load, state_of. rewrite Hst. simpl. eauto.
Qed.

(** ** What is in flight *)

(** The sum over the requests sent to a server. *)
Definition routed (f : Z -> Z) (t : gmap Z string) (s : string) : Z :=
  zsum (fun e => if bool_decide (e.2 = s) then f e.1 else 0) (map_to_list t).

Lemma routed_insert f t r s s' : t !! r = None -> routed f (<[r := s]> t) s' = routed f t s' + (if bool_decide (s = s') then f r else 0).
Proof.
  intros Hn. unfold routed. rewrite (zsum_perm _ _ ((r, s) :: map_to_list t)) by by apply map_to_list_insert. rewrite zsum_cons. simpl. lia.
Qed.

Lemma routed_delete f t r s s' : t !! r = Some s -> routed f (delete r t) s' = routed f t s' - (if bool_decide (s = s') then f r else 0).
Proof.
  intros Hs. pose proof (routed_insert f (delete r t) r s s' (lookup_delete_eq _ _)) as H. rewrite insert_delete_id in H by done. lia.
Qed.

Lemma routed_ext f g t s : (forall r, t !! r = Some s -> f r = g r) -> routed f t s = routed g t s.
Proof.
  intros H. apply zsum_ext. intros [r s'] Hin%elem_of_map_to_list. simpl. case_bool_decide; [subst; by apply H|done].
Qed.

Lemma routed_none f t s : (forall r, t !! r <> Some s) -> routed f t s = 0.
Proof. intros H. apply zsum_0. intros [r s'] Hin%elem_of_map_to_list. simpl. case_bool_decide as Hd; [subst; by destruct (H r)|done]. Qed.

(** The tokens a request is counted with. *)
Definition weight_in (use_tokens : bool) (inflight : gmap Z OpenAIRequest) (r : Z) : Z :=
  match load_tokens use_tokens <$> inflight !! r with Some (Ok n) => n | _ => 0 end.

(** For every server, the requests and the tokens that were in flight to it when its
    state was made: nothing, unless it was away and has come back. *)
Definition Left := string -> Z * Z.

(** The counters of a server are those of the requests that were sent to it, less what
    was in flight when its state was made. *)
Record load_counted (self : LoadBalancer) (inflight : gmap Z OpenAIRequest) (left : Left) : Prop := {
  ct_keys : NoDup (server_state self).*1;
  ct_dom : dom (req_routing_table self) = dom inflight;
  ct_requests : forall s st, od_get (server_state self) s = Some st -> num_active_requests st = routed (fun _ => 1) (req_routing_table self) s - (left s).1;
  ct_tokens : forall s st, od_get (server_state self) s = Some st ->
    num_active_tokens st = routed (weight_in (use_tokens self) inflight) (req_routing_table self) s - (left s).2;
  ct_weighed : forall r req, inflight !! r = Some req -> req_id req = r /\ exists n, load_tokens (use_tokens self) req = Ok n;
}.

Lemma register_spec self inflight left server st req :
  load_counted self inflight left -> od_get (server_state self) server = Some st -> inflight !! req_id req = None ->
  match _register_request self server req with
  | Ok self' => load_counted self' (<[req_id req := req]> inflight) left /\ (server_state self').*1 = (server_state self).*1
      /\ req_routing_table self' = <[req_id req := server]> (req_routing_table self) /\ use_tokens self' = use_tokens self
      /\ rr_counter self' = rr_counter self
  | Err e => load_tokens (use_tokens self) req = Err e
  end.
Proof.
  intros [Hk Hd Hr Ht Hw] Hst Hnew. assert (Hnr : req_routing_table self !! req_id req = None) by (apply not_elem_of_dom; rewrite Hd; by apply not_elem_of_dom).
  unfold _register_request, state_of, increment_load. rewrite Hst. simpl. destruct (load_tokens (use_tokens self) req) as [n|e] eqn:En; [|done]. simpl.
  assert (Hkeys : server ∈ (server_state self).*1) by (apply od_get_is_Some; eauto).
  split; [|split_and!; [rewrite od_set_keys; by rewrite decide_True|done|done|done]]. split; simpl.
  - by apply od_set_nodup.
  - rewrite !dom_insert_L. by rewrite Hd.
  - intros s st'. rewrite od_get_set, routed_insert by done. case_decide as Hs.
    + subst s. intros [= <-]. simpl. rewrite (Hr _ _ Hst), bool_decide_true by done. lia.
    + intros Hst'. rewrite (Hr _ _ Hst'), bool_decide_false by done. lia.
  - intros s st'. rewrite od_get_set, routed_insert by done.
    assert (Hext : forall s', routed (weight_in (use_tokens self) (<[req_id req := req]> inflight)) (req_routing_table self) s' = routed (weight_in (use_tokens self) inflight) (req_routing_table self) s').
    { intros s'. apply routed_ext. intros r Hr'. unfold weight_in. rewrite lookup_insert_ne; [done|]. intros <-. congruence. }
    rewrite Hext. unfold weight_in at 2. rewrite lookup_insert_eq. simpl. rewrite En. case_decide as Hs.
    + subst s. intros [= <-]. simpl. rewrite (Ht _ _ Hst), bool_decide_true by done. lia.
    + intros Hst'. rewrite (Ht _ _ Hst'), bool_decide_false by done. lia.
  - intros r req' [[<- <-]|[_ H]]%lookup_insert_Some; [eauto|by apply Hw].
Qed.

Lemma unregister_spec self inflight left req :
  load_counted self inflight left -> inflight !! req_id req = Some req ->
  exists server self', _unregister_request self req = Ok (server, self') /\ req_routing_table self !! req_id req = Some server
    /\ load_counted self' (delete (req_id req) inflight) left /\ (server_state self').*1 = (server_state self).*1
    /\ req_routing_table self' = delete (req_id req) (req_routing_table self) /\ use_tokens self' = use_tokens self.
Proof.
  intros [Hk Hd Hr Ht Hw] Hin. destruct (Hw _ _ Hin) as [_ [n Hn]].
  assert (Hs : exists server, req_routing_table self !! req_id req = Some server) by (apply (elem_of_dom (req_routing_table self)); rewrite Hd; apply elem_of_dom; eauto).
  destruct Hs as [server Hs]. unfold _unregister_request. rewrite Hs. simpl.
  assert (Hext : forall s', routed (weight_in (use_tokens self) (delete (req_id req) inflight)) (delete (req_id req) (req_routing_table self)) s'
    = routed (weight_in (use_tokens self) inflight) (delete (req_id req) (req_routing_table self)) s').
  { intros s'. apply routed_ext. intros r [Hr' _]%lookup_delete_Some. unfold weight_in. by rewrite lookup_delete_ne. }
  assert (Hwt : weight_in (use_tokens self) inflight (req_id req) = n) by (unfold weight_in; rewrite Hin; simpl; by rewrite Hn).
  destruct (od_get (server_state self) server) as [st|] eqn:Est.
  - unfold decrement_load. rewrite Hn. simpl. assert (Hkeys : server ∈ (server_state self).*1) by (apply od_get_is_Some; eauto).
    eexists _, _. split; [done|]. split; [done|]. split; [|split_and!; [simpl; rewrite od_set_keys; by rewrite decide_True|done|done]]. split; simpl.
    + by apply od_set_nodup.
    + rewrite !dom_delete_L. by rewrite Hd.
    + intros s st'. rewrite od_get_set, (routed_delete _ _ _ _ _ Hs). case_decide as Hd'.
      * subst s. intros [= <-]. simpl. rewrite (Hr _ _ Est), bool_decide_true by done. lia.
      * intros Hst'. rewrite (Hr _ _ Hst'), bool_decide_false by done. lia.
    + intros s st'. rewrite od_get_set, Hext, (routed_delete _ _ _ _ _ Hs). case_decide as Hd'.
      * subst s. intros [= <-]. simpl. rewrite (Ht _ _ Est), bool_decide_true by done. lia.
      * intros Hst'. rewrite (Ht _ _ Hst'), bool_decide_false by done. lia.
    + intros r req' [_ H]%lookup_delete_Some. by apply Hw.
  - eexists _, _. split; [done|]. split; [done|]. split; [|done]. split; simpl; [done|by rewrite !dom_delete_L, Hd| | |].
    + intros s st' Hst'. rewrite (routed_delete _ _ _ _ _ Hs), bool_decide_false by congruence. rewrite (Hr _ _ Hst'). lia.
    + intros s st' Hst'. rewrite Hext, (routed_delete _ _ _ _ _ Hs), bool_decide_false by congruence. rewrite (Ht _ _ Hst'). lia.
    + intros r req' [_ H]%lookup_delete_Some. by apply Hw.
Qed.

(** A dictionary built from a list of keys. *)
Lemma od_build {V} (g : string -> V) l d :
  let d' := foldl (fun d s => od_set d s (g s)) d l in
  (NoDup d.*1 -> NoDup d'.*1) /\ (forall s, s ∈ d'.*1 <-> s ∈ d.*1 \/ s ∈ l) /\ forall s, od_get d' s = if decide (s ∈ l) then Some (g s) else od_get d s.
Proof.
  revert d. induction l as [|x l IH]; intros d; cbn [foldl].
  { split_and!; [done|set_solver|]. intros s. case_decide as H; [by apply not_elem_of_nil in H|done]. }
  destruct (IH (od_set d x (g x))) as (H1 & H2 & H3). split_and!.
  - intros Hnd. by apply H1, od_set_nodup.
  - intros s. rewrite H2, od_set_keys, elem_of_cons. case_decide; set_solver.
  - intros s. rewrite H3, od_get_set. repeat case_decide; set_solver.
Qed.

(** What is left to a server when the list of servers changes. *)
Definition renewed (self : LoadBalancer) (inflight : gmap Z OpenAIRequest) (left : Left) : Left := fun s =>
  if od_get (server_state self) s is Some _ then left s
  else (routed (fun _ => 1) (req_routing_table self) s, routed (weight_in (use_tokens self) inflight) (req_routing_table self) s).

Lemma on_update_spec self inflight left old new :
  load_counted self inflight left -> load_counted (_on_servers_updated self old new) inflight (renewed self inflight left).
Proof.
  intros [Hk Hd Hr Ht Hw]. destruct (od_build (fun s => default ServerState_init (od_get (server_state self) s)) new []) as (H1 & H2 & H3).
  unfold _on_servers_updated. split; simpl; [apply H1, NoDup_nil_2|done| | |done].
  all: intros s st; rewrite H3; unfold renewed; case_decide as Hs; [|done]; intros [= <-]; destruct (od_get (server_state self) s) as [st'|] eqn:E; simpl; [auto|lia].
Qed.

(** The load a server has from the requests that are in flight. *)
Definition inflight_load (self : LoadBalancer) (inflight : gmap Z OpenAIRequest) (s : string) : Z :=
  routed (if use_tokens self then weight_in (use_tokens self) inflight else fun _ => 1) (req_routing_table self) s.

Definition left_load (self : LoadBalancer) (left : Left) (s : string) : Z := if use_tokens self then (left s).2 else (left s).1.

Lemma counted_load self inflight left s l :
  load_counted self inflight left -> _get_server_load self s = Ok l -> l = inflight_load self inflight s - left_load self left s.
Proof.
  intros Hc. unfold _get_server_load, state_of, inflight_load, left_load. destruct (od_get (server_state self) s) as [st|] eqn:E; [|done]. simpl. intros [= <-].
  destruct (use_tokens self) eqn:Eu; [rewrite <- Eu; by apply (ct_tokens _ _ _ Hc)|by apply (ct_requests _ _ _ Hc)].
Qed.

(** The router at work: requests are sent, are refused or finish, and the list of
    servers changes.  A refused request may have used up a turn, and one that is not in
    flight can be finished to no effect. *)
Inductive in_operation : LoadBalancer -> gmap Z OpenAIRequest -> Left -> Prop :=
  | op_init servers ut : in_operation (_init_load_balancing servers ut) ∅ (fun _ => (0, 0))
  | op_route self inflight left servers req ex server self' :
      in_operation self inflight left -> inflight !! req_id req = None ->
      LoadBalancing.get_next_server servers self req ex = Ok (server, self') -> in_operation self' (<[req_id req := req]> inflight) left
  | op_refused self inflight left : in_operation self inflight left -> in_operation (next_rr self) inflight left
  | op_finish self inflight left req self' :
      in_operation self inflight left -> (forall r, inflight !! req_id req = Some r -> r = req) ->
      LoadBalancing.finish_request self req = Ok self' -> in_operation self' (delete (req_id req) inflight) left
  | op_servers self inflight left old new :
      in_operation self inflight left -> in_operation (_on_servers_updated self old new) inflight (renewed self inflight left).

Lemma counted_next_rr self inflight left : load_counted self inflight left -> load_counted (next_rr self) inflight left.
Proof. by destruct 1; split. Qed.

Lemma get_next_server_spec self inflight left servers req ex :
  load_counted self inflight left -> inflight !! req_id req = None ->
  match LoadBalancing.get_next_server servers self req ex with
  | Ok (server, self') => load_counted self' (<[req_id req := req]> inflight) left
      /\ req_routing_table self' = <[req_id req := server]> (req_routing_table self) /\ (server_state self').*1 = (server_state self).*1
      /\ use_tokens self' = use_tokens self /\ least_loaded (_get_server_load self) (candidates_of self ex) server
  | Err e => (e = ValueError /\ (servers = [] \/ candidates_of self ex = [])) \/ load_tokens (use_tokens self) req = Err e
  end.
Proof.
  intros Hc Hnew. unfold LoadBalancing.get_next_server. case_bool_decide as Hs; [by left; auto|].
  pose proof (select_spec (_get_server_load self) self ex (candidates_loaded self ex)) as Hsel.
  destruct (_select_least_loaded (_get_server_load self) self ex) as [[[server|] self1]|e]; simpl; [| |done].
  - destruct Hsel as [Hleast ->]. destruct (proj1 (elem_of_candidates _ _ _) (proj1 Hleast)) as [Hin _]. apply od_get_is_Some in Hin as [st Hst].
    pose proof (register_spec (next_rr self) inflight left server st req (counted_next_rr _ _ _ Hc) Hst Hnew) as Hreg.
    destruct (_register_request (next_rr self) server req) as [self'|e]; [|by right]. destruct Hreg as (? & ? & ? & ? & _). simpl. done.
  - destruct Hsel as [Hnone ->]. left. auto.
Qed.

(** A request that is not in flight. *)
Lemma unregister_unknown self inflight left req :
  load_counted self inflight left -> inflight !! req_id req = None -> _unregister_request self req = Ok (EmptyString, self).
Proof.
  intros Hc Hn. unfold _unregister_request. assert (Hnr : req_routing_table self !! req_id req = None); [|by rewrite Hnr].
  apply not_elem_of_dom. rewrite (ct_dom _ _ _ Hc). by apply not_elem_of_dom.
Qed.

Lemma in_operation_counted self inflight left : in_operation self inflight left -> load_counted self inflight left.
Proof.
  induction 1 as [servers ut|self inflight left servers req ex server self' _ IH Hnew Hr|self inflight left _ IH|self inflight left req self' _ IH Hin Hf|self inflight left old new _ IH].
  - destruct (od_build (fun _ => ServerState_init) servers []) as (H1 & H2 & H3). split; simpl; [apply H1, NoDup_nil_2|by rewrite !dom_empty_L| | |by intros *; rewrite lookup_empty].
    all: intros s st; rewrite H3; case_decide; [|done]; intros [= <-]; rewrite routed_none; [done|]; intros r; by rewrite lookup_empty.
  - pose proof (get_next_server_spec self inflight left servers req ex IH Hnew) as H. rewrite Hr in H. apply H.
  - by apply counted_next_rr.
  - unfold LoadBalancing.finish_request in Hf. destruct (inflight !! req_id req) as [r|] eqn:Er.
    + rewrite (Hin _ eq_refl) in Er. destruct (unregister_spec self inflight left req IH Er) as (server & self1 & Hu & _ & Hc & _). rewrite Hu in Hf. by injection Hf as <-.
    + rewrite (unregister_unknown self inflight left req IH Er) in Hf. injection Hf as <-. by rewrite delete_id.
  - by apply on_update_spec.
Qed.

(** C21. In any run, the counters of a server are those of the requests in flight to it,
    less what was in flight to it when its state was made, which is nothing for a server
    that has always been there or came back with nothing in flight.  A request goes to a
    server that is not excluded and has the least load by these counters.  It fails if
    there is no such server, or if the request cannot be weighed. *)
Theorem least_load_first self inflight left servers req ex :
  in_operation self inflight left -> inflight !! req_id req = None ->
  (forall s st, od_get (server_state self) s = Some st ->
     num_active_requests st = routed (fun _ => 1) (req_routing_table self) s - (left s).1
     /\ num_active_tokens st = routed (weight_in (use_tokens self) inflight) (req_routing_table self) s - (left s).2)
  /\ match LoadBalancing.get_next_server servers self req ex with
     | Ok (server, self') =>
         server ∈ (server_state self).*1 /\ Some server <> ex
         /\ (forall s, s ∈ (server_state self).*1 -> Some s <> ex ->
              inflight_load self inflight server - left_load self left server <= inflight_load self inflight s - left_load self left s)
         /\ req_routing_table self' = <[req_id req := server]> (req_routing_table self)
     | Err e => (e = ValueError /\ (servers = [] \/ forall s, s ∈ (server_state self).*1 -> ex = Some s))
         \/ load_tokens (use_tokens self) req = Err e
     end.
Proof.
  intros Hop Hnew. pose proof (in_operation_counted _ _ _ Hop) as Hc. split.
  { intros s st Hst. split; [by apply (ct_requests _ _ _ Hc)|by apply (ct_tokens _ _ _ Hc)]. }
  pose proof (get_next_server_spec self inflight left servers req ex Hc Hnew) as H.
  destruct (LoadBalancing.get_next_server servers self req ex) as [[server self']|e].
  - destruct H as (_ & Hr & _ & _ & Hin & l & Hl & Hmin). apply elem_of_candidates in Hin as Hin'. destruct Hin' as [? ?]. split_and!; try done.
    intros s Hs Hne. assert (Hcs : s ∈ candidates_of self ex) by by apply elem_of_candidates. destruct (candidates_loaded self ex s Hcs) as [l' Hl'].
    rewrite <- (counted_load _ _ _ _ _ Hc Hl), <- (counted_load _ _ _ _ _ Hc Hl'). by apply (Hmin s).
  - destruct H as [[-> [?|Hnone]]|?]; [left; auto|left; split; [done|]; right|by right]. intros s Hs.
    destruct (decide (Some s = ex)) as [?|Hne]; [done|]. exfalso. apply (not_elem_of_nil s). rewrite <- Hnone. by apply elem_of_candidates.
Qed.

(** Requests in a row. *)
Definition route_all (servers : list string) (self : LoadBalancer) (reqs : list OpenAIRequest) : result LoadBalancer :=
  for_each (fun self req => '(_, self) ← LoadBalancing.get_next_server servers self req None; Ok self) self reqs.

(** All servers have [m] or [m + 1] requests. *)
Definition level (servers : list string) (self : LoadBalancer) : Prop :=
  use_tokens self = false /\ (forall s, s ∈ (server_state self).*1 <-> s ∈ servers)
  /\ exists m, forall s st, od_get (server_state self) s = Some st -> m <= num_active_requests st <= m + 1.

Lemma level_route servers self req : servers <> [] -> level servers self ->
  exists server self', LoadBalancing.get_next_server servers self req None = Ok (server, self') /\ level servers self'.
Proof.
  intros Hne (Hu & Hk & m & Hm). unfold LoadBalancing.get_next_server. rewrite bool_decide_false by done.
  pose proof (select_spec (_get_server_load self) self None (candidates_loaded self None)) as Hsel.
  destruct (_select_least_loaded (_get_server_load self) self None) as [[[server|] self1]|e]; simpl; [| |done]; cycle 1.
  { destruct Hsel as [Hnone _]. destruct servers as [|s servers]; [done|]. exfalso. apply (not_elem_of_nil s). rewrite <- Hnone.
    apply elem_of_candidates. split; [apply Hk; set_solver|done]. }
  destruct Hsel as [(Hin & l & Hl & Hmin) ->]. unfold _get_server_load, state_of in Hl. unfold _register_request, state_of, increment_load, load_tokens. simpl.
  destruct (od_get (server_state self) server) as [st|] eqn:Est; [|done]. simpl in *. rewrite Hu in Hl |- *. injection Hl as <-. simpl.
  eexists _, _. split; [done|]. split; [done|]. simpl. split.
  { intros s. rewrite od_set_keys, decide_True; [apply Hk|]. by apply elem_of_candidates in Hin as [? _]. }
  destruct (decide (num_active_requests st = m)) as [Hlow|Hhigh].
  - exists m. intros s st'. rewrite od_get_set. case_decide; [intros [= <-]; simpl; lia|apply Hm].
  - exists (m + 1). intros s st'. rewrite od_get_set. pose proof (Hm _ _ Est). case_decide as Hs; [intros [= <-]; simpl; lia|]. intros Hst'.
    assert (num_active_requests st <= num_active_requests st'); [|pose proof (Hm _ _ Hst'); lia]. apply (Hmin s).
    + apply elem_of_candidates. split; [apply od_get_is_Some; eauto|done].
    + unfold _get_server_load, state_of. rewrite Hst'. simpl. by rewrite Hu.
Qed.

(** If none of the requests finishes and they are counted by number, no server gets two
    requests more than another. *)
Theorem requests_spread_evenly servers reqs :
  servers <> [] ->
  exists self, route_all servers (_init_load_balancing servers false) reqs = Ok self
    /\ forall s1 s2 st1 st2, od_get (server_state self) s1 = Some st1 -> od_get (server_state self) s2 = Some st2 ->
         num_active_requests st1 <= num_active_requests st2 + 1.
Proof.
  intros Hne. destruct (for_each_total (fun self req => '(_, self) ← LoadBalancing.get_next_server servers self req None; Ok self)
    (level servers) reqs (_init_load_balancing servers false)) as (self & Hr & _ & _ & m & Hm).
  - destruct (od_build (fun _ => ServerState_init) servers []) as (_ & H2 & H3). split; [done|]. simpl. split; [set_solver|].
    exists 0. intros s st. rewrite H3. case_decide; [|done]. intros [= <-]. simpl. lia.
  - intros self req _ Hl. destruct (level_route servers self req Hne Hl) as (server & self' & -> & Hl'). eauto.
  - exists self. split; [done|]. intros s1 s2 st1 st2 H1 H2. pose proof (Hm _ _ H1). pose proof (Hm _ _ H2). lia.
Qed.

Lemma requests_spread_evenly_witness :
  exists self, route_all ["a"; "b"]%string (_init_load_balancing ["a"; "b"]%string false)
      [mkOpenAIRequest 1 (CompletionRequest (PInts [5])) None; mkOpenAIRequest 2 (CompletionRequest (PInts [5])) None] = Ok self
    /\ forall s1 s2 st1 st2, od_get (server_state self) s1 = Some st1 -> od_get (server_state self) s2 = Some st2 ->
         num_active_requests st1 <= num_active_requests st2 + 1.
Proof. by apply requests_spread_evenly. Defined.

Definition int_request (r : Z) (ids : list Z) : OpenAIRequest := mkOpenAIRequest r (CompletionRequest (PInts ids)) None.

Lemma least_load_first_witness :
  match LoadBalancing.get_next_server ["a"; "b"]%string (_init_load_balancing ["a"; "b"]%string true) (int_request 7 [1; 2]) (Some "a"%string) with
  | Ok (server, self') => server = "b"%string /\ req_routing_table self' = {[7 := "b"%string]}
  | Err _ => False
  end.
Proof.
  destruct (least_load_first (_init_load_balancing ["a"; "b"]%string true) ∅ (fun _ => (0, 0)) ["a"; "b"]%string (int_request 7 [1; 2]) (Some "a"%string)
    (op_init _ _) (lookup_empty _)) as [_ H].
  destruct (LoadBalancing.get_next_server _ _ _ _) as [[server self']|e] eqn:E; vm_compute in E; [|congruence].
  injection E as <- <-. split; [done|apply H].
Defined.

(** ** Servers that come back *)

(** A server that is removed and added again while a request it was sent is in flight
    starts from zero, and the end of that request is taken off: it has fewer than no
    requests, and gets more than its share. *)
Theorem returning_server_below_zero :
  match '(server, self) ← LoadBalancing.get_next_server ["a"]%string (_init_load_balancing ["a"]%string false) (int_request 7 [1]) None;
        let '(_, self) := remove_server _on_servers_updated (mkServers ["a"]%string ∅, self) "a"%string in
        let '(_, self) := add_server (fun _ => true) _on_servers_updated (mkServers [] ∅, self) "a"%string in
        LoadBalancing.finish_request self (int_request 7 [1]) with
  | Ok self => server_state self = [("a"%string, mkServerState (-1) 0 ∅)]
  | Err _ => False
  end.
Proof. by vm_compute. Qed.

(** ** Taking turns *)

Module Turns.
Import RoundRobin.

(** The servers of [n] requests in a row. *)
Fixpoint turns (n : nat) (self : RoundRobinRouter) : result (list string * RoundRobinRouter) :=
  match n with
  | O => Ok ([], self)
  | S n =>
      '(server, self) ← get_next_server self None;
      '(l, self) ← turns n self;
      Ok (server :: l, self)
  end.

Lemma _get_next_server_spec self : rr_servers self <> [] ->
  exists s, _get_next_server self = Ok (s, mkRoundRobinRouter (rr_servers self) (server_idx self + 1))
    /\ rr_servers self !! Z.to_nat (server_idx self mod len (rr_servers self)) = Some s.
Proof.
  intros Hne. destruct (server_pick_spec (server_idx self) (rr_servers self) Hne) as (i & s & Hi & Hs & Hl). exists s. unfold _get_next_server. rewrite Hi. simpl. by rewrite Hs.
Qed.

Lemma turns_spec n self : rr_servers self <> [] ->
  exists l, turns n self = Ok (l, mkRoundRobinRouter (rr_servers self) (server_idx self + Z.of_nat n)) /\ length l = n
    /\ forall i, (i < n)%nat -> l !! i = rr_servers self !! Z.to_nat ((server_idx self + Z.of_nat i) mod len (rr_servers self)).
Proof.
  intros Hne. revert self Hne. induction n as [|n IH]; intros [l idx] Hne; simpl in *.
  { exists []. rewrite Z.add_0_r. split_and!; [done|done|lia]. }
  unfold get_next_server. rewrite bool_decide_false by done. destruct (_get_next_server_spec (mkRoundRobinRouter l idx) Hne) as (s & -> & Hs). simpl in *.
  destruct (IH (mkRoundRobinRouter l (idx + 1)) Hne) as (l' & -> & Hlen & Hl). simpl in *. exists (s :: l'). split_and!.
  - do 3 f_equal. lia.
  - simpl. lia.
  - intros [|i] Hi; simpl; [by rewrite Z.add_0_r|]. rewrite Hl by lia. do 3 f_equal. lia.
Qed.

Lemma get_next_excluding self ex : NoDup (rr_servers self) -> (EmptyString ∉ rr_servers self) -> rr_servers self <> [] ->
  match get_next_server self ex with
  | Ok (s, _) => s ∈ rr_servers self /\ Some s <> ex
  | Err e => e = ValueError /\ forall s, s ∈ rr_servers self -> Some s = ex
  end.
Proof.
  intros Hnd Hempty Hne. unfold get_next_server. rewrite bool_decide_false by done.
  destruct (_get_next_server_spec self Hne) as (s & -> & Hs). simpl. assert (Hin : s ∈ rr_servers self) by by eapply list_elem_of_lookup_2.
  destruct (excluded ex s) eqn:Ex.
  - assert (Hex : ex = Some s) by (unfold excluded in Ex; destruct ex as [e|]; [|done]; apply andb_true_iff in Ex as [_ ?%bool_decide_eq_true]; congruence). subst ex.
    destruct (_get_next_server_spec (mkRoundRobinRouter (rr_servers self) (server_idx self + 1)) Hne) as (s' & -> & Hs'). simpl in *.
    assert (Hin' : s' ∈ rr_servers self) by by eapply list_elem_of_lookup_2. clear Ex. case_bool_decide as Hd; [|by split]. injection Hd as ->.
    split; [done|]. pose proof (NoDup_lookup _ _ _ _ Hnd Hs Hs') as He. set (n := len (rr_servers self)) in *.
    assert (0 < n) by (unfold n; destruct (rr_servers self); [done|simpl; lia]).
    pose proof (Z.mod_pos_bound (server_idx self) n). pose proof (Z.mod_pos_bound (server_idx self + 1) n).
    assert (Hmod : (server_idx self + 1) mod n = server_idx self mod n) by lia.
    pose proof (Z.div_mod (server_idx self) n) as Hd1. pose proof (Z.div_mod (server_idx self + 1) n) as Hd2.
    destruct (Z.eq_mul_1_nonneg n ((server_idx self + 1) / n - server_idx self / n)) as [Hn _]; [lia|lia|].
    intros s'' Hs''. destruct (rr_servers self) as [|a [|b l]]; [done|set_solver|unfold n in Hn; simpl in Hn; lia].
  - split; [done|]. intros <-. simpl in Ex. rewrite (bool_decide_true (s = s)), (bool_decide_false (s = EmptyString)) in Ex by set_solver. done.
Qed.

(** In as many requests as there are servers, every server has its turn once.  A server
    that is excluded is passed over if there is another. *)
Theorem round_robin_turns self ex :
  rr_servers self <> [] -> NoDup (rr_servers self) -> (EmptyString ∉ rr_servers self) ->
  (exists l, turns (length (rr_servers self)) self = Ok (l, mkRoundRobinRouter (rr_servers self) (server_idx self + len (rr_servers self)))
     /\ l ≡ₚ rr_servers self)
  /\ match get_next_server self ex with
     | Ok (s, _) => s ∈ rr_servers self /\ Some s <> ex
     | Err e => e = ValueError /\ forall s, s ∈ rr_servers self -> Some s = ex
     end.
Proof.
  intros Hne Hnd He. split; [|by apply get_next_excluding].
  destruct (turns_spec (length (rr_servers self)) self Hne) as (l & -> & Hlen & Hl). exists l. split; [done|].
  set (n := len (rr_servers self)) in *. assert (0 < n) by (unfold n; destruct (rr_servers self); [done|simpl; lia]).
  set (k := Z.to_nat (server_idx self mod n)). pose proof (Z.mod_pos_bound (server_idx self) n).
  assert (l = rotate k (rr_servers self)) as ->.
  { apply list_eq. intros i. destruct (decide (i < length (rr_servers self))%nat) as [Hi|Hi].
    - rewrite lookup_rotate_r by done. rewrite Hl by done. f_equal. unfold rotate_nat_add, k. rewrite Z2Nat.id by lia. fold n. by rewrite Zplus_mod_idemp_l.
    - rewrite !lookup_ge_None_2; [done|rewrite length_rotate; lia|lia]. }
  unfold rotate. rewrite Permutation_app_comm. by rewrite take_drop.
Qed.

Lemma round_robin_turns_witness : exists l self', turns 3 (mkRoundRobinRouter ["a"; "b"; "c"]%string 4) = Ok (l, self') /\ l ≡ₚ ["a"; "b"; "c"]%string.
Proof.
  destruct (round_robin_turns (mkRoundRobinRouter ["a"; "b"; "c"]%string 4) None) as [(l & Hl & Hp) _];
    [done|apply (bool_decide_unpack _); by vm_compute|apply (bool_decide_unpack _); by vm_compute|]. eauto.
Defined.

End Turns.

(** ** Block hashes of a common beginning *)

Section HashPrefix.
Context (hasher : list Z -> Z -> Z) (tokens_per_block : Z) (tpb_pos : 0 < tokens_per_block).

Definition hash_step (l : list Z) (hash_list : list Z) (t : Z) : list Z :=
  let t_end := Z.min (t + tokens_per_block) (len l - 1) in
  hash_list ++ [block_key_hasher hasher (drop (Z.to_nat t) (take (Z.to_nat t_end) l)) (if t =? 0 then None else last hash_list)].

(** The hashes of the first [k] blocks. *)
Definition first_hashes (l : list Z) (k : nat) : list Z := foldl (hash_step l) [] ((fun i => i * tokens_per_block) <$> seqZ 0 (Z.of_nat k)).

Lemma first_hashes_S l k : first_hashes l (S k) = hash_step l (first_hashes l k) (Z.of_nat k * tokens_per_block).
Proof. unfold first_hashes. rewrite Nat2Z.inj_succ, <- Z.add_1_r, seqZ_app by lia. rewrite fmap_app, foldl_app. done. Qed.

Lemma first_hashes_prefix l k n : first_hashes l k `prefix_of` first_hashes l (k + n).
Proof. induction n as [|n IH]; [by rewrite Nat.add_0_r|]. rewrite Nat.add_succ_r, first_hashes_S. unfold hash_step. by apply prefix_app_r. Qed.

Lemma length_first_hashes l k : length (first_hashes l k) = k.
Proof. induction k as [|k IH]; [done|]. rewrite first_hashes_S. unfold hash_step. rewrite length_app, IH. simpl. lia. Qed.

Lemma hash_list_of_eq l : hash_list_of hasher tokens_per_block l = Ok (first_hashes l (Z.to_nat ((len l - 1 + tokens_per_block - 1) / tokens_per_block))).
Proof.
  unfold hash_list_of, py_range, first_hashes. rewrite (proj2 (Z.eqb_neq _ _)), (proj2 (Z.ltb_lt 0 _)) by lia. simpl. do 3 f_equal.
  destruct (decide (0 <= (len l - 1 + tokens_per_block - 1) / tokens_per_block)); [by rewrite Z2Nat.id|]. rewrite Z2Nat.nonpos by lia. by rewrite seqZ_nil by lia.
Qed.

Lemma first_hashes_same l1 l2 k :
  Z.of_nat k * tokens_per_block < len l1 -> Z.of_nat k * tokens_per_block < len l2 ->
  take (k * Z.to_nat tokens_per_block) l1 = take (k * Z.to_nat tokens_per_block) l2 -> first_hashes l1 k = first_hashes l2 k.
Proof.
  induction k as [|k IH]; [done|]. intros H1 H2 Ht. rewrite !first_hashes_S, IH; [|lia|lia|].
  - unfold hash_step. do 3 f_equal. rewrite !Z.min_l by lia. replace (Z.to_nat (Z.of_nat k * tokens_per_block + tokens_per_block)) with (S k * Z.to_nat tokens_per_block)%nat by lia.
    by rewrite Ht.
  - apply (f_equal (take (k * Z.to_nat tokens_per_block))) in Ht. by rewrite !take_take, !Nat.min_l in Ht by lia.
Qed.

(** Prompts that begin with the same [k] full blocks have [k] hashes in common. *)
Lemma common_blocks l1 l2 k :
  Z.of_nat k * tokens_per_block < len l1 -> Z.of_nat k * tokens_per_block < len l2 ->
  take (k * Z.to_nat tokens_per_block) l1 = take (k * Z.to_nat tokens_per_block) l2 ->
  exists h1 h2, hash_list_of hasher tokens_per_block l1 = Ok h1 /\ hash_list_of hasher tokens_per_block l2 = Ok h2
    /\ (k <= length h1)%nat /\ (k <= length h2)%nat /\ take k h1 = take k h2.
Proof.
  intros H1 H2 Ht. rewrite !hash_list_of_eq. eexists _, _. split; [done|]. split; [done|]. rewrite !length_first_hashes.
  assert (Hk : forall l : list Z, Z.of_nat k * tokens_per_block < len l -> (k <= Z.to_nat ((len l - 1 + tokens_per_block - 1) / tokens_per_block))%nat).
  { intros l Hl. assert (Z.of_nat k <= (len l - 1 + tokens_per_block - 1) / tokens_per_block); [apply Z.div_le_lower_bound; lia|lia]. }
  assert (Htake : forall l : list Z, Z.of_nat k * tokens_per_block < len l -> take k (first_hashes l (Z.to_nat ((len l - 1 + tokens_per_block - 1) / tokens_per_block))) = first_hashes l k).
  { intros l Hl. specialize (Hk l Hl). set (n := Z.to_nat ((len l - 1 + tokens_per_block - 1) / tokens_per_block)) in *. destruct (first_hashes_prefix l k (n - k)) as [l' Hp].
    replace (k + (n - k))%nat with n in Hp by lia. rewrite Hp. rewrite take_app_length'; [done|symmetry; apply length_first_hashes]. }
  split_and!; [by apply Hk|by apply Hk|]. rewrite !Htake by done. by apply first_hashes_same.
Qed.

End HashPrefix.

(** ** Routing to the best match *)

Section BestMatch.
Import KvCacheAware.

Lemma max_score_spec scores : Forall (fun x => is_nan x = false) scores ->
  match max_score scores with None => scores = [] | Some m => m ∈ scores /\ forall s, s ∈ scores -> fltb m s = false end.
Proof.
  intros Hn. destruct scores as [|x l]; [done|]. simpl. apply Forall_cons in Hn as [Hx Hl].
  enough (H : forall a, is_nan a = false -> let m := foldl (fun m s => if fltb m s then s else m) a l in
    is_nan m = false /\ (m = a \/ m ∈ l) /\ fltb m a = false /\ forall s, s ∈ l -> fltb m s = false).
  { destruct (H x Hx) as (_ & H1 & H2 & H3). split; [destruct H1 as [->|H1]; set_solver|]. intros s [->|Hs]%elem_of_cons; [done|by apply H3]. }
  clear x Hx. induction Hl as [|b l Hb Hl IH]; intros a Ha; simpl.
  { split_and!; [done|by left|apply fltb_false; [done..|]; unfold key_lt; lia|set_solver]. }
  assert (Hc : is_nan (if fltb a b then b else a) = false) by by destruct (fltb a b).
  destruct (IH _ Hc) as (H0 & H1 & H2 & H3). set (m := foldl _ _ l) in *. apply (fltb_false _ _ H0 Hc) in H2.
  assert (Hmb : fltb m b = false /\ fltb m a = false).
  { rewrite !fltb_false by done. destruct (fltb a b) eqn:E; [apply fltb_key in E; [|done..]|apply fltb_false in E; [|done..]]; unfold key_lt in *; split; lia. }
  split_and!; [done|destruct H1 as [->|?]; [destruct (fltb a b)|]; set_solver|apply Hmb|]. intros s [->|Hs]%elem_of_cons; [apply Hmb|by apply H3].
Qed.

Context (self : LoadBalancer) (tokens_per_block max_batch_size : Z) (block_hashes : list (list Z)).
Abbreviation padded_tokens := (zsum (fun h => len h) block_hashes * tokens_per_block).

(** How well a server fits that is taken to be busy with [w] requests. *)
Definition fit (st : ServerState) (w : Z) : result float :=
  score (matched_tokens tokens_per_block st block_hashes) padded_tokens w max_batch_size.

Definition no_worse (a b : result float) : Prop := exists x y, a = Ok x /\ b = Ok y /\ fltb x y = false.

(** There is something to divide by, and the loads fit into a float. *)
Record can_score : Prop := {
  cs_keys : NoDup (server_state self).*1;
  cs_batch : max_batch_size <> 0;
  cs_tpb : 0 < tokens_per_block;
  cs_padded : 0 < padded_tokens;
  cs_loads : Forall (fun p => Z.abs (num_active_requests p.2) < 2 ^ 1000) (server_state self);
}.
Hypothesis Hcan : can_score.

Lemma matched_tokens_bound st : 0 <= matched_tokens tokens_per_block st block_hashes <= padded_tokens.
Proof using Hcan.
  pose proof (cs_tpb Hcan). unfold matched_tokens. assert (Hb : forall hs, 0 <= matched_blocks st hs <= len hs).
  { induction hs as [|h hs IH]; simpl; [lia|]. case_bool_decide; lia. }
  clear Hcan. induction block_hashes as [|hs l IH]; [done|]. rewrite !zsum_cons. specialize (Hb hs). nia.
Qed.

Lemma fit_total st w : Z.abs w < 2 ^ 1000 -> exists x, fit st w = Ok x /\ is_nan x = false.
Proof using Hcan.
  intros Hw. unfold fit, score. pose proof (cs_padded Hcan). pose proof (matched_tokens_bound st).
  destruct (truediv_total (matched_tokens tokens_per_block st block_hashes) padded_tokens) as (q1 & -> & H1); [lia|nia|].
  destruct (truediv_total w max_batch_size) as (q2 & -> & H2); [apply Hcan|pose proof (cs_batch Hcan); nia|]. simpl. eexists. split; [done|]. by apply fsub_not_nan.
Qed.

(** The server at place [i] of [servers], with the load it is scored with. *)
Definition scored (servers : list string) (i : nat) (s : string) (st : ServerState) (w : Z) : Prop :=
  servers !! i = Some s /\ od_get (server_state self) s = Some st /\ num_active_requests <$> (snd <$> server_state self !! i) = Some w.

Lemma all_scored servers : (forall s, s ∈ servers -> s ∈ (server_state self).*1) -> (length servers <= length (server_state self))%nat ->
  exists scores, mapM (score_of self tokens_per_block padded_tokens max_batch_size block_hashes ((fun p => num_active_requests p.2) <$> server_state self))
      (zip (seqZ 0 (len servers)) servers) = Ok scores
    /\ Forall (fun x => is_nan x = false) scores /\ length scores = length servers
    /\ forall i x, scores !! i = Some x -> exists s st w, scored servers i s st w /\ fit st w = Ok x.
Proof using Hcan.
  intros Hin Hlen. assert (Hone : forall i y, zip (seqZ 0 (len servers)) servers !! i = Some y ->
    exists s st w x, scored servers i s st w /\ fit st w = Ok x /\ is_nan x = false
      /\ score_of self tokens_per_block padded_tokens max_batch_size block_hashes ((fun p => num_active_requests p.2) <$> server_state self) y = Ok x).
  { intros i [j s] Hz. apply lookup_zip_with_Some in Hz as (? & ? & [= <- <-] & Hj & Hs). apply lookup_seqZ in Hj as [-> _].
    destruct (proj2 (od_get_is_Some _ _) (Hin s (list_elem_of_lookup_2 _ _ _ Hs))) as [st Hst].
    destruct (lookup_lt_is_Some_2 (server_state self) i) as [[s' st'] Hp]; [apply lookup_lt_Some in Hs; lia|].
    pose proof (cs_loads Hcan) as Hw. rewrite Forall_lookup in Hw. specialize (Hw _ _ Hp). destruct (fit_total st (num_active_requests st') Hw) as (x & Hx & Hnn).
    exists s, st, (num_active_requests st'), x. split; [split_and!; [done|done|by rewrite Hp]|]. split; [done|]. split; [done|]. unfold score_of, state_of. rewrite Hst. cbn [mbind result_bind].
    rewrite Z.add_0_l, (py_get_nat _ i (num_active_requests st')) by (by rewrite list_lookup_fmap, Hp). exact Hx. }
  assert (Hlz : length (zip (seqZ 0 (len servers)) servers) = length servers) by (rewrite length_zip_with, length_seqZ; lia).
  destruct (mapM_cases (score_of self tokens_per_block padded_tokens max_batch_size block_hashes ((fun p => num_active_requests p.2) <$> server_state self))
    (zip (seqZ 0 (len servers)) servers)) as [(scores & Hm & Hl & Hall)|(i & y & e & Hy & He & _)].
  - exists scores. split; [exact Hm|]. assert (Hx : forall i x, scores !! i = Some x -> exists s st w, scored servers i s st w /\ fit st w = Ok x /\ is_nan x = false).
    { intros i x Hi. destruct (lookup_lt_is_Some_2 (zip (seqZ 0 (len servers)) servers) i) as [y Hy]; [rewrite <- Hl; by eapply lookup_lt_Some|].
      destruct (Hall i y Hy) as (x' & Hx' & Hsc). destruct (Hone i y Hy) as (s & st & w & x0 & H1 & H2 & H3 & H4). assert (x0 = x) as -> by congruence. eauto 10. }
    split_and!; [|lia|intros i x Hi; destruct (Hx i x Hi) as (s & st & w & ? & ? & ?); eauto].
    apply Forall_lookup. intros i x Hi. destruct (Hx i x Hi) as (s & st & w & _ & _ & ?). done.
  - destruct (Hone i y Hy) as (s & st & w & x & _ & _ & _ & Hok). congruence.
Qed.

Lemma scored_fun servers i s st w s' st' w' : scored servers i s st w -> scored servers i s' st' w' -> s' = s /\ st' = st /\ w' = w.
Proof. intros (H1 & H2 & H3) (H1' & H2' & H3'). assert (s' = s) as -> by congruence. split_and!; congruence. Qed.

Lemma best_server_spec servers :
  (forall s, s ∈ servers -> s ∈ (server_state self).*1) -> (length servers <= length (server_state self))%nat -> servers <> [] ->
  exists i s st w, best_server self servers tokens_per_block max_batch_size block_hashes = Ok (s, next_rr self) /\ scored servers i s st w
    /\ forall j s' st' w', scored servers j s' st' w' -> no_worse (fit st w) (fit st' w').
Proof using Hcan.
  intros Hin Hlen Hne. unfold best_server. cbv zeta. destruct (all_scored servers Hin Hlen) as (fs & -> & Hnn & Hlf & Hfs). cbn [mbind result_bind].
  pose proof (max_score_spec fs Hnn) as Hmax. destruct (max_score fs) as [m|]; [|subst fs; by destruct servers]. destruct Hmax as [Hm Hall].
  set (tied := (filter (fun p => feqb p.2 m = true) (zip (seqZ 0 (len fs)) fs)).*1).
  assert (Hmn : is_nan m = false) by (rewrite Forall_forall in Hnn; by apply Hnn).
  assert (Htied : forall j, j ∈ tied -> exists k f, j = Z.of_nat k /\ fs !! k = Some f /\ feqb f m = true).
  { intros j ([j' f] & -> & [Hf Hz]%list_elem_of_filter)%list_elem_of_fmap. apply list_elem_of_lookup_1 in Hz as [k Hz].
    apply lookup_zip_with_Some in Hz as (? & ? & [= <- <-] & Hj & Hk). apply lookup_seqZ in Hj as [-> _]. exists k, f. simpl in *. split_and!; [lia|done|done]. }
  destruct (server_pick_spec (rr_counter self) tied) as (i & j & -> & Hj & Hlk).
  { apply list_elem_of_lookup_1 in Hm as [k Hk]. intros He. apply (not_elem_of_nil (Z.of_nat k)). rewrite <- He. apply list_elem_of_fmap.
    exists (Z.of_nat k, m). split; [done|]. apply list_elem_of_filter. split; [by apply feqb_key|]. apply (list_elem_of_lookup_2 _ k).
    rewrite lookup_zip_with, Hk, (proj2 (lookup_seqZ 0 (len fs) k (Z.of_nat k))); [done|]. apply lookup_lt_Some in Hk. lia. }
  cbn [mbind result_bind]. rewrite Hj. cbn [mbind result_bind]. destruct (Htied j) as (k & f & -> & Hf & Hfm); [by eapply list_elem_of_lookup_2|].
  destruct (Hfs k f Hf) as (s & st & w & Hsc & Hfit). destruct Hsc as (Hs & Hsc') eqn:Esc. clear Esc. rewrite (py_get_nat _ k s) by done. cbn [mbind result_bind].
  exists k, s, st, w. split; [done|]. split; [done|]. intros j s' st' w' Hsc2. destruct (lookup_lt_is_Some_2 fs j) as [y Hy]; [rewrite Hlf; eapply lookup_lt_Some; apply Hsc2|].
  destruct (Hfs j y Hy) as (s2 & st2 & w2 & Hsc3 & Hfit2). destruct (scored_fun _ _ _ _ _ _ _ _ Hsc3 Hsc2) as (-> & -> & ->).
  exists f, y. split; [done|]. split; [done|]. assert (Hfn : is_nan f = false /\ is_nan y = false) by (rewrite Forall_lookup in Hnn; eauto).
  destruct Hfn as [Hfn Hyn]. specialize (Hall y (list_elem_of_lookup_2 _ _ _ Hy)). apply feqb_key in Hfm; [|done..].
  apply fltb_false; [done..|]. rewrite Hfm. by apply fltb_false.
Qed.

Lemma get_next_server_best req servers :
  (forall s, s ∈ servers -> s ∈ (server_state self).*1) -> (2 <= length servers <= length (server_state self))%nat ->
  match get_next_server self servers tokens_per_block max_batch_size block_hashes req with
  | Ok (s, self') => req_routing_table self' = <[req_id req := s]> (req_routing_table self)
      /\ exists i st w, scored servers i s st w /\ forall j s' st' w', scored servers j s' st' w' -> no_worse (fit st w) (fit st' w')
  | Err e => load_tokens (use_tokens self) req = Err e
  end.
Proof using Hcan.
  intros Hin [H2 Hlen]. destruct (best_server_spec servers Hin Hlen) as (i & s & st & w & Hb & Hsc & Hbest); [by intros ->; simpl in H2; lia|].
  unfold get_next_server. destruct servers as [|a [|b l]]; [simpl in H2; lia..|]. rewrite Hb. cbn [mbind result_bind]. pose proof Hsc as (_ & Hst & _).
  unfold _register_request, state_of, increment_load. simpl. rewrite Hst. simpl. destruct (load_tokens (use_tokens self) req) as [n|e]; [|done]. simpl. eauto 10.
Qed.

End BestMatch.

(** C31. The cache-aware router, with two servers or more and none excluded, sends a request to a server
    that no other beats in [matches / padded_tokens - workload / max_batch_size], the
    part of its blocks the server has less the part of a batch it is busy with.  This is
    so if the prompt has blocks to hash and the list of servers is still the one it was
    before the prompt was hashed; loads and cached blocks may have changed.  It fails only
    if the request cannot be weighed. *)
Theorem best_match_chosen before self tokens_per_block max_batch_size block_hashes req :
  can_score self tokens_per_block max_batch_size block_hashes -> (2 <= length (server_state self))%nat ->
  (server_state before).*1 = (server_state self).*1 ->
  match KvCacheAware.get_next_server self (KvCacheAware.servers_of before None) tokens_per_block max_batch_size block_hashes req with
  | Ok (server, self') => req_routing_table self' = <[req_id req := server]> (req_routing_table self)
      /\ exists st, od_get (server_state self) server = Some st
           /\ forall s' st', od_get (server_state self) s' = Some st' ->
                no_worse (fit tokens_per_block max_batch_size block_hashes st (num_active_requests st))
                  (fit tokens_per_block max_batch_size block_hashes st' (num_active_requests st'))
  | Err e => load_tokens (use_tokens self) req = Err e
  end.
Proof.
  intros Hcan H2 Hsame. assert (Hall : KvCacheAware.servers_of before None = (server_state self).*1).
  { rewrite <- Hsame. unfold KvCacheAware.servers_of, candidates_of. apply filter_all, Forall_forall. done. }
  rewrite Hall. pose proof (get_next_server_best self tokens_per_block max_batch_size block_hashes Hcan req (server_state self).*1) as H.
  assert (Hown : forall i s st, scored self (server_state self).*1 i s st (num_active_requests st) <-> server_state self !! i = Some (s, st)).
  { intros i s st. unfold scored. rewrite list_lookup_fmap. split.
    - intros (Hs & Hst & _). apply fmap_Some in Hs as ([s' st'] & Hp & ->). rewrite (proj2 (od_get_Some _ s' st' (cs_keys _ _ _ _ Hcan))) in Hst by (by eapply list_elem_of_lookup_2).
      by injection Hst as ->.
    - intros Hp. rewrite Hp. split_and!; [done|apply od_get_Some; [apply Hcan|by eapply list_elem_of_lookup_2]|done]. }
  destruct (KvCacheAware.get_next_server self _ _ _ _ req) as [[s self']|e]; [|apply H; [done|rewrite length_fmap; lia]].
  destruct H as (Hr & i & st & w & Hsc & Hbest); [done|rewrite length_fmap; lia|]. split; [done|]. exists st. split; [apply Hsc|]. intros s' st' Hst'.
  apply od_get_in, list_elem_of_lookup_1 in Hst' as [j Hj]. apply Hown in Hj. specialize (Hbest _ _ _ _ Hj).
  destruct Hsc as (Hs & Hst & Hw). rewrite list_lookup_fmap in Hs. apply fmap_Some in Hs as ([s0 st0] & Hp & ->). pose proof (proj2 (Hown _ _ _) Hp) as Hsc0.
  destruct Hsc0 as (_ & Hst0 & _). rewrite Hp in Hw. simpl in *. assert (st0 = st) as -> by congruence. by injection Hw as <-.
Qed.

Definition busy (n : Z) : ServerState := mkServerState n 0 ∅.

Lemma best_match_chosen_witness :
  match KvCacheAware.get_next_server (mkLoadBalancer false [("a", busy 3); ("b", mkServerState 4 0 {[11]})]%string ∅ 0)
          ["a"; "b"]%string 2 8 [[11; 12]] (int_request 7 [1; 2; 3; 4; 5]) with
  | Ok (server, self') => server = "b"%string /\ req_routing_table self' = {[7 := "b"%string]}
  | Err _ => False
  end.
Proof.
  assert (Hcan : can_score (mkLoadBalancer false [("a", busy 3); ("b", mkServerState 4 0 {[11]})]%string ∅ 0) 2 8 [[11; 12]]).
  { split; [apply (bool_decide_unpack _); by vm_compute|done|done|done|repeat constructor]. }
  pose proof (best_match_chosen (_init_load_balancing ["a"; "b"]%string false) _ 2 8 [[11; 12]] (int_request 7 [1; 2; 3; 4; 5]) Hcan (le_n 2) eq_refl) as H.
  change (KvCacheAware.servers_of _ None) with ["a"; "b"]%string in H.
  destruct (KvCacheAware.get_next_server _ _ _ _ _ _) as [[server self']|e] eqn:E; vm_compute in E; [|congruence].
  injection E as <- <-. split; [done|apply H].
Defined.

(** The servers but the excluded one, with the loads they are scored with. *)
Definition loads_used (l1 : list (string * ServerState)) (st_e : ServerState) (l2 : list (string * ServerState)) : list ((string * ServerState) * Z) :=
  ((fun p => (p, num_active_requests p.2)) <$> l1) ++ zip l2 (num_active_requests <$> st_e :: l2.*2).

Lemma loads_used_lookup l1 e st_e l2 i p w :
  loads_used l1 st_e l2 !! i = Some (p, w) <->
  (l1 ++ l2) !! i = Some p /\ num_active_requests <$> (snd <$> (l1 ++ (e, st_e) :: l2) !! i) = Some w.
Proof.
  unfold loads_used. destruct (decide (i < length l1)%nat) as [Hi|Hi].
  - rewrite !lookup_app_l by (by rewrite ?length_fmap). rewrite list_lookup_fmap. destruct (l1 !! i) as [q|]; simpl; naive_solver.
  - rewrite !lookup_app_r by (rewrite ?length_fmap; lia). rewrite length_fmap, lookup_zip_with. change (st_e :: l2.*2) with (((e, st_e) :: l2).*2).
    rewrite !list_lookup_fmap. destruct (l2 !! (i - length l1)%nat) as [q|]; simpl; [|naive_solver]. destruct (((e, st_e) :: l2) !! (i - length l1)%nat); simpl; naive_solver.
Qed.

(** C40. If a server is excluded, those before it in the table are scored with their own
    loads, but each of those after it with the load of the one before it: the request
    goes to a server that is best by these scores. *)
Theorem excluded_server_shifts_loads before self l1 e st_e l2 tokens_per_block max_batch_size block_hashes req :
  can_score self tokens_per_block max_batch_size block_hashes -> (2 <= length (l1 ++ l2))%nat ->
  server_state self = l1 ++ (e, st_e) :: l2 -> (server_state before).*1 = (server_state self).*1 ->
  match KvCacheAware.get_next_server self (KvCacheAware.servers_of before (Some e)) tokens_per_block max_batch_size block_hashes req with
  | Ok (server, self') => exists st w, ((server, st), w) ∈ loads_used l1 st_e l2
      /\ forall s' st' w', ((s', st'), w') ∈ loads_used l1 st_e l2 ->
           no_worse (fit tokens_per_block max_batch_size block_hashes st w) (fit tokens_per_block max_batch_size block_hashes st' w')
  | Err err => load_tokens (use_tokens self) req = Err err
  end.
Proof.
  intros Hcan H2 Hself Hsame. pose proof (cs_keys _ _ _ _ Hcan) as Hnd. assert (Hse : KvCacheAware.servers_of before (Some e) = (l1 ++ l2).*1).
  { unfold KvCacheAware.servers_of, candidates_of. rewrite Hsame, Hself, !fmap_app, fmap_cons, filter_app. rewrite Hself, fmap_app, fmap_cons in Hnd. simpl in *.
    apply NoDup_app in Hnd as (_ & Hd1 & [Hd2 _]%NoDup_cons). rewrite filter_cons_False by (intros H; by apply H).
    f_equal; apply filter_all, Forall_forall; intros s Hs [= ->]; [by apply (Hd1 e Hs); left|done]. }
  rewrite Hse. assert (Hsc : forall i s st w, scored self (l1 ++ l2).*1 i s st w <-> loads_used l1 st_e l2 !! i = Some ((s, st), w)).
  { intros i s st w. rewrite (loads_used_lookup l1 e), <- Hself. unfold scored. rewrite list_lookup_fmap. split.
    - intros (Hs & Hst & Hw). split; [|done]. apply fmap_Some in Hs as ([s' st'] & Hp & ->). rewrite Hp. do 2 f_equal. simpl in Hst.
      assert (Hin : (s', st') ∈ server_state self) by (rewrite Hself; apply list_elem_of_lookup_2 in Hp; set_solver). apply (od_get_Some _ _ _ Hnd) in Hin. congruence.
    - intros [Hp Hw]. rewrite Hp. split_and!; [done|apply (od_get_Some _ _ _ Hnd)|done]. rewrite Hself. apply list_elem_of_lookup_2 in Hp. set_solver. }
  pose proof (get_next_server_best self tokens_per_block max_batch_size block_hashes Hcan req (l1 ++ l2).*1) as H.
  assert (Hsub : forall s, s ∈ (l1 ++ l2).*1 -> s ∈ (server_state self).*1) by (intros s; rewrite Hself, !fmap_app, fmap_cons; set_solver).
  assert (Hlen : (2 <= length (l1 ++ l2).*1 <= length (server_state self))%nat) by (rewrite Hself, length_fmap, !length_app in *; simpl; lia).
  specialize (H Hsub Hlen). destruct (KvCacheAware.get_next_server self _ _ _ _ req) as [[s self']|err]; [|done].
  destruct H as (_ & i & st & w & Hi & Hbest). exists st, w. split; [apply Hsc in Hi; by eapply list_elem_of_lookup_2|].
  intros s' st' w' [j Hj]%list_elem_of_lookup_1. apply Hsc in Hj. by eapply Hbest.
Qed.

(** A request that is not to go to "a" is sent to "c", which is busy with five requests,
    and not to "b", which is idle: "b" is scored with the load of "a", and "c" with that
    of "b". *)
Lemma excluded_server_shifts_loads_witness :
  let self := mkLoadBalancer false [("a", busy 9); ("b", busy 0); ("c", busy 5)]%string ∅ 0 in
  match KvCacheAware.get_next_server self (KvCacheAware.servers_of self (Some "a"%string)) 2 8 [[11; 12]] (int_request 7 [1; 2; 3; 4; 5]) with
  | Ok (server, _) => server = "c"%string /\ exists st w, ((server, st), w) ∈ loads_used [] (busy 9) [("b", busy 0); ("c", busy 5)]%string
  | Err _ => False
  end.
Proof.
  intros self. assert (Hcan : can_score self 2 8 [[11; 12]]) by (split; [apply (bool_decide_unpack _); by vm_compute|done|done|done|repeat constructor]).
  pose proof (excluded_server_shifts_loads self self [] "a"%string (busy 9) [("b", busy 0); ("c", busy 5)]%string 2 8 [[11; 12]] (int_request 7 [1; 2; 3; 4; 5])
    Hcan (le_n 2) eq_refl eq_refl) as H.
  destruct (KvCacheAware.get_next_server _ _ _ _ _ _) as [[server self']|err] eqn:E; [|vm_compute in E; congruence].
  destruct H as (st & w & Hin & _). split; [vm_compute in E; congruence|eauto].
Defined.
