(* ===== verification/ConversationRouter.v ===== *)
(** The router for conversations, [ConversationRouter] of serve/router.py.

    A request of a known conversation goes to the server the conversation is on; a
    request without a conversation goes where the session is whose prompt began in the
    same way, found by its block hashes in the tree of HashTrie.v; any other to the
    server with the least load, counted in tokens of prompts.  The table of sessions,
    the tree and the index from servers to sessions say the same, and the load of a
    server is that of the requests in flight to it, or less if it was away while it had
    some.

    Besides the parameters of ServeRouter.v: the order in which a set is iterated over
    and [str] of a list. *)

From stdpp Require Import prelude gmap strings pretty.
From S2P Require Import Prelude PyFloat HashTrie ServeRouter.

Local Open Scope Z_scope.

Record ConversationRouter := mkConversationRouter {
  servers : list string;
  balancer : LoadBalancer;
  session_table : list (string * (string * list Z));
  hash_trie : Node;
  server_sessions : gmap string (gset string);
  implicit_id_counter : Z;
  server_content_load : gmap string Z;
  req_content_entry : gmap Z (string * Z);
}.

Record Config := mkConfig {
  match_threshold : float;
  tokens_per_block : Z;
  use_token_ids : bool;
  hash_skip_count : Z;
  max_sessions : Z;
  disagg_node_id : Z;
}.

Definition CHAR_PER_TOKEN : Z := 5.

Definition ConversationRouter_init (servers : list string) : ConversationRouter :=
  mkConversationRouter servers (_init_load_balancing servers false) [] Node_init
    (list_to_map ((fun s => (s, ∅)) <$> servers)) 0 (list_to_map ((fun s => (s, 0)) <$> servers)) ∅.

Definition with_balancer (self : ConversationRouter) (b : LoadBalancer) : ConversationRouter :=
  mkConversationRouter (servers self) b (session_table self) (hash_trie self) (server_sessions self)
    (implicit_id_counter self) (server_content_load self) (req_content_entry self).
Definition with_sessions (self : ConversationRouter) (t : list (string * (string * list Z))) (n : Node) (m : gmap string (gset string))
    : ConversationRouter :=
  mkConversationRouter (servers self) (balancer self) t n m (implicit_id_counter self) (server_content_load self) (req_content_entry self).
Definition with_load (self : ConversationRouter) (l : gmap string Z) (e : gmap Z (string * Z)) : ConversationRouter :=
  mkConversationRouter (servers self) (balancer self) (session_table self) (hash_trie self) (server_sessions self)
    (implicit_id_counter self) l e.

(** ** The load in tokens *)

Definition _add_content_load (self : ConversationRouter) (server : string) (request : OpenAIRequest) (weight : Z) : ConversationRouter :=
  with_load self (<[server := default 0 (server_content_load self !! server) + weight]> (server_content_load self))
    (<[req_id request := (server, weight)]> (req_content_entry self)).

Definition _remove_content_load (self : ConversationRouter) (server : string) (request : OpenAIRequest) : ConversationRouter :=
  match req_content_entry self !! req_id request with
  | Some (_, weight) =>
      with_load self (<[server := Z.max (default 0 (server_content_load self !! server) - weight) 0]> (server_content_load self))
        (delete (req_id request) (req_content_entry self))
  | None => self
  end.

Definition _get_content_load (self : ConversationRouter) (server : string) : Z := default 0 (server_content_load self !! server).

(** ** Texts, tokens and hashes of a request *)

Fixpoint join (sep : text) (l : list text) : text :=
  match l with [] => [] | [s] => s | s :: l => s ++ sep ++ join sep l end.

Section Requests.
Context (py_str : Prompt -> text) (apply_chat_template : list (text * text) -> list Z) (encode : text -> list Z) (hasher : list Z -> Z -> Z).

(** 10 is a line feed, 58 a colon. *)
Definition _extract_text (request : OpenAIRequest) : text :=
  match body request with
  | ChatCompletionRequest messages _ => join [10] ((fun m => m.1 ++ [58] ++ m.2) <$> messages)
  | CompletionRequest (PStr s) => s
  | CompletionRequest (PStrs (s :: l)) => join [10] (s :: l)
  | CompletionRequest p => py_str p
  end.

Definition _try_extract_token_ids (request : OpenAIRequest) : option (list (list Z)) :=
  match body request with
  | ChatCompletionRequest _ ids => (fun l => [l]) <$> ids
  | CompletionRequest (PLists (l :: ls)) => Some (l :: ls)
  | CompletionRequest (PInts (x :: l)) => Some [x :: l]
  | CompletionRequest _ => None
  end.

Definition _estimate_content_weight (cfg : Config) (request : OpenAIRequest) (block_hashes : option (list Z)) : Z :=
  match block_hashes with
  | Some hs => len hs * tokens_per_block cfg
  | None => Z.max (len (_extract_text request) / CHAR_PER_TOKEN) 1
  end.

(** The hashes, and the request, which the tokenizer may have changed. *)
Definition _request_to_block_hashes (cfg : Config) (request : OpenAIRequest) : result (list Z * OpenAIRequest) :=
  '(int_sequences, skip_count, request) ←
    match _try_extract_token_ids request with
    | Some token_ids => Ok (token_ids, hash_skip_count cfg, request)
    | None =>
        if use_token_ids cfg then
          '(token_lists, request) ← _tokenize apply_chat_template encode request;
          Ok (token_lists, hash_skip_count cfg, request)
        else Ok ([_extract_text request], hash_skip_count cfg * CHAR_PER_TOKEN, request)
    end;
  let int_sequences := if 0 <? skip_count then drop (Z.to_nat skip_count) <$> int_sequences else int_sequences in
  hashes ← _compute_block_hashes hasher (tokens_per_block cfg) int_sequences;
  hs ← py_get hashes 0;
  Ok (hs, request).

End Requests.

(** ** Sessions *)

Section Sessions.
Context (order : gset string -> list string) (py_str : Prompt -> text).

Definition alive (self : ConversationRouter) (exclude_server : option string) (server : string) : bool :=
  bool_decide (server ∈ (server_state (balancer self)).*1) && negb (bool_decide (Some server = exclude_server)).

Definition _valid (self : ConversationRouter) (exclude_server : option string) (conv_id : string) : bool :=
  match od_get (session_table self) conv_id with Some (server, _) => alive self exclude_server server | None => false end.

Definition _find_matching_session (cfg : Config) (self : ConversationRouter) (block_hashes : list Z) (exclude_server : option string)
    : result (option string) :=
  if bool_decide (block_hashes = []) then Ok None
  else
    match find_longest_prefix_match order (hash_trie self) block_hashes (_valid self exclude_server) with
    | (Some best_conv_id, best_depth) =>
        ratio ← truediv best_depth (len block_hashes);
        Ok (if fleb (match_threshold cfg) ratio then Some best_conv_id else None)
    | (None, _) => Ok None
    end.

Definition forget (m : gmap string (gset string)) (server conv_id : string) : gmap string (gset string) :=
  match m !! server with Some s => <[server := s ∖ {[conv_id]}]> m | None => m end.
Definition note (m : gmap string (gset string)) (server conv_id : string) : gmap string (gset string) :=
  match m !! server with Some s => <[server := {[conv_id]} ∪ s]> m | None => m end.

Definition _evict_oldest_session (self : ConversationRouter) : result ConversationRouter :=
  match session_table self with
  | [] => Err KeyError
  | (conv_id, (server, hashes)) :: rest =>
      Ok (with_sessions self rest (remove (hash_trie self) conv_id hashes).1 (forget (server_sessions self) server conv_id))
  end.

(** [while len(self._session_table) > self._max_sessions] *)
Fixpoint evict_sessions (fuel : nat) (max_sessions : Z) (self : ConversationRouter) : result ConversationRouter :=
  match fuel with
  | O => Err OutOfFuel
  | S fuel =>
      if max_sessions <? len (session_table self) then self ← _evict_oldest_session self; evict_sessions fuel max_sessions self
      else Ok self
  end.

Definition drop_old (self : ConversationRouter) (conv_id : string) : ConversationRouter :=
  match od_get (session_table self) conv_id with
  | Some (old_server, old_hashes) =>
      with_sessions self (session_table self) (remove (hash_trie self) conv_id old_hashes).1 (forget (server_sessions self) old_server conv_id)
  | None => self
  end.

Definition _update_session (cfg : Config) (self : ConversationRouter) (conv_id server : string) (block_hashes : list Z) : result ConversationRouter :=
  let self := drop_old self conv_id in
  let self := with_sessions self (od_del (session_table self) conv_id ++ [(conv_id, (server, block_hashes))])
                (insert (hash_trie self) conv_id block_hashes) (note (server_sessions self) server conv_id) in
  evict_sessions (S (length (session_table self))) (max_sessions cfg) self.

Definition drop_session (self : ConversationRouter) (conv_id : string) : ConversationRouter :=
  match od_get (session_table self) conv_id with
  | Some (_, hashes) =>
      with_sessions self (od_del (session_table self) conv_id) (HashTrie.remove (hash_trie self) conv_id hashes).1 (server_sessions self)
  | None => self
  end.

(** The sessions of a server that is gone. *)
Definition drop_sessions (sessions : gmap string (gset string)) (self : ConversationRouter) (removed : string) : ConversationRouter :=
  let self := foldl drop_session self (order (default ∅ (sessions !! removed))) in
  with_load self (delete removed (server_content_load self)) (req_content_entry self).

Definition _on_servers_updated (self : ConversationRouter) (old_servers new_servers : list string) : ConversationRouter :=
  let sessions := server_sessions self in
  let self := with_balancer self (ServeRouter._on_servers_updated (balancer self) old_servers new_servers) in
  let new_server_sessions := list_to_map ((fun s => (s, default ∅ (sessions !! s))) <$> new_servers) in
  let self := with_load self (foldl (fun l s => match l !! s with Some _ => l | None => <[s := 0]> l end) (server_content_load self) new_servers)
                (req_content_entry self) in
  let removed_servers : gset string := list_to_set old_servers ∖ list_to_set new_servers in
  let self := foldl (drop_sessions sessions) self (order removed_servers) in
  with_sessions self (session_table self) (hash_trie self) new_server_sessions.

(** ** Routing *)

Definition _get_conversation_id (request : OpenAIRequest) : option string :=
  match disaggregated_params request with Some p => conversation_id p | None => None end.

(** [if conv_id] *)
Definition given (conv_id : option string) : option string :=
  match conv_id with Some c => if bool_decide (c = EmptyString) then None else Some c | None => None end.

Definition implicit_id (cfg : Config) (n : Z) : string := "conv_id:" +:+ pretty (disagg_node_id cfg) +:+ "_" +:+ pretty n.

Definition _generate_implicit_id (cfg : Config) (self : ConversationRouter) : string * ConversationRouter :=
  let n := implicit_id_counter self + 1 in
  (implicit_id cfg n,
   mkConversationRouter (servers self) (balancer self) (session_table self) (hash_trie self) (server_sessions self)
     n (server_content_load self) (req_content_entry self)).

Definition register (self : ConversationRouter) (server : string) (request : OpenAIRequest) (weight : Z) : result ConversationRouter :=
  b ← _register_request (balancer self) server request;
  Ok (_add_content_load (with_balancer self b) server request weight).

(** The conversation a request continues, with the server it is on. *)
Definition continued (cfg : Config) (self : ConversationRouter) (conv_id : option string) (block_hashes : list Z) (exclude_server : option string)
    : result (option (string * string)) :=
  match given conv_id with
  | Some c =>
      Ok (match od_get (session_table self) c with
          | Some (sticky_server, _) => if alive self exclude_server sticky_server then Some (c, sticky_server) else None
          | None => None
          end)
  | None =>
      matched_id ← _find_matching_session cfg self block_hashes exclude_server;
      match matched_id with
      | Some matched_id =>
          match od_get (session_table self) matched_id with Some (sticky_server, _) => Ok (Some (matched_id, sticky_server)) | None => Err KeyError end
      | None => Ok None
      end
  end.

(** What is done under the lock; [block_hashes] are those of the request. *)
Definition route (cfg : Config) (self : ConversationRouter) (request : OpenAIRequest) (block_hashes : list Z)
    (exclude_server : option string) : result (string * ConversationRouter) :=
  let conv_id := _get_conversation_id request in
  let weight := _estimate_content_weight py_str cfg request (Some block_hashes) in
  session ← continued cfg self conv_id block_hashes exclude_server;
  match session with
  | Some (c, sticky_server) =>
      self ← _update_session cfg self c sticky_server block_hashes;
      self ← register self sticky_server request weight;
      Ok (sticky_server, self)
  | None =>
      '(server, b) ← _select_least_loaded (fun s => Ok (_get_content_load self s)) (balancer self) exclude_server;
      match server with
      | None => Err ValueError
      | Some server =>
          self ← register (with_balancer self b) server request weight;
          let '(c, self) := match given conv_id with Some c => (c, self) | None => _generate_implicit_id cfg self end in
          self ← _update_session cfg self c server block_hashes;
          Ok (server, self)
      end
  end.

Definition get_next_server (apply_chat_template : list (text * text) -> list Z) (encode : text -> list Z) (hasher : list Z -> Z -> Z)
    (cfg : Config) (self : ConversationRouter) (request : OpenAIRequest) (exclude_server : option string) : result (string * ConversationRouter) :=
  if bool_decide (servers self = []) then Err ValueError
  else
    '(block_hashes, request) ← _request_to_block_hashes py_str apply_chat_template encode hasher cfg request;
    route cfg self request block_hashes exclude_server.

Definition finish_request (self : ConversationRouter) (request : OpenAIRequest) : result ConversationRouter :=
  '(server, b) ← _unregister_request (balancer self) request;
  Ok (_remove_content_load (with_balancer self b) server request).

End Sessions.

(** ** The table, the tree and the index say the same *)

Definition hashes_of (d : list (string * (string * list Z))) : Table := list_to_map ((fun p => (p.1, p.2.2)) <$> d).

Lemma hashes_lookup d c : hashes_of d !! c = snd <$> od_get d c.
Proof.
  unfold hashes_of. induction d as [|[c0 [s h]] d IH]; simpl; [by rewrite lookup_empty|]. rewrite od_get_cons. case_decide as Hd.
  - subst c0. by rewrite lookup_insert_eq.
  - by rewrite lookup_insert_ne.
Qed.

Lemma hashes_del d c : hashes_of (od_del d c) = delete c (hashes_of d).
Proof.
  apply map_eq. intros c'. rewrite hashes_lookup, od_get_del. case_decide as Hd; [subst; by rewrite lookup_delete_eq|].
  by rewrite lookup_delete_ne, hashes_lookup.
Qed.

Lemma hashes_snoc d c s h : (c ∉ d.*1) -> hashes_of (d ++ [(c, (s, h))]) = <[c := h]> (hashes_of d).
Proof.
  intros Hc. apply map_eq. intros c'. rewrite hashes_lookup, od_get_app, od_get_cons. destruct (decide (c = c')) as [->|Hne].
  - rewrite (proj2 (od_get_None d c')) by done. by rewrite lookup_insert_eq.
  - rewrite lookup_insert_ne, hashes_lookup by done. by destruct (od_get d c').
Qed.

Record sessions_ok (keys : list string) (t : list (string * (string * list Z))) (n : Node) (m : gmap string (gset string)) : Prop := {
  se_keys : NoDup t.*1;
  se_trie : trie_ok n (hashes_of t);
  se_dom : forall s, is_Some (m !! s) <-> s ∈ keys;
  se_index : forall s c, c ∈ default ∅ (m !! s) <-> exists h, od_get t c = Some (s, h);
}.

Lemma session_server keys t n m c s h : sessions_ok keys t n m -> od_get t c = Some (s, h) -> s ∈ keys.
Proof.
  intros Hok Hc. apply (se_dom _ _ _ _ Hok). assert (Hin : c ∈ default ∅ (m !! s)) by (apply (se_index _ _ _ _ Hok); eauto).
  destruct (m !! s); [eauto|simpl in Hin; set_solver].
Qed.

Lemma drop_entry keys t n m c s h : sessions_ok keys t n m -> od_get t c = Some (s, h) ->
  sessions_ok keys (od_del t c) (HashTrie.remove n c h).1 (forget m s c).
Proof.
  intros Hok Hc. pose proof (session_server _ _ _ _ _ _ _ Hok Hc) as Hs. destruct Hok as [Hk Ht Hd Hi]. apply Hd in Hs as [cs Hcs]. unfold forget. rewrite Hcs. split.
  - by apply od_del_keys.
  - rewrite hashes_del. apply trie_remove_ok; [done|]. by rewrite hashes_lookup, Hc.
  - intros s'. destruct (decide (s = s')) as [->|Hne]; [rewrite lookup_insert_eq|by rewrite lookup_insert_ne]. rewrite <- Hd. split; eauto.
  - intros s' c'. rewrite od_get_del. assert (Hi' := Hi s' c'). destruct (decide (s = s')) as [->|Hne].
    + rewrite lookup_insert_eq. simpl. rewrite Hcs in Hi'. simpl in Hi'. rewrite elem_of_difference, not_elem_of_singleton, Hi'. case_decide; naive_solver.
    + rewrite lookup_insert_ne by done. rewrite Hi'. case_decide; [subst; rewrite Hc; naive_solver|done].
Qed.

Lemma add_entry keys t n m c s h : sessions_ok keys t n m -> (c ∉ t.*1) -> s ∈ keys ->
  sessions_ok keys (t ++ [(c, (s, h))]) (insert n c h) (note m s c).
Proof.
  intros [Hk Ht Hd Hi] Hc Hs. apply Hd in Hs as [cs Hcs]. unfold note. rewrite Hcs. pose proof (proj2 (od_get_None t c) Hc) as Hn. split.
  - rewrite fmap_app. apply NoDup_app. split; [done|]. split; [|apply NoDup_singleton]. intros x Hx ->%list_elem_of_singleton. done.
  - rewrite hashes_snoc by done. apply insert_ok; [done|]. by rewrite hashes_lookup, Hn.
  - intros s'. destruct (decide (s = s')) as [->|Hne]; [rewrite lookup_insert_eq|by rewrite lookup_insert_ne]. rewrite <- Hd. split; eauto.
  - intros s' c'. rewrite od_get_app, od_get_cons. assert (Hi' := Hi s' c'). destruct (decide (s = s')) as [->|Hne].
    + rewrite lookup_insert_eq. simpl. rewrite Hcs in Hi'. simpl in Hi'. rewrite elem_of_union, elem_of_singleton, Hi'.
      destruct (decide (c = c')) as [->|Hne]; [rewrite Hn; naive_solver|]. destruct (od_get t c'); naive_solver.
    + rewrite lookup_insert_ne by done. rewrite Hi'. destruct (decide (c = c')) as [->|Hne']; [rewrite Hn; naive_solver|]. destruct (od_get t c'); naive_solver.
Qed.

Abbreviation sess keys self := (sessions_ok keys (session_table self) (hash_trie self) (server_sessions self)).

(** Sessions change, nothing else. *)
Definition same_load (self self' : ConversationRouter) : Prop :=
  servers self' = servers self /\ balancer self' = balancer self
  /\ server_content_load self' = server_content_load self /\ req_content_entry self' = req_content_entry self.

Lemma same_load_trans a b c : same_load a b -> same_load b c -> same_load a c.
Proof. intros (? & ? & ? & ?) (? & ? & ? & ?). split_and!; congruence. Qed.

Lemma evict_sessions_spec keys max fuel self :
  sess keys self -> 0 <= max -> (length (session_table self) < fuel)%nat ->
  exists self', evict_sessions fuel max self = Ok self' /\ sess keys self' /\ same_load self self'
    /\ session_table self' = drop (length (session_table self) - Z.to_nat max) (session_table self).
Proof.
  intros Hok Hm. revert self Hok. induction fuel as [|fuel IH]; intros self Hok Hf; [lia|]. simpl. destruct (Z.ltb_spec max (len (session_table self))) as [Hlt|Hge]; cycle 1.
  { exists self. split_and!; try done. replace (length (session_table self) - Z.to_nat max)%nat with 0%nat by lia. done. }
  unfold _evict_oldest_session. destruct (session_table self) as [|[c [s h]] rest] eqn:Et; [simpl in Hlt; lia|]. simpl.
  assert (Hc : od_get ((c, (s, h)) :: rest) c = Some (s, h)) by (rewrite od_get_cons; by rewrite decide_True).
  pose proof (drop_entry _ _ _ _ _ _ _ Hok Hc) as Hok'. pose proof (se_keys _ _ _ _ Hok) as Hnd. simpl in Hnd. apply NoDup_cons in Hnd as [Hno _].
  assert (Hrest : od_del ((c, (s, h)) :: rest) c = rest) by (unfold od_del; rewrite filter_cons_False by (simpl; tauto); by apply od_del_id).
  rewrite Hrest in Hok'. destruct (IH (with_sessions self rest (HashTrie.remove (hash_trie self) c h).1 (forget (server_sessions self) s c)) Hok') as (self' & -> & Hs & Hl & Hd).
  { simpl in *. lia. }
  exists self'. split_and!; try done. rewrite Hd. simpl in *. replace (S (length rest) - Z.to_nat max)%nat with (S (length rest - Z.to_nat max)) by lia. done.
Qed.

Lemma drop_old_spec keys self c : sess keys self ->
  same_load self (drop_old self c) /\ implicit_id_counter (drop_old self c) = implicit_id_counter self
  /\ sessions_ok keys (od_del (session_table (drop_old self c)) c) (hash_trie (drop_old self c)) (server_sessions (drop_old self c))
  /\ session_table (drop_old self c) = session_table self.
Proof.
  intros Hok. unfold drop_old. destruct (od_get (session_table self) c) as [[s h]|] eqn:Ec; simpl.
  - split_and!; try done. by apply drop_entry.
  - split_and!; try done. by rewrite od_del_id by by apply od_get_None.
Qed.

(** The session is entered as the last one, and the first ones make room. *)
Definition entered (max : Z) (t : list (string * (string * list Z))) (c s : string) (h : list Z) : list (string * (string * list Z)) :=
  let l := od_del t c ++ [(c, (s, h))] in drop (length l - Z.to_nat max) l.

Lemma update_session_spec cfg keys self c s h :
  sess keys self -> s ∈ keys -> 0 <= max_sessions cfg ->
  exists self', _update_session cfg self c s h = Ok self' /\ sess keys self' /\ same_load self self'
    /\ session_table self' = entered (max_sessions cfg) (session_table self) c s h.
Proof.
  intros Hok Hs Hm. unfold _update_session. destruct (drop_old_spec keys self c Hok) as (Hl & _ & Hok1 & Ht). set (self1 := drop_old self c) in *.
  pose proof (add_entry _ _ _ _ c s h Hok1 (od_del_not_in _ _) Hs) as Hok2.
  destruct (evict_sessions_spec keys (max_sessions cfg) (S (length (od_del (session_table self1) c ++ [(c, (s, h))])))
    (with_sessions self1 (od_del (session_table self1) c ++ [(c, (s, h))]) (insert (hash_trie self1) c h) (note (server_sessions self1) s c)) Hok2 Hm)
    as (self' & Hev & Hok' & Hl' & Hd); [simpl; lia|].
  exists self'. cbv zeta. split; [exact Hev|]. split; [done|]. split; [by eapply same_load_trans; [|exact Hl']|]. simpl in Hd. by rewrite Ht in Hd.
Qed.

Lemma length_entered max t c s h : 0 <= max -> len (entered max t c s h) <= max.
Proof. intros Hm. unfold entered. rewrite length_drop. lia. Qed.

Lemma session_kept max t c s h : 1 <= max -> od_get (entered max t c s h) c = Some (s, h).
Proof.
  intros Hm. unfold entered. rewrite drop_app_le, od_get_app by (rewrite length_app; simpl; lia). rewrite (proj2 (od_get_None (drop _ (od_del t c)) c)).
  - rewrite od_get_cons. by rewrite decide_True.
  - rewrite fmap_drop. intros Hin%subseteq_drop. by apply od_del_not_in in Hin.
Qed.

(** ** Servers that go *)

Definition table_ok (self : ConversationRouter) : Prop := NoDup (session_table self).*1 /\ trie_ok (hash_trie self) (hashes_of (session_table self)).

Definition same_others (self self' : ConversationRouter) : Prop :=
  servers self' = servers self /\ balancer self' = balancer self /\ server_sessions self' = server_sessions self /\ req_content_entry self' = req_content_entry self.

Lemma drop_session_list cs self :
  table_ok self ->
  let self' := foldl drop_session self cs in
  table_ok self' /\ same_others self self' /\ server_content_load self' = server_content_load self
  /\ (forall c, od_get (session_table self') c = if decide (c ∈ cs) then None else od_get (session_table self) c)
  /\ session_table self' = foldl od_del (session_table self) cs.
Proof.
  revert self. induction cs as [|c0 cs IH]; intros self Hok; cbn [foldl].
  { by split_and!. }
  assert (H0 : table_ok (drop_session self c0) /\ same_others self (drop_session self c0) /\ server_content_load (drop_session self c0) = server_content_load self
    /\ (forall c, od_get (session_table (drop_session self c0)) c = if decide (c = c0) then None else od_get (session_table self) c)
    /\ session_table (drop_session self c0) = od_del (session_table self) c0).
  { unfold drop_session. destruct (od_get (session_table self) c0) as [[s h]|] eqn:E; simpl.
    - destruct Hok as [Hnd Ht]. split_and!; try done.
      + split; [by apply od_del_keys|]. simpl. rewrite hashes_del. apply trie_remove_ok; [done|]. by rewrite hashes_lookup, E.
      + intros c. apply od_get_del.
    - split_and!; try done; [|by rewrite od_del_id by by apply od_get_None]. intros c. case_decide; [by subst|done]. }
  destruct H0 as (Hok1 & (Ha & Hb & Hc & Hd) & Hl & Hg & Hlen). destruct (IH _ Hok1) as (Hok2 & (Ha' & Hb' & Hc' & Hd') & Hl' & Hg' & Hlen').
  split_and!; [done|split_and!; congruence|congruence| |congruence]. intros c. rewrite Hg', Hg. repeat case_decide; set_solver.
Qed.

Section Removal.
Context (order : gset string -> list string) (order_spec : forall s x, x ∈ order s <-> x ∈ s).

Lemma drop_servers rs sessions self :
  table_ok self ->
  let self' := foldl (drop_sessions order sessions) self rs in
  table_ok self' /\ same_others self self'
  /\ (forall s, server_content_load self' !! s = if decide (s ∈ rs) then None else server_content_load self !! s)
  /\ (forall c, od_get (session_table self') c = if decide (Exists (fun s => c ∈ default ∅ (sessions !! s)) rs) then None else od_get (session_table self) c)
  /\ exists cs, session_table self' = foldl od_del (session_table self) cs.
Proof.
  revert self. induction rs as [|s0 rs IH]; intros self Hok; cbn [foldl].
  { split_and!; try done. by exists []. }
  destruct (drop_session_list (order (default ∅ (sessions !! s0))) self Hok) as (Hok1 & (Ha & Hb & Hc & Hd) & Hl & Hg & Hlen).
  set (self1 := foldl drop_session self _) in *.
  change (drop_sessions order sessions self s0) with (with_load self1 (delete s0 (server_content_load self1)) (req_content_entry self1)).
  destruct (IH (with_load self1 (delete s0 (server_content_load self1)) (req_content_entry self1)) Hok1) as (Hok2 & (Ha' & Hb' & Hc' & Hd') & Hl' & Hg' & cs & Hcs).
  simpl in *. split_and!; [done|split_and!; congruence| | |eexists (_ ++ cs); rewrite foldl_app, <- Hlen; exact Hcs].
  - intros s. rewrite Hl', Hl. destruct (decide (s = s0)) as [->|Hne]; [rewrite lookup_delete_eq|rewrite lookup_delete_ne by done]; repeat case_decide; set_solver.
  - intros c. rewrite Hg', Hg. destruct (decide (Exists _ (s0 :: rs))) as [Hx|Hx]; rewrite Exists_cons, <- order_spec in Hx; repeat case_decide; tauto.
Qed.
End Removal.

(** ** The load is that of the requests in flight *)

Abbreviation keys_of self := (server_state (balancer self)).*1.
Abbreviation table_of self := (req_routing_table (balancer self)).

Definition entry_weight (e : gmap Z (string * Z)) (r : Z) : Z := match e !! r with Some (_, w) => w | None => 0 end.

(** [weight_left] is, for every server, the weight of the requests that were in flight to
    it when it was added.  The load of a server is at most that of the requests in flight
    to it, and less by no more than this. *)
Record load_ok (self : ConversationRouter) (inflight : gmap Z OpenAIRequest) (left : Left) (weight_left : string -> Z) : Prop := {
  lo_counted : load_counted (balancer self) inflight left;
  lo_requests : use_tokens (balancer self) = false;
  lo_servers : forall s, s ∈ keys_of self <-> s ∈ servers self;
  lo_entries : forall r s w, req_content_entry self !! r = Some (s, w) -> 0 <= w /\ table_of self !! r = Some s;
  lo_routed : forall r s, table_of self !! r = Some s -> exists w, req_content_entry self !! r = Some (s, w);
  lo_load : forall s, s ∈ keys_of self ->
    let load := routed (entry_weight (req_content_entry self)) (table_of self) s in
    0 <= _get_content_load self s /\ load - weight_left s <= _get_content_load self s <= load;
  lo_gone : forall s, (s ∉ keys_of self) -> _get_content_load self s = 0;
}.

Lemma load_ok_same self self' inflight left wl : same_load self self' -> load_ok self inflight left wl -> load_ok self' inflight left wl.
Proof. intros (H1 & H2 & H3 & H4) [Ha Hb Hc Hd He Hf Hg]. unfold _get_content_load in *. split; unfold _get_content_load; rewrite ?H1, ?H2, ?H3, ?H4; done. Qed.

Lemma load_ok_rr self b inflight left wl : load_ok self inflight left wl -> b = next_rr (balancer self) -> load_ok (with_balancer self b) inflight left wl.
Proof. intros [Ha Hb Hc Hd He Hf Hg] ->. split; try done. by apply counted_next_rr. Qed.

Definition same_sessions (self self' : ConversationRouter) : Prop :=
  session_table self' = session_table self /\ hash_trie self' = hash_trie self /\ server_sessions self' = server_sessions self.

Lemma register_load self inflight left wl s req w :
  load_ok self inflight left wl -> s ∈ keys_of self -> inflight !! req_id req = None -> 0 <= w ->
  exists self', register self s req w = Ok self' /\ load_ok self' (<[req_id req := req]> inflight) left wl /\ same_sessions self self' /\ keys_of self' = keys_of self
    /\ table_of self' = <[req_id req := s]> (table_of self).
Proof.
  intros [Hc Hu Hsv He Hr Hl Hg] Hs Hnew Hw. apply od_get_is_Some in Hs as Hst. destruct Hst as [st Hst]. unfold register.
  pose proof (register_spec (balancer self) inflight left s st req Hc Hst Hnew) as Hreg. unfold load_tokens in Hreg. rewrite Hu in Hreg.
  destruct (_register_request (balancer self) s req) as [b|e]; [|done]. destruct Hreg as (Hc' & Hk & Ht & Hu' & _). simpl.
  assert (Hnr : table_of self !! req_id req = None) by (apply not_elem_of_dom; rewrite (ct_dom _ _ _ Hc); by apply not_elem_of_dom).
  assert (Hext : forall s', routed (entry_weight (<[req_id req := (s, w)]> (req_content_entry self))) (table_of self) s' = routed (entry_weight (req_content_entry self)) (table_of self) s').
  { intros s'. apply routed_ext. intros r Hr'. unfold entry_weight. rewrite lookup_insert_ne; [done|]. intros <-. congruence. }
  eexists. split; [done|]. split; [|done]. split; simpl; try done; rewrite ?Hk, ?Ht.
  - done.
  - intros r s' w'. destruct (decide (r = req_id req)) as [->|Hne]; [rewrite !lookup_insert_eq|rewrite !lookup_insert_ne by done; apply He]. intros [= <- <-]. done.
  - intros r s'. destruct (decide (r = req_id req)) as [->|Hne]; [rewrite !lookup_insert_eq|rewrite !lookup_insert_ne by done; apply Hr]. intros [= <-]. eauto.
  - intros s' Hs'. specialize (Hl s' Hs'). rewrite routed_insert, Hext by done. unfold _get_content_load in *. simpl in *.
    assert (Hew : entry_weight (<[req_id req := (s, w)]> (req_content_entry self)) (req_id req) = w) by (unfold entry_weight; by rewrite lookup_insert_eq).
    rewrite Hew. destruct (decide (s = s')) as [->|Hne].
    + rewrite lookup_insert_eq, bool_decide_true by done. simpl. lia.
    + rewrite lookup_insert_ne, bool_decide_false by done. lia.
  - intros s' Hs'. unfold _get_content_load. simpl. rewrite lookup_insert_ne by (intros ->; done). by apply Hg.
Qed.

Lemma entries_nonneg self inflight left wl (t : gmap Z string) s : load_ok self inflight left wl -> 0 <= routed (entry_weight (req_content_entry self)) t s.
Proof.
  intros Hok. apply zsum_nonneg. intros [r s2] _. simpl. case_bool_decide; [|lia]. unfold entry_weight.
  destruct (req_content_entry self !! r) as [[s3 w3]|] eqn:E3; [by apply (lo_entries _ _ _ _ Hok) in E3 as [? _]|lia].
Qed.

Lemma finish_load self inflight left wl req :
  load_ok self inflight left wl -> inflight !! req_id req = Some req ->
  exists self', finish_request self req = Ok self' /\ load_ok self' (delete (req_id req) inflight) left wl /\ same_sessions self self' /\ keys_of self' = keys_of self.
Proof.
  intros Hok Hin. pose proof (fun t s => entries_nonneg self inflight left wl t s Hok) as Hnn. destruct Hok as [Hc Hu Hsv He Hr Hl Hg]. unfold finish_request.
  destruct (unregister_spec (balancer self) inflight left req Hc Hin) as (s & b & -> & Hs & Hc' & Hk & Ht & Hu'). simpl. unfold _remove_content_load. simpl.
  destruct (Hr _ _ Hs) as [w Hw]. rewrite Hw. destruct (He _ _ _ Hw) as [Hw0 _].
  assert (Hext : forall s', routed (entry_weight (delete (req_id req) (req_content_entry self))) (delete (req_id req) (table_of self)) s'
    = routed (entry_weight (req_content_entry self)) (delete (req_id req) (table_of self)) s').
  { intros s'. apply routed_ext. intros r [Hr' _]%lookup_delete_Some. unfold entry_weight. by rewrite lookup_delete_ne. }
  assert (Hwt : entry_weight (req_content_entry self) (req_id req) = w) by (unfold entry_weight; by rewrite Hw).
  eexists. split; [done|]. split; [|done]. split; simpl; try done; rewrite ?Hk, ?Ht.
  - congruence.
  - done.
  - intros r s' w'. destruct (decide (r = req_id req)) as [->|Hne]; [by rewrite !lookup_delete_eq|rewrite !lookup_delete_ne by done; apply He].
  - intros r s'. destruct (decide (r = req_id req)) as [->|Hne]; [by rewrite !lookup_delete_eq|rewrite !lookup_delete_ne by done; apply Hr].
  - intros s' Hs'. specialize (Hl s' Hs'). specialize (Hnn (delete (req_id req) (table_of self)) s').
    rewrite Hext. rewrite (routed_delete _ _ _ _ _ Hs), Hwt in Hnn |- *. unfold _get_content_load in *. simpl in *. destruct (decide (s = s')) as [->|Hne].
    + rewrite lookup_insert_eq. rewrite bool_decide_true in Hnn |- * by done. simpl. lia.
    + rewrite lookup_insert_ne by done. rewrite bool_decide_false in Hnn |- * by done. lia.
  - intros s' Hs'. unfold _get_content_load. simpl. specialize (Hg s' Hs'). unfold _get_content_load in Hg.
    destruct (decide (s = s')) as [->|Hne]; [rewrite lookup_insert_eq; simpl; lia|by rewrite lookup_insert_ne].
Qed.

(** A request that is not in flight is finished to no effect. *)
Lemma finish_unknown self inflight left wl req :
  load_ok self inflight left wl -> inflight !! req_id req = None -> finish_request self req = Ok self.
Proof.
  intros Hok Hn. unfold finish_request. rewrite (unregister_unknown _ _ _ _ (lo_counted _ _ _ _ Hok) Hn). simpl. unfold _remove_content_load. simpl.
  destruct (req_content_entry self !! req_id req) as [[s w]|] eqn:E; [|by destruct self]. exfalso. apply (lo_entries _ _ _ _ Hok) in E as [_ E].
  assert (Hin : req_id req ∈ dom inflight) by (rewrite <- (ct_dom _ _ _ (lo_counted _ _ _ _ Hok)); apply elem_of_dom; eauto). apply elem_of_dom in Hin as [? ?]. congruence.
Qed.

Lemma lookup_build {V} (g : string -> V) l s : (list_to_map ((fun s => (s, g s)) <$> l) : gmap string V) !! s = if decide (s ∈ l) then Some (g s) else None.
Proof.
  induction l as [|x l IH]; [done|]. rewrite fmap_cons, list_to_map_cons. destruct (decide (x = s)) as [->|Hne].
  - rewrite lookup_insert_eq, decide_True; [done|set_solver].
  - rewrite lookup_insert_ne, IH by done. repeat case_decide; set_solver.
Qed.

Lemma zero_loads l (m : gmap string Z) s : default 0 (foldl (fun l s => match l !! s with Some _ => l | None => <[s := 0]> l end) m l !! s) = default 0 (m !! s).
Proof.
  revert m. induction l as [|x l IH]; intros m; simpl; [done|]. rewrite IH. destruct (m !! x) eqn:E; [done|].
  destruct (decide (x = s)) as [->|Hne]; [by rewrite lookup_insert_eq, E|by rewrite lookup_insert_ne].
Qed.

Definition with_servers (self : ConversationRouter) (new : list string) : ConversationRouter :=
  mkConversationRouter new (balancer self) (session_table self) (hash_trie self) (server_sessions self)
    (implicit_id_counter self) (server_content_load self) (req_content_entry self).

Section Updates.
Context (order : gset string -> list string) (order_spec : forall s x, x ∈ order s <-> x ∈ s).

(** The list of servers is set and the router told. *)
Definition update_servers (self : ConversationRouter) (new : list string) : ConversationRouter :=
  _on_servers_updated order (with_servers self new) (servers self) new.

(** The weight in flight to a server when it was added. *)
Definition renewed_weight (self : ConversationRouter) (wl : string -> Z) : string -> Z := fun s =>
  if od_get (server_state (balancer self)) s is Some _ then wl s else routed (entry_weight (req_content_entry self)) (table_of self) s.

Lemma update_servers_spec self inflight left wl new :
  load_ok self inflight left wl -> sess (keys_of self) self ->
  let self' := update_servers self new in
  load_ok self' inflight (renewed (balancer self) inflight left) (renewed_weight self wl) /\ sess (keys_of self') self'
  /\ (forall s, s ∈ keys_of self' <-> s ∈ new)
  /\ (forall c s h, od_get (session_table self) c = Some (s, h) -> s ∈ new -> od_get (session_table self') c = Some (s, h))
  /\ exists cs, session_table self' = foldl od_del (session_table self) cs.
Proof.
  intros Hok0 [Sk St Sd Si]. pose proof (fun t s => entries_nonneg self inflight left wl t s Hok0) as Hnn. destruct Hok0 as [Hc Hu Hsv He Hr Hl Hg].
  unfold update_servers, _on_servers_updated. cbv zeta.
  set (b' := ServeRouter._on_servers_updated (balancer (with_servers self new)) (servers self) new).
  set (self1 := with_load _ _ _). set (rs := order _).
  destruct (drop_servers order order_spec rs (server_sessions (with_servers self new)) self1 (conj Sk St)) as (Hok & (Ha & Hb & _ & Hd) & Hcl & Hg' & Hcs).
  set (self2 := foldl _ self1 rs) in *. assert (Hkeys : forall s, s ∈ (server_state b').*1 <-> s ∈ new).
  { intros s. destruct (od_build (fun s => default ServerState_init (od_get (server_state (balancer self)) s)) new []) as (_ & H2 & _). unfold b', ServeRouter._on_servers_updated. simpl. rewrite H2. set_solver. }
  assert (Hrs : forall s, s ∈ rs <-> s ∈ keys_of self /\ s ∉ new).
  { intros s. unfold rs. rewrite order_spec, elem_of_difference, !elem_of_list_to_set, Hsv. done. }
  assert (Hload : forall s, default 0 (server_content_load self2 !! s) = if decide (s ∈ rs) then 0 else _get_content_load self s).
  { intros s. rewrite Hcl. case_decide; [done|]. unfold self1. simpl. apply zero_loads. }
  assert (Hgone : forall c s h, od_get (session_table self) c = Some (s, h) -> s ∈ new -> ~ Exists (fun s => c ∈ default ∅ (server_sessions self !! s)) rs).
  { intros c s h Hh Hs. rewrite Exists_exists. intros (s' & Hs' & [h' Hh']%Si). apply Hrs in Hs' as [_ Hn]. congruence. }
  simpl in Ha, Hb, Hd. change (balancer self1) with b' in Hb. split; [|split; [|split; [|split]]].
  - split; simpl; rewrite ?Ha, ?Hb, ?Hd; try done.
    + by apply on_update_spec.
    + intros s Hs%Hkeys. unfold _get_content_load, renewed_weight. simpl. rewrite Hload, decide_False by (rewrite Hrs; tauto). change (req_routing_table b') with (table_of self).
      destruct (od_get (server_state (balancer self)) s) as [st|] eqn:Est; [apply Hl, od_get_is_Some; eauto|]. apply od_get_None in Est. rewrite Hg by done. specialize (Hnn (table_of self) s). lia.
    + intros s Hs. rewrite Hkeys in Hs. unfold _get_content_load. simpl. rewrite Hload. case_decide as Hin; [done|]. apply Hg. intros Hk. apply Hin, Hrs. done.
  - destruct Hok as [Hk' Ht']. simpl. rewrite Hb. split; [done|done| |].
    + intros s. rewrite lookup_build, Hkeys. case_decide; split; intros H0; try done; by destruct H0.
    + intros s c. rewrite lookup_build, Hg'. change (session_table self1) with (session_table self). split.
      * case_decide as Hs; simpl; [|set_solver]. intros [h Hh]%Si. exists h. rewrite decide_False; [done|]. by eapply Hgone.
      * intros [h Hh]. case_decide as Hx; [done|]. assert (Hin : c ∈ default ∅ (server_sessions self !! s)) by (apply Si; eauto).
        case_decide as Hs; [done|]. destruct Hx. apply Exists_exists. exists s. split; [|done]. apply Hrs. split; [|done]. apply Sd.
        destruct (server_sessions self !! s); [eauto|simpl in Hin; set_solver].
  - simpl. by rewrite Hb.
  - intros c s h Hh Hs. simpl. rewrite Hg', decide_False by (by eapply Hgone). exact Hh.
  - exact Hcs.
Qed.

End Updates.

(** ** Where a request goes *)

Section Routing.
Context (order : gset string -> list string) (order_spec : forall s x, x ∈ order s <-> x ∈ s).
Context (py_str : Prompt -> text) (cfg : Config).
Context (max_nonneg : 0 <= max_sessions cfg) (tpb_nonneg : 0 <= tokens_per_block cfg).

(** A session on a server that may be used agrees with the request in [n] hashes, and no
    such session agrees in more. *)
Definition longest_session (self : ConversationRouter) (hs : list Z) (ex : option string) (c : string) (n : nat) : Prop :=
  (0 < n)%nat /\ _valid self ex c = true /\ agrees (hashes_of (session_table self)) hs c n
  /\ forall c' m, _valid self ex c' = true -> agrees (hashes_of (session_table self)) hs c' m -> (m <= n)%nat.

(** [n] hashes of those of the request are enough. *)
Definition enough (n : nat) (hs : list Z) : Prop := exists ratio, truediv (Z.of_nat n) (len hs) = Ok ratio /\ fleb (match_threshold cfg) ratio = true.

(** There is no session to continue. *)
Definition new_session (self : ConversationRouter) (conv_id : option string) (hs : list Z) (ex : option string) : Prop :=
  match given conv_id with
  | Some c => forall s h, od_get (session_table self) c = Some (s, h) -> alive self ex s = false
  | None => forall c n, longest_session self hs ex c n -> ~ enough n hs
  end.

(** The session [c] a request is entered in and the server [s] it goes to. *)
Inductive destination (self : ConversationRouter) (conv_id : option string) (hs : list Z) (ex : option string) : string -> string -> Prop :=
  | to_conversation c s h :
      given conv_id = Some c -> od_get (session_table self) c = Some (s, h) -> alive self ex s = true -> destination self conv_id hs ex c s
  | to_match c s h n :
      given conv_id = None -> od_get (session_table self) c = Some (s, h) -> longest_session self hs ex c n ->
      enough n hs -> destination self conv_id hs ex c s
  | to_least_loaded s :
      new_session self conv_id hs ex -> least_loaded (fun s => Ok (_get_content_load self s)) (candidates_of (balancer self) ex) s ->
      destination self conv_id hs ex (default (implicit_id cfg (implicit_id_counter self + 1)) (given conv_id)) s.

Definition session_id (self : ConversationRouter) (conv_id : option string) (hs : list Z) (ex : option string) : string :=
  match continued order cfg self conv_id hs ex with
  | Ok (Some (c, _)) => c
  | _ => default (implicit_id cfg (implicit_id_counter self + 1)) (given conv_id)
  end.

Lemma session_id_given self conv_id c hs ex : given conv_id = Some c -> session_id self conv_id hs ex = c.
Proof.
  intros Hg. unfold session_id, continued. rewrite Hg. simpl. destruct (od_get (session_table self) c) as [[s h]|]; [|done]. by destruct (alive self ex s).
Qed.

Lemma matching_session_spec self keys hs ex :
  sess keys self ->
  match _find_matching_session order cfg self hs ex with
  | Ok (Some c) => exists s h n, od_get (session_table self) c = Some (s, h) /\ longest_session self hs ex c n /\ enough n hs
  | Ok None => forall c n, longest_session self hs ex c n -> ~ enough n hs
  | Err _ => False
  end.
Proof.
  intros Hok. unfold _find_matching_session. case_bool_decide as He.
  { subst hs. intros c n (Hn & _ & [Hle _] & _). simpl in Hle. lia. }
  pose proof (longest_match order order_spec (_valid self ex) (hash_trie self) _ hs (se_trie _ _ _ _ Hok)) as Hl.
  destruct (find_longest_prefix_match order (hash_trie self) hs (_valid self ex)) as [[c|] d].
  - destruct Hl as (Hv & n & -> & Hn & Ha & Hmax). assert (Hlong : longest_session self hs ex c n) by done. assert (Hle : (n <= length hs)%nat) by apply Ha.
    destruct (truediv_total (Z.of_nat n) (len hs)) as (ratio & Hr & _); [lia|lia|]. rewrite Hr. cbn [mbind result_bind]. destruct (fleb (match_threshold cfg) ratio) eqn:Em.
    + unfold _valid in Hv. destruct (od_get (session_table self) c) as [[s h]|] eqn:Ec; [|done]. exists s, h, n. split; [done|]. split; [done|]. by exists ratio.
    + intros c' n' (Hn' & Hv' & Ha' & Hmax') (ratio' & Hr' & Hth). specialize (Hmax c' n' Hv' Ha'). specialize (Hmax' c n Hv Ha). assert (n' = n) as -> by lia. congruence.
  - destruct Hl as [_ Hnone]. intros c n (Hn & Hv & Ha & _). specialize (Hnone c n Hv Ha). lia.
Qed.

Lemma continued_spec self keys conv_id hs ex :
  sess keys self ->
  match continued order cfg self conv_id hs ex with
  | Ok (Some (c, s)) => destination self conv_id hs ex c s /\ s ∈ keys
  | Ok None => new_session self conv_id hs ex
  | Err _ => False
  end.
Proof.
  intros Hok. unfold continued, new_session. destruct (given conv_id) as [c|] eqn:Eg.
  - destruct (od_get (session_table self) c) as [[s h]|] eqn:Ec; [|done]. destruct (alive self ex s) eqn:Ea.
    + split; [by eapply to_conversation|by eapply session_server].
    + intros s' h' [= <- <-]. done.
  - pose proof (matching_session_spec self keys hs ex Hok) as Hm.
    destruct (_find_matching_session order cfg self hs ex) as [[c|]|e]; simpl; [|done|done]. destruct Hm as (s & h & n & Hc & Hl & Ht). rewrite Hc.
    split; [by eapply to_match|by eapply session_server].
Qed.

(** *** The router at work *)

(** The router with the requests in flight, and with what was in flight to the servers
    when they were added. *)
Record Run := mkRun {
  router : ConversationRouter;
  inflight : gmap Z OpenAIRequest;
  left_over : Left;
  weight_left : string -> Z;
}.

Record conv_ok (r : Run) : Prop := {
  co_load : load_ok (router r) (inflight r) (left_over r) (weight_left r);
  co_sessions : sess (keys_of (router r)) (router r);
  co_size : len (session_table (router r)) <= max_sessions cfg;
}.

Definition with_request (r : Run) (self : ConversationRouter) (req : OpenAIRequest) : Run :=
  mkRun self (<[req_id req := req]> (inflight r)) (left_over r) (weight_left r).

Lemma route_spec r req hs ex :
  conv_ok r -> inflight r !! req_id req = None ->
  let self := router r in
  match route order py_str cfg self req hs ex with
  | Ok (s, self') => conv_ok (with_request r self' req)
      /\ table_of self' = <[req_id req := s]> (table_of self) /\ keys_of self' = keys_of self
      /\ let c := session_id self (_get_conversation_id req) hs ex in
         destination self (_get_conversation_id req) hs ex c s /\ session_table self' = entered (max_sessions cfg) (session_table self) c s hs
  | Err e => e = ValueError /\ candidates_of (balancer self) ex = []
  end.
Proof.
  intros [Hl Hs Hsz] Hnew self. unfold route, _estimate_content_weight, session_id. cbv zeta. set (w := len hs * tokens_per_block cfg). assert (Hw : 0 <= w) by (unfold w; nia).
  pose proof (continued_spec self _ (_get_conversation_id req) hs ex Hs) as Hc.
  destruct (continued order cfg self (_get_conversation_id req) hs ex) as [[[c s]|]|e]; [| |done]; cbn [mbind result_bind].
  - destruct Hc as (Hdest & Hin). destruct (update_session_spec cfg (keys_of self) self c s hs Hs Hin max_nonneg) as (self1 & -> & Hs1 & Hsame & Ht). cbn [mbind result_bind].
    pose proof (load_ok_same _ _ _ _ _ Hsame Hl) as Hl1. destruct Hsame as (_ & Hb & _ & _).
    destruct (register_load self1 _ _ _ s req w Hl1) as (self2 & -> & Hl2 & (Ht2 & Hn2 & Hm2) & Hk2 & Hr2); [by rewrite Hb|done|done|]. cbn [mbind result_bind].
    split; [|split; [congruence|split; [congruence|split; [done|congruence]]]].
    split; simpl; [done|rewrite Ht2, Hn2, Hm2, Hk2, Hb; done|rewrite Ht2, Ht; by apply length_entered].
  - pose proof (select_spec (fun s => Ok (_get_content_load self s)) (balancer self) ex) as Hsel.
    destruct (_select_least_loaded (fun s => Ok (_get_content_load self s)) (balancer self) ex) as [[[s|] b]|e]; cbn [mbind result_bind].
    + destruct Hsel as [Hleast Hb]; [eauto|]. assert (Hin : s ∈ keys_of self) by (destruct Hleast as [Hx _]; by apply elem_of_candidates in Hx as [? _]).
      destruct (register_load (with_balancer self b) (inflight r) (left_over r) (weight_left r) s req w) as (self1 & Hreg & Hl1 & (Ht1 & Hn1 & Hm1) & Hk1 & Hr1);
        [by apply load_ok_rr|subst b; done|done|done|]. assert (Hcnt : implicit_id_counter self1 = implicit_id_counter self).
      { unfold register in Hreg. apply bind_Ok in Hreg as (b' & _ & [= <-]). done. }
      rewrite Hreg. cbn [mbind result_bind]. simpl in Ht1, Hn1, Hm1, Hk1, Hr1. rewrite Hb in Hk1, Hr1. simpl in Hk1, Hr1.
      set (next := match given (_get_conversation_id req) with Some c => (c, self1) | None => _generate_implicit_id cfg self1 end).
      assert (Hnext : default (implicit_id cfg (implicit_id_counter self + 1)) (given (_get_conversation_id req)) = next.1 /\ same_load self1 next.2 /\ same_sessions self1 next.2).
      { unfold next. rewrite <- Hcnt. by destruct (given (_get_conversation_id req)). }
      pose proof (to_least_loaded self (_get_conversation_id req) hs ex s Hc Hleast) as Hdest.
      destruct next as [c self2]. simpl in Hnext. destruct Hnext as (Hc2 & Hsame2 & Ht2 & Hn2 & Hm2). rewrite Hc2 in Hdest |- *.
      assert (Hs2 : sess (keys_of self) self2) by (by rewrite Ht2, Hn2, Hm2, Ht1, Hn1, Hm1).
      destruct (update_session_spec cfg (keys_of self) self2 c s hs Hs2 Hin max_nonneg) as (self3 & -> & Hs3 & Hsame3 & Ht3). cbn [mbind result_bind].
      pose proof (load_ok_same _ _ _ _ _ (same_load_trans _ _ _ Hsame2 Hsame3) Hl1) as Hl3. destruct Hsame2 as (_ & Hb2 & _ & _). destruct Hsame3 as (_ & Hb3 & _ & _).
      split; [|split; [congruence|split; [congruence|split; [done|congruence]]]].
      split; simpl; [done|rewrite Hb3, Hb2, Hk1; done|rewrite Ht3; by apply length_entered].
    + destruct Hsel as [Hnone _]; [eauto|]. done.
    + destruct Hsel. eauto.
Qed.

(** Requests are sent, [c] being the session they are entered in, and finish, and the list
    of servers changes.  A request that is refused changes nothing. *)
Inductive event :=
  | Routed (req : OpenAIRequest) (hs : list Z) (ex : option string) (c s : string)
  | Finished (req : OpenAIRequest)
  | Changed (new : list string).

Inductive step : Run -> event -> Run -> Prop :=
  | do_route r req hs ex s self' :
      inflight r !! req_id req = None -> route order py_str cfg (router r) req hs ex = Ok (s, self') ->
      step r (Routed req hs ex (session_id (router r) (_get_conversation_id req) hs ex) s) (with_request r self' req)
  | do_finish r req self' :
      (forall q, inflight r !! req_id req = Some q -> q = req) -> finish_request (router r) req = Ok self' ->
      step r (Finished req) (mkRun self' (delete (req_id req) (inflight r)) (left_over r) (weight_left r))
  | do_change r new :
      step r (Changed new) (mkRun (update_servers order (router r) new) (inflight r)
        (renewed (balancer (router r)) (inflight r) (left_over r)) (renewed_weight (router r) (weight_left r))).

Inductive runs : Run -> list event -> Run -> Prop :=
  | runs_nil r : runs r [] r
  | runs_cons r e r1 es r2 : step r e r1 -> runs r1 es r2 -> runs r (e :: es) r2.

Definition start (servers : list string) : Run := mkRun (ConversationRouter_init servers) ∅ (fun _ => (0, 0)) (fun _ => 0).

Definition in_operation (r : Run) : Prop := exists servers es, runs (start servers) es r.

Lemma start_ok servers : conv_ok (start servers).
Proof.
  destruct (od_build (fun _ => ServerState_init) servers []) as (_ & Hk & _).
  assert (Hkeys : forall s, s ∈ keys_of (ConversationRouter_init servers) <-> s ∈ servers) by (intros s; simpl; rewrite Hk; set_solver).
  assert (Hload : forall s, _get_content_load (ConversationRouter_init servers) s = 0).
  { intros s. unfold _get_content_load. simpl. rewrite (lookup_build (fun _ => 0)). by case_decide. }
  split; [split; try done|split|simpl; lia].
  - apply in_operation_counted, op_init.
  - intros s _. simpl. rewrite Hload, routed_none by (intros r; by rewrite lookup_empty). lia.
  - constructor.
  - apply trie_ok_init.
  - intros s. rewrite Hkeys. simpl. rewrite (lookup_build (fun _ => ∅ : gset string)). case_decide; split; intros H0; try done; by destruct H0.
  - intros s c. simpl. rewrite (lookup_build (fun _ => ∅ : gset string)). case_decide; simpl; split; [set_solver|by intros [h Hh]|set_solver|by intros [h Hh]].
Qed.

Lemma length_del_all {V} cs : forall (t : list (string * V)), (length (foldl od_del t cs) <= length t)%nat.
Proof. induction cs as [|c cs IH]; intros t; simpl; [done|]. etransitivity; [apply IH|]. apply length_filter. Qed.

Lemma step_ok r e r' : step r e r' -> conv_ok r -> conv_ok r'.
Proof.
  destruct 1 as [r req hs ex s self' Hnew Hr|r req self' Hin Hf|r new]; intros Hok.
  - pose proof (route_spec r req hs ex Hok Hnew) as H. simpl in H. rewrite Hr in H. apply H.
  - destruct (inflight r !! req_id req) as [q|] eqn:Eq; destruct Hok as [Hl Hs Hz].
    + rewrite (Hin _ eq_refl) in Eq. destruct (finish_load _ _ _ _ req Hl Eq) as (self1 & Hf1 & Hl1 & (Ht & Hn & Hm) & Hk). rewrite Hf in Hf1. injection Hf1 as <-.
      split; simpl; [done|by rewrite Ht, Hn, Hm, Hk|by rewrite Ht].
    + rewrite (finish_unknown _ _ _ _ _ Hl Eq) in Hf. injection Hf as <-. split; simpl; [by rewrite delete_id|done|done].
  - destruct Hok as [Hl Hs Hz]. destruct (update_servers_spec order order_spec _ _ _ _ new Hl Hs) as (Hl1 & Hs1 & _ & _ & cs & Hcs).
    split; [exact Hl1|exact Hs1|]. cbn [router]. rewrite Hcs. pose proof (length_del_all cs (session_table (router r))). lia.
Qed.

Lemma runs_ok r es r' : runs r es r' -> conv_ok r -> conv_ok r'.
Proof. induction 1 as [|r e r1 es r2 Hs _ IH]; [done|]. intros Hok. by apply IH, (step_ok _ _ _ Hs). Qed.

Lemma in_operation_ok r : in_operation r -> conv_ok r.
Proof. intros (servers & es & Hr). by eapply runs_ok, start_ok. Qed.

Lemma tokenize_same chat enc req l req' : _tokenize chat enc req = Ok (l, req') -> req_id req' = req_id req /\ disaggregated_params req' = disaggregated_params req.
Proof.
  unfold _tokenize, encode_prompts. destruct (body req) as [ms [ids|]|[t|[|t ts]|[|x xs]|[|y ys]]]; intros H; try done; by injection H as <- <-.
Qed.

Lemma hashing_same chat enc hasher req hs req' :
  _request_to_block_hashes py_str chat enc hasher cfg req = Ok (hs, req') -> req_id req' = req_id req /\ _get_conversation_id req' = _get_conversation_id req.
Proof.
  unfold _request_to_block_hashes, _get_conversation_id. intros ([[seqs skip] req1] & H1 & H)%bind_Ok. apply bind_Ok in H as (hashes & _ & H). apply bind_Ok in H as (hs' & _ & H).
  injection H as -> ->. destruct (_try_extract_token_ids req); [by injection H1 as <- <- ->|]. destruct (use_token_ids cfg); [|by injection H1 as <- <- ->].
  apply bind_Ok in H1 as ([l req2] & Ht & H1). injection H1 as <- <- ->. by apply tokenize_same in Ht as [-> ->].
Qed.

(** C8. In any run, the table, the tree and the index of the sessions say the same, no more
    sessions are kept than allowed, and the load of a server is that of the requests in
    flight to it, or, if some were in flight when it was added, less by at most their
    weight.  A request with a conversation id goes where its conversation is, if that is
    known and its server there and not excluded, and otherwise to a server with the least
    load; a request without one goes where the longest match is, if that passes the
    threshold, and otherwise to a server with the least load.  The conversation is there
    from then on.  It fails only if no server is left for it, or if its blocks cannot be
    hashed. *)
Theorem conversation_routed chat enc hasher r req ex :
  in_operation r -> inflight r !! req_id req = None ->
  conv_ok r
  /\ match get_next_server order py_str chat enc hasher cfg (router r) req ex with
     | Ok (s, self') => exists hs req' c,
         _request_to_block_hashes py_str chat enc hasher cfg req = Ok (hs, req')
         /\ destination (router r) (_get_conversation_id req) hs ex c s /\ conv_ok (with_request r self' req')
         /\ table_of self' = <[req_id req := s]> (table_of (router r))
         /\ (1 <= max_sessions cfg -> od_get (session_table self') c = Some (s, hs))
     | Err e => (e = ValueError /\ forall s, s ∈ servers (router r) -> ex = Some s) \/ _request_to_block_hashes py_str chat enc hasher cfg req = Err e
     end.
Proof.
  intros Hop Hnew. pose proof (in_operation_ok _ Hop) as Hok. split; [done|]. unfold get_next_server. case_bool_decide as Hs.
  { left. split; [done|]. rewrite Hs. set_solver. }
  destruct (_request_to_block_hashes py_str chat enc hasher cfg req) as [[hs req']|e] eqn:Eh; [|by right]. cbn [mbind result_bind].
  destruct (hashing_same _ _ _ _ _ _ Eh) as [Hid Hconv]. rewrite <- Hid in Hnew. pose proof (route_spec r req' hs ex Hok Hnew) as H. simpl in H.
  destruct (route order py_str cfg (router r) req' hs ex) as [[s self']|e].
  - destruct H as (Hok' & Ht & _ & Hd & Hst). rewrite Hid, Hconv in *. eexists hs, req', _. split; [done|]. split; [exact Hd|]. split; [done|]. split; [done|].
    intros Hm. rewrite Hst. by apply session_kept.
  - destruct H as [-> Hnone]. left. split; [done|]. intros s Hin. apply (lo_servers _ _ _ _ (co_load _ Hok)) in Hin.
    destruct (decide (Some s = ex)) as [?|Hne]; [done|]. exfalso. apply (not_elem_of_nil s). rewrite <- Hnone. by apply elem_of_candidates.
Qed.

(** *** Conversations stay where they are *)

(** Session [c] is on server [s], and only the sessions [cs] were used after it. *)
Definition held (t : list (string * (string * list Z))) (c s : string) (cs : gset string) : Prop :=
  exists pre h post, t = pre ++ (c, (s, h)) :: post /\ forall c', c' ∈ post.*1 -> c' ∈ cs.

Lemma held_get t c s cs : NoDup t.*1 -> held t c s cs -> exists h, od_get t c = Some (s, h).
Proof. intros Hnd (pre & h & post & -> & _). exists h. apply od_get_Some; [done|set_solver]. Qed.

Lemma od_del_app {V} (t1 t2 : list (string * V)) c : od_del (t1 ++ t2) c = od_del t1 c ++ od_del t2 c.
Proof. apply filter_app. Qed.

Lemma held_del t c c' s cs : c' <> c -> held t c s cs -> held (od_del t c') c s cs.
Proof.
  intros Hne (pre & h & post & -> & Hp). exists (od_del pre c'), h, (od_del post c'). rewrite od_del_app. split.
  - f_equal. unfold od_del. by rewrite filter_cons_True by (simpl; congruence).
  - intros x [_ Hx]%elem_of_od_del_keys. by apply Hp.
Qed.

Lemma held_del_all l : forall t c s cs, od_get (foldl od_del t l) c <> None -> held t c s cs -> held (foldl od_del t l) c s cs.
Proof.
  assert (Hgone : forall l1 (t : list (string * (string * list Z))) c, od_get t c = None -> od_get (foldl od_del t l1) c = None).
  { induction l1 as [|c' l1 IH]; intros t c Hn; cbn [foldl]; [exact Hn|]. apply IH. rewrite od_get_del. by case_decide. }
  induction l as [|c' l IH]; intros t c s cs Hget Hh; cbn [foldl] in *; [done|]. apply IH; [done|]. apply held_del; [|done]. intros ->. apply Hget, Hgone.
  rewrite od_get_del. by rewrite decide_True.
Qed.

(** Another session is used: it is the last one now, and [c] is not among those that make
    room unless as many sessions were used after it as are kept. *)
Lemma held_other t c s cs c' s' h' : NoDup t.*1 -> c' <> c -> Z.of_nat (size ({[c']} ∪ cs)) < max_sessions cfg ->
  held t c s cs -> held (entered (max_sessions cfg) t c' s' h') c s ({[c']} ∪ cs).
Proof.
  intros Hnd Hne Hsz (pre & h & post & -> & Hp). rewrite fmap_app, fmap_cons in Hnd. apply NoDup_app in Hnd as (_ & _ & [_ Hnd]%NoDup_cons).
  assert (Hpost : (length (od_del post c') + 1 <= size (({[c']} ∪ cs) : gset string))%nat).
  { rewrite <- (length_fmap fst (od_del post c')). transitivity (length (c' :: (od_del post c').*1)); [simpl; lia|].
    change (size (({[c']} ∪ cs) : gset string)) with (length (elements (({[c']} ∪ cs) : gset string))). apply submseteq_length, NoDup_submseteq.
    - apply NoDup_cons. split; [apply od_del_not_in|by apply od_del_keys].
    - intros x. rewrite elem_of_elements. intros [->|[_ Hx]%elem_of_od_del_keys]%elem_of_cons; [set_solver|]. apply Hp in Hx. set_solver. }
  unfold entered. cbv zeta. set (l := od_del (pre ++ (c, (s, h)) :: post) c' ++ [(c', (s', h'))]).
  assert (Hl : l = od_del pre c' ++ (c, (s, h)) :: od_del post c' ++ [(c', (s', h'))]).
  { unfold l. rewrite od_del_app, <- app_assoc. f_equal. unfold od_del. by rewrite filter_cons_True by (simpl; congruence). }
  assert (Hk : (length l - Z.to_nat (max_sessions cfg) <= length (od_del pre c'))%nat) by (rewrite Hl, length_app; simpl; rewrite length_app; simpl; lia).
  eexists _, h, _. split; [rewrite Hl in Hk |- *; by rewrite drop_app_le|]. intros x. rewrite fmap_app, elem_of_app. simpl. rewrite list_elem_of_singleton.
  intros [[_ Hx]%elem_of_od_del_keys| ->]; [apply Hp in Hx; set_solver|set_solver].
Qed.

Lemma held_again t c s h : 1 <= max_sessions cfg -> held (entered (max_sessions cfg) t c s h) c s ∅.
Proof.
  intros Hm. unfold entered. cbv zeta. rewrite drop_app_le by (rewrite length_app; simpl; lia). eexists _, h, []. split; [done|]. by intros x Hx%not_elem_of_nil.
Qed.

(** The event leaves session [c] with server [s]: the server stays, and no request that is
    entered in [c] excludes it. *)
Definition keeps (c s : string) (e : event) : Prop :=
  match e with
  | Routed _ _ ex c' _ => c' = c -> ex <> Some s
  | Finished _ => True
  | Changed new => s ∈ new
  end.

(** The sessions other than [c] that are used. *)
Definition used (c : string) (es : list event) : gset string :=
  list_to_set (omap (fun e => match e with Routed _ _ _ c' _ => if decide (c' = c) then None else Some c' | _ => None end) es).

Lemma held_alive r c s cs ex : conv_ok r -> held (session_table (router r)) c s cs -> ex <> Some s ->
  exists h, od_get (session_table (router r)) c = Some (s, h) /\ s ∈ keys_of (router r) /\ alive (router r) ex s = true.
Proof.
  intros Hok Hh Hex. destruct (held_get _ _ _ _ (se_keys _ _ _ _ (co_sessions _ Hok)) Hh) as [h Hget]. pose proof (session_server _ _ _ _ _ _ _ (co_sessions _ Hok) Hget) as Hs.
  exists h. split_and!; [done|done|]. unfold alive. rewrite bool_decide_true, bool_decide_false by (done || congruence). done.
Qed.

Lemma destination_held self conv_id hs ex c s h s' : (forall n, c <> implicit_id cfg n) ->
  od_get (session_table self) c = Some (s, h) -> alive self ex s = true -> destination self conv_id hs ex c s' -> s' = s.
Proof.
  intros Hc Hget Ha Hd. inversion Hd as [c1 s1 h1 _ Hc1 _|c1 s1 h1 n _ Hc1 _ _|s1 Hn _ Heq]; subst; [congruence|congruence|].
  exfalso. unfold new_session in Hn. destruct (given conv_id) as [c1|]; [simpl in Hget; rewrite (Hn _ _ Hget) in Ha; done|by eapply Hc].
Qed.

Lemma held_step r e r' c s cs : (forall n, c <> implicit_id cfg n) -> conv_ok r -> step r e r' -> keeps c s e ->
  Z.of_nat (size (used c [e] ∪ cs)) < max_sessions cfg -> held (session_table (router r)) c s cs -> held (session_table (router r')) c s (used c [e] ∪ cs).
Proof.
  intros Hc Hok Hst. revert cs. destruct Hst as [r req hs ex s' self' Hnew Hr|r req self' Hin Hf|r new]; intros cs Hk Hsz Hh.
  - pose proof (route_spec r req hs ex Hok Hnew) as H. simpl in H. rewrite Hr in H. destruct H as (_ & _ & _ & Hd & Ht). cbn [router with_request] in *.
    set (c' := session_id (router r) (_get_conversation_id req) hs ex) in *. rewrite Ht. unfold used, keeps in *. simpl in *. destruct (decide (c' = c)) as [Heq|Hne].
    + destruct (held_alive r c s cs ex Hok Hh (Hk Heq)) as (h & Hget & _ & Ha). rewrite Heq in *.
      rewrite (destination_held _ _ _ _ _ _ _ _ Hc Hget Ha Hd) in *.
      destruct (held_again (session_table (router r)) c s hs) as (pre & h2 & post & He & Hp); [lia|]. exists pre, h2, post. split; [done|]. intros x Hx%Hp. set_solver.
    + simpl in *. rewrite union_empty_r_L in Hsz |- *. apply held_other; [apply (co_sessions _ Hok)|done|done|done].
  - assert (Ht : session_table self' = session_table (router r)).
    { destruct (inflight r !! req_id req) as [q|] eqn:Eq.
      - rewrite (Hin _ eq_refl) in Eq. destruct (finish_load _ _ _ _ req (co_load _ Hok) Eq) as (self1 & Hf1 & _ & (Ht & _) & _). congruence.
      - rewrite (finish_unknown _ _ _ _ _ (co_load _ Hok) Eq) in Hf. congruence. }
    cbn [router]. rewrite Ht. destruct Hh as (pre & h & post & He & Hp). exists pre, h, post. split; [done|]. intros x Hx%Hp. set_solver.
  - destruct (update_servers_spec order order_spec _ _ _ _ new (co_load _ Hok) (co_sessions _ Hok)) as (_ & _ & _ & Hget & l & Hl).
    destruct (held_get _ _ _ _ (se_keys _ _ _ _ (co_sessions _ Hok)) Hh) as [h Hh0]. specialize (Hget c s h Hh0 Hk). cbn [router].
    assert (Hh1 : held (session_table (update_servers order (router r) new)) c s cs) by (rewrite Hl in Hget |- *; apply held_del_all; [congruence|done]).
    destruct Hh1 as (pre & h1 & post & He & Hp). exists pre, h1, post. split; [done|]. intros x Hx%Hp. set_solver.
Qed.

Lemma used_cons c e es : used c (e :: es) = used c [e] ∪ used c es.
Proof. unfold used. simpl. destruct e as [req hs ex c' s'|req|new]; simpl; [destruct (decide (c' = c)); simpl|..]; set_solver. Qed.

Lemma held_runs r es r' c s : (forall n, c <> implicit_id cfg n) -> runs r es r' -> forall cs, conv_ok r -> Forall (keeps c s) es ->
  Z.of_nat (size (used c es ∪ cs)) < max_sessions cfg -> held (session_table (router r)) c s cs -> held (session_table (router r')) c s (used c es ∪ cs).
Proof.
  intros Hc. induction 1 as [r|r e r1 es r2 Hs _ IH]; intros cs Hok Hk Hsz Hh.
  - destruct Hh as (pre & h & post & He & Hp). exists pre, h, post. split; [done|]. intros x Hx%Hp. set_solver.
  - apply Forall_cons in Hk as [Hk Hks]. rewrite used_cons in Hsz |- *.
    assert (Heq : used c [e] ∪ used c es ∪ cs = used c es ∪ (used c [e] ∪ cs)) by set_solver. rewrite Heq in Hsz |- *.
    apply IH; [by eapply step_ok|done|done|]. apply (held_step r e r1 c s cs Hc Hok Hs Hk); [|done].
    eapply Z.le_lt_trans; [|exact Hsz]. apply inj_le, subseteq_size. set_solver.
Qed.

(** C32. A conversation stays on its server: after a request that was entered in the
    conversation [c] and went to [s], whatever requests are sent, with and without
    conversation ids, finish, and change the list of servers, the next request of [c] goes
    to [s] again, provided that [s] is in every new list of servers, that neither this
    request nor one entered in [c] in between excludes [s], that fewer other sessions were
    used in between than are kept, and that [c] is not an id the router makes up itself. *)
Theorem conversations_stay chat enc hasher r0 req0 hs0 ex0 c s es r req ex hs req' :
  in_operation r0 -> runs r0 (Routed req0 hs0 ex0 c s :: es) r -> (forall n, c <> implicit_id cfg n) ->
  Forall (keeps c s) es -> Z.of_nat (size (used c es)) < max_sessions cfg ->
  inflight r !! req_id req = None -> given (_get_conversation_id req) = Some c -> ex <> Some s ->
  _request_to_block_hashes py_str chat enc hasher cfg req = Ok (hs, req') ->
  exists self', get_next_server order py_str chat enc hasher cfg (router r) req ex = Ok (s, self').
Proof.
  intros Hop Hruns Hc Hk Hsz Hnew Hg Hex Hh. pose proof (in_operation_ok _ Hop) as Hok0. inversion Hruns as [|? ? r1 ? ? Hstep Hrest]; subst.
  pose proof (step_ok _ _ _ Hstep Hok0) as Hok1. pose proof (runs_ok _ _ _ Hrest Hok1) as Hok.
  assert (Hheld1 : held (session_table (router r1)) c s ∅).
  { inversion Hstep as [? ? ? ? ? self' Hnew0 Hr0| |]; subst. pose proof (route_spec r0 req0 hs0 ex0 Hok0 Hnew0) as H. simpl in H. rewrite Hr0 in H.
    destruct H as (_ & _ & _ & _ & Ht). simpl. rewrite Ht. apply held_again. lia. }
  pose proof (held_runs r1 es r c s Hc Hrest ∅ Hok1 Hk) as Hheld. rewrite union_empty_r_L in Hheld. specialize (Hheld Hsz Hheld1).
  destruct (held_alive r c s _ ex Hok Hheld Hex) as (h & Hget & Hs & Ha).
  destruct (hashing_same _ _ _ _ _ _ Hh) as [Hid Hconv]. rewrite <- Hid in Hnew. pose proof (route_spec r req' hs ex Hok Hnew) as H. simpl in H.
  unfold get_next_server. rewrite bool_decide_false, Hh; cycle 1.
  { intros He. apply (lo_servers _ _ _ _ (co_load _ Hok)) in Hs. rewrite He in Hs. by apply not_elem_of_nil in Hs. }
  cbn [mbind result_bind]. destruct (route order py_str cfg (router r) req' hs ex) as [[s' self']|e].
  - exists self'. destruct H as (_ & _ & _ & Hd & _). rewrite Hconv, (session_id_given _ _ c) in Hd by done.
    by rewrite (destination_held _ _ _ _ _ _ _ _ Hc Hget Ha Hd).
  - destruct H as [_ Hnone]. exfalso. apply (not_elem_of_nil s). rewrite <- Hnone. apply elem_of_candidates. split; [done|congruence].
Qed.

End Routing.

Module Example.

(** 0.75 *)
Definition threshold : float := match truediv 3 4 with Ok q => q | Err _ => float_of_Z 1 end.
Definition cfg : Config := mkConfig threshold 2 false 0 3 0.
Definition str (p : Prompt) : text := [].
Definition chat (m : list (text * text)) : list Z := [].
Definition hash (l : list Z) (parent : Z) : Z := zsum id l + 31 * parent.
Definition request (r : Z) (conv : option string) (ids : list Z) : OpenAIRequest :=
  mkOpenAIRequest r (CompletionRequest (PInts ids)) (Some (mkDisaggregatedParams context_only conv)).

Lemma elements_spec (s : gset string) x : x ∈ elements s <-> x ∈ s.
Proof. apply elem_of_elements. Qed.

(** What a request does, and what the end of one does. *)
Definition sent (r : Run) (req : OpenAIRequest) (hs : list Z) : Run :=
  match route elements str cfg (router r) req hs None with Ok (_, self') => with_request r self' req | Err _ => r end.
Definition ended (r : Run) (req : OpenAIRequest) : Run :=
  match finish_request (router r) req with
  | Ok self' => mkRun self' (delete (req_id req) (inflight r)) (left_over r) (weight_left r)
  | Err _ => r
  end.
Definition changed (r : Run) (new : list string) : Run :=
  mkRun (update_servers elements (router r) new) (inflight r) (renewed (balancer (router r)) (inflight r) (left_over r)) (renewed_weight (router r) (weight_left r)).

Lemma sent_step r req hs c s : inflight r !! req_id req = None -> session_id elements cfg (router r) (_get_conversation_id req) hs None = c ->
  (p ← route elements str cfg (router r) req hs None; Ok p.1) = Ok s -> step elements str cfg r (Routed req hs None c s) (sent r req hs).
Proof.
  intros Hn <- Hs. unfold sent. destruct (route elements str cfg (router r) req hs None) as [[s' self']|e] eqn:E; [|done]. injection Hs as ->. by apply do_route.
Qed.

Lemma ended_step r req : (forall q, inflight r !! req_id req = Some q -> q = req) -> (p ← finish_request (router r) req; Ok ()) = Ok () ->
  step elements str cfg r (Finished req) (ended r req).
Proof. intros Hq Hf. unfold ended. destruct (finish_request (router r) req) as [self'|e] eqn:E; [|done]. by apply do_finish. Qed.

Definition x1 : OpenAIRequest := request 1 (Some "x"%string) [5; 6; 7].
Definition y1 : OpenAIRequest := request 2 (Some "y"%string) [8; 9; 8].
Definition n1 : OpenAIRequest := request 3 None [1; 2; 3].

Definition r1 : Run := sent (start ["a"; "b"]%string) x1 [11].
Definition r2 : Run := sent r1 y1 [17].
Definition r3 : Run := ended r2 x1.
Definition r4 : Run := changed r3 ["c"; "a"]%string.
Definition r5 : Run := sent r4 n1 [3].

Definition events : list event :=
  [Routed y1 [17] None "y" "b"; Finished x1; Changed ["c"; "a"]; Routed n1 [3] None "conv_id:0_1" "c"]%string.

Lemma example_runs : runs elements str cfg (start ["a"; "b"]%string) (Routed x1 [11] None "x"%string "a"%string :: events) r5.
Proof.
  unfold events. eapply runs_cons; [apply (sent_step _ x1 [11]); by vm_compute|]. eapply runs_cons; [apply (sent_step _ y1 [17]); by vm_compute|].
  eapply runs_cons; [apply (ended_step _ x1); [|by vm_compute]|].
  { intros q Hq. vm_compute in Hq. by injection Hq as <-. }
  eapply runs_cons; [apply do_change|]. eapply runs_cons; [apply (sent_step r4 n1 [3]); by vm_compute|]. apply runs_nil.
Qed.

End Example.

Lemma conversation_routed_witness :
  match get_next_server elements Example.str Example.chat id Example.hash Example.cfg
          (ConversationRouter_init ["a"; "b"]%string) (Example.request 1 (Some "x"%string) [5; 6; 7; 8; 9]) (Some "a"%string) with
  | Ok (s, self') => s = "b"%string /\ exists c, od_get (session_table self') c = Some ("b"%string, [11; 356])
  | Err _ => False
  end.
Proof.
  destruct (conversation_routed elements Example.elements_spec Example.str Example.cfg ltac:(done) ltac:(done) Example.chat id Example.hash
    (start ["a"; "b"]%string) (Example.request 1 (Some "x"%string) [5; 6; 7; 8; 9]) (Some "a"%string)) as [_ H].
  { exists ["a"; "b"]%string, []. apply runs_nil. }
  { apply lookup_empty. }
  change (router (start ["a"; "b"]%string)) with (ConversationRouter_init ["a"; "b"]%string) in H.
  destruct (get_next_server _ _ _ _ _ _ _ _ _) as [[s self']|e] eqn:E; [|vm_compute in E; congruence].
  destruct H as (hs & req' & c & Hh & _ & _ & _ & Hget). vm_compute in Hh. injection Hh as <- <-.
  assert (s = "b"%string) as -> by (vm_compute in E; congruence). split; [done|]. exists c. by apply Hget.
Defined.

Lemma conversations_stay_witness :
  exists self', get_next_server elements Example.str Example.chat id Example.hash Example.cfg (router Example.r5)
    (Example.request 4 (Some "x"%string) [5; 6; 7]) (Some "c"%string) = Ok ("a"%string, self').
Proof.
  apply (conversations_stay elements Example.elements_spec Example.str Example.cfg ltac:(done) ltac:(done) Example.chat id Example.hash
    (start ["a"; "b"]%string) Example.x1 [11] None "x"%string "a"%string Example.events Example.r5 (Example.request 4 (Some "x"%string) [5; 6; 7]) (Some "c"%string)
    [11] (Example.request 4 (Some "x"%string) [5; 6; 7])).
  - exists ["a"; "b"]%string, []. apply runs_nil.
  - apply Example.example_runs.
  - intros n. by unfold implicit_id.
  - repeat constructor; simpl; try done; set_solver.
  - by vm_compute.
  - by vm_compute.
  - done.
  - done.
  - by vm_compute.
Defined.
