(* ===== verification/NGram.v ===== *)
(** Draft tokens from the tokens of a request itself: [NGramPoolManager] of
    speculative/ngram.py.

    A pool maps patterns, short runs of tokens, to the runs that followed them.  The
    draft for the next step is what followed the longest known pattern the tokens end
    with.  An [OrderedSet] is the list of its elements; taking the short matches out of
    it while it is iterated over, which the library of that class leaves open, is a
    parameter [drop_short]. *)

From stdpp Require Import prelude gmap.
From S2P Require Import Prelude.

Local Open Scope Z_scope.

Abbreviation tokens := (list Z).
Abbreviation NGramPool := (gmap (list Z) (list (list Z))).

Record NGramConfig := mkNGramConfig {
  max_total_draft_tokens : Z;
  max_matching_ngram_size : Z;
  is_keep_all : bool;
  is_use_oldest : bool;
  is_public_pool : bool;
}.

(** The member [pool] is one pool, or has a pool for every request. *)
Record NGramPoolManager := mkNGramPoolManager {
  public_pool : NGramPool;
  private_pools : gmap Z NGramPool;
  start_index : gmap Z Z;
}.

Definition NGramPoolManager_init : NGramPoolManager := mkNGramPoolManager ∅ ∅ ∅.

Section Drafting.
Context (cfg : NGramConfig) (drop_short : nat -> list tokens -> list tokens).

Definition add_pair (pool : NGramPool) (pattern new_match : tokens) : result NGramPool :=
  match pool !! pattern with
  | None => Ok (<[pattern := [new_match]]> pool)
  | Some matches =>
      longer ← (if is_keep_all cfg then Ok false else first ← py_get matches 0; Ok (len first <? len new_match));
      if (longer : bool) then Ok (<[pattern := [new_match]]> pool)
      else if bool_decide (new_match ∈ matches) then Ok pool
      else Ok (<[pattern := drop_short (length new_match) matches ++ [new_match]]> pool)
  end.

(** [range(n, 0, -1)] *)
Definition sizes (n : Z) : list Z := (fun i => n - i) <$> seqZ 0 n.

Definition pair_at (sequence : tokens) (size l : Z) : tokens * tokens :=
  let r := Z.min (l + size + max_total_draft_tokens cfg) (len sequence) in
  (take (Z.to_nat size) (drop (Z.to_nat l) sequence), take (Z.to_nat (r - (l + size))) (drop (Z.to_nat (l + size)) sequence)).

Definition update_pool (pool : NGramPool) (sequence : tokens) (prefix_len : Z) : result NGramPool :=
  for_each (fun pool size =>
      for_each (fun pool l => let '(pattern, new_match) := pair_at sequence size l in add_pair pool pattern new_match)
        pool (seqZ 0 (len sequence - size)))
    pool (sizes (Z.min (max_matching_ngram_size cfg) (prefix_len - 1))).

Definition find_draft (pool : NGramPool) (prefix : tokens) (max_length : Z) : result tokens :=
  for_loop (fun draft size =>
      let pattern := drop (length prefix - Z.to_nat size) prefix in
      match pool !! pattern with
      | None => Ok (Continue draft)
      | Some matches => m ← py_get matches (if is_use_oldest cfg then 0 else -1); Ok (Break (take (Z.to_nat max_length) m))
      end) [] (sizes (Z.min (max_matching_ngram_size cfg) (len prefix - 1))).

Definition get_draft_tokens (self : NGramPoolManager) (prefix : tokens) (request_id max_sequence_length : Z) : result (tokens * NGramPoolManager) :=
  let prefix_len := len prefix in
  let max_draft_token_length_this_step := max_sequence_length - 1 - prefix_len in
  if max_draft_token_length_this_step <=? 0 then Ok ([], self)
  else
    let self := match start_index self !! request_id with
                | Some _ => self
                | None => mkNGramPoolManager (public_pool self)
                            (if is_public_pool cfg then private_pools self else <[request_id := ∅]> (private_pools self))
                            (<[request_id := 0]> (start_index self))
                end in
    pool ← (if is_public_pool cfg then Ok (public_pool self)
            else match private_pools self !! request_id with Some p => Ok p | None => Err KeyError end);
    let start := default 0 (start_index self !! request_id) in
    pool ← update_pool pool (drop (Z.to_nat start) prefix) prefix_len;
    draft_tokens ← find_draft pool prefix max_draft_token_length_this_step;
    let start := Z.max 0 (prefix_len - (max_total_draft_tokens cfg + max_matching_ngram_size cfg - 1)) in
    Ok (draft_tokens,
        mkNGramPoolManager (if is_public_pool cfg then pool else public_pool self)
          (if is_public_pool cfg then private_pools self else <[request_id := pool]> (private_pools self))
          (<[request_id := start]> (start_index self))).

(** The requests of a batch, with whether they are complete. *)
Definition update_resources (self : NGramPoolManager) (all_requests : list (Z * bool)) : NGramPoolManager :=
  if is_public_pool cfg then self
  else
    foldl (fun self '(request_id, complete) =>
        if (complete : bool) then
          match private_pools self !! request_id with
          | Some _ => mkNGramPoolManager (public_pool self) (delete request_id (private_pools self)) (delete request_id (start_index self))
          | None => self
          end
        else self) self all_requests.

(** ** Drafting for a batch *)

Record DraftRequest := mkDraftRequest {
  dr_id : Z;
  py_batch_idx : option Z;
  dr_tokens : tokens;
  py_orig_prompt_len : Z;
  py_max_new_tokens : Z;
  py_draft_tokens : tokens;
}.

(** [(r.py_batch_idx is None, r.py_batch_idx or r.request_id)]; zero counts as none in the
    second place. *)
Definition draft_key (r : DraftRequest) : bool * Z :=
  (is_none (py_batch_idx r), match py_batch_idx r with Some i => if i =? 0 then dr_id r else i | None => dr_id r end).

Definition draft_before (a b : DraftRequest) : bool :=
  let '(na, ka) := draft_key a in
  let '(nb, kb) := draft_key b in
  (negb na && nb) || (Bool.eqb na nb && (ka <=? kb)).

Definition with_draft (r : DraftRequest) (d : tokens) : DraftRequest :=
  mkDraftRequest (dr_id r) (py_batch_idx r) (dr_tokens r) (py_orig_prompt_len r) (py_max_new_tokens r) d.

(** The requests in the order in which they are given their drafts. *)
Definition prepare_draft_tokens (self : NGramPoolManager) (generation_requests : list DraftRequest) : result (NGramPoolManager * list DraftRequest) :=
  for_each (fun '(self, done) r =>
      '(d, self) ← get_draft_tokens self (dr_tokens r) (dr_id r) (py_orig_prompt_len r + py_max_new_tokens r);
      Ok (self, done ++ [with_draft r d]))
    (self, []) (sort_by draft_before generation_requests).

End Drafting.

(** ** What is in a pool *)

Section Pools.
Context (cfg : NGramConfig) (drop_short : nat -> list tokens -> list tokens).
Context (drop_short_sub : forall n ms m, m ∈ drop_short n ms -> m ∈ ms).
Context (draft_pos : 1 <= max_total_draft_tokens cfg) (ngram_nonneg : 0 <= max_matching_ngram_size cfg).

(** In [text] the pattern is followed by the match. *)
Definition followed (text pat m : tokens) : Prop := exists a b, text = a ++ pat ++ m ++ b.

Definition sound (text : tokens) (pool : NGramPool) : Prop :=
  forall pat ms, pool !! pat = Some ms ->
    ms <> [] /\ forall m, m ∈ ms -> m <> [] /\ len m <= max_total_draft_tokens cfg /\ followed text pat m.

Lemma sound_extend text text' pool : text `prefix_of` text' -> sound text pool -> sound text' pool.
Proof.
  intros [b' ->] Hs pat ms Hp. destruct (Hs pat ms Hp) as [Hne Hm]. split; [done|]. intros m Hin. destruct (Hm m Hin) as (? & ? & a & b & ->).
  split_and!; try done. exists a, (b ++ b'). by rewrite <- !app_assoc.
Qed.

Lemma add_pair_spec text pool pat m :
  sound text pool -> m <> [] -> len m <= max_total_draft_tokens cfg -> followed text pat m ->
  exists pool', add_pair cfg drop_short pool pat m = Ok pool' /\ sound text pool' /\ dom pool' = {[pat]} ∪ dom pool.
Proof.
  intros Hs Hm Hlen Hf. assert (Hput : forall ms, ms <> [] -> (forall m', m' ∈ ms -> m' = m \/ exists ms0, pool !! pat = Some ms0 /\ m' ∈ ms0) ->
    sound text (<[pat := ms]> pool) /\ dom (<[pat := ms]> pool) = {[pat]} ∪ dom pool).
  { intros ms Hne Hms. split; [|apply dom_insert_L]. intros pat' ms' [[<- <-]|[_ H]]%lookup_insert_Some; [|by apply Hs]. split; [done|].
    intros m' Hin. destruct (Hms m' Hin) as [->|(ms0 & H0 & Hin0)]; [done|]. by apply (Hs pat ms0). }
  unfold add_pair. destruct (pool !! pat) as [ms|] eqn:Ep.
  - destruct (Hs pat ms Ep) as [Hne Hms]. destruct ms as [|m0 ms]; [done|].
    assert (Hold : sound text pool /\ dom pool = {[pat]} ∪ dom pool) by (split; [done|]; apply elem_of_dom_2 in Ep; set_solver).
    assert (Hl : exists longer, (if is_keep_all cfg then Ok false else first ← py_get (m0 :: ms) 0; Ok (len first <? len m)) = Ok longer) by (destruct (is_keep_all cfg); eauto).
    destruct Hl as [longer ->]. cbn [mbind result_bind]. destruct longer; [|case_bool_decide as Hin]; eexists; (split; [done|]).
    + apply Hput; [done|]. intros m' ->%list_elem_of_singleton. by left.
    + done.
    + apply Hput; [by intros [_ ?]%app_nil|]. intros m' [Hd|Hd]%elem_of_app; [right; eauto|left; set_solver].
  - eexists. split; [done|]. apply Hput; [done|]. intros m' ->%list_elem_of_singleton. by left.
Qed.

(** The pair at a place of the end of a text. *)
Lemma pair_at_spec text (start : nat) (size l : nat) :
  (1 <= size)%nat -> (l + size < length (drop start text))%nat ->
  let '(pat, m) := pair_at cfg (drop start text) (Z.of_nat size) (Z.of_nat l) in
  pat = take size (drop (start + l) text) /\ m <> [] /\ len m <= max_total_draft_tokens cfg /\ followed text pat m.
Proof.
  intros Hsz Hl. unfold pair_at. set (r := Z.min _ _). set (n := Z.to_nat (r - (Z.of_nat l + Z.of_nat size))).
  rewrite Nat2Z.id. replace (Z.to_nat (Z.of_nat l)) with l by lia. replace (Z.to_nat (Z.of_nat l + Z.of_nat size)) with (l + size)%nat by lia.
  rewrite !drop_drop. rewrite length_drop in Hl. assert (Hn : (1 <= n <= Z.to_nat (max_total_draft_tokens cfg))%nat) by (unfold n, r; rewrite length_drop; lia).
  assert (Hlen : length (take n (drop (start + (l + size)) text)) = n) by (rewrite length_take, length_drop; unfold n, r; rewrite length_drop; lia).
  split_and!; [done|intros He; rewrite He in Hlen; simpl in Hlen; lia|rewrite Hlen; lia|].
  exists (take (start + l) text), (drop n (drop (start + (l + size)) text)). rewrite take_drop, Nat.add_assoc.
  rewrite <- (drop_drop text size (start + l)), take_drop, take_drop. done.
Qed.

Definition known_at (text : tokens) (start size l : nat) (pool : NGramPool) : Prop := take size (drop (start + l) text) ∈ dom pool.

Lemma add_pairs text (start size : nat) pool :
  sound text pool -> (1 <= size)%nat ->
  exists pool', for_each (fun pool l => let '(pattern, new_match) := pair_at cfg (drop start text) (Z.of_nat size) l in add_pair cfg drop_short pool pattern new_match)
      pool (seqZ 0 (len (drop start text) - Z.of_nat size)) = Ok pool' /\ sound text pool' /\ dom pool ⊆ dom pool'
    /\ forall l, (l + size < length (drop start text))%nat -> known_at text start size l pool'.
Proof.
  intros Hs Hsz. destruct (decide (len (drop start text) - Z.of_nat size <= 0)) as [Hle|Hgt].
  { rewrite seqZ_nil by done. exists pool. split_and!; try done. lia. }
  replace (len (drop start text) - Z.of_nat size) with (Z.of_nat (length (drop start text) - size)) by lia.
  destruct (for_range (fun pool l => let '(pattern, new_match) := pair_at cfg (drop start text) (Z.of_nat size) l in add_pair cfg drop_short pool pattern new_match)
    (fun k p => sound text p /\ dom pool ⊆ dom p /\ forall l, (l < k)%nat -> known_at text start size l p) (length (drop start text) - size) pool) as (p & Hr & Hp & Hd & Hk).
  - split_and!; [done|done|lia].
  - intros k p Hk (Hp & Hd & Hkn). pose proof (pair_at_spec text start size k Hsz ltac:(lia)) as Hpa. destruct (pair_at cfg (drop start text) (Z.of_nat size) (Z.of_nat k)) as [pat m].
    destruct Hpa as (Hpat & Hm & Hlm & Hf). destruct (add_pair_spec text p pat m Hp Hm Hlm Hf) as (p' & -> & Hp' & Hdom). exists p'. split; [done|]. split_and!; [done|set_solver|].
    intros l Hl. unfold known_at in *. rewrite Hdom. destruct (decide (l = k)) as [->|Hne]; [set_solver|]. specialize (Hkn l ltac:(lia)). set_solver.
  - exists p. split_and!; try done. intros l Hl. apply Hk. lia.
Qed.

Lemma sizes_nat n : sizes n = (fun k => Z.of_nat k) <$> reverse (seq 1 (Z.to_nat n)).
Proof.
  unfold sizes. apply list_eq. intros i. rewrite !list_lookup_fmap. destruct (decide (i < Z.to_nat n)%nat) as [Hi|Hi].
  - rewrite (proj2 (lookup_seqZ 0 n i (Z.of_nat i))) by lia. rewrite reverse_lookup by (rewrite length_seq; lia). rewrite length_seq, lookup_seq_lt by lia. simpl. f_equal. lia.
  - rewrite !lookup_ge_None_2; [done|rewrite length_reverse, length_seq; lia|rewrite length_seqZ; lia].
Qed.

Lemma update_pool_spec text (start : nat) pool :
  sound text pool ->
  exists pool', update_pool cfg drop_short pool (drop start text) (len text) = Ok pool' /\ sound text pool' /\ dom pool ⊆ dom pool'
    /\ forall size l, (1 <= size)%nat -> Z.of_nat size <= max_matching_ngram_size cfg -> (size < length text)%nat ->
         (l + size < length (drop start text))%nat -> known_at text start size l pool'.
Proof.
  intros Hs. unfold update_pool. rewrite sizes_nat. set (ss := reverse _).
  assert (Hss : forall k, k ∈ ss <-> (1 <= k)%nat /\ Z.of_nat k <= max_matching_ngram_size cfg /\ (k < length text)%nat).
  { intros k. unfold ss. rewrite elem_of_reverse, elem_of_seq. lia. }
  destruct (for_each_prefix_total (fun pool size => for_each (fun pool l => let '(pattern, new_match) := pair_at cfg (drop start text) size l in add_pair cfg drop_short pool pattern new_match)
      pool (seqZ 0 (len (drop start text) - size))) (fun pre p => sound text p /\ dom pool ⊆ dom p
    /\ forall size l, Z.of_nat size ∈ pre -> (l + size < length (drop start text))%nat -> known_at text start size l p) ((fun k => Z.of_nat k) <$> ss) pool) as (p & Hr & Hp & Hd & Hk).
  - split_and!; [done|done|]. intros size l Hin. by apply not_elem_of_nil in Hin.
  - intros pre x post p Hl (Hp & Hd & Hk). assert (Hx : x ∈ (fun k => Z.of_nat k) <$> ss) by (rewrite Hl; set_solver). apply list_elem_of_fmap in Hx as (k & -> & Hx).
    destruct (add_pairs text start k p Hp) as (p' & -> & Hp' & Hd' & Hk'); [by apply Hss|]. exists p'. split; [done|]. split_and!; [done|set_solver|].
    intros size l [Hin|Hin]%elem_of_app Hlt; [unfold known_at in *; by apply Hd', Hk|]. apply list_elem_of_singleton in Hin. replace size with k by lia. apply Hk'. lia.
  - exists p. split_and!; try done. intros size l H1 H2 H3 H4. apply Hk; [|done]. apply list_elem_of_fmap. exists size. split; [done|]. by apply Hss.
Qed.

(** ** The draft is what followed the longest pattern *)

Abbreviation suffix text k := (drop (length text - k) text).

(** A run of tokens that has come before, with something after it. *)
Definition came_before (text pat : tokens) : Prop := exists a x b, text = a ++ pat ++ x :: b.

Definition complete (text : tokens) (pool : NGramPool) : Prop :=
  forall pat, came_before text pat -> pat <> [] -> len pat <= max_matching_ngram_size cfg -> pat ∈ dom pool.

Lemma sound_came text pool pat : sound text pool -> pat ∈ dom pool -> came_before text pat.
Proof.
  intros Hs [ms Hms]%elem_of_dom. destruct (Hs pat ms Hms) as [Hne Hm]. destruct ms as [|m ms]; [done|]. destruct (Hm m) as (Hm0 & _ & a & b & ->); [set_solver|].
  destruct m as [|x m]; [done|]. exists a, x, (m ++ b). done.
Qed.

Definition draft_body (pool : NGramPool) (text : tokens) (n : Z) (draft : tokens) (size : Z) : result (ctl tokens) :=
  match pool !! suffix text (Z.to_nat size) with
  | None => Ok (Continue draft)
  | Some matches => m ← py_get matches (if is_use_oldest cfg then 0 else -1); Ok (Break (take (Z.to_nat n) m))
  end.

Lemma draft_loop pool text n k :
  sound text pool ->
  exists d, for_loop (draft_body pool text n) [] ((fun k => Z.of_nat k) <$> reverse (seq 1 k)) = Ok d
    /\ ((d = [] /\ forall j, (1 <= j <= k)%nat -> suffix text j ∉ dom pool)
        \/ exists j m, (1 <= j <= k)%nat /\ d = take (Z.to_nat n) m /\ m <> [] /\ len m <= max_total_draft_tokens cfg /\ followed text (suffix text j) m
             /\ forall j', (j < j' <= k)%nat -> suffix text j' ∉ dom pool).
Proof.
  intros Hs. induction k as [|k IH]; [exists []; split; [done|]; left; split; [done|lia]|].
  rewrite seq_S, reverse_app, reverse_singleton. simpl app. rewrite fmap_cons. cbn [for_loop]. unfold draft_body at 1. rewrite Nat2Z.id.
  destruct (pool !! suffix text (S k)) as [ms|] eqn:Ep.
  - destruct (Hs _ _ Ep) as [Hne Hm]. assert (Hget : exists m, py_get ms (if is_use_oldest cfg then 0 else -1) = Ok m /\ m ∈ ms).
    { destruct ms as [|m0 ms]; [done|]. destruct (is_use_oldest cfg); [exists m0; split; [done|set_solver]|].
      destruct (last (m0 :: ms)) as [x|] eqn:El; [|by apply last_None in El]. rewrite last_lookup in El. exists x. split; [|by eapply list_elem_of_lookup_2].
      apply py_get_Ok. exists (Nat.pred (length (m0 :: ms))). split; [|done]. unfold py_pos. simpl. destruct (Z.leb_spec (- Z.of_nat (S (length ms))) (-1)); [|lia]. simpl. f_equal. lia. }
    destruct Hget as (m & -> & Hin). cbn [mbind result_bind]. destruct (Hm m Hin) as (? & ? & ?). eexists. split; [done|]. right. exists (S k), m. split_and!; try done; lia.
  - apply not_elem_of_dom in Ep. destruct IH as (d & Hr & [[-> Hnone]|(j & m & Hj & -> & H1 & H2 & H3 & H4)]).
    + exists []. split; [done|]. left. split; [done|]. intros j Hj. destruct (decide (j = S k)) as [->|]; [done|apply Hnone; lia].
    + eexists. split; [exact Hr|]. right. exists j, m. split_and!; try done; [lia..|]. intros j' Hj'. destruct (decide (j' = S k)) as [->|]; [done|apply H4; lia].
Qed.

Lemma find_draft_spec pool text n :
  sound text pool ->
  exists d, find_draft cfg pool text n = Ok d
    /\ ((d = [] /\ forall j, (1 <= j)%nat -> Z.of_nat j <= max_matching_ngram_size cfg -> (j < length text)%nat -> suffix text j ∉ dom pool)
        \/ exists j m, (1 <= j)%nat /\ d = take (Z.to_nat n) m /\ m <> [] /\ len m <= max_total_draft_tokens cfg /\ followed text (suffix text j) m
             /\ forall j', (j < j')%nat -> Z.of_nat j' <= max_matching_ngram_size cfg -> (j' < length text)%nat -> suffix text j' ∉ dom pool).
Proof.
  intros Hs. unfold find_draft. rewrite sizes_nat. fold (draft_body pool text n).
  destruct (draft_loop pool text n (Z.to_nat (Z.min (max_matching_ngram_size cfg) (len text - 1))) Hs) as (d & -> & [[-> Hnone]|(j & m & Hj & -> & H1 & H2 & H3 & H4)]).
  - exists []. split; [done|]. left. split; [done|]. intros j H1 H2 H3. apply Hnone. lia.
  - eexists. split; [done|]. right. exists j, m. split_and!; try done; [lia|]. intros j' H5 H6 H7. apply H4. lia.
Qed.

(** What the manager has for a request whose tokens were [old] at the last call. *)
Definition tracked (self : NGramPoolManager) (r : Z) (old : tokens) : Prop :=
  match start_index self !! r with
  | None => old = []
  | Some start => start = Z.max 0 (len old - (max_total_draft_tokens cfg + max_matching_ngram_size cfg - 1))
      /\ exists pool, private_pools self !! r = Some pool /\ sound old pool /\ complete old pool
  end.

(** No occurrence is missed between the calls. *)
Lemma complete_update old text pool pool' (start : nat) :
  old `prefix_of` text -> start = Z.to_nat (Z.max 0 (len old - (max_total_draft_tokens cfg + max_matching_ngram_size cfg - 1))) ->
  complete old pool -> dom pool ⊆ dom pool' ->
  (forall size l, (1 <= size)%nat -> Z.of_nat size <= max_matching_ngram_size cfg -> (size < length text)%nat ->
     (l + size < length (drop start text))%nat -> known_at text start size l pool') -> complete text pool'.
Proof.
  intros [b' ->] Hstart Hc Hd Hk pat (a & x & b & He) Hne Hle. destruct (decide (length a + length pat < length old)%nat) as [Hin|Hout].
  - apply Hd, Hc; [|done|done]. apply (f_equal (take (length old))) in He. rewrite take_app_length in He. exists a, x, (take (length old - length a - length pat - 1) b).
    etransitivity; [exact He|]. rewrite take_app_ge by lia. rewrite take_app_ge by lia. do 2 f_equal. destruct (length old - length a - length pat)%nat as [|n] eqn:En; [lia|]. simpl. by rewrite Nat.sub_0_r.
  - assert (Hp : (1 <= length pat)%nat) by (destruct pat; [done|simpl; lia]).
    assert (Hl : length (old ++ b') = (length a + length pat + S (length b))%nat) by (rewrite He, !length_app; simpl; lia).
    specialize (Hk (length pat) (length a - start)%nat). unfold known_at in Hk. replace (start + (length a - start))%nat with (length a) in Hk by lia.
    rewrite He in Hk at 3. rewrite drop_app_length, take_app_length in Hk. apply Hk; [done|done|lia|]. rewrite length_drop. lia.
Qed.

(** C20. The draft for a request with its own pool is no longer than the request may still
    grow and than configured.  It is what followed an earlier occurrence of the longest
    run, of those not longer than configured, that the tokens end with and that has
    come before; there is a draft whenever there is such a run. *)
Theorem ngram_drafts self r old text max_sequence_length :
  is_public_pool cfg = false -> tracked self r old -> old `prefix_of` text ->
  exists d self', get_draft_tokens cfg drop_short self text r max_sequence_length = Ok (d, self')
    /\ len d <= Z.max 0 (max_sequence_length - 1 - len text) /\ len d <= max_total_draft_tokens cfg
    /\ (tracked self' r text \/ self' = self)
    /\ (0 < max_sequence_length - 1 - len text ->
        let may j := (1 <= j < length text)%nat /\ Z.of_nat j <= max_matching_ngram_size cfg /\ came_before text (suffix text j) in
        (d = [] /\ forall j, ~ may j) \/ (d <> [] /\ exists j, (1 <= j)%nat /\ followed text (suffix text j) d /\ forall j', (j < j')%nat -> ~ may j')).
Proof.
  intros Hpub Htr Hpre. unfold get_draft_tokens. cbv zeta. rewrite Hpub. destruct (Z.leb_spec (max_sequence_length - 1 - len text) 0) as [Hle|Hgt].
  { exists [], self. split; [done|]. split_and!; [simpl; lia|simpl; lia|by right|lia]. }
  set (self1 := match start_index self !! r with Some _ => self | None => _ end).
  assert (H1 : exists pool, private_pools self1 !! r = Some pool /\ sound old pool /\ complete old pool
    /\ default 0 (start_index self1 !! r) = Z.max 0 (len old - (max_total_draft_tokens cfg + max_matching_ngram_size cfg - 1))).
  { unfold tracked in Htr. unfold self1. destruct (start_index self !! r) as [start|] eqn:Es.
    - destruct Htr as (-> & pool & Hp & Hs & Hc). exists pool. rewrite Es. done.
    - subst old. exists ∅. simpl. rewrite !lookup_insert_eq. split_and!; [done|by intros pat ms|intros pat (a & x & b & He%(f_equal length)); rewrite !length_app in He; simpl in He; lia|simpl; lia]. }
  destruct H1 as (pool & Hp & Hs & Hc & Hst). rewrite Hp. cbn [mbind result_bind]. rewrite Hst. set (start := Z.to_nat _).
  destruct (update_pool_spec text start pool (sound_extend _ _ _ Hpre Hs)) as (pool' & -> & Hs' & Hd & Hk). cbn [mbind result_bind].
  pose proof (complete_update old text pool pool' start Hpre eq_refl Hc Hd Hk) as Hc'.
  assert (Hmay : forall j, (1 <= j < length text)%nat -> Z.of_nat j <= max_matching_ngram_size cfg -> came_before text (suffix text j) -> suffix text j ∈ dom pool').
  { intros j Hj Hjn Hcame. assert (Hlj : length (suffix text j) = j) by (rewrite length_drop; lia). apply Hc'; [done|intros He; rewrite He in Hlj; simpl in Hlj; lia|lia]. }
  destruct (find_draft_spec pool' text (max_sequence_length - 1 - len text) Hs') as (d & -> & Hdraft). cbn [mbind result_bind]. eexists d, _. split; [done|].
  assert (Htrack : tracked (mkNGramPoolManager (public_pool self1) (<[r := pool']> (private_pools self1))
    (<[r := Z.max 0 (len text - (max_total_draft_tokens cfg + max_matching_ngram_size cfg - 1))]> (start_index self1))) r text).
  { unfold tracked. simpl. rewrite !lookup_insert_eq. eauto. }
  destruct Hdraft as [[-> Hnone]|(j & m & Hj & -> & Hm & Hlm & (a & b & He) & Hlong)].
  - split_and!; [simpl; lia|simpl; lia|by left|]. intros _. left. split; [done|]. intros j ([Hj1 Hj2] & Hjn & Hcame). apply (Hnone j); try done. by apply Hmay.
  - rewrite length_take. split_and!; [lia|lia|by left|]. intros _. right. split.
    + intros H0%(f_equal length). rewrite length_take in H0. destruct m; [done|]. simpl in H0. lia.
    + exists j. split; [done|]. split; [|intros j' Hj' ([Hj1 Hj2] & Hjn & Hcame); apply (Hlong j'); try done; by apply Hmay].
      exists a, (drop (Z.to_nat (max_sequence_length - 1 - len text)) m ++ b). rewrite He at 1. do 2 f_equal. by rewrite app_assoc, take_drop.
Qed.

End Pools.

Definition keep_long (n : nat) (ms : list tokens) : list tokens := filter (fun m => (n <= length m)%nat) ms.

Lemma keep_long_sub n ms m : m ∈ keep_long n ms -> m ∈ ms.
Proof. by intros [_ ?]%list_elem_of_filter. Qed.

Definition example_config (keep_all : bool) : NGramConfig := mkNGramConfig 2 3 keep_all true false.

Lemma ngram_drafts_witness :
  exists self', get_draft_tokens (example_config true) keep_long NGramPoolManager_init [1; 2; 3; 4; 1; 2] 9 20 = Ok ([3; 4], self')
    /\ tracked (example_config true) self' 9 [1; 2; 3; 4; 1; 2].
Proof.
  destruct (ngram_drafts (example_config true) keep_long keep_long_sub ltac:(done) ltac:(done) NGramPoolManager_init 9 [] [1; 2; 3; 4; 1; 2] 20)
    as (d & self' & Hd & _ & _ & Htr & _); [done|done|apply prefix_nil|].
  assert (He : exists s, get_draft_tokens (example_config true) keep_long NGramPoolManager_init [1; 2; 3; 4; 1; 2] 9 20 = Ok ([3; 4], s)
    /\ start_index s !! 9 = Some 2) by (eexists; split; by vm_compute).
  destruct He as (s & Hs & Hi). rewrite Hd in Hs. injection Hs as -> ->. exists s. split; [done|]. destruct Htr as [?| ->]; [done|].
  vm_compute in Hi. congruence.
Defined.

(** Where one match is to be kept for a pattern, a second one is added to the first if it
    is not longer: the pattern 1 is followed by 2, 3 and then by 4, 5. *)
Theorem second_match_kept :
  match get_draft_tokens (example_config false) keep_long NGramPoolManager_init [1; 2; 3; 1; 4; 5; 1] 9 20 with
  | Ok (_, self) => (private_pools self !! 9 ≫= fun p => p !! [1]) = Some [[2; 3]; [4; 5]]
  | Err _ => False
  end.
Proof. by vm_compute. Qed.
